(* ===== verification/_CoqProject ===== *)
-Q . S2P
Prelude.v
RustStr.v
Otlp.v
Frame.v
EdgeWire.v
Core.v
PgTypes.v
PgSchema.v
PgStore.v
PgInvariant.v
PgReplay.v
PgTheorems.v
PgTenancy.v
PgConcurrency.v
PgExamples.v
Sequence.v
AgentConfig.v
Exporter.v
Pipeline.v
DeviceSocket.v
DatabaseLogs.v
Json.v
ServerConfig.v
Auth.v
Ingress.v
Api.v
ApiStream.v
RustFloat.v
RustText.v
SystemMetrics.v
SystemTables.v
Receiver.v
ReceiverLoop.v
FileShare.v
FeFormat.v
FeSignal.v
FeAlert.v
FeEdge.v
FeProfile.v
FeStorage.v
FeDashboard.v
FeDashInv.v
FeDashRun.v
FeDashView.v
WebCloud.v
WebIngress.v
WebExact.v
WebStorage.v
Nodes.v
VrmJson.v
VrmMtoon.v
VrmGlb.v
VrmOrder.v
VrmGraph.v
VrmBuffers.v
VrmAnimation.v
VrmFloat.v
VrmHumanoid.v
VrmRig.v
VrmSpring.v
VrmPlayback.v
VrmMix.v
VrmScene.v
VrmDrawable.v
VrmShader.v
VrmLoad.v
VrmModel.v
VrmRuntime.v
VrmWeights.v
VrmFrame.v
VrmCache.v
VrmRender.v
VrmDraws.v
VrmStage.v
FloatRound.v
FeLayout.v
FeAgents.v
FeSettings.v
FeView.v
FeApp.v
