(* ===== verification/Prelude.v ===== *)
(** * Skid Monitor: a verification development

    Skid Monitor collects telemetry on hosts and small devices and shows it in
    a control room, directly or through a multi-tenant cloud.  This library
    models its Rust crates (src/ of the repository) as executable definitions
    and proves what makes them correct.

    ** The program

    - Devices and stand-alone nodes (skid-edge-agent, skid-file-node,
      skid-compute-advisor) encode samples in the compact format of
      skid-edge-wire, or as JSON, and send one length-prefixed frame to the
      agent's device socket.
    - The agent (skid-monitor-agent) also samples its host, tails database
      logs and receives OTLP.  It routes every signal through the pipeline of
      its receiver to exporters: a control room, the log, or a cloud server,
      whose requests it authenticates and numbers from a durable state file.
    - The cloud server (skid-monitor-server) has two planes.  The ingress
      plane verifies an agent's token and appends its signal, with its
      sequence number, to a PostgreSQL store; the client plane serves replay,
      projections, tickets, administration and a live stream per tenant.
    - The control room (skid-monitor-fe) receives frames from agents (through
      skid-monitor-client) or, in the browser, the stream of the cloud server.
      It turns them into samples, rows and alerts, persists the rows locally
      and shows a character (a VRM model) that reacts to the alerts.

    ** The files, and the code they model

    Shared:
    - Prelude: results, machine integers, bytes, panicking slices, the
      [ensures] calculus for fallible code, list lemmas, tactics and hints.
    - RustStr, RustText, RustFloat: str and char methods, text files, floating
      point to text.  Json: serde_json values.
    Protocol and core:
    - Otlp (skid-protocol: metrics.rs, protocol.rs), Frame (frame.rs),
      EdgeWire (skid-edge-wire/lib.rs), Core (skid-monitor-core).
    Cloud store (skid-monitor-server/store.rs and its migration):
    - PgTypes data and limits, PgSchema startup checks, PgStore every
      operation on an explicit database, PgConcurrency transactions as a step
      relation.  PgInvariant, PgReplay, PgTheorems, PgTenancy: its theorems;
      PgExamples: a concrete history for the witnesses.
    Agent:
    - Sequence (the state file of exporters.rs, with crashes), AgentConfig
      (config.rs), Exporter and Pipeline (exporters.rs, transport.rs,
      pipeline.rs, otlp_receiver.rs), DeviceSocket (device_socket.rs),
      DatabaseLogs (database_logs.rs), SystemMetrics and SystemTables
      (system_metrics.rs).
    Cloud server:
    - ServerConfig (config.rs), Auth (auth.rs), Ingress (ingress.rs), Api and
      ApiStream (api.rs).
    Client and control room:
    - Receiver, ReceiverLoop, FileShare (skid-monitor-client).
    - FeFormat, FeSignal, FeAlert, FeEdge, FeProfile, FeStorage (utils.rs,
      signal.rs, alert.rs, edge.rs, model/, storage/); FeDashboard (state/)
      with its invariants and runs in FeDashInv, FeDashRun and FeDashView.
    - WebCloud, WebIngress, WebStorage: the browser build (platform/ingress,
      storage/web.rs); WebExact: its composition with the server's stream.
    Nodes: the three stand-alone node programs.
    Character model (components/avatar/vrm/loader.rs, animation.rs,
    custom_shader.rs and runtime.rs):
    - VrmJson fields, VrmGlb container, VrmMtoon materials, VrmOrder and
      VrmGraph node graph and dependency order, VrmBuffers accessors, skins
      and textures, VrmHumanoid, VrmRig expressions, look-at and constraints,
      VrmSpring spring bones, VrmScene and VrmDrawable meshes, VrmShader the
      custom shader, VrmLoad and VrmModel the loader that composes them.
    - VrmAnimation clips and the mixer; VrmPlayback and VrmMix that they play.
    - VrmRuntime the evaluation of a frame (constraints, look-at, spring
      bones, expressions); VrmWeights its morph weights, VrmFrame the frames
      of a loaded model.  VrmFloat is the single-precision arithmetic that
      these proofs need.
    - VrmCache (avatar/model.rs) the cache of the model and its loader thread;
      VrmRender (vrm/renderer.rs) what is asked of the GPU, VrmDraws the rules
      of wgpu, that no call breaks them, and what a frame leaves on the GPU;
      VrmStage (avatar.rs) the character that is shown.
    Interface of the control room:
    - FloatRound rounding of single precision sums and quotients; FeLayout
      (components/layout.rs, main_panels.rs, pages/) the sizes of panels,
      columns and pages.
    - FeAgents (components/agents.rs, pages/overview.rs) the agents panel and
      the overview; FeSettings (ui_settings/) the settings and the draft of
      the character; FeView (view.rs, app.rs, pages/detail.rs) a whole frame
      of the application and what it keeps; FeApp its runs, and the character
      that they draw.

    ** How code becomes definitions

    A function is a Definition or Fixpoint of the same name; [Result] is
    [result], [Option] is [option]; a [?] is the bind of [result].  State that
    the code mutates is passed and returned, all of it.  Integers are [Z] with
    their width written out where the code checks or can exceed it; floats
    are IEEE 754 [spec_float]s.  Strings are byte strings.  A HashMap is a
    [gmap]; where the code depends on an order, lists are used.  Threads,
    transactions, browser events and crashes are step relations; their runs
    are quantified over all interleavings.

    Third-party code is an interface: a type class whose operations the
    definitions use (serde_json, YAML, URL and UUID parsers, jsonwebtoken,
    HTTP, gltf, image, glam and others), with a class of laws where a theorem
    needs documented behaviour of it.  What the operating system, the network
    or the clock answers is an argument.  Every property that assumes laws
    has a witness in which they are proved for a concrete instance.

    ** What the theorems show

    - Exactly once: an append is stored once however often it is retried
      ([append_exactly_once], [append_retry]); readers never skip a cursor
      under concurrent appends ([reader_never_skips]); replay, the server's
      live stream and the browser's reconnecting client together deliver every
      event once, in order ([replay_follows_all], [stream_exact],
      [browser_stream_exact]).
    - Durability: sequence numbers increase across crashes and power loss and
      are persisted before a request is sent ([sequences_increase],
      [sequence_durable], [send_after_persist]); an acknowledged signal is
      stored ([ingest_ack_durable]); the storage worker drains its queue
      before it ends ([worker_drains_before_done]).
    - Tenancy and authority: the store, the client plane and the browser's
      storage keep tenants apart ([tenant_isolation], [api_refines_store],
      [browser_scope_isolated]); tokens are verified and key refreshes bounded
      ([verify_bearer_authorized], [jwks_refresh_bounded]); tickets work once
      and in time ([stream_ticket_once]); an administrative operation makes
      its change and is audited, or changes nothing ([admin_changes_audited]); servers start only with safe settings
      ([server_config_safe], [verify_ready_correct]).
    - Round trips and parsers: frames, edge-wire records and signals come back
      as they were sent, and bad input is an error and not a panic
      ([device_roundtrip], [decode_metrics_frame_iff], [append_then_load]);
      log files are exported line by line and kernel tables read exactly ([tail_exact],
      [host_metrics_exact]).
    - The control room: its invariant under every message, its views, its
      alerts as an abstraction of rules, and its persisted state,
      of up to 512 nodes ([dashboard_keeps_invariant], [dashboard_view_exact],
      [alerts_refine_conditions], [restart_restores_edges]); a peer cannot
      hold the receiver, and its threads stop ([deadline_read_exact],
      [receiver_loop_safe]).
    - The application: over every run of its frames, whatever is clicked,
      typed and dropped, the dashboard and the interface keep their invariant
      ([app_keeps_invariant]); nothing is removed by one click
      ([removal_confirmed]); the character on the screen is that of the
      applied profile, with its reaction to the worst alert
      ([app_shows_character]); panels keep their minimum sizes
      however the window is resized ([layout_fits]).
    - The character: whatever bytes a model has, loading ends, and what is
      accepted is what the file holds and refers only to what exists ([model_accepted],
      [accessor_reads_inside], [mtoon_accepted_ok]); accepted clips can be
      played and mixed at any time, with the values of their keys ([clips_playable], [mixer_total]); every
      frame of a loaded model is drawn, from any state ([frame_drawn]), and
      however loads, changes of profile and frames interleave, what the GPU
      shows is the model of the current profile ([stage_shows_current]); a
      load ends while its thread runs ([cache_settles]).

    ** Bounds and fuel

    Recursion that is not structural takes fuel, and the theorems give results
    for all fuel above a stated bound.  A turn of a reading loop consumes one
    event of the socket, so more fuel than events is enough (Frame,
    DeviceSocket, Receiver); a chunk of a response has at least one byte, so
    more fuel than bytes ([page_items]); a page of a replay has at least one
    record, so more fuel than records ([follow]).  The edge-wire
    iterator and the trimming loops get the length of their input.  In the
    character loader the recursion is bounded by the program itself
    ([MAX_NODE_DEPTH]), by the number of constraints or by the number of
    nodes; the loop that shares a height fixes one panel a turn, so one more
    than the panels ([flex_loop]). [topo_exact], [hierarchy_exact] and
    [springs_exact] prove that the fuel is never exhausted ([None] is not
    returned).

    ** Not modelled, and why

    Process start-up and the binding of sockets (tokio and eframe glue), the
    OpenTelemetry instruments of the agent, and the drawing with egui: colours,
    texts of labels, tables, charts and the header pass modelled values to the
    library and keep no state of their own that the other parts rely on.  What
    egui reports to a frame (clicks, texts, dropped files, the size of the
    window and how far a handle was dragged) is an argument of the frame. *)

From stdpp Require Export prelude strings gmap list.
From Stdlib Require Export ZArith Lia.
From Stdlib Require Export Strings.Byte.
From Stdlib Require Sorted.

(** ** Scopes *)

Declare Scope skid_scope.
Delimit Scope skid_scope with skid.

#[global] Open Scope Z_scope.

(** ** Results

    [Result<A, E>].  The error type comes first so that [result E] is a monad
    for stdpp's [x ← c; k] notation, which plays the part of the [?]
    operator. *)

Inductive result (E A : Type) : Type :=
| Ok (a : A)
| Err (e : E).

Arguments Ok {E A} a.
Arguments Err {E A} e.

#[global] Instance result_ret {E} : MRet (result E) := λ A, Ok.
#[global] Instance result_bind {E} : MBind (result E) :=
  λ A B f r, match r with Ok a => f a | Err e => Err e end.
#[global] Instance result_fmap {E} : FMap (result E) :=
  λ A B f r, match r with Ok a => Ok (f a) | Err e => Err e end.

#[global] Instance result_eq_dec {E A} `{EqDecision E, EqDecision A} :
  EqDecision (result E A).
Proof. solve_decision. Defined.

(** [Result::map_err] *)
Definition map_err {E F A} (f : E → F) (r : result E A) : result F A :=
  match r with Ok a => Ok a | Err e => Err (f e) end.

(** [Option::ok_or] and [Option::ok_or_else] *)
Definition ok_or {E A} (o : option A) (e : E) : result E A :=
  match o with Some a => Ok a | None => Err e end.

(** [Result::ok] *)
Definition result_ok {E A} (r : result E A) : option A :=
  match r with Ok a => Some a | Err _ => None end.

Definition is_ok {E A} (r : result E A) : bool :=
  match r with Ok _ => true | Err _ => false end.

(** [iter.map(f).collect::<Result<Vec<_>, _>>()]: stops at the first error. *)
Fixpoint try_map {E A B} (f : A → result E B) (l : list A) : result E (list B) :=
  match l with
  | [] => Ok []
  | x :: t => y ← f x; ys ← try_map f t; Ok (y :: ys)
  end.

(** ** Machine integers

    Fixed-width integers are [Z]; the wrap-around, saturation and overflow
    tests of the source are written out where it uses them. *)

Definition u8_max : Z := 255.
Definition u16_max : Z := 65535.
Definition u32_max : Z := 2 ^ 32 - 1.
Definition u64_max : Z := 2 ^ 64 - 1.
Definition i64_max : Z := 2 ^ 63 - 1.
Definition i64_min : Z := - 2 ^ 63.

Definition in_u64 (z : Z) : Prop := 0 ≤ z ≤ u64_max.
Definition in_u16 (z : Z) : Prop := 0 ≤ z ≤ u16_max.

(** [u64::saturating_add], [u64::saturating_sub], [u64::checked_add] *)
Definition sat_add (a b : Z) : Z := Z.min (a + b) u64_max.
Definition sat_sub (a b : Z) : Z := Z.max (a - b) 0.
Definition checked_add (a b : Z) : option Z :=
  if a + b <=? u64_max then Some (a + b) else None.

(** [x as i64] on a 64-bit pattern *)
Definition as_i64 (z : Z) : Z := (z + 2 ^ 63) `mod` 2 ^ 64 - 2 ^ 63.
(** [x as u64] on an integer *)
Definition as_u64 (z : Z) : Z := z `mod` 2 ^ 64.

(** [Vec::len], as the [usize] the source compares. *)
Definition zlen {A} (l : list A) : Z := Z.of_nat (length l).

Lemma zlen_nonneg {A} (l : list A) : 0 ≤ zlen l.
Proof. unfold zlen; lia. Qed.
Lemma zlen_nil {A} : zlen (@nil A) = 0.
Proof. done. Qed.
Lemma zlen_cons {A} (x : A) l : zlen (x :: l) = 1 + zlen l.
Proof. unfold zlen; simpl; lia. Qed.
Lemma zlen_app {A} (l k : list A) : zlen (l ++ k) = zlen l + zlen k.
Proof. unfold zlen; rewrite length_app; lia. Qed.
Lemma zlen_map {A B} (f : A → B) l : zlen (f <$> l) = zlen l.
Proof. unfold zlen; by rewrite length_fmap. Qed.
Lemma zlen_nil_inv {A} (l : list A) : zlen l = 0 → l = [].
Proof. destruct l; [done|]. rewrite zlen_cons. pose proof (zlen_nonneg l). lia. Qed.

Create HintDb skid discriminated.
Create Rewrite HintDb skid.
#[export] Hint Rewrite @zlen_cons @zlen_app @zlen_map : skid.
#[export] Hint Resolve zlen_nonneg : skid.

Lemma sat_add_bounds a b : 0 ≤ a → 0 ≤ b → in_u64 (sat_add a b).
Proof. unfold in_u64, sat_add, u64_max. lia. Qed.
Lemma sat_add_comm_r a b c : 0 ≤ a → 0 ≤ b → 0 ≤ c →
  sat_add (sat_add a b) c = sat_add (sat_add a c) b.
Proof. unfold sat_add, u64_max. lia. Qed.
Lemma sat_add_ge a b : a ≤ u64_max → 0 ≤ b → a ≤ sat_add a b.
Proof. unfold sat_add. lia. Qed.

(** ** Bytes *)

Definition b2z (b : byte) : Z := Z.of_N (Byte.to_N b).
(** The byte of an integer modulo 256: [x as u8]. *)
Definition u8 (z : Z) : byte := default "000"%byte (Byte.of_N (Z.to_N (z `mod` 256))).

#[global] Instance byte_eq_dec : EqDecision byte := Byte.byte_eq_dec.
#[global] Program Instance byte_countable : Countable byte :=
  inj_countable Byte.to_N Byte.of_N _.
Next Obligation. intros b. apply Byte.of_to_N. Qed.

Lemma b2z_range b : 0 ≤ b2z b < 256.
Proof. unfold b2z. pose proof (Byte.to_N_bounded b). lia. Qed.

Lemma b2z_u8 z : b2z (u8 z) = z `mod` 256.
Proof.
  unfold b2z, u8.
  destruct (Byte.of_N (Z.to_N (z `mod` 256))) as [b|] eqn:Hb; simpl.
  - apply Byte.to_of_N in Hb. rewrite Hb. pose proof (Z.mod_pos_bound z 256). lia.
  - apply Byte.of_N_None_iff in Hb. pose proof (Z.mod_pos_bound z 256). lia.
Qed.

Lemma b2z_inj b c : b2z b = b2z c → b = c.
Proof.
  unfold b2z. intros H%N2Z.inj.
  pose proof (Byte.of_to_N b). pose proof (Byte.of_to_N c). congruence.
Qed.

Lemma u8_b2z b : u8 (b2z b) = b.
Proof. apply b2z_inj. rewrite b2z_u8. apply Z.mod_small, b2z_range. Qed.

Lemma b2z_u8_small z : 0 ≤ z < 256 → b2z (u8 z) = z.
Proof. intros. rewrite b2z_u8. by apply Z.mod_small. Qed.

(** ** Big-endian words: [to_be_bytes] and [from_be_bytes] *)

Fixpoint to_be (n : nat) (z : Z) : list byte :=
  match n with
  | O => []
  | S n => to_be n (z `div` 256) ++ [u8 z]
  end.

Definition from_be (l : list byte) : Z := foldl (λ acc b, acc * 256 + b2z b) 0 l.

Lemma length_to_be n z : length (to_be n z) = n.
Proof. revert z; induction n; intros z; simpl; [done|]. rewrite length_app, IHn. simpl. lia. Qed.

Lemma from_be_snoc l b : from_be (l ++ [b]) = from_be l * 256 + b2z b.
Proof. unfold from_be. by rewrite foldl_app. Qed.

Lemma from_be_bound l : 0 ≤ from_be l < 256 ^ zlen l.
Proof.
  induction l as [|b l IH] using rev_ind; [done|].
  rewrite from_be_snoc, zlen_app, zlen_cons. change (zlen (@nil byte)) with 0.
  rewrite Z.add_0_r, Z.pow_add_r, Z.pow_1_r by (auto with skid; lia).
  pose proof (b2z_range b). lia.
Qed.

Lemma from_be_to_be n z : from_be (to_be n z) = z `mod` 256 ^ Z.of_nat n.
Proof.
  revert z; induction n as [|n IH]; intros z; simpl.
  - by rewrite Z.mod_1_r.
  - rewrite from_be_snoc, IH, b2z_u8.
    rewrite Nat2Z.inj_succ, Z.pow_succ_r by lia.
    rewrite (Z.rem_mul_r z 256 (256 ^ Z.of_nat n)) by lia. lia.
Qed.

Lemma from_be_to_be_small n z :
  0 ≤ z < 256 ^ Z.of_nat n → from_be (to_be n z) = z.
Proof. intros. rewrite from_be_to_be. by apply Z.mod_small. Qed.

Lemma to_be_from_be l : to_be (length l) (from_be l) = l.
Proof.
  induction l as [|b l IH] using rev_ind; [done|].
  rewrite from_be_snoc, length_app, Nat.add_comm. simpl.
  pose proof (b2z_range b).
  rewrite Z.div_add_l, Z.div_small, Z.add_0_r by lia. rewrite IH.
  do 2 f_equal. apply b2z_inj. rewrite b2z_u8, Z.add_comm, Z_mod_plus_full.
  by apply Z.mod_small.
Qed.

(** ** Panics

    [None] is a Rust panic (a slice out of range, a failed [expect]): the
    definitions that index a buffer return [option], and the theorems show
    that the program never takes that branch. *)

Abbreviation may_panic A := (option A).

(** [&l[a..b]] *)
Definition slice {A} (l : list A) (a b : nat) : may_panic (list A) :=
  if (a <=? b)%nat && (b <=? length l)%nat then Some (take (b - a) (drop a l)) else None.

(** [out[a..b].copy_from_slice(src)]: both ranges must have the same length. *)
Definition copy_into {A} (out : list A) (a b : nat) (src : list A) : may_panic (list A) :=
  if (a <=? b)%nat && (b <=? length out)%nat && (length src =? b - a)%nat
  then Some (take a out ++ src ++ drop b out) else None.

Lemma slice_app_mid {A} (p m q : list A) a b :
  a = length p → b = (length p + length m)%nat → slice (p ++ m ++ q) a b = Some m.
Proof.
  intros -> ->. unfold slice. rewrite !length_app.
  rewrite (proj2 (Nat.leb_le _ _)), (proj2 (Nat.leb_le _ _)) by lia. simpl. f_equal.
  rewrite drop_app_length. replace (_ - _)%nat with (length m) by lia.
  by rewrite take_app_length.
Qed.

Lemma copy_into_app {A} (p m q src : list A) a b :
  a = length p → b = (length p + length src)%nat → length m = length src →
  copy_into (p ++ m ++ q) a b src = Some (p ++ src ++ q).
Proof.
  intros -> -> Hm. unfold copy_into. rewrite !length_app.
  rewrite (proj2 (Nat.leb_le _ _)), (proj2 (Nat.leb_le _ _)) by lia.
  rewrite (proj2 (Nat.eqb_eq _ _)) by lia. simpl. f_equal.
  rewrite take_app_length. do 2 f_equal. rewrite <-Hm, app_assoc.
  by rewrite <-length_app, drop_app_length.
Qed.

(** ** Generic list operations of the source *)

(** [iter.find(p)] *)
Fixpoint find_first {A} (p : A → bool) (l : list A) : option A :=
  match l with [] => None | x :: t => if p x then Some x else find_first p t end.

(** [iter.find_map(f)] *)
Fixpoint find_map {A B} (f : A → option B) (l : list A) : option B :=
  match l with [] => None | x :: t => match f x with Some y => Some y | None => find_map f t end end.

Definition sumZ (l : list Z) : Z := foldr Z.add 0 l.

Lemma sumZ_nil : sumZ [] = 0.
Proof. done. Qed.
Lemma sumZ_cons x l : sumZ (x :: l) = x + sumZ l.
Proof. done. Qed.
Lemma sumZ_app l k : sumZ (l ++ k) = sumZ l + sumZ k.
Proof. induction l; simpl; [done|]. rewrite IHl. lia. Qed.
Lemma sumZ_nonneg l : Forall (λ z, 0 ≤ z) l → 0 ≤ sumZ l.
Proof. induction 1; simpl; lia. Qed.

Lemma find_first_Some {A} (p : A → bool) l x :
  find_first p l = Some x → x ∈ l ∧ p x = true.
Proof.
  induction l as [|y l IH]; simpl; [done|]. rewrite elem_of_cons.
  destruct (p y) eqn:Hy; [intros [= ->]; auto|]. intros [??]%IH; auto.
Qed.
Lemma find_first_None {A} (p : A → bool) l :
  find_first p l = None ↔ ∀ x, x ∈ l → p x = false.
Proof.
  induction l as [|y l IH]; simpl; [split; [intros _ x []%not_elem_of_nil|done]|].
  setoid_rewrite elem_of_cons. destruct (p y) eqn:Hy.
  - split; [done|]. intros H. specialize (H y (or_introl eq_refl)). congruence.
  - rewrite IH. split; [intros ?? [->|?]; auto|auto].
Qed.

Section filters.
Context {A : Type} (P : A → Prop) `{∀ x, Decision (P x)}.

Lemma filter_none (l : list A) : (∀ x, x ∈ l → ¬ P x) → filter P l = [].
Proof.
  induction l as [|x l IH]; intros Hl; [done|].
  rewrite filter_cons_False by (apply Hl; by left). apply IH. intros y Hy. apply Hl. by right.
Qed.
Lemma filter_all (l : list A) : (∀ x, x ∈ l → P x) → filter P l = l.
Proof.
  induction l as [|x l IH]; intros Hl; [done|].
  rewrite filter_cons_True by (apply Hl; by left). f_equal. apply IH. intros y Hy. apply Hl. by right.
Qed.
Lemma filter_split_perm (l : list A) : filter P l ++ filter (λ x, ¬ P x) l ≡ₚ l.
Proof.
  induction l as [|x l IH]; [done|]. rewrite !filter_cons.
  destruct (decide (P x)), (decide (¬ P x)); try tauto; simpl; [by rewrite IH|].
  by rewrite <-Permutation_middle, IH.
Qed.
End filters.

Lemma filter_ext_in {A} (P Q : A → Prop) `{∀ x, Decision (P x), ∀ x, Decision (Q x)} (l : list A) :
  (∀ x, x ∈ l → P x ↔ Q x) → filter P l = filter Q l.
Proof.
  induction l as [|x l IH]; intros Hl; [done|]. rewrite !filter_cons, IH by (intros y Hy; apply Hl; by right).
  pose proof (Hl x). destruct (decide (P x)), (decide (Q x)); set_solver.
Qed.

Lemma StronglySorted_filter {A} (R : A → A → Prop) P `{∀ x, Decision (P x)} (l : list A) :
  Sorted.StronglySorted R l → Sorted.StronglySorted R (filter P l).
Proof.
  induction 1 as [|x l _ IH Hx]; [constructor|]. rewrite filter_cons. case_decide; [|done].
  constructor; [done|]. apply Forall_forall. intros y [_ Hy]%list_elem_of_filter.
  by eapply Forall_forall in Hx.
Qed.

(** The distinct elements of a list in the order of their first occurrence. *)
Fixpoint nub {A} `{EqDecision A} (l : list A) : list A :=
  match l with [] => [] | x :: t => x :: filter (λ y, y ≠ x) (nub t) end.

Lemma elem_of_nub {A} `{EqDecision A} (l : list A) x : x ∈ nub l ↔ x ∈ l.
Proof.
  induction l as [|y l IH]; simpl; [done|].
  rewrite !elem_of_cons, list_elem_of_filter, IH. destruct (decide (x = y)); naive_solver.
Qed.
Lemma NoDup_nub {A} `{EqDecision A} (l : list A) : NoDup (nub l).
Proof.
  induction l as [|y l IH]; simpl; [constructor|].
  apply NoDup_cons; split; [|by apply NoDup_filter]. rewrite list_elem_of_filter. naive_solver.
Qed.
Lemma nub_snoc {A} `{EqDecision A} (l : list A) x :
  nub (l ++ [x]) = if decide (x ∈ l) then nub l else nub l ++ [x].
Proof.
  induction l as [|y l IH]; [by rewrite decide_False by apply not_elem_of_nil|].
  simpl. rewrite IH. repeat case_decide; rewrite ?elem_of_cons in *; try naive_solver.
  - rewrite filter_app, filter_cons_False, app_nil_r; naive_solver.
  - rewrite filter_app, filter_cons_True; naive_solver.
Qed.

Lemma omap_nil_iff {A B} (f : A → option B) (l : list A) :
  omap f l = [] ↔ ∀ x, x ∈ l → f x = None.
Proof.
  induction l as [|x l IH]; simpl; [set_solver|]. setoid_rewrite elem_of_cons.
  destruct (f x) eqn:E; [split; [done|]|].
  - intros H. specialize (H x (or_introl eq_refl)). congruence.
  - rewrite IH. naive_solver.
Qed.

Lemma NoDup_fmap_inj {A B} (f : A → B) l x y : NoDup (f <$> l) → x ∈ l → y ∈ l → f x = f y → x = y.
Proof.
  intros Hn [i Hi]%list_elem_of_lookup [j Hj]%list_elem_of_lookup E.
  rewrite NoDup_alt in Hn. assert (i = j) as ->; [|congruence].
  apply (Hn i j (f x)); rewrite list_lookup_fmap; [by rewrite Hi|by rewrite Hj, E].
Qed.

Lemma bind_Ok {E A B} (r : result E A) (f : A → result E B) b :
  (r ≫= f) = Ok b ↔ ∃ a, r = Ok a ∧ f a = Ok b.
Proof. destruct r; naive_solver. Qed.

Lemma ok_or_Ok {E A} (o : option A) (e : E) a : ok_or o e = Ok a ↔ o = Some a.
Proof. destruct o; simpl; naive_solver. Qed.
Lemma map_err_Ok {E F A} (g : E → F) (r : result E A) a : map_err g r = Ok a ↔ r = Ok a.
Proof. destruct r; naive_solver. Qed.

(** What holds of the value of a computation that succeeds, with the rules that
    follow the program's text. *)
Definition ensures {E A} (r : result E A) (P : A → Prop) : Prop := ∀ a, r = Ok a → P a.

Create HintDb ensures.

Lemma ensures_ok {E A} (a : A) (P : A → Prop) : P a → ensures (E:=E) (Ok a) P.
Proof. by intros Ha ? [= <-]. Qed.
Lemma ensures_err {E A} (e : E) (P : A → Prop) : ensures (Err e) P.
Proof. by intros ? [=]. Qed.
Lemma ensures_bind {E A B} (r : result E A) (k : A → result E B) P Q :
  ensures r P → (∀ a, P a → ensures (k a) Q) → ensures (r ≫= k) Q.
Proof. intros Hr Hk b (a & Ha & Hb)%bind_Ok. eapply Hk; [by apply Hr|done]. Qed.
Lemma ensures_any {E A} (r : result E A) : ensures r (λ _, True).
Proof. done. Qed.
Lemma ensures_impl {E A} (r : result E A) (P Q : A → Prop) : ensures r P → (∀ a, P a → Q a) → ensures r Q.
Proof. unfold ensures. auto. Qed.
Lemma ensures_ok_or {E A} (o : option A) (e : E) : ensures (ok_or o e) (λ a, o = Some a).
Proof. intros a. apply ok_or_Ok. Qed.
#[export] Hint Resolve ensures_ok_or : ensures.
#[export] Hint Resolve ensures_err : ensures.

(** One step through a chain of [?]s: what the database knows of the first
    computation is introduced. *)
Ltac step_ensures :=
  eapply ensures_bind; [first [solve [eauto with ensures nocore]|apply ensures_any]|let Hx := fresh "Hx" in intros ? Hx; cbv beta in Hx].

Lemma try_map_source {E A B} (f : A → result E B) l k y :
  try_map f l = Ok k → y ∈ k → ∃ x, x ∈ l ∧ f x = Ok y.
Proof.
  revert k. induction l as [|x l IH]; intros k; simpl.
  - intros [= <-] []%elem_of_nil.
  - intros (z & Hz & (zs & Hzs & [= <-])%bind_Ok)%bind_Ok [->|Hy]%elem_of_cons.
    + exists x. split; [by left|done].
    + destruct (IH _ Hzs Hy) as (x' & ? & ?). exists x'. split; [by right|done].
Qed.

Lemma try_map_length {E A B} (f : A → result E B) l k : try_map f l = Ok k → length k = length l.
Proof.
  revert k. induction l as [|x l IH]; intros k Hk; [by injection Hk as <-|]. simpl in Hk. apply bind_Ok in Hk as (y & _ & Hk).
  apply bind_Ok in Hk as (ys & Hys & Hk). injection Hk as <-. simpl. by rewrite (IH ys).
Qed.

Lemma try_map_Forall {E A B} (f : A → result E B) (P : B → Prop) l k :
  (∀ x y, f x = Ok y → P y) → try_map f l = Ok k → Forall P k.
Proof.
  intros HP Hk. apply Forall_forall. intros y Hy.
  destruct (try_map_source f l k y Hk Hy) as (x & _ & Hx). by eapply HP.
Qed.

(** A pair from its first component, leaving the second as it is. *)
Lemma pair_fst {A B} (p : A * B) (a : A) : p.1 = a → p = (a, p.2).
Proof. destruct p; simpl; congruence. Qed.

(** ** Proof automation *)

(** Case analysis on the innermost boolean or option test of the goal or of a
    hypothesis, with its equation. *)
Ltac case_test :=
  match goal with
  | H : context [match ?x with _ => _ end] |- _ =>
      lazymatch x with context [match _ with _ => _ end] => fail | _ => destruct x eqn:? end
  | |- context [match ?x with _ => _ end] =>
      lazymatch x with context [match _ with _ => _ end] => fail | _ => destruct x eqn:? end
  end.

(** Turn boolean integer tests into propositions. *)
Ltac to_prop :=
  repeat match goal with
  | H : (_ <? _) = true |- _ => apply Z.ltb_lt in H
  | H : (_ <? _) = false |- _ => apply Z.ltb_ge in H
  | H : (_ <=? _) = true |- _ => apply Z.leb_le in H
  | H : (_ <=? _) = false |- _ => apply Z.leb_gt in H
  | H : (_ =? _) = true |- _ => apply Z.eqb_eq in H
  | H : (_ =? _) = false |- _ => apply Z.eqb_neq in H
  | H : (_ && _) = true |- _ => apply andb_true_iff in H; destruct H
  | H : (_ || _) = false |- _ => apply orb_false_iff in H; destruct H
  | H : negb _ = true |- _ => apply negb_true_iff in H
  | H : negb _ = false |- _ => apply negb_false_iff in H
  | H : bool_decide _ = true |- _ => apply bool_decide_eq_true in H
  | H : bool_decide _ = false |- _ => apply bool_decide_eq_false in H
  end.

(** Rewrite lengths and close linear goals over them. *)
Ltac len := autorewrite with skid in *; unfold zlen in *; simpl in *; lia.

(** Close a closed equation by running both sides on the virtual machine. *)
Ltac vm_refl := match goal with |- ?a = ?b => exact (eq_refl b <: a = b) end.
