(* ===== verification/RustStr.v ===== *)
(** * Rust strings

    A [str] is the [string] of its UTF-8 bytes, so [len], equality, map keys
    and ASCII operations are those of the bytes, and the operations that look
    at characters ([trim], [chars], [split_whitespace], [char::is_control])
    decode them first.  [utf8_chunks] is the decoder of [core::str]: it cuts a
    byte string into characters and into the maximal ill-formed pieces that
    [from_utf8] refuses and [from_utf8_lossy] replaces. *)

From Stdlib Require Import Ascii DecimalString DecimalN.
From stdpp Require Import sorting.
From S2P Require Import Prelude.

Definition as_bytes (s : string) : list byte := String.list_byte_of_string s.
Definition of_bytes (l : list byte) : string := String.string_of_list_byte l.

Lemma as_of_bytes l : as_bytes (of_bytes l) = l.
Proof. apply String.list_byte_of_string_of_list_byte. Qed.
Lemma of_as_bytes s : of_bytes (as_bytes s) = s.
Proof. apply String.string_of_list_byte_of_string. Qed.
Lemma as_bytes_inj s t : as_bytes s = as_bytes t → s = t.
Proof. intros H. by rewrite <-(of_as_bytes s), H, of_as_bytes. Qed.

(** [str::len] counts bytes. *)
Definition str_len (s : string) : Z := zlen (as_bytes s).
Definition is_empty (s : string) : bool := bool_decide (s = "").

Lemma is_empty_as_bytes s : is_empty s = false → as_bytes s ≠ [].
Proof.
  unfold is_empty. intros H%bool_decide_eq_false Hb. apply H.
  by rewrite <-(of_as_bytes s), Hb.
Qed.

(** ** Decoding UTF-8 *)

(** A decoded piece: the scalar value with its bytes, or [None] with the bytes
    of a maximal ill-formed piece. *)
Definition chunk : Type := option Z * list byte.

Definition between (lo hi z : Z) : bool := (lo <=? z) && (z <=? hi).
Definition is_cont (b : byte) : bool := between 0x80 0xBF (b2z b).

(** The second byte of a three- or four-byte sequence: no overlong form, no
    surrogate, nothing above U+10FFFF. *)
Definition second3 (z0 z1 : Z) : bool :=
  ((z0 =? 0xE0) && between 0xA0 0xBF z1) || (between 0xE1 0xEC z0 && between 0x80 0xBF z1)
  || ((z0 =? 0xED) && between 0x80 0x9F z1) || (between 0xEE 0xEF z0 && between 0x80 0xBF z1).
Definition second4 (z0 z1 : Z) : bool :=
  ((z0 =? 0xF0) && between 0x90 0xBF z1) || (between 0xF1 0xF3 z0 && between 0x80 0xBF z1)
  || ((z0 =? 0xF4) && between 0x80 0x8F z1).

Definition cp2 (b0 b1 : byte) : Z := (b2z b0 - 0xC0) * 64 + (b2z b1 - 0x80).
Definition cp3 (b0 b1 b2 : byte) : Z :=
  ((b2z b0 - 0xE0) * 64 + (b2z b1 - 0x80)) * 64 + (b2z b2 - 0x80).
Definition cp4 (b0 b1 b2 b3 : byte) : Z :=
  (((b2z b0 - 0xF0) * 64 + (b2z b1 - 0x80)) * 64 + (b2z b2 - 0x80)) * 64 + (b2z b3 - 0x80).

Fixpoint utf8_chunks (l : list byte) : list chunk :=
  match l with
  | [] => []
  | b0 :: t0 =>
    if b2z b0 <? 0x80 then (Some (b2z b0), [b0]) :: utf8_chunks t0
    else if between 0xC2 0xDF (b2z b0) then
      match t0 with
      | b1 :: t1 => if is_cont b1 then (Some (cp2 b0 b1), [b0; b1]) :: utf8_chunks t1
                    else (None, [b0]) :: utf8_chunks t0
      | [] => [(None, [b0])]
      end
    else if between 0xE0 0xEF (b2z b0) then
      match t0 with
      | b1 :: t1 =>
        if second3 (b2z b0) (b2z b1) then
          match t1 with
          | b2 :: t2 => if is_cont b2 then (Some (cp3 b0 b1 b2), [b0; b1; b2]) :: utf8_chunks t2
                        else (None, [b0; b1]) :: utf8_chunks t1
          | [] => [(None, [b0; b1])]
          end
        else (None, [b0]) :: utf8_chunks t0
      | [] => [(None, [b0])]
      end
    else if between 0xF0 0xF4 (b2z b0) then
      match t0 with
      | b1 :: t1 =>
        if second4 (b2z b0) (b2z b1) then
          match t1 with
          | b2 :: t2 =>
            if is_cont b2 then
              match t2 with
              | b3 :: t3 =>
                if is_cont b3 then (Some (cp4 b0 b1 b2 b3), [b0; b1; b2; b3]) :: utf8_chunks t3
                else (None, [b0; b1; b2]) :: utf8_chunks t2
              | [] => [(None, [b0; b1; b2])]
              end
            else (None, [b0; b1]) :: utf8_chunks t1
          | [] => [(None, [b0; b1])]
          end
        else (None, [b0]) :: utf8_chunks t0
      | [] => [(None, [b0])]
      end
    else (None, [b0]) :: utf8_chunks t0
  end.

Definition chars (s : string) : list chunk := utf8_chunks (as_bytes s).
Definition bytes_of_chars (cs : list chunk) : list byte := concat (snd <$> cs).
Definition str_of_chars (cs : list chunk) : string := of_bytes (bytes_of_chars cs).

Definition is_char (c : chunk) : bool := bool_decide (is_Some c.1).
Definition utf8_valid (l : list byte) : bool := forallb is_char (utf8_chunks l).
(** The invariant of every Rust [str]. *)
Definition valid_str (s : string) : Prop := utf8_valid (as_bytes s) = true.

(** [core::str::from_utf8] *)
Definition from_utf8 (l : list byte) : option string :=
  if utf8_valid l then Some (of_bytes l) else None.

(** U+FFFD *)
Definition replacement : list byte := as_bytes "�".
(** [String::from_utf8_lossy] *)
Definition from_utf8_lossy (l : list byte) : string :=
  of_bytes (concat ((λ c : chunk, if is_char c then c.2 else replacement) <$> utf8_chunks l)).

(** ** Characters *)

(** [char::is_whitespace]: the Unicode property White_Space. *)
Definition is_whitespace (z : Z) : bool :=
  between 0x9 0xD z || (z =? 0x20) || (z =? 0x85) || (z =? 0xA0) || (z =? 0x1680)
  || between 0x2000 0x200A z || (z =? 0x2028) || (z =? 0x2029) || (z =? 0x202F)
  || (z =? 0x205F) || (z =? 0x3000).
(** [char::is_control]: general category Cc. *)
Definition is_control (z : Z) : bool := between 0x0 0x1F z || between 0x7F 0x9F z.

Definition chunk_is (p : Z → bool) (c : chunk) : bool :=
  match c.1 with Some z => p z | None => false end.

Fixpoint drop_while {A} (p : A → bool) (l : list A) : list A :=
  match l with [] => [] | x :: t => if p x then drop_while p t else l end.

Definition trim_with {A} (p : A → bool) (l : list A) : list A :=
  reverse (drop_while p (reverse (drop_while p l))).

(** [str::trim] *)
Definition trim (s : string) : string :=
  str_of_chars (trim_with (chunk_is is_whitespace) (chars s)).
(** [s.chars().any(char::is_control)] *)
Definition has_control (s : string) : bool := existsb (chunk_is is_control) (chars s).

Fixpoint split_on {A} (p : A → bool) (cur : list A) (l : list A) : list (list A) :=
  match l with
  | [] => [cur]
  | x :: t => if p x then cur :: split_on p [] t else split_on p (cur ++ [x]) t
  end.

(** [str::split_whitespace] *)
Definition split_whitespace (s : string) : list string :=
  str_of_chars <$> filter (λ w, w ≠ []) (split_on (chunk_is is_whitespace) [] (chars s)).

(** ** ASCII operations *)

Definition ascii_upper (b : byte) : byte :=
  if between 0x61 0x7A (b2z b) then u8 (b2z b - 32) else b.
Definition ascii_lower (b : byte) : byte :=
  if between 0x41 0x5A (b2z b) then u8 (b2z b + 32) else b.
Definition to_ascii_uppercase (s : string) : string := of_bytes (ascii_upper <$> as_bytes s).
Definition to_ascii_lowercase (s : string) : string := of_bytes (ascii_lower <$> as_bytes s).
Definition eq_ignore_ascii_case (s t : string) : bool :=
  bool_decide (to_ascii_lowercase s = to_ascii_lowercase t).
Definition is_ascii_digit (b : byte) : bool := between 0x30 0x39 (b2z b).

Fixpoint list_prefix (p l : list byte) : bool :=
  match p, l with
  | [], _ => true
  | _, [] => false
  | x :: p, y :: l => bool_decide (x = y) && list_prefix p l
  end.
(** [starts_with] on byte slices and on strings *)
Definition starts_with (s p : string) : bool := list_prefix (as_bytes p) (as_bytes s).
Fixpoint list_contains (l p : list byte) : bool :=
  list_prefix p l || match l with [] => false | _ :: t => list_contains t p end.
(** [str::contains] *)
Definition contains (s p : string) : bool := list_contains (as_bytes s) (as_bytes p).

(** [str::split_once] on an ASCII character *)
Fixpoint split_once_bytes (c : byte) (l : list byte) : option (list byte * list byte) :=
  match l with
  | [] => None
  | x :: t => if bool_decide (x = c) then Some ([], t)
              else match split_once_bytes c t with
                   | Some (a, b) => Some (x :: a, b)
                   | None => None
                   end
  end.
Definition split_once (c : byte) (s : string) : option (string * string) :=
  match split_once_bytes c (as_bytes s) with
  | Some (a, b) => Some (of_bytes a, of_bytes b)
  | None => None
  end.

(** [str::replace] of a non-empty pattern: leftmost matches that do not
    overlap; [skip] counts the bytes of the current match still to drop. *)
Fixpoint replace_bytes (from to_ : list byte) (skip : nat) (l : list byte) : list byte :=
  match l with
  | [] => []
  | b :: t =>
      match skip with
      | S k => replace_bytes from to_ k t
      | O => if list_prefix from l then to_ ++ replace_bytes from to_ (pred (length from)) t
             else b :: replace_bytes from to_ 0 t
      end
  end.
Definition replace (s from to_ : string) : string :=
  of_bytes (replace_bytes (as_bytes from) (as_bytes to_) 0 (as_bytes s)).

(** [str::split] on an ASCII character *)
Definition split_char (c : byte) (s : string) : list string :=
  of_bytes <$> split_on (λ b, bool_decide (b = c)) [] (as_bytes s).

(** [str::trim_end_matches] with an ASCII character *)
Definition trim_end_matches (c : byte) (s : string) : string :=
  of_bytes (reverse (drop_while (λ b, bool_decide (b = c)) (reverse (as_bytes s)))).

(** [str::split_ascii_whitespace] *)
Definition is_ascii_whitespace (b : byte) : bool :=
  existsb (Z.eqb (b2z b)) [0x20; 0x09; 0x0A; 0x0C; 0x0D].
Definition split_ascii_whitespace (s : string) : list string :=
  of_bytes <$> filter (λ w, w ≠ []) (split_on is_ascii_whitespace [] (as_bytes s)).

(** ** Decimal integers *)

(** [str::parse] of an unsigned integer of at most [max], with the texts of
    [ParseIntError]. *)
Fixpoint parse_digits (max acc : Z) (l : list byte) : result string Z :=
  match l with
  | [] => Ok acc
  | b :: t =>
    if negb (is_ascii_digit b) then Err "invalid digit found in string"
    else let acc := acc * 10 + (b2z b - 0x30) in
         if max <? acc then Err "number too large to fit in target type" else parse_digits max acc t
  end.
Definition parse_unsigned (max : Z) (s : string) : result string Z :=
  match as_bytes s with
  | [] => Err "cannot parse integer from empty string"
  | "+"%byte :: (b :: t) => parse_digits max 0 (b :: t)
  | l => parse_digits max 0 l
  end.

(** [u64::to_string] *)
Definition u64_to_string (z : Z) : string := NilZero.string_of_uint (N.to_uint (Z.to_N z)).

(** [i64::to_string] *)
Definition i64_to_string (z : Z) : string :=
  if z <? 0 then "-" +:+ u64_to_string (- z) else u64_to_string z.

Definition strip_plus (s : string) : string :=
  match s with
  | String c t => if bool_decide (c = "+"%char) then t else s
  | EmptyString => s
  end.

(** [{:?}] of a [str]: quotes, backslashes and ASCII control characters are
    escaped.  Rust also escapes the non-printable characters beyond ASCII;
    the model copies them. *)
Definition hex_digit (z : Z) : string :=
  of_bytes [u8 (if z <? 10 then 0x30 + z else 0x57 + z)].
Definition escape_debug (b : byte) : string :=
  let z := b2z b in
  if z =? 0x22 then of_bytes [u8 0x5C; u8 0x22]
  else if z =? 0x5C then of_bytes [u8 0x5C; u8 0x5C]
  else if z =? 0x9 then "\t"
  else if z =? 0xA then "\n"
  else if z =? 0xD then "\r"
  else if z =? 0 then "\0"
  else if (z <? 0x20) || (z =? 0x7F)
  then "\u{" +:+ (if z <? 0x10 then "" else hex_digit (z `div` 16)) +:+ hex_digit (z `mod` 16) +:+ "}"
  else of_bytes [b].
Definition debug_str (s : string) : string :=
  let quote := of_bytes [u8 0x22] in
  quote +:+ foldr (λ b t, escape_debug b +:+ t) "" (as_bytes s) +:+ quote.

(** [str::parse::<u64>]: an optional plus sign, then at least one digit, with
    the overflow test. *)
Definition parse_u64 (s : string) : option Z :=
  match NilZero.uint_of_string (strip_plus s) with
  | Some d => let z := Z.of_N (N.of_uint d) in if z <=? u64_max then Some z else None
  | None => None
  end.

(** ** BTreeMap iteration: the entries in the order of their keys *)

Definition key_le {A} (a b : string * A) : Prop := String.leb a.1 b.1 = true.
#[global] Instance key_le_dec {A} (a b : string * A) : Decision (key_le a b).
Proof. unfold key_le. apply _. Defined.
Definition btree_iter {A} (m : gmap string A) : list (string * A) :=
  merge_sort key_le (map_to_list m).

Lemma elem_of_btree_iter {A} (m : gmap string A) k a : (k, a) ∈ btree_iter m ↔ m !! k = Some a.
Proof. unfold btree_iter. by rewrite merge_sort_Permutation, elem_of_map_to_list. Qed.

(** ** Paths: [Path::file_name] on Unix *)
Definition path_file_name (path : string) : option string :=
  let parts := of_bytes <$> split_on (λ b, bool_decide (b = "/"%byte)) [] (as_bytes path) in
  let parts := filter (λ c, c ≠ "" ∧ c ≠ ".") parts in
  match last parts with
  | Some c => if bool_decide (c = "..") then None else Some c
  | None => None
  end.

(** [Path::extension]: what follows the last dot of the file name, unless the
    name starts with it. *)
Definition path_extension (path : string) : option string :=
  name ← path_file_name path;
  match split_once_bytes "."%byte (reverse (as_bytes name)) with
  | Some (_, []) | None => None
  | Some (extension, _) => Some (of_bytes (reverse extension))
  end.

(** ** Lemmas *)

Lemma list_prefix_app p l : list_prefix p (p ++ l) = true.
Proof. induction p; simpl; [done|]. by rewrite bool_decide_true. Qed.

Lemma list_prefix_spec p l : list_prefix p l = true ↔ p `prefix_of` l.
Proof.
  revert l; induction p as [|x p IH]; intros l; simpl.
  - split; [intros _; apply prefix_nil|done].
  - destruct l as [|y l]; simpl.
    + split; [done|]. by intros ?%prefix_nil_not.
    + rewrite andb_true_iff, bool_decide_eq_true, IH. split.
      * intros [-> ?]. by apply prefix_cons.
      * intros H. split; [by eapply prefix_cons_inv_1|by eapply prefix_cons_inv_2].
Qed.

(** One step of the decoder: the first piece and the bytes after it. *)
Definition utf8_next (b0 : byte) (t0 : list byte) : chunk * list byte :=
  if b2z b0 <? 0x80 then ((Some (b2z b0), [b0]), t0)
  else if between 0xC2 0xDF (b2z b0) then
    match t0 with
    | b1 :: t1 => if is_cont b1 then ((Some (cp2 b0 b1), [b0; b1]), t1) else ((None, [b0]), t0)
    | [] => ((None, [b0]), t0)
    end
  else if between 0xE0 0xEF (b2z b0) then
    match t0 with
    | b1 :: ([] as t1) => if second3 (b2z b0) (b2z b1) then ((None, [b0; b1]), t1)
                          else ((None, [b0]), t0)
    | b1 :: (b2 :: t2) as t1 =>
      if second3 (b2z b0) (b2z b1) then
        if is_cont b2 then ((Some (cp3 b0 b1 b2), [b0; b1; b2]), t2)
        else ((None, [b0; b1]), b2 :: t2)
      else ((None, [b0]), t0)
    | [] => ((None, [b0]), t0)
    end
  else if between 0xF0 0xF4 (b2z b0) then
    match t0 with
    | [] => ((None, [b0]), t0)
    | b1 :: t1 =>
      if second4 (b2z b0) (b2z b1) then
        match t1 with
        | [] => ((None, [b0; b1]), t1)
        | b2 :: t2 =>
          if is_cont b2 then
            match t2 with
            | [] => ((None, [b0; b1; b2]), t2)
            | b3 :: t3 => if is_cont b3 then ((Some (cp4 b0 b1 b2 b3), [b0; b1; b2; b3]), t3)
                          else ((None, [b0; b1; b2]), t2)
            end
          else ((None, [b0; b1]), t1)
        end
      else ((None, [b0]), t0)
    end
  else ((None, [b0]), t0).

(** Case analysis on the tests of [utf8_next]. *)
Ltac next_cases :=
  repeat match goal with
  | |- context [if ?b then _ else _] => destruct b eqn:?
  | |- context [match ?l with [] => _ | _ :: _ => _ end] => is_var l; destruct l
  end.

Lemma utf8_chunks_cons b0 t0 :
  utf8_chunks (b0 :: t0) = (utf8_next b0 t0).1 :: utf8_chunks (utf8_next b0 t0).2.
Proof. unfold utf8_next. cbn [utf8_chunks]. next_cases; reflexivity. Qed.

Lemma utf8_next_app b0 t0 : (utf8_next b0 t0).1.2 ++ (utf8_next b0 t0).2 = b0 :: t0.
Proof. unfold utf8_next. next_cases; reflexivity. Qed.

Lemma utf8_next_length b0 t0 : (length (utf8_next b0 t0).2 < S (length t0))%nat.
Proof. unfold utf8_next. next_cases; simpl; lia. Qed.

(** Induction on the pieces of a byte string. *)
Lemma utf8_ind (P : list byte → Prop) :
  P [] → (∀ b t, P (utf8_next b t).2 → P (b :: t)) → ∀ l, P l.
Proof.
  intros H0 HS l. remember (length l) as n eqn:Hn. revert l Hn.
  induction (lt_wf n) as [n _ IH]; intros [|b t] ->; [done|].
  apply HS. eapply IH; [|done]. apply utf8_next_length.
Qed.

Lemma bytes_of_chars_cons c cs : bytes_of_chars (c :: cs) = c.2 ++ bytes_of_chars cs.
Proof. done. Qed.

(** The decoder loses no byte. *)
Lemma bytes_of_utf8_chunks l : bytes_of_chars (utf8_chunks l) = l.
Proof.
  induction l as [|b t IH] using utf8_ind; [done|].
  rewrite utf8_chunks_cons, bytes_of_chars_cons, IH.
  apply utf8_next_app.
Qed.

(** ASCII bytes are a string. *)
Lemma ascii_utf8_valid l : forallb (λ b, b2z b <? 0x80) l = true → utf8_valid l = true.
Proof.
  unfold utf8_valid. induction l as [|b t IH]; [done|]. simpl. intros [Hb Ht]%andb_true_iff.
  change (forallb is_char (utf8_chunks (b :: t)) = true). rewrite utf8_chunks_cons.
  unfold utf8_next. rewrite Hb. cbn [fst snd forallb]. by rewrite IH.
Qed.

Lemma str_of_chars_chars s : str_of_chars (chars s) = s.
Proof. unfold str_of_chars, chars. by rewrite bytes_of_utf8_chunks, of_as_bytes. Qed.

(** A well-formed character decodes the same in front of any bytes. *)
Definition char_wf (c : chunk) : Prop :=
  is_Some c.1 ∧ ∀ rest, utf8_chunks (c.2 ++ rest) = c :: utf8_chunks rest.

Lemma utf8_next_wf b t : is_Some (utf8_next b t).1.1 → char_wf (utf8_next b t).1.
Proof.
  intros HS. split; [done|]. revert HS. unfold utf8_next.
  next_cases; cbn [fst snd]; intros HS rest; try (by destruct HS); clear HS;
    cbn [app]; rewrite utf8_chunks_cons; unfold utf8_next;
    repeat match goal with H : ?x = ?v |- context [if ?x then _ else _] => rewrite H end;
    reflexivity.
Qed.

Lemma utf8_valid_wf l : utf8_valid l = true ↔ Forall char_wf (utf8_chunks l).
Proof.
  unfold utf8_valid. induction l as [|b t IH] using utf8_ind; [done|].
  rewrite utf8_chunks_cons. simpl. rewrite andb_true_iff, IH, Forall_cons.
  unfold is_char. rewrite bool_decide_eq_true. split; intros [H ?]; split; auto.
  - by apply utf8_next_wf.
  - by destruct H.
Qed.

Lemma utf8_chunks_of_chars cs : Forall char_wf cs → utf8_chunks (bytes_of_chars cs) = cs.
Proof.
  induction 1 as [|c cs [_ Hc] _ IH]; [done|].
  by rewrite bytes_of_chars_cons, Hc, IH.
Qed.

Lemma chars_str_of_chars cs : Forall char_wf cs → chars (str_of_chars cs) = cs.
Proof. unfold chars, str_of_chars. rewrite as_of_bytes. apply utf8_chunks_of_chars. Qed.

Lemma valid_str_of_chars cs : Forall char_wf cs → valid_str (str_of_chars cs).
Proof.
  intros H. unfold valid_str. apply utf8_valid_wf. fold (chars (str_of_chars cs)).
  by rewrite chars_str_of_chars.
Qed.

Lemma from_utf8_as_bytes s : valid_str s → from_utf8 (as_bytes s) = Some s.
Proof. intros H. unfold from_utf8. by rewrite H, of_as_bytes. Qed.

Lemma from_utf8_Some l s : from_utf8 l = Some s ↔ as_bytes s = l ∧ valid_str s.
Proof.
  unfold from_utf8, valid_str. destruct (utf8_valid l) eqn:H; split.
  - intros [= <-]. by rewrite as_of_bytes.
  - intros [<- _]. by rewrite of_as_bytes.
  - done.
  - intros [<- ?]. congruence.
Qed.

Lemma from_utf8_lossy_valid s : valid_str s → from_utf8_lossy (as_bytes s) = s.
Proof.
  intros H. unfold from_utf8_lossy. apply as_bytes_inj. rewrite as_of_bytes.
  rewrite <-(bytes_of_utf8_chunks (as_bytes s)) at 2. unfold bytes_of_chars. f_equal.
  apply utf8_valid_wf in H. induction H as [|c cs [Hc _] _ IH]; [done|].
  csimpl. rewrite IH. unfold is_char. by rewrite bool_decide_true.
Qed.

(** ** Trimming *)

Lemma drop_while_suffix {A} (p : A → bool) l : drop_while p l `suffix_of` l.
Proof.
  induction l as [|x l IH]; simpl; [done|]. destruct (p x); [|done].
  by apply suffix_cons_r.
Qed.

Lemma drop_while_fix {A} (p : A → bool) l :
  drop_while p l = l ↔ match l with [] => True | x :: _ => p x = false end.
Proof.
  destruct l as [|x l]; simpl; [done|]. destruct (p x) eqn:Hx; [|done].
  split; [|done]. intros H. pose proof (drop_while_suffix p l) as Hs.
  rewrite H in Hs. by apply suffix_cons_not in Hs.
Qed.

Lemma drop_while_head {A} (p : A → bool) l :
  match drop_while p l with [] => True | x :: _ => p x = false end.
Proof. induction l as [|x l IH]; simpl; [done|]. by destruct (p x) eqn:Hx. Qed.

(** What [trim] leaves starts and ends with a character it would keep. *)
Definition trimmed {A} (p : A → bool) (l : list A) : Prop :=
  drop_while p l = l ∧ drop_while p (reverse l) = reverse l.

Lemma drop_while_reverse_keeps {A} (p : A → bool) l :
  match l with [] => True | x :: _ => p x = false end →
  match reverse (drop_while p (reverse l)) with [] => True | x :: _ => p x = false end.
Proof.
  destruct l as [|x l]; [done|]. intros Hx. rewrite reverse_cons.
  destruct (drop_while_suffix p (reverse l ++ [x])) as [k Hk].
  remember (drop_while p (reverse l ++ [x])) as d eqn:Hd.
  destruct d as [|y d _] using rev_ind; [done|].
  rewrite app_assoc in Hk. apply app_inj_2 in Hk as [_ [= ->]]; [|done].
  by rewrite reverse_app.
Qed.

Lemma trim_with_trimmed {A} (p : A → bool) l : trimmed p (trim_with p l).
Proof.
  unfold trimmed, trim_with. split.
  - apply drop_while_fix, drop_while_reverse_keeps, drop_while_head.
  - rewrite reverse_involutive. apply drop_while_fix, drop_while_head.
Qed.

Lemma trim_with_fix {A} (p : A → bool) l : trimmed p l → trim_with p l = l.
Proof. intros [H1 H2]. unfold trim_with. by rewrite H1, H2, reverse_involutive. Qed.

Lemma trim_with_subseteq {A} (p : A → bool) l x : x ∈ trim_with p l → x ∈ l.
Proof.
  unfold trim_with. rewrite elem_of_reverse. intros H.
  eapply elem_of_suffix in H; [|apply drop_while_suffix].
  rewrite elem_of_reverse in H. by eapply elem_of_suffix, drop_while_suffix.
Qed.

Lemma trim_chars_wf p s : valid_str s → Forall char_wf (trim_with p (chars s)).
Proof.
  intros H%utf8_valid_wf. apply Forall_forall. intros c Hc%trim_with_subseteq.
  by eapply Forall_forall in H.
Qed.

Lemma chars_trim s : valid_str s →
  chars (trim s) = trim_with (chunk_is is_whitespace) (chars s).
Proof. intros H. unfold trim. by apply chars_str_of_chars, trim_chars_wf. Qed.

Lemma trim_valid s : valid_str s → valid_str (trim s).
Proof. intros H. by apply valid_str_of_chars, trim_chars_wf. Qed.

Lemma trim_idem s : valid_str s → trim (trim s) = trim s.
Proof.
  intros H. unfold trim at 1. rewrite chars_trim by done.
  by rewrite (trim_with_fix _ _ (trim_with_trimmed _ _)).
Qed.

(** ** Printing and parsing decimal integers *)

Lemma as_bytes_cons c s : as_bytes (String c s) = byte_of_ascii c :: as_bytes s.
Proof. done. Qed.

Lemma as_bytes_app s t : as_bytes (s +:+ t) = as_bytes s ++ as_bytes t.
Proof. induction s as [|c s IH]; [done|]. change (String c s +:+ t) with (String c (s +:+ t)).
  by rewrite !as_bytes_cons, IH. Qed.

Lemma of_bytes_app a b : of_bytes (a ++ b) = of_bytes a +:+ of_bytes b.
Proof. apply as_bytes_inj. by rewrite as_bytes_app, !as_of_bytes. Qed.

Lemma string_app_assoc (s t u : string) : (s +:+ t) +:+ u = s +:+ t +:+ u.
Proof. apply as_bytes_inj. by rewrite !as_bytes_app, app_assoc. Qed.

Lemma string_app_nil_r (s : string) : s +:+ "" = s.
Proof. apply as_bytes_inj. by rewrite as_bytes_app, app_nil_r. Qed.

Lemma digits_string_of_uint d :
  forallb is_ascii_digit (as_bytes (NilEmpty.string_of_uint d)) = true.
Proof. induction d; [done|..]; cbn [NilEmpty.string_of_uint]; rewrite as_bytes_cons; simpl; by rewrite IHd. Qed.

Lemma u64_to_string_digits z :
  forallb is_ascii_digit (as_bytes (u64_to_string z)) = true.
Proof.
  unfold u64_to_string, NilZero.string_of_uint.
  destruct (N.to_uint _) eqn:H; try done; rewrite <-H; apply digits_string_of_uint.
Qed.

Lemma to_uint_not_nil n : N.to_uint n ≠ Decimal.Nil.
Proof.
  intros H. pose proof (Unsigned.of_to n) as Hn. rewrite H in Hn. simpl in Hn. subst n.
  discriminate.
Qed.

Lemma u64_to_string_not_empty z : u64_to_string z ≠ "".
Proof.
  unfold u64_to_string, NilZero.string_of_uint. by destruct (N.to_uint _).
Qed.

Lemma strip_plus_string_of_uint d :
  strip_plus (NilZero.string_of_uint d) = NilZero.string_of_uint d.
Proof. by destruct d. Qed.

Lemma parse_u64_to_string z : in_u64 z → parse_u64 (u64_to_string z) = Some z.
Proof.
  intros [H0 H1]. unfold parse_u64, u64_to_string.
  rewrite strip_plus_string_of_uint, NilZero.usu by apply to_uint_not_nil.
  rewrite Unsigned.of_to, Z2N.id by done. by rewrite (proj2 (Z.leb_le _ _)).
Qed.

Lemma parse_u64_range s z : parse_u64 s = Some z → in_u64 z.
Proof.
  unfold parse_u64, in_u64. case_match; [|done]. case_match; [|done].
  to_prop. intros [= <-]. lia.
Qed.

Lemma u64_to_string_inj z w : in_u64 z → in_u64 w → u64_to_string z = u64_to_string w → z = w.
Proof.
  intros Hz Hw H. apply parse_u64_to_string in Hz, Hw. rewrite H in Hz. congruence.
Qed.

(** Canonical numerals have no leading zero, so twenty digits are enough. *)
Lemma usize_string d : Z.of_N (DecimalPos.Unsigned.usize d) = zlen (as_bytes (NilEmpty.string_of_uint d)).
Proof.
  induction d; [done|..]; cbn [DecimalPos.Unsigned.usize NilEmpty.string_of_uint];
    rewrite as_bytes_cons, zlen_cons, N2Z.inj_succ, IHd; lia.
Qed.

Lemma leading_digit d p : (10 ^ DecimalPos.Unsigned.usize d ≤ N.pos (Pos.of_uint_acc d p))%N.
Proof. rewrite DecimalPos.Unsigned.of_uint_acc_rev. nia. Qed.

Lemma to_uint_leading n d : N.to_uint n = Decimal.D0 d → d = Decimal.Nil.
Proof.
  intros H. pose proof (DecimalN.Unsigned.to_of (N.to_uint n)) as Hn.
  rewrite DecimalN.Unsigned.of_to, H in Hn. cbn [Decimal.unorm] in Hn.
  unfold Decimal.unorm in Hn. cbn [Decimal.nzhead] in Hn.
  pose proof (DecimalFacts.nzhead_nonzero d) as Hz.
  destruct (Decimal.nzhead d) eqn:E; try discriminate; [|by specialize (Hz u)].
  by injection Hn.
Qed.

Lemma usize_u64 d p n : (n = N.pos (Pos.of_uint_acc d p) → n < 10 ^ 20 →
  DecimalPos.Unsigned.usize d < 20)%N.
Proof.
  intros -> Hn. pose proof (leading_digit d p).
  apply (N.pow_lt_mono_r_iff 10); [lia|]. lia.
Qed.

Lemma u64_to_string_length z : in_u64 z → zlen (as_bytes (u64_to_string z)) ≤ 20.
Proof.
  intros [H0 H1]. unfold u64_to_string, NilZero.string_of_uint.
  pose proof (Unsigned.of_to (Z.to_N z)) as Hn.
  assert (Hz : (Z.to_N z < 10 ^ 20)%N) by (unfold u64_max in *; lia).
  destruct (N.to_uint (Z.to_N z)) eqn:E; [done|..];
    cbn [NilEmpty.string_of_uint]; rewrite as_bytes_cons, zlen_cons, <-usize_string;
    [apply to_uint_leading in E as ->; cbn; lia|..];
    symmetry in Hn; apply usize_u64 in Hn; lia.
Qed.

#[export] Hint Resolve trim_valid trim_idem : skid.
