(* ===== verification/Otlp.v ===== *)
(** * The OTLP wire model and the simple metric samples (skid-protocol)

    The generated OpenTelemetry protobuf types, with the fields the program
    reads or writes; a message it only counts, moves and serialises (a span, an
    exemplar) is kept as its protobuf encoding.  Then [Signal] of protocol.rs
    and the conversion of metric samples into an export request of
    metrics.rs. *)

From S2P Require Import Prelude RustStr.
From Stdlib Require Export Floats.SpecFloat.

(** [f64] values: IEEE 754 binary64 as the Standard Library's [spec_float]. *)
Abbreviation f64 := spec_float.

#[global] Instance spec_float_eq_dec : EqDecision spec_float.
Proof. solve_decision. Defined.

(** ** Common messages *)

Definition message := list byte.

Inductive AnyValueValue :=
| StringValue (s : string)
| BoolValue (b : bool)
| IntValue (z : Z)
| DoubleValue (f : f64)
| ArrayValue (values : list AnyValue)
| KvlistValue (values : list KeyValue)
| BytesValue (bs : list byte)
| StringValueStrindex (z : Z)
with AnyValue :=
| mkAnyValue (value : option AnyValueValue)
with KeyValue :=
| mkKeyValue (key : string) (value : option AnyValue) (key_strindex : Z).

Definition kv_key (kv : KeyValue) : string := match kv with mkKeyValue k _ _ => k end.
Definition kv_value (kv : KeyValue) : option AnyValue := match kv with mkKeyValue _ v _ => v end.

(** The attribute every producer of the program builds: a plain string. *)
Definition string_kv (key value : string) : KeyValue :=
  mkKeyValue key (Some (mkAnyValue (Some (StringValue value)))) 0.

Record Resource := {
  res_attributes : list KeyValue;
  res_dropped_attributes_count : Z;
  res_entity_refs : list message;
}.

Record InstrumentationScope := {
  is_name : string;
  is_version : string;
  is_attributes : list KeyValue;
  is_dropped_attributes_count : Z;
}.

(** ** Metrics *)

Inductive NumberValue := AsDouble (f : f64) | AsInt (z : Z).

Record NumberDataPoint := {
  ndp_attributes : list KeyValue;
  ndp_start_time_unix_nano : Z;
  ndp_time_unix_nano : Z;
  ndp_exemplars : list message;
  ndp_flags : Z;
  ndp_value : option NumberValue;
}.

Record HistogramDataPoint := {
  hdp_attributes : list KeyValue;
  hdp_start_time_unix_nano : Z;
  hdp_time_unix_nano : Z;
  hdp_count : Z;
  hdp_sum : option f64;
  hdp_bucket_counts : list Z;
  hdp_explicit_bounds : list f64;
  hdp_exemplars : list message;
  hdp_flags : Z;
  hdp_min : option f64;
  hdp_max : option f64;
}.

(** Received only: the fields the program reads, and the rest as encoded. *)
Record ExponentialHistogramDataPoint := {
  ehdp_attributes : list KeyValue;
  ehdp_count : Z;
  ehdp_sum : option f64;
  ehdp_rest : message;
}.
Record SummaryDataPoint := {
  sdp_attributes : list KeyValue;
  sdp_count : Z;
  sdp_sum : f64;
  sdp_rest : message;
}.

(** [AggregationTemporality::Cumulative as i32] of the OTLP enumeration. *)
Definition CUMULATIVE : Z := 2.

Inductive MetricData :=
| DataGauge (data_points : list NumberDataPoint)
| DataSum (data_points : list NumberDataPoint) (aggregation_temporality : Z) (is_monotonic : bool)
| DataHistogram (data_points : list HistogramDataPoint) (aggregation_temporality : Z)
| DataExponentialHistogram (data_points : list ExponentialHistogramDataPoint)
    (aggregation_temporality : Z)
| DataSummary (data_points : list SummaryDataPoint).

Record OtlpMetric := {
  om_name : string;
  om_description : string;
  om_unit : string;
  om_metadata : list KeyValue;
  om_data : option MetricData;
}.

Record ScopeMetrics := {
  sm_scope : option InstrumentationScope;
  sm_metrics : list OtlpMetric;
  sm_schema_url : string;
}.
Record ResourceMetrics := {
  rm_resource : option Resource;
  rm_scope_metrics : list ScopeMetrics;
  rm_schema_url : string;
}.
Record ExportMetricsServiceRequest := { resource_metrics_of : list ResourceMetrics }.

(** ** Traces and logs *)

Record ScopeSpans := {
  ss_scope : option InstrumentationScope;
  ss_spans : list message;
  ss_schema_url : string;
}.
Record ResourceSpans := {
  rs_resource : option Resource;
  rs_scope_spans : list ScopeSpans;
  rs_schema_url : string;
}.
Record ExportTraceServiceRequest := { resource_spans_of : list ResourceSpans }.

Record LogRecord := {
  lr_time_unix_nano : Z;
  lr_observed_time_unix_nano : Z;
  lr_severity_number : Z;
  lr_severity_text : string;
  lr_body : option AnyValue;
  lr_attributes : list KeyValue;
  lr_dropped_attributes_count : Z;
  lr_flags : Z;
  lr_trace_id : list byte;
  lr_span_id : list byte;
  lr_event_name : string;
}.
Record ScopeLogs := {
  sl_scope : option InstrumentationScope;
  sl_log_records : list LogRecord;
  sl_schema_url : string;
}.
Record ResourceLogs := {
  rl_resource : option Resource;
  rl_scope_logs : list ScopeLogs;
  rl_schema_url : string;
}.
Record ExportLogsServiceRequest := { resource_logs_of : list ResourceLogs }.

(** ** protocol.rs *)

Inductive Signal :=
| Metrics (request : ExportMetricsServiceRequest)
| Traces (request : ExportTraceServiceRequest)
| Logs (request : ExportLogsServiceRequest).

(** ** metrics.rs *)

Inductive Source :=
| OpenTelemetry | Kubernetes | EdgeDevice | FileNode | ComputeAdvisor | Quantum | System | MacOS.

#[global] Instance Source_eq_dec : EqDecision Source.
Proof. solve_decision. Defined.

Definition source_as_str (s : Source) : string :=
  match s with
  | OpenTelemetry => "opentelemetry"
  | Kubernetes => "kubernetes"
  | EdgeDevice => "edge_device"
  | FileNode => "file_node"
  | ComputeAdvisor => "compute_advisor"
  | Quantum => "quantum"
  | System => "system"
  | MacOS => "macos"
  end.

Inductive SampleKind := KGauge | KSum | KHistogram.

#[global] Instance SampleKind_eq_dec : EqDecision SampleKind.
Proof. solve_decision. Defined.

Record Metric := {
  name : string;
  metric_value : f64;
  source : Source;
  unit_of : option string;
  metric_kind : SampleKind;
  attributes : list (string * string);
}.

(** The [for] loop of [key_values]: a key already in the output is skipped. *)
Definition push_key_value (out : list KeyValue) (kv : string * string) : list KeyValue :=
  if existsb (λ e, bool_decide (kv_key e = kv.1)) out then out
  else out ++ [string_kv kv.1 kv.2].
Definition key_values (attributes : list (string * string)) : list KeyValue :=
  foldl push_key_value [] attributes.

Definition number_data_point (attributes : list KeyValue) (value : f64)
    (start_time_unix_nano time_unix_nano : Z) : NumberDataPoint :=
  {| ndp_attributes := attributes; ndp_start_time_unix_nano := start_time_unix_nano;
     ndp_time_unix_nano := time_unix_nano; ndp_exemplars := []; ndp_flags := 0;
     ndp_value := Some (AsDouble value) |}.

Definition otlp_metric (metric : Metric) (time_unix_nano : Z) : OtlpMetric :=
  let attributes := key_values (attributes metric) in
  let value := metric_value metric in
  {| om_name := name metric;
     om_description := "";
     om_unit := default "" (unit_of metric);
     om_metadata := [];
     om_data := Some
       match metric_kind metric with
       | KGauge => DataGauge [number_data_point attributes value 0 time_unix_nano]
       | KSum => DataSum [number_data_point attributes value time_unix_nano time_unix_nano]
                   CUMULATIVE true
       | KHistogram => DataHistogram
           [ {| hdp_attributes := attributes; hdp_start_time_unix_nano := time_unix_nano;
                hdp_time_unix_nano := time_unix_nano; hdp_count := 1; hdp_sum := Some value;
                hdp_bucket_counts := []; hdp_explicit_bounds := []; hdp_exemplars := [];
                hdp_flags := 0; hdp_min := Some value; hdp_max := Some value |} ]
           CUMULATIVE
       end |}.

Definition resource_metrics (source : Source) (metrics : list Metric)
    (service_name scope_name : string) (time_unix_nano : Z) : ResourceMetrics :=
  {| rm_resource := Some
       {| res_attributes := key_values [("service.name", service_name);
                                        ("skid_monitor.source", source_as_str source)];
          res_dropped_attributes_count := 0; res_entity_refs := [] |};
     rm_scope_metrics :=
       [ {| sm_scope := Some {| is_name := scope_name; is_version := ""; is_attributes := [];
                                is_dropped_attributes_count := 0 |};
            sm_metrics := (λ metric, otlp_metric metric time_unix_nano) <$> metrics;
            sm_schema_url := "" |} ];
     rm_schema_url := "" |}.

(** [groups.iter_mut().find(|(source, _)| *source == metric.source)], then a
    push into the group found or a new group at the end. *)
Fixpoint push_group (groups : list (Source * list Metric)) (metric : Metric)
  : list (Source * list Metric) :=
  match groups with
  | [] => [(source metric, [metric])]
  | (s, grouped) :: rest =>
    if bool_decide (s = source metric) then (s, grouped ++ [metric]) :: rest
    else (s, grouped) :: push_group rest metric
  end.

(** [unix_nanos], with [time] the signed nanoseconds of the clock since the
    epoch: before the epoch is 0, and [as_nanos() as u64] truncates. *)
Definition unix_nanos (time : Z) : Z := as_u64 (Z.max 0 time).

Definition export_metrics (now : Z) (metrics : list Metric) (service_name scope_name : string)
  : ExportMetricsServiceRequest :=
  if bool_decide (metrics = []) then {| resource_metrics_of := [] |}
  else
    let time_unix_nano := unix_nanos now in
    let groups := foldl push_group [] metrics in
    {| resource_metrics_of :=
         (λ g, resource_metrics g.1 g.2 service_name scope_name time_unix_nano) <$> groups |}.

(** ** What a batch of samples becomes *)

Lemma source_as_str_inj s t : source_as_str s = source_as_str t → s = t.
Proof. by destruct s, t. Qed.

(** The value of the first pair with a given key. *)
Definition first_value (k : string) (l : list (string * string)) : option string :=
  snd <$> find_first (λ kv, bool_decide (kv.1 = k)) l.

Definition find_key (k : string) (l : list KeyValue) : option KeyValue :=
  find_first (λ kv, bool_decide (kv_key kv = k)) l.

Lemma find_first_app {A} (p : A → bool) l k : find_first p (l ++ k) =
  match find_first p l with Some x => Some x | None => find_first p k end.
Proof. induction l as [|x l IH]; simpl; [done|]. by destruct (p x). Qed.

Lemma existsb_find_key l k :
  existsb (λ e, bool_decide (kv_key e = k)) l = bool_decide (is_Some (find_key k l)).
Proof.
  unfold find_key. induction l as [|e l IH]; simpl; [done|].
  by destruct (bool_decide (kv_key e = k)).
Qed.

Lemma push_key_value_keys out kv : kv_key <$> push_key_value out kv =
  if decide (kv.1 ∈ kv_key <$> out) then kv_key <$> out else (kv_key <$> out) ++ [kv.1].
Proof.
  unfold push_key_value. destruct (existsb _ out) eqn:E.
  - apply existsb_exists in E as (e & He%list_elem_of_In & Hk%bool_decide_eq_true).
    rewrite decide_True; [done|]. rewrite <-Hk. by apply list_elem_of_fmap_2.
  - rewrite decide_False; [by rewrite fmap_app|]. intros (e & Hk & He)%list_elem_of_fmap.
    enough (existsb (λ e0, bool_decide (kv_key e0 = kv.1)) out = true) by congruence.
    apply existsb_exists. exists e. rewrite <-list_elem_of_In, bool_decide_eq_true. done.
Qed.

(** [key_values] keeps the keys in the order of their first occurrence,
    each once, with the value of that first occurrence. *)
Theorem key_values_first_wins l :
  kv_key <$> key_values l = nub l.*1 ∧
  ∀ k, find_key k (key_values l) = string_kv k <$> first_value k l.
Proof.
  unfold key_values. induction l as [|kv l [IHk IHf]] using rev_ind; [done|].
  rewrite foldl_app, fmap_app. change [kv].*1 with [kv.1]. rewrite nub_snoc. simpl. split.
  - rewrite push_key_value_keys, IHk.
    destruct (decide (kv.1 ∈ nub l.*1)) as [H|H]; rewrite elem_of_nub in H;
      [by rewrite decide_True|by rewrite decide_False].
  - intros k. specialize (IHf k) as IH.
    generalize dependent (foldl push_key_value [] l). intros o IHk IHf IH. unfold push_key_value.
    rewrite existsb_find_key, IHf. unfold first_value in *. rewrite find_first_app.
    destruct (decide (kv.1 = k)) as [<-|Hk].
    + destruct (find_first _ l) as [p|] eqn:Hp; simpl in *.
      * by rewrite IH.
      * rewrite !bool_decide_eq_true_2 by done.
        unfold find_key in *. rewrite find_first_app, IH. simpl. by rewrite bool_decide_eq_true_2.
    + transitivity (find_key k o).
      { destruct (bool_decide _); [done|]. unfold find_key. rewrite find_first_app.
        destruct (find_first _ o); [done|]. simpl. by rewrite bool_decide_eq_false_2. }
      rewrite IH. destruct (find_first _ l); [done|]. simpl. by rewrite bool_decide_eq_false_2.
Qed.

(** The groups a batch should be split into. *)
Definition groups_of (ms : list Metric) : list (Source * list Metric) :=
  (λ s, (s, filter (λ m, source m = s) ms)) <$> nub (source <$> ms).

Lemma push_group_fmap L (F : Source → list Metric) m : NoDup L →
  push_group ((λ s, (s, F s)) <$> L) m =
  if decide (source m ∈ L)
  then (λ s, (s, if decide (s = source m) then F s ++ [m] else F s)) <$> L
  else ((λ s, (s, F s)) <$> L) ++ [(source m, [m])].
Proof.
  induction 1 as [|s L Hs _ IH].
  { by rewrite decide_False by apply not_elem_of_nil. }
  rewrite !fmap_cons. cbn [push_group]. destruct (decide (s = source m)) as [->|Hne].
  - rewrite bool_decide_eq_true_2, decide_True by (done || by left). f_equal.
    apply list_fmap_ext. intros i t Ht%list_elem_of_lookup_2.
    rewrite decide_False; [done|]. by intros ->.
  - rewrite bool_decide_eq_false_2 by done. rewrite IH.
    destruct (decide (source m ∈ L)).
    + rewrite decide_True by (by right). done.
    + rewrite decide_False; [done|]. rewrite elem_of_cons. naive_solver.
Qed.

Lemma foldl_push_group ms : foldl push_group [] ms = groups_of ms.
Proof.
  induction ms as [|m ms IH] using rev_ind; [done|].
  rewrite foldl_app, IH. simpl. unfold groups_of. rewrite push_group_fmap by apply NoDup_nub.
  rewrite fmap_app. change (source <$> [m]) with [source m]. rewrite nub_snoc.
  rewrite (decide_ext _ _ _ _ (elem_of_nub _ _)). case_decide as Hin.
  - apply list_fmap_ext. intros _ s _. f_equal. rewrite filter_app.
    case_decide as Hs; [by rewrite filter_cons_True|].
    rewrite filter_cons_False by auto. by rewrite app_nil_r.
  - rewrite fmap_app. simpl. f_equal.
    + apply list_fmap_ext. intros _ s Hs%list_elem_of_lookup_2. f_equal.
      rewrite elem_of_nub in Hs.
      rewrite filter_app, filter_cons_False, app_nil_r; [done|]. by intros <-.
    + do 2 f_equal. rewrite filter_app, filter_cons_True by done.
      replace (filter _ ms) with (@nil Metric); [done|].
      symmetry. apply filter_none.
      intros x Hx Hsx. apply Hin. rewrite <-Hsx. by apply list_elem_of_fmap_2.
Qed.

Lemma export_metrics_groups now ms svc scope : resource_metrics_of (export_metrics now ms svc scope) =
  (λ g, resource_metrics g.1 g.2 svc scope (unix_nanos now)) <$> groups_of ms.
Proof.
  unfold export_metrics. case_bool_decide as H; [by subst|]. simpl. by rewrite foldl_push_group.
Qed.

(** The metric descriptors of a request. *)
Definition request_metrics (r : ExportMetricsServiceRequest) : list OtlpMetric :=
  rm ← resource_metrics_of r; sm ← rm_scope_metrics rm; sm_metrics sm.

Lemma groups_of_Permutation ms : concat (groups_of ms).*2 ≡ₚ ms.
Proof.
  unfold groups_of. rewrite <-list_fmap_compose. unfold compose; simpl.
  assert (∀ L, NoDup L → (∀ m, m ∈ ms → source m ∈ L) →
    concat ((λ s, filter (λ m, source m = s) ms) <$> L) ≡ₚ ms) as H.
  { intros L HL. revert ms. induction HL as [|s L Hs HL IH]; intros ms Hms.
    - destruct ms as [|m ms]; [done|]. exfalso. eapply not_elem_of_nil, (Hms m). by left.
    - rewrite fmap_cons. simpl.
      etransitivity; [|apply (filter_split_perm (λ m, source m = s))].
      apply Permutation_app_head. rewrite <-(IH (filter (λ m, ¬ source m = s) ms)).
      + apply reflexive_eq. f_equal. apply list_fmap_ext. intros _ t Ht%list_elem_of_lookup_2.
        rewrite list_filter_filter. apply list_filter_iff. intros m. split; [|tauto].
        intros Hmt. split; [done|]. congruence.
      + intros m [Hm Hin]%list_elem_of_filter. specialize (Hms m Hin).
        apply elem_of_cons in Hms as [?|?]; done. }
  apply H; [apply NoDup_nub|]. intros m Hm. apply elem_of_nub. by apply list_elem_of_fmap_2.
Qed.

(** An export request has one resource per source that occurs, in the
    order of first occurrence and carrying that source's name, whose metrics
    are the samples of that source in their order; no sample is lost or
    duplicated. *)
Theorem export_metrics_partition now ms svc scope :
  resource_metrics_of (export_metrics now ms svc scope)
  = (λ s, resource_metrics s (filter (λ m, source m = s) ms) svc scope (unix_nanos now))
      <$> nub (source <$> ms) ∧
  request_metrics (export_metrics now ms svc scope)
  ≡ₚ (λ m, otlp_metric m (unix_nanos now)) <$> ms.
Proof.
  unfold request_metrics. rewrite export_metrics_groups. split.
  - unfold groups_of. by rewrite <-list_fmap_compose.
  - rewrite <-(groups_of_Permutation ms) at 2. apply reflexive_eq.
    induction (groups_of ms) as [|[s g] gs IH]; [done|].
    rewrite !fmap_cons. simpl. rewrite app_nil_r, fmap_app. by f_equal.
Qed.

(** ** Binary digits of a mantissa *)

Lemma digits2_bounds m : 2 ^ (Zpos (digits2_pos m) - 1) ≤ Zpos m < 2 ^ Zpos (digits2_pos m).
Proof.
  induction m as [m IH|m IH|]; simpl; [| |lia];
    rewrite Pos2Z.inj_succ; replace (Z.succ (Zpos (digits2_pos m)) - 1) with (Zpos (digits2_pos m)) by lia;
    rewrite Z.pow_succ_r by lia;
    replace (Zpos (digits2_pos m)) with (Z.succ (Zpos (digits2_pos m) - 1)) at 1 by lia;
    rewrite Z.pow_succ_r by lia; lia.
Qed.
