(* ===== verification/Frame.v ===== *)
(** * Length-prefixed signal frames (skid-protocol, frame.rs)

    A frame is a big-endian [u32] length and a JSON encoded [Signal].  The
    reader and the writer are the interfaces [Reader] and [Writer] that
    [std::io::Read] and [std::io::Write] give; serde_json is the interface
    [SignalCodec].  The instances are a byte slice, a socket as the sequence of
    its read results, and a [Vec<u8>]. *)

From S2P Require Import Prelude RustStr Otlp.

Definition LEGACY_MAX_FRAME_BYTES : Z := 16 * 1024 * 1024.

Inductive IoErrorKind :=
| InvalidData | InvalidInput | UnexpectedEof | Interrupted | WouldBlock | TimedOut | OtherIo.

#[global] Instance IoErrorKind_eq_dec : EqDecision IoErrorKind.
Proof. solve_decision. Defined.

Record IoError := mkIoError { io_kind : IoErrorKind; io_message : string }.

(** ** Interfaces *)

(** [serde_json::to_vec] and [serde_json::from_slice] at [Signal]; an error is
    its text. *)
Class SignalCodec := {
  to_vec : Signal → result string (list byte);
  from_slice : list byte → result string Signal;
}.

(** [Read::read] with a buffer of [n] bytes: the bytes stored, at most [n]. *)
Class Reader (R : Type) := read : nat → R → result IoError (list byte) * R.

(** [Write::write_all] and [Write::flush]. *)
Class Writer (W : Type) := {
  write_all : list byte → W → result IoError () * W;
  flush : W → result IoError () * W;
}.

(** [Read::read_exact], the loop of the standard library: no byte is the end of
    the stream, [Interrupted] is retried, any other error is returned.  [None]
    is fuel exhaustion. *)
Fixpoint read_exact {R} `{Reader R} (fuel n : nat) (r : R)
  : option (result IoError (list byte) * R) :=
  match n with
  | O => Some (Ok [], r)
  | S _ =>
    match fuel with
    | O => None
    | S fuel =>
      match read n r with
      | (Ok [], r) => Some (Err (mkIoError UnexpectedEof "failed to fill whole buffer"), r)
      | (Ok bs, r) =>
        '(rest, r) ← read_exact fuel (n - length bs) r;
        Some (match rest with Ok l => Ok (bs ++ l) | Err e => Err e end, r)
      | (Err e, r) =>
        if bool_decide (io_kind e = Interrupted) then read_exact fuel n r else Some (Err e, r)
      end
    end
  end.

(** ** frame.rs *)

Definition frame_too_large (len : Z) : IoError :=
  mkIoError InvalidData ("frame too large: " +:+ u64_to_string len +:+ " bytes").

Definition validate_frame_len (len : Z) : result IoError nat :=
  if LEGACY_MAX_FRAME_BYTES <? len then Err (frame_too_large len) else Ok (Z.to_nat len).

Definition validate_payload_len (len : Z) : result IoError () :=
  if LEGACY_MAX_FRAME_BYTES <? len then Err (frame_too_large len) else Ok ().

Definition invalid_json (text : string) : IoError := mkIoError InvalidData text.

Section frame.
  Context `{SignalCodec}.

Definition encode_signal_payload (signal : Signal) : result IoError (list byte) :=
  payload ← map_err invalid_json (to_vec signal);
  _ ← validate_payload_len (zlen payload);
  Ok payload.

Definition decode_signal_payload (payload : list byte) : result IoError Signal :=
  map_err invalid_json (from_slice payload).

Definition read_signal {R} `{Reader R} (fuel : nat) (reader : R)
  : option (result IoError Signal * R) :=
  '(len_buf, reader) ← read_exact fuel 4 reader;
  match len_buf with
  | Err e => Some (Err e, reader)
  | Ok len_buf =>
    match validate_frame_len (from_be len_buf) with
    | Err e => Some (Err e, reader)
    | Ok len =>
      '(payload, reader) ← read_exact fuel len reader;
      Some (payload ← payload; decode_signal_payload payload, reader)
    end
  end.

Definition write_signal_payload {W} `{Writer W} (writer : W) (payload : list byte)
  : result IoError () * W :=
  match validate_payload_len (zlen payload) with
  | Err e => (Err e, writer)
  | Ok _ =>
    match write_all (to_be 4 (zlen payload)) writer with
    | (Err e, writer) => (Err e, writer)
    | (Ok _, writer) =>
      match write_all payload writer with
      | (Err e, writer) => (Err e, writer)
      | (Ok _, writer) => flush writer
      end
    end
  end.

Definition write_signal {W} `{Writer W} (writer : W) (signal : Signal) : result IoError Z * W :=
  match encode_signal_payload signal with
  | Err e => (Err e, writer)
  | Ok payload =>
    match write_signal_payload writer payload with
    | (Err e, writer) => (Err e, writer)
    | (Ok _, writer) => (Ok (zlen payload), writer)
    end
  end.
End frame.

(** ** Instances of the interfaces *)

(** [impl Read for &[u8]] *)
#[global] Instance slice_reader : Reader (list byte) := λ n l, (Ok (take n l), drop n l).

(** A socket: the results its successive reads have available.  A segment
    longer than the buffer is kept for the next read; when nothing is left the
    peer has closed. *)
Definition socket := list (result IoError (list byte)).
#[global] Instance socket_reader : Reader socket := λ n evs,
  match evs with
  | [] => (Ok [], [])
  | Ok seg :: evs =>
    (Ok (take n seg), if (length seg <=? n)%nat then evs else Ok (drop n seg) :: evs)
  | Err e :: evs => (Err e, evs)
  end.

(** [impl Write for Vec<u8>] *)
#[global] Instance vec_writer : Writer (list byte) :=
  {| write_all bs w := (Ok (), w ++ bs); flush w := (Ok (), w) |}.

(** ** Reading from a socket

    [delivers evs bs]: the peer sends the bytes [bs] and closes; the network
    cuts them into any non-empty segments and signals may interrupt reads. *)

Inductive delivers : socket → list byte → Prop :=
| delivers_close : delivers [] []
| delivers_segment seg evs bs :
    seg ≠ [] → delivers evs bs → delivers (Ok seg :: evs) (seg ++ bs)
| delivers_interrupt msg evs bs :
    delivers evs bs → delivers (Err (mkIoError Interrupted msg) :: evs) bs.

Definition eof : IoError := mkIoError UnexpectedEof "failed to fill whole buffer".

Lemma read_exact_step {R} `{Reader R} fuel n r bs r' :
  read (S n) r = (Ok bs, r') → bs ≠ [] →
  read_exact (S fuel) (S n) r =
    '(rest, r) ← read_exact fuel (S n - length bs) r';
    Some (match rest with Ok l => Ok (bs ++ l) | Err e => Err e end, r).
Proof. intros Hr Hb. cbn [read_exact]. rewrite Hr. by destruct bs. Qed.

Lemma read_exact_retry {R} `{Reader R} fuel n r e r' :
  read (S n) r = (Err e, r') → io_kind e = Interrupted →
  read_exact (S fuel) (S n) r = read_exact fuel (S n) r'.
Proof. intros Hr He. cbn [read_exact]. rewrite Hr. by rewrite bool_decide_eq_true_2. Qed.

Lemma read_exact_fill evs bs n fuel : delivers evs bs → (length evs < fuel)%nat →
  (n ≤ length bs)%nat →
  ∃ evs', read_exact fuel n evs = Some (Ok (take n bs), evs') ∧ delivers evs' (drop n bs) ∧
    (length evs' ≤ length evs)%nat.
Proof.
  intros Hd. revert n fuel. induction Hd as [|seg evs bs Hseg Hd IH|msg evs bs Hd IH];
    intros n fuel Hf Hn; destruct fuel as [|fuel]; try lia;
    (destruct n as [|n]; [eexists; split; [done|]; split; [by constructor|done]|]).
  - simpl in Hn. lia.
  - rewrite length_app in Hn. simpl in Hf.
    rewrite (read_exact_step _ _ _ (take (S n) seg)
      (if (length seg <=? S n)%nat then evs else Ok (drop (S n) seg) :: evs))
      by (done || by destruct seg). rewrite length_take.
    destruct (Nat.leb_spec (length seg) (S n)) as [Hs|Hs].
    + destruct (IH (S n - length seg)%nat fuel) as (evs' & He & Hd' & Hl); [lia|lia|].
      rewrite Nat.min_r, He by lia. eexists. split; [cbn [mbind option_bind]; by rewrite take_app|].
      split; [by rewrite drop_app, (drop_ge seg) by lia|simpl; lia].
    + rewrite Nat.min_l, Nat.sub_diag by lia. eexists.
      split; [destruct fuel; cbn [read_exact mbind option_bind]; by rewrite app_nil_r, take_app_le by lia|].
      rewrite drop_app_le by lia. split; [|simpl; lia].
      constructor; [|done]. intros Hz%(f_equal length). rewrite length_drop in Hz. simpl in Hz. lia.
  - simpl in Hf. rewrite (read_exact_retry _ _ _ (mkIoError Interrupted msg) evs) by done.
    destruct (IH (S n) fuel) as (evs' & -> & ? & ?); [lia|lia|]. eexists; split_and!; [done|done|simpl; lia].
Qed.

Lemma read_exact_eof evs bs n fuel : delivers evs bs → (length evs < fuel)%nat →
  (length bs < n)%nat → read_exact fuel n evs = Some (Err eof, []).
Proof.
  intros Hd. revert n fuel. induction Hd as [|seg evs bs Hseg Hd IH|msg evs bs Hd IH];
    intros n fuel Hf Hn; destruct n as [|n]; destruct fuel as [|fuel]; try (simpl in *; lia).
  - done.
  - rewrite length_app in Hn. simpl in Hf.
    rewrite (read_exact_step _ _ _ seg evs); [|unfold read, socket_reader|done].
    + by rewrite IH by lia.
    + by rewrite (take_ge seg), (proj2 (Nat.leb_le _ _)) by lia.
  - simpl in Hf. rewrite (read_exact_retry _ _ _ (mkIoError Interrupted msg) evs) by done.
    apply IH; lia.
Qed.

Section reading.
  Context `{SignalCodec}.

(** What reading one frame from the bytes [bs] gives, and the bytes left. *)
Definition frame_of (bs : list byte) : result IoError Signal * list byte :=
  if (length bs <? 4)%nat then (Err eof, [])
  else
    let len := from_be (take 4 bs) in
    let rest := drop 4 bs in
    if LEGACY_MAX_FRAME_BYTES <? len then (Err (frame_too_large len), rest)
    else if zlen rest <? len then (Err eof, [])
    else (decode_signal_payload (take (Z.to_nat len) rest), drop (Z.to_nat len) rest).

Lemma read_signal_frame evs bs fuel : delivers evs bs → (length evs < fuel)%nat →
  ∃ evs', read_signal fuel evs = Some ((frame_of bs).1, evs') ∧ delivers evs' (frame_of bs).2 ∧
    (length evs' ≤ length evs)%nat.
Proof.
  intros Hd Hf. unfold read_signal, frame_of, validate_frame_len.
  destruct (Nat.ltb_spec (length bs) 4) as [Hs|Hs].
  { rewrite (read_exact_eof evs bs) by done. eexists. split_and!; [done|constructor|simpl; lia]. }
  destruct (read_exact_fill evs bs 4 fuel) as (evs1 & -> & Hd1 & Hl1); [done|done|done|].
  cbn [mbind option_bind]. destruct (LEGACY_MAX_FRAME_BYTES <? _); [by eexists|].
  pose proof (from_be_bound (take 4 bs)) as [Hpos _].
  destruct (Z.ltb_spec (zlen (drop 4 bs)) (from_be (take 4 bs))) as [Hr|Hr]; unfold zlen in Hr.
  { rewrite (read_exact_eof evs1 (drop 4 bs)) by (done || lia).
    eexists. split_and!; [done|constructor|simpl; lia]. }
  destruct (read_exact_fill evs1 (drop 4 bs) (Z.to_nat (from_be (take 4 bs))) fuel)
    as (evs2 & -> & Hd2 & Hl2); [done|lia|lia|]. eexists. split_and!; [done|done|lia].
Qed.

(** However the network cuts the bytes of a connection into segments and
    wherever reads are interrupted, [read_signal] terminates and returns
    exactly what the bytes mean: the decoded payload of the declared length,
    the rejection of a length above 16 MiB before any of the payload is read,
    or the end-of-file error on a truncated prefix or payload; and it consumes
    exactly the frame. *)
Theorem read_signal_socket evs bs fuel : delivers evs bs → (length evs < fuel)%nat →
  ∃ evs', read_signal fuel evs = Some ((frame_of bs).1, evs') ∧ delivers evs' (frame_of bs).2.
Proof.
  intros Hd Hf. destruct (read_signal_frame evs bs fuel Hd Hf) as (evs' & ? & ? & _). eauto.
Qed.

(** ** Writing and reading back *)

(** The bytes of a written frame. *)
Definition frame_bytes_of (payload : list byte) : list byte :=
  to_be 4 (zlen payload) ++ payload.

Lemma frame_of_frame_bytes payload rest : zlen payload ≤ LEGACY_MAX_FRAME_BYTES →
  frame_of (frame_bytes_of payload ++ rest) = (decode_signal_payload payload, rest).
Proof.
  intros Hp. unfold frame_of, frame_bytes_of. rewrite <-app_assoc.
  pose proof (length_to_be 4 (zlen payload)) as H4. pose proof (zlen_nonneg payload).
  rewrite (proj2 (Nat.ltb_ge _ _)) by (rewrite length_app, H4; lia).
  rewrite take_app_length', drop_app_length' by done.
  unfold LEGACY_MAX_FRAME_BYTES in *.
  rewrite from_be_to_be_small by (simpl; lia).
  rewrite (proj2 (Z.ltb_ge _ _)) by lia. rewrite zlen_app.
  rewrite (proj2 (Z.ltb_ge _ _)) by (pose proof (zlen_nonneg rest); lia).
  unfold zlen. by rewrite Nat2Z.id, take_app_length, drop_app_length.
Qed.

Lemma write_signal_vec w s payload : to_vec s = Ok payload →
  zlen payload ≤ LEGACY_MAX_FRAME_BYTES →
  write_signal w s = (Ok (zlen payload), w ++ frame_bytes_of payload).
Proof.
  intros Hs Hp. unfold write_signal, encode_signal_payload, write_signal_payload, validate_payload_len.
  rewrite Hs. cbn [map_err mbind result_bind]. rewrite (proj2 (Z.ltb_ge _ _)) by lia.
  cbn [mbind result_bind write_all vec_writer flush]. rewrite (proj2 (Z.ltb_ge _ _)) by lia.
  unfold frame_bytes_of. by rewrite app_assoc.
Qed.

(** [write_signal] of each signal of a list to the same buffer. *)
Fixpoint write_signals (w : list byte) (ss : list Signal) : result IoError (list byte) :=
  match ss with
  | [] => Ok w
  | s :: ss => match write_signal w s with (Err e, _) => Err e | (Ok _, w) => write_signals w ss end
  end.

(** [read_signal] as many times. *)
Fixpoint read_signals (fuel k : nat) (r : socket) : option (list (result IoError Signal) * socket) :=
  match k with
  | O => Some ([], r)
  | S k => '(x, r) ← read_signal fuel r; '(xs, r) ← read_signals fuel k r; Some (x :: xs, r)
  end.

(** A signal the JSON codec itself round-trips. *)
Definition codec_roundtrips (s : Signal) : Prop :=
  ∃ payload, to_vec s = Ok payload ∧ from_slice payload = Ok s.

Lemma write_signal_ok_inv w s n w' : write_signal w s = (Ok n, w') →
  ∃ payload, to_vec s = Ok payload ∧ zlen payload ≤ LEGACY_MAX_FRAME_BYTES ∧
             w' = w ++ frame_bytes_of payload.
Proof.
  destruct (to_vec s) as [payload|e] eqn:Hs;
    [|unfold write_signal, encode_signal_payload; by rewrite Hs].
  destruct (Z.leb_spec (zlen payload) LEGACY_MAX_FRAME_BYTES) as [Hp|Hp].
  - rewrite (write_signal_vec w s payload) by done. intros [= _ <-]. eauto.
  - unfold write_signal, encode_signal_payload, validate_payload_len. rewrite Hs. simpl.
    by rewrite (proj2 (Z.ltb_lt _ _)).
Qed.

Lemma write_signals_inv ss : ∀ w w', write_signals w ss = Ok w' →
  ∃ ps, Forall2 (λ s p, to_vec s = Ok p ∧ zlen p ≤ LEGACY_MAX_FRAME_BYTES) ss ps ∧
        w' = w ++ concat (frame_bytes_of <$> ps).
Proof.
  induction ss as [|s ss IH]; simpl; intros w w'.
  { intros [= <-]. exists []. by rewrite app_nil_r. }
  destruct (write_signal w s) as [[n|e] w1] eqn:Hw; [|done].
  apply write_signal_ok_inv in Hw as (p & Hp & Hl & ->).
  intros (ps & Hps & ->)%IH. exists (p :: ps). split; [by constructor|].
  by rewrite fmap_cons, <-app_assoc.
Qed.

Lemma read_signals_frames fuel ss ps : Forall2 (λ s p, to_vec s = Ok p ∧
    zlen p ≤ LEGACY_MAX_FRAME_BYTES) ss ps → Forall codec_roundtrips ss →
  ∀ evs, delivers evs (concat (frame_bytes_of <$> ps)) → (length evs < fuel)%nat →
  ∃ evs', read_signals fuel (length ss) evs = Some (Ok <$> ss, evs') ∧ delivers evs' [] ∧
    (length evs' < fuel)%nat.
Proof.
  induction 1 as [|s p ss ps [Hs Hp] _ IH]; intros Hc evs Hd Hf; [by eexists|].
  apply Forall_cons in Hc as [(p' & Hp' & Hfrom) Hc]. rewrite Hs in Hp'. simplify_eq.
  rewrite fmap_cons, concat_cons in Hd.
  destruct (read_signal_frame _ _ fuel Hd Hf) as (evs1 & Hr & Hd1 & Hl1).
  rewrite frame_of_frame_bytes in Hr, Hd1 by done. simpl in Hr, Hd1.
  destruct (IH Hc evs1 Hd1) as (evs' & Hrs & Hd' & Hf'); [lia|].
  exists evs'. split; [|done]. simpl. rewrite Hr. simpl. rewrite Hrs. simpl.
  unfold decode_signal_payload. by rewrite Hfrom.
Qed.

(** Signals written one after the other come back in order, whatever the
    segmentation of the stream, for signals the JSON codec itself round-trips;
    after the last one the reader reports the end of the stream. *)
Theorem write_read_signals ss w evs fuel :
  Forall codec_roundtrips ss → write_signals [] ss = Ok w →
  delivers evs w → (length evs < fuel)%nat →
  ∃ evs', read_signals fuel (length ss) evs = Some (Ok <$> ss, evs') ∧
          read_signal fuel evs' = Some (Err eof, []).
Proof.
  intros Hc (ps & Hps & ->)%write_signals_inv Hd Hf.
  destruct (read_signals_frames fuel ss ps Hps Hc evs Hd Hf) as (evs' & Hr & Hd' & Hf').
  exists evs'. split; [done|]. unfold read_signal.
  by rewrite (read_exact_eof evs' []) by (done || simpl; lia).
Qed.
End reading.

(** ** Instances *)

(** The JSON texts of the two empty requests, enough to exercise the frames. *)
Module DemoCodec.
Definition empty_metrics : Signal := Metrics {| resource_metrics_of := [] |}.
Definition empty_logs : Signal := Logs {| resource_logs_of := [] |}.
Definition metrics_json : list byte := as_bytes "{'Metrics':{'resourceMetrics':[]}}".
Definition logs_json : list byte := as_bytes "{'Logs':{'resourceLogs':[]}}".
#[export] Instance demo_codec : SignalCodec := {|
  to_vec s := match s with
              | Metrics {| resource_metrics_of := [] |} => Ok metrics_json
              | Logs {| resource_logs_of := [] |} => Ok logs_json
              | _ => Err "unsupported"
              end;
  from_slice l := if bool_decide (l = metrics_json) then Ok empty_metrics
                  else if bool_decide (l = logs_json) then Ok empty_logs
                  else Err "expected value at line 1 column 1" |}.
Definition demo_bytes : list byte := frame_bytes_of metrics_json ++ frame_bytes_of logs_json.
Definition demo_socket : socket :=
  [Ok (take 3 demo_bytes); Err (mkIoError Interrupted "signal"); Ok (drop 3 demo_bytes)].
Lemma demo_delivers : delivers demo_socket demo_bytes.
Proof.
  unfold demo_socket. rewrite <-(take_drop 3 demo_bytes) at 3.
  constructor; [done|]. constructor. rewrite <-(app_nil_r (drop 3 demo_bytes)) at 2.
  constructor; [done|]. constructor.
Qed.
End DemoCodec.

Lemma read_signal_socket_witness : ∃ evs',
  read_signal (H := DemoCodec.demo_codec) 4 DemoCodec.demo_socket
    = Some (Ok DemoCodec.empty_metrics, evs') ∧
  delivers evs' (frame_bytes_of DemoCodec.logs_json).
Proof.
  apply (read_signal_socket (H := DemoCodec.demo_codec) DemoCodec.demo_socket DemoCodec.demo_bytes 4
           DemoCodec.demo_delivers).
  simpl. lia.
Defined.

Lemma write_read_signals_witness : ∃ evs',
  read_signals (H := DemoCodec.demo_codec) 4 2 DemoCodec.demo_socket
    = Some ([Ok DemoCodec.empty_metrics; Ok DemoCodec.empty_logs], evs') ∧
  read_signal (H := DemoCodec.demo_codec) 4 evs' = Some (Err eof, []).
Proof.
  apply (write_read_signals (H := DemoCodec.demo_codec)
    [DemoCodec.empty_metrics; DemoCodec.empty_logs] DemoCodec.demo_bytes DemoCodec.demo_socket 4).
  - repeat constructor; eexists; split; reflexivity.
  - reflexivity.
  - apply DemoCodec.demo_delivers.
  - simpl. lia.
Defined.
