(* ===== verification/EdgeWire.v ===== *)
(** * The compact edge-device wire format (skid-edge-wire)

    The [no_std] crate that MCU firmware uses to encode metric samples into a
    buffer it owns and that the agent uses to decode them.  Buffers are lists
    of bytes, an [f32] is its 32-bit pattern, and every index and slice of the
    source is written with its bounds test ([None] is the panic). *)

From S2P Require Import Prelude RustStr.

Definition MAGIC : list byte := as_bytes "SE".
Definition VERSION : byte := u8 1.
Definition FRAME_KIND_METRICS : byte := u8 1.
Definition HEADER_LEN : nat := 10.
Definition RECORD_LEN : nat := 10.

Inductive EncodeError :=
| FieldTooLong | TooManyMetrics | OutputTooSmall | EncReservedMetricId | EncReservedSensorId.

Inductive DecodeError :=
| TooShort | BadMagic | UnsupportedVersion | UnsupportedKind | InvalidUtf8 | TruncatedIdentity
| BadRecordLength | ReservedMetricId | ReservedSensorId | UnknownMetricKind | UnknownUnit.

#[global] Instance EncodeError_eq_dec : EqDecision EncodeError.
Proof. solve_decision. Defined.
#[global] Instance DecodeError_eq_dec : EqDecision DecodeError.
Proof. solve_decision. Defined.

Record EdgeIdentity := { id_device_id : string; id_node_name : string }.

(** [MetricId(u16)] and [SensorId(u16)], with private fields. *)
Record MetricId := mkMetricId { metric_id_get : Z }.
Record SensorId := mkSensorId { sensor_id_get : Z }.

Definition EDGE_TEMPERATURE : MetricId := mkMetricId 1.
Definition EDGE_VOLTAGE_INPUT : MetricId := mkMetricId 2.
Definition EDGE_NETWORK_RSSI : MetricId := mkMetricId 3.
Definition EDGE_BOOT_COUNT : MetricId := mkMetricId 4.
Definition EDGE_WATCHDOG_RESETS : MetricId := mkMetricId 5.

Definition metric_id_new (value : Z) : option MetricId :=
  if value =? 0 then None else Some (mkMetricId value).

Definition metric_known_name (m : MetricId) : option string :=
  match metric_id_get m with
  | 1 => Some "edge.temperature"
  | 2 => Some "edge.voltage.input"
  | 3 => Some "edge.network.rssi"
  | 4 => Some "edge.boot.count"
  | 5 => Some "edge.watchdog.resets"
  | _ => None
  end.

Definition ENCLOSURE : SensorId := mkSensorId 1.
Definition POWER : SensorId := mkSensorId 2.
Definition WIFI : SensorId := mkSensorId 3.
Definition RUNTIME : SensorId := mkSensorId 4.

Definition sensor_id_new (value : Z) : option SensorId :=
  if value =? 0 then None else Some (mkSensorId value).

Definition sensor_known_name (s : SensorId) : option string :=
  match sensor_id_get s with
  | 1 => Some "enclosure"
  | 2 => Some "power"
  | 3 => Some "wifi"
  | 4 => Some "runtime"
  | _ => None
  end.

Inductive MetricKind := Gauge | Sum | Histogram.

(** [kind as u8] *)
Definition kind_as_u8 (k : MetricKind) : Z :=
  match k with Gauge => 1 | Sum => 2 | Histogram => 3 end.
Definition kind_from_u8 (value : Z) : option MetricKind :=
  match value with 1 => Some Gauge | 2 => Some Sum | 3 => Some Histogram | _ => None end.

Inductive Unit := UnitNone | Celsius | Volt | Dbm | Count | Percent.

(** [unit as u8] *)
Definition unit_as_u8 (u : Unit) : Z :=
  match u with UnitNone => 0 | Celsius => 1 | Volt => 2 | Dbm => 3 | Count => 4 | Percent => 5 end.
Definition unit_from_u8 (value : Z) : option Unit :=
  match value with
  | 0 => Some UnitNone | 1 => Some Celsius | 2 => Some Volt | 3 => Some Dbm
  | 4 => Some Count | 5 => Some Percent | _ => None
  end.
Definition unit_as_str (u : Unit) : option string :=
  match u with
  | UnitNone => None | Celsius => Some "C" | Volt => Some "V" | Dbm => Some "dBm"
  | Count => Some "1" | Percent => Some "%"
  end.

Record EdgeMetricSample := {
  metric_id : MetricId;
  sensor_id : SensorId;
  kind : MetricKind;
  unit_ : Unit;
  value : Z; (* the bits of the f32 *)
}.

Record EdgeMetricsFrame := {
  seq : Z;
  flags : Z;
  device_id : string;
  node_name : string;
  metric_count : Z;
  records : list byte;
}.

#[global] Instance MetricId_eq_dec : EqDecision MetricId.
Proof. solve_decision. Defined.
#[global] Instance SensorId_eq_dec : EqDecision SensorId.
Proof. solve_decision. Defined.
#[global] Instance MetricKind_eq_dec : EqDecision MetricKind.
Proof. solve_decision. Defined.
#[global] Instance Unit_eq_dec : EqDecision Unit.
Proof. solve_decision. Defined.
#[global] Instance EdgeMetricSample_eq_dec : EqDecision EdgeMetricSample.
Proof. solve_decision. Defined.
#[global] Instance EdgeMetricsFrame_eq_dec : EqDecision EdgeMetricsFrame.
Proof. solve_decision. Defined.

(** ** Encoding *)

(** [out[i] = b] *)
Definition set_byte (out : list byte) (i : nat) (b : byte) : may_panic (list byte) :=
  if (i <? length out)%nat then Some (<[i:=b]> out) else None.

(** The body of [for sample in metrics]. *)
Definition encode_sample (out : list byte) (cursor : nat) (sample : EdgeMetricSample)
  : may_panic (list byte) :=
  out ← copy_into out cursor (cursor + 2) (to_be 2 (metric_id_get (metric_id sample)));
  out ← copy_into out (cursor + 2) (cursor + 4) (to_be 2 (sensor_id_get (sensor_id sample)));
  out ← set_byte out (cursor + 4) (u8 (kind_as_u8 (kind sample)));
  out ← set_byte out (cursor + 5) (u8 (unit_as_u8 (unit_ sample)));
  copy_into out (cursor + 6) (cursor + 10) (to_be 4 (value sample)).

Fixpoint encode_samples (out : list byte) (cursor : nat) (metrics : list EdgeMetricSample)
  : may_panic (list byte) :=
  match metrics with
  | [] => Some out
  | sample :: metrics =>
    out ← encode_sample out cursor sample;
    encode_samples out (cursor + RECORD_LEN) metrics
  end.

(** The ten header bytes, in the order the source stores them. *)
Definition encode_header (out : list byte) (sequence metrics device node : Z)
  : may_panic (list byte) :=
  out ← copy_into out 0 2 MAGIC;
  out ← set_byte out 2 VERSION;
  out ← set_byte out 3 FRAME_KIND_METRICS;
  out ← set_byte out 4 (u8 0);
  out ← copy_into out 5 7 (to_be 2 sequence);
  out ← set_byte out 7 (u8 metrics);
  out ← set_byte out 8 (u8 device);
  set_byte out 9 (u8 node).

(** The stores that follow the guards. *)
Definition encode_body (out : list byte) (sequence : Z) (device node : list byte)
    (metrics : list EdgeMetricSample) : may_panic (list byte) :=
  out ← encode_header out sequence (zlen metrics) (zlen device) (zlen node);
  let cursor := HEADER_LEN in
  out ← copy_into out cursor (cursor + length device) device;
  let cursor := (cursor + length device)%nat in
  out ← copy_into out cursor (cursor + length node) node;
  let cursor := (cursor + length node)%nat in
  encode_samples out cursor metrics.

Definition encode_metrics_frame (out : list byte) (sequence : Z) (identity : EdgeIdentity)
    (metrics : list EdgeMetricSample) : may_panic (list byte * result EncodeError nat) :=
  let device := as_bytes (id_device_id identity) in
  let node := as_bytes (id_node_name identity) in
  if (u8_max <? zlen device) || (u8_max <? zlen node) then Some (out, Err FieldTooLong)
  else if u8_max <? zlen metrics then Some (out, Err TooManyMetrics)
  else if existsb (λ s, metric_id_get (metric_id s) =? 0) metrics
  then Some (out, Err EncReservedMetricId)
  else if existsb (λ s, sensor_id_get (sensor_id s) =? 0) metrics
  then Some (out, Err EncReservedSensorId)
  else
    let required := (HEADER_LEN + length device + length node + length metrics * RECORD_LEN)%nat in
    if (length out <? required)%nat then Some (out, Err OutputTooSmall)
    else
      out ← encode_body out sequence device node metrics;
      Some (out, Ok required).

(** ** Decoding *)

Definition is_edge_wire_frame (input : list byte) : bool :=
  (HEADER_LEN <=? length input)%nat && bool_decide (take 2 input = MAGIC).

Definition decode_metrics_frame (input : list byte)
  : may_panic (result DecodeError EdgeMetricsFrame) :=
  if (length input <? HEADER_LEN)%nat then Some (Err TooShort)
  else
    magic ← slice input 0 2;
    if negb (bool_decide (magic = MAGIC)) then Some (Err BadMagic) else
    version ← input !! 2%nat;
    if negb (bool_decide (version = VERSION)) then Some (Err UnsupportedVersion) else
    frame_kind ← input !! 3%nat;
    if negb (bool_decide (frame_kind = FRAME_KIND_METRICS)) then Some (Err UnsupportedKind) else
    flags ← input !! 4%nat;
    seq0 ← input !! 5%nat;
    seq1 ← input !! 6%nat;
    count ← input !! 7%nat;
    device_id_len ← input !! 8%nat;
    node_name_len ← input !! 9%nat;
    let device_id_len := Z.to_nat (b2z device_id_len) in
    let node_name_len := Z.to_nat (b2z node_name_len) in
    let identity_len := (device_id_len + node_name_len)%nat in
    if (length input <? HEADER_LEN + identity_len)%nat then Some (Err TruncatedIdentity) else
    let cursor := HEADER_LEN in
    device ← slice input cursor (cursor + device_id_len);
    match from_utf8 device with
    | None => Some (Err InvalidUtf8)
    | Some device =>
      let cursor := (cursor + device_id_len)%nat in
      node ← slice input cursor (cursor + node_name_len);
      match from_utf8 node with
      | None => Some (Err InvalidUtf8)
      | Some node =>
        let cursor := (cursor + node_name_len)%nat in
        recs ← slice input cursor (length input);
        if negb (zlen recs =? b2z count * Z.of_nat RECORD_LEN) then Some (Err BadRecordLength)
        else Some (Ok {| seq := from_be [seq0; seq1]; flags := b2z flags; device_id := device;
                         node_name := node; metric_count := b2z count; records := recs |})
      end
    end.

(** ** The record iterator *)

Record EdgeMetricIter := { it_records : list byte; it_remaining : Z }.

Definition frame_records (f : EdgeMetricsFrame) : EdgeMetricIter :=
  {| it_records := records f; it_remaining := metric_count f |}.

(** The decoding of one ten-byte record. *)
Definition decode_record (record : list byte) : may_panic (result DecodeError EdgeMetricSample) :=
  r0 ← record !! 0%nat; r1 ← record !! 1%nat; r2 ← record !! 2%nat; r3 ← record !! 3%nat;
  r4 ← record !! 4%nat; r5 ← record !! 5%nat; r6 ← record !! 6%nat; r7 ← record !! 7%nat;
  r8 ← record !! 8%nat; r9 ← record !! 9%nat;
  match metric_id_new (from_be [r0; r1]) with
  | None => Some (Err ReservedMetricId)
  | Some m =>
    match sensor_id_new (from_be [r2; r3]) with
    | None => Some (Err ReservedSensorId)
    | Some s =>
      match kind_from_u8 (b2z r4) with
      | None => Some (Err UnknownMetricKind)
      | Some k =>
        match unit_from_u8 (b2z r5) with
        | None => Some (Err UnknownUnit)
        | Some u => Some (Ok {| metric_id := m; sensor_id := s; kind := k; unit_ := u;
                                value := from_be [r6; r7; r8; r9] |})
        end
      end
    end
  end.

(** [Iterator::next]: the item, if any, and the iterator after it. *)
Definition iter_next (it : EdgeMetricIter)
  : may_panic (option (result DecodeError EdgeMetricSample) * EdgeMetricIter) :=
  if it_remaining it =? 0 then Some (None, it)
  else if (length (it_records it) <? RECORD_LEN)%nat then
    Some (Some (Err BadRecordLength), {| it_records := it_records it; it_remaining := 0 |})
  else
    record ← slice (it_records it) 0 RECORD_LEN;
    rest ← slice (it_records it) RECORD_LEN (length (it_records it));
    item ← decode_record record;
    Some (Some item, {| it_records := rest; it_remaining := it_remaining it - 1 |}).

(** The items a [for] loop sees; [remaining + 1] steps reach the end, as
    [iter_collect_total] below shows. *)
Fixpoint iter_collect (fuel : nat) (it : EdgeMetricIter)
  : may_panic (list (result DecodeError EdgeMetricSample)) :=
  match fuel with
  | O => None
  | S fuel =>
    '(item, it) ← iter_next it;
    match item with
    | None => Some []
    | Some x => xs ← iter_collect fuel it; Some (x :: xs)
    end
  end.

Definition frame_samples (f : EdgeMetricsFrame)
  : may_panic (list (result DecodeError EdgeMetricSample)) :=
  iter_collect (S (Z.to_nat (metric_count f))) (frame_records f).

(** ** The reference frame

    What the layout of a frame is, independently of how the encoder fills the
    buffer. *)

Definition record_bytes (s : EdgeMetricSample) : list byte :=
  to_be 2 (metric_id_get (metric_id s)) ++ to_be 2 (sensor_id_get (sensor_id s))
  ++ [u8 (kind_as_u8 (kind s)); u8 (unit_as_u8 (unit_ s))] ++ to_be 4 (value s).

Definition header_bytes (flag sequence metrics device node : Z) : list byte :=
  MAGIC ++ [VERSION; FRAME_KIND_METRICS; u8 flag] ++ to_be 2 sequence
  ++ [u8 metrics; u8 device; u8 node].

Definition frame_bytes (flag sequence : Z) (identity : EdgeIdentity)
    (metrics : list EdgeMetricSample) : list byte :=
  let device := as_bytes (id_device_id identity) in
  let node := as_bytes (id_node_name identity) in
  header_bytes flag sequence (zlen metrics) (zlen device) (zlen node)
  ++ device ++ node ++ concat (record_bytes <$> metrics).

(** The first guard of the encoder that an input fails. *)
Definition encode_rejects (room : nat) (identity : EdgeIdentity)
    (metrics : list EdgeMetricSample) (e : EncodeError) : Prop :=
  let d := str_len (id_device_id identity) in
  let n := str_len (id_node_name identity) in
  let long := 255 < d ∨ 255 < n in
  let many := 255 < zlen metrics in
  let no_metric := ∃ s, s ∈ metrics ∧ metric_id_get (metric_id s) = 0 in
  let no_sensor := ∃ s, s ∈ metrics ∧ sensor_id_get (sensor_id s) = 0 in
  match e with
  | FieldTooLong => long
  | TooManyMetrics => ¬ long ∧ many
  | EncReservedMetricId => ¬ long ∧ ¬ many ∧ no_metric
  | EncReservedSensorId => ¬ long ∧ ¬ many ∧ ¬ no_metric ∧ no_sensor
  | OutputTooSmall => ¬ long ∧ ¬ many ∧ ¬ no_metric ∧ ¬ no_sensor ∧
      Z.of_nat room < 10 + d + n + 10 * zlen metrics
  end.

(** The integers of a sample are in their machine ranges, as the source's
    types guarantee. *)
Definition sample_ok (s : EdgeMetricSample) : Prop :=
  in_u16 (metric_id_get (metric_id s)) ∧ in_u16 (sensor_id_get (sensor_id s)) ∧
  0 ≤ value s ≤ u32_max.

Lemma set_byte_app p x q b : set_byte (p ++ x :: q) (length p) b = Some (p ++ b :: q).
Proof.
  unfold set_byte. rewrite length_app. simpl.
  rewrite (proj2 (Nat.ltb_lt _ _)) by lia.
  by rewrite insert_app_r_alt, Nat.sub_diag by lia.
Qed.

Lemma length_record_bytes s : length (record_bytes s) = RECORD_LEN.
Proof. unfold record_bytes. rewrite !length_app, !length_to_be. done. Qed.

Lemma length_records ms : length (concat (record_bytes <$> ms)) = (length ms * RECORD_LEN)%nat.
Proof.
  induction ms as [|s ms IH]; [done|]. rewrite fmap_cons, concat_cons.
  rewrite length_app, length_record_bytes, IH. unfold RECORD_LEN. simpl. lia.
Qed.

Lemma length_frame_bytes fl sq i ms : length (frame_bytes fl sq i ms) =
  (HEADER_LEN + length (as_bytes (id_device_id i)) + length (as_bytes (id_node_name i))
   + length ms * RECORD_LEN)%nat.
Proof.
  unfold frame_bytes, header_bytes. rewrite !length_app, length_to_be, length_records.
  unfold HEADER_LEN. simpl. lia.
Qed.

Lemma copy_word2_app (p q src : list byte) x y : length src = 2%nat →
  copy_into (p ++ x :: y :: q) (length p) (length p + 2) src = Some ((p ++ src) ++ q).
Proof. intros H. rewrite <-app_assoc, <-H. by apply (copy_into_app p [x; y] q). Qed.

Lemma copy_word4_app (p q src : list byte) x y z w : length src = 4%nat →
  copy_into (p ++ x :: y :: z :: w :: q) (length p) (length p + 4) src = Some ((p ++ src) ++ q).
Proof. intros H. rewrite <-app_assoc, <-H. by apply (copy_into_app p [x; y; z; w] q). Qed.

Lemma encode_sample_app p m q s : length m = RECORD_LEN →
  encode_sample (p ++ m ++ q) (length p) s = Some ((p ++ record_bytes s) ++ q).
Proof.
  intros Hm. unfold encode_sample, record_bytes.
  generalize (length_to_be 2 (metric_id_get (metric_id s))).
  generalize (length_to_be 2 (sensor_id_get (sensor_id s))).
  generalize (length_to_be 4 (value s)).
  generalize (to_be 2 (metric_id_get (metric_id s))) (to_be 2 (sensor_id_get (sensor_id s)))
    (to_be 4 (value s)) (u8 (kind_as_u8 (kind s))) (u8 (unit_as_u8 (unit_ s))).
  intros w1 w2 w3 k u H3 H2 H1.
  do 10 (destruct m as [|? m]; [done|]). destruct m; [|done]. clear Hm. simpl app.
  rewrite copy_word2_app by done. simpl.
  replace (length p + 2)%nat with (length (p ++ w1)) by (rewrite length_app; lia).
  replace (length p + 4)%nat with (length (p ++ w1) + 2)%nat by (rewrite length_app; lia).
  rewrite copy_word2_app by done. simpl.
  replace (length (p ++ w1) + 2)%nat with (length ((p ++ w1) ++ w2)) by (rewrite !length_app; lia).
  rewrite set_byte_app. simpl.
  rewrite (cons_middle k), (app_assoc _ [k]).
  replace (length p + 5)%nat with (length (((p ++ w1) ++ w2) ++ [k]))
    by (rewrite !length_app; simpl; lia).
  rewrite set_byte_app. simpl.
  rewrite (cons_middle u), (app_assoc _ [u]).
  replace (length p + 6)%nat with (length ((((p ++ w1) ++ w2) ++ [k]) ++ [u]))
    by (rewrite !length_app; simpl; lia).
  replace (length p + 10)%nat with (length ((((p ++ w1) ++ w2) ++ [k]) ++ [u]) + 4)%nat
    by (rewrite !length_app; simpl; lia).
  rewrite copy_word4_app by done.
  by rewrite <-!app_assoc.
Qed.

Lemma encode_samples_app p m q ms : length m = (length ms * RECORD_LEN)%nat →
  encode_samples (p ++ m ++ q) (length p) ms = Some (p ++ concat (record_bytes <$> ms) ++ q).
Proof.
  revert p m. induction ms as [|s ms IH]; intros p m Hm.
  - apply nil_length_inv in Hm as ->. done.
  - cbn [encode_samples]. rewrite fmap_cons, concat_cons.
    rewrite <-(take_drop RECORD_LEN m), <-(app_assoc (take _ m)).
    assert (length (take RECORD_LEN m) = RECORD_LEN) as Ht.
    { rewrite length_take, Hm. unfold RECORD_LEN. simpl. lia. }
    rewrite encode_sample_app by done. simpl mbind.
    replace (length p + RECORD_LEN)%nat with (length (p ++ record_bytes s))
      by (by rewrite length_app, length_record_bytes).
    rewrite IH; [by rewrite <-!app_assoc|].
    rewrite length_drop, Hm. unfold RECORD_LEN. simpl. lia.
Qed.

Lemma encode_header_app m q sq ml dl nl : length m = HEADER_LEN →
  encode_header (m ++ q) sq ml dl nl = Some (header_bytes 0 sq ml dl nl ++ q).
Proof. intros Hm. do 10 (destruct m as [|? m]; [done|]). by destruct m. Qed.

Lemma existsb_zero {A} (f : A → Z) (l : list A) :
  if existsb (λ x, f x =? 0) l then ∃ x, x ∈ l ∧ f x = 0 else ¬ ∃ x, x ∈ l ∧ f x = 0.
Proof.
  destruct (existsb _ l) eqn:E.
  - apply existsb_exists in E as (x & ?%list_elem_of_In & ?%Z.eqb_eq); eauto.
  - intros (x & ?%list_elem_of_In & Hx). apply (f_equal negb) in E. simpl in E.
    apply negb_true_iff, not_true_iff_false in E. apply E, existsb_exists.
    exists x. by rewrite Hx.
Qed.

Lemma copy_into_fill (p q src : list byte) : (length src ≤ length q)%nat →
  copy_into (p ++ q) (length p) (length p + length src) src
  = Some ((p ++ src) ++ drop (length src) q).
Proof.
  intros Hq. rewrite <-(take_drop (length src) q) at 1. rewrite <-app_assoc.
  apply copy_into_app; [done|done|]. rewrite length_take. lia.
Qed.

Lemma encode_body_frame out sq i ms :
  let f := frame_bytes 0 sq i ms in
  (length f ≤ length out)%nat →
  encode_body out sq (as_bytes (id_device_id i)) (as_bytes (id_node_name i)) ms
  = Some (f ++ drop (length f) out).
Proof.
  cbv zeta. rewrite (length_frame_bytes 0 sq i ms). unfold frame_bytes, encode_body.
  generalize (as_bytes (id_device_id i)) (as_bytes (id_node_name i)); intros d n Hlen.
  rewrite <-(take_drop HEADER_LEN out) at 1.
  assert (length (take HEADER_LEN out) = HEADER_LEN) by (rewrite length_take; lia).
  rewrite encode_header_app by done. cbn [mbind option_bind].
  set (h := header_bytes _ _ _ _ _).
  assert (length h = HEADER_LEN) as Hh
    by (unfold h, header_bytes; rewrite !length_app, length_to_be; done).
  rewrite <-Hh. rewrite copy_into_fill by (rewrite length_drop; lia). cbn [mbind option_bind].
  rewrite <-length_app. rewrite copy_into_fill by (rewrite !length_drop; lia).
  cbn [mbind option_bind]. rewrite <-length_app, !drop_drop.
  replace (length h + (length d + length n))%nat with (length ((h ++ d) ++ n))
    by (rewrite !length_app; lia).
  set (p := (h ++ d) ++ n).
  rewrite <-(take_drop (length ms * RECORD_LEN) (drop (length p) out)).
  rewrite encode_samples_app, drop_drop.
  - unfold p. by rewrite <-!app_assoc.
  - rewrite length_take, length_drop. unfold p. rewrite !length_app. lia.
Qed.

Local Ltac reject := left; eexists; split; [reflexivity|]; simpl; split_and?; (done || lia).

Lemma encode_metrics_frame_cases out sq i ms :
  let f := frame_bytes 0 sq i ms in
  (∃ e, encode_metrics_frame out sq i ms = Some (out, Err e) ∧ encode_rejects (length out) i ms e) ∨
  ((∀ e, ¬ encode_rejects (length out) i ms e) ∧
   encode_metrics_frame out sq i ms = Some (f ++ drop (length f) out, Ok (length f))).
Proof.
  intros f. unfold encode_metrics_frame. cbv zeta. rewrite <-(length_frame_bytes 0 sq i ms). fold f.
  pose proof (encode_body_frame out sq i ms) as Hbody.
  pose proof (length_frame_bytes 0 sq i ms) as Hf. fold f in Hf, Hbody.
  pose proof (existsb_zero (λ s, metric_id_get (metric_id s)) ms) as Hm.
  pose proof (existsb_zero (λ s, sensor_id_get (sensor_id s)) ms) as Hs.
  unfold encode_rejects, str_len, u8_max, zlen, HEADER_LEN, RECORD_LEN in *. cbv zeta in *.
  set (d := length (as_bytes (id_device_id i))) in *.
  set (n := length (as_bytes (id_node_name i))) in *.
  destruct (Z.ltb_spec 255 (Z.of_nat d)); [reject|].
  destruct (Z.ltb_spec 255 (Z.of_nat n)); [reject|].
  destruct (Z.ltb_spec 255 (Z.of_nat (length ms))); [reject|].
  destruct (existsb (λ s, metric_id_get _ =? 0) ms); [reject|].
  destruct (existsb (λ s, sensor_id_get _ =? 0) ms); [reject|].
  destruct (Nat.ltb_spec (length out) (length f)); [reject|].
  simpl. right. split; [|by rewrite Hbody].
  intros []; intros ?; destruct_and?; (done || lia).
Qed.

(** [encode_metrics_frame] never panics.  It fails exactly on the first
    guard an input violates, in the order of the source, and then leaves the
    buffer as it was; otherwise it fills the start of the buffer with the
    reference frame (flags zero), returns the number of bytes written and
    leaves the rest of the buffer untouched. *)
Theorem encode_metrics_frame_correct out sq i ms :
  let f := frame_bytes 0 sq i ms in
  (∃ e, encode_metrics_frame out sq i ms = Some (out, Err e) ∧
        ∀ e', encode_rejects (length out) i ms e' ↔ e' = e) ∨
  ((∀ e, ¬ encode_rejects (length out) i ms e) ∧
   encode_metrics_frame out sq i ms = Some (f ++ drop (length f) out, Ok (length f))).
Proof.
  intros f. destruct (encode_metrics_frame_cases out sq i ms) as [(e & He & Hr)|?]; [left|by right].
  exists e. split; [done|]. intros e'. split; [|by intros ->].
  revert Hr. unfold encode_rejects. cbv zeta. destruct e, e'; (done || intros; destruct_and?; done || lia).
Qed.

(** ** Decoding a frame *)

(** What a decoded frame satisfies, and the bytes it stands for. *)
Definition frame_wf (f : EdgeMetricsFrame) : Prop :=
  in_u16 (seq f) ∧ 0 ≤ flags f ≤ 255 ∧ 0 ≤ metric_count f ≤ 255 ∧
  valid_str (device_id f) ∧ str_len (device_id f) ≤ 255 ∧
  valid_str (node_name f) ∧ str_len (node_name f) ≤ 255 ∧
  zlen (records f) = metric_count f * 10.

Definition bytes_of_frame (f : EdgeMetricsFrame) : list byte :=
  header_bytes (flags f) (seq f) (metric_count f) (str_len (device_id f)) (str_len (node_name f))
  ++ as_bytes (device_id f) ++ as_bytes (node_name f) ++ records f.

Lemma slice_some {A} (l : list A) a b :
  (a ≤ b ≤ length l)%nat → slice l a b = Some (take (b - a) (drop a l)).
Proof.
  intros. unfold slice.
  by rewrite (proj2 (Nat.leb_le _ _)), (proj2 (Nat.leb_le _ _)) by lia.
Qed.

(** The decoder on an input of at least ten bytes, with the slices resolved. *)
Definition decode_after_header (m0 m1 v k fl s0 s1 c dl nl : byte) (rest : list byte)
  : result DecodeError EdgeMetricsFrame :=
  if negb (bool_decide ([m0; m1] = MAGIC)) then Err BadMagic
  else if negb (bool_decide (v = VERSION)) then Err UnsupportedVersion
  else if negb (bool_decide (k = FRAME_KIND_METRICS)) then Err UnsupportedKind
  else
    let d := Z.to_nat (b2z dl) in
    let n := Z.to_nat (b2z nl) in
    if (length rest <? d + n)%nat then Err TruncatedIdentity
    else match from_utf8 (take d rest), from_utf8 (take n (drop d rest)) with
      | Some device, Some node =>
        let recs := drop (d + n) rest in
        if zlen recs =? b2z c * 10 then
          Ok {| seq := from_be [s0; s1]; flags := b2z fl; device_id := device;
                node_name := node; metric_count := b2z c; records := recs |}
        else Err BadRecordLength
      | _, _ => Err InvalidUtf8
      end.

Lemma decode_metrics_frame_after_header m0 m1 v k fl s0 s1 c dl nl rest :
  decode_metrics_frame (m0 :: m1 :: v :: k :: fl :: s0 :: s1 :: c :: dl :: nl :: rest)
  = Some (decode_after_header m0 m1 v k fl s0 s1 c dl nl rest).
Proof.
  unfold decode_metrics_frame, decode_after_header. change HEADER_LEN with 10%nat.
  set (inp := m0 :: _). rewrite (proj2 (Nat.ltb_ge (length inp) 10)) by (simpl; lia).
  change (slice inp 0 2) with (Some [m0; m1]).
  cbn [mbind option_bind]. case_match; [done|]. cbn [inp lookup list_lookup mbind option_bind].
  case_match; [done|]. case_match; [done|]. fold inp.
  generalize (Z.to_nat (b2z dl)) (Z.to_nat (b2z nl)). intros d n.
  change (length inp <? 10 + (d + n))%nat with (length rest <? d + n)%nat.
  destruct (Nat.ltb_spec (length rest) (d + n)) as [?|Hl]; [done|].
  rewrite !slice_some by (simpl; lia). cbn [mbind option_bind].
  replace (10 + d - 10)%nat with d by lia.
  replace (10 + d + n - (10 + d))%nat with n by lia.
  rewrite (take_ge (drop (10 + d + n) inp)) by (rewrite length_drop; lia).
  change (drop 10 inp) with rest. change (drop (10 + d) inp) with (drop d rest).
  change (drop (10 + d + n) inp) with (drop (d + n) rest).
  change (Z.of_nat RECORD_LEN) with 10.
  destruct (from_utf8 _); [|done]. destruct (from_utf8 _); [|done]. by destruct (_ =? _).
Qed.

Lemma bytes_of_header_split (input : list byte) : (10 ≤ length input)%nat → ∃ m0 m1 v k fl s0 s1 c dl nl rest,
  input = m0 :: m1 :: v :: k :: fl :: s0 :: s1 :: c :: dl :: nl :: rest.
Proof.
  intros H. do 10 (destruct input as [|? input]; [simpl in H; lia|]). repeat eexists.
Qed.

(** Decoding untrusted bytes never panics, whatever they are. *)
Theorem decode_metrics_frame_total input : ∃ r, decode_metrics_frame input = Some r.
Proof.
  destruct (decide (length input < 10)%nat) as [Hs|Hs].
  - unfold decode_metrics_frame, HEADER_LEN. rewrite (proj2 (Nat.ltb_lt _ _) Hs). eauto.
  - destruct (bytes_of_header_split input) as (?&?&?&?&?&?&?&?&?&?&?&->); [lia|].
    rewrite decode_metrics_frame_after_header. eauto.
Qed.

Lemma from_be2_range x y : in_u16 (from_be [x; y]).
Proof. pose proof (from_be_bound [x; y]) as H. unfold in_u16, u16_max. change (256 ^ zlen [x; y]) with 65536 in H. lia. Qed.

Lemma to_be_from_be2 x y : to_be 2 (from_be [x; y]) = [x; y].
Proof. apply (to_be_from_be [x; y]). Qed.

Lemma decode_sound input f :
  decode_metrics_frame input = Some (Ok f) → frame_wf f ∧ input = bytes_of_frame f.
Proof.
  destruct (decide (length input < 10)%nat) as [Hs|Hs].
  { unfold decode_metrics_frame, HEADER_LEN. by rewrite (proj2 (Nat.ltb_lt _ _) Hs). }
  destruct (bytes_of_header_split input) as (m0&m1&v&k&fl&s0&s1&c&dl&nl&rest&->); [lia|]. clear Hs.
  rewrite decode_metrics_frame_after_header. unfold decode_after_header. intros [= H].
  pose proof (b2z_range fl). pose proof (b2z_range c). pose proof (b2z_range dl).
  pose proof (b2z_range nl). pose proof (from_be2_range s0 s1).
  destruct (bool_decide _) eqn:E1; [|done].
  destruct (bool_decide (v = _)) eqn:E2; [|done].
  destruct (bool_decide (k = _)) eqn:E3; [|done]. to_prop. simplify_eq. simpl in H.
  destruct (Nat.ltb_spec (length rest) (Z.to_nat (b2z dl) + Z.to_nat (b2z nl))) as [?|Hl]; [done|].
  destruct (from_utf8 (take _ rest)) as [dev|] eqn:Hd; [|done].
  destruct (from_utf8 (take _ (drop _ rest))) as [node|] eqn:Hn; [|done].
  apply from_utf8_Some in Hd as [Hd Vd], Hn as [Hn Vn].
  destruct (Z.eqb_spec (zlen (drop (Z.to_nat (b2z dl) + Z.to_nat (b2z nl)) rest)) (b2z c * 10))
    as [Hc|?]; [|done].
  simplify_eq H. intros <-.
  assert (str_len dev = b2z dl) as Ld.
  { unfold str_len, zlen. rewrite Hd, length_take. lia. }
  assert (str_len node = b2z nl) as Ln.
  { unfold str_len, zlen. rewrite Hn, length_take, length_drop. lia. }
  split; [unfold frame_wf; simpl; rewrite Ld, Ln; split_and!; (done || lia)|].
  unfold bytes_of_frame, header_bytes; cbn [flags seq metric_count device_id node_name records].
  rewrite Ld, Ln, !u8_b2z, to_be_from_be2, Hd, Hn, <-drop_drop, !take_drop. by rewrite <-E1.
Qed.

Lemma decode_complete f : frame_wf f → decode_metrics_frame (bytes_of_frame f) = Some (Ok f).
Proof.
  destruct f as [sq fl dev node c recs]. unfold frame_wf; simpl.
  intros (Hsq & Hfl & Hc & Vd & Ld & Vn & Ln & Hr).
  unfold bytes_of_frame, header_bytes; cbn [flags seq metric_count device_id node_name records].
  destruct (to_be 2 sq) as [|s0 [|s1 [|??]]] eqn:Hs;
    try (pose proof (length_to_be 2 sq); rewrite Hs in *; done).
  simpl app. rewrite decode_metrics_frame_after_header. unfold decode_after_header.
  rewrite !bool_decide_eq_true_2 by done. simpl negb. cbv iota zeta.
  pose proof (zlen_nonneg (as_bytes dev)). pose proof (zlen_nonneg (as_bytes node)).
  unfold str_len, zlen in *. rewrite !b2z_u8_small, !Nat2Z.id by lia.
  rewrite (proj2 (Nat.ltb_ge _ _)) by (rewrite !length_app; lia).
  rewrite take_app_length, drop_app_length, take_app_length, !from_utf8_as_bytes by done.
  rewrite <-drop_drop, !drop_app_length, Hr, Z.eqb_refl, <-Hs.
  change [s0; s1] with ([s0; s1]). rewrite from_be_to_be_small; [done|].
  unfold in_u16, u16_max in Hsq. simpl. lia.
Qed.

(** The decoder accepts exactly the encodings of well-formed frames, and
    the frame it returns determines every byte of the input; two inputs never
    decode to the same frame. *)
Theorem decode_metrics_frame_iff input f :
  decode_metrics_frame input = Some (Ok f) ↔ frame_wf f ∧ input = bytes_of_frame f.
Proof. split; [apply decode_sound|]. intros [H ->]. by apply decode_complete. Qed.

(** ** The records of a frame *)

Lemma kind_round k : kind_from_u8 (kind_as_u8 k) = Some k.
Proof. by destruct k. Qed.
Lemma unit_round u : unit_from_u8 (unit_as_u8 u) = Some u.
Proof. by destruct u. Qed.
Lemma kind_u8_range k : 0 ≤ kind_as_u8 k < 256.
Proof. destruct k; simpl; lia. Qed.
Lemma unit_u8_range u : 0 ≤ unit_as_u8 u < 256.
Proof. destruct u; simpl; lia. Qed.
Lemma kind_from_u8_Some z k : kind_from_u8 z = Some k → z = kind_as_u8 k.
Proof. unfold kind_from_u8. intros H. repeat case_match; simplify_eq; done. Qed.
Lemma unit_from_u8_Some z u : unit_from_u8 z = Some u → z = unit_as_u8 u.
Proof. unfold unit_from_u8. intros H. repeat case_match; simplify_eq; done. Qed.

(** Samples the constructors [MetricId::new] and [SensorId::new] can make. *)
Definition sample_wf (s : EdgeMetricSample) : Prop :=
  1 ≤ metric_id_get (metric_id s) ≤ u16_max ∧ 1 ≤ sensor_id_get (sensor_id s) ≤ u16_max ∧
  0 ≤ value s ≤ u32_max.

Lemma to_be_2_inv z : ∃ x y, to_be 2 z = [x; y].
Proof. simpl. eauto. Qed.
Lemma to_be_4_inv z : ∃ x y z' w, to_be 4 z = [x; y; z'; w].
Proof. simpl. eauto. Qed.

Lemma decode_record_bytes s : sample_wf s → decode_record (record_bytes s) = Some (Ok s).
Proof.
  intros (Hm & Hs & Hv). unfold record_bytes, decode_record.
  pose proof (from_be_to_be_small 2 (metric_id_get (metric_id s))) as Rm.
  pose proof (from_be_to_be_small 2 (sensor_id_get (sensor_id s))) as Rs.
  pose proof (from_be_to_be_small 4 (value s)) as Rv.
  destruct (to_be_2_inv (metric_id_get (metric_id s))) as (m0 & m1 & Em).
  destruct (to_be_2_inv (sensor_id_get (sensor_id s))) as (s0 & s1 & Es).
  destruct (to_be_4_inv (value s)) as (v0 & v1 & v2 & v3 & Ev).
  rewrite Em, Es, Ev in *. unfold u16_max, u32_max in *. simpl Z.of_nat in *.
  cbn [app lookup list_lookup mbind option_bind]. rewrite Rm, Rs, Rv by lia.
  unfold metric_id_new, sensor_id_new.
  rewrite (proj2 (Z.eqb_neq _ 0)), (proj2 (Z.eqb_neq _ 0)) by lia.
  rewrite !b2z_u8_small by auto using kind_u8_range, unit_u8_range.
  rewrite kind_round, unit_round. by destruct s as [[] [] ? ? ?].
Qed.

Lemma decode_record_total r : length r = RECORD_LEN → ∃ x, decode_record r = Some x.
Proof.
  intros H. do 10 (destruct r as [|? r]; [done|]). destruct r; [|done]. clear H.
  unfold decode_record. cbn [lookup list_lookup mbind option_bind]. repeat case_match; eauto.
Qed.

Lemma iter_next_ok it : it_remaining it ≠ 0 → (RECORD_LEN ≤ length (it_records it))%nat →
  ∃ x, decode_record (take RECORD_LEN (it_records it)) = Some x ∧
       iter_next it = Some (Some x, {| it_records := drop RECORD_LEN (it_records it);
                                       it_remaining := it_remaining it - 1 |}).
Proof.
  intros Hr Hl. unfold iter_next. rewrite (proj2 (Z.eqb_neq _ _)) by done.
  rewrite (proj2 (Nat.ltb_ge _ _)) by done. rewrite !slice_some by lia.
  cbn [mbind option_bind]. rewrite drop_0, Nat.sub_0_r.
  destruct (decode_record_total (take RECORD_LEN (it_records it))) as [x Hx].
  { rewrite length_take. lia. }
  rewrite Hx. cbn [mbind option_bind].
  rewrite (take_ge (drop _ _)) by (rewrite length_drop; lia). eauto.
Qed.

Lemma iter_collect_step fuel it x it' : iter_next it = Some (Some x, it') →
  iter_collect (S fuel) it = xs ← iter_collect fuel it'; Some (x :: xs).
Proof. intros H. cbn [iter_collect]. by rewrite H. Qed.

(** The record iterator of every frame the decoder accepts terminates
    without a panic after yielding exactly [metric_count] items. *)
Theorem frame_samples_total input f : decode_metrics_frame input = Some (Ok f) →
  ∃ items, frame_samples f = Some items ∧ zlen items = metric_count f.
Proof.
  intros [(_ & _ & Hc & _ & _ & _ & _ & Hr) _]%decode_sound.
  unfold frame_samples, frame_records.
  rewrite <-(Z2Nat.id (metric_count f)) in Hr |- * by lia. rewrite Nat2Z.id. clear Hc.
  generalize dependent (records f). induction (Z.to_nat (metric_count f)) as [|n IH]; intros recs Hr.
  - exists []. done.
  - destruct (iter_next_ok {| it_records := recs; it_remaining := Z.of_nat (S n) |})
      as (x & _ & ->%(iter_collect_step (S n))); [simpl; lia|unfold zlen, RECORD_LEN in *; simpl; lia|].
    cbn [it_records it_remaining].
    replace (Z.of_nat (S n) - 1) with (Z.of_nat n) by lia.
    destruct (IH (drop RECORD_LEN recs)) as (items & -> & Hi).
    { unfold zlen, RECORD_LEN in *. rewrite length_drop. lia. }
    exists (x :: items). split; [done|]. rewrite zlen_cons. lia.
Qed.

Lemma decode_record_sound r s : length r = RECORD_LEN → decode_record r = Some (Ok s) →
  r = record_bytes s ∧ sample_wf s.
Proof.
  intros H. do 10 (destruct r as [|? r]; [done|]). destruct r; [|done]. clear H.
  unfold decode_record, metric_id_new, sensor_id_new.
  cbn [lookup list_lookup mbind option_bind].
  destruct (Z.eqb_spec (from_be [b; b0]) 0) as [|Hm]; [done|].
  destruct (Z.eqb_spec (from_be [b1; b2]) 0) as [|Hs]; [done|].
  destruct (kind_from_u8 (b2z b3)) as [k|] eqn:Hk; [|done].
  destruct (unit_from_u8 (b2z b4)) as [u|] eqn:Hu; [|done].
  apply kind_from_u8_Some in Hk. apply unit_from_u8_Some in Hu.
  intros [= <-]. unfold record_bytes, sample_wf; cbn [metric_id sensor_id kind unit_ value metric_id_get sensor_id_get].
  rewrite !to_be_from_be2, <-Hk, <-Hu, !u8_b2z.
  pose proof (from_be2_range b b0) as R1. pose proof (from_be2_range b1 b2) as R2.
  pose proof (from_be_bound [b5; b6; b7; b8]) as R3. unfold in_u16, u32_max in *.
  change (256 ^ zlen [b5; b6; b7; b8]) with (2 ^ 32) in R3.
  split; [by rewrite (to_be_from_be [b5; b6; b7; b8] : to_be 4 _ = _)|]. lia.
Qed.

Lemma iter_collect_records ms tl n : Forall sample_wf ms → n = zlen ms →
  iter_collect (S (length ms))
    {| it_records := concat (record_bytes <$> ms) ++ tl; it_remaining := n |}
  = Some (Ok <$> ms).
Proof.
  intros H. revert n. induction H as [|s ms Hs _ IH]; intros n ->; [done|].
  cbn [length]. rewrite fmap_cons, concat_cons, <-app_assoc.
  destruct (iter_next_ok {| it_records := record_bytes s ++ concat (record_bytes <$> ms) ++ tl;
                            it_remaining := zlen (s :: ms) |}) as (x & Hx & ->%(iter_collect_step (S (length ms)))).
  { cbn [it_remaining]. rewrite zlen_cons. pose proof (zlen_nonneg ms). lia. }
  { cbn [it_records]. rewrite length_app, length_record_bytes. lia. }
  cbn [it_records it_remaining] in *.
  rewrite <-(length_record_bytes s) in Hx |- *.
  rewrite take_app_length in Hx. rewrite drop_app_length.
  rewrite decode_record_bytes in Hx by done. simplify_eq Hx. intros <-.
  rewrite IH; [done|]. rewrite zlen_cons. lia.
Qed.

(** The encoder's inputs as Rust's types give them: valid strings, a [u16]
    sequence and samples in range. *)
Definition encodable (sq : Z) (i : EdgeIdentity) (ms : list EdgeMetricSample) : Prop :=
  in_u16 sq ∧ valid_str (id_device_id i) ∧ valid_str (id_node_name i) ∧ Forall sample_ok ms.

(** Whatever the encoder writes into a buffer, the decoder reads back: the
    same sequence, identity and count, flags zero, and an iterator that yields
    the samples in order without an error. *)
Theorem edge_wire_roundtrip out sq i ms out' n : encodable sq i ms →
  encode_metrics_frame out sq i ms = Some (out', Ok n) →
  ∃ f, decode_metrics_frame (take n out') = Some (Ok f) ∧
    seq f = sq ∧ flags f = 0 ∧ device_id f = id_device_id i ∧ node_name f = id_node_name i ∧
    metric_count f = zlen ms ∧ frame_samples f = Some (Ok <$> ms).
Proof.
  intros (Hsq & Vd & Vn & Hok) Henc.
  destruct (encode_metrics_frame_cases out sq i ms) as [(e & He & _)|[Hr He]]; [congruence|].
  remember (frame_bytes 0 sq i ms) as bs eqn:Hbs.
  rewrite He in Henc. simplify_eq Henc. intros <- <-. rewrite take_app_length, Hbs.
  pose proof (Hr FieldTooLong) as H1. pose proof (Hr TooManyMetrics) as H2.
  pose proof (Hr EncReservedMetricId) as H3. pose proof (Hr EncReservedSensorId) as H4.
  simpl in H1, H2, H3, H4. pose proof (zlen_nonneg ms).
  assert (¬ 255 < zlen ms) as Hn by tauto.
  assert (Forall sample_wf ms) as Hwf.
  { apply Forall_forall. intros s Hs. eapply Forall_forall in Hok as (Ha & Hb & Hc); [|done].
    assert (metric_id_get (metric_id s) ≠ 0)
      by (intros Hz; apply H3; split_and!; [tauto|tauto|by exists s]).
    assert (sensor_id_get (sensor_id s) ≠ 0)
      by (intros Hz; apply H4; split_and!; [tauto|tauto|tauto|by exists s]).
    unfold sample_wf, in_u16 in *. lia. }
  exists {| seq := sq; flags := 0; device_id := id_device_id i; node_name := id_node_name i;
       metric_count := zlen ms; records := concat (record_bytes <$> ms) |}.
  split; [|split_and!; try done].
  - rewrite <-decode_complete; [done|]. unfold frame_wf; simpl. split_and!; try (done || lia).
    unfold zlen. rewrite length_records. unfold RECORD_LEN. lia.
  - unfold frame_samples, frame_records; cbn [metric_count records].
    unfold zlen at 1. rewrite Nat2Z.id.
    rewrite <-(app_nil_r (concat _)). by apply iter_collect_records.
Qed.

(** ** Instances *)

Definition demo_identity : EdgeIdentity := {| id_device_id := "mcu-01"; id_node_name := "부엌" |}.
Definition demo_samples : list EdgeMetricSample :=
  [ {| metric_id := EDGE_TEMPERATURE; sensor_id := ENCLOSURE; kind := Gauge; unit_ := Celsius;
       value := 0x41C80000 |};
    {| metric_id := mkMetricId 700; sensor_id := mkSensorId 65535; kind := Sum; unit_ := Count;
       value := 0x3F800000 |} ].
Definition demo_frame : EdgeMetricsFrame :=
  {| seq := 513; flags := 0; device_id := "mcu-01"; node_name := "부엌"; metric_count := 2;
     records := concat (record_bytes <$> demo_samples) |}.

Lemma frame_samples_total_witness :
  ∃ items, frame_samples demo_frame = Some items ∧ zlen items = 2.
Proof.
  apply (frame_samples_total (frame_bytes 0 513 demo_identity demo_samples) demo_frame).
  vm_compute. reflexivity.
Defined.

Lemma demo_encodable : encodable 513 demo_identity demo_samples.
Proof.
  unfold encodable, demo_samples. split_and!; [done|by vm_compute|by vm_compute|].
  repeat (apply Forall_cons; split); [| |by apply Forall_nil];
    unfold sample_ok, in_u16, u16_max, u32_max; simpl; lia.
Qed.

Definition demo_out : list byte :=
  frame_bytes 0 513 demo_identity demo_samples ++ replicate 20 (u8 255).

Lemma edge_wire_roundtrip_witness :
  ∃ f, decode_metrics_frame (take 42 demo_out) = Some (Ok f) ∧
    seq f = 513 ∧ flags f = 0 ∧ device_id f = "mcu-01" ∧ node_name f = "부엌" ∧
    metric_count f = 2 ∧ frame_samples f = Some (Ok <$> demo_samples).
Proof.
  apply (edge_wire_roundtrip (replicate 62 (u8 255)) 513 demo_identity demo_samples demo_out 42
           demo_encodable).
  vm_compute. reflexivity.
Defined.
