(* ===== verification/Core.v ===== *)
(** * Envelopes, projections and the store interface (skid-monitor-core)

    [AgentId::new] with its validation, the envelope of a signal, the counters
    a stream of envelopes adds up to, and the [SignalWriter]/[SignalReader]
    traits as one interface with the laws its clients rely on. *)

From S2P Require Import Prelude RustStr Otlp.

Definition MAX_AGENT_ID_BYTES : Z := 255.

(** [EventId] and [TenantId] wrap a 128-bit UUID. *)
Record EventId := mkEventId { event_uuid : Z }.
Record TenantId := mkTenantId { tenant_uuid : Z }.
(** [AgentId] is a transparent wrapper of its text. *)
Record AgentId := mkAgentId { agent_str : string }.

#[global] Instance EventId_eq_dec : EqDecision EventId.
Proof. solve_decision. Defined.
#[global] Instance TenantId_eq_dec : EqDecision TenantId.
Proof. solve_decision. Defined.
#[global] Instance AgentId_eq_dec : EqDecision AgentId.
Proof. solve_decision. Defined.
#[global] Program Instance TenantId_countable : Countable TenantId :=
  inj_countable' tenant_uuid mkTenantId _.
Next Obligation. by intros []. Qed.
#[global] Program Instance AgentId_countable : Countable AgentId :=
  inj_countable' agent_str mkAgentId _.
Next Obligation. by intros []. Qed.

Inductive IdError := IdEmpty | IdTooLong (max : Z) | IdControlCharacter.

#[global] Instance IdError_eq_dec : EqDecision IdError.
Proof. solve_decision. Defined.

Definition id_error_text (e : IdError) : string :=
  match e with
  | IdEmpty => "identifier must not be empty"
  | IdTooLong max => "identifier must be at most " +:+ u64_to_string max +:+ " bytes"
  | IdControlCharacter => "identifier must not contain control characters"
  end.

Definition agent_id_new (value : string) : result IdError AgentId :=
  let trimmed := trim value in
  if is_empty trimmed then Err IdEmpty
  else if MAX_AGENT_ID_BYTES <? str_len trimmed then Err (IdTooLong MAX_AGENT_ID_BYTES)
  else if has_control trimmed then Err IdControlCharacter
  else Ok (mkAgentId trimmed).

Inductive SignalScope := Solo | Tenant (tenant_id : TenantId).

#[global] Instance SignalScope_eq_dec : EqDecision SignalScope.
Proof. solve_decision. Defined.

Definition scope_tenant_id (s : SignalScope) : option TenantId :=
  match s with Solo => None | Tenant t => Some t end.

Inductive SignalKind := KindMetrics | KindTraces | KindLogs.

Record SignalEnvelope := mkEnvelope {
  event_id : EventId;
  scope : SignalScope;
  agent_id : AgentId;
  sequence : Z;
  received_at_unix_nano : Z;
  payload : Signal;
}.

(** [SignalEnvelope::now], with the clock's nanoseconds since the epoch and the
    fresh event id as arguments: negative times become 0 and large ones are
    clamped to [u64::MAX]. *)
Definition envelope_now (clock : Z) (id : EventId) (scope : SignalScope) (agent_id : AgentId)
    (sequence : Z) (payload : Signal) : SignalEnvelope :=
  mkEnvelope id scope agent_id sequence (Z.min (Z.max 0 clock) u64_max) payload.

Definition envelope_kind (e : SignalEnvelope) : SignalKind :=
  match payload e with Metrics _ => KindMetrics | Traces _ => KindTraces | Logs _ => KindLogs end.

(** [SignalCursor(u64)] *)
Abbreviation SignalCursor := Z (only parsing).

(** ** Counters *)

Record SignalCounters := mkCounters {
  metric_batches : Z;
  metric_points : Z;
  trace_batches : Z;
  spans : Z;
  log_batches : Z;
  log_records : Z;
}.

#[global] Instance SignalCounters_eq_dec : EqDecision SignalCounters.
Proof. solve_decision. Defined.

Definition counters_default : SignalCounters := mkCounters 0 0 0 0 0 0.

Definition metric_data_point_count (m : OtlpMetric) : Z :=
  match om_data m with
  | Some (DataGauge ps) => zlen ps
  | Some (DataSum ps _ _) => zlen ps
  | Some (DataHistogram ps _) => zlen ps
  | Some (DataExponentialHistogram ps _) => zlen ps
  | Some (DataSummary ps) => zlen ps
  | None => 0
  end.

Definition request_point_count (r : ExportMetricsServiceRequest) : Z :=
  sumZ (metric_data_point_count <$>
        (rm ← resource_metrics_of r; sm ← rm_scope_metrics rm; sm_metrics sm)).
Definition request_span_count (r : ExportTraceServiceRequest) : Z :=
  sumZ ((λ ss, zlen (ss_spans ss)) <$> (rs ← resource_spans_of r; rs_scope_spans rs)).
Definition request_log_count (r : ExportLogsServiceRequest) : Z :=
  sumZ ((λ sl, zlen (sl_log_records sl)) <$> (rl ← resource_logs_of r; rl_scope_logs rl)).

Definition counters_observe (c : SignalCounters) (signal : Signal) : SignalCounters :=
  match signal with
  | Metrics request =>
    mkCounters (sat_add (metric_batches c) 1) (sat_add (metric_points c) (request_point_count request))
      (trace_batches c) (spans c) (log_batches c) (log_records c)
  | Traces request =>
    mkCounters (metric_batches c) (metric_points c)
      (sat_add (trace_batches c) 1) (sat_add (spans c) (request_span_count request))
      (log_batches c) (log_records c)
  | Logs request =>
    mkCounters (metric_batches c) (metric_points c) (trace_batches c) (spans c)
      (sat_add (log_batches c) 1) (sat_add (log_records c) (request_log_count request))
  end.

Record AgentSignalProjection := mkAgentProjection {
  ap_agent_id : AgentId;
  ap_last_sequence : Z;
  ap_last_received_at_unix_nano : Z;
  ap_counters : SignalCounters;
}.

Record SignalProjection := mkProjection {
  counters : SignalCounters;
  agents : gmap AgentId AgentSignalProjection;
}.

#[global] Instance AgentSignalProjection_eq_dec : EqDecision AgentSignalProjection.
Proof. solve_decision. Defined.
#[global] Instance SignalProjection_eq_dec : EqDecision SignalProjection.
Proof. solve_decision. Defined.

Definition projection_default : SignalProjection := mkProjection counters_default ∅.

Definition agent_projection_new (a : AgentId) : AgentSignalProjection :=
  mkAgentProjection a 0 0 counters_default.

(** The update of the entry [entry(agent_id).or_insert_with(..)] gives. *)
Definition agent_projection_observe (a : AgentSignalProjection) (envelope : SignalEnvelope)
  : AgentSignalProjection :=
  mkAgentProjection (ap_agent_id a)
    (Z.max (ap_last_sequence a) (sequence envelope))
    (Z.max (ap_last_received_at_unix_nano a) (received_at_unix_nano envelope))
    (counters_observe (ap_counters a) (payload envelope)).

Definition projection_observe (p : SignalProjection) (envelope : SignalEnvelope)
  : SignalProjection :=
  let id := agent_id envelope in
  let agent := default (agent_projection_new id) (agents p !! id) in
  mkProjection (counters_observe (counters p) (payload envelope))
    (<[id := agent_projection_observe agent envelope]> (agents p)).

(** ** store.rs *)

Record AppendOutcome := mkAppendOutcome { cursor : SignalCursor; inserted : bool }.
Record SignalRecord := mkSignalRecord { rec_cursor : SignalCursor; rec_envelope : SignalEnvelope }.

#[global] Instance AppendOutcome_eq_dec : EqDecision AppendOutcome.
Proof. solve_decision. Defined.

(** ** Agent identifiers *)

(** What an accepted identifier satisfies. *)
Definition agent_id_ok (a : AgentId) : Prop :=
  agent_str a ≠ "" ∧ str_len (agent_str a) ≤ 255 ∧ has_control (agent_str a) = false ∧
  trim (agent_str a) = agent_str a.

Lemma agent_id_new_Ok v a : valid_str v → agent_id_new v = Ok a ↔
  a = mkAgentId (trim v) ∧ agent_id_ok a.
Proof.
  intros Hv. unfold agent_id_new, agent_id_ok, is_empty, MAX_AGENT_ID_BYTES.
  pose proof (trim_idem v Hv). split.
  - case_bool_decide; [done|]. case_test; [done|]. case_test; [done|].
    intros [= <-]. to_prop. simpl. split_and!; done.
  - intros (-> & Hne & Hl & Hc & _). simpl in *.
    rewrite bool_decide_eq_false_2 by done. rewrite (proj2 (Z.ltb_ge _ _)) by done.
    by rewrite Hc.
Qed.

(** [AgentId::new] accepts exactly the texts whose trimmed form is
    non-empty, at most 255 bytes and free of control characters, yields that
    trimmed form, and accepts its own output unchanged. *)
Theorem agent_id_new_correct v : valid_str v →
  (∀ a, agent_id_new v = Ok a ↔
     agent_str a = trim v ∧ trim v ≠ "" ∧ str_len (trim v) ≤ 255 ∧ has_control (trim v) = false) ∧
  (∀ a, agent_id_new v = Ok a → agent_id_new (agent_str a) = Ok a).
Proof.
  intros Hv. split.
  - intros a. rewrite (agent_id_new_Ok v a Hv). unfold agent_id_ok. split.
    + intros (-> & ? & ? & ? & ?). done.
    + intros (Ha & Hne & Hl & Hc). destruct a as [t]; simpl in *. subst t.
      split_and!; try done. by apply trim_idem.
  - intros a Ha. pose proof Ha as Ha'. rewrite (agent_id_new_Ok v a Hv) in Ha. destruct Ha as [-> Hok].
    apply agent_id_new_Ok; [by apply trim_valid|]. split; [|done]. simpl.
    by rewrite trim_idem.
Qed.

Lemma agent_id_new_correct_witness :
  agent_id_new (agent_str (mkAgentId "agent-a")) = Ok (mkAgentId "agent-a").
Proof. apply (agent_id_new_correct "  agent-a " eq_refl). vm_compute. reflexivity. Defined.

(** ** What a projection adds up to *)

Definition clamp_u64 (z : Z) : Z := Z.min z u64_max.

Definition metric_points_of (s : Signal) : option Z :=
  match s with Metrics r => Some (request_point_count r) | _ => None end.
Definition spans_of (s : Signal) : option Z :=
  match s with Traces r => Some (request_span_count r) | _ => None end.
Definition log_records_of (s : Signal) : option Z :=
  match s with Logs r => Some (request_log_count r) | _ => None end.

(** The counters of a list of signals: how many batches of each kind and how
    many items in them, each clamped once to [u64::MAX]. *)
Definition counters_total (ss : list Signal) : SignalCounters :=
  let ms := omap metric_points_of ss in
  let ts := omap spans_of ss in
  let ls := omap log_records_of ss in
  mkCounters (clamp_u64 (zlen ms)) (clamp_u64 (sumZ ms)) (clamp_u64 (zlen ts)) (clamp_u64 (sumZ ts))
    (clamp_u64 (zlen ls)) (clamp_u64 (sumZ ls)).

Definition from_agent (a : AgentId) (es : list SignalEnvelope) : list SignalEnvelope :=
  filter (λ e, agent_id e = a) es.

Definition agent_total (a : AgentId) (es : list SignalEnvelope) : option AgentSignalProjection :=
  match from_agent a es with
  | [] => None
  | own => Some (mkAgentProjection a (foldr Z.max 0 (sequence <$> own))
                   (foldr Z.max 0 (received_at_unix_nano <$> own))
                   (counters_total (payload <$> own)))
  end.

Lemma clamp_sat a b : 0 ≤ b → sat_add (clamp_u64 a) b = clamp_u64 (a + b).
Proof. unfold sat_add, clamp_u64. lia. Qed.

Lemma zlens_nonneg {A B} (f : A → list B) (l : list A) :
  Forall (λ z, 0 ≤ z) ((λ x, zlen (f x)) <$> l).
Proof. induction l; constructor; [apply zlen_nonneg|done]. Qed.

Lemma metric_data_point_count_nonneg m : 0 ≤ metric_data_point_count m.
Proof. unfold metric_data_point_count. repeat case_match; auto using zlen_nonneg with lia. Qed.

Lemma request_point_count_nonneg r : 0 ≤ request_point_count r.
Proof.
  apply sumZ_nonneg, Forall_fmap, Forall_true. intros m. apply metric_data_point_count_nonneg.
Qed.
Lemma request_span_count_nonneg r : 0 ≤ request_span_count r.
Proof. apply sumZ_nonneg, zlens_nonneg. Qed.
Lemma request_log_count_nonneg r : 0 ≤ request_log_count r.
Proof. apply sumZ_nonneg, zlens_nonneg. Qed.

Lemma counters_total_snoc ss s :
  counters_total (ss ++ [s]) = counters_observe (counters_total ss) s.
Proof.
  unfold counters_total. rewrite !omap_app.
  destruct s; simpl; rewrite ?app_nil_r, ?zlen_app, ?sumZ_app; simpl;
    rewrite !clamp_sat by
      (first [apply request_point_count_nonneg|apply request_span_count_nonneg
             |apply request_log_count_nonneg|lia]);
    do 2 f_equal; lia.
Qed.

Lemma foldl_counters_observe ss : foldl counters_observe counters_default ss = counters_total ss.
Proof.
  induction ss as [|s ss IH] using rev_ind; [done|].
  by rewrite foldl_app, counters_total_snoc, <-IH.
Qed.

Lemma foldr_max_snoc l z : foldr Z.max 0 (l ++ [z]) = Z.max (foldr Z.max 0 l) (Z.max z 0).
Proof. induction l; simpl; lia. Qed.

Lemma agent_total_snoc a es e : agent_id e = a → 0 ≤ sequence e → 0 ≤ received_at_unix_nano e →
  agent_total a (es ++ [e]) =
  Some (agent_projection_observe (default (agent_projection_new a) (agent_total a es)) e).
Proof.
  intros Ha Hs Hr. unfold agent_total, from_agent. rewrite filter_app, filter_cons_True by done.
  rewrite filter_nil. set (own := filter _ es).
  assert (∀ f : SignalEnvelope → Z, 0 ≤ f e →
    foldr Z.max 0 (f <$> own ++ [e]) = Z.max (foldr Z.max 0 (f <$> own)) (f e)) as Hmax.
  { intros f Hf. rewrite fmap_app. change (f <$> [e]) with [f e]. rewrite foldr_max_snoc. lia. }
  transitivity (Some (mkAgentProjection a (foldr Z.max 0 (sequence <$> own ++ [e]))
    (foldr Z.max 0 (received_at_unix_nano <$> own ++ [e])) (counters_total (payload <$> own ++ [e])))).
  { by destruct own. }
  rewrite !Hmax by done. rewrite fmap_app. change (payload <$> [e]) with [payload e].
  rewrite counters_total_snoc. by destruct own.
Qed.

Lemma agent_total_other a es e : agent_id e ≠ a → agent_total a (es ++ [e]) = agent_total a es.
Proof.
  intros Ha. unfold agent_total, from_agent. rewrite filter_app, filter_cons_False by done.
  by rewrite filter_nil, app_nil_r.
Qed.

(** The integers of an envelope are unsigned. *)
Definition envelope_wf (e : SignalEnvelope) : Prop :=
  in_u64 (sequence e) ∧ in_u64 (received_at_unix_nano e).

Lemma projection_lookup es a : Forall envelope_wf es →
  agents (foldl projection_observe projection_default es) !! a = agent_total a es.
Proof.
  induction es as [|e es IH] using rev_ind; [done|].
  intros [He [[[Hs _] [Hr _]] _]%Forall_cons]%Forall_app. rewrite foldl_app. simpl.
  destruct (decide (agent_id e = a)) as [<-|Ha].
  - rewrite lookup_insert_eq, IH by done. by rewrite agent_total_snoc.
  - rewrite lookup_insert_ne by done. rewrite IH by done. by rewrite agent_total_other.
Qed.

Lemma projection_counters es :
  counters (foldl projection_observe projection_default es) = counters_total (payload <$> es).
Proof.
  rewrite <-foldl_counters_observe.
  induction es as [|e es IH] using rev_ind; [done|].
  rewrite fmap_app, !foldl_app. simpl. by rewrite IH.
Qed.

#[export] Instance sumZ_Permutation : Proper ((≡ₚ) ==> eq) sumZ.
Proof. induction 1; simpl; lia. Qed.
#[export] Instance zlen_Permutation {A} : Proper ((≡ₚ) ==> eq) (@zlen A).
Proof. intros l k H. unfold zlen. by rewrite H. Qed.
Lemma foldr_max_Permutation l k : l ≡ₚ k → foldr Z.max 0 l = foldr Z.max 0 k.
Proof. induction 1; simpl; lia. Qed.

#[export] Instance counters_total_Permutation : Proper ((≡ₚ) ==> eq) counters_total.
Proof. intros l k H. unfold counters_total. by rewrite H. Qed.

#[export] Instance agent_total_Permutation a : Proper ((≡ₚ) ==> eq) (agent_total a).
Proof.
  intros es es' H. unfold agent_total, from_agent.
  pose proof (filter_Permutation (λ e, agent_id e = a) _ _ H) as Hf.
  destruct (filter _ es) as [|x xs] eqn:E1.
  { by apply Permutation_nil_l in Hf as <-. }
  destruct (filter _ es') as [|y ys] eqn:E2; [by apply Permutation_nil_r in Hf|].
  rewrite (foldr_max_Permutation (sequence <$> x :: xs) (sequence <$> y :: ys)) by (by rewrite Hf).
  rewrite (foldr_max_Permutation (received_at_unix_nano <$> x :: xs)
    (received_at_unix_nano <$> y :: ys)) by (by rewrite Hf).
  rewrite (counters_total_Permutation (payload <$> x :: xs) (payload <$> y :: ys)) by (by rewrite Hf).
  done.
Qed.

(** The projection of a stream of envelopes is its totals, in any order:
    the tenant counters are the clamped sums over all signals, and each agent
    that occurs has exactly the maximum sequence, the latest reception time
    and the clamped sums of its own signals. *)
Theorem projection_totals es es' : Forall envelope_wf es → es ≡ₚ es' →
  let p := foldl projection_observe projection_default es' in
  counters p = counters_total (payload <$> es) ∧ ∀ a, agents p !! a = agent_total a es.
Proof.
  intros Hwf Hp p. split.
  - unfold p. by rewrite projection_counters, Hp.
  - intros a. unfold p. rewrite Hp in Hwf. by rewrite projection_lookup, Hp.
Qed.

Definition demo_envelope (a : string) (seq : Z) : SignalEnvelope :=
  mkEnvelope (mkEventId seq) Solo (mkAgentId a) seq 9
    (Logs {| resource_logs_of :=
       [{| rl_resource := None; rl_schema_url := "";
           rl_scope_logs := [{| sl_scope := None; sl_log_records := []; sl_schema_url := "" |}] |}] |}).

Lemma projection_totals_witness :
  let es := [demo_envelope "a" 3; demo_envelope "b" 1; demo_envelope "a" 2] in
  counters (foldl projection_observe projection_default es) = mkCounters 0 0 0 0 3 0 ∧
  ∀ a, agents (foldl projection_observe projection_default es) !! a = agent_total a es.
Proof.
  apply (projection_totals [demo_envelope "a" 3; demo_envelope "b" 1; demo_envelope "a" 2]).
  - repeat constructor; unfold u64_max; simpl; lia.
  - reflexivity.
Defined.

(** ** The store interface

    The traits [SignalWriter] and [SignalReader] over a store state: an append
    returns a cursor and whether the event is new; a read returns records of
    one scope after a cursor. *)

Class SignalStore (S E : Type) := {
  store_append : S → SignalEnvelope → result E AppendOutcome * S;
  store_load_after : S → SignalScope → SignalCursor → nat → result E (list SignalRecord);
}.
