(* ===== verification/PgTypes.v ===== *)
(** * The cloud store: its data, limits and validations (skid-monitor-server, store.rs)

    The error type, the row types of the schema in migrations/0001, the
    canonical payload with its bounded writer, and the small validations the
    operations of [PgStore] start with.  serde_json is the interface
    [JsonApi]. *)

From S2P Require Import Prelude RustStr Otlp Core.

Definition MAX_LOAD_LIMIT : Z := 1000.
Definition MAX_REPLAY_JSON_BYTES : Z := 64 * 1024 * 1024.
Definition MAX_STORED_SIGNAL_JSON_BYTES : Z := 16 * 1024 * 1024.
Definition MAX_AGENTS_PER_TENANT : Z := 1000.
(** Durations are nanoseconds: five minutes. *)
Definition MAX_STREAM_TICKET_TTL : Z := 5 * 60 * 1000000000.
Definition MAX_STREAM_TICKET_SUBJECT_BYTES : Z := 1024.
Definition MAX_STREAM_TICKET_AUTHORIZATION_UNIX : Z := 253402300799.

(** ** serde_json

    [signal_chunks]: the pieces [serde_json::to_writer] hands to the writer,
    and the serialisation error that ends them, if any.  [json] is
    [serde_json::Value]; [jsonb] is the value PostgreSQL gives back for a value
    stored in a JSONB column. *)
Class JsonApi := {
  json : Type;
  #[global] json_eq_dec :: EqDecision json;
  signal_chunks : Signal → list (list byte) * option string;
  signal_of_slice : list byte → result string Signal;
  value_of_slice : list byte → result string json;
  signal_of_value : json → result string Signal;
  json_is_object : json → bool;
  jsonb : json → json;
}.

Inductive PgStoreError :=
| Database (error : string)
| Migration (error : string)
| JsonError (error : string)
| InvalidSignalPayload (error : string)
| SignalPayloadNotRoundTripSafe
| SignalPayloadTooLarge (actual_bytes max_bytes : Z)
| SoloScope
| TenantDisabled (tenant_id : TenantId)
| AgentNotEnrolled (agent_id : AgentId)
| AgentDisabled (agent_id : AgentId)
| AgentLimitReached (tenant_id : TenantId) (max_agents : Z)
| SequenceConflict (agent_id : AgentId) (sequence : Z)
| IntegerOutOfRange (field : string)
| InvalidAgentId (error : string)
| InvalidActorId
| InvalidStreamTicketSubject
| InvalidStreamTicketTtl
| InvalidStreamTicketAuthorizationExpiry
| StreamTicketAuthorizationExpired
| UnsafeRuntimeRole (role_name : string) (reasons : list string)
| RuntimeSchemaNotReady (problems : list string)
| InvalidPoolOptions (reason : string)
| CorruptRow (field : string).

(** ** Pool options *)

Record PgStoreOptions := {
  min_connections : Z;
  max_connections : Z;
  acquire_timeout : Z;
  idle_timeout : Z;
  max_lifetime : Z;
}.

Definition pg_store_options_default : PgStoreOptions :=
  let secs := Z.mul 1000000000 in
  {| min_connections := 1; max_connections := 16; acquire_timeout := secs 5;
     idle_timeout := secs (10 * 60); max_lifetime := secs (30 * 60) |}.

Definition options_validate (o : PgStoreOptions) : result PgStoreError PgStoreOptions :=
  if max_connections o =? 0 then Err (InvalidPoolOptions "max_connections must be greater than zero")
  else if max_connections o <? min_connections o
  then Err (InvalidPoolOptions "min_connections must not exceed max_connections")
  else if acquire_timeout o =? 0
  then Err (InvalidPoolOptions "acquire_timeout must be greater than zero")
  else Ok o.

(** ** Records returned by the store *)

Record AgentRecord := {
  ar_tenant_id : TenantId;
  ar_agent_id : AgentId;
  ar_display_name : option string;
  ar_enabled : bool;
  ar_enrolled_at_unix_nano : Z;
  ar_last_seen_at_unix_nano : option Z;
}.
Record TenantRecord := {
  tr_tenant_id : TenantId;
  tr_slug : string;
  tr_display_name : string;
  tr_enabled : bool;
  tr_created_at_unix_nano : Z;
}.
Record ProjectionRecord := {
  pr_tenant_id : TenantId;
  pr_last_cursor : SignalCursor;
  pr_projection : SignalProjection;
}.
Record StreamTicketGrant := { grant_subject : string; authorized_until_unix : Z }.

(** ** The runtime role *)

Record RuntimeRoleCapabilities := {
  role_name : string;
  session_user_differs : bool;
  superuser : bool;
  bypasses_rls : bool;
  creates_database : bool;
  creates_role : bool;
  replication : bool;
  can_create_public_schema : bool;
  member_of_relation_owner : bool;
  member_of_privileged_role : bool;
}.

Definition role_reasons (c : RuntimeRoleCapabilities) : list string :=
  omap (λ p : bool * string, if p.1 then Some p.2 else None)
    [(session_user_differs c, "session_user differs"); (superuser c, "SUPERUSER");
     (bypasses_rls c, "BYPASSRLS"); (creates_database c, "CREATEDB");
     (creates_role c, "CREATEROLE"); (replication c, "REPLICATION");
     (can_create_public_schema c, "CREATE on public schema");
     (member_of_relation_owner c, "application relation owner membership");
     (member_of_privileged_role c, "privileged role membership")].

Definition validate_runtime_role (c : RuntimeRoleCapabilities) : result PgStoreError () :=
  let reasons := role_reasons c in
  if bool_decide (reasons = []) then Ok () else Err (UnsafeRuntimeRole (role_name c) reasons).

(** ** Small validations *)

Definition tenant_scope (s : SignalScope) : result PgStoreError TenantId :=
  match s with Tenant t => Ok t | Solo => Err SoloScope end.

Definition signal_kind_name (e : SignalEnvelope) : string :=
  match envelope_kind e with
  | KindMetrics => "metrics" | KindTraces => "traces" | KindLogs => "logs"
  end.

Definition bounded_load_limit (limit : Z) : Z := Z.min limit MAX_LOAD_LIMIT.
Definition bounded_replay_json_bytes (b : Z) : Z := Z.min b MAX_REPLAY_JSON_BYTES.

Definition validate_agent_capacity (t : TenantId) (agent_count : Z) (already_enrolled : bool)
  : result PgStoreError () :=
  if negb already_enrolled && (MAX_AGENTS_PER_TENANT <=? agent_count)
  then Err (AgentLimitReached t MAX_AGENTS_PER_TENANT) else Ok ().

Definition normalized_display_name (display_name : option string) : option string :=
  v ← display_name; let t := trim v in if is_empty t then None else Some t.

Definition required_actor_id (actor_id : string) : result PgStoreError string :=
  let actor_id := trim actor_id in
  if is_empty actor_id then Err InvalidActorId else Ok actor_id.

Definition required_stream_ticket_subject (subject : string) : result PgStoreError string :=
  let subject := trim subject in
  if is_empty subject || (MAX_STREAM_TICKET_SUBJECT_BYTES <? str_len subject)
  then Err InvalidStreamTicketSubject else Ok subject.

(** [ttl] in nanoseconds; [as_millis] truncates. *)
Definition stream_ticket_ttl_millis (ttl : Z) : result PgStoreError Z :=
  if (ttl =? 0) || (MAX_STREAM_TICKET_TTL <? ttl) then Err InvalidStreamTicketTtl
  else
    let millis := ttl `div` 1000000 in
    if millis =? 0 then Err InvalidStreamTicketTtl
    else if i64_max <? millis then Err InvalidStreamTicketTtl else Ok millis.

Definition stream_ticket_authorization_unix (u : Z) : result PgStoreError Z :=
  if MAX_STREAM_TICKET_AUTHORIZATION_UNIX <? u then Err InvalidStreamTicketAuthorizationExpiry
  else if i64_max <? u then Err InvalidStreamTicketAuthorizationExpiry else Ok u.

(** The two halves of the UUID, xored, as a signed 64-bit key. *)
Definition tenant_lock_key (t : TenantId) : Z :=
  let bytes := to_be 16 (tenant_uuid t) in
  let high := from_be (take 8 bytes) in
  let low := from_be (drop 8 bytes) in
  as_i64 (Z.lxor high low).

Definition to_pg_i64 (field : string) (value : Z) : result PgStoreError Z :=
  if value <=? i64_max then Ok value else Err (IntegerOutOfRange field).
Definition from_pg_i64 (field : string) (value : Z) : result PgStoreError Z :=
  if 0 <=? value then Ok value else Err (IntegerOutOfRange field).
Definition from_pg_u64_text (field : string) (value : string) : result PgStoreError Z :=
  ok_or (parse_u64 value) (CorruptRow field).

(** ** The canonical payload *)

Section canonical.
  Context `{JsonApi}.

Record CanonicalSignalPayload := { cp_value : json; cp_byte_len : Z }.

Record BoundedPayloadWriter := { bw_bytes : list byte; bw_overflowed : bool }.

(** [Write::write] of the bounded writer. *)
Definition bounded_write (w : BoundedPayloadWriter) (buffer : list byte)
  : result string Z * BoundedPayloadWriter :=
  let remaining := sat_sub MAX_STORED_SIGNAL_JSON_BYTES (zlen (bw_bytes w)) in
  let retained := Z.min remaining (zlen buffer) in
  let bytes := bw_bytes w ++ take (Z.to_nat retained) buffer in
  if retained <? zlen buffer
  then (Err "serialized signal payload limit exceeded", {| bw_bytes := bytes; bw_overflowed := true |})
  else (Ok retained, {| bw_bytes := bytes; bw_overflowed := bw_overflowed w |}).

(** [serde_json::to_writer]: each piece goes through [write_all], which here
    succeeds or fails in one [write] since [write] stores everything or errs;
    an empty piece is not written at all. *)
Fixpoint write_chunks (w : BoundedPayloadWriter) (chunks : list (list byte))
  : result string () * BoundedPayloadWriter :=
  match chunks with
  | [] => (Ok (), w)
  | [] :: chunks => write_chunks w chunks
  | c :: chunks =>
    match bounded_write w c with
    | (Err e, w) => (Err e, w)
    | (Ok _, w) => write_chunks w chunks
    end
  end.

Definition to_writer (w : BoundedPayloadWriter) (signal : Signal)
  : result string () * BoundedPayloadWriter :=
  let '(chunks, failure) := signal_chunks signal in
  match write_chunks w chunks with
  | (Ok _, w) => (match failure with Some e => Err e | None => Ok () end, w)
  | r => r
  end.

Definition validate_signal_payload_size (actual_bytes : Z) : result PgStoreError () :=
  if MAX_STORED_SIGNAL_JSON_BYTES <? actual_bytes
  then Err (SignalPayloadTooLarge actual_bytes MAX_STORED_SIGNAL_JSON_BYTES) else Ok ().

Definition serialize_signal_bounded (signal : Signal) : result PgStoreError (list byte) :=
  match to_writer {| bw_bytes := []; bw_overflowed := false |} signal with
  | (Err error, w) =>
    if bw_overflowed w
    then Err (SignalPayloadTooLarge (MAX_STORED_SIGNAL_JSON_BYTES + 1) MAX_STORED_SIGNAL_JSON_BYTES)
    else Err (InvalidSignalPayload error)
  | (Ok _, w) => _ ← validate_signal_payload_size (zlen (bw_bytes w)); Ok (bw_bytes w)
  end.

Definition canonical_signal_payload (signal : Signal) : result PgStoreError CanonicalSignalPayload :=
  encoded ← serialize_signal_bounded signal;
  decoded ← map_err InvalidSignalPayload (signal_of_slice encoded);
  round_trip ← serialize_signal_bounded decoded;
  if negb (bool_decide (round_trip = encoded)) then Err SignalPayloadNotRoundTripSafe
  else
    value ← map_err InvalidSignalPayload (value_of_slice encoded);
    Ok {| cp_value := value; cp_byte_len := zlen encoded |}.
End canonical.

(** ** What the bounded serialiser keeps *)

Section canonical_proofs.
  Context `{JsonApi}.

(** The complete serialisation of a signal, when it has one. *)
Definition serialized (s : Signal) : option (list byte) :=
  match signal_chunks s with (chunks, None) => Some (concat chunks) | _ => None end.

Lemma write_chunks_spec chunks : ∀ w, zlen (bw_bytes w) ≤ MAX_STORED_SIGNAL_JSON_BYTES →
  let total := bw_bytes w ++ concat chunks in
  if MAX_STORED_SIGNAL_JSON_BYTES <? zlen total
  then ∃ e w', write_chunks w chunks = (Err e, w') ∧ bw_overflowed w' = true ∧
               zlen (bw_bytes w') = MAX_STORED_SIGNAL_JSON_BYTES
  else write_chunks w chunks = (Ok (), {| bw_bytes := total; bw_overflowed := bw_overflowed w |}).
Proof.
  induction chunks as [|c chunks IH]; intros w Hw; cbv zeta.
  { simpl. rewrite app_nil_r. rewrite (proj2 (Z.ltb_ge _ _)) by done. by destruct w. }
  rewrite concat_cons. destruct c as [|b c0]; [by apply IH|].
  cbn [write_chunks]. set (c := b :: c0). unfold bounded_write, sat_sub.
  pose proof (zlen_nonneg (bw_bytes w)). pose proof (zlen_nonneg (concat chunks)).
  pose proof (zlen_nonneg c).
  rewrite app_assoc, !zlen_app.
  destruct (Z.ltb_spec (Z.min (Z.max (MAX_STORED_SIGNAL_JSON_BYTES - zlen (bw_bytes w)) 0) (zlen c))
    (zlen c)) as [Hlt|Hge].
  - rewrite (proj2 (Z.ltb_lt _ _)) by lia. do 2 eexists. split_and!; [done|done|].
    cbn [bw_bytes]. rewrite zlen_app. unfold zlen in *. rewrite length_take. lia.
  - specialize (IH {| bw_bytes := bw_bytes w ++ c; bw_overflowed := bw_overflowed w |}).
    cbn [bw_bytes bw_overflowed] in IH. rewrite !zlen_app in IH.
    rewrite take_ge by (unfold zlen in *; lia). apply IH. lia.
Qed.

Lemma serialize_signal_bounded_Ok s bs : serialize_signal_bounded s = Ok bs ↔
  serialized s = Some bs ∧ zlen bs ≤ MAX_STORED_SIGNAL_JSON_BYTES.
Proof.
  unfold serialize_signal_bounded, to_writer, serialized, validate_signal_payload_size.
  destruct (signal_chunks s) as [chunks failure].
  pose proof (write_chunks_spec chunks {| bw_bytes := []; bw_overflowed := false |}) as Hw.
  cbn [bw_bytes bw_overflowed app] in Hw. rewrite zlen_nil in Hw.
  specialize (Hw ltac:(unfold MAX_STORED_SIGNAL_JSON_BYTES; lia)). cbv zeta in Hw.
  destruct (Z.ltb_spec MAX_STORED_SIGNAL_JSON_BYTES (zlen (concat chunks))) as [Hlt|Hge].
  - destruct Hw as (e & w' & -> & Ho & _). rewrite Ho. split; [done|].
    destruct failure; [by intros []|]. intros [[= <-] ?]. lia.
  - rewrite Hw. destruct failure; cbn [bw_overflowed bw_bytes]; [split; [done|by intros []]|].
    rewrite (proj2 (Z.ltb_ge _ _)) by done. simpl. split; [intros [= <-]|intros [[= <-] _]]; done.
Qed.

Lemma canonical_spec s p :
  canonical_signal_payload s = Ok p ↔
  ∃ encoded decoded value, serialized s = Some encoded ∧
    zlen encoded ≤ MAX_STORED_SIGNAL_JSON_BYTES ∧
    signal_of_slice encoded = Ok decoded ∧ serialized decoded = Some encoded ∧
    value_of_slice encoded = Ok value ∧ p = {| cp_value := value; cp_byte_len := zlen encoded |}.
Proof.
  unfold canonical_signal_payload. split.
  - destruct (serialize_signal_bounded s) as [bs|] eqn:Hs; [|done].
    apply serialize_signal_bounded_Ok in Hs as [Hs Hl]. simpl.
    destruct (signal_of_slice bs) as [d|] eqn:Hd; [|done]. simpl.
    destruct (serialize_signal_bounded d) as [bs'|] eqn:Hs'; [|done].
    apply serialize_signal_bounded_Ok in Hs' as [Hs' _]. simpl.
    case_bool_decide; [|done]. simpl. subst bs'.
    destruct (value_of_slice bs) as [v|] eqn:Hv; [|done]. simpl. intros [= <-]. eauto 10.
  - intros (bs & d & v & Hs & Hl & Hd & Hs' & Hv & ->).
    rewrite (proj2 (serialize_signal_bounded_Ok s bs)) by done. simpl. rewrite Hd. simpl.
    rewrite (proj2 (serialize_signal_bounded_Ok d bs)) by done. simpl.
    rewrite bool_decide_eq_true_2 by done. simpl. by rewrite Hv.
Qed.

(** A payload is accepted exactly when its complete JSON is at most 16 MiB
    and decodes to a signal whose own JSON is the same bytes; the canonical
    value and size are those of that JSON. *)
Theorem canonical_signal_payload_iff s p :
  canonical_signal_payload s = Ok p ↔
  ∃ encoded decoded value, serialized s = Some encoded ∧
    zlen encoded ≤ MAX_STORED_SIGNAL_JSON_BYTES ∧
    signal_of_slice encoded = Ok decoded ∧ serialized decoded = Some encoded ∧
    value_of_slice encoded = Ok value ∧ p = {| cp_value := value; cp_byte_len := zlen encoded |}.
Proof. apply canonical_spec. Qed.

Lemma canonical_byte_len s p : canonical_signal_payload s = Ok p →
  0 ≤ cp_byte_len p ≤ MAX_STORED_SIGNAL_JSON_BYTES.
Proof.
  intros (e & d & v & _ & Hl & _ & _ & _ & ->)%canonical_spec. simpl.
  split; [apply zlen_nonneg|done].
Qed.
End canonical_proofs.

(** ** Key facts *)

Lemma omap_flags_nil (l : list (bool * string)) :
  omap (λ p : bool * string, if p.1 then Some p.2 else None) l = [] ↔ Forall (λ p, p.1 = false) l.
Proof.
  induction l as [|[[] t] l IH]; [by split|split; [done|]; by intros [? _]%Forall_cons|].
  rewrite Forall_cons. simpl. rewrite IH. tauto.
Qed.

Lemma validate_runtime_role_Ok c : validate_runtime_role c = Ok () ↔
  session_user_differs c = false ∧ superuser c = false ∧ bypasses_rls c = false ∧
  creates_database c = false ∧ creates_role c = false ∧ replication c = false ∧
  can_create_public_schema c = false ∧ member_of_relation_owner c = false ∧
  member_of_privileged_role c = false.
Proof.
  transitivity (role_reasons c = []).
  { unfold validate_runtime_role. case_bool_decide; by split. }
  unfold role_reasons. rewrite omap_flags_nil, !Forall_cons, Forall_nil. simpl. tauto.
Qed.

Lemma tenant_lock_key_range t : i64_min ≤ tenant_lock_key t ≤ i64_max.
Proof.
  unfold tenant_lock_key, as_i64, i64_min, i64_max.
  set (z := Z.lxor _ _). pose proof (Z.mod_pos_bound (z + 2 ^ 63) (2 ^ 64)). lia.
Qed.
