(* ===== verification/PgSchema.v ===== *)
(** * The startup checks of the cloud store (skid-monitor-server, store.rs)

    The runtime refuses to start unless the role it runs as cannot bypass
    row-level security and the schema carries every relation, column,
    constraint, index and policy the store relies on, with exactly the
    migrations compiled into the binary.  The PostgreSQL catalogs are the
    record [Catalog]; the queries of the source are filters on its rows.
    [verify_ready_correct] says what an accepted database has. *)

From S2P Require Import Prelude RustStr Core PgTypes.

(** ** What the schema must have *)

Definition TENANT_RELATIONS : list string :=
  ["tenants"; "agents"; "signal_events"; "signal_projection"; "audit_events"; "stream_tickets"].

Definition REQUIRED_RELATIONS : list string :=
  ["_sqlx_migrations"; "tenants"; "agents"; "signal_events"; "signal_projection";
   "audit_events"; "stream_tickets"].

Record RequiredColumn := column {
  rc_relation : string;
  rc_name : string;
  rc_data_type : string;
  rc_not_null : bool;
  rc_identity : string;
}.

Definition REQUIRED_COLUMNS : list RequiredColumn :=
  [
   column "_sqlx_migrations" "version" "bigint" true "";
   column "_sqlx_migrations" "description" "text" true "";
   column "_sqlx_migrations" "installed_on" "timestamp with time zone" true "";
   column "_sqlx_migrations" "success" "boolean" true "";
   column "_sqlx_migrations" "checksum" "bytea" true "";
   column "_sqlx_migrations" "execution_time" "bigint" true "";
   column "tenants" "id" "uuid" true "";
   column "tenants" "slug" "text" true "";
   column "tenants" "display_name" "text" true "";
   column "tenants" "enabled" "boolean" true "";
   column "tenants" "created_at" "timestamp with time zone" true "";
   column "tenants" "updated_at" "timestamp with time zone" true "";
   column "agents" "tenant_id" "uuid" true "";
   column "agents" "agent_id" "text" true "";
   column "agents" "display_name" "text" false "";
   column "agents" "enabled" "boolean" true "";
   column "agents" "enrolled_at" "timestamp with time zone" true "";
   column "agents" "updated_at" "timestamp with time zone" true "";
   column "agents" "last_seen_at" "timestamp with time zone" false "";
   column "signal_events" "cursor" "bigint" true "a";
   column "signal_events" "tenant_id" "uuid" true "";
   column "signal_events" "event_id" "uuid" true "";
   column "signal_events" "agent_id" "text" true "";
   column "signal_events" "sequence" "numeric(20,0)" true "";
   column "signal_events" "received_at_unix_nano" "numeric(20,0)" true "";
   column "signal_events" "signal_kind" "text" true "";
   column "signal_events" "payload" "jsonb" true "";
   column "signal_events" "payload_bytes" "bigint" true "";
   column "signal_events" "committed_at" "timestamp with time zone" true "";
   column "signal_projection" "tenant_id" "uuid" true "";
   column "signal_projection" "last_cursor" "bigint" true "";
   column "signal_projection" "projection" "jsonb" true "";
   column "signal_projection" "updated_at" "timestamp with time zone" true "";
   column "audit_events" "id" "bigint" true "a";
   column "audit_events" "tenant_id" "uuid" true "";
   column "audit_events" "actor_type" "text" true "";
   column "audit_events" "actor_id" "text" true "";
   column "audit_events" "action" "text" true "";
   column "audit_events" "target_type" "text" true "";
   column "audit_events" "target_id" "text" true "";
   column "audit_events" "details" "jsonb" true "";
   column "audit_events" "occurred_at" "timestamp with time zone" true "";
   column "stream_tickets" "ticket_id" "uuid" true "";
   column "stream_tickets" "tenant_id" "uuid" true "";
   column "stream_tickets" "subject" "text" true "";
   column "stream_tickets" "created_at" "timestamp with time zone" true "";
   column "stream_tickets" "authorized_until" "timestamp with time zone" true "";
   column "stream_tickets" "expires_at" "timestamp with time zone" true "";
   column "stream_tickets" "consumed_at" "timestamp with time zone" false ""].

Record RequiredConstraint := constraint {
  rk_relation : string;
  rk_name : string;
  rk_constraint_type : string;
}.

Definition REQUIRED_CONSTRAINTS : list RequiredConstraint :=
  [
   constraint "_sqlx_migrations" "_sqlx_migrations_pkey" "p";
   constraint "tenants" "tenants_pkey" "p";
   constraint "tenants" "tenants_slug_key" "u";
   constraint "tenants" "tenants_slug_not_blank" "c";
   constraint "tenants" "tenants_display_name_not_blank" "c";
   constraint "agents" "agents_pkey" "p";
   constraint "agents" "agents_tenant_id_fkey" "f";
   constraint "agents" "agents_id_size" "c";
   constraint "agents" "agents_id_no_control_characters" "c";
   constraint "agents" "agents_display_name_not_blank" "c";
   constraint "signal_events" "signal_events_pkey" "p";
   constraint "signal_events" "signal_events_tenant_id_fkey" "f";
   constraint "signal_events" "signal_events_agent_fk" "f";
   constraint "signal_events" "signal_events_tenant_event_unique" "u";
   constraint "signal_events" "signal_events_tenant_agent_sequence_unique" "u";
   constraint "signal_events" "signal_events_cursor_positive" "c";
   constraint "signal_events" "signal_events_sequence_non_negative" "c";
   constraint "signal_events" "signal_events_sequence_u64" "c";
   constraint "signal_events" "signal_events_received_at_non_negative" "c";
   constraint "signal_events" "signal_events_received_at_u64" "c";
   constraint "signal_events" "signal_events_kind" "c";
   constraint "signal_events" "signal_events_payload_object" "c";
   constraint "signal_events" "signal_events_payload_bytes_positive" "c";
   constraint "signal_events" "signal_events_payload_bytes_bounded" "c";
   constraint "signal_projection" "signal_projection_pkey" "p";
   constraint "signal_projection" "signal_projection_tenant_id_fkey" "f";
   constraint "signal_projection" "signal_projection_last_cursor_non_negative" "c";
   constraint "signal_projection" "signal_projection_object" "c";
   constraint "audit_events" "audit_events_pkey" "p";
   constraint "audit_events" "audit_events_tenant_id_fkey" "f";
   constraint "audit_events" "audit_events_actor_type_not_blank" "c";
   constraint "audit_events" "audit_events_actor_id_not_blank" "c";
   constraint "audit_events" "audit_events_action_not_blank" "c";
   constraint "audit_events" "audit_events_target_type_not_blank" "c";
   constraint "audit_events" "audit_events_target_id_not_blank" "c";
   constraint "audit_events" "audit_events_details_object" "c";
   constraint "stream_tickets" "stream_tickets_pkey" "p";
   constraint "stream_tickets" "stream_tickets_tenant_id_fkey" "f";
   constraint "stream_tickets" "stream_tickets_subject_not_blank" "c";
   constraint "stream_tickets" "stream_tickets_subject_size" "c";
   constraint "stream_tickets" "stream_tickets_authorization_after_creation" "c";
   constraint "stream_tickets" "stream_tickets_expiry_after_creation" "c";
   constraint "stream_tickets" "stream_tickets_expiry_within_authorization" "c";
   constraint "stream_tickets" "stream_tickets_consumed_before_expiry" "c"].

Definition REQUIRED_INDEXES : list (string * string) :=
  [("signal_events", "signal_events_tenant_cursor_idx");
   ("signal_events", "signal_events_tenant_committed_at_idx");
   ("audit_events", "audit_events_tenant_occurred_at_idx");
   ("stream_tickets", "stream_tickets_cleanup_idx")].

(** ** The catalogs

    A row of [pg_class], [pg_attribute], [pg_constraint], [pg_index] or
    [pg_policy], joined with the name of its relation and of its schema. *)

Record RelationRow := {
  rel_schema : string;
  rel_kind : string;
  rel_name : string;
  rel_row_security : bool;
  rel_force_row_security : bool;
}.
Record ColumnRow := {
  col_schema : string;
  col_relkind : string;
  col_relation : string;
  col_name : string;
  col_attnum : Z;
  col_dropped : bool;
  col_type : string;
  col_not_null : bool;
  col_identity : string;
}.
Record ConstraintRow := {
  con_schema : string;
  con_relation : string;
  con_name : string;
  con_type : string;
  con_validated : bool;
}.
Record IndexRow := {
  idx_schema : string;
  idx_relation : string;
  idx_name : string;
  idx_valid : bool;
  idx_ready : bool;
}.
Record PolicyRow := {
  pol_schema : string;
  pol_relation : string;
  pol_name : string;
  pol_permissive : bool;
  pol_command : string;
  pol_public_only : bool;
  pol_using : option string;
  pol_check : option string;
}.
(** A row of [public._sqlx_migrations]. *)
Abbreviation AppliedMigration := (Z * bool * list byte)%type.

(** Each query may fail with an [sqlx::Error]; [cat_role] is the single row
    of [VERIFY_RUNTIME_ROLE_SQL]. *)
Record Catalog := {
  cat_role : result string RuntimeRoleCapabilities;
  cat_relations : result string (list RelationRow);
  cat_can_read_migrations : result string bool;
  cat_columns : result string (list ColumnRow);
  cat_constraints : result string (list ConstraintRow);
  cat_indexes : result string (list IndexRow);
  cat_policies : result string (list PolicyRow);
  cat_migrations : result string (list AppliedMigration);
}.

(** A migration of [sqlx::migrate!]: version and checksum. *)
Record EmbeddedMigration := { mig_version : Z; mig_checksum : list byte }.

(** [rows.collect::<HashMap<_, _>>()]: a later row replaces an earlier one. *)
Definition collect_map {K V} `{Countable K} (rows : list (K * V)) : gmap K V :=
  foldl (λ m kv, <[kv.1 := kv.2]> m) ∅ rows.

(** The [WHERE] clauses. *)
Definition in_public (schema : string) (names : list string) (relation : string) : Prop :=
  schema = "public" ∧ relation ∈ names.
#[global] Instance in_public_dec s l r : Decision (in_public s l r).
Proof. unfold in_public. apply _. Defined.

Definition is_table (kind : string) : Prop := kind = "r" ∨ kind = "p".
#[global] Instance is_table_dec k : Decision (is_table k).
Proof. unfold is_table. apply _. Defined.

Definition runtime_relations_sql (names : list string) (rows : list RelationRow)
  : list (string * (bool * bool)) :=
  (λ r, (rel_name r, (rel_row_security r, rel_force_row_security r))) <$>
  filter (λ r, in_public (rel_schema r) names (rel_name r) ∧ is_table (rel_kind r)) rows.

Definition runtime_columns_sql (names : list string) (rows : list ColumnRow)
  : list ((string * string) * (string * bool * string)) :=
  (λ r, ((col_relation r, col_name r), (col_type r, col_not_null r, col_identity r))) <$>
  filter (λ r, in_public (col_schema r) names (col_relation r) ∧ is_table (col_relkind r) ∧
               0 < col_attnum r ∧ col_dropped r = false) rows.

Definition runtime_constraints_sql (names : list string) (rows : list ConstraintRow)
  : list ((string * string) * (string * bool)) :=
  (λ r, ((con_relation r, con_name r), (con_type r, con_validated r))) <$>
  filter (λ r, in_public (con_schema r) names (con_relation r)) rows.

Definition runtime_indexes_sql (names : list string) (rows : list IndexRow)
  : list ((string * string) * (bool * bool)) :=
  (λ r, ((idx_relation r, idx_name r), (idx_valid r, idx_ready r))) <$>
  filter (λ r, in_public (idx_schema r) names (idx_relation r)) rows.

Abbreviation PolicyInfo := (bool * string * bool * option string * option string)%type.
Definition runtime_policies_sql (names : list string) (rows : list PolicyRow)
  : list ((string * string) * PolicyInfo) :=
  (λ r, ((pol_relation r, pol_name r),
         (pol_permissive r, pol_command r, pol_public_only r, pol_using r, pol_check r))) <$>
  filter (λ r, in_public (pol_schema r) names (pol_relation r)) rows.

(** ** The checks *)

Definition required_relation_names : list string := REQUIRED_RELATIONS.

Definition normalize_policy_expression (expression : string) : string :=
  str_of_chars
    (filter (λ c, ¬ (chunk_is is_whitespace c ∨ c.1 = Some 0x28 ∨ c.1 = Some 0x29))
       (chars (replace (to_ascii_lowercase expression) "::text" ""))).

Definition expected_tenant_policy_name (relation : string) : string :=
  relation +:+ "_tenant_isolation".

Definition is_allowed_runtime_policy_name (relation policy_name : string) : bool :=
  negb (bool_decide (relation ∈ TENANT_RELATIONS))
  || bool_decide (policy_name = expected_tenant_policy_name relation).

Definition relation_problems (relations : gmap string (bool * bool)) : list string :=
  omap (λ r, if relations !! r is Some _ then None
             else Some ("missing public." +:+ r +:+ " relation")) REQUIRED_RELATIONS ++
  omap (λ r, match relations !! r with
             | Some (row_security, force_row_security) =>
                 if negb row_security || negb force_row_security
                 then Some ("public." +:+ r +:+ " must enable and force row-level security")
                 else None
             | None => None
             end) TENANT_RELATIONS.

Definition column_problems (columns : gmap (string * string) (string * bool * string))
  : list string :=
  omap (λ q, match columns !! (rc_relation q, rc_name q) with
             | None => Some ("missing public." +:+ rc_relation q +:+ "." +:+ rc_name q +:+ " column")
             | Some (data_type, not_null, identity) =>
                 if negb (bool_decide (data_type = rc_data_type q))
                    || negb (bool_decide (not_null = rc_not_null q))
                    || negb (bool_decide (identity = rc_identity q))
                 then Some ("public." +:+ rc_relation q +:+ "." +:+ rc_name q +:+
                            " has incompatible type, nullability, or identity mode")
                 else None
             end) REQUIRED_COLUMNS.

Definition constraint_problems (constraints : gmap (string * string) (string * bool))
  : list string :=
  omap (λ q, match constraints !! (rk_relation q, rk_name q) with
             | Some (constraint_type, validated) =>
                 if bool_decide (constraint_type = rk_constraint_type q) && validated then None
                 else Some ("missing or incompatible " +:+ rk_constraint_type q +:+
                            " constraint public." +:+ rk_relation q +:+ "." +:+ rk_name q)
             | None => Some ("missing or incompatible " +:+ rk_constraint_type q +:+
                             " constraint public." +:+ rk_relation q +:+ "." +:+ rk_name q)
             end) REQUIRED_CONSTRAINTS.

Definition index_problems (indexes : gmap (string * string) (bool * bool)) : list string :=
  omap (λ q, match indexes !! q with
             | Some (true, true) => None
             | _ => Some ("missing, invalid, or unready index public." +:+ q.2 +:+
                          " on public." +:+ q.1)
             end) REQUIRED_INDEXES.

(** [policies.keys()] is in the order of the hash table; here it is the order
    of the finite map. *)
Definition unexpected_policy_problems (policies : gmap (string * string) PolicyInfo)
  : list string :=
  omap (λ kv : (string * string) * PolicyInfo, let k := kv.1 in
          if is_allowed_runtime_policy_name k.1 k.2 then None
          else Some ("public." +:+ k.1 +:+ " has unexpected row-level security policy " +:+ k.2))
    (map_to_list policies).

Definition expected_expression (relation : string) : string :=
  let tenant_column := if bool_decide (relation = "tenants") then "id" else "tenant_id" in
  normalize_policy_expression
    (tenant_column +:+ " = NULLIF(current_setting('app.tenant_id', true), '')::uuid").

Definition policy_valid (relation : string) (p : PolicyInfo) : bool :=
  let '(permissive, command, public_only, using_expression, check_expression) := p in
  permissive && bool_decide (command = "*") && public_only
  && bool_decide (normalize_policy_expression <$> using_expression =
                  Some (expected_expression relation))
  && bool_decide (normalize_policy_expression <$> check_expression =
                  Some (expected_expression relation)).

Definition tenant_policy_problems (policies : gmap (string * string) PolicyInfo) : list string :=
  omap (λ r, let policy_name := expected_tenant_policy_name r in
             let valid := match policies !! (r, policy_name) with
                          | Some p => policy_valid r p
                          | None => false
                          end in
             if valid then None
             else Some ("public." +:+ r +:+ " is missing exact tenant isolation policy " +:+
                        policy_name)) TENANT_RELATIONS.

Definition runtime_structure_problems (c : Catalog) : result PgStoreError (list string) :=
  let names := required_relation_names in
  relation_rows ← map_err Database (cat_relations c);
  let relations := collect_map (runtime_relations_sql names relation_rows) in
  let problems := relation_problems relations in
  if negb (bool_decide (is_Some (relations !! "_sqlx_migrations"))) then Ok problems
  else
    can_read_migrations ← map_err Database (cat_can_read_migrations c);
    let problems := problems ++
      if can_read_migrations : bool then []
      else ["runtime role needs SELECT on public._sqlx_migrations for checksum verification"] in
    column_rows ← map_err Database (cat_columns c);
    let columns := collect_map (runtime_columns_sql names column_rows) in
    let problems := problems ++ column_problems columns in
    constraint_rows ← map_err Database (cat_constraints c);
    let constraints := collect_map (runtime_constraints_sql names constraint_rows) in
    let problems := problems ++ constraint_problems constraints in
    index_rows ← map_err Database (cat_indexes c);
    let indexes := collect_map (runtime_indexes_sql names index_rows) in
    let problems := problems ++ index_problems indexes in
    policy_rows ← map_err Database (cat_policies c);
    let policies := collect_map (runtime_policies_sql names policy_rows) in
    let problems := problems ++ unexpected_policy_problems policies in
    Ok (problems ++ tenant_policy_problems policies).

(** [HashSet] equality of the versions is mutual inclusion. *)
Definition validate_applied_migrations (migrations : list EmbeddedMigration)
    (applied : list AppliedMigration) : list string :=
  let expected_versions : gset Z := list_to_set (mig_version <$> migrations) in
  let applied_versions : gset Z := list_to_set ((λ a, a.1.1) <$> applied) in
  (if negb (bool_decide (expected_versions = applied_versions))
      || negb (zlen applied =? zlen migrations)
   then ["applied migration versions do not exactly match this binary"] else []) ++
  omap (λ m,
    match find_first (λ a : AppliedMigration, a.1.1 =? mig_version m) applied with
    | Some (_, true, checksum) =>
        if bool_decide (checksum = mig_checksum m) then None
        else Some ("migration " +:+ i64_to_string (mig_version m) +:+
                   " checksum does not match this binary")
    | Some (_, false, _) =>
        Some ("migration " +:+ i64_to_string (mig_version m) +:+ " is recorded as unsuccessful")
    | None => None
    end) migrations.

Definition runtime_migration_problems (migrations : list EmbeddedMigration) (c : Catalog)
  : result PgStoreError (list string) :=
  applied ← map_err Database (cat_migrations c);
  Ok (validate_applied_migrations migrations applied).

Definition schema_ready (problems : list string) : result PgStoreError () :=
  if bool_decide (problems = []) then Ok () else Err (RuntimeSchemaNotReady problems).

Definition verify_runtime_role (c : Catalog) : result PgStoreError () :=
  capabilities ← map_err Database (cat_role c);
  validate_runtime_role capabilities.

Definition verify_runtime_schema (migrations : list EmbeddedMigration) (c : Catalog)
  : result PgStoreError () :=
  problems ← runtime_structure_problems c;
  problems ← (if bool_decide (problems = [])
              then more ← runtime_migration_problems migrations c; Ok (problems ++ more)
              else Ok problems);
  schema_ready problems.

Definition verify_ready (migrations : list EmbeddedMigration) (c : Catalog)
  : result PgStoreError () :=
  _ ← verify_runtime_role c;
  verify_runtime_schema migrations c.

(** ** What an accepted database has *)

Section collect.
Context {K V : Type} `{Countable K}.
Implicit Types rows : list (K * V).

Lemma collect_map_snoc rows k v : collect_map (rows ++ [(k, v)]) = <[k := v]> (collect_map rows).
Proof. unfold collect_map. by rewrite foldl_app. Qed.

(** With unique keys the hash map holds exactly the rows. *)
Lemma collect_map_lookup rows k v : NoDup rows.*1 →
  collect_map rows !! k = Some v ↔ (k, v) ∈ rows.
Proof.
  induction rows as [|[k' v'] rows IH] using rev_ind; [set_solver|].
  rewrite collect_map_snoc, fmap_app, NoDup_app. simpl. intros (Hn & Hd & _).
  rewrite lookup_insert, elem_of_app, list_elem_of_singleton.
  case_decide as Hk; [subst k'|rewrite (IH Hn); naive_solver].
  split; [naive_solver|intros [Hr|[= ->]]; [|done]].
  destruct (Hd k); [|by left]. apply list_elem_of_fmap. by exists (k, v).
Qed.
End collect.

(** A policy row that is the tenant-isolation policy of relation [r]: it is
    permissive, applies to every command and to the role PUBLIC, and both its
    expressions compare the tenant column with the [app.tenant_id] setting. *)
Record isolation_policy (r : string) (p : PolicyRow) : Prop := {
  ip_name : pol_name p = expected_tenant_policy_name r;
  ip_permissive : pol_permissive p = true;
  ip_command : pol_command p = "*";
  ip_public : pol_public_only p = true;
  ip_using : normalize_policy_expression <$> pol_using p = Some (expected_expression r);
  ip_check : normalize_policy_expression <$> pol_check p = Some (expected_expression r);
}.

Record ready_schema (migrations : list EmbeddedMigration) (rels : list RelationRow)
    (cols : list ColumnRow) (cons : list ConstraintRow) (idxs : list IndexRow)
    (pols : list PolicyRow) (applied : list AppliedMigration) : Prop := {
  rs_relations r : r ∈ REQUIRED_RELATIONS → ∃ row, row ∈ rels ∧
    rel_schema row = "public" ∧ is_table (rel_kind row) ∧ rel_name row = r;
  rs_rls r row : r ∈ TENANT_RELATIONS → row ∈ rels →
    rel_schema row = "public" → is_table (rel_kind row) → rel_name row = r →
    rel_row_security row = true ∧ rel_force_row_security row = true;
  rs_columns q : q ∈ REQUIRED_COLUMNS → ∃ row, row ∈ cols ∧
    col_schema row = "public" ∧ is_table (col_relkind row) ∧ 0 < col_attnum row ∧
    col_dropped row = false ∧
    q = column (col_relation row) (col_name row) (col_type row) (col_not_null row)
          (col_identity row);
  rs_constraints q : q ∈ REQUIRED_CONSTRAINTS → ∃ row, row ∈ cons ∧
    con_schema row = "public" ∧ con_validated row = true ∧
    q = constraint (con_relation row) (con_name row) (con_type row);
  rs_indexes q : q ∈ REQUIRED_INDEXES → ∃ row, row ∈ idxs ∧
    idx_schema row = "public" ∧ idx_valid row = true ∧ idx_ready row = true ∧
    q = (idx_relation row, idx_name row);
  rs_isolated r : r ∈ TENANT_RELATIONS → ∃ row, row ∈ pols ∧
    pol_schema row = "public" ∧ pol_relation row = r ∧ isolation_policy r row;
  rs_no_other_policy r row : r ∈ TENANT_RELATIONS → row ∈ pols →
    pol_schema row = "public" → pol_relation row = r → isolation_policy r row;
  rs_migrations : applied ≡ₚ (λ m, (mig_version m, true, mig_checksum m)) <$> migrations;
}.

Lemma TENANT_REQUIRED r : r ∈ TENANT_RELATIONS → r ∈ REQUIRED_RELATIONS.
Proof. unfold TENANT_RELATIONS, REQUIRED_RELATIONS. set_solver. Qed.

Lemma relation_problems_nil rels :
  NoDup (runtime_relations_sql required_relation_names rels).*1 →
  relation_problems (collect_map (runtime_relations_sql required_relation_names rels)) = [] ↔
    (∀ r, r ∈ REQUIRED_RELATIONS → ∃ row, row ∈ rels ∧
       rel_schema row = "public" ∧ is_table (rel_kind row) ∧ rel_name row = r) ∧
    (∀ r row, r ∈ TENANT_RELATIONS → row ∈ rels →
       rel_schema row = "public" → is_table (rel_kind row) → rel_name row = r →
       rel_row_security row = true ∧ rel_force_row_security row = true).
Proof.
  intros Hn. set (m := collect_map _). assert (Hm : ∀ r b, m !! r = Some b ↔ ∃ row, row ∈ rels ∧ rel_schema row = "public" ∧
    r ∈ REQUIRED_RELATIONS ∧ is_table (rel_kind row) ∧ rel_name row = r ∧
    b = (rel_row_security row, rel_force_row_security row)).
  { intros r b. unfold m. rewrite collect_map_lookup by done. unfold runtime_relations_sql.
    rewrite list_elem_of_fmap. setoid_rewrite list_elem_of_filter. unfold in_public.
    unfold required_relation_names. naive_solver. }
  clearbody m. unfold relation_problems. rewrite app_nil, !omap_nil_iff. f_equiv.
  - apply forall_proper. intros r. split; intros H Hr; specialize (H Hr).
    + destruct (m !! r) as [b|] eqn:E; [|done]. apply Hm in E. naive_solver.
    + destruct H as (row & ? & ? & ? & ?). by rewrite (proj2 (Hm r _)) by (exists row; naive_solver).
  - split.
    + intros H r row Hr ? ? ? ?. specialize (H r Hr).
      rewrite (proj2 (Hm r (rel_row_security row, rel_force_row_security row))) in H
        by (exists row; eauto 10 using TENANT_REQUIRED).
      by destruct (rel_row_security row), (rel_force_row_security row).
    + intros H r Hr. destruct (m !! r) as [[b1 b2]|] eqn:E; [|done].
      apply Hm in E as (row & ? & ? & ? & ? & ? & [= -> ->]).
      by destruct (H r row) as [-> ->].
Qed.

Lemma column_problems_nil cols :
  NoDup (runtime_columns_sql required_relation_names cols).*1 →
  column_problems (collect_map (runtime_columns_sql required_relation_names cols)) = [] ↔
    ∀ q, q ∈ REQUIRED_COLUMNS → ∃ row, row ∈ cols ∧
      col_schema row = "public" ∧ is_table (col_relkind row) ∧ 0 < col_attnum row ∧
      col_dropped row = false ∧
      q = column (col_relation row) (col_name row) (col_type row) (col_not_null row)
            (col_identity row).
Proof.
  intros Hn. unfold column_problems. rewrite omap_nil_iff.
  assert (HR : Forall (λ q, rc_relation q ∈ REQUIRED_RELATIONS) REQUIRED_COLUMNS)
    by (by apply (bool_decide_unpack _); vm_compute).
  rewrite Forall_forall in HR.
  apply forall_proper. intros q. split; intros H Hq; specialize (H Hq).
  - destruct (collect_map _ !! _) as [[[ty nn] id]|] eqn:E; [|done].
    apply collect_map_lookup in E; [|done]. apply list_elem_of_fmap in E as (row & ? & Hf).
    apply list_elem_of_filter in Hf as ((? & ? & ? & ?) & ?). destruct q; simplify_eq/=.
    destruct (_ || _) eqn:B in H; [done|]. to_prop.
    exists row. unfold in_public in *. naive_solver.
  - destruct H as (row & ? & ? & ? & ? & ? & ->). simpl.
    rewrite (proj2 (collect_map_lookup _ _ (col_type row, col_not_null row, col_identity row) Hn)).
    + by rewrite !bool_decide_eq_true_2 by done.
    + apply list_elem_of_fmap. exists row. split; [done|]. apply list_elem_of_filter.
      unfold in_public. specialize (HR _ Hq). done.
Qed.

Lemma constraint_problems_nil cons :
  NoDup (runtime_constraints_sql required_relation_names cons).*1 →
  constraint_problems (collect_map (runtime_constraints_sql required_relation_names cons)) = [] ↔
    ∀ q, q ∈ REQUIRED_CONSTRAINTS → ∃ row, row ∈ cons ∧
      con_schema row = "public" ∧ con_validated row = true ∧
      q = constraint (con_relation row) (con_name row) (con_type row).
Proof.
  intros Hn. unfold constraint_problems. rewrite omap_nil_iff.
  assert (HR : Forall (λ q, rk_relation q ∈ REQUIRED_RELATIONS) REQUIRED_CONSTRAINTS)
    by (by apply (bool_decide_unpack _); vm_compute).
  rewrite Forall_forall in HR.
  apply forall_proper. intros q. split; intros H Hq; specialize (H Hq).
  - destruct (collect_map _ !! _) as [[ty v]|] eqn:E; [|done].
    apply collect_map_lookup in E; [|done]. apply list_elem_of_fmap in E as (row & ? & Hf).
    apply list_elem_of_filter in Hf as ((? & ?) & ?). destruct q; simplify_eq/=.
    destruct (_ && _) eqn:B in H; [|done]. to_prop. exists row. naive_solver.
  - destruct H as (row & ? & ? & Hv & ->). simpl.
    rewrite (proj2 (collect_map_lookup _ _ (con_type row, con_validated row) Hn)).
    + by rewrite Hv, bool_decide_eq_true_2.
    + apply list_elem_of_fmap. exists row. split; [done|]. apply list_elem_of_filter.
      unfold in_public. specialize (HR _ Hq). done.
Qed.

Lemma index_problems_nil idxs :
  NoDup (runtime_indexes_sql required_relation_names idxs).*1 →
  index_problems (collect_map (runtime_indexes_sql required_relation_names idxs)) = [] ↔
    ∀ q, q ∈ REQUIRED_INDEXES → ∃ row, row ∈ idxs ∧
      idx_schema row = "public" ∧ idx_valid row = true ∧ idx_ready row = true ∧
      q = (idx_relation row, idx_name row).
Proof.
  intros Hn. unfold index_problems. rewrite omap_nil_iff.
  assert (HR : Forall (λ q, q.1 ∈ REQUIRED_RELATIONS) REQUIRED_INDEXES)
    by (by apply (bool_decide_unpack _); vm_compute).
  rewrite Forall_forall in HR.
  apply forall_proper. intros q. split; intros H Hq; specialize (H Hq).
  - destruct (collect_map _ !! _) as [[[] []]|] eqn:E; try done.
    apply collect_map_lookup in E; [|done]. apply list_elem_of_fmap in E as (row & ? & Hf).
    apply list_elem_of_filter in Hf as ((? & ?) & ?). simplify_eq/=. exists row. naive_solver.
  - destruct H as (row & ? & ? & Hv & Hr & ->).
    rewrite (proj2 (collect_map_lookup _ _ (idx_valid row, idx_ready row) Hn)).
    + by rewrite Hv, Hr.
    + apply list_elem_of_fmap. exists row. split; [done|]. apply list_elem_of_filter.
      unfold in_public. specialize (HR _ Hq). done.
Qed.

Lemma policy_valid_iff r p : pol_name p = expected_tenant_policy_name r →
  policy_valid r (pol_permissive p, pol_command p, pol_public_only p, pol_using p, pol_check p) = true
  ↔ isolation_policy r p.
Proof.
  intros Hn. unfold policy_valid. rewrite !andb_true_iff, !bool_decide_eq_true. split.
  - intros ((((?&?)&?)&?)&?). by constructor.
  - intros []. auto.
Qed.

(** The two policy checks together: a tenant relation has its isolation
    policy and no other. *)
Lemma policy_problems_nil pols :
  NoDup (runtime_policies_sql required_relation_names pols).*1 →
  unexpected_policy_problems (collect_map (runtime_policies_sql required_relation_names pols)) ++
  tenant_policy_problems (collect_map (runtime_policies_sql required_relation_names pols)) = [] ↔
    (∀ r, r ∈ TENANT_RELATIONS → ∃ row, row ∈ pols ∧
       pol_schema row = "public" ∧ pol_relation row = r ∧ isolation_policy r row) ∧
    (∀ r row, r ∈ TENANT_RELATIONS → row ∈ pols →
       pol_schema row = "public" → pol_relation row = r → isolation_policy r row).
Proof.
  intros Hn. set (m := collect_map _). assert (Hm : ∀ r n b, m !! (r, n) = Some b ↔ ∃ row, row ∈ pols ∧
    pol_schema row = "public" ∧ r ∈ REQUIRED_RELATIONS ∧ pol_relation row = r ∧ pol_name row = n ∧
    b = (pol_permissive row, pol_command row, pol_public_only row, pol_using row, pol_check row)).
  { intros r n b. unfold m. rewrite collect_map_lookup by done. unfold runtime_policies_sql.
    rewrite list_elem_of_fmap. setoid_rewrite list_elem_of_filter. unfold in_public.
    unfold required_relation_names. naive_solver. }
  clearbody m. unfold unexpected_policy_problems, tenant_policy_problems.
  rewrite app_nil, !omap_nil_iff. split.
  - intros [Hall Hex].
    assert (∀ r, r ∈ TENANT_RELATIONS → ∃ row, row ∈ pols ∧ pol_schema row = "public" ∧
      pol_relation row = r ∧ isolation_policy r row) as Hiso.
    { intros r Hr. specialize (Hex r Hr). simpl in Hex.
      destruct (m !! _) as [b|] eqn:E; [|done].
      apply Hm in E as (row & ? & ? & ? & ? & Hname & ->).
      destruct (policy_valid _ _) eqn:Hv in Hex; [|done]. apply policy_valid_iff in Hv; eauto. }
    split; [done|]. intros r row Hr Hrow Hs Hrel.
    assert (Hl : m !! (r, pol_name row) = Some
      (pol_permissive row, pol_command row, pol_public_only row, pol_using row, pol_check row))
      by (apply Hm; exists row; eauto 10 using TENANT_REQUIRED).
    apply elem_of_map_to_list in Hl as Hin. specialize (Hall _ Hin). simpl in Hall.
    unfold is_allowed_runtime_policy_name in Hall. rewrite (bool_decide_eq_true_2 (_ ∈ _)) in Hall by done.
    simpl in Hall. destruct (bool_decide _) eqn:Hname in Hall; [|done]. to_prop.
    apply policy_valid_iff; [done|].
    specialize (Hex r Hr). cbv zeta in Hex. rewrite <-Hname in Hex. rewrite Hl in Hex. by destruct (policy_valid _ _).
  - intros [Hiso Hall]. split.
    + intros [[r n] b] Hin%elem_of_map_to_list%Hm. simpl.
      destruct Hin as (row & ? & ? & ? & ? & <- & ->). unfold is_allowed_runtime_policy_name.
      destruct (bool_decide (r ∈ TENANT_RELATIONS)) eqn:Hr; [|done]. to_prop. simpl.
      rewrite bool_decide_eq_true_2; [done|]. by apply (Hall r row).
    + intros r Hr. destruct (Hiso r Hr) as (row & ? & ? & ? & Hp).
      rewrite (proj2 (Hm r (expected_tenant_policy_name r) _))
        by (exists row; eauto 10 using TENANT_REQUIRED, ip_name).
      by rewrite (proj2 (policy_valid_iff r row (ip_name _ _ Hp)) Hp).
Qed.

Definition applied_row (m : EmbeddedMigration) : AppliedMigration :=
  (mig_version m, true, mig_checksum m).

Lemma find_version (applied : list AppliedMigration) v :
  (∃ a, a ∈ applied ∧ a.1.1 = v) →
  ∃ a, find_first (λ a : AppliedMigration, a.1.1 =? v) applied = Some a ∧ a ∈ applied ∧ a.1.1 = v.
Proof.
  intros (a & Ha & Hv). destruct (find_first _ applied) as [b|] eqn:E.
  - exists b. apply find_first_Some in E. split; [done|]. naive_solver lia.
  - exfalso. rewrite find_first_None in E. specialize (E a Ha). simpl in E. lia.
Qed.

Lemma validate_applied_migrations_nil migrations applied : NoDup (mig_version <$> migrations) →
  validate_applied_migrations migrations applied = [] ↔ applied ≡ₚ applied_row <$> migrations.
Proof.
  intros Hn. unfold validate_applied_migrations. rewrite app_nil, omap_nil_iff. split.
  - intros [Hv Hm]. destruct (_ || _) eqn:B in Hv; [done|]. to_prop.
    symmetry. apply submseteq_length_Permutation; [|unfold zlen in *; rewrite length_fmap; lia].
    apply NoDup_submseteq.
    { apply (NoDup_fmap_1 (λ a : AppliedMigration, a.1.1)). by rewrite <-list_fmap_compose. }
    intros a (m & -> & Hin)%list_elem_of_fmap.
    destruct (find_version applied (mig_version m)) as ([[v b] c] & Hf & ? & ?).
    { assert (mig_version m ∈ (list_to_set (mig_version <$> migrations) : gset Z)) as Hi
        by (apply elem_of_list_to_set, list_elem_of_fmap; eauto).
      rewrite H in Hi. apply elem_of_list_to_set, list_elem_of_fmap in Hi as (x & ? & ?). eauto. }
    specialize (Hm m Hin). rewrite Hf in Hm. simplify_eq/=. destruct b; [|done].
    destruct (bool_decide _) eqn:Hc in Hm; [|done]. to_prop. by subst.
  - intros HP. split.
    + assert (list_to_set (mig_version <$> migrations) =
              (list_to_set ((λ a : AppliedMigration, a.1.1) <$> applied) : gset Z)) as ->.
      { apply list_to_set_perm_L. by rewrite HP, <-list_fmap_compose. }
      rewrite bool_decide_eq_true_2 by done. apply Permutation_length in HP.
      rewrite length_fmap in HP. unfold zlen. by rewrite HP, Z.eqb_refl.
    + intros m Hm. destruct (find_version applied (mig_version m)) as (a & -> & Ha & Hv).
      { exists (applied_row m). split; [|done]. rewrite HP. apply list_elem_of_fmap. eauto. }
      rewrite HP in Ha. apply list_elem_of_fmap in Ha as (m' & -> & ?). simpl in Hv.
      assert (m' = m) as -> by (eapply NoDup_fmap_inj; eauto).
      simpl. by rewrite bool_decide_eq_true_2.
Qed.

(** The catalogs have unique indexes on the names of the rows of a relation. *)
Record catalog_unique (c : Catalog) : Prop := {
  cu_relations l : cat_relations c = Ok l →
    NoDup (runtime_relations_sql required_relation_names l).*1;
  cu_columns l : cat_columns c = Ok l →
    NoDup (runtime_columns_sql required_relation_names l).*1;
  cu_constraints l : cat_constraints c = Ok l →
    NoDup (runtime_constraints_sql required_relation_names l).*1;
  cu_indexes l : cat_indexes c = Ok l →
    NoDup (runtime_indexes_sql required_relation_names l).*1;
  cu_policies l : cat_policies c = Ok l →
    NoDup (runtime_policies_sql required_relation_names l).*1;
}.

(** The role can neither bypass row-level security nor change the schema. *)
Definition restricted_role (c : RuntimeRoleCapabilities) : Prop :=
  session_user_differs c = false ∧ superuser c = false ∧ bypasses_rls c = false ∧
  creates_database c = false ∧ creates_role c = false ∧ replication c = false ∧
  can_create_public_schema c = false ∧ member_of_relation_owner c = false ∧
  member_of_privileged_role c = false.

Lemma verify_runtime_schema_Ok migrations c : verify_runtime_schema migrations c = Ok () ↔
  runtime_structure_problems c = Ok [] ∧ runtime_migration_problems migrations c = Ok [].
Proof.
  unfold verify_runtime_schema, schema_ready. rewrite bind_Ok. split.
  - intros (p & -> & H). destruct (bool_decide (p = [])) eqn:Hp; to_prop.
    + subst p. destruct (runtime_migration_problems _ _) as [more|]; simpl in H; [|done].
      split; [done|]. destruct more; [done|]. by rewrite bool_decide_eq_false_2 in H.
    + simpl in H. by rewrite bool_decide_eq_false_2 in H.
  - intros [-> ->]. by exists [].
Qed.

Lemma runtime_structure_problems_nil c : runtime_structure_problems c = Ok [] ↔
  let n := required_relation_names in
  ∃ rels cols cons idxs pols, cat_relations c = Ok rels ∧ cat_can_read_migrations c = Ok true ∧
    cat_columns c = Ok cols ∧ cat_constraints c = Ok cons ∧ cat_indexes c = Ok idxs ∧
    cat_policies c = Ok pols ∧
    relation_problems (collect_map (runtime_relations_sql n rels)) = [] ∧
    column_problems (collect_map (runtime_columns_sql n cols)) = [] ∧
    constraint_problems (collect_map (runtime_constraints_sql n cons)) = [] ∧
    index_problems (collect_map (runtime_indexes_sql n idxs)) = [] ∧
    unexpected_policy_problems (collect_map (runtime_policies_sql n pols)) ++
    tenant_policy_problems (collect_map (runtime_policies_sql n pols)) = [].
Proof.
  assert (Hmig : ∀ m : gmap string (bool * bool), relation_problems m = [] →
    is_Some (m !! "_sqlx_migrations")).
  { intros m [H _]%app_nil. rewrite omap_nil_iff in H.
    specialize (H "_sqlx_migrations" ltac:(unfold REQUIRED_RELATIONS; set_solver)).
    by destruct (m !! _). }
  unfold runtime_structure_problems. cbv zeta. setoid_rewrite bind_Ok. setoid_rewrite map_err_Ok.
  split.
  - intros (rels & Hr & H). destruct (bool_decide _) eqn:Hb in H; simpl in H.
    + repeat (apply bind_Ok in H as (? & ?%map_err_Ok & H)).
      injection H as H. do 6 (apply app_nil in H as [H ?]).
      case_match; [|done]. do 5 eexists. repeat (split; [eassumption|]). by apply app_nil.
    + injection H as H. to_prop. by destruct Hb; apply Hmig.
  - intros (rels & cols & cons & idxs & pols & Hr & Hp & Hc & Hk & Hi & Ho & Er & Ec & Ek & Ei & Eo).
    exists rels. split; [done|]. rewrite bool_decide_eq_true_2 by auto. simpl.
    rewrite Hp, Hc, Hk, Hi, Ho. cbn [map_err mbind result_bind].
    rewrite Er, Ec, Ek, Ei. simpl. by rewrite Eo.
Qed.

(** C17: The startup check accepts a database exactly when every catalog
    query succeeds, the runtime role is restricted, the migrations applied are
    those of the binary, and the schema has every required relation, column,
    constraint and index, with row-level security enabled and forced on every
    tenant relation and the isolation policy as its only policy. *)
Theorem verify_ready_correct migrations c :
  NoDup (mig_version <$> migrations) → catalog_unique c →
  verify_ready migrations c = Ok () ↔
  ∃ role rels cols cons idxs pols applied,
    cat_role c = Ok role ∧ cat_relations c = Ok rels ∧ cat_can_read_migrations c = Ok true ∧
    cat_columns c = Ok cols ∧ cat_constraints c = Ok cons ∧ cat_indexes c = Ok idxs ∧
    cat_policies c = Ok pols ∧ cat_migrations c = Ok applied ∧
    restricted_role role ∧ ready_schema migrations rels cols cons idxs pols applied.
Proof.
  intros Hn []. unfold verify_ready, verify_runtime_role. rewrite !bind_Ok.
  setoid_rewrite verify_runtime_schema_Ok. setoid_rewrite runtime_structure_problems_nil.
  unfold runtime_migration_problems. cbv zeta. setoid_rewrite bind_Ok. setoid_rewrite map_err_Ok.
  split.
  - intros ([] & (role & ? & ?%validate_runtime_role_Ok) & (rels & cols & cons & idxs & pols & Hr & ? & Hc & Hk & Hi & Ho &
      Er & Ec & Ek & Ei & Eo) & (applied & Ha & [= Em])).
    exists role, rels, cols, cons, idxs, pols, applied. do 9 (split; [done|]).
    apply relation_problems_nil in Er as [??]; [|auto]. rewrite column_problems_nil in Ec by auto.
    rewrite constraint_problems_nil in Ek by auto. rewrite index_problems_nil in Ei by auto.
    apply policy_problems_nil in Eo as [??]; [|auto].
    apply validate_applied_migrations_nil in Em; [|done]. by constructor.
  - intros (role & rels & cols & cons & idxs & pols & applied & ? & ? & ? & ? & ? & ? & ? & ? & ? & []).
    exists (). split; [exists role; by rewrite validate_runtime_role_Ok|]. split.
    + exists rels, cols, cons, idxs, pols. do 6 (split; [done|]).
      rewrite relation_problems_nil, column_problems_nil, constraint_problems_nil,
        index_problems_nil, policy_problems_nil by auto. auto 10.
    + exists applied. split; [done|]. f_equal. by apply validate_applied_migrations_nil.
Qed.

(** *** A database the migrations produce *)

Definition demo_policy (r : string) : PolicyRow :=
  let column := if bool_decide (r = "tenants") then "id" else "tenant_id" in
  let e := "(" +:+ column +:+
           " = (NULLIF(current_setting('app.tenant_id'::text, true), ''::text))::uuid)" in
  {| pol_schema := "public"; pol_relation := r; pol_name := expected_tenant_policy_name r;
     pol_permissive := true; pol_command := "*"; pol_public_only := true;
     pol_using := Some e; pol_check := Some e |}.

Definition demo_catalog : Catalog :=
  {| cat_role := Ok {| role_name := "skid_runtime"; session_user_differs := false;
       superuser := false; bypasses_rls := false; creates_database := false;
       creates_role := false; replication := false; can_create_public_schema := false;
       member_of_relation_owner := false; member_of_privileged_role := false |};
     cat_relations := Ok ((λ r, {| rel_schema := "public"; rel_kind := "r"; rel_name := r;
       rel_row_security := bool_decide (r ∈ TENANT_RELATIONS);
       rel_force_row_security := bool_decide (r ∈ TENANT_RELATIONS) |}) <$> REQUIRED_RELATIONS);
     cat_can_read_migrations := Ok true;
     cat_columns := Ok ((λ q, {| col_schema := "public"; col_relkind := "r";
       col_relation := rc_relation q; col_name := rc_name q; col_attnum := 1;
       col_dropped := false; col_type := rc_data_type q; col_not_null := rc_not_null q;
       col_identity := rc_identity q |}) <$> REQUIRED_COLUMNS);
     cat_constraints := Ok ((λ q, {| con_schema := "public"; con_relation := rk_relation q;
       con_name := rk_name q; con_type := rk_constraint_type q;
       con_validated := true |}) <$> REQUIRED_CONSTRAINTS);
     cat_indexes := Ok ((λ q, {| idx_schema := "public"; idx_relation := q.1; idx_name := q.2;
       idx_valid := true; idx_ready := true |}) <$> REQUIRED_INDEXES);
     cat_policies := Ok (demo_policy <$> TENANT_RELATIONS);
     cat_migrations := Ok [(1, true, ["a"%byte])] |}.

Definition demo_migrations : list EmbeddedMigration :=
  [{| mig_version := 1; mig_checksum := ["a"%byte] |}].

Lemma demo_catalog_unique : catalog_unique demo_catalog.
Proof.
  split; simpl; intros l [= <-]; by apply (bool_decide_unpack _); vm_compute.
Qed.

Lemma verify_ready_correct_witness :
  verify_ready demo_migrations demo_catalog = Ok () ∧
  ∃ role rels cols cons idxs pols applied,
    cat_role demo_catalog = Ok role ∧ cat_relations demo_catalog = Ok rels ∧
    cat_can_read_migrations demo_catalog = Ok true ∧
    cat_columns demo_catalog = Ok cols ∧ cat_constraints demo_catalog = Ok cons ∧
    cat_indexes demo_catalog = Ok idxs ∧
    cat_policies demo_catalog = Ok pols ∧ cat_migrations demo_catalog = Ok applied ∧
    restricted_role role ∧ ready_schema demo_migrations rels cols cons idxs pols applied.
Proof.
  assert (H : verify_ready demo_migrations demo_catalog = Ok ()) by vm_refl.
  split; [exact H|].
  refine (proj1 (verify_ready_correct demo_migrations demo_catalog _ demo_catalog_unique) H).
  apply NoDup_singleton.
Defined.
