(* ===== verification/PgStore.v ===== *)
(** * The cloud store: its operations (skid-monitor-server, store.rs)

    The tables of migrations/0001 as one state, and every operation of
    [PgSignalStore] as a function on it.  A transaction that returns an error
    is rolled back: the tables are unchanged, but the identity sequence of
    [signal_events.cursor] is not, as in PostgreSQL.  The database clock is an
    argument, in nanoseconds; generated UUIDs are arguments. *)

From S2P Require Import Prelude RustStr Otlp Core PgTypes.

(** ** Rows *)

Record TenantRow := {
  t_slug : string;
  t_display_name : string;
  t_enabled : bool;
  t_created_at : Z;
  t_updated_at : Z;
}.
Record AgentRow := {
  a_display_name : option string;
  a_enabled : bool;
  a_enrolled_at : Z;
  a_updated_at : Z;
  a_last_seen_at : option Z;
}.
Record EventRow `{JsonApi} := {
  e_cursor : Z;
  e_tenant : TenantId;
  e_event_id : Z;
  e_agent : AgentId;
  e_sequence : Z;
  e_received_at : Z;
  e_kind : string;
  e_payload : json;
  e_payload_bytes : Z;
  e_committed_at : Z;
}.
Record ProjectionRow := { p_last_cursor : Z; p_projection : SignalProjection; p_updated_at : Z }.
Inductive AuditDetails :=
| DetailsTenant (slug display_name : string)
| DetailsDisplayName (display_name : option string)
| DetailsEnabled (enabled : bool).
Record AuditRow := {
  au_tenant : TenantId;
  au_actor_type : string;
  au_actor_id : string;
  au_action : string;
  au_target_type : string;
  au_target_id : string;
  au_details : AuditDetails;
  au_occurred_at : Z;
}.
Record TicketRow := {
  k_tenant : TenantId;
  k_subject : string;
  k_created_at : Z;
  k_authorized_until : Z;
  k_expires_at : Z;
  k_consumed_at : option Z;
}.

Record Db `{JsonApi} := {
  tenants : gmap TenantId TenantRow;
  agents_t : gmap (TenantId * AgentId) AgentRow;
  events : list EventRow;            (* in commit order *)
  next_cursor : Z;                   (* the identity sequence *)
  projections : gmap TenantId ProjectionRow;
  audits : list AuditRow;
  tickets : gmap Z TicketRow;
  notifications : list (TenantId * SignalCursor); (* pg_notify *)
}.

Section store.
  Context `{JsonApi}.

Definition with_events (db : Db) l := Build_Db _ (tenants db) (agents_t db) l (next_cursor db)
  (projections db) (audits db) (tickets db) (notifications db).
Definition with_cursor (db : Db) c := Build_Db _ (tenants db) (agents_t db) (events db) c
  (projections db) (audits db) (tickets db) (notifications db).
Definition with_projections (db : Db) m := Build_Db _ (tenants db) (agents_t db) (events db)
  (next_cursor db) m (audits db) (tickets db) (notifications db).
Definition with_agents (db : Db) m := Build_Db _ (tenants db) m (events db) (next_cursor db)
  (projections db) (audits db) (tickets db) (notifications db).
Definition with_tenants (db : Db) m := Build_Db _ m (agents_t db) (events db) (next_cursor db)
  (projections db) (audits db) (tickets db) (notifications db).
Definition with_tickets (db : Db) m := Build_Db _ (tenants db) (agents_t db) (events db)
  (next_cursor db) (projections db) (audits db) m (notifications db).
Definition with_audit (db : Db) r := Build_Db _ (tenants db) (agents_t db) (events db)
  (next_cursor db) (projections db) (audits db ++ [r]) (tickets db) (notifications db).
Definition with_notification (db : Db) n := Build_Db _ (tenants db) (agents_t db) (events db)
  (next_cursor db) (projections db) (audits db) (tickets db) (notifications db ++ [n]).

(** [row_not_found]: sqlx's [RowNotFound]; the others name the constraint that
    PostgreSQL reports. *)
Definition row_not_found : PgStoreError := Database "no rows returned by a query that expected to return at least one row".
Definition violates (constraint_ : string) : PgStoreError := Database constraint_.

(** [btrim(s) = ''] *)
Definition btrim_blank (s : string) : bool := forallb (λ b, bool_decide (b = u8 32)) (as_bytes s).

Definition require_enabled_tenant (db : Db) (t : TenantId) : result PgStoreError () :=
  match t_enabled <$> tenants db !! t with
  | Some true => Ok ()
  | Some false => Err (TenantDisabled t)
  | None => Err row_not_found
  end.

(** A transaction: on an error only the identity sequence keeps its effect. *)
Definition transaction {A} (db : Db) (body : Db → result PgStoreError A * Db)
  : result PgStoreError A * Db :=
  match body db with
  | (Ok a, db') => (Ok a, db')
  | (Err e, db') => (Err e, with_cursor db (next_cursor db'))
  end.

(** ** append_envelope *)

Definition same_sequence (t : TenantId) (a : AgentId) (s : Z) (r : EventRow) : bool :=
  bool_decide (e_tenant r = t) && bool_decide (e_agent r = a) && (e_sequence r =? s).

Definition find_event (db : Db) (t : TenantId) (a : AgentId) (s : Z) : option EventRow :=
  find_first (same_sequence t a s) (events db).

(** The INSERT into [signal_events], [ON CONFLICT (tenant_id, agent_id,
    sequence) DO NOTHING RETURNING cursor], with the checks and the other
    uniqueness constraint of the table.  The identity value is drawn before
    the conflict is detected. *)
Definition insert_event (db : Db) (now : Z) (t : TenantId) (env : SignalEnvelope)
    (p : CanonicalSignalPayload) : result PgStoreError (option Z) * Db :=
  if i64_max <? next_cursor db
  then (Err (violates "nextval: reached maximum value of sequence"), db)
  else
    let c := next_cursor db in
    let db := with_cursor db (c + 1) in
    if negb (json_is_object (cp_value p))
    then (Err (violates "signal_events_payload_object"), db)
    else if cp_byte_len p <=? 0
    then (Err (violates "signal_events_payload_bytes_positive"), db)
    else match find_event db t (agent_id env) (sequence env) with
    | Some _ => (Ok None, db)
    | None =>
      if existsb (λ r, bool_decide (e_tenant r = t) && (e_event_id r =? event_uuid (event_id env)))
           (events db)
      then (Err (violates "signal_events_tenant_event_unique"), db)
      else
        (Ok (Some c),
         with_events db (events db ++ [{|
           e_cursor := c; e_tenant := t; e_event_id := event_uuid (event_id env);
           e_agent := agent_id env; e_sequence := sequence env;
           e_received_at := received_at_unix_nano env; e_kind := signal_kind_name env;
           e_payload := jsonb (cp_value p); e_payload_bytes := cp_byte_len p;
           e_committed_at := now |}]))
    end.

(** The INSERT ... ON CONFLICT DO NOTHING, SELECT ... FOR UPDATE, observe and
    UPDATE of the tenant's projection row. *)
Definition observe_projection (db : Db) (now : Z) (t : TenantId) (c : Z) (env : SignalEnvelope) : Db :=
  let row := default {| p_last_cursor := 0; p_projection := projection_default; p_updated_at := now |}
               (projections db !! t) in
  with_projections db (<[t := {|
    p_last_cursor := Z.max (p_last_cursor row) c;
    p_projection := projection_observe (p_projection row) env;
    p_updated_at := now |}]> (projections db)).

Definition touch_agent (db : Db) (now : Z) (t : TenantId) (a : AgentId) : Db :=
  with_agents db (alter (λ r, {| a_display_name := a_display_name r; a_enabled := a_enabled r;
    a_enrolled_at := a_enrolled_at r; a_updated_at := now; a_last_seen_at := Some now |})
    (t, a) (agents_t db)).

Definition cursor_from_row (c : Z) : result PgStoreError SignalCursor := from_pg_i64 "cursor" c.

(** The part of the transaction after the tenant lock is held. *)
Definition append_locked (db : Db) (now : Z) (t : TenantId) (env : SignalEnvelope)
    (p : CanonicalSignalPayload) : result PgStoreError AppendOutcome * Db :=
  match a_enabled <$> agents_t db !! (t, agent_id env) with
  | None => (Err (AgentNotEnrolled (agent_id env)), db)
  | Some false => (Err (AgentDisabled (agent_id env)), db)
  | Some true =>
    match insert_event db now t env p with
    | (Err e, db) => (Err e, db)
    | (Ok None, db) =>
      match find_event db t (agent_id env) (sequence env) with
      | None => (Err row_not_found, db)
      | Some row =>
        if negb (bool_decide (e_kind row = signal_kind_name env))
           || negb (bool_decide (e_payload row = cp_value p))
        then (Err (SequenceConflict (agent_id env) (sequence env)), db)
        else match cursor_from_row (e_cursor row) with
             | Err e => (Err e, db)
             | Ok c => (Ok (mkAppendOutcome c false), db)
             end
      end
    | (Ok (Some inserted), db) =>
      match c ← cursor_from_row inserted; _ ← to_pg_i64 "cursor" c; Ok c with
      | Err e => (Err e, db)
      | Ok c =>
        let db := observe_projection db now t c env in
        let db := touch_agent db now t (agent_id env) in
        let db := with_notification db (t, c) in
        (Ok (mkAppendOutcome c true), db)
      end
    end
  end.

Definition append_envelope (db : Db) (now : Z) (env : SignalEnvelope)
  : result PgStoreError AppendOutcome * Db :=
  match tenant_scope (scope env) with
  | Err e => (Err e, db)
  | Ok t =>
    match canonical_signal_payload (payload env) with
    | Err e => (Err e, db)
    | Ok p =>
      transaction db (λ db,
        match require_enabled_tenant db t with
        | Err e => (Err e, db)
        | Ok _ => append_locked db now t env p
        end)
    end
  end.

(** ** Replay *)

(** [ORDER BY cursor ASC]: insertion sort. *)
Fixpoint insert_by_cursor (r : EventRow) (l : list EventRow) : list EventRow :=
  match l with
  | [] => [r]
  | x :: l => if e_cursor r <=? e_cursor x then r :: x :: l else x :: insert_by_cursor r l
  end.
Definition order_by_cursor (l : list EventRow) : list EventRow := foldr insert_by_cursor [] l.

(** The rows of one tenant after a cursor, in cursor order. *)
Definition rows_after (db : Db) (t : TenantId) (after : Z) : list EventRow :=
  order_by_cursor (filter (λ r, e_tenant r = t ∧ after < e_cursor r) (events db)).

(** [ranked_metadata]: cursor, ordinal and cumulative bytes of each candidate. *)
Fixpoint ranked (ordinal cumulative : Z) (rows : list EventRow) : list (Z * Z * Z) :=
  match rows with
  | [] => []
  | r :: rows =>
    (e_cursor r, ordinal, cumulative + e_payload_bytes r)
      :: ranked (ordinal + 1) (cumulative + e_payload_bytes r) rows
  end.

(** [max(cursor)] over the ranked rows with ordinal 1 or within the budget;
    [None] is SQL NULL. *)
Definition cutoff (budget : Z) (ranks : list (Z * Z * Z)) : option Z :=
  foldl (λ acc x,
    let '(c, ordinal, cumulative) := x in
    if (ordinal =? 1) || (cumulative <=? budget)
    then Some (match acc with None => c | Some m => Z.max m c end) else acc) None ranks.

(** LOAD_ENVELOPES_BOUNDED_SQL *)
Definition load_bounded_sql (db : Db) (t : TenantId) (after limit budget : Z) : list EventRow :=
  let candidate_metadata := take (Z.to_nat limit) (rows_after db t after) in
  match cutoff budget (ranked 1 0 candidate_metadata) with
  | None => []
  | Some c => filter (λ r, e_cursor r ≤ c) (rows_after db t after)
  end.

Definition signal_record_from_row (t : TenantId) (row : EventRow) : result PgStoreError SignalRecord :=
  c ← cursor_from_row (e_cursor row);
  a ← map_err (λ e, InvalidAgentId (id_error_text e)) (agent_id_new (agent_str (e_agent row)));
  s ← from_pg_u64_text "sequence" (u64_to_string (e_sequence row));
  r ← from_pg_u64_text "received_at_unix_nano" (u64_to_string (e_received_at row));
  p ← map_err JsonError (signal_of_value (e_payload row));
  Ok (mkSignalRecord c (mkEnvelope (mkEventId (e_event_id row)) (Tenant t) a s r p)).

Definition load_envelopes_after_bounded (db : Db) (sc : SignalScope) (after : SignalCursor)
    (row_limit max_json_bytes : Z) : result PgStoreError (list SignalRecord) :=
  t ← tenant_scope sc;
  after ← to_pg_i64 "cursor" after;
  let row_limit := bounded_load_limit row_limit in
  let max_json_bytes := bounded_replay_json_bytes max_json_bytes in
  _ ← require_enabled_tenant db t;
  try_map (signal_record_from_row t) (load_bounded_sql db t after row_limit max_json_bytes).

Definition load_envelopes_after (db : Db) (sc : SignalScope) (after : SignalCursor) (limit : Z)
  : result PgStoreError (list SignalRecord) :=
  load_envelopes_after_bounded db sc after limit MAX_REPLAY_JSON_BYTES.

(** ** Tenants and agents *)

Definition tenant_record_from_row (t : TenantId) (row : TenantRow) : result PgStoreError TenantRecord :=
  c ← from_pg_i64 "created_at_unix_nano" (t_created_at row);
  Ok {| tr_tenant_id := t; tr_slug := t_slug row; tr_display_name := t_display_name row;
        tr_enabled := t_enabled row; tr_created_at_unix_nano := c |}.

(** [tenants.slug UNIQUE] *)
Definition slug_taken (db : Db) (t : TenantId) (slug : string) : bool :=
  existsb (λ p : TenantId * TenantRow, negb (bool_decide (p.1 = t)) && bool_decide (t_slug p.2 = slug))
    (map_to_list (tenants db)).

(** [text t]: the UUID's Display form, uuid's code. *)
Definition upsert_tenant_as (text : TenantId → string) (db : Db) (now : Z) (t : TenantId)
    (slug display_name actor_id : string) : result PgStoreError TenantRecord * Db :=
  match required_actor_id actor_id with
  | Err e => (Err e, db)
  | Ok actor_id =>
    let slug := trim slug in
    let display_name := trim display_name in
    transaction db (λ db,
      if btrim_blank slug then (Err (violates "tenants_slug_not_blank"), db)
      else if btrim_blank display_name then (Err (violates "tenants_display_name_not_blank"), db)
      else if slug_taken db t slug then (Err (violates "tenants_slug_key"), db)
      else
        let row := match tenants db !! t with
          | None => {| t_slug := slug; t_display_name := display_name; t_enabled := true;
                       t_created_at := now; t_updated_at := now |}
          | Some old => {| t_slug := slug; t_display_name := display_name; t_enabled := t_enabled old;
                           t_created_at := t_created_at old; t_updated_at := now |}
          end in
        let db := with_tenants db (<[t := row]> (tenants db)) in
        match tenant_record_from_row t row with
        | Err e => (Err e, db)
        | Ok tenant =>
          if negb (tr_enabled tenant) then (Err (TenantDisabled t), db)
          else
            (Ok tenant,
             with_audit db {| au_tenant := t; au_actor_type := "user"; au_actor_id := actor_id;
               au_action := "tenant.upsert"; au_target_type := "tenant"; au_target_id := text t;
               au_details := DetailsTenant slug display_name; au_occurred_at := now |})
        end)
  end.

Definition upsert_tenant text (db : Db) now t slug display_name :=
  upsert_tenant_as text db now t slug display_name "client-api".

Definition agent_record_from_row (t : TenantId) (a : AgentId) (row : AgentRow)
  : result PgStoreError AgentRecord :=
  id ← map_err (λ e, InvalidAgentId (id_error_text e)) (agent_id_new (agent_str a));
  enrolled ← from_pg_i64 "enrolled_at_unix_nano" (a_enrolled_at row);
  seen ← match a_last_seen_at row with
         | None => Ok None
         | Some v => v ← from_pg_i64 "last_seen_at_unix_nano" v; Ok (Some v)
         end;
  Ok {| ar_tenant_id := t; ar_agent_id := id; ar_display_name := a_display_name row;
        ar_enabled := a_enabled row; ar_enrolled_at_unix_nano := enrolled;
        ar_last_seen_at_unix_nano := seen |}.

(** The agents of one tenant. *)
Definition tenant_agents (db : Db) (t : TenantId) : list (AgentId * AgentRow) :=
  (λ p : (TenantId * AgentId) * AgentRow, (p.1.2, p.2)) <$>
    filter (λ p : (TenantId * AgentId) * AgentRow, p.1.1 = t) (map_to_list (agents_t db)).

(** [ORDER BY agent_id ASC], with the collation's order [le] of the database. *)
Fixpoint insert_by_agent (le : string → string → bool) (r : AgentId * AgentRow)
    (l : list (AgentId * AgentRow)) : list (AgentId * AgentRow) :=
  match l with
  | [] => [r]
  | x :: l => if le (agent_str r.1) (agent_str x.1) then r :: x :: l
              else x :: insert_by_agent le r l
  end.

Definition list_agents (le : string → string → bool) (db : Db) (t : TenantId)
  : result PgStoreError (list AgentRecord) :=
  _ ← require_enabled_tenant db t;
  try_map (λ p, agent_record_from_row t p.1 p.2) (foldr (insert_by_agent le) [] (tenant_agents db t)).

Definition load_projection (db : Db) (t : TenantId) : result PgStoreError (option ProjectionRecord) :=
  _ ← require_enabled_tenant db t;
  match projections db !! t with
  | None => Ok None
  | Some row =>
    c ← from_pg_i64 "last_cursor" (p_last_cursor row);
    Ok (Some {| pr_tenant_id := t; pr_last_cursor := c; pr_projection := p_projection row |})
  end.

(** The table checks of [agents]; [[:cntrl:]] is the class of control
    characters. *)
Definition agents_check (a : AgentId) (display_name : option string) : result PgStoreError () :=
  let n := str_len (agent_str a) in
  if (n <? 1) || (255 <? n) then Err (violates "agents_id_size")
  else if has_control (agent_str a) then Err (violates "agents_id_no_control_characters")
  else if match display_name with None => false | Some d => btrim_blank d end
  then Err (violates "agents_display_name_not_blank")
  else Ok ().

Definition enroll_agent_as (db : Db) (now : Z) (t : TenantId) (a : AgentId)
    (display_name : option string) (actor_id : string) : result PgStoreError AgentRecord * Db :=
  match required_actor_id actor_id with
  | Err e => (Err e, db)
  | Ok actor_id =>
    let display_name := normalized_display_name display_name in
    transaction db (λ db,
      match
        _ ← require_enabled_tenant db t;
        _ ← validate_agent_capacity t (zlen (tenant_agents db t))
              (bool_decide (is_Some (agents_t db !! (t, a))));
        agents_check a display_name
      with
      | Err e => (Err e, db)
      | Ok _ =>
        let row := match agents_t db !! (t, a) with
          | None => {| a_display_name := display_name; a_enabled := true; a_enrolled_at := now;
                       a_updated_at := now; a_last_seen_at := None |}
          | Some old => {| a_display_name := display_name; a_enabled := true;
                           a_enrolled_at := a_enrolled_at old; a_updated_at := now;
                           a_last_seen_at := a_last_seen_at old |}
          end in
        let db := with_agents db (<[(t, a) := row]> (agents_t db)) in
        match agent_record_from_row t a row with
        | Err e => (Err e, db)
        | Ok agent =>
          (Ok agent,
           with_audit db {| au_tenant := t; au_actor_type := "user"; au_actor_id := actor_id;
             au_action := "agent.enroll"; au_target_type := "agent"; au_target_id := agent_str a;
             au_details := DetailsDisplayName display_name; au_occurred_at := now |})
        end
      end)
  end.

Definition enroll_agent (db : Db) now t a display_name :=
  enroll_agent_as db now t a display_name "client-api".

Definition set_agent_enabled_as (db : Db) (now : Z) (t : TenantId) (a : AgentId) (enabled : bool)
    (actor_id : string) : result PgStoreError (option AgentRecord) * Db :=
  match required_actor_id actor_id with
  | Err e => (Err e, db)
  | Ok actor_id =>
    transaction db (λ db,
      match require_enabled_tenant db t with
      | Err e => (Err e, db)
      | Ok _ =>
        match agents_t db !! (t, a) with
        | None => (Ok None, db)
        | Some old =>
          let row := {| a_display_name := a_display_name old; a_enabled := enabled;
                        a_enrolled_at := a_enrolled_at old; a_updated_at := now;
                        a_last_seen_at := a_last_seen_at old |} in
          let db := with_agents db (<[(t, a) := row]> (agents_t db)) in
          match agent_record_from_row t a row with
          | Err e => (Err e, db)
          | Ok agent =>
            (Ok (Some agent),
             with_audit db {| au_tenant := t; au_actor_type := "user"; au_actor_id := actor_id;
               au_action := "agent.set_enabled"; au_target_type := "agent";
               au_target_id := agent_str a; au_details := DetailsEnabled enabled;
               au_occurred_at := now |})
          end
        end
      end)
  end.

Definition set_agent_enabled (db : Db) now t a enabled :=
  set_agent_enabled_as db now t a enabled "client-api".

(** ** Stream tickets *)

Definition ticket_dead (now : Z) (k : TicketRow) : bool :=
  bool_decide (is_Some (k_consumed_at k)) || (k_expires_at k <=? now).

(** The DELETE and its number of rows. *)
Definition cleanup_stream_tickets_in (db : Db) (now : Z) (t : TenantId) : Z * Db :=
  let dead := λ p : Z * TicketRow, k_tenant p.2 = t ∧ ticket_dead now p.2 = true in
  (Z.of_nat (size (filter dead (tickets db))),
   with_tickets db (filter (λ p, ¬ dead p) (tickets db))).

Definition secs_to_ns (s : Z) : Z := s * 1000000000.

(** CREATE_STREAM_TICKET_SQL and the check on [rows_affected]. *)
Definition create_stream_ticket (db : Db) (now ticket_id : Z) (t : TenantId) (subject : string)
    (authorized_until_unix ttl : Z) : result PgStoreError Z * Db :=
  match
    subject ← required_stream_ticket_subject subject;
    authorized ← stream_ticket_authorization_unix authorized_until_unix;
    ttl_millis ← stream_ticket_ttl_millis ttl;
    Ok (subject, authorized, ttl_millis)
  with
  | Err e => (Err e, db)
  | Ok (subject, authorized, ttl_millis) =>
    transaction db (λ db,
      match require_enabled_tenant db t with
      | Err e => (Err e, db)
      | Ok _ =>
        let db := (cleanup_stream_tickets_in db now t).2 in
        let authorized_until := secs_to_ns authorized in
        if authorized_until <=? now then (Err StreamTicketAuthorizationExpired, db)
        else if bool_decide (is_Some (tickets db !! ticket_id))
        then (Err (violates "stream_tickets_pkey"), db)
        else
          (Ok ticket_id,
           with_tickets db (<[ticket_id := {|
             k_tenant := t; k_subject := subject; k_created_at := now;
             k_authorized_until := authorized_until;
             k_expires_at := Z.min (now + ttl_millis * 1000000) authorized_until;
             k_consumed_at := None |}]> (tickets db)))
      end)
  end.

(** CONSUME_STREAM_TICKET_SQL *)
Definition consume_stream_ticket (db : Db) (now : Z) (t : TenantId) (ticket_id : Z)
  : result PgStoreError (option StreamTicketGrant) * Db :=
  transaction db (λ db,
    match require_enabled_tenant db t with
    | Err e => (Err e, db)
    | Ok _ =>
      match tickets db !! ticket_id with
      | Some k =>
        if bool_decide (k_tenant k = t) && negb (ticket_dead now k) then
          let db := with_tickets db (<[ticket_id := {| k_tenant := k_tenant k;
            k_subject := k_subject k; k_created_at := k_created_at k;
            k_authorized_until := k_authorized_until k; k_expires_at := k_expires_at k;
            k_consumed_at := Some now |}]> (tickets db)) in
          match from_pg_i64 "authorized_until_unix" (k_authorized_until k `div` 1000000000) with
          | Err e => (Err e, db)
          | Ok u => (Ok (Some {| grant_subject := k_subject k; authorized_until_unix := u |}), db)
          end
        else (Ok None, db)
      | None => (Ok None, db)
      end
    end).

Definition cleanup_stream_tickets (db : Db) (now : Z) (t : TenantId) : result PgStoreError Z * Db :=
  transaction db (λ db,
    match require_enabled_tenant db t with
    | Err e => (Err e, db)
    | Ok _ => let '(removed, db) := cleanup_stream_tickets_in db now t in (Ok removed, db)
    end).

(** ** SignalWriter and SignalReader *)

#[global] Instance pg_signal_store (now : Z) : SignalStore Db PgStoreError := {|
  store_append db env := append_envelope db now env;
  store_load_after db sc after limit := load_envelopes_after db sc after (Z.of_nat limit) |}.

End store.
