(* ===== verification/PgInvariant.v ===== *)
(** * The cloud store: what every history of operations keeps

    Histories are lists of store operations, each committed in turn, together
    with the operator's direct changes of a tenant's [enabled] column.  The
    invariant relates the tables to the envelopes the history accepted; the
    theorems are consequences for the callers of the store. *)

From S2P Require Import Prelude RustStr Otlp Core PgTypes PgStore.
From Stdlib Require Import Sorting.Sorted.

Section invariant.
  Context `{JsonApi}.

Inductive StoreOp :=
| OpAppend (now : Z) (env : SignalEnvelope)
| OpUpsertTenant (now : Z) (t : TenantId) (slug display_name actor_id : string)
| OpEnroll (now : Z) (t : TenantId) (a : AgentId) (display_name : option string) (actor_id : string)
| OpSetEnabled (now : Z) (t : TenantId) (a : AgentId) (enabled : bool) (actor_id : string)
| OpCreateTicket (now ticket_id : Z) (t : TenantId) (subject : string) (authorized_until ttl : Z)
| OpConsumeTicket (now : Z) (t : TenantId) (ticket_id : Z)
| OpCleanup (now : Z) (t : TenantId)
| OpOperatorEnable (t : TenantId) (enabled : bool).

Context (text : TenantId → string).

Definition apply_op (db : Db) (op : StoreOp) : Db :=
  match op with
  | OpAppend now env => (append_envelope db now env).2
  | OpUpsertTenant now t slug d actor => (upsert_tenant_as text db now t slug d actor).2
  | OpEnroll now t a d actor => (enroll_agent_as db now t a d actor).2
  | OpSetEnabled now t a b actor => (set_agent_enabled_as db now t a b actor).2
  | OpCreateTicket now k t s u ttl => (create_stream_ticket db now k t s u ttl).2
  | OpConsumeTicket now t k => (consume_stream_ticket db now t k).2
  | OpCleanup now t => (cleanup_stream_tickets db now t).2
  | OpOperatorEnable t b =>
    with_tenants db (alter (λ r, {| t_slug := t_slug r; t_display_name := t_display_name r;
      t_enabled := b; t_created_at := t_created_at r; t_updated_at := t_updated_at r |}) t (tenants db))
  end.

(** The envelope an operation inserts, with its cursor and reception. *)
Definition accepted_by (db : Db) (op : StoreOp) : list (Z * SignalEnvelope) :=
  match op with
  | OpAppend now env =>
    match (append_envelope db now env).1 with
    | Ok o => if inserted o then [(cursor o, env)] else []
    | Err _ => []
    end
  | _ => []
  end.

Definition db_empty : Db :=
  {| tenants := ∅; agents_t := ∅; events := []; next_cursor := 1; projections := ∅; audits := [];
     tickets := ∅; notifications := [] |}.

Definition run (ops : list StoreOp) : Db := foldl apply_op db_empty ops.

Fixpoint accepted_from (db : Db) (ops : list StoreOp) : list (Z * SignalEnvelope) :=
  match ops with
  | [] => []
  | op :: ops => accepted_by db op ++ accepted_from (apply_op db op) ops
  end.
Definition accepted (ops : list StoreOp) : list (Z * SignalEnvelope) := accepted_from db_empty ops.

(** ** The invariant *)

(** The row an accepted envelope is stored as. *)
Definition row_of (ce : Z * SignalEnvelope) (r : EventRow) : Prop :=
  let '(c, env) := ce in
  ∃ p, scope env = Tenant (e_tenant r) ∧ canonical_signal_payload (payload env) = Ok p ∧
    e_cursor r = c ∧ e_event_id r = event_uuid (event_id env) ∧ e_agent r = agent_id env ∧
    e_sequence r = sequence env ∧ e_received_at r = received_at_unix_nano env ∧
    e_kind r = signal_kind_name env ∧ e_payload r = jsonb (cp_value p) ∧
    e_payload_bytes r = cp_byte_len p ∧ 0 < cp_byte_len p.

Definition of_tenant (t : TenantId) (acc : list (Z * SignalEnvelope)) : list (Z * SignalEnvelope) :=
  filter (λ ce, scope ce.2 = Tenant t) acc.

Definition event_key (r : EventRow) : TenantId * AgentId * Z := (e_tenant r, e_agent r, e_sequence r).

(** The projection row of a tenant, from what was accepted. *)
Definition projection_row_ok (acc : list (Z * SignalEnvelope)) (db : Db) (t : TenantId) : Prop :=
  match of_tenant t acc with
  | [] => projections db !! t = None
  | own => ∃ row, projections db !! t = Some row ∧
      p_last_cursor row = foldr Z.max 0 own.*1 ∧
      p_projection row = foldl projection_observe projection_default own.*2
  end.

Record db_inv (acc : list (Z * SignalEnvelope)) (db : Db) : Prop := {
  inv_rows : Forall2 row_of acc (events db);
  inv_cursors : StronglySorted (λ r r', e_cursor r < e_cursor r') (events db);
  inv_range : ∀ r, r ∈ events db → 0 < e_cursor r < next_cursor db;
  inv_next : 0 < next_cursor db ≤ i64_max + 1;
  inv_keys : NoDup (event_key <$> events db);
  inv_event_ids : NoDup ((λ r, (e_tenant r, e_event_id r)) <$> events db);
  inv_agents : ∀ r, r ∈ events db → is_Some (agents_t db !! (e_tenant r, e_agent r));
  inv_projection : ∀ t, projection_row_ok acc db t;
  inv_capacity : ∀ t, zlen (tenant_agents db t) ≤ MAX_AGENTS_PER_TENANT;
  inv_notified : notifications db = omap (λ ce, (λ t, (t, ce.1)) <$> scope_tenant_id (scope ce.2)) acc;
}.

(** ** Operations that leave the events alone *)

(** Two states with the same events and projections whose enrolled agents only
    grow within capacity. *)
Record frame_eq (db db' : Db) : Prop := {
  fr_events : events db' = events db;
  fr_next : next_cursor db ≤ next_cursor db' ≤ i64_max + 1;
  fr_projections : projections db' = projections db;
  fr_notifications : notifications db' = notifications db;
  fr_agents : ∀ k, is_Some (agents_t db !! k) → is_Some (agents_t db' !! k);
  fr_capacity : ∀ t, zlen (tenant_agents db' t) ≤ MAX_AGENTS_PER_TENANT;
}.

Lemma frame_inv acc db db' : frame_eq db db' → db_inv acc db → db_inv acc db'.
Proof.
  intros [He Hn Hp Hno Ha Hc] [? ? Hr Hnx ? ? Hag Hpr ? ?]. split; rewrite ?He, ?Hno; try done.
  - intros r Hin. specialize (Hr r Hin). lia.
  - lia.
  - intros r Hin. by apply Ha, Hag.
  - intros t. specialize (Hpr t). unfold projection_row_ok in *. by rewrite Hp.
Qed.

Lemma frame_refl acc db : db_inv acc db → frame_eq db db.
Proof. intros Hi. split; try done; [pose proof (inv_next _ _ Hi); lia|by apply Hi]. Qed.

Lemma frame_cursor acc db c : db_inv acc db → next_cursor db ≤ c ≤ i64_max + 1 →
  frame_eq db (with_cursor db c).
Proof. intros Hi Hc. split; try done. by apply Hi. Qed.

(** A transaction keeps the frame when its body does on success and only draws
    from the sequence on failure. *)
Lemma frame_transaction {A} acc db (body : Db → result PgStoreError A * Db) : db_inv acc db →
  (∀ a db', body db = (Ok a, db') → frame_eq db db') →
  (∀ e db', body db = (Err e, db') → next_cursor db' = next_cursor db) →
  frame_eq db (transaction db body).2.
Proof.
  intros Hi Hok Herr. unfold transaction. destruct (body db) as [[a|e] db'] eqn:Hb; simpl.
  - by eapply Hok.
  - rewrite (Herr e db' eq_refl). eapply frame_cursor; [done|]. pose proof (inv_next _ _ Hi). lia.
Qed.

(** ** Counting agents *)

Definition agents_of (t : TenantId) (m : gmap (TenantId * AgentId) AgentRow) : nat :=
  size (filter (λ p : (TenantId * AgentId) * AgentRow, p.1.1 = t) m).

Lemma zlen_tenant_agents db t : zlen (tenant_agents db t) = Z.of_nat (agents_of t (agents_t db)).
Proof.
  unfold tenant_agents, zlen, agents_of. rewrite length_fmap, map_filter_alt.
  rewrite map_size_list_to_map; [done|].
  eapply sublist_NoDup; [apply (NoDup_fst_map_to_list (agents_t db))|].
  apply fmap_sublist, sublist_filter.
Qed.

Lemma agents_of_insert t m k r : agents_of t (<[k := r]> m) =
  ((if decide (k.1 = t ∧ m !! k = None) then 1 else 0) + agents_of t m)%nat.
Proof.
  unfold agents_of. rewrite map_filter_insert. simpl. destruct (decide (k.1 = t)) as [Hk|Hk].
  - rewrite map_size_insert. destruct (m !! k) as [r0|] eqn:Hm.
    + rewrite (decide_False (P := _ ∧ _)) by naive_solver.
      by rewrite (proj2 (map_lookup_filter_Some _ m k r0)).
    + rewrite (decide_True (P := _ ∧ _)) by done.
      by rewrite (proj2 (map_lookup_filter_None _ m k)) by auto.
  - rewrite (decide_False (P := _ ∧ _)) by naive_solver. simpl. f_equal.
    apply map_eq. intros j. apply option_eq. intros y.
    rewrite !map_lookup_filter_Some, lookup_delete_Some. split; [naive_solver|].
    intros [? Hj]. split; [|done]. split; [|done]. intros ->. by simpl in Hj.
Qed.

(** ** The cases of an append *)

(** The state after an insertion at cursor [c]. *)
Definition inserted_db (db : Db) (now : Z) (t : TenantId) (env : SignalEnvelope)
    (p : CanonicalSignalPayload) : Db :=
  let c := next_cursor db in
  with_notification (touch_agent (observe_projection
    (with_events (with_cursor db (c + 1)) (events db ++ [{|
       e_cursor := c; e_tenant := t; e_event_id := event_uuid (event_id env);
       e_agent := agent_id env; e_sequence := sequence env;
       e_received_at := received_at_unix_nano env; e_kind := signal_kind_name env;
       e_payload := jsonb (cp_value p); e_payload_bytes := cp_byte_len p;
       e_committed_at := now |}])) now t c env) now t (agent_id env)) (t, c).

(** What an append does, by its result. *)
Definition append_effect (db : Db) (now : Z) (env : SignalEnvelope)
    (res : result PgStoreError AppendOutcome * Db) : Prop :=
  match res with
  | (Err e, db') => ∃ n, db' = with_cursor db n ∧ next_cursor db ≤ n ≤ i64_max + 1
  | (Ok o, db') =>
    ∃ t p, scope env = Tenant t ∧ canonical_signal_payload (payload env) = Ok p ∧
      0 < next_cursor db ≤ i64_max ∧
      require_enabled_tenant db t = Ok () ∧
      a_enabled <$> agents_t db !! (t, agent_id env) = Some true ∧
      if inserted o then
        cursor o = next_cursor db ∧ 0 < cp_byte_len p ∧
        find_event db t (agent_id env) (sequence env) = None ∧
        (∀ r, r ∈ events db → e_tenant r = t → e_event_id r ≠ event_uuid (event_id env)) ∧
        db' = inserted_db db now t env p
      else
        db' = with_cursor db (next_cursor db + 1) ∧
        ∃ row, find_event db t (agent_id env) (sequence env) = Some row ∧ e_cursor row = cursor o ∧
          e_kind row = signal_kind_name env ∧ e_payload row = cp_value p
  end.

Lemma with_cursor_same db : with_cursor db (next_cursor db) = db.
Proof. by destruct db. Qed.
Lemma with_cursor_twice db n m : with_cursor (with_cursor db n) m = with_cursor db m.
Proof. done. Qed.

Lemma append_effect_fail db now env e n : next_cursor db ≤ n ≤ i64_max + 1 →
  append_effect db now env (Err e, with_cursor db n).
Proof. intros. by exists n. Qed.

Lemma append_effect_fail_same db now env e : 0 < next_cursor db ≤ i64_max + 1 →
  append_effect db now env (Err e, db).
Proof. intros. rewrite <-(with_cursor_same db) at 2. apply append_effect_fail. lia. Qed.

Lemma existsb_event_id db t i :
  existsb (λ r, bool_decide (e_tenant r = t) && (e_event_id r =? i)) (events db) = false →
  ∀ r, r ∈ events db → e_tenant r = t → e_event_id r ≠ i.
Proof.
  intros Hx r Hr Ht Hi. apply not_true_iff_false in Hx. apply Hx, existsb_exists.
  exists r. rewrite <-list_elem_of_In. split; [done|].
  by rewrite bool_decide_eq_true_2, Hi, Z.eqb_refl.
Qed.

Lemma append_cases db now env : 0 < next_cursor db ≤ i64_max + 1 →
  append_effect db now env (append_envelope db now env).
Proof.
  intros Hn. unfold append_envelope, tenant_scope.
  destruct (scope env) as [|t] eqn:Hs; [by apply append_effect_fail_same|].
  destruct (canonical_signal_payload (payload env)) as [p|e] eqn:Hp;
    [|by apply append_effect_fail_same].
  unfold transaction. destruct (require_enabled_tenant db t) as [[]|e] eqn:Ht;
    [|rewrite with_cursor_same; by apply append_effect_fail_same].
  unfold append_locked.
  destruct (a_enabled <$> agents_t db !! (t, agent_id env)) as [[]|] eqn:Ha;
    [|rewrite with_cursor_same; by apply append_effect_fail_same..].
  unfold insert_event.
  destruct (Z.ltb_spec i64_max (next_cursor db)) as [Hx|Hx];
    [rewrite with_cursor_same; by apply append_effect_fail_same|].
  destruct (json_is_object (cp_value p)); cbn [negb]; [|apply append_effect_fail; simpl; lia].
  destruct (Z.leb_spec (cp_byte_len p) 0) as [Hb|Hb]; [apply append_effect_fail; simpl; lia|].
  change (find_event (with_cursor db (next_cursor db + 1))) with (find_event db).
  destruct (find_event db t (agent_id env) (sequence env)) as [row|] eqn:Hf.
  - change (find_event (with_cursor db (next_cursor db + 1))) with (find_event db). rewrite Hf.
    destruct (bool_decide_reflect (e_kind row = signal_kind_name env)) as [Hk|Hk];
      cbn [negb orb]; [|apply append_effect_fail; simpl; lia].
    destruct (bool_decide_reflect (e_payload row = cp_value p)) as [Hv|Hv];
      cbn [negb orb]; [|apply append_effect_fail; simpl; lia].
    unfold cursor_from_row, from_pg_i64.
    destruct (Z.leb_spec 0 (e_cursor row)) as [Hc|Hc]; [|apply append_effect_fail; simpl; lia].
    exists t, p. split_and!; try done; [lia|]. simpl. split; [done|]. by exists row.
  - change (events (with_cursor db (next_cursor db + 1))) with (events db).
    destruct (existsb _ (events db)) eqn:Hid; [apply append_effect_fail; simpl; lia|].
    unfold cursor_from_row, from_pg_i64. rewrite (proj2 (Z.leb_le 0 _)) by lia.
    unfold to_pg_i64. cbn [mbind result_bind]. rewrite (proj2 (Z.leb_le _ i64_max)) by lia.
    cbn [mbind result_bind].
    exists t, p. split_and!; try done; [lia|]. simpl. split_and!; try done.
    by apply existsb_event_id.
Qed.

(** ** Every operation preserves the invariant *)

Lemma find_event_Some db t a s r : find_event db t a s = Some r →
  r ∈ events db ∧ e_tenant r = t ∧ e_agent r = a ∧ e_sequence r = s.
Proof.
  intros [Hr Hs]%find_first_Some. unfold same_sequence in Hs. to_prop. done.
Qed.

Lemma find_event_None db t a s : find_event db t a s = None →
  (t, a, s) ∉ event_key <$> events db.
Proof.
  intros Hn Hin. apply list_elem_of_fmap in Hin as (r & Hk & Hr). unfold event_key in Hk.
  simplify_eq. eapply find_first_None in Hn; [|done].
  unfold same_sequence in Hn. by rewrite !bool_decide_eq_true_2, Z.eqb_refl in Hn.
Qed.

Lemma StronglySorted_snoc {A} (R : A → A → Prop) l x :
  StronglySorted R l → Forall (λ y, R y x) l → StronglySorted R (l ++ [x]).
Proof.
  induction 1 as [|y l Hl IH Hy]; intros Hx; simpl; [repeat constructor|].
  apply Forall_cons in Hx as [? ?]. constructor; [by apply IH|].
  apply Forall_app. split; [done|]. by constructor.
Qed.

Lemma NoDup_fmap_snoc {A B} (f : A → B) l x :
  NoDup (f <$> l) → f x ∉ f <$> l → NoDup (f <$> l ++ [x]).
Proof.
  intros Hl Hx. rewrite fmap_app. apply NoDup_app. split_and!; [done| |apply NoDup_singleton].
  intros y Hy ->%list_elem_of_singleton. done.
Qed.

Lemma agents_of_alter t m f k : agents_of t (alter f k m) = agents_of t m.
Proof.
  destruct (m !! k) as [r|] eqn:Hm.
  - replace (alter f k m) with (<[k := f r]> m).
    + rewrite agents_of_insert, decide_False; [done|]. intros [_ ?]. congruence.
    + apply map_eq. intros j. destruct (decide (j = k)) as [->|].
      * by rewrite lookup_insert_eq, lookup_alter_eq, Hm.
      * by rewrite lookup_insert_ne, lookup_alter_ne.
  - replace (alter f k m) with m; [done|]. apply map_eq. intros j.
    destruct (decide (j = k)) as [->|]; [by rewrite lookup_alter_eq, Hm|by rewrite lookup_alter_ne].
Qed.

Lemma of_tenant_snoc t acc ce : of_tenant t (acc ++ [ce]) =
  if decide (scope ce.2 = Tenant t) then of_tenant t acc ++ [ce] else of_tenant t acc.
Proof.
  unfold of_tenant. rewrite filter_app. case_decide.
  - by rewrite filter_cons_True.
  - by rewrite filter_cons_False, app_nil_r.
Qed.

Lemma projection_row_snoc acc db now t env p t' : scope env = Tenant t →
  0 < next_cursor db → projection_row_ok acc db t' →
  projection_row_ok (acc ++ [(next_cursor db, env)]) (inserted_db db now t env p) t'.
Proof.
  intros Hs Hn Hok. unfold projection_row_ok in *. rewrite of_tenant_snoc. cbn [snd].
  unfold inserted_db, observe_projection, touch_agent, with_notification, with_agents,
    with_projections, with_events, with_cursor. cbn [projections].
  rewrite Hs. destruct (decide (Tenant t = Tenant t')) as [Ht|Ht].
  - injection Ht as <-. rewrite lookup_insert_eq.
    destruct (of_tenant t acc) as [|ce own] eqn:Ho.
    + rewrite Hok. eexists. split; [done|]. simpl. split; [lia|done].
    + destruct Hok as (row & Hrow & Hl & Hpr). rewrite Hrow. eexists. split; [done|].
      cbn [from_option id p_last_cursor p_projection app]. split.
      * rewrite Hl, app_comm_cons, fmap_app. change [(next_cursor db, env)].*1 with [next_cursor db].
        rewrite foldr_max_snoc. simpl. lia.
      * by rewrite Hpr, app_comm_cons, fmap_app, foldl_app.
  - rewrite lookup_insert_ne by congruence. done.
Qed.

Lemma insert_inv acc db now t env p :
  db_inv acc db → scope env = Tenant t → canonical_signal_payload (payload env) = Ok p →
  0 < next_cursor db ≤ i64_max → a_enabled <$> agents_t db !! (t, agent_id env) = Some true →
  0 < cp_byte_len p → find_event db t (agent_id env) (sequence env) = None →
  (∀ r, r ∈ events db → e_tenant r = t → e_event_id r ≠ event_uuid (event_id env)) →
  db_inv (acc ++ [(next_cursor db, env)]) (inserted_db db now t env p).
Proof.
  intros [Hr Hc Hrg Hn Hk Hid Hag Hpr Hcap Hno] Hs Hp Hnx Ha Hb Hf Hi.
  assert (∀ t', projection_row_ok (acc ++ [(next_cursor db, env)]) (inserted_db db now t env p) t')
    as Hproj by (intros t'; apply projection_row_snoc; [done|lia|apply Hpr]).
  split; try exact Hproj; clear Hproj;
    unfold inserted_db, observe_projection, touch_agent, with_notification, with_agents,
      with_projections, with_events, with_cursor; cbn [events next_cursor agents_t notifications].
  - apply Forall2_app; [done|]. constructor; [|constructor]. exists p. done.
  - apply StronglySorted_snoc; [done|]. apply Forall_forall. intros r Hin. apply Hrg in Hin. simpl. lia.
  - intros r [Hin| ->%list_elem_of_singleton]%elem_of_app; simpl; [apply Hrg in Hin|]; lia.
  - lia.
  - apply NoDup_fmap_snoc; [done|]. by apply find_event_None.
  - apply NoDup_fmap_snoc; [done|]. intros (r & Hre & Hin)%list_elem_of_fmap. simplify_eq/=.
    by eapply Hi.
  - intros r [Hin| ->%list_elem_of_singleton]%elem_of_app; simpl; rewrite lookup_alter_is_Some.
    + by apply Hag.
    + by destruct (agents_t db !! (t, agent_id env)).
  - intros t'. specialize (Hcap t'). rewrite zlen_tenant_agents in *. cbn [agents_t]. by rewrite agents_of_alter.
  - rewrite omap_app, Hno. simpl. by rewrite Hs.
Qed.

(** A state that differs only in tenants, audit rows and tickets. *)
Lemma frame_other acc db db' : db_inv acc db → events db' = events db →
  next_cursor db' = next_cursor db → projections db' = projections db →
  notifications db' = notifications db → agents_t db' = agents_t db → frame_eq db db'.
Proof.
  intros Hi He Hn Hp Hno Ha. pose proof (inv_next _ _ Hi).
  split; rewrite ?Hn, ?Ha; try done; [lia|].
  intros t. rewrite zlen_tenant_agents, Ha, <-zlen_tenant_agents. by apply Hi.
Qed.

(** A state in which, besides, one agent row is written within capacity. *)
Lemma frame_agent acc db db' t a r : db_inv acc db → events db' = events db →
  next_cursor db' = next_cursor db → projections db' = projections db →
  notifications db' = notifications db → agents_t db' = <[(t, a) := r]> (agents_t db) →
  (agents_t db !! (t, a) = None → zlen (tenant_agents db t) < MAX_AGENTS_PER_TENANT) →
  frame_eq db db'.
Proof.
  intros Hi He Hn Hp Hno Ha Hcap. pose proof (inv_next _ _ Hi).
  split; rewrite ?Hn, ?Ha; try done; [lia| |].
  - intros k Hk. rewrite lookup_insert_is_Some. destruct (decide ((t, a) = k)); auto.
  - intros t'. rewrite zlen_tenant_agents, Ha, agents_of_insert.
    pose proof (inv_capacity _ _ Hi t') as Hc. rewrite zlen_tenant_agents in *. simpl.
    case_decide as Hd; [|simpl; lia]. destruct Hd as [<- Hd]. specialize (Hcap Hd). simpl. lia.
Qed.

Local Ltac frame_err := intros ? ? ?; repeat case_match; simplify_eq; done.

Lemma upsert_frame acc db now t slug d actor : db_inv acc db →
  frame_eq db (upsert_tenant_as text db now t slug d actor).2.
Proof.
  intros Hi. unfold upsert_tenant_as. destruct (required_actor_id actor); [|by eapply frame_refl].
  eapply frame_transaction; [done| |]; cbv zeta; [|frame_err].
  intros a' db' Hb. repeat case_match; simplify_eq; by eapply frame_other.
Qed.

Lemma validate_agent_capacity_Ok t n b : validate_agent_capacity t n b = Ok () →
  b = true ∨ n < MAX_AGENTS_PER_TENANT.
Proof. unfold validate_agent_capacity. destruct b; simpl; [by left|]. case_test; [done|]. to_prop. by right. Qed.

Lemma enroll_frame acc db now t a d actor : db_inv acc db →
  frame_eq db (enroll_agent_as db now t a d actor).2.
Proof.
  intros Hi. unfold enroll_agent_as. destruct (required_actor_id actor); [|by eapply frame_refl].
  eapply frame_transaction; [done| |]; cbv zeta; [|frame_err].
  intros a' db' Hb.
  destruct (require_enabled_tenant db t) as [[]|]; [|done]. cbn [mbind result_bind] in Hb.
  destruct (validate_agent_capacity _ _ _) as [[]|] eqn:Hv; [|done]. cbn [mbind result_bind] in Hb.
  destruct (agents_check a _) as [[]|]; [|done].
  destruct (agent_record_from_row _ _ _) as [ag|]; [|done]. simplify_eq.
  eapply frame_agent; [done..|]. intros Hnone.
  apply validate_agent_capacity_Ok in Hv as [Hv|Hv]; [|done].
  apply bool_decide_eq_true in Hv as [? Hv]. congruence.
Qed.

Lemma set_enabled_frame acc db now t a b actor : db_inv acc db →
  frame_eq db (set_agent_enabled_as db now t a b actor).2.
Proof.
  intros Hi. unfold set_agent_enabled_as. destruct (required_actor_id actor); [|by eapply frame_refl].
  eapply frame_transaction; [done| |]; cbv zeta; [|frame_err].
  intros a' db' Hb. destruct (require_enabled_tenant db t) as [[]|]; [|done].
  destruct (agents_t db !! (t, a)) as [old|] eqn:Ho; [|simplify_eq; by eapply frame_refl].
  destruct (agent_record_from_row _ _ _) as [ag|]; [|done]. simplify_eq.
  eapply frame_agent; [done..|]. congruence.
Qed.

Lemma create_ticket_frame acc db now k t subj u ttl : db_inv acc db →
  frame_eq db (create_stream_ticket db now k t subj u ttl).2.
Proof.
  intros Hi. unfold create_stream_ticket.
  destruct (subject ← _; _) as [[[? ?] ?]|]; [|by eapply frame_refl].
  eapply frame_transaction; [done| |]; cbv zeta; [|frame_err].
  intros a' db' Hb. repeat case_match; simplify_eq; by eapply frame_other.
Qed.

Lemma consume_ticket_frame acc db now t k : db_inv acc db →
  frame_eq db (consume_stream_ticket db now t k).2.
Proof.
  intros Hi. unfold consume_stream_ticket.
  eapply frame_transaction; [done| |]; cbv zeta; [|frame_err].
  intros a' db' Hb. repeat case_match; simplify_eq; by eapply frame_other.
Qed.

Lemma cleanup_frame acc db now t : db_inv acc db →
  frame_eq db (cleanup_stream_tickets db now t).2.
Proof.
  intros Hi. unfold cleanup_stream_tickets.
  eapply frame_transaction; [done| |]; cbv zeta; [|frame_err].
  intros a' db' Hb. unfold cleanup_stream_tickets_in in Hb.
  destruct (require_enabled_tenant db t); [|done]. simplify_eq. by eapply frame_other.
Qed.

Lemma apply_op_inv acc db op : db_inv acc db → db_inv (acc ++ accepted_by db op) (apply_op db op).
Proof.
  intros Hi. pose proof (inv_next _ _ Hi) as Hn.
  destruct op; cbn [apply_op accepted_by]; rewrite ?app_nil_r.
  - pose proof (append_cases db now env Hn) as Ha.
    destruct (append_envelope db now env) as [[[c ins]|e] db']; cbn [fst snd cursor inserted].
    + destruct Ha as (t & p & Hs & Hp & Hnx & _ & Hag & Ha). cbn [inserted cursor] in Ha.
      destruct ins.
      * destruct Ha as (-> & Hb & Hf & Hid & ->). by apply insert_inv.
      * destruct Ha as (-> & _). rewrite app_nil_r.
        eapply frame_inv; [|done]. eapply frame_cursor; [done|]. lia.
    + destruct Ha as (n & -> & Hn'). rewrite app_nil_r.
      eapply frame_inv; [|done]. by eapply frame_cursor.
  - eapply frame_inv; [by eapply upsert_frame|done].
  - eapply frame_inv; [by eapply enroll_frame|done].
  - eapply frame_inv; [by eapply set_enabled_frame|done].
  - eapply frame_inv; [by eapply create_ticket_frame|done].
  - eapply frame_inv; [by eapply consume_ticket_frame|done].
  - eapply frame_inv; [by eapply cleanup_frame|done].
  - eapply frame_inv; [by eapply frame_other|done].
Qed.

Lemma db_inv_empty : db_inv [] db_empty.
Proof.
  split; cbn [events next_cursor agents_t notifications db_empty]; try done.
  - constructor.
  - intros r []%not_elem_of_nil.
  - constructor.
  - constructor.
  - intros r []%not_elem_of_nil.
Qed.

Lemma run_inv_from ops : ∀ acc db, db_inv acc db →
  db_inv (acc ++ accepted_from db ops) (foldl apply_op db ops).
Proof.
  induction ops as [|op ops IH]; intros acc db Hi; simpl; [by rewrite app_nil_r|].
  rewrite app_assoc. by apply IH, apply_op_inv.
Qed.

Lemma run_inv ops : db_inv (accepted ops) (run ops).
Proof. apply (run_inv_from ops [] db_empty), db_inv_empty. Qed.
End invariant.
