(* ===== verification/PgReplay.v ===== *)
(** * The cloud store: bounded replay

    What LOAD_ENVELOPES_BOUNDED_SQL returns on the states a history of
    operations reaches, and that a consumer that follows the cursors sees every
    event of its tenant exactly once, in order. *)

From stdpp Require Import sorting.
From S2P Require Import Prelude RustStr Otlp Core PgTypes PgStore PgInvariant.

Section replay.
  Context `{JsonApi}.

Definition cursor_lt (r r' : EventRow) : Prop := e_cursor r < e_cursor r'.

(** ** Sorting sorted rows *)

Lemma insert_by_cursor_head r l : Forall (cursor_lt r) l → insert_by_cursor r l = r :: l.
Proof.
  destruct l as [|x l]; [done|]. intros [Hx _]%Forall_cons. unfold cursor_lt in Hx. simpl.
  by rewrite (proj2 (Z.leb_le _ _)) by lia.
Qed.

Lemma order_by_cursor_sorted l : StronglySorted cursor_lt l → order_by_cursor l = l.
Proof.
  induction 1 as [|r l _ IH Hr]; [done|]. unfold order_by_cursor in *. simpl. rewrite IH.
  by apply insert_by_cursor_head.
Qed.

(** The events of a tenant after a cursor, as a plain filter. *)
Definition tenant_rows (db : Db) (t : TenantId) (after : Z) : list EventRow :=
  filter (λ r, e_tenant r = t ∧ after < e_cursor r) (events db).

Lemma rows_after_sorted db t after : StronglySorted cursor_lt (events db) →
  rows_after db t after = tenant_rows db t after ∧
  StronglySorted cursor_lt (tenant_rows db t after).
Proof.
  intros Hs. pose proof (StronglySorted_filter _ (λ r, e_tenant r = t ∧ after < e_cursor r) _ Hs).
  split; [|done]. by apply order_by_cursor_sorted.
Qed.

(** ** The budgeted prefix *)

(** The rows that keep the running total within the budget. *)
Fixpoint within (budget cumulative : Z) (rows : list EventRow) : list EventRow :=
  match rows with
  | [] => []
  | r :: rows =>
    if cumulative + e_payload_bytes r <=? budget
    then r :: within budget (cumulative + e_payload_bytes r) rows else []
  end.

(** The first row, whatever its size, then the rows within the budget. *)
Definition bounded_prefix (budget : Z) (rows : list EventRow) : list EventRow :=
  match rows with
  | [] => []
  | r :: rows => r :: within budget (e_payload_bytes r) rows
  end.

Lemma within_prefix budget c rows : within budget c rows `prefix_of` rows.
Proof.
  revert c. induction rows as [|r rows IH]; intros c; simpl; [done|].
  destruct (_ <=? _); [by apply prefix_cons|apply prefix_nil].
Qed.

Lemma bounded_prefix_prefix budget rows : bounded_prefix budget rows `prefix_of` rows.
Proof. destruct rows; [done|]. apply prefix_cons, within_prefix. Qed.

Lemma within_bytes budget c rows : c ≤ budget →
  c + sumZ (e_payload_bytes <$> within budget c rows) ≤ budget.
Proof.
  revert c. induction rows as [|r rows IH]; intros c Hc; cbn [within]; [rewrite fmap_nil, sumZ_nil; lia|].
  destruct (Z.leb_spec (c + e_payload_bytes r) budget) as [Hle|_]; [|rewrite fmap_nil, sumZ_nil; lia].
  specialize (IH (c + e_payload_bytes r) Hle). rewrite fmap_cons, sumZ_cons. lia.
Qed.

Lemma within_over budget c rows : Forall (λ r, 0 ≤ e_payload_bytes r) rows → budget < c →
  within budget c rows = [].
Proof.
  destruct rows as [|r rows]; [done|]. intros [Hr _]%Forall_cons Hc. simpl.
  by rewrite (proj2 (Z.leb_gt _ _)) by lia.
Qed.

Lemma bounded_prefix_bytes budget rows : Forall (λ r, 0 ≤ e_payload_bytes r) rows →
  let out := bounded_prefix budget rows in
  sumZ (e_payload_bytes <$> out) ≤ budget ∨ (length out ≤ 1)%nat.
Proof.
  destruct rows as [|r rows]; intros Hb; simpl; [by right; lia|].
  apply Forall_cons in Hb as [Hr Hb].
  destruct (Z.leb_spec (e_payload_bytes r) budget) as [Hle|Hgt].
  - left. by apply within_bytes.
  - right. rewrite within_over by done. simpl. lia.
Qed.

(** ** The SQL computes the budgeted prefix *)

Definition cutoff_step (budget : Z) (acc : option Z) (x : Z * Z * Z) : option Z :=
  let '(c, ordinal, cumulative) := x in
  if (ordinal =? 1) || (cumulative <=? budget)
  then Some (match acc with None => c | Some m => Z.max m c end) else acc.

Lemma cutoff_over budget o c rows m : 1 < o → budget < c →
  Forall (λ r, 0 ≤ e_payload_bytes r) rows →
  foldl (cutoff_step budget) m (ranked o c rows) = m.
Proof.
  intros Ho Hc Hr. revert o c Ho Hc. induction Hr as [|r rows Hr _ IH]; intros o c Ho Hc; [done|].
  simpl. rewrite (proj2 (Z.eqb_neq _ _)), (proj2 (Z.leb_gt _ _)) by lia. simpl. apply IH; lia.
Qed.

(** The cursor of the last row of a list, or a default. *)
Definition last_cursor (d : Z) (rows : list EventRow) : Z :=
  match last rows with Some r => e_cursor r | None => d end.

Lemma last_cursor_cons d r rows : last_cursor d (r :: rows) = last_cursor (e_cursor r) rows.
Proof. unfold last_cursor. rewrite last_cons. by destruct (last rows). Qed.

Lemma cutoff_within budget o c rows m : 1 < o →
  Forall (λ r, 0 ≤ e_payload_bytes r) rows → StronglySorted cursor_lt rows →
  Forall (λ r, m < e_cursor r) rows →
  foldl (cutoff_step budget) (Some m) (ranked o c rows)
  = Some (last_cursor m (within budget c rows)).
Proof.
  intros Ho Hr Hs. revert o c m Ho. induction Hs as [|r rows _ IH Hlt]; intros o c m Ho Hm; [done|].
  apply Forall_cons in Hr as [Hr Hrs], Hm as [Hm _]. simpl.
  rewrite (proj2 (Z.eqb_neq _ _)) by lia. simpl.
  destruct (Z.leb_spec (c + e_payload_bytes r) budget) as [Hle|Hgt].
  - rewrite Z.max_r by lia. rewrite last_cursor_cons. apply IH; [done|lia|].
    eapply Forall_impl; [exact Hlt|]. intros x Hx. exact Hx.
  - rewrite cutoff_over by (done || lia). done.
Qed.

Lemma cutoff_prefix budget rows : Forall (λ r, 0 ≤ e_payload_bytes r) rows →
  StronglySorted cursor_lt rows →
  cutoff budget (ranked 1 0 rows) =
  match rows with [] => None | r :: _ => Some (last_cursor 0 (bounded_prefix budget rows)) end.
Proof.
  intros Hr Hs. unfold cutoff. change (foldl _) with (foldl (cutoff_step budget)).
  destruct Hs as [|r rows Hs Hlt]; [done|]. apply Forall_cons in Hr as [Hr Hrs].
  cbn [ranked foldl cutoff_step]. rewrite Z.eqb_refl. cbn [orb]. rewrite cutoff_within; [|lia|done..].
  cbn [bounded_prefix]. by rewrite last_cursor_cons, Z.add_0_l.
Qed.

Lemma filter_upto_last pre rest : StronglySorted cursor_lt (pre ++ rest) → pre ≠ [] →
  filter (λ r, e_cursor r ≤ last_cursor 0 pre) (pre ++ rest) = pre.
Proof.
  intros Hs Hne. destruct pre as [|x pre _] using rev_ind; [done|]. clear Hne.
  unfold last_cursor. rewrite last_snoc.
  rewrite <-app_assoc in Hs. simpl in Hs. rewrite filter_app.
  assert (Forall (λ r, e_cursor r < e_cursor x) pre ∧ Forall (λ r, e_cursor x < e_cursor r) rest)
    as [Hpre Hrest].
  { clear -Hs. induction pre as [|y pre IH]; simpl in Hs.
    - inv Hs. split; [constructor|done].
    - inv Hs. destruct IH as [? ?]; [done|]. split; [|done]. constructor; [|done].
      rewrite Forall_app, Forall_cons in *. naive_solver. }
  rewrite (filter_none _ rest), app_nil_r.
  - apply filter_all. intros r [Hr| ->%list_elem_of_singleton]%elem_of_app; [|lia].
    eapply Forall_forall in Hpre; [|done]. lia.
  - intros r Hr. eapply Forall_forall in Hrest; [|done]. lia.
Qed.

Lemma load_bounded_prefix db t after limit budget : StronglySorted cursor_lt (events db) →
  Forall (λ r, 0 ≤ e_payload_bytes r) (events db) → 0 ≤ limit →
  load_bounded_sql db t after limit budget
  = bounded_prefix budget (take (Z.to_nat limit) (tenant_rows db t after)).
Proof.
  intros Hs Hb Hl. unfold load_bounded_sql.
  destruct (rows_after_sorted db t after Hs) as [-> Hrs].
  set (rows := tenant_rows db t after) in *. set (cands := take (Z.to_nat limit) rows).
  assert (Forall (λ r, 0 ≤ e_payload_bytes r) rows) as Hrb.
  { apply Forall_forall. intros r [_ Hr]%list_elem_of_filter. by eapply Forall_forall in Hb. }
  assert (StronglySorted cursor_lt (cands ++ drop (Z.to_nat limit) rows)) as Hcs
    by (unfold cands; by rewrite take_drop).
  rewrite cutoff_prefix.
  - destruct cands as [|r cs] eqn:Hc; [done|]. rewrite <-Hc in *.
    destruct (bounded_prefix_prefix budget cands) as [rest Hpre].
    replace rows with (bounded_prefix budget cands ++ rest ++ drop (Z.to_nat limit) rows)
      by (rewrite app_assoc, <-Hpre; apply take_drop).
    apply filter_upto_last; [by rewrite app_assoc, <-Hpre|]. by rewrite Hc.
  - by apply Forall_take.
  - by eapply StronglySorted_app_1_l.
Qed.

(** ** Records of accepted envelopes *)

(** An envelope that comes back from the store as it went in: a canonical agent
    id, [u64] integers, and a payload that survives the JSONB column. *)
Definition stores_faithfully (env : SignalEnvelope) : Prop :=
  valid_str (agent_str (agent_id env)) ∧ agent_id_ok (agent_id env) ∧ envelope_wf env ∧
  ∀ p, canonical_signal_payload (payload env) = Ok p →
       signal_of_value (jsonb (cp_value p)) = Ok (payload env).

Definition record_of (ce : Z * SignalEnvelope) : SignalRecord := mkSignalRecord ce.1 ce.2.

(** The accepted envelopes of a tenant after a cursor. *)
Definition accepted_after (t : TenantId) (after : Z) (acc : list (Z * SignalEnvelope)) :=
  filter (λ ce, scope ce.2 = Tenant t ∧ after < ce.1) acc.

Definition envelope_bytes (env : SignalEnvelope) : Z :=
  match canonical_signal_payload (payload env) with Ok p => cp_byte_len p | Err _ => 0 end.

Lemma record_of_row t ce r : row_of ce r → e_tenant r = t → 0 ≤ ce.1 →
  stores_faithfully ce.2 → signal_record_from_row t r = Ok (record_of ce).
Proof.
  destruct ce as [c env]. intros (p & Hs & Hp & Hc & Hi & Ha & Hq & Hr & Hk & Hv & _) Ht Hpos
    (Hva & Hok & [Hwq Hwr] & Hdec). cbn [fst snd] in *.
  unfold signal_record_from_row, cursor_from_row, from_pg_i64, from_pg_u64_text.
  rewrite Hc, Ha, Hq, Hr, Hv, Hi. rewrite (proj2 (Z.leb_le 0 c)) by done. cbn [mbind result_bind].
  rewrite (proj2 (agent_id_new_Ok (agent_str (agent_id env)) (agent_id env) Hva)).
  2:{ split; [|done]. destruct Hok as (_ & _ & _ & Htr). rewrite Htr. by destruct (agent_id env). }
  cbn [map_err mbind result_bind]. rewrite !parse_u64_to_string by done.
  cbn [ok_or mbind result_bind]. rewrite (Hdec p Hp). cbn [map_err mbind result_bind].
  unfold record_of. subst t. rewrite <-Hs. by destruct env as [[]].
Qed.

Lemma tenant_rows_accepted acc db t after : Forall2 row_of acc (events db) →
  Forall2 row_of (accepted_after t after acc) (tenant_rows db t after).
Proof.
  unfold tenant_rows, accepted_after. induction 1 as [|[c env] r acc rows Hr _ IH]; [constructor|].
  rewrite !filter_cons. pose proof Hr as (p & Hs & _ & Hc & _). cbn [fst snd].
  destruct (decide (scope env = Tenant t ∧ after < c)) as [Hd|Hd];
    destruct (decide (e_tenant r = t ∧ after < e_cursor r)) as [Hd'|Hd'];
    try (rewrite Hs, <-Hc in Hd; exfalso; naive_solver); [by constructor|done].
Qed.

Lemma accepted_cursors acc db : db_inv acc db → Forall (λ ce, 0 < ce.1) acc.
Proof.
  intros Hi. pose proof (inv_rows _ _ Hi) as Hr. pose proof (inv_range _ _ Hi) as Hg.
  clear Hi. generalize dependent (events db). intros evs Hr Hg. induction Hr as [|[c env] r acc rows (p & _ & _ & Hc & _) _ IH]; [constructor|].
  constructor; [|apply IH; intros r' Hr'; apply Hg; by right].
  destruct (Hg r) as [? _]; [by left|]. simpl. lia.
Qed.

Lemma try_map_records t ces rows : Forall2 row_of ces rows →
  Forall (λ r, e_tenant r = t) rows → Forall (λ ce, 0 < ce.1 ∧ stores_faithfully ce.2) ces →
  try_map (signal_record_from_row t) rows = Ok (record_of <$> ces).
Proof.
  induction 1 as [|ce r ces rows Hr _ IH]; intros Ht Hc; [done|].
  apply Forall_cons in Ht as [Ht Hts], Hc as [[Hpos Hf] Hcs]. cbn [try_map].
  rewrite (record_of_row t ce r) by (done || lia). cbn [mbind result_bind].
  by rewrite IH.
Qed.

Lemma row_bytes ces rows : Forall2 row_of ces rows →
  e_payload_bytes <$> rows = (λ ce, envelope_bytes ce.2) <$> ces ∧
  Forall (λ r, 0 < e_payload_bytes r) rows.
Proof.
  induction 1 as [|[c env] r ces rows (p & _ & Hp & _ & _ & _ & _ & _ & _ & _ & Hb & Hpos) _ [IH1 IH2]];
    [done|]. split; [|constructor; [by rewrite Hb|done]].
  rewrite !fmap_cons, IH1, Hb. unfold envelope_bytes. cbn [snd]. by rewrite Hp.
Qed.

Lemma load_page acc db t after limit budget : db_inv acc db →
  Forall (λ ce, stores_faithfully ce.2) (accepted_after t after acc) → require_enabled_tenant db t = Ok () →
  after ≤ i64_max → 0 ≤ limit →
  let lim := Z.min limit MAX_LOAD_LIMIT in
  let bud := Z.min budget MAX_REPLAY_JSON_BYTES in
  ∃ page rest, accepted_after t after acc = page ++ rest ∧
    load_envelopes_after_bounded db (Tenant t) after limit budget = Ok (record_of <$> page) ∧
    zlen page ≤ lim ∧
    (sumZ ((λ ce, envelope_bytes ce.2) <$> page) ≤ bud ∨ (length page ≤ 1)%nat) ∧
    (0 < limit → page = [] → rest = []).
Proof.
  intros Hi Hf Ht Ha Hl lim bud. unfold load_envelopes_after_bounded, tenant_scope, to_pg_i64.
  cbn [mbind result_bind]. rewrite (proj2 (Z.leb_le _ _)) by done. cbn [mbind result_bind].
  rewrite Ht. cbn [mbind result_bind]. unfold bounded_load_limit, bounded_replay_json_bytes.
  fold lim bud.
  pose proof (inv_rows _ _ Hi) as Hrows. destruct (row_bytes _ _ Hrows) as [_ Hpos].
  assert (Forall (λ r, 0 ≤ e_payload_bytes r) (events db)) as Hnn
    by (eapply Forall_impl; [exact Hpos|]; intros r Hr; simpl in *; lia).
  rewrite load_bounded_prefix; [|apply Hi|done|unfold lim, MAX_LOAD_LIMIT; lia].
  pose proof (tenant_rows_accepted acc db t after Hrows) as Hacc.
  set (out := bounded_prefix bud _).
  assert (out `prefix_of` tenant_rows db t after) as [more Hmore].
  { etrans; [apply bounded_prefix_prefix|]. apply prefix_take. }
  rewrite Hmore in Hacc. apply Forall2_app_inv_r in Hacc as (page & rest & Hpage & Hrest & Heq).
  exists page, rest. split; [done|].
  assert (Forall (λ r, e_tenant r = t) out) as Hout.
  { apply Forall_forall. intros r Hr.
    assert (r ∈ tenant_rows db t after) as [[? _] _]%list_elem_of_filter; [|done].
    rewrite Hmore. apply elem_of_app. by left. }
  assert (Forall (λ ce, 0 < ce.1 ∧ stores_faithfully ce.2) page) as Hpf.
  { apply Forall_forall. intros ce Hce.
    assert (ce ∈ accepted_after t after acc) as Haf by (rewrite Heq; apply elem_of_app; by left).
    pose proof Haf as [_ Hin]%list_elem_of_filter.
    split; [by eapply Forall_forall in Hin; [|by eapply accepted_cursors]|].
    by eapply Forall_forall in Hf. }
  split; [by apply try_map_records|].
  pose proof (Forall2_length _ _ _ Hpage) as Hlen.
  split_and!.
  - unfold zlen. rewrite Hlen.
    pose proof (prefix_length _ _ (bounded_prefix_prefix bud (take (Z.to_nat lim) (tenant_rows db t after)))) as Hpl.
    fold out in Hpl. rewrite length_take in Hpl. unfold lim, MAX_LOAD_LIMIT in *. lia.
  - destruct (row_bytes _ _ Hpage) as [<- _]. rewrite Hlen. apply bounded_prefix_bytes.
    apply Forall_take. apply Forall_forall. intros r [_ Hr]%list_elem_of_filter.
    eapply Forall_forall in Hpos; [|done]. simpl in Hpos. lia.
  - intros Hlim ->. apply Forall2_nil_inv_l in Hpage.
    assert (tenant_rows db t after = []) as Hz.
    { destruct (tenant_rows db t after) as [|r rs]; [done|]. exfalso. unfold out in Hpage.
      destruct (Z.to_nat lim) as [|n] eqn:En; [unfold lim, MAX_LOAD_LIMIT in En; lia|]. done. }
    rewrite Hz, Hpage in Hmore. simpl in Hmore. subst more. by apply Forall2_nil_inv_r in Hrest.
Qed.

(** ** Following the cursors *)

Definition entry_lt (a b : Z * SignalEnvelope) : Prop := a.1 < b.1.

Lemma accepted_sorted acc db : db_inv acc db → StronglySorted entry_lt acc.
Proof.
  intros Hi. pose proof (inv_rows _ _ Hi) as Hr. pose proof (inv_cursors _ _ Hi) as Hs.
  clear Hi. generalize dependent (events db). intros evs Hr Hs.
  induction Hr as [|[c env] r acc rows (p & _ & _ & Hc & _) Hrs IH]; [constructor|].
  inv Hs. constructor; [by apply IH|]. clear IH.
  generalize dependent rows. intros rows Hrs Hs Hlt.
  induction Hrs as [|[c' env'] r' acc rows (p' & _ & _ & Hc' & _) _ IH]; [constructor|].
  inv Hs. apply Forall_cons in Hlt as [? ?]. constructor; [|by apply IH].
  done.
Qed.

Lemma accepted_after_last t after acc page rest ce : StronglySorted entry_lt acc →
  accepted_after t after acc = page ++ rest → last page = Some ce →
  accepted_after t ce.1 acc = rest.
Proof.
  intros Hs Heq Hl. destruct page as [|x page _] using rev_ind; [done|].
  rewrite last_snoc in Hl. simplify_eq. rewrite <-app_assoc in Heq. simpl in Heq.
  assert (accepted_after t ce.1 acc = filter (λ x, ce.1 < x.1) (accepted_after t after acc)) as ->.
  { unfold accepted_after. rewrite list_filter_filter. apply list_filter_iff. intros x.
    assert (ce ∈ accepted_after t after acc) as [[_ Hce] _]%list_elem_of_filter
      by (rewrite Heq; apply elem_of_app; right; by left).
    split; [intros [? ?]|intros [? [? ?]]]; split; (done || lia || split; (done || lia)). }
  assert (StronglySorted entry_lt (page ++ ce :: rest)) as Hps
    by (rewrite <-Heq; by apply StronglySorted_filter).
  rewrite Heq, filter_app, filter_cons_False by lia.
  rewrite filter_none.
  - simpl. apply filter_all. intros x Hx.
    apply StronglySorted_app_1_r in Hps. inv Hps. by eapply Forall_forall in Hx; [|done].
  - intros x Hx. pose proof (StronglySorted_app_1_elem_of _ _ _ x ce Hps Hx ltac:(by left)) as Hlt.
    unfold entry_lt in Hlt. lia.
Qed.

(** A consumer that loads a page, advances to its last cursor and stops at an
    empty page; [None] is fuel exhaustion. *)
Fixpoint follow (fuel : nat) (db : Db) (sc : SignalScope) (after limit budget : Z)
  : option (result PgStoreError (list SignalRecord)) :=
  match fuel with
  | O => None
  | S fuel =>
    match load_envelopes_after_bounded db sc after limit budget with
    | Err e => Some (Err e)
    | Ok page =>
      match last page with
      | None => Some (Ok [])
      | Some r =>
        match follow fuel db sc (rec_cursor r) limit budget with
        | Some (Ok more) => Some (Ok (page ++ more))
        | other => other
        end
      end
    end
  end.

Lemma accepted_cursor_max acc db ce : db_inv acc db → ce ∈ acc → ce.1 ≤ i64_max.
Proof.
  intros Hi Hin. pose proof (inv_next _ _ Hi).
  pose proof (inv_rows _ _ Hi) as Hr. pose proof (inv_range _ _ Hi) as Hg.
  apply list_elem_of_lookup in Hin as [i Hin].
  eapply Forall2_lookup_l in Hr as (r & Hlr & Hrow); [|done]. destruct ce as [c env].
  destruct Hrow as (p & _ & _ & Hc & _). apply list_elem_of_lookup_2 in Hlr.
  specialize (Hg r Hlr). simpl. lia.
Qed.

Lemma follow_all acc db t limit budget : db_inv acc db →
  require_enabled_tenant db t = Ok () → 0 < limit →
  ∀ fuel after, Forall (λ ce, stores_faithfully ce.2) (accepted_after t after acc) →
  after ≤ i64_max → (length (accepted_after t after acc) < fuel)%nat →
  follow fuel db (Tenant t) after limit budget
  = Some (Ok (record_of <$> accepted_after t after acc)).
Proof.
  intros Hi Ht Hl fuel. induction fuel as [|fuel IH]; intros after Hf Ha Hfuel; [lia|].
  destruct (load_page acc db t after limit budget) as (page & rest & Heq & Hload & _ & _ & Hprog);
    [done..|lia|].
  cbn [follow]. rewrite Hload, fmap_last.
  destruct (last page) as [ce|] eqn:Hlast; simpl.
  - pose proof (accepted_after_last t after acc page rest ce (accepted_sorted _ _ Hi) Heq Hlast) as Hrest.
    assert (ce ∈ page) as Hin by (by apply last_Some_elem_of).
    assert (ce ∈ acc) as Hacc.
    { assert (ce ∈ accepted_after t after acc) as [_ ?]%list_elem_of_filter;
        [rewrite Heq; apply elem_of_app; by left|done]. }
    rewrite Heq, Forall_app in Hf.
    rewrite IH; [by rewrite Hrest, Heq, fmap_app|by rewrite Hrest; apply Hf
                |by eapply accepted_cursor_max|].
    rewrite Hrest. rewrite Heq, length_app in Hfuel. destruct page; [by apply not_elem_of_nil in Hin|].
    simpl in Hfuel. lia.
  - apply last_None in Hlast as ->. by rewrite Heq, (Hprog Hl eq_refl).
Qed.
End replay.
