(* ===== verification/PgTheorems.v ===== *)
(** * The cloud store: what its callers can rely on

    The theorems about [append_envelope], the replay, the projection, the
    agents, the audit trail and the stream tickets, over every history of
    operations. *)

From stdpp Require Import sorting.
From S2P Require Import Prelude RustStr Otlp Core PgTypes PgStore PgInvariant PgReplay.

Section theorems.
  Context `{JsonApi} (text : TenantId → string).

(** ** Appending *)

(** C1: over any history, the table of events is exactly the sequence of
    accepted envelopes: each is stored with its own data under a cursor larger
    than all earlier ones, each (tenant, agent, sequence) and each (tenant,
    event) occurs once, every event belongs to an enrolled agent, and one
    notification was sent per event. *)
Theorem append_exactly_once ops :
  let acc := accepted text ops in
  let db := run text ops in
  Forall2 row_of acc (events db) ∧ StronglySorted entry_lt acc ∧
  NoDup (event_key <$> events db) ∧ NoDup ((λ r, (e_tenant r, e_event_id r)) <$> events db) ∧
  (∀ r, r ∈ events db → is_Some (agents_t db !! (e_tenant r, e_agent r))) ∧
  notifications db = omap (λ ce, (λ t, (t, ce.1)) <$> scope_tenant_id (scope ce.2)) acc.
Proof.
  intros acc db. pose proof (run_inv text ops) as Hi. fold acc db in Hi.
  pose proof (accepted_sorted _ _ Hi). destruct Hi. done.
Qed.

Lemma find_accepted acc db t c env : db_inv acc db → (c, env) ∈ acc → scope env = Tenant t →
  ∃ r, find_event db t (agent_id env) (sequence env) = Some r ∧ row_of (c, env) r.
Proof.
  intros Hi (i & Hin)%list_elem_of_lookup Hs.
  destruct (Forall2_lookup_l _ _ _ _ _ (inv_rows _ _ Hi) Hin) as (r & Hr & Hrow).
  pose proof Hrow as (p & Hs' & _ & _ & _ & Ha & Hq & _).
  apply list_elem_of_lookup_2 in Hr. rewrite Hs in Hs'. simplify_eq.
  destruct (find_event db (e_tenant r) (agent_id env) (sequence env)) as [r'|] eqn:Hf.
  - exists r'. split; [done|]. apply find_event_Some in Hf as (Hr' & Ht' & Ha' & Hq').
    assert (r = r') as <-; [|done].
    eapply (NoDup_fmap_inj event_key); [apply (inv_keys _ _ Hi)|done|done|].
    unfold event_key. congruence.
  - exfalso. apply find_event_None in Hf. apply Hf. apply list_elem_of_fmap. exists r.
    unfold event_key. by rewrite Ha, Hq.
Qed.

(** The preconditions of an append that reach the insertion. *)
Definition append_ready (db : Db) (t : TenantId) (env : SignalEnvelope) (p : CanonicalSignalPayload)
  : Prop :=
  scope env = Tenant t ∧ canonical_signal_payload (payload env) = Ok p ∧
  require_enabled_tenant db t = Ok () ∧
  a_enabled <$> agents_t db !! (t, agent_id env) = Some true ∧
  next_cursor db ≤ i64_max ∧ json_is_object (cp_value p) = true ∧ 0 < cp_byte_len p.

(** C2: repeating an append that was accepted, at any later time and with any
    event id and reception time, returns the original cursor with [inserted]
    false and changes no table exactly when the kind is the same and the value
    PostgreSQL gives back for the stored payload equals the new payload's
    value; any other reuse of the sequence is a [SequenceConflict] that
    changes no table either. *)
Theorem append_retry ops now t c env0 p0 env p :
  let db := run text ops in
  (c, env0) ∈ accepted text ops → append_ready db t env p →
  scope env0 = Tenant t → agent_id env0 = agent_id env → sequence env0 = sequence env →
  canonical_signal_payload (payload env0) = Ok p0 →
  append_envelope db now env =
    (if bool_decide (signal_kind_name env0 = signal_kind_name env) &&
        bool_decide (jsonb (cp_value p0) = cp_value p)
     then Ok (mkAppendOutcome c false)
     else Err (SequenceConflict (agent_id env) (sequence env)),
     with_cursor db (next_cursor db + 1)).
Proof.
  intros db Hin (Hs & Hp & Ht & Ha & Hn & Hobj & Hlen) Hs0 Hag Hsq Hp0.
  pose proof (run_inv text ops) as Hi. fold db in Hi.
  destruct (find_accepted _ _ t c env0 Hi Hin Hs0) as (r & Hf & (p0' & _ & Hp0' & Hc & _ & _ & _ & _ & Hk & Hv & _)).
  rewrite Hag, Hsq in Hf. rewrite Hp0 in Hp0'. simplify_eq.
  assert (0 ≤ e_cursor r) as Hpos.
  { apply find_event_Some in Hf as (Hr & _). pose proof (inv_range _ _ Hi r Hr). lia. }
  unfold append_envelope, tenant_scope. rewrite Hs, Hp. unfold transaction. rewrite Ht.
  unfold append_locked. rewrite Ha. unfold insert_event.
  rewrite (proj2 (Z.ltb_ge _ _)) by lia. rewrite Hobj. cbn [negb].
  rewrite (proj2 (Z.leb_gt _ _)) by lia.
  change (find_event (with_cursor db (next_cursor db + 1))) with (find_event db). rewrite Hf.
  change (find_event (with_cursor db (next_cursor db + 1))) with (find_event db). rewrite Hf.
  rewrite Hk, Hv.
  destruct (bool_decide (signal_kind_name env0 = _)); cbn [negb orb andb]; [|done].
  destruct (bool_decide (jsonb _ = _)); cbn [negb orb andb]; [|done].
  unfold cursor_from_row, from_pg_i64. by rewrite (proj2 (Z.leb_le 0 _)).
Qed.

Lemma accepted_from_snoc ops op : ∀ db, accepted_from text db (ops ++ [op]) =
  accepted_from text db ops ++ accepted_by (foldl (apply_op text) db ops) op.
Proof.
  induction ops as [|o ops IH]; intros db; simpl; [by rewrite app_nil_r|]. by rewrite IH, app_assoc.
Qed.

Lemma accepted_after_new acc c env t db : db_inv (acc ++ [(c, env)]) db → scope env = Tenant t →
  accepted_after t (c - 1) (acc ++ [(c, env)]) = [(c, env)].
Proof.
  intros Hi Hs. unfold accepted_after. rewrite filter_app, filter_cons_True by (simpl; split; [done|lia]).
  rewrite filter_none; [done|]. intros ce Hce [_ Hlt].
  pose proof (StronglySorted_app_1_elem_of _ _ _ ce (c, env) (accepted_sorted _ _ Hi) Hce ltac:(by left))
    as Hx. unfold entry_lt in Hx. simpl in *. lia.
Qed.

(** An accepted envelope is read back as it was sent: the first event after
    the cursor before its own is the record of that very envelope. *)
Theorem append_then_load ops now t c env db' limit budget :
  append_envelope (run text ops) now env = (Ok (mkAppendOutcome c true), db') →
  scope env = Tenant t → stores_faithfully env → 0 < limit →
  load_envelopes_after_bounded db' (Tenant t) (c - 1) limit budget
  = Ok [mkSignalRecord c env].
Proof.
  intros Happ Hs Hf Hl.
  pose proof (run_inv text (ops ++ [OpAppend now env])) as Hi.
  unfold accepted, run in Hi. rewrite accepted_from_snoc, foldl_app in Hi.
  fold (run text ops) in Hi. fold (accepted text ops) in Hi.
  cbn [foldl apply_op accepted_by] in Hi. rewrite Happ in Hi. cbn [fst snd inserted cursor] in Hi.
  pose proof (append_cases (run text ops) now env) as Hc. rewrite Happ in Hc.
  destruct Hc as (t' & p & Hs' & _ & Hnx & Hten & _ & Hins & _ & _ & _ & Hdb);
    [apply (inv_next _ _ (run_inv text ops))|].
  rewrite Hs in Hs'. simplify_eq. cbn [cursor] in Hins. subst c.
  pose proof (accepted_after_new _ _ _ _ _ Hi Hs) as Hnew.
  assert (Forall (λ ce, stores_faithfully ce.2) (accepted_after t' (next_cursor (run text ops) - 1)
    (accepted text ops ++ [(next_cursor (run text ops), env)]))) as Hfa
    by (rewrite Hnew; by apply Forall_singleton).
  destruct (load_page _ _ t' (next_cursor (run text ops) - 1) limit budget Hi Hfa)
    as (page & rest & Heq & Hload & _ & _ & Hprog); [done|lia|lia|].
  rewrite Hload. rewrite Hnew in Heq. destruct page as [|ce page].
  - rewrite (Hprog Hl eq_refl) in Heq. done.
  - simpl in Heq. injection Heq as <- Hnil. symmetry in Hnil. by apply app_nil in Hnil as [-> ->].
Qed.

(** ** Replay *)

(** A page of a replay is a prefix of the tenant's events after the cursor,
    in order: at most the requested number and at most 1,000 of them, within
    the requested bytes and 64 MiB unless it is a single event, and never empty
    while there is something to read. *)
Theorem replay_page ops t after limit budget :
  let db := run text ops in
  let own := accepted_after t after (accepted text ops) in
  Forall (λ ce, stores_faithfully ce.2) own → require_enabled_tenant db t = Ok () →
  after ≤ i64_max → 0 ≤ limit →
  ∃ page rest, own = page ++ rest ∧
    load_envelopes_after_bounded db (Tenant t) after limit budget = Ok (record_of <$> page) ∧
    zlen page ≤ Z.min limit 1000 ∧
    (sumZ ((λ ce, envelope_bytes ce.2) <$> page) ≤ Z.min budget (64 * 1024 * 1024) ∨
     (length page ≤ 1)%nat) ∧
    (0 < limit → page = [] → rest = []).
Proof. intros db own Hf Ht Ha Hl. apply (load_page (accepted text ops) db); [apply run_inv|done..]. Qed.

(** C11: a consumer that loads pages of any positive size and any byte budget
    and follows the cursors terminates having seen every event of its tenant
    after its starting cursor exactly once, in cursor order. *)
Theorem replay_follows_all ops t after limit budget fuel :
  let db := run text ops in
  let own := accepted_after t after (accepted text ops) in
  Forall (λ ce, stores_faithfully ce.2) own → require_enabled_tenant db t = Ok () →
  after ≤ i64_max → 0 < limit → (length own < fuel)%nat →
  follow fuel db (Tenant t) after limit budget = Some (Ok (record_of <$> own)).
Proof. intros db own Hf Ht Ha Hl Hfuel. apply follow_all; [apply run_inv|done..]. Qed.

(** ** The projection *)

(** C12: whatever the history, the projection served for a tenant is the one its
    accepted envelopes add up to, at the cursor of the last of them; a tenant
    without events has none. *)
Theorem projection_matches_events ops t :
  let db := run text ops in
  let own := of_tenant t (accepted text ops) in
  require_enabled_tenant db t = Ok () →
  load_projection db t = Ok
    match own with
    | [] => None
    | _ => Some {| pr_tenant_id := t; pr_last_cursor := foldr Z.max 0 own.*1;
                   pr_projection := foldl projection_observe projection_default own.*2 |}
    end.
Proof.
  intros db own Ht. unfold load_projection. rewrite Ht. cbn [mbind result_bind].
  pose proof (inv_projection _ _ (run_inv text ops) t) as Hp.
  unfold projection_row_ok in Hp. fold own db in Hp. destruct own as [|ce own'] eqn:Ho.
  - by rewrite Hp.
  - destruct Hp as (row & -> & Hl & Hpr). unfold from_pg_i64.
    rewrite (proj2 (Z.leb_le 0 _)); [by rewrite <-Hl, <-Hpr|].
    rewrite Hl. clear. induction (ce :: own').*1; simpl; lia.
Qed.

(** C13: a tenant never has more than 1,000 agents, whatever the history; when
    it is full a new agent is refused with [AgentLimitReached] and no change,
    while enrolling an agent it already has passes the capacity check. *)
Theorem agent_capacity ops t :
  let db := run text ops in
  zlen (tenant_agents db t) ≤ 1000 ∧
  (zlen (tenant_agents db t) = 1000 → require_enabled_tenant db t = Ok () →
   ∀ now a d actor, trim actor ≠ "" → agents_t db !! (t, a) = None →
     enroll_agent_as db now t a d actor = (Err (AgentLimitReached t 1000), db)).
Proof.
  intros db. split; [apply (inv_capacity _ _ (run_inv text ops))|].
  intros Hfull Ht now a d actor Hact Hnone. unfold enroll_agent_as, required_actor_id, is_empty.
  rewrite bool_decide_eq_false_2 by done. unfold transaction. rewrite Ht. cbn [mbind result_bind].
  rewrite Hnone, bool_decide_eq_false_2 by (intros [??]; done).
  unfold validate_agent_capacity, MAX_AGENTS_PER_TENANT. rewrite Hfull. cbn.
  by rewrite with_cursor_same.
Qed.
End theorems.
