(* ===== verification/PgTenancy.v ===== *)
(** * The cloud store: tickets, tenant isolation, administration

    A ticket is exchanged once and in time; an operation for one tenant changes
    nothing another one can see; and a contract for each administrative
    operation, from which the audit trail follows.  Api.v uses the contracts
    for what its requests do. *)

From stdpp Require Import sorting.
From S2P Require Import Prelude RustStr Otlp Core PgTypes PgStore PgInvariant.

Section tenancy.
  Context `{JsonApi} (text : TenantId → string).

(** ** Stream tickets *)

(** A ticket is exchanged for the subject and the authorisation expiry it
    was created with, only by its own tenant, and only before the earlier of
    its time to live and that expiry. *)
Theorem stream_ticket_grant db now k t subject u ttl db' now' t' :
  0 ≤ u → create_stream_ticket db now k t subject u ttl = (Ok k, db') →
  require_enabled_tenant db' t' = Ok () →
  (consume_stream_ticket db' now' t' k).1 =
  Ok (if bool_decide (t' = t) && (now' <? Z.min (now + ttl `div` 1000000 * 1000000) (secs_to_ns u))
      then Some {| grant_subject := trim subject; authorized_until_unix := u |} else None).
Proof.
  intros Hu Hc Ht'. unfold create_stream_ticket in Hc.
  unfold required_stream_ticket_subject, stream_ticket_authorization_unix, stream_ticket_ttl_millis in Hc.
  destruct (is_empty (trim subject) || _); [done|]. cbn [mbind result_bind] in Hc.
  destruct (MAX_STREAM_TICKET_AUTHORIZATION_UNIX <? u); [done|]. cbn [mbind result_bind] in Hc.
  destruct (i64_max <? u); [done|]. cbn [mbind result_bind] in Hc.
  destruct ((ttl =? 0) || _); [done|]. cbn [mbind result_bind] in Hc.
  destruct (ttl `div` 1000000 =? 0); [done|]. destruct (i64_max <? ttl `div` 1000000); [done|].
  cbn [mbind result_bind] in Hc. unfold transaction in Hc.
  destruct (require_enabled_tenant db t) as [[]|]; [|done].
  destruct (secs_to_ns u <=? now); [done|]. destruct (bool_decide (is_Some _)); [done|].
  injection Hc as <-. unfold consume_stream_ticket, transaction. rewrite Ht'.
  cbn [tickets with_tickets]. rewrite lookup_insert_eq. cbn [k_tenant].
  unfold ticket_dead. cbn [k_consumed_at k_expires_at k_authorized_until k_subject].
  rewrite (bool_decide_eq_false_2 (is_Some None)) by (intros []; done). cbn [orb].
  rewrite <-Z.ltb_antisym.
  destruct (decide (t' = t)) as [->|Hne].
  - rewrite !bool_decide_eq_true_2 by done. cbn [andb]. case_test; [|done].
    unfold from_pg_i64, secs_to_ns. rewrite Z.div_mul by done.
    by rewrite (proj2 (Z.leb_le 0 u)).
  - rewrite !bool_decide_eq_false_2 by (done || by intros ->). done.
Qed.

(** A ticket that can no longer be exchanged: absent or consumed. *)
Definition spent_in (k : Z) (m : gmap Z TicketRow) : Prop :=
  ∀ row, m !! k = Some row → is_Some (k_consumed_at row).
Definition ticket_spent (db : Db) (k : Z) : Prop := spent_in k (tickets db).

Definition creates (k : Z) (op : StoreOp) : Prop :=
  match op with OpCreateTicket _ k' _ _ _ _ => k' = k | _ => False end.

(** A transaction body that changes tickets keeps a property the committed
    and the rolled-back state both have. *)
Lemma transaction_tickets {A} db (body : Db → result PgStoreError A * Db) (P : gmap Z TicketRow → Prop) :
  P (tickets db) → (∀ a db', body db = (Ok a, db') → P (tickets db')) →
  P (tickets (transaction db body).2).
Proof. intros H0 H1. unfold transaction. destruct (body db) as [[a|e] db'] eqn:Hb; [by eapply H1|done]. Qed.

Lemma ticket_spent_tickets db db' k : tickets db' = tickets db → ticket_spent db k → ticket_spent db' k.
Proof. intros Ht Hs row. rewrite Ht. apply Hs. Qed.

Lemma append_tickets db now env : tickets (append_envelope db now env).2 = tickets db.
Proof.
  unfold append_envelope. case_match; [|done]. case_match; [|done].
  apply (transaction_tickets _ _ (λ m, m = tickets db)); [done|].
  intros o db' Hb. unfold append_locked, insert_event in Hb.
  repeat (case_match; simplify_eq/=; try done).
Qed.

Lemma cleanup_spent db now t k : ticket_spent db k →
  ticket_spent (cleanup_stream_tickets_in db now t).2 k.
Proof. intros Hs row [Hr _]%map_lookup_filter_Some. by apply Hs. Qed.

Lemma apply_op_spent db op k : ¬ creates k op → ticket_spent db k →
  ticket_spent (apply_op text db op) k.
Proof.
  intros Hc Hs. destruct op; cbn [apply_op].
  - eapply ticket_spent_tickets; [apply append_tickets|done].
  - unfold upsert_tenant_as. case_match; [|done]. eapply ticket_spent_tickets; [|done].
    apply (transaction_tickets _ _ (λ m, m = tickets db)); [done|].
    intros o db' Hb. repeat (case_match; simplify_eq/=; try done).
  - unfold enroll_agent_as. case_match; [|done]. eapply ticket_spent_tickets; [|done].
    apply (transaction_tickets _ _ (λ m, m = tickets db)); [done|].
    intros o db' Hb. repeat (case_match; simplify_eq/=; try done).
  - unfold set_agent_enabled_as. case_match; [|done]. eapply ticket_spent_tickets; [|done].
    apply (transaction_tickets _ _ (λ m, m = tickets db)); [done|].
    intros o db' Hb. repeat (case_match; simplify_eq/=; try done).
  - unfold create_stream_ticket. destruct (subject ← _; _) as [[[? ?] ?]|]; [|done].
    apply (transaction_tickets _ _ (spent_in k)); [done|].
    intros o db' Hb row Hr. cbv zeta in Hb. repeat case_match; simplify_eq.
    cbn [tickets with_tickets] in Hr. simpl in Hc. rewrite lookup_insert_ne in Hr by done.
    by eapply (cleanup_spent db now t k Hs).
  - unfold consume_stream_ticket.
    apply (transaction_tickets _ _ (spent_in k)); [done|].
    intros o db' Hb row Hr. repeat case_match; simplify_eq; try by eapply Hs.
    cbn [tickets with_tickets] in Hr. apply lookup_insert_Some in Hr as [[<- <-]|[_ Hr]];
      [simpl; eauto|by eapply Hs].
  - unfold cleanup_stream_tickets.
    apply (transaction_tickets _ _ (spent_in k)); [done|].
    intros o db' Hb row Hr. destruct (require_enabled_tenant db t); [|done].
    pose proof (cleanup_spent db now t k Hs) as Hsp. unfold cleanup_stream_tickets_in in *.
    simplify_eq. by eapply Hsp.
  - by eapply ticket_spent_tickets.
Qed.

Lemma consume_spent db now t k g : ticket_spent db k →
  (consume_stream_ticket db now t k).1 ≠ Ok (Some g).
Proof.
  intros Hs. unfold consume_stream_ticket, transaction.
  destruct (require_enabled_tenant db t); [|done].
  destruct (tickets db !! k) as [row|] eqn:Hk; [|done].
  unfold ticket_dead. rewrite (bool_decide_eq_true_2 _ (Hs row Hk)). cbn [orb negb].
  by rewrite andb_false_r.
Qed.

Lemma consume_spends db now t k g db' :
  consume_stream_ticket db now t k = (Ok (Some g), db') → ticket_spent db' k.
Proof.
  unfold consume_stream_ticket, transaction. intros Hb row Hr.
  destruct (require_enabled_tenant db t); [|done].
  destruct (tickets db !! k) as [r|]; [|done].
  destruct (bool_decide _ && _); [|done]. destruct (from_pg_i64 _ _); [|done]. simplify_eq.
  cbn [tickets with_tickets] in Hr. rewrite lookup_insert_eq in Hr. simplify_eq. simpl. eauto.
Qed.

(** A ticket that is still there is the one that was issued, or is consumed. *)
Definition ticket_from (k : Z) (row : TicketRow) (m : gmap Z TicketRow) : Prop :=
  ∀ row', m !! k = Some row' → row' = row ∨ is_Some (k_consumed_at row').

Lemma apply_op_ticket_from db op k row : ¬ creates k op → ticket_from k row (tickets db) →
  ticket_from k row (tickets (apply_op text db op)).
Proof.
  intros Hc Hf. destruct op as [now env|now t slug d a|now t a d ac|now t a b ac
    |now k' t s u ttl|now t k'|now t|t b]; cbn [apply_op].
  - by rewrite append_tickets.
  - unfold upsert_tenant_as. destruct (required_actor_id a); [|done].
    apply (transaction_tickets db _ (ticket_from k row)); [done|]. intros o db' Hb. cbv zeta in Hb. by repeat case_match; simplify_eq.
  - unfold enroll_agent_as. destruct (required_actor_id ac); [|done].
    apply (transaction_tickets db _ (ticket_from k row)); [done|]. intros o db' Hb. cbv zeta in Hb. by repeat case_match; simplify_eq.
  - unfold set_agent_enabled_as. destruct (required_actor_id ac); [|done].
    apply (transaction_tickets db _ (ticket_from k row)); [done|]. intros o db' Hb. cbv zeta in Hb. by repeat case_match; simplify_eq.
  - unfold create_stream_ticket. destruct (_ ← _; _) as [[[? ?] ?]|]; [|done].
    apply (transaction_tickets db _ (ticket_from k row)); [done|]. intros o db' Hb. cbv zeta in Hb. repeat case_match; simplify_eq.
    cbn [tickets with_tickets cleanup_stream_tickets_in snd]. intros row' Hr. simpl in Hc.
    rewrite lookup_insert_ne in Hr by done. apply map_lookup_filter_Some in Hr as [Hr _]. by apply Hf.
  - unfold consume_stream_ticket. apply (transaction_tickets db _ (ticket_from k row)); [done|]. intros o db' Hb. repeat case_match; simplify_eq; try done.
    cbn [tickets with_tickets]. intros row'. destruct (decide (k' = k)) as [->|Hne].
    + rewrite lookup_insert_eq. intros [= <-]. right. by eexists.
    + rewrite lookup_insert_ne by done. apply Hf.
  - unfold cleanup_stream_tickets. apply (transaction_tickets db _ (ticket_from k row)); [done|]. intros o db' Hb. unfold cleanup_stream_tickets_in in Hb.
    repeat case_match; simplify_eq. cbn [tickets with_tickets]. intros row' [Hr _]%map_lookup_filter_Some. by apply Hf.
  - done.
Qed.

(** What a ticket is exchanged against: a row of this tenant that is neither
    consumed nor expired. *)
Definition exchangeable (db : Db) (now : Z) (t : TenantId) (k : Z) (g : StreamTicketGrant) (row : TicketRow) : Prop :=
  tickets db !! k = Some row ∧ k_tenant row = t ∧ k_consumed_at row = None ∧ now < k_expires_at row ∧
  t_enabled <$> tenants db !! t = Some true ∧
  grant_subject g = k_subject row ∧ authorized_until_unix g = k_authorized_until row `div` 1000000000.

Lemma require_enabled_Ok db t : require_enabled_tenant db t = Ok () ↔ t_enabled <$> tenants db !! t = Some true.
Proof. unfold require_enabled_tenant. destruct (t_enabled <$> _) as [[]|]; by split. Qed.

Lemma consume_exchangeable db now t k g db' :
  consume_stream_ticket db now t k = (Ok (Some g), db') → ∃ row, exchangeable db now t k g row.
Proof.
  unfold consume_stream_ticket, transaction. destruct (require_enabled_tenant db t) as [[]|] eqn:Ht; [|done].
  apply require_enabled_Ok in Ht. destruct (tickets db !! k) as [row|] eqn:Hk; [|done].
  destruct (bool_decide (k_tenant row = t) && _) eqn:Hb; [|done]. unfold ticket_dead in Hb.
  apply andb_true_iff in Hb as [Hb1%bool_decide_eq_true [Hb2 Hb3]%negb_true_iff%orb_false_iff].
  apply bool_decide_eq_false in Hb2. apply Z.leb_gt in Hb3.
  destruct (from_pg_i64 _ _) as [u|] eqn:Hu; [|done]. intros [= <- _]. exists row.
  unfold from_pg_i64 in Hu. destruct (0 <=? _); [|done]. injection Hu as <-. unfold exchangeable.
  split_and!; try done. by apply eq_None_not_Some.
Qed.

(** The row a created ticket gets. *)
Lemma create_ticket_row db now k t subject u ttl db' :
  create_stream_ticket db now k t subject u ttl = (Ok k, db') →
  tickets db' !! k = Some {| k_tenant := t; k_subject := trim subject; k_created_at := now; k_authorized_until := secs_to_ns u;
    k_expires_at := Z.min (now + ttl `div` 1000000 * 1000000) (secs_to_ns u); k_consumed_at := None |}.
Proof.
  unfold create_stream_ticket, required_stream_ticket_subject, stream_ticket_authorization_unix, stream_ticket_ttl_millis. intros Hc.
  destruct (is_empty (trim subject) || _); [done|]. cbn [mbind result_bind] in Hc.
  destruct (MAX_STREAM_TICKET_AUTHORIZATION_UNIX <? u); [done|]. cbn [mbind result_bind] in Hc.
  destruct (i64_max <? u); [done|]. cbn [mbind result_bind] in Hc.
  destruct ((ttl =? 0) || _); [done|]. cbn [mbind result_bind] in Hc.
  destruct (ttl `div` 1000000 =? 0); [done|]. destruct (i64_max <? ttl `div` 1000000); [done|].
  cbn [mbind result_bind] in Hc. unfold transaction in Hc. destruct (require_enabled_tenant db t) as [[]|]; [|done].
  destruct (secs_to_ns u <=? now); [done|]. destruct (bool_decide (is_Some _)); [done|].
  injection Hc as <-. apply lookup_insert_eq.
Qed.

(** C15: A ticket is exchanged only by its own tenant while that is enabled,
    only before it expires, for the subject and the authorisation it was
    issued with.  Once it has been exchanged, no later exchange of it
    succeeds, by any tenant, at any time and after any further operations, as
    long as the random ticket id is not issued again.  A ticket expires when
    its time to live is over, and not later than the authorisation it was
    issued for: whatever happens between the issue and the exchange. *)
Theorem stream_ticket_once db now t k g db' : consume_stream_ticket db now t k = (Ok (Some g), db') →
  (∃ row, exchangeable db now t k g row) ∧
  (∀ ops now' t' g', Forall (λ op, ¬ creates k op) ops →
    (consume_stream_ticket (foldl (apply_op text) db' ops) now' t' k).1 ≠ Ok (Some g')) ∧
  ∀ db0 db1 ops now0 t0 subject u ttl, create_stream_ticket db0 now0 k t0 subject u ttl = (Ok k, db1) →
    Forall (λ op, ¬ creates k op) ops → db = foldl (apply_op text) db1 ops →
    t = t0 ∧ now < now0 + ttl ∧ now < secs_to_ns u ∧ grant_subject g = trim subject ∧ authorized_until_unix g = u.
Proof.
  intros Hc. destruct (consume_exchangeable _ _ _ _ _ _ Hc) as [row Hr]. split_and!; [by exists row| |].
  - intros ops now' t' g' Hops. apply consume_spends in Hc. apply consume_spent. revert db' Hc.
    induction Hops as [|op ops Hop _ IH]; intros db' Hc; [done|]. simpl. by apply IH, apply_op_spent.
  - intros db0 db1 ops now0 t0 subject u ttl Hcr%create_ticket_row Hops ->.
    set (issued := Build_TicketRow _ _ _ _ _ _) in Hcr.
    assert (ticket_from k issued (tickets (foldl (apply_op text) db1 ops))) as Hf.
    { assert (ticket_from k issued (tickets db1)) as H0 by (intros row'; rewrite Hcr; intros [= <-]; by left).
      clear Hcr Hc Hr. revert db1 H0. induction Hops as [|op ops Hop _ IH]; intros db1 H0; [done|]. simpl. by apply IH, apply_op_ticket_from. }
    destruct Hr as (Hk & Ht & Hn & He & _ & Hs & Hu). destruct (Hf row Hk) as [->|[? Hx]]; [|congruence].
    cbn in *. pose proof (Z.mul_div_le ttl 1000000 ltac:(lia)). split_and!; [done|lia|lia|done|].
    rewrite Hu. unfold secs_to_ns. by rewrite Z.div_mul.
Qed.

(** ** Tenant isolation *)

(** The tenant an operation acts for. *)
Definition op_tenant (op : StoreOp) : option TenantId :=
  match op with
  | OpAppend _ env => scope_tenant_id (scope env)
  | OpUpsertTenant _ t _ _ _ | OpEnroll _ t _ _ _ | OpSetEnabled _ t _ _ _
  | OpCreateTicket _ _ t _ _ _ | OpConsumeTicket _ t _ | OpCleanup _ t
  | OpOperatorEnable t _ => Some t
  end.

(** Two states that agree on everything of one tenant. *)
Record same_for (t : TenantId) (db db' : Db) : Prop := {
  sf_tenant : tenants db' !! t = tenants db !! t;
  sf_agents : ∀ a, agents_t db' !! (t, a) = agents_t db !! (t, a);
  sf_events : filter (λ r, e_tenant r = t) (events db') = filter (λ r, e_tenant r = t) (events db);
  sf_projection : projections db' !! t = projections db !! t;
  sf_audits : filter (λ r, au_tenant r = t) (audits db') = filter (λ r, au_tenant r = t) (audits db);
  sf_tickets : ∀ k r, k_tenant r = t → tickets db' !! k = Some r ↔ tickets db !! k = Some r;
  sf_notifications :
    filter (λ n, n.1 = t) (notifications db') = filter (λ n, n.1 = t) (notifications db);
}.

Lemma same_for_refl t db : same_for t db db.
Proof. by split. Qed.
Lemma same_for_cursor t db n : same_for t db (with_cursor db n).
Proof. by split. Qed.

Lemma same_for_transaction {A} t db (body : Db → result PgStoreError A * Db) :
  (∀ a db', body db = (Ok a, db') → same_for t db db') → same_for t db (transaction db body).2.
Proof.
  intros Hok. unfold transaction. destruct (body db) as [[a|e] db'] eqn:Hb; [by eapply Hok|].
  apply same_for_cursor.
Qed.

Lemma filter_snoc_ne {A} (P : A → Prop) `{∀ x, Decision (P x)} (l : list A) x :
  ¬ P x → filter P (l ++ [x]) = filter P l.
Proof. intros Hx. rewrite filter_app, filter_cons_False by done. by rewrite app_nil_r. Qed.

Lemma inserted_same_for t t' db now env p : t' ≠ t → same_for t db (inserted_db db now t' env p).
Proof.
  intros Hne. split; cbn; try done.
  - intros a. by rewrite lookup_alter_ne by congruence.
  - by apply filter_snoc_ne.
  - by rewrite lookup_insert_ne by done.
  - by apply filter_snoc_ne.
Qed.

Lemma admin_same_for t t' db db' au : t' ≠ t →
  events db' = events db → projections db' = projections db → tickets db' = tickets db →
  notifications db' = notifications db → audits db' = audits db ++ [au] → au_tenant au = t' →
  tenants db' !! t = tenants db !! t → (∀ a, agents_t db' !! (t, a) = agents_t db !! (t, a)) →
  same_for t db db'.
Proof.
  intros Hne He Hp Hk Hn Ha Hau Ht Hag. split; rewrite ?He, ?Hp, ?Hk, ?Hn, ?Ha; try done.
  apply filter_snoc_ne. congruence.
Qed.

Lemma cleanup_same_for t t' db now : t' ≠ t → same_for t db (cleanup_stream_tickets_in db now t').2.
Proof.
  intros Hne. split; try done. intros k r Hr. cbn [cleanup_stream_tickets_in snd tickets with_tickets].
  rewrite map_lookup_filter_Some. split; [naive_solver|]. intros Hk. split; [done|].
  intros [Hkt _]. simpl in Hkt. congruence.
Qed.

Lemma write_isolation db op t : 0 < next_cursor db ≤ i64_max + 1 → op_tenant op ≠ Some t →
  same_for t db (apply_op text db op).
Proof.
  intros Hn Hop. destruct op as [now env|now t0 slug dn actor|now t0 a dn actor|now t0 a b actor
    |now tid t0 subj au ttl|now t0 tid|now t0|t0 b]; cbn [apply_op op_tenant] in *; try (assert (t0 ≠ t) as Hne by congruence).
  - pose proof (append_cases db now env Hn) as Ha.
    destruct (append_envelope db now env) as [[o|e] db']; cbn [snd] in *.
    + destruct Ha as (t' & p & Hs & _ & _ & _ & _ & Ha). rewrite Hs in Hop. simpl in Hop.
      destruct (inserted o).
      * destruct Ha as (_ & _ & _ & _ & ->). apply inserted_same_for. congruence.
      * destruct Ha as (-> & _). apply same_for_cursor.
    + destruct Ha as (n & -> & _). apply same_for_cursor.
  - unfold upsert_tenant_as. case_match; [|apply same_for_refl]. apply same_for_transaction.
    intros o db' Hb. cbv zeta in Hb. repeat (case_match; simplify_eq/=);
      (eapply admin_same_for; [exact Hne|done..| |done]; cbn; by rewrite lookup_insert_ne).
  - unfold enroll_agent_as. case_match; [|apply same_for_refl]. apply same_for_transaction.
    intros o db' Hb. cbv zeta in Hb. destruct (_ ← _; _) as [[]|]; [|done].
    destruct (agent_record_from_row _ _ _); [|done]. simplify_eq.
    eapply admin_same_for; [exact Hne|done..|]. intros a'. cbn. by rewrite lookup_insert_ne by congruence.
  - unfold set_agent_enabled_as. case_match; [|apply same_for_refl]. apply same_for_transaction.
    intros o db' Hb. cbv zeta in Hb. destruct (require_enabled_tenant db t0) as [[]|]; [|done].
    destruct (agents_t db !! (t0, a)); [|simplify_eq; apply same_for_refl].
    destruct (agent_record_from_row _ _ _); [|done]. simplify_eq.
    eapply admin_same_for; [exact Hne|done..|]. intros a'. cbn. by rewrite lookup_insert_ne by congruence.
  - unfold create_stream_ticket. destruct (subject ← _; _) as [[[? ?] ?]|]; [|apply same_for_refl].
    apply same_for_transaction. intros o db' Hb. cbv zeta in Hb.
    destruct (require_enabled_tenant db t0) as [[]|]; [|done].
    destruct (_ <=? now); [done|]. destruct (bool_decide_reflect (is_Some (tickets (cleanup_stream_tickets_in db now t0).2 !! tid))) as [|Hfr]; [done|]. simplify_eq.
    destruct (cleanup_same_for t t0 db now Hne) as [? ? ? ? ? Hk ?]. split; try done.
    intros k r Hr. rewrite <-Hk by done. cbn [tickets with_tickets].
    destruct (decide (k = o)) as [->|]; [|by rewrite lookup_insert_ne].
    rewrite lookup_insert_eq. split; [intros [= <-]; done|].
    intros Hs. destruct Hfr. eauto.
  - unfold consume_stream_ticket. apply same_for_transaction. intros o db' Hb.
    destruct (require_enabled_tenant db t0) as [[]|]; [|done].
    destruct (tickets db !! tid) as [row|] eqn:Hk; [|simplify_eq; apply same_for_refl].
    destruct (bool_decide_reflect (k_tenant row = t0)) as [Hkt|]; cbn [andb] in Hb;
      [|simplify_eq; apply same_for_refl].
    destruct (negb _); [|simplify_eq; apply same_for_refl].
    destruct (from_pg_i64 _ _); [|done]. simplify_eq. split; try done.
    intros k r Hr. cbn [tickets with_tickets].
    destruct (decide (k = tid)) as [->|]; [|by rewrite lookup_insert_ne].
    rewrite lookup_insert_eq, Hk. split; intros [= <-]; simpl in *; congruence.
  - unfold cleanup_stream_tickets. apply same_for_transaction. intros o db' Hb.
    destruct (require_enabled_tenant db t0) as [[]|]; [|done].
    pose proof (cleanup_same_for t t0 db now Hne) as Hsf.
    unfold cleanup_stream_tickets_in in *. by simplify_eq.
  - split; try done. cbn. by rewrite lookup_alter_ne.
Qed.

Lemma rows_after_same_for t db db' after : same_for t db db' →
  rows_after db' t after = rows_after db t after.
Proof.
  intros Hs. unfold rows_after. f_equal.
  assert (∀ l : list EventRow, filter (λ r, e_tenant r = t ∧ after < e_cursor r) l =
    filter (λ r, after < e_cursor r) (filter (λ r, e_tenant r = t) l)) as Hf.
  { intros l. rewrite list_filter_filter. apply list_filter_iff. intros r. tauto. }
  by rewrite !Hf, (sf_events _ _ _ Hs).
Qed.

Lemma require_enabled_same_for t db db' : same_for t db db' →
  require_enabled_tenant db' t = require_enabled_tenant db t.
Proof. intros Hs. unfold require_enabled_tenant. by rewrite (sf_tenant _ _ _ Hs). Qed.

Lemma load_same_for t db db' after limit budget : same_for t db db' →
  load_envelopes_after_bounded db' (Tenant t) after limit budget
  = load_envelopes_after_bounded db (Tenant t) after limit budget.
Proof.
  intros Hs. unfold load_envelopes_after_bounded, load_bounded_sql. cbn [tenant_scope mbind result_bind].
  destruct (to_pg_i64 "cursor" after) as [c|]; [|done]. cbn [mbind result_bind].
  by rewrite (require_enabled_same_for _ _ _ Hs), (rows_after_same_for _ _ _ _ Hs).
Qed.

Lemma load_projection_same_for t db db' : same_for t db db' →
  load_projection db' t = load_projection db t.
Proof.
  intros Hs. unfold load_projection.
  by rewrite (require_enabled_same_for _ _ _ Hs), (sf_projection _ _ _ Hs).
Qed.

Lemma consume_same_for t db db' now k : same_for t db db' →
  (consume_stream_ticket db' now t k).1 = (consume_stream_ticket db now t k).1.
Proof.
  intros Hs. unfold consume_stream_ticket, transaction.
  rewrite (require_enabled_same_for _ _ _ Hs). destruct (require_enabled_tenant db t); [|done].
  pose proof (sf_tickets _ _ _ Hs k) as Hk.
  destruct (tickets db' !! k) as [r'|] eqn:E'; destruct (tickets db !! k) as [r|] eqn:E; try done.
  - destruct (decide (k_tenant r' = t)) as [Ht'|Ht'].
    + apply Hk in Ht' as Hx. destruct Hx as [Hx _]. specialize (Hx eq_refl). simplify_eq.
      destruct (bool_decide (k_tenant r' = _) && negb _); [|done]. by destruct (from_pg_i64 _ _).
    + destruct (decide (k_tenant r = t)) as [Ht|Ht].
      * apply Hk in Ht as Hx. destruct Hx as [_ Hx]. specialize (Hx eq_refl). simplify_eq.
      * by rewrite !bool_decide_eq_false_2.
  - destruct (decide (k_tenant r' = t)) as [Ht'|Ht'].
    + apply Hk in Ht' as Hx. destruct Hx as [Hx _]. by specialize (Hx eq_refl).
    + by rewrite bool_decide_eq_false_2.
  - destruct (decide (k_tenant r = t)) as [Ht|Ht].
    + apply Hk in Ht as Hx. destruct Hx as [_ Hx]. by specialize (Hx eq_refl).
    + by rewrite bool_decide_eq_false_2.
Qed.

(** The collation of the database orders the texts totally, and two texts it
    does not tell apart are equal (a deterministic collation). *)
Class CollationLaws (le : string → string → bool) : Prop := {
  collation_total a b : le a b = true ∨ le b a = true;
  collation_trans a b c : le a b = true → le b c = true → le a c = true;
  collation_antisym a b : le a b = true → le b a = true → a = b;
}.

Section agent_order.
Context (le : string → string → bool) `{!CollationLaws le}.
Definition agent_before (p q : AgentId * AgentRow) : Prop := le (agent_str p.1) (agent_str q.1) = true.

Lemma insert_by_agent_perm r l : insert_by_agent le r l ≡ₚ r :: l.
Proof. induction l as [|x l IH]; simpl; [done|]. case_match; [done|]. rewrite IH. apply Permutation_swap. Qed.
Lemma insert_by_agent_sorted r l : StronglySorted agent_before l → StronglySorted agent_before (insert_by_agent le r l).
Proof.
  induction 1 as [|x l Hs IH Hx]; simpl; [by repeat constructor|]. destruct (le (agent_str r.1) (agent_str x.1)) eqn:E.
  - constructor; [by constructor|]. constructor; [done|]. eapply Forall_impl; [exact Hx|]. intros y Hy. by eapply collation_trans.
  - constructor; [done|]. rewrite insert_by_agent_perm. constructor; [|done]. by destruct (collation_total (agent_str r.1) (agent_str x.1)) as [|]; [congruence|].
Qed.
(** The rows in the order of their ids. *)
Definition agents_in_order (db : Db) (t : TenantId) : list (AgentId * AgentRow) := foldr (insert_by_agent le) [] (tenant_agents db t).
Lemma agents_in_order_perm db t : agents_in_order db t ≡ₚ tenant_agents db t.
Proof. unfold agents_in_order. induction (tenant_agents db t) as [|r l IH]; simpl; [done|]. by rewrite insert_by_agent_perm, IH. Qed.
Lemma agents_in_order_sorted db t : StronglySorted agent_before (agents_in_order db t).
Proof. unfold agents_in_order. induction (tenant_agents db t) as [|r l IH]; simpl; [constructor|]. by apply insert_by_agent_sorted. Qed.

Lemma elem_of_tenant_agents db t a row : (a, row) ∈ tenant_agents db t ↔ agents_t db !! (t, a) = Some row.
Proof.
  unfold tenant_agents. rewrite list_elem_of_fmap. split.
  - intros ([[t' a'] row'] & [= -> ->] & [Ht Hin]%list_elem_of_filter). simpl in Ht. subst t'. by apply elem_of_map_to_list.
  - intros Hr. exists ((t, a), row). split; [done|]. apply list_elem_of_filter. split; [done|]. by apply elem_of_map_to_list.
Qed.
Lemma NoDup_tenant_agents db t : NoDup (tenant_agents db t).*1.
Proof.
  unfold tenant_agents. rewrite <- list_fmap_compose. pose proof (NoDup_fst_map_to_list (agents_t db)) as Hn.
  induction (map_to_list (agents_t db)) as [|[[t' a'] row'] l IH]; [constructor|]. rewrite fmap_cons in Hn. apply NoDup_cons in Hn as [Hx Hn].
  rewrite filter_cons. destruct (decide _) as [Ht|]; [|by apply IH]. simpl in Ht. subst t'. rewrite fmap_cons. apply NoDup_cons. split; [|by apply IH].
  intros ([[t2 a2] row2] & Ha & [Ht2 Hin]%list_elem_of_filter)%list_elem_of_fmap. simpl in *. subst. apply Hx, list_elem_of_fmap. by eexists (_, _).
Qed.

Lemma list_agents_same_for t db db' : same_for t db db' → list_agents le db' t = list_agents le db t.
Proof.
  intros Hs. unfold list_agents. rewrite (require_enabled_same_for _ _ _ Hs). f_equal.
  enough (agents_in_order db' t = agents_in_order db t) as E by (unfold agents_in_order in E; by rewrite E).
  apply (StronglySorted_unique_strong agent_before); [|apply agents_in_order_sorted..|].
  - intros [a1 r1] [a2 r2] H1 H2 Hb1 Hb2. rewrite agents_in_order_perm in H1, H2. apply elem_of_tenant_agents in H1, H2.
    unfold agent_before in *. simpl in *. pose proof (collation_antisym _ _ Hb1 Hb2) as Ha. destruct a1, a2. simpl in Ha. subst.
    rewrite (sf_agents _ _ _ Hs) in H1. congruence.
  - rewrite !agents_in_order_perm. apply NoDup_Permutation; [eapply NoDup_fmap_1, NoDup_tenant_agents..|].
    intros [a r]. rewrite !elem_of_tenant_agents. by rewrite (sf_agents _ _ _ Hs).
Qed.
End agent_order.

(** C14: After any history, an operation for one tenant changes nothing another
    tenant can see: not its row, agents, events, projection, audit rows,
    tickets or notifications, nor therefore what its replay, its list of
    agents, its projection and its ticket exchanges return. *)
Theorem tenant_isolation le `{!CollationLaws le} ops op t :
  let db := run text ops in
  let db' := apply_op text db op in
  op_tenant op ≠ Some t →
  same_for t db db' ∧
  (∀ after limit budget, load_envelopes_after_bounded db' (Tenant t) after limit budget
                         = load_envelopes_after_bounded db (Tenant t) after limit budget) ∧
  list_agents le db' t = list_agents le db t ∧
  load_projection db' t = load_projection db t ∧
  (∀ now k, (consume_stream_ticket db' now t k).1 = (consume_stream_ticket db now t k).1).
Proof.
  intros db db' Hop.
  assert (same_for t db db') as Hs
    by (apply write_isolation; [apply (inv_next _ _ (run_inv text ops))|done]).
  split_and!; [done|intros; by apply load_same_for|by apply list_agents_same_for|by apply load_projection_same_for|].
  intros. by apply consume_same_for.
Qed.

(** ** What the administrative operations do

    A contract per operation, on the rows: the answer, the rows it changes,
    the audit row it writes, and why it refuses. *)

(** The audit row of a user's action, by whom and when. *)
Definition user_audit (t : TenantId) (actor action target_type target : string) (details : AuditDetails) (now : Z) : AuditRow :=
  {| au_tenant := t; au_actor_type := "user"; au_actor_id := trim actor; au_action := action; au_target_type := target_type;
     au_target_id := target; au_details := details; au_occurred_at := now |}.

Definition enabled (db : Db) (t : TenantId) : Prop := t_enabled <$> tenants db !! t = Some true.
(** The tenant is unknown or disabled. *)
Definition not_enabled (db : Db) (t : TenantId) (e : PgStoreError) : Prop :=
  (tenants db !! t = None ∧ e = row_not_found) ∨ (t_enabled <$> tenants db !! t = Some false ∧ e = TenantDisabled t).

(** What is shown of an agent's row, or that it cannot be shown. *)
Definition agent_shown (t : TenantId) (a : AgentId) (row : AgentRow) (rec : AgentRecord) : Prop :=
  agent_id_new (agent_str a) = Ok (ar_agent_id rec) ∧ ar_tenant_id rec = t ∧ ar_display_name rec = a_display_name row ∧
  ar_enabled rec = a_enabled row ∧ ar_enrolled_at_unix_nano rec = a_enrolled_at row ∧ ar_last_seen_at_unix_nano rec = a_last_seen_at row.
Definition agent_corrupt (a : AgentId) (row : AgentRow) : Prop :=
  (∃ e, agent_id_new (agent_str a) = Err e) ∨ a_enrolled_at row < 0 ∨ ∃ seen, a_last_seen_at row = Some seen ∧ seen < 0.
Definition corrupt_error (e : PgStoreError) : Prop := (∃ text, e = InvalidAgentId text) ∨ ∃ field, e = IntegerOutOfRange field.

Definition upsert_contract (db : Db) (now : Z) (t : TenantId) (slug display_name actor : string)
    (out : result PgStoreError TenantRecord * Db) : Prop :=
  match out.1 with
  | Ok rec => ∃ created, trim actor ≠ EmptyString ∧ trim slug ≠ EmptyString ∧ trim display_name ≠ EmptyString ∧
      match tenants db !! t with Some old => t_enabled old = true ∧ created = t_created_at old | None => created = now end ∧
      (∀ t' row, t' ≠ t → tenants db !! t' = Some row → t_slug row ≠ trim slug) ∧
      rec = {| tr_tenant_id := t; tr_slug := trim slug; tr_display_name := trim display_name; tr_enabled := true; tr_created_at_unix_nano := created |} ∧
      out.2 = with_audit (with_tenants db (<[t := {| t_slug := trim slug; t_display_name := trim display_name; t_enabled := true;
                                                     t_created_at := created; t_updated_at := now |}]> (tenants db)))
                (user_audit t actor "tenant.upsert" "tenant" (text t) (DetailsTenant (trim slug) (trim display_name)) now)
  | Err e => out.2 = db ∧
      ((trim actor = EmptyString ∧ e = InvalidActorId) ∨
       (btrim_blank (trim slug) = true ∧ e = violates "tenants_slug_not_blank") ∨
       (btrim_blank (trim display_name) = true ∧ e = violates "tenants_display_name_not_blank") ∨
       ((∃ t' row, t' ≠ t ∧ tenants db !! t' = Some row ∧ t_slug row = trim slug) ∧ e = violates "tenants_slug_key") ∨
       (t_enabled <$> tenants db !! t = Some false ∧ e = TenantDisabled t) ∨
       (default now (t_created_at <$> tenants db !! t) < 0 ∧ corrupt_error e))
  end.

Definition enroll_contract (db : Db) (now : Z) (t : TenantId) (a : AgentId) (display_name : option string) (actor : string)
    (out : result PgStoreError AgentRecord * Db) : Prop :=
  let name := display_name ≫= λ d, if bool_decide (trim d = EmptyString) then None else Some (trim d) in
  let row := {| a_display_name := name; a_enabled := true; a_enrolled_at := default now (a_enrolled_at <$> agents_t db !! (t, a));
                a_updated_at := now; a_last_seen_at := agents_t db !! (t, a) ≫= a_last_seen_at |} in
  match out.1 with
  | Ok rec => trim actor ≠ EmptyString ∧ enabled db t ∧
      (agents_t db !! (t, a) = None → zlen (tenant_agents db t) < 1000) ∧ agent_shown t a row rec ∧
      out.2 = with_audit (with_agents db (<[(t, a) := row]> (agents_t db)))
                (user_audit t actor "agent.enroll" "agent" (agent_str a) (DetailsDisplayName name) now)
  | Err e => out.2 = db ∧
      ((trim actor = EmptyString ∧ e = InvalidActorId) ∨ not_enabled db t e ∨
       (agents_t db !! (t, a) = None ∧ 1000 ≤ zlen (tenant_agents db t) ∧ e = AgentLimitReached t 1000) ∨
       agents_check a name = Err e ∨ (agent_corrupt a row ∧ corrupt_error e))
  end.

Definition set_enabled_contract (db : Db) (now : Z) (t : TenantId) (a : AgentId) (value : bool) (actor : string)
    (out : result PgStoreError (option AgentRecord) * Db) : Prop :=
  match out.1, agents_t db !! (t, a) with
  | Ok (Some rec), Some old =>
      let row := {| a_display_name := a_display_name old; a_enabled := value; a_enrolled_at := a_enrolled_at old;
                    a_updated_at := now; a_last_seen_at := a_last_seen_at old |} in
      trim actor ≠ EmptyString ∧ enabled db t ∧ agent_shown t a row rec ∧
      out.2 = with_audit (with_agents db (<[(t, a) := row]> (agents_t db)))
                (user_audit t actor "agent.set_enabled" "agent" (agent_str a) (DetailsEnabled value) now)
  | Ok None, None => trim actor ≠ EmptyString ∧ enabled db t ∧ out.2 = db
  | Err e, found => out.2 = db ∧
      ((trim actor = EmptyString ∧ e = InvalidActorId) ∨ not_enabled db t e ∨
       ∃ old, found = Some old ∧ agent_corrupt a old ∧ corrupt_error e)
  | _, _ => False
  end.

Lemma required_actor_cases actor :
  (trim actor = EmptyString ∧ required_actor_id actor = Err InvalidActorId) ∨ (trim actor ≠ EmptyString ∧ required_actor_id actor = Ok (trim actor)).
Proof. unfold required_actor_id, is_empty. case_bool_decide; [by left|by right]. Qed.

Lemma require_enabled_cases db t :
  (enabled db t ∧ require_enabled_tenant db t = Ok ()) ∨ ∃ e, not_enabled db t e ∧ require_enabled_tenant db t = Err e.
Proof.
  unfold enabled, not_enabled, require_enabled_tenant. destruct (tenants db !! t) as [row|]; simpl; [destruct (t_enabled row)|].
  - by left.
  - right. eexists. split; [by right|done].
  - right. eexists. split; [by left|done].
Qed.

Lemma agent_record_cases t a row :
  match agent_record_from_row t a row with Ok rec => agent_shown t a row rec | Err e => agent_corrupt a row ∧ corrupt_error e end.
Proof.
  unfold agent_record_from_row, from_pg_i64, agent_shown, agent_corrupt, corrupt_error.
  destruct (agent_id_new (agent_str a)) as [id|e] eqn:E; cbn [map_err mbind result_bind]; [|by eauto 10].
  destruct (Z.leb_spec 0 (a_enrolled_at row)); cbn [mbind result_bind]; [|by eauto 10].
  destruct (a_last_seen_at row) as [v|] eqn:Es; cbn [mbind result_bind]; [|done].
  destruct (Z.leb_spec 0 v); cbn [mbind result_bind]; [done|by eauto 10].
Qed.

Lemma btrim_blank_nonempty s : btrim_blank s = false → s ≠ EmptyString.
Proof. by intros Hb ->. Qed.

Lemma slug_taken_cases db t slug :
  if slug_taken db t slug then ∃ t' row, t' ≠ t ∧ tenants db !! t' = Some row ∧ t_slug row = slug
  else ∀ t' row, t' ≠ t → tenants db !! t' = Some row → t_slug row ≠ slug.
Proof.
  unfold slug_taken. destruct (existsb _ _) eqn:E.
  - apply existsb_exists in E as ([t' row] & Hin & Hb). apply list_elem_of_In, elem_of_map_to_list in Hin. to_prop. by exists t', row.
  - intros t' row Hne Hr Hs. assert (existsb (λ p : TenantId * TenantRow, negb (bool_decide (p.1 = t)) && bool_decide (t_slug p.2 = slug)) (map_to_list (tenants db)) = true) as E'; [|congruence].
    apply existsb_exists. exists (t', row). split; [by apply list_elem_of_In, elem_of_map_to_list|]. simpl.
    by rewrite bool_decide_eq_false_2, bool_decide_eq_true_2.
Qed.

Lemma transaction_refused {A} db e : transaction (A := A) db (λ db, (Err e, db)) = (Err e, db).
Proof. unfold transaction. by rewrite with_cursor_same. Qed.

Lemma upsert_spec db now t slug dn actor : upsert_contract db now t slug dn actor (upsert_tenant_as text db now t slug dn actor).
Proof.
  unfold upsert_contract, upsert_tenant_as. destruct (required_actor_cases actor) as [[Ha ->]|[Ha ->]]; [by split; [|left]|].
  unfold transaction. pose proof (slug_taken_cases db t (trim slug)) as Hs.
  destruct (btrim_blank (trim slug)) eqn:E1; [cbn [fst snd]; rewrite with_cursor_same; by eauto 10|].
  destruct (btrim_blank (trim dn)) eqn:E2; [cbn [fst snd]; rewrite with_cursor_same; by eauto 10|].
  destruct (slug_taken db t (trim slug)); [cbn [fst snd]; rewrite with_cursor_same; by eauto 10|]. cbv zeta.
  apply btrim_blank_nonempty in E1, E2. unfold tenant_record_from_row, from_pg_i64, corrupt_error.
  destruct (tenants db !! t) as [old|] eqn:Et; cbn [t_slug t_display_name t_enabled t_created_at].
  - destruct (Z.leb_spec 0 (t_created_at old)); cbn [mbind result_bind tr_enabled]; [destruct (t_enabled old) eqn:Eo|].
    + cbn [negb fst snd]. exists (t_created_at old). by split_and!.
    + cbn [negb fst snd next_cursor with_tenants]. split; [by destruct db|]. simpl. rewrite Eo. by eauto 10.
    + cbn [fst snd next_cursor with_tenants]. split; [by destruct db|]. simpl. do 5 right. split; [done|by eauto].
  - destruct (Z.leb_spec 0 now); cbn [mbind result_bind tr_enabled negb fst snd].
    + exists now. by split_and!.
    + split; [by destruct db|]. simpl. do 5 right. split; [done|by eauto].
Qed.

Lemma enroll_spec db now t a dn actor : enroll_contract db now t a dn actor (enroll_agent_as db now t a dn actor).
Proof.
  unfold enroll_contract, enroll_agent_as. destruct (required_actor_cases actor) as [[Ha ->]|[Ha ->]]; [by split; [|left]|].
  cbv zeta. assert (normalized_display_name dn = (dn ≫= λ d, if bool_decide (trim d = EmptyString) then None else Some (trim d))) as ->.
  { unfold normalized_display_name, is_empty. destruct dn; [|done]. simpl. by case_bool_decide. }
  set (name := dn ≫= _). unfold transaction.
  destruct (require_enabled_cases db t) as [[He ->]|(e & He & ->)]; cbn [mbind result_bind]; [|cbn [fst snd]; rewrite with_cursor_same; by eauto 10].
  unfold validate_agent_capacity, MAX_AGENTS_PER_TENANT.
  assert (∀ e, negb (bool_decide (is_Some (agents_t db !! (t, a)))) && (1000 <=? zlen (tenant_agents db t)) = e →
    if e then agents_t db !! (t, a) = None ∧ 1000 ≤ zlen (tenant_agents db t) else agents_t db !! (t, a) = None → zlen (tenant_agents db t) < 1000) as Hcap.
  { intros e <-. destruct (agents_t db !! (t, a)) as [old|]; [by rewrite bool_decide_eq_true_2|]. rewrite bool_decide_eq_false_2 by (by intros []).
    cbn [negb andb]. destruct (Z.leb_spec 1000 (zlen (tenant_agents db t))); [done|]. by intros _. }
  destruct (negb _ && _) eqn:E; specialize (Hcap _ eq_refl); cbn [mbind result_bind].
  { cbn [fst snd]. rewrite with_cursor_same. split; [done|]. right; right; left. naive_solver. }
  destruct (agents_check a name) as [[]|e] eqn:Ec; [|cbn [fst snd]; rewrite with_cursor_same; by eauto 10].
  set (row := Build_AgentRow name true (default now (a_enrolled_at <$> agents_t db !! (t, a))) now (agents_t db !! (t, a) ≫= a_last_seen_at)).
  replace (match agents_t db !! (t, a) with Some _ => _ | None => _ end) with row by (unfold row; by destruct (agents_t db !! (t, a))).
  pose proof (agent_record_cases t a row) as Hr. destruct (agent_record_from_row t a row); cbn [fst snd].
  - by split_and!.
  - split; [by destruct db|]. by do 4 right.
Qed.

Lemma set_enabled_spec db now t a value actor : set_enabled_contract db now t a value actor (set_agent_enabled_as db now t a value actor).
Proof.
  unfold set_enabled_contract, set_agent_enabled_as. destruct (required_actor_cases actor) as [[Ha ->]|[Ha ->]]; [by destruct (agents_t db !! (t, a)); (split; [|left])|].
  unfold transaction. destruct (require_enabled_cases db t) as [[He ->]|(e & He & ->)]; [|cbn [fst snd]; rewrite with_cursor_same; by eauto 10].
  destruct (agents_t db !! (t, a)) as [old|]; [|by split_and!]. cbv zeta. set (row := Build_AgentRow _ _ _ _ _).
  pose proof (agent_record_cases t a row) as Hr. destruct (agent_record_from_row t a row); cbn [fst snd].
  - by split_and!.
  - split; [by destruct db|]. right; right. by exists old.
Qed.

(** ** What the ticket operations do *)

Definition ticket_live (now : Z) (t : TenantId) (row : TicketRow) : Prop :=
  k_tenant row = t ∧ k_consumed_at row = None ∧ now < k_expires_at row.

(** Creating a ticket also removes the tenant's dead ones. *)
Definition create_ticket_contract (db : Db) (now k : Z) (t : TenantId) (subject : string) (until ttl : Z)
    (out : result PgStoreError Z * Db) : Prop :=
  let kept := filter (λ p : Z * TicketRow, k_tenant p.2 = t → ticket_live now t p.2) (tickets db) in
  match out.1 with
  | Ok k' => k' = k ∧ enabled db t ∧ trim subject ≠ EmptyString ∧ str_len (trim subject) ≤ 1024 ∧ now < secs_to_ns until ∧ kept !! k = None ∧
      out.2 = with_tickets db (<[k := {| k_tenant := t; k_subject := trim subject; k_created_at := now; k_authorized_until := secs_to_ns until;
                                         k_expires_at := Z.min (now + ttl `div` 1000000 * 1000000) (secs_to_ns until);
                                         k_consumed_at := None |}]> kept)
  | Err e => out.2 = db ∧
      (((trim subject = EmptyString ∨ 1024 < str_len (trim subject)) ∧ e = InvalidStreamTicketSubject) ∨
       (253402300799 < until ∧ e = InvalidStreamTicketAuthorizationExpiry) ∨
       ((ttl < 1000000 ∨ 300 * 1000000000 < ttl) ∧ e = InvalidStreamTicketTtl) ∨
       not_enabled db t e ∨ (secs_to_ns until ≤ now ∧ e = StreamTicketAuthorizationExpired) ∨
       (is_Some (kept !! k) ∧ e = violates "stream_tickets_pkey"))
  end.

Definition consume_ticket_contract (db : Db) (now : Z) (t : TenantId) (k : Z)
    (out : result PgStoreError (option StreamTicketGrant) * Db) : Prop :=
  match out.1 with
  | Ok (Some g) => ∃ row, exchangeable db now t k g row ∧
      out.2 = with_tickets db (<[k := {| k_tenant := t; k_subject := k_subject row; k_created_at := k_created_at row;
        k_authorized_until := k_authorized_until row; k_expires_at := k_expires_at row; k_consumed_at := Some now |}]> (tickets db))
  | Ok None => out.2 = db ∧ enabled db t ∧ ∀ row, tickets db !! k = Some row → ¬ ticket_live now t row
  | Err e => out.2 = db ∧ (not_enabled db t e ∨ ∃ row, tickets db !! k = Some row ∧ k_authorized_until row < 0)
  end.

Lemma ticket_dead_live now t row : k_tenant row = t → ticket_dead now row = true ↔ ¬ ticket_live now t row.
Proof.
  intros Ht. unfold ticket_dead, ticket_live. rewrite orb_true_iff, bool_decide_eq_true, Z.leb_le. split.
  - intros [Hs|He] (_ & Hc & Hl); [rewrite Hc in Hs; by destruct Hs|lia].
  - intros Hn. destruct (k_consumed_at row) eqn:E; [left; by eexists|right].
    destruct (Z.le_gt_cases (k_expires_at row) now); [done|]. destruct Hn. split_and!; [done|done|lia].
Qed.

Lemma kept_tickets db now t : tickets (cleanup_stream_tickets_in db now t).2 =
  filter (λ p : Z * TicketRow, k_tenant p.2 = t → ticket_live now t p.2) (tickets db).
Proof.
  unfold cleanup_stream_tickets_in. cbn [snd tickets with_tickets]. apply map_filter_ext. intros k row _. simpl.
  split.
  - intros Hd Ht. destruct (decide (ticket_live now t row)) as [|Hn]; [done|]. destruct Hd. split; [done|]. by apply (ticket_dead_live now t row Ht).
  - intros Hl [Ht Hd]. apply (ticket_dead_live now t row Ht) in Hd. by apply Hd, Hl.
Qed.

Lemma create_ticket_spec db now k t subject until ttl : 0 ≤ ttl →
  create_ticket_contract db now k t subject until ttl (create_stream_ticket db now k t subject until ttl).
Proof.
  intros Httl. unfold create_ticket_contract, create_stream_ticket, required_stream_ticket_subject, is_empty, MAX_STREAM_TICKET_SUBJECT_BYTES.
  destruct (bool_decide (trim subject = EmptyString) || (1024 <? str_len (trim subject))) eqn:Es; cbn [mbind result_bind].
  { cbn [fst snd]. split; [done|left]. split; [|done]. apply orb_true_iff in Es as [Es|Es]; to_prop; [by left|by right]. }
  unfold stream_ticket_authorization_unix, MAX_STREAM_TICKET_AUTHORIZATION_UNIX, i64_max.
  destruct (Z.ltb_spec 253402300799 until); cbn [mbind result_bind]; [by cbn [fst snd]; eauto 10|].
  destruct (Z.ltb_spec (2 ^ 63 - 1) until); cbn [mbind result_bind]; [lia|].
  unfold stream_ticket_ttl_millis, MAX_STREAM_TICKET_TTL, i64_max.
  destruct ((ttl =? 0) || (5 * 60 * 1000000000 <? ttl)) eqn:El; cbn [mbind result_bind].
  { cbn [fst snd]. split; [done|]. right; right; left. split; [|done]. apply orb_true_iff in El as [El|El]; to_prop; lia. }
  destruct (Z.eqb_spec (ttl `div` 1000000) 0) as [E0|E0]; cbn [mbind result_bind].
  { cbn [fst snd]. split; [done|]. right; right; left. split; [|done]. left. apply Z.div_small_iff in E0; lia. }
  destruct (Z.ltb_spec (2 ^ 63 - 1) (ttl `div` 1000000)) as [Hb|_]; cbn [mbind result_bind].
  { to_prop. pose proof (Z.div_le_upper_bound ttl 1000000 ttl ltac:(lia) ltac:(lia)). lia. }
  unfold transaction. destruct (require_enabled_cases db t) as [[He ->]|(e & He & ->)]; [|cbn [fst snd]; rewrite with_cursor_same; by eauto 10].
  cbv zeta. rewrite kept_tickets. set (kept := filter _ _). destruct (Z.leb_spec (secs_to_ns until) now).
  { cbn [fst snd]. split; [by destruct db|]. by eauto 10. }
  destruct (bool_decide (is_Some (kept !! k))) eqn:Ek; to_prop.
  { cbn [fst snd]. split; [by destruct db|]. by eauto 10. }
  cbn [fst snd]. split_and!; try done. by apply eq_None_not_Some.
Qed.

Lemma consume_ticket_spec db now t k : consume_ticket_contract db now t k (consume_stream_ticket db now t k).
Proof.
  unfold consume_ticket_contract. pose proof (consume_exchangeable db now t k) as Hx. unfold consume_stream_ticket, transaction in *.
  destruct (require_enabled_cases db t) as [[He E]|(e & He & E)]; rewrite E in *; [|cbn [fst snd]; rewrite with_cursor_same; by eauto].
  destruct (tickets db !! k) as [row|] eqn:Ek; [|cbn [fst snd]; by split_and!].
  destruct (bool_decide (k_tenant row = t) && negb (ticket_dead now row)) eqn:Eb.
  - apply andb_true_iff in Eb as [<-%bool_decide_eq_true _]. unfold from_pg_i64 in *. destruct (Z.leb_spec 0 (k_authorized_until row `div` 1000000000)) as [Hp|Hn].
    + cbn [fst snd] in *. destruct (Hx _ _ eq_refl) as [row' Hr]. exists row'. split; [done|]. destruct Hr as (Hr & _). by simplify_eq.
    + cbn [fst snd next_cursor with_tickets]. split; [by destruct db|]. right. exists row. split; [done|].
      destruct (Z.lt_ge_cases (k_authorized_until row) 0) as [|Hge]; [done|]. pose proof (Z.div_pos (k_authorized_until row) 1000000000 Hge ltac:(lia)). lia.
  - cbn [fst snd]. split_and!; [done|done|]. intros row' [= <-] Hl. apply andb_false_iff in Eb as [Eb|Eb]; to_prop; [by destruct Hl|].
    apply (ticket_dead_live now t) in Eb; [done|apply Hl].
Qed.

(** ** The audit trail *)

(** What an administrator controls of an agent. *)
Definition admin_agents (db : Db) : gmap (TenantId * AgentId) (option string * bool * Z) :=
  (λ r, (a_display_name r, a_enabled r, a_enrolled_at r)) <$> agents_t db.

Definition is_operator (op : StoreOp) : bool :=
  match op with OpOperatorEnable _ _ => true | _ => false end.

(** Nothing administrative changes. *)
Definition admin_same (db db' : Db) : Prop := tenants db' = tenants db ∧ admin_agents db' = admin_agents db ∧ audits db' = audits db.
Lemma admin_same_transaction {A} db (body : Db → result PgStoreError A * Db) :
  (∀ a db', body db = (Ok a, db') → admin_same db db') → admin_same db (transaction db body).2.
Proof. intros Hok. unfold transaction. destruct (body db) as [[a|e] db'] eqn:Hb; [by eapply Hok|done]. Qed.

(** An administrative operation does what its contract says; every other
    operation changes nothing administrative. *)
Definition audited (db : Db) (op : StoreOp) : Prop :=
  match op with
  | OpUpsertTenant now t slug dn actor => upsert_contract db now t slug dn actor (upsert_tenant_as text db now t slug dn actor)
  | OpEnroll now t a dn actor => enroll_contract db now t a dn actor (enroll_agent_as db now t a dn actor)
  | OpSetEnabled now t a value actor => set_enabled_contract db now t a value actor (set_agent_enabled_as db now t a value actor)
  | _ => admin_same db (apply_op text db op)
  end.

Lemma admin_agents_touch db now t a : admin_agents (touch_agent db now t a) = admin_agents db.
Proof.
  unfold admin_agents, touch_agent. cbn [agents_t with_agents]. apply map_eq. intros k.
  rewrite !lookup_fmap. destruct (decide (k = (t, a))) as [->|]; [|by rewrite lookup_alter_ne].
  rewrite lookup_alter_eq. by destruct (agents_t db !! (t, a)).
Qed.

(** C16: No operation of the store changes a tenant or what an administrator
    controls of an agent, except the three administrative ones.  One of them
    that succeeds changes the one row it names, as asked, and writes exactly
    one audit row, with the tenant, the trimmed name of the non-blank actor,
    the action, its target, its details and the time; one that is refused, for
    the stated reason, or that finds no agent, leaves the whole store as it
    was.  (The operator's own statements on the tenants' table are not
    operations of the program.) *)
Theorem admin_changes_audited ops op : is_operator op = false → audited (run text ops) op.
Proof.
  intros Hop. set (db := run text ops). pose proof (inv_next _ _ (run_inv text ops)) as Hn. fold db in Hn.
  destruct op as [now env|now t0 slug dn actor|now t0 a dn actor|now t0 a b actor
    |now tid t0 subj au ttl|now t0 tid|now t0|t0 b]; cbn [apply_op audited]; try done.
  - pose proof (append_cases db now env Hn) as Ha.
    destruct (append_envelope db now env) as [[o|e] db']; cbn [snd] in *.
    + destruct Ha as (t' & p & Hs & _ & _ & _ & _ & Ha). destruct (inserted o).
      * destruct Ha as (_ & _ & _ & _ & ->). split_and!; try done. exact (admin_agents_touch db now t' (agent_id env)).
      * by destruct Ha as (-> & _).
    + by destruct Ha as (n & -> & _).
  - apply upsert_spec.
  - apply enroll_spec.
  - apply set_enabled_spec.
  - unfold create_stream_ticket. destruct (subject ← _; _) as [[[? ?] ?]|]; [|done].
    apply admin_same_transaction. intros o db' Hb. cbv zeta in Hb. by repeat case_match; simplify_eq.
  - unfold consume_stream_ticket. apply admin_same_transaction. intros o db' Hb. by repeat case_match; simplify_eq.
  - unfold cleanup_stream_tickets. apply admin_same_transaction. intros o db' Hb.
    unfold cleanup_stream_tickets_in in Hb. destruct (require_enabled_tenant db t0); [|done]. by simplify_eq.
Qed.
End tenancy.
