(* ===== verification/PgConcurrency.v ===== *)
(** * The cloud store: concurrent appends

    [append_envelope] runs in a PostgreSQL transaction that takes the tenant's
    advisory lock before it draws a cursor and keeps it until it commits or
    rolls back.  The step relation interleaves any number of such transactions
    with each other and with the other operations; readers see committed rows
    only. *)

From S2P Require Import Prelude RustStr Otlp Core PgTypes PgStore PgInvariant.

Section concurrency.
  Context `{JsonApi} (text : TenantId → string).

(** An uncommitted insertion. *)
Record Pending := {
  pd_tenant : TenantId;
  pd_envelope : SignalEnvelope;
  pd_payload : CanonicalSignalPayload;
  pd_now : Z;
  pd_cursor : Z;
}.

Record CState := {
  c_db : Db;                    (* the committed state and the identity sequence *)
  c_locks : gmap Z nat;         (* advisory lock key to the transaction that holds it *)
  c_pending : gmap nat Pending; (* the insertions of open transactions *)
}.

(** What the commit of an insertion with cursor [c] makes visible. *)
Definition commit_insert (db : Db) (d : Pending) : Db :=
  let t := pd_tenant d in
  let env := pd_envelope d in
  let p := pd_payload d in
  let c := pd_cursor d in
  with_notification (touch_agent (observe_projection
    (with_events db (events db ++ [{|
       e_cursor := c; e_tenant := t; e_event_id := event_uuid (event_id env);
       e_agent := agent_id env; e_sequence := sequence env;
       e_received_at := received_at_unix_nano env; e_kind := signal_kind_name env;
       e_payload := jsonb (cp_value p); e_payload_bytes := cp_byte_len p;
       e_committed_at := pd_now d |}])) (pd_now d) t c env) (pd_now d) t (agent_id env)) (t, c).

(** The sequential append is drawing a cursor and committing at once. *)
Lemma commit_insert_sequential db now t env p :
  inserted_db db now t env p =
  commit_insert (with_cursor db (next_cursor db + 1))
    {| pd_tenant := t; pd_envelope := env; pd_payload := p; pd_now := now;
       pd_cursor := next_cursor db |}.
Proof. done. Qed.

(** The lock key an operation of [StoreOp] other than an append waits for. *)
Definition op_lock (op : StoreOp) : option Z :=
  match op with OpEnroll _ t _ _ _ => Some (tenant_lock_key t) | _ => None end.
Definition is_append (op : StoreOp) : bool := match op with OpAppend _ _ => true | _ => false end.

Inductive cstep : CState → CState → Prop :=
(* SELECT pg_advisory_xact_lock($1): granted when nobody holds the key *)
| cs_lock s tx t :
    c_locks s !! tenant_lock_key t = None →
    cstep s {| c_db := c_db s; c_locks := <[tenant_lock_key t := tx]> (c_locks s);
               c_pending := c_pending s |}
(* the checks and the INSERT ... RETURNING cursor, under the lock *)
| cs_insert s tx t env p now c db1 :
    c_locks s !! tenant_lock_key t = Some tx → c_pending s !! tx = None →
    scope env = Tenant t → canonical_signal_payload (payload env) = Ok p →
    require_enabled_tenant (c_db s) t = Ok () →
    a_enabled <$> agents_t (c_db s) !! (t, agent_id env) = Some true →
    insert_event (c_db s) now t env p = (Ok (Some c), db1) →
    cstep s {| c_db := with_cursor (c_db s) (next_cursor db1); c_locks := c_locks s;
               c_pending := <[tx := {| pd_tenant := t; pd_envelope := env; pd_payload := p;
                                       pd_now := now; pd_cursor := c |}]> (c_pending s) |}
(* an INSERT that conflicts or fails still draws from the identity sequence *)
| cs_draw s :
    next_cursor (c_db s) ≤ i64_max →
    cstep s {| c_db := with_cursor (c_db s) (next_cursor (c_db s) + 1); c_locks := c_locks s;
               c_pending := c_pending s |}
(* COMMIT: the rows become visible and the locks are released *)
| cs_commit s tx d :
    c_pending s !! tx = Some d →
    cstep s {| c_db := commit_insert (c_db s) d; c_locks := filter (λ p, p.2 ≠ tx) (c_locks s);
               c_pending := delete tx (c_pending s) |}
(* ROLLBACK, at any point *)
| cs_rollback s tx :
    cstep s {| c_db := c_db s; c_locks := filter (λ p, p.2 ≠ tx) (c_locks s);
               c_pending := delete tx (c_pending s) |}
(* every other operation of the store *)
| cs_other s op :
    is_append op = false → (∀ k, op_lock op = Some k → c_locks s !! k = None) →
    cstep s {| c_db := apply_op text (c_db s) op; c_locks := c_locks s; c_pending := c_pending s |}.

Definition c_init : CState := {| c_db := db_empty; c_locks := ∅; c_pending := ∅ |}.
Definition reachable (s : CState) : Prop := rtc cstep c_init s.

(** ** The invariant *)

Record c_inv (s : CState) : Prop := {
  ci_range : ∀ r, r ∈ events (c_db s) → e_cursor r < next_cursor (c_db s);
  ci_locked : ∀ tx d, c_pending s !! tx = Some d →
    c_locks s !! tenant_lock_key (pd_tenant d) = Some tx;
  ci_drawn : ∀ tx d, c_pending s !! tx = Some d → pd_cursor d < next_cursor (c_db s);
  ci_ahead : ∀ tx d r, c_pending s !! tx = Some d → r ∈ events (c_db s) →
    e_tenant r = pd_tenant d → e_cursor r < pd_cursor d;
}.

Lemma other_op_events db op : is_append op = false →
  events (apply_op text db op) = events db ∧ next_cursor (apply_op text db op) = next_cursor db.
Proof.
  assert (∀ A (body : Db → result PgStoreError A * Db),
    (∀ r db', body db = (r, db') → events db' = events db ∧ next_cursor db' = next_cursor db) →
    events (transaction db body).2 = events db ∧
    next_cursor (transaction db body).2 = next_cursor db) as Htx.
  { intros A body Hb. unfold transaction. destruct (body db) as [[a|e] db'] eqn:E;
      specialize (Hb _ _ eq_refl); [done|]. split; [done|]. apply Hb. }
  destruct op as [now env|now t0 slug dn actor|now t0 a dn actor|now t0 a b actor
    |now tid t0 subj au ttl|now t0 tid|now t0|t0 b]; cbn [apply_op]; intros Hop; try done.
  - unfold upsert_tenant_as. case_match; [|done]. apply Htx. intros r db' Hb. cbv zeta in Hb.
    repeat case_match; simplify_eq; done.
  - unfold enroll_agent_as. case_match; [|done]. apply Htx. intros r db' Hb. cbv zeta in Hb.
    destruct (_ ← _; _); [|by simplify_eq]. destruct (agent_record_from_row _ _ _); by simplify_eq.
  - unfold set_agent_enabled_as. case_match; [|done]. apply Htx. intros r db' Hb. cbv zeta in Hb.
    repeat case_match; simplify_eq; done.
  - unfold create_stream_ticket. destruct (subject ← _; _) as [[[? ?] ?]|]; [|done]. apply Htx.
    intros r db' Hb. cbv zeta in Hb. repeat case_match; simplify_eq; done.
  - unfold consume_stream_ticket. apply Htx. intros r db' Hb. repeat case_match; simplify_eq; done.
  - unfold cleanup_stream_tickets. apply Htx. intros r db' Hb. unfold cleanup_stream_tickets_in in Hb.
    destruct (require_enabled_tenant db t0); by simplify_eq.
Qed.

Lemma insert_event_cursor db now t env p c db1 : insert_event db now t env p = (Ok (Some c), db1) →
  c = next_cursor db ∧ next_cursor db1 = next_cursor db + 1.
Proof.
  unfold insert_event. destruct (i64_max <? _); [done|]. destruct (negb _); [done|].
  destruct (_ <=? 0); [done|]. destruct (find_event _ _ _ _); [done|].
  destruct (existsb _ _); [done|]. by intros [= <- <-].
Qed.

Lemma lock_kept (m : gmap Z nat) k tx tx' : m !! k = Some tx' → tx' ≠ tx →
  filter (λ p : Z * nat, p.2 ≠ tx) m !! k = Some tx'.
Proof. intros Hk Hne. by apply map_lookup_filter_Some. Qed.

Lemma cstep_inv s s' : cstep s s' → c_inv s → c_inv s'.
Proof.
  intros Hst [Hr Hl Hd Ha]. destruct Hst as [s tx t Hfree|s tx t env p now c db1 Hlk Hpn Hs Hp Ht Hag Hins
    |s Hmax|s tx d Hpd|s tx|s op Hop Hlk]; split; cbn [c_db c_locks c_pending] in *; try done.
  - intros tx' d Hp. specialize (Hl tx' d Hp).
    rewrite lookup_insert_ne; [done|]. congruence.
  - apply insert_event_cursor in Hins as [-> ->]. intros r Hin. specialize (Hr r Hin). cbn [with_cursor next_cursor]. lia.
  - intros tx' d [[<- <-]|[_ Hp']]%lookup_insert_Some; [done|by apply Hl].
  - apply insert_event_cursor in Hins as [-> ->].
    intros tx' d [[<- <-]|[_ Hp']]%lookup_insert_Some; cbn [pd_cursor with_cursor next_cursor]; [lia|].
    specialize (Hd tx' d Hp'). lia.
  - apply insert_event_cursor in Hins as [-> ->].
    intros tx' d r [[<- <-]|[_ Hp']]%lookup_insert_Some Hin Hten;
      cbn [pd_cursor pd_tenant with_cursor events] in *; [by apply Hr|by eapply Ha].
  - intros r Hin. specialize (Hr r Hin). cbn [with_cursor next_cursor]. lia.
  - intros tx' d Hp. specialize (Hd tx' d Hp). cbn [with_cursor next_cursor]. lia.
  - intros r [Hin| ->%list_elem_of_singleton]%elem_of_app; [by apply Hr|by apply (Hd tx d)].
  - intros tx' d' [Hne Hp]%lookup_delete_Some. apply lock_kept; [by apply Hl|done].
  - intros tx' d' [Hne Hp]%lookup_delete_Some. by apply (Hd tx' d').
  - intros tx' d' r [Hne Hp]%lookup_delete_Some [Hin| ->%list_elem_of_singleton]%elem_of_app Hten;
      [by eapply Ha|]. cbn [e_tenant] in Hten. exfalso. apply Hne.
    pose proof (Hl tx d Hpd) as H1. pose proof (Hl tx' d' Hp) as H2. rewrite Hten in H1. congruence.
  - intros tx' d' [Hne Hp]%lookup_delete_Some. apply lock_kept; [by apply Hl|done].
  - intros tx' d' [Hne Hp]%lookup_delete_Some. by apply (Hd tx' d').
  - intros tx' d' r [Hne Hp]%lookup_delete_Some. by eapply Ha.
  - destruct (other_op_events (c_db s) op Hop) as [-> ->]. done.
  - destruct (other_op_events (c_db s) op Hop) as [_ ->]. done.
  - destruct (other_op_events (c_db s) op Hop) as [-> _]. done.
Qed.

Lemma reachable_inv s : reachable s → c_inv s.
Proof.
  intros Hr. assert (c_inv c_init) as Hi.
  { split; cbn [c_init c_db c_locks c_pending db_empty events]; intros *.
    - by intros ?%elem_of_nil.
    - by rewrite lookup_empty.
    - by rewrite lookup_empty.
    - by rewrite lookup_empty. }
  unfold reachable in Hr. induction Hr as [|s1 s2 s3 Hst _ IH]; [done|]. by eapply IH, cstep_inv.
Qed.

(** One step only adds events, above every committed event of their tenant. *)
Definition extends (s s' : CState) : Prop :=
  ∃ new, events (c_db s') = events (c_db s) ++ new ∧
    ∀ r r0, r ∈ new → r0 ∈ events (c_db s) → e_tenant r0 = e_tenant r → e_cursor r0 < e_cursor r.

Lemma extends_same s s' : events (c_db s') = events (c_db s) → extends s s'.
Proof. intros He. exists []. rewrite He, app_nil_r. split; [done|]. by intros r r0 ?%elem_of_nil. Qed.

Lemma cstep_extends s s' : c_inv s → cstep s s' → extends s s'.
Proof.
  intros [Hr Hl Hd Ha] Hst. destruct Hst; try (by apply extends_same).
  - eexists. split; [done|]. intros r r0 ->%list_elem_of_singleton Hin Hten.
    cbn [e_cursor e_tenant] in *. by eapply Ha.
  - apply extends_same. cbn. by apply other_op_events.
Qed.

Lemma extends_trans s1 s2 s3 : extends s1 s2 → extends s2 s3 → extends s1 s3.
Proof.
  intros (n1 & E1 & H1) (n2 & E2 & H2). exists (n1 ++ n2). rewrite E2, E1, app_assoc. split; [done|].
  intros r r0 [Hr|Hr]%elem_of_app Hr0 Ht; [by apply H1|]. apply H2; [done| |done].
  rewrite E1. apply elem_of_app. by left.
Qed.

Lemma steps_extend s s' : c_inv s → rtc cstep s s' → extends s s'.
Proof.
  intros Hi Hst. induction Hst as [s|s s1 s' Hst _ IH]; [by apply extends_same|].
  eapply extends_trans; [by apply cstep_extends|]. by apply IH, (cstep_inv s).
Qed.

(** C3: cursors are handed out in commit order: however appends, rollbacks and
    other operations interleave, when a reader has seen some event of its
    tenant, every event of that tenant with a smaller cursor that will ever
    exist is already committed, so advancing to that cursor skips nothing. *)
Theorem reader_never_skips s s' r0 r :
  reachable s → rtc cstep s s' →
  r0 ∈ events (c_db s) → r ∈ events (c_db s') → e_tenant r0 = e_tenant r →
  e_cursor r ≤ e_cursor r0 → r ∈ events (c_db s).
Proof.
  intros Hs Hst Hr0 Hr Ht Hc. apply reachable_inv in Hs.
  destruct (steps_extend s s' Hs Hst) as (new & He & Hnew).
  rewrite He in Hr. apply elem_of_app in Hr as [Hr|Hr]; [done|].
  specialize (Hnew r r0 Hr Hr0 Ht). lia.
Qed.
End concurrency.
