(* ===== verification/PgExamples.v ===== *)
(** * The cloud store on a concrete history

    A JSON codec for the two empty requests, a tenant with one agent and one
    accepted signal, and the theorems of the store applied to them. *)

From stdpp Require Import sorting.
From S2P Require Import Prelude RustStr Otlp Core PgTypes PgStore PgInvariant PgReplay PgTheorems PgTenancy PgConcurrency.

(** The witnesses evaluate the store; stdpp's empty map has to unfold first. *)
#[local] Transparent gmap_empty.

Module DemoJson.
Definition empty_metrics : Signal := Metrics {| resource_metrics_of := [] |}.
Definition empty_logs : Signal := Logs {| resource_logs_of := [] |}.
Definition metrics_text : list byte := as_bytes "{'Metrics':{'resourceMetrics':[]}}".
Definition logs_text : list byte := as_bytes "{'Logs':{'resourceLogs':[]}}".
Definition decode (l : list byte) : result string Signal :=
  if bool_decide (l = metrics_text) then Ok empty_metrics
  else if bool_decide (l = logs_text) then Ok empty_logs
  else Err "expected value at line 1 column 1".
#[export] Instance demo_json : JsonApi := {|
  json := list byte;
  signal_chunks s :=
    match s with
    | Metrics {| resource_metrics_of := [] |} => ([take 10 metrics_text; drop 10 metrics_text], None)
    | Logs {| resource_logs_of := [] |} => ([logs_text], None)
    | _ => ([], Some "unsupported")
    end;
  signal_of_slice := decode;
  value_of_slice l := Ok l;
  signal_of_value := decode;
  json_is_object l := bool_decide (take 1 l = as_bytes "{");
  jsonb v := v |}.

Definition text (t : TenantId) : string := u64_to_string (tenant_uuid t).
Definition tenant : TenantId := mkTenantId 7.
Definition other : TenantId := mkTenantId 8.
Definition agent : AgentId := mkAgentId "agent-a".
Definition env : SignalEnvelope := mkEnvelope (mkEventId 1) (Tenant tenant) agent 5 100 empty_logs.
Definition env2 : SignalEnvelope := mkEnvelope (mkEventId 2) (Tenant tenant) agent 6 200 empty_metrics.
Definition setup : list StoreOp :=
  [OpUpsertTenant 1000 tenant "acme" "Acme" "root"; OpEnroll 2000 tenant agent None "root"].
Definition history : list StoreOp := setup ++ [OpAppend 3000 env].
Definition payload_of (l : list byte) : CanonicalSignalPayload :=
  {| cp_value := l : json; cp_byte_len := zlen l |}.

Lemma canonical_logs : canonical_signal_payload empty_logs = Ok (payload_of logs_text).
Proof. vm_refl. Qed.
Lemma canonical_metrics : canonical_signal_payload empty_metrics = Ok (payload_of metrics_text).
Proof. vm_refl. Qed.

Lemma faithful e : agent_id e = agent → payload e = empty_logs ∨ payload e = empty_metrics →
  envelope_wf e → stores_faithfully e.
Proof.
  intros Ha Hp Hwf. unfold stores_faithfully. rewrite Ha. split_and!; [by vm_compute| |done|].
  - unfold agent_id_ok. split_and!; [done|by vm_compute|by vm_compute|by vm_compute].
  - intros p. destruct Hp as [-> | ->]; intros Hc; [rewrite canonical_logs in Hc|rewrite canonical_metrics in Hc];
      injection Hc as <-; vm_refl.
Qed.
Lemma env_faithful : stores_faithfully env.
Proof. apply faithful; [done|by left|]. unfold envelope_wf, in_u64, u64_max. simpl. lia. Qed.
Lemma env2_faithful : stores_faithfully env2.
Proof. apply faithful; [done|by right|]. unfold envelope_wf, in_u64, u64_max. simpl. lia. Qed.
End DemoJson.

Import DemoJson.

Lemma append_retry_witness :
  append_envelope (run text history) 9000 env
  = (Ok (mkAppendOutcome 1 false), with_cursor (run text history) 3).
Proof.
  etransitivity; [apply (append_retry text history 9000 tenant 1 env (payload_of logs_text) env
                           (payload_of logs_text))|];
    [| |reflexivity|reflexivity|reflexivity|apply canonical_logs|
     apply f_equal2; [vm_refl|apply (f_equal (with_cursor _)); vm_refl]].
  - replace (accepted text history) with [(1, env)] by vm_refl. by left.
  - unfold append_ready. split_and!; [vm_refl..|by apply Z.leb_le; vm_refl|vm_refl|by apply Z.ltb_lt; vm_refl].
Defined.

Lemma append_then_load_witness :
  load_envelopes_after_bounded (append_envelope (run text history) 9000 env2).2 (Tenant tenant) 1 10 0
  = Ok [mkSignalRecord 2 env2].
Proof.
  apply (append_then_load text history 9000 tenant 2 env2 _ 10 0).
  - apply pair_fst. vm_refl.
  - reflexivity.
  - apply env2_faithful.
  - lia.
Defined.

Definition two : list StoreOp := history ++ [OpAppend 4000 env2].

Lemma two_faithful : Forall (λ ce, stores_faithfully ce.2)
  (accepted_after tenant 0 (accepted text two)).
Proof.
  replace (accepted_after tenant 0 (accepted text two)) with [(1, env); (2, env2)]
    by vm_refl.
  constructor; [apply env_faithful|]. constructor; [apply env2_faithful|constructor].
Qed.

Lemma replay_page_witness : ∃ page rest,
  [(1, env); (2, env2)] = page ++ rest ∧
  load_envelopes_after_bounded (run text two) (Tenant tenant) 0 1 50 = Ok (record_of <$> page) ∧
  zlen page ≤ 1 ∧
  (sumZ ((λ ce, envelope_bytes ce.2) <$> page) ≤ 50 ∨ (length page ≤ 1)%nat) ∧
  (0 < 1 → page = [] → rest = []).
Proof.
  replace [(1, env); (2, env2)] with (accepted_after tenant 0 (accepted text two))
    by vm_refl.
  apply (replay_page text two tenant 0 1 50 two_faithful); [vm_refl|done|lia].
Defined.

Lemma replay_follows_all_witness :
  follow 3 (run text two) (Tenant tenant) 0 1 0
  = Some (Ok [mkSignalRecord 1 env; mkSignalRecord 2 env2]).
Proof.
  etransitivity; [apply (replay_follows_all text two tenant 0 1 0 3 two_faithful)|vm_refl];
    [vm_refl|done|done|]. replace (accepted text two) with [(1, env); (2, env2)] by vm_refl.
  vm_compute. lia.
Defined.

Lemma projection_matches_events_witness :
  load_projection (run text two) tenant = Ok (Some {| pr_tenant_id := tenant; pr_last_cursor := 2;
    pr_projection := foldl projection_observe projection_default [env; env2] |}).
Proof.
  etransitivity; [apply (projection_matches_events text two tenant)|]; vm_refl.
Defined.

Lemma agent_capacity_witness : zlen (tenant_agents (run text history) tenant) ≤ 1000.
Proof. apply (agent_capacity text history tenant). Defined.

Definition with_ticket : Db :=
  (create_stream_ticket (run text history) 5000 99 tenant " alice " 60 60000000000).2.

Lemma stream_ticket_grant_witness :
  (consume_stream_ticket with_ticket 6000 tenant 99).1
  = Ok (Some {| grant_subject := "alice"; authorized_until_unix := 60 |}).
Proof.
  etransitivity; [apply (stream_ticket_grant (run text history) 5000 99 tenant " alice " 60
    60000000000 with_ticket 6000 tenant)|]; [lia|unfold with_ticket; apply pair_fst; vm_refl|vm_refl..].
Defined.

Lemma stream_ticket_once_witness :
  let grant := {| grant_subject := "alice"; authorized_until_unix := 60 |} in
  (∃ row, exchangeable with_ticket 6000 tenant 99 grant row) ∧
  (consume_stream_ticket (foldl (apply_op text) (consume_stream_ticket with_ticket 6000 tenant 99).2
     [OpCleanup 6500 tenant; OpAppend 6600 env2]) 7000 tenant 99).1 ≠ Ok (Some grant) ∧
  6000 < 5000 + 60000000000.
Proof.
  intros grant. destruct (stream_ticket_once text with_ticket 6000 tenant 99 grant (consume_stream_ticket with_ticket 6000 tenant 99).2) as (R & O & I).
  - apply pair_fst. vm_refl.
  - split; [exact R|]. split; [apply O; repeat constructor; intros []|].
    assert (with_ticket = foldl (apply_op text) with_ticket []) as E by (cbn [foldl]; reflexivity).
    assert (create_stream_ticket (run text history) 5000 99 tenant " alice " 60 60000000000 = (Ok 99, with_ticket)) as C by (unfold with_ticket; apply pair_fst; vm_refl).
    destruct (I _ _ [] _ _ _ _ _ C (List.Forall_nil _) E) as (_ & L & _). exact L.
Defined.

(** Byte order is a deterministic collation. *)
#[export] Instance byte_order_laws : CollationLaws String.leb.
Proof.
  split; [apply String.leb_total| |apply String.leb_antisym].
  intros a b c Hab Hbc. apply Is_true_true in Hab, Hbc. apply Is_true_true. change (String.le a c). by transitivity b.
Qed.

Lemma tenant_isolation_witness :
  let db := run text history in
  let db' := apply_op text db (OpAppend 4000 env2) in
  same_for other db db' ∧
  (∀ after limit budget, load_envelopes_after_bounded db' (Tenant other) after limit budget
                         = load_envelopes_after_bounded db (Tenant other) after limit budget) ∧
  list_agents String.leb db' other = list_agents String.leb db other ∧
  load_projection db' other = load_projection db other ∧
  (∀ now k, (consume_stream_ticket db' now other k).1 = (consume_stream_ticket db now other k).1).
Proof. apply (tenant_isolation text String.leb history (OpAppend 4000 env2) other). discriminate. Defined.

Lemma admin_changes_audited_witness :
  audited text (run text history) (OpSetEnabled 5000 tenant agent false "root").
Proof. apply (admin_changes_audited text history (OpSetEnabled 5000 tenant agent false "root")). reflexivity. Defined.

(** Two transactions of the same tenant, one after the other. *)
Definition st_other (s : CState) (op : StoreOp) : CState :=
  {| c_db := apply_op text (c_db s) op; c_locks := c_locks s; c_pending := c_pending s |}.
Definition st_lock (s : CState) (tx : nat) : CState :=
  {| c_db := c_db s; c_locks := <[tenant_lock_key tenant := tx]> (c_locks s);
     c_pending := c_pending s |}.
Definition pending (e : SignalEnvelope) (l : list byte) (now c : Z) : Pending :=
  {| pd_tenant := tenant; pd_envelope := e; pd_payload := payload_of l; pd_now := now; pd_cursor := c |}.
Definition st_insert (s : CState) (tx : nat) (d : Pending) : CState :=
  {| c_db := with_cursor (c_db s) (pd_cursor d + 1); c_locks := c_locks s;
     c_pending := <[tx := d]> (c_pending s) |}.
Definition st_commit (s : CState) (tx : nat) (d : Pending) : CState :=
  {| c_db := commit_insert (c_db s) d; c_locks := filter (λ p, p.2 ≠ tx) (c_locks s);
     c_pending := delete tx (c_pending s) |}.

Definition d1 := pending env logs_text 3000 1.
Definition d2 := pending env2 metrics_text 4000 2.
Definition s_setup : CState := foldl st_other c_init setup.
Definition s_first : CState := st_commit (st_insert (st_lock s_setup 1) 1 d1) 1 d1.
Definition s_second : CState := st_commit (st_insert (st_lock s_first 2) 2 d2) 2 d2.

Lemma append_steps s tx e l now c :
  let d := pending e l now c in
  c_locks s !! tenant_lock_key tenant = None → c_pending s !! tx = None →
  scope e = Tenant tenant → canonical_signal_payload (payload e) = Ok (payload_of l) →
  require_enabled_tenant (c_db s) tenant = Ok () →
  a_enabled <$> agents_t (c_db s) !! (tenant, agent_id e) = Some true →
  (insert_event (c_db s) now tenant e (payload_of l)).1 = Ok (Some c) →
  rtc (cstep text) s (st_commit (st_insert (st_lock s tx) tx d) tx d).
Proof.
  intros d Hfree Hp Hs Hc Ht Ha Hi1.
  destruct (insert_event (c_db s) now tenant e (payload_of l)) as [o db1] eqn:Hi. simpl in Hi1. subst o.
  destruct (insert_event_cursor _ _ _ _ _ _ _ Hi) as [Hcur Hnext].
  eapply rtc_l; [by apply (cs_lock text s tx tenant)|].
  eapply rtc_l; [eapply (cs_insert text (st_lock s tx) tx tenant e (payload_of l) now c db1)|].
  - apply lookup_insert_eq.
  - done.
  - done.
  - done.
  - done.
  - done.
  - done.
  - assert (next_cursor db1 = pd_cursor d + 1) as -> by (rewrite Hnext, <-Hcur; done).
    apply rtc_once. apply (cs_commit text (st_insert (st_lock s tx) tx d) tx d).
    apply lookup_insert_eq.
Qed.

Lemma first_reachable : reachable text s_first.
Proof.
  unfold reachable. eapply rtc_l; [apply (cs_other text c_init (OpUpsertTenant 1000 tenant "acme" "Acme" "root")); done|].
  eapply rtc_l; [apply (cs_other text _ (OpEnroll 2000 tenant agent None "root")); [done|by intros]|].
  eapply append_steps; vm_refl.
Qed.

Lemma second_follows : rtc (cstep text) s_first s_second.
Proof. eapply append_steps; vm_refl. Qed.

Definition row1 : EventRow :=
  {| e_cursor := 1; e_tenant := tenant; e_event_id := 1; e_agent := agent; e_sequence := 5;
     e_received_at := 100; e_kind := "logs"; e_payload := logs_text : json; e_payload_bytes := 28;
     e_committed_at := 3000 |}.

Lemma reader_never_skips_witness : row1 ∈ events (c_db s_first).
Proof.
  apply (reader_never_skips text s_first s_second row1 row1 first_reachable second_follows).
  - replace (events (c_db s_first)) with [row1] by vm_refl. by left.
  - by replace (events (c_db s_second)) with (row1 :: drop 1 (events (c_db s_second))) by vm_refl; left.
  - reflexivity.
  - reflexivity.
Defined.
