(* ===== verification/Sequence.v ===== *)
(** * The durable sequence allocator of the agent (skid-monitor-agent, exporters.rs)

    An authenticated exporter numbers its requests from a state file that it
    replaces atomically before each request.  The file system is explicit: the
    directory entry readers see, the entries that may come back after a power
    failure because the directory was not synced yet, and the temporary files
    beside it.  Every system call may fail and the process or the machine may
    stop between any two of them; [sequences_increase] shows that no number is
    ever handed out twice all the same. *)

From stdpp Require Import sorting.
From S2P Require Import Prelude RustStr.

Definition MAX_SEQUENCE_STATE_BYTES : Z := 64.
Definition SEQUENCE_TEMP_ATTEMPTS : nat := 32.

(** ** The file system *)

(** A file: its bytes, and whether they have reached stable storage. *)
Record FileData := mkFile { content : list byte; synced : bool }.

(** What [symlink_metadata] says a path is. *)
Inductive Entry :=
| Regular (f : FileData)
| Symlink
| OtherEntry.

(** The directory of the state file, and the counter of temporary names of the
    running process. *)
Record Host := mkHost {
  d_entry : option Entry;          (* the state path *)
  d_stale : list (option Entry);   (* what it may be again after a power failure *)
  d_temps : gmap string FileData;  (* the temporary files beside it *)
  d_lock : option Entry;           (* the companion lock path *)
  temp_counter : Z;                (* SEQUENCE_TEMP_COUNTER *)
}.

Definition with_temps (d : Host) (m : gmap string FileData) : Host :=
  mkHost (d_entry d) (d_stale d) m (d_lock d) (temp_counter d).
Definition with_counter (d : Host) (c : Z) : Host :=
  mkHost (d_entry d) (d_stale d) (d_temps d) (d_lock d) c.
Definition with_lock_file (d : Host) (e : Entry) : Host :=
  mkHost (d_entry d) (d_stale d) (d_temps d) (Some e) (temp_counter d).

(** [rename]: the entry is replaced at once for readers; until the directory
    is synced the old entries may come back. *)
Definition rename_temp (d : Host) (name : string) : Host :=
  match d_temps d !! name with
  | Some f => mkHost (Some (Regular f)) (d_entry d :: d_stale d) (delete name (d_temps d))
                (d_lock d) (temp_counter d)
  | None => d
  end.
Definition sync_directory (d : Host) : Host :=
  mkHost (d_entry d) [] (d_temps d) (d_lock d) (temp_counter d).

(** ** System calls that may fail or be cut off

    What the operating system does with the next system call: carry it out,
    refuse it, or never return from it; [partial] is how much of a write has
    been done in the latter cases. *)
Inductive Outcome :=
| Proceed
| Refuse (error : string) (partial : nat)
| Stop (partial : nat).

Inductive Run (A : Type) :=
| Done (a : A)
| Failed (error : string)
| Stopped.
Arguments Done {A} a.
Arguments Failed {A} error.
Arguments Stopped {A}.

(** A computation consumes outcomes, one per system call, and changes the
    host; calls beyond the end of the script are carried out. *)
Definition Io (A : Type) : Type := list Outcome → Host → Run A * Host * list Outcome.

#[global] Instance io_ret : MRet Io := λ A a os d, (Done a, d, os).
#[global] Instance io_bind : MBind Io := λ A B k m os d,
  match m os d with
  | (Done a, d, os) => k a os d
  | (Failed e, d, os) => (Failed e, d, os)
  | (Stopped, d, os) => (Stopped, d, os)
  end.

Definition io_fail {A} (e : string) : Io A := λ os d, (Failed e, d, os).
Definition get_host : Io Host := λ os d, (Done d, d, os).

Definition syscall_with {A} (describe : string → string) (interrupted : nat → Host → Host)
    (effect : Host → A * Host) : Io A := λ os d,
  match os with
  | [] => let '(a, d') := effect d in (Done a, d', [])
  | Proceed :: os => let '(a, d') := effect d in (Done a, d', os)
  | Refuse e n :: os => (Failed (describe e), interrupted n d, os)
  | Stop n :: os => (Stopped, interrupted n d, os)
  end.
(** A call that takes effect as a whole or not at all. *)
Definition syscall {A} (what : string) (effect : Host → A * Host) : Io A :=
  syscall_with (λ e, what +:+ ": " +:+ e) (λ _ d, d) effect.
Definition check_call (what : string) : Io () := syscall what (λ d, ((), d)).

Definition io_of_result {A} (r : result string A) : Io A :=
  match r with Ok a => mret a | Err e => io_fail e end.

(** ** Reading the state *)

Definition newline : byte := "010"%byte.

(** [value.strip_suffix('\n').unwrap_or(&value)] *)
Definition strip_newline (l : list byte) : list byte :=
  match reverse l with
  | b :: t => if bool_decide (b = newline) then reverse t else l
  | [] => l
  end.

(** [file.read_to_string] fails on bytes that are not UTF-8. *)
Definition parse_sequence_state (bytes : list byte) : result string Z :=
  if (zlen bytes =? 0) || (MAX_SEQUENCE_STATE_BYTES <? zlen bytes)
  then Err "corrupt: expected a short decimal u64"
  else match from_utf8 bytes with
  | None => Err "read sequence state: stream did not contain valid UTF-8"
  | Some value =>
    let value := strip_newline (as_bytes value) in
    if bool_decide (value = []) || negb (forallb is_ascii_digit value)
    then Err "corrupt: expected a decimal u64"
    else match parse_u64 (of_bytes value) with
    | None => Err "corrupt: invalid decimal u64"
    | Some v => if v =? 0 then Err "corrupt: zero is reserved" else Ok v
    end
  end.

(** Opening the file, restricting its permissions and reading it are calls
    that may fail. *)
Definition read_sequence_state (f : FileData) : Io Z :=
  if (zlen (content f) =? 0) || (MAX_SEQUENCE_STATE_BYTES <? zlen (content f))
  then io_fail "corrupt: expected a short decimal u64"
  else
    _ ← check_call "open sequence state";
    _ ← check_call "restrict permissions";
    _ ← check_call "read sequence state";
    io_of_result (parse_sequence_state (content f)).

(** ** Replacing the state *)

(** [writeln!(temp_file, "{next}")] *)
Definition sequence_line (next : Z) : list byte := as_bytes (u64_to_string next) ++ [newline].

Definition temp_name (file_name : string) (pid counter : Z) : string :=
  "." +:+ file_name +:+ ".tmp." +:+ u64_to_string pid +:+ "." +:+ u64_to_string counter.

(** [create_new]: an existing name is [AlreadyExists], and the next counter
    is tried. *)
Fixpoint create_temp (attempts : nat) (file_name : string) (pid : Z) : Io string :=
  match attempts with
  | O => io_fail "could not create a unique sequence state temporary file"
  | S attempts =>
    d ← get_host;
    let name := temp_name file_name pid (temp_counter d) in
    _ ← (λ os d, (Done (), with_counter d (as_u64 (temp_counter d + 1)), os)) : Io ();
    created ← syscall "create sequence state temporary file"
      (λ d, match d_temps d !! name with
            | Some _ => (false, d)
            | None => (true, with_temps d (<[name := mkFile [] false]> (d_temps d)))
            end);
    if created : bool then mret name else create_temp attempts file_name pid
  end.

(** [writeln!]: an interrupted write leaves part of the line. *)
Definition write_line (name : string) (line : list byte) : Io () :=
  syscall_with (λ e, "write sequence state: " +:+ e)
    (λ n d, with_temps d (<[name := mkFile (take n line) false]> (d_temps d)))
    (λ d, ((), with_temps d (<[name := mkFile line false]> (d_temps d)))).

Definition sync_temp (name : string) : Io () :=
  syscall "fsync sequence state"
    (λ d, ((), with_temps d (alter (λ f, mkFile (content f) true) name (d_temps d)))).

(** The closure of [persist_sequence_state]. *)
Definition write_and_replace (name : string) (next : Z) : Io () :=
  _ ← check_call "restrict permissions";
  _ ← write_line name (sequence_line next);
  _ ← sync_temp name;
  _ ← syscall "atomically replace sequence state" (λ d, ((), rename_temp d name));
  syscall "fsync sequence state directory" (λ d, ((), sync_directory d)).

(** [let _ = fs::remove_file(..)]: a refusal is ignored. *)
Definition remove_temp (name : string) : Io () := λ os d,
  match os with
  | Refuse _ _ :: os => (Done (), d, os)
  | Stop _ :: os => (Stopped, d, os)
  | _ => (Done (), with_temps d (delete name (d_temps d)), tail os)
  end.

(** [if persist_result.is_err() { .. }] *)
Definition or_cleanup {A} (m : Io A) (cleanup : Io ()) : Io A := λ os d,
  match m os d with
  | (Failed e, d, os) => (_ ← cleanup; io_fail e) os d
  | r => r
  end.

Definition persist_sequence_state (file_name : string) (pid next : Z) : Io () :=
  name ← create_temp SEQUENCE_TEMP_ATTEMPTS file_name pid;
  or_cleanup (write_and_replace name next) (remove_temp name).

(** ** The allocator *)

(** [open_sequence_lock]: the lock file is created when it is missing. *)
Definition open_sequence_lock : Io () :=
  d ← get_host;
  match d_lock d with
  | Some Symlink => io_fail "sequence lock must not be a symlink"
  | e =>
    _ ← syscall "open sequence lock"
          (λ d, ((), match e with
                     | None => with_lock_file d (Regular (mkFile [] false))
                     | Some _ => d
                     end));
    _ ← check_call "inspect sequence lock";
    match e with
    | Some OtherEntry => io_fail "sequence lock is not a regular file"
    | _ => check_call "restrict permissions"
    end
  end.

(** [DurableSequence::open_with_start]: [locked] when another process holds
    the advisory lock; [initial] is the clock.  The result is the next
    sequence value to return. *)
Definition open_with_start (file_name : string) (pid initial : Z) (locked : bool) : Io Z :=
  _ ← open_sequence_lock;
  _ ← check_call "acquire sequence state lock";
  if locked then io_fail "sequence state is already locked by another exporter/process"
  else
    _ ← check_call "inspect sequence state";
    d ← get_host;
    match d_entry d with
    | Some (Regular f) => read_sequence_state f
    | Some _ => io_fail "sequence state must be a regular, non-symlink file"
    | None =>
      let initial := Z.max initial 1 in
      _ ← persist_sequence_state file_name pid initial;
      mret initial
    end.

(** [DurableSequence::next_blocking] under its mutex: the value returned and
    the next one.  When it fails the value in memory stays. *)
Definition next_blocking (file_name : string) (pid next : Z) : Io (Z * Z) :=
  let allocated := next in
  match checked_add allocated 1 with
  | None => io_fail "OTLP request sequence exhausted"
  | Some following =>
    _ ← persist_sequence_state file_name pid following;
    mret (allocated, following)
  end.

(** ** Processes, failures and restarts *)

(** What a power failure makes of an entry: synced bytes survive, others may
    have become anything. *)
Inductive survives : option Entry → option Entry → Prop :=
| survives_synced c : survives (Some (Regular (mkFile c true))) (Some (Regular (mkFile c true)))
| survives_garbage c f : survives (Some (Regular (mkFile c false))) (Some (Regular f))
| survives_other e : (∀ f, e ≠ Some (Regular f)) → survives e e.

(** The host after a process was killed, or after a power failure. *)
Inductive restart (d : Host) : Host → Prop :=
| restart_killed : restart d (with_counter d 0)
| restart_power e e' temps lock : e ∈ d_entry d :: d_stale d → survives e e' →
    restart d (mkHost e' [] temps lock 0).

(** The system: the host, the allocator of the process that holds the lock,
    and every sequence handed out so far. *)
Record System := mkSystem { host : Host; live : option Z; issued : list Z }.

Section system.
Context (file_name : string).

Inductive sstep : System → System → Prop :=
| s_open s pid initial os n d os' :
    live s = None → in_u64 initial →
    open_with_start file_name pid initial false os (host s) = (Done n, d, os') →
    sstep s (mkSystem d (Some n) (issued s))
| s_open_failed s pid initial os r d os' :
    live s = None → in_u64 initial →
    open_with_start file_name pid initial false os (host s) = (r, d, os') → (∀ n, r ≠ Done n) →
    sstep s (mkSystem d None (issued s))
| s_open_busy s pid initial os r d os' :
    is_Some (live s) →
    open_with_start file_name pid initial true os (host s) = (r, d, os') →
    sstep s (mkSystem d (live s) (issued s))
| s_next s pid os n a n' d os' :
    live s = Some n → next_blocking file_name pid n os (host s) = (Done (a, n'), d, os') →
    sstep s (mkSystem d (Some n') (issued s ++ [a]))
| s_next_failed s pid os n e d os' :
    live s = Some n → next_blocking file_name pid n os (host s) = (Failed e, d, os') →
    sstep s (mkSystem d (Some n) (issued s))
| s_next_stopped s pid os n d os' :
    live s = Some n → next_blocking file_name pid n os (host s) = (Stopped, d, os') →
    sstep s (mkSystem d None (issued s))
| s_restart s d :
    restart (host s) d → sstep s (mkSystem d None (issued s)).

End system.

(** ** Steps that leave the state file alone *)

(** What the state path is or may become again. *)
Definition candidates (d : Host) : list (option Entry) := d_entry d :: d_stale d.

Definition keeps {A} (m : Io A) : Prop :=
  ∀ os d r d' os', m os d = (r, d', os') → candidates d' = candidates d.

Lemma keeps_ret {A} (a : A) : keeps (mret a).
Proof. intros os d r d' os' [= <- <- <-]. done. Qed.
Lemma keeps_fail {A} e : keeps (@io_fail A e).
Proof. intros os d r d' os' [= <- <- <-]. done. Qed.
Lemma keeps_get : keeps get_host.
Proof. intros os d r d' os' [= <- <- <-]. done. Qed.
Lemma keeps_bind {A B} (m : Io A) (k : A → Io B) : keeps m → (∀ a, keeps (k a)) → keeps (m ≫= k).
Proof.
  intros Hm Hk os d r d' os' H. unfold mbind, io_bind in H.
  destruct (m os d) as [[[a|e|] d1] os1] eqn:E; apply Hm in E; [|congruence..].
  rewrite <-E. by eapply Hk.
Qed.
Lemma keeps_result {A} (r : result string A) : keeps (io_of_result r).
Proof. destruct r; [apply keeps_ret|apply keeps_fail]. Qed.
Lemma keeps_syscall {A} f i (e : Host → A * Host) :
  (∀ n d, candidates (i n d) = candidates d) → (∀ d, candidates (e d).2 = candidates d) →
  keeps (syscall_with f i e).
Proof.
  intros Hi He os d r d' os' H. unfold syscall_with in H. specialize (He d).
  destruct (e d) as [a d1]. destruct os as [|[| |] os]; injection H as <- <- <-; auto.
Qed.
Lemma keeps_check what : keeps (check_call what).
Proof. by apply keeps_syscall. Qed.

Create HintDb keeps.
#[export] Hint Resolve keeps_ret keeps_fail keeps_get keeps_result keeps_check : keeps.
Ltac keeps := repeat first [progress eauto with keeps | apply keeps_bind; [|intros ?]].

Lemma keeps_create_temp n file pid : keeps (create_temp n file pid).
Proof.
  induction n as [|n IH]; simpl; keeps.
  - intros os d r d' os' [= <- <- <-]. done.
  - apply keeps_syscall; [done|]. intros d. by case_match.
  - case_match; keeps.
Qed.
Lemma keeps_write_line name l : keeps (write_line name l).
Proof. by apply keeps_syscall. Qed.
Lemma keeps_sync_temp name : keeps (sync_temp name).
Proof. by apply keeps_syscall. Qed.
Lemma keeps_remove_temp name : keeps (remove_temp name).
Proof. intros os d r d' os' H. destruct os as [|[| |] os]; by simplify_eq/=. Qed.
Lemma keeps_read f : keeps (read_sequence_state f).
Proof. unfold read_sequence_state. case_match; keeps. Qed.
Lemma keeps_open_lock : keeps open_sequence_lock.
Proof.
  unfold open_sequence_lock. keeps. destruct (d_lock _) as [[]|]; keeps;
    apply keeps_syscall; try done; intros ?; by case_match.
Qed.
#[export] Hint Resolve keeps_create_temp keeps_write_line keeps_sync_temp keeps_remove_temp
  keeps_read keeps_open_lock : keeps.

Lemma io_bind_Done {A B} (m : Io A) (k : A → Io B) os d b d' os' :
  (m ≫= k) os d = (Done b, d', os') →
  ∃ a d1 os1, m os d = (Done a, d1, os1) ∧ k a os1 d1 = (Done b, d', os').
Proof.
  unfold mbind, io_bind. destruct (m os d) as [[[a|e|] d1] os1]; [eauto|done..].
Qed.

Lemma io_bind_cases {A B} (m : Io A) (k : A → Io B) os d r d' os' :
  (m ≫= k) os d = (r, d', os') →
  (∃ a d1 os1, m os d = (Done a, d1, os1) ∧ k a os1 d1 = (r, d', os')) ∨
  (∃ rm, m os d = (rm, d', os') ∧ (∀ a, rm ≠ Done a) ∧ (∀ b, r ≠ Done b)).
Proof.
  unfold mbind, io_bind. destruct (m os d) as [[[a|e|] d1] os1] eqn:E;
    [eauto 10|intros [= <- <- <-]; right..]; [exists (Failed e)|exists Stopped]; done.
Qed.

Lemma syscall_Done {A} f i (e : Host → A * Host) os d a d' os' :
  syscall_with f i e os d = (Done a, d', os') → e d = (a, d').
Proof. unfold syscall_with. destruct (e d). destruct os as [|[| |] os]; by intros [= <- <- <-]. Qed.

(** ** Replacing the state file *)

Definition line_entry (next : Z) : option Entry := Some (Regular (mkFile (sequence_line next) true)).

Lemma write_and_replace_spec name next os d r d' os' :
  write_and_replace name next os d = (r, d', os') →
  (r = Done () → candidates d' = [line_entry next]) ∧
  (∀ e, e ∈ candidates d' → e = line_entry next ∨ e ∈ candidates d).
Proof.
  unfold write_and_replace. intros H.
  apply io_bind_cases in H as [(a1 & d1 & o1 & H1 & H)|(rm & H & _ & Hr)];
    [|apply keeps_check in H as ->; naive_solver].
  apply keeps_check in H1. rewrite <-H1. clear H1 d. rename d1 into d.
  apply io_bind_cases in H as [(a2 & d2 & o2 & H2 & H)|(rm & H & _ & Hr)];
    [|apply keeps_write_line in H as ->; naive_solver].
  rewrite <-(keeps_write_line _ _ _ _ _ _ _ H2). apply syscall_Done in H2. injection H2 as _ E2.
  apply io_bind_cases in H as [(a3 & d3 & o3 & H3 & H)|(rm & H & _ & Hr)];
    [|apply keeps_sync_temp in H as ->; naive_solver].
  rewrite <-(keeps_sync_temp _ _ _ _ _ _ H3). apply syscall_Done in H3. injection H3 as _ E3.
  assert (Ht : d_temps d3 !! name = Some (mkFile (sequence_line next) true)).
  { rewrite <-E3, <-E2. simpl. by rewrite lookup_alter_eq, lookup_insert_eq. }
  clear E2 E3 d d2. rename d3 into d.
  apply io_bind_cases in H as [(a4 & d4 & o4 & H4 & H)|(rm & H & Hm & Hr)].
  - apply syscall_Done in H4. injection H4 as _ E4. unfold rename_temp in E4. rewrite Ht in E4. subst d4.
    assert (Hd : d' = sync_directory (mkHost (line_entry next) (d_entry d :: d_stale d)
        (delete name (d_temps d)) (d_lock d) (temp_counter d)) ∨
      (r ≠ Done () ∧ d' = mkHost (line_entry next) (d_entry d :: d_stale d)
        (delete name (d_temps d)) (d_lock d) (temp_counter d))).
    { unfold syscall, syscall_with in H. destruct o4 as [|[| |] o4]; simplify_eq; auto. }
    destruct Hd as [->|[Hn ->]]; (split; [|set_solver]); done.
  - assert (d' = d) as ->; [|naive_solver].
    unfold syscall, syscall_with in H. destruct o3 as [|[| |] o3]; simplify_eq; naive_solver.
Qed.

Lemma or_cleanup_cases {A} (m : Io A) (c : Io ()) os d r d' os' : keeps c →
  or_cleanup m c os d = (r, d', os') →
  ∃ rm dm om, m os d = (rm, dm, om) ∧ candidates d' = candidates dm ∧ (∀ a, r = Done a → rm = Done a).
Proof.
  intros Hc. unfold or_cleanup. destruct (m os d) as [[[a|e|] dm] om] eqn:E;
    [naive_solver| |naive_solver].
  intros H. do 3 eexists. split; [done|]. split.
  - eapply (keeps_bind c (λ _, @io_fail A e)); [done|intros; apply keeps_fail|done].
  - intros a ->. apply io_bind_Done in H as (?&?&?&?&?). done.
Qed.

(** Whatever happens on the way, afterwards the state path is the new line or
    what it could be before; once the call returns it is the new line for
    good. *)
Lemma persist_spec file pid next os d r d' os' :
  persist_sequence_state file pid next os d = (r, d', os') →
  (r = Done () → candidates d' = [line_entry next]) ∧
  (∀ e, e ∈ candidates d' → e = line_entry next ∨ e ∈ candidates d).
Proof.
  unfold persist_sequence_state. intros H.
  apply io_bind_cases in H as [(name & d1 & o1 & H1 & H)|(rm & H & _ & Hr)];
    [|apply keeps_create_temp in H as ->; naive_solver].
  apply keeps_create_temp in H1. rewrite <-H1.
  apply or_cleanup_cases in H as (rm & dm & om & H & -> & Hr); [|apply keeps_remove_temp].
  apply write_and_replace_spec in H as [? ?]. naive_solver.
Qed.

(** ** Reading back what was written *)

Lemma sequence_line_ascii v : forallb (λ b, b2z b <? 0x80) (sequence_line v) = true.
Proof.
  unfold sequence_line. rewrite forallb_app, andb_true_iff. split; [|done].
  pose proof (u64_to_string_digits v) as H. rewrite forallb_forall in *. intros b Hb.
  specialize (H b Hb). unfold is_ascii_digit, between in H. to_prop. lia.
Qed.

Lemma parse_sequence_line v : 1 ≤ v ≤ u64_max → parse_sequence_state (sequence_line v) = Ok v.
Proof.
  intros Hv. assert (in_u64 v) as Hu by (unfold in_u64; lia). unfold parse_sequence_state.
  assert (Hl : 1 ≤ zlen (sequence_line v) ≤ 21).
  { unfold sequence_line. rewrite zlen_app. pose proof (u64_to_string_length v Hu).
    pose proof (zlen_nonneg (as_bytes (u64_to_string v))). unfold zlen at 2 4. simpl. lia. }
  rewrite (proj2 (orb_false_iff _ _)) by (unfold MAX_SEQUENCE_STATE_BYTES; lia).
  rewrite (proj2 (from_utf8_Some (sequence_line v) (of_bytes (sequence_line v)))).
  2:{ rewrite as_of_bytes. split; [done|]. unfold valid_str. rewrite as_of_bytes.
      apply ascii_utf8_valid, sequence_line_ascii. }
  cbv zeta. rewrite as_of_bytes.
  assert (strip_newline (sequence_line v) = as_bytes (u64_to_string v)) as ->.
  { unfold strip_newline, sequence_line. rewrite reverse_app. simpl.
    apply reverse_involutive. }
  rewrite (bool_decide_eq_false_2 (as_bytes _ = [])).
  2:{ intros H. apply (u64_to_string_not_empty v), as_bytes_inj. exact H. }
  rewrite u64_to_string_digits, of_as_bytes, parse_u64_to_string by done. simpl.
  destruct (v =? 0) eqn:E; [to_prop; lia|done].
Qed.

Lemma parse_sequence_range l v : parse_sequence_state l = Ok v → 1 ≤ v ≤ u64_max.
Proof.
  unfold parse_sequence_state. repeat case_match; try done. intros [= <-]. to_prop.
  match goal with H : parse_u64 _ = Some _ |- _ => apply parse_u64_range in H; unfold in_u64 in H end. lia.
Qed.

Lemma read_sequence_Done f os d v d' os' :
  read_sequence_state f os d = (Done v, d', os') → parse_sequence_state (content f) = Ok v.
Proof.
  unfold read_sequence_state. case_match; [done|]. intros Hr.
  do 3 (apply io_bind_Done in Hr; destruct Hr as (? & ? & ? & _ & Hr)).
  destruct (parse_sequence_state _); [by injection Hr as ->|discriminate].
Qed.

(** ** No sequence is handed out twice *)

Definition above (l : list Z) (v : Z) : Prop := 1 ≤ v ≤ u64_max ∧ Forall (λ a, a < v) l.

(** Everything the state path may be holds a value above every sequence ever
    handed out, and so does the process that holds the lock. *)
Record seq_inv (s : System) : Prop := {
  si_sorted : StronglySorted Z.lt (issued s);
  si_stored e : issued s ≠ [] → e ∈ candidates (host s) →
    ∃ v, e = line_entry v ∧ above (issued s) v;
  si_live n : live s = Some n → above (issued s) n;
}.

Lemma open_spec file pid initial locked os d r d' os' :
  open_with_start file pid initial locked os d = (r, d', os') → in_u64 initial →
  (locked = true → candidates d' = candidates d ∧ ∀ n, r ≠ Done n) ∧
  (d_entry d ≠ None → candidates d' = candidates d) ∧
  (∀ n, r = Done n → 1 ≤ n ≤ u64_max ∧
     ∀ e, d_entry d = Some e → ∃ f, e = Regular f ∧ parse_sequence_state (content f) = Ok n).
Proof.
  intros H Hi. unfold open_with_start in H.
  apply io_bind_cases in H as [(a1 & d1 & o1 & H1 & H)|(rm & H & _ & Hr)];
    [|apply keeps_open_lock in H; split; [done|split; [done|by intros n Hn; destruct (Hr n)]]].
  apply keeps_open_lock in H1. assert (d_entry d1 = d_entry d) as He by (unfold candidates in H1; congruence).
  rewrite <-H1, <-He. clear H1 He d. rename d1 into d.
  apply io_bind_cases in H as [(a2 & d2 & o2 & H2 & H)|(rm & H & _ & Hr)];
    [|apply keeps_check in H; split; [done|split; [done|by intros n Hn; destruct (Hr n)]]].
  apply keeps_check in H2. assert (d_entry d2 = d_entry d) as He by (unfold candidates in H2; congruence).
  rewrite <-H2, <-He. clear H2 He d. rename d2 into d.
  destruct locked; [injection H as <- <- _; by split_and!|].
  apply io_bind_cases in H as [(a3 & d3 & o3 & H3 & H)|(rm & H & _ & Hr)];
    [|apply keeps_check in H; split; [done|split; [done|by intros n Hn; destruct (Hr n)]]].
  apply keeps_check in H3. assert (d_entry d3 = d_entry d) as He by (unfold candidates in H3; congruence).
  rewrite <-H3, <-He. clear H3 He d. rename d3 into d. split; [done|].
  unfold mbind at 1, io_bind at 1, get_host in H.
  destruct (d_entry d) as [[f| |]|] eqn:E; [|injection H as <- <- _; by split_and!..|].
  - split; [intros _; by eapply keeps_read|]. intros n ->. apply read_sequence_Done in H.
    split; [by eapply parse_sequence_range|]. intros e [= <-]. eauto.
  - split; [done|]. intros n ->. split; [|done].
    apply io_bind_Done in H as (? & ? & ? & _ & [= <- _ _]). unfold in_u64 in Hi. unfold u64_max in *. lia.
Qed.

Lemma inv_open file s pid initial os r d os' : seq_inv s → in_u64 initial →
  open_with_start file pid initial false os (host s) = (r, d, os') →
  seq_inv (mkSystem d (match r with Done n => Some n | _ => None end) (issued s)).
Proof.
  intros [Hs Hc Hl] Hi H. apply open_spec in H as (_ & Hk & Hn); [|done]. split; simpl; [done|..].
  - intros e Hne He. rewrite Hk in He; [auto|]. intros Hnone.
    destruct (Hc (d_entry (host s)) Hne) as (v & Hv & _); [by left|]. unfold line_entry in Hv. congruence.
  - intros n Hr. destruct r as [n'| |]; simplify_eq. destruct (Hn n eq_refl) as [? Hf].
    split; [done|]. destruct (decide (issued s = [])) as [->|Hne]; [constructor|].
    destruct (Hc (d_entry (host s)) Hne) as (v & Hv & Ha); [by left|].
    destruct (Hf _ Hv) as (f & [= <-] & Hp). simpl in Hp. destruct Ha as [? Ha].
    rewrite parse_sequence_line in Hp by done. by simplify_eq.
Qed.

Lemma inv_next file s pid n os r d os' : seq_inv s → live s = Some n →
  next_blocking file pid n os (host s) = (r, d, os') →
  match r with
  | Done (a, n') => seq_inv (mkSystem d (Some n') (issued s ++ [a]))
  | _ => seq_inv (mkSystem d (Some n) (issued s))
  end.
Proof.
  intros [Hs Hc Hl] Hn H. destruct (Hl n Hn) as [Hr Hab]. unfold next_blocking, checked_add in H.
  destruct (n + 1 <=? u64_max) eqn:E; to_prop;
    [|injection H as <- <- _; split; simpl; [done|done|by intros ? [= <-]]].
  assert (Hlt : Forall (λ a, a < n + 1) (issued s)) by (eapply Forall_impl; [done|]; simpl; lia).
  apply io_bind_cases in H as [(a1 & d1 & o1 & H1 & H)|(rm & H & _ & Hnd)].
  - injection H as <- <- _. destruct a1. apply persist_spec in H1 as [H1 _]. specialize (H1 eq_refl).
    assert (Ha : above (issued s ++ [n]) (n + 1)).
    { split; [lia|]. apply Forall_app. split; [done|]. constructor; [lia|constructor]. }
    split; simpl; [|intros e _ He|by intros ? [= <-]].
    + apply StronglySorted_app. split_and!; [|done|repeat constructor].
      intros x y Hx ->%list_elem_of_singleton. rewrite Forall_forall in Hab. by apply Hab.
    + rewrite H1, list_elem_of_singleton in He. eauto.
  - apply persist_spec in H as [_ Hd]. assert (seq_inv (mkSystem d (Some n) (issued s))).
    { split; simpl; [done| |naive_solver]. intros e Hne [->|He]%Hd; [|auto].
      exists (n + 1). split; [done|]. split; [lia|done]. }
    destruct r; naive_solver.
Qed.

Lemma inv_restart s d : seq_inv s → restart (host s) d → seq_inv (mkSystem d None (issued s)).
Proof.
  intros [Hs Hc Hl] Hr. split; simpl; [done| |done]. intros e Hne He.
  destruct Hr as [|e0 e' temps lock He0 Hsv]; [by apply Hc|].
  unfold candidates in He. simpl in He. apply list_elem_of_singleton in He as ->.
  destruct (Hc e0 Hne He0) as (v & -> & Ha). exists v. split; [|done].
  inversion Hsv as [c Hx Hy| |e1 Ho]; [by subst|by subst]. 
Qed.

Lemma sstep_inv file s s' : seq_inv s → sstep file s s' → seq_inv s'.
Proof.
  intros Hi Hst. destruct Hst as [s pid i os n d os' Hl Hu H|s pid i os r d os' Hl Hu H Hn|
    s pid i os r d os' Hl H|s pid os n a n' d os' Hl H|s pid os n e d os' Hl H|
    s pid os n d os' Hl H|s d Hr].
  - by apply (inv_open _ _ _ _ _ _ _ _ Hi Hu) in H.
  - apply (inv_open _ _ _ _ _ _ _ _ Hi Hu) in H. by destruct r; [destruct (Hn a)| |].
  - unfold open_with_start in H. assert (Hk : candidates d = candidates (host s)).
    { eapply (keeps_bind _ _ keeps_open_lock); [|exact H]. intros ?. keeps. }
    destruct Hi. split; simpl; [done| |done]. rewrite Hk. done.
  - by apply (inv_next _ _ _ _ _ _ _ _ Hi Hl) in H.
  - by apply (inv_next _ _ _ _ _ _ _ _ Hi Hl) in H.
  - apply (inv_next _ _ _ _ _ _ _ _ Hi Hl) in H as []. by split.
  - by apply inv_restart.
Qed.

(** A host no allocator has used yet: anything may be at the paths. *)
Definition fresh_system (d : Host) : System := mkSystem d None [].

Lemma reachable_seq_inv file d s : rtc (sstep file) (fresh_system d) s → seq_inv s.
Proof.
  assert (H0 : seq_inv (fresh_system d)) by (by split; [constructor|..]).
  revert H0. generalize (fresh_system d). intros s0 H0 Hs.
  induction Hs as [|s1 s2 s3 Hst _ IH]; [done|]. apply IH. by eapply sstep_inv.
Qed.

(** C18: whatever the state directory holds at first, and however system calls
    fail, processes are killed, power is lost between any two system calls and
    the agent is restarted or started twice, the sequence numbers handed out
    are strictly increasing positive 64-bit integers: none is ever used
    twice. *)
Theorem sequences_increase file d s :
  rtc (sstep file) (fresh_system d) s →
  StronglySorted Z.lt (issued s) ∧ Forall (λ a, 1 ≤ a ≤ u64_max) (issued s).
Proof.
  intros Hr. split; [exact (si_sorted _ (reachable_seq_inv _ _ _ Hr))|].
  remember (fresh_system d) as s0 eqn:E. assert (H0 : Forall (λ a, 1 ≤ a ≤ u64_max) (issued s0)) by by subst.
  assert (Hi : seq_inv s0) by (subst; apply (reachable_seq_inv file d); constructor).
  clear E d. induction Hr as [|s1 s2 s3 Hst _ IH]; [done|]. apply IH; [|by eapply sstep_inv].
  destruct Hst; try done. simpl. apply Forall_app. split; [done|]. constructor; [|constructor].
  unfold next_blocking in *. destruct (checked_add n 1); [|done].
  match goal with H : _ = (Done (a, n'), _, _) |- _ =>
    apply io_bind_Done in H as (? & ? & ? & _ & [= <- _ _ _]) end.
  by apply (si_live _ Hi).
Qed.

(** ** Progress and durability *)

Lemma create_temp_free k file pid d : (0 < k)%nat →
  d_temps d !! temp_name file pid (temp_counter d) = None →
  ∃ d', create_temp k file pid [] d = (Done (temp_name file pid (temp_counter d)), d', []) ∧
        candidates d' = candidates d.
Proof.
  intros Hk Hf. destruct k as [|k]; [lia|]. simpl.
  unfold mbind, io_bind, get_host, syscall, syscall_with. simpl. rewrite Hf. simpl.
  eexists. split; reflexivity.
Qed.

Lemma persist_free file pid next d :
  d_temps d !! temp_name file pid (temp_counter d) = None →
  ∃ d', persist_sequence_state file pid next [] d = (Done (), d', []) ∧
        candidates d' = [line_entry next].
Proof.
  intros Hf. destruct (create_temp_free SEQUENCE_TEMP_ATTEMPTS file pid d) as (d1 & Hc & _);
    [unfold SEQUENCE_TEMP_ATTEMPTS; lia|done|].
  destruct (persist_sequence_state file pid next [] d) as [[r d'] os'] eqn:E.
  assert (r = Done () ∧ os' = []) as [-> ->].
  { unfold persist_sequence_state, mbind, io_bind in E. rewrite Hc in E. by injection E as <- <- <-. }
  eexists. split; [done|]. by apply (persist_spec _ _ _ _ _ _ _ _ E).
Qed.

Lemma open_line file pid initial v d : 1 ≤ v ≤ u64_max → d_entry d = line_entry v →
  (∀ e, d_lock d = Some e → ∃ f, e = Regular f) →
  (open_with_start file pid initial false [] d).1.1 = Done v.
Proof.
  intros Hv He Hl. unfold open_with_start, open_sequence_lock, mbind, io_bind, get_host.
  assert (Hr : ∀ d', (read_sequence_state (mkFile (sequence_line v) true) [] d').1.1 = Done v).
  { intros d'. pose proof (parse_sequence_line v Hv) as Hp. unfold read_sequence_state. simpl.
    pose proof Hp as Hp'. unfold parse_sequence_state in Hp'. destruct (_ || _); [done|].
    unfold mbind, io_bind. simpl. by rewrite Hp. }
  destruct (d_lock d) as [e|] eqn:E.
  - destruct (Hl e eq_refl) as (f & ->). simpl. rewrite He. apply Hr.
  - simpl. rewrite He. apply Hr.
Qed.

(** C19: as long as values remain, a call with no failing system call and a free
    temporary name returns the current value and moves on by one; and once a
    call has returned, a new process finds the following value in the file,
    whether the old one exited, was killed or power was lost. *)
Theorem sequence_durable file pid n d :
  (∀ pid' os a n' d' os' d2 initial,
     next_blocking file pid n os d = (Done (a, n'), d', os') → 1 ≤ n → restart d' d2 →
     (∀ e, d_lock d2 = Some e → ∃ f, e = Regular f) →
     a = n ∧ n' = n + 1 ∧ (open_with_start file pid' initial false [] d2).1.1 = Done (n + 1)) ∧
  (n < u64_max → d_temps d !! temp_name file pid (temp_counter d) = None →
   ∃ d', next_blocking file pid n [] d = (Done (n, n + 1), d', [])).
Proof.
  split.
  - intros pid' os a n' d' os' d2 initial H Hn Hr Hl. unfold next_blocking, checked_add in H.
    destruct (n + 1 <=? u64_max) eqn:E; [|done]. to_prop.
    apply io_bind_Done in H as ([] & d1 & o1 & H & [= <- <- -> _]).
    apply persist_spec in H as [H _]. specialize (H eq_refl). unfold candidates in H. injection H as He Hs.
    split_and!; [done..|]. apply open_line; [lia| |done].
    destruct Hr as [|e0 e' temps lock He0 Hsv]; [done|]. simpl.
    rewrite He, Hs in He0. apply list_elem_of_singleton in He0 as ->.
    unfold line_entry in *. by inversion Hsv; subst.
  - intros Hn Hf. destruct (persist_free file pid (n + 1) d Hf) as (d' & Hp & _).
    exists d'. unfold next_blocking, checked_add. destruct (n + 1 <=? u64_max) eqn:E; [|to_prop; lia].
    unfold mbind, io_bind. by rewrite Hp.
Qed.

(** *** A power failure between the rename and the sync of the directory *)

Definition empty_host : Host := mkHost None [] ∅ None 0.
Definition killed_before_sync : list Outcome :=
  [Proceed; Proceed; Proceed; Proceed; Proceed; Stop 0].

Definition h1 : Host := (open_with_start "seq" 7 40 false [] empty_host).1.2.
Definition h2 : Host := (next_blocking "seq" 7 40 [] h1).1.2.
Definition h3 : Host := (next_blocking "seq" 7 41 killed_before_sync h2).1.2.
Definition h4 : Host := mkHost (line_entry 41) [] ∅ (d_lock h3) 0.
Definition h5 : Host := (open_with_start "seq" 8 99 false [] h4).1.2.
Definition h6 : Host := (next_blocking "seq" 8 41 [] h5).1.2.

#[local] Transparent gmap_empty.

Lemma run_eq {A} (m : Run A * Host * list Outcome) r os :
  m.1.1 = r → m.2 = os → m = (r, m.1.2, os).
Proof. destruct m as [[]]; simpl; congruence. Qed.
Ltac run_refl h := unfold h; refine (run_eq _ _ _ _ _); vm_refl.

Lemma demo_trace : rtc (sstep "seq") (fresh_system empty_host) (mkSystem h6 (Some 42) [40; 41]).
Proof.
  eapply rtc_l; [apply (s_open "seq" (fresh_system empty_host) 7 40 [] 40 h1 []);
    [done|unfold in_u64, u64_max; lia|run_refl h1]|].
  eapply rtc_l; [apply (s_next "seq" (mkSystem h1 (Some 40) []) 7 [] 40 40 41 h2 []); [done|run_refl h2]|].
  eapply rtc_l; [apply (s_next_stopped "seq" (mkSystem h2 (Some 41) [40]) 7 killed_before_sync 41 h3 []);
    [done|run_refl h3]|].
  eapply rtc_l; [apply (s_restart "seq" (mkSystem h3 None [40]) h4)|].
  { apply (restart_power h3 (line_entry 41) (line_entry 41)); [|constructor].
    replace (d_entry (host (mkSystem h3 None [40])) :: _) with [line_entry 42; line_entry 41] by vm_refl.
    right; left. }
  eapply rtc_l; [apply (s_open "seq" (mkSystem h4 None [40]) 8 99 [] 41 h5 []);
    [done|unfold in_u64, u64_max; lia|run_refl h5]|].
  apply rtc_once. apply (s_next "seq" (mkSystem h5 (Some 41) [40]) 8 [] 41 41 42 h6 []); [done|run_refl h6].
Qed.

Lemma sequences_increase_witness :
  StronglySorted Z.lt [40; 41] ∧ Forall (λ a, 1 ≤ a ≤ u64_max) [40; 41].
Proof. apply (sequences_increase "seq" empty_host _ demo_trace). Defined.

Lemma sequence_durable_witness :
  (open_with_start "seq" 9 99 false [] (with_counter h2 0)).1.1 = Done 41.
Proof.
  refine (proj2 (proj2 (proj1 (sequence_durable "seq" 7 40 h1) 9 [] 40 41 h2 [] (with_counter h2 0) 99 _ _ _ _))).
  - run_refl h2.
  - lia.
  - constructor.
  - replace (d_lock (with_counter h2 0)) with (Some (Regular (mkFile [] false))) by vm_refl.
    intros e [= <-]. eauto.
Defined.
