(* ===== verification/AgentConfig.v ===== *)
(** * The agent's configuration (skid-monitor-agent, config.rs)

    The configuration record with its defaults, the defaults taken from the
    environment, the runtime repair of zero intervals, and the validation.
    serde's parser and reqwest's URL parser are parameters.
    [validate_correct] characterises the configurations that are accepted. *)

From S2P Require Import Prelude RustStr.

(** ** Third-party interfaces *)

(** The parts of a parsed [reqwest::Url] the code looks at. *)
Record Url := {
  url_scheme : string;
  url_host : option string;
  url_username : string;
  url_password : option string;
  url_path : string;
  url_query : option string;
  url_query_pairs : list (string * string);
  url_fragment : option string;
  url_origin : string;              (* origin().ascii_serialization() *)
  url_text : string;                (* to_string() *)
}.
Class UrlApi := { url_parse : string → option Url }.

(** ** The configuration *)

Inductive LogStartPosition := Beginning | End_.
Inductive ProcessorConfig := Batch.

Record OtlpAuthConfig := {
  token_url : string;
  client_id : string;
  client_secret_env : string;
  sequence_state_path : string;
  oauth_scope : option string;
}.

Inductive ExporterConfig :=
| SkidClientConfig (addr : option string)
| LoggingConfig (include_json : bool)
| OtlpConfig (endpoint : string) (auth : option OtlpAuthConfig).

Record PipelineConfig := {
  pl_receivers : list string;
  pl_processors : list string;
  pl_exporters : list string;
}.
Record PipelinesConfig := {
  pls_metrics : PipelineConfig;
  pls_traces : PipelineConfig;
  pls_logs : PipelineConfig;
}.

Record SelfObservationReceiverConfig := { so_enabled : bool; so_interval_secs : Z }.
Record DeviceReceiverConfig := { dev_enabled : bool; dev_listen_addr : string }.
Record OtlpReceiverConfig := { otlp_enabled : bool; otlp_grpc_addr : string }.
Record DatabaseLogSourceConfig := {
  src_system : string;
  src_path : string;
  src_namespace : option string;
  src_service_name : option string;
  src_instance : option string;
}.
Record DatabaseLogsReceiverConfig := {
  db_enabled : bool;
  db_poll_interval_millis : Z;
  db_start_at : LogStartPosition;
  db_max_line_bytes : Z;
  db_max_read_bytes : Z;
  db_sources : list DatabaseLogSourceConfig;
}.
Record ReceiversConfig := {
  rcv_self_observation : SelfObservationReceiverConfig;
  rcv_device : DeviceReceiverConfig;
  rcv_otlp : OtlpReceiverConfig;
  rcv_database_logs : DatabaseLogsReceiverConfig;
}.
Record AgentConfig := {
  receivers : ReceiversConfig;
  processors : gmap string ProcessorConfig;
  exporters : gmap string ExporterConfig;
  pipelines : PipelinesConfig;
}.

(** The messages of [ConfigError::Validate], one constructor per text. *)
Inductive ConfigMessage :=
| NoExporter
| PipelineWithoutExporter (signal : string)
| UnknownReceiver (signal receiver : string)
| UnknownProcessor (signal processor : string)
| UnknownExporter (signal exporter : string)
| EmptyEndpoint (exporter : string)
| EmptyClientId (exporter : string)
| InvalidSecretEnv (exporter : string)
| InvalidSequencePath (exporter : string)
| EmptyScope (exporter : string)
| InvalidTokenUrl (exporter : string)
| UnsafeTokenUrl (exporter : string)
| InvalidEndpointUrl (exporter : string)
| UnsafeEndpointUrl (exporter : string)
| NoLogSource
| LineLimitTooLarge
| ReadLimitTooLarge
| EmptySystem (index : Z)
| EmptyPath (index : Z).

Inductive ConfigError :=
| ConfigRead (path source : string)
| ConfigParse (path source : string)
| ConfigValidate (message : ConfigMessage).

(** ** Defaults *)

Definition Env : Type := string → option string.
Definition env_or_legacy (env : Env) (primary legacy : string) : option string :=
  match env primary with Some v => Some v | None => env legacy end.

Definition DEFAULT_CYCLE_INTERVAL_SECS : Z := 15.
Definition DEFAULT_DEVICE_LISTEN_ADDR : string := "127.0.0.1:9101".
Definition DEFAULT_OTLP_GRPC_ADDR : string := "127.0.0.1:4317".
Definition default_database_log_poll_interval_millis : Z := 1000.
Definition default_database_log_max_line_bytes : Z := 64 * 1024.
Definition default_database_log_max_read_bytes : Z := 1024 * 1024.

Definition switched_off (value : string) : bool :=
  eq_ignore_ascii_case value "off" || eq_ignore_ascii_case value "disabled".

Definition device_receiver_default (env : Env) : DeviceReceiverConfig :=
  match env_or_legacy env "SKID_MONITOR_DEVICE_LISTEN_ADDR" "MONITOR_CAT_DEVICE_LISTEN_ADDR" with
  | Some value => if switched_off value
                  then {| dev_enabled := false; dev_listen_addr := DEFAULT_DEVICE_LISTEN_ADDR |}
                  else {| dev_enabled := true; dev_listen_addr := value |}
  | None => {| dev_enabled := true; dev_listen_addr := DEFAULT_DEVICE_LISTEN_ADDR |}
  end.
Definition otlp_receiver_default (env : Env) : OtlpReceiverConfig :=
  match env "SKID_MONITOR_OTLP_GRPC_ADDR" with
  | Some value => if switched_off value
                  then {| otlp_enabled := false; otlp_grpc_addr := DEFAULT_OTLP_GRPC_ADDR |}
                  else {| otlp_enabled := true; otlp_grpc_addr := value |}
  | None => {| otlp_enabled := false; otlp_grpc_addr := DEFAULT_OTLP_GRPC_ADDR |}
  end.
Definition database_logs_default : DatabaseLogsReceiverConfig :=
  {| db_enabled := false; db_poll_interval_millis := default_database_log_poll_interval_millis;
     db_start_at := End_; db_max_line_bytes := default_database_log_max_line_bytes;
     db_max_read_bytes := default_database_log_max_read_bytes; db_sources := [] |}.
Definition self_observation_default : SelfObservationReceiverConfig :=
  {| so_enabled := true; so_interval_secs := DEFAULT_CYCLE_INTERVAL_SECS |}.
Definition receivers_default (env : Env) : ReceiversConfig :=
  {| rcv_self_observation := self_observation_default; rcv_device := device_receiver_default env;
     rcv_otlp := otlp_receiver_default env; rcv_database_logs := database_logs_default |}.
Definition pipeline_default : PipelineConfig :=
  {| pl_receivers := ["self_observation"; "device"; "otlp"; "database_logs"];
     pl_processors := []; pl_exporters := ["skid"] |}.
Definition default_pipelines : PipelinesConfig :=
  {| pls_metrics := pipeline_default; pls_traces := pipeline_default; pls_logs := pipeline_default |}.
Definition default_exporters (env : Env) : gmap string ExporterConfig :=
  {["skid" := SkidClientConfig
      (env_or_legacy env "SKID_MONITOR_CLIENT_ADDR" "MONITOR_CAT_CLIENT_ADDR")]}.
Definition agent_config_default (env : Env) : AgentConfig :=
  {| receivers := receivers_default env; processors := ∅; exporters := default_exporters env;
     pipelines := default_pipelines |}.

(** Zero means the default. *)
Definition or_default (value default_ : Z) : Z := if value =? 0 then default_ else value.

Definition apply_runtime_defaults (c : AgentConfig) : AgentConfig :=
  let r := receivers c in
  let so := rcv_self_observation r in
  let db := rcv_database_logs r in
  {| receivers :=
       {| rcv_self_observation :=
            {| so_enabled := so_enabled so;
               so_interval_secs := or_default (so_interval_secs so) DEFAULT_CYCLE_INTERVAL_SECS |};
          rcv_device := rcv_device r; rcv_otlp := rcv_otlp r;
          rcv_database_logs :=
            {| db_enabled := db_enabled db;
               db_poll_interval_millis := or_default (db_poll_interval_millis db)
                                            default_database_log_poll_interval_millis;
               db_start_at := db_start_at db;
               db_max_line_bytes := or_default (db_max_line_bytes db)
                                      default_database_log_max_line_bytes;
               db_max_read_bytes := or_default (db_max_read_bytes db)
                                      default_database_log_max_read_bytes;
               db_sources := db_sources db |} |};
     processors := processors c; exporters := exporters c; pipelines := pipelines c |}.

(** ** Validation *)

(** The [for] loops of the source return at the first offending item. *)
Fixpoint for_each {E A} (f : A → result E ()) (l : list A) : result E () :=
  match l with
  | [] => Ok ()
  | x :: t => _ ← f x; for_each f t
  end.
Definition ensure {E} (b : bool) (e : E) : result E () := if b then Ok () else Err e.

Definition known_receivers : list string := ["self_observation"; "device"; "otlp"; "database_logs"].

Definition validate_pipeline (signal : string) (p : PipelineConfig) (c : AgentConfig)
  : result ConfigError () :=
  let refuse m := ConfigValidate m in
  _ ← ensure (negb (bool_decide (pl_exporters p = []))) (refuse (PipelineWithoutExporter signal));
  _ ← for_each (λ r, ensure (bool_decide (r ∈ known_receivers)) (refuse (UnknownReceiver signal r)))
        (pl_receivers p);
  _ ← for_each (λ q, ensure (bool_decide (is_Some (processors c !! q)))
                       (refuse (UnknownProcessor signal q))) (pl_processors p);
  for_each (λ x, ensure (bool_decide (is_Some (exporters c !! x)))
                   (refuse (UnknownExporter signal x))) (pl_exporters p).

Section validation.
Context `{UrlApi}.

(** HTTPS with a host, without credentials and without a fragment. *)
Definition safe_https (u : Url) : bool :=
  bool_decide (url_scheme u = "https") && bool_decide (is_Some (url_host u))
  && is_empty (url_username u) && bool_decide (url_password u = None)
  && bool_decide (url_fragment u = None).

Definition validate_otlp_auth (name endpoint : string) (a : OtlpAuthConfig)
  : result ConfigError () :=
  let refuse m := ConfigValidate m in
  _ ← ensure (negb (is_empty (trim (client_id a)))) (refuse (EmptyClientId name));
  _ ← ensure (negb (is_empty (trim (client_secret_env a)) || contains (client_secret_env a) "="
                    || contains (client_secret_env a) (of_bytes ["000"%byte])))
        (refuse (InvalidSecretEnv name));
  _ ← ensure (negb (is_empty (sequence_state_path a)
                    || bool_decide (path_file_name (sequence_state_path a) = None)))
        (refuse (InvalidSequencePath name));
  _ ← ensure (negb (match oauth_scope a with Some s => is_empty (trim s) | None => false end))
        (refuse (EmptyScope name));
  token ← ok_or (url_parse (trim (token_url a))) (refuse (InvalidTokenUrl name));
  _ ← ensure (safe_https token) (refuse (UnsafeTokenUrl name));
  url ← ok_or (url_parse (trim endpoint)) (refuse (InvalidEndpointUrl name));
  ensure (safe_https url) (refuse (UnsafeEndpointUrl name)).

Definition validate_exporter (ne : string * ExporterConfig) : result ConfigError () :=
  match ne.2 with
  | OtlpConfig endpoint auth =>
    _ ← ensure (negb (is_empty (trim endpoint))) (ConfigValidate (EmptyEndpoint ne.1));
    match auth with
    | Some a => validate_otlp_auth ne.1 endpoint a
    | None => Ok ()
    end
  | _ => Ok ()
  end.

Definition validate_source (ix : Z * DatabaseLogSourceConfig) : result ConfigError () :=
  _ ← ensure (negb (is_empty (trim (src_system ix.2)))) (ConfigValidate (EmptySystem ix.1));
  ensure (negb (is_empty (src_path ix.2))) (ConfigValidate (EmptyPath ix.1)).

(** [iter().enumerate()] *)
Definition enumerate {A} (l : list A) : list (Z * A) := imap (λ i x, (Z.of_nat i, x)) l.

Definition validate (c : AgentConfig) : result ConfigError () :=
  let refuse m := ConfigValidate m in
  let db := rcv_database_logs (receivers c) in
  _ ← ensure (negb (bool_decide (exporters c = ∅))) (refuse NoExporter);
  _ ← validate_pipeline "metrics" (pls_metrics (pipelines c)) c;
  _ ← validate_pipeline "traces" (pls_traces (pipelines c)) c;
  _ ← validate_pipeline "logs" (pls_logs (pipelines c)) c;
  _ ← for_each validate_exporter (btree_iter (exporters c));
  _ ← ensure (negb (db_enabled db && bool_decide (db_sources db = []))) (refuse NoLogSource);
  _ ← ensure (db_max_line_bytes db <=? 16 * 1024 * 1024) (refuse LineLimitTooLarge);
  _ ← ensure (db_max_read_bytes db <=? 64 * 1024 * 1024) (refuse ReadLimitTooLarge);
  for_each validate_source (enumerate (db_sources db)).

(** [read] is the file system, [parse] serde_json with the field defaults. *)
Definition config_source (env : Env) (read : string → result string string)
    (parse : string → result string AgentConfig) : result ConfigError AgentConfig :=
  match env "SKID_MONITOR_AGENT_CONFIG" with
  | Some path =>
    source ← map_err (ConfigRead path) (read path);
    map_err (ConfigParse path) (parse source)
  | None => Ok (agent_config_default env)
  end.

Definition load (env : Env) (read : string → result string string)
    (parse : string → result string AgentConfig) : result ConfigError AgentConfig :=
  config ← config_source env read parse;
  let config := apply_runtime_defaults config in
  _ ← validate config;
  Ok config.
End validation.

(** ** What is accepted *)

Lemma for_each_Ok {E A} (f : A → result E ()) l : for_each f l = Ok () ↔ ∀ x, x ∈ l → f x = Ok ().
Proof.
  induction l as [|x l IH]; simpl; [set_solver|]. rewrite bind_Ok. setoid_rewrite elem_of_cons.
  split.
  - intros ([] & H1 & H2). rewrite IH in H2. naive_solver.
  - intros H. exists (). rewrite IH. auto.
Qed.
Lemma ensure_Ok {E} b (e : E) : ensure b e = Ok () ↔ b = true.
Proof. by destruct b. Qed.
Lemma unit_bind_Ok {E} (r k : result E ()) : (_ ← r; k) = Ok () ↔ r = Ok () ∧ k = Ok ().
Proof. rewrite bind_Ok. split; [by intros ([] & ? & ?)|intros []; eauto]. Qed.
Lemma is_empty_iff s : is_empty s = true ↔ s = "".
Proof. apply bool_decide_eq_true. Qed.

Create Rewrite HintDb validate.
#[export] Hint Rewrite @unit_bind_Ok @ensure_Ok @for_each_Ok negb_true_iff orb_false_iff andb_true_iff
  andb_false_iff @bool_decide_eq_true @bool_decide_eq_false Z.leb_le : validate.

Record pipeline_ok (c : AgentConfig) (p : PipelineConfig) : Prop := {
  po_exporters : pl_exporters p ≠ [];
  po_receivers r : r ∈ pl_receivers p → r ∈ known_receivers;
  po_processors q : q ∈ pl_processors p → is_Some (processors c !! q);
  po_known x : x ∈ pl_exporters p → is_Some (exporters c !! x);
}.

Lemma validate_pipeline_Ok s p c : validate_pipeline s p c = Ok () ↔ pipeline_ok c p.
Proof.
  unfold validate_pipeline. autorewrite with validate.
  repeat (setoid_rewrite ensure_Ok || setoid_rewrite bool_decide_eq_true).
  split; [intros (?&?&?&?); by split|intros []; auto].
Qed.

Section accepted.
Context `{UrlApi}.

(** A URL an access token may be sent to. *)
Definition https_url (text : string) : Prop :=
  ∃ u, url_parse (trim text) = Some u ∧ url_scheme u = "https" ∧ is_Some (url_host u) ∧
    url_username u = "" ∧ url_password u = None ∧ url_fragment u = None.

Record auth_ok (endpoint : string) (a : OtlpAuthConfig) : Prop := {
  ao_client : trim (client_id a) ≠ "";
  ao_secret : trim (client_secret_env a) ≠ "" ∧ contains (client_secret_env a) "=" = false ∧
    contains (client_secret_env a) (of_bytes ["000"%byte]) = false;
  ao_path : sequence_state_path a ≠ "" ∧ is_Some (path_file_name (sequence_state_path a));
  ao_scope s : oauth_scope a = Some s → trim s ≠ "";
  ao_token_url : https_url (token_url a);
  ao_endpoint : https_url endpoint;
}.

Record config_ok (c : AgentConfig) : Prop := {
  co_exporters : exporters c ≠ ∅;
  co_metrics : pipeline_ok c (pls_metrics (pipelines c));
  co_traces : pipeline_ok c (pls_traces (pipelines c));
  co_logs : pipeline_ok c (pls_logs (pipelines c));
  co_endpoint n e a : exporters c !! n = Some (OtlpConfig e a) → trim e ≠ "";
  co_auth n e a : exporters c !! n = Some (OtlpConfig e (Some a)) → auth_ok e a;
  co_sources : db_enabled (rcv_database_logs (receivers c)) = true →
    db_sources (rcv_database_logs (receivers c)) ≠ [];
  co_line : db_max_line_bytes (rcv_database_logs (receivers c)) ≤ 16 * 1024 * 1024;
  co_read : db_max_read_bytes (rcv_database_logs (receivers c)) ≤ 64 * 1024 * 1024;
  co_source s : s ∈ db_sources (rcv_database_logs (receivers c)) →
    trim (src_system s) ≠ "" ∧ src_path s ≠ "";
}.

Lemma safe_https_Ok {E} (e1 e2 : E) (text : string) :
  (u ← ok_or (url_parse (trim text)) e1; ensure (safe_https u) e2) = Ok () ↔ https_url text.
Proof.
  rewrite bind_Ok. unfold https_url, safe_https. split.
  - intros (u & Hp & Hs). destruct (url_parse _) as [u'|]; [|done]. injection Hp as ->.
    autorewrite with validate in Hs. unfold is_empty in Hs. rewrite bool_decide_eq_true in Hs. naive_solver.
  - intros (u & -> & ? & ? & ? & ? & ?). exists u. split; [done|].
    autorewrite with validate. unfold is_empty. rewrite bool_decide_eq_true. auto.
Qed.

Lemma validate_otlp_auth_Ok n e a : validate_otlp_auth n e a = Ok () ↔ auth_ok e a.
Proof.
  unfold validate_otlp_auth. cbv zeta.
  assert (Hscope : negb (match oauth_scope a with Some s => is_empty (trim s) | None => false end) = true
    ↔ ∀ s, oauth_scope a = Some s → trim s ≠ "").
  { destruct (oauth_scope a) as [s|]; [|naive_solver]. unfold is_empty.
    rewrite negb_true_iff, bool_decide_eq_false. naive_solver. }
  rewrite !unit_bind_Ok, !ensure_Ok, Hscope.
  setoid_rewrite (bind_Ok (ok_or (url_parse (trim (token_url a))) _)).
  setoid_rewrite unit_bind_Ok. setoid_rewrite safe_https_Ok.
  assert (Htok : ∀ P : Prop, (∃ u, ok_or (url_parse (trim (token_url a)))
      (ConfigValidate (InvalidTokenUrl n)) = Ok u ∧
      ensure (safe_https u) (ConfigValidate (UnsafeTokenUrl n)) = Ok () ∧ P) ↔
    https_url (token_url a) ∧ P).
  { intros P. rewrite <-(safe_https_Ok (ConfigValidate (InvalidTokenUrl n))
      (ConfigValidate (UnsafeTokenUrl n))), bind_Ok. naive_solver. }
  rewrite Htok. unfold is_empty. rewrite !negb_true_iff, !orb_false_iff, !bool_decide_eq_false.
  split.
  - intros (?&((?&?)&?)&(?&?)&?&?&?). constructor; [done|done| |done..]. split; [done|].
    by apply not_eq_None_Some.
  - intros [? (?&?&?) [? Hf] ? ? ?]. apply not_eq_None_Some in Hf. auto 10.
Qed.

Lemma validate_exporters_Ok c :
  for_each validate_exporter (btree_iter (exporters c)) = Ok () ↔
  (∀ n e a, exporters c !! n = Some (OtlpConfig e a) → trim e ≠ "") ∧
  (∀ n e a, exporters c !! n = Some (OtlpConfig e (Some a)) → auth_ok e a).
Proof.
  rewrite for_each_Ok. split.
  - intros Hall. assert (Hx : ∀ n e a, exporters c !! n = Some (OtlpConfig e a) →
      trim e ≠ "" ∧ match a with Some a => auth_ok e a | None => True end).
    { intros n e a Hn%elem_of_btree_iter%Hall. unfold validate_exporter in Hn. simpl in Hn.
      rewrite unit_bind_Ok, ensure_Ok, negb_true_iff in Hn. destruct Hn as [He Ha].
      unfold is_empty in He. rewrite bool_decide_eq_false in He. split; [done|].
      destruct a; [by eapply validate_otlp_auth_Ok|done]. }
    split; [naive_solver|]. intros n e a Hn. by apply (Hx n e (Some a)).
  - intros [He Ha] [n x] Hx%elem_of_btree_iter. unfold validate_exporter. simpl.
    destruct x as [| |e a]; [done..|]. rewrite unit_bind_Ok, ensure_Ok, negb_true_iff.
    unfold is_empty. rewrite bool_decide_eq_false. split; [by eapply He|].
    destruct a; [apply validate_otlp_auth_Ok; by eapply Ha|done].
Qed.

Lemma validate_sources_Ok l : for_each validate_source (enumerate l) = Ok () ↔
  ∀ s, s ∈ l → trim (src_system s) ≠ "" ∧ src_path s ≠ "".
Proof.
  assert (Hs : ∀ i s, validate_source (i, s) = Ok () ↔ trim (src_system s) ≠ "" ∧ src_path s ≠ "").
  { intros i s. unfold validate_source, is_empty. rewrite unit_bind_Ok, !ensure_Ok, !negb_true_iff.
    by rewrite !bool_decide_eq_false. }
  rewrite for_each_Ok. unfold enumerate. split.
  - intros Hall s (i & Hi)%list_elem_of_lookup. apply (Hs (Z.of_nat i) s), Hall.
    apply list_elem_of_lookup. exists i. by rewrite list_lookup_imap, Hi.
  - intros Hall [i s] Hi. apply Hs, Hall.
    apply list_elem_of_lookup in Hi as (k & Hk). rewrite list_lookup_imap in Hk.
    apply fmap_Some in Hk as (s' & Hk & [= -> ->]). by eapply list_elem_of_lookup_2.
Qed.

Lemma validate_Ok c : validate c = Ok () ↔ config_ok c.
Proof.
  unfold validate. cbv zeta. rewrite !unit_bind_Ok, !ensure_Ok, !validate_pipeline_Ok.
  rewrite validate_exporters_Ok, validate_sources_Ok, !negb_true_iff, bool_decide_eq_false, !Z.leb_le.
  rewrite andb_false_iff, bool_decide_eq_false. split.
  - intros (?&?&?&?&[??]&Hsrc&?&?&?). constructor; try done.
    intros Hen. destruct Hsrc as [|]; congruence.
  - intros []. split_and!; try done. destruct (db_enabled _); auto.
Qed.

(** No interval and no limit is zero. *)
Record intervals_set (c : AgentConfig) : Prop := {
  is_cycle : so_interval_secs (rcv_self_observation (receivers c)) ≠ 0;
  is_poll : db_poll_interval_millis (rcv_database_logs (receivers c)) ≠ 0;
  is_line : db_max_line_bytes (rcv_database_logs (receivers c)) ≠ 0;
  is_read : db_max_read_bytes (rcv_database_logs (receivers c)) ≠ 0;
}.

Lemma apply_runtime_defaults_set c : intervals_set (apply_runtime_defaults c).
Proof. split; simpl; unfold or_default; case_match; to_prop; done. Qed.

(** Loading succeeds exactly when the configuration read or the default,
    once its zero intervals and limits are replaced by the defaults, has
    pipelines that name only receivers, processors and exporters that exist
    and at least one exporter, authenticated exporters with a client, a secret
    variable and a state file that send tokens and telemetry only to HTTPS URLs
    without credentials, and a log receiver with sources and limits in
    range. *)
Theorem load_correct env read parse c :
  load env read parse = Ok c ↔
  ∃ c0, config_source env read parse = Ok c0 ∧ c = apply_runtime_defaults c0 ∧
        config_ok c ∧ intervals_set c.
Proof.
  unfold load. rewrite bind_Ok. setoid_rewrite bind_Ok. split.
  - intros (c0 & Hc & ([] & Hv & [= <-])). exists c0.
    apply validate_Ok in Hv. auto using apply_runtime_defaults_set.
  - intros (c0 & Hc & -> & Hv & _). exists c0. split; [done|]. exists (). by rewrite validate_Ok.
Qed.
End accepted.
