(* ===== verification/Exporter.v ===== *)
(** * The agent's exporters (skid-monitor-agent, exporters.rs and transport.rs)

    The OTLP exporter with its token provider and its retry loop, the client
    exporter and the logging exporter.  What the outside world answers to an
    attempt (the clock, the environment, the token endpoint, the collector) is
    a record per attempt; what the exporter does is a list of events. *)

From stdpp Require Import sorting.
From S2P Require Import Prelude RustStr Otlp Frame AgentConfig Sequence.

Definition OTLP_MAX_ATTEMPTS : nat := 3.
(** Milliseconds. *)
Definition OTLP_RETRY_BASE_DELAY : Z := 100.
Definition MAX_OAUTH_TOKEN_RESPONSE_BYTES : Z := 1024 * 1024.
Definition MAX_OAUTH_TOKEN_LIFETIME_SECS : Z := 24 * 60 * 60.

(** [tonic::Code] *)
Inductive Code :=
| CodeOk | Cancelled | Unknown | InvalidArgument | DeadlineExceeded | NotFound | AlreadyExists
| PermissionDenied | ResourceExhausted | FailedPrecondition | Aborted | OutOfRange
| Unimplemented | Internal | Unavailable | DataLoss | Unauthenticated.
#[global] Instance Code_eq_dec : EqDecision Code.
Proof. solve_decision. Defined.

Inductive RetryDecision := Retry | RefreshAuth | StopRetrying.
#[global] Instance RetryDecision_eq_dec : EqDecision RetryDecision.
Proof. solve_decision. Defined.

Definition retry_decision (code : Code) (has_auth refreshed_auth : bool) : RetryDecision :=
  match code with
  | Unavailable | DeadlineExceeded | Unknown | ResourceExhausted | Aborted => Retry
  | Unauthenticated => if has_auth && negb refreshed_auth then RefreshAuth else StopRetrying
  | _ => StopRetrying
  end.

(** [1_u32 << completed_attempts.saturating_sub(1).min(2)] *)
Definition retry_backoff (completed_attempts : nat) : Z :=
  OTLP_RETRY_BASE_DELAY * 2 ^ Z.of_nat (Nat.min (completed_attempts - 1) 2).

(** ** Tokens *)

(** Instants are nanoseconds of the monotonic clock; adding overflows beyond
    the signed 64-bit seconds it is kept in. *)
Definition secs : Z := 1000000000.
Definition instant_checked_add (now duration : Z) : option Z :=
  if (now + duration) `div` secs <=? i64_max then Some (now + duration) else None.

Record CachedToken := { ct_value : string; ct_refresh_at : Z }.
Record TokenResponse := {
  access_token_of : string;
  token_type : option string;
  expires_in : Z;
}.

(** A response of the token endpoint: its status, its declared length, and the
    chunks of its body, the last of which may be a read error. *)
Record HttpResponse := {
  is_success : bool;
  status_text : string;
  content_length : option Z;
  body_chunks : list (result string (list byte));
}.

(** serde_json on a token response, and tonic's test of a header value. *)
Class TokenApi := {
  token_of_slice : list byte → result string TokenResponse;
  ascii_metadata : string → bool;
}.

Definition append_bounded_body (body chunk : list byte) (limit : Z) : result string (list byte) :=
  let next_len := zlen body + zlen chunk in
  if u64_max <? next_len then Err "OAuth token response size overflow"
  else if limit <? next_len
  then Err ("OAuth token response exceeds " +:+ u64_to_string limit +:+ " bytes")
  else Ok (body ++ chunk).

Fixpoint read_chunks (body : list byte) (chunks : list (result string (list byte)))
  : result string (list byte) :=
  match chunks with
  | [] => Ok body
  | Err e :: _ => Err ("read OAuth token response: " +:+ e)
  | Ok chunk :: rest =>
    body ← append_bounded_body body chunk MAX_OAUTH_TOKEN_RESPONSE_BYTES;
    read_chunks body rest
  end.

Definition read_bounded_token_response (r : HttpResponse) : result string (list byte) :=
  if match content_length r with
     | Some length => MAX_OAUTH_TOKEN_RESPONSE_BYTES <? length
     | None => false
     end
  then Err ("OAuth token response exceeds " +:+ u64_to_string MAX_OAUTH_TOKEN_RESPONSE_BYTES
            +:+ " bytes")
  else read_chunks [] (body_chunks r).

(** A duration in nanoseconds. *)
Definition refresh_after (expires_in_secs : Z) : Z :=
  let margin := Z.min (Z.max (expires_in_secs `div` 5) 1) 60 in
  sat_sub expires_in_secs margin * secs.

Definition token_refresh_deadline (now expires_in_secs : Z) : result string Z :=
  if expires_in_secs =? 0 then Err "OAuth token endpoint returned expires_in=0"
  else if MAX_OAUTH_TOKEN_LIFETIME_SECS <? expires_in_secs
  then Err ("OAuth token expires_in exceeds the maximum of "
            +:+ u64_to_string MAX_OAUTH_TOKEN_LIFETIME_SECS +:+ " seconds")
  else ok_or (instant_checked_add now (refresh_after expires_in_secs))
         "OAuth token refresh deadline overflow".

(** ** What an attempt meets, and what the exporter does *)

Record Status := mkStatus { code_of : Code; status_message : string }.

Record Attempt := {
  at_now : Z;                           (* the clock when the cache is consulted *)
  at_secret : option string;            (* the secret's environment variable *)
  at_response : result string HttpResponse;
  at_received : Z;                      (* the clock when the token arrived *)
  at_reply : option Status;             (* the collector's error, if any *)
}.

Inductive Event :=
| TokenRequest (client secret : string) (form : list (string * string))
| Send (sequence : Z) (authorization : option string) (payload : Signal) (reply : option Status)
| Invalidate
| Sleep (millis : Z).

Section exporter.
Context `{TokenApi}.

(** [OAuthTokenProvider::access_token]: the result, the cache and the request
    made, if any. *)
Definition token_form (c : OtlpAuthConfig) : list (string * string) :=
  ("grant_type", "client_credentials") ::
  match oauth_scope c with Some scope => [("scope", scope)] | None => [] end.

Definition accept_token (w : Attempt) (r : HttpResponse) : result string CachedToken :=
  if negb (is_success r) then Err ("OAuth token endpoint returned HTTP " +:+ status_text r)
  else
    body ← read_bounded_token_response r;
    response ← map_err (λ e, "decode OAuth token response: " +:+ e) (token_of_slice body);
    if is_empty (access_token_of response)
    then Err "OAuth token endpoint returned an empty access_token"
    else if match token_type response with
            | Some kind => negb (eq_ignore_ascii_case kind "bearer")
            | None => false
            end
    then Err "OAuth token endpoint returned a non-Bearer token"
    else
      refresh_at ← token_refresh_deadline (at_received w) (expires_in response);
      Ok {| ct_value := access_token_of response; ct_refresh_at := refresh_at |}.

Definition fresh_token (cache : option CachedToken) (now : Z) : option string :=
  match cache with
  | Some token => if now <? ct_refresh_at token then Some (ct_value token) else None
  | None => None
  end.

Definition access_token (c : OtlpAuthConfig) (cache : option CachedToken) (w : Attempt)
  : result string string * option CachedToken * list Event :=
  match fresh_token cache (at_now w) with
  | Some value => (Ok value, cache, [])
  | None =>
    match at_secret w with
    | None => (Err ("OAuth client secret environment variable "
                    +:+ debug_str (client_secret_env c) +:+ " is not set"), cache, [])
    | Some secret =>
      if is_empty secret
      then (Err ("OAuth client secret environment variable "
                 +:+ debug_str (client_secret_env c) +:+ " is empty"), cache, [])
      else
        let request := [TokenRequest (client_id c) secret (token_form c)] in
        match at_response w with
        | Err e => (Err ("request OAuth access token: " +:+ e), cache, request)
        | Ok r =>
          match accept_token w r with
          | Err e => (Err e, cache, request)
          | Ok token => (Ok (ct_value token), Some token, request)
          end
        end
    end
  end.

(** [OtlpExporter::request] and the call: the metadata of the request.  The
    three kinds of signal go through the same steps with their own client. *)
Inductive AttemptResult :=
| Sent
| PrepareError (error : string)
| GrpcError (status : Status).

Definition export_attempt (auth : option OtlpAuthConfig) (cache : option CachedToken)
    (signal : Signal) (sequence : Z) (w : Attempt)
  : AttemptResult * option CachedToken * list Event :=
  let call authorization cache evs :=
    (match at_reply w with None => Sent | Some status => GrpcError status end, cache,
     evs ++ [Send sequence authorization signal (at_reply w)]) in
  match auth with
  | None => call None cache []
  | Some c =>
    match access_token c cache w with
    | (Err e, cache, evs) => (PrepareError e, cache, evs)
    | (Ok token, cache, evs) =>
      let authorization := "Bearer " +:+ token in
      if ascii_metadata authorization then call (Some authorization) cache evs
      else (PrepareError "OAuth access token cannot be encoded as gRPC metadata", cache, evs)
    end
  end.

Definition signal_kind (s : Signal) : string :=
  match s with Metrics _ => "metrics" | Traces _ => "traces" | Logs _ => "logs" end.

(** [display] is tonic's [Display] of a status. *)
Definition export_failure (display : Status → string) (signal : Signal) (attempt : nat)
    (s : Status) : string :=
  "export OTLP " +:+ signal_kind signal +:+ " after " +:+ u64_to_string (Z.of_nat attempt)
  +:+ " attempt(s): " +:+ display s.

(** The loop of [OtlpExporter::export]: [remaining] attempts are left, the next is
    number [attempt]; [world] answers each.  The source's [unreachable!] is
    [None]. *)
Fixpoint export_loop (display : Status → string) (auth : option OtlpAuthConfig) (signal : Signal)
    (sequence : Z) (world : nat → Attempt) (remaining attempt : nat) (refreshed : bool)
    (cache : option CachedToken) : option (result string ()) * option CachedToken * list Event :=
  match remaining with
  | O => (None, cache, [])
  | S remaining =>
    match export_attempt auth cache signal sequence (world attempt) with
    | (Sent, cache, evs) => (Some (Ok ()), cache, evs)
    | (PrepareError e, cache, evs) => (Some (Err e), cache, evs)
    | (GrpcError status, cache, evs) =>
      let decision := retry_decision (code_of status) (bool_decide (is_Some auth)) refreshed in
      if bool_decide (attempt = OTLP_MAX_ATTEMPTS) || bool_decide (decision = StopRetrying)
      then (Some (Err (export_failure display signal attempt status)), cache, evs)
      else
        let refresh := bool_decide (decision = RefreshAuth) in
        let cache := if refresh then None else cache in
        let '(r, cache', evs') :=
          export_loop display auth signal sequence world remaining (S attempt) (refreshed || refresh)
            cache in
        (r, cache', evs ++ (if refresh then [Invalidate] else []) ++
                    [Sleep (retry_backoff attempt)] ++ evs')
    end
  end.

(** [OtlpExporter::export] with the number [sequence.next()] has given. *)
Definition export (display : Status → string) (auth : option OtlpAuthConfig) (signal : Signal)
    (next : result string Z) (world : nat → Attempt) (cache : option CachedToken)
  : option (result string ()) * option CachedToken * list Event :=
  match next with
  | Err e => (Some (Err e), cache, [])
  | Ok sequence => export_loop display auth signal sequence world OTLP_MAX_ATTEMPTS 1 false cache
  end.

(** ** The events of an export *)

Definition send_of (e : Event) : option (Z * option string * Signal * option Status) :=
  match e with Send q a p r => Some (q, a, p, r) | _ => None end.
Definition sends (evs : list Event) := omap send_of evs.
Definition sleeps (evs : list Event) : list Z :=
  omap (λ e, match e with Sleep m => Some m | _ => None end) evs.
Definition invalidations (evs : list Event) : list () :=
  omap (λ e, match e with Invalidate => Some () | _ => None end) evs.
Definition is_token_request (e : Event) : Prop :=
  match e with TokenRequest _ _ _ => True | _ => False end.

Lemma token_events evs : Forall is_token_request evs →
  sends evs = [] ∧ sleeps evs = [] ∧ invalidations evs = [].
Proof.
  unfold sends, sleeps, invalidations.
  induction 1 as [|e evs He _ (IH1 & IH2 & IH3)]; [done|]. by destruct e.
Qed.

Lemma access_token_events c cache w r cache' evs :
  access_token c cache w = (r, cache', evs) → Forall is_token_request evs.
Proof.
  unfold access_token. intros. repeat case_match; simplify_eq; repeat constructor.
Qed.

Lemma sends_app l k : sends (l ++ k) = sends l ++ sends k.
Proof. apply omap_app. Qed.
Lemma sleeps_app l k : sleeps (l ++ k) = sleeps l ++ sleeps k.
Proof. apply omap_app. Qed.
Lemma invalidations_app l k : invalidations (l ++ k) = invalidations l ++ invalidations k.
Proof. apply omap_app. Qed.

(** The shape of one attempt: at most a token request, then the call. *)
Definition authorization_ok (auth : option OtlpAuthConfig) (a : option string) : Prop :=
  match auth, a with
  | None, None => True
  | Some _, Some t => ∃ token, t = "Bearer " +:+ token ∧ ascii_metadata t = true
  | _, _ => False
  end.

Lemma export_attempt_cases auth cache signal n w r cache' evs :
  export_attempt auth cache signal n w = (r, cache', evs) →
  ∃ toks, Forall is_token_request toks ∧
  match r with
  | PrepareError _ => evs = toks
  | Sent => ∃ a, authorization_ok auth a ∧ evs = toks ++ [Send n a signal None]
  | GrpcError s => ∃ a, authorization_ok auth a ∧ evs = toks ++ [Send n a signal (Some s)]
  end.
Proof.
  unfold export_attempt. destruct auth as [c|].
  - destruct (access_token c cache w) as [[[token|e] cache1] toks] eqn:E;
      apply access_token_events in E; [|intros [= <- <- <-]; eauto].
    case_match eqn:Ha; intros [= <- <- <-]; exists toks; (split; [done|]); [|done].
    assert (authorization_ok (Some c) (Some ("Bearer " +:+ token))) by (simpl; eauto).
    destruct (at_reply w); eauto.
  - intros [= <- <- <-]. exists []. split; [constructor|].
    assert (authorization_ok None None) by done. destruct (at_reply w); eauto.
Qed.

(** A reply after which the exporter tries again. *)
Definition retryable (auth : option OtlpAuthConfig) (reply : option Status) : Prop :=
  ∃ s, reply = Some s ∧
    (code_of s ∈ [Unavailable; DeadlineExceeded; Unknown; ResourceExhausted; Aborted] ∨
     (code_of s = Unauthenticated ∧ is_Some auth)).

Lemma retry_decision_retryable auth s refreshed :
  retry_decision (code_of s) (bool_decide (is_Some auth)) refreshed ≠ StopRetrying →
  retryable auth (Some s).
Proof.
  unfold retry_decision, retryable. intros Hd. exists s. split; [done|].
  destruct (code_of s); try done; try (left; set_solver). right. split; [done|].
  destruct (bool_decide _) eqn:E; [by apply bool_decide_eq_true in E|done].
Qed.

Record loop_spec (auth : option OtlpAuthConfig) (signal : Signal) (n : Z) (attempt : nat)
    (refreshed : bool) (r : option (result string ())) (evs : list Event) : Prop := {
  ls_returns : r ≠ None;
  ls_sends : (length (sends evs) + attempt ≤ 4)%nat;
  ls_same : Forall (λ x, x.1.1.1 = n ∧ authorization_ok auth x.1.1.2 ∧ x.1.2 = signal) (sends evs);
  ls_retry : Forall (λ x, retryable auth x.2) (removelast (sends evs));
  ls_refresh : (length (invalidations evs) ≤ if refreshed then 0 else 1)%nat;
  ls_sleeps : sleeps evs `prefix_of` (retry_backoff <$> seq attempt (3 - attempt));
  ls_success : r = Some (Ok ()) ↔ ∃ a, last evs = Some (Send n a signal None);
}.

Lemma removelast_Forall {A} (P : A → Prop) x l : P x → Forall P (removelast l) →
  Forall P (removelast (x :: l)).
Proof. intros Hx Hl. destruct l; [constructor|]. by constructor. Qed.

Lemma export_loop_spec display auth signal n world remaining attempt refreshed cache r cache' evs :
  (remaining + attempt = 4)%nat → (0 < remaining)%nat →
  export_loop display auth signal n world remaining attempt refreshed cache = (r, cache', evs) →
  loop_spec auth signal n attempt refreshed r evs.
Proof.
  revert attempt refreshed cache r cache' evs.
  induction remaining as [|k IH]; intros attempt refreshed cache r cache' evs Hs Hpos; [lia|].
  simpl. destruct (export_attempt auth cache signal n (world attempt)) as [[res cache1] evs1] eqn:E.
  apply export_attempt_cases in E as (toks & Ht & Hr). pose proof (token_events _ Ht) as (T1 & T2 & T3).
  destruct res as [|e|s].
  - destruct Hr as (a & Ha & ->). intros [= <- <- <-].
    split; rewrite ?sends_app, ?sleeps_app, ?invalidations_app, ?T1, ?T2, ?T3, ?last_snoc; simpl;
      [done|lia|by repeat constructor|constructor|by destruct refreshed; lia|apply prefix_nil|naive_solver].
  - subst evs1. intros [= <- <- <-]. split; rewrite ?T1, ?T2, ?T3; simpl;
      [done|lia|constructor|constructor|by destruct refreshed; lia|apply prefix_nil|].
    split; [done|]. intros (a & Hl). rewrite last_Some in Hl. destruct Hl as (l & ->).
    apply Forall_app in Ht as [_ Ht]. by inversion Ht.
  - destruct Hr as (a & Ha & ->). case_match eqn:Hstop.
    + intros [= <- <- <-].
      split; rewrite ?sends_app, ?sleeps_app, ?invalidations_app, ?T1, ?T2, ?T3, ?last_snoc; simpl;
        [done|lia|by repeat constructor|constructor|by destruct refreshed; lia|apply prefix_nil|naive_solver].
    + to_prop. unfold OTLP_MAX_ATTEMPTS in *.
      set (refresh := bool_decide (_ = RefreshAuth)).
      destruct (export_loop _ _ _ _ _ _ _ _ _) as [[r2 cache2] evs2] eqn:E2.
      intros [= <- <- <-]. apply IH in E2; [|lia|lia].
      destruct E2 as [G1 G2 G3 G4 G5 G6 G7]. 
      assert (Hinv : invalidations (if refresh then [Invalidate] else []) = if refresh then [()] else [])
        by by destruct refresh.
      assert (Hfr : refresh = true → refreshed = false).
      { intros Hr%bool_decide_eq_true. unfold retry_decision in Hr.
        by destruct (code_of s), (bool_decide _), refreshed. }
      split; rewrite ?app_assoc, ?sends_app, ?sleeps_app, ?invalidations_app, ?T1, ?T2, ?T3, ?Hinv.
      * done.
      * destruct refresh; simpl; lia.
      * destruct refresh; simpl; constructor; auto.
      * assert (retryable auth (Some s)) by (by eapply retry_decision_retryable).
        destruct refresh; simpl; by apply removelast_Forall.
      * destruct refresh, refreshed; simpl in *; try lia; by specialize (Hfr eq_refl).
      * replace (3 - attempt)%nat with (S (3 - S attempt))%nat by lia.
        destruct refresh; simpl; by apply prefix_cons.
      * rewrite G7. split; intros (b & Hb); exists b.
        -- by rewrite ?last_app, ?last_cons, Hb.
        -- rewrite ?last_app, ?last_cons in Hb. by destruct (last evs2).
Qed.

(** ** Tokens *)

Lemma read_chunks_Ok chunks body out : read_chunks body chunks = Ok out →
  zlen body ≤ MAX_OAUTH_TOKEN_RESPONSE_BYTES → zlen out ≤ MAX_OAUTH_TOKEN_RESPONSE_BYTES.
Proof.
  revert body. induction chunks as [|[chunk|e] chunks IH]; intros body; simpl; [by intros [= ->]| |done].
  intros (b & Hb & Hr)%bind_Ok _. apply (IH b Hr). unfold append_bounded_body in Hb.
  case_match; [done|]. case_match; [done|]. injection Hb as <-. to_prop. by rewrite zlen_app.
Qed.

Lemma refresh_after_early e : 1 ≤ e → refresh_after e ≤ (e - 1) * secs.
Proof. intros He. unfold refresh_after, sat_sub, secs. nia. Qed.

Lemma token_refresh_deadline_Ok now e d : 0 ≤ e → token_refresh_deadline now e = Ok d →
  1 ≤ e ≤ 86400 ∧ d = now + refresh_after e.
Proof.
  unfold token_refresh_deadline, instant_checked_add, MAX_OAUTH_TOKEN_LIFETIME_SECS.
  intros He. do 2 (case_match; [done|]). case_match; simpl; [|done]. intros [= <-]. to_prop. lia.
Qed.

(** What a token that was just fetched satisfies. *)
Definition fetched (c : OtlpAuthConfig) (w : Attempt) (token : CachedToken) : Prop :=
  ∃ secret response body t, at_secret w = Some secret ∧ secret ≠ "" ∧
    at_response w = Ok response ∧ is_success response = true ∧
    read_bounded_token_response response = Ok body ∧ zlen body ≤ 1024 * 1024 ∧
    token_of_slice body = Ok t ∧ ct_value token = access_token_of t ∧ access_token_of t ≠ "" ∧
    (∀ kind, token_type t = Some kind → eq_ignore_ascii_case kind "bearer" = true) ∧
    token_refresh_deadline (at_received w) (expires_in t) = Ok (ct_refresh_at token) ∧
    (0 ≤ expires_in t → 1 ≤ expires_in t ≤ 86400 ∧
       ct_refresh_at token ≤ at_received w + (expires_in t - 1) * secs).

Lemma accept_token_Ok w r token : accept_token w r = Ok token →
  is_success r = true ∧ ∃ body t, read_bounded_token_response r = Ok body ∧
    token_of_slice body = Ok t ∧ ct_value token = access_token_of t ∧ access_token_of t ≠ "" ∧
    (∀ kind, token_type t = Some kind → eq_ignore_ascii_case kind "bearer" = true) ∧
    token_refresh_deadline (at_received w) (expires_in t) = Ok (ct_refresh_at token).
Proof.
  unfold accept_token. case_match; [done|]. to_prop. intros (body & Hb & Hk)%bind_Ok.
  apply bind_Ok in Hk as (t & Ht%map_err_Ok & Hk). split; [done|]. exists body, t.
  destruct (is_empty _) eqn:He; [done|]. unfold is_empty in He. to_prop.
  destruct (match token_type t with
            | Some kind => negb (eq_ignore_ascii_case kind "bearer") | None => false end) eqn:Hty; [done|].
  apply bind_Ok in Hk as (d & Hd & [= <-]). split_and!; try done.
  intros kind Hkind. rewrite Hkind in Hty. by apply negb_false_iff in Hty.
Qed.

Lemma accept_token_from w r token body t : is_success r = true → read_bounded_token_response r = Ok body → token_of_slice body = Ok t →
  ct_value token = access_token_of t → access_token_of t ≠ EmptyString →
  (∀ kind, token_type t = Some kind → eq_ignore_ascii_case kind "bearer" = true) →
  token_refresh_deadline (at_received w) (expires_in t) = Ok (ct_refresh_at token) → accept_token w r = Ok token.
Proof.
  intros Hs Hb Ht Hv Hne Hk Hd. unfold accept_token. rewrite Hs, Hb. cbn [negb mbind result_bind]. rewrite Ht. cbn [map_err mbind result_bind].
  unfold is_empty. rewrite bool_decide_eq_false_2 by done.
  destruct (token_type t) as [kind|]; [rewrite (Hk kind eq_refl); cbn [negb]|]; rewrite Hd; cbn [mbind result_bind]; rewrite <- Hv; by destruct token.
Qed.

(** The token of a request is either the cached one, strictly before its
    refresh deadline and without any request, or one just fetched with the
    client's secret by a single request: from a successful response of at most
    one mebibyte, non-empty, of bearer type, living for at most a day, and
    cached to be refreshed at least a second before it expires.  A failure
    leaves the cache as it was. *)
Theorem access_token_fresh c cache w :
  let '(r, cache', evs) := access_token c cache w in
  (∃ e, r = Err e ∧ cache' = cache) ∨
  (∃ t, cache = Some t ∧ r = Ok (ct_value t) ∧ at_now w < ct_refresh_at t ∧ cache' = cache ∧ evs = []) ∨
  (∃ t secret, fresh_token cache (at_now w) = None ∧ r = Ok (ct_value t) ∧ cache' = Some t ∧
     fetched c w t ∧ at_secret w = Some secret ∧ evs = [TokenRequest (client_id c) secret (token_form c)]).
Proof.
  unfold access_token. destruct (fresh_token cache (at_now w)) as [v|] eqn:Ef.
  { right; left. unfold fresh_token in Ef. destruct cache as [t|]; [|done].
    destruct (at_now w <? _) eqn:E; [|done]. injection Ef as <-. to_prop. eauto 10. }
  destruct (at_secret w) as [secret|] eqn:Es; [|left; eauto].
  destruct (is_empty secret) eqn:Ee; [left; eauto|].
  destruct (at_response w) as [r|e] eqn:Er; [|left; eauto].
  destruct (accept_token w r) as [t|e] eqn:Ea; [|left; eauto].
  right; right. exists t, secret. split_and!; try done.
  unfold is_empty in Ee. to_prop. apply accept_token_Ok in Ea as (Hs & body & tr & Hb & Ht & Hv & Hne & Hk & Hd).
  exists secret, r, body, tr. split_and!; try done.
  - unfold read_bounded_token_response in Hb. case_match; [done|].
    apply read_chunks_Ok in Hb; [done|unfold zlen; simpl; unfold MAX_OAUTH_TOKEN_RESPONSE_BYTES; lia].
  - intros Hpos. apply token_refresh_deadline_Ok in Hd as [Hr ->]; [|done]. split; [done|].
    pose proof (refresh_after_early (expires_in tr)). lia.
Qed.

(** ** What an export does, as rules *)

(** The authorisation of a call, the cache and the requests it takes: none
    without authentication, else the cached token while it is fresh, else one
    that a single request has just fetched. *)
Inductive authorised_by (auth : option OtlpAuthConfig) (cache : option CachedToken) (w : Attempt)
  : option string → option CachedToken → list Event → Prop :=
| by_nothing : auth = None → authorised_by auth cache w None cache []
| by_cached c t : auth = Some c → cache = Some t → at_now w < ct_refresh_at t →
    ascii_metadata ("Bearer " +:+ ct_value t) = true → authorised_by auth cache w (Some ("Bearer " +:+ ct_value t)) cache []
| by_fetched c t secret : auth = Some c → (∀ old, cache = Some old → ct_refresh_at old ≤ at_now w) →
    at_secret w = Some secret → fetched c w t → ascii_metadata ("Bearer " +:+ ct_value t) = true →
    authorised_by auth cache w (Some ("Bearer " +:+ ct_value t)) (Some t) [TokenRequest (client_id c) secret (token_form c)].

Definition transient (code : Code) : Prop := code ∈ [Unavailable; DeadlineExceeded; Unknown; ResourceExhausted; Aborted].
(** An expired login can be renewed, once. *)
Definition renewable (auth : option OtlpAuthConfig) (refreshed : bool) (code : Code) : Prop :=
  code = Unauthenticated ∧ is_Some auth ∧ refreshed = false.

(** From attempt [k] on: the result, the cache and the events.  The three ways
    to end, and the two to go on. *)
Inductive exports (display : Status → string) (auth : option OtlpAuthConfig) (signal : Signal) (n : Z) (world : nat → Attempt)
  : nat → bool → option CachedToken → result string () → option CachedToken → list Event → Prop :=
| ends_unprepared k refreshed cache e cache' evs :
    (∀ a cache1 toks, ¬ authorised_by auth cache (world k) a cache1 toks) → Forall is_token_request evs → (length evs ≤ 1)%nat →
    exports display auth signal n world k refreshed cache (Err e) cache' evs
| ends_sent k refreshed cache a cache1 toks :
    authorised_by auth cache (world k) a cache1 toks → at_reply (world k) = None →
    exports display auth signal n world k refreshed cache (Ok ()) cache1 (toks ++ [Send n a signal None])
| ends_refused k refreshed cache a cache1 toks s :
    authorised_by auth cache (world k) a cache1 toks → at_reply (world k) = Some s →
    k = 3%nat ∨ (¬ transient (code_of s) ∧ ¬ renewable auth refreshed (code_of s)) →
    exports display auth signal n world k refreshed cache (Err (export_failure display signal k s)) cache1 (toks ++ [Send n a signal (Some s)])
| tries_again k refreshed cache a cache1 toks s r cache' evs :
    authorised_by auth cache (world k) a cache1 toks → at_reply (world k) = Some s → (k < 3)%nat → transient (code_of s) →
    exports display auth signal n world (S k) refreshed cache1 r cache' evs →
    exports display auth signal n world k refreshed cache r cache'
      (toks ++ [Send n a signal (Some s); Sleep (100 * 2 ^ (Z.of_nat k - 1))] ++ evs)
| logs_in_again k refreshed cache a cache1 toks s r cache' evs :
    authorised_by auth cache (world k) a cache1 toks → at_reply (world k) = Some s → (k < 3)%nat → renewable auth refreshed (code_of s) →
    exports display auth signal n world (S k) true None r cache' evs →
    exports display auth signal n world k refreshed cache r cache'
      (toks ++ [Send n a signal (Some s); Invalidate; Sleep (100 * 2 ^ (Z.of_nat k - 1))] ++ evs).

Lemma fresh_token_None cache now : fresh_token cache now = None ↔ ∀ old, cache = Some old → ct_refresh_at old ≤ now.
Proof.
  unfold fresh_token. destruct cache as [t|]; [|by split]. destruct (Z.ltb_spec now (ct_refresh_at t)); split; try done.
  - intros Hf. specialize (Hf t eq_refl). lia.
  - by intros _ old [= <-].
Qed.

Lemma attempt_exports auth cache signal n w r cache1 evs : export_attempt auth cache signal n w = (r, cache1, evs) →
  match r with
  | PrepareError _ => (∀ a cache' toks, ¬ authorised_by auth cache w a cache' toks) ∧ Forall is_token_request evs ∧ (length evs ≤ 1)%nat
  | Sent => ∃ a toks, authorised_by auth cache w a cache1 toks ∧ at_reply w = None ∧ evs = toks ++ [Send n a signal None]
  | GrpcError s => ∃ a toks, authorised_by auth cache w a cache1 toks ∧ at_reply w = Some s ∧ evs = toks ++ [Send n a signal (Some s)]
  end.
Proof.
  unfold export_attempt. destruct auth as [c|].
  - pose proof (access_token_fresh c cache w) as Ht. destruct (access_token c cache w) as [[res cache'] toks] eqn:Ea.
    assert (∀ token : string, res = Ok token → ∀ a cache2 toks2, authorised_by (Some c) cache w a cache2 toks2 → a = Some ("Bearer " +:+ token)) as Hdet.
    { intros token -> a cache2 toks2 Hb. destruct Ht as [(e & [=] & _)|[(t & -> & [= ->] & Hn & _)|(t & secret & Hn & [= ->] & _ & Hf & Hs & _)]].
      - inversion Hb as [|c' t' Hc Ht' ? ?|c' t' s' Hc Ho ? ?]; simplify_eq; [done|]. specialize (Ho t eq_refl). lia.
      - rewrite fresh_token_None in Hn. inversion Hb as [|c' t' Hc Ht' Hl ?|c' t' s' Hc Ho ? Hf' ?]; simplify_eq; [specialize (Hn t' eq_refl); lia|].
        unfold fetched in Hf, Hf'. destruct Hf as (? & ? & ? & ? & ? & ? & ? & ? & ? & ? & ? & -> & _), Hf' as (? & ? & ? & ? & ? & ? & ? & ? & ? & ? & ? & -> & _).
        congruence. }
    destruct res as [token|e].
    + specialize (Hdet token eq_refl). destruct (ascii_metadata ("Bearer " +:+ token)) eqn:Em.
      * assert (authorised_by (Some c) cache w (Some ("Bearer " +:+ token)) cache' toks) as Hb.
        { destruct Ht as [(e & [=] & _)|[(t & -> & [= ->] & Hn & -> & ->)|(t & secret & Hn & [= ->] & -> & Hf & Hs & ->)]].
          - by eapply by_cached.
          - rewrite fresh_token_None in Hn. by eapply by_fetched. }
        intros [= <- <- <-]. destruct (at_reply w) as [s|]; by eexists _, _.
      * intros [= <- <- <-]. split_and!.
        -- intros a cache2 toks2 Hb. pose proof (Hdet _ _ _ Hb) as ->. inversion Hb; simplify_eq; congruence.
        -- by eapply access_token_events.
        -- destruct Ht as [(e & [=] & _)|[(t & _ & _ & _ & _ & ->)|(t & secret & _ & _ & _ & _ & _ & ->)]]; simpl; lia.
    + intros [= <- <- <-]. split_and!.
      * intros a cache2 toks2 Hb. unfold access_token in Ea. inversion Hb as [|c' t' Hc Hc' Hl Hm|c' t' s' Hc Ho Hs Hf Hm]; simplify_eq.
        -- cbn [fresh_token] in Ea. rewrite (proj2 (Z.ltb_lt _ _)) in Ea by done. done.
        -- rewrite (proj2 (fresh_token_None _ _)), Hs in Ea by done. destruct Hf as (secret & r0 & body & tr & Hs' & Hne & Hr & Hsu & Hb' & _ & Ht' & Hv & Hv' & Hk & Hd & _).
           simplify_eq. unfold is_empty in Ea. rewrite bool_decide_eq_false_2, Hr in Ea by done.
           by rewrite (accept_token_from w r0 t' body tr) in Ea.
      * by eapply access_token_events.
      * unfold access_token in Ea. repeat case_match; simplify_eq; simpl; lia.
  - intros [= <- <- <-]. assert (authorised_by None cache w None cache []) by by constructor. destruct (at_reply w); by eexists _, _.
Qed.

Lemma retry_backoff_doubles k : (1 ≤ k < 3)%nat → retry_backoff k = 100 * 2 ^ (Z.of_nat k - 1).
Proof. intros Hk. assert (k = 1%nat ∨ k = 2%nat) as [-> | ->] by lia; done. Qed.

Lemma decision_cases code auth refreshed :
  match retry_decision code (bool_decide (is_Some auth)) refreshed with
  | Retry => transient code
  | RefreshAuth => renewable auth refreshed code
  | StopRetrying => ¬ transient code ∧ ¬ renewable auth refreshed code
  end.
Proof.
  unfold transient, renewable. destruct code; cbn [retry_decision];
    try (by apply (bool_decide_eq_true_1 (_ ∈ _)));
    try (split; [by apply (bool_decide_eq_false_1 (_ ∈ _))|by intros [? _]]).
  destruct (bool_decide (is_Some auth)) eqn:Ea, refreshed; cbn [andb negb]; to_prop; try done;
    (split; [by apply (bool_decide_eq_false_1 (_ ∈ _))|by intros (_ & ? & ?)]).
Qed.

Lemma export_loop_exports display auth signal n world remaining : ∀ k refreshed cache, (remaining + k = 4)%nat → (0 < remaining)%nat → (0 < k)%nat →
  ∃ r cache' evs, export_loop display auth signal n world remaining k refreshed cache = (Some r, cache', evs) ∧
    exports display auth signal n world k refreshed cache r cache' evs.
Proof.
  induction remaining as [|m IH]; intros k refreshed cache Hs Hpos Hk; [lia|]. cbn [export_loop].
  destruct (export_attempt auth cache signal n (world k)) as [[res cache1] evs1] eqn:E. apply attempt_exports in E. destruct res as [|e|s].
  - destruct E as (a & toks & Hb & Hr & ->). eexists _, _, _. split; [done|]. by apply ends_sent.
  - destruct E as (Hb & He & Hl). eexists _, _, _. split; [done|]. by apply ends_unprepared.
  - destruct E as (a & toks & Hb & Hr & ->). pose proof (decision_cases (code_of s) auth refreshed) as Hd. unfold OTLP_MAX_ATTEMPTS.
    destruct (bool_decide (k = 3%nat)) eqn:E3; to_prop; cbn [orb].
    { eexists _, _, _. split; [done|]. apply ends_refused; [done|done|by left]. }
    destruct (IH (S k) (refreshed || bool_decide (retry_decision (code_of s) (bool_decide (is_Some auth)) refreshed = RefreshAuth))
      (if bool_decide (retry_decision (code_of s) (bool_decide (is_Some auth)) refreshed = RefreshAuth) then None else cache1))
      as (r & cache' & evs & -> & Hx); [lia..|]. 
    destruct (retry_decision _ _ _) eqn:Ed; cbn in Hx |- *; eexists _, _, _; (split; [reflexivity|]).
    + rewrite orb_false_r in Hx. rewrite <- app_assoc, retry_backoff_doubles by lia. refine (tries_again _ _ _ _ _ k refreshed cache a cache1 toks s r cache' evs Hb Hr _ Hd Hx). lia.
    + rewrite orb_true_r in Hx. rewrite <- app_assoc, retry_backoff_doubles by lia. refine (logs_in_again _ _ _ _ _ k refreshed cache a cache1 toks s r cache' evs Hb Hr _ Hd Hx). lia.
    + apply ends_refused; [done|done|by right].
Qed.


(** ** The number on the wire is durable first *)

(** [OtlpExporter::export] of an authenticated exporter: the number comes from
    the durable allocator.  [None]: the process was cut off while allocating. *)
Definition durable_export (display : Status → string) (c : OtlpAuthConfig) (file : string)
    (pid next : Z) (os : list Outcome) (d : Host) (signal : Signal) (world : nat → Attempt)
    (cache : option CachedToken)
  : option (option (result string ()) * list Event * Z) * Host :=
  match next_blocking file pid next os d with
  | (Done (n, next'), d, _) =>
    let '(r, _, evs) := export display (Some c) signal (Ok n) world cache in
    (Some (r, evs, next'), d)
  | (Failed e, d, _) =>
    let '(r, _, evs) := export display (Some c) signal (Err e) world cache in
    (Some (r, evs, next), d)
  | (Stopped, d, _) => (None, d)
  end.

(** C21: no request leaves an authenticated exporter before the state file
    durably holds a larger number than the one the request carries: when
    anything was sent, its number is the allocator's, and whatever happens
    next the file can only be read as the following one. *)
Theorem send_after_persist display c file pid next os d signal world cache r evs next' d' x :
  durable_export display c file pid next os d signal world cache = (Some (r, evs, next'), d') →
  x ∈ sends evs →
  x.1.1.1 = next ∧ next' = next + 1 ∧ candidates d' = [line_entry (next + 1)].
Proof.
  unfold durable_export. intros H0 Hx.
  destruct (next_blocking file pid next os d) as [[[[n n']|e|] d1] os1] eqn:En; [| |done].
  - destruct (export display (Some c) signal (Ok n) world cache) as [[r0 c0] evs0] eqn:Ex.
    simplify_eq. unfold export in Ex. apply export_loop_spec in Ex as [_ _ Hs _ _ _ _];
      [|unfold OTLP_MAX_ATTEMPTS; lia..].
    rewrite Forall_forall in Hs. destruct (Hs x Hx) as (-> & _).
    unfold next_blocking, checked_add in En. case_match; [|done].
    apply io_bind_Done in En as ([] & d2 & os2 & Hp & [= <- <- -> _]).
    apply persist_spec in Hp as [Hp _]. case_match; simplify_eq. auto.
  - simpl in H0. simplify_eq. by apply elem_of_nil in Hx.
Qed.
End exporter.

(** *** An export with a number from the state file *)

Module DemoExport.
#[export] Instance demo_tokens : TokenApi := {|
  token_of_slice _ := Ok {| access_token_of := "t0"; token_type := Some "Bearer"; expires_in := 300 |};
  ascii_metadata _ := true |}.
Definition config : OtlpAuthConfig :=
  {| token_url := "https://login/token"; client_id := "agent"; client_secret_env := "SECRET";
     sequence_state_path := "/var/lib/skid/seq"; oauth_scope := None |}.
Definition world (attempt : nat) : Attempt :=
  {| at_now := 0; at_secret := Some "hunter2";
     at_response := Ok {| is_success := true; status_text := "200 OK"; content_length := None;
                          body_chunks := [Ok ["{"%byte; "}"%byte]] |};
     at_received := 0;
     at_reply := if bool_decide (attempt = 1%nat) then Some (mkStatus Unavailable "down") else None |}.
Definition signal : Signal := Logs {| resource_logs_of := [] |}.
Definition events : list Event :=
  [TokenRequest "agent" "hunter2" [("grant_type", "client_credentials")];
   Send 40 (Some "Bearer t0") signal (Some (mkStatus Unavailable "down")); Sleep 100;
   Send 40 (Some "Bearer t0") signal None].
End DemoExport.

Section demo.
Import DemoExport.
#[local] Transparent gmap_empty.

Lemma demo_durable_export :
  durable_export status_message config "seq" 7 40 [] h1 signal world None
  = (Some (Some (Ok ()), events, 41), h2).
Proof.
  unfold durable_export.
  assert (next_blocking "seq" 7 40 [] h1 = (Done (40, 41), h2, [])) as ->;
    [unfold h2; apply (run_eq (next_blocking "seq" 7 40 [] h1)); vm_refl|].
  reflexivity.
Qed.

Lemma send_after_persist_witness : candidates h2 = [line_entry 41].
Proof.
  refine (proj2 (proj2 (send_after_persist status_message config "seq" 7 40 [] h1 signal world None
    (Some (Ok ())) events 41 h2 (40, Some "Bearer t0", signal, None) demo_durable_export _))).
  apply list_elem_of_here || (right; left).
Defined.
End demo.
