(* ===== verification/Pipeline.v ===== *)
(** * The agent's pipeline (skid-monitor-agent, pipeline.rs, exporters.rs,
      transport.rs, otlp_receiver.rs and main.rs)

    The exporters built from the configuration, the routing of a signal from a
    receiver through its pipeline to every listed exporter, and the callers:
    the OTLP receiver and the self-observation cycle.  The network, the log and
    the OTLP exporter of [Exporter] are reached through the interface
    [AgentWorld]. *)

From S2P Require Import Prelude RustStr Otlp Frame AgentConfig Exporter.

(** ** Exporters *)

Inductive Sequence :=
| Ephemeral (next : Z)
| Durable (state_path : string) (next : Z).

(** A channel of tonic connects lazily: it is its endpoint. *)
Record OtlpExporter := mkOtlpExporter {
  oe_endpoint : string;
  oe_tls : bool;
  oe_auth : option OtlpAuthConfig;
  oe_sequence : Sequence;
}.

Inductive RuntimeExporter :=
| SkidClient (addr : option string)
| Logging (include_json : bool)
| OtlpRuntime (exporter : OtlpExporter).

Definition normalize_endpoint (endpoint : string) : string :=
  let endpoint := trim endpoint in
  if starts_with endpoint "http://" || starts_with endpoint "https://" then endpoint
  else "http://" +:+ endpoint.

(** The clock in nanoseconds since the epoch, negative when it is before. *)
Definition initial_sequence (clock : Z) : Z :=
  Z.max (if clock <? 0 then 1 else Z.min clock u64_max) 1.

Definition ephemeral (start : Z) : Sequence := Ephemeral (Z.max start 1).

(** [Sequence::next] of an ephemeral sequence: [fetch_update] with
    [checked_add]. *)
Definition ephemeral_next (current : Z) : result string Z * Z :=
  match checked_add current 1 with
  | Some following => (Ok current, following)
  | None => (Err "OTLP request sequence exhausted", current)
  end.

(** tonic's and reqwest's constructors, which may refuse, and
    [DurableSequence::open] of [Sequence]. *)
Class ExporterBuild := {
  endpoint_from_shared : string → result string ();
  tls_config : string → result string ();
  http_client : result string ();
  open_durable : string → result string Z;
}.

Section build.
Context `{UrlApi, ExporterBuild}.

(** [OAuthTokenProvider::new] *)
Definition token_provider_new (c : OtlpAuthConfig) : result string OtlpAuthConfig :=
  url ← ok_or (url_parse (trim (token_url c))) "OAuth token_url is invalid";
  _ ← ensure (safe_https url)
        "OAuth token_url must be an HTTPS URL without credentials or a fragment";
  _ ← map_err (λ e, "build OAuth HTTP client: " +:+ e) http_client;
  Ok c.

Definition otlp_exporter_new (clock : Z) (endpoint : string) (auth : option OtlpAuthConfig)
  : result string OtlpExporter :=
  let endpoint := normalize_endpoint endpoint in
  let use_tls := starts_with endpoint "https://" in
  _ ← match auth with
      | Some _ =>
        url ← ok_or (url_parse endpoint) "authenticated OTLP endpoint is invalid";
        ensure (use_tls && bool_decide (is_Some (url_host url)) && is_empty (url_username url)
                && bool_decide (url_password url = None) && bool_decide (url_fragment url = None))
          "authenticated OTLP endpoint must use HTTPS without credentials or a fragment"
      | None => Ok ()
      end;
  _ ← map_err (λ e, "invalid OTLP endpoint: " +:+ e) (endpoint_from_shared endpoint);
  _ ← (if use_tls then map_err (λ e, "configure OTLP TLS: " +:+ e) (tls_config endpoint) else Ok ());
  sequence ← match auth with
             | Some c => next ← open_durable (sequence_state_path c);
                         Ok (Durable (sequence_state_path c) next)
             | None => Ok (ephemeral (initial_sequence clock))
             end;
  auth ← match auth with
         | Some c => c ← token_provider_new c; Ok (Some c)
         | None => Ok None
         end;
  Ok (mkOtlpExporter endpoint use_tls auth sequence).

Definition build_exporter (clock : Z) (ne : string * ExporterConfig)
  : result string (string * RuntimeExporter) :=
  match ne.2 with
  | SkidClientConfig addr => Ok (ne.1, SkidClient addr)
  | LoggingConfig include_json => Ok (ne.1, Logging include_json)
  | OtlpConfig endpoint auth =>
    exporter ← map_err (λ e, "initialize OTLP exporter " +:+ debug_str ne.1 +:+ ": " +:+ e)
                 (otlp_exporter_new clock endpoint auth);
    Ok (ne.1, OtlpRuntime exporter)
  end.

(** [SignalExporters::from_config]: in the order of the names, stopping at
    the first error. *)
Definition exporters_from_config (clock : Z) (c : AgentConfig)
  : result string (gmap string RuntimeExporter) :=
  built ← try_map (build_exporter clock) (btree_iter (exporters c));
  Ok (list_to_map built).
End build.

(** ** Delivery *)

(** What the exporters do outside the process: connect to a client and write a
    frame to it, log a line, export over OTLP. *)
Class AgentWorld (W : Type) := {
  tcp_send : string → list byte → W → result IoError () * W;
  log_line : string → string → Z → option (list byte) → W → W;
  otlp_send : OtlpExporter → Signal → W → result string () * W;
}.

Record RequiredExporterFailure := mkFailure { failed_exporter : string; failure_message : string }.

Section delivery.
Context `{SignalCodec} {W : Type} `{AgentWorld W} (env : Env).

Definition nonblank (addr : string) : bool := negb (is_empty (trim addr)).
Definition filter_opt {A} (p : A → bool) (o : option A) : option A :=
  match o with Some a => if p a then Some a else None | None => None end.

Definition resolve_client_addr (configured : option string) : option string :=
  filter_opt nonblank
    (match filter_opt nonblank configured with
     | Some addr => Some addr
     | None => env_or_legacy env "SKID_MONITOR_CLIENT_ADDR" "MONITOR_CAT_CLIENT_ADDR"
     end).

(** [frame::write_signal_payload] writes the length and the payload, after
    connecting; [tcp_send] is given those bytes. *)
Definition send_tcp (addr : string) (payload : list byte) (w : W) : result IoError () * W :=
  match validate_payload_len (zlen payload) with
  | Err e => (Err e, w)
  | Ok _ => tcp_send addr (to_be 4 (zlen payload) ++ payload) w
  end.

Definition send_to_client (signal : Signal) (addr : option string) (w : W)
  : result string () * W :=
  match addr with
  | None => (Err "skid client exporter has no target address", w)
  | Some addr =>
    match encode_signal_payload signal with
    | Err e => (Err ("signal 직렬화 실패: " +:+ io_message e), w)
    | Ok payload =>
      match send_tcp addr payload w with
      | (Ok _, w) => (Ok (), w)
      | (Err e, w) => (Err ("client로 TCP 전송 실패: " +:+ io_message e), w)
      end
    end
  end.

(** [SignalExt::item_count]: metrics, spans or log records. *)
Definition item_count (s : Signal) : Z :=
  match s with
  | Metrics r => sumZ ((λ sm, zlen (sm_metrics sm)) <$> (rm ← resource_metrics_of r; rm_scope_metrics rm))
  | Traces r => sumZ ((λ ss, zlen (ss_spans ss)) <$> (rs ← resource_spans_of r; rs_scope_spans rs))
  | Logs r => sumZ ((λ sl, zlen (sl_log_records sl)) <$> (rl ← resource_logs_of r; rl_scope_logs rl))
  end.

Definition export_one (name : string) (exporter : RuntimeExporter) (signal : Signal) (w : W)
  : result string () * W :=
  match exporter with
  | SkidClient addr => send_to_client signal (resolve_client_addr addr) w
  | Logging true =>
    match to_vec signal with
    | Err e => (Err ("serialize signal for logging exporter: " +:+ e), w)
    | Ok json => (Ok (), log_line name (signal_kind signal) (item_count signal) (Some json) w)
    end
  | Logging false => (Ok (), log_line name (signal_kind signal) (item_count signal) None w)
  | OtlpRuntime e => otlp_send e signal w
  end.

(** [SignalExporters::export] *)
Definition exporters_export (exporters : gmap string RuntimeExporter) (name : string)
    (signal : Signal) (w : W) : result RequiredExporterFailure () * W :=
  match exporters !! name with
  | None => (Err (mkFailure name "pipeline references a missing exporter"), w)
  | Some exporter =>
    match export_one name exporter signal w with
    | (Ok _, w) => (Ok (), w)
    | (Err e, w) => (Err (mkFailure name e), w)
    end
  end.

(** ** The pipeline *)

Inductive ReceiverKind := SelfObservation | Device | OtlpReceiver | DatabaseLogs.
Definition receiver_as_str (k : ReceiverKind) : string :=
  match k with
  | SelfObservation => "self_observation" | Device => "device"
  | OtlpReceiver => "otlp" | DatabaseLogs => "database_logs"
  end.

Record PipelineRuntime := mkRuntime {
  rt_processors : gmap string ProcessorConfig;
  rt_pipelines : PipelinesConfig;
  rt_exporters : gmap string RuntimeExporter;
}.

Record PipelineExportError := mkExportError {
  pe_receiver : ReceiverKind;
  pe_signal_kind : string;
  pe_failures : list RequiredExporterFailure;
}.

Definition pipeline_for (rt : PipelineRuntime) (signal : Signal) : PipelineConfig :=
  match signal with
  | Metrics _ => pls_metrics (rt_pipelines rt)
  | Traces _ => pls_traces (rt_pipelines rt)
  | Logs _ => pls_logs (rt_pipelines rt)
  end.

(** The batch processor is a named slot: neither branch changes the signal. *)
Definition apply_processor (rt : PipelineRuntime) (name : string) (signal : Signal) : Signal :=
  match rt_processors rt !! name with
  | Some Batch => signal
  | None => signal
  end.

Fixpoint export_all (exporters : gmap string RuntimeExporter) (names : list string)
    (signal : Signal) (w : W) : list RequiredExporterFailure * W :=
  match names with
  | [] => ([], w)
  | name :: names =>
    let '(r, w) := exporters_export exporters name signal w in
    let '(failures, w) := export_all exporters names signal w in
    (match r with Ok _ => failures | Err failure => failure :: failures end, w)
  end.

Definition pipeline_export (rt : PipelineRuntime) (receiver : ReceiverKind) (signal : Signal)
    (w : W) : result PipelineExportError () * W :=
  let kind := signal_kind signal in
  let pipeline := pipeline_for rt signal in
  if negb (bool_decide (receiver_as_str receiver ∈ pl_receivers pipeline)) then (Ok (), w)
  else
    let signal := foldl (λ s name, apply_processor rt name s) signal (pl_processors pipeline) in
    let '(failures, w) := export_all (rt_exporters rt) (pl_exporters pipeline) signal w in
    (if zlen failures =? 0 then Ok () else Err (mkExportError receiver kind failures), w).

(** [Display for PipelineExportError] *)
Definition export_error_text (e : PipelineExportError) : string :=
  u64_to_string (zlen (pe_failures e)) +:+ " required downstream exporter(s) failed for "
  +:+ pe_signal_kind e +:+ " from " +:+ receiver_as_str (pe_receiver e)
  +:+ foldr (λ f t, "; " +:+ debug_str (failed_exporter f) +:+ ": " +:+ failure_message f +:+ t) ""
        (pe_failures e).

(** ** Callers *)

(** The three services of [OtlpIngest]: the inner request is exported whole,
    and a failure becomes a status that names nothing of the downstream. *)
Definition downstream_unavailable (e : PipelineExportError) : Status :=
  mkStatus Unavailable "required downstream telemetry exporter is unavailable".

Definition otlp_ingest (rt : PipelineRuntime) (request : Signal) (w : W) : result Status () * W :=
  match pipeline_export rt OtlpReceiver request w with
  | (Ok _, w) => (Ok (), w)
  | (Err e, w) => (Err (downstream_unavailable e), w)
  end.

(** [run_cycle]: the three self-observation signals, each exported whatever
    became of the others. *)
Definition run_cycle (rt : PipelineRuntime) (now : Z) (own : list ResourceMetrics)
    (samples : list Metric) (spans : ExportTraceServiceRequest) (logs : ExportLogsServiceRequest)
    (w : W) : W :=
  let system := export_metrics now samples "skid-monitor-agent" "skid-monitor-system" in
  let metrics := {| resource_metrics_of := own ++ resource_metrics_of system |} in
  let w := (pipeline_export rt SelfObservation (Metrics metrics) w).2 in
  let w := (pipeline_export rt SelfObservation (Traces spans) w).2 in
  (pipeline_export rt SelfObservation (Logs logs) w).2.
End delivery.

Section from_config.
Context `{UrlApi, ExporterBuild}.
Definition pipeline_from_config (clock : Z) (c : AgentConfig) : result string PipelineRuntime :=
  built ← exporters_from_config clock c;
  Ok (mkRuntime (processors c) (pipelines c) built).

Lemma try_map_elem {E A B} (f : A → result E B) l k x : try_map f l = Ok k → x ∈ l →
  ∃ y, y ∈ k ∧ f x = Ok y.
Proof.
  revert k. induction l as [|a l IH]; intros k; [intros _ []%elem_of_nil|]. simpl.
  intros (y & Hy & Hk)%bind_Ok. apply bind_Ok in Hk as (ys & Hys & [= <-]).
  intros [->|Hx]%elem_of_cons; [exists y; split; [by left|done]|].
  destruct (IH ys Hys Hx) as (z & ? & ?). exists z. split; [by right|done].
Qed.

Lemma build_exporter_name clock ne x : build_exporter clock ne = Ok x → x.1 = ne.1.
Proof.
  unfold build_exporter. destruct (ne.2); [by intros [= <-]..|].
  by intros (e & _ & [= <-])%bind_Ok.
Qed.

(** Every configured exporter has been built under its name. *)
Lemma exporters_from_config_dom clock c m name : exporters_from_config clock c = Ok m →
  is_Some (exporters c !! name) → is_Some (m !! name).
Proof.
  unfold exporters_from_config. intros (built & Hb & [= <-])%bind_Ok (e & He).
  apply elem_of_btree_iter in He. destruct (try_map_elem _ _ _ _ Hb He) as ([n x] & Hx & Hn).
  apply build_exporter_name in Hn. simpl in Hn. subst n.
  apply not_eq_None_Some. intros Hnone. apply not_elem_of_list_to_map in Hnone.
  apply Hnone, list_elem_of_fmap. by exists (name, x).
Qed.
End from_config.

(** ** Every exporter is attempted *)

Section attempts.
Context `{SignalCodec} {W : Type} `{AgentWorld W} (env : Env).

(** One attempt per exporter, in order, each in the world the previous one
    left. *)
Inductive attempts (signal : Signal)
  : W → list (string * RuntimeExporter * result string ()) → W → Prop :=
| attempts_nil w : attempts signal w [] w
| attempts_cons w w1 w2 name e r l :
    export_one env name e signal w = (r, w1) → attempts signal w1 l w2 →
    attempts signal w ((name, e, r) :: l) w2.

Definition failures_of (l : list (string * RuntimeExporter * result string ()))
  : list RequiredExporterFailure :=
  omap (λ x, match x.2 with Ok _ => None | Err e => Some (mkFailure x.1.1 e) end) l.

Lemma export_all_attempts m names signal w : (∀ n, n ∈ names → is_Some (m !! n)) →
  ∃ runs w', attempts signal w runs w' ∧ (λ x, x.1.1) <$> runs = names ∧
    Forall (λ x, m !! x.1.1 = Some x.1.2) runs ∧
    export_all env m names signal w = (failures_of runs, w').
Proof.
  revert w. induction names as [|n names IH]; intros w Hm.
  { exists [], w. repeat constructor. }
  destruct (Hm n) as (e & He); [by left|].
  destruct (export_one env n e signal w) as [r w1] eqn:E.
  destruct (IH w1) as (runs & w' & Ha & Hn & Hf & Hx); [intros; apply Hm; by right|].
  exists ((n, e, r) :: runs), w'. split_and!.
  - by econstructor.
  - by rewrite fmap_cons, Hn.
  - by constructor.
  - simpl. unfold exporters_export. rewrite He, E. destruct r; by rewrite Hx.
Qed.

Lemma processors_keep rt names signal :
  foldl (λ s name, apply_processor rt name s) signal names = signal.
Proof.
  induction names as [|n names IH]; [done|]. simpl.
  assert (apply_processor rt n signal = signal) as -> by (unfold apply_processor; by repeat case_match).
  apply IH.
Qed.

(** C22: under a configuration that passed validation, a signal of a receiver
    the pipeline does not list is dropped without any effect; any other is
    offered, unchanged, to every exporter of its pipeline exactly once and in
    order, whatever becomes of the others, and the result is a success exactly
    when all of them succeeded, and otherwise names every one that failed with
    its reason. *)
Theorem pipeline_delivers `{UrlApi, ExporterBuild} clock c rt receiver signal w :
  config_ok c → pipeline_from_config clock c = Ok rt →
  let route := pipeline_for rt signal in
  (receiver_as_str receiver ∉ pl_receivers route → pipeline_export env rt receiver signal w = (Ok (), w)) ∧
  (receiver_as_str receiver ∈ pl_receivers route → ∃ runs w',
     attempts signal w runs w' ∧ (λ x, x.1.1) <$> runs = pl_exporters route ∧
     Forall (λ x, rt_exporters rt !! x.1.1 = Some x.1.2) runs ∧
     ((Forall (λ x, x.2 = Ok ()) runs ∧ pipeline_export env rt receiver signal w = (Ok (), w')) ∨
      (Exists (λ x, x.2 ≠ Ok ()) runs ∧ pipeline_export env rt receiver signal w =
         (Err (mkExportError receiver (signal_kind signal) (failures_of runs)), w')))).
Proof.
  intros Hc (m & Hm & [= <-])%bind_Ok. cbv zeta. unfold pipeline_export. split; intros Hr.
  { by rewrite bool_decide_eq_false_2. }
  rewrite bool_decide_eq_true_2 by done. simpl. rewrite processors_keep.
  destruct (export_all_attempts m (pl_exporters (pipeline_for (mkRuntime (processors c) (pipelines c) m)
    signal)) signal w) as (runs & w' & Ha & Hn & Hf & ->).
  { intros n Hin. apply (exporters_from_config_dom clock c); [done|].
    destruct signal; [exact (po_known _ _ (co_metrics _ Hc) n Hin)|
      exact (po_known _ _ (co_traces _ Hc) n Hin)|exact (po_known _ _ (co_logs _ Hc) n Hin)]. }
  exists runs, w'. split_and!; [done..|].
  destruct (decide (Forall (λ x, is_ok x.2 = true) runs)) as [Hall|Hnot].
  - left. split.
    + eapply Forall_impl; [exact Hall|]. intros [? [[]|]]; simpl; done.
    + assert (failures_of runs = []) as ->; [|done]. unfold failures_of. apply omap_nil_iff.
      intros x Hx. rewrite Forall_forall in Hall. specialize (Hall x Hx). by destruct (x.2).
  - right. apply not_Forall_Exists in Hnot; [|apply _]. split.
    + eapply Exists_impl; [exact Hnot|]. intros [? [[]|]]; simpl; done.
    + assert ((zlen (failures_of runs) =? 0) = false) as ->; [|done].
      apply Z.eqb_neq. intros Hz%zlen_nil_inv. unfold failures_of in Hz. rewrite omap_nil_iff in Hz.
      apply Exists_exists in Hnot as (x & Hx & Hb). specialize (Hz x Hx).
      destruct x as [? [|]]; simpl in *; [by apply Hb|done].
Qed.
End attempts.

(** ** Exporters that carry a token are safe to carry one *)

(** An exporter with credentials is only ever built for an HTTPS endpoint
    with a host and without embedded credentials, over TLS, with an HTTPS token
    endpoint, and with the durable sequence of its state file; one without
    credentials has an ephemeral sequence of at least one. *)
Theorem otlp_exporter_secure `{UrlApi, ExporterBuild} clock endpoint auth e :
  otlp_exporter_new clock endpoint auth = Ok e →
  oe_auth e = auth ∧
  match auth with
  | Some c => oe_tls e = true ∧ starts_with (oe_endpoint e) "https://" = true ∧
      https_url (token_url c) ∧
      (∃ u, url_parse (oe_endpoint e) = Some u ∧ is_Some (url_host u) ∧ url_username u = "" ∧
            url_password u = None ∧ url_fragment u = None) ∧
      ∃ n, open_durable (sequence_state_path c) = Ok n ∧ oe_sequence e = Durable (sequence_state_path c) n
  | None => ∃ n, 1 ≤ n ∧ oe_sequence e = Ephemeral n
  end.
Proof.
  unfold otlp_exporter_new. cbv zeta. intros (u & Hu & Hk)%bind_Ok.
  apply bind_Ok in Hk as (_ & _ & Hk). apply bind_Ok in Hk as (_ & _ & Hk).
  apply bind_Ok in Hk as (sq & Hs & Hk). apply bind_Ok in Hk as (a & Ha & [= <-]). simpl.
  destruct auth as [c|].
  - apply bind_Ok in Ha as (c' & Hc & [= <-]). apply bind_Ok in Hu as (url & Hurl & He).
    apply bind_Ok in Hs as (n & Hn & [= <-]). destruct u. rewrite ensure_Ok in He.
    unfold token_provider_new in Hc. apply bind_Ok in Hc as (tu & Htu & Hc).
    apply bind_Ok in Hc as ([] & Hsafe & Hc). apply bind_Ok in Hc as (_ & _ & [= <-]).
    to_prop. unfold is_empty in *. to_prop. split_and!; try done.
    + eapply safe_https_Ok. rewrite bind_Ok. eauto.
    + destruct (url_parse _) as [u|]; [|done]. injection Hurl as ->. eauto 10.
    + eauto.
  - injection Ha as <-. injection Hs as <-. split; [done|]. eexists. split; [|done]. lia.
Qed.

(** *** A pipeline with an unreachable client and a log *)

Module DemoPipeline.
#[export] Instance demo_urls : UrlApi := {|
  url_parse s := if starts_with s "https://"
                 then Some {| url_scheme := "https"; url_host := Some "collector"; url_username := "";
                              url_password := None; url_path := "/"; url_query := None;
                              url_query_pairs := []; url_fragment := None;
                              url_origin := "https://collector"; url_text := s |}
                 else None |}.
#[export] Instance demo_build : ExporterBuild := {|
  endpoint_from_shared _ := Ok (); tls_config _ := Ok (); http_client := Ok ();
  open_durable _ := Ok 17 |}.
#[export] Instance demo_world : AgentWorld (list string) := {|
  tcp_send addr _ w := (Err (mkIoError OtherIo "connection refused"), w ++ [addr]);
  log_line name kind _ _ w := w ++ [name +:+ " " +:+ kind];
  otlp_send e _ w := (Ok (), w ++ [oe_endpoint e]) |}.
#[export] Existing Instance DemoCodec.demo_codec.

Definition env : Env := λ _, None.
Definition both : PipelineConfig :=
  {| pl_receivers := ["device"]; pl_processors := ["batch"]; pl_exporters := ["skid"; "debug"] |}.
Definition config : AgentConfig :=
  {| receivers := receivers_default env;
     processors := {["batch" := Batch]};
     exporters := {["skid" := SkidClientConfig (Some "127.0.0.1:9000"); "debug" := LoggingConfig false]};
     pipelines := {| pls_metrics := both; pls_traces := both; pls_logs := both |} |}.
Definition auth : OtlpAuthConfig :=
  {| token_url := "https://login/token"; client_id := "agent"; client_secret_env := "SECRET";
     sequence_state_path := "/var/lib/skid/seq"; oauth_scope := None |}.
Definition runtime : PipelineRuntime :=
  mkRuntime (processors config) (pipelines config)
    (list_to_map [("debug", Logging false); ("skid", SkidClient (Some "127.0.0.1:9000"))]).
End DemoPipeline.

Section demo.
Import DemoPipeline.
#[local] Transparent gmap_empty.

Lemma demo_config_ok : config_ok config.
Proof. apply validate_Ok. vm_refl. Qed.

Lemma demo_runtime : pipeline_from_config 5 config = Ok runtime.
Proof. vm_refl. Qed.

Lemma pipeline_delivers_witness :
  ∃ runs w', attempts env DemoCodec.empty_logs [] runs w' ∧
    (λ x, x.1.1) <$> runs = ["skid"; "debug"] ∧
    (pipeline_export env runtime Device DemoCodec.empty_logs []).2 = w'.
Proof.
  destruct (proj2 (pipeline_delivers env 5 config runtime Device DemoCodec.empty_logs []
    demo_config_ok demo_runtime) ltac:(by left)) as (runs & w' & Ha & Hn & _ & Hr).
  exists runs, w'. split; [exact Ha|]. split; [exact Hn|].
  destruct Hr as [[_ ->]|[_ ->]]; reflexivity.
Defined.

Lemma otlp_exporter_secure_witness :
  oe_auth (mkOtlpExporter "https://collector:4317" true (Some auth) (Durable "/var/lib/skid/seq" 17))
  = Some auth.
Proof.
  refine (proj1 (otlp_exporter_secure 5 "https://collector:4317" (Some auth)
    (mkOtlpExporter "https://collector:4317" true (Some auth) (Durable "/var/lib/skid/seq" 17)) _)).
  vm_refl.
Defined.
End demo.
