(* ===== verification/DeviceSocket.v ===== *)
(** * The agent's device socket (skid-monitor-agent, device_socket.rs)

    A device sends one length-prefixed payload, either a JSON signal or an
    edge-wire frame; the latter is lifted to OTLP metrics.  Composes [EdgeWire],
    [Frame], [Otlp] and [Pipeline]: [device_roundtrip] follows samples from the
    firmware's encoder to the signal that enters the pipeline. *)

From S2P Require Import Prelude RustStr Otlp Frame EdgeWire AgentConfig Exporter Pipeline.

(** ** [f32 as f64]

    Every single-precision value is exact in double precision; all NaNs are
    one value. *)

(** [m * 2 ^ e] with a 53-bit mantissa. *)
Definition f64_exact (s : bool) (m : positive) (e : Z) : f64 :=
  let k := 53 - Zpos (digits2_pos m) in
  S754_finite s (shift_pos (Z.to_pos k) m) (e - k).

Definition f32_as_f64 (bits : Z) : f64 :=
  let s := Z.testbit bits 31 in
  let exponent := Z.shiftr bits 23 `mod` 256 in
  let fraction := bits `mod` 2 ^ 23 in
  if exponent =? 255 then if fraction =? 0 then S754_infinity s else S754_nan
  else if exponent =? 0 then
    match fraction with
    | Zpos m => f64_exact s m (-149)
    | _ => S754_zero s
    end
  else f64_exact s (Z.to_pos (2 ^ 23 + fraction)) (exponent - 150).

(** ** Decoding *)

Definition decode_error_debug (e : DecodeError) : string :=
  match e with
  | TooShort => "TooShort" | BadMagic => "BadMagic" | UnsupportedVersion => "UnsupportedVersion"
  | UnsupportedKind => "UnsupportedKind" | InvalidUtf8 => "InvalidUtf8"
  | TruncatedIdentity => "TruncatedIdentity" | BadRecordLength => "BadRecordLength"
  | ReservedMetricId => "ReservedMetricId" | ReservedSensorId => "ReservedSensorId"
  | UnknownMetricKind => "UnknownMetricKind" | UnknownUnit => "UnknownUnit"
  end.

Definition invalid_data (message : string) : IoError := mkIoError InvalidData message.

Definition metric_name (m : MetricId) : string :=
  match metric_known_name m with
  | Some n => n
  | None => "edge.metric." +:+ u64_to_string (metric_id_get m)
  end.

Definition edge_wire_metric (f : EdgeMetricsFrame) (s : EdgeMetricSample) : Metric :=
  {| name := metric_name (metric_id s);
     metric_value := f32_as_f64 (value s);
     source := EdgeDevice;
     unit_of := unit_as_str (unit_ s);
     metric_kind := match kind s with Gauge => KGauge | Sum => KSum | Histogram => KHistogram end;
     attributes :=
       [("device_id", device_id f); ("node_name", node_name f);
        ("metric_id", u64_to_string (metric_id_get (metric_id s)));
        ("sensor_id", u64_to_string (sensor_id_get (sensor_id s)))] ++
       match sensor_known_name (sensor_id s) with Some n => [("sensor", n)] | None => [] end |}.

(** The loop over the records stops at the first one that does not decode. *)
Definition lift_record (f : EdgeMetricsFrame) (r : result DecodeError EdgeMetricSample)
  : result IoError Metric :=
  match r with
  | Ok s => Ok (edge_wire_metric f s)
  | Err e => Err (invalid_data ("edge-wire record: " +:+ decode_error_debug e))
  end.

Definition decode_edge_wire_payload (now : Z) (payload : list byte)
  : may_panic (result IoError Signal) :=
  match decode_metrics_frame payload with
  | None => None
  | Some (Err e) => Some (Err (invalid_data ("edge-wire frame: " +:+ decode_error_debug e)))
  | Some (Ok f) =>
    items ← frame_samples f;
    Some (metrics ← try_map (lift_record f) items;
          Ok (Metrics (export_metrics now metrics "skid-edge-wire" "skid-monitor-edge-wire")))
  end.

Section device.
Context `{SignalCodec}.

Definition decode_device_payload (now : Z) (payload : list byte)
  : may_panic (result IoError Signal) :=
  if is_edge_wire_frame payload then decode_edge_wire_payload now payload
  else Some (decode_signal_payload payload).

(** tokio's [read_exact]: every error is returned, the end of the stream is
    reported as such.  [None] is fuel exhaustion. *)
Definition early_eof : IoError := mkIoError UnexpectedEof "early eof".

Fixpoint read_exact_async {R} `{Reader R} (fuel n : nat) (r : R)
  : option (result IoError (list byte) * R) :=
  match n with
  | O => Some (Ok [], r)
  | S _ =>
    match fuel with
    | O => None
    | S fuel =>
      match read n r with
      | (Ok [], r) => Some (Err early_eof, r)
      | (Ok bs, r) =>
        '(rest, r) ← read_exact_async fuel (n - length bs) r;
        Some (match rest with Ok l => Ok (bs ++ l) | Err e => Err e end, r)
      | (Err e, r) => Some (Err e, r)
      end
    end
  end.

(** The outer [option] is fuel, the inner one a panic. *)
Definition read_device_signal {R} `{Reader R} (fuel : nat) (now : Z) (stream : R)
  : option (may_panic (result IoError Signal) * R) :=
  '(len_buf, stream) ← read_exact_async fuel 4 stream;
  match len_buf with
  | Err e => Some (Some (Err e), stream)
  | Ok len_buf =>
    match validate_frame_len (from_be len_buf) with
    | Err e => Some (Some (Err e), stream)
    | Ok len =>
      '(payload, stream) ← read_exact_async fuel len stream;
      Some (match payload with
            | Err e => Some (Err e)
            | Ok payload => decode_device_payload now payload
            end, stream)
    end
  end.

(** [handle_connection]: one signal per connection, exported under the device
    receiver; [io::Error::other] keeps the text of the pipeline's error. *)
Definition handle_connection {W R} `{AgentWorld W, Reader R} (env : Env) (rt : PipelineRuntime)
    (fuel : nat) (now : Z) (stream : R) (w : W) : option (may_panic (result IoError ()) * W) :=
  '(r, _) ← read_device_signal fuel now stream;
  Some match r with
       | None => (None, w)
       | Some (Err e) => (Some (Err e), w)
       | Some (Ok signal) =>
         match pipeline_export env rt Device signal w with
         | (Ok _, w) => (Some (Ok ()), w)
         | (Err e, w) => (Some (Err (mkIoError OtherIo (export_error_text e))), w)
         end
       end.
End device.

(** ** Exactness of the conversion *)

Lemma digits2_shift_pos k m :
  Zpos (digits2_pos (shift_pos k m)) = Zpos (digits2_pos m) + Zpos k.
Proof.
  unfold shift_pos. revert m. induction k as [|k IH] using Pos.peano_ind; intros m; simpl.
  - lia.
  - rewrite Pos.iter_succ. simpl. rewrite Pos2Z.inj_succ, IH. lia.
Qed.

(** A mantissa of at most 24 bits with the exponent of a single: the result is
    a canonical double of the same value. *)
Lemma f64_exact_spec s m e : Zpos m < 2 ^ 24 → -149 ≤ e ≤ 104 →
  ∃ m' e', f64_exact s m e = S754_finite s m' e' ∧ valid_binary 53 1024 (f64_exact s m e) = true ∧
    e' ≤ e ∧ Zpos m' = Zpos m * 2 ^ (e - e').
Proof.
  intros Hm He. unfold f64_exact. set (k := 53 - Zpos (digits2_pos m)).
  assert (Hk : 29 ≤ k ≤ 52).
  { pose proof (digits2_bounds m) as [Hl _]. assert (Zpos (digits2_pos m) - 1 < 24); [|lia].
    apply (Z.pow_lt_mono_r_iff 2); lia. }
  do 2 eexists. split; [reflexivity|].
  assert (Hd : Zpos (digits2_pos (shift_pos (Z.to_pos k) m)) = 53).
  { rewrite digits2_shift_pos, Z2Pos.id by lia. lia. }
  split_and!.
  - cbn [valid_binary]. unfold bounded, canonical_mantissa, fexp, emin.
    rewrite Hd. apply andb_true_intro. split; [apply Z.eqb_eq|apply Z.leb_le]; lia.
  - lia.
  - rewrite shift_pos_correct, Zpower_pos_nat, Zpower_nat_Z, positive_nat_Z, Z2Pos.id by lia.
    replace (e - (e - k)) with k by lia. lia.
Qed.

(** The bits of a finite single as mantissa and exponent. *)
Definition f32_parts (bits : Z) : Z * Z :=
  let exponent := Z.shiftr bits 23 `mod` 256 in
  let fraction := bits `mod` 2 ^ 23 in
  if exponent =? 0 then (fraction, -149) else (2 ^ 23 + fraction, exponent - 150).

(** The conversion of a finite single is a canonical double with the same
    sign and the same value. *)
Lemma f32_as_f64_exact bits : Z.shiftr bits 23 `mod` 256 ≠ 255 →
  valid_binary 53 1024 (f32_as_f64 bits) = true ∧
  match f32_as_f64 bits with
  | S754_zero s => s = Z.testbit bits 31 ∧ (f32_parts bits).1 = 0
  | S754_finite s m e => s = Z.testbit bits 31 ∧ e ≤ (f32_parts bits).2 ∧
      Zpos m = (f32_parts bits).1 * 2 ^ ((f32_parts bits).2 - e)
  | _ => False
  end.
Proof.
  intros Hf. unfold f32_as_f64, f32_parts.
  pose proof (Z.mod_pos_bound (Z.shiftr bits 23) 256) as Hexp.
  pose proof (Z.mod_pos_bound bits (2 ^ 23)) as Hfr.
  destruct (_ =? 255) eqn:E1; [to_prop; lia|]. destruct (_ =? 0) eqn:E2; to_prop.
  - destruct (bits `mod` 2 ^ 23) as [|m|m] eqn:Em; [done| |lia].
    destruct (f64_exact_spec (Z.testbit bits 31) m (-149)) as (m' & e' & He & Hv & Hle & Hm); [lia..|].
    rewrite He in *. simpl. auto.
  - destruct (f64_exact_spec (Z.testbit bits 31) (Z.to_pos (2 ^ 23 + bits `mod` 2 ^ 23))
      (Z.shiftr bits 23 `mod` 256 - 150)) as (m' & e' & He & Hv & Hle & Hm); [lia..|].
    rewrite He in *. cbn [fst snd]. rewrite Z2Pos.id in Hm by lia. auto.
Qed.

(** ** From the device to the pipeline *)

Section device_proofs.
Context `{SignalCodec}.

(** The bytes arrive in non-empty segments without an error. *)
Definition arrives (evs : socket) (bs : list byte) : Prop :=
  delivers evs bs ∧ Forall (λ e, is_ok e = true) evs.

Lemma read_exact_async_fill evs bs n fuel : arrives evs bs → (length evs < fuel)%nat →
  (n ≤ length bs)%nat →
  ∃ evs', read_exact_async fuel n evs = Some (Ok (take n bs), evs') ∧ arrives evs' (drop n bs) ∧
    (length evs' ≤ length evs)%nat.
Proof.
  intros [Hd Ha] Hf Hn.
  assert (Hok : ∀ fuel n evs, Forall (λ e, is_ok e = true) evs →
    ∀ l evs', read_exact fuel n evs = Some (Ok l, evs') →
    read_exact_async fuel n evs = Some (Ok l, evs') ∧ Forall (λ e, is_ok e = true) evs').
  { clear. induction fuel as [|fuel IH]; intros [|n] evs Ha l evs'; try done; [by intros [= <- <-]..|].
    cbn [read_exact read_exact_async].
    assert (Hr : ∃ bs r', read (S n) evs = (Ok bs, r') ∧ Forall (λ e, is_ok e = true) r').
    { destruct Ha as [|[seg|e] evs He Ha]; [by exists [], []| |done].
      do 2 eexists. split; [done|]. case_match; [done|by constructor]. }
    destruct Hr as (bs & r' & -> & Hr'). destruct bs as [|b bs]; [done|].
    destruct (read_exact fuel (S n - length (b :: bs)) r') as [[[l2|e2] e3]|] eqn:E; simpl; try done.
    intros [= <- <-]. simpl in E. apply IH in E as [-> ?]; [|done]. done. }
  destruct (read_exact_fill evs bs n fuel Hd Hf Hn) as (evs' & Hr & Hd' & Hl).
  destruct (Hok _ _ _ Ha _ _ Hr). exists evs'. by repeat split.
Qed.

Lemma read_device_payload now evs payload rest fuel :
  arrives evs (to_be 4 (zlen payload) ++ payload ++ rest) → (length evs < fuel)%nat →
  zlen payload ≤ LEGACY_MAX_FRAME_BYTES →
  ∃ evs', read_device_signal fuel now evs = Some (decode_device_payload now payload, evs') ∧
          arrives evs' rest.
Proof.
  intros Ha Hf Hp. unfold read_device_signal. pose proof (length_to_be 4 (zlen payload)) as H4.
  destruct (read_exact_async_fill _ _ 4 fuel Ha Hf) as (evs1 & -> & Ha1 & Hl1);
    [rewrite length_app; lia|].
  rewrite take_app_length', drop_app_length' in * by done. cbn [mbind option_bind].
  pose proof (zlen_nonneg payload). unfold LEGACY_MAX_FRAME_BYTES, validate_frame_len in *.
  rewrite from_be_to_be_small by (simpl; lia).
  rewrite (proj2 (Z.ltb_ge _ _)) by (unfold LEGACY_MAX_FRAME_BYTES; lia).
  assert (Hn : Z.to_nat (zlen payload) = length payload) by (unfold zlen; lia). rewrite Hn.
  destruct (read_exact_async_fill _ _ (length payload) fuel Ha1) as (evs2 & -> & Ha2 & Hl2);
    [lia|rewrite length_app; lia|].
  rewrite take_app_length, drop_app_length in *. eauto.
Qed.

Lemma try_map_lift f ms :
  try_map (lift_record f) (Ok <$> ms) = Ok (edge_wire_metric f <$> ms).
Proof. induction ms as [|m ms IH]; [done|]. rewrite !fmap_cons. cbn [try_map]. by rewrite IH. Qed.

Lemma decoded_is_frame input f : decode_metrics_frame input = Some (Ok f) →
  is_edge_wire_frame input = true ∧ zlen input ≤ 3070.
Proof.
  intros [(_ & _ & ? & _ & ? & _ & ? & Hr) ->]%decode_sound.
  unfold bytes_of_frame, str_len in *. split.
  - unfold is_edge_wire_frame. apply andb_true_intro. split; [|done].
    apply Nat.leb_le. rewrite length_app. unfold header_bytes, HEADER_LEN. simpl. lia.
  - rewrite !zlen_app, Hr. unfold header_bytes. unfold zlen at 1. simpl. lia.
Qed.

Lemma encoded_length out sq i ms out' n : encode_metrics_frame out sq i ms = Some (out', Ok n) →
  length (take n out') = n.
Proof.
  destruct (encode_metrics_frame_cases out sq i ms) as [(e & -> & _)|[_ ->]]; [done|].
  generalize (frame_bytes 0 sq i ms). intros bs [= <- <-]. by rewrite take_app_length.
Qed.

(** *** What a sample is in OTLP

    Written from the encoding, not from the agent's conversion. *)

(** The names of the first metrics and sensors, by their numbers. *)
Definition metric_names : list (Z * string) :=
  [(1, "edge.temperature"); (2, "edge.voltage.input"); (3, "edge.network.rssi"); (4, "edge.boot.count"); (5, "edge.watchdog.resets")].
Definition sensor_names : list (Z * string) := [(1, "enclosure"); (2, "power"); (3, "wifi"); (4, "runtime")].
Definition named (names : list (Z * string)) (n : Z) : option string := snd <$> find_first (λ p, p.1 =? n) names.

(** The double [v] is the number the 32 bits encode. *)
Definition same_number (bits : Z) (v : f64) : Prop :=
  let negative := Z.testbit bits 31 in
  let exponent := Z.shiftr bits 23 `mod` 256 in
  let fraction := bits `mod` 2 ^ 23 in
  if exponent =? 255 then v = (if fraction =? 0 then S754_infinity negative else S754_nan)
  else
    valid_binary 53 1024 v = true ∧
    match v with
    | S754_zero s => s = negative ∧ (f32_parts bits).1 = 0
    | S754_finite s m e => s = negative ∧ e ≤ (f32_parts bits).2 ∧ Zpos m = (f32_parts bits).1 * 2 ^ ((f32_parts bits).2 - e)
    | _ => False
    end.

Definition sample_attributes (i : EdgeIdentity) (s : EdgeMetricSample) : list KeyValue :=
  let metric := metric_id_get (metric_id s) in let sensor := sensor_id_get (sensor_id s) in
  [string_kv "device_id" (id_device_id i); string_kv "node_name" (id_node_name i);
   string_kv "metric_id" (u64_to_string metric); string_kv "sensor_id" (u64_to_string sensor)] ++
  match named sensor_names sensor with Some n => [string_kv "sensor" n] | None => [] end.

(** The metric of a sample: one data point, at the time [at_ns]. *)
Definition metric_of_sample (at_ns : Z) (i : EdgeIdentity) (s : EdgeMetricSample) (m : OtlpMetric) : Prop :=
  ∃ v, same_number (value s) v ∧
    let point start := {| ndp_attributes := sample_attributes i s; ndp_start_time_unix_nano := start; ndp_time_unix_nano := at_ns;
                          ndp_exemplars := []; ndp_flags := 0; ndp_value := Some (AsDouble v) |} in
    m = {| om_name := match named metric_names (metric_id_get (metric_id s)) with
                      | Some n => n | None => "edge.metric." +:+ u64_to_string (metric_id_get (metric_id s)) end;
           om_description := EmptyString;
           om_unit := match unit_ s with UnitNone => EmptyString | Celsius => "C" | Volt => "V" | Dbm => "dBm" | Count => "1" | Percent => "%" end;
           om_metadata := [];
           om_data := Some match kind s with
             | Gauge => DataGauge [point 0]
             | Sum => DataSum [point at_ns] 2 true
             | Histogram => DataHistogram
                 [ {| hdp_attributes := sample_attributes i s; hdp_start_time_unix_nano := at_ns; hdp_time_unix_nano := at_ns; hdp_count := 1;
                      hdp_sum := Some v; hdp_bucket_counts := []; hdp_explicit_bounds := []; hdp_exemplars := []; hdp_flags := 0;
                      hdp_min := Some v; hdp_max := Some v |} ] 2
             end |}.

(** A request with the metrics of the samples, one per sample and in order,
    under one resource that says where they come from. *)
Definition carries (at_ns : Z) (i : EdgeIdentity) (ms : list EdgeMetricSample) (request : ExportMetricsServiceRequest) : Prop :=
  match ms with
  | [] => resource_metrics_of request = []
  | _ => ∃ metrics, Forall2 (metric_of_sample at_ns i) ms metrics ∧
      resource_metrics_of request = [ {|
        rm_resource := Some {| res_attributes := [string_kv "service.name" "skid-edge-wire"; string_kv "skid_monitor.source" "edge_device"];
                               res_dropped_attributes_count := 0; res_entity_refs := [] |};
        rm_scope_metrics := [ {| sm_scope := Some {| is_name := "skid-monitor-edge-wire"; is_version := EmptyString; is_attributes := [];
                                                     is_dropped_attributes_count := 0 |};
                                 sm_metrics := metrics; sm_schema_url := EmptyString |} ];
        rm_schema_url := EmptyString |} ]
  end.

Lemma f32_same_number bits : same_number bits (f32_as_f64 bits).
Proof.
  unfold same_number. destruct (Z.shiftr bits 23 `mod` 256 =? 255) eqn:E.
  - unfold f32_as_f64. by rewrite E.
  - to_prop. by apply f32_as_f64_exact.
Qed.

Lemma metric_known metric : metric_known_name metric = named metric_names (metric_id_get metric).
Proof. unfold metric_known_name, named. cbn [metric_names find_first fst snd fmap option_fmap option_map]. by destruct (metric_id_get metric) as [|[[[]|[]|]|[[]|[]|]|]|]. Qed.
Lemma sensor_known sensor : sensor_known_name sensor = named sensor_names (sensor_id_get sensor).
Proof. unfold sensor_known_name, named. cbn [sensor_names find_first fst snd fmap option_fmap option_map]. by destruct (sensor_id_get sensor) as [|[[[]|[]|]|[[]|[]|]|]|]. Qed.

Lemma lifted_sample now f i s : device_id f = id_device_id i → node_name f = id_node_name i →
  metric_of_sample (Z.max 0 now `mod` 2 ^ 64) i s (otlp_metric (edge_wire_metric f s) (unix_nanos now)).
Proof.
  intros Hd Hn. exists (f32_as_f64 (value s)). split; [apply f32_same_number|]. cbv zeta.
  assert (key_values (attributes (edge_wire_metric f s)) = sample_attributes i s) as Ha.
  { unfold edge_wire_metric, sample_attributes. cbn [attributes]. rewrite Hd, Hn, sensor_known. by destruct (named sensor_names _). }
  unfold otlp_metric. rewrite Ha. unfold edge_wire_metric, metric_name. cbn [name metric_value unit_of metric_kind]. rewrite metric_known.
  unfold unix_nanos, as_u64. by destruct (unit_ s), (kind s).
Qed.

Lemma push_group_same s l k : Forall (λ m, source m = s) l → foldl push_group [(s, k)] l = [(s, k ++ l)].
Proof.
  intros Hl. revert k. induction Hl as [|m l Hm _ IH]; intros k; simpl; [by rewrite app_nil_r|].
  rewrite bool_decide_eq_true_2 by done. by rewrite IH, <- app_assoc.
Qed.

Lemma exported_samples now f i ms : device_id f = id_device_id i → node_name f = id_node_name i →
  carries (Z.max 0 now `mod` 2 ^ 64) i ms (export_metrics now (edge_wire_metric f <$> ms) "skid-edge-wire" "skid-monitor-edge-wire").
Proof.
  intros Hd Hn. destruct ms as [|s ms]; [done|]. unfold export_metrics, carries. rewrite bool_decide_eq_false_2 by done. cbv zeta. cbn [foldl fmap list_fmap push_group].
  rewrite push_group_same; [|by apply Forall_forall; intros m (x & -> & _)%list_elem_of_fmap]. cbn [resource_metrics_of fmap list_fmap fst snd app].
  eexists (otlp_metric (edge_wire_metric f s) (unix_nanos now) :: ((λ m, otlp_metric m (unix_nanos now)) <$> (edge_wire_metric f <$> ms))). split; [|done].
  constructor; [by apply lifted_sample|]. induction ms as [|s' ms IH]; [constructor|]. constructor; [by apply lifted_sample|done].
Qed.

(** C23: Samples a device encodes with its identity and sends,
    length-prefixed and in any segmentation, are received as OTLP metrics: one
    per sample, in order, each with the sample's number, exactly, its name,
    unit and kind, the device's and the sensor's attributes, and the time of
    reception. *)
Theorem device_roundtrip now out sq i ms out' n evs rest fuel :
  encodable sq i ms → encode_metrics_frame out sq i ms = Some (out', Ok n) →
  arrives evs (to_be 4 (Z.of_nat n) ++ take n out' ++ rest) → (length evs < fuel)%nat →
  ∃ request evs', read_device_signal fuel now evs = Some (Some (Ok (Metrics request)), evs') ∧
    carries (Z.max 0 now `mod` 2 ^ 64) i ms request ∧ arrives evs' rest.
Proof.
  intros He Henc Ha Hf.
  destruct (edge_wire_roundtrip out sq i ms out' n He Henc) as (f & Hdec & _ & _ & Hd & Hn & _ & Hs).
  destruct (decoded_is_frame _ _ Hdec) as [Hw Hmax].
  assert (Hlen : Z.of_nat n = zlen (take n out')) by (unfold zlen; by rewrite (encoded_length _ _ _ _ _ _ Henc)).
  rewrite Hlen in Ha.
  destruct (read_device_payload now evs _ rest fuel Ha Hf) as (evs' & Hr & Ha');
    [unfold LEGACY_MAX_FRAME_BYTES; lia|].
  eexists _, evs'. split; [|split; [by apply (exported_samples now f)|done]]. rewrite Hr. unfold decode_device_payload. rewrite Hw.
  unfold decode_edge_wire_payload. rewrite Hdec, Hs. cbn [mbind option_bind].
  by rewrite try_map_lift.
Qed.

(** Whatever bytes a device sends as its payload, the agent decodes them or
    reports an error; it never panics. *)
Theorem decode_device_payload_total now payload : ∃ r, decode_device_payload now payload = Some r.
Proof.
  unfold decode_device_payload. case_match; [|eauto]. unfold decode_edge_wire_payload.
  destruct (decode_metrics_frame_total payload) as ([f|e] & Hd); rewrite Hd; [|eauto].
  destruct (frame_samples_total payload f Hd) as (items & -> & _). simpl. eauto.
Qed.
End device_proofs.

(** *** Two samples of a device, in one segment *)

Section demo.
#[local] Existing Instance DemoCodec.demo_codec.

Definition demo_sent : list byte := to_be 4 42 ++ take 42 demo_out.

Lemma device_roundtrip_witness : ∃ request evs',
  read_device_signal 5 100 [Ok demo_sent] = Some (Some (Ok (Metrics request)), evs') ∧
  carries 100 demo_identity demo_samples request ∧ arrives evs' [].
Proof.
  apply (device_roundtrip 100 (replicate 62 (u8 255)) 513 demo_identity demo_samples demo_out 42
    [Ok demo_sent] [] 5 demo_encodable).
  - vm_refl.
  - split; [|by repeat constructor]. rewrite app_assoc.
    apply (delivers_segment demo_sent []); [by vm_compute|constructor].
  - simpl. lia.
Defined.
End demo.
