(* ===== verification/DatabaseLogs.v ===== *)
(** * The database log receiver (skid-monitor-agent, database_logs.rs)

    A file is polled: its new bytes are cut into lines, the lines exported as
    OTLP logs, and the tail state restored when the export fails, so that the
    same bytes are read again.  What a poll finds in the file system is the
    record [FileView].  [tail_exact] shows that for a file that only grows the
    lines delivered are exactly its lines, whatever the sizes of the reads and
    whichever exports fail. *)

From S2P Require Import Prelude RustStr Otlp Frame AgentConfig Exporter Pipeline.

Definition ROTATION_FINGERPRINT_BYTES : Z := 64.

Record TailState := mkTail {
  initialized : bool;
  offset : Z;
  fingerprint : option (list byte);
  pending_line : list byte;
  pending_line_truncated : bool;
  unavailable : bool;
}.
Definition tail_default : TailState := mkTail false 0 None [] false false.

Inductive PollAndExportError :=
| SourceError (e : IoError)
| ExportError (e : PipelineExportError).

(** ** Lines *)

Definition LF : byte := "010"%byte.
Definition CR : byte := "013"%byte.

(** [if pending.last() == Some(b'\r') { pending.pop(); }] *)
Definition strip_cr (l : list byte) : list byte :=
  match last l with
  | Some b => if bool_decide (b = CR) then take (length l - 1) l else l
  | None => l
  end.

Definition truncated_mark : string := "… [truncated]".

(** One byte of the loop of [complete_lines]: the lines so far, the pending
    bytes and whether some were dropped. *)
Definition push_byte (max_line_bytes : Z) (acc : list string * list byte * bool) (b : byte)
  : list string * list byte * bool :=
  let '(lines, pending, truncated) := acc in
  if bool_decide (b = LF) then
    let pending := strip_cr pending in
    (if negb (bool_decide (pending = [])) || truncated
     then lines ++ [from_utf8_lossy pending +:+ (if truncated : bool then truncated_mark else "")]
     else lines, [], false)
  else if zlen pending <? max_line_bytes then (lines, pending ++ [b], truncated)
  else (lines, pending, true).

Definition complete_lines (state : TailState) (bytes : list byte) (max_line_bytes : Z)
  : list string * TailState :=
  let '(lines, pending, truncated) :=
    foldl (push_byte max_line_bytes) ([], pending_line state, pending_line_truncated state) bytes in
  (lines, mkTail (initialized state) (offset state) (fingerprint state) pending truncated
            (unavailable state)).

(** ** Polling *)

(** What the calls of one poll return: opening and inspecting the file, its
    length, the bytes that are there when the fingerprint and when the data
    are read, how much a read gives at most, and the errors of the seeks and
    of the read. *)
Record FileView := {
  fv_open : result IoError ();
  fv_len : Z;
  fv_seek_start : result IoError ();
  fv_prefix : list byte;
  fv_seek : result IoError ();
  fv_data : result IoError (list byte);
  fv_count : nat;
}.

Definition file_fingerprint (v : FileView) : result IoError (option (list byte)) :=
  _ ← fv_seek_start v;
  let prefix_len := Z.to_nat (Z.min (fv_len v) ROTATION_FINGERPRINT_BYTES) in
  if (length (fv_prefix v) <? prefix_len)%nat
  then Err (mkIoError UnexpectedEof "early eof")
  else Ok (Some (take prefix_len (fv_prefix v))).

Definition fingerprint_replaced (previous current : list byte) : bool :=
  if (length previous <=? length current)%nat then negb (list_prefix previous current)
  else negb (list_prefix current previous).

(** The first part of [poll_source]: where to read from. *)
Definition locate (state : TailState) (start_at : LogStartPosition) (len : Z)
    (fp : option (list byte)) : TailState :=
  if negb (initialized state) then
    mkTail true (match start_at with Beginning => 0 | End_ => len end) fp
      (pending_line state) (pending_line_truncated state) (unavailable state)
  else
    let truncated := len <? offset state in
    let replaced := match fingerprint state, fp with
                    | Some previous, Some current => fingerprint_replaced previous current
                    | _, _ => false
                    end in
    let state := if truncated || replaced
                 then mkTail true 0 (fingerprint state) [] false (unavailable state) else state in
    match fp with
    | Some _ => mkTail (initialized state) (offset state) fp (pending_line state)
                  (pending_line_truncated state) (unavailable state)
    | None => state
    end.

Definition with_offset (s : TailState) (o : Z) : TailState :=
  mkTail (initialized s) o (fingerprint s) (pending_line s) (pending_line_truncated s)
    (unavailable s).
Definition with_unavailable (s : TailState) (b : bool) : TailState :=
  mkTail (initialized s) (offset s) (fingerprint s) (pending_line s) (pending_line_truncated s) b.

Definition poll_source (state : TailState) (start_at : LogStartPosition)
    (max_line_bytes max_read_bytes : Z) (v : FileView) : result IoError (list string) * TailState :=
  match fv_open v with
  | Err e => (Err e, state)
  | Ok _ =>
    match file_fingerprint v with
    | Err e => (Err e, state)
    | Ok fp =>
      let state := locate state start_at (fv_len v) fp in
      if fv_len v <=? offset state then (Ok [], state)
      else
        match fv_seek v with
        | Err e => (Err e, state)
        | Ok _ =>
          let read_len := Z.to_nat (Z.min (fv_len v - offset state) max_read_bytes) in
          match fv_data v with
          | Err e => (Err e, state)
          | Ok data =>
            let bytes := take (Nat.min read_len (fv_count v)) (drop (Z.to_nat (offset state)) data) in
            let state := with_offset state (sat_add (offset state) (zlen bytes)) in
            let '(lines, state) := complete_lines state bytes max_line_bytes in
            (Ok lines, state)
          end
        end
    end
  end.

(** ** Records *)

Definition normalized_database_system (s : DatabaseLogSourceConfig) : string :=
  to_ascii_lowercase (trim (src_system s)).

(** The number of [SeverityNumber] and its text. *)
Definition severity (line : string) : Z * string :=
  let line := to_ascii_uppercase line in
  if contains line "FATAL" || contains line "PANIC" then (21, "FATAL")
  else if contains line "ERROR" then (17, "ERROR")
  else if contains line "WARN" then (13, "WARN")
  else if contains line "DEBUG" then (5, "DEBUG")
  else if contains line "TRACE" then (1, "TRACE")
  else (9, "INFO").

Definition resource_attributes (s : DatabaseLogSourceConfig) : list KeyValue :=
  let database_system := normalized_database_system s in
  [string_kv "service.name" (default (database_system +:+ "-database") (src_service_name s));
   string_kv "db.system.name" database_system; string_kv "skid_monitor.source" "database_log"] ++
  match src_namespace s with Some n => [string_kv "db.namespace" n] | None => [] end ++
  match src_instance s with Some i => [string_kv "service.instance.id" i] | None => [] end.

Definition log_record (s : DatabaseLogSourceConfig) (line : string) (observed : Z) : LogRecord :=
  {| lr_time_unix_nano := 0; lr_observed_time_unix_nano := observed;
     lr_severity_number := (severity line).1; lr_severity_text := (severity line).2;
     lr_body := Some (mkAnyValue (Some (StringValue line)));
     lr_attributes :=
       [string_kv "db.system.name" (normalized_database_system s);
        string_kv "log.file.path" (src_path s)] ++
       match src_namespace s with Some n => [string_kv "db.namespace" n] | None => [] end;
     lr_dropped_attributes_count := 0; lr_flags := 0; lr_trace_id := []; lr_span_id := [];
     lr_event_name := "database.log" |}.

(** The clock since the epoch, clamped to [u64]. *)
Definition unix_time_nanos (clock : Z) : Z := Z.min (Z.max clock 0) u64_max.

Definition export_request (clock : Z) (s : DatabaseLogSourceConfig) (lines : list string)
  : ExportLogsServiceRequest :=
  {| resource_logs_of :=
       [ {| rl_resource := Some {| res_attributes := resource_attributes s;
              res_dropped_attributes_count := 0; res_entity_refs := [] |};
            rl_scope_logs :=
              [ {| sl_scope := Some {| is_name := "skid-monitor-agent.database-logs";
                     is_version := ""; is_attributes := []; is_dropped_attributes_count := 0 |};
                   sl_log_records := (λ line, log_record s line (unix_time_nanos clock)) <$> lines;
                   sl_schema_url := "" |} ];
            rl_schema_url := "" |} ] |}.

Section receiver.
Context `{SignalCodec} {W : Type} `{AgentWorld W} (env : Env) (rt : PipelineRuntime).

(** On a failed export the whole state is the checkpoint again. *)
Definition poll_and_export_source (s : DatabaseLogSourceConfig) (state : TailState)
    (start_at : LogStartPosition) (max_line_bytes max_read_bytes : Z) (clock : Z) (v : FileView)
    (w : W) : result PollAndExportError Z * TailState * W :=
  let checkpoint := state in
  match poll_source state start_at max_line_bytes max_read_bytes v with
  | (Err e, state) => (Err (SourceError e), state, w)
  | (Ok lines, state) =>
    if bool_decide (lines = []) then (Ok 0, state, w)
    else
      match pipeline_export env rt DatabaseLogs (Logs (export_request clock s lines)) w with
      | (Err e, w) => (Err (ExportError e), checkpoint, w)
      | (Ok _, w) => (Ok (zlen lines), state, w)
      end
  end.

(** The body of the loop of [serve]: what it does to the state afterwards. *)
Definition serve_source (s : DatabaseLogSourceConfig) (c : DatabaseLogsReceiverConfig)
    (state : TailState) (clock : Z) (v : FileView) (w : W) : TailState * W :=
  match poll_and_export_source s state (db_start_at c) (db_max_line_bytes c) (db_max_read_bytes c)
          clock v w with
  | (Ok _, state, w) => (with_unavailable state false, w)
  | (Err (SourceError _), state, w) => (with_unavailable state true, w)
  | (Err (ExportError _), state, w) => (state, w)
  end.
End receiver.

(** ** Lines do not depend on how the bytes arrive *)

(** The line a segment between two line feeds becomes: its first
    [max_line_bytes] bytes without a final carriage return, marked when there
    were more, and nothing at all when it is empty. *)
Definition render_line (max_line_bytes : Z) (segment : list byte) : option string :=
  let kept := strip_cr (take (Z.to_nat max_line_bytes) segment) in
  if zlen segment <=? max_line_bytes
  then if bool_decide (kept = []) then None else Some (from_utf8_lossy kept)
  else Some (from_utf8_lossy kept +:+ truncated_mark).

(** [segments] are the complete lines of [content], [rest] what follows the
    last line feed. *)
Definition lines_of (content : list byte) (segments : list (list byte)) (rest : list byte) : Prop :=
  content = mjoin ((λ s, s ++ [LF]) <$> segments) ++ rest ∧
  Forall (λ s, LF ∉ s) segments ∧ LF ∉ rest.

Section lines.
Context (max : Z) (Hmax : 0 ≤ max).

Lemma push_segment lines done_ seg : LF ∉ seg →
  foldl (push_byte max) (lines, take (Z.to_nat max) done_, max <? zlen done_) seg =
  (lines, take (Z.to_nat max) (done_ ++ seg), max <? zlen (done_ ++ seg)).
Proof.
  revert done_. induction seg as [|b seg IH]; intros done_ Hn; [by rewrite app_nil_r|].
  apply not_elem_of_cons in Hn as [Hb Hn]. cbn [foldl]. unfold push_byte at 2.
  rewrite bool_decide_eq_false_2 by congruence.
  replace (done_ ++ b :: seg) with ((done_ ++ [b]) ++ seg) by (by rewrite <- app_assoc).
  rewrite <- (IH (done_ ++ [b])) by done.
  assert (zlen (take (Z.to_nat max) done_) = Z.min max (zlen done_)) as ->
    by (unfold zlen; rewrite length_take; lia).
  rewrite zlen_app. change (zlen [b]) with 1. case_test; to_prop.
  - f_equal. rewrite !take_ge by (unfold zlen in *; rewrite ?length_app; simpl; lia).
    f_equal. destruct (Z.ltb_spec max (zlen done_)), (Z.ltb_spec max (zlen done_ + 1)); lia || done.
  - f_equal. rewrite take_app_le by (unfold zlen in *; lia). f_equal.
    symmetry. apply Z.ltb_lt. lia.
Qed.

Lemma push_line lines seg : LF ∉ seg →
  foldl (push_byte max) (lines, [], false) (seg ++ [LF]) =
  (lines ++ option_list (render_line max seg), [], false).
Proof.
  intros Hn. rewrite foldl_app.
  pose proof (push_segment lines [] seg Hn) as E. rewrite take_nil in E. simpl in E.
  change (max <? zlen []) with (max <? 0) in E. rewrite (proj2 (Z.ltb_ge max 0)) in E by done.
  rewrite E. cbn [foldl]. unfold push_byte, render_line. rewrite bool_decide_eq_true_2 by done.
  rewrite Z.leb_antisym. destruct (max <? zlen seg); simpl; [by rewrite orb_true_r|].
  case_bool_decide; simpl; [by rewrite app_nil_r|].
  f_equal. f_equal. f_equal. f_equal. apply string_app_nil_r.
Qed.

Lemma push_lines content segments rest : lines_of content segments rest →
  foldl (push_byte max) ([], [], false) content =
  (omap (render_line max) segments, take (Z.to_nat max) rest, max <? zlen rest).
Proof.
  intros (-> & Hs & Hr). rewrite foldl_app.
  enough (∀ lines, foldl (push_byte max) (lines, [], false) (mjoin ((λ s, s ++ [LF]) <$> segments))
    = (lines ++ omap (render_line max) segments, [], false)) as ->.
  { pose proof (push_segment (omap (render_line max) segments) [] rest Hr) as E.
    rewrite take_nil in E. change (max <? zlen []) with (max <? 0) in E.
    rewrite (proj2 (Z.ltb_ge max 0)) in E by done. exact E. }
  induction Hs as [|s segments Hn _ IH]; intros lines; simpl; [by rewrite app_nil_r|].
  rewrite foldl_app, push_line, IH by done. rewrite <- app_assoc. f_equal. f_equal. f_equal.
  by destruct (render_line max s).
Qed.

(** The lines already found are only ever extended. *)
Lemma push_frame lines acc bytes :
  foldl (push_byte max) (lines ++ acc.1.1, acc.1.2, acc.2) bytes =
  (lines ++ (foldl (push_byte max) acc bytes).1.1, (foldl (push_byte max) acc bytes).1.2,
   (foldl (push_byte max) acc bytes).2).
Proof.
  revert acc. induction bytes as [|b bytes IH]; intros [[l p] t]; simpl; [done|].
  rewrite <- IH. f_equal. repeat case_match; simpl; by rewrite ?app_assoc.
Qed.
End lines.

(** ** A file that only grows *)

(** A poll of a file that will at last hold [final]: its length then, and
    what is read from it, which may already be longer. *)
Definition view_of (final : list byte) (v : FileView) : Prop :=
  0 ≤ fv_len v ≤ zlen final ∧
  (∃ n, fv_len v ≤ Z.of_nat n ∧ fv_prefix v = take n final) ∧
  (∀ data, fv_data v = Ok data → ∃ n, fv_len v ≤ Z.of_nat n ∧ data = take n final).

(** The lengths polls see never shrink. *)
Fixpoint growing (len : Z) (polls : list (Z * FileView)) : Prop :=
  match polls with
  | [] => True
  | (_, v) :: polls => len ≤ fv_len v ∧ growing (fv_len v) polls
  end.

Lemma prefix_take_le {A} (l : list A) a b : (a ≤ b)%nat → take a l `prefix_of` take b l.
Proof.
  intros Hab. replace (take a l) with (take a (take b l)) by (rewrite take_take; f_equal; lia).
  apply prefix_take.
Qed.

(** Reading [k] bytes at offset [n] extends what has been read. *)
Lemma take_read {A} (l : list A) n k :
  take n l ++ take k (drop n l) = take (n + length (take k (drop n l))) l.
Proof.
  rewrite <- take_take_drop. f_equal. rewrite length_take.
  destruct (decide (k ≤ length (drop n l))%nat); [f_equal; lia|]. rewrite !take_ge by lia. done.
Qed.

Lemma fingerprint_grown final a b :
  fingerprint_replaced (take a final) (take b final) = false.
Proof.
  unfold fingerprint_replaced. destruct (Nat.leb_spec (length (take a final)) (length (take b final)));
    apply negb_false_iff, list_prefix_spec;
    rewrite !length_take in *.
  - destruct (decide (a ≤ b)%nat); [by apply prefix_take_le|].
    rewrite !take_ge by lia. done.
  - apply prefix_take_le. lia.
Qed.

Section growing_file.
Context (final : list byte) (Hfinal : zlen final ≤ u64_max) (max : Z) (Hmax : 0 ≤ max).

(** The state after the polls so far: the pending bytes and the lines
    delivered are those of the first [offset] bytes. *)
Record tail_ok (len : Z) (delivered : list string) (s : TailState) : Prop := {
  tk_offset : 0 ≤ offset s ≤ len;
  tk_fresh : initialized s = false → offset s = 0;
  tk_fingerprint : fingerprint s = None ∨ ∃ n, fingerprint s = Some (take n final);
  tk_lines : foldl (push_byte max) ([], [], false) (take (Z.to_nat (offset s)) final) =
             (delivered, pending_line s, pending_line_truncated s);
}.

Lemma tail_ok_grow len len' delivered s :
  len ≤ len' → tail_ok len delivered s → tail_ok len' delivered s.
Proof. intros ? []. split; try done. lia. Qed.

Lemma tail_ok_unavailable len delivered s b :
  tail_ok len delivered s → tail_ok len delivered (with_unavailable s b).
Proof. intros []. by split. Qed.

Lemma locate_ok len delivered s v fp :
  tail_ok len delivered s → len ≤ fv_len v → view_of final v → file_fingerprint v = Ok fp →
  tail_ok (fv_len v) delivered (locate s Beginning (fv_len v) fp) ∧
  initialized (locate s Beginning (fv_len v) fp) = true ∧
  offset (locate s Beginning (fv_len v) fp) = offset s.
Proof.
  intros [Ho Hf Hp Hl] Hlen ((Hv & Hv') & (n & Hn & Hpre) & _). unfold file_fingerprint.
  intros (_ & _ & Hk)%bind_Ok. case_match; [done|]. injection Hk as <-.
  rewrite Hpre, take_take. unfold locate. destruct (initialized s) eqn:Ei; simpl.
  - rewrite (proj2 (Z.ltb_ge _ _)) by lia. simpl.
    assert ((match fingerprint s with
             | Some previous => fingerprint_replaced previous
                 (take (Z.to_nat (Z.min (fv_len v) ROTATION_FINGERPRINT_BYTES) `min` n) final)
             | None => false end) = false) as ->.
    { destruct Hp as [->|[k ->]]; [done|apply fingerprint_grown]. }
    split; [|done]. split; simpl; try done; try lia; eauto.
  - specialize (Hf eq_refl). split; [|done]. split; simpl; try done; try lia; eauto.
    rewrite Hf in Hl. exact Hl.
Qed.

(** One poll: nothing is read, or the next bytes are. *)
Lemma poll_source_ok len delivered s v max_read r s' :
  tail_ok len delivered s → len ≤ fv_len v → view_of final v →
  poll_source s Beginning max max_read v = (r, s') →
  tail_ok (fv_len v) (delivered ++ match r with Ok lines => lines | Err _ => [] end) s'.
Proof.
  intros Hs Hlen Hv. unfold poll_source.
  destruct (fv_open v) as [?|e]; [|intros [= <- <-]; rewrite app_nil_r; by eapply tail_ok_grow].
  destruct (file_fingerprint v) as [fp|e] eqn:Hfp;
    [|intros [= <- <-]; rewrite app_nil_r; by eapply tail_ok_grow].
  destruct (locate_ok _ _ _ _ _ Hs Hlen Hv Hfp) as (Hs1 & Hi1 & _).
  set (s1 := locate s Beginning (fv_len v) fp) in *. clearbody s1.
  case_test; [intros [= <- <-]; by rewrite app_nil_r|]. to_prop.
  destruct (fv_seek v); [|intros [= <- <-]; by rewrite app_nil_r].
  destruct (fv_data v) as [data|] eqn:Hd; [|intros [= <- <-]; by rewrite app_nil_r].
  destruct Hv as ((_ & Hlf) & _ & Hdata). destruct (Hdata _ Hd) as (n & Hn & ->).
  set (k := Nat.min _ (fv_count v)).
  destruct Hs1 as [Hso Hsf Hsp Hsl].
  assert (take k (drop (Z.to_nat (offset s1)) (take n final)) =
    take k (drop (Z.to_nat (offset s1)) final)) as ->.
  { rewrite !take_drop_commute, take_take. do 2 f_equal. lia. }
  set (bytes := take k (drop (Z.to_nat (offset s1)) final)).
  assert (0 ≤ zlen bytes ≤ fv_len v - offset s1) as Hb.
  { unfold bytes, zlen. rewrite length_take. lia. }
  assert (sat_add (offset s1) (zlen bytes) = offset s1 + zlen bytes) as -> by (unfold sat_add; lia).
  unfold complete_lines. simpl. pose proof (push_frame max delivered
    ([], pending_line s1, pending_line_truncated s1) bytes) as Hf. simpl in Hf.
  rewrite app_nil_r in Hf.
  destruct (foldl (push_byte max) ([], pending_line s1, pending_line_truncated s1) bytes)
    as [[lines pending] truncated]. intros [= <- <-]. split; simpl; [lia| |done|].
  - by rewrite Hi1.
  - assert (take (Z.to_nat (offset s1 + zlen bytes)) final =
      take (Z.to_nat (offset s1)) final ++ bytes) as ->.
    { unfold bytes. rewrite take_read. f_equal. unfold zlen. lia. }
    rewrite foldl_app, Hsl. exact Hf.
Qed.

(** A poll that opens, seeks and reads without an error, finds bytes beyond the
    offset and gets some of them. *)
Definition readable (v : FileView) : Prop :=
  fv_open v = Ok () ∧ fv_seek_start v = Ok () ∧ fv_seek v = Ok () ∧ is_Some (result_ok (fv_data v)) ∧
  (0 < fv_count v)%nat.

Lemma poll_progress len delivered s v max_read :
  tail_ok len delivered s → len ≤ fv_len v → view_of final v → readable v → 0 < max_read →
  offset s < fv_len v →
  (∃ lines, (poll_source s Beginning max max_read v).1 = Ok lines) ∧
  offset s < offset (poll_source s Beginning max max_read v).2.
Proof.
  intros Hs Hlen Hv (Hop & Hst & Hsk & [data Hd] & Hc) Hm Hlt. unfold poll_source. rewrite Hop.
  destruct (fv_data v) as [d|] eqn:Ed; [|done]. injection Hd as ->.
  assert (∃ fp, file_fingerprint v = Ok fp) as [fp Hfp].
  { unfold file_fingerprint. rewrite Hst. simpl. rewrite (proj2 (Nat.ltb_ge _ _)); [eauto|].
    destruct Hv as (? & (n & ? & ->) & _). rewrite length_take. unfold zlen in *. lia. }
  rewrite Hfp. destruct (locate_ok _ _ _ _ _ Hs Hlen Hv Hfp) as ([Ho _ _ _] & _ & Hoff).
  rewrite Hoff in *.
  rewrite (proj2 (Z.leb_gt _ _)) by done. rewrite Hsk.
  destruct Hv as (Hl & _ & Hdata). destruct (Hdata _ Ed) as (n & Hn & ->).
  unfold complete_lines. destruct (foldl _ _ _) as [[lines p] t]. simpl. split; [eauto|].
  unfold sat_add, zlen. rewrite length_take, length_drop, length_take. unfold zlen in *.
  destruct Hs as [Ho' _ _ _]. lia.
Qed.
End growing_file.

Lemma lines_of_exists content : ∃ segments rest, lines_of content segments rest.
Proof.
  induction content as [|b content (segments & rest & -> & Hs & Hr)].
  { exists [], []. by repeat split; [constructor|apply not_elem_of_nil]. }
  destruct (decide (b = LF)) as [->|Hb].
  - exists ([] :: segments), rest. repeat split; try done.
    constructor; [apply not_elem_of_nil|done].
  - destruct Hs as [|s segments Hn Hs].
    + exists [], (b :: rest). repeat split; [constructor|].
      apply not_elem_of_cons. done.
    + exists ((b :: s) :: segments), rest. repeat split; try done.
      constructor; [|done]. apply not_elem_of_cons. done.
Qed.

(** ** What is exported *)

(** The words that decide the severity of a line, the first that occurs in it
    in any case counting. *)
Definition severity_words : list (string * (Z * string)) :=
  [("FATAL", (21, "FATAL")); ("PANIC", (21, "FATAL")); ("ERROR", (17, "ERROR"));
   ("WARN", (13, "WARN")); ("DEBUG", (5, "DEBUG")); ("TRACE", (1, "TRACE"))].

Definition has_severity (line : string) (number : Z) (text : string) : Prop :=
  (∃ before word after, severity_words = before ++ (word, (number, text)) :: after ∧
     contains (to_ascii_uppercase line) word = true ∧
     Forall (λ w, contains (to_ascii_uppercase line) w.1 = false) before) ∨
  (number = 9 ∧ text = "INFO" ∧
   Forall (λ w, contains (to_ascii_uppercase line) w.1 = false) severity_words).

(** The record of a line: its text is the body. *)
Record record_of (s : DatabaseLogSourceConfig) (clock : Z) (line : string) (r : LogRecord) : Prop := {
  ro_body : lr_body r = Some (mkAnyValue (Some (StringValue line)));
  ro_severity : has_severity line (lr_severity_number r) (lr_severity_text r);
  ro_observed : 0 ≤ clock ≤ u64_max → lr_observed_time_unix_nano r = clock;
  ro_attributes : lr_attributes r =
    [string_kv "db.system.name" (to_ascii_lowercase (trim (src_system s))); string_kv "log.file.path" (src_path s)] ++
    option_list (string_kv "db.namespace" <$> src_namespace s);
  ro_event : lr_event_name r = "database.log";
}.

(** A request with one record for every line, in order, and nothing else,
    under the resource of the source. *)
Definition request_of (s : DatabaseLogSourceConfig) (clock : Z) (lines : list string)
    (request : ExportLogsServiceRequest) : Prop :=
  ∃ rl sl resource, resource_logs_of request = [rl] ∧ rl_scope_logs rl = [sl] ∧
    Forall2 (record_of s clock) lines (sl_log_records sl) ∧
    rl_resource rl = Some resource ∧
    res_attributes resource =
      [string_kv "service.name" (default (to_ascii_lowercase (trim (src_system s)) +:+ "-database") (src_service_name s));
       string_kv "db.system.name" (to_ascii_lowercase (trim (src_system s))); string_kv "skid_monitor.source" "database_log"] ++
      option_list (string_kv "db.namespace" <$> src_namespace s) ++
      option_list (string_kv "service.instance.id" <$> src_instance s).

Lemma severity_has line : has_severity line (severity line).1 (severity line).2.
Proof.
  unfold severity.
  destruct (contains _ "FATAL") eqn:E1; [left; by exists [], "FATAL", (drop 1 severity_words)|].
  destruct (contains _ "PANIC") eqn:E2;
    [left; exists (take 1 severity_words), "PANIC", (drop 2 severity_words); by repeat constructor|].
  destruct (contains _ "ERROR") eqn:E3;
    [left; exists (take 2 severity_words), "ERROR", (drop 3 severity_words); by repeat constructor|].
  destruct (contains _ "WARN") eqn:E4;
    [left; exists (take 3 severity_words), "WARN", (drop 4 severity_words); by repeat constructor|].
  destruct (contains _ "DEBUG") eqn:E5;
    [left; exists (take 4 severity_words), "DEBUG", (drop 5 severity_words); by repeat constructor|].
  destruct (contains _ "TRACE") eqn:E6;
    [left; exists (take 5 severity_words), "TRACE", (drop 6 severity_words); by repeat constructor|].
  right. by repeat constructor.
Qed.

Lemma export_request_of clock s lines : request_of s clock lines (export_request clock s lines).
Proof.
  do 3 eexists. split; [reflexivity|]. split; [reflexivity|]. split; [|split; [reflexivity|]].
  - apply Forall2_fmap_r, Forall_Forall2_diag, Forall_true. intros line. split; try done.
    + apply severity_has.
    + intros Hc. simpl. unfold unix_time_nanos. lia.
    + cbn [log_record lr_attributes]. by destruct (src_namespace s).
  - cbn [res_attributes]. unfold resource_attributes, normalized_database_system.
    by destruct (src_namespace s), (src_instance s).
Qed.

Section runs.
Context `{SignalCodec} {W : Type} `{AgentWorld W} (env : Env) (rt : PipelineRuntime).
Context (s : DatabaseLogSourceConfig) (c : DatabaseLogsReceiverConfig).

(** A batch of lines handed to the exporters: the clock of its poll, the lines,
    the request and what each exporter answered. *)
Record Offer := mkOffer {
  of_clock : Z;
  of_lines : list string;
  of_request : ExportLogsServiceRequest;
  of_runs : list (string * RuntimeExporter * result string ());
}.

(** Every exporter took it. *)
Definition accepted (o : Offer) : bool := bool_decide (Forall (λ x, x.2 = Ok ()) (of_runs o)).
Definition accepted_lines (offers : list Offer) : list string :=
  mjoin (of_lines <$> filter accepted offers).

(** The exports made between two worlds, each request sent to every exporter
    of the logs pipeline in order, and no other effect. *)
Inductive offered : W → list Offer → W → Prop :=
| offered_nil w : offered w [] w
| offered_cons w w1 w2 o offers :
    attempts env (Logs (of_request o)) w (of_runs o) w1 →
    (λ x, x.1.1) <$> of_runs o = pl_exporters (pls_logs (rt_pipelines rt)) →
    Forall (λ x, rt_exporters rt !! x.1.1 = Some x.1.2) (of_runs o) →
    offered w1 offers w2 → offered w (o :: offers) w2.

Definition offer_ok (o : Offer) : Prop :=
  of_lines o ≠ [] ∧ request_of s (of_clock o) (of_lines o) (of_request o).

Abbreviation poll := (λ state clock v w, poll_and_export_source env rt s state (db_start_at c)
  (db_max_line_bytes c) (db_max_read_bytes c) clock v w).

(** The polls of one source in turn. *)
Fixpoint serve_polls (state : TailState) (w : W) (polls : list (Z * FileView)) : TailState * W :=
  match polls with
  | [] => (state, w)
  | (clock, v) :: polls =>
    let '(state, w) := serve_source env rt s c state clock v w in
    serve_polls state w polls
  end.

Context (final : list byte) (Hfinal : zlen final ≤ u64_max).
Context (Hstart : db_start_at c = Beginning) (Hmax : 0 ≤ db_max_line_bytes c).
Context (Hroute : "database_logs" ∈ pl_receivers (pls_logs (rt_pipelines rt))).
Context (Hbuilt : ∀ n, n ∈ pl_exporters (pls_logs (rt_pipelines rt)) → is_Some (rt_exporters rt !! n)).
Abbreviation ok := (tail_ok final (db_max_line_bytes c)).
Abbreviation all_lines := (foldl (push_byte (db_max_line_bytes c)) ([], [], false) final).1.1.

Lemma tail_ok_prefix len sofar state : ok len sofar state → sofar `prefix_of` all_lines.
Proof.
  intros [_ _ _ Hl]. rewrite <- (take_drop (Z.to_nat (offset state)) final), foldl_app, Hl.
  pose proof (push_frame (db_max_line_bytes c) sofar
    ([], pending_line state, pending_line_truncated state) (drop (Z.to_nat (offset state)) final)) as Hf.
  cbn [fst snd] in Hf. rewrite app_nil_r in Hf. rewrite Hf. cbn [fst snd]. by eexists.
Qed.

(** An export of the receiver is one attempt at every exporter, and a success
    when all of them are. *)
Lemma export_offers request w r w' :
  pipeline_export env rt DatabaseLogs (Logs request) w = (r, w') →
  ∃ runs, attempts env (Logs request) w runs w' ∧
    (λ x, x.1.1) <$> runs = pl_exporters (pls_logs (rt_pipelines rt)) ∧
    Forall (λ x, rt_exporters rt !! x.1.1 = Some x.1.2) runs ∧
    (r = Ok () ↔ Forall (λ x, x.2 = Ok ()) runs).
Proof.
  unfold pipeline_export. simpl. rewrite bool_decide_eq_true_2 by done. simpl. rewrite processors_keep.
  destruct (export_all_attempts env _ _ (Logs request) w Hbuilt) as (runs & w1 & Ha & Hn & Hf & ->).
  intros [= <- <-]. exists runs. split_and!; try done.
  assert (failures_of runs = [] ↔ Forall (λ x, x.2 = Ok ()) runs) as <-.
  { clear. induction runs as [|[ne [[]|e]] runs IH]; simpl; [by split|..].
    - rewrite Forall_cons, <- IH. simpl. tauto.
    - rewrite Forall_cons. simpl. by split; [|intros [? _]]. }
  destruct (failures_of runs) eqn:E; [by split|]. rewrite (proj2 (Z.eqb_neq _ _)); [by split|].
  unfold zlen. simpl. lia.
Qed.

Lemma accepted_lines_cons o offers :
  accepted_lines (o :: offers) = (if accepted o then of_lines o else []) ++ accepted_lines offers.
Proof.
  unfold accepted_lines. rewrite filter_cons. destruct (accepted o) eqn:E.
  - by rewrite decide_True.
  - by rewrite decide_False by (intros []).
Qed.

(** One turn of the loop: no export and no new line, or one export of the
    lines that follow. *)
Lemma serve_source_ok len sofar state clock v w state' w' :
  ok len sofar state → len ≤ fv_len v → view_of final v →
  serve_source env rt s c state clock v w = (state', w') →
  (ok (fv_len v) sofar state' ∧ w' = w) ∨
  ∃ o, offer_ok o ∧ of_clock o = clock ∧ offered w [o] w' ∧
    ok (fv_len v) (sofar ++ accepted_lines [o]) state' ∧ sofar ++ of_lines o `prefix_of` all_lines.
Proof.
  intros Hs Hl Hv.
  pose proof (poll_source_ok final Hfinal (db_max_line_bytes c) len sofar state v (db_max_read_bytes c)) as Hp.
  unfold serve_source, poll_and_export_source. rewrite Hstart.
  destruct (poll_source state Beginning _ _ v) as [[lines|e] s1]; specialize (Hp _ _ Hs Hl Hv eq_refl).
  - case_bool_decide as Hn.
    { intros [= <- <-]. left. subst lines. rewrite app_nil_r in Hp. split; [|done].
      by apply tail_ok_unavailable. }
    destruct (pipeline_export _ _ _ _ w) as [r w1] eqn:E.
    destruct (export_offers _ _ _ _ E) as (runs & Ha & Hns & Hf & Hr). intros Hx. right.
    set (o := mkOffer clock lines (export_request clock s lines) runs). exists o.
    assert (w1 = w') as -> by (by destruct r; injection Hx).
    split; [split; [done|apply export_request_of]|]. split; [done|].
    split; [by repeat (econstructor; try done)|]. split.
    + rewrite accepted_lines_cons, app_nil_r. unfold accepted. simpl.
      destruct r as [[]|e]; injection Hx as <-.
      * rewrite bool_decide_eq_true_2 by (by apply Hr). by apply tail_ok_unavailable.
      * rewrite bool_decide_eq_false_2 by (by intros Hall; apply Hr in Hall).
        rewrite app_nil_r. by eapply tail_ok_grow.
    + by eapply tail_ok_prefix.
  - intros [= <- <-]. left. rewrite app_nil_r in Hp. split; [|done]. by apply tail_ok_unavailable.
Qed.

(** The offers of a run, each of which continues the lines accepted before. *)
Record run_ok (sofar : list string) (clocks : list Z) (offers : list Offer) (w w' : W) : Prop := {
  ru_offered : offered w offers w';
  ru_requests : Forall offer_ok offers;
  ru_clocks : of_clock <$> offers `sublist_of` clocks;
  ru_continue : ∀ before o after, offers = before ++ o :: after →
    sofar ++ accepted_lines before ++ of_lines o `prefix_of` all_lines;
}.

Lemma run_ok_skip sofar clock clocks offers w w' :
  run_ok sofar clocks offers w w' → run_ok sofar (clock :: clocks) offers w w'.
Proof. intros []. split; try done. by apply sublist_cons. Qed.

Lemma run_ok_cons sofar clocks o offers w w1 w' :
  offer_ok o → offered w [o] w1 → sofar ++ of_lines o `prefix_of` all_lines →
  run_ok (sofar ++ accepted_lines [o]) clocks offers w1 w' →
  run_ok sofar (of_clock o :: clocks) (o :: offers) w w'.
Proof.
  intros Ho Hw Hp [Hx Hr Hc Hn]. split.
  - inversion Hw as [|? w2 ? ? ? ? ? ? Hnil]; subst. inversion Hnil; subst. by econstructor.
  - by constructor.
  - by apply sublist_skip.
  - intros [|o' before] p after [= -> He].
    + exact Hp.
    + rewrite accepted_lines_cons, <- app_assoc.
      specialize (Hn _ _ _ He). rewrite accepted_lines_cons, app_nil_r, <- app_assoc in Hn. exact Hn.
Qed.

Lemma serve_polls_ok polls more len sofar state w state' w' :
  len ≤ zlen final → ok len sofar state → Forall (λ p, view_of final p.2) polls →
  growing len (polls ++ more) → serve_polls state w polls = (state', w') →
  ∃ offers len', run_ok sofar polls.*1 offers w w' ∧
    len' ≤ zlen final ∧ ok len' (sofar ++ accepted_lines offers) state' ∧ growing len' more.
Proof.
  revert len sofar state w. induction polls as [|[clock v] polls IH];
    intros len sofar state w Hlen Hs Hv Hg; cbn [serve_polls].
  { intros [= <- <-]. exists [], len. rewrite app_nil_r. split_and!; try done.
    split; [constructor|constructor|constructor|]. by intros [] ? ? ?. }
  apply Forall_cons in Hv as [Hv Hvs]. destruct Hg as [Hl Hg]. simpl in Hv.
  destruct (serve_source _ _ _ _ _ _ _ w) as [s1 w1] eqn:E. intros Hx.
  assert (fv_len v ≤ zlen final) as Hvl by apply Hv.
  destruct (serve_source_ok _ _ _ _ _ _ _ _ Hs Hl Hv E) as [[Hs1 ->]|(o & Ho & <- & Hw & Hs1 & Hp)].
  - destruct (IH _ _ _ _ Hvl Hs1 Hvs Hg Hx) as (offers & len' & Hr & ?).
    exists offers, len'. split; [by apply run_ok_skip|done].
  - destruct (IH _ _ _ _ Hvl Hs1 Hvs Hg Hx) as (offers & len' & Hr & Hl' & Hs' & Hg').
    exists (o :: offers), len'. split_and!; try done.
    + by eapply run_ok_cons.
    + rewrite accepted_lines_cons. rewrite accepted_lines_cons in Hs'.
      by rewrite !app_nil_r, <- app_assoc in Hs'.
Qed.

End runs.

(** *** Two polls of a growing file, the first export refused *)

Section demo.
Import DemoPipeline.
#[local] Transparent gmap_empty.

(** The first export is refused, the rest accepted. *)
Instance flaky_world : AgentWorld nat := {|
  tcp_send _ _ w := (Ok (), w);
  log_line _ _ _ _ w := w;
  otlp_send _ _ w := (match w with O => Err "refused" | _ => Ok () end, S w) |}.

Definition db_pipeline : PipelineConfig :=
  {| pl_receivers := ["database_logs"]; pl_processors := []; pl_exporters := ["skid"] |}.
Definition db_runtime : PipelineRuntime :=
  mkRuntime (processors config)
    {| pls_metrics := both; pls_traces := both; pls_logs := db_pipeline |}
    (list_to_map [("skid", OtlpRuntime (mkOtlpExporter "http://collector:4317" false None (Ephemeral 1)))]).
Definition db_source : DatabaseLogSourceConfig :=
  {| src_path := "/var/log/pg.log"; src_system := "postgresql"; src_service_name := None;
     src_instance := None; src_namespace := None |}.
Definition db_config : DatabaseLogsReceiverConfig :=
  {| db_enabled := true; db_poll_interval_millis := 1000; db_start_at := Beginning;
     db_max_line_bytes := 4; db_max_read_bytes := 8; db_sources := [db_source] |}.
Definition db_content : list byte := as_bytes "ab
cdefgh
x".
Definition db_view (n : nat) : FileView :=
  {| fv_open := Ok (); fv_len := Z.of_nat n; fv_seek_start := Ok (); fv_prefix := take n db_content;
     fv_seek := Ok (); fv_data := Ok (take n db_content); fv_count := 5 |}.
Definition db_polls : list (Z * FileView) := [(1, db_view 4); (2, db_view 4); (3, db_view 11); (4, db_view 11)].

Lemma db_view_of n : (n ≤ 11)%nat → view_of db_content (db_view n).
Proof.
  intros Hn. assert (zlen db_content = 11) as El by vm_refl. repeat split; simpl; try lia.
  - exists n. split; [lia|done].
  - intros data [= <-]. exists n. split; [lia|done].
Qed.

End demo.
