(* ===== verification/ServerConfig.v ===== *)
(** * Settings of the cloud server (skid-monitor-server, config.rs)

    Everything is read from the environment, an argument of the definitions;
    [reqwest::Url] is the interface [UrlApi] and the parser of socket addresses
    the interface [SocketAddrApi].  [server_config_safe] states what a server
    that starts can rely on. *)

From S2P Require Import Prelude RustStr AgentConfig Json.

Definition DEFAULT_DATABASE_CONNECTIONS : Z := 12.
Definition DEFAULT_MAX_SIGNAL_BYTES : Z := 16 * 1024 * 1024.
Definition MAX_SIGNAL_BYTES : Z := 64 * 1024 * 1024.
Definition MAX_CLIENT_BODY_BYTES : Z := 16 * 1024 * 1024.
Definition DEFAULT_STREAM_BATCH_BYTES : Z := 16 * 1024 * 1024.
Definition MAX_STREAM_BATCH_BYTES : Z := 64 * 1024 * 1024.
Definition DEFAULT_INGRESS_CONCURRENCY_PER_CONNECTION : Z := 64.
Definition DEFAULT_INGRESS_GLOBAL_REQUEST_CONCURRENCY : Z := 16.
Definition MAX_INGRESS_GLOBAL_REQUEST_CONCURRENCY : Z := 128.
Definition DEFAULT_CLIENT_REQUEST_CONCURRENCY : Z := 256.
Definition DEFAULT_CLIENT_STREAM_CONNECTIONS : Z := 1024.
Definition DEFAULT_CLIENT_REPLAY_CONCURRENCY : Z := 4.
Definition MAX_CLIENT_REPLAY_CONCURRENCY : Z := 16.

Inductive OidcRoleClaims :=
| KeycloakResourceAccess
| ClaimPointer (pointer : string).

Record OidcConfig := mkOidc {
  issuer : string;
  jwks_origin : string;
  audience : string;
  required_role : string;
  tenant_pointer : string;
  role_claims : OidcRoleClaims;
  agent_id_pointer : option string;
}.

Inductive TlsMode :=
| Direct (cert key : string)
| TerminatedUpstream.

Record DatabaseConfig := mkDatabase { db_url : string; db_max_connections : Z }.

Class SocketAddrApi := { SocketAddr : Type; socket_addr : string → result string SocketAddr }.

Record IngressConfig `{SocketAddrApi} := mkIngress {
  in_listen_addr : SocketAddr;
  in_database : DatabaseConfig;
  in_oidc : OidcConfig;
  in_tls : TlsMode;
  max_signal_bytes : Z;
  concurrency_per_connection : Z;
  global_request_concurrency : Z;
}.

Record ClientServerConfig `{SocketAddrApi} := mkClientServer {
  cs_listen_addr : SocketAddr;
  cs_database : DatabaseConfig;
  cs_oidc : OidcConfig;
  admin_role : string;
  cs_tls : TlsMode;
  request_body_limit : Z;
  stream_batch_size : Z;
  stream_batch_bytes : Z;
  request_concurrency : Z;
  replay_concurrency : Z;
  max_stream_connections : Z;
}.

(** Errors are [ConfigError], a message. *)
Section config.
Context `{UrlApi, SocketAddrApi} (env : Env).

Definition env_non_empty (name : string) : option string :=
  match env name with
  | Some value => if is_empty (trim value) then None else Some (trim value)
  | None => None
  end.

Definition required (name : string) : result string string :=
  ok_or (env_non_empty name) ("required setting " +:+ name +:+ " is missing").

Definition parse_socket_addr (name default_ : string) : result string SocketAddr :=
  map_err (λ e, "invalid " +:+ name +:+ ": " +:+ e) (socket_addr (default default_ (env_non_empty name))).

(** [parse_positive] at a type of at most [max]: [usize] and [u32]. *)
Definition parse_positive_at (max : Z) (name : string) (default_ : Z) : result string Z :=
  value ← match env_non_empty name with
          | Some value => map_err (λ e, "invalid " +:+ name +:+ ": " +:+ e) (parse_unsigned max value)
          | None => Ok default_
          end;
  if value =? 0 then Err (name +:+ " must be greater than zero") else Ok value.
Definition parse_positive_usize := parse_positive_at u64_max.
Definition parse_positive_u32 := parse_positive_at u32_max.

Definition parse_bool_value (name value : string) : result string bool :=
  let value := to_ascii_lowercase value in
  if bool_decide (value ∈ ["true"; "1"; "yes"; "on"]) then Ok true
  else if bool_decide (value ∈ ["false"; "0"; "no"; "off"]) then Ok false
  else Err (name +:+ " must be true or false").

Definition parse_bool (name : string) (default_ : bool) : result string bool :=
  match env_non_empty name with
  | None => Ok default_
  | Some value => parse_bool_value name value
  end.

Definition bounded_replay_concurrency (value : Z) : Z := Z.min value MAX_CLIENT_REPLAY_CONCURRENCY.
Definition bounded_ingress_global_request_concurrency (value : Z) : Z :=
  Z.min value MAX_INGRESS_GLOBAL_REQUEST_CONCURRENCY.

Definition validate_database_url (value : string) (tls_terminated : bool) : result string () :=
  url ← ok_or (url_parse value) "SKID_MONITOR_DATABASE_URL must be a valid PostgreSQL URL";
  if negb (bool_decide (url_scheme url ∈ ["postgres"; "postgresql"]))
     || bool_decide (url_host url = None)
  then Err "SKID_MONITOR_DATABASE_URL must use postgres:// or postgresql://"
  else
    let sslmodes := omap (λ kv : string * string, if bool_decide (kv.1 = "sslmode") then Some kv.2 else None)
                      (url_query_pairs url) in
    if 1 <? zlen sslmodes
    then Err "SKID_MONITOR_DATABASE_URL must contain exactly one sslmode setting"
    else match head sslmodes with
    | Some mode =>
      if bool_decide (mode = "verify-full") then Ok ()
      else if bool_decide (mode = "disable") then
        if tls_terminated then Ok ()
        else Err "PostgreSQL plaintext requires SKID_MONITOR_DATABASE_TLS_TERMINATED=true on a trusted private transport"
      else Err ("PostgreSQL sslmode=" +:+ mode +:+ " is not accepted; use verify-full, or explicit trusted TLS termination with disable")
    | None => Err "SKID_MONITOR_DATABASE_URL must set sslmode=verify-full, or sslmode=disable with explicit trusted TLS termination"
    end.

Definition database_config_from (url_env max_connections_env tls_terminated_env : string)
    (default_connections : Z) : result string DatabaseConfig :=
  url ← required url_env;
  tls_terminated ← parse_bool tls_terminated_env false;
  _ ← validate_database_url url tls_terminated;
  max_connections ← parse_positive_u32 max_connections_env default_connections;
  Ok (mkDatabase url max_connections).

Definition database_config : result string DatabaseConfig :=
  database_config_from "SKID_MONITOR_DATABASE_URL" "SKID_MONITOR_DATABASE_MAX_CONNECTIONS"
    "SKID_MONITOR_DATABASE_TLS_TERMINATED" DEFAULT_DATABASE_CONNECTIONS.

Definition migration_from_env : result string DatabaseConfig :=
  database_config_from "SKID_MONITOR_MIGRATION_DATABASE_URL"
    "SKID_MONITOR_MIGRATION_DATABASE_MAX_CONNECTIONS"
    "SKID_MONITOR_MIGRATION_DATABASE_TLS_TERMINATED" 2.

(** The character after a [~]. *)
Definition bad_escape (suffix : list byte) : bool :=
  match suffix with
  | "0"%byte :: _ | "1"%byte :: _ => false
  | _ => true
  end.

Definition validated_claim_pointer (name pointer : string) : result string string :=
  let pointer := trim pointer in
  if is_empty pointer || negb (starts_with pointer "/") || (1024 <? str_len pointer)
     || has_control pointer
     || existsb bad_escape (drop 1 (split_on (λ b, bool_decide (b = "~"%byte)) [] (as_bytes pointer)))
  then Err (name +:+ " must be a non-empty RFC 6901 JSON pointer using only ~0 and ~1 escapes")
  else Ok pointer.

Definition top_level_claim_pointer (claim : string) : string :=
  "/" +:+ replace (replace claim "~" "~0") "/" "~1".

Definition parse_oidc_role_claims (profile roles_pointer : option string)
  : result string OidcRoleClaims :=
  let profile := to_ascii_lowercase (trim (default "keycloak" profile)) in
  if bool_decide (profile = "keycloak") then
    match roles_pointer with
    | Some _ => Err "SKID_MONITOR_OIDC_ROLES_POINTER requires SKID_MONITOR_OIDC_CLAIMS_PROFILE=generic"
    | None => Ok KeycloakResourceAccess
    end
  else if bool_decide (profile = "generic") then
    p ← validated_claim_pointer "SKID_MONITOR_OIDC_ROLES_POINTER" (default "/roles" roles_pointer);
    Ok (ClaimPointer p)
  else Err "SKID_MONITOR_OIDC_CLAIMS_PROFILE must be keycloak or generic".

Definition normalized_https_issuer (value : string) : result string string :=
  let issuer := trim_end_matches "/"%byte (trim value) in
  parsed ← ok_or (url_parse issuer) "SKID_MONITOR_OIDC_ISSUER must be a valid HTTPS URL";
  if negb (bool_decide (url_scheme parsed = "https")) || bool_decide (url_host parsed = None)
     || negb (is_empty (url_username parsed)) || bool_decide (is_Some (url_password parsed))
     || bool_decide (is_Some (url_query parsed)) || bool_decide (is_Some (url_fragment parsed))
  then Err "SKID_MONITOR_OIDC_ISSUER must be an HTTPS URL without credentials, query, or fragment"
  else Ok issuer.

Definition normalized_https_origin (name value : string) : result string string :=
  let value := trim_end_matches "/"%byte (trim value) in
  parsed ← ok_or (url_parse value) (name +:+ " must be a valid HTTPS origin");
  if negb (bool_decide (url_scheme parsed = "https")) || bool_decide (url_host parsed = None)
     || negb (is_empty (url_username parsed)) || bool_decide (is_Some (url_password parsed))
     || negb (bool_decide (url_path parsed = "/"))
     || bool_decide (is_Some (url_query parsed)) || bool_decide (is_Some (url_fragment parsed))
  then Err (name +:+ " must contain only an HTTPS scheme, host, and optional port")
  else Ok (url_origin parsed).

Definition https_origin (name value : string) : result string string :=
  parsed ← ok_or (url_parse value) (name +:+ " must be a valid HTTPS URL");
  if negb (bool_decide (url_scheme parsed = "https")) || bool_decide (url_host parsed = None)
  then Err (name +:+ " must use HTTPS")
  else Ok (url_origin parsed).

Definition oidc_config (audience_env role_env default_role : string) : result string OidcConfig :=
  issuer ← ok_or
    (match env_non_empty "SKID_MONITOR_OIDC_ISSUER" with
     | Some i => Some i
     | None => env_non_empty "SKID_MONITOR_KEYCLOAK_ISSUER"
     end)
    "required setting SKID_MONITOR_OIDC_ISSUER is missing (legacy SKID_MONITOR_KEYCLOAK_ISSUER is also accepted)";
  tenant_pointer ← match env_non_empty "SKID_MONITOR_OIDC_TENANT_POINTER" with
    | Some pointer => validated_claim_pointer "SKID_MONITOR_OIDC_TENANT_POINTER" pointer
    | None => Ok (default "/tenant_id"
                (top_level_claim_pointer <$> env_non_empty "SKID_MONITOR_TENANT_CLAIM"))
    end;
  role_claims ← parse_oidc_role_claims (env_non_empty "SKID_MONITOR_OIDC_CLAIMS_PROFILE")
                  (env_non_empty "SKID_MONITOR_OIDC_ROLES_POINTER");
  agent_id_pointer ← match env_non_empty "SKID_MONITOR_OIDC_AGENT_ID_POINTER" with
    | Some pointer =>
      p ← validated_claim_pointer "SKID_MONITOR_OIDC_AGENT_ID_POINTER" pointer; Ok (Some p)
    | None => Ok None
    end;
  issuer ← normalized_https_issuer issuer;
  jwks_origin ← match env_non_empty "SKID_MONITOR_OIDC_JWKS_ORIGIN" with
    | Some origin => normalized_https_origin "SKID_MONITOR_OIDC_JWKS_ORIGIN" origin
    | None => https_origin "SKID_MONITOR_OIDC_ISSUER" issuer
    end;
  audience ← required audience_env;
  Ok (mkOidc issuer jwks_origin audience (default default_role (env_non_empty role_env))
        tenant_pointer role_claims agent_id_pointer).

Definition tls_mode (cert_env key_env terminated_env : string) : result string TlsMode :=
  match env_non_empty cert_env, env_non_empty key_env with
  | Some cert, Some key => Ok (Direct cert key)
  | None, None =>
    terminated ← parse_bool terminated_env false;
    if terminated : bool then Ok TerminatedUpstream
    else Err ("cloud mode requires " +:+ cert_env +:+ "+" +:+ key_env +:+ ", or an explicit "
      +:+ terminated_env +:+ "=true behind a trusted TLS proxy/service mesh")
  | _, _ => Err (cert_env +:+ " and " +:+ key_env +:+ " must be configured together")
  end.

Definition ingress_from_env : result string IngressConfig :=
  listen_addr ← parse_socket_addr "SKID_MONITOR_INGRESS_ADDR" "0.0.0.0:4317";
  database ← database_config;
  oidc ← oidc_config "SKID_MONITOR_INGRESS_AUDIENCE" "SKID_MONITOR_INGRESS_ROLE" "telemetry-ingest";
  tls ← tls_mode "SKID_MONITOR_INGRESS_TLS_CERT" "SKID_MONITOR_INGRESS_TLS_KEY"
          "SKID_MONITOR_INGRESS_TLS_TERMINATED";
  max_signal ← parse_positive_usize "SKID_MONITOR_MAX_SIGNAL_BYTES" DEFAULT_MAX_SIGNAL_BYTES;
  per_connection ← parse_positive_usize "SKID_MONITOR_INGRESS_CONCURRENCY_PER_CONNECTION"
                     DEFAULT_INGRESS_CONCURRENCY_PER_CONNECTION;
  global ← parse_positive_usize "SKID_MONITOR_INGRESS_GLOBAL_REQUEST_CONCURRENCY"
             DEFAULT_INGRESS_GLOBAL_REQUEST_CONCURRENCY;
  Ok (mkIngress _ listen_addr database oidc tls (Z.min max_signal MAX_SIGNAL_BYTES)
        (Z.min per_connection 4096) (bounded_ingress_global_request_concurrency global)).

Definition client_server_from_env : result string ClientServerConfig :=
  listen_addr ← parse_socket_addr "SKID_MONITOR_CLIENT_SERVER_ADDR" "0.0.0.0:8080";
  database ← database_config;
  oidc ← oidc_config "SKID_MONITOR_CLIENT_AUDIENCE" "SKID_MONITOR_CLIENT_READ_ROLE" "telemetry-read";
  let admin := default "telemetry-admin" (env_non_empty "SKID_MONITOR_CLIENT_ADMIN_ROLE") in
  tls ← tls_mode "SKID_MONITOR_CLIENT_TLS_CERT" "SKID_MONITOR_CLIENT_TLS_KEY"
          "SKID_MONITOR_CLIENT_TLS_TERMINATED";
  body ← parse_positive_usize "SKID_MONITOR_CLIENT_BODY_LIMIT" (1024 * 1024);
  batch ← parse_positive_usize "SKID_MONITOR_STREAM_BATCH_SIZE" 256;
  batch_bytes ← parse_positive_usize "SKID_MONITOR_STREAM_BATCH_BYTES" DEFAULT_STREAM_BATCH_BYTES;
  requests ← parse_positive_usize "SKID_MONITOR_CLIENT_REQUEST_CONCURRENCY"
               DEFAULT_CLIENT_REQUEST_CONCURRENCY;
  replay ← parse_positive_usize "SKID_MONITOR_CLIENT_REPLAY_CONCURRENCY"
             DEFAULT_CLIENT_REPLAY_CONCURRENCY;
  connections ← parse_positive_usize "SKID_MONITOR_CLIENT_MAX_STREAM_CONNECTIONS"
                  DEFAULT_CLIENT_STREAM_CONNECTIONS;
  Ok (mkClientServer _ listen_addr database oidc admin tls (Z.min body MAX_CLIENT_BODY_BYTES)
        (Z.min batch 4096) (Z.min batch_bytes MAX_STREAM_BATCH_BYTES) (Z.min requests 16384)
        (bounded_replay_concurrency replay) (Z.min connections 65536)).
End config.

(** ** Claim pointers *)

Lemma replace_byte (c : byte) (to_ l : list byte) :
  replace_bytes [c] to_ 0 l = l ≫= λ b, if bool_decide (b = c) then to_ else [b].
Proof.
  induction l as [|b l IH]; [done|]. cbn [replace_bytes list_prefix length pred].
  rewrite bind_cons, <- IH. rewrite andb_true_r.
  rewrite (bool_decide_ext (c = b) (b = c)) by (split; congruence). by case_bool_decide.
Qed.

(** The bytes of a member name inside a pointer. *)
Definition escape_byte (b : byte) : list byte :=
  if bool_decide (b = "~"%byte) then ["~"%byte; "0"%byte]
  else if bool_decide (b = "/"%byte) then ["~"%byte; "1"%byte] else [b].

Lemma escaped_claim l :
  replace_bytes ["/"%byte] ["~"%byte; "1"%byte] 0 (replace_bytes ["~"%byte] ["~"%byte; "0"%byte] 0 l)
  = l ≫= escape_byte.
Proof.
  rewrite !replace_byte. induction l as [|b l IH]; [done|].
  rewrite !bind_cons, bind_app, IH. f_equal. unfold escape_byte.
  destruct (bool_decide (b = "~"%byte)); [done|]. cbn. by rewrite app_nil_r.
Qed.

Lemma unescape_slash l :
  replace_bytes ["~"%byte; "1"%byte] ["/"%byte] 0 (l ≫= escape_byte)
  = l ≫= λ b, if bool_decide (b = "~"%byte) then ["~"%byte; "0"%byte] else [b].
Proof.
  induction l as [|b l IH]; [done|]. rewrite !bind_cons. unfold escape_byte at 1.
  destruct (decide (b = "~"%byte)) as [->|Ht]; [by rewrite <- IH|].
  rewrite !(bool_decide_eq_false_2 (b = "~"%byte)) by done.
  destruct (decide (b = "/"%byte)) as [->|Hs]; [by rewrite <- IH|].
  rewrite !(bool_decide_eq_false_2 (b = "/"%byte)) by done.
  rewrite <- IH. cbn [app replace_bytes list_prefix].
  by rewrite bool_decide_eq_false_2.
Qed.

Lemma unescape_tilde l :
  replace_bytes ["~"%byte; "0"%byte] ["~"%byte] 0
    (l ≫= λ b, if bool_decide (b = "~"%byte) then ["~"%byte; "0"%byte] else [b]) = l.
Proof.
  induction l as [|b l IH]; [done|]. rewrite bind_cons.
  destruct (decide (b = "~"%byte)) as [->|Ht].
  - rewrite <- IH at 2. done.
  - rewrite !(bool_decide_eq_false_2 (b = "~"%byte)) by done. cbn [app replace_bytes list_prefix].
    rewrite bool_decide_eq_false_2 by done. cbn [andb]. f_equal. exact IH.
Qed.

Lemma escaped_no_slash l : "/"%byte ∉ l ≫= escape_byte.
Proof.
  intros (b & Hb & _)%list_elem_of_bind. revert Hb. unfold escape_byte.
  repeat case_bool_decide; set_solver.
Qed.

Lemma split_on_none {A} (p : A → bool) cur l :
  Forall (λ x, p x = false) l → split_on p cur l = [cur ++ l].
Proof.
  intros Hl. revert cur. induction Hl as [|x l Hx _ IH]; intros cur; simpl; [by rewrite app_nil_r|].
  rewrite Hx, IH. by rewrite <- app_assoc.
Qed.

Lemma pointer_single (t : string) (m : list (string * Value)) : "/"%byte ∉ as_bytes t →
  pointer ("/" +:+ t) (Object m) = map_get (pointer_token t) m.
Proof.
  intros Hn. unfold pointer. change (is_empty ("/" +:+ t)) with false. cbv iota.
  change (starts_with ("/" +:+ t) "/") with (list_prefix ["/"%byte] ("/"%byte :: as_bytes t)).
  cbn [list_prefix]. rewrite bool_decide_eq_true_2 by done. cbn [andb negb].
  unfold split_char. change (as_bytes ("/" +:+ t)) with ("/"%byte :: as_bytes t). cbn [split_on].
  rewrite bool_decide_eq_true_2 by done. rewrite split_on_none.
  - rewrite !fmap_cons. cbn [fmap list_fmap drop app foldl pointer_step]. by rewrite of_as_bytes.
  - apply Forall_forall. intros b Hb. apply bool_decide_eq_false_2. by intros ->.
Qed.

Lemma top_level_claim (claim : string) (m : list (string * Value)) :
  pointer (top_level_claim_pointer claim) (Object m) = map_get claim m.
Proof.
  unfold top_level_claim_pointer. rewrite pointer_single.
  - f_equal. unfold pointer_token, replace. rewrite !as_of_bytes.
    change (as_bytes "~") with ["~"%byte]. change (as_bytes "/") with ["/"%byte].
    change (as_bytes "~0") with ["~"%byte; "0"%byte]. change (as_bytes "~1") with ["~"%byte; "1"%byte].
    rewrite escaped_claim, unescape_slash, unescape_tilde. apply of_as_bytes.
  - unfold replace. rewrite !as_of_bytes.
    change (as_bytes "~") with ["~"%byte]. change (as_bytes "/") with ["/"%byte].
    change (as_bytes "~0") with ["~"%byte; "0"%byte]. change (as_bytes "~1") with ["~"%byte; "1"%byte].
    rewrite escaped_claim. apply escaped_no_slash.
Qed.

(** A pointer in the sense of RFC 6901: it starts at the root and a tilde only
    introduces one of the two escapes. *)
Definition pointer_ok (p : string) : Prop :=
  starts_with p "/" = true ∧
  ∀ before after, as_bytes p = before ++ "~"%byte :: after →
    ∃ after', after = "0"%byte :: after' ∨ after = "1"%byte :: after'.

Lemma split_on_first {A} (p : A → bool) l :
  ∃ s rest, (∀ cur, split_on p cur l = (cur ++ s) :: rest) ∧ s `prefix_of` l.
Proof.
  induction l as [|x l (s & rest & Hs & Hp)].
  { exists [], []. split; [|done]. intros cur. simpl. by rewrite app_nil_r. }
  destruct (p x) eqn:Hx.
  - exists [], (split_on p [] l). split; [|apply prefix_nil]. intros cur. simpl.
    by rewrite Hx, app_nil_r.
  - exists (x :: s), rest. split; [|by apply prefix_cons]. intros cur. simpl.
    by rewrite Hx, Hs, <- app_assoc.
Qed.

Lemma no_bad_escape l :
  existsb bad_escape (drop 1 (split_on (λ b, bool_decide (b = "~"%byte)) [] l)) = false →
  ∀ before after, l = before ++ "~"%byte :: after →
    ∃ after', after = "0"%byte :: after' ∨ after = "1"%byte :: after'.
Proof.
  set (p := λ b, bool_decide (b = "~"%byte)). generalize (@nil byte) at 1 as cur.
  induction l as [|x l IH]; intros cur Hb before after Hl; [by destruct before|].
  cbn [split_on] in Hb. destruct (p x) eqn:Hx.
  - cbn [drop] in Hb. destruct (split_on_first p l) as (s & rest & Hs & Hpre).
    rewrite Hs in Hb. cbn [existsb app] in Hb. apply orb_false_iff in Hb as [Hb Hr].
    destruct before as [|y before]; injection Hl as -> Hl.
    + subst after. destruct s as [|y s]; [done|]. destruct Hpre as [k ->].
      destruct y; cbn in Hb; try done; eauto.
    + subst l. apply (IH []) with before; [|done]. by rewrite Hs.
  - destruct before as [|y before]; injection Hl as -> Hl; [done|].
    subst l. by eapply (IH (cur ++ [y])).
Qed.

Lemma validated_claim_pointer_ok name p q : validated_claim_pointer name p = Ok q → pointer_ok q.
Proof.
  unfold validated_claim_pointer. case_match eqn:E; [done|]. intros [= <-]. to_prop.
  split; [done|]. by apply no_bad_escape.
Qed.

Lemma top_level_claim_pointer_ok claim : pointer_ok (top_level_claim_pointer claim).
Proof.
  split; [done|]. unfold top_level_claim_pointer. intros before after.
  change (as_bytes ("/" +:+ ?t)) with ("/"%byte :: as_bytes t).
  unfold replace. rewrite !as_of_bytes.
  change (as_bytes "~") with ["~"%byte]. change (as_bytes "/") with ["/"%byte].
  change (as_bytes "~0") with ["~"%byte; "0"%byte]. change (as_bytes "~1") with ["~"%byte; "1"%byte].
  rewrite escaped_claim. intros E. destruct before as [|c before]; injection E as ? E; [done|].
  clear c H. revert before E. induction (as_bytes claim) as [|b l IH]; intros before E.
  { by destruct before. }
  rewrite bind_cons in E. unfold escape_byte in E at 1.
  repeat case_bool_decide; cbn [app] in E;
    repeat (destruct before as [|? before]; [injection E as E; simplify_eq; eauto|injection E as ? E]);
    eauto; simplify_eq.
Qed.

(** ** What a configured server relies on *)

Section safe.
Context `{UrlApi, SocketAddrApi} (env : Env).

Definition switched_on (name : string) : Prop := parse_bool env name false = Ok true.

(** Certificate verification of the database connection can only be given up
    by two settings that agree. *)
Record database_ok (terminated_env : string) (c : DatabaseConfig) : Prop := {
  dk_url : ∃ u mode, url_parse (db_url c) = Some u ∧ is_Some (url_host u) ∧
    (url_scheme u = "postgres" ∨ url_scheme u = "postgresql") ∧
    (∀ v, ("sslmode", v) ∈ url_query_pairs u ↔ v = mode) ∧
    (mode = "verify-full" ∨ mode = "disable" ∧ switched_on terminated_env);
  dk_connections : 0 < db_max_connections c ≤ u32_max;
}.

Definition https_only (text : string) : Prop :=
  ∃ u, url_parse text = Some u ∧ url_scheme u = "https" ∧ is_Some (url_host u) ∧
    url_username u = "" ∧ url_password u = None ∧ url_query u = None ∧ url_fragment u = None.

Record oidc_ok (c : OidcConfig) : Prop := {
  ok_issuer : https_only (issuer c);
  ok_jwks : ∃ text u, url_parse text = Some u ∧ url_scheme u = "https" ∧ is_Some (url_host u) ∧
    jwks_origin c = url_origin u;
  ok_audience : audience c ≠ "";
  ok_role : required_role c ≠ "";
  ok_tenant : pointer_ok (tenant_pointer c);
  ok_roles : ∀ p, role_claims c = ClaimPointer p → pointer_ok p;
  ok_agent : ∀ p, agent_id_pointer c = Some p → pointer_ok p;
}.

Definition tls_ok (cert_env key_env terminated_env : string) (m : TlsMode) : Prop :=
  match m with
  | Direct cert key => env_non_empty env cert_env = Some cert ∧ env_non_empty env key_env = Some key
  | TerminatedUpstream => switched_on terminated_env ∧ env_non_empty env cert_env = None ∧
      env_non_empty env key_env = None
  end.

Lemma env_non_empty_ne name v : env_non_empty env name = Some v → v ≠ "".
Proof. unfold env_non_empty, is_empty. repeat case_match; try done. intros [= <-]. by to_prop. Qed.

Lemma required_ne name v : required env name = Ok v → v ≠ "".
Proof.
  unfold required, ok_or. case_match eqn:E; [|done]. intros [= <-]. by eapply env_non_empty_ne.
Qed.

Lemma parse_digits_range max l : ∀ acc z, 0 ≤ acc ≤ max → parse_digits max acc l = Ok z → 0 ≤ z ≤ max.
Proof.
  induction l as [|b l IH]; simpl; intros acc z Ha; [by intros [= <-]|].
  case_test; [done|]. case_test; [done|]. to_prop. intros Hp. eapply IH; [|exact Hp].
  unfold is_ascii_digit, between in *. to_prop. lia.
Qed.

Lemma parse_unsigned_range max s z : 0 ≤ max → parse_unsigned max s = Ok z → 0 ≤ z ≤ max.
Proof.
  intros Hm. unfold parse_unsigned. repeat case_match; try done; apply parse_digits_range; lia.
Qed.

Lemma parse_positive_range max name d z : 0 < d ≤ max →
  parse_positive_at env max name d = Ok z → 0 < z ≤ max.
Proof.
  unfold parse_positive_at. intros Hd (v & Hv & Hz)%bind_Ok. case_test; [done|]. injection Hz as <-.
  to_prop. destruct (env_non_empty env name).
  - apply map_err_Ok, parse_unsigned_range in Hv; lia.
  - injection Hv as <-. lia.
Qed.

Lemma database_config_ok u m t d c : 0 < d ≤ u32_max →
  database_config_from env u m t d = Ok c → database_ok t c.
Proof.
  intros Hd. unfold database_config_from. intros (url & Hu & Hk)%bind_Ok.
  apply bind_Ok in Hk as (term & Ht & Hk). apply bind_Ok in Hk as ([] & Hv & Hk).
  apply bind_Ok in Hk as (n & Hn & [= <-]). split; [|by eapply parse_positive_range].
  simpl. unfold validate_database_url in Hv. apply bind_Ok in Hv as (p & Hp%ok_or_Ok & Hv).
  case_test; [done|]. to_prop. set (modes := omap _ _) in *.
  case_test; [done|]. to_prop.
  assert (∃ mode, modes = [mode] ∧ (mode = "verify-full" ∨ mode = "disable" ∧ term = true))
    as (mode & Hm & Hmode).
  { destruct modes as [|mode []]; simpl in *; [done| |unfold zlen in *; simpl in *; lia].
    exists mode. split; [done|]. case_bool_decide; [by left|]. case_bool_decide; [|done].
    right. by destruct term. }
  exists p, mode. split_and!; [done|by apply not_eq_None_Some|set_solver| |].
  - intros v. transitivity (v ∈ modes); [|by rewrite Hm, list_elem_of_singleton].
    unfold modes. rewrite list_elem_of_omap. split.
    + intros Hin. exists ("sslmode", v). split; [done|]. by rewrite bool_decide_eq_true_2.
    + intros ([k w] & Hin & Hv'). simpl in *. case_bool_decide; [|done]. by simplify_eq.
  - destruct Hmode as [?|[? ->]]; [by left|by right].
Qed.

Lemma normalized_https_issuer_ok v i : normalized_https_issuer v = Ok i → https_only i.
Proof.
  unfold normalized_https_issuer. cbv zeta. intros (p & Hp%ok_or_Ok & Hk)%bind_Ok.
  case_test; [done|]. injection Hk as <-. to_prop. unfold is_empty in *. to_prop.
  exists p. by rewrite <-!eq_None_not_Some, <-?not_eq_None_Some in *.
Qed.

Lemma oidc_config_ok a r d c : d ≠ "" → oidc_config env a r d = Ok c → oidc_ok c.
Proof.
  intros Hd. unfold oidc_config. intros (iss & _ & Hk)%bind_Ok.
  apply bind_Ok in Hk as (tp & Htp & Hk). apply bind_Ok in Hk as (rc & Hrc & Hk).
  apply bind_Ok in Hk as (ag & Hag & Hk). apply bind_Ok in Hk as (iss' & Hiss & Hk).
  apply bind_Ok in Hk as (jw & Hjw & Hk). apply bind_Ok in Hk as (aud & Haud & [= <-]).
  split; simpl.
  - by eapply normalized_https_issuer_ok.
  - destruct (env_non_empty env "SKID_MONITOR_OIDC_JWKS_ORIGIN") as [o|];
      [unfold normalized_https_origin in Hjw|unfold https_origin in Hjw]; cbv zeta in Hjw;
      apply bind_Ok in Hjw as (p & Hp%ok_or_Ok & Hjw); clear Htp Hrc Hag; case_test; try done; injection Hjw as <-;
      to_prop; eexists _, p; split_and!; try done; by apply not_eq_None_Some.
  - by eapply required_ne.
  - destruct (env_non_empty env r) eqn:E; simpl; [by eapply env_non_empty_ne|done].
  - destruct (env_non_empty env "SKID_MONITOR_OIDC_TENANT_POINTER");
      [by eapply validated_claim_pointer_ok|]. injection Htp as <-.
    destruct (env_non_empty env "SKID_MONITOR_TENANT_CLAIM"); simpl;
      [apply top_level_claim_pointer_ok|]. split; [done|].
    intros before after Hb. exfalso. assert ("~"%byte ∈ as_bytes "/tenant_id") as Hin
      by (rewrite Hb; set_solver). vm_compute in Hin. set_solver.
  - intros p ->. clear Htp Hag Hjw. unfold parse_oidc_role_claims in Hrc. cbv zeta in Hrc. repeat case_test; try done.
    apply bind_Ok in Hrc as (q & Hq & [= <-]). by eapply validated_claim_pointer_ok.
  - intros p ->. destruct (env_non_empty env "SKID_MONITOR_OIDC_AGENT_ID_POINTER"); [|done].
    apply bind_Ok in Hag as (q & Hq & [= <-]). by eapply validated_claim_pointer_ok.
Qed.

Lemma tls_mode_ok c k t m : tls_mode env c k t = Ok m → tls_ok c k t m.
Proof.
  unfold tls_mode. destruct (env_non_empty env c) eqn:Ec, (env_non_empty env k) eqn:Ek; try done.
  - by intros [= <-].
  - intros ([] & Hb & Hk)%bind_Ok; [|done]. injection Hk as <-. done.
Qed.

(** C4: a server only starts with settings that are safe to run with: its
    database connection is verified and both planes are behind TLS unless the
    operator said otherwise in so many words, the identity provider and its key
    set are HTTPS origins, every claim pointer is well formed, and every limit
    is positive and at most its documented maximum. *)
Theorem server_config_safe :
  (∀ c, ingress_from_env env = Ok c →
    database_ok "SKID_MONITOR_DATABASE_TLS_TERMINATED" (in_database c) ∧ oidc_ok (in_oidc c) ∧
    tls_ok "SKID_MONITOR_INGRESS_TLS_CERT" "SKID_MONITOR_INGRESS_TLS_KEY"
      "SKID_MONITOR_INGRESS_TLS_TERMINATED" (in_tls c) ∧
    0 < max_signal_bytes c ≤ 64 * 1024 * 1024 ∧ 0 < concurrency_per_connection c ≤ 4096 ∧
    0 < global_request_concurrency c ≤ 128) ∧
  (∀ c, client_server_from_env env = Ok c →
    database_ok "SKID_MONITOR_DATABASE_TLS_TERMINATED" (cs_database c) ∧ oidc_ok (cs_oidc c) ∧
    tls_ok "SKID_MONITOR_CLIENT_TLS_CERT" "SKID_MONITOR_CLIENT_TLS_KEY"
      "SKID_MONITOR_CLIENT_TLS_TERMINATED" (cs_tls c) ∧ admin_role c ≠ "" ∧
    0 < request_body_limit c ≤ 16 * 1024 * 1024 ∧ 0 < stream_batch_size c ≤ 4096 ∧
    0 < stream_batch_bytes c ≤ 64 * 1024 * 1024 ∧ 0 < request_concurrency c ≤ 16384 ∧
    0 < replay_concurrency c ≤ 16 ∧ 0 < max_stream_connections c ≤ 65536).
Proof.
  split; intros c.
  - unfold ingress_from_env. intros (la & _ & Hk)%bind_Ok.
    apply bind_Ok in Hk as (db & Hdb & Hk). apply bind_Ok in Hk as (oi & Hoi & Hk).
    apply bind_Ok in Hk as (tls & Htls & Hk).
    repeat (apply bind_Ok in Hk as (? & ?%parse_positive_range & Hk); [|by vm_compute]).
    injection Hk as <-. simpl. split_and!; try (unfold bounded_ingress_global_request_concurrency,
      MAX_INGRESS_GLOBAL_REQUEST_CONCURRENCY, MAX_SIGNAL_BYTES; lia).
    + eapply database_config_ok; [|exact Hdb]; by vm_compute.
    + eapply oidc_config_ok; [|exact Hoi]; done.
    + by apply tls_mode_ok.
  - unfold client_server_from_env. intros (la & _ & Hk)%bind_Ok.
    apply bind_Ok in Hk as (db & Hdb & Hk). apply bind_Ok in Hk as (oi & Hoi & Hk).
    cbv zeta in Hk. apply bind_Ok in Hk as (tls & Htls & Hk).
    repeat (apply bind_Ok in Hk as (? & ?%parse_positive_range & Hk); [|by vm_compute]).
    injection Hk as <-. simpl. split_and!; try (unfold bounded_replay_concurrency,
      MAX_CLIENT_REPLAY_CONCURRENCY, MAX_CLIENT_BODY_BYTES, MAX_STREAM_BATCH_BYTES; lia).
    + eapply database_config_ok; [|exact Hdb]; by vm_compute.
    + eapply oidc_config_ok; [|exact Hoi]; done.
    + by apply tls_mode_ok.
    + destruct (env_non_empty env "SKID_MONITOR_CLIENT_ADMIN_ROLE") eqn:E; simpl;
        [by eapply env_non_empty_ne|done].
Qed.
End safe.

(** *** A server with a private database and TLS at the proxy *)

Section demo.
Instance demo_server_urls : UrlApi := {|
  url_parse s :=
    let u scheme modes := Some {| url_scheme := scheme; url_host := Some "id"; url_username := "";
      url_password := None; url_path := "/"; url_query := None; url_query_pairs := modes;
      url_fragment := None; url_origin := "https://id"; url_text := s |} in
    if starts_with s "https://" then u "https" []
    else if starts_with s "postgres://" then u "postgres" [("sslmode", "disable")] else None |}.
Instance demo_addrs : SocketAddrApi := {| SocketAddr := string; socket_addr := Ok |}.

Definition demo_env : Env := λ name,
  snd <$> find_first (λ kv : string * string, bool_decide (kv.1 = name))
    [("SKID_MONITOR_DATABASE_URL", "postgres://db/skid"); ("SKID_MONITOR_DATABASE_TLS_TERMINATED", "yes");
     ("SKID_MONITOR_OIDC_ISSUER", " https://id/ "); ("SKID_MONITOR_TENANT_CLAIM", "org/tenant");
     ("SKID_MONITOR_INGRESS_AUDIENCE", "skid"); ("SKID_MONITOR_INGRESS_TLS_TERMINATED", "1");
     ("SKID_MONITOR_MAX_SIGNAL_BYTES", "99999999999")].

Definition demo_oidc : OidcConfig :=
  mkOidc "https://id" "https://id" "skid" "telemetry-ingest" "/org~1tenant" KeycloakResourceAccess None.

Definition demo_ingress : IngressConfig :=
  mkIngress demo_addrs "0.0.0.0:4317" (mkDatabase "postgres://db/skid" 12) demo_oidc TerminatedUpstream
    (64 * 1024 * 1024) 64 16.

Lemma demo_from_env : ingress_from_env demo_env = Ok demo_ingress.
Proof. vm_refl. Qed.

Lemma server_config_safe_witness :
  oidc_ok demo_oidc ∧ switched_on demo_env "SKID_MONITOR_DATABASE_TLS_TERMINATED".
Proof.
  destruct (proj1 (server_config_safe demo_env) demo_ingress demo_from_env) as ([(u & mode & Hu & _ & _ & Hm & Hs) _] & Ho & _).
  split; [exact Ho|]. destruct Hs as [->|[_ Hs]]; [|exact Hs].
  simpl in Hu. injection Hu as <-. pose proof (proj2 (Hm "verify-full") eq_refl) as Hin%list_elem_of_singleton. discriminate.
Defined.
End demo.
