(* ===== verification/Auth.v ===== *)
(** * Authentication (skid-monitor-server, auth.rs)

    Bearer tokens: the header is checked, the signing key looked up in the
    cached key set (which a miss may refresh, at most once per cool-down), the
    signature and standard claims are verified by jsonwebtoken, and the claims
    become a principal.  jsonwebtoken, the UUID parser and the decoders of the
    two documents are interfaces; what a request to the provider returns is an
    argument. *)

From stdpp Require Import sorting.
From S2P Require Import Prelude RustStr Core AgentConfig Exporter Json ServerConfig.

(** Nanoseconds of the monotonic clock. *)
Definition JWKS_REFRESH_COOLDOWN : Z := 5 * secs.
Definition MAX_AUTHORIZATION_UNIX : Z := 253402300799.
Definition MAX_ACCESS_TOKEN_LIFETIME : Z := 24 * 60 * 60.
Definition TOKEN_CLOCK_SKEW : Z := 30.
Definition MAX_DISCOVERY_BYTES : Z := 64 * 1024.
Definition MAX_JWKS_BYTES : Z := 1024 * 1024.

Record AuthenticatedPrincipal := mkPrincipal {
  subject : string;
  agent_identity : option string;
  tenant_id_of : TenantId;
  roles : gset string;
  preferred_username : option string;
  authorized_until : Z;             (* authorized_until_unix *)
}.

Inductive AuthError :=
| MissingBearer
| InvalidBearer
| Discovery (error : string)
| KeySet (error : string)
| InvalidToken (error : string)
| InvalidClaims (error : string)
| MissingRole (role : string).

Definition auth_error_text (e : AuthError) : string :=
  match e with
  | MissingBearer => "bearer token is required"
  | InvalidBearer => "authorization header is invalid"
  | Discovery error => "OIDC discovery failed: " +:+ error
  | KeySet error => "OIDC key refresh failed: " +:+ error
  | InvalidToken error => "access token is invalid: " +:+ error
  | InvalidClaims error => "access token claims are invalid: " +:+ error
  | MissingRole role => "required role " +:+ debug_str role +:+ " is missing"
  end.

Definition principal_agent_id (p : AuthenticatedPrincipal) : result AuthError AgentId :=
  identity ← ok_or (agent_identity p)
    (InvalidClaims "agent identity claim is missing; configure SKID_MONITOR_OIDC_AGENT_ID_POINTER for this provider");
  map_err (λ e, InvalidClaims (id_error_text e)) (agent_id_new identity).

Definition has_role (p : AuthenticatedPrincipal) (role : string) : bool := bool_decide (role ∈ roles p).

Record DiscoveryDocument := { doc_issuer : string; doc_jwks_uri : string }.

(** ** Third-party interfaces *)

Inductive Algorithm := RS256 | OtherAlgorithm (name : string).
#[global] Instance Algorithm_eq_dec : EqDecision Algorithm.
Proof. solve_decision. Defined.
Record Header := { alg : Algorithm; typ : option string; kid_of : option string }.
Record Validation := mkValidation {
  v_algorithm : Algorithm;
  v_leeway : Z;
  v_validate_nbf : bool;
  v_audience : list string;
  v_issuer : list string;
  v_required_spec_claims : list string;
}.

(** [jwt_decode now token key validation]: the verified claims. *)
Class JwtApi := {
  JwkSet : Type;
  Jwk : Type;
  DecodingKey : Type;
  jwt_header : string → result string Header;
  jwks_find : JwkSet → string → option Jwk;
  key_of_jwk : Jwk → result string DecodingKey;
  jwt_decode : Z → string → DecodingKey → Validation → result string Value;
  jwks_of_slice : list byte → result string JwkSet;
  discovery_of_slice : list byte → result string DiscoveryDocument;
}.

Class UuidApi := {
  uuid_parse : string → result string Z;
  uuid_text : Z → string;
}.
Definition tenant_from_str `{UuidApi} (s : string) : result string TenantId := mkTenantId <$> uuid_parse s.

(** ** Claims *)

Definition bearer_token (authorization : string) : result AuthError string :=
  match split_whitespace authorization with
  | [] | [_] => Err MissingBearer
  | scheme :: token :: rest =>
    if negb (eq_ignore_ascii_case scheme "Bearer") || is_empty token || bool_decide (rest ≠ [])
    then Err InvalidBearer else Ok token
  end.

Definition string_claim_ok (max_bytes : Z) (value : string) : bool :=
  negb (is_empty value) && (str_len value <=? max_bytes) && negb (has_control value).

Definition required_string_claim (claims : Value) (ptr label : string) (max_bytes : Z)
  : result AuthError string :=
  ok_or
    (v ← pointer ptr claims; s ← as_str v;
     if string_claim_ok max_bytes (trim s) then Some (trim s) else None)
    (InvalidClaims (label +:+ " claim at " +:+ debug_str ptr +:+
      " must be a non-empty string of at most " +:+ u64_to_string max_bytes +:+ " bytes")).

Definition optional_string_claim (claims : Value) (ptr label : string) (max_bytes : Z)
  : result AuthError (option string) :=
  match pointer ptr claims with
  | None | Some Null => Ok None
  | Some _ => Some <$> required_string_claim claims ptr label max_bytes
  end.

Definition required_u64_claim (claims : Value) (ptr label : string) : result AuthError Z :=
  ok_or (pointer ptr claims ≫= as_u64)
    (InvalidClaims (label +:+ " claim at " +:+ debug_str ptr +:+ " must be a non-negative integer")).

Definition validate_token_times (iat exp now : Z) : result AuthError () :=
  if (MAX_AUTHORIZATION_UNIX <? exp) || (exp <=? iat)
     || (MAX_ACCESS_TOKEN_LIFETIME <? sat_sub exp iat)
     || (sat_add now TOKEN_CLOCK_SKEW <? iat)
     || (sat_add now (MAX_ACCESS_TOKEN_LIFETIME + TOKEN_CLOCK_SKEW) <? exp)
  then Err (InvalidClaims "access token issue/expiry timestamps are outside the accepted range")
  else Ok ().

Definition role_value (config : OidcConfig) (claims : Value) : option Value :=
  match role_claims config with
  | KeycloakResourceAccess =>
    access ← get "resource_access" claims; resources ← as_object access;
    resource ← map_get (audience config) resources; get "roles" resource
  | ClaimPointer p => pointer p claims
  end.

Definition normalized_role (role : string) : result AuthError string :=
  let role := trim role in
  if is_empty role || (256 <? str_len role) || has_control role
  then Err (InvalidClaims "roles must be non-empty strings of at most 256 bytes") else Ok role.

Definition roles_from_claims (config : OidcConfig) (claims : Value) : result AuthError (gset string) :=
  match role_value config claims with
  | None => Ok ∅
  | Some value =>
    values ← match value with
      | Array values =>
        try_map (λ v, ok_or (as_str v) (InvalidClaims "role arrays must contain only strings")) values
      | VString value => Ok (split_ascii_whitespace value)
      | _ => Err (InvalidClaims "role claim must be a string or an array of strings")
      end;
    if 256 <? zlen values then Err (InvalidClaims "role claim contains more than 256 roles")
    else list_to_set <$> try_map normalized_role values
  end.

Definition agent_identity_claim (config : OidcConfig) (claims : Value)
  : result AuthError (option string) :=
  match agent_id_pointer config with
  | Some ptr => optional_string_claim claims ptr "agent identity" 255
  | None =>
    match pointer "/azp" claims with
    | Some _ => optional_string_claim claims "/azp" "agent identity" 255
    | None =>
      match pointer "/client_id" claims with
      | Some _ => optional_string_claim claims "/client_id" "agent identity" 255
      | None => Ok None
      end
    end
  end.

Section verifier.
Context `{JwtApi, UuidApi, UrlApi}.

Definition principal_from_claims (config : OidcConfig) (claims : Value) (required_role : string)
    (unix_now : Z) : result AuthError AuthenticatedPrincipal :=
  subject ← required_string_claim claims "/sub" "sub" 1024;
  iat ← required_u64_claim claims "/iat" "iat";
  exp ← required_u64_claim claims "/exp" "exp";
  _ ← validate_token_times iat exp unix_now;
  tenant ← required_string_claim claims (tenant_pointer config) "tenant identity" 128;
  tenant_id ← map_err (λ e, InvalidClaims ("invalid tenant id: " +:+ e)) (tenant_from_str tenant);
  identity ← agent_identity_claim config claims;
  roles ← roles_from_claims config claims;
  if negb (bool_decide (required_role ∈ roles)) then Err (MissingRole required_role)
  else
    username ← optional_string_claim claims "/preferred_username" "preferred_username" 1024;
    Ok (mkPrincipal subject identity tenant_id roles username exp).

(** ** Documents *)

Fixpoint read_body (max_bytes : Z) (body : list byte) (chunks : list (result string (list byte)))
  : result string (list byte) :=
  match chunks with
  | [] => Ok body
  | Err e :: _ => Err e
  | Ok chunk :: rest =>
    if max_bytes <? sat_add (zlen body) (zlen chunk)
    then Err ("JSON response exceeds " +:+ u64_to_string max_bytes +:+ " bytes")
    else read_body max_bytes (body ++ chunk) rest
  end.

(** [reply]: the response, or the error of sending or of its status. *)
Definition fetch_bounded_json {T} (decode : list byte → result string T) (max_bytes : Z)
    (reply : result string HttpResponse) : result string T :=
  response ← reply;
  if match content_length response with Some length => max_bytes <? length | None => false end
  then Err ("JSON response exceeds " +:+ u64_to_string max_bytes +:+ " bytes")
  else
    body ← read_body max_bytes [] (body_chunks response);
    decode body.

Definition fetch_keys (reply : result string HttpResponse) : result AuthError JwkSet :=
  map_err KeySet (fetch_bounded_json jwks_of_slice MAX_JWKS_BYTES reply).

Definition validated_jwks_uri (config : OidcConfig) (value : string) : result AuthError string :=
  jwks_url ← ok_or (url_parse value) (Discovery "jwks_uri is not a valid URL");
  if negb (bool_decide (url_scheme jwks_url = "https")) || bool_decide (url_host jwks_url = None)
     || negb (is_empty (url_username jwks_url)) || bool_decide (is_Some (url_password jwks_url))
     || bool_decide (is_Some (url_fragment jwks_url))
     || negb (bool_decide (url_origin jwks_url = jwks_origin config))
  then Err (Discovery "jwks_uri must use the configured HTTPS JWKS origin without credentials or a fragment")
  else Ok (url_text jwks_url).

(** ** The verifier *)

(** [keys_poisoned]: a thread panicked holding the write lock of the keys. *)
Record OidcVerifier := mkVerifier {
  vf_config : OidcConfig;
  vf_jwks_uri : string;
  vf_keys : JwkSet;
  vf_keys_poisoned : bool;
  vf_last_jwks_refresh : Z;
}.

Definition discovery_url (config : OidcConfig) : string :=
  issuer config +:+ "/.well-known/openid-configuration".

(** [client]: the result of building the HTTP client; the two replies are those
    of the discovery document and of the key set. *)
Definition discover (config : OidcConfig) (client : result string ())
    (document_reply keys_reply : result string HttpResponse) (now : Z)
  : result AuthError OidcVerifier :=
  _ ← map_err Discovery client;
  document ← map_err Discovery (fetch_bounded_json discovery_of_slice MAX_DISCOVERY_BYTES document_reply);
  if negb (bool_decide (trim_end_matches "/"%byte (doc_issuer document) = issuer config))
  then Err (Discovery ("provider issuer " +:+ debug_str (doc_issuer document) +:+
         " did not match configured issuer " +:+ debug_str (issuer config)))
  else
    jwks_uri ← validated_jwks_uri config (doc_jwks_uri document);
    keys ← fetch_keys keys_reply;
    Ok (mkVerifier config jwks_uri keys false now).

Definition find_key (v : OidcVerifier) (kid : string) : result AuthError (option DecodingKey) :=
  if vf_keys_poisoned v then Err (KeySet "JWKS lock poisoned")
  else
    match jwks_find (vf_keys v) kid with
    | None => Ok None
    | Some jwk => Some <$> map_err InvalidToken (key_of_jwk jwk)
    end.

Definition no_key (kid : string) : AuthError :=
  InvalidToken ("no signing key matches token kid " +:+ debug_str kid).

(** What a verification meets: two readings of the monotonic clock, the reply
    of the key set's address should it be asked, jsonwebtoken's clock and the
    system clock in seconds. *)
Record Meets := {
  mt_checked : Z;
  mt_refreshed : Z;
  mt_reply : result string HttpResponse;
  mt_jwt_now : Z;
  mt_unix_now : Z;
}.

(** The part of [decoding_key] that holds the lock of the last refresh; the
    third component lists the requests made, with their time. *)
Definition refresh_key (v : OidcVerifier) (kid : string) (m : Meets)
  : result AuthError DecodingKey * OidcVerifier * list (Z * string) :=
  match find_key v kid with
  | Err e => (Err e, v, [])
  | Ok (Some key) => (Ok key, v, [])
  | Ok None =>
    if Z.max 0 (mt_checked m - vf_last_jwks_refresh v) <? JWKS_REFRESH_COOLDOWN
    then (Err (no_key kid), v, [])
    else
      let v := mkVerifier (vf_config v) (vf_jwks_uri v) (vf_keys v) (vf_keys_poisoned v)
                 (mt_refreshed m) in
      let requests := [(mt_refreshed m, vf_jwks_uri v)] in
      match fetch_keys (mt_reply m) with
      | Err e => (Err e, v, requests)
      | Ok keys =>
        if vf_keys_poisoned v then (Err (KeySet "JWKS lock poisoned"), v, requests)
        else
          let v := mkVerifier (vf_config v) (vf_jwks_uri v) keys (vf_keys_poisoned v)
                     (vf_last_jwks_refresh v) in
          (key ← find_key v kid; ok_or key (no_key kid), v, requests)
      end
  end.

Definition decoding_key (v : OidcVerifier) (kid : string) (m : Meets)
  : result AuthError DecodingKey * OidcVerifier * list (Z * string) :=
  match find_key v kid with
  | Err e => (Err e, v, [])
  | Ok (Some key) => (Ok key, v, [])
  | Ok None => refresh_key v kid m
  end.

(** The checks of the token's header: the key it asks for. *)
Definition header_kid (token : string) : result AuthError string :=
  header ← map_err InvalidToken (jwt_header token);
  if negb (bool_decide (alg header = RS256))
  then Err (InvalidToken "only RS256 access tokens are accepted")
  else
    _ ← match typ header with
        | Some token_type =>
          if negb (bool_decide (token_type = "JWT")) && negb (bool_decide (token_type = "at+jwt"))
          then Err (InvalidToken ("unsupported token type " +:+ debug_str token_type)) else Ok ()
        | None => Ok ()
        end;
    ok_or (kid_of header) (InvalidToken "token header has no kid").

Definition validation (config : OidcConfig) : Validation :=
  mkValidation RS256 TOKEN_CLOCK_SKEW true [audience config] [issuer config]
    ["exp"; "iat"; "iss"; "aud"; "sub"].

Definition verify_bearer_for_role (v : OidcVerifier) (authorization required_role : string) (m : Meets)
  : result AuthError AuthenticatedPrincipal * OidcVerifier * list (Z * string) :=
  match token ← bearer_token authorization; kid ← header_kid token; Ok (token, kid) with
  | Err e => (Err e, v, [])
  | Ok (token, kid) =>
    match decoding_key v kid m with
    | (Err e, v, requests) => (Err e, v, requests)
    | (Ok key, v, requests) =>
      (claims ← map_err InvalidToken (jwt_decode (mt_jwt_now m) token key (validation (vf_config v)));
       principal_from_claims (vf_config v) claims required_role (mt_unix_now m), v, requests)
    end
  end.

Definition verify_bearer (v : OidcVerifier) (authorization : string) (m : Meets) :=
  verify_bearer_for_role v authorization (required_role (vf_config v)) m.
End verifier.

(** ** Who is let in *)

(** [r] is one of the roles the claims name for this server. *)
Definition granted (config : OidcConfig) (claims : Value) (r : string) : Prop :=
  ∃ value s, role_value config claims = Some value ∧ trim s = r ∧
    ((∃ l, value = Array l ∧ VString s ∈ l) ∨
     (∃ text, value = VString text ∧ s ∈ split_ascii_whitespace text)).

Lemma roles_from_claims_granted config claims rs r :
  roles_from_claims config claims = Ok rs → r ∈ rs → granted config claims r.
Proof.
  unfold roles_from_claims. destruct (role_value config claims) as [value|] eqn:Hv;
    [|intros [= <-]; set_solver].
  intros (values & Hvs & Hk)%bind_Ok Hr. case_test; [done|].
  destruct (try_map normalized_role values) as [l|] eqn:Hl; [|done]. injection Hk as <-.
  apply elem_of_list_to_set in Hr. destruct (try_map_source _ _ _ _ Hl Hr) as (s & Hs & Hn).
  unfold normalized_role in Hn. cbv zeta in Hn. case_test; [done|]. injection Hn as Hn.
  exists value, s. split_and!; [done..|]. destruct value as [| | |text|l'|]; try done.
  - right. exists text. split; [done|]. by injection Hvs as ->.
  - left. exists l'. split; [done|]. destruct (try_map_source _ _ _ _ Hvs Hs) as (v & Hin & Hv').
    destruct v; try done. by injection Hv' as ->.
Qed.

Lemma required_string_claim_Ok claims ptr label max s :
  required_string_claim claims ptr label max = Ok s ↔
  ∃ t, pointer ptr claims = Some (VString t) ∧ trim t = s ∧ string_claim_ok max s = true.
Proof.
  unfold required_string_claim. rewrite ok_or_Ok.
  destruct (pointer ptr claims) as [[| | |t| |]|]; simpl;
    try (split; [done|by intros (? & ? & _)]).
  destruct (string_claim_ok max (trim t)) eqn:E; split.
  - intros [= <-]. eauto.
  - intros (t' & [= <-] & <- & _). done.
  - done.
  - intros (t' & [= <-] & <- & E'). by rewrite E in E'.
Qed.

Section authorized.
Context `{JwtApi, UuidApi, UrlApi}.

Lemma validate_token_times_Ok iat exp now : validate_token_times iat exp now = Ok () →
  iat < exp ≤ iat + 86400 ∧ iat ≤ now + 30 ∧ exp ≤ now + 86430 ∧ exp ≤ MAX_AUTHORIZATION_UNIX.
Proof.
  unfold validate_token_times. case_test; [done|]. intros _. to_prop.
  unfold sat_add, sat_sub, MAX_ACCESS_TOKEN_LIFETIME, TOKEN_CLOCK_SKEW in *. lia.
Qed.

(** A principal is what its claims say, and what its claims say is in range. *)
Record principal_of (config : OidcConfig) (claims : Value) (role : string) (now : Z)
    (p : AuthenticatedPrincipal) : Prop := {
  po_subject : ∃ s, pointer "/sub" claims = Some (VString s) ∧ trim s = subject p ∧ subject p ≠ "";
  po_tenant : ∃ s, pointer (tenant_pointer config) claims = Some (VString s) ∧
    uuid_parse (trim s) = Ok (tenant_uuid (tenant_id_of p));
  po_times : ∃ iat, (pointer "/iat" claims ≫= as_u64) = Some iat ∧
    (pointer "/exp" claims ≫= as_u64) = Some (authorized_until p) ∧
    iat < authorized_until p ≤ iat + 86400 ∧ iat ≤ now + 30 ∧ authorized_until p ≤ now + 86430;
  po_role : role ∈ roles p;
  po_granted : ∀ r, r ∈ roles p → granted config claims r;
  po_agent : agent_identity_claim config claims = Ok (agent_identity p);
}.

Lemma principal_from_claims_ok config claims role now p :
  principal_from_claims config claims role now = Ok p → principal_of config claims role now p.
Proof.
  unfold principal_from_claims.
  intros (sub & (t & Ht & Hts & Hsok)%required_string_claim_Ok & Hk)%bind_Ok.
  apply bind_Ok in Hk as (iat & Hiat%ok_or_Ok & Hk). apply bind_Ok in Hk as (exp & Hexp%ok_or_Ok & Hk).
  apply bind_Ok in Hk as ([] & Htimes%validate_token_times_Ok & Hk).
  apply bind_Ok in Hk as (tenant & (tt & Htt & Htts & _)%required_string_claim_Ok & Hk).
  apply bind_Ok in Hk as (tid & Htid%map_err_Ok & Hk). apply bind_Ok in Hk as (ident & Hid & Hk).
  apply bind_Ok in Hk as (rs & Hrs & Hk). case_bool_decide as Hrole; [|done].
  apply bind_Ok in Hk as (user & _ & [= <-]). split; simpl.
  - exists t. split_and!; [done|done|]. unfold string_claim_ok, is_empty in Hsok. by to_prop.
  - exists tt. split; [done|]. unfold tenant_from_str in Htid. subst tenant.
    destruct (uuid_parse (trim tt)); [|done]. by injection Htid as <-.
  - exists iat. tauto.
  - done.
  - intros r. by apply roles_from_claims_granted.
  - done.
Qed.

Lemma find_key_Some v kid key : find_key v kid = Ok (Some key) →
  ∃ jwk, jwks_find (vf_keys v) kid = Some jwk ∧ key_of_jwk jwk = Ok key.
Proof.
  unfold find_key. case_test; [done|]. destruct (jwks_find _ _) as [jwk|]; [|done].
  destruct (key_of_jwk jwk) as [k|] eqn:E; [|done]. intros [= ->]. eauto.
Qed.

(** What a lookup leaves behind: at most one request, to the address found at
    discovery, and not before the cool-down has passed. *)
Lemma decoding_key_ok v kid m r v' requests : mt_checked m ≤ mt_refreshed m →
  decoding_key v kid m = (r, v', requests) →
  vf_config v' = vf_config v ∧ vf_jwks_uri v' = vf_jwks_uri v ∧
  (requests = [] ∧ vf_last_jwks_refresh v' = vf_last_jwks_refresh v ∨
   requests = [(vf_last_jwks_refresh v', vf_jwks_uri v)] ∧
     vf_last_jwks_refresh v + JWKS_REFRESH_COOLDOWN ≤ vf_last_jwks_refresh v') ∧
  ∀ key, r = Ok key → ∃ jwk, jwks_find (vf_keys v') kid = Some jwk ∧ key_of_jwk jwk = Ok key.
Proof.
  intros Hm. unfold decoding_key, refresh_key.
  destruct (find_key v kid) as [[key|]|] eqn:Hf.
  - intros [= <- <- <-]. split_and!; [done..|by left|]. intros ? [= <-]. by apply find_key_Some.
  - case_test; [intros [= <- <- <-]; split_and!; [done..|by left|done]|]. to_prop.
    unfold JWKS_REFRESH_COOLDOWN, secs in *.
    destruct (fetch_keys (mt_reply m)) as [keys|];
      [|intros [= <- <- <-]; split_and!; [done..|right; simpl; split; [done|lia]|done]].
    simpl. destruct (vf_keys_poisoned v);
      [intros [= <- <- <-]; split_and!; [done..|right; simpl; split; [done|lia]|done]|].
    intros [= <- <- <-]. split_and!; [done..|right; simpl; split; [done|lia]|].
    intros key (o & Ho & Hk%ok_or_Ok)%bind_Ok. subst o. by apply find_key_Some.
  - intros [= <- <- <-]. split_and!; [done..|by left|done].
Qed.

Lemma verify_requests v auth role m r v' requests : mt_checked m ≤ mt_refreshed m →
  verify_bearer_for_role v auth role m = (r, v', requests) →
  vf_config v' = vf_config v ∧ vf_jwks_uri v' = vf_jwks_uri v ∧
  (requests = [] ∧ vf_last_jwks_refresh v' = vf_last_jwks_refresh v ∨
   requests = [(vf_last_jwks_refresh v', vf_jwks_uri v)] ∧
     vf_last_jwks_refresh v + JWKS_REFRESH_COOLDOWN ≤ vf_last_jwks_refresh v').
Proof.
  intros Hm. unfold verify_bearer_for_role.
  destruct (token ← bearer_token auth; _) as [[token kid]|]; [|intros [= <- <- <-]; eauto].
  destruct (decoding_key v kid m) as [[k v1] rq] eqn:Hd.
  apply decoding_key_ok in Hd as (? & ? & ? & _); [|done].
  destruct k; intros [= <- <- <-]; done.
Qed.

(** C5: a request is authenticated only with a bearer token that is RS256
    signed by a key of the provider's current key set for this server's
    audience and issuer, at a time its issue and expiry allow, whose claims
    name the tenant and grant the role that is asked for; the principal carries
    exactly that tenant, that expiry and roles those claims grant. *)
Theorem verify_bearer_authorized v authorization role m p v' requests :
  mt_checked m ≤ mt_refreshed m →
  verify_bearer_for_role v authorization role m = (Ok p, v', requests) →
  ∃ scheme token header kid jwk key claims,
    split_whitespace authorization = [scheme; token] ∧ eq_ignore_ascii_case scheme "Bearer" = true ∧
    jwt_header token = Ok header ∧ alg header = RS256 ∧ kid_of header = Some kid ∧
    typ header ∈ [None; Some "JWT"; Some "at+jwt"] ∧
    jwks_find (vf_keys v') kid = Some jwk ∧ key_of_jwk jwk = Ok key ∧
    jwt_decode (mt_jwt_now m) token key (validation (vf_config v)) = Ok claims ∧
    principal_of (vf_config v) claims role (mt_unix_now m) p.
Proof.
  intros Hm. unfold verify_bearer_for_role.
  destruct (token ← bearer_token authorization; _) as [[token kid]|] eqn:Hh; [|done].
  apply bind_Ok in Hh as (tok & Hb & (k & Hk & [= -> ->])%bind_Ok).
  destruct (decoding_key v kid m) as [[[key|] v1] rq] eqn:Hd; [|done].
  apply decoding_key_ok in Hd as (Hc & _ & _ & Hkey); [|done].
  destruct (Hkey _ eq_refl) as (jwk & Hj & Hjk). intros [= Hp -> _]. rewrite Hc in Hp.
  apply bind_Ok in Hp as (claims & Hdec%map_err_Ok & Hp%principal_from_claims_ok).
  unfold bearer_token in Hb. destruct (split_whitespace authorization) as [|scheme [|tk rest]]; [done..|].
  case_test; [done|]. injection Hb as ->. to_prop.
  assert (rest = []) as -> by (destruct (decide (rest = [])); naive_solver).
  unfold header_kid in Hk. apply bind_Ok in Hk as (h & Hh%map_err_Ok & Hk).
  case_bool_decide as Halg; [|done]. apply bind_Ok in Hk as ([] & Htyp & Hkid%ok_or_Ok).
  exists scheme, token, h, kid, jwk, key, claims. split_and!; try done.
  destruct (typ h) as [ty|]; [|set_solver]. simpl in Htyp. repeat case_bool_decide; set_solver.
Qed.

(** ** How often the provider is asked *)

Fixpoint verifications (v : OidcVerifier) (calls : list (string * string * Meets)) : list (Z * string) :=
  match calls with
  | [] => []
  | (authorization, role, m) :: calls =>
    let '(_, v, requests) := verify_bearer_for_role v authorization role m in
    requests ++ verifications v calls
  end.

(** C6: a verifier that discovery accepted asks for keys only at one HTTPS
    address of the configured key origin, without credentials or fragment, and
    however many tokens with unknown keys are presented, and whatever it
    answers, never twice within five seconds, the request at discovery
    included. *)
Theorem jwks_refresh_bounded config client document_reply keys_reply now v calls :
  discover config client document_reply keys_reply now = Ok v →
  Forall (λ c, mt_checked c.2 ≤ mt_refreshed c.2) calls →
  (∃ text u, url_parse text = Some u ∧ url_text u = vf_jwks_uri v ∧ url_scheme u = "https" ∧
     is_Some (url_host u) ∧ url_username u = "" ∧ url_password u = None ∧ url_fragment u = None ∧
     url_origin u = jwks_origin config) ∧
  Forall (λ r, r.2 = vf_jwks_uri v) (verifications v calls) ∧
  StronglySorted (λ a b, a + 5 * 1000000000 ≤ b) (now :: (verifications v calls).*1).
Proof.
  intros Hd Hc. unfold discover in Hd. apply bind_Ok in Hd as (_ & _ & Hd).
  apply bind_Ok in Hd as (doc & _ & Hd). case_test; [done|].
  apply bind_Ok in Hd as (uri & Hu & Hd). apply bind_Ok in Hd as (keys & _ & [= <-]). simpl.
  split.
  { unfold validated_jwks_uri in Hu. apply bind_Ok in Hu as (u & Hp%ok_or_Ok & Hu).
    case_test; [done|]. injection Hu as <-. to_prop. unfold is_empty in *. to_prop.
    exists (doc_jwks_uri doc), u. rewrite <-!eq_None_not_Some in *. rewrite not_eq_None_Some in *.
    split_and!; done. }
  set (v := mkVerifier config uri keys false now). change uri with (vf_jwks_uri v).
  change now with (vf_last_jwks_refresh v). clearbody v. clear -Hc. revert v.
  induction Hc as [|[[auth role] m] calls Hm _ IH]; intros v; cbn [verifications].
  { split; [constructor|]. by repeat constructor. }
  destruct (verify_bearer_for_role v auth role m) as [[r v1] rq] eqn:Hv.
  apply verify_requests in Hv as (_ & Huri & Hrq); [|done].
  destruct (IH v1) as [Hall Hsort]. rewrite Huri in Hall. destruct Hrq as [[-> Hl]|[-> Hl]].
  - by rewrite <- Hl.
  - split; [by constructor|]. cbn [app]. rewrite fmap_cons. cbn [fst]. constructor; [done|].
    unfold JWKS_REFRESH_COOLDOWN, secs in Hl. apply StronglySorted_inv in Hsort as [_ Hf].
    constructor; [lia|]. eapply Forall_impl; [exact Hf|]. simpl. intros t Ht. lia.
Qed.
End authorized.

(** *** A provider whose key set lacks the key until it is refreshed *)

Module DemoAuth.
Definition claims : Value := Object
  [("sub", VString "user"); ("iat", VNumber (PosInt 100)); ("exp", VNumber (PosInt 400));
   ("tenant_id", VString "7"); ("azp", VString "agent-a");
   ("roles", Array [VString "telemetry-ingest"; VString "telemetry-admin"; VString "telemetry-read"])].
Definition config : OidcConfig :=
  mkOidc "https://id" "https://id" "skid" "telemetry-ingest" "/tenant_id" (ClaimPointer "/roles") None.
Definition reply (text : string) : result string HttpResponse :=
  Ok {| is_success := true; status_text := "200 OK"; content_length := None;
        body_chunks := [Ok (as_bytes text)] |}.

#[export] Instance jwt : JwtApi := {|
  JwkSet := string; Jwk := string; DecodingKey := string;
  jwt_header t := if bool_decide (t = "token")
    then Ok {| alg := RS256; typ := Some "JWT"; kid_of := Some "k2" |} else Err "malformed";
  jwks_find set kid := if contains set kid then Some kid else None;
  key_of_jwk := Ok;
  jwt_decode _ _ _ _ := Ok claims;
  jwks_of_slice b := Ok (of_bytes b);
  discovery_of_slice b := Ok {| doc_issuer := "https://id/"; doc_jwks_uri := of_bytes b |} |}.
#[export] Instance uuid : UuidApi := {|
  uuid_parse s := match parse_u64 s with Some z => Ok z | None => Err "invalid" end;
  uuid_text := u64_to_string |}.
#[export] Instance urls : UrlApi := {|
  url_parse s := Some {| url_scheme := "https"; url_host := Some "id"; url_username := "";
    url_password := None; url_path := "/keys"; url_query := None; url_query_pairs := [];
    url_fragment := None; url_origin := "https://id"; url_text := s |} |}.

Definition verifier : OidcVerifier := mkVerifier config "https://id/keys" "k1" false 0.
Definition at_ (checked unix : Z) : Meets :=
  {| mt_checked := checked; mt_refreshed := checked + 1; mt_reply := reply "k1 k2";
     mt_jwt_now := unix; mt_unix_now := unix |}.
Definition calls : list (string * string * Meets) :=
  [("bearer token", "telemetry-read", at_ 1000000000 200);
   ("bearer token", "telemetry-read", at_ 5000000000 204);
   ("bearer token", "telemetry-read", at_ 6000000000 205)].
End DemoAuth.

Section demo.
Import DemoAuth.
#[local] Transparent gmap_empty.

Lemma demo_verified : ∃ p v, verify_bearer_for_role verifier "bearer token" "telemetry-read"
    (at_ 5000000000 204) = (Ok p, v, [(5000000001, "https://id/keys")]) ∧
  tenant_id_of p = mkTenantId 7 ∧ authorized_until p = 400.
Proof.
  unfold verify_bearer_for_role.
  change (token ← bearer_token "bearer token"; kid ← header_kid token; Ok (token, kid))
    with (Ok (E := AuthError) ("token", "k2")). cbv beta iota.
  set (d := decoding_key _ _ _).
  assert (d = (Ok "k2", mkVerifier config "https://id/keys" "k1 k2" false 5000000001,
    [(5000000001, "https://id/keys")])) as -> by vm_refl.
  cbv beta iota. eexists _, _. split; [reflexivity|]. split; reflexivity.
Qed.

Lemma verify_bearer_authorized_witness : ∃ p, "telemetry-read" ∈ roles p ∧ authorized_until p ≤ 86634.
Proof.
  destruct demo_verified as (p & v & Hv & _ & He). exists p.
  destruct (verify_bearer_authorized verifier "bearer token" "telemetry-read" (at_ 5000000000 204)
    p v [(5000000001, "https://id/keys")] ltac:(simpl; lia) Hv)
    as (? & ? & ? & ? & ? & ? & ? & _ & _ & _ & _ & _ & _ & _ & _ & _ & Hp).
  split; [exact (po_role _ _ _ _ _ Hp)|]. rewrite He. lia.
Defined.

Lemma jwks_refresh_bounded_witness :
  StronglySorted (λ a b, a + 5 * 1000000000 ≤ b) [0; 5000000001].
Proof.
  exact (proj2 (proj2 (jwks_refresh_bounded config (Ok ()) (reply "https://id/keys") (reply "k1") 0
    verifier calls eq_refl ltac:(repeat constructor; simpl; lia)))).
Defined.
End demo.
