(* ===== verification/Ingress.v ===== *)
(** * The agents' ingress plane (skid-monitor-server, ingress.rs)

    One OTLP request: the credentials are verified, the sequence number read,
    and the signal committed to the store under the principal's tenant and
    agent before it is acknowledged.  The three services differ only in the
    signal they wrap.  [ingest_ack_durable] composes the verifier with the
    store. *)

From S2P Require Import Prelude RustStr Otlp Core PgTypes PgStore PgInvariant PgExamples AgentConfig Exporter Json ServerConfig Auth.

Definition AUTHORIZATION_METADATA : string := "authorization".
Definition SEQUENCE_METADATA : string := "x-skid-sequence".

Record IngestContext := { ic_tenant : TenantId; ic_agent : AgentId; ic_sequence : Z }.

(** [MetadataMap::get] and the value's [to_str]. *)
Definition Metadata : Type := string → option (result () string).

Definition unauthenticated (m : string) : Status := mkStatus Unauthenticated m.
Definition invalid_argument (m : string) : Status := mkStatus InvalidArgument m.

Definition required_metadata (metadata : Metadata) (name : string) : result Status string :=
  value ← ok_or (metadata name)
    (if bool_decide (name = AUTHORIZATION_METADATA)
     then unauthenticated "agent credentials are required"
     else invalid_argument ("required metadata " +:+ name +:+ " is missing"));
  map_err (λ _,
    if bool_decide (name = AUTHORIZATION_METADATA)
    then unauthenticated "agent credentials are invalid"
    else invalid_argument ("metadata " +:+ name +:+ " is not valid ASCII")) value.

Definition sequence_from_metadata (metadata : Metadata) : result Status Z :=
  value ← required_metadata metadata SEQUENCE_METADATA;
  if is_empty value || negb (forallb is_ascii_digit (as_bytes value))
  then Err (invalid_argument "x-skid-sequence must be an unsigned decimal integer")
  else map_err (λ _, invalid_argument "x-skid-sequence is outside the supported u64 range")
         (parse_unsigned u64_max value).

Definition auth_status (e : AuthError) : Status :=
  match e with
  | MissingRole _ => mkStatus PermissionDenied "agent is not authorized for telemetry ingest"
  | Discovery _ | KeySet _ => mkStatus Unavailable "authentication service is unavailable"
  | MissingBearer | InvalidBearer | InvalidToken _ | InvalidClaims _ =>
    unauthenticated "agent credentials are invalid"
  end.

Definition store_status (e : PgStoreError) : Status :=
  match e with
  | TenantDisabled _ | AgentNotEnrolled _ | AgentDisabled _ =>
    mkStatus PermissionDenied "tenant and agent must be enrolled and enabled"
  | IntegerOutOfRange field =>
    if bool_decide (field = "sequence")
    then invalid_argument "x-skid-sequence exceeds the supported range"
    else mkStatus Internal "signal could not be committed"
  | InvalidSignalPayload _ | SignalPayloadNotRoundTripSafe | SignalPayloadTooLarge _ _ =>
    invalid_argument "signal payload must be JSON round-trip safe and no larger than 16 MiB"
  | SequenceConflict _ _ =>
    mkStatus AlreadyExists "x-skid-sequence was already used for another signal"
  | Database _ => mkStatus Unavailable "signal store is unavailable"
  | _ => mkStatus Internal "signal could not be committed"
  end.

Section ingress.
Context `{JwtApi, UuidApi, JsonApi}.

Definition context (v : OidcVerifier) (metadata : Metadata) (m : Meets)
  : result Status IngestContext * OidcVerifier * list (Z * string) :=
  match required_metadata metadata AUTHORIZATION_METADATA with
  | Err e => (Err e, v, [])
  | Ok authorization =>
    let '(principal, v, requests) := verify_bearer v authorization m in
    (principal ← map_err auth_status principal;
     agent_id ← map_err auth_status (principal_agent_id principal);
     sequence ← sequence_from_metadata metadata;
     Ok {| ic_tenant := tenant_id_of principal; ic_agent := agent_id; ic_sequence := sequence |},
     v, requests)
  end.

(** [clock], [id]: the time and the event id of [SignalEnvelope::now]; [now]:
    the database's clock. *)
Definition append (db : Db) (now clock : Z) (id : EventId) (c : IngestContext) (payload : Signal)
  : result Status () * Db :=
  let envelope := envelope_now clock id (Tenant (ic_tenant c)) (ic_agent c) (ic_sequence c) payload in
  match append_envelope db now envelope with
  | (Err e, db) => (Err (store_status e), db)
  | (Ok _, db) => (Ok (), db)
  end.

Record IngestRequest := {
  rq_metadata : Metadata;
  rq_signal : Signal;
  rq_meets : Meets;
  rq_clock : Z;
  rq_event : EventId;
  rq_now : Z;
}.

(** [export] of the metrics, trace and logs services. *)
Definition ingest_export (v : OidcVerifier) (db : Db) (rq : IngestRequest)
  : result Status () * OidcVerifier * Db :=
  match context v (rq_metadata rq) (rq_meets rq) with
  | (Err e, v, _) => (Err e, v, db)
  | (Ok c, v, _) =>
    let '(r, db) := append db (rq_now rq) (rq_clock rq) (rq_event rq) c (rq_signal rq) in (r, v, db)
  end.
End ingress.

(** ** An acknowledgement means the signal is stored *)

Section ack.
Context `{JwtApi, UuidApi, JsonApi} (text : TenantId → string).

(** The signal of a request, in the table of events. *)
Definition committed (db : Db) (t : TenantId) (a : AgentId) (s : Z) (signal : Signal) : Prop :=
  ∃ row p, row ∈ events db ∧ e_tenant row = t ∧ e_agent row = a ∧ e_sequence row = s ∧
    canonical_signal_payload signal = Ok p ∧
    (e_payload row = jsonb (cp_value p) ∨ e_payload row = cp_value p).

Lemma append_committed db now env o db' t : 0 < next_cursor db ≤ i64_max + 1 →
  append_envelope db now env = (Ok o, db') → scope env = Tenant t →
  committed db' t (agent_id env) (sequence env) (payload env) ∧
  a_enabled <$> agents_t db !! (t, agent_id env) = Some true.
Proof.
  intros Hn Ha Hs. pose proof (append_cases db now env Hn) as Hc. rewrite Ha in Hc.
  destruct Hc as (t' & p & Hs' & Hp & _ & _ & Hen & Hi). rewrite Hs in Hs'. injection Hs' as <-.
  split; [|done]. destruct (inserted o).
  - destruct Hi as (_ & _ & _ & _ & ->). unfold inserted_db. eexists _, p. split.
    + cbn. apply elem_of_app. right. by apply list_elem_of_singleton.
    + by cbn; split_and!; try done; left.
  - destruct Hi as (-> & row & Hf & _ & _ & Hv).
    apply find_event_Some in Hf as (? & ? & ? & ?). exists row, p. split_and!; try done. by right.
Qed.

(** C7: a request that is acknowledged has its signal in the store, under the
    tenant and the agent its token was verified for, the agent being enrolled
    and enabled, and under the sequence number it carried; a request that is
    refused leaves no trace in any table. *)
Theorem ingest_ack_durable ops v rq r v' db' :
  let db := run text ops in
  ingest_export v db rq = (r, v', db') →
  match r with
  | Ok _ => ∃ authorization digits p v1 requests a s,
      rq_metadata rq "authorization" = Some (Ok authorization) ∧
      verify_bearer v authorization (rq_meets rq) = (Ok p, v1, requests) ∧
      principal_agent_id p = Ok a ∧
      a_enabled <$> agents_t db !! (tenant_id_of p, a) = Some true ∧
      rq_metadata rq "x-skid-sequence" = Some (Ok digits) ∧ parse_unsigned u64_max digits = Ok s ∧
      committed db' (tenant_id_of p) a s (rq_signal rq)
  | Err _ => ∃ n, db' = with_cursor db n
  end.
Proof.
  intros db. unfold ingest_export, context.
  assert (∃ n, db = with_cursor db n) as Hsame by (exists (next_cursor db); by rewrite with_cursor_same).
  destruct (required_metadata (rq_metadata rq) AUTHORIZATION_METADATA) as [auth|] eqn:Hauth;
    [|by intros [= <- <- <-]].
  destruct (verify_bearer v auth (rq_meets rq)) as [[vr v1] rqs] eqn:Hv.
  destruct (principal ← map_err auth_status vr; _) as [c|] eqn:Hc; [|by intros [= <- <- <-]].
  apply bind_Ok in Hc as (p & ->%map_err_Ok & Hc). apply bind_Ok in Hc as (a & Ha%map_err_Ok & Hc).
  apply bind_Ok in Hc as (s & Hs & [= <-]).
  unfold append. cbn [ic_tenant ic_agent ic_sequence].
  pose proof (inv_next _ _ (run_inv text ops)) as Hn. fold db in Hn.
  destruct (append_envelope db _ _) as [[o|e] db1] eqn:Happ; intros [= <- <- <-].
  - pose proof (append_committed _ _ _ _ _ (tenant_id_of p) Hn Happ eq_refl) as [Hcom Hen].
    unfold required_metadata in Hauth. apply bind_Ok in Hauth as (x & Hx%ok_or_Ok & ->%map_err_Ok).
    unfold sequence_from_metadata, required_metadata in Hs.
    apply bind_Ok in Hs as (digits & (y & Hy%ok_or_Ok & ->%map_err_Ok)%bind_Ok & Hs).
    case_test; [done|]. apply map_err_Ok in Hs.
    exists auth, digits, p, v1, rqs, a, s. done.
  - pose proof (append_cases db (rq_now rq) (envelope_now (rq_clock rq) (rq_event rq)
      (Tenant (tenant_id_of p)) a s (rq_signal rq)) Hn) as Hca. rewrite Happ in Hca.
    destruct Hca as (n & -> & _). by exists n.
Qed.
End ack.

(** *** A second signal of the enrolled agent *)

Section demo.
Import DemoJson DemoAuth.
#[local] Transparent gmap_empty.

Definition demo_request : IngestRequest :=
  {| rq_metadata name :=
       if bool_decide (name = "authorization") then Some (Ok "Bearer token")
       else if bool_decide (name = "x-skid-sequence") then Some (Ok "6") else None;
     rq_signal := empty_metrics; rq_meets := at_ 6000000000 205; rq_clock := 4000;
     rq_event := mkEventId 2; rq_now := 5000 |}.

Lemma demo_ingest : (ingest_export verifier (run DemoJson.text history) demo_request).1.1 = Ok ().
Proof. vm_refl. Qed.

Lemma ingest_ack_durable_witness :
  ∃ t a db', committed db' t a 6 empty_metrics.
Proof.
  destruct (ingest_export verifier (run DemoJson.text history) demo_request) as [[r v'] db'] eqn:E.
  pose proof (ingest_ack_durable DemoJson.text history verifier demo_request r v' db' E) as Hack.
  assert (r = Ok ()) as -> by (pose proof demo_ingest as Hd; rewrite E in Hd; exact Hd).
  destruct Hack as (auth & digits & p & v1 & rqs & a & s & _ & _ & _ & _ & Hd & Hs & Hc).
  exists (tenant_id_of p), a, db'. injection Hd as <-. vm_compute in Hs. injection Hs as <-. exact Hc.
Defined.
End demo.
