(* ===== verification/Api.v ===== *)
(** * The clients' access plane (skid-monitor-server, api.rs): requests

    Every handler of the router as a function of the server's state: the
    verifier, the store and the free stream slots.  [api_refines_store] shows
    that a request does at most one operation of the store, for the tenant it
    was authorised for; [signal_page_exact] that the streamed body of a replay
    is one JSON document, in bounded chunks.  The web socket is in ApiStream.v. *)

From stdpp Require Import sorting.
From S2P Require Import Prelude RustStr Otlp Frame Core PgTypes PgStore PgInvariant PgReplay PgTenancy PgExamples AgentConfig Exporter Json ServerConfig Auth.

(** Nanoseconds. *)
Definition STREAM_TICKET_TTL : Z := 30 * secs.
Definition REST_REPLAY_CHUNK_BYTES : Z := 64 * 1024.

(** The status is the number of the [StatusCode]. *)
Record ApiError := mkApiError { ae_status : Z; ae_code : string; ae_message : string }.

Definition bad_request (m : string) : ApiError := mkApiError 400 "bad_request" m.
Definition service_unavailable : ApiError :=
  mkApiError 503 "store_unavailable" "signal store is temporarily unavailable".
Definition internal : ApiError :=
  mkApiError 500 "internal_error" "the operation could not be completed".
Definition invalid_stream_ticket : ApiError :=
  mkApiError 401 "invalid_stream_ticket" "the one-time stream ticket is invalid or expired".

Definition auth_error (e : AuthError) : ApiError :=
  let '(status, code) := match e with
    | MissingRole _ => (403, "forbidden")
    | Discovery _ | KeySet _ => (503, "authentication_unavailable")
    | _ => (401, "unauthorized")
    end in
  mkApiError status code
    (if status =? 403 then "the access token does not grant this operation"
     else if status =? 503 then "the authentication service is temporarily unavailable"
     else "a valid OIDC access token is required").

Definition store_error (e : PgStoreError) : ApiError :=
  match e with
  | Database _ | Migration _ | RuntimeSchemaNotReady _ => service_unavailable
  | TenantDisabled _ => mkApiError 403 "tenant_disabled" "the tenant is disabled"
  | AgentLimitReached _ max_agents =>
    mkApiError 409 "agent_limit_reached"
      ("the tenant cannot enroll more than " +:+ u64_to_string max_agents +:+ " agents")
  | StreamTicketAuthorizationExpired => auth_error (InvalidToken "access token expired")
  | _ => internal
  end.

(** ** The body of a replay *)

Section page.
(** [serde_json::to_writer] of a record. *)
Context (record_json : SignalRecord → result string (list byte)).

Record SignalPageStreamState := mkPage {
  pg_records : list SignalRecord;
  pg_next_cursor : SignalCursor;
  pg_prefix_sent : bool;
  pg_first_record : bool;
  pg_suffix_sent : bool;
  pg_pending : list byte;
}.

Definition quoted (s : string) : list byte := "034"%byte :: as_bytes s ++ ["034"%byte].
Definition page_prefix : list byte := as_bytes "{" ++ quoted "signals" ++ as_bytes ":[".
Definition page_suffix (next : SignalCursor) : list byte :=
  as_bytes "]," ++ quoted "next_cursor" ++ as_bytes ":" ++ as_bytes (u64_to_string next) ++ as_bytes "}".

(** One pass of the closure's loop. *)
Inductive Pass :=
| Continue (s : SignalPageStreamState)
| Yield (item : result IoError (list byte)) (s : SignalPageStreamState)
| Finish.

Definition page_pass (s : SignalPageStreamState) : Pass :=
  let '(mkPage records next prefix first suffix pending) := s in
  if negb (bool_decide (pending = [])) then
    let chunk_len := Z.to_nat (Z.min (zlen pending) REST_REPLAY_CHUNK_BYTES) in
    Yield (Ok (take chunk_len pending)) (mkPage records next prefix first suffix (drop chunk_len pending))
  else if negb prefix then Continue (mkPage records next true first suffix page_prefix)
  else
    match records with
    | record :: records =>
      match record_json record with
      | Err e => Yield (Err (mkIoError InvalidData e)) (mkPage records next prefix false true pending)
      | Ok serialized =>
        Continue (mkPage records next prefix false suffix
                    ((if first : bool then [] else as_bytes ",") ++ serialized))
      end
    | [] =>
      if negb suffix then Continue (mkPage [] next prefix first true (page_suffix next)) else Finish
    end.

(** The passes one poll needs: a prefix, every record and a suffix could each
    leave nothing pending. *)
Definition pass_bound (s : SignalPageStreamState) : nat :=
  length (pg_records s) + (if pg_prefix_sent s then 0 else 1) + (if pg_suffix_sent s then 0 else 1).
Fixpoint page_poll (fuel : nat) (s : SignalPageStreamState)
  : option (result IoError (list byte) * SignalPageStreamState) :=
  match page_pass s, fuel with
  | Finish, _ => None
  | Yield item s, _ => Some (item, s)
  | Continue s, S fuel => page_poll fuel s
  | Continue _, O => None
  end.

(** The items of [stream::unfold]; the polls it takes are bounded by the bytes
    to send. *)
Fixpoint page_items (fuel : nat) (s : SignalPageStreamState) : list (result IoError (list byte)) :=
  match fuel with
  | O => []
  | S fuel =>
    match page_poll (pass_bound s) s with
    | None => []
    | Some (item, s) => item :: page_items fuel s
    end
  end.

Definition signal_page_response (records : list SignalRecord) (next : SignalCursor)
  : SignalPageStreamState := mkPage records next false true false [].
End page.

(** ** Requests *)

Record SignalQuery := { sq_after : SignalCursor; sq_limit : option Z }.
Record EnrollAgentBody := { eb_agent_id : string; eb_display_name : option string }.
Record UpsertTenantBody := { ub_slug : string; ub_display_name : string }.
Record UpdateAgentBody := { pb_enabled : bool }.
Record StreamQuery := { st_after : SignalCursor; st_ticket : option string }.

(** The routes, with what axum extracted for the handler. *)
Inductive ApiRequest :=
| GetLive
| GetReady (schema : result PgStoreError ())
| GetSignals (q : SignalQuery)
| GetProjection
| GetStream (q : StreamQuery)
| PostStreamTicket
| PutTenant (body : UpsertTenantBody)
| GetAgents
| PostAgent (body : EnrollAgentBody)
| PatchAgent (agent_id : string) (body : UpdateAgentBody).

Inductive ApiResponse :=
| LiveStatus (status : string)
| SignalPage (page : SignalPageStreamState)
| ProjectionBody (p : option ProjectionRecord)
| AgentsBody (l : list AgentRecord)
| TenantBody (t : TenantRecord)
| AgentCreated (a : AgentRecord)
| AgentBody (a : AgentRecord)
| StreamTicketCreated (ticket : string) (expires_in_seconds : Z)
| UpgradeStream (tenant : TenantId) (cursor : SignalCursor) (until : Z).

(** The authorization header ([to_str]), what its verification meets, the
    database's clock, the system clock in seconds, and a fresh UUID. *)
Record Call := {
  cl_authorization : option (result () string);
  cl_meets : Meets;
  cl_now : Z;
  cl_unix_now : Z;
  cl_uuid : Z;
}.

Section api.
Context `{JwtApi, UuidApi, JsonApi} (collation : string → string → bool).

Record AppState := mkApp {
  ap_store : Db;
  ap_auth : OidcVerifier;
  ap_admin_role : string;
  ap_batch_size : Z;
  ap_batch_bytes : Z;
  ap_stream_slots : Z;              (* permits left *)
}.
Definition with_store (s : AppState) (db : Db) : AppState :=
  mkApp db (ap_auth s) (ap_admin_role s) (ap_batch_size s) (ap_batch_bytes s) (ap_stream_slots s).
Definition with_auth (s : AppState) (v : OidcVerifier) : AppState :=
  mkApp (ap_store s) v (ap_admin_role s) (ap_batch_size s) (ap_batch_bytes s) (ap_stream_slots s).
Definition with_slots (s : AppState) (n : Z) : AppState :=
  mkApp (ap_store s) (ap_auth s) (ap_admin_role s) (ap_batch_size s) (ap_batch_bytes s) n.

Definition text_of_tenant (t : TenantId) : string := uuid_text (tenant_uuid t).

Definition authorization (c : Call) : result ApiError string :=
  value ← ok_or (cl_authorization c) (auth_error MissingBearer);
  map_err (λ _, auth_error InvalidBearer) value.

Definition authenticate (s : AppState) (c : Call) (required_role : option string)
  : result ApiError AuthenticatedPrincipal * AppState :=
  match authorization c with
  | Err e => (Err e, s)
  | Ok header =>
    let '(r, v, _) := match required_role with
      | Some role => verify_bearer_for_role (ap_auth s) header role (cl_meets c)
      | None => verify_bearer (ap_auth s) header (cl_meets c)
      end in
    (map_err auth_error r, with_auth s v)
  end.

Definition parse_stream_ticket (value : string) : result ApiError (TenantId * Z) :=
  parts ← ok_or (split_once "."%byte value) invalid_stream_ticket;
  tenant_id ← map_err (λ _, invalid_stream_ticket) (tenant_from_str parts.1);
  ticket_id ← map_err (λ _, invalid_stream_ticket) (uuid_parse parts.2);
  Ok (tenant_id, ticket_id).

(** An operation of the store on behalf of a principal. *)
Definition on_store {A} (s : AppState) (op : Db → result PgStoreError A * Db)
  : result ApiError A * AppState :=
  let '(r, db) := op (ap_store s) in (map_err store_error r, with_store s db).

Definition clamp (x lo hi : Z) : Z := if x <? lo then lo else if hi <? x then hi else x.

Definition signals (s : AppState) (c : Call) (q : SignalQuery) : result ApiError ApiResponse * AppState :=
  match authenticate s c None with
  | (Err e, s) => (Err e, s)
  | (Ok principal, s) =>
    let limit := clamp (default (ap_batch_size s) (sq_limit q)) 1 (ap_batch_size s) in
    (records ← map_err store_error (load_envelopes_after_bounded (ap_store s)
                 (Tenant (tenant_id_of principal)) (sq_after q) limit (ap_batch_bytes s));
     Ok (SignalPage (signal_page_response records
           (match last records with Some r => rec_cursor r | None => sq_after q end))), s)
  end.

Definition agents (s : AppState) (c : Call) : result ApiError ApiResponse * AppState :=
  match authenticate s c None with
  | (Err e, s) => (Err e, s)
  | (Ok p, s) =>
    (AgentsBody <$> map_err store_error (list_agents collation (ap_store s) (tenant_id_of p)), s)
  end.

Definition projection (s : AppState) (c : Call) : result ApiError ApiResponse * AppState :=
  match authenticate s c None with
  | (Err e, s) => (Err e, s)
  | (Ok p, s) => (ProjectionBody <$> map_err store_error (load_projection (ap_store s) (tenant_id_of p)), s)
  end.

Definition upsert_tenant_handler (s : AppState) (c : Call) (body : UpsertTenantBody)
  : result ApiError ApiResponse * AppState :=
  match authenticate s c (Some (ap_admin_role s)) with
  | (Err e, s) => (Err e, s)
  | (Ok p, s) =>
    if is_empty (trim (ub_slug body)) || is_empty (trim (ub_display_name body))
    then (Err (bad_request "tenant slug and display_name must not be empty"), s)
    else
      let '(r, s) := on_store s (λ db, upsert_tenant_as text_of_tenant db (cl_now c) (tenant_id_of p)
                       (ub_slug body) (ub_display_name body) (subject p)) in
      (TenantBody <$> r, s)
  end.

Definition enroll_agent_handler (s : AppState) (c : Call) (body : EnrollAgentBody)
  : result ApiError ApiResponse * AppState :=
  match authenticate s c (Some (ap_admin_role s)) with
  | (Err e, s) => (Err e, s)
  | (Ok p, s) =>
    match agent_id_new (eb_agent_id body) with
    | Err e => (Err (bad_request (id_error_text e)), s)
    | Ok agent_id =>
      let '(r, s) := on_store s (λ db, enroll_agent_as db (cl_now c) (tenant_id_of p) agent_id
                       (eb_display_name body) (subject p)) in
      (AgentCreated <$> r, s)
    end
  end.

Definition update_agent (s : AppState) (c : Call) (agent_id : string) (body : UpdateAgentBody)
  : result ApiError ApiResponse * AppState :=
  match authenticate s c (Some (ap_admin_role s)) with
  | (Err e, s) => (Err e, s)
  | (Ok p, s) =>
    match agent_id_new agent_id with
    | Err e => (Err (bad_request (id_error_text e)), s)
    | Ok agent_id =>
      let '(r, s) := on_store s (λ db, set_agent_enabled_as db (cl_now c) (tenant_id_of p) agent_id
                       (pb_enabled body) (subject p)) in
      (found ← r;
       record ← ok_or found
         (mkApiError 404 "agent_not_found" "the agent does not exist in this tenant");
       Ok (AgentBody record), s)
    end
  end.

(** Who the stream is for and until when, from its ticket or its token. *)
Definition stream_grant (s : AppState) (c : Call) (q : StreamQuery)
  : result ApiError (TenantId * Z) * AppState :=
  match st_ticket q with
  | Some ticket =>
    match parse_stream_ticket ticket with
    | Err e => (Err e, s)
    | Ok (tenant_id, ticket_id) =>
      let '(r, s) := on_store s (λ db, consume_stream_ticket db (cl_now c) tenant_id ticket_id) in
      (found ← r; grant ← ok_or found invalid_stream_ticket;
       Ok (tenant_id, authorized_until_unix grant), s)
    end
  | None =>
    let '(r, s) := authenticate s c None in
    (p ← r; Ok (tenant_id_of p, authorized_until p), s)
  end.

(** The permit is given back when the request fails. *)
Definition stream (s : AppState) (c : Call) (q : StreamQuery) : result ApiError ApiResponse * AppState :=
  if ap_stream_slots s <=? 0
  then (Err (mkApiError 503 "stream_capacity_reached"
               "stream connection capacity is temporarily exhausted"), s)
  else
    match stream_grant s c q with
    | (Err e, s) => (Err e, s)
    | (Ok (tenant_id, until), s) =>
      if until <=? cl_unix_now c then (Err (auth_error (InvalidToken "access token expired")), s)
      else (Ok (UpgradeStream tenant_id (st_after q) until), with_slots s (ap_stream_slots s - 1))
    end.

Definition stream_ticket (s : AppState) (c : Call) : result ApiError ApiResponse * AppState :=
  match authenticate s c None with
  | (Err e, s) => (Err e, s)
  | (Ok p, s) =>
    let '(r, s) := on_store s (λ db, create_stream_ticket db (cl_now c) (cl_uuid c) (tenant_id_of p)
                     (subject p) (authorized_until p) STREAM_TICKET_TTL) in
    (ticket_id ← r;
     Ok (StreamTicketCreated (text_of_tenant (tenant_id_of p) +:+ "." +:+ uuid_text ticket_id)
           (Z.min (STREAM_TICKET_TTL `div` secs) (sat_sub (authorized_until p) (cl_unix_now c)))), s)
  end.

(** [router] *)
Definition handle (s : AppState) (c : Call) (r : ApiRequest) : result ApiError ApiResponse * AppState :=
  match r with
  | GetLive => (Ok (LiveStatus "ok"), s)
  | GetReady schema =>
    (match schema with Ok _ => Ok (LiveStatus "ready") | Err _ => Err service_unavailable end, s)
  | GetSignals q => signals s c q
  | GetProjection => projection s c
  | GetStream q => stream s c q
  | PostStreamTicket => stream_ticket s c
  | PutTenant body => upsert_tenant_handler s c body
  | GetAgents => agents s c
  | PostAgent body => enroll_agent_handler s c body
  | PatchAgent agent_id body => update_agent s c agent_id body
  end.
End api.

(** ** The body of a replay is one document *)

(** [d1,d2,...]; a comma first unless [first]. *)
Fixpoint comma_separated (first : bool) (docs : list (list byte)) : list byte :=
  match docs with
  | [] => []
  | d :: docs => ((if first then [] else as_bytes ",") ++ d) ++ comma_separated false docs
  end.

Section page_proofs.
Context (record_json : SignalRecord → result string (list byte)).

Definition page_rest (s : SignalPageStreamState) (docs : list (list byte)) : list byte :=
  pg_pending s ++ (if pg_prefix_sent s then [] else page_prefix) ++
  comma_separated (pg_first_record s) docs ++
  (if pg_suffix_sent s then [] else page_suffix (pg_next_cursor s)).

Definition serialises (s : SignalPageStreamState) (docs : list (list byte)) : Prop :=
  try_map record_json (pg_records s) = Ok docs ∧ (pg_prefix_sent s = false → pg_pending s = []).

Lemma page_poll_pending fuel s docs : pg_pending s ≠ [] → serialises s docs →
  ∃ chunk s' docs', page_poll record_json fuel s = Some (Ok chunk, s') ∧
    0 < zlen chunk ≤ 65536 ∧ page_rest s docs = chunk ++ page_rest s' docs' ∧ serialises s' docs'.
Proof.
  destruct s as [records next prefix first suffix pending]. simpl. intros Hne [Hd Hp].
  assert (page_pass record_json (mkPage records next prefix first suffix pending) =
    let n := Z.to_nat (Z.min (zlen pending) REST_REPLAY_CHUNK_BYTES) in
    Yield (Ok (take n pending)) (mkPage records next prefix first suffix (drop n pending))) as Hpass
    by (simpl; by rewrite bool_decide_eq_false_2).
  set (n := Z.to_nat _) in Hpass. exists (take n pending), (mkPage records next prefix first suffix (drop n pending)), docs.
  assert (0 < zlen (take n pending) ≤ 65536) as Hlen.
  { unfold n, zlen. rewrite length_take. destruct pending; [done|].
    unfold REST_REPLAY_CHUNK_BYTES, zlen. simpl. lia. }
  split_and!; try lia.
  - destruct fuel; cbn [page_poll]; by rewrite Hpass.
  - unfold page_rest. simpl. by rewrite (app_assoc (take _ _)), take_drop.
  - split; [done|]. simpl. intros Hf. by apply Hp in Hf.
Qed.

(** A poll takes the next chunk of what is left. *)
Lemma page_poll_spec fuel : ∀ s docs, (pass_bound s ≤ fuel)%nat → serialises s docs →
  (page_rest s docs = [] ∧ page_poll record_json fuel s = None) ∨
  ∃ chunk s' docs', page_poll record_json fuel s = Some (Ok chunk, s') ∧
    0 < zlen chunk ≤ 65536 ∧ page_rest s docs = chunk ++ page_rest s' docs' ∧ serialises s' docs'.
Proof.
  induction fuel as [|fuel IH]; intros s docs Hb Hs;
    (destruct (decide (pg_pending s = [])) as [He|Hne]; [|right; by apply page_poll_pending]);
    destruct s as [records next prefix first suffix pending], Hs as [Hd Hp];
    unfold pass_bound in Hb; simpl in *; subst pending;
    rewrite bool_decide_eq_true_2 by done; simpl.
  - destruct prefix; [|simpl in *; lia]. destruct records as [|record records]; [|simpl in *; lia].
    destruct suffix; [|simpl in *; lia]. injection Hd as <-. by left.
  - destruct prefix; simpl.
    + destruct records as [|record records]; simpl in *.
      * injection Hd as <-. destruct suffix; simpl; [by left|].
        specialize (IH (mkPage [] next true first true (page_suffix next)) []).
        destruct IH as [[Hr _]|IH]; [unfold pass_bound; simpl; lia|by split|done|right].
        unfold page_rest in IH. simpl in IH. rewrite app_nil_r in IH. exact IH.
      * apply bind_Ok in Hd as (doc & Hdoc & (ds & Hds & [= <-])%bind_Ok). rewrite Hdoc.
        specialize (IH (mkPage records next true false suffix ((if first then [] else as_bytes ",") ++ doc)) ds).
        unfold page_rest in *. simpl in *. rewrite <- !(app_assoc _ doc), <- (app_assoc _ (doc ++ _)).
        destruct IH as [[Hr Hn]|IH]; [unfold pass_bound; simpl; lia|by split| |].
        -- left. split; [|done]. by rewrite <- !app_assoc in Hr |- *.
        -- right. rewrite <- !app_assoc in IH |- *. exact IH.
    + specialize (IH (mkPage records next true first suffix page_prefix) docs).
      destruct IH as [[Hr _]|IH]; [unfold pass_bound; simpl; lia|by split|done|right; exact IH].
Qed.

Lemma page_items_spec fuel : ∀ s docs, serialises s docs → (length (page_rest s docs) < fuel)%nat →
  ∃ chunks, page_items record_json fuel s = Ok <$> chunks ∧ mjoin chunks = page_rest s docs ∧
    Forall (λ c, 0 < zlen c ≤ 65536) chunks.
Proof.
  induction fuel as [|fuel IH]; intros s docs Hs Hf; [lia|]. simpl.
  destruct (page_poll_spec (pass_bound s) s docs ltac:(lia) Hs)
    as [[Hr ->]|(chunk & s' & docs' & -> & Hc & Hr & Hs')].
  - exists []. by rewrite Hr.
  - destruct (IH s' docs' Hs') as (chunks & Hi & Hj & Ha).
    { rewrite Hr, length_app in Hf. unfold zlen in Hc. lia. }
    exists (chunk :: chunks). split_and!; [by rewrite Hi|by rewrite Hr; simpl; rewrite Hj|by constructor].
Qed.

(** C9: the streamed body of a replay, put together, is exactly the document
    with the signals and the next cursor, in chunks that are never empty and
    never longer than 64 KiB, and the stream ends. *)
Theorem signal_page_exact records next docs fuel :
  try_map record_json records = Ok docs →
  let document := page_prefix ++ comma_separated true docs ++ page_suffix next in
  (length document < fuel)%nat →
  ∃ chunks, page_items record_json fuel (signal_page_response records next) = Ok <$> chunks ∧
    mjoin chunks = document ∧ Forall (λ c, 0 < zlen c ≤ 65536) chunks.
Proof.
  intros Hd document Hf. apply (page_items_spec fuel (signal_page_response records next) docs); [by split|].
  exact Hf.
Qed.
End page_proofs.

Lemma signal_page_exact_witness :
  ∃ chunks, page_items (λ _, Ok (as_bytes "{}")) 100
      (signal_page_response [mkSignalRecord 4 DemoJson.env; mkSignalRecord 9 DemoJson.env2] 9) = Ok <$> chunks ∧
    mjoin chunks = page_prefix ++ as_bytes "{},{}" ++ page_suffix 9.
Proof.
  destruct (signal_page_exact (λ _, Ok (as_bytes "{}"))
    [mkSignalRecord 4 DemoJson.env; mkSignalRecord 9 DemoJson.env2] 9 [as_bytes "{}"; as_bytes "{}"] 100
    eq_refl ltac:(apply Nat.ltb_lt; vm_refl)) as (chunks & Hi & Hj & _).
  exists chunks. split; [exact Hi|exact Hj].
Defined.

(** ** What a request does

    The contract of the plane: for each request, who may make it, what it
    changes in the store and what it answers, on the rows of the store. *)

Section refinement.
Context `{JwtApi, UuidApi, JsonApi} (collation : string → string → bool) `{!CollationLaws collation}.

(** The principal a call was verified for, with a role or without. *)
Definition verified (s : AppState) (c : Call) (role : option string) (p : AuthenticatedPrincipal) : Prop :=
  ∃ header v requests, cl_authorization c = Some (Ok header) ∧
    match role with
    | Some role => verify_bearer_for_role (ap_auth s) header role (cl_meets c) = (Ok p, v, requests)
    | None => verify_bearer (ap_auth s) header (cl_meets c) = (Ok p, v, requests)
    end.
(** Why a call is not. *)
Definition denied (s : AppState) (c : Call) (role : option string) (e : ApiError) : Prop :=
  match cl_authorization c with
  | None => e = auth_error MissingBearer
  | Some (Err _) => e = auth_error InvalidBearer
  | Some (Ok header) => ∃ reason v requests, e = auth_error reason ∧
    match role with
    | Some role => verify_bearer_for_role (ap_auth s) header role (cl_meets c) = (Err reason, v, requests)
    | None => verify_bearer (ap_auth s) header (cl_meets c) = (Err reason, v, requests)
    end
  end.

(** The server afterwards: its store and its free slots; the rest, up to the
    verifier's cache, is as before. *)
Definition now_has (s s' : AppState) (db : Db) (slots : Z) : Prop :=
  ap_store s' = db ∧ ap_stream_slots s' = slots ∧ ap_admin_role s' = ap_admin_role s ∧
  ap_batch_size s' = ap_batch_size s ∧ ap_batch_bytes s' = ap_batch_bytes s.
Definition unchanged (s s' : AppState) : Prop := now_has s s' (ap_store s) (ap_stream_slots s).

(** *** What is read *)

(** What is shown of an event, or that it cannot be shown. *)
Definition signal_shown (t : TenantId) (row : EventRow) (rec : SignalRecord) : Prop :=
  let env := rec_envelope rec in
  rec_cursor rec = e_cursor row ∧ event_uuid (event_id env) = e_event_id row ∧ scope env = Tenant t ∧ e_tenant row = t ∧
  agent_id_new (agent_str (e_agent row)) = Ok (agent_id env) ∧ (in_u64 (e_sequence row) → sequence env = e_sequence row) ∧
  (in_u64 (e_received_at row) → received_at_unix_nano env = e_received_at row) ∧ signal_of_value (e_payload row) = Ok (payload env).
Definition signal_corrupt (row : EventRow) : Prop :=
  (∃ e, agent_id_new (agent_str (e_agent row)) = Err e) ∨ ¬ in_u64 (e_sequence row) ∨ ¬ in_u64 (e_received_at row) ∨
  ∃ e, signal_of_value (e_payload row) = Err e.
(** The rows of a page: the tenant's after the cursor, in order, at most
    [limit] of them, and within the bytes unless there is only one. *)
Definition page_rows (db : Db) (t : TenantId) (after limit budget : Z) : list EventRow :=
  bounded_prefix (Z.min budget (64 * 1024 * 1024)) (take (Z.to_nat (Z.min limit 1000)) (tenant_rows db t after)).

Definition signals_answer (s : AppState) (t : TenantId) (q : SignalQuery) (resp : result ApiError ApiResponse) : Prop :=
  let limit := Z.max 1 (Z.min (default (ap_batch_size s) (sq_limit q)) (ap_batch_size s)) in
  let rows := page_rows (ap_store s) t (sq_after q) limit (ap_batch_bytes s) in
  match resp with
  | Ok (SignalPage page) => enabled (ap_store s) t ∧ sq_after q ≤ i64_max ∧ ∃ records, Forall2 (signal_shown t) rows records ∧
      page = mkPage records (last_cursor (sq_after q) rows) false true false []
  | Err e => ∃ reason, e = store_error reason ∧
      (not_enabled (ap_store s) t reason ∨ i64_max < sq_after q ∨ Exists signal_corrupt rows)
  | _ => False
  end.

Definition projection_answer (db : Db) (t : TenantId) (resp : result ApiError ApiResponse) : Prop :=
  match resp with
  | Ok (ProjectionBody shown) => enabled db t ∧ shown = (λ row,
      {| pr_tenant_id := t; pr_last_cursor := p_last_cursor row; pr_projection := p_projection row |}) <$> projections db !! t
  | Err e => ∃ reason, e = store_error reason ∧ (not_enabled db t reason ∨ ∃ row, projections db !! t = Some row ∧ p_last_cursor row < 0)
  | _ => False
  end.

Definition agents_answer (db : Db) (t : TenantId) (resp : result ApiError ApiResponse) : Prop :=
  match resp with
  | Ok (AgentsBody shown) => enabled db t ∧ ∃ rows,
      (∀ a row, (a, row) ∈ rows ↔ agents_t db !! (t, a) = Some row) ∧ NoDup rows.*1 ∧ StronglySorted (agent_before collation) rows ∧
      Forall2 (λ ar, agent_shown t ar.1 ar.2) rows shown
  | Err e => ∃ reason, e = store_error reason ∧ (not_enabled db t reason ∨ ∃ a row, agents_t db !! (t, a) = Some row ∧ agent_corrupt a row)
  | _ => False
  end.

(** *** What is changed *)

(** A request that only callers with the role may make. *)
Definition for_caller (s : AppState) (c : Call) (role : option string) (resp : result ApiError ApiResponse) (s' : AppState)
    (P : AuthenticatedPrincipal → Prop) : Prop :=
  (∃ e, denied s c role e ∧ resp = Err e ∧ unchanged s s') ∨ ∃ p, verified s c role p ∧ P p.

(** An operation of the store with its contract, and the answer it gets. *)
Definition operates {A} (s s' : AppState) (contract : result PgStoreError A * Db → Prop)
    (resp : result ApiError ApiResponse) (answer : A → result ApiError ApiResponse) : Prop :=
  ∃ out, contract out ∧ now_has s s' out.2 (ap_stream_slots s) ∧
    resp = match out.1 with Ok a => answer a | Err e => Err (store_error e) end.

(** A ticket's text. *)
Definition names_ticket (ticket : string) (t : TenantId) (k : Z) : Prop :=
  ∃ a b, split_once "."%byte ticket = Some (a, b) ∧ tenant_from_str a = Ok t ∧ uuid_parse b = Ok k.

(** A stream is opened until the authorisation ends, and takes a slot. *)
Definition opens (s : AppState) (c : Call) (q : StreamQuery) (t : TenantId) (until : Z) (db : Db)
    (resp : result ApiError ApiResponse) (s' : AppState) : Prop :=
  if until <=? cl_unix_now c
  then resp = Err (auth_error (InvalidToken "access token expired")) ∧ now_has s s' db (ap_stream_slots s)
  else resp = Ok (UpgradeStream t (st_after q) until) ∧ now_has s s' db (ap_stream_slots s - 1).

Definition stream_contract (s : AppState) (c : Call) (q : StreamQuery) (resp : result ApiError ApiResponse) (s' : AppState) : Prop :=
  if ap_stream_slots s <=? 0
  then unchanged s s' ∧ resp = Err (mkApiError 503 "stream_capacity_reached" "stream connection capacity is temporarily exhausted")
  else match st_ticket q with
  | None => for_caller s c None resp s' (λ p, opens s c q (tenant_id_of p) (authorized_until p) (ap_store s) resp s')
  | Some ticket =>
    ((∀ t k, ¬ names_ticket ticket t k) ∧ unchanged s s' ∧ resp = Err invalid_stream_ticket) ∨
    ∃ t k out, names_ticket ticket t k ∧ consume_ticket_contract (ap_store s) (cl_now c) t k out ∧
      match out.1 with
      | Ok (Some grant) => opens s c q t (authorized_until_unix grant) out.2 resp s'
      | Ok None => now_has s s' out.2 (ap_stream_slots s) ∧ resp = Err invalid_stream_ticket
      | Err e => now_has s s' out.2 (ap_stream_slots s) ∧ resp = Err (store_error e)
      end
  end.

Definition request_contract (s : AppState) (c : Call) (r : ApiRequest) (resp : result ApiError ApiResponse) (s' : AppState) : Prop :=
  let db := ap_store s in
  match r with
  | GetLive => s' = s ∧ resp = Ok (LiveStatus "ok")
  | GetReady schema => s' = s ∧ resp = match schema with Ok _ => Ok (LiveStatus "ready") | Err _ => Err service_unavailable end
  | GetSignals q => for_caller s c None resp s' (λ p, unchanged s s' ∧ signals_answer s (tenant_id_of p) q resp)
  | GetProjection => for_caller s c None resp s' (λ p, unchanged s s' ∧ projection_answer db (tenant_id_of p) resp)
  | GetAgents => for_caller s c None resp s' (λ p, unchanged s s' ∧ agents_answer db (tenant_id_of p) resp)
  | GetStream q => stream_contract s c q resp s'
  | PostStreamTicket => for_caller s c None resp s' (λ p, operates s s'
      (create_ticket_contract db (cl_now c) (cl_uuid c) (tenant_id_of p) (subject p) (authorized_until p) (30 * 1000000000)) resp
      (λ k, Ok (StreamTicketCreated (uuid_text (tenant_uuid (tenant_id_of p)) +:+ "." +:+ uuid_text k)
                  (Z.min 30 (Z.max (authorized_until p - cl_unix_now c) 0)))))
  | PutTenant body => for_caller s c (Some (ap_admin_role s)) resp s' (λ p,
      if bool_decide (trim (ub_slug body) = EmptyString ∨ trim (ub_display_name body) = EmptyString)
      then unchanged s s' ∧ resp = Err (bad_request "tenant slug and display_name must not be empty")
      else operates s s' (upsert_contract text_of_tenant db (cl_now c) (tenant_id_of p) (ub_slug body) (ub_display_name body) (subject p))
             resp (λ t, Ok (TenantBody t)))
  | PostAgent body => for_caller s c (Some (ap_admin_role s)) resp s' (λ p,
      match agent_id_new (eb_agent_id body) with
      | Err e => unchanged s s' ∧ resp = Err (bad_request (id_error_text e))
      | Ok a => operates s s' (enroll_contract db (cl_now c) (tenant_id_of p) a (eb_display_name body) (subject p))
                  resp (λ rec, Ok (AgentCreated rec))
      end)
  | PatchAgent agent body => for_caller s c (Some (ap_admin_role s)) resp s' (λ p,
      match agent_id_new agent with
      | Err e => unchanged s s' ∧ resp = Err (bad_request (id_error_text e))
      | Ok a => operates s s' (set_enabled_contract db (cl_now c) (tenant_id_of p) a (pb_enabled body) (subject p)) resp
                  (λ found, match found with
                            | Some rec => Ok (AgentBody rec)
                            | None => Err (mkApiError 404 "agent_not_found" "the agent does not exist in this tenant")
                            end)
      end)
  end.

(** *** The handlers meet the contract *)

(** A handler that starts by authenticating its caller. *)
Lemma authenticated s c role (k : AuthenticatedPrincipal → AppState → result ApiError ApiResponse * AppState)
    (P : AuthenticatedPrincipal → result ApiError ApiResponse → AppState → Prop) :
  (∀ p s1, verified s c role p → now_has s s1 (ap_store s) (ap_stream_slots s) → P p (k p s1).1 (k p s1).2) →
  let out := match authenticate s c role with (Err e, s) => (Err e, s) | (Ok p, s) => k p s end in
  for_caller s c role out.1 out.2 (λ p, P p out.1 out.2).
Proof.
  intros Hk. cbv zeta. unfold for_caller, denied, authenticate, authorization.
  destruct (cl_authorization c) as [[header|e]|] eqn:Eh; cbn [ok_or mbind result_bind map_err fst snd];
    [|left; eexists; split; [reflexivity|]; split; [reflexivity|]; by split_and!..].
  destruct (match role with Some _ => _ | None => _ end) as [[[p|e] v] rq] eqn:Ev; cbn [map_err].
  - assert (verified s c role p) as Hv by (exists header, v, rq; split; [done|]; by destruct role).
    right. exists p. split; [done|]. by apply Hk.
  - left. exists (auth_error e). split; [exists e, v, rq; split; [done|]; by destruct role|]. split; [done|]. by split_and!.
Qed.

Lemma on_store_operates {A} s s1 (f : Db → result PgStoreError A * Db) (contract : result PgStoreError A * Db → Prop)
    (k : result ApiError A → result ApiError ApiResponse) (answer : A → result ApiError ApiResponse) :
  now_has s s1 (ap_store s) (ap_stream_slots s) → contract (f (ap_store s)) →
  (∀ x, k (map_err store_error x) = match x with Ok a => answer a | Err e => Err (store_error e) end) →
  let out := let '(x, s2) := on_store s1 f in (k x, s2) in operates s out.2 contract out.1 answer.
Proof.
  intros (N1 & N2 & N3 & N4 & N5) Hc Hk. unfold on_store. rewrite N1. destruct (f (ap_store s)) as [x db] eqn:E. cbn [fst snd].
  exists (x, db). split; [done|]. split; [by split_and!|]. apply Hk.
Qed.

Lemma signal_record_cases t row : 0 ≤ e_cursor row → e_tenant row = t →
  match signal_record_from_row t row with Ok rec => signal_shown t row rec | Err _ => signal_corrupt row end.
Proof.
  intros Hc Ht. unfold signal_record_from_row, cursor_from_row, from_pg_i64, from_pg_u64_text, signal_shown, signal_corrupt.
  rewrite (proj2 (Z.leb_le _ _)) by done. cbn [mbind result_bind].
  destruct (agent_id_new _) as [a|e] eqn:Ea; cbn [map_err mbind result_bind]; [|by eauto].
  destruct (parse_u64 (u64_to_string (e_sequence row))) as [sq|] eqn:Es; cbn [ok_or mbind result_bind];
    [|right; left; intros Hs%parse_u64_to_string; congruence].
  destruct (parse_u64 (u64_to_string (e_received_at row))) as [rc|] eqn:Er; cbn [ok_or mbind result_bind];
    [|right; right; left; intros Hs%parse_u64_to_string; congruence].
  destruct (signal_of_value (e_payload row)) as [pl|e] eqn:Ep; cbn [map_err mbind result_bind]; [|by eauto 10].
  cbn. split_and!; try done; intros Hs%parse_u64_to_string; congruence.
Qed.

Lemma try_map_cases {A B E} (f : A → result E B) (P : A → B → Prop) (Q : A → Prop) l :
  (∀ x, x ∈ l → match f x with Ok y => P x y | Err _ => Q x end) →
  match try_map f l with Ok ys => Forall2 P l ys | Err _ => Exists Q l end.
Proof.
  induction l as [|x l IH]; intros Hf; [constructor|]. cbn [try_map]. pose proof (Hf x ltac:(by left)) as Hx.
  destruct (f x); cbn [mbind result_bind]; [|by left]. specialize (IH (λ y Hy, Hf y (list_elem_of_further _ _ _ Hy))).
  destruct (try_map f l); cbn [mbind result_bind]; [by constructor|by right].
Qed.

Lemma elem_of_page_rows db t after limit budget row : row ∈ page_rows db t after limit budget →
  row ∈ events db ∧ e_tenant row = t ∧ after < e_cursor row.
Proof.
  intros Hin. assert (row ∈ tenant_rows db t after) as [[??] ?]%list_elem_of_filter; [|done].
  eapply elem_of_prefix; [exact Hin|]. etransitivity; [apply bounded_prefix_prefix|apply prefix_take].
Qed.

Lemma last_shown t d rows records : Forall2 (signal_shown t) rows records →
  match last records with Some r => rec_cursor r | None => d end = last_cursor d rows.
Proof.
  intros Hf. revert d. induction Hf as [|row rec rows records Hr Hf IH]; intros d; [done|].
  rewrite last_cursor_cons, <- IH, last_cons. destruct Hr as (<- & _). by destruct (last records).
Qed.

Lemma signals_answered acc s t q : db_inv acc (ap_store s) → 1 ≤ ap_batch_size s →
  let limit := clamp (default (ap_batch_size s) (sq_limit q)) 1 (ap_batch_size s) in
  signals_answer s t q (records ← map_err store_error (load_envelopes_after_bounded (ap_store s) (Tenant t) (sq_after q) limit (ap_batch_bytes s));
     Ok (SignalPage (signal_page_response records (match last records with Some r => rec_cursor r | None => sq_after q end)))).
Proof.
  intros Hi Hb limit. unfold signals_answer. set (wanted := Z.max 1 _).
  assert (limit = wanted) as El by (unfold limit, wanted, clamp; case_match; [|case_match]; to_prop; lia). rewrite El.
  unfold load_envelopes_after_bounded, tenant_scope, to_pg_i64, bounded_load_limit, MAX_LOAD_LIMIT, bounded_replay_json_bytes, MAX_REPLAY_JSON_BYTES. cbn [mbind result_bind].
  destruct (Z.leb_spec (sq_after q) i64_max) as [Ha|Ha]; cbn [mbind result_bind map_err]; [|by eauto 10].
  destruct (require_enabled_cases (ap_store s) t) as [[He ->]|(e & He & ->)]; cbn [mbind result_bind map_err]; [|by eauto 10].
  destruct (row_bytes _ _ (inv_rows _ _ Hi)) as [_ Hpos].
  rewrite load_bounded_prefix; [|apply Hi|eapply Forall_impl; [exact Hpos|]; intros r Hr; simpl in *; lia|unfold wanted; lia].
  fold (page_rows (ap_store s) t (sq_after q) wanted (ap_batch_bytes s)). set (rows := page_rows _ _ _ _ _).
  pose proof (try_map_cases (signal_record_from_row t) (signal_shown t) signal_corrupt rows) as Hc.
  destruct (try_map (signal_record_from_row t) rows) as [records|e]; cbn [mbind result_bind map_err].
  - specialize (Hc (λ row Hr, signal_record_cases t row ltac:(apply elem_of_page_rows in Hr as (Hr & _); apply (inv_range _ _ Hi) in Hr; lia)
      ltac:(by apply elem_of_page_rows in Hr as (_ & Hr & _)))).
    split; [done|]. split; [done|]. exists records. split; [done|]. unfold signal_page_response. f_equal. by apply (last_shown t).
  - eexists. split; [done|]. right; right. apply Hc. intros row Hr. apply signal_record_cases;
      apply elem_of_page_rows in Hr as (Hr & Ht & _); [apply (inv_range _ _ Hi) in Hr; lia|done].
Qed.

Lemma projection_answered db t : projection_answer db t (ProjectionBody <$> map_err store_error (load_projection db t)).
Proof.
  unfold projection_answer, load_projection. destruct (require_enabled_cases db t) as [[He ->]|(e & He & ->)]; cbn [mbind result_bind map_err fmap result_fmap]; [|by eauto 10].
  destruct (projections db !! t) as [row|] eqn:E; [|done]. unfold from_pg_i64.
  destruct (Z.leb_spec 0 (p_last_cursor row)); cbn [mbind result_bind map_err fmap result_fmap]; [done|]. eexists. split; [done|]. right. by exists row.
Qed.

Lemma agents_answered db t : agents_answer db t (AgentsBody <$> map_err store_error (list_agents collation db t)).
Proof.
  unfold agents_answer, list_agents. destruct (require_enabled_cases db t) as [[He ->]|(e & He & ->)]; cbn [mbind result_bind map_err fmap result_fmap]; [|by eauto 10].
  fold (agents_in_order collation db t).
  assert (∀ a row, (a, row) ∈ agents_in_order collation db t ↔ agents_t db !! (t, a) = Some row) as Hin
    by (intros a row; rewrite agents_in_order_perm; apply elem_of_tenant_agents).
  pose proof (try_map_cases (λ p, agent_record_from_row t p.1 p.2) (λ p, agent_shown t p.1 p.2) (λ p, agent_corrupt p.1 p.2) (agents_in_order collation db t)) as Hc.
  assert (∀ p, p ∈ agents_in_order collation db t → match agent_record_from_row t p.1 p.2 with Ok rec => agent_shown t p.1 p.2 rec | Err _ => agent_corrupt p.1 p.2 end) as Hp.
  { intros p _. pose proof (agent_record_cases t p.1 p.2) as Hr. destruct (agent_record_from_row t p.1 p.2); [done|apply Hr]. }
  specialize (Hc Hp). destruct (try_map _ _) as [l|e]; cbn [map_err fmap result_fmap].
  - split; [done|]. exists (agents_in_order collation db t). split; [done|]. split; [|split; [|done]].
    + rewrite agents_in_order_perm. apply NoDup_tenant_agents.
    + by apply agents_in_order_sorted.
  - eexists. split; [done|]. right. apply Exists_exists in Hc as ([a row] & Hr%Hin & Hc). by exists a, row.
Qed.

Lemma names_parsed ticket : match parse_stream_ticket ticket with
  | Ok (t, k) => names_ticket ticket t k
  | Err e => e = invalid_stream_ticket ∧ ∀ t k, ¬ names_ticket ticket t k
  end.
Proof.
  unfold parse_stream_ticket, names_ticket. destruct (split_once "."%byte ticket) as [[a b]|]; cbn [ok_or mbind result_bind fst snd].
  2: { split; [done|]. by intros t k (? & ? & [=] & _). }
  destruct (tenant_from_str a) as [t|] eqn:Ea; cbn [map_err mbind result_bind].
  2: { split; [done|]. intros t k (? & ? & [= <- <-] & ? & _). congruence. }
  destruct (uuid_parse b) as [k|] eqn:Eb; cbn [map_err mbind result_bind]; [by exists a, b|].
  split; [done|]. intros t' k (? & ? & [= <- <-] & _ & ?). congruence.
Qed.

Lemma stream_meets s c q : stream_contract s c q (stream s c q).1 (stream s c q).2.
Proof.
  unfold stream_contract, stream. destruct (ap_stream_slots s <=? 0); [by split_and!|]. unfold stream_grant.
  destruct (st_ticket q) as [ticket|].
  - pose proof (names_parsed ticket) as Hn. destruct (parse_stream_ticket ticket) as [[t k]|e].
    + right. pose proof (consume_ticket_spec (ap_store s) (cl_now c) t k) as Hc. exists t, k, (consume_stream_ticket (ap_store s) (cl_now c) t k).
      split; [done|]. split; [done|]. unfold on_store. destruct (consume_stream_ticket _ _ t k) as [[[g|]|e] db]; cbn [fst snd map_err mbind result_bind ok_or].
      * unfold opens. case_match; by split_and!.
      * by split_and!.
      * by split_and!.
    + left. destruct Hn as [-> Hn]. by split_and!.
  - pose proof (authenticated s c None (λ p s1, if authorized_until p <=? cl_unix_now c
        then (Err (auth_error (InvalidToken "access token expired")), s1)
        else (Ok (UpgradeStream (tenant_id_of p) (st_after q) (authorized_until p)), with_slots s1 (ap_stream_slots s1 - 1)))
      (λ p, opens s c q (tenant_id_of p) (authorized_until p) (ap_store s))) as Ha.
    cbv zeta in Ha. destruct (authenticate s c None) as [[p|e] s1]; cbn [mbind result_bind] in *; apply Ha; clear Ha.
    all: intros p' s2 _ (N1 & N2 & N3 & N4 & N5); unfold opens; case_match; cbn [fst snd]; split; try done; unfold now_has; simpl; split_and!; try done; lia.
Qed.

(** C8: What the client plane does, on any history of its store.  A reader's
    request changes nothing and answers exactly with the rows of the caller's
    tenant: a page of its events after the cursor, in order, within the
    configured limits, with the cursor of the last; its projection; or all its
    agents in order.  An administrative request needs a token with the
    administrator's role, and does exactly what its body asks, to that tenant,
    with an audit row in the caller's name; anything refused changes nothing.
    A ticket is issued for the caller's own subject and expiry, and a stream
    is opened for a verified caller, or by a live ticket that it consumes,
    until that authorisation ends, while there are slots.  Whoever is not
    verified is told so and changes nothing. *)
Theorem api_refines_store ops s c r : ap_store s = run text_of_tenant ops → 1 ≤ ap_batch_size s →
  request_contract s c r (handle collation s c r).1 (handle collation s c r).2.
Proof.
  intros Hs Hb. pose proof (run_inv text_of_tenant ops) as Hi. rewrite <- Hs in Hi.
  destruct r as [|schema|q| |q| |body| |body|agent body]; cbn [handle request_contract]; [by split|by destruct schema| | |by apply stream_meets|..].
  - apply (authenticated s c None _ (λ p resp s', unchanged s s' ∧ signals_answer s (tenant_id_of p) q resp)).
    intros p s1 _ (N1 & N2 & N3 & N4 & N5). cbn [fst snd]. split; [by split_and!|]. rewrite N1, N4, N5. by eapply signals_answered.
  - apply (authenticated s c None _ (λ p resp s', unchanged s s' ∧ projection_answer (ap_store s) (tenant_id_of p) resp)).
    intros p s1 _ Hn. cbn [fst snd]. split; [done|]. rewrite (proj1 Hn). apply projection_answered.
  - apply (authenticated s c None _ (λ p resp s', operates s s' (create_ticket_contract (ap_store s) (cl_now c) (cl_uuid c) (tenant_id_of p) (subject p)
      (authorized_until p) (30 * 1000000000)) resp _)).
    intros p s1 _ Hn. apply (on_store_operates s s1); [done|by apply create_ticket_spec|]. by intros [k|e]; [unfold sat_sub|].
  - apply (authenticated s c (Some (ap_admin_role s)) _ (λ p resp s', if bool_decide (trim (ub_slug body) = EmptyString ∨ trim (ub_display_name body) = EmptyString)
      then unchanged s s' ∧ resp = Err (bad_request "tenant slug and display_name must not be empty")
      else operates s s' (upsert_contract text_of_tenant (ap_store s) (cl_now c) (tenant_id_of p) (ub_slug body) (ub_display_name body) (subject p)) resp (λ t, Ok (TenantBody t)))).
    intros p s1 _ Hn. unfold is_empty. rewrite <- bool_decide_or. case_bool_decide; [by split|].
    apply (on_store_operates s s1); [done|apply upsert_spec|]. by intros [t|e].
  - apply (authenticated s c None _ (λ p resp s', unchanged s s' ∧ agents_answer (ap_store s) (tenant_id_of p) resp)).
    intros p s1 _ Hn. cbn [fst snd]. split; [done|]. rewrite (proj1 Hn). apply agents_answered.
  - apply (authenticated s c (Some (ap_admin_role s)) _ (λ p resp s', match agent_id_new (eb_agent_id body) with
      | Err e => unchanged s s' ∧ resp = Err (bad_request (id_error_text e))
      | Ok a => operates s s' (enroll_contract (ap_store s) (cl_now c) (tenant_id_of p) a (eb_display_name body) (subject p)) resp (λ rec, Ok (AgentCreated rec)) end)).
    intros p s1 _ Hn. destruct (agent_id_new _) as [a|e]; [|by split]. apply (on_store_operates s s1); [done|apply (enroll_spec text_of_tenant)|]. by intros [t|e].
  - apply (authenticated s c (Some (ap_admin_role s)) _ (λ p resp s', match agent_id_new agent with
      | Err e => unchanged s s' ∧ resp = Err (bad_request (id_error_text e))
      | Ok a => operates s s' (set_enabled_contract (ap_store s) (cl_now c) (tenant_id_of p) a (pb_enabled body) (subject p)) resp
                  (λ found, match found with Some rec => Ok (AgentBody rec) | None => Err (mkApiError 404 "agent_not_found" "the agent does not exist in this tenant") end) end)).
    intros p s1 _ Hn. destruct (agent_id_new _) as [a|e]; [|by split]. apply (on_store_operates s s1); [done|apply set_enabled_spec|]. by intros [[t|]|e].
Qed.
End refinement.

(** *** An administrator enrols an agent *)

Section demo.
Import DemoJson DemoAuth.
#[local] Transparent gmap_empty.

Definition demo_app : AppState :=
  mkApp (run DemoJson.text history) verifier "telemetry-admin" 256 (16 * 1024 * 1024) 8.
Definition demo_call : Call :=
  {| cl_authorization := Some (Ok "Bearer token"); cl_meets := at_ 6000000000 205; cl_now := 9000;
     cl_unix_now := 205; cl_uuid := 77 |}.
Definition demo_post : ApiRequest := PostAgent {| eb_agent_id := " edge-2 "; eb_display_name := None |}.

Lemma api_refines_store_witness :
  request_contract String.leb demo_app demo_call demo_post
    (handle String.leb demo_app demo_call demo_post).1 (handle String.leb demo_app demo_call demo_post).2 ∧
  agents_t (ap_store (handle String.leb demo_app demo_call demo_post).2) !! (tenant, mkAgentId "edge-2")
  ≠ agents_t (ap_store demo_app) !! (tenant, mkAgentId "edge-2").
Proof.
  split; [|vm_compute; discriminate]. apply (api_refines_store String.leb history demo_app demo_call demo_post); [vm_refl|].
  apply Z.leb_le. reflexivity.
Defined.
End demo.
