(* ===== verification/ApiStream.v ===== *)
(** * The clients' access plane (skid-monitor-server, api.rs): the live stream

    [stream_signals] as a machine: a turn of its outer loop loads a page after
    the cursor, sends its records one by one and, when there was nothing to
    send, waits for a notification, the poll timer, the client or the expiry.
    What each [select!] takes is part of the turn.  [stream_exact] relates what
    the client received to what the store had accepted. *)

From stdpp Require Import sorting.
From S2P Require Import Prelude RustStr Otlp Core PgTypes PgStore PgInvariant PgReplay PgTheorems PgExamples.

(** Messages to the client; a record with the clock read before it is sent. *)
Inductive Sent :=
| SentRecord (at_ : Z) (r : SignalRecord)
| SentClose
| SentPong.

(** [SentRecord] only: what the client can read. *)
Definition received (l : list Sent) : list SignalRecord :=
  omap (λ m, match m with SentRecord _ r => Some r | _ => None end) l.

(** The permit of a replay slot. *)
Inductive PermitOutcome := PermitGranted | PermitClosed | ExpiredBeforePermit.
(** The select around one send. *)
Inductive SendOutcome := Delivered | SendFailed | ExpiredBeforeSent | SlowClient.
(** The select of the waiting loop. *)
Inductive WaitEvent :=
| Notified (t : TenantId)
| Lagged
| NotificationsClosed
| PollTick
| AuthorizationExpired
| ClientGone                        (* a close frame, the end or an error *)
| ClientPing (answered : bool)
| ClientMessage.

Record Turn `{JsonApi} := {
  tn_unix_now : Z;
  tn_permit : PermitOutcome;
  tn_store : Db;
  tn_sends : nat → Z * SendOutcome;  (* the clock and the outcome of each send *)
  tn_waits : list WaitEvent;
}.

(** How a piece of the loop ends. *)
Inductive Flow (A : Type) := Proceed (a : A) | ReturnStream.
Arguments Proceed {A} a.
Arguments ReturnStream {A}.

Section stream.
Context `{JsonApi} (serializable : SignalRecord → bool).
Context (tenant_id : TenantId) (authorized_until : Z) (batch_size batch_bytes : Z).

(** The [for] over the records of a page: what is sent, and the cursor. *)
Fixpoint send_records (records : list SignalRecord) (sends : nat → Z * SendOutcome) (i : nat)
    (cursor : SignalCursor) : list Sent * Flow SignalCursor :=
  match records with
  | [] => ([], Proceed cursor)
  | record :: records =>
    let '(now, outcome) := sends i in
    if authorized_until <=? now then ([SentClose], ReturnStream)
    else if negb (serializable record) then ([], ReturnStream)
    else
      match outcome with
      | Delivered =>
        let '(sent, flow) := send_records records sends (S i) (rec_cursor record) in
        (SentRecord now record :: sent, flow)
      | SendFailed | ExpiredBeforeSent | SlowClient => ([], ReturnStream)
      end
  end.

(** The inner loop: [None] while it is still waiting. *)
Fixpoint wait_loop (events : list WaitEvent) : list Sent * option (Flow ()) :=
  match events with
  | [] => ([], None)
  | e :: events =>
    match e with
    | Notified changed =>
      if negb (bool_decide (changed = tenant_id)) then wait_loop events else ([], Some (Proceed ()))
    | Lagged | PollTick => ([], Some (Proceed ()))
    | NotificationsClosed | ClientGone => ([], Some ReturnStream)
    | AuthorizationExpired => ([SentClose], Some ReturnStream)
    | ClientPing answered =>
      if answered then let '(sent, flow) := wait_loop events in (SentPong :: sent, flow)
      else ([], Some ReturnStream)
    | ClientMessage => wait_loop events
    end
  end.

(** One turn of the outer loop. *)
Definition stream_turn (cursor : SignalCursor) (tn : Turn) : list Sent * option (Flow SignalCursor) :=
  if authorized_until <=? tn_unix_now tn then ([SentClose], Some ReturnStream)
  else
    match tn_permit tn with
    | PermitClosed => ([], Some ReturnStream)
    | ExpiredBeforePermit => ([SentClose], Some ReturnStream)
    | PermitGranted =>
      match load_envelopes_after_bounded (tn_store tn) (Tenant tenant_id) cursor batch_size batch_bytes with
      | Err _ => ([], Some ReturnStream)
      | Ok records =>
        match send_records records (tn_sends tn) 0 cursor with
        | (sent, ReturnStream) => (sent, Some ReturnStream)
        | (sent, Proceed cursor) =>
          if negb (bool_decide (records = [])) then (sent, Some (Proceed cursor))
          else
            let '(waiting, flow) := wait_loop (tn_waits tn) in
            (sent ++ waiting,
             match flow with
             | Some (Proceed _) => Some (Proceed cursor)
             | Some ReturnStream => Some ReturnStream
             | None => None
             end)
        end
      end
    end.

(** The turns of one connection; [inr true] when it is waiting, [inr false]
    once it has returned. *)
Fixpoint stream_signals (cursor : SignalCursor) (turns : list Turn)
  : list Sent * (SignalCursor + bool) :=
  match turns with
  | [] => ([], inl cursor)
  | tn :: turns =>
    match stream_turn cursor tn with
    | (sent, Some (Proceed cursor)) =>
      let '(more, state) := stream_signals cursor turns in (sent ++ more, state)
    | (sent, Some ReturnStream) => (sent, inr false)
    | (sent, None) => (sent, inr true)
    end
  end.
End stream.

(** ** The client receives what was accepted, in order and without gaps *)

Section exact.
Context `{JsonApi} (text : TenantId → string) (serializable : SignalRecord → bool).
Context (t : TenantId) (until batch_size batch_bytes : Z) (Hbatch : 0 < batch_size).
Context (ops : list StoreOp).

Abbreviation acc n := (accepted text (take n ops)).
Abbreviation faithful l := (Forall (λ ce : Z * SignalEnvelope, stores_faithfully ce.2) l).

(** A record is only sent before the authorisation expires. *)
Definition timely (m : Sent) : Prop :=
  match m with SentRecord at_ _ => at_ < until | _ => True end.
Definition end_cursor (c : SignalCursor) (page : list (Z * SignalEnvelope)) : SignalCursor :=
  match last page with Some ce => ce.1 | None => c end.

(** Each turn sees the store as it is after some of the operations, and never
    fewer than the turn before. *)
Fixpoint turns_of (seen : nat) (turns : list Turn) : Prop :=
  match turns with
  | [] => True
  | tn :: turns => ∃ n, (seen ≤ n)%nat ∧ tn_store tn = run text (take n ops) ∧ turns_of n turns
  end.

Lemma accepted_from_app a b db : accepted_from text db (a ++ b) =
  accepted_from text db a ++ accepted_from text (foldl (apply_op text) db a) b.
Proof. revert db. induction a as [|o a IH]; intros db; simpl; [done|]. by rewrite IH, app_assoc. Qed.

Lemma accepted_after_grows c m n : (m ≤ n)%nat →
  ∃ more, accepted_after t c (acc n) = accepted_after t c (acc m) ++ more.
Proof.
  intros Hmn. replace (take n ops) with (take m ops ++ drop m (take n ops)).
  - unfold accepted. rewrite accepted_from_app. unfold accepted_after. rewrite filter_app. eauto.
  - rewrite <- (take_drop m (take n ops)) at 2. rewrite take_take. by rewrite Nat.min_l.
Qed.

Lemma send_records_spec page sends : ∀ i c sent flow,
  send_records serializable until (record_of <$> page) sends i c = (sent, flow) →
  Forall timely sent ∧
  ∃ got rest, page = got ++ rest ∧ received sent = record_of <$> got ∧
    ∀ c', flow = Proceed c' → rest = [] ∧ c' = end_cursor c page.
Proof.
  induction page as [|ce page IH]; intros i c sent flow; [|rewrite fmap_cons; cbn [send_records]].
  { cbn. intros [= <- <-]. split; [constructor|]. exists [], []. split_and!; [done..|]. by intros c' [= <-]. }
  assert (∀ l, received l = [] → Forall timely l →
    (l, ReturnStream) = (sent, flow) →
    Forall timely sent ∧
    ∃ got rest, ce :: page = got ++ rest ∧ received sent = record_of <$> got ∧
      ∀ c', flow = Proceed c' → rest = [] ∧ c' = end_cursor c (ce :: page))
    as Hstop.
  { intros l Hl Hf [= <- <-]. split; [done|]. exists [], (ce :: page). split_and!; [done|by rewrite Hl|done]. }
  destruct (sends i) as [now outcome]. case_test; [apply Hstop; [done|by repeat constructor]|]. to_prop.
  case_test; [apply Hstop; [done|constructor]|].
  destruct outcome; [|apply Hstop; [done|constructor]..].
  destruct (send_records serializable until (record_of <$> page) sends (S i) (rec_cursor (record_of ce))) as [sent' flow'] eqn:Hr.
  intros [= <- <-]. apply IH in Hr as (Hf & got & rest & -> & Hg & Hc). split; [by constructor|].
  exists (ce :: got), rest. split_and!; [done|by simpl; rewrite Hg|].
  intros c' Hp. destruct (Hc c' Hp) as [-> ->]. split; [done|]. rewrite app_nil_r. unfold end_cursor.
  by destruct got as [|x got] using rev_ind; [|rewrite app_comm_cons, !last_snoc].
Qed.

Lemma wait_loop_received events : received (wait_loop t events).1 = [] ∧
  Forall timely (wait_loop t events).1.
Proof.
  induction events as [|e events IH]; [by split; [|constructor]|].
  destruct e; simpl; try done; try (by split; [|repeat constructor]).
  - case_bool_decide; simpl; [split; [done|constructor]|exact IH].
  - destruct answered; [|by split; [|constructor]]. destruct (wait_loop t events) as [w f]. simpl in *.
    split; [apply IH|constructor; [done|apply IH]].
Qed.

(** One turn: the records received continue the accepted events after the
    cursor; when it goes on, its cursor is the last of them; when it waits,
    there was nothing left. *)
Lemma stream_turn_spec c n tn sent flow :
  tn_store tn = run text (take n ops) → faithful (accepted_after t c (acc n)) → c ≤ i64_max →
  stream_turn serializable t until batch_size batch_bytes c tn = (sent, flow) →
  Forall timely sent ∧
  ∃ got rest, accepted_after t c (acc n) = got ++ rest ∧ received sent = record_of <$> got ∧
    (∀ c', flow = Some (Proceed c') → c' = end_cursor c got) ∧ (flow = None → got = [] ∧ rest = []).
Proof.
  intros Hst Hf Hc. unfold stream_turn. rewrite Hst.
  assert (∀ l f, received l = [] → Forall timely l → f = Some ReturnStream → (l, f) = (sent, flow) →
    Forall timely sent ∧
    ∃ got rest, accepted_after t c (acc n) = got ++ rest ∧ received sent = record_of <$> got ∧
      (∀ c', flow = Some (Proceed c') → c' = end_cursor c got) ∧ (flow = None → got = [] ∧ rest = []))
    as Hstop.
  { intros l f Hl Ht -> [= <- <-]. split; [done|]. exists [], (accepted_after t c (acc n)).
    split_and!; [done|by rewrite Hl|done|done]. }
  case_test; [apply Hstop; [done|by repeat constructor|done]|].
  destruct (tn_permit tn); [|apply Hstop; [done|by repeat constructor|done]..].
  destruct (require_enabled_tenant (run text (take n ops)) t) as [[]|e] eqn:Hen.
  2: { unfold load_envelopes_after_bounded, to_pg_i64. cbn [tenant_scope mbind result_bind].
       rewrite (proj2 (Z.leb_le c i64_max)) by done. cbn [mbind result_bind]. rewrite Hen.
       apply Hstop; [done|constructor|done]. }
  destruct (load_page (acc n) (run text (take n ops)) t c batch_size batch_bytes)
    as (page & rest & Heq & -> & _ & _ & Hprog); [apply run_inv|done..|lia|].
  destruct (send_records _ _ _ _ _ _) as [sent1 flow1] eqn:Hs.
  apply send_records_spec in Hs as (Ht & got & more & Hpage & Hg & Hcur).
  destruct flow1 as [c1|].
  - destruct (Hcur c1 eq_refl) as [-> ->]. rewrite app_nil_r in Hpage. subst got.
    case_bool_decide as Hnil; simpl.
    + apply fmap_nil_inv in Hnil. subst page. simpl in Hg.
      pose proof (wait_loop_received (tn_waits tn)) as [Hw Hwt].
      destruct (wait_loop t (tn_waits tn)) as [waiting wflow]. simpl in *. intros [= <- <-].
      split; [by apply Forall_app|]. exists [], rest. split_and!; [done| | |].
      * unfold received in *. by rewrite omap_app, Hg, Hw.
      * intros c'. destruct wflow as [[]|]; try done. by intros [= <-].
      * intros _. split; [done|]. by apply Hprog.
    + intros [= <- <-]. split; [done|]. exists page, rest. split_and!; try done. by intros c' [= <-].
  - intros [= <- <-]. split; [done|]. exists got, (more ++ rest). rewrite Heq, Hpage, app_assoc.
    by split_and!.
Qed.

Lemma stream_signals_spec turns : ∀ start seen sent state,
  turns_of seen turns → start ≤ i64_max →
  faithful (accepted_after t start (accepted text ops)) →
  stream_signals serializable t until batch_size batch_bytes start turns = (sent, state) →
  Forall timely sent ∧
  (∃ got rest, accepted_after t start (accepted text ops) = got ++ rest ∧
     received sent = record_of <$> got) ∧
  (state = inr true → ∃ tn n, tn ∈ turns ∧ (seen ≤ n)%nat ∧ tn_store tn = run text (take n ops) ∧
     received sent = record_of <$> accepted_after t start (acc n)).
Proof.
  induction turns as [|tn turns IH]; intros start seen sent state Htn Hs Hf;
    cbn [stream_signals].
  { intros [= <- <-]. split_and!; [constructor| |done]. by exists [], (accepted_after t start (accepted text ops)). }
  destruct Htn as (n & Hn & Hst & Htn).
  destruct (accepted_after_grows start n (length ops `max` n)) as [later Hl]; [lia|].
  rewrite (take_ge ops) in Hl by lia.
  destruct (stream_turn _ _ _ _ _ start tn) as [sent1 flow] eqn:Ht.
  assert (faithful (accepted_after t start (acc n))) as Hfn by (rewrite Hl, Forall_app in Hf; apply Hf).
  apply (stream_turn_spec start n) in Ht as (Htime & got & rest & Heq & Hg & Hc & Hw); [|done..].
  destruct flow as [[c'|]|].
  - specialize (Hc c' eq_refl). destruct (stream_signals _ _ _ _ _ c' turns) as [more state1] eqn:Hm.
    intros [= <- <-].
    assert (∀ k, (n ≤ k)%nat → accepted_after t start (acc k) = got ++ accepted_after t c' (acc k)) as Hstep.
    { intros k Hk. destruct (accepted_after_grows start n k Hk) as [more' Hk'].
      rewrite Heq, <- app_assoc in Hk'. unfold end_cursor in Hc. destruct (last got) as [ce|] eqn:Hlast.
      - subst c'. rewrite (accepted_after_last t start _ _ _ ce (accepted_sorted _ _ (run_inv text _)) Hk' Hlast).
        done.
      - apply last_None in Hlast as ->. by subst c'. }
    pose proof (Hstep (length ops `max` n)%nat ltac:(lia)) as Hfin. rewrite (take_ge ops) in Hfin by lia.
    apply (IH c' n) in Hm as (Htime' & (got' & rest' & Heq' & Hg') & Hwait); [|done| |].
    + split_and!.
      * by apply Forall_app.
      * exists (got ++ got'), rest'. rewrite Hfin, Heq', app_assoc. split; [done|].
        unfold received in *. by rewrite omap_app, Hg, Hg', fmap_app.
      * intros Hw'. destruct (Hwait Hw') as (tn' & k & Hin & Hk & Hst' & Hgk).
        exists tn', k. split_and!; [by right|lia|done|]. unfold received in *.
        by rewrite omap_app, Hg, Hgk, (Hstep k Hk), fmap_app.
    + rewrite Hc. unfold end_cursor. destruct (last got) as [ce|] eqn:Hlast; [|done].
      apply (accepted_cursor_max _ _ _ (run_inv text (take n ops))).
      assert (ce ∈ accepted_after t start (acc n)) as [_ ?]%list_elem_of_filter; [|done].
      rewrite Heq. apply elem_of_app. left. by apply last_Some_elem_of.
    + rewrite Hfin, Forall_app in Hf. apply Hf.
  - intros [= <- <-]. split_and!; [done| |done]. exists got, (rest ++ later).
    by rewrite Hl, Heq, app_assoc.
  - intros [= <- <-]. destruct (Hw eq_refl) as [-> ->]. split_and!; [done| |].
    + exists [], later. by rewrite Hl, Heq.
    + intros _. exists tn, n. split_and!; [by left|done|done|]. by rewrite Heq.
Qed.

(** C10: whatever the sizes of the pages, the timing of the commits and the
    behaviour of the client, the records a stream delivers are the accepted
    events of its tenant after its starting cursor, in order, each once and
    without a gap, each sent before the authorisation expires; and when the
    stream waits for news it has delivered everything the store it last read
    had accepted. *)
Theorem stream_exact start turns sent state :
  turns_of 0 turns → start ≤ i64_max →
  faithful (accepted_after t start (accepted text ops)) →
  stream_signals serializable t until batch_size batch_bytes start turns = (sent, state) →
  Forall timely sent ∧
  (∃ got rest, accepted_after t start (accepted text ops) = got ++ rest ∧
     received sent = record_of <$> got) ∧
  (state = inr true → ∃ tn n, tn ∈ turns ∧ tn_store tn = run text (take n ops) ∧
     received sent = record_of <$> accepted_after t start (acc n)).
Proof.
  intros Htn Hs Hf Hr. destruct (stream_signals_spec _ _ _ _ _ Htn Hs Hf Hr) as (? & ? & Hw).
  split_and!; [done..|]. intros Hst. destruct (Hw Hst) as (tn & n & ? & _ & ? & ?). eauto.
Qed.
End exact.

(** *** A signal that is committed while the stream is open *)

Section demo.
Import DemoJson.
#[local] Transparent gmap_empty.

Definition demo_ops : list StoreOp := history ++ [OpAppend 4000 env2].
Definition demo_turn (n : nat) (waits : list WaitEvent) : Turn :=
  {| tn_unix_now := 50; tn_permit := PermitGranted; tn_store := run DemoJson.text (take n demo_ops);
     tn_sends := λ _, (60, Delivered); tn_waits := waits |}.
Definition demo_turns : list Turn :=
  [demo_turn 3 []; demo_turn 3 [ClientPing true; Notified other; Notified tenant]; demo_turn 4 [];
   demo_turn 4 []].

Lemma stream_exact_witness :
  ∃ n, [mkSignalRecord 1 env; mkSignalRecord 2 env2]
    = record_of <$> accepted_after tenant 0 (accepted DemoJson.text (take n demo_ops)).
Proof.
  assert (accepted_after tenant 0 (accepted DemoJson.text demo_ops) = [(1, env); (2, env2)]) as Ha by vm_refl.
  destruct (stream_exact DemoJson.text (λ _, true) tenant 100 10 1000 ltac:(lia) demo_ops 0 demo_turns
    [SentRecord 60 (mkSignalRecord 1 env); SentPong; SentRecord 60 (mkSignalRecord 2 env2)] (inr true))
    as (_ & _ & Hw).
  - exists 3%nat. split_and!; [lia|reflexivity|]. exists 3%nat. split_and!; [lia|reflexivity|].
    exists 4%nat. split_and!; [lia|reflexivity|]. exists 4%nat. split_and!; [lia|reflexivity|exact I].
  - discriminate.
  - rewrite Ha. apply Forall_cons_2; [apply env_faithful|]. apply Forall_cons_2; [apply env2_faithful|].
    apply Forall_nil_2.
  - vm_refl.
  - destruct (Hw eq_refl) as (tn & n & _ & _ & Hn). exists n. exact Hn.
Defined.
End demo.
