(* ===== verification/RustFloat.v ===== *)
(** * [f64] as text

    IEEE 754 binary64 values are the Standard Library's [spec_float]; here are
    the conversions from integers and to decimal text the program uses. *)

From S2P Require Import Prelude RustStr Otlp.

Abbreviation f64_add := (SFadd 53 1024).
Abbreviation f64_sub := (SFsub 53 1024).
Abbreviation f64_mul := (SFmul 53 1024).
Abbreviation f64_div := (SFdiv 53 1024).

(** [z as f64]: round to nearest, ties to even. *)
Definition f64_of_Z (z : Z) : f64 := binary_normalize 53 1024 z 0 false.

(** [a >= b]; false when either is not a number. *)
Definition f64_ge (a b : f64) : bool := SFleb b a.
Definition f64_le (a b : f64) : bool := SFleb a b.

Definition is_sign_negative (f : f64) : bool :=
  match f with S754_zero s | S754_infinity s | S754_finite s _ _ => s | S754_nan => false end.

(** [value.fract() == 0.0] *)
Definition is_integral (f : f64) : bool :=
  match f with
  | S754_zero _ => true
  | S754_finite _ m e => (0 <=? e) || (Zpos m `mod` 2 ^ (- e) =? 0)
  | _ => false
  end.

(** [a / b] rounded to the nearest integer, ties to even. *)
Definition div_half_even (a b : Z) : Z :=
  let q := a `div` b in
  let r := a `mod` b in
  match 2 * r ?= b with
  | Lt => q
  | Gt => q + 1
  | Eq => if Z.even q then q else q + 1
  end.

(** The decimal digits of [z], at least [n] of them. *)
Definition pad_zeros (n : nat) (z : Z) : string :=
  let digits := u64_to_string z in
  of_bytes (replicate (n - length (as_bytes digits)) "0"%byte) +:+ digits.

(** [format!("{:.decimals$}")] *)
Definition format_fixed (decimals : nat) (f : f64) : string :=
  let print (s : bool) (n : Z) :=
    let scale := 10 ^ Z.of_nat decimals in
    (if s then "-" else "") +:+ u64_to_string (n `div` scale) +:+
    (if bool_decide (decimals = 0%nat) then "" else "." +:+ pad_zeros decimals (n `mod` scale)) in
  match f with
  | S754_nan => "NaN"
  | S754_infinity s => if s then "-inf" else "inf"
  | S754_zero s => print s 0
  | S754_finite s m e =>
    let n := Zpos m * 10 ^ Z.of_nat decimals in
    print s (if 0 <=? e then n * 2 ^ e else div_half_even n (2 ^ (- e)))
  end.
