(* ===== verification/RustText.v ===== *)
(** * Text files as Rust reads them

    [str::lines], the string-pattern operations and [f64::from_str] of the
    standard library, with the lemmas that read back a table written one
    record per line and one word per field. *)

From Stdlib Require Import DecimalString DecimalN.
From S2P Require Import Prelude RustStr Otlp RustFloat.

Definition NEWLINE : byte := "010"%byte.
Definition CARRIAGE_RETURN : byte := "013"%byte.

(** ** Operations *)

(** [strip_suffix] of one byte *)
Definition strip_suffix_byte (c : byte) (l : list byte) : list byte :=
  if bool_decide (last l = Some c) then take (length l - 1) l else l.

(** [str::lines]: a line ends at a newline, which is dropped with a carriage
    return before it; what follows the last newline is a line unless empty. *)
Fixpoint lines_from (cur : list byte) (l : list byte) : list (list byte) :=
  match l with
  | [] => if bool_decide (cur = []) then [] else [cur]
  | b :: t =>
    if bool_decide (b = NEWLINE) then strip_suffix_byte CARRIAGE_RETURN cur :: lines_from [] t
    else lines_from (cur ++ [b]) t
  end.
Definition str_lines (s : string) : list string := of_bytes <$> lines_from [] (as_bytes s).

(** [str::split_once] on a non-empty string *)
Fixpoint split_once_list (p l : list byte) : option (list byte * list byte) :=
  if list_prefix p l then Some ([], drop (length p) l)
  else match l with
       | [] => None
       | x :: t => '(a, b) ← split_once_list p t; Some (x :: a, b)
       end.
Definition split_once_str (s p : string) : option (string * string) :=
  '(a, b) ← split_once_list (as_bytes p) (as_bytes s); Some (of_bytes a, of_bytes b).

(** [str::trim_start_matches] with a non-empty string: every copy in front.
    A turn drops at least one byte, so the length bounds the turns. *)
Fixpoint trim_start_list (fuel : nat) (p l : list byte) : list byte :=
  match fuel with
  | S fuel => if list_prefix p l then trim_start_list fuel p (drop (length p) l) else l
  | O => l
  end.
Definition trim_start_matches (s p : string) : string :=
  of_bytes (trim_start_list (length (as_bytes s)) (as_bytes p) (as_bytes s)).

(** [str::strip_suffix] with an ASCII character *)
Definition strip_suffix (c : byte) (s : string) : option string :=
  if bool_decide (last (as_bytes s) = Some c)
  then Some (of_bytes (take (length (as_bytes s) - 1) (as_bytes s))) else None.

(** [Iterator::find_map] *)
Fixpoint find_map {A B} (f : A → option B) (l : list A) : option B :=
  match l with [] => None | x :: t => match f x with Some y => Some y | None => find_map f t end end.

(** ** [f64::from_str] *)

Fixpoint span_digits (l : list byte) : list byte * list byte :=
  match l with
  | b :: t => if is_ascii_digit b then let '(d, r) := span_digits t in (b :: d, r) else ([], l)
  | [] => ([], [])
  end.

Definition digits_Z (l : list byte) : Z :=
  match NilEmpty.uint_of_string (of_bytes l) with Some d => Z.of_N (N.of_uint d) | None => 0 end.

Definition split_sign (l : list byte) : bool * list byte :=
  match l with
  | b :: t => if bool_decide (b = "-"%byte) then (true, t)
              else if bool_decide (b = "+"%byte) then (false, t) else (false, l)
  | [] => (false, l)
  end.

(** What follows the mantissa: nothing, or [e] with a signed exponent. *)
Definition parse_exponent (l : list byte) : option Z :=
  match l with
  | [] => Some 0
  | b :: t =>
    if bool_decide (b = "e"%byte ∨ b = "E"%byte) then
      let '(neg, t) := split_sign t in
      match span_digits t with
      | ((_ :: _) as d, []) => Some (if neg then - digits_Z d else digits_Z d)
      | _ => None
      end
    else None
  end.

(** [m * 10^e] for a mantissa of [len] digits, rounded to the nearest value,
    ties to even.  From [10^310] on the result is infinite, and below
    [10^-400] it is zero. *)
Definition decimal_f64 (neg : bool) (m : Z) (len : nat) (e : Z) : f64 :=
  match m with
  | Zpos p =>
    if 310 <=? e then S754_infinity neg
    else if 0 <=? e then binary_normalize 53 1024 ((if neg then -1 else 1) * (m * 10 ^ e)) 0 neg
    else if Z.of_nat len + e <? -400 then S754_zero neg
    else
      let '(q, e', loc) := SFdiv_core_binary 53 1024 m 0 (10 ^ (- e)) 0 in
      binary_round_aux 53 1024 neg q e' loc
  | _ => S754_zero neg
  end.

Definition parse_inf_nan (neg : bool) (l : list byte) : option f64 :=
  let s := of_bytes l in
  if eq_ignore_ascii_case s "inf" || eq_ignore_ascii_case s "infinity" then Some (S754_infinity neg)
  else if eq_ignore_ascii_case s "nan" then Some S754_nan else None.

Definition parse_f64 (s : string) : option f64 :=
  let '(neg, l) := split_sign (as_bytes s) in
  let '(whole, l1) := span_digits l in
  let '(frac, l2) :=
    match l1 with
    | b :: t => if bool_decide (b = "."%byte) then span_digits t else ([], l1)
    | [] => ([], l1)
    end in
  match whole ++ frac, parse_exponent l2 with
  | (_ :: _) as digits, Some e =>
    Some (decimal_f64 neg (digits_Z digits) (length digits) (e - zlen frac))
  | _, _ => parse_inf_nan neg l
  end.

Example parse_f64_examples :
  parse_f64 "0.01" = Some (S754_finite false 5764607523034235 (-59)) ∧
  parse_f64 "-1.81" = Some (S754_finite true 8151515325540598 (-52)) ∧
  parse_f64 "5." = Some (f64_of_Z 5) ∧ parse_f64 ".5e1" = Some (f64_of_Z 5) ∧
  parse_f64 "+Inf" = Some (S754_infinity false) ∧ parse_f64 "1e400" = Some (S754_infinity false) ∧
  parse_f64 "1e-400" = Some (S754_zero false) ∧ parse_f64 "-0" = Some (S754_zero true) ∧
  parse_f64 "5e-324" = Some (S754_finite false 1 (-1074)) ∧
  parse_f64 "" = None ∧ parse_f64 "." = None ∧ parse_f64 "1e" = None ∧ parse_f64 "1 " = None.
Proof. split_and!; vm_refl. Qed.

(** ** Reading numbers back *)

Lemma span_digits_all l rest : forallb is_ascii_digit l = true →
  match rest with b :: _ => is_ascii_digit b = false | [] => True end →
  span_digits (l ++ rest) = (l, rest).
Proof.
  intros Hl Hr. induction l as [|b l IH]; simpl in *.
  - destruct rest as [|b t]; [done|]. simpl. by rewrite Hr.
  - apply andb_true_iff in Hl as [-> Hl]. by rewrite IH.
Qed.

Lemma digits_Z_to_string z : 0 ≤ z → digits_Z (as_bytes (u64_to_string z)) = z.
Proof.
  intros Hz. unfold digits_Z, u64_to_string, NilZero.string_of_uint. rewrite of_as_bytes.
  pose proof (Unsigned.of_to (Z.to_N z)) as Hn.
  destruct (N.to_uint (Z.to_N z)) eqn:E; [by apply to_uint_not_nil in E|..];
    rewrite NilEmpty.usu, Hn; lia.
Qed.

(** A decimal counter parses to the [f64] nearest to it. *)
Lemma parse_f64_to_string z : 0 ≤ z → parse_f64 (u64_to_string z) = Some (f64_of_Z z).
Proof.
  intros Hz. unfold parse_f64. pose proof (u64_to_string_digits z) as Hd.
  pose proof (digits_Z_to_string z Hz) as Hv.
  destruct (as_bytes (u64_to_string z)) as [|b l] eqn:E.
  { exfalso. apply (u64_to_string_not_empty z). by rewrite <-(of_as_bytes (u64_to_string z)), E. }
  assert (split_sign (b :: l) = (false, b :: l)) as ->.
  { simpl in Hd |- *. apply andb_true_iff in Hd as [Hb _]. unfold is_ascii_digit, between in Hb.
    rewrite !bool_decide_false; [done|by intros ->..]. }
  rewrite <-(app_nil_r (b :: l)), span_digits_all by done.
  cbv beta iota. rewrite app_nil_r. simpl parse_exponent. rewrite Hv. unfold decimal_f64.
  destruct z as [|p|p]; [done| |lia]. unfold f64_of_Z. simpl. by rewrite Pos.mul_1_r.
Qed.

(** ** Reading words back *)

(** A field as a kernel table writes it: some text, none of it white space. *)
Definition word (w : string) : Prop :=
  valid_str w ∧ w ≠ "" ∧ Forall (λ c, chunk_is is_whitespace c = false) (chars w).

Lemma chars_app s t : valid_str s → chars (s +:+ t) = chars s ++ chars t.
Proof.
  intros Hs%utf8_valid_wf. unfold chars. rewrite as_bytes_app.
  rewrite <-(bytes_of_utf8_chunks (as_bytes s)) at 1.
  induction Hs as [|c cs [_ Hc] _ IH]; [done|].
  by rewrite bytes_of_chars_cons, <-app_assoc, Hc, IH.
Qed.

Lemma valid_str_app s t : valid_str s → valid_str t → valid_str (s +:+ t).
Proof.
  intros Hs Ht. apply utf8_valid_wf. fold (chars (s +:+ t)). rewrite chars_app by done.
  apply Forall_app. split; by apply utf8_valid_wf.
Qed.

Lemma split_on_app {A} (p : A → bool) cur w l : Forall (λ c, p c = false) w →
  split_on p cur (w ++ l) = split_on p (cur ++ w) l.
Proof.
  intros Hw. revert cur. induction Hw as [|c w Hc _ IH]; intros cur; simpl.
  - by rewrite app_nil_r.
  - by rewrite Hc, IH, <-app_assoc.
Qed.

Lemma chars_not_nil w : w ≠ "" → chars w ≠ [].
Proof.
  intros Hw Hc. apply Hw. by rewrite <-(str_of_chars_chars w), Hc.
Qed.

Lemma split_whitespace_word w : word w → split_whitespace w = [w].
Proof.
  intros (Hv & Hn & Hw). unfold split_whitespace. rewrite <-(app_nil_r (chars w)), split_on_app by done.
  cbn [split_on app]. rewrite filter_cons_True by by apply chars_not_nil.
  rewrite filter_nil, fmap_cons, str_of_chars_chars. done.
Qed.

Lemma split_whitespace_cons w s : word w → split_whitespace (w +:+ " " +:+ s) = w :: split_whitespace s.
Proof.
  intros (Hv & Hn & Hw). unfold split_whitespace. rewrite chars_app by done.
  rewrite (chars_app " ") by exact eq_refl.
  rewrite split_on_app by done. change (chars " ") with [(Some 0x20, [" "%byte])].
  cbn [split_on app]. change (chunk_is is_whitespace (Some 32, [" "%byte])) with true. cbv iota.
  rewrite filter_cons_True by by apply chars_not_nil.
  by rewrite fmap_cons, str_of_chars_chars.
Qed.

Lemma split_whitespace_blank s : split_whitespace (" " +:+ s) = split_whitespace s.
Proof.
  unfold split_whitespace. rewrite (chars_app " ") by exact eq_refl.
  change (chars " ") with [(Some 0x20, [" "%byte])].
  cbn [split_on app]. change (chunk_is is_whitespace (Some 32, [" "%byte])) with true. cbv iota.
  by rewrite filter_cons_False by (intros H; by apply H).
Qed.

(** Fields separated by single blanks. *)
Definition fields (ws : list string) : string := String.concat " " ws.

Lemma split_whitespace_fields ws : Forall word ws → split_whitespace (fields ws) = ws.
Proof.
  unfold fields. induction 1 as [|w ws Hw Hws IH]; [vm_refl|].
  destruct ws as [|w' ws]; [by apply split_whitespace_word|].
  cbn [String.concat] in IH |- *. change (String.append w _) with (w +:+ " " +:+ fields (w' :: ws)).
  rewrite split_whitespace_cons by done. f_equal. exact IH.
Qed.

(** ** Reading lines back *)

Definition line_text (s : string) : Prop :=
  (NEWLINE ∉ as_bytes s) ∧ last (as_bytes s) ≠ Some CARRIAGE_RETURN.

Lemma lines_from_line cur l rest : NEWLINE ∉ l →
  lines_from cur (l ++ NEWLINE :: rest) =
    strip_suffix_byte CARRIAGE_RETURN (cur ++ l) :: lines_from [] rest.
Proof.
  revert cur. induction l as [|b l IH]; intros cur Hl; simpl.
  - by rewrite app_nil_r.
  - apply not_elem_of_cons in Hl as [Hb Hl]. rewrite bool_decide_false by congruence.
    by rewrite IH, <-app_assoc.
Qed.

(** A file of lines, each ended by a newline. *)
Definition newline : string := of_bytes [NEWLINE].
Definition unlines (ls : list string) : string := foldr (λ l s, l +:+ newline +:+ s) "" ls.

Lemma str_lines_cons l s : line_text l → str_lines (l +:+ newline +:+ s) = l :: str_lines s.
Proof.
  intros [Hn Hc]. unfold str_lines. rewrite !as_bytes_app. change (as_bytes newline) with [NEWLINE].
  cbn [app]. rewrite lines_from_line by done. unfold strip_suffix_byte. rewrite bool_decide_false by done.
  rewrite fmap_cons. cbn [app]. by rewrite of_as_bytes.
Qed.

Lemma str_lines_unlines ls : Forall line_text ls → str_lines (unlines ls) = ls.
Proof.
  induction 1 as [|l ls Hl _ IH]; [done|]. cbn [unlines foldr]. rewrite str_lines_cons by done.
  f_equal. exact IH.
Qed.

(** ** ASCII bytes of a string are characters of it *)

Lemma utf8_next_ascii b t : is_Some (utf8_next b t).1.1 →
  (utf8_next b t).1 = (Some (b2z b), [b]) ∨ Forall (λ x, 0x80 ≤ b2z x) (utf8_next b t).1.2.
Proof.
  unfold utf8_next. next_cases; cbn [fst snd]; intros HS; try (by destruct HS); [by left|..]; right;
    unfold second3, second4, is_cont, between in *; to_prop; repeat constructor; lia.
Qed.

Lemma ascii_in_chars l x : utf8_valid l = true → x ∈ l → b2z x < 0x80 → (Some (b2z x), [x]) ∈ utf8_chunks l.
Proof.
  intros Hv%utf8_valid_wf. revert Hv. induction l as [|b t IH] using utf8_ind; [set_solver|].
  rewrite utf8_chunks_cons. intros [[HS _] Hw]%Forall_cons Hx Hlt.
  rewrite <-utf8_next_app in Hx. apply elem_of_app in Hx as [Hx|Hx].
  - destruct (utf8_next_ascii b t HS) as [E|Hf].
    + rewrite E in Hx |- *. apply list_elem_of_singleton in Hx as ->. left.
    + eapply Forall_forall in Hf; [|done]. lia.
  - right. auto.
Qed.

(** White space of ASCII cannot be in a word, so a line of words has neither a
    newline nor a carriage return. *)
Lemma word_no_blank w b : word w → is_whitespace (b2z b) = true → b2z b < 0x80 → b ∉ as_bytes w.
Proof.
  intros (Hv & _ & Hw) Hb Hlt Hin. eapply ascii_in_chars in Hin; [|done..].
  eapply Forall_forall in Hw; [|done]. unfold chunk_is in Hw. simpl in Hw. congruence.
Qed.

Lemma word_line w : word w → line_text w.
Proof.
  intros Hw. split; [by apply word_no_blank|]. intros H%last_Some_elem_of. revert H. by apply word_no_blank.
Qed.

Lemma line_text_app s w : NEWLINE ∉ as_bytes s → word w → line_text (s +:+ w).
Proof.
  intros Hs Hw. destruct (word_line w Hw) as [Hn Hc]. unfold line_text. rewrite as_bytes_app.
  split; [by apply not_elem_of_app|]. rewrite last_app. destruct (last (as_bytes w)) eqn:E; [done|].
  apply last_None in E. destruct Hw as (_ & Hw & _). destruct Hw. by rewrite <-(of_as_bytes w), E.
Qed.

Lemma fields_line ws : Forall word ws → line_text (fields ws).
Proof.
  intros Hws. destruct ws as [|w ws _] using rev_ind; [split; [set_solver|done]|].
  apply Forall_app in Hws as [Hws Hw]. rewrite Forall_singleton in Hw.
  cut (∃ s, fields (ws ++ [w]) = s +:+ w ∧ (NEWLINE ∉ as_bytes s)).
  { intros (s & -> & Hs). by apply line_text_app. }
  unfold fields. induction Hws as [|x ws Hx _ (s & E & Hs)]; [exists ""; split; [done|set_solver]|].
  exists (x +:+ " " +:+ s). split.
  - destruct (ws ++ [w]) as [|y l] eqn:El; [by destruct ws|]. rewrite <-app_comm_cons, El.
    cbn [String.concat] in E |- *. rewrite E. apply as_bytes_inj.
    change String.append with (λ a b, a +:+ b). by rewrite !as_bytes_app, <-!app_assoc.
  - rewrite !as_bytes_app, !not_elem_of_app. split_and!; [by apply word_no_blank|by apply not_elem_of_cons; split; [|set_solver]|done].
Qed.

(** ** Aligned columns *)

Definition blanks (n : nat) : string := of_bytes (replicate n " "%byte).

(** Each field after at least one blank. *)
Definition columns (cs : list (nat * string)) : string :=
  foldr (λ c s, blanks (S c.1) +:+ c.2 +:+ s) "" cs.

Lemma blanks_S n : blanks (S n) = " " +:+ blanks n.
Proof. done. Qed.

Lemma split_whitespace_blanks n s : split_whitespace (blanks n +:+ s) = split_whitespace s.
Proof.
  induction n as [|n IH]; [done|]. by rewrite blanks_S, string_app_assoc, split_whitespace_blank.
Qed.

Lemma split_whitespace_columns w cs : word w → Forall (λ c, word c.2) cs →
  split_whitespace (w +:+ columns cs) = w :: cs.*2.
Proof.
  intros Hw Hcs. revert w Hw. induction Hcs as [|[n v] cs Hv _ IH]; intros w Hw; cbn [columns foldr].
  - rewrite string_app_nil_r. by apply split_whitespace_word.
  - fold (columns cs). cbn [fst snd] in *.
    rewrite blanks_S, string_app_assoc, split_whitespace_cons, split_whitespace_blanks by done.
    rewrite IH by done. done.
Qed.

Lemma split_whitespace_columns_only cs : Forall (λ c, word c.2) cs →
  split_whitespace (columns cs) = cs.*2.
Proof.
  intros Hcs. destruct Hcs as [|[n v] cs Hv Hcs]; [vm_refl|]. cbn [columns foldr]. fold (columns cs).
  rewrite split_whitespace_blanks. by apply split_whitespace_columns.
Qed.

Lemma blanks_no_newline n : NEWLINE ∉ as_bytes (blanks n).
Proof. unfold blanks. rewrite as_of_bytes. intros H. by apply elem_of_replicate_inv in H. Qed.

Lemma columns_line s cs : line_text s → Forall (λ c, word c.2) cs → line_text (s +:+ columns cs).
Proof.
  intros Hs Hcs. revert s Hs. induction Hcs as [|[n v] cs Hv _ IH]; intros s Hs; cbn [columns foldr].
  - by rewrite string_app_nil_r.
  - fold (columns cs). cbn [fst snd] in *. rewrite <-!string_app_assoc. apply IH, line_text_app; [|done].
    rewrite as_bytes_app, not_elem_of_app. split; [apply Hs|apply blanks_no_newline].
Qed.

(** Digits are a word. *)
Lemma digit_byte b : is_ascii_digit b = true → b2z b < 0x80 ∧ is_whitespace (b2z b) = false.
Proof. unfold is_ascii_digit, is_whitespace, between. intros H. to_prop. split; [lia|]. lia. Qed.

Lemma digits_word l : l ≠ [] → forallb is_ascii_digit l = true → word (of_bytes l).
Proof.
  intros Hn Hl. unfold word, valid_str, chars. rewrite as_of_bytes. split_and!.
  - apply ascii_utf8_valid. clear Hn. induction l as [|b l IH]; [done|]. simpl in Hl |- *.
    apply andb_true_iff in Hl as [Hb Hl]. rewrite IH by done. apply digit_byte in Hb as [? _].
    rewrite andb_true_r. apply Z.ltb_lt. done.
  - intros E. apply Hn. by rewrite <-(as_of_bytes l), E.
  - clear Hn. induction l as [|b l IH]; [constructor|]. simpl in Hl. apply andb_true_iff in Hl as [Hb Hl].
    apply digit_byte in Hb as [H1 H2]. rewrite utf8_chunks_cons. unfold utf8_next.
    rewrite (proj2 (Z.ltb_lt _ _) H1). cbn [fst snd]. constructor; [|by apply IH]. done.
Qed.

Lemma u64_word z : word (u64_to_string z).
Proof.
  rewrite <-(of_as_bytes (u64_to_string z)). apply digits_word; [|apply u64_to_string_digits].
  intros E. apply (u64_to_string_not_empty z). by rewrite <-(of_as_bytes (u64_to_string z)), E.
Qed.

(** A word between blanks is what [trim] leaves. *)
Lemma chars_blanks n s : chars (blanks n +:+ s) = replicate n (Some 0x20, [" "%byte]) ++ chars s.
Proof.
  induction n as [|n IH]; [done|]. rewrite blanks_S, string_app_assoc, chars_app by exact eq_refl.
  rewrite IH. done.
Qed.

Lemma trim_blanks n w : word w → trim (blanks n +:+ w) = w.
Proof.
  intros (Hv & Hn & Hw). unfold trim. rewrite chars_blanks, <-(str_of_chars_chars w). f_equal.
  rewrite str_of_chars_chars. unfold trim_with.
  assert (drop_while (chunk_is is_whitespace) (replicate n (Some 32, [" "%byte]) ++ chars w) = chars w) as ->.
  { induction n as [|n IH]; [|exact IH]. apply drop_while_fix. destruct Hw; done. }
  assert (drop_while (chunk_is is_whitespace) (reverse (chars w)) = reverse (chars w)) as ->.
  { apply drop_while_fix. apply Forall_reverse in Hw. by destruct Hw. }
  apply reverse_involutive.
Qed.
