(* ===== verification/SystemMetrics.v ===== *)
(** * Host metrics (skid-monitor-agent, system_metrics.rs)

    The tables of /proc and the output of the macOS commands, turned into
    metrics.  The texts read, the results of statvfs(2) and the number of open
    files are arguments; a collector only appends, so each function returns
    the metrics it pushes. *)

From S2P Require Import Prelude RustStr Otlp RustFloat RustText.

(** [u64] addition of a release build. *)
Definition wrap_add (a b : Z) : Z := (a + b) `mod` 2 ^ 64.

Definition push_metric (name : string) (value : f64) (unit : option string) (kind : SampleKind)
    (attributes : list (string * string)) : Metric :=
  {| name := name; metric_value := value; source := System; unit_of := unit; metric_kind := kind;
     attributes := attributes |}.
Definition push_optional_metric (name : string) (value : option f64) (unit : option string)
    (kind : SampleKind) (attributes : list (string * string)) : list Metric :=
  option_list ((λ value, push_metric name value unit kind attributes) <$> value).

Definition SECTOR_BYTES : f64 := f64_of_Z 512.

(** ** CPU *)

Record CpuLine := { cpu_name : string; cpu_total : Z; cpu_idle : Z }.
Abbreviation CpuSnapshot := (list CpuLine).

Definition parse_cpu_line (line : string) : option CpuLine :=
  match split_whitespace line with
  | [] => None
  | name :: parts =>
    if negb (starts_with name "cpu") then None
    else
      values ← mapM parse_u64 parts;
      if (length values <? 4)%nat then None
      else Some {| cpu_name := name;
                   cpu_total := foldl wrap_add 0 values;
                   cpu_idle := wrap_add (default 0 (values !! 3%nat)) (default 0 (values !! 4%nat)) |}
  end.

Definition parse_cpu_snapshot (proc_stat : string) : option CpuSnapshot :=
  match omap parse_cpu_line (str_lines proc_stat) with [] => None | cpus => Some cpus end.

Definition cpu_attr (name : string) : string :=
  if bool_decide (name = "cpu") then "total" else trim_start_matches name "cpu".

(** The body of the [for] of [collect_cpu_metrics]. *)
Definition cpu_usage (previous : CpuSnapshot) (cpu : CpuLine) : option Metric :=
  prev ← List.find (λ prev, bool_decide (cpu_name prev = cpu_name cpu)) previous;
  let total_delta := sat_sub (cpu_total cpu) (cpu_total prev) in
  if total_delta =? 0 then None
  else
    let idle_delta := sat_sub (cpu_idle cpu) (cpu_idle prev) in
    let usage := f64_div (f64_mul (f64_of_Z 100) (f64_of_Z (sat_sub total_delta idle_delta)))
                   (f64_of_Z total_delta) in
    Some (push_metric "system.cpu.usage" usage (Some "%") KGauge [("cpu", cpu_attr (cpu_name cpu))]).

Definition collect_cpu_metrics (proc_stat : string) (previous : option CpuSnapshot)
    : option CpuSnapshot * list Metric :=
  match parse_cpu_snapshot proc_stat with
  | None => (None, [])
  | Some current =>
    match previous with
    | Some previous => (Some current, omap (cpu_usage previous) current)
    | None => (Some current, [])
    end
  end.

(** ** Load, memory, uptime *)

Definition load_names : list string := ["system.load.1m"; "system.load.5m"; "system.load.15m"].

Definition collect_load_metrics (loadavg : string) : list Metric :=
  let values := omap parse_f64 (take 3 (split_whitespace loadavg)) in
  zip_with (λ name value, push_metric name value None KGauge []) load_names values.

(** [find_map] over the lines [key: value ...]; also [parse_status_value]. *)
Definition parse_meminfo_kib (meminfo key : string) : option f64 :=
  find_map (λ line,
    '(line_key, rest) ← split_once ":"%byte line;
    if bool_decide (line_key = key) then head (split_whitespace rest) ≫= parse_f64 else None)
    (str_lines meminfo).

Definition collect_memory_metrics (meminfo : string) : list Metric :=
  let lookup key := (λ kib, f64_mul kib (f64_of_Z 1024)) <$> parse_meminfo_kib meminfo key in
  let total := lookup "MemTotal" in
  let available := lookup "MemAvailable" in
  mjoin ((λ '(name, value), push_optional_metric name value (Some "By") KGauge [])
    <$> [("system.memory.total", total);
         ("system.memory.free", lookup "MemFree");
         ("system.memory.available", available);
         ("system.memory.buffers", lookup "Buffers");
         ("system.memory.cached", lookup "Cached");
         ("system.swap.total", lookup "SwapTotal");
         ("system.swap.free", lookup "SwapFree")]) ++
  match total, available with
  | Some total, Some available =>
    [push_metric "system.memory.used" (f64_sub total available) (Some "By") KGauge [];
     push_metric "system.memory.usage"
       (f64_div (f64_mul (f64_sub total available) (f64_of_Z 100)) total) (Some "%") KGauge []]
  | _, _ => []
  end.

Definition collect_uptime_metrics (uptime : string) : list Metric :=
  push_optional_metric "system.uptime" (head (split_whitespace uptime) ≫= parse_f64) (Some "s") KGauge [].

(** ** File systems *)

(** The fields of [struct statvfs] the code reads. *)
Record RawStatvfs := { f_frsize : Z; f_blocks : Z; f_bfree : Z; f_bavail : Z }.
Record FilesystemStats := { fs_total : f64; fs_available : f64; fs_used : f64 }.

(** [call]: statvfs(2) on a path, [None] when it fails; [CString::new] refuses
    a path with a NUL byte. *)
Definition statvfs (call : string → option RawStatvfs) (path : string) : option FilesystemStats :=
  if bool_decide ("000"%byte ∈ as_bytes path) then None
  else
    stats ← call path;
    let block_size := f64_of_Z (f_frsize stats) in
    let total := f64_mul (f64_of_Z (f_blocks stats)) block_size in
    let available := f64_mul (f64_of_Z (f_bavail stats)) block_size in
    let free := f64_mul (f64_of_Z (f_bfree stats)) block_size in
    Some {| fs_total := total; fs_available := available; fs_used := f64_sub total free |}.

Definition virtual_filesystems : list string :=
  ["autofs"; "binfmt_misc"; "bpf"; "cgroup"; "cgroup2"; "configfs"; "debugfs"; "devpts"; "devtmpfs";
   "fusectl"; "hugetlbfs"; "mqueue"; "nsfs"; "proc"; "pstore"; "securityfs"; "sysfs"; "tracefs"].
Definition is_virtual_filesystem (fs_type : string) : bool := bool_decide (fs_type ∈ virtual_filesystems).

Definition unescape_mount_value (value : string) : string :=
  replace (replace (replace (replace value "\040" " ") "\011" (of_bytes ["009"%byte]))
    "\012" newline) "\134" "\".

(** The metrics of one mount. *)
Definition mount_metrics (device mountpoint fs_type : string) (stats : FilesystemStats) : list Metric :=
  let attrs := [("device", device); ("mountpoint", mountpoint); ("fs_type", fs_type)] in
  [push_metric "system.filesystem.total" (fs_total stats) (Some "By") KGauge attrs;
   push_metric "system.filesystem.available" (fs_available stats) (Some "By") KGauge attrs;
   push_metric "system.filesystem.used" (fs_used stats) (Some "By") KGauge attrs] ++
  (if SFltb (S754_zero false) (fs_total stats)
   then [push_metric "system.filesystem.usage"
           (f64_div (f64_mul (fs_used stats) (f64_of_Z 100)) (fs_total stats)) (Some "%") KGauge attrs]
   else []).

(** One turn of the loop of [collect_filesystem_metrics], with the set [seen]. *)
Definition mount_line (call : string → option RawStatvfs) (seen : gset string) (line : string)
    : gset string * list Metric :=
  match split_whitespace line with
  | device :: mountpoint :: fs_type :: _ =>
    let device := unescape_mount_value device in
    let mountpoint := unescape_mount_value mountpoint in
    if is_virtual_filesystem fs_type then (seen, [])
    else if bool_decide (mountpoint ∈ seen) then (seen, [])
    else ({[ mountpoint ]} ∪ seen, from_option (mount_metrics device mountpoint fs_type) [] (statvfs call mountpoint))
  | _ => (seen, [])
  end.
Fixpoint collect_mounts (call : string → option RawStatvfs) (seen : gset string) (lines : list string)
    : list Metric :=
  match lines with
  | [] => []
  | line :: lines =>
    let '(seen, out) := mount_line call seen line in out ++ collect_mounts call seen lines
  end.
Definition collect_filesystem_metrics (call : string → option RawStatvfs) (mounts : string) : list Metric :=
  collect_mounts call ∅ (str_lines mounts).

(** ** Disks and networks *)

Definition disk_line (line : string) : list Metric :=
  match split_whitespace line with
  | _ :: _ :: device :: read_ops :: _ :: sectors_read :: read_time_ms :: write_ops :: _ :: sectors_written
      :: write_time_ms :: io_in_progress :: io_time_ms :: _ :: _ =>
    if starts_with device "loop" || starts_with device "ram" then []
    else
      let attrs := [("device", device)] in
      let bytes := λ value, f64_mul value SECTOR_BYTES in
      push_optional_metric "system.disk.reads" (parse_f64 read_ops) None KSum attrs ++
      push_optional_metric "system.disk.read_bytes" (bytes <$> parse_f64 sectors_read) (Some "By") KSum attrs ++
      push_optional_metric "system.disk.read_time" (parse_f64 read_time_ms) (Some "ms") KSum attrs ++
      push_optional_metric "system.disk.writes" (parse_f64 write_ops) None KSum attrs ++
      push_optional_metric "system.disk.write_bytes" (bytes <$> parse_f64 sectors_written) (Some "By") KSum attrs ++
      push_optional_metric "system.disk.write_time" (parse_f64 write_time_ms) (Some "ms") KSum attrs ++
      push_optional_metric "system.disk.io_in_progress" (parse_f64 io_in_progress) None KGauge attrs ++
      push_optional_metric "system.disk.io_time" (parse_f64 io_time_ms) (Some "ms") KSum attrs
  | _ => []
  end.
Definition collect_disk_io_metrics (diskstats : string) : list Metric :=
  mjoin (disk_line <$> str_lines diskstats).

(** The counters reported, with their column. *)
Definition network_columns : list (string * nat * option string) :=
  [("system.network.rx_bytes", 0%nat, Some "By");
   ("system.network.rx_packets", 1%nat, None);
   ("system.network.rx_errors", 2%nat, None);
   ("system.network.rx_dropped", 3%nat, None);
   ("system.network.tx_bytes", 8%nat, Some "By");
   ("system.network.tx_packets", 9%nat, None);
   ("system.network.tx_errors", 10%nat, None);
   ("system.network.tx_dropped", 11%nat, None)].

Definition network_line (line : string) : list Metric :=
  match split_once ":"%byte line with
  | None => []
  | Some (iface, values) =>
    let iface := trim iface in
    if is_empty iface then []
    else
      let values := omap parse_f64 (split_whitespace values) in
      if (length values <? 16)%nat then []
      else omap (λ '(name, column, unit),
             (λ value, push_metric name value unit KSum [("interface", iface)]) <$> values !! column)
             network_columns
  end.
Definition collect_network_metrics (net_dev : string) : list Metric :=
  mjoin (network_line <$> drop 2 (str_lines net_dev)).

(** ** The process itself *)

Definition parse_status_value (status key : string) : option f64 :=
  find_map (λ line,
    '(line_key, rest) ← split_once ":"%byte line;
    if bool_decide (line_key = key) then head (split_whitespace rest) ≫= parse_f64 else None)
    (str_lines status).

Definition collect_process_metrics (status : string) : list Metric :=
  mjoin ((λ '(name, key), push_optional_metric name
      ((λ kib, f64_mul kib (f64_of_Z 1024)) <$> parse_status_value status key) (Some "By") KGauge [])
    <$> [("process.memory.virtual", "VmSize"); ("process.memory.resident", "VmRSS");
         ("process.memory.data", "VmData"); ("process.memory.stack", "VmStk")]) ++
  mjoin ((λ '(name, key), push_optional_metric name (parse_status_value status key) None KGauge [])
    <$> [("process.threads", "Threads");
         ("process.context_switches.voluntary", "voluntary_ctxt_switches");
         ("process.context_switches.nonvoluntary", "nonvoluntary_ctxt_switches")]).

Definition collect_open_fd_count (entries : option Z) : list Metric :=
  push_optional_metric "process.open_fds" (f64_of_Z <$> entries) None KGauge [].

(** ** macOS *)

Definition push_macos_metric (name : string) (value : f64) (unit : option string) (kind : SampleKind)
    (attributes : list (string * string)) : Metric :=
  {| name := name; metric_value := value; source := MacOS; unit_of := unit; metric_kind := kind;
     attributes := attributes |}.
Definition push_optional_macos_metric (name : string) (value : option f64) (unit : option string)
    (kind : SampleKind) (attributes : list (string * string)) : list Metric :=
  option_list ((λ value, push_macos_metric name value unit kind attributes) <$> value).

Definition collect_macos_load_metrics (uptime : string) : list Metric :=
  match split_once_str uptime "load averages:" ∪ split_once_str uptime "load average:" with
  | None => []
  | Some (_, rest) =>
    let values := omap (λ value, parse_f64 (trim_end_matches ","%byte value)) (take 3 (split_whitespace rest)) in
    zip_with (λ name value, push_macos_metric name value None KGauge []) load_names values
  end.

Definition parse_macos_page_size (vm_stat : string) : option Z :=
  line ← head (str_lines vm_stat);
  '(_, rest) ← split_once_str line "page size of";
  head (split_whitespace rest) ≫= parse_u64.

Definition parse_macos_vm_value (vm_stat key : string) : option f64 :=
  find_map (λ line,
    '(line_key, rest) ← split_once ":"%byte line;
    if bool_decide (trim line_key = key)
    then parse_f64 (replace (trim_end_matches "."%byte (trim rest)) "," "") else None)
    (str_lines vm_stat).

Definition macos_vm_keys : list (string * string * option string * SampleKind * bool) :=
  [("system.memory.free", "Pages free", Some "By", KGauge, true);
   ("macos.memory.active", "Pages active", Some "By", KGauge, true);
   ("macos.memory.inactive", "Pages inactive", Some "By", KGauge, true);
   ("macos.memory.speculative", "Pages speculative", Some "By", KGauge, true);
   ("macos.memory.wired", "Pages wired down", Some "By", KGauge, true);
   ("macos.memory.compressor", "Pages occupied by compressor", Some "By", KGauge, true);
   ("macos.vm.pageins", "Pageins", None, KSum, false);
   ("macos.vm.pageouts", "Pageouts", None, KSum, false);
   ("macos.vm.swapins", "Swapins", None, KSum, false);
   ("macos.vm.swapouts", "Swapouts", None, KSum, false)].

Definition collect_macos_vm_metrics (vm_stat : string) : list Metric :=
  let page_size := f64_of_Z (default 4096 (parse_macos_page_size vm_stat)) in
  mjoin ((λ '(name, key, unit, kind, pages),
    push_optional_macos_metric name
      ((λ value, if (pages : bool) then f64_mul value page_size else value) <$> parse_macos_vm_value vm_stat key)
      unit kind []) <$> macos_vm_keys).

Definition collect_macos_filesystem_metrics (df : string) : list Metric :=
  match List.find (λ line, negb (is_empty (trim line))) (drop 1 (str_lines df)) with
  | None => []
  | Some line =>
    match split_whitespace line with
    | device :: total :: used :: available :: capacity :: mountpoint :: _ =>
      let kib := λ value, f64_mul value (f64_of_Z 1024) in
      let attrs := [("device", device); ("mountpoint", mountpoint)] in
      push_optional_macos_metric "system.filesystem.total" (kib <$> parse_f64 total) (Some "By") KGauge attrs ++
      push_optional_macos_metric "system.filesystem.used" (kib <$> parse_f64 used) (Some "By") KGauge attrs ++
      push_optional_macos_metric "system.filesystem.available" (kib <$> parse_f64 available) (Some "By") KGauge attrs ++
      push_optional_macos_metric "system.filesystem.usage" (parse_f64 (trim_end_matches "%"%byte capacity))
        (Some "%") KGauge attrs
    | _ => []
    end
  end.

Definition parse_macos_battery_percent (line : string) : option f64 :=
  find_map (λ part,
    percent ← last (split_whitespace (trim part)); value ← strip_suffix "%"%byte percent; parse_f64 value)
    (split_char ";"%byte line).

Definition f64_flag (b : bool) : f64 := if b then f64_of_Z 1 else S754_zero false.

Definition collect_macos_battery_metrics (pmset : string) : list Metric :=
  let ac_connected := contains pmset "AC Power" || contains pmset "AC attached" in
  let battery_line := List.find (λ line, contains line "InternalBattery") (str_lines pmset) in
  let battery_present := from_option (λ line, contains line "present: true") false battery_line in
  [push_macos_metric "macos.power.ac_connected" (f64_flag ac_connected) None KGauge [];
   push_macos_metric "macos.battery.present" (f64_flag battery_present) None KGauge []] ++
  match battery_line with
  | None => []
  | Some line =>
    push_optional_macos_metric "macos.battery.charge" (parse_macos_battery_percent line) (Some "%") KGauge [] ++
    [push_macos_metric "macos.battery.charging"
       (f64_flag (contains line "charging" && negb (contains line "not charging"))) None KGauge []]
  end.

(** The output of a command that exits with success, [None] otherwise. *)
Definition collect_macos_metrics (command_output : string → list string → option string) : list Metric :=
  from_option collect_macos_load_metrics [] (command_output "uptime" []) ++
  from_option collect_macos_vm_metrics [] (command_output "vm_stat" []) ++
  from_option collect_macos_filesystem_metrics [] (command_output "df" ["-k"; "/"]) ++
  from_option collect_macos_battery_metrics [] (command_output "pmset" ["-g"; "batt"]).

(** ** The sampler *)

Definition PROC_STAT : string := "/proc/stat".
Definition PROC_LOADAVG : string := "/proc/loadavg".
Definition PROC_MEMINFO : string := "/proc/meminfo".
Definition PROC_UPTIME : string := "/proc/uptime".
Definition PROC_MOUNTS : string := "/proc/mounts".
Definition PROC_DISKSTATS : string := "/proc/diskstats".
Definition PROC_NET_DEV : string := "/proc/net/dev".
Definition PROC_SELF_STATUS : string := "/proc/self/status".

(** What a cycle observes of the host: [read_to_string] of a path, statvfs(2),
    and the entries of /proc/self/fd. *)
Record Host := {
  read_to_string : string → option string;
  host_statvfs : string → option RawStatvfs;
  open_fds : option Z;
}.

Record SystemSampler := { previous_cpu : option CpuSnapshot }.

Definition sampler_new (h : Host) : SystemSampler :=
  {| previous_cpu := read_to_string h PROC_STAT ≫= parse_cpu_snapshot |}.

(** [SystemSampler::collect] on Linux. *)
Definition sampler_collect (h : Host) (s : SystemSampler) : list Metric * SystemSampler :=
  let '(cpu, s) :=
    match read_to_string h PROC_STAT with
    | Some stat =>
      let '(current_cpu, out) := collect_cpu_metrics stat (previous_cpu s) in
      (out, {| previous_cpu := current_cpu |})
    | None => ([], s)
    end in
  let from path collector := from_option collector [] (read_to_string h path) in
  (cpu ++ from PROC_LOADAVG collect_load_metrics ++ from PROC_MEMINFO collect_memory_metrics ++
   from PROC_UPTIME collect_uptime_metrics ++
   from PROC_MOUNTS (collect_filesystem_metrics (host_statvfs h)) ++
   from PROC_DISKSTATS collect_disk_io_metrics ++ from PROC_NET_DEV collect_network_metrics ++
   from PROC_SELF_STATUS collect_process_metrics ++ collect_open_fd_count (open_fds h), s).

(** ** The unit tests *)

Definition value_of (metric : string) (out : list Metric) : option f64 :=
  metric_value <$> List.find (λ m, bool_decide (name m = metric)) out.

Definition tab : string := of_bytes ["009"%byte].

Example linux_tests :
  let first := unlines ["cpu  100 0 100 800 0 0 0 0 0 0"; "cpu0 50 0 50 400 0 0 0 0 0 0"] in
  let second := unlines ["cpu  150 0 150 900 0 0 0 0 0 0"; "cpu0 75 0 75 450 0 0 0 0 0 0"] in
  (attributes <$> (collect_cpu_metrics second (parse_cpu_snapshot first)).2)
    = [[("cpu", "total")]; [("cpu", "0")]] ∧
  value_of "system.cpu.usage" (collect_cpu_metrics second (parse_cpu_snapshot first)).2 = Some (f64_of_Z 50) ∧
  value_of "system.memory.used" (collect_memory_metrics
    (unlines ["MemTotal:       1000 kB"; "MemFree:         100 kB"; "MemAvailable:    400 kB"]))
    = Some (f64_of_Z 614400) ∧
  value_of "process.threads" (collect_process_metrics (unlines ["VmSize:        2048 kB"; "Threads:          8"]))
    = Some (f64_of_Z 8) ∧
  value_of "system.network.tx_packets" (collect_network_metrics
    (unlines [""; ""; "  eth0: 100 2 3 4 0 0 0 0 200 5 6 7 0 0 0 0"])) = Some (f64_of_Z 5).
Proof. cbv zeta. split_and!; vm_refl. Qed.

Example macos_tests :
  parse_f64 "1.81" = value_of "system.load.1m"
    (collect_macos_load_metrics "21:40  1 user, load averages: 1.81 2.15 2.48") ∧
  value_of "system.memory.free" (collect_macos_vm_metrics
    (unlines ["Mach Virtual Memory Statistics: (page size of 16384 bytes)";
              "Pages free:                               36,408."])) = Some (f64_of_Z (36408 * 16384)) ∧
  value_of "system.filesystem.usage" (collect_macos_filesystem_metrics
    (unlines ["Filesystem     1024-blocks      Used Available Capacity iused      ifree %iused  Mounted on";
              "/dev/disk2s1s1   244605332  12261616 136623220     9%  458116 1366232200    0%   /"]))
    = Some (f64_of_Z 9) ∧
  let out := collect_macos_battery_metrics
    (unlines ["Now drawing from 'AC Power'";
              " -InternalBattery-0 (id=23396451)" +:+ tab +:+ "80%; AC attached; not charging present: true"]) in
  value_of "macos.battery.charge" out = Some (f64_of_Z 80) ∧
  value_of "macos.battery.charging" out = Some (S754_zero false).
Proof. cbv zeta. split_and!; vm_refl. Qed.

(** The test's own [df] output: the sixth column is the count of used inodes,
    and that is what the code reports as the mount point. *)
Example macos_mountpoint_is_iused :
  attributes <$> head (collect_macos_filesystem_metrics
    (unlines ["Filesystem     1024-blocks      Used Available Capacity iused      ifree %iused  Mounted on";
              "/dev/disk2s1s1   244605332  12261616 136623220     9%  458116 1366232200    0%   /"]))
  = Some [("device", "/dev/disk2s1s1"); ("mountpoint", "458116")].
Proof. vm_refl. Qed.
