(* ===== verification/SystemTables.v ===== *)
(** * Host metrics read back from the kernel's tables

    The kernel writes /proc/stat, /proc/mounts and /proc/net/dev as lines of
    fields separated by blanks, with four bytes of a mount's name as octal
    escapes.  This file prints such tables from the kernel's own records and
    proves what the collectors of SystemMetrics make of them. *)

From S2P Require Import Prelude RustStr Otlp RustFloat RustText SystemMetrics.

(** ** /proc/mounts *)

(** seq_escape of fs/proc_namespace.c on a blank, a tab, a newline and a
    backslash. *)
Definition BLANK : byte := " "%byte.
Definition TAB : byte := "009"%byte.
Definition BACKSLASH : byte := "\"%byte.
Definition escape_table : list (byte * list byte) :=
  [(BLANK, as_bytes "\040"); (TAB, as_bytes "\011"); (NEWLINE, as_bytes "\012"); (BACKSLASH, as_bytes "\134")].
Definition mount_escape (b : byte) : list byte :=
  default [b] (snd <$> List.find (λ e, bool_decide (e.1 = b)) escape_table).
Definition escape_mount_value (s : string) : string := of_bytes (mjoin (mount_escape <$> as_bytes s)).

(** The escapes that are still there after the codes of [gone] were replaced. *)
Definition escape_rest (gone : list byte) (b : byte) : list byte :=
  if bool_decide (b ∈ gone) then [b] else mount_escape b.

Lemma mjoin_cons {A} (x : list A) l : mjoin (x :: l) = x ++ mjoin l.
Proof. done. Qed.

Lemma replace_skip from to_ k l rest : length l = k →
  replace_bytes from to_ k (l ++ rest) = replace_bytes from to_ 0 rest.
Proof. revert k. induction l as [|b l IH]; intros [|k]; simpl; try done. intros [= H]. by apply IH. Qed.

Lemma replace_keep from to_ l rest :
  Forall (λ b, head from ≠ Some b) l → from ≠ [] →
  replace_bytes from to_ 0 (l ++ rest) = l ++ replace_bytes from to_ 0 rest.
Proof.
  intros Hl Hf. destruct from as [|f from]; [done|]. induction Hl as [|b l Hb _ IH]; [done|].
  simpl. simpl in Hb. rewrite bool_decide_false by congruence. simpl. by rewrite IH.
Qed.

Lemma replace_hit from to_ rest : from ≠ [] →
  replace_bytes from to_ 0 (from ++ rest) = to_ ++ replace_bytes from to_ 0 rest.
Proof.
  destruct from as [|f from]; [done|]. intros _. cbn [app replace_bytes].
  change (f :: from ++ rest) with ((f :: from) ++ rest). rewrite list_prefix_app. f_equal.
  by apply replace_skip.
Qed.

(** A code other than the one looked for is copied: its first byte does not
    start a match, and no other of its bytes is a backslash. *)
Lemma replace_other b b' code code' rest : (b, code) ∈ escape_table → (b', code') ∈ escape_table → b ≠ b' →
  replace_bytes code [b] 0 (code' ++ rest) = code' ++ replace_bytes code [b] 0 rest.
Proof.
  unfold escape_table. rewrite !elem_of_cons, !elem_of_nil.
  intros H H' Hne. destruct_or?; simplify_eq; reflexivity.
Qed.

Lemma mount_escape_spec b :
  (∃ code, (b, code) ∈ escape_table ∧ mount_escape b = code) ∨
  (b ≠ BACKSLASH ∧ mount_escape b = [b] ∧ ∀ code, (b, code) ∉ escape_table).
Proof.
  unfold mount_escape. destruct (List.find _ _) as [[b' code]|] eqn:E.
  - apply List.find_some in E as [Hi Hb]. simpl in Hb. apply bool_decide_eq_true in Hb as ->.
    left. exists code. split; [by apply list_elem_of_In|done].
  - right. split_and!; [by intros ->|done|]. intros code Hi%list_elem_of_In.
    pose proof (List.find_none _ _ E _ Hi) as Hn. cbn [fst] in Hn. by rewrite bool_decide_true in Hn.
Qed.

Lemma replace_stage gone b code l : (b, code) ∈ escape_table → BACKSLASH ∉ gone → b ∉ gone →
  replace_bytes code [b] 0 (mjoin (escape_rest gone <$> l)) = mjoin (escape_rest (b :: gone) <$> l).
Proof.
  intros Hb Hg Hbg. assert (code ≠ [] ∧ head code = Some BACKSLASH) as [Hc Hh].
  { revert Hb. unfold escape_table. rewrite !elem_of_cons, elem_of_nil.
    intros H. by destruct_or?; simplify_eq. }
  induction l as [|x l IH]; [done|]. rewrite !fmap_cons, !mjoin_cons.
  assert (∀ y, y ≠ BACKSLASH →
    replace_bytes code [b] 0 ([y] ++ mjoin (escape_rest gone <$> l)) = [y] ++ mjoin (escape_rest (b :: gone) <$> l)) as Hy.
  { intros y Hy. rewrite <-IH. apply replace_keep; [|done]. constructor; [|done]. rewrite Hh. congruence. }
  unfold escape_rest at 1 3. destruct (decide (x ∈ gone)) as [Hx|Hx].
  { rewrite !bool_decide_true by (rewrite ?elem_of_cons; auto). apply Hy. congruence. }
  rewrite (bool_decide_false (x ∈ gone)) by done.
  destruct (mount_escape_spec x) as [(code' & Hx' & ->)|(Hx' & -> & Hn)].
  - destruct (decide (x = b)) as [->|Hne].
    + rewrite bool_decide_true by left.
      assert (code' = code) as ->.
      { revert Hx' Hb. unfold escape_table. rewrite !elem_of_cons, !elem_of_nil.
        intros H H'. destruct_or?; by simplify_eq. }
      by rewrite replace_hit, IH.
    + rewrite bool_decide_false by (rewrite elem_of_cons; naive_solver).
      by rewrite (replace_other b x), IH.
  - rewrite Hy by done. by destruct (bool_decide _).
Qed.

(** Unescaping recovers the kernel's value, whatever bytes it has. *)
Lemma unescape_escape s : unescape_mount_value (escape_mount_value s) = s.
Proof.
  unfold unescape_mount_value, replace, escape_mount_value, newline. rewrite !as_of_bytes.
  change (mount_escape <$> as_bytes s) with (escape_rest [] <$> as_bytes s).
  change (as_bytes " ") with [BLANK]. change (as_bytes "\") with [BACKSLASH].
  rewrite (replace_stage [] BLANK); [|by repeat constructor|set_solver|set_solver].
  rewrite (replace_stage [BLANK] TAB); [|by repeat constructor|by (intros ?; set_unfold; naive_solver)..].
  rewrite (replace_stage [TAB; BLANK] NEWLINE); [|by repeat constructor|by (intros ?; set_unfold; naive_solver)..].
  rewrite (replace_stage [NEWLINE; TAB; BLANK] BACKSLASH); [|by repeat constructor|by (intros ?; set_unfold; naive_solver)..].
  rewrite <-(of_as_bytes s) at 2. f_equal. induction (as_bytes s) as [|b l IH]; [done|].
  rewrite fmap_cons, mjoin_cons, IH. unfold escape_rest.
  destruct (bool_decide _) eqn:E; [done|]. apply bool_decide_eq_false in E.
  destruct (mount_escape_spec b) as [(code & Hb & _)|(_ & -> & _)]; [|done].
  destruct E. revert Hb. unfold escape_table. rewrite !elem_of_cons, !elem_of_nil. naive_solver.
Qed.

Record Mount := { m_device : string; m_point : string; m_type : string; m_options : string }.
Definition mount_text (m : Mount) : string :=
  fields [escape_mount_value (m_device m); escape_mount_value (m_point m); m_type m; m_options m; "0"; "0"].

(** The escaped names hold no character that Rust takes for white space.  The
    kernel escapes only the four bytes above, so this excludes, for instance,
    a mount point with an ideographic space (see [wide_blank_mount]). *)
Definition mount_ok (m : Mount) : Prop :=
  word (escape_mount_value (m_device m)) ∧ word (escape_mount_value (m_point m)) ∧
  word (m_type m) ∧ word (m_options m).

(** The mounts to report: real file systems, the first at each mount point. *)
Fixpoint mounts_reported (ms : list Mount) : list Mount :=
  match ms with
  | [] => []
  | m :: ms => if is_virtual_filesystem (m_type m) then mounts_reported ms
               else m :: filter (λ m', m_point m' ≠ m_point m) (mounts_reported ms)
  end.
Definition report_mount (call : string → option RawStatvfs) (m : Mount) : list Metric :=
  from_option (mount_metrics (m_device m) (m_point m) (m_type m)) [] (statvfs call (m_point m)).

Lemma word_zero : word "0".
Proof. split_and!; [exact eq_refl|done|by repeat constructor]. Qed.


Lemma mount_words m : mount_ok m →
  Forall word [escape_mount_value (m_device m); escape_mount_value (m_point m); m_type m; m_options m; "0"; "0"].
Proof. intros (Hd & Hp & Ht & Ho). repeat apply Forall_cons_2; auto using word_zero. Qed.

Lemma mount_line_text call seen m : mount_ok m →
  mount_line call seen (mount_text m) =
    if is_virtual_filesystem (m_type m) || bool_decide (m_point m ∈ seen) then (seen, [])
    else ({[ m_point m ]} ∪ seen, report_mount call m).
Proof.
  intros Hm. unfold mount_line, mount_text. rewrite split_whitespace_fields by by apply mount_words.
  rewrite !unescape_escape. by destruct (is_virtual_filesystem _), (bool_decide _).
Qed.

Lemma collect_mounts_text call seen ms : Forall mount_ok ms →
  collect_mounts call seen (mount_text <$> ms) =
    mjoin (report_mount call <$> filter (λ m, m_point m ∉ seen) (mounts_reported ms)).
Proof.
  intros Hms. revert seen. induction Hms as [|m ms Hm _ IH]; intros seen; [done|].
  rewrite fmap_cons. cbn [collect_mounts]. rewrite mount_line_text by done. cbn [mounts_reported].
  destruct (is_virtual_filesystem (m_type m)); [apply IH|].
  destruct (decide (m_point m ∈ seen)) as [Hs|Hs].
  - rewrite bool_decide_true by done. cbn [orb app]. rewrite IH, filter_cons_False by naive_solver.
    rewrite list_filter_filter. do 2 f_equal. apply list_filter_iff. intros x. split; [|naive_solver].
    intros Hx. split; [done|]. congruence.
  - rewrite bool_decide_false by done. cbn [orb]. rewrite IH, filter_cons_True, fmap_cons, mjoin_cons by done.
    do 2 f_equal. rewrite list_filter_filter. apply (f_equal (fmap _)), list_filter_iff. set_solver.
Qed.

Lemma collect_filesystem_text call ms : Forall mount_ok ms →
  collect_filesystem_metrics call (unlines (mount_text <$> ms)) = mjoin (report_mount call <$> mounts_reported ms).
Proof.
  intros Hms. unfold collect_filesystem_metrics. rewrite str_lines_unlines, collect_mounts_text by
    (done || (apply Forall_fmap; eapply Forall_impl; [done|]; intros m Hm; by apply fields_line, mount_words)).
  do 2 f_equal. apply filter_all. set_solver.
Qed.

(** ** /proc/stat and /proc/net/dev *)

(** Counters after a name, aligned in any way: [pad i z] more blanks than one
    in front of column [i]. *)
Definition counter_columns (pad : nat → Z → nat) (zs : list Z) : list (nat * string) :=
  imap (λ i z, (pad i z, u64_to_string z)) zs.

Lemma counter_columns_text pad zs : (counter_columns pad zs).*2 = u64_to_string <$> zs.
Proof.
  unfold counter_columns. rewrite fmap_imap. revert pad. induction zs as [|z zs IH]; intros pad; [done|].
  rewrite imap_cons, fmap_cons. f_equal. apply (IH (λ i, pad (S i))).
Qed.

Lemma counter_columns_words pad zs : Forall (λ c, word c.2) (counter_columns pad zs).
Proof.
  apply (Forall_fmap snd word). rewrite counter_columns_text.
  apply Forall_fmap, Forall_true. intros z. apply u64_word.
Qed.

Record CpuCounters := { cc_name : string; cc_values : list Z }.
Definition cc_total (c : CpuCounters) : Z := sumZ (cc_values c).
Definition cc_idle (c : CpuCounters) : Z :=
  default 0 (cc_values c !! 3%nat) + default 0 (cc_values c !! 4%nat).
(** Everything but [idle] and [iowait]. *)
Definition cc_busy (c : CpuCounters) : Z := sumZ (take 3 (cc_values c)) + sumZ (drop 5 (cc_values c)).
Definition cpu_ok (c : CpuCounters) : Prop :=
  word (cc_name c) ∧ starts_with (cc_name c) "cpu" = true ∧ (4 ≤ length (cc_values c))%nat ∧
  Forall (λ z, 0 ≤ z) (cc_values c) ∧ cc_total c ≤ u64_max.

Definition cpu_text (pad : nat → Z → nat) (c : CpuCounters) : string :=
  cc_name c +:+ columns (counter_columns pad (cc_values c)).
(** The other lines of /proc/stat. *)
Definition other_line (line : string) : Prop :=
  line_text line ∧ ∀ w, head (split_whitespace line) = Some w → starts_with w "cpu" = false.
Definition stat_text (pad : nat → Z → nat) (cs : list CpuCounters) (others : list string) : string :=
  unlines ((cpu_text pad <$> cs) ++ others).

Definition cpu_line_of (c : CpuCounters) : CpuLine :=
  {| cpu_name := cc_name c; cpu_total := cc_total c; cpu_idle := cc_idle c |}.

Lemma wrap_sum acc zs : 0 ≤ acc → Forall (λ z, 0 ≤ z) zs → acc + sumZ zs ≤ u64_max →
  foldl wrap_add acc zs = acc + sumZ zs.
Proof.
  intros Ha Hz. revert acc Ha. induction Hz as [|z zs Hz Hzs IH]; intros acc Ha; cbn [foldl].
  - rewrite sumZ_nil. lia.
  - rewrite sumZ_cons. intros Hle. pose proof (sumZ_nonneg zs Hzs).
    unfold wrap_add. rewrite Z.mod_small by (unfold u64_max in Hle; lia). rewrite IH by lia. lia.
Qed.

Lemma cc_split c : cc_total c = cc_busy c + cc_idle c.
Proof.
  unfold cc_total, cc_busy, cc_idle, sumZ.
  destruct (cc_values c) as [|a [|b [|d [|e [|f l]]]]]; cbn -[Z.add]; rewrite ?drop_0; lia.
Qed.

Lemma cc_nonneg c : cpu_ok c → 0 ≤ cc_idle c ∧ 0 ≤ cc_busy c.
Proof.
  intros (_ & _ & _ & Hz & _). unfold cc_idle, cc_busy. split.
  - assert (∀ i, 0 ≤ default 0 (cc_values c !! i)) as H; [|pose proof (H 3%nat); pose proof (H 4%nat); lia].
    intros i. destruct (cc_values c !! i) eqn:E; [|done]. by eapply Forall_lookup_1 in E.
  - pose proof (sumZ_nonneg _ (Forall_take _ 3 _ Hz)). pose proof (sumZ_nonneg _ (Forall_drop _ 5 _ Hz)). lia.
Qed.

Lemma mapM_u64 zs : Forall (λ z, 0 ≤ z) zs → sumZ zs ≤ u64_max →
  mapM parse_u64 (u64_to_string <$> zs) = Some zs.
Proof.
  intros Hz Hs. apply mapM_Some_2. apply Forall2_fmap_l, Forall_Forall2_diag. revert Hs.
  induction Hz as [|z zs Hz Hzs IH]; [constructor|]. rewrite sumZ_cons. intros Hs.
  pose proof (sumZ_nonneg zs Hzs). constructor; [|apply IH; lia].
  apply parse_u64_to_string. unfold in_u64. lia.
Qed.

Lemma parse_cpu_text pad c : cpu_ok c → parse_cpu_line (cpu_text pad c) = Some (cpu_line_of c).
Proof.
  intros Hc. pose proof (cc_nonneg c Hc) as [Hi Hb]. pose proof (cc_split c) as Hs.
  destruct Hc as (Hw & Hn & Hl & Hz & Ht). unfold parse_cpu_line, cpu_text.
  rewrite split_whitespace_columns by (done || apply counter_columns_words).
  rewrite counter_columns_text, Hn, mapM_u64 by done. cbn [negb mbind option_bind].
  destruct (length (cc_values c) <? 4)%nat eqn:E; [apply Nat.ltb_lt in E; lia|].
  rewrite wrap_sum by (done || unfold cc_total in *; lia). unfold wrap_add, cpu_line_of.
  rewrite Z.mod_small; [done|]. fold (cc_idle c). unfold u64_max in Ht. lia.
Qed.

Lemma cpu_text_line pad c : cpu_ok c → line_text (cpu_text pad c).
Proof. intros (Hw & _). apply columns_line; [by apply word_line|apply counter_columns_words]. Qed.

Lemma other_line_None line : other_line line → parse_cpu_line line = None.
Proof.
  intros [_ H]. unfold parse_cpu_line. destruct (split_whitespace line) as [|w ws]; [done|].
  by rewrite (H w).
Qed.

Lemma parse_stat_text pad cs others : cs ≠ [] → Forall cpu_ok cs → Forall other_line others →
  parse_cpu_snapshot (stat_text pad cs others) = Some (cpu_line_of <$> cs).
Proof.
  intros Hne Hcs Ho. unfold parse_cpu_snapshot, stat_text. rewrite str_lines_unlines.
  2:{ apply Forall_app. split; [|eapply Forall_impl; [done|]; by intros ? [? _]].
      apply Forall_fmap. eapply Forall_impl; [done|]. intros c Hc. by apply cpu_text_line. }
  rewrite omap_app.
  assert (omap parse_cpu_line others = []) as ->.
  { induction Ho as [|l ls Hl _ IH]; [done|]. simpl. by rewrite other_line_None. }
  assert (omap parse_cpu_line (cpu_text pad <$> cs) = cpu_line_of <$> cs) as ->.
  { clear Hne. induction Hcs as [|c cs Hc _ IH]; [done|]. rewrite !fmap_cons. simpl.
    rewrite parse_cpu_text by done. f_equal. exact IH. }
  rewrite app_nil_r. by destruct cs.
Qed.

(** The share of the time between two readings a processor was busy. *)
Definition cpu_report (previous : list CpuCounters) (c : CpuCounters) : option Metric :=
  c0 ← List.find (λ c0, bool_decide (cc_name c0 = cc_name c)) previous;
  if cc_total c =? cc_total c0 then None
  else Some (push_metric "system.cpu.usage"
         (f64_div (f64_mul (f64_of_Z 100) (f64_of_Z (cc_busy c - cc_busy c0))) (f64_of_Z (cc_total c - cc_total c0)))
         (Some "%") KGauge [("cpu", cpu_attr (cc_name c))]).

(** No counter runs backwards between two readings. *)
Definition advances (previous cs : list CpuCounters) : Prop :=
  ∀ c0 c, c0 ∈ previous → c ∈ cs → cc_name c0 = cc_name c → Forall2 Z.le (cc_values c0) (cc_values c).

Lemma sumZ_le xs ys : Forall2 Z.le xs ys → sumZ xs ≤ sumZ ys.
Proof. induction 1; [done|]. rewrite !sumZ_cons. lia. Qed.

Lemma advances_le c0 c : Forall2 Z.le (cc_values c0) (cc_values c) →
  cc_idle c0 ≤ cc_idle c ∧ cc_busy c0 ≤ cc_busy c.
Proof.
  intros H. unfold cc_idle, cc_busy. split.
  - assert (∀ i, default 0 (cc_values c0 !! i) ≤ default 0 (cc_values c !! i)) as Hi;
      [|pose proof (Hi 3%nat); pose proof (Hi 4%nat); lia].
    intros i. apply (Forall2_lookup _ _ _) with (i := i) in H. by destruct H.
  - pose proof (sumZ_le _ _ (Forall2_take _ _ _ 3 H)). pose proof (sumZ_le _ _ (Forall2_drop _ _ _ 5 H)). lia.
Qed.

Lemma find_cpu_line previous n :
  List.find (λ prev, bool_decide (cpu_name prev = n)) (cpu_line_of <$> previous) =
  cpu_line_of <$> List.find (λ c0, bool_decide (cc_name c0 = n)) previous.
Proof.
  induction previous as [|c previous IH]; [done|]. simpl. destruct (bool_decide _); [done|]. exact IH.
Qed.

Lemma cpu_usage_report previous c : Forall cpu_ok previous → cpu_ok c →
  (∀ c0, c0 ∈ previous → cc_name c0 = cc_name c → Forall2 Z.le (cc_values c0) (cc_values c)) →
  cpu_usage (cpu_line_of <$> previous) (cpu_line_of c) = cpu_report previous c.
Proof.
  intros Hp Hc Ha. unfold cpu_usage, cpu_report. cbn [cpu_name cpu_line_of]. rewrite find_cpu_line.
  destruct (List.find _ previous) as [c0|] eqn:E; [|done]. cbn [fmap option_fmap option_map mbind option_bind].
  apply List.find_some in E as [Hi%list_elem_of_In Hn%bool_decide_eq_true].
  destruct (advances_le c0 c (Ha c0 Hi Hn)) as [Hidle Hbusy].
  pose proof (cc_split c0). pose proof (cc_split c). cbn [cpu_total cpu_idle cpu_line_of].
  unfold sat_sub. rewrite !Z.max_l by lia.
  destruct (cc_total c =? cc_total c0) eqn:Et; to_prop.
  - rewrite Et, Z.sub_diag. done.
  - rewrite (proj2 (Z.eqb_neq _ _)) by lia. do 5 f_equal. lia.
Qed.

Record Interface := { if_name : string; if_counters : list Z }.
Definition if_ok (i : Interface) : Prop :=
  word (if_name i) ∧ (":"%byte ∉ as_bytes (if_name i)) ∧ (16 ≤ length (if_counters i))%nat ∧
  Forall (λ z, 0 ≤ z) (if_counters i).
(** The name right-aligned in [width] columns. *)
Definition if_text (width : nat) (pad : nat → Z → nat) (i : Interface) : string :=
  blanks (width - length (as_bytes (if_name i))) +:+ if_name i +:+ ":" +:+ columns (counter_columns pad (if_counters i)).
Definition if_report (i : Interface) : list Metric :=
  omap (λ '(name, column, unit),
    (λ z, push_metric name (f64_of_Z z) unit KSum [("interface", if_name i)]) <$> if_counters i !! column)
    network_columns.

Lemma split_once_bytes_app c a b : c ∉ a → split_once_bytes c (a ++ c :: b) = Some (a, b).
Proof.
  induction a as [|x a IH]; intros Ha; simpl.
  - by rewrite bool_decide_true.
  - apply not_elem_of_cons in Ha as [Hx Ha]. rewrite bool_decide_false by congruence. by rewrite IH.
Qed.

Lemma omap_parse_f64 zs : Forall (λ z, 0 ≤ z) zs →
  omap parse_f64 (u64_to_string <$> zs) = f64_of_Z <$> zs.
Proof.
  induction 1 as [|z zs Hz _ IH]; [done|]. rewrite !fmap_cons. simpl.
  rewrite parse_f64_to_string by done. f_equal. exact IH.
Qed.

Lemma blanks_no_colon n : ":"%byte ∉ as_bytes (blanks n).
Proof. unfold blanks. rewrite as_of_bytes. intros H. by apply elem_of_replicate_inv in H. Qed.

Lemma network_line_text width pad i : if_ok i → network_line (if_text width pad i) = if_report i.
Proof.
  intros (Hw & Hc & Hl & Hz). unfold network_line, if_text, split_once. set (n := (width - _)%nat).
  rewrite !as_bytes_app. change (as_bytes ":") with [":"%byte]. rewrite app_assoc. cbn [app].
  rewrite split_once_bytes_app by (apply not_elem_of_app; split; [apply blanks_no_colon|done]).
  rewrite <-as_bytes_app, !of_as_bytes, trim_blanks by done.
  unfold is_empty. rewrite (bool_decide_false (if_name i = "")) by apply Hw.
  rewrite split_whitespace_columns_only by apply counter_columns_words.
  rewrite counter_columns_text, omap_parse_f64, length_fmap by done.
  destruct (length (if_counters i) <? 16)%nat eqn:E; [apply Nat.ltb_lt in E; lia|].
  unfold if_report. apply list_omap_ext, Forall_Forall2_diag, Forall_true. intros [[name col] unit].
  rewrite list_lookup_fmap. by destruct (if_counters i !! col).
Qed.

Lemma if_text_line width pad i : if_ok i → line_text (if_text width pad i).
Proof.
  intros (Hw & _ & _ & _). unfold if_text. rewrite <-!string_app_assoc. apply columns_line; [|apply counter_columns_words].
  unfold line_text. rewrite !as_bytes_app, !not_elem_of_app, last_app. split; [|done].
  split_and!; [apply blanks_no_newline|by apply word_no_blank|by apply not_elem_of_cons; split; [|apply not_elem_of_nil]].
Qed.

Lemma collect_network_text width pad header1 header2 ifs : line_text header1 → line_text header2 → Forall if_ok ifs →
  collect_network_metrics (unlines (header1 :: header2 :: (if_text width pad <$> ifs))) = mjoin (if_report <$> ifs).
Proof.
  intros H1 H2 Hi. unfold collect_network_metrics. rewrite str_lines_unlines.
  2:{ repeat (constructor; [done|]). apply Forall_fmap. eapply Forall_impl; [done|]. intros i. apply if_text_line. }
  cbn [drop]. f_equal. rewrite drop_0. induction Hi as [|i ifs Hi _ IH]; [done|]. rewrite !fmap_cons.
  by rewrite network_line_text, IH.
Qed.

(** ** Theorems *)

(** What the host's tables say between two cycles. *)
Record tables_ok (previous cs : list CpuCounters) (others : list string) (ms : list Mount)
    (headers : string * string) (ifs : list Interface) : Prop := {
  tk_previous : Forall cpu_ok previous;
  tk_cpus : cs ≠ [] ∧ Forall cpu_ok cs ∧ Forall other_line others;
  tk_advances : advances previous cs;
  tk_mounts : Forall mount_ok ms;
  tk_network : line_text headers.1 ∧ line_text headers.2 ∧ Forall if_ok ifs;
}.

(** C25: on the tables as the kernel prints them, in any alignment, a cycle
    reports for each processor the busy share of the time since the previous
    cycle, for each real mount point once the sizes of the file system mounted
    there first, under the unescaped names, and for each interface its
    counters; and it keeps the readings the next cycle compares with. *)
Theorem host_metrics_exact h s width pad previous cs others ms headers ifs :
  tables_ok previous cs others ms headers ifs →
  previous_cpu s = Some (cpu_line_of <$> previous) →
  read_to_string h PROC_STAT = Some (stat_text pad cs others) →
  read_to_string h PROC_MOUNTS = Some (unlines (mount_text <$> ms)) →
  read_to_string h PROC_NET_DEV = Some (unlines (headers.1 :: headers.2 :: (if_text width pad <$> ifs))) →
  sampler_collect h s =
    (omap (cpu_report previous) cs ++
     from_option collect_load_metrics [] (read_to_string h PROC_LOADAVG) ++
     from_option collect_memory_metrics [] (read_to_string h PROC_MEMINFO) ++
     from_option collect_uptime_metrics [] (read_to_string h PROC_UPTIME) ++
     mjoin (report_mount (host_statvfs h) <$> mounts_reported ms) ++
     from_option collect_disk_io_metrics [] (read_to_string h PROC_DISKSTATS) ++
     mjoin (if_report <$> ifs) ++
     from_option collect_process_metrics [] (read_to_string h PROC_SELF_STATUS) ++
     collect_open_fd_count (open_fds h),
     {| previous_cpu := Some (cpu_line_of <$> cs) |}) ∧
  sampler_new h = {| previous_cpu := Some (cpu_line_of <$> cs) |}.
Proof.
  intros [Hp (Hne & Hcs & Ho) Ha Hm (H1 & H2 & Hi)] Hs Es Em En.
  unfold sampler_collect, sampler_new, collect_cpu_metrics.
  rewrite Es, Em, En, Hs. cbn [from_option mbind option_bind]. rewrite parse_stat_text by done.
  split; [|done]. rewrite collect_filesystem_text, collect_network_text by done. do 2 f_equal.
  apply list_omap_ext, Forall2_fmap_l, Forall_Forall2_diag, Forall_forall. intros c Hc.
  apply cpu_usage_report; [done|by eapply Forall_forall in Hcs|]. intros c0 H0 Hn. by apply Ha.
Qed.

(** ** A small host *)

Definition demo_cpu (user idle : Z) : CpuCounters := {| cc_name := "cpu0"; cc_values := [user; 0; 0; idle] |}.
Definition demo_mount : Mount :=
  {| m_device := "/dev/sda1"; m_point := "/mnt/my disk"; m_type := "ext4"; m_options := "rw" |}.
Definition demo_if : Interface := {| if_name := "eth0"; if_counters := Z.of_nat <$> seq 1 16 |}.
Definition demo_pad (_ : nat) (_ : Z) : nat := 0.
Definition demo_host : Host :=
  {| read_to_string := λ path,
       if bool_decide (path = PROC_STAT) then Some (stat_text demo_pad [demo_cpu 150 950] ["ctxt 7"])
       else if bool_decide (path = PROC_MOUNTS) then Some (unlines [mount_text demo_mount])
       else if bool_decide (path = PROC_NET_DEV) then Some (unlines ["Inter-|"; " face |"; if_text 6 demo_pad demo_if])
       else None;
     host_statvfs := λ path, if bool_decide (path = "/mnt/my disk")
                             then Some {| f_frsize := 4096; f_blocks := 100; f_bfree := 40; f_bavail := 30 |} else None;
     open_fds := None |}.

(** Deciding the side conditions of the tables on concrete text. *)
Lemma word_decide w : valid_str w → bool_decide (w = "") = false →
  forallb (λ c, negb (chunk_is is_whitespace c)) (chars w) = true → word w.
Proof.
  intros Hv Hn Hw. split_and!; [done|by apply bool_decide_eq_false in Hn|].
  apply Forall_forall. intros c Hc%list_elem_of_In. rewrite List.forallb_forall in Hw.
  apply Hw in Hc. by apply negb_true_iff in Hc.
Qed.
Lemma line_decide s : bool_decide (NEWLINE ∉ as_bytes s) && bool_decide (last (as_bytes s) ≠ Some CARRIAGE_RETURN) = true →
  line_text s.
Proof. intros [H1 H2]%andb_true_iff. by apply bool_decide_eq_true in H1, H2. Qed.

Ltac text_ok :=
  match goal with
  | |- word _ => apply word_decide; [exact eq_refl|vm_refl|vm_refl]
  | |- line_text _ => apply line_decide; vm_refl
  end.

Lemma host_metrics_exact_witness :
  (sampler_collect demo_host {| previous_cpu := Some [cpu_line_of (demo_cpu 100 900)] |}).2
  = {| previous_cpu := Some [cpu_line_of (demo_cpu 150 950)] |}.
Proof.
  destruct (host_metrics_exact demo_host {| previous_cpu := Some [cpu_line_of (demo_cpu 100 900)] |} 6 demo_pad
    [demo_cpu 100 900] [demo_cpu 150 950] ["ctxt 7"] [demo_mount] ("Inter-|", " face |") [demo_if]) as [E _].
  - split.
    + apply Forall_singleton. split_and!; [text_ok|vm_refl|simpl; lia|repeat constructor; done|by vm_compute].
    + split_and!; [done| |].
      * apply Forall_singleton. split_and!; [text_ok|vm_refl|simpl; lia|repeat constructor; done|by vm_compute].
      * apply Forall_singleton. split; [text_ok|]. intros w Hw. vm_compute in Hw. by injection Hw as <-.
    + intros c0 c ->%list_elem_of_singleton ->%list_elem_of_singleton _. by repeat constructor.
    + apply Forall_singleton. split_and!; text_ok.
    + split_and!; [text_ok|text_ok|]. apply Forall_singleton. split_and!; [text_ok| |simpl; lia|].
      * apply (bool_decide_eq_true_1 (":"%byte ∉ as_bytes "eth0")). vm_refl.
      * apply Forall_fmap, Forall_true. intros x. simpl. lia.
  - done.
  - vm_refl.
  - vm_refl.
  - vm_refl.
  - by rewrite E.
Defined.

(** U+3000 *)
Definition IDEOGRAPHIC_SPACE : string := of_bytes [u8 0xE3; u8 0x80; u8 0x80].

(** A mount point with an ideographic space, which the kernel does not escape
    and [split_whitespace] takes for a separator: the metrics are asked of,
    and reported for, the text before it. *)
Example wide_blank_mount :
  mount_line (host_statvfs demo_host) ∅
    (mount_text {| m_device := "/dev/sdb1"; m_point := "/mnt/a" +:+ IDEOGRAPHIC_SPACE +:+ "b"; m_type := "ext4"; m_options := "rw" |})
  = ({[ "/mnt/a" ]}, []).
Proof. vm_refl. Qed.
