(* ===== verification/Receiver.v ===== *)
(** * The client's signal receiver (skid-monitor-client, receiver.rs)

    The listen addresses from the environment, the trusted-local policy on
    numeric socket addresses, and the frame reader with a deadline for the
    whole frame.  [deadline_read_exact] shows that one frame never holds the
    receiver longer than its timeout, and that a peer whose bytes arrive in
    time is read as if there were no deadline. *)

From S2P Require Import Prelude RustStr Otlp Frame.

(** ** [SocketAddr] of the standard library *)

Inductive IpAddr := IpV4 (octets : list Z) | IpV6 (segments : list Z).
Record SocketAddress := { sa_ip : IpAddr; sa_port : Z }.

Definition is_loopback (ip : IpAddr) : bool :=
  match ip with
  | IpV4 octets => bool_decide (head octets = Some 127)
  | IpV6 segments => bool_decide (segments = [0; 0; 0; 0; 0; 0; 0; 1])
  end.

(** The parser of [core::net]: each reader gives a value and the bytes left. *)
Definition hex_value (b : byte) : option Z :=
  let z := b2z b in
  if between 0x30 0x39 z then Some (z - 0x30)
  else if between 0x61 0x66 z then Some (z - 0x57)
  else if between 0x41 0x46 z then Some (z - 0x37)
  else None.
Definition digit_value (radix : Z) (b : byte) : option Z :=
  v ← hex_value b; if v <? radix then Some v else None.

(** The digits at the start. *)
Fixpoint read_digits (radix : Z) (l : list byte) : list Z * list byte :=
  match l with
  | b :: t =>
    match digit_value radix b with
    | Some v => let '(vs, rest) := read_digits radix t in (v :: vs, rest)
    | None => ([], l)
    end
  | [] => ([], [])
  end.

(** [read_number]: at least one digit, at most [max_digits], at most [max]; a
    leading zero needs [zero_prefix] unless it is the number. *)
Definition read_number (radix max : Z) (max_digits : option nat) (zero_prefix : bool) (l : list byte)
    : option (Z * list byte) :=
  let '(digits, rest) := read_digits radix l in
  let value := foldl (λ acc v, acc * radix + v) 0 digits in
  if bool_decide (digits = [])
     || match max_digits with Some n => (n <? length digits)%nat | None => false end
     || (max <? value)
     || (negb zero_prefix && bool_decide (head digits = Some 0) && (1 <? length digits)%nat)
  then None else Some (value, rest).

Definition read_given_char (c : byte) (l : list byte) : option (list byte) :=
  match l with b :: t => if bool_decide (b = c) then Some t else None | [] => None end.

(** [read_separator]: the separator comes before every element but the first. *)
Definition read_separator (sep : byte) (index : nat) (l : list byte) : option (list byte) :=
  match index with O => Some l | S _ => read_given_char sep l end.

Fixpoint read_octets (n index : nat) (l : list byte) : option (list Z * list byte) :=
  match n with
  | O => Some ([], l)
  | S n =>
    l ← read_separator "."%byte index l;
    '(v, l) ← read_number 10 255 (Some 3%nat) false l;
    '(vs, l) ← read_octets n (S index) l;
    Some (v :: vs, l)
  end.
Definition read_ipv4_addr : list byte → option (list Z * list byte) := read_octets 4 0.

(** [read_groups]: up to [limit] groups; an IPv4 address at the end counts as
    two.  The flag says that it ended with one. *)
Fixpoint read_groups (limit index : nat) (l : list byte) : list Z * bool * list byte :=
  match limit with
  | O => ([], false, l)
  | S limit' =>
    let v4 :=
      match limit' with
      | O => None
      | S _ => l ← read_separator ":"%byte index l; read_ipv4_addr l
      end in
    match v4 with
    | Some ([a; b; c; d], rest) => ([a * 256 + b; c * 256 + d], true, rest)
    | _ =>
      match (l ← read_separator ":"%byte index l; read_number 16 0xFFFF (Some 4%nat) true l) with
      | Some (g, rest) => let '(gs, v4, rest) := read_groups limit' (S index) rest in (g :: gs, v4, rest)
      | None => ([], false, l)
      end
    end
  end.

Definition read_ipv6_addr (l : list byte) : option (list Z * list byte) :=
  let '(head, head_v4, rest) := read_groups 8 0 l in
  if bool_decide (length head = 8%nat) then Some (head, rest)
  else if head_v4 then None
  else
    rest ← read_given_char ":"%byte rest;
    rest ← read_given_char ":"%byte rest;
    let '(tail, _, rest) := read_groups (8 - (length head + 1)) 0 rest in
    Some (head ++ replicate (8 - length head - length tail) 0 ++ tail, rest).

Definition read_port (l : list byte) : option (Z * list byte) :=
  l ← read_given_char ":"%byte l; read_number 10 u16_max None true l.

(** An optional scope, [%] and a [u32]. *)
Definition read_scope (l : list byte) : list byte :=
  match (l ← read_given_char "%"%byte l; read_number 10 u32_max None true l) with
  | Some (_, rest) => rest
  | None => l
  end.

Definition read_socket_addr_v4 (l : list byte) : option (SocketAddress * list byte) :=
  '(ip, l) ← read_ipv4_addr l;
  '(port, l) ← read_port l;
  Some ({| sa_ip := IpV4 ip; sa_port := port |}, l).
Definition read_socket_addr_v6 (l : list byte) : option (SocketAddress * list byte) :=
  l ← read_given_char "["%byte l;
  '(ip, l) ← read_ipv6_addr l;
  l ← read_given_char "]"%byte (read_scope l);
  '(port, l) ← read_port l;
  Some ({| sa_ip := IpV6 ip; sa_port := port |}, l).

(** [str::parse::<SocketAddr>]: the whole text is one address. *)
Definition parse_socket_address (s : string) : option SocketAddress :=
  let whole (r : option (SocketAddress * list byte)) :=
    match r with Some (a, []) => Some a | _ => None end in
  match read_socket_addr_v4 (as_bytes s) with
  | Some r => whole (Some r)
  | None => whole (read_socket_addr_v6 (as_bytes s))
  end.

(** ** receiver.rs: the addresses *)

Abbreviation Env := (gmap string string).

Definition DEFAULT_LISTEN_ADDR : string := "127.0.0.1:9000".
Definition CLIENT_ADDRS_ENV : string := "SKID_MONITOR_CLIENT_ADDRS".
Definition CLIENT_ADDR_ENV : string := "SKID_MONITOR_CLIENT_ADDR".
Definition LEGACY_CLIENT_ADDR_ENV : string := "MONITOR_CAT_CLIENT_ADDR".
(** In nanoseconds. *)
Definition DEFAULT_FRAME_READ_TIMEOUT : Z := 5 * 1000000000.

Definition client_env (env : Env) (name : string) : option string :=
  value ← env !! name;
  let value := trim value in
  if is_empty value then None else Some value.

Definition env_or_legacy (env : Env) (primary legacy : string) : option string :=
  match client_env env primary with Some v => Some v | None => client_env env legacy end.

Definition add_addr (addrs : list string) (addr : string) : list string :=
  let addr := trim addr in
  if is_empty addr || bool_decide (addr ∈ addrs) then addrs else addrs ++ [addr].

Definition parse_addr_list (value : string) : list string :=
  foldl add_addr [] (split_char ","%byte value).

Definition listen_addrs (env : Env) : list string :=
  match parse_addr_list <$> client_env env CLIENT_ADDRS_ENV with
  | Some (a :: addrs) => a :: addrs
  | _ =>
    match env_or_legacy env CLIENT_ADDR_ENV LEGACY_CLIENT_ADDR_ENV with
    | Some addr => [addr]
    | None => [DEFAULT_LISTEN_ADDR]
    end
  end.

Definition listen_addr (env : Env) : string := default DEFAULT_LISTEN_ADDR (head (listen_addrs env)).

(** ** receiver.rs: binding

    [display] is the text of a socket address. *)

Section binding.
Context (display : SocketAddress → string).

Definition trusted_local_socket_addr (addr : string) : result IoError SocketAddress :=
  match parse_socket_address addr with
  | None =>
    Err (mkIoError InvalidInput
      ("trusted-local listener requires a numeric IPv4 or IPv6 loopback socket address; rejected "
       +:+ debug_str addr))
  | Some socket_addr =>
    if is_loopback (sa_ip socket_addr) then Ok socket_addr
    else Err (mkIoError InvalidInput
      ("trusted-local listener requires a loopback address; rejected " +:+ display socket_addr))
  end.
End binding.

(** ** receiver.rs: reading a frame before the deadline *)

(** A TCP stream in time: each result is there after a delay; [tcp_timeout]
    is what [set_read_timeout] set.  A read blocks until the result is there
    or the timeout has passed; reading is the only thing that takes time. *)
Record TimedStream := {
  tcp_now : Z;
  tcp_events : list (Z * result IoError (list byte));
  tcp_timeout : option Z;
}.

(** [set_read_timeout] refuses a zero timeout. *)
Definition set_read_timeout (d : Z) (s : TimedStream) : result IoError () * TimedStream :=
  if d =? 0 then (Err (mkIoError InvalidInput "cannot set a 0 duration timeout"), s)
  else (Ok (), {| tcp_now := tcp_now s; tcp_events := tcp_events s; tcp_timeout := Some d |}).

Definition WOULD_BLOCK : IoError := mkIoError WouldBlock "Resource temporarily unavailable (os error 11)".

Definition stream_read (n : nat) (s : TimedStream) : result IoError (list byte) * TimedStream :=
  match tcp_events s with
  | [] => (Ok [], s)
  | (delay, r) :: events =>
    match tcp_timeout s with
    | Some d =>
      if d <? delay then
        (Err WOULD_BLOCK,
         {| tcp_now := tcp_now s + d; tcp_events := (delay - d, r) :: events; tcp_timeout := Some d |})
      else
        let now := tcp_now s + delay in
        match r with
        | Ok seg =>
          (Ok (take n seg),
           {| tcp_now := now;
              tcp_events := if (length seg <=? n)%nat then events else (0, Ok (drop n seg)) :: events;
              tcp_timeout := Some d |})
        | Err e => (Err e, {| tcp_now := now; tcp_events := events; tcp_timeout := Some d |})
        end
    | None =>
      let now := tcp_now s + delay in
      match r with
      | Ok seg =>
        (Ok (take n seg),
         {| tcp_now := now;
            tcp_events := if (length seg <=? n)%nat then events else (0, Ok (drop n seg)) :: events;
            tcp_timeout := None |})
      | Err e => (Err e, {| tcp_now := now; tcp_events := events; tcp_timeout := None |})
      end
    end
  end.

Definition frame_read_timeout_error : IoError :=
  mkIoError TimedOut "timed out while reading signal frame".

Record DeadlineReader := mkDeadlineReader { dr_stream : TimedStream; dr_deadline : Z }.

Definition is_timeout (e : IoError) : bool :=
  bool_decide (io_kind e = TimedOut) || bool_decide (io_kind e = WouldBlock).

#[global] Instance deadline_reader : Reader DeadlineReader := λ n r,
  let s := dr_stream r in
  let remaining := dr_deadline r - tcp_now s in
  if remaining <=? 0 then (Err frame_read_timeout_error, r)
  else
    match set_read_timeout remaining s with
    | (Err e, s) => (Err e, mkDeadlineReader s (dr_deadline r))
    | (Ok _, s) =>
      match stream_read n s with
      | (Err e, s) =>
        (Err (if is_timeout e then frame_read_timeout_error else e), mkDeadlineReader s (dr_deadline r))
      | (Ok bs, s) => (Ok bs, mkDeadlineReader s (dr_deadline r))
      end
    end.

Section deadline.
Context `{SignalCodec}.

(** [Instant::now().checked_add] does not overflow for the timeouts used. *)
Definition read_signal_with_deadline (fuel : nat) (timeout : Z) (stream : TimedStream)
    : option (result IoError Signal * TimedStream) :=
  match set_read_timeout timeout stream with
  | (Err e, stream) => Some (Err e, stream)
  | (Ok _, stream) =>
    '(r, reader) ← read_signal fuel (mkDeadlineReader stream (tcp_now stream + timeout));
    Some (r, dr_stream reader)
  end.
End deadline.

(** ** Lemmas *)

Definition delays (r : DeadlineReader) : list Z := (tcp_events (dr_stream r)).*1.
Definition plain (r : DeadlineReader) : socket := (tcp_events (dr_stream r)).*2.

(** Results still to come. *)
Definition ev_count (r : DeadlineReader) : nat := length (tcp_events (dr_stream r)).

(** The clock has not passed the deadline, and time goes forward. *)
Definition timely (r : DeadlineReader) : Prop :=
  tcp_now (dr_stream r) ≤ dr_deadline r ∧ Forall (λ d, 0 ≤ d) (delays r).

(** [r'] is [r] later: the same deadline, no more results to come. *)
Definition later (r r' : DeadlineReader) : Prop :=
  timely r' ∧ dr_deadline r' = dr_deadline r ∧ (ev_count r' ≤ ev_count r)%nat.

Lemma length_plain r : length (plain r) = ev_count r.
Proof. apply length_fmap. Qed.

(** One read: it keeps to the deadline, and it fills the buffer, uses up a
    result, or ends the frame. *)
Lemma deadline_read_step n r : timely r →
  let '(res, r') := read (S n) r in
  later r r' ∧
  match res with
  | Ok [] => True
  | Ok bs => length bs = S n ∨ (ev_count r' < ev_count r)%nat
  | Err e => io_kind e ≠ Interrupted ∨ (ev_count r' < ev_count r)%nat
  end.
Proof.
  intros [Hd Hn]. unfold read, deadline_reader. destruct (_ <=? 0) eqn:E.
  { split; [done|left; done]. }
  to_prop. unfold set_read_timeout. destruct (_ =? 0) eqn:E0; to_prop; [lia|].
  unfold stream_read; simpl. destruct r as [[now evs to_] dl]; unfold later, timely, ev_count, delays in *; simpl in *.
  destruct evs as [|[d res] evs]; simpl in *.
  { split_and!; [done|done|done|done|done]. }
  apply Forall_cons in Hn as [Hd0 Hn]. destruct (_ <? d) eqn:Ed; to_prop; simpl.
  { split_and!; [lia|by constructor; [lia|]|done|lia|by left]. }
  destruct res as [seg|e]; simpl.
  - destruct (Nat.leb_spec (length seg) (S n)); simpl.
    + split_and!; [lia|done|done|lia|]. destruct (take (S n) seg); [done|]. right. lia.
    + split_and!; [lia|by constructor|done|lia|].
      assert (length (take (S n) seg) = S n) as Hl by (rewrite length_take; lia).
      destruct (take (S n) seg); [done|by left].
  - split_and!; [lia|done|done|lia|].
    right. lia.
Qed.

Lemma later_trans r1 r2 r3 : later r1 r2 → later r2 r3 → later r1 r3.
Proof. intros (? & ? & ?) (? & ? & ?). split_and!; [done|congruence|lia]. Qed.

Lemma read_exact_deadline fuel n r : timely r → (ev_count r < fuel)%nat →
  ∃ res r', read_exact fuel n r = Some (res, r') ∧ later r r'.
Proof.
  revert n r. induction fuel as [|fuel IH]; intros n r Ht Hf; [lia|].
  destruct n as [|n]; [exists (Ok []), r; split; [done|]; by split_and!|].
  cbn [read_exact]. pose proof (deadline_read_step n r Ht) as Hs.
  destruct (read (S n) r) as [res r1]. destruct Hs as [Hl Hc].
  destruct res as [[|b bs]|e].
  - by eexists _, _.
  - assert (∃ res r', read_exact fuel (S n - length (b :: bs)) r1 = Some (res, r') ∧ later r1 r') as (res & r' & E & Hl').
    { destruct Hc as [Hc|Hc].
      - rewrite Hc, Nat.sub_diag. exists (Ok []), r1. split; [by destruct fuel|]. destruct Hl. by split_and!.
      - apply IH; [apply Hl|lia]. }
    rewrite E. cbn [mbind option_bind]. eexists _, _. split; [done|by eapply later_trans].
  - case_bool_decide as Hk; [|by eexists _, _]. destruct Hc as [|Hc]; [done|].
    destruct (IH (S n) r1) as (res & r' & E & Hl'); [apply Hl|lia|]. eexists _, _.
    split; [done|by eapply later_trans].
Qed.

Lemma deadline_signal `{SignalCodec} fuel r : timely r → (ev_count r < fuel)%nat →
  ∃ res r', read_signal fuel r = Some (res, r') ∧ later r r'.
Proof.
  intros Ht Hf. unfold read_signal.
  destruct (read_exact_deadline fuel 4 r Ht Hf) as (l & r1 & -> & Hl). cbn [mbind option_bind].
  destruct l as [l|e]; [|by eexists _, _]. destruct (validate_frame_len _) as [len|e]; [|by eexists _, _].
  destruct (read_exact_deadline fuel len r1) as (p & r2 & -> & Hl2); [apply Hl|destruct Hl as (_ & _ & ?); lia|].
  cbn [mbind option_bind]. eexists _, _. split; [done|by eapply later_trans].
Qed.

(** Everything the peer sends is there before the deadline, and no error of
    the stream is a timeout. *)
Definition in_time (r : DeadlineReader) : Prop :=
  tcp_now (dr_stream r) + sumZ (delays r) < dr_deadline r ∧ Forall (λ d, 0 ≤ d) (delays r) ∧
  Forall (λ x, match x with Err e => is_timeout e = false | Ok _ => True end) (plain r).

Lemma read_in_time n r : in_time r →
  ∃ r', read n r = ((read n (plain r)).1, r') ∧ plain r' = (read n (plain r)).2 ∧ in_time r'.
Proof.
  intros (Hd & Hn & He). destruct r as [[now evs to_] dl]. unfold in_time, delays, plain in *.
  pose proof (sumZ_nonneg _ Hn) as Hs. cbn [dr_stream dr_deadline tcp_now tcp_events] in *.
  unfold read, deadline_reader, set_read_timeout, stream_read; simpl.
  destruct (_ <=? 0) eqn:E; to_prop; [lia|]. destruct (_ =? 0) eqn:E0; to_prop; [lia|].
  destruct evs as [|[d res] evs]; [by eexists|]. rewrite !fmap_cons in *. cbn [fst snd] in *.
  apply Forall_cons in Hn as [Hd0 Hn]. apply Forall_cons in He as [He0 He]. rewrite sumZ_cons in *.
  pose proof (sumZ_nonneg _ Hn) as Hs1. cbn [tcp_events tcp_timeout tcp_now].
  destruct (_ <? d) eqn:Ed; to_prop; [lia|].
  destruct res as [seg|e].
  - unfold read, socket_reader. destruct (length seg <=? n)%nat; cbn [fst snd]; eexists; (split; [reflexivity|]);
      cbn [dr_stream dr_deadline tcp_now tcp_events]; rewrite ?fmap_cons; cbn [fst snd]; rewrite ?sumZ_cons;
      split_and!; (done || lia || by constructor).
  - rewrite He0. eexists. split; [reflexivity|]. cbn [dr_stream dr_deadline tcp_now tcp_events].
    split_and!; (done || lia).
Qed.

Lemma read_exact_in_time fuel n r res evs' : in_time r → read_exact fuel n (plain r) = Some (res, evs') →
  ∃ r', read_exact fuel n r = Some (res, r') ∧ plain r' = evs' ∧ in_time r'.
Proof.
  revert n r res. induction fuel as [|fuel IH]; intros n r res Hi Hr.
  { destruct n; simpl in Hr; [|done]. injection Hr as <- <-. by exists r. }
  destruct n as [|n]; [simpl in Hr; injection Hr as <- <-; by exists r|].
  cbn [read_exact] in *. destruct (read_in_time (S n) r Hi) as (r1 & E1 & Hp & Hi1). rewrite E1.
  destruct (read (S n) (plain r)) as [r0 evs1]. simpl in Hp. subst evs1. cbn [fst].
  destruct r0 as [[|b bs]|e].
  - injection Hr as <- <-. by eexists.
  - destruct (read_exact fuel (S n - length (b :: bs)) (plain r1)) as [[res1 evs2]|] eqn:E2; [|done].
    injection Hr as <- <-. destruct (IH _ _ _ Hi1 E2) as (r2 & E3 & Hp2 & Hi2).
    rewrite E3. by eexists.
  - destruct (bool_decide (io_kind e = Interrupted)); [by apply IH|]. injection Hr as <- <-. by eexists.
Qed.

Lemma read_signal_in_time `{SignalCodec} fuel r res evs' : in_time r →
  read_signal fuel (plain r) = Some (res, evs') → ∃ r', read_signal fuel r = Some (res, r').
Proof.
  intros Hi Hr. unfold read_signal in *.
  destruct (read_exact fuel 4 (plain r)) as [[l evs1]|] eqn:E1; [|done].
  destruct (read_exact_in_time _ _ _ _ _ Hi E1) as (r1 & -> & Hp1 & Hi1). cbn [mbind option_bind] in *.
  destruct l as [l|e]; [|injection Hr as <- <-; by eexists].
  destruct (validate_frame_len _) as [len|e]; [|injection Hr as <- <-; by eexists]. subst evs1.
  destruct (read_exact fuel len (plain r1)) as [[p evs2]|] eqn:E2; [|done].
  destruct (read_exact_in_time _ _ _ _ _ Hi1 E2) as (r2 & -> & _). cbn [mbind option_bind] in *.
  injection Hr as <- <-. by eexists.
Qed.

Lemma delivers_no_timeout evs bs : delivers evs bs →
  Forall (λ x, match x with Err e => is_timeout e = false | Ok _ => True end) evs.
Proof. induction 1; by constructor. Qed.

(** ** Theorems *)

(** C35: a frame holds the receiver no longer than its timeout, whatever the
    peer sends and however slowly; and a peer whose bytes all arrive before
    the deadline is read exactly as without one, into the signal its bytes
    mean. *)
Theorem deadline_read_exact `{SignalCodec} fuel timeout stream : 0 < timeout →
  Forall (λ d, 0 ≤ d) (tcp_events stream).*1 → (length (tcp_events stream) < fuel)%nat →
  ∃ res stream', read_signal_with_deadline fuel timeout stream = Some (res, stream') ∧
    tcp_now stream' ≤ tcp_now stream + timeout ∧
    (∀ bs, delivers (tcp_events stream).*2 bs → sumZ (tcp_events stream).*1 < timeout →
       res = (frame_of bs).1).
Proof.
  intros Ht Hd Hf. unfold read_signal_with_deadline, set_read_timeout.
  destruct (timeout =? 0) eqn:E; to_prop; [lia|]. cbv beta iota. set (r := mkDeadlineReader _ _).
  destruct (deadline_signal fuel r) as (res & r' & Er & (Htl & Hdl & _)).
  { split; simpl; [lia|done]. }
  { done. }
  rewrite Er. cbn [mbind option_bind]. eexists _, _. split; [done|]. split.
  { destruct Htl as [Hn _]. rewrite Hdl in Hn. exact Hn. }
  intros bs Hb Hs. destruct (read_signal_frame (plain r) bs fuel Hb) as (evs' & Ep & _).
  { by rewrite length_plain. }
  assert (in_time r) as Hi.
  { unfold in_time, delays. subst r. cbn [dr_stream dr_deadline tcp_now tcp_events].
    split_and!; [lia|done|by eapply delivers_no_timeout]. }
  destruct (read_signal_in_time fuel r _ _ Hi Ep) as (r2 & E2).
  rewrite Er in E2. by injection E2.
Qed.

(** Three segments, a millisecond apart, with the default timeout. *)
Definition demo_stream : TimedStream :=
  {| tcp_now := 0; tcp_events := pair 1000000 <$> DemoCodec.demo_socket; tcp_timeout := None |}.

Lemma deadline_read_exact_witness : ∃ res stream',
  read_signal_with_deadline (H := DemoCodec.demo_codec) 4 DEFAULT_FRAME_READ_TIMEOUT demo_stream
    = Some (res, stream') ∧ tcp_now stream' ≤ 5000000000 ∧ res = Ok DemoCodec.empty_metrics.
Proof.
  destruct (deadline_read_exact (H := DemoCodec.demo_codec) 4 DEFAULT_FRAME_READ_TIMEOUT demo_stream)
    as (res & s & E & Hn & Hb).
  - reflexivity.
  - repeat constructor; discriminate.
  - simpl. lia.
  - exists res, s. split; [exact E|]. split; [exact Hn|].
    rewrite (Hb DemoCodec.demo_bytes DemoCodec.demo_delivers); reflexivity.
Defined.

(** ** The addresses *)

(** The configured list has no blanks and no duplicates, and is never empty. *)
Lemma add_addr_ok addrs addr : NoDup addrs ∧ "" ∉ addrs → NoDup (add_addr addrs addr) ∧ "" ∉ add_addr addrs addr.
Proof.
  intros [Hn He]. unfold add_addr, is_empty. case_bool_decide as E1; [done|]. simpl.
  case_bool_decide as E2; [done|]. split; [|set_solver].
  apply NoDup_app. split_and!; [done|set_solver|apply NoDup_singleton].
Qed.

Lemma parse_addr_list_ok value : NoDup (parse_addr_list value) ∧ "" ∉ parse_addr_list value.
Proof.
  unfold parse_addr_list. assert (∀ l acc, NoDup acc ∧ "" ∉ acc → NoDup (foldl add_addr acc l) ∧ "" ∉ foldl add_addr acc l) as H.
  { induction l as [|a l IH]; intros acc Ha; simpl; [done|]. by apply IH, add_addr_ok. }
  apply H. split; [constructor|set_solver].
Qed.

Lemma listen_addrs_ok env : listen_addrs env ≠ [] ∧ NoDup (listen_addrs env) ∧ "" ∉ listen_addrs env.
Proof.
  unfold listen_addrs.
  assert (∀ name v, client_env env name = Some v → v ≠ "") as Hne.
  { unfold client_env, is_empty. intros name v. destruct (env !! name); simpl; [|done].
    case_bool_decide; naive_solver. }
  assert (∀ v, env_or_legacy env CLIENT_ADDR_ENV LEGACY_CLIENT_ADDR_ENV = Some v → v ≠ "") as Hl.
  { unfold env_or_legacy. intros v. destruct (client_env env CLIENT_ADDR_ENV) eqn:E; [|by apply Hne].
    intros [= <-]. by apply (Hne CLIENT_ADDR_ENV). }
  assert (∀ v : string, v ≠ "" → [v] ≠ [] ∧ NoDup [v] ∧ "" ∉ [v]) as Hs.
  { intros v Hv. split_and!; [done|apply NoDup_singleton|set_solver]. }
  destruct (client_env env CLIENT_ADDRS_ENV) as [v|] eqn:E; simpl.
  - destruct (parse_addr_list v) as [|a l] eqn:Ep.
    + destruct (env_or_legacy _ _ _) eqn:El; apply Hs; [by apply Hl|done].
    + split; [done|]. rewrite <-Ep. apply parse_addr_list_ok.
  - destruct (env_or_legacy _ _ _) eqn:El; apply Hs; [by apply Hl|done].
Qed.

(** An address that passes the policy is a numeric loopback address. *)
Lemma trusted_local_Ok display addr a : trusted_local_socket_addr display addr = Ok a →
  parse_socket_address addr = Some a ∧ is_loopback (sa_ip a) = true.
Proof.
  unfold trusted_local_socket_addr. destruct (parse_socket_address addr); [|done].
  destruct (is_loopback _) eqn:E; [|done]. by intros [= <-].
Qed.
