(* ===== verification/ReceiverLoop.v ===== *)
(** * The client's receiver loop (skid-monitor-client, receiver_loop.rs)

    One thread serves the control channel and keeps the registry of
    listeners; every listener has a thread of its own that receives signals
    and forwards them.  The threads interleave: the loop is a step relation
    whose steps are the atomic accesses to the registry, to a stop flag or to
    the outgoing channel.  A removal is one step: only the control thread
    reads the registry, so no other thread can tell the removal of the entry,
    the stop flag and the snapshot that follows apart from their being done at
    once.  [receiver_loop_safe] is its invariant. *)

From stdpp Require Import sorting.
From S2P Require Import Prelude RustStr Otlp Frame Receiver.

(** ** Data *)

Inductive ListenerBindPolicy := Unrestricted | TrustedLocal.

Inductive ReceiverMessage :=
| RmListening (addrs : list string)
| RmSignal (listener : string) (signal : Signal)
| RmError (listener : option string) (error : string)
| RmExtensionError (error : string).

Inductive ReceiverControl := AddListener (addr : string) | RemoveListener (addr : string).

(** A bound socket: what [local_addr] says, if it says anything. *)
Record BoundSocket := { bs_local : option string }.

(** [ListenerBindPolicy::bind]: [os] is the outcome of [TcpListener::bind],
    which is only called when the policy lets the address through. *)
Definition policy_bind (display : SocketAddress → string) (policy : ListenerBindPolicy) (addr : string)
    (os : result IoError BoundSocket) : result IoError BoundSocket :=
  match policy with
  | Unrestricted => os
  | TrustedLocal => _ ← trusted_local_socket_addr display addr; os
  end.

(** Where a listener's thread is in [receive_forever]. *)
Inductive ListenerPc :=
| Checking                            (* the test of the stop flag at the top *)
| Receiving                           (* in [recv] *)
| Publishing (signal : Signal)        (* in [publish_to_extension] *)
| Sending (signal : Signal)           (* about to send the signal *)
| Failing (error : string)            (* about to send the error *)
| Exited.

(** [lt_configured] is the address the bind was asked for, [lt_received] the
    signals [recv] returned that were not dropped, and [lt_late] how many
    messages the thread sent after its flag was set. *)
Record ListenerThread := {
  lt_addr : string;
  lt_configured : string;
  lt_stop : bool;
  lt_pc : ListenerPc;
  lt_received : list Signal;
  lt_late : nat;
}.

Inductive LoopPhase :=
| Spawning (receivers : list (string * string))   (* resolved and configured addresses *)
| Serving
| Ended.

(** The channel out remembers which thread sent a message. *)
Record LoopState := {
  ls_phase : LoopPhase;
  ls_policy : ListenerBindPolicy;
  ls_registry : gmap string nat;            (* the index of the listener's thread *)
  ls_threads : list ListenerThread;
  ls_out : list (option nat * ReceiverMessage);
  ls_rx_open : bool;
  ls_extension : bool;                      (* an extension host is running *)
}.

Definition with_phase (p : LoopPhase) (s : LoopState) : LoopState :=
  {| ls_phase := p; ls_policy := ls_policy s; ls_registry := ls_registry s; ls_threads := ls_threads s;
     ls_out := ls_out s; ls_rx_open := ls_rx_open s; ls_extension := ls_extension s |}.
Definition with_threads (r : gmap string nat) (ts : list ListenerThread) (s : LoopState) : LoopState :=
  {| ls_phase := ls_phase s; ls_policy := ls_policy s; ls_registry := r; ls_threads := ts;
     ls_out := ls_out s; ls_rx_open := ls_rx_open s; ls_extension := ls_extension s |}.

(** ** Operations *)

(** [send_message]: [true] when the receiving end is there. *)
Definition send_message (from : option nat) (m : ReceiverMessage) (s : LoopState) : bool * LoopState :=
  (ls_rx_open s,
   {| ls_phase := ls_phase s; ls_policy := ls_policy s; ls_registry := ls_registry s;
      ls_threads := ls_threads s; ls_out := if ls_rx_open s then ls_out s ++ [(from, m)] else ls_out s;
      ls_rx_open := ls_rx_open s; ls_extension := ls_extension s |}).

Definition active_listeners (s : LoopState) : list string := (btree_iter (ls_registry s)).*1.

Definition send_listener_snapshot (s : LoopState) : bool * LoopState :=
  send_message None (RmListening (active_listeners s)) s.

Definition new_listener (addr configured : string) : ListenerThread :=
  {| lt_addr := addr; lt_configured := configured; lt_stop := false; lt_pc := Checking;
     lt_received := []; lt_late := 0 |}.

Definition spawn_listener (addr configured : string) (s : LoopState) : LoopState :=
  with_threads (<[addr := length (ls_threads s)]> (ls_registry s))
    (ls_threads s ++ [new_listener addr configured]) s.

Definition set_stop (t : ListenerThread) : ListenerThread :=
  {| lt_addr := lt_addr t; lt_configured := lt_configured t; lt_stop := true; lt_pc := lt_pc t;
     lt_received := lt_received t; lt_late := lt_late t |}.

(** The wake-up connection changes nothing in this state. *)
Definition stop_listener (addr : string) (s : LoopState) : bool * LoopState :=
  match ls_registry s !! addr with
  | None => (false, s)
  | Some i => (true, with_threads (delete addr (ls_registry s)) (alter set_stop i (ls_threads s)) s)
  end.

(** The loop ends when the snapshot cannot be sent. *)
Definition snapshot_or_end (s : LoopState) : LoopState :=
  let '(sent, s) := send_listener_snapshot s in
  if sent then with_phase Serving s else with_phase Ended s.

Section loop.
Context (display : SocketAddress → string).

(** The body of the control loop; [os] is the outcome of the bind it may
    make. *)
Definition handle_control (control : ReceiverControl) (os : result IoError BoundSocket) (s : LoopState)
    : LoopState :=
  match control with
  | AddListener addr =>
    match policy_bind display (ls_policy s) addr os with
    | Ok sock => snapshot_or_end (spawn_listener (default addr (bs_local sock)) addr s)
    | Err e =>
      (send_message None (RmError (Some addr) ("failed to bind " +:+ addr +:+ ": " +:+ io_message e)) s).2
    end
  | RemoveListener addr =>
    match stop_listener addr s with
    | (true, s) => snapshot_or_end s
    | (false, s) =>
      (send_message None (RmError (Some addr) ("listener " +:+ addr +:+ " is not active")) s).2
    end
  end.

(** The start: the binds of the configured addresses with their outcomes, the
    messages of those that failed, and the extension host. *)
Fixpoint bind_all (policy : ListenerBindPolicy) (addrs : list (string * result IoError BoundSocket))
    : list (string * string) * list ReceiverMessage :=
  match addrs with
  | [] => ([], [])
  | (addr, os) :: addrs =>
    let '(receivers, messages) := bind_all policy addrs in
    match policy_bind display policy addr os with
    | Ok sock => ((default addr (bs_local sock), addr) :: receivers, messages)
    | Err e =>
      (receivers,
       RmError (Some addr) ("failed to bind " +:+ addr +:+ ": " +:+ io_message e) :: messages)
    end
  end.

Definition loop_start (policy : ListenerBindPolicy) (addrs : list (string * result IoError BoundSocket))
    (extension : result string bool) : LoopState :=
  let '(receivers, messages) := bind_all policy addrs in
  let messages := messages ++
    (if bool_decide (receivers = [])
     then [RmError None "failed to bind any configured client listener"] else []) ++
    (match extension with
     | Err e => [RmExtensionError ("failed to start extension host: " +:+ e)]
     | Ok _ => []
     end) in
  {| ls_phase := if bool_decide (receivers = []) then Serving else Spawning receivers;
     ls_policy := policy; ls_registry := ∅; ls_threads := []; ls_out := pair None <$> messages;
     ls_rx_open := true; ls_extension := match extension with Ok b => b | Err _ => false end |}.

(** ** The threads *)

Definition set_pc (pc : ListenerPc) (t : ListenerThread) : ListenerThread :=
  {| lt_addr := lt_addr t; lt_configured := lt_configured t; lt_stop := lt_stop t; lt_pc := pc;
     lt_received := lt_received t; lt_late := lt_late t |}.
Definition receive (signal : Signal) (t : ListenerThread) : ListenerThread :=
  {| lt_addr := lt_addr t; lt_configured := lt_configured t; lt_stop := lt_stop t;
     lt_pc := Publishing signal; lt_received := lt_received t ++ [signal]; lt_late := lt_late t |}.
(** After a send the loop starts over, or ends when nobody listens. *)
Definition after_send (sent : bool) (t : ListenerThread) : ListenerThread :=
  {| lt_addr := lt_addr t; lt_configured := lt_configured t; lt_stop := lt_stop t;
     lt_pc := if sent then Checking else Exited; lt_received := lt_received t;
     lt_late := if lt_stop t && sent then S (lt_late t) else lt_late t |}.

Definition alter_thread (f : ListenerThread → ListenerThread) (i : nat) (s : LoopState) : LoopState :=
  with_threads (ls_registry s) (alter f i (ls_threads s)) s.

(** Thread [i] sends its message. *)
Definition thread_send (i : nat) (m : ReceiverMessage) (s : LoopState) : LoopState :=
  let '(sent, s) := send_message (Some i) m s in alter_thread (after_send sent) i s.

(** A step of [receive_forever] in thread [i], which is [t]. *)
Inductive thread_step (i : nat) (t : ListenerThread) (s : LoopState) : LoopState → Prop :=
| StepStopped : lt_pc t = Checking → lt_stop t = true →
    thread_step i t s (alter_thread (set_pc Exited) i s)
| StepAccept : lt_pc t = Checking → lt_stop t = false →
    thread_step i t s (alter_thread (set_pc Receiving) i s)
| StepSignal signal : lt_pc t = Receiving → lt_stop t = false →
    thread_step i t s (alter_thread (receive signal) i s)
| StepSignalDropped : lt_pc t = Receiving → lt_stop t = true →
    thread_step i t s (alter_thread (set_pc Exited) i s)
| StepError error : lt_pc t = Receiving → lt_stop t = false →
    thread_step i t s
      (alter_thread (set_pc (Failing ("receive error on " +:+ lt_addr t +:+ ": " +:+ error))) i s)
| StepPublished signal : lt_pc t = Publishing signal →
    thread_step i t s (alter_thread (set_pc (Sending signal)) i s)
| StepPublishFailed signal error : lt_pc t = Publishing signal → ls_extension s = true →
    thread_step i t s
      (alter_thread (set_pc (Sending signal)) i
         (send_message None (RmExtensionError ("failed to publish to extension host: " +:+ error)) s).2)
| StepSend signal : lt_pc t = Sending signal →
    thread_step i t s (thread_send i (RmSignal (lt_addr t) signal) s)
| StepFail error : lt_pc t = Failing error →
    thread_step i t s (thread_send i (RmError (Some (lt_addr t)) error) s).

(** The addresses whose sockets are open: those of the threads that have not
    exited and those bound but not yet spawned. *)
Definition exited (t : ListenerThread) : bool := match lt_pc t with Exited => true | _ => false end.
Definition thread_addrs (ts : list ListenerThread) : list string :=
  lt_addr <$> filter (λ t, exited t = false) ts.
Definition open_addrs (s : LoopState) : list string :=
  thread_addrs (ls_threads s) ++
  match ls_phase s with Spawning receivers => receivers.*1 | _ => [] end.

(** The operating system gives no address out twice. *)
Definition fresh_bind (control : ReceiverControl) (os : result IoError BoundSocket) (s : LoopState) : Prop :=
  match control, os with
  | AddListener addr, Ok sock => default addr (bs_local sock) ∉ open_addrs s
  | _, _ => True
  end.

Inductive loop_step : LoopState → LoopState → Prop :=
| LoopSpawn s addr configured receivers :
    ls_phase s = Spawning ((addr, configured) :: receivers) →
    loop_step s (spawn_listener addr configured (with_phase (Spawning receivers) s))
| LoopReady s : ls_phase s = Spawning [] → loop_step s (snapshot_or_end s)
| LoopControl s control os : ls_phase s = Serving → fresh_bind control os s →
    loop_step s (handle_control control os s)
| LoopControlClosed s : ls_phase s = Serving → loop_step s (with_phase Ended s)
| LoopThread s s' i t : ls_threads s !! i = Some t → thread_step i t s s' → loop_step s s'
| LoopReceiverGone s :    (* the application drops its end *)
    loop_step s {| ls_phase := ls_phase s; ls_policy := ls_policy s; ls_registry := ls_registry s;
                   ls_threads := ls_threads s; ls_out := ls_out s; ls_rx_open := false;
                   ls_extension := ls_extension s |}.
End loop.

(** ** The invariant *)

(** The signals thread [i] has sent. *)
Definition signals_from (i : nat) (out : list (option nat * ReceiverMessage)) : list Signal :=
  omap (λ e, match e with
             | (Some j, RmSignal _ signal) => if bool_decide (j = i) then Some signal else None
             | _ => None
             end) out.

(** The signal a thread has received and not sent, and whether it is past the
    test of its flag with a message to send. *)
Definition pending (t : ListenerThread) : list Signal :=
  match lt_pc t with Publishing signal | Sending signal => [signal] | _ => [] end.
Definition committed (t : ListenerThread) : nat :=
  match lt_pc t with Publishing _ | Sending _ | Failing _ => 1 | _ => 0 end.

Definition loopback_addr (addr : string) : Prop :=
  ∃ a, parse_socket_address addr = Some a ∧ is_loopback (sa_ip a) = true.

(** A thread sends what it received, in order, once; after its flag is set at
    most one more message. *)
Record thread_ok (out : list (option nat * ReceiverMessage)) (i : nat) (t : ListenerThread) : Prop := {
  to_prefix : signals_from i out `prefix_of` lt_received t;
  to_exact : exited t = false → signals_from i out ++ pending t = lt_received t;
  to_late : (lt_late t + committed t ≤ 1)%nat ∨ lt_stop t = false;
  to_early : lt_stop t = false → lt_late t = 0%nat;
  to_named : ∀ l signal, (Some i, RmSignal l signal) ∈ out → l = lt_addr t;
}.

Definition policy_ok (policy : ListenerBindPolicy) (configured : string) : Prop :=
  match policy with TrustedLocal => loopback_addr configured | Unrestricted => True end.

Record loop_inv (s : LoopState) : Prop := {
  li_reg : ∀ addr i, ls_registry s !! addr = Some i →
    ∃ t, ls_threads s !! i = Some t ∧ lt_addr t = addr ∧ lt_stop t = false;
  li_live : ∀ i t, ls_threads s !! i = Some t → exited t = false → lt_stop t = false →
    ls_registry s !! lt_addr t = Some i;
  li_open : NoDup (open_addrs s);
  li_policy : (∀ i t, ls_threads s !! i = Some t → policy_ok (ls_policy s) (lt_configured t)) ∧
    (∀ receivers, ls_phase s = Spawning receivers →
       Forall (λ r, policy_ok (ls_policy s) r.2) receivers);
  li_threads : ∀ i t, ls_threads s !! i = Some t → thread_ok (ls_out s) i t;
  li_sent : ∀ i m, (Some i, m) ∈ ls_out s → (i < length (ls_threads s))%nat;
}.

(** ** Lemmas *)

Lemma signals_from_snoc i out e : signals_from i (out ++ [e]) = signals_from i out ++ signals_from i [e].
Proof. apply omap_app. Qed.

Lemma signals_from_none i out : (∀ m, (Some i, m) ∉ out) → signals_from i out = [].
Proof.
  intros H. apply omap_nil_iff. intros [[j|] m] Hm; [|done]. destruct m; try done.
  case_bool_decide; [|done]. subst. by destruct (H _ Hm).
Qed.

(** A message another thread sends, or the loop itself. *)
Lemma thread_ok_other out i t from m : from ≠ Some i → thread_ok out i t → thread_ok (out ++ [(from, m)]) i t.
Proof.
  intros Hf [H1 H2 H3 H4 H5].
  assert (signals_from i (out ++ [(from, m)]) = signals_from i out) as E.
  { rewrite signals_from_snoc. unfold signals_from at 2. simpl. destruct from as [j|]; [|by rewrite app_nil_r].
    destruct m; rewrite ?app_nil_r; try done. case_bool_decide; [congruence|]. by rewrite app_nil_r. }
  split; rewrite ?E; try done. intros l signal [Hin|Hin]%elem_of_app; [by eapply H5|].
  apply list_elem_of_singleton in Hin. congruence.
Qed.

(** A change of one thread that keeps its address and its flag, and does not
    bring it back. *)
Definition keeps (f : ListenerThread → ListenerThread) (t : ListenerThread) : Prop :=
  lt_addr (f t) = lt_addr t ∧ lt_configured (f t) = lt_configured t ∧
  (lt_stop t = true → lt_stop (f t) = true) ∧ (exited t = true → exited (f t) = true).

Lemma thread_addrs_alter f i ts : (∀ t, ts !! i = Some t → keeps f t) →
  thread_addrs (alter f i ts) `sublist_of` thread_addrs ts.
Proof.
  revert i. induction ts as [|t ts IH]; intros i Hk; [done|]. unfold thread_addrs in *.
  destruct i as [|i]; simpl.
  - destruct (Hk t eq_refl) as (Ha & _ & _ & He). rewrite !filter_cons.
    destruct (decide (exited (f t) = false)) as [E1|E1], (decide (exited t = false)) as [E2|E2]; simpl.
    + rewrite Ha. by constructor.
    + exfalso. destruct (exited t); [|done]. rewrite He in E1; done.
    + by constructor.
    + done.
  - rewrite !filter_cons. specialize (IH i Hk). destruct (decide (exited t = false)); [by constructor|done].
Qed.

Lemma alter_lookup f i j (ts : list ListenerThread) t : alter f i ts !! j = Some t →
  (i = j ∧ ∃ t0, ts !! i = Some t0 ∧ t = f t0) ∨ (i ≠ j ∧ ts !! j = Some t).
Proof.
  destruct (decide (i = j)) as [<-|Hne].
  - rewrite list_lookup_alter_eq. intros (t0 & ? & ->)%fmap_Some. left. eauto.
  - rewrite list_lookup_alter_ne by done. auto.
Qed.

(** Altering a thread whose flag stays. *)
Lemma alter_thread_inv f i t s : loop_inv s → ls_threads s !! i = Some t → keeps f t → lt_stop (f t) = lt_stop t →
  thread_ok (ls_out s) i (f t) → loop_inv (alter_thread f i s).
Proof.
  intros [Hr Hl Ho [Hp1 Hp2] Ht Hs] Hi Hk Hst Hok. pose proof Hk as (Ka & Kc & _ & Ke).
  split; cbn [alter_thread with_threads ls_registry ls_threads ls_out ls_policy ls_phase].
  - intros addr j Hj. destruct (Hr addr j Hj) as (t0 & H0 & Ha & Hs0). destruct (decide (i = j)) as [<-|Hne].
    + assert (t0 = t) as -> by congruence. exists (f t). rewrite list_lookup_alter_eq, Hi. simpl.
      split_and!; [done|congruence|congruence].
    + exists t0. by rewrite list_lookup_alter_ne.
  - intros j t0 [(<- & t1 & H1 & ->)|[Hne H1]]%alter_lookup He Hn.
    + assert (t1 = t) as -> by congruence. rewrite Ka. apply Hl; [done| |congruence].
      destruct (exited t) eqn:E; [by rewrite Ke in He|done].
    + by apply Hl.
  - unfold open_addrs in *. eapply sublist_NoDup; [exact Ho|].
    apply sublist_app; [|done]. apply thread_addrs_alter. intros t0 H0. congruence.
  - split; [|done]. intros j t0 [(<- & t1 & H1 & ->)|[Hne H1]]%alter_lookup; [|by eapply Hp1].
    assert (t1 = t) as -> by congruence. rewrite Kc. by eapply Hp1.
  - intros j t0 [(<- & t1 & H1 & ->)|[Hne H1]]%alter_lookup; [congruence|by apply Ht].
  - intros j m Hm. rewrite length_alter. by eapply Hs.
Qed.

Lemma send_none_inv m s : loop_inv s → loop_inv (send_message None m s).2.
Proof.
  intros [Hr Hl Ho Hp Ht Hs]. split; try done; simpl; destruct (ls_rx_open s); try done.
  - intros i t Hi. apply thread_ok_other; [done|by apply Ht].
  - intros i m0 [Hm|Hm]%elem_of_app; [by eapply Hs|]. apply list_elem_of_singleton in Hm. congruence.
Qed.

Lemma with_phase_inv p s : loop_inv s → (∀ receivers, p ≠ Spawning receivers) → loop_inv (with_phase p s).
Proof.
  intros [Hr Hl Ho [Hp1 Hp2] Ht Hs] Hne. split; try done.
  - unfold open_addrs in *. simpl. destruct p; [by destruct (Hne receivers)|..];
      rewrite app_nil_r; by apply NoDup_app in Ho as [? _].
  - split; [done|]. intros receivers E. simpl in E. by destruct (Hne receivers).
Qed.

Lemma snapshot_or_end_inv s : loop_inv s → loop_inv (snapshot_or_end s).
Proof.
  intros Hi. unfold snapshot_or_end, send_listener_snapshot.
  pose proof (send_none_inv (RmListening (active_listeners s)) s Hi) as H.
  destruct (send_message None _ s) as [sent s']. simpl in H. destruct sent; by apply with_phase_inv.
Qed.

(** A new thread: nothing was sent under its index. *)
Lemma new_thread_ok s addr configured : loop_inv s →
  thread_ok (ls_out s) (length (ls_threads s)) (new_listener addr configured).
Proof.
  intros Hi. assert (∀ m, (Some (length (ls_threads s)), m) ∉ ls_out s) as Hn.
  { intros m Hm. apply (li_sent s Hi) in Hm. lia. }
  split; simpl; rewrite ?(signals_from_none _ _ Hn); [done|done|right; done|done|].
  intros l signal Hm. by destruct (Hn _ Hm).
Qed.

Lemma thread_addrs_snoc ts t : thread_addrs (ts ++ [t]) = thread_addrs ts ++ (if exited t then [] else [lt_addr t]).
Proof.
  unfold thread_addrs. rewrite filter_app, fmap_app. f_equal. rewrite filter_cons, filter_nil.
  by destruct (exited t).
Qed.

Lemma elem_of_thread_addrs ts i t : ts !! i = Some t → exited t = false → lt_addr t ∈ thread_addrs ts.
Proof.
  intros Hi He. apply list_elem_of_fmap. exists t. split; [done|].
  apply list_elem_of_filter. split; [done|]. by eapply list_elem_of_lookup_2.
Qed.

(** Spawning on an address no open socket has. *)
Lemma spawn_listener_inv addr configured s : loop_inv s → addr ∉ open_addrs s →
  policy_ok (ls_policy s) configured → loop_inv (spawn_listener addr configured s).
Proof.
  intros Hi Hf Hpo. pose proof (new_thread_ok s addr configured Hi) as Hnew.
  destruct Hi as [Hr Hl Ho [Hp1 Hp2] Ht Hs].
  assert (∀ i t, (ls_threads s ++ [new_listener addr configured]) !! i = Some t →
    ls_threads s !! i = Some t ∨ i = length (ls_threads s) ∧ t = new_listener addr configured) as Hlk.
  { intros i t [H|[Hlen H]]%lookup_app_Some; [by left|right].
    apply list_lookup_singleton_Some in H as [? ->]. split; [lia|done]. }
  split; cbn [spawn_listener with_threads ls_registry ls_threads ls_out ls_policy ls_phase].
  - intros a i. destruct (decide (a = addr)) as [->|Hne].
    + rewrite lookup_insert_eq. intros [= <-]. exists (new_listener addr configured).
      by rewrite list_lookup_middle.
    + rewrite lookup_insert_ne by done. intros Hi. destruct (Hr a i Hi) as (t & H1 & H2). exists t.
      by rewrite lookup_app_l by (by eapply lookup_lt_Some).
  - intros i t [H|[-> ->]]%Hlk He Hn; [|simpl; by rewrite lookup_insert_eq].
    rewrite lookup_insert_ne; [by apply Hl|]. intros E. apply Hf. rewrite E. unfold open_addrs.
    apply elem_of_app. left. by eapply elem_of_thread_addrs.
  - unfold open_addrs in *. cbn [spawn_listener with_threads ls_threads ls_phase].
    rewrite thread_addrs_snoc. simpl.
    rewrite <-app_assoc. apply NoDup_app in Ho as (H1 & H2 & H3). rewrite elem_of_app in Hf.
    apply NoDup_app. split_and!; [done| |].
    + intros x Hx. simpl. rewrite elem_of_cons. intros [->|Hx']; [tauto|by eapply H2].
    + simpl. apply NoDup_cons. tauto.
  - split; [|done]. intros i t [H|[-> ->]]%Hlk; [by eapply Hp1|done].
  - intros i t [H|[-> ->]]%Hlk; [by apply Ht|done].
  - intros i m Hm%Hs. rewrite length_app. simpl. lia.
Qed.

Lemma stop_listener_inv addr s : loop_inv s → loop_inv (stop_listener addr s).2.
Proof.
  intros [Hr Hl Ho [Hp1 Hp2] Ht Hs]. unfold stop_listener.
  destruct (ls_registry s !! addr) as [i|] eqn:E; [|by split].
  destruct (Hr addr i E) as (t & Hi & Ha & Hst).
  assert (keeps set_stop t) as Hk by (by split_and!).
  split; cbn [snd with_threads ls_registry ls_threads ls_out ls_policy ls_phase].
  - intros a j Hj. apply lookup_delete_Some in Hj as [Hne Hj]. destruct (Hr a j Hj) as (t0 & H0 & Ha0 & Hs0).
    exists t0. rewrite list_lookup_alter_ne; [done|]. intros <-. congruence.
  - intros j t0 [(<- & t1 & H1 & ->)|[Hne H1]]%alter_lookup He Hn; [done|].
    rewrite lookup_delete_ne; [by apply Hl|]. intros ->. specialize (Hl j t0 H1 He Hn). congruence.
  - unfold open_addrs in *. eapply sublist_NoDup; [exact Ho|]. apply sublist_app; [|done].
    apply thread_addrs_alter. intros t0 H0. congruence.
  - split; [|done]. intros j t0 [(<- & t1 & H1 & ->)|[Hne H1]]%alter_lookup; [exact (Hp1 i t1 H1)|by eapply Hp1].
  - intros j t0 [(<- & t1 & H1 & ->)|[Hne H1]]%alter_lookup; [|by apply Ht].
    destruct (Ht i t1 H1) as [O1 O2 O3 O4 O5]. split; try done.
    left. assert (t1 = t) as -> by congruence. cbn [set_stop lt_late]. rewrite (O4 Hst).
    unfold committed. simpl. destruct (lt_pc t); lia.
  - intros j m Hm. rewrite length_alter. by eapply Hs.
Qed.

(** The end of a thread's send. *)
Lemma thread_send_inv i t m s : loop_inv s → ls_threads s !! i = Some t → committed t = 1%nat → exited t = false →
  signals_from i [(Some i, m)] = pending t → (∀ l signal, m = RmSignal l signal → l = lt_addr t) →
  loop_inv (thread_send i m s).
Proof.
  intros Hi Ht Hc He Hm Hname. unfold thread_send.
  assert (∀ sent, keeps (after_send sent) t) as Hk by (intros; split_and!; try done; by rewrite He).
  destruct (li_threads s Hi i t Ht) as [O1 O2 O3 O4 O5]. specialize (O2 He).
  cbn [send_message]. destruct (ls_rx_open s) eqn:Eo.
  - set (s1 := Build_LoopState _ _ _ _ _ _ _).
    assert (thread_ok (ls_out s ++ [(Some i, m)]) i (after_send true t)) as Hok.
    { assert (signals_from i (ls_out s ++ [(Some i, m)]) = lt_received t) as Es
        by (by rewrite signals_from_snoc, Hm).
      split; simpl; rewrite ?Es.
      - done.
      - intros _. by rewrite app_nil_r.
      - destruct (lt_stop t) eqn:Est; [left|by right]. change (committed (after_send true t)) with 0%nat. simpl.
        destruct O3; [lia|done].
      - destruct (lt_stop t); [done|by auto].
      - intros l signal [Hin|Hin]%elem_of_app; [by eapply O5|]. apply list_elem_of_singleton in Hin.
        injection Hin as Hin. by eapply Hname. }
    destruct Hi as [Hr Hl Ho [Hp1 Hp2] Hts Hs].
    assert (∀ j t0, ls_threads s1 !! j = Some t0 → j ≠ i → thread_ok (ls_out s1) j t0) as Hothers.
    { intros j t0 Hj Hne. apply thread_ok_other; [congruence|by apply Hts]. }
    split; cbn [alter_thread with_threads ls_registry ls_threads ls_out ls_policy ls_phase s1].
    + intros addr j Hj. destruct (Hr addr j Hj) as (t0 & H0 & Ha & Hs0). destruct (decide (i = j)) as [<-|Hne].
      * assert (t0 = t) as -> by congruence. exists (after_send true t). rewrite list_lookup_alter_eq, Ht. done.
      * exists t0. by rewrite list_lookup_alter_ne.
    + intros j t0 [(<- & t1 & H1 & ->)|[Hne H1]]%alter_lookup Hex Hst.
      * assert (t1 = t) as -> by congruence. exact (Hl i t Ht He Hst).
      * by apply Hl.
    + unfold open_addrs in *. eapply sublist_NoDup; [exact Ho|]. apply sublist_app; [|done].
      apply thread_addrs_alter. intros t0 H0. assert (t0 = t) as -> by congruence. done.
    + split; [|done]. intros j t0 [(<- & t1 & H1 & ->)|[Hne H1]]%alter_lookup; [exact (Hp1 i t1 H1)|by eapply Hp1].
    + intros j t0 [(<- & t1 & H1 & ->)|[Hne H1]]%alter_lookup; [congruence|by apply Hothers].
    + intros j m0. rewrite length_alter. intros [Hin|Hin]%elem_of_app; [by eapply Hs|].
      apply list_elem_of_singleton in Hin. injection Hin as -> ->. by eapply lookup_lt_Some.
  - set (s1 := Build_LoopState _ _ _ _ _ _ _). assert (loop_inv s1) as Hi1 by (destruct Hi; by split).
    apply (alter_thread_inv _ i t); [done|done|done|done|].
    split; simpl; try done.
    + change (committed (after_send false t)) with 0%nat.
      destruct O3; [left; destruct (lt_stop t); simpl; lia|by right].
    + destruct (lt_stop t); [done|by auto].
Qed.

Section steps.
Context (display : SocketAddress → string).

(** The steps of a thread that sends nothing: [new] is what it receives. *)
Lemma quiet_step_inv f i t s new : loop_inv s → ls_threads s !! i = Some t → exited t = false →
  keeps f t → lt_stop (f t) = lt_stop t → lt_late (f t) = lt_late t →
  (lt_stop t = true → (committed (f t) ≤ committed t)%nat) →
  lt_received (f t) = lt_received t ++ new → pending (f t) = pending t ++ new →
  loop_inv (alter_thread f i s).
Proof.
  intros Hi Ht He Hk Hst Hlt Hc Hrec Hpe. pose proof (li_threads s Hi i t Ht) as [O1 O2 O3 O4 O5].
  specialize (O2 He). apply (alter_thread_inv f i t); [done..|]. destruct Hk as (Ka & _).
  split; rewrite ?Hst, ?Hlt, ?Ka; try done.
  - rewrite Hrec. by apply prefix_app_r.
  - intros _. by rewrite Hrec, Hpe, app_assoc, O2.
  - destruct (lt_stop t) eqn:Est; [left|by right]. destruct O3; [|done]. specialize (Hc eq_refl). lia.
Qed.

Ltac quiet Hp Hst := unfold keeps, exited, committed, pending; simpl; rewrite ?Hp, ?Hst, ?app_nil_r;
  try done; try by split_and!.

Lemma thread_step_inv i t s s' : loop_inv s → ls_threads s !! i = Some t → thread_step i t s s' → loop_inv s'.
Proof.
  intros Hi Ht Hs. destruct Hs as [Hp Hst|Hp Hst|sg Hp Hst|Hp Hst|e Hp Hst|sg Hp|sg e Hp He|sg Hp|e Hp].
  1-2,4-6: by apply (quiet_step_inv _ i t s []); quiet Hp (eq_refl (lt_stop t)); intros; congruence.
  - by apply (quiet_step_inv _ i t s [sg]); quiet Hp (eq_refl (lt_stop t)); intros; congruence.
  - apply (quiet_step_inv _ i t _ []); [by apply send_none_inv|done|quiet Hp (eq_refl (lt_stop t))..].
  - apply (thread_send_inv i t); [done|done|by quiet Hp (eq_refl (lt_stop t))|by quiet Hp (eq_refl (lt_stop t))| |].
    + unfold signals_from, pending. simpl. by rewrite bool_decide_true, Hp.
    + by intros l sg' [= <- <-].
  - apply (thread_send_inv i t); [done|done|by quiet Hp (eq_refl (lt_stop t))|by quiet Hp (eq_refl (lt_stop t))| |done].
    unfold signals_from, pending. simpl. by rewrite Hp.
Qed.

Lemma policy_bind_ok policy addr os sock : policy_bind display policy addr os = Ok sock →
  policy_ok policy addr ∧ os = Ok sock.
Proof.
  destruct policy; simpl; [by split|]. rewrite bind_Ok. intros (a & Ha & ->). split; [|done].
  exists a. by eapply trusted_local_Ok.
Qed.

Lemma handle_control_inv control os s : ls_phase s = Serving → fresh_bind control os s → loop_inv s →
  loop_inv (handle_control display control os s).
Proof.
  intros Hph Hf Hi. destruct control as [addr|addr]; simpl.
  - destruct (policy_bind display (ls_policy s) addr os) as [sock|e] eqn:E; [|by apply send_none_inv].
    apply policy_bind_ok in E as [Hp ->]. apply snapshot_or_end_inv, spawn_listener_inv; done.
  - pose proof (stop_listener_inv addr s Hi) as H. destruct (stop_listener addr s) as [[] s1]; simpl in H;
      [by apply snapshot_or_end_inv|by apply send_none_inv].
Qed.

Lemma loop_step_inv s s' : loop_inv s → loop_step display s s' → loop_inv s'.
Proof.
  intros Hi Hs. destruct Hs as [s addr conf rs Hp|s Hp|s c os Hp Hf|s Hp|s s' i t Ht Hs|s].
  - assert (addr ∉ open_addrs (with_phase (Spawning rs) s)) as Hf.
    { pose proof (li_open s Hi) as Ho. unfold open_addrs in *. rewrite Hp in Ho. simpl in *.
      rewrite NoDup_app, NoDup_cons in Ho. rewrite elem_of_app. set_solver. }
    apply spawn_listener_inv; [|done|].
    + destruct Hi as [Hr Hl Ho [Hp1 Hp2] Ht Hsn]. split; try done.
      * unfold open_addrs in *. rewrite Hp in Ho. simpl in *. rewrite NoDup_app, NoDup_cons in *. set_solver.
      * split; [done|]. intros rs' [= <-]. specialize (Hp2 _ Hp). by apply Forall_cons in Hp2 as [_ ?].
    + destruct (li_policy s Hi) as [_ Hp2]. specialize (Hp2 _ Hp). by apply Forall_cons in Hp2 as [? _].
  - by apply snapshot_or_end_inv.
  - by apply handle_control_inv.
  - by apply with_phase_inv.
  - by eapply thread_step_inv.
  - destruct Hi. by split.
Qed.

Lemma loop_step_policy s s' : loop_step display s s' → ls_policy s' = ls_policy s.
Proof.
  intros Hs. destruct Hs as [s addr conf rs Hp|s Hp|s c os Hp Hf|s Hp|s s' i t Ht Hs|s]; try done.
  - unfold snapshot_or_end. simpl. by destruct (ls_rx_open s).
  - destruct c as [addr|addr]; simpl.
    + destruct (policy_bind _ _ _ _); [|done]. unfold snapshot_or_end. simpl. by destruct (ls_rx_open s).
    + unfold stop_listener. destruct (ls_registry s !! addr); [|done].
      unfold snapshot_or_end. simpl. by destruct (ls_rx_open s).
  - by destruct Hs.
Qed.

Lemma bind_all_policy policy addrs : Forall (λ r, policy_ok policy r.2) (bind_all display policy addrs).1.
Proof.
  induction addrs as [|[addr os] addrs IH]; simpl; [constructor|].
  destruct (bind_all display policy addrs) as [rs ms]. simpl in IH.
  destruct (policy_bind display policy addr os) as [sock|e] eqn:E; [|done].
  constructor; [|done]. by apply policy_bind_ok in E as [? _].
Qed.

Lemma loop_start_inv policy addrs extension : NoDup (bind_all display policy addrs).1.*1 →
  loop_inv (loop_start display policy addrs extension).
Proof.
  intros Hn. unfold loop_start. pose proof (bind_all_policy policy addrs) as Hb.
  destruct (bind_all display policy addrs) as [rs ms]. simpl in *. split; simpl; try done.
  - unfold open_addrs. simpl. case_bool_decide; simpl; [constructor|done].
  - split; [done|]. intros receivers. case_bool_decide; [done|]. by intros [= <-].
  - intros i m Hm. apply list_elem_of_fmap in Hm as (? & ? & _). done.
Qed.

(** ** Theorems *)

(** C34: in every interleaving of the control loop with the listener threads:
    the registry holds no listener that was asked to stop, and holds every
    other running one under its address; in solo mode every listener's address is a numeric loopback address; each listener forwards
    the signals it received, in order, each once, under its own address; and
    a listener that was removed sends at most one more message. *)
Theorem receiver_loop_safe policy addrs extension s :
  NoDup (bind_all display policy addrs).1.*1 →
  rtc (loop_step display) (loop_start display policy addrs extension) s →
  (∀ addr i, ls_registry s !! addr = Some i → ∃ t, ls_threads s !! i = Some t ∧ lt_addr t = addr ∧ lt_stop t = false) ∧
  ∀ i t, ls_threads s !! i = Some t →
    (exited t = false → lt_stop t = false → ls_registry s !! lt_addr t = Some i) ∧
    (policy = TrustedLocal → loopback_addr (lt_configured t)) ∧
    signals_from i (ls_out s) `prefix_of` lt_received t ∧
    (exited t = false → signals_from i (ls_out s) ++ pending t = lt_received t) ∧
    (∀ l signal, (Some i, RmSignal l signal) ∈ ls_out s → l = lt_addr t) ∧
    (lt_stop t = true → (lt_late t ≤ 1)%nat).
Proof.
  intros Hn Hr.
  assert (loop_inv s ∧ ls_policy s = policy) as [Hi Hpo].
  { assert (ls_policy (loop_start display policy addrs extension) = policy) as H0
      by (unfold loop_start; by destruct (bind_all display policy addrs)).
    revert H0. pose proof (loop_start_inv policy addrs extension Hn) as H1. revert H1.
    induction Hr as [|x y z Hs _ IH]; [done|]. intros Hx Hpx. apply IH; [by eapply loop_step_inv|].
    rewrite <-Hpx. by apply (loop_step_policy x y). }
  split; [apply Hi|]. intros i t Ht. destruct (li_threads s Hi i t Ht) as [O1 O2 O3 O4 O5].
  split_and!; [by apply Hi| |done|done|done|].
  - intros ->. pose proof (proj1 (li_policy s Hi) i t Ht) as H. by rewrite Hpo in H.
  - intros Hst. destruct O3; [lia|congruence].
Qed.
End steps.

(** ** A small run *)

Definition demo_binds : list (string * result IoError BoundSocket) :=
  [("127.0.0.1:9000", Ok {| bs_local := Some "127.0.0.1:9000" |});
   ("0.0.0.0:9001", Ok {| bs_local := Some "0.0.0.0:9001" |})].
Abbreviation demo_start := (loop_start (λ _, "") TrustedLocal demo_binds (Ok false)).
Abbreviation demo_spawned :=
  (spawn_listener "127.0.0.1:9000" "127.0.0.1:9000" (with_phase (Spawning []) demo_start)).

Lemma receiver_loop_safe_witness :
  ls_phase demo_start = Spawning [("127.0.0.1:9000", "127.0.0.1:9000")] ∧
  loopback_addr "127.0.0.1:9000".
Proof.
  split; [vm_refl|].
  destruct (receiver_loop_safe (λ _, "") TrustedLocal demo_binds (Ok false) demo_spawned) as [_ H].
  - apply NoDup_singleton.
  - apply rtc_once. apply LoopSpawn. vm_refl.
  - exact (proj1 (proj2 (H 0%nat (new_listener "127.0.0.1:9000" "127.0.0.1:9000") eq_refl)) eq_refl).
Defined.
