(* ===== verification/FileShare.v ===== *)
(** * The sshfs client and the extension host (skid-monitor-client)

    modules/file_share.rs: a state machine around one [sshfs] process, with
    the processes it starts and ends as a trace.  extension.rs: the command
    line of the extension host. *)

From S2P Require Import Prelude RustStr Otlp Frame.

(** ** modules/file_share.rs *)

Inductive SshfsClientState := Unmounted | Mounted | SshfsError (e : string).

Record SshfsOption := {
  sshfs_path : string;
  mount_path : string;
  sshfs_user : string;
  sshfs_host : string;
  sshfs_port : Z;
}.

(** A child process is its number. *)
Record SshfsClient := {
  sshfs_option : SshfsOption;
  sshfs_process : option nat;
  sshfs_state : SshfsClientState;
}.

(** What the client asks of the operating system. *)
Inductive SysCall :=
| Spawn (program : string) (args : list string) (pid : option nat)
| RunCommand (program : string) (args : list string)
| Kill (pid : nat)
| Wait (pid : nat).

Definition sshfs_new (o : SshfsOption) : SshfsClient :=
  {| sshfs_option := o; sshfs_process := None; sshfs_state := Unmounted |}.

(** [spawned] is the outcome of the spawn. *)
Definition sshfs_open (o : SshfsOption) (spawned : result string nat)
    : result string nat * list SysCall :=
  let args := ["-o"; "allow_other,default_permissions,port=" +:+ u64_to_string (sshfs_port o);
               sshfs_user o +:+ "@" +:+ sshfs_host o +:+ ":" +:+ sshfs_path o; mount_path o] in
  (map_err (λ e, "Failed to execute sshfs command: " +:+ e) spawned,
   [Spawn "sshfs" args (result_ok spawned)]).

Definition mount (spawned : result string nat) (c : SshfsClient)
    : result string () * SshfsClient * list SysCall :=
  match sshfs_process c with
  | Some _ => (Err "sshfs is already mounted", c, [])
  | None =>
    match sshfs_open (sshfs_option c) spawned with
    | (Ok child, calls) =>
      (Ok (), {| sshfs_option := sshfs_option c; sshfs_process := Some child; sshfs_state := Mounted |}, calls)
    | (Err e, calls) =>
      (Err e, {| sshfs_option := sshfs_option c; sshfs_process := None; sshfs_state := SshfsError e |}, calls)
    end
  end.

Definition unmount (c : SshfsClient) : result string () * SshfsClient * list SysCall :=
  match sshfs_process c with
  | None => (Err "No sshfs process to unmount", c, [])
  | Some pid =>
    (Ok (), {| sshfs_option := sshfs_option c; sshfs_process := None; sshfs_state := Unmounted |},
     [RunCommand "fusermount" ["-u"; mount_path (sshfs_option c)]; Kill pid; Wait pid])
  end.

Inductive SshfsOp := OpMount (spawned : result string nat) | OpUnmount.

Definition sshfs_step (op : SshfsOp) (c : SshfsClient) : SshfsClient * list SysCall :=
  match op with
  | OpMount spawned => let '(_, c, calls) := mount spawned c in (c, calls)
  | OpUnmount => let '(_, c, calls) := unmount c in (c, calls)
  end.

(** The life of a client: its operations, then its [Drop]. *)
Fixpoint sshfs_life (c : SshfsClient) (ops : list SshfsOp) : list SysCall :=
  match ops with
  | [] => (unmount c).2
  | op :: ops => let '(c, calls) := sshfs_step op c in calls ++ sshfs_life c ops
  end.

(** ** extension.rs *)

Definition EXTENSION_HOST_ENV : string := "SKID_MONITOR_EXTENSION_HOST".

(** The program and the arguments [ExtensionHost::from_env] starts. *)
Definition extension_command (env : gmap string string) : result IoError (option (string * list string)) :=
  match env !! EXTENSION_HOST_ENV with
  | Some command_line =>
    if is_empty (trim command_line) then Ok None
    else
      match split_whitespace command_line with
      | program :: args => Ok (Some (program, args))
      | [] => Err (mkIoError InvalidInput (EXTENSION_HOST_ENV +:+ " does not contain a program"))
      end
  | None => Ok None
  end.

(** ** Lemmas *)

(** The processes a trace starts and those it reaps, in order. *)
Definition started_pids (calls : list SysCall) : list nat :=
  omap (λ c, match c with Spawn _ _ pid => pid | _ => None end) calls.
Definition reaped_pids (calls : list SysCall) : list nat :=
  omap (λ c, match c with Wait pid => Some pid | _ => None end) calls.

(** The client reports a mount exactly when it has a process. *)
Definition sshfs_wf (c : SshfsClient) : Prop := sshfs_state c = Mounted ↔ is_Some (sshfs_process c).

Lemma sshfs_step_wf op c : sshfs_wf c → sshfs_wf (sshfs_step op c).1.
Proof.
  unfold sshfs_wf. intros Hw. destruct op as [[pid|e]|]; simpl; unfold mount, unmount;
    destruct (sshfs_process c) eqn:E; simpl; rewrite ?E; try done; naive_solver.
Qed.

(** However it is used, a client runs at most one [sshfs] at a time and leaves
    none behind: the processes it reaps are the ones it started, in order. *)
Theorem sshfs_leaves_no_process c ops :
  reaped_pids (sshfs_life c ops) = option_list (sshfs_process c) ++ started_pids (sshfs_life c ops).
Proof.
  unfold reaped_pids, started_pids. revert c. induction ops as [|op ops IH]; intros c; simpl.
  - unfold unmount. by destruct (sshfs_process c).
  - destruct (sshfs_step op c) as [c' calls] eqn:E. rewrite !omap_app, IH. clear IH.
    destruct op as [[pid|e]|]; simpl in E; unfold mount, unmount in E;
      destruct (sshfs_process c) as [p|] eqn:Ep; simpl in E; injection E as <- <-; simpl; by rewrite ?Ep.
Qed.
