(* ===== verification/FeFormat.v ===== *)
(** * Formatting in the control room (skid-monitor-fe, utils.rs)

    The numbers, byte counts, durations and clock times the dashboard shows,
    the capped queues it keeps, and the choice of the rendering mode. *)

From S2P Require Import Prelude RustStr Otlp RustFloat.

(** [VecDeque]: the front is the head. *)
Definition push_capped {T} (items : list T) (item : T) (max : Z) : list T :=
  (if max <=? zlen items then tail items else items) ++ [item].

Definition trim_fraction (value : string) : string :=
  let value := if contains value "." then
                 let value := trim_end_matches "0"%byte value in
                 if bool_decide (last (as_bytes value) = Some "."%byte)
                 then of_bytes (take (length (as_bytes value) - 1) (as_bytes value)) else value
               else value in
  if bool_decide (value = "-0") then "0" else value.

(** The constant 0.01. *)
Definition f64_0_01 : f64 := S754_finite false 5764607523034235 (-59).

Definition format_f64 (value : f64) : string :=
  let abs := SFabs value in
  let decimals :=
    if SFeqb value (S754_zero false) || is_integral value || f64_ge abs (f64_of_Z 100) then 0%nat
    else if f64_ge abs (f64_of_Z 1) then 2%nat
    else if f64_ge abs f64_0_01 then 4%nat
    else 6%nat in
  trim_fraction (format_fixed decimals value).

Definition METRIC_BYTE_UNIT : string := "By".
Definition BYTE_UNIT_BASE : f64 := f64_of_Z 1024.
Definition BYTE_DISPLAY_UNITS : list string := ["B"; "KiB"; "MiB"; "GiB"; "TiB"; "PiB"].

(** The [while] of [format_bytes]: each turn takes the next unit. *)
Fixpoint scale_bytes (scaled : f64) (unit : string) (units : list string) : f64 * string :=
  match units with
  | [] => (scaled, unit)
  | next :: units =>
    if f64_ge scaled BYTE_UNIT_BASE then scale_bytes (f64_div scaled BYTE_UNIT_BASE) next units
    else (scaled, unit)
  end.

Definition format_bytes (value : f64) : string :=
  let '(scaled, unit) := scale_bytes (SFabs value) "B" (drop 1 BYTE_DISPLAY_UNITS) in
  let scaled := if is_sign_negative value then SFopp scaled else scaled in
  format_f64 scaled +:+ " " +:+ unit.

Definition format_metric_value (value : f64) (unit : string) : string :=
  if bool_decide (unit = METRIC_BYTE_UNIT) then format_bytes value
  else
    let formatted := format_f64 value in
    if is_empty unit then formatted else formatted +:+ " " +:+ unit.

(** [duration.as_secs()] *)
Definition format_duration (seconds : Z) : string :=
  if seconds <? 60 then u64_to_string seconds +:+ "s"
  else if seconds <? 60 * 60
  then u64_to_string (seconds `div` 60) +:+ "m " +:+ u64_to_string (seconds `mod` 60) +:+ "s"
  else u64_to_string (seconds `div` 3600) +:+ "h " +:+ u64_to_string ((seconds `mod` 3600) `div` 60) +:+ "m".

Definition utc_clock_time (seconds : Z) : string :=
  let seconds := seconds `mod` (24 * 60 * 60) in
  pad_zeros 2 (seconds `div` 3600) +:+ ":" +:+ pad_zeros 2 ((seconds `mod` 3600) `div` 60) +:+ ":"
  +:+ pad_zeros 2 (seconds `mod` 60).

(** [local]: the local clock time of these seconds, where [localtime_r] gives
    one; [None] is a time before the epoch. *)
Definition format_event_time (local : Z → option string) (seconds : option Z) : string :=
  match seconds with
  | None => "--:--:--"
  | Some seconds => default (utc_clock_time seconds) (local seconds)
  end.

Definition shorten (value : string) (max_chars : nat) : string :=
  if (length (chars value) <=? max_chars)%nat then value
  else str_of_chars (take max_chars (chars value)) +:+ "...".

Inductive LinuxRenderMode := Auto | Software.

Definition linux_render_mode (mode legacy_gpu : option string) : LinuxRenderMode :=
  match mode with
  | Some mode => if eq_ignore_ascii_case (trim mode) "software" then Software else Auto
  | None => if bool_decide (legacy_gpu = Some "0") then Software else Auto
  end.

(** The process environment ([std::env::var], [set_var], [remove_var]). *)
Abbreviation Env := (gmap string string).

Definition prefers_x11_backend (env : Env) : bool :=
  let use_wayland := bool_decide (env !! "SKID_MONITOR_FE_USE_WAYLAND" = Some "1") in
  let has_x11 := default false ((λ display, negb (is_empty display)) <$> env !! "DISPLAY") in
  has_x11 && negb use_wayland.

Definition stabilize_linux_graphics_env (env : Env) : Env :=
  let env :=
    match linux_render_mode (env !! "SKID_MONITOR_FE_RENDER_MODE") (env !! "SKID_MONITOR_FE_USE_GPU") with
    | Software =>
      let env := <["MESA_LOADER_DRIVER_OVERRIDE" := "llvmpipe"]> (<["LIBGL_ALWAYS_SOFTWARE" := "1"]> env) in
      if bool_decide (env !! "GALLIUM_DRIVER" = Some "zink")
      then <["GALLIUM_DRIVER" := "llvmpipe"]> env else env
    | Auto => env
    end in
  if prefers_x11_backend env then delete "WAYLAND_SOCKET" (delete "WAYLAND_DISPLAY" env) else env.

(** ** Lemmas *)

Lemma tail_drop {T} (l : list T) : tail l = drop 1 l.
Proof. by destruct l. Qed.

Lemma push_capped_length {T} (items : list T) item max :
  0 < max → zlen items ≤ max → zlen (push_capped items item max) ≤ max.
Proof.
  intros Hm Hl. unfold push_capped. case_test; to_prop; rewrite zlen_app; unfold zlen in *; simpl; [|lia].
  destruct items; simpl in *; lia.
Qed.

(** The newest items, in order. *)
Definition newest {T} (max : Z) (l : list T) : list T := drop (length l - Z.to_nat max) l.

(** Pushing one by one keeps the newest [max] of all. *)
Lemma push_capped_newest {T} (max : Z) (all : list T) item : 0 < max →
  push_capped (newest max all) item max = newest max (all ++ [item]).
Proof.
  intros Hm. unfold push_capped, newest. rewrite length_app. simpl.
  assert (zlen (drop (length all - Z.to_nat max) all) = Z.min (zlen all) max) as ->.
  { unfold zlen. rewrite length_drop. lia. }
  case_test; to_prop; unfold zlen in *.
  - rewrite drop_app_le by lia. f_equal. rewrite tail_drop, drop_drop. f_equal. lia.
  - replace (length all - Z.to_nat max)%nat with 0%nat by lia.
    replace (length all + 1 - Z.to_nat max)%nat with 0%nat by lia. done.
Qed.
