(* ===== verification/FeSignal.v ===== *)
(** * From OTLP requests to dashboard samples (skid-monitor-fe, signal.rs)

    Every data point with a value becomes one [MetricSample], attributed to a
    node: [metric_samples] of signal.rs with the types of model/metric.rs. *)

From S2P Require Import Prelude RustStr Otlp RustFloat FeFormat.

(** ** model/metric.rs *)

Inductive MetricSignalSubtype := SubtypeOpenTelemetry | SubtypeDatabase.
Inductive DatabaseSystem := MySql | PostgreSql | Redis | Valkey.

#[global] Instance MetricSignalSubtype_eq_dec : EqDecision MetricSignalSubtype.
Proof. solve_decision. Defined.
#[global] Instance DatabaseSystem_eq_dec : EqDecision DatabaseSystem.
Proof. solve_decision. Defined.

Definition from_otel (value : string) : option DatabaseSystem :=
  let value := to_ascii_lowercase (trim value) in
  if bool_decide (value = "mysql") then Some MySql
  else if bool_decide (value = "postgresql") then Some PostgreSql
  else if bool_decide (value = "redis") then Some Redis
  else if bool_decide (value = "valkey") then Some Valkey
  else None.

Definition database_label (system : DatabaseSystem) : string :=
  match system with
  | MySql => "MySQL" | PostgreSql => "PostgreSQL" | Redis => "Redis" | Valkey => "Valkey"
  end.

Record MetricSample := {
  ms_name : string;
  ms_value : string;
  ms_numeric : option f64;
  ms_signal_subtype : MetricSignalSubtype;
  ms_database_system : option DatabaseSystem;
  ms_database_namespace : string;
  ms_database_operation : string;
  ms_database_target : string;
  ms_source : string;
  ms_service : string;
  ms_node : string;
  ms_endpoint : string;
  ms_kind : string;
  ms_attributes : string;
  ms_trend_key : string;
}.

Definition METRIC_EMPTY_FIELD : string := "-".

Definition is_database (sample : MetricSample) : bool :=
  bool_decide (ms_signal_subtype sample = SubtypeDatabase)
  && bool_decide (is_Some (ms_database_system sample)).

Definition database_system_label (sample : MetricSample) : string :=
  default METRIC_EMPTY_FIELD (database_label <$> ms_database_system sample).

(** ** signal.rs *)

Definition NODE_ID_ATTRIBUTE_KEYS : list string :=
  ["node_name"; "k8s.node.name"; "host.name"; "service.instance.id"; "device_id"].
Definition DATABASE_SYSTEM_ATTRIBUTE_KEYS : list string := ["db.system.name"; "db.system"].
Definition METRIC_RESOURCE_SOURCE_KEY : string := "skid_monitor.source".
Definition METRIC_SERVICE_NAME_KEY : string := "service.name".
Definition METRIC_UNKNOWN_SOURCE : string := "unknown".
Definition METRIC_ATTR_PREVIEW_COUNT : nat := 4.
Definition METRIC_TREND_ATTR_COUNT : nat := 3.

Definition number_f64 (value : NumberValue) : f64 :=
  match value with AsDouble value => value | AsInt value => f64_of_Z value end.

Definition any_value (value : AnyValue) : string :=
  match value with
  | mkAnyValue (Some (StringValue value)) => value
  | mkAnyValue (Some (BoolValue value)) => if value then "true" else "false"
  | mkAnyValue (Some (IntValue value)) => i64_to_string value
  | mkAnyValue (Some (DoubleValue value)) => format_f64 value
  | mkAnyValue (Some (ArrayValue values)) => u64_to_string (zlen values) +:+ " values"
  | mkAnyValue (Some (KvlistValue values)) => u64_to_string (zlen values) +:+ " attrs"
  | mkAnyValue (Some (BytesValue value)) => u64_to_string (zlen value) +:+ " bytes"
  | mkAnyValue (Some (StringValueStrindex value)) => "strindex:" +:+ i64_to_string value
  | mkAnyValue None => METRIC_EMPTY_FIELD
  end.

Definition key_value (attribute : KeyValue) : string :=
  default METRIC_EMPTY_FIELD (any_value <$> kv_value attribute).

Definition attribute_value (attributes : list KeyValue) (key : string) : option string :=
  key_value <$> find_first (λ attribute, bool_decide (kv_key attribute = key)) attributes.

(** [Option::or_else] *)
Definition or_else {A} (a b : option A) : option A := match a with Some _ => a | None => b end.

Definition attribute_value_in (point_attrs resource_attrs : list KeyValue) (key : string)
    : option string :=
  or_else (attribute_value point_attrs key) (attribute_value resource_attrs key).

Definition is_meaningful (value : string) : bool :=
  let value := trim value in
  negb (is_empty value) && negb (bool_decide (value = METRIC_EMPTY_FIELD)).

(** [Option::filter] *)
Definition opt_filter {A} (p : A → bool) (o : option A) : option A :=
  match o with Some a => if p a then Some a else None | None => None end.

Definition node_identity (resource_attrs point_attrs : list KeyValue)
    (service source listener : string) : string :=
  match find_map (λ key, opt_filter is_meaningful
                   (or_else (attribute_value point_attrs key) (attribute_value resource_attrs key)))
          NODE_ID_ATTRIBUTE_KEYS with
  | Some value => value
  | None =>
    if is_meaningful service then service +:+ "@" +:+ listener
    else if is_meaningful source then source +:+ "@" +:+ listener
    else listener
  end.

Definition trend_key (listener name source node : string) (attributes : list KeyValue) : string :=
  foldl (λ key attribute, key +:+ " " +:+ kv_key attribute +:+ "=" +:+ key_value attribute)
    (listener +:+ "/" +:+ source +:+ "/" +:+ node +:+ "/" +:+ name)
    (take METRIC_TREND_ATTR_COUNT attributes).

Definition metric_attributes (service scope : string) (attributes : list KeyValue) : string :=
  let parts := ["service=" +:+ service; "scope=" +:+ scope] in
  let parts := parts ++
    ((λ attribute, kv_key attribute +:+ "=" +:+ key_value attribute)
       <$> take METRIC_ATTR_PREVIEW_COUNT attributes) in
  let parts :=
    if (METRIC_ATTR_PREVIEW_COUNT <? length attributes)%nat
    then parts ++ ["+" +:+ u64_to_string (zlen attributes - Z.of_nat METRIC_ATTR_PREVIEW_COUNT)]
    else parts in
  String.concat ", " parts.

Definition database_target (resource_attrs point_attrs : list KeyValue) : string :=
  let address := or_else (attribute_value_in point_attrs resource_attrs "server.address")
                   (attribute_value_in point_attrs resource_attrs "network.peer.address") in
  let port := or_else (attribute_value_in point_attrs resource_attrs "server.port")
                (attribute_value_in point_attrs resource_attrs "network.peer.port") in
  match address with
  | Some address =>
    if is_meaningful address then
      match opt_filter is_meaningful port with
      | Some port => address +:+ ":" +:+ port
      | None => address
      end
    else METRIC_EMPTY_FIELD
  | None => METRIC_EMPTY_FIELD
  end.

Definition database_system (resource_attrs point_attrs : list KeyValue) : option DatabaseSystem :=
  value ← find_map (attribute_value_in point_attrs resource_attrs) DATABASE_SYSTEM_ATTRIBUTE_KEYS;
  from_otel value.

(** The arguments of [metric_to_samples] that stay the same for a metric. *)
Record SampleContext := {
  cx_source : string;
  cx_service : string;
  cx_scope : string;
  cx_resource_attrs : list KeyValue;
  cx_listener : string;
}.

Definition metric_sample (cx : SampleContext) (name value : string) (numeric : option f64)
    (kind : string) (point_attrs : list KeyValue) : MetricSample :=
  let resource_attrs := cx_resource_attrs cx in
  let node := node_identity resource_attrs point_attrs (cx_service cx) (cx_source cx) (cx_listener cx) in
  let system := database_system resource_attrs point_attrs in
  {| ms_name := name;
     ms_value := value;
     ms_numeric := numeric;
     ms_signal_subtype :=
       if bool_decide (is_Some system) then SubtypeDatabase else SubtypeOpenTelemetry;
     ms_database_system := system;
     ms_database_namespace :=
       default METRIC_EMPTY_FIELD (attribute_value_in point_attrs resource_attrs "db.namespace");
     ms_database_operation :=
       default METRIC_EMPTY_FIELD
         (or_else (attribute_value_in point_attrs resource_attrs "db.operation.name")
            (attribute_value_in point_attrs resource_attrs "db.query.summary"));
     ms_database_target := database_target resource_attrs point_attrs;
     ms_source := cx_source cx;
     ms_service := cx_service cx;
     ms_node := node;
     ms_endpoint := cx_listener cx;
     ms_kind := kind;
     ms_attributes := metric_attributes (cx_service cx) (cx_scope cx) point_attrs;
     ms_trend_key := trend_key (cx_listener cx) name (cx_source cx) node point_attrs |}.

(** The text of a histogram point. *)
Definition histogram_text (unit : string) (sum : option f64) (count : Z) : string :=
  match sum with
  | Some sum => "sum " +:+ format_metric_value sum unit +:+ " / count " +:+ u64_to_string count
  | None => "count " +:+ u64_to_string count
  end.

Definition number_samples (cx : SampleContext) (metric : OtlpMetric) (kind : string)
    (points : list NumberDataPoint) : list MetricSample :=
  omap (λ point,
    (λ value, let numeric := number_f64 value in
       metric_sample cx (om_name metric) (format_metric_value numeric (om_unit metric)) (Some numeric)
         kind (ndp_attributes point)) <$> ndp_value point) points.

Definition metric_to_samples (cx : SampleContext) (metric : OtlpMetric) : list MetricSample :=
  let unit := om_unit metric in
  match om_data metric with
  | Some (DataGauge points) => number_samples cx metric "gauge" points
  | Some (DataSum points _ _) => number_samples cx metric "sum" points
  | Some (DataHistogram points _) =>
    (λ point, metric_sample cx (om_name metric) (histogram_text unit (hdp_sum point) (hdp_count point))
                (hdp_sum point) "histogram" (hdp_attributes point)) <$> points
  | Some (DataExponentialHistogram points _) =>
    (λ point, metric_sample cx (om_name metric) (histogram_text unit (ehdp_sum point) (ehdp_count point))
                (ehdp_sum point) "exp_histogram" (ehdp_attributes point)) <$> points
  | Some (DataSummary points) =>
    (λ point, metric_sample cx (om_name metric)
                ("sum " +:+ format_metric_value (sdp_sum point) unit +:+ " / count "
                 +:+ u64_to_string (sdp_count point))
                (Some (sdp_sum point)) "summary" (sdp_attributes point)) <$> points
  | None => []
  end.

Definition metric_samples (request : ExportMetricsServiceRequest) (listener : string)
    : list MetricSample :=
  resource_metrics ← resource_metrics_of request;
  let resource_attrs := default [] (res_attributes <$> rm_resource resource_metrics) in
  let source := default METRIC_UNKNOWN_SOURCE (attribute_value resource_attrs METRIC_RESOURCE_SOURCE_KEY) in
  let service := default METRIC_EMPTY_FIELD (attribute_value resource_attrs METRIC_SERVICE_NAME_KEY) in
  scope_metrics ← rm_scope_metrics resource_metrics;
  let scope := default METRIC_EMPTY_FIELD
                 (opt_filter (λ name, negb (is_empty name)) (is_name <$> sm_scope scope_metrics)) in
  metric ← sm_metrics scope_metrics;
  metric_to_samples {| cx_source := source; cx_service := service; cx_scope := scope;
                       cx_resource_attrs := resource_attrs; cx_listener := listener |} metric.

(** ** Specification

    Which samples a request has, told from the OTLP data: a point with a value
    is one sample, of its metric, its resource and its scope. *)

(** What the elements of a list contribute, in order. *)
Inductive collects {A B} (R : A → list B → Prop) : list A → list B → Prop :=
| collects_nil : collects R [] []
| collects_cons a l out outs : R a out → collects R l outs → collects R (a :: l) (out ++ outs).

Lemma collects_bind {A B} (R : A → list B → Prop) (f : A → list B) l : (∀ a, R a (f a)) → collects R l (l ≫= f).
Proof. intros Hf. induction l as [|a l IH]; [constructor|]. rewrite bind_cons. by constructor. Qed.

(** The text of the first attribute with a key. *)
Definition lacks (attributes : list KeyValue) (key : string) : Prop := Forall (λ a, kv_key a ≠ key) attributes.
Definition first_at (attributes : list KeyValue) (key value : string) : Prop := ∃ before a after,
  attributes = before ++ a :: after ∧ kv_key a = key ∧ lacks before key ∧ value = key_value a.
Definition text_of (attributes : list KeyValue) (key fallback value : string) : Prop :=
  first_at attributes key value ∨ (lacks attributes key ∧ value = fallback).
Definition meaningful (value : string) : Prop := trim value ≠ "" ∧ trim value ≠ "-".

Section sampled.
Context (point resource : list KeyValue).
(** A point's own attribute comes before that of its resource, and one key
    before another. *)
Definition looked_up (key : string) (o : option string) : Prop :=
  match o with
  | Some v => first_at point key v ∨ (lacks point key ∧ first_at resource key v)
  | None => lacks point key ∧ lacks resource key
  end.
Definition either_of (key other : string) (o : option string) : Prop :=
  (is_Some o ∧ looked_up key o) ∨ (looked_up key None ∧ looked_up other o).

Definition nameless (key : string) : Prop := ∀ v, looked_up key (Some v) → ¬ meaningful v.
Inductive node_of (service source listener : string) : string → Prop :=
| node_named before key after node :
    ["node_name"; "k8s.node.name"; "host.name"; "service.instance.id"; "device_id"] = before ++ key :: after →
    Forall nameless before → looked_up key (Some node) → meaningful node → node_of service source listener node
| node_unnamed node :
    Forall nameless ["node_name"; "k8s.node.name"; "host.name"; "service.instance.id"; "device_id"] →
    (meaningful service ∧ node = service +:+ "@" +:+ listener) ∨
    (¬ meaningful service ∧ meaningful source ∧ node = source +:+ "@" +:+ listener) ∨
    (¬ meaningful service ∧ ¬ meaningful source ∧ node = listener) → node_of service source listener node.

Definition otel_name (system : DatabaseSystem) : string :=
  match system with MySql => "mysql" | PostgreSql => "postgresql" | Redis => "redis" | Valkey => "valkey" end.
Definition system_of (system : option DatabaseSystem) : Prop := ∃ o, either_of "db.system.name" "db.system" o ∧
  match system with
  | Some x => ∃ v, o = Some v ∧ to_ascii_lowercase (trim v) = otel_name x
  | None => ∀ v x, o = Some v → to_ascii_lowercase (trim v) ≠ otel_name x
  end.
Definition target_of (target : string) : Prop := ∃ address port,
  either_of "server.address" "network.peer.address" address ∧ either_of "server.port" "network.peer.port" port ∧
  ((∃ a p, address = Some a ∧ port = Some p ∧ meaningful a ∧ meaningful p ∧ target = a +:+ ":" +:+ p) ∨
   (∃ a, address = Some a ∧ meaningful a ∧ (∀ p, port = Some p → ¬ meaningful p) ∧ target = a) ∨
   ((∀ a, address = Some a → ¬ meaningful a) ∧ target = "-")).

Definition label_text (a : KeyValue) : string := kv_key a +:+ "=" +:+ key_value a.
(** A sample of a point, received by [listener]. *)
Record shown_as (listener scope name kind value : string) (numeric : option f64) (s : MetricSample) : Prop := {
  sa_name : ms_name s = name;
  sa_value : ms_value s = value;
  sa_numeric : ms_numeric s = numeric;
  sa_kind : ms_kind s = kind;
  sa_endpoint : ms_endpoint s = listener;
  sa_source : text_of resource "skid_monitor.source" "unknown" (ms_source s);
  sa_service : text_of resource "service.name" "-" (ms_service s);
  sa_node : node_of (ms_service s) (ms_source s) listener (ms_node s);
  sa_trend : ms_trend_key s = listener +:+ "/" +:+ ms_source s +:+ "/" +:+ ms_node s +:+ "/" +:+ name +:+
    String.concat "" ((λ a, " " +:+ label_text a) <$> take 3 point);
  sa_attributes : ms_attributes s = String.concat ", "
    (["service=" +:+ ms_service s; "scope=" +:+ scope] ++ (label_text <$> take 4 point) ++
     match drop 4 point with [] => [] | more => ["+" +:+ u64_to_string (zlen more)] end);
  sa_system : system_of (ms_database_system s);
  sa_subtype : ms_signal_subtype s = SubtypeDatabase ↔ is_Some (ms_database_system s);
  sa_namespace : ∃ o, looked_up "db.namespace" o ∧ ms_database_namespace s = default "-" o;
  sa_operation : ∃ o, either_of "db.operation.name" "db.query.summary" o ∧ ms_database_operation s = default "-" o;
  sa_target : target_of (ms_database_target s);
}.
End sampled.

Section measured.
Context (listener scope : string) (resource : list KeyValue) (m : OtlpMetric).

Definition number_shown (kind : string) (p : NumberDataPoint) (out : list MetricSample) : Prop :=
  match ndp_value p with
  | None => out = []
  | Some v =>
    let x := match v with AsDouble x => x | AsInt i => f64_of_Z i end in
    ∃ s, out = [s] ∧ shown_as (ndp_attributes p) resource listener scope (om_name m) kind (format_metric_value x (om_unit m)) (Some x) s
  end.
Definition with_sum (sum : f64) (count : Z) : string :=
  "sum " +:+ format_metric_value sum (om_unit m) +:+ " / count " +:+ u64_to_string count.
Definition sum_or_count (sum : option f64) (count : Z) (value : string) : Prop :=
  match sum with Some sum => value = with_sum sum count | None => value = "count " +:+ u64_to_string count end.
Definition measured (out : list MetricSample) : Prop :=
  match om_data m with
  | None => out = []
  | Some (DataGauge points) => collects (number_shown "gauge") points out
  | Some (DataSum points _ _) => collects (number_shown "sum") points out
  | Some (DataHistogram points _) => Forall2 (λ p s, ∃ value, sum_or_count (hdp_sum p) (hdp_count p) value ∧
      shown_as (hdp_attributes p) resource listener scope (om_name m) "histogram" value (hdp_sum p) s) points out
  | Some (DataExponentialHistogram points _) => Forall2 (λ p s, ∃ value, sum_or_count (ehdp_sum p) (ehdp_count p) value ∧
      shown_as (ehdp_attributes p) resource listener scope (om_name m) "exp_histogram" value (ehdp_sum p) s) points out
  | Some (DataSummary points) => Forall2 (λ p s,
      shown_as (sdp_attributes p) resource listener scope (om_name m) "summary" (with_sum (sdp_sum p) (sdp_count p)) (Some (sdp_sum p)) s) points out
  end.
End measured.

(** The samples of a request, resource by resource, scope by scope, metric by
    metric. *)
Definition scope_name (o : option string) : string :=
  match o with Some name => if bool_decide (name = "") then "-" else name | None => "-" end.
Definition sampled (listener : string) (request : ExportMetricsServiceRequest) : list MetricSample → Prop :=
  collects (λ rm, collects (λ sm, collects (λ m,
    measured listener (scope_name (is_name <$> sm_scope sm)) (match rm_resource rm with Some r => res_attributes r | None => [] end) m)
    (sm_metrics sm)) (rm_scope_metrics rm)) (resource_metrics_of request).

(** ** The code meets it *)

Lemma attribute_value_first attributes key : match attribute_value attributes key with
  | Some v => first_at attributes key v | None => lacks attributes key end.
Proof.
  unfold attribute_value. induction attributes as [|a attributes IH]; [constructor|]. simpl. case_bool_decide as Hk.
  - exists [], a, attributes. split; [done|]. split; [done|]. by split; [constructor|].
  - destruct (find_first _ attributes) as [b|]; simpl in *; [|by constructor].
    destruct IH as (before & a' & after & -> & ? & ? & ?). exists (a :: before), a', after. split; [done|]. split; [done|]. by split; [constructor|].
Qed.
Lemma attribute_text attributes key fallback : text_of attributes key fallback (default fallback (attribute_value attributes key)).
Proof. pose proof (attribute_value_first attributes key) as H. destruct (attribute_value _ _); [by left|by right]. Qed.
Lemma attribute_looked_up point resource key : looked_up point resource key (attribute_value_in point resource key).
Proof.
  unfold attribute_value_in. pose proof (attribute_value_first point key) as H. destruct (attribute_value point key); simpl; [by left|].
  pose proof (attribute_value_first resource key) as H'. destruct (attribute_value resource key); simpl; [by right|done].
Qed.
Lemma attribute_either point resource key other :
  either_of point resource key other (or_else (attribute_value_in point resource key) (attribute_value_in point resource other)).
Proof.
  pose proof (attribute_looked_up point resource key) as H. pose proof (attribute_looked_up point resource other) as H'.
  destruct (attribute_value_in point resource key); [left|right]; done.
Qed.
Lemma is_meaningful_spec v : is_meaningful v = true ↔ meaningful v.
Proof.
  unfold is_meaningful, meaningful, METRIC_EMPTY_FIELD. rewrite andb_true_iff, !negb_true_iff, bool_decide_eq_false.
  assert (is_empty (trim v) = false ↔ trim v ≠ "") as ->; [|done]. destruct (trim v); [|done]. by split.
Qed.
Lemma not_meaningful v : is_meaningful v = false ↔ ¬ meaningful v.
Proof. rewrite <- is_meaningful_spec. by destruct (is_meaningful v). Qed.

Lemma first_at_unique attributes key v w : first_at attributes key v → first_at attributes key w → v = w.
Proof.
  intros H1 H2. pose proof (attribute_value_first attributes key) as H. assert (∀ x, first_at attributes key x → attribute_value attributes key = Some x) as Hx.
  { clear. intros x (before & a & after & -> & Hk & Hb & ->). unfold attribute_value.
    rewrite find_first_app. assert (find_first (λ a, bool_decide (kv_key a = key)) before = None) as ->.
    { apply find_first_None. intros y Hy. apply bool_decide_eq_false. by apply (proj1 (Forall_forall _ _) Hb). }
    simpl. by rewrite bool_decide_eq_true_2. }
  apply Hx in H1, H2. congruence.
Qed.
Lemma first_at_not_lacks attributes key v : first_at attributes key v → lacks attributes key → False.
Proof. intros (before & a & after & -> & Hk & _) Hl. unfold lacks in Hl. rewrite Forall_app, Forall_cons in Hl. tauto. Qed.
Lemma looked_up_unique point resource key v w : looked_up point resource key (Some v) → looked_up point resource key w → w = Some v.
Proof.
  simpl. destruct w as [w|]; simpl; intros [H1|[L1 H1]].
  - intros [H2|[L2 _]]; [f_equal; by eapply first_at_unique|by destruct (first_at_not_lacks _ _ _ H1)].
  - intros [H2|[_ H2]]; [by destruct (first_at_not_lacks _ _ _ H2)|f_equal; by eapply first_at_unique].
  - intros [L _]. by destruct (first_at_not_lacks _ _ _ H1).
  - intros [_ L]. by destruct (first_at_not_lacks _ _ _ H1).
Qed.

Lemma identity_node resource point service source listener :
  node_of point resource service source listener (node_identity resource point service source listener).
Proof.
  unfold node_identity. fold (attribute_value_in point resource).
  enough (∀ before keys, NODE_ID_ATTRIBUTE_KEYS = before ++ keys → Forall (nameless point resource) before →
    node_of point resource service source listener
      match find_map (λ key, opt_filter is_meaningful (attribute_value_in point resource key)) keys with
      | Some value => value
      | None => if is_meaningful service then service +:+ "@" +:+ listener
                else if is_meaningful source then source +:+ "@" +:+ listener else listener
      end) as Hk by (by apply (Hk [])).
  intros before keys. revert before. induction keys as [|key keys IH]; intros before E Hb; simpl.
  - rewrite app_nil_r in E. apply node_unnamed; [unfold NODE_ID_ATTRIBUTE_KEYS in E; by rewrite E|].
    destruct (is_meaningful service) eqn:E1; [left; by rewrite <- is_meaningful_spec|]. right. apply not_meaningful in E1.
    destruct (is_meaningful source) eqn:E2; [left; split_and!; [done|by apply is_meaningful_spec|done]|right]. by apply not_meaningful in E2.
  - pose proof (attribute_looked_up point resource key) as Hl.
    assert (is_Some (opt_filter is_meaningful (attribute_value_in point resource key)) ∨ nameless point resource key) as Hc.
    { destruct (attribute_value_in point resource key) as [v|] eqn:Ev; simpl.
      - destruct (is_meaningful v) eqn:Em; [by left; eexists|right]. intros w Hw. pose proof (looked_up_unique _ _ _ _ _ Hl Hw) as [= ->]. by apply not_meaningful.
      - right. intros w Hw. pose proof (looked_up_unique _ _ _ _ _ Hw Hl). done. }
    destruct (opt_filter is_meaningful _) as [v|] eqn:Ef.
    + destruct (attribute_value_in point resource key) as [w|] eqn:Ev; [|done]. simpl in Ef. destruct (is_meaningful w) eqn:Em; [|done]. injection Ef as ->.
      eapply node_named; [exact E|done|exact Hl|by apply is_meaningful_spec].
    + destruct Hc as [[? ?]|Hc]; [done|]. apply (IH (before ++ [key])); [by rewrite <- app_assoc|]. apply Forall_app. split; [done|]. by constructor.
Qed.

Lemma from_otel_spec v : match from_otel v with
  | Some x => to_ascii_lowercase (trim v) = otel_name x | None => ∀ x, to_ascii_lowercase (trim v) ≠ otel_name x end.
Proof. unfold from_otel. do 4 (case_bool_decide; [done|]). by intros []. Qed.
Lemma system_is resource point : system_of point resource (database_system resource point).
Proof.
  unfold database_system, DATABASE_SYSTEM_ATTRIBUTE_KEYS, find_map.
  eexists. split; [apply attribute_either|]. destruct (attribute_value_in point resource "db.system.name") as [v|]; simpl;
    [|destruct (attribute_value_in point resource "db.system") as [v|]; simpl; [|done]];
    (pose proof (from_otel_spec v) as Hv; destruct (from_otel v); [by exists v|by intros ? x [= <-]]).
Qed.
Lemma target_is resource point : target_of point resource (database_target resource point).
Proof.
  unfold database_target. do 2 eexists. split; [apply attribute_either|]. split; [apply attribute_either|].
  destruct (or_else (attribute_value_in point resource "server.address") _) as [a|]; [|right; right; by split].
  destruct (is_meaningful a) eqn:Ea; [|right; right; split; [|done]; intros ? [= <-]; by apply not_meaningful]. apply is_meaningful_spec in Ea.
  destruct (or_else (attribute_value_in point resource "server.port") _) as [p|]; simpl; [|right; left; by exists a].
  destruct (is_meaningful p) eqn:Ep.
  - left. exists a, p. by apply is_meaningful_spec in Ep.
  - right. left. exists a. split_and!; try done. intros ? [= <-]. by apply not_meaningful.
Qed.

Lemma trend_key_text listener name source node attributes : trend_key listener name source node attributes =
  listener +:+ "/" +:+ source +:+ "/" +:+ node +:+ "/" +:+ name +:+ String.concat "" ((λ a, " " +:+ label_text a) <$> take 3 attributes).
Proof.
  unfold trend_key. change METRIC_TREND_ATTR_COUNT with 3%nat. generalize (take 3 attributes). intros l.
  enough (∀ key, foldl (λ key attribute, key +:+ " " +:+ kv_key attribute +:+ "=" +:+ key_value attribute) key l =
    key +:+ String.concat "" ((λ a, " " +:+ label_text a) <$> l)) as -> by (by rewrite !string_app_assoc).
  induction l as [|a l IH]; intros key; [by rewrite string_app_nil_r|]. rewrite fmap_cons. cbn [foldl]. rewrite IH.
  assert (∀ x (l : list string), String.concat "" (x :: l) = x +:+ String.concat "" l) as ->.
  { intros x [|y k]; [by rewrite string_app_nil_r|done]. }
  unfold label_text. by rewrite !string_app_assoc.
Qed.
Lemma metric_attributes_text service scope attributes : metric_attributes service scope attributes = String.concat ", "
  (["service=" +:+ service; "scope=" +:+ scope] ++ (label_text <$> take 4 attributes) ++
   match drop 4 attributes with [] => [] | more => ["+" +:+ u64_to_string (zlen more)] end).
Proof.
  unfold metric_attributes. change METRIC_ATTR_PREVIEW_COUNT with 4%nat. f_equal. unfold label_text. pose proof (length_drop attributes 4) as Hl.
  destruct (Nat.ltb_spec 4 (length attributes)).
  - rewrite <- app_assoc. f_equal. f_equal. destruct (drop 4 attributes) as [|a more]; [simpl in Hl; lia|]. do 3 f_equal. unfold zlen. lia.
  - destruct (drop 4 attributes); [by rewrite app_nil_r|simpl in Hl; lia].
Qed.

Lemma sample_shown cx name value numeric kind point :
  cx_source cx = default METRIC_UNKNOWN_SOURCE (attribute_value (cx_resource_attrs cx) METRIC_RESOURCE_SOURCE_KEY) →
  cx_service cx = default METRIC_EMPTY_FIELD (attribute_value (cx_resource_attrs cx) METRIC_SERVICE_NAME_KEY) →
  shown_as point (cx_resource_attrs cx) (cx_listener cx) (cx_scope cx) name kind value numeric (metric_sample cx name value numeric kind point).
Proof.
  intros Hso Hse. split; cbn [metric_sample ms_name ms_value ms_numeric ms_kind ms_endpoint ms_source ms_service ms_node ms_trend_key ms_attributes
    ms_database_system ms_signal_subtype ms_database_namespace ms_database_operation ms_database_target]; try done.
  - rewrite Hso. apply attribute_text.
  - rewrite Hse. apply attribute_text.
  - apply identity_node.
  - apply trend_key_text.
  - apply metric_attributes_text.
  - apply system_is.
  - by case_bool_decide.
  - eexists. split; [apply attribute_looked_up|done].
  - eexists. split; [apply attribute_either|done].
  - apply target_is.
Qed.

Lemma samples_measured cx m :
  cx_source cx = default METRIC_UNKNOWN_SOURCE (attribute_value (cx_resource_attrs cx) METRIC_RESOURCE_SOURCE_KEY) →
  cx_service cx = default METRIC_EMPTY_FIELD (attribute_value (cx_resource_attrs cx) METRIC_SERVICE_NAME_KEY) →
  measured (cx_listener cx) (cx_scope cx) (cx_resource_attrs cx) m (metric_to_samples cx m).
Proof.
  intros Hso Hse.
  assert (∀ kind points, collects (number_shown (cx_listener cx) (cx_scope cx) (cx_resource_attrs cx) m kind) points (number_samples cx m kind points)) as Hn.
  { intros kind points. unfold number_samples. induction points as [|p points IH]; simpl; [constructor|].
    destruct (ndp_value p) as [v|] eqn:Ev; simpl.
    - apply (collects_cons _ p points [_]); [|done]. unfold number_shown. rewrite Ev. eexists. split; [reflexivity|]. destruct v; by apply sample_shown.
    - apply (collects_cons _ p points []); [|done]. unfold number_shown. by rewrite Ev. }
  unfold measured, metric_to_samples. destruct (om_data m) as [[points|points ? ?|points ?|points ?|points]|]; try apply Hn; [..|done];
    apply Forall2_fmap_r, Forall_Forall2_diag, Forall_true; intros p.
  - eexists. split; [|by apply sample_shown]. unfold sum_or_count, histogram_text. by destruct (hdp_sum p).
  - eexists. split; [|by apply sample_shown]. unfold sum_or_count, histogram_text. by destruct (ehdp_sum p).
  - by apply sample_shown.
Qed.

(** The samples of a request are those of its data. *)
Lemma metric_samples_sampled request listener : sampled listener request (metric_samples request listener).
Proof.
  unfold sampled, metric_samples. apply collects_bind. intros rm. apply collects_bind. intros sm. apply collects_bind. intros m.
  pose (cx := {| cx_source := default METRIC_UNKNOWN_SOURCE (attribute_value (default [] (res_attributes <$> rm_resource rm)) METRIC_RESOURCE_SOURCE_KEY);
    cx_service := default METRIC_EMPTY_FIELD (attribute_value (default [] (res_attributes <$> rm_resource rm)) METRIC_SERVICE_NAME_KEY);
    cx_scope := default METRIC_EMPTY_FIELD (opt_filter (λ name, negb (is_empty name)) (is_name <$> sm_scope sm));
    cx_resource_attrs := default [] (res_attributes <$> rm_resource rm); cx_listener := listener |}).
  pose proof (samples_measured cx m eq_refl eq_refl) as Hm. subst cx. simpl in Hm.
  assert (scope_name (is_name <$> sm_scope sm) = default METRIC_EMPTY_FIELD (opt_filter (λ name, negb (is_empty name)) (is_name <$> sm_scope sm))) as ->
    by (destruct (sm_scope sm) as [sc|]; simpl; [|done]; by destruct (is_name sc)).
  by destruct (rm_resource rm).
Qed.
