(* ===== verification/FeAlert.v ===== *)
(** * Alerts of the control room (skid-monitor-fe, alert.rs and model/alert.rs)

    The active alerts are a map from alert key to snapshot ([BTreeMap]); an
    observation fires, updates or resolves one of them.  The specification is
    the set of the keys whose condition holds: [alerts_refine_conditions]
    shows that the store keeps exactly that set and reports exactly the
    changes of membership. *)

From S2P Require Import Prelude RustStr Otlp RustFloat FeFormat FeSignal.

(** ** model/alert.rs *)

Inductive AlertSeverity := Warning | Critical.
Inductive AlertStatus := Firing | StatusResolved.
Inductive AlertTransition := Fired | Resolved.

#[global] Instance AlertSeverity_eq_dec : EqDecision AlertSeverity.
Proof. solve_decision. Defined.
#[global] Instance AlertStatus_eq_dec : EqDecision AlertStatus.
Proof. solve_decision. Defined.
#[global] Instance AlertTransition_eq_dec : EqDecision AlertTransition.
Proof. solve_decision. Defined.

Record AlertSnapshot := {
  al_key : string;
  al_rule_id : string;
  al_severity : AlertSeverity;
  al_status : AlertStatus;
  al_endpoint : string;
  al_node : string;
  al_source : string;
  al_summary : string;
  al_detail : string;
}.

Record AlertChange := mkAlertChange { ch_transition : AlertTransition; ch_snapshot : AlertSnapshot }.

Record AlertSummary := {
  as_enabled : bool;
  as_active_count : Z;
  as_highest_severity : option AlertSeverity;
}.

(** ** alert.rs *)

Record AlertStore := mkAlertStore { active : gmap string AlertSnapshot }.

(** [AlertStore::default()] *)
Definition no_alerts : AlertStore := mkAlertStore ∅.

Definition fire (s : AlertStore) (key rule_id : string) (severity : AlertSeverity)
    (endpoint node source summary detail : string) : option AlertChange * AlertStore :=
  let snapshot :=
    {| al_key := key; al_rule_id := rule_id; al_severity := severity; al_status := Firing;
       al_endpoint := endpoint; al_node := node; al_source := source; al_summary := summary;
       al_detail := detail |} in
  match active s !! key with
  | Some _ => (None, mkAlertStore (<[key := snapshot]> (active s)))
  | None => (Some (mkAlertChange Fired snapshot), mkAlertStore (<[key := snapshot]> (active s)))
  end.

Definition resolve (s : AlertStore) (key detail : string) : option AlertChange * AlertStore :=
  match active s !! key with
  | None => (None, s)
  | Some a =>
    (Some (mkAlertChange Resolved
       {| al_key := al_key a; al_rule_id := al_rule_id a; al_severity := al_severity a;
          al_status := StatusResolved; al_endpoint := al_endpoint a; al_node := al_node a;
          al_source := al_source a; al_summary := al_summary a; al_detail := detail |}),
     mkAlertStore (delete key (active s)))
  end.

Definition observe_receiver_error (s : AlertStore) (listener error : string)
    : option AlertChange * AlertStore :=
  fire s ("receiver.error:" +:+ listener) "receiver.error" Critical listener listener listener
    "Receiver error" error.

Definition observe_receiver_recovered (s : AlertStore) (listener detail : string)
    : option AlertChange * AlertStore :=
  resolve s ("receiver.error:" +:+ listener) detail.

Definition observe_extension_error (s : AlertStore) (error : string)
    : option AlertChange * AlertStore :=
  fire s "extension.error" "extension.error" Warning "frontend" "extension-host" "frontend"
    "Extension host error" error.

Definition rule_metric_key (rule_id : string) (sample : MetricSample) : string :=
  rule_id +:+ ":" +:+ ms_endpoint sample +:+ ":" +:+ ms_trend_key sample.

Definition metric_alert_key (sample : MetricSample) : option string :=
  let name := ms_name sample in
  rule_id ← (if bool_decide (name = "system.cpu.usage") then Some "system.cpu.high"
             else if bool_decide (name = "system.memory.usage") then Some "system.memory.high"
             else if bool_decide (name = "file_node.root.available") then Some "file.root.unavailable"
             else None);
  Some (rule_metric_key rule_id sample).

Record MetricEvaluation := {
  ev_key : string;
  ev_rule_id : string;
  ev_severity : AlertSeverity;
  ev_source : string;
  ev_endpoint : string;
  ev_node : string;
  ev_summary : string;
  ev_detail : string;
  ev_firing : bool;
}.

Definition ALERT_CPU_USAGE_WARNING_THRESHOLD : f64 := f64_of_Z 90.
Definition ALERT_MEMORY_USAGE_WARNING_THRESHOLD : f64 := f64_of_Z 90.

Definition threshold_evaluation (sample : MetricSample) (value : f64) (rule_id : string)
    (severity : AlertSeverity) (summary : string) (threshold : f64) : MetricEvaluation :=
  let firing := f64_ge value threshold in
  let detail :=
    if firing then
      ms_source sample +:+ " reported " +:+ ms_value sample +:+ " for " +:+ ms_name sample
      +:+ " (threshold " +:+ format_f64 threshold +:+ ", " +:+ ms_attributes sample +:+ ")."
    else
      ms_source sample +:+ " recovered: " +:+ ms_name sample +:+ " is " +:+ ms_value sample
      +:+ " (threshold " +:+ format_f64 threshold +:+ ")." in
  {| ev_key := rule_metric_key rule_id sample; ev_rule_id := rule_id; ev_severity := severity;
     ev_source := ms_source sample; ev_endpoint := ms_endpoint sample; ev_node := ms_node sample;
     ev_summary := summary; ev_detail := detail; ev_firing := firing |}.

Definition file_root_available_evaluation (sample : MetricSample) (value : f64) : MetricEvaluation :=
  let firing := f64_le value (S754_zero false) in
  let detail :=
    if firing then
      ms_source sample +:+ " reported an unavailable file root (" +:+ ms_attributes sample +:+ ")."
    else ms_source sample +:+ " file root is available again." in
  {| ev_key := rule_metric_key "file.root.unavailable" sample; ev_rule_id := "file.root.unavailable";
     ev_severity := Critical; ev_source := ms_source sample; ev_endpoint := ms_endpoint sample;
     ev_node := ms_node sample; ev_summary := "File root unavailable"; ev_detail := detail;
     ev_firing := firing |}.

Definition from_sample (sample : MetricSample) : option MetricEvaluation :=
  value ← ms_numeric sample;
  let name := ms_name sample in
  if bool_decide (name = "system.cpu.usage") then
    Some (threshold_evaluation sample value "system.cpu.high" Warning "High CPU usage"
            ALERT_CPU_USAGE_WARNING_THRESHOLD)
  else if bool_decide (name = "system.memory.usage") then
    Some (threshold_evaluation sample value "system.memory.high" Warning "High memory usage"
            ALERT_MEMORY_USAGE_WARNING_THRESHOLD)
  else if bool_decide (name = "file_node.root.available") then
    Some (file_root_available_evaluation sample value)
  else None.

Definition observe_metric (s : AlertStore) (sample : MetricSample)
    : option AlertChange * AlertStore :=
  match from_sample sample with
  | None => (None, s)
  | Some ev =>
    if ev_firing ev
    then fire s (ev_key ev) (ev_rule_id ev) (ev_severity ev) (ev_endpoint ev) (ev_node ev)
           (ev_source ev) (ev_summary ev) (ev_detail ev)
    else resolve s (ev_key ev) (ev_detail ev)
  end.

(** [iter.max()] on severities, [Warning < Critical]. *)
Definition severity_max (a b : AlertSeverity) : AlertSeverity :=
  match a with Critical => Critical | Warning => b end.
Definition max_severity (l : list AlertSeverity) : option AlertSeverity :=
  foldr (λ s acc, Some (match acc with Some m => severity_max s m | None => s end)) None l.

Definition active_values (s : AlertStore) : list AlertSnapshot := (map_to_list (active s)).*2.

Definition alert_store_summary (s : AlertStore) : AlertSummary :=
  {| as_enabled := true; as_active_count := zlen (active_values s);
     as_highest_severity := max_severity (al_severity <$> active_values s) |}.

Definition alert_clear (s : AlertStore) : AlertStore := mkAlertStore ∅.

Definition active_for_metric (s : AlertStore) (sample : MetricSample) : option AlertSeverity :=
  key ← metric_alert_key sample;
  al_severity <$> active s !! key.

Definition highest_for_node (s : AlertStore) (endpoint node : string) : option AlertSeverity :=
  max_severity (al_severity <$>
    filter (λ a, al_endpoint a = endpoint ∧ al_node a = node) (active_values s)).

Definition alert_relevant_to_presenter (a : AlertSnapshot) (endpoint node : string) : bool :=
  bool_decide (al_endpoint a = endpoint)
  && (bool_decide (al_node a = node) || bool_decide (al_rule_id a = "receiver.error")).

Definition highest_for_presenter (s : AlertStore) (endpoint node : string) : option AlertSeverity :=
  max_severity (al_severity <$>
    filter (λ a, alert_relevant_to_presenter a endpoint node) (active_values s)).

Definition active_count_for_presenter (s : AlertStore) (endpoint node : string) : Z :=
  zlen (filter (λ a, alert_relevant_to_presenter a endpoint node) (active_values s)).

(** ** Specification

    An observation asserts or denies the condition of at most one key. *)

Inductive Observation :=
| ObsReceiverError (listener error : string)
| ObsReceiverRecovered (listener detail : string)
| ObsExtensionError (error : string)
| ObsMetric (sample : MetricSample)
| ObsClear.

Definition observe (s : AlertStore) (o : Observation) : option AlertChange * AlertStore :=
  match o with
  | ObsReceiverError listener error => observe_receiver_error s listener error
  | ObsReceiverRecovered listener detail => observe_receiver_recovered s listener detail
  | ObsExtensionError error => observe_extension_error s error
  | ObsMetric sample => observe_metric s sample
  | ObsClear => (None, alert_clear s)
  end.

(** What a measured value says of the rule that watches it. *)
Definition condition (sample : MetricSample) (value : f64) : bool :=
  if bool_decide (ms_name sample = "file_node.root.available")
  then f64_le value (S754_zero false) else f64_ge value (f64_of_Z 90).

Definition verdict (o : Observation) : option (string * bool) :=
  match o with
  | ObsReceiverError listener _ => Some ("receiver.error:" +:+ listener, true)
  | ObsReceiverRecovered listener _ => Some ("receiver.error:" +:+ listener, false)
  | ObsExtensionError _ => Some ("extension.error", true)
  | ObsMetric sample =>
    key ← metric_alert_key sample; value ← ms_numeric sample; Some (key, condition sample value)
  | ObsClear => None
  end.

(** The keys whose condition holds after an observation, and the change it
    makes to them. *)
Definition conditions_step (A : gset string) (o : Observation) : gset string :=
  match o, verdict o with
  | ObsClear, _ => ∅
  | _, Some (key, true) => {[ key ]} ∪ A
  | _, Some (key, false) => A ∖ {[ key ]}
  | _, None => A
  end.

Definition conditions_change (A : gset string) (o : Observation) : option (AlertTransition * string) :=
  match verdict o with
  | Some (key, true) => if bool_decide (key ∈ A) then None else Some (Fired, key)
  | Some (key, false) => if bool_decide (key ∈ A) then Some (Resolved, key) else None
  | None => None
  end.

Definition change_key (c : AlertChange) : AlertTransition * string :=
  (ch_transition c, al_key (ch_snapshot c)).

Definition change_keys (cs : list (option AlertChange)) : list (option (AlertTransition * string)) :=
  option_map change_key <$> cs.

(** The store's own changes over a run, and those of the conditions. *)
Fixpoint observe_all (s : AlertStore) (os : list Observation) : list (option AlertChange) * AlertStore :=
  match os with
  | [] => ([], s)
  | o :: os => let '(c, s) := observe s o in let '(cs, s) := observe_all s os in (c :: cs, s)
  end.
Fixpoint conditions_all (A : gset string) (os : list Observation)
    : list (option (AlertTransition * string)) * gset string :=
  match os with
  | [] => ([], A)
  | o :: os =>
    let '(cs, A') := conditions_all (conditions_step A o) os in (conditions_change A o :: cs, A')
  end.

(** Every active alert is firing and sits under its own key. *)
Definition alerts_wf (s : AlertStore) : Prop :=
  map_Forall (λ k a, al_key a = k ∧ al_status a = Firing) (active s).

(** ** Lemmas *)

(** A rule evaluates a sample exactly when the sample has a number and a rule
    watches its name; it does so under the key the dashboard looks up. *)
Lemma from_sample_verdict sample :
  verdict (ObsMetric sample) = (λ ev, (ev_key ev, ev_firing ev)) <$> from_sample sample.
Proof.
  unfold verdict, from_sample, metric_alert_key, condition.
  destruct (ms_numeric sample) as [v|]; simpl; repeat case_bool_decide; simpl; try done; congruence.
Qed.

Lemma fire_step s key rule sev ep node src sum det : alerts_wf s →
  let r := fire s key rule sev ep node src sum det in
  alerts_wf r.2 ∧ dom (active r.2) = {[ key ]} ∪ dom (active s) ∧
  change_key <$> r.1 = (if bool_decide (key ∈ dom (active s)) then None else Some (Fired, key)).
Proof.
  intros Hw. unfold fire. destruct (active s !! key) as [a|] eqn:E; simpl.
  - rewrite bool_decide_true by (apply elem_of_dom; eauto).
    split_and!; [apply map_Forall_insert_2; done|apply dom_insert_L|done].
  - rewrite bool_decide_false by (by apply not_elem_of_dom).
    split_and!; [apply map_Forall_insert_2; done|apply dom_insert_L|done].
Qed.

Lemma resolve_step s key det : alerts_wf s →
  let r := resolve s key det in
  alerts_wf r.2 ∧ dom (active r.2) = dom (active s) ∖ {[ key ]} ∧
  change_key <$> r.1 = (if bool_decide (key ∈ dom (active s)) then Some (Resolved, key) else None).
Proof.
  intros Hw. unfold resolve. destruct (active s !! key) as [a|] eqn:E; simpl.
  - rewrite bool_decide_true by (apply elem_of_dom; eauto). unfold change_key. simpl.
    split_and!; [by apply map_Forall_delete|apply dom_delete_L|].
    by rewrite (proj1 (Hw key a E)).
  - rewrite bool_decide_false by (by apply not_elem_of_dom). split_and!; [done| |done].
    apply not_elem_of_dom in E. set_solver.
Qed.

Lemma observe_step s o : alerts_wf s →
  alerts_wf (observe s o).2 ∧ dom (active (observe s o).2) = conditions_step (dom (active s)) o ∧
  change_key <$> (observe s o).1 = conditions_change (dom (active s)) o.
Proof.
  intros Hw. unfold conditions_step, conditions_change. destruct o as [l e|l d|e|sample|].
  - by apply fire_step.
  - by apply resolve_step.
  - by apply fire_step.
  - rewrite from_sample_verdict. unfold observe, observe_metric.
    destruct (from_sample sample) as [ev|]; cbn [fmap option_fmap option_map]; [|done].
    destruct (ev_firing ev); [by apply fire_step|by apply resolve_step].
  - split_and!; [apply map_Forall_empty|apply dom_empty_L|done].
Qed.

Lemma observe_all_step s os : alerts_wf s →
  alerts_wf (observe_all s os).2 ∧
  conditions_all (dom (active s)) os =
    (change_keys (observe_all s os).1, dom (active (observe_all s os).2)).
Proof.
  revert s. induction os as [|o os IH]; intros s Hw; [done|]. simpl.
  destruct (observe_step s o Hw) as (Hw' & Hd & Hc).
  destruct (observe s o) as [c s'] eqn:E. simpl in *. destruct (IH s' Hw') as [Hw2 Hr].
  rewrite Hd in Hr. rewrite Hr. destruct (observe_all s' os) as [cs s2]. simpl in *. by rewrite <-Hc.
Qed.

Lemma max_severity_None l : max_severity l = None ↔ l = [].
Proof. destruct l; naive_solver. Qed.
Lemma max_severity_Critical l : max_severity l = Some Critical ↔ Critical ∈ l.
Proof.
  induction l as [|s l IH]; simpl; [set_solver|]. rewrite elem_of_cons.
  destruct s, (max_severity l) as [[]|]; simpl; naive_solver.
Qed.

(** ** Theorems *)

(** C39: over any run of observations the alert store refines the set of the
    keys whose condition holds: the active keys are exactly that set, a change
    is reported exactly when an observation moves its key into the set (fired)
    or out of it (resolved), with that key, and every active alert is firing
    under its own key. *)
Theorem alerts_refine_conditions os :
  alerts_wf (observe_all no_alerts os).2 ∧
  conditions_all ∅ os =
    (change_keys (observe_all no_alerts os).1, dom (active (observe_all no_alerts os).2)).
Proof.
  destruct (observe_all_step no_alerts os) as [Hw Hr]; [apply map_Forall_empty|].
  split; [done|]. by rewrite <-Hr.
Qed.
