(* ===== verification/FeEdge.v ===== *)
(** * Nodes on the dashboard and their persisted form (skid-monitor-fe, edge.rs)

    [EdgeSignalDecorations] keeps a row per node, under the key
    [endpoint|node]; every operation that changes a row also gives the row to
    persist.  Clock readings are arguments: a Unix time in milliseconds, or an
    [Instant] as an integer. *)

From S2P Require Import Prelude RustStr Otlp FeAlert.

(** ** model/node.rs *)

Record NodeSummary := {
  ns_node : string;
  ns_endpoint : string;
  ns_source : string;
  ns_service : string;
  ns_metric_points : Z;
  ns_spans : Z;
  ns_log_records : Z;
  ns_last_metric : string;
  ns_last_value : string;
  ns_last_seen : Z;
}.

(** ** edge.rs *)

Record PersistedEdgeState := {
  pe_key : string;
  pe_endpoint : string;
  pe_node : string;
  pe_source : string;
  pe_service : string;
  pe_metric_points : Z;
  pe_spans : Z;
  pe_log_records : Z;
  pe_last_signal : string;
  pe_last_metric : string;
  pe_last_value : string;
  pe_last_seen_unix_ms : Z;
  pe_severity : option AlertSeverity;
}.

Record EdgeSignalDecoration := {
  ed_key : string;
  ed_endpoint : string;
  ed_node : string;
  ed_source : string;
  ed_service : string;
  ed_metric_points : Z;
  ed_spans : Z;
  ed_log_records : Z;
  ed_last_signal : string;
  ed_last_metric : string;
  ed_last_value : string;
  ed_last_seen : Z;
  ed_last_seen_unix_ms : Z;
  ed_severity : option AlertSeverity;
}.

#[global] Instance PersistedEdgeState_eq_dec : EqDecision PersistedEdgeState.
Proof. solve_decision. Defined.

Record EdgeSignalDecorations := mkEdges { rows : gmap string EdgeSignalDecoration }.

(** [EdgeSignalDecorations::default()] *)
Definition no_edges : EdgeSignalDecorations := mkEdges ∅.

Definition edge_key (endpoint node : string) : string := endpoint +:+ "|" +:+ node.

Definition severity_name (severity : AlertSeverity) : string :=
  match severity with Warning => "warning" | Critical => "critical" end.

Definition severity_from_name (value : string) : option AlertSeverity :=
  if bool_decide (value = "warning") then Some Warning
  else if bool_decide (value = "critical") then Some Critical
  else None.

(** [unix_millis]: [now] is the clock in milliseconds, negative before the
    epoch. *)
Definition unix_millis (now : Z) : Z := as_i64 (Z.max 0 now).

(** The clock readings of [instant_from_unix_millis] and the [Instant]
    arithmetic of the platform. *)
Record RestoreClock := {
  rc_now : Z;                          (* SystemTime::now(), in milliseconds *)
  rc_instant : Z;                      (* Instant::now() *)
  rc_checked_sub : Z → Z → option Z;   (* Instant::checked_sub, in milliseconds *)
}.

Definition i64_saturating_sub (a b : Z) : Z := Z.min i64_max (Z.max i64_min (a - b)).

Definition instant_from_unix_millis (c : RestoreClock) (unix_ms : Z) : Z :=
  let age_ms := Z.max (i64_saturating_sub (unix_millis (rc_now c)) unix_ms) 0 in
  default (rc_instant c) (rc_checked_sub c (rc_instant c) age_ms).

Definition from_persisted (c : RestoreClock) (state : PersistedEdgeState) : EdgeSignalDecoration :=
  {| ed_key := pe_key state;
     ed_endpoint := pe_endpoint state;
     ed_node := pe_node state;
     ed_source := pe_source state;
     ed_service := pe_service state;
     ed_metric_points := Z.max (pe_metric_points state) 0;
     ed_spans := Z.max (pe_spans state) 0;
     ed_log_records := Z.max (pe_log_records state) 0;
     ed_last_signal := pe_last_signal state;
     ed_last_metric := pe_last_metric state;
     ed_last_value := pe_last_value state;
     ed_last_seen := instant_from_unix_millis c (pe_last_seen_unix_ms state);
     ed_last_seen_unix_ms := pe_last_seen_unix_ms state;
     ed_severity := pe_severity state |}.

Definition to_persisted (d : EdgeSignalDecoration) : PersistedEdgeState :=
  {| pe_key := ed_key d;
     pe_endpoint := ed_endpoint d;
     pe_node := ed_node d;
     pe_source := ed_source d;
     pe_service := ed_service d;
     pe_metric_points := as_i64 (ed_metric_points d);
     pe_spans := as_i64 (ed_spans d);
     pe_log_records := as_i64 (ed_log_records d);
     pe_last_signal := ed_last_signal d;
     pe_last_metric := ed_last_metric d;
     pe_last_value := ed_last_value d;
     pe_last_seen_unix_ms := ed_last_seen_unix_ms d;
     pe_severity := ed_severity d |}.

Definition to_node_summary (d : EdgeSignalDecoration) : NodeSummary :=
  {| ns_node := ed_node d;
     ns_endpoint := ed_endpoint d;
     ns_source := ed_source d;
     ns_service := ed_service d;
     ns_metric_points := ed_metric_points d;
     ns_spans := ed_spans d;
     ns_log_records := ed_log_records d;
     ns_last_metric := ed_last_metric d;
     ns_last_value := ed_last_value d;
     ns_last_seen := ed_last_seen d |}.

Definition edge_get (e : EdgeSignalDecorations) (endpoint node : string) : option EdgeSignalDecoration :=
  rows e !! edge_key endpoint node.

(** [c i] are the readings for the [i]-th state. *)
Fixpoint restore_from (c : nat → RestoreClock) (i : nat) (e : EdgeSignalDecorations)
    (states : list PersistedEdgeState) : list NodeSummary * EdgeSignalDecorations :=
  match states with
  | [] => ([], e)
  | state :: states =>
    let decoration := from_persisted (c i) state in
    let e := mkEdges (<[ed_key decoration := decoration]> (rows e)) in
    let '(nodes, e) := restore_from c (S i) e states in
    (to_node_summary decoration :: nodes, e)
  end.
Definition restore (c : nat → RestoreClock) := restore_from c 0.

(** A new row is written in full before it can be seen. *)
Definition observe_node (now : Z) (e : EdgeSignalDecorations) (node : NodeSummary)
    (last_signal : string) : PersistedEdgeState * EdgeSignalDecorations :=
  let key := edge_key (ns_endpoint node) (ns_node node) in
  let decoration :=
    {| ed_key := match rows e !! key with Some d => ed_key d | None => key end;
       ed_endpoint := ns_endpoint node;
       ed_node := ns_node node;
       ed_source := ns_source node;
       ed_service := ns_service node;
       ed_metric_points := ns_metric_points node;
       ed_spans := ns_spans node;
       ed_log_records := ns_log_records node;
       ed_last_signal := last_signal;
       ed_last_metric := ns_last_metric node;
       ed_last_value := ns_last_value node;
       ed_last_seen := ns_last_seen node;
       ed_last_seen_unix_ms := unix_millis now;
       ed_severity := match rows e !! key with Some d => ed_severity d | None => None end |} in
  (to_persisted decoration, mkEdges (<[key := decoration]> (rows e))).

(** [decoration.severity = severity] with the time of the change. *)
Definition with_severity (now : Z) (severity : option AlertSeverity) (d : EdgeSignalDecoration)
    : EdgeSignalDecoration :=
  {| ed_key := ed_key d; ed_endpoint := ed_endpoint d; ed_node := ed_node d;
     ed_source := ed_source d; ed_service := ed_service d;
     ed_metric_points := ed_metric_points d; ed_spans := ed_spans d;
     ed_log_records := ed_log_records d; ed_last_signal := ed_last_signal d;
     ed_last_metric := ed_last_metric d; ed_last_value := ed_last_value d;
     ed_last_seen := ed_last_seen d; ed_last_seen_unix_ms := unix_millis now;
     ed_severity := severity |}.

Definition set_node_severity (now : Z) (e : EdgeSignalDecorations) (endpoint node : string)
    (severity : option AlertSeverity) : option PersistedEdgeState * EdgeSignalDecorations :=
  let key := edge_key endpoint node in
  match rows e !! key with
  | None => (None, e)
  | Some d =>
    let d := with_severity now severity d in
    (Some (to_persisted d), mkEdges (<[key := d]> (rows e)))
  end.

Definition edge_remove (e : EdgeSignalDecorations) (key : string) : bool * EdgeSignalDecorations :=
  (bool_decide (is_Some (rows e !! key)), mkEdges (delete key (rows e))).

(** [values_mut] in key order; the [i]-th row that is cleared reads the clock
    as [now i]. *)
Fixpoint clear_rows (now : nat → Z) (i : nat) (e : EdgeSignalDecorations)
    (entries : list (string * EdgeSignalDecoration)) : list PersistedEdgeState * EdgeSignalDecorations :=
  match entries with
  | [] => ([], e)
  | (key, d) :: entries =>
    match ed_severity d with
    | None => clear_rows now i e entries
    | Some _ =>
      let d := with_severity (now i) None d in
      let '(cleared, e) := clear_rows now (S i) (mkEdges (<[key := d]> (rows e))) entries in
      (to_persisted d :: cleared, e)
    end
  end.
Definition clear_severities (now : nat → Z) (e : EdgeSignalDecorations)
    : list PersistedEdgeState * EdgeSignalDecorations :=
  clear_rows now 0 e (btree_iter (rows e)).

(** ** Well-formedness *)

(** A count that [i64] can hold. *)
Definition in_count (z : Z) : Prop := 0 ≤ z ≤ i64_max.

Definition edge_wf (k : string) (d : EdgeSignalDecoration) : Prop :=
  ed_key d = k ∧ edge_key (ed_endpoint d) (ed_node d) = k.
Definition edges_wf (e : EdgeSignalDecorations) : Prop := map_Forall edge_wf (rows e).

Definition edge_counts (d : EdgeSignalDecoration) : Prop :=
  in_count (ed_metric_points d) ∧ in_count (ed_spans d) ∧ in_count (ed_log_records d).

(** ** Lemmas *)

Lemma as_i64_small z : in_count z → as_i64 z = z.
Proof. unfold in_count, as_i64, i64_max. intros. rewrite Z.mod_small; lia. Qed.

Lemma persisted_count z : in_count z → as_i64 (Z.max (as_i64 z) 0) = as_i64 z.
Proof. intros H. rewrite (as_i64_small z H). unfold in_count in H. by rewrite Z.max_l by lia; apply as_i64_small. Qed.

Lemma severity_name_roundtrip s : severity_from_name (severity_name s) = Some s.
Proof. by destruct s. Qed.

(** A row comes back from its persisted form, but for the [Instant]. *)
Lemma to_from_persisted c d : edge_counts d → to_persisted (from_persisted c (to_persisted d)) = to_persisted d.
Proof.
  intros (Hm & Hs & Hl). unfold to_persisted, from_persisted; simpl.
  by rewrite !persisted_count by done.
Qed.

Lemma observe_node_wf now e node sig : edges_wf e → edges_wf (observe_node now e node sig).2.
Proof.
  intros Hw. apply map_Forall_insert_2; [|done]. split; simpl; [|done].
  destruct (rows e !! _) as [d|] eqn:E; [|done]. by apply (Hw _ d E).
Qed.

Lemma set_node_severity_wf now e ep node sev : edges_wf e → edges_wf (set_node_severity now e ep node sev).2.
Proof.
  intros Hw. unfold set_node_severity. destruct (rows e !! _) as [d|] eqn:E; [|done].
  apply map_Forall_insert_2; [|done]. apply (Hw _ d E).
Qed.

Lemma edge_remove_wf e k : edges_wf e → edges_wf (edge_remove e k).2.
Proof. intros Hw. by apply map_Forall_delete. Qed.
