(* ===== verification/FeProfile.v ===== *)
(** * The character reaction profile (skid-monitor-fe, model/avatar.rs)

    The profile the operator edits, its normalization (which also migrates
    older schema versions) and its validation.  [normalized_canonical] shows
    what a normalized profile is and that normalizing it again changes
    nothing. *)

From S2P Require Import Prelude RustStr Otlp FeAlert.

Definition PROFILE_SCHEMA_VERSION : Z := 4.
Definition MAX_MODEL_NAME_CHARS : nat := 64.
Definition MAX_MODEL_PATH_CHARS : nat := 4096.
Definition MAX_MESSAGE_CHARS : nat := 160.
Definition MAX_EXPRESSION_NAME_CHARS : nat := 64.
Definition MAX_AVATAR_ANIMATION_PATHS : nat := 8.

(** [f32] is binary32. *)
Abbreviation f32 := spec_float.
Definition f32_of_Z (z : Z) : f32 := binary_normalize 24 128 z 0 false.
Definition f32_0_25 : f32 := S754_finite false 8388608 (-25).

Inductive AvatarMotion := Still | Pulse | Bounce | Shake.

Definition motion_label (m : AvatarMotion) : string :=
  match m with Still => "Still" | Pulse => "Pulse" | Bounce => "Bounce" | Shake => "Shake" end.

Record AvatarAction := { motion : AvatarMotion; act_message : string; expression : string }.

Record AvatarReactionProfile := {
  schema_version : Z;
  model_name : string;
  model_path : string;
  animation_path : string;
  animation_paths : list string;
  shader_path : string;
  animation_crossfade_seconds : f32;
  spring_bone_enabled : bool;
  look_at_enabled : bool;
  act_idle : AvatarAction;
  act_warning : AvatarAction;
  act_critical : AvatarAction;
}.

#[global] Instance AvatarMotion_eq_dec : EqDecision AvatarMotion.
Proof. solve_decision. Defined.
#[global] Instance AvatarAction_eq_dec : EqDecision AvatarAction.
Proof. solve_decision. Defined.

(** The derived [PartialEq]: the crossfade is compared as a float. *)
Definition profile_eqb (p q : AvatarReactionProfile) : bool :=
  bool_decide (schema_version p = schema_version q)
  && bool_decide (model_name p = model_name q)
  && bool_decide (model_path p = model_path q)
  && bool_decide (animation_path p = animation_path q)
  && bool_decide (animation_paths p = animation_paths q)
  && bool_decide (shader_path p = shader_path q)
  && SFeqb (animation_crossfade_seconds p) (animation_crossfade_seconds q)
  && bool_decide (spring_bone_enabled p = spring_bone_enabled q)
  && bool_decide (look_at_enabled p = look_at_enabled q)
  && bool_decide (act_idle p = act_idle q)
  && bool_decide (act_warning p = act_warning q)
  && bool_decide (act_critical p = act_critical q).

Definition default_profile : AvatarReactionProfile :=
  {| schema_version := PROFILE_SCHEMA_VERSION;
     model_name := "Skid";
     model_path := "";
     animation_path := "";
     animation_paths := [];
     shader_path := "";
     animation_crossfade_seconds := f32_0_25;
     spring_bone_enabled := true;
     look_at_enabled := true;
     act_idle := {| motion := Still; act_message := "All systems look calm."; expression := "neutral" |};
     act_warning :=
       {| motion := Pulse; act_message := "A warning needs attention."; expression := "surprised" |};
     act_critical :=
       {| motion := Shake; act_message := "Critical condition detected!"; expression := "angry" |} |}.

Definition action_for (p : AvatarReactionProfile) (severity : option AlertSeverity) : AvatarAction :=
  match severity with
  | Some Critical => act_critical p
  | Some Warning => act_warning p
  | None => act_idle p
  end.

Definition has_supported_model_extension (path : string) : bool :=
  match path_extension path with
  | Some extension =>
    bool_decide (to_ascii_lowercase extension ∈ ["png"; "jpg"; "jpeg"; "vrm"])
  | None => false
  end.

Definition has_extension (path expected : string) : bool :=
  match path_extension path with
  | Some extension => eq_ignore_ascii_case extension expected
  | None => false
  end.

Definition char_count (s : string) : nat := length (chars s).
Definition too_long (max : nat) (s : string) : bool := (max <? char_count s)%nat.

(** [if c { return Err(e) }] *)
Definition reject_if (c : bool) (e : string) : result string () := if c then Err e else Ok ().

Definition nat_text (n : nat) : string := u64_to_string (Z.of_nat n).

Definition validate_animation (path : string) : result string () :=
  _ ← reject_if (too_long MAX_MODEL_PATH_CHARS path)
        ("animation path must be at most " +:+ nat_text MAX_MODEL_PATH_CHARS +:+ " characters");
  reject_if (negb (has_extension path "vrma")) "character animations must use a .vrma extension".

Definition validate_action (state : string) (action : AvatarAction) : result string () :=
  _ ← reject_if (too_long MAX_MESSAGE_CHARS (act_message action))
        (state +:+ " message must be at most " +:+ nat_text MAX_MESSAGE_CHARS +:+ " characters");
  _ ← reject_if (too_long MAX_EXPRESSION_NAME_CHARS (expression action))
        (state +:+ " expression must be at most " +:+ nat_text MAX_EXPRESSION_NAME_CHARS +:+ " characters");
  reject_if (has_control (expression action))
    (state +:+ " expression must not contain control characters").

(** [is_finite] and [(0.0..=2.0).contains] *)
Definition crossfade_ok (f : f32) : bool :=
  match f with S754_nan | S754_infinity _ => false | _ => true end
  && (SFleb (S754_zero false) f && SFleb f (f32_of_Z 2)).

Definition profile_validate (p : AvatarReactionProfile) : result string () :=
  _ ← reject_if (negb (schema_version p =? PROFILE_SCHEMA_VERSION))
        ("character profile schema version " +:+ u64_to_string (schema_version p) +:+ " is not supported");
  _ ← reject_if (is_empty (model_name p)) "character name is required";
  _ ← reject_if (too_long MAX_MODEL_NAME_CHARS (model_name p))
        ("character name must be at most " +:+ nat_text MAX_MODEL_NAME_CHARS +:+ " characters");
  _ ← reject_if (too_long MAX_MODEL_PATH_CHARS (model_path p))
        ("model path must be at most " +:+ nat_text MAX_MODEL_PATH_CHARS +:+ " characters");
  _ ← reject_if (negb (is_empty (model_path p)) && negb (has_supported_model_extension (model_path p)))
        "character model must use a .png, .jpg, .jpeg, or .vrm extension";
  _ ← reject_if (negb (is_empty (animation_path p)))
        "legacy animation_path must be normalized before saving";
  _ ← reject_if (MAX_AVATAR_ANIMATION_PATHS <? length (animation_paths p))%nat
        ("at most " +:+ nat_text MAX_AVATAR_ANIMATION_PATHS +:+ " VRMA animation files are supported");
  _ ← reject_if (negb (bool_decide (animation_paths p = [])) && negb (has_extension (model_path p) "vrm"))
        "VRMA animations require a .vrm character model";
  _ ← try_map validate_animation (animation_paths p);
  _ ← reject_if (too_long MAX_MODEL_PATH_CHARS (shader_path p))
        ("shader path must be at most " +:+ nat_text MAX_MODEL_PATH_CHARS +:+ " characters");
  _ ← reject_if (negb (is_empty (shader_path p)) && negb (has_extension (model_path p) "vrm"))
        "custom WGSL shaders require a .vrm character model";
  _ ← reject_if (negb (is_empty (shader_path p)) && negb (has_extension (shader_path p) "wgsl"))
        "custom character shader must use a .wgsl extension";
  _ ← reject_if (negb (crossfade_ok (animation_crossfade_seconds p)))
        "animation crossfade must be between 0 and 2 seconds";
  _ ← validate_action "idle" (act_idle p);
  _ ← validate_action "warning" (act_warning p);
  validate_action "critical" (act_critical p).

(** The loop of [normalized] over the animation paths. *)
Definition add_path (paths : list string) (path : string) : list string :=
  let path := trim path in
  if negb (is_empty path) && negb (bool_decide (path ∈ paths)) then paths ++ [path] else paths.

Definition trim_action (a : AvatarAction) : AvatarAction :=
  {| motion := motion a; act_message := trim (act_message a); expression := trim (expression a) |}.

(** The fields [normalized] assigns, before it validates them. *)
Definition normal_form (p : AvatarReactionProfile) : AvatarReactionProfile :=
  let legacy := trim (animation_path p) in
  let paths := foldl add_path [] (animation_paths p) in
  let paths := if bool_decide (paths = []) && negb (is_empty legacy) then paths ++ [legacy] else paths in
  {| schema_version := PROFILE_SCHEMA_VERSION;
     model_name := trim (model_name p);
     model_path := trim (model_path p);
     animation_path := "";
     animation_paths := paths;
     shader_path := trim (shader_path p);
     animation_crossfade_seconds := animation_crossfade_seconds p;
     spring_bone_enabled := spring_bone_enabled p;
     look_at_enabled := look_at_enabled p;
     act_idle := trim_action (act_idle p);
     act_warning := trim_action (act_warning p);
     act_critical := trim_action (act_critical p) |}.

Definition normalized (p : AvatarReactionProfile) : result string AvatarReactionProfile :=
  _ ← reject_if (PROFILE_SCHEMA_VERSION <? schema_version p)
        ("character profile schema version " +:+ u64_to_string (schema_version p)
         +:+ " is newer than supported version " +:+ u64_to_string PROFILE_SCHEMA_VERSION);
  _ ← profile_validate (normal_form p);
  Ok (normal_form p).

(** ** Well-formedness

    A profile's strings are UTF-8, as Rust's type system has it. *)

Definition action_strings (a : AvatarAction) : list string := [act_message a; expression a].
Definition profile_strings (p : AvatarReactionProfile) : list string :=
  [model_name p; model_path p; animation_path p; shader_path p] ++ animation_paths p
  ++ action_strings (act_idle p) ++ action_strings (act_warning p) ++ action_strings (act_critical p).
Definition profile_utf8 (p : AvatarReactionProfile) : Prop := Forall valid_str (profile_strings p).

(** What the type of a usable profile promises. *)
Record profile_canonical (p : AvatarReactionProfile) : Prop := {
  pc_version : schema_version p = 4;
  pc_trimmed : Forall (λ s, trim s = s) (profile_strings p);
  pc_name : model_name p ≠ "" ∧ (char_count (model_name p) ≤ 64)%nat;
  pc_model : model_path p = "" ∨ has_supported_model_extension (model_path p) = true;
  pc_legacy : animation_path p = "";
  pc_paths : NoDup (animation_paths p) ∧ ("" ∉ animation_paths p) ∧ (length (animation_paths p) ≤ 8)%nat;
  pc_vrma : Forall (λ s, has_extension s "vrma" = true) (animation_paths p);
  pc_vrm : animation_paths p ≠ [] ∨ shader_path p ≠ "" → has_extension (model_path p) "vrm" = true;
  pc_crossfade : crossfade_ok (animation_crossfade_seconds p) = true;
  pc_actions : ∀ sev, (char_count (act_message (action_for p sev)) ≤ 160)%nat ∧
    (char_count (expression (action_for p sev)) ≤ 64)%nat ∧
    has_control (expression (action_for p sev)) = false;
}.

(** ** Lemmas *)

Lemma reject_if_Ok c e u : reject_if c e = Ok u ↔ c = false.
Proof. destruct c, u; naive_solver. Qed.

Lemma too_long_false max s : too_long max s = false ↔ (char_count s ≤ max)%nat.
Proof. apply Nat.ltb_ge. Qed.

Lemma add_path_keeps paths path : NoDup paths → "" ∉ paths →
  NoDup (add_path paths path) ∧ "" ∉ add_path paths path.
Proof.
  intros Hn He. unfold add_path, is_empty. case_bool_decide as E1; simpl; [done|].
  case_bool_decide as E2; simpl; [done|]. split; [|set_solver].
  apply NoDup_app. split_and!; [done|set_solver|by apply NoDup_singleton].
Qed.

Lemma add_paths_keep paths l : NoDup paths → "" ∉ paths →
  NoDup (foldl add_path paths l) ∧ "" ∉ foldl add_path paths l.
Proof.
  revert paths. induction l as [|x l IH]; intros paths Hn He; simpl; [done|].
  apply IH; by apply add_path_keeps.
Qed.

Lemma add_paths_Forall (P : string → Prop) paths l :
  Forall P paths → Forall (λ x, P (trim x)) l → Forall P (foldl add_path paths l).
Proof.
  revert paths. induction l as [|x l IH]; intros paths Hp Hl; simpl; [done|].
  apply Forall_cons in Hl as [Hx Hl]. apply IH; [|done]. unfold add_path.
  destruct (_ && _); [|done]. apply Forall_app. by repeat constructor.
Qed.

Lemma add_paths_canonical paths l : NoDup (paths ++ l) → "" ∉ l → Forall (λ s, trim s = s) l →
  foldl add_path paths l = paths ++ l.
Proof.
  revert paths. induction l as [|x l IH]; intros paths Hn He Ht; simpl; [by rewrite app_nil_r|].
  apply Forall_cons in Ht as [Hx Ht]. rewrite not_elem_of_cons in He.
  assert (add_path paths x = paths ++ [x]) as ->.
  { unfold add_path, is_empty. rewrite Hx. rewrite bool_decide_false by naive_solver. simpl.
    rewrite bool_decide_false; [done|]. apply NoDup_app in Hn. set_solver. }
  rewrite IH; [by rewrite <-app_assoc|by rewrite <-app_assoc|naive_solver|done].
Qed.

Lemma normal_paths_keep p :
  NoDup (animation_paths (normal_form p)) ∧ "" ∉ animation_paths (normal_form p).
Proof.
  simpl. destruct (add_paths_keep [] (animation_paths p)) as [Hn He]; [constructor|set_solver|].
  case_bool_decide as E; [|done]. unfold is_empty. case_bool_decide as E2; simpl; [done|].
  rewrite E. split; [apply NoDup_singleton|set_solver].
Qed.

Lemma normal_form_trimmed p : profile_utf8 p → Forall (λ s, trim s = s) (profile_strings (normal_form p)).
Proof.
  unfold profile_utf8, profile_strings. rewrite !Forall_app. intros (Hh & Hp & Hi & Hw & Hc).
  assert (∀ s, valid_str s → trim (trim s) = trim s) as Ht by apply trim_idem.
  assert (∀ a, Forall valid_str (action_strings a) →
            Forall (λ s, trim s = s) (action_strings (trim_action a))) as Ha.
  { intros a H. unfold action_strings in *. rewrite !Forall_cons in H. destruct H as (H1 & H2 & _). by repeat constructor; apply Ht. }
  rewrite !Forall_cons in Hh. destruct Hh as (H1 & H2 & H3 & H4 & _).
  split_and!; [|cbn [animation_paths normal_form]|by apply Ha..].
  - by repeat constructor; apply Ht.
  - assert (Forall (λ s, trim s = s) (foldl add_path [] (animation_paths p))) as Hl.
    { apply add_paths_Forall; [constructor|]. eapply Forall_impl; [exact Hp|exact Ht]. }
    destruct (_ && _); [|done]. apply Forall_app. split; [done|]. repeat constructor. by apply Ht.
Qed.

Lemma normal_form_idem p : profile_utf8 p → normal_form (normal_form p) = normal_form p.
Proof.
  intros Hu. destruct (normal_paths_keep p) as [Hn He].
  pose proof (normal_form_trimmed p Hu) as Ht. set (q := normal_form p) in *.
  assert (animation_path q = "" ∧ schema_version q = PROFILE_SCHEMA_VERSION) as [Hl Hv] by done.
  clearbody q. clear p Hu. unfold profile_strings, action_strings in Ht. rewrite !Forall_app in Ht.
  destruct Ht as (Hh & Hp & Hi & Hw & Hc).
  unfold normal_form. rewrite add_paths_canonical by done. rewrite Hl. simpl.
  rewrite andb_false_r. destruct q as [v nm mp ap aps sp cf sb la [] [] []]; simpl in *.
  unfold trim_action; simpl. decompose_Forall_hyps. f_equal; try f_equal; congruence.
Qed.

Lemma try_map_inputs {E A B} (f : A → result E B) l k x :
  try_map f l = Ok k → x ∈ l → ∃ y, f x = Ok y.
Proof.
  revert k. induction l as [|a l IH]; intros k Hk Hx; [by apply elem_of_nil in Hx|].
  simpl in Hk. apply bind_Ok in Hk as (y & Hy & Hk). apply bind_Ok in Hk as (ys & Hys & _).
  apply elem_of_cons in Hx as [->|Hx]; eauto.
Qed.

Lemma validate_animation_Ok s u :
  validate_animation s = Ok u → has_extension s "vrma" = true.
Proof.
  unfold validate_animation. rewrite bind_Ok. setoid_rewrite reject_if_Ok. intros (_ & _ & H).
  by destruct (has_extension _ _).
Qed.

Lemma validate_action_Ok st a u : validate_action st a = Ok u →
  (char_count (act_message a) ≤ 160)%nat ∧ (char_count (expression a) ≤ 64)%nat ∧
  has_control (expression a) = false.
Proof.
  unfold validate_action. repeat (setoid_rewrite bind_Ok || setoid_rewrite reject_if_Ok).
  setoid_rewrite too_long_false. naive_solver.
Qed.

Ltac validate_steps H :=
  unfold profile_validate in H;
  repeat lazymatch type of H with
  | (_ ≫= _) = Ok _ => let u := fresh "u" in let E := fresh "E" in
      apply bind_Ok in H as (u & E & H); try (apply reject_if_Ok in E)
  end.

Lemma profile_validate_canonical p : profile_validate p = Ok () → NoDup (animation_paths p) →
  ("" ∉ animation_paths p) → Forall (λ s, trim s = s) (profile_strings p) → profile_canonical p.
Proof.
  intros H Hn He Ht. validate_steps H.
  apply validate_action_Ok in H, E12, E13. unfold is_empty in *.
  assert (∀ a b, negb a && negb b = false → a = true ∨ b = true) as Hor by (intros [] []; auto).
  apply Hor in E3, E6, E9. apply too_long_false in E1. apply Nat.ltb_ge in E5. to_prop.
  split; try done.
  - destruct E3 as [E3|]; [left; by apply bool_decide_eq_true in E3|by right].
  - apply Forall_forall. intros s Hs. apply (try_map_inputs _ _ _ _ E7) in Hs as [y Hy].
    by eapply validate_animation_Ok.
  - rewrite !bool_decide_eq_true in *. naive_solver.
  - by intros [[]|].
Qed.

(** ** Theorems *)

(** A profile that [normalized] accepts is canonical: current schema
    version, trimmed strings, a name of at most 64 characters, a supported
    model file, at most eight distinct non-empty animations, each a [.vrma]
    file that needs a [.vrm] model, no legacy animation, a crossfade in
    [0, 2], and bounded actions free of control characters; and normalizing it
    again gives the same profile.  Newer schema versions are refused. *)
Theorem normalized_canonical p : profile_utf8 p →
  match normalized p with
  | Ok q => profile_canonical q ∧ normalized q = Ok q ∧ schema_version p ≤ 4
  | Err e => schema_version p > 4 ∨ profile_validate (normal_form p) = Err e
  end.
Proof.
  intros Hu. unfold normalized at 1. destruct (_ <? _) eqn:E; to_prop; unfold PROFILE_SCHEMA_VERSION in E; simpl; [left; lia|].
  destruct (profile_validate (normal_form p)) as [[]|e] eqn:Ev; simpl; [|by right].
  destruct (normal_paths_keep p) as [Hn He].
  split_and!; [|unfold normalized; by rewrite normal_form_idem, Ev|done].
  apply profile_validate_canonical; [done..|by apply normal_form_trimmed].
Qed.

Definition demo_profile : AvatarReactionProfile :=
  {| schema_version := 2; model_name := " Operator Cat "; model_path := "/tmp/cat.VRM";
     animation_path := " /tmp/old.vrma "; animation_paths := ["  "]; shader_path := "";
     animation_crossfade_seconds := f32_of_Z 1; spring_bone_enabled := true;
     look_at_enabled := false; act_idle := act_idle default_profile;
     act_warning := act_warning default_profile; act_critical := act_critical default_profile |}.

Lemma normalized_canonical_witness :
  ∃ q, normalized demo_profile = Ok q ∧ animation_paths q = ["/tmp/old.vrma"] ∧ profile_canonical q.
Proof.
  assert (profile_utf8 demo_profile) as Hu by (repeat constructor).
  pose proof (normalized_canonical demo_profile Hu) as H.
  exists (normal_form demo_profile). split; [vm_refl|]. split; [vm_refl|].
  exact (proj1 H).
Defined.
