(* ===== verification/FeStorage.v ===== *)
(** * Local persistence of the control room (skid-monitor-fe, storage/)

    The commands the dashboard sends (storage/command.rs, storage/mod.rs), the
    SQLite statements that carry them out (storage/db.rs) and the worker
    thread that receives them (storage/worker.rs).  SQLite itself is the four
    tables of [initialize_schema] plus a list of outcomes: a statement either
    takes effect or fails and changes nothing.  [worker_drains_before_done]
    shows that no command sent before the shutdown is lost. *)

From stdpp Require Import sorting.
From S2P Require Import Prelude RustStr Otlp FeAlert FeEdge FeProfile.

(** ** storage/mod.rs and storage/command.rs *)

Record AlertRecord := {
  ar_at_unix_ms : Z;
  ar_transition : AlertTransition;
  ar_key : string;
  ar_rule_id : string;
  ar_severity : AlertSeverity;
  ar_status : AlertStatus;
  ar_endpoint : string;
  ar_node : string;
  ar_source : string;
  ar_summary : string;
  ar_detail : string;
}.

(** [AlertRecord::from], with the clock in milliseconds. *)
Definition alert_record (now : Z) (change : AlertChange) : AlertRecord :=
  let a := ch_snapshot change in
  {| ar_at_unix_ms := unix_millis now;
     ar_transition := ch_transition change;
     ar_key := al_key a;
     ar_rule_id := al_rule_id a;
     ar_severity := al_severity a;
     ar_status := al_status a;
     ar_endpoint := al_endpoint a;
     ar_node := al_node a;
     ar_source := al_source a;
     ar_summary := al_summary a;
     ar_detail := al_detail a |}.

Inductive StorageCommand :=
| UpsertEdge (edge : PersistedEdgeState)
| DeleteEdge (key : string)
| RecordAlert (alert : AlertRecord).

Inductive StorageControlCommand :=
| SaveAvatarProfile (profile : AvatarReactionProfile)
| Shutdown.

(** ** storage/db.rs: the tables *)

Record EdgeRow := {
  er_key : string;
  er_endpoint : string;
  er_node : string;
  er_source : string;
  er_service : string;
  er_metric_points : Z;
  er_spans : Z;
  er_log_records : Z;
  er_last_signal : string;
  er_last_metric : string;
  er_last_value : string;
  er_last_seen_unix_ms : Z;
  er_severity : option string;
}.
Record AlertRow := {
  aw_key : string;
  aw_rule_id : string;
  aw_severity : string;
  aw_status : string;
  aw_endpoint : string;
  aw_node : string;
  aw_source : string;
  aw_summary : string;
  aw_detail : string;
  aw_updated_at_unix_ms : Z;
}.
Record AlertEventRow := {
  ae_at_unix_ms : Z;
  ae_transition : string;
  ae_row : AlertRow;      (* the columns the two tables share; the time is unused *)
}.
(** Tables with a primary key are maps from it. *)
Record StateDb := {
  edge_state : gmap string EdgeRow;
  alert_state : gmap string AlertRow;
  alert_events : list AlertEventRow;
  app_settings : gmap string string;
}.

Definition AVATAR_PROFILE_KEY : string := "skid-monitor.avatar-reaction-profile.v1".

(** The pool: the tables, and the outcomes of the next statements ([Some e]
    fails with [e]; when the list ends, statements succeed). *)
Record Pool := { pool_db : StateDb; pool_outcomes : list (option string) }.

Definition execute (f : StateDb → StateDb) (p : Pool) : result string () * Pool :=
  match pool_outcomes p with
  | Some e :: outcomes => (Err e, {| pool_db := pool_db p; pool_outcomes := outcomes |})
  | None :: outcomes => (Ok (), {| pool_db := f (pool_db p); pool_outcomes := outcomes |})
  | [] => (Ok (), {| pool_db := f (pool_db p); pool_outcomes := [] |})
  end.

Definition transition_name (t : AlertTransition) : string :=
  match t with Fired => "fired" | Resolved => "resolved" end.
Definition status_name (s : AlertStatus) : string :=
  match s with Firing => "firing" | StatusResolved => "resolved" end.

Definition edge_row (edge : PersistedEdgeState) : EdgeRow :=
  {| er_key := pe_key edge;
     er_endpoint := pe_endpoint edge;
     er_node := pe_node edge;
     er_source := pe_source edge;
     er_service := pe_service edge;
     er_metric_points := pe_metric_points edge;
     er_spans := pe_spans edge;
     er_log_records := pe_log_records edge;
     er_last_signal := pe_last_signal edge;
     er_last_metric := pe_last_metric edge;
     er_last_value := pe_last_value edge;
     er_last_seen_unix_ms := pe_last_seen_unix_ms edge;
     er_severity := severity_name <$> pe_severity edge |}.

Definition row_edge (row : EdgeRow) : PersistedEdgeState :=
  {| pe_key := er_key row;
     pe_endpoint := er_endpoint row;
     pe_node := er_node row;
     pe_source := er_source row;
     pe_service := er_service row;
     pe_metric_points := er_metric_points row;
     pe_spans := er_spans row;
     pe_log_records := er_log_records row;
     pe_last_signal := er_last_signal row;
     pe_last_metric := er_last_metric row;
     pe_last_value := er_last_value row;
     pe_last_seen_unix_ms := er_last_seen_unix_ms row;
     pe_severity := er_severity row ≫= severity_from_name |}.

Definition set_edge_state (f : gmap string EdgeRow → gmap string EdgeRow) (db : StateDb) : StateDb :=
  {| edge_state := f (edge_state db); alert_state := alert_state db;
     alert_events := alert_events db; app_settings := app_settings db |}.
Definition set_alert_state (f : gmap string AlertRow → gmap string AlertRow) (db : StateDb) : StateDb :=
  {| edge_state := edge_state db; alert_state := f (alert_state db);
     alert_events := alert_events db; app_settings := app_settings db |}.

(** The insert gives every column, and so does the conflict clause. *)
Definition upsert_edge_state (edge : PersistedEdgeState) : Pool → result string () * Pool :=
  execute (set_edge_state (<[pe_key edge := edge_row edge]>)).

Definition delete_edge_state (key : string) : Pool → result string () * Pool :=
  execute (set_edge_state (delete key)).

Definition alert_row (alert : AlertRecord) : AlertRow :=
  {| aw_key := ar_key alert;
     aw_rule_id := ar_rule_id alert;
     aw_severity := severity_name (ar_severity alert);
     aw_status := status_name (ar_status alert);
     aw_endpoint := ar_endpoint alert;
     aw_node := ar_node alert;
     aw_source := ar_source alert;
     aw_summary := ar_summary alert;
     aw_detail := ar_detail alert;
     aw_updated_at_unix_ms := ar_at_unix_ms alert |}.

Definition upsert_alert_state (alert : AlertRecord) : Pool → result string () * Pool :=
  execute (set_alert_state (<[ar_key alert := alert_row alert]>)).

Definition insert_alert_event (alert : AlertRecord) (db : StateDb) : StateDb :=
  {| edge_state := edge_state db; alert_state := alert_state db;
     alert_events := alert_events db ++
       [{| ae_at_unix_ms := ar_at_unix_ms alert; ae_transition := transition_name (ar_transition alert);
           ae_row := alert_row alert |}];
     app_settings := app_settings db |}.

(** Two statements without a transaction: the first can take effect alone. *)
Definition record_alert (alert : AlertRecord) (p : Pool) : result string () * Pool :=
  match execute (insert_alert_event alert) p with
  | (Err e, p) => (Err e, p)
  | (Ok _, p) =>
    match ar_status alert with
    | Firing => upsert_alert_state alert p
    | StatusResolved => execute (set_alert_state (delete (ar_key alert))) p
    end
  end.

(** ** storage/path.rs *)

Definition STATE_DB_PATH_ENV : string := "SKID_MONITOR_FE_STATE_DB".
Definition STATE_DB_DEFAULT_FILE : string := "control-room.sqlite3".

(** [PathBuf::join] of a relative component. *)
Definition path_join (path component : string) : string :=
  if is_empty path || bool_decide (last (as_bytes path) = Some "/"%byte)
  then path +:+ component else path +:+ "/" +:+ component.

(** A variable that is set to more than blanks. *)
Definition env_path (env : gmap string string) (name : string) : option string :=
  value ← env !! name;
  let trimmed := trim value in
  if is_empty trimmed then None else Some trimmed.

Definition state_db_path (env : gmap string string) : string :=
  match env_path env STATE_DB_PATH_ENV, env_path env "XDG_STATE_HOME", env_path env "HOME" with
  | Some path, _, _ => path
  | None, Some state_home, _ => foldl path_join state_home ["skid-monitor"; STATE_DB_DEFAULT_FILE]
  | None, None, Some home => foldl path_join home [".local"; "state"; "skid-monitor"; STATE_DB_DEFAULT_FILE]
  | None, None, None => STATE_DB_DEFAULT_FILE
  end.

(** serde_json and SQLite's ORDER BY, which leaves the order of rows seen at
    the same time open. *)
Class StorageApi := {
  profile_to_json : AvatarReactionProfile → result string string;
  profile_from_json : string → result string AvatarReactionProfile;
  order_last_seen_desc : gmap string EdgeRow → list EdgeRow;
}.

Section statements.
Context `{StorageApi}.

Definition load_edge_states (p : Pool) : list PersistedEdgeState :=
  row_edge <$> take 512 (order_last_seen_desc (edge_state (pool_db p))).

Definition load_avatar_profile (p : Pool) : result string (option AvatarReactionProfile) :=
  match app_settings (pool_db p) !! AVATAR_PROFILE_KEY with
  | None => Ok None
  | Some value =>
    profile ← map_err (λ e, "failed to decode avatar reaction profile: " +:+ e) (profile_from_json value);
    profile ← map_err (λ e, "invalid avatar reaction profile: " +:+ e) (normalized profile);
    Ok (Some profile)
  end.

Definition save_avatar_profile (profile : AvatarReactionProfile) (p : Pool) : result string () * Pool :=
  match map_err (λ e, "failed to encode avatar reaction profile: " +:+ e) (profile_to_json profile) with
  | Err e => (Err e, p)
  | Ok value =>
    let '(r, p) := execute (λ db,
      {| edge_state := edge_state db; alert_state := alert_state db; alert_events := alert_events db;
         app_settings := <[AVATAR_PROFILE_KEY := value]> (app_settings db) |}) p in
    (map_err (λ e, "failed to save avatar reaction profile: " +:+ e) r, p)
  end.

(** ** storage/worker.rs *)

Definition handle_telemetry (p : Pool) (command : StorageCommand) : result string () * Pool :=
  match command with
  | UpsertEdge edge => upsert_edge_state edge p
  | DeleteEdge key => delete_edge_state key p
  | RecordAlert alert => record_alert alert p
  end.

(** A failed write is logged and the loop goes on. *)
Definition handle_all (p : Pool) (commands : list StorageCommand) : Pool :=
  foldl (λ p command, (handle_telemetry p command).2) p commands.

Inductive WorkerPhase := PollControl | PollTelemetry | Stopped.

(** The two channels are queues with a flag for a live sender; [wk_handled]
    and [wk_sent] record what went through the telemetry channel. *)
Record Worker := {
  wk_phase : WorkerPhase;
  wk_control_open : bool;
  wk_rx : list StorageCommand;
  wk_rx_alive : bool;
  wk_control : list StorageControlCommand;
  wk_control_alive : bool;
  wk_pool : Pool;
  wk_replies : list (result string ());   (* to the saves, in order *)
  wk_done : bool;                          (* done_tx *)
  wk_sent : list StorageCommand;
  wk_handled : list StorageCommand;
}.

(** The worker takes one telemetry command. *)
Definition telemetry_turn (w : Worker) (command : StorageCommand) (rest : list StorageCommand) : Worker :=
  {| wk_phase := PollControl; wk_control_open := wk_control_open w; wk_rx := rest;
     wk_rx_alive := wk_rx_alive w; wk_control := wk_control w; wk_control_alive := wk_control_alive w;
     wk_pool := (handle_telemetry (wk_pool w) command).2; wk_replies := wk_replies w;
     wk_done := wk_done w; wk_sent := wk_sent w; wk_handled := wk_handled w ++ [command] |}.

(** [handle_control] on a save. *)
Definition save_turn (w : Worker) (profile : AvatarReactionProfile) (rest : list StorageControlCommand)
    : Worker :=
  let '(r, p) := save_avatar_profile profile (wk_pool w) in
  {| wk_phase := PollControl; wk_control_open := wk_control_open w; wk_rx := wk_rx w;
     wk_rx_alive := wk_rx_alive w; wk_control := rest; wk_control_alive := wk_control_alive w;
     wk_pool := p; wk_replies := wk_replies w ++ [r]; wk_done := wk_done w; wk_sent := wk_sent w;
     wk_handled := wk_handled w |}.

(** [drain_telemetry], the reply on [done_tx] and the end of the loop. *)
Definition shutdown_turn (w : Worker) (rest : list StorageControlCommand) : Worker :=
  {| wk_phase := Stopped; wk_control_open := wk_control_open w; wk_rx := [];
     wk_rx_alive := wk_rx_alive w; wk_control := rest; wk_control_alive := wk_control_alive w;
     wk_pool := handle_all (wk_pool w) (wk_rx w); wk_replies := wk_replies w; wk_done := true;
     wk_sent := wk_sent w; wk_handled := wk_handled w ++ wk_rx w |}.

Definition set_phase (w : Worker) (phase : WorkerPhase) (control_open : bool) : Worker :=
  {| wk_phase := phase; wk_control_open := control_open; wk_rx := wk_rx w;
     wk_rx_alive := wk_rx_alive w; wk_control := wk_control w; wk_control_alive := wk_control_alive w;
     wk_pool := wk_pool w; wk_replies := wk_replies w; wk_done := wk_done w; wk_sent := wk_sent w;
     wk_handled := wk_handled w |}.

(** One turn of the loop of [run_storage], after the start-up. *)
Inductive worker_turn : Worker → Worker → Prop :=
| TurnSave w profile rest :
    wk_phase w = PollControl → wk_control_open w = true →
    wk_control w = SaveAvatarProfile profile :: rest → worker_turn w (save_turn w profile rest)
| TurnShutdown w rest :
    wk_phase w = PollControl → wk_control_open w = true →
    wk_control w = Shutdown :: rest → worker_turn w (shutdown_turn w rest)
| TurnControlEmpty w :
    wk_phase w = PollControl → wk_control_open w = true → wk_control w = [] → wk_control_alive w = true →
    worker_turn w (set_phase w PollTelemetry true)
| TurnControlGone w :
    wk_phase w = PollControl → wk_control_open w = true → wk_control w = [] → wk_control_alive w = false →
    worker_turn w (set_phase w PollTelemetry false)
| TurnControlClosed w :
    wk_phase w = PollControl → wk_control_open w = false → worker_turn w (set_phase w PollTelemetry false)
| TurnTelemetry w command rest :
    wk_phase w = PollTelemetry → wk_rx w = command :: rest → worker_turn w (telemetry_turn w command rest)
| TurnTimeout w :
    wk_phase w = PollTelemetry → wk_control_open w = true → wk_rx w = [] → wk_rx_alive w = true →
    worker_turn w (set_phase w PollControl true)
| TurnLateSave w profile rest :
    wk_phase w = PollTelemetry → wk_control_open w = true → wk_rx w = [] → wk_rx_alive w = false →
    wk_control w = SaveAvatarProfile profile :: rest → worker_turn w (save_turn w profile rest)
| TurnLateShutdown w rest :
    wk_phase w = PollTelemetry → wk_control_open w = true → wk_rx w = [] → wk_rx_alive w = false →
    wk_control w = Shutdown :: rest → worker_turn w (shutdown_turn w rest)
| TurnBothGone w :
    wk_phase w = PollTelemetry → wk_control_open w = true → wk_rx w = [] → wk_rx_alive w = false →
    wk_control w = [] → wk_control_alive w = false → worker_turn w (set_phase w Stopped true)
| TurnTelemetryGone w :
    wk_phase w = PollTelemetry → wk_control_open w = false → wk_rx w = [] → wk_rx_alive w = false →
    worker_turn w (set_phase w Stopped false).

(** What the dashboard's thread does to the channels: [persist_edge],
    [delete_edge] and [persist_alert] send on one, [queue_avatar_profile_save]
    on the other, and dropping the storage sends the shutdown as its last
    message on either. *)
Definition is_shutdown (c : StorageControlCommand) : bool :=
  match c with Shutdown => true | SaveAvatarProfile _ => false end.
Definition shutting_down (w : Worker) : bool := wk_done w || existsb is_shutdown (wk_control w).

Inductive owner_step : Worker → Worker → Prop :=
| SendTelemetry w command :
    shutting_down w = false → wk_rx_alive w = true →
    owner_step w
      {| wk_phase := wk_phase w; wk_control_open := wk_control_open w; wk_rx := wk_rx w ++ [command];
         wk_rx_alive := true; wk_control := wk_control w; wk_control_alive := wk_control_alive w;
         wk_pool := wk_pool w; wk_replies := wk_replies w; wk_done := wk_done w;
         wk_sent := wk_sent w ++ [command]; wk_handled := wk_handled w |}
| SendControl w command :
    shutting_down w = false → wk_control_alive w = true →
    owner_step w
      {| wk_phase := wk_phase w; wk_control_open := wk_control_open w; wk_rx := wk_rx w;
         wk_rx_alive := wk_rx_alive w; wk_control := wk_control w ++ [command];
         wk_control_alive := wk_control_alive w; wk_pool := wk_pool w; wk_replies := wk_replies w;
         wk_done := wk_done w; wk_sent := wk_sent w; wk_handled := wk_handled w |}
| DropSenders w :
    shutting_down w = true →
    owner_step w
      {| wk_phase := wk_phase w; wk_control_open := wk_control_open w; wk_rx := wk_rx w;
         wk_rx_alive := false; wk_control := wk_control w; wk_control_alive := false;
         wk_pool := wk_pool w; wk_replies := wk_replies w; wk_done := wk_done w;
         wk_sent := wk_sent w; wk_handled := wk_handled w |}.

Definition storage_step (w w' : Worker) : Prop := worker_turn w w' ∨ owner_step w w'.

(** The state in which [run_storage] enters its loop. *)
Definition worker_start (p : Pool) : Worker :=
  {| wk_phase := PollControl; wk_control_open := true; wk_rx := []; wk_rx_alive := true;
     wk_control := []; wk_control_alive := true; wk_pool := p; wk_replies := []; wk_done := false;
     wk_sent := []; wk_handled := [] |}.

(** ** Lemmas *)

(** The tables telemetry writes. *)
Definition telemetry_tables (p : Pool) : gmap string EdgeRow * gmap string AlertRow * list AlertEventRow :=
  (edge_state (pool_db p), alert_state (pool_db p), alert_events (pool_db p)).

Lemma execute_ok f p : pool_outcomes p = [] →
  execute f p = (Ok (), {| pool_db := f (pool_db p); pool_outcomes := [] |}).
Proof. unfold execute. by intros ->. Qed.

Lemma handle_telemetry_ok p c : pool_outcomes p = [] →
  (handle_telemetry p c).1 = Ok () ∧ pool_outcomes (handle_telemetry p c).2 = [].
Proof.
  intros Hp. destruct c as [e|k|a]; simpl;
    unfold upsert_edge_state, delete_edge_state, record_alert, upsert_alert_state.
  1-2: by rewrite execute_ok.
  rewrite execute_ok by done. simpl. destruct (ar_status a); by rewrite execute_ok.
Qed.

(** Telemetry reads no other table. *)
Lemma handle_telemetry_tables p q c : pool_outcomes p = [] → pool_outcomes q = [] →
  telemetry_tables p = telemetry_tables q →
  telemetry_tables (handle_telemetry p c).2 = telemetry_tables (handle_telemetry q c).2.
Proof.
  intros Hp Hq E. unfold telemetry_tables in *. injection E as E1 E2 E3.
  destruct c as [e|k|a]; simpl;
    unfold upsert_edge_state, delete_edge_state, record_alert, upsert_alert_state;
    rewrite !execute_ok by done; simpl; [by rewrite E1, E2, E3..|].
  destruct (ar_status a); simpl; by rewrite E1, E2, E3.
Qed.

Lemma handle_all_snoc p cs c : handle_all p (cs ++ [c]) = (handle_telemetry (handle_all p cs) c).2.
Proof. unfold handle_all. by rewrite foldl_app. Qed.
Lemma handle_all_app p cs ds : handle_all p (cs ++ ds) = handle_all (handle_all p cs) ds.
Proof. unfold handle_all. by rewrite foldl_app. Qed.

Lemma handle_all_ok p cs : pool_outcomes p = [] → pool_outcomes (handle_all p cs) = [].
Proof.
  intros Hp. induction cs as [|c cs IH] using rev_ind; [done|]. rewrite handle_all_snoc.
  by apply handle_telemetry_ok.
Qed.

Lemma handle_all_tables p q cs : pool_outcomes p = [] → pool_outcomes q = [] →
  telemetry_tables p = telemetry_tables q →
  telemetry_tables (handle_all p cs) = telemetry_tables (handle_all q cs).
Proof.
  intros Hp Hq E. induction cs as [|c cs IH] using rev_ind; [done|]. rewrite !handle_all_snoc.
  apply handle_telemetry_tables; [by apply handle_all_ok..|done].
Qed.

Lemma save_avatar_profile_tables profile p : pool_outcomes p = [] →
  pool_outcomes (save_avatar_profile profile p).2 = [] ∧
  telemetry_tables (save_avatar_profile profile p).2 = telemetry_tables p.
Proof.
  intros Hp. unfold save_avatar_profile. destruct (map_err _ _) as [v|e]; [|done].
  by rewrite execute_ok.
Qed.

(** What holds at every point of a run that starts with the pool [p0]. *)
Record worker_inv (p0 : Pool) (w : Worker) : Prop := {
  wi_fifo : wk_handled w ++ wk_rx w = wk_sent w;
  wi_done : wk_done w = true → wk_rx w = [] ∧ wk_phase w = Stopped;
  wi_closed : wk_control_open w = false → wk_control w = [] ∧ wk_control_alive w = false;
  wi_alive : wk_control_alive w = false → shutting_down w = true;
  wi_open : wk_phase w = Stopped → wk_done w = true;
  wi_tables : pool_outcomes p0 = [] → pool_outcomes (wk_pool w) = [] ∧
    telemetry_tables (wk_pool w) = telemetry_tables (handle_all p0 (wk_handled w));
}.

Lemma worker_start_inv p0 : worker_inv p0 (worker_start p0).
Proof. by split. Qed.

Lemma save_turn_inv p0 w profile rest : worker_inv p0 w → wk_phase w ≠ Stopped → wk_control_open w = true →
  wk_control w = SaveAvatarProfile profile :: rest → worker_inv p0 (save_turn w profile rest).
Proof.
  intros [Hf Hd Hc Ha Ho Ht] Hp Hco Hq. unfold save_turn.
  destruct (save_avatar_profile profile (wk_pool w)) as [r p] eqn:E.
  split; simpl; try done.
  - intros Hdone. by destruct (Hd Hdone).
  - congruence.
  - intros Hal. specialize (Ha Hal). unfold shutting_down in *. by rewrite Hq in Ha.
  - intros Hok. destruct (Ht Hok) as [H1 H2].
    destruct (save_avatar_profile_tables profile (wk_pool w) H1) as [H3 H4].
    rewrite E in H3, H4. simpl in *. by rewrite H4.
Qed.
Lemma shutdown_turn_inv p0 w rest : worker_inv p0 w → wk_control_open w = true →
  worker_inv p0 (shutdown_turn w rest).
Proof.
  intros [Hf Hd Hc Ha Ho Ht] Hco. split; simpl; try done.
  - by rewrite app_nil_r.
  - congruence.
  - intros Hok. destruct (Ht Hok) as [H1 H2]. split; [by apply handle_all_ok|].
    rewrite handle_all_app. apply handle_all_tables; [done|by apply handle_all_ok|done].
Qed.
Lemma telemetry_turn_inv p0 w c rest : worker_inv p0 w → wk_phase w = PollTelemetry →
  wk_rx w = c :: rest → worker_inv p0 (telemetry_turn w c rest).
Proof.
  intros [Hf Hd Hc Ha Ho Ht] Hp Hq. split; simpl; try done.
  - rewrite <-Hf, Hq. by rewrite <-app_assoc.
  - intros Hdone. destruct (Hd Hdone). congruence.
  - intros Hok. destruct (Ht Hok) as [H1 H2]. split; [by apply handle_telemetry_ok|].
    rewrite handle_all_snoc. apply handle_telemetry_tables; [done|by apply handle_all_ok|done].
Qed.
Lemma set_phase_inv p0 w phase co : worker_inv p0 w → wk_phase w ≠ Stopped → phase ≠ Stopped →
  (co = false → wk_control w = [] ∧ wk_control_alive w = false) → worker_inv p0 (set_phase w phase co).
Proof.
  intros [Hf Hd Hc Ha Ho Ht] Hp Hph Hco. split; simpl; try done.
  intros Hdone. by destruct (Hd Hdone).
Qed.

Lemma worker_turn_inv p0 w w' : worker_inv p0 w → worker_turn w w' → worker_inv p0 w'.
Proof.
  intros Hi Ht. pose proof (wi_done _ _ Hi) as Hd. pose proof (wi_alive _ _ Hi) as Ha.
  pose proof (wi_closed _ _ Hi) as Hc. unfold shutting_down in Ha.
  destruct Ht as [w pr rest Hp|w rest Hp|w Hp|w Hp|w Hp|w c rest Hp|w Hp|w pr rest Hp|w rest Hp|w Hp Ho Hr Hra Hq Hca|w Hp Ho Hr Hra].
  1,8: apply save_turn_inv; congruence.
  1,7: by apply shutdown_turn_inv.
  1-3: apply set_phase_inv; [done|congruence|done|naive_solver].
  - by apply telemetry_turn_inv.
  - apply set_phase_inv; [done|congruence|done|done].
  - specialize (Ha Hca). rewrite Hq, orb_false_r in Ha. destruct (Hd Ha). congruence.
  - destruct (Hc Ho) as [Hq Hca]. specialize (Ha Hca). rewrite Hq, orb_false_r in Ha.
    destruct (Hd Ha). congruence.
Qed.

Lemma owner_step_inv p0 w w' : worker_inv p0 w → owner_step w w' → worker_inv p0 w'.
Proof.
  intros [Hf Hd Hc Ha Ho Ht] Hs.
  destruct Hs as [w c Hn Hal|w c Hn Hal|w Hn]; unfold shutting_down in *; split; simpl; try done.
  - by rewrite app_assoc, Hf.
  - intros Hdone. rewrite Hdone in Hn. done.
  - intros Hco. destruct (Hc Hco). congruence.
  - congruence.
  - intros Hco. by destruct (Hc Hco).
Qed.

Lemma storage_inv p0 w : rtc storage_step (worker_start p0) w → worker_inv p0 w.
Proof.
  intros Hr. assert (∀ w0, rtc storage_step w0 w → worker_inv p0 w0 → worker_inv p0 w) as H1.
  { clear. induction 1 as [|x y z [Hs|Hs] _ IH]; [done|intros Hi..].
    - apply IH. by eapply worker_turn_inv.
    - apply IH. by eapply owner_step_inv. }
  apply (H1 _ Hr), worker_start_inv.
Qed.

(** The loop has one choice at a time. *)
Lemma worker_turn_deterministic w w1 w2 : worker_turn w w1 → worker_turn w w2 → w1 = w2.
Proof. destruct 1; inversion 1; subst; congruence. Qed.

(** Turns left once the shutdown is queued. *)
Definition turns_left (w : Worker) : nat :=
  2 * length (wk_control w) + 2 * length (wk_rx w) +
  match wk_phase w with PollTelemetry => 1 | _ => 0 end.

Lemma shutdown_progress p0 w : worker_inv p0 w → wk_done w = false → shutting_down w = true →
  ∃ w', worker_turn w w' ∧ (wk_done w' = true ∨
    wk_done w' = false ∧ shutting_down w' = true ∧ (turns_left w' < turns_left w)%nat).
Proof.
  intros Hi Hn Hs. unfold shutting_down in Hs. rewrite Hn in Hs. simpl in Hs.
  assert (wk_control_open w = true) as Ho.
  { destruct (wk_control_open w) eqn:E; [done|]. destruct (wi_closed _ _ Hi E) as [Hq _].
    by rewrite Hq in Hs. }
  destruct (wk_phase w) eqn:Hp; [| |by pose proof (wi_open _ _ Hi Hp); congruence].
  - destruct (wk_control w) as [|[pr|] rest] eqn:Hq; [done| |].
    + exists (save_turn w pr rest). split; [by econstructor|right]. unfold save_turn, shutting_down, turns_left.
      destruct (save_avatar_profile _ _). simpl. rewrite Hn, Hq, Hp. simpl in *. split_and!; [done..|lia].
    + exists (shutdown_turn w rest). split; [by eapply TurnShutdown|by left].
  - destruct (wk_rx w) as [|c rest] eqn:Hr.
    + destruct (wk_rx_alive w) eqn:Hal.
      * exists (set_phase w PollControl true). split; [by apply TurnTimeout|right].
        unfold shutting_down, turns_left. simpl. rewrite Hn, Hr, Hp. simpl. split_and!; [done..|lia].
      * destruct (wk_control w) as [|[pr|] rest] eqn:Hq; [done| |].
        -- exists (save_turn w pr rest). split; [by eapply TurnLateSave|right].
           unfold save_turn, shutting_down, turns_left. destruct (save_avatar_profile _ _). simpl.
           rewrite Hn, Hq, Hp, Hr. simpl in *. split_and!; [done..|lia].
        -- exists (shutdown_turn w rest). split; [by eapply TurnLateShutdown|by left].
    + exists (telemetry_turn w c rest). split; [by apply TurnTelemetry|right].
      unfold shutting_down, turns_left. simpl. rewrite Hn, Hr, Hp. simpl. split_and!; [done..|lia].
Qed.

Lemma shutdown_finishes p0 w : worker_inv p0 w → shutting_down w = true →
  ∃ n w', nsteps worker_turn n w w' ∧ (n ≤ S (turns_left w))%nat ∧ wk_done w' = true ∧ worker_inv p0 w'.
Proof.
  remember (turns_left w) as m eqn:Hm. revert w Hm.
  induction (lt_wf m) as [m _ IH]; intros w -> Hi Hs.
  destruct (wk_done w) eqn:Hd; [exists 0%nat, w; split_and!; [constructor|lia|done..]|].
  destruct (shutdown_progress p0 w Hi Hd Hs) as (w1 & Ht & [H1|(H1 & H2 & H3)]);
    pose proof (worker_turn_inv _ _ _ Hi Ht) as Hi1.
  - exists 1%nat, w1. split_and!; [by apply nsteps_once|lia|done..].
  - destruct (IH _ H3 w1 eq_refl Hi1 H2) as (n & w2 & Hn & Hle & Hw). exists (S n), w2.
    split_and!; [by econstructor|lia|naive_solver..].
Qed.

(** ** Theorems *)

(** C40: the storage worker never loses or reorders a command: at every point
    of every run, what it has handled followed by what is queued is what was
    sent; when the writes succeed the tables are those the handled commands
    make, in order; and once the shutdown is queued the worker answers it
    after a bounded number of turns, having handled every command sent. *)
Theorem worker_drains_before_done p0 w : rtc storage_step (worker_start p0) w →
  wk_handled w ++ wk_rx w = wk_sent w ∧
  (pool_outcomes p0 = [] →
     telemetry_tables (wk_pool w) = telemetry_tables (handle_all p0 (wk_handled w))) ∧
  (wk_done w = true → wk_handled w = wk_sent w) ∧
  (shutting_down w = true → ∃ n w', nsteps worker_turn n w w' ∧ (n ≤ S (turns_left w))%nat ∧
     wk_done w' = true ∧ wk_handled w' = wk_sent w').
Proof.
  intros Hr. pose proof (storage_inv p0 w Hr) as Hi.
  assert (∀ w, worker_inv p0 w → wk_done w = true → wk_handled w = wk_sent w) as Hd.
  { intros w1 Hi1 Hd1. rewrite <-(wi_fifo _ _ Hi1), (proj1 (wi_done _ _ Hi1 Hd1)). by rewrite app_nil_r. }
  split_and!; [apply Hi|intros Ho; by apply Hi|by apply Hd|].
  intros Hs. destruct (shutdown_finishes p0 w Hi Hs) as (n & w' & ? & ? & ? & ?). naive_solver.
Qed.
End statements.

(** ** A small instance *)

Definition newer (a b : EdgeRow) : Prop := er_last_seen_unix_ms b ≤ er_last_seen_unix_ms a.
#[global] Instance newer_dec a b : Decision (newer a b).
Proof. unfold newer. apply _. Defined.

Definition demo_storage : StorageApi :=
  {| profile_to_json := λ p, Ok (model_name p); profile_from_json := λ s, Err "not an object";
     order_last_seen_desc := λ m, merge_sort newer (map_to_list m).*2 |}.
Definition empty_pool : Pool :=
  {| pool_db := {| edge_state := ∅; alert_state := ∅; alert_events := []; app_settings := ∅ |};
     pool_outcomes := [] |}.
(** One command is queued, then the shutdown. *)
Definition demo_queued : Worker :=
  {| wk_phase := PollControl; wk_control_open := true; wk_rx := [DeleteEdge "a|b"]; wk_rx_alive := true;
     wk_control := [Shutdown]; wk_control_alive := true; wk_pool := empty_pool; wk_replies := [];
     wk_done := false; wk_sent := [DeleteEdge "a|b"]; wk_handled := [] |}.

Lemma worker_drains_before_done_witness :
  ∃ n w', nsteps (@worker_turn demo_storage) n demo_queued w' ∧ (n ≤ 5)%nat ∧
    wk_done w' = true ∧ wk_handled w' = wk_sent w'.
Proof.
  assert (rtc (@storage_step demo_storage) (worker_start empty_pool) demo_queued) as Hr.
  { eapply rtc_l; [right; apply (SendTelemetry _ (DeleteEdge "a|b")); reflexivity|].
    eapply rtc_l; [right; apply (SendControl _ Shutdown); reflexivity|]. apply rtc_refl. }
  apply (@worker_drains_before_done demo_storage empty_pool demo_queued Hr). reflexivity.
Defined.
