(* ===== verification/FeDashboard.v ===== *)
(** * The dashboard state of the control room (skid-monitor-fe, state/)

    [DashboardState] with every operation of state/ingest.rs, events.rs,
    lifecycle.rs, accessors.rs and persistence.rs for the native build: the
    ingress messages, the agent and listener forms, the alert switch and the
    profile save.  Channels are modelled from the dashboard's end: what it
    sent, and whether the other side is gone.  Each clock reading takes the
    next value of an arbitrary clock. *)

From S2P Require Import Prelude RustStr Otlp RustFloat ReceiverLoop FeFormat FeSignal FeAlert FeEdge FeProfile FeStorage.

(** ** Data *)

Definition MAX_EVENTS : Z := 256.
Definition MAX_METRICS : Z := 512.
Definition MAX_HISTORY_POINTS : Z := 180.

Record EventRow := { ev_time : string; ev_kind : string; ev_message : string }.

Record SignalCounters := {
  sc_metrics : Z;
  sc_metric_points : Z;
  sc_traces : Z;
  sc_spans : Z;
  sc_logs : Z;
  sc_log_records : Z;
}.
(** [SignalCounters::default()] *)
Definition no_signals : SignalCounters :=
  {| sc_metrics := 0; sc_metric_points := 0; sc_traces := 0; sc_spans := 0; sc_logs := 0;
     sc_log_records := 0 |}.

Inductive Status := Starting | Listening (label : string) | StatusError (error : string).

(** The sending ends of the channels to the receiver loop and to the storage
    worker. *)
Record IngressControl := { ic_sent : list ReceiverControl; ic_gone : bool }.
Record StateStorage := {
  ss_sent : list StorageCommand;
  ss_saves : list AvatarReactionProfile;
  ss_gone : bool;
}.

Inductive IngressMessage :=
| MsgListening (addrs : list string)
| MsgSignal (listener : string) (signal : Signal)
| MsgError (listener : option string) (error : string)
| MsgExtensionError (error : string).

(** [IngressMessage::from] *)
Definition ingress_message (m : ReceiverMessage) : IngressMessage :=
  match m with
  | RmListening addrs => MsgListening addrs
  | RmSignal listener signal => MsgSignal listener signal
  | RmError listener error => MsgError listener error
  | RmExtensionError error => MsgExtensionError error
  end.

(** [Receiver::try_recv] *)
Inductive TryRecv A := Received (a : A) | RecvEmpty | RecvDisconnected.
Arguments Received {A} a.
Arguments RecvEmpty {A}.
Arguments RecvDisconnected {A}.

Record OperationalSummary := {
  os_agents : Z;
  os_listeners : Z;
  os_online : Z;
  os_pending : Z;
  os_warning : Z;
  os_critical : Z;
  os_storage_enabled : bool;
}.

Record DashboardState := {
  ds_status : Status;
  ds_listening_label : option string;
  ds_counters : SignalCounters;
  ds_events : list EventRow;
  ds_metrics : list MetricSample;
  ds_metric_history : gmap string (list f64);
  ds_nodes : gmap string NodeSummary;
  ds_edges : EdgeSignalDecorations;
  ds_alerts : AlertStore;
  ds_alerts_enabled : bool;
  ds_avatar_profile : AvatarReactionProfile;
  ds_avatar_profile_revision : Z;
  ds_avatar_model_revision : Z;
  ds_pending_avatar_profile : option AvatarReactionProfile;
  ds_storage : option StateStorage;
  ds_listeners : gset string;
  ds_ingress_control : option IngressControl;
  ds_ticks : nat;   (* clock readings taken so far *)
}.

(** Field updates. *)
Definition set_status (v : Status) (s : DashboardState) : DashboardState :=
  {| ds_status := v; ds_listening_label := ds_listening_label s; ds_counters := ds_counters s;
     ds_events := ds_events s; ds_metrics := ds_metrics s;
     ds_metric_history := ds_metric_history s; ds_nodes := ds_nodes s; ds_edges := ds_edges s;
     ds_alerts := ds_alerts s; ds_alerts_enabled := ds_alerts_enabled s;
     ds_avatar_profile := ds_avatar_profile s;
     ds_avatar_profile_revision := ds_avatar_profile_revision s;
     ds_avatar_model_revision := ds_avatar_model_revision s;
     ds_pending_avatar_profile := ds_pending_avatar_profile s; ds_storage := ds_storage s;
     ds_listeners := ds_listeners s; ds_ingress_control := ds_ingress_control s;
     ds_ticks := ds_ticks s |}.
Definition set_listening_label (v : option string) (s : DashboardState) : DashboardState :=
  {| ds_status := ds_status s; ds_listening_label := v; ds_counters := ds_counters s;
     ds_events := ds_events s; ds_metrics := ds_metrics s;
     ds_metric_history := ds_metric_history s; ds_nodes := ds_nodes s; ds_edges := ds_edges s;
     ds_alerts := ds_alerts s; ds_alerts_enabled := ds_alerts_enabled s;
     ds_avatar_profile := ds_avatar_profile s;
     ds_avatar_profile_revision := ds_avatar_profile_revision s;
     ds_avatar_model_revision := ds_avatar_model_revision s;
     ds_pending_avatar_profile := ds_pending_avatar_profile s; ds_storage := ds_storage s;
     ds_listeners := ds_listeners s; ds_ingress_control := ds_ingress_control s;
     ds_ticks := ds_ticks s |}.
Definition set_counters (v : SignalCounters) (s : DashboardState) : DashboardState :=
  {| ds_status := ds_status s; ds_listening_label := ds_listening_label s; ds_counters := v;
     ds_events := ds_events s; ds_metrics := ds_metrics s;
     ds_metric_history := ds_metric_history s; ds_nodes := ds_nodes s; ds_edges := ds_edges s;
     ds_alerts := ds_alerts s; ds_alerts_enabled := ds_alerts_enabled s;
     ds_avatar_profile := ds_avatar_profile s;
     ds_avatar_profile_revision := ds_avatar_profile_revision s;
     ds_avatar_model_revision := ds_avatar_model_revision s;
     ds_pending_avatar_profile := ds_pending_avatar_profile s; ds_storage := ds_storage s;
     ds_listeners := ds_listeners s; ds_ingress_control := ds_ingress_control s;
     ds_ticks := ds_ticks s |}.
Definition set_events (v : list EventRow) (s : DashboardState) : DashboardState :=
  {| ds_status := ds_status s; ds_listening_label := ds_listening_label s;
     ds_counters := ds_counters s; ds_events := v; ds_metrics := ds_metrics s;
     ds_metric_history := ds_metric_history s; ds_nodes := ds_nodes s; ds_edges := ds_edges s;
     ds_alerts := ds_alerts s; ds_alerts_enabled := ds_alerts_enabled s;
     ds_avatar_profile := ds_avatar_profile s;
     ds_avatar_profile_revision := ds_avatar_profile_revision s;
     ds_avatar_model_revision := ds_avatar_model_revision s;
     ds_pending_avatar_profile := ds_pending_avatar_profile s; ds_storage := ds_storage s;
     ds_listeners := ds_listeners s; ds_ingress_control := ds_ingress_control s;
     ds_ticks := ds_ticks s |}.
Definition set_metrics (v : list MetricSample) (s : DashboardState) : DashboardState :=
  {| ds_status := ds_status s; ds_listening_label := ds_listening_label s;
     ds_counters := ds_counters s; ds_events := ds_events s; ds_metrics := v;
     ds_metric_history := ds_metric_history s; ds_nodes := ds_nodes s; ds_edges := ds_edges s;
     ds_alerts := ds_alerts s; ds_alerts_enabled := ds_alerts_enabled s;
     ds_avatar_profile := ds_avatar_profile s;
     ds_avatar_profile_revision := ds_avatar_profile_revision s;
     ds_avatar_model_revision := ds_avatar_model_revision s;
     ds_pending_avatar_profile := ds_pending_avatar_profile s; ds_storage := ds_storage s;
     ds_listeners := ds_listeners s; ds_ingress_control := ds_ingress_control s;
     ds_ticks := ds_ticks s |}.
Definition set_metric_history (v : gmap string (list f64)) (s : DashboardState) : DashboardState :=
  {| ds_status := ds_status s; ds_listening_label := ds_listening_label s;
     ds_counters := ds_counters s; ds_events := ds_events s; ds_metrics := ds_metrics s;
     ds_metric_history := v; ds_nodes := ds_nodes s; ds_edges := ds_edges s;
     ds_alerts := ds_alerts s; ds_alerts_enabled := ds_alerts_enabled s;
     ds_avatar_profile := ds_avatar_profile s;
     ds_avatar_profile_revision := ds_avatar_profile_revision s;
     ds_avatar_model_revision := ds_avatar_model_revision s;
     ds_pending_avatar_profile := ds_pending_avatar_profile s; ds_storage := ds_storage s;
     ds_listeners := ds_listeners s; ds_ingress_control := ds_ingress_control s;
     ds_ticks := ds_ticks s |}.
Definition set_nodes (v : gmap string NodeSummary) (s : DashboardState) : DashboardState :=
  {| ds_status := ds_status s; ds_listening_label := ds_listening_label s;
     ds_counters := ds_counters s; ds_events := ds_events s; ds_metrics := ds_metrics s;
     ds_metric_history := ds_metric_history s; ds_nodes := v; ds_edges := ds_edges s;
     ds_alerts := ds_alerts s; ds_alerts_enabled := ds_alerts_enabled s;
     ds_avatar_profile := ds_avatar_profile s;
     ds_avatar_profile_revision := ds_avatar_profile_revision s;
     ds_avatar_model_revision := ds_avatar_model_revision s;
     ds_pending_avatar_profile := ds_pending_avatar_profile s; ds_storage := ds_storage s;
     ds_listeners := ds_listeners s; ds_ingress_control := ds_ingress_control s;
     ds_ticks := ds_ticks s |}.
Definition set_edges (v : EdgeSignalDecorations) (s : DashboardState) : DashboardState :=
  {| ds_status := ds_status s; ds_listening_label := ds_listening_label s;
     ds_counters := ds_counters s; ds_events := ds_events s; ds_metrics := ds_metrics s;
     ds_metric_history := ds_metric_history s; ds_nodes := ds_nodes s; ds_edges := v;
     ds_alerts := ds_alerts s; ds_alerts_enabled := ds_alerts_enabled s;
     ds_avatar_profile := ds_avatar_profile s;
     ds_avatar_profile_revision := ds_avatar_profile_revision s;
     ds_avatar_model_revision := ds_avatar_model_revision s;
     ds_pending_avatar_profile := ds_pending_avatar_profile s; ds_storage := ds_storage s;
     ds_listeners := ds_listeners s; ds_ingress_control := ds_ingress_control s;
     ds_ticks := ds_ticks s |}.
Definition set_alerts (v : AlertStore) (s : DashboardState) : DashboardState :=
  {| ds_status := ds_status s; ds_listening_label := ds_listening_label s;
     ds_counters := ds_counters s; ds_events := ds_events s; ds_metrics := ds_metrics s;
     ds_metric_history := ds_metric_history s; ds_nodes := ds_nodes s; ds_edges := ds_edges s;
     ds_alerts := v; ds_alerts_enabled := ds_alerts_enabled s;
     ds_avatar_profile := ds_avatar_profile s;
     ds_avatar_profile_revision := ds_avatar_profile_revision s;
     ds_avatar_model_revision := ds_avatar_model_revision s;
     ds_pending_avatar_profile := ds_pending_avatar_profile s; ds_storage := ds_storage s;
     ds_listeners := ds_listeners s; ds_ingress_control := ds_ingress_control s;
     ds_ticks := ds_ticks s |}.
Definition set_alerts_enabled (v : bool) (s : DashboardState) : DashboardState :=
  {| ds_status := ds_status s; ds_listening_label := ds_listening_label s;
     ds_counters := ds_counters s; ds_events := ds_events s; ds_metrics := ds_metrics s;
     ds_metric_history := ds_metric_history s; ds_nodes := ds_nodes s; ds_edges := ds_edges s;
     ds_alerts := ds_alerts s; ds_alerts_enabled := v;
     ds_avatar_profile := ds_avatar_profile s;
     ds_avatar_profile_revision := ds_avatar_profile_revision s;
     ds_avatar_model_revision := ds_avatar_model_revision s;
     ds_pending_avatar_profile := ds_pending_avatar_profile s; ds_storage := ds_storage s;
     ds_listeners := ds_listeners s; ds_ingress_control := ds_ingress_control s;
     ds_ticks := ds_ticks s |}.
Definition set_avatar_profile (v : AvatarReactionProfile) (s : DashboardState) : DashboardState :=
  {| ds_status := ds_status s; ds_listening_label := ds_listening_label s;
     ds_counters := ds_counters s; ds_events := ds_events s; ds_metrics := ds_metrics s;
     ds_metric_history := ds_metric_history s; ds_nodes := ds_nodes s; ds_edges := ds_edges s;
     ds_alerts := ds_alerts s; ds_alerts_enabled := ds_alerts_enabled s;
     ds_avatar_profile := v; ds_avatar_profile_revision := ds_avatar_profile_revision s;
     ds_avatar_model_revision := ds_avatar_model_revision s;
     ds_pending_avatar_profile := ds_pending_avatar_profile s; ds_storage := ds_storage s;
     ds_listeners := ds_listeners s; ds_ingress_control := ds_ingress_control s;
     ds_ticks := ds_ticks s |}.
Definition set_avatar_profile_revision (v : Z) (s : DashboardState) : DashboardState :=
  {| ds_status := ds_status s; ds_listening_label := ds_listening_label s;
     ds_counters := ds_counters s; ds_events := ds_events s; ds_metrics := ds_metrics s;
     ds_metric_history := ds_metric_history s; ds_nodes := ds_nodes s; ds_edges := ds_edges s;
     ds_alerts := ds_alerts s; ds_alerts_enabled := ds_alerts_enabled s;
     ds_avatar_profile := ds_avatar_profile s; ds_avatar_profile_revision := v;
     ds_avatar_model_revision := ds_avatar_model_revision s;
     ds_pending_avatar_profile := ds_pending_avatar_profile s; ds_storage := ds_storage s;
     ds_listeners := ds_listeners s; ds_ingress_control := ds_ingress_control s;
     ds_ticks := ds_ticks s |}.
Definition set_avatar_model_revision (v : Z) (s : DashboardState) : DashboardState :=
  {| ds_status := ds_status s; ds_listening_label := ds_listening_label s;
     ds_counters := ds_counters s; ds_events := ds_events s; ds_metrics := ds_metrics s;
     ds_metric_history := ds_metric_history s; ds_nodes := ds_nodes s; ds_edges := ds_edges s;
     ds_alerts := ds_alerts s; ds_alerts_enabled := ds_alerts_enabled s;
     ds_avatar_profile := ds_avatar_profile s;
     ds_avatar_profile_revision := ds_avatar_profile_revision s;
     ds_avatar_model_revision := v; ds_pending_avatar_profile := ds_pending_avatar_profile s;
     ds_storage := ds_storage s; ds_listeners := ds_listeners s;
     ds_ingress_control := ds_ingress_control s; ds_ticks := ds_ticks s |}.
Definition set_pending_avatar_profile (v : option AvatarReactionProfile) (s : DashboardState) : DashboardState :=
  {| ds_status := ds_status s; ds_listening_label := ds_listening_label s;
     ds_counters := ds_counters s; ds_events := ds_events s; ds_metrics := ds_metrics s;
     ds_metric_history := ds_metric_history s; ds_nodes := ds_nodes s; ds_edges := ds_edges s;
     ds_alerts := ds_alerts s; ds_alerts_enabled := ds_alerts_enabled s;
     ds_avatar_profile := ds_avatar_profile s;
     ds_avatar_profile_revision := ds_avatar_profile_revision s;
     ds_avatar_model_revision := ds_avatar_model_revision s; ds_pending_avatar_profile := v;
     ds_storage := ds_storage s; ds_listeners := ds_listeners s;
     ds_ingress_control := ds_ingress_control s; ds_ticks := ds_ticks s |}.
Definition set_storage (v : option StateStorage) (s : DashboardState) : DashboardState :=
  {| ds_status := ds_status s; ds_listening_label := ds_listening_label s;
     ds_counters := ds_counters s; ds_events := ds_events s; ds_metrics := ds_metrics s;
     ds_metric_history := ds_metric_history s; ds_nodes := ds_nodes s; ds_edges := ds_edges s;
     ds_alerts := ds_alerts s; ds_alerts_enabled := ds_alerts_enabled s;
     ds_avatar_profile := ds_avatar_profile s;
     ds_avatar_profile_revision := ds_avatar_profile_revision s;
     ds_avatar_model_revision := ds_avatar_model_revision s;
     ds_pending_avatar_profile := ds_pending_avatar_profile s; ds_storage := v;
     ds_listeners := ds_listeners s; ds_ingress_control := ds_ingress_control s;
     ds_ticks := ds_ticks s |}.
Definition set_listeners (v : gset string) (s : DashboardState) : DashboardState :=
  {| ds_status := ds_status s; ds_listening_label := ds_listening_label s;
     ds_counters := ds_counters s; ds_events := ds_events s; ds_metrics := ds_metrics s;
     ds_metric_history := ds_metric_history s; ds_nodes := ds_nodes s; ds_edges := ds_edges s;
     ds_alerts := ds_alerts s; ds_alerts_enabled := ds_alerts_enabled s;
     ds_avatar_profile := ds_avatar_profile s;
     ds_avatar_profile_revision := ds_avatar_profile_revision s;
     ds_avatar_model_revision := ds_avatar_model_revision s;
     ds_pending_avatar_profile := ds_pending_avatar_profile s; ds_storage := ds_storage s;
     ds_listeners := v; ds_ingress_control := ds_ingress_control s; ds_ticks := ds_ticks s |}.
Definition set_ingress_control (v : option IngressControl) (s : DashboardState) : DashboardState :=
  {| ds_status := ds_status s; ds_listening_label := ds_listening_label s;
     ds_counters := ds_counters s; ds_events := ds_events s; ds_metrics := ds_metrics s;
     ds_metric_history := ds_metric_history s; ds_nodes := ds_nodes s; ds_edges := ds_edges s;
     ds_alerts := ds_alerts s; ds_alerts_enabled := ds_alerts_enabled s;
     ds_avatar_profile := ds_avatar_profile s;
     ds_avatar_profile_revision := ds_avatar_profile_revision s;
     ds_avatar_model_revision := ds_avatar_model_revision s;
     ds_pending_avatar_profile := ds_pending_avatar_profile s; ds_storage := ds_storage s;
     ds_listeners := ds_listeners s; ds_ingress_control := v; ds_ticks := ds_ticks s |}.
Definition set_ticks (v : nat) (s : DashboardState) : DashboardState :=
  {| ds_status := ds_status s; ds_listening_label := ds_listening_label s;
     ds_counters := ds_counters s; ds_events := ds_events s; ds_metrics := ds_metrics s;
     ds_metric_history := ds_metric_history s; ds_nodes := ds_nodes s; ds_edges := ds_edges s;
     ds_alerts := ds_alerts s; ds_alerts_enabled := ds_alerts_enabled s;
     ds_avatar_profile := ds_avatar_profile s;
     ds_avatar_profile_revision := ds_avatar_profile_revision s;
     ds_avatar_model_revision := ds_avatar_model_revision s;
     ds_pending_avatar_profile := ds_pending_avatar_profile s; ds_storage := ds_storage s;
     ds_listeners := ds_listeners s; ds_ingress_control := ds_ingress_control s;
     ds_ticks := v |}.


(** ** The clock *)

(** One reading: the system time in milliseconds and the [Instant]. *)
Record Reading := { rd_system_ms : Z; rd_instant : Z }.

(** [SendError]'s text. *)
Definition CLOSED_CHANNEL : string := "sending on a closed channel".

(** [IngressControl::add] and [remove] *)
Definition control_send (what : string) (command : ReceiverControl) (c : IngressControl)
    : result string IngressControl :=
  if ic_gone c then Err ("failed to request ingress " +:+ what +:+ ": " +:+ CLOSED_CHANNEL)
  else Ok {| ic_sent := ic_sent c ++ [command]; ic_gone := false |}.

(** [let _ = tx.send(command)] *)
Definition storage_send (command : StorageCommand) (st : StateStorage) : StateStorage :=
  if ss_gone st then st
  else {| ss_sent := ss_sent st ++ [command]; ss_saves := ss_saves st; ss_gone := false |}.

Definition queue_avatar_profile_save (profile : AvatarReactionProfile) (st : StateStorage)
    : result string StateStorage :=
  if ss_gone st then Err ("failed to queue character profile save: " +:+ CLOSED_CHANNEL)
  else Ok {| ss_sent := ss_sent st; ss_saves := ss_saves st ++ [profile]; ss_gone := false |}.

(** ** persistence.rs *)

Definition send_storage (command : StorageCommand) (s : DashboardState) : DashboardState :=
  set_storage (storage_send command <$> ds_storage s) s.
Definition persist_edge (edge : PersistedEdgeState) : DashboardState → DashboardState :=
  send_storage (UpsertEdge edge).
Definition forget_edge (key : string) : DashboardState → DashboardState :=
  send_storage (DeleteEdge key).

Section dashboard.
(** The clock, and the local time of day [localtime_r] gives. *)
Context (clock : nat → Reading) (local : Z → option string).

Definition reading (s : DashboardState) : Reading := clock (ds_ticks s).
Definition tick (n : nat) (s : DashboardState) : DashboardState := set_ticks (ds_ticks s + n)%nat s.

(** ** events.rs *)

(** [duration_since(UNIX_EPOCH)] in seconds *)
Definition unix_seconds (ms : Z) : option Z := if ms <? 0 then None else Some (ms `div` 1000).

Definition push_event (kind message : string) (s : DashboardState) : DashboardState :=
  let row := {| ev_time := format_event_time local (unix_seconds (rd_system_ms (reading s)));
                ev_kind := kind; ev_message := message |} in
  tick 1 (set_events (push_capped (ds_events s) row MAX_EVENTS) s).

Definition severity_label (severity : AlertSeverity) : string :=
  match severity with Warning => "warning" | Critical => "critical" end.

Definition alert_message (change : AlertChange) : string :=
  let a := ch_snapshot change in
  (match al_status a with Firing => "firing" | StatusResolved => "resolved" end) +:+ " "
  +:+ severity_label (al_severity a) +:+ " " +:+ al_summary a +:+ " [" +:+ al_rule_id a +:+ "] from "
  +:+ al_source a +:+ "@" +:+ al_endpoint a +:+ ": " +:+ al_detail a.

(** The clock is read for the record only when there is a storage. *)
Definition persist_alert (change : AlertChange) (s : DashboardState) : DashboardState :=
  match ds_storage s with
  | Some _ => tick 1 (send_storage (RecordAlert (alert_record (rd_system_ms (reading s)) change)) s)
  | None => s
  end.

Definition push_alert_change (change : option AlertChange) (s : DashboardState) : DashboardState :=
  match change with
  | None => s
  | Some change =>
    push_event (match ch_transition change with Fired => "alert" | Resolved => "resolved" end)
      (alert_message change) (persist_alert change s)
  end.

(** [let change = self.alerts.observe_...; self.push_alert_change(change)] *)
Definition observe_alert (o : Observation) (s : DashboardState) : DashboardState :=
  let '(change, alerts) := observe (ds_alerts s) o in
  push_alert_change change (set_alerts alerts s).

(** ** ingest.rs *)

Definition add_usize (a b : Z) : Z := as_u64 (a + b).

(** The entry of [observe_metric_sample]: a new node starts at zero. *)
Definition sample_entry (now : Z) (sample : MetricSample) (old : option NodeSummary) : NodeSummary :=
  {| ns_node := ms_node sample;
     ns_endpoint := ms_endpoint sample;
     ns_source := ms_source sample;
     ns_service := ms_service sample;
     ns_metric_points := add_usize (default 0 (ns_metric_points <$> old)) 1;
     ns_spans := default 0 (ns_spans <$> old);
     ns_log_records := default 0 (ns_log_records <$> old);
     ns_last_metric := ms_name sample;
     ns_last_value := ms_value sample;
     ns_last_seen := now |}.

(** The end of both observers: the entry is stored, then its decoration is
    updated and persisted.  An entry reads the [Instant], the decoration the
    system time. *)
Definition store_node (key : string) (entry : NodeSummary) (kind : string) (s : DashboardState)
    : DashboardState :=
  let '(edge, edges) := observe_node (rd_system_ms (clock (S (ds_ticks s)))) (ds_edges s) entry kind in
  persist_edge edge (tick 2 (set_edges edges (set_nodes (<[key := entry]> (ds_nodes s)) s))).

Definition observe_metric_sample (sample : MetricSample) (s : DashboardState) : DashboardState :=
  let key := edge_key (ms_endpoint sample) (ms_node sample) in
  store_node key (sample_entry (rd_instant (reading s)) sample (ds_nodes s !! key)) "metrics" s.

Definition items_entry (now : Z) (listener kind : string) (count : Z) (old : option NodeSummary)
    : NodeSummary :=
  let spans := default 0 (ns_spans <$> old) in
  let log_records := default 0 (ns_log_records <$> old) in
  {| ns_node := default listener (ns_node <$> old);
     ns_endpoint := default listener (ns_endpoint <$> old);
     ns_source := kind;
     ns_service := default METRIC_EMPTY_FIELD (ns_service <$> old);
     ns_metric_points := default 0 (ns_metric_points <$> old);
     ns_spans := if bool_decide (kind = "traces") then add_usize spans count else spans;
     ns_log_records := if bool_decide (kind = "logs") then add_usize log_records count else log_records;
     ns_last_metric := kind;
     ns_last_value := u64_to_string count;
     ns_last_seen := now |}.

Definition observe_signal_items (listener kind : string) (count : Z) (s : DashboardState)
    : DashboardState :=
  let key := edge_key listener listener in
  store_node key (items_entry (rd_instant (reading s)) listener kind count (ds_nodes s !! key)) kind s.

Definition update_edge_alert_severity (sample : MetricSample) (s : DashboardState) : DashboardState :=
  let severity := highest_for_node (ds_alerts s) (ms_endpoint sample) (ms_node sample) in
  match set_node_severity (rd_system_ms (reading s)) (ds_edges s) (ms_endpoint sample) (ms_node sample)
          severity with
  | (Some edge, edges) => persist_edge edge (tick 1 (set_edges edges s))
  | (None, edges) => set_edges edges s
  end.

Definition push_history (sample : MetricSample) (s : DashboardState) : DashboardState :=
  match ms_numeric sample with
  | None => s
  | Some value =>
    let key := ms_trend_key sample in
    let old := default [] (ds_metric_history s !! key) in
    set_metric_history (<[key := push_capped old value MAX_HISTORY_POINTS]> (ds_metric_history s)) s
  end.

(** The body of the loop over the samples. *)
Definition ingest_sample (s : DashboardState) (sample : MetricSample) : DashboardState :=
  let s := push_history sample (observe_metric_sample sample s) in
  let s := if ds_alerts_enabled s
           then update_edge_alert_severity sample (observe_alert (ObsMetric sample) s) else s in
  set_metrics (push_capped (ds_metrics s) sample MAX_METRICS) s.

Definition count_metrics (points : Z) (c : SignalCounters) : SignalCounters :=
  {| sc_metrics := add_usize (sc_metrics c) 1; sc_metric_points := add_usize (sc_metric_points c) points;
     sc_traces := sc_traces c; sc_spans := sc_spans c; sc_logs := sc_logs c;
     sc_log_records := sc_log_records c |}.
Definition count_traces (spans : Z) (c : SignalCounters) : SignalCounters :=
  {| sc_metrics := sc_metrics c; sc_metric_points := sc_metric_points c;
     sc_traces := add_usize (sc_traces c) 1; sc_spans := add_usize (sc_spans c) spans;
     sc_logs := sc_logs c; sc_log_records := sc_log_records c |}.
Definition count_logs (records : Z) (c : SignalCounters) : SignalCounters :=
  {| sc_metrics := sc_metrics c; sc_metric_points := sc_metric_points c; sc_traces := sc_traces c;
     sc_spans := sc_spans c; sc_logs := add_usize (sc_logs c) 1;
     sc_log_records := add_usize (sc_log_records c) records |}.

Definition span_count (request : ExportTraceServiceRequest) : Z :=
  sumZ ((λ scope, zlen (ss_spans scope)) <$> (resource_spans_of request ≫= rs_scope_spans)).
Definition log_count (request : ExportLogsServiceRequest) : Z :=
  sumZ ((λ scope, zlen (sl_log_records scope)) <$> (resource_logs_of request ≫= rl_scope_logs)).

Definition ingest_signal (listener : string) (signal : Signal) (s : DashboardState) : DashboardState :=
  match signal with
  | Metrics request =>
    let samples := metric_samples request listener in
    let s := set_counters (count_metrics (zlen samples) (ds_counters s)) s in
    push_event "metrics"
      ("received " +:+ u64_to_string (zlen samples) +:+ " metric points from "
       +:+ u64_to_string (zlen (resource_metrics_of request)) +:+ " resources via " +:+ listener)
      (foldl ingest_sample s samples)
  | Traces request =>
    let count := span_count request in
    let s := set_counters (count_traces count (ds_counters s)) s in
    push_event "traces" ("received " +:+ u64_to_string count +:+ " spans via " +:+ listener)
      (observe_signal_items listener "traces" count s)
  | Logs request =>
    let count := log_count request in
    let s := set_counters (count_logs count (ds_counters s)) s in
    push_event "logs" ("received " +:+ u64_to_string count +:+ " log records via " +:+ listener)
      (observe_signal_items listener "logs" count s)
  end.

(** ** lifecycle.rs *)

Definition listener_status_label (addrs : list string) : string :=
  match addrs with
  | [] => "receiver idle"
  | [_] => "receiver ready (1 listener)"
  | _ => "receiver ready (" +:+ u64_to_string (zlen addrs) +:+ " listeners)"
  end.
Definition listener_event_message (addrs : list string) : string :=
  match addrs with
  | [] => "receiver has no active listeners"
  | [addr] => "receiver listening on " +:+ addr
  | _ => "receiver listening on " +:+ u64_to_string (zlen addrs) +:+ " ingress addresses"
  end.

(** [if self.alerts_enabled { .. }] around observations. *)
Definition observe_alerts (os : list Observation) (s : DashboardState) : DashboardState :=
  if ds_alerts_enabled s then foldl (λ s o, observe_alert o s) s os else s.

Definition observe_listening (addrs : list string) (s : DashboardState) : DashboardState :=
  let label := listener_status_label addrs in
  let s := set_status (Listening label)
             (set_listening_label (Some label) (set_listeners (list_to_set addrs) s)) in
  observe_alerts ((λ addr, ObsReceiverRecovered addr "receiver is listening") <$> addrs)
    (push_event "receiver" (listener_event_message addrs) s).

Definition observe_signal_message (listener : string) (signal : Signal) (s : DashboardState)
    : DashboardState :=
  let s := match ds_listening_label s with Some label => set_status (Listening label) s | None => s end in
  ingest_signal listener signal
    (observe_alerts [ObsReceiverRecovered listener "receiver received a signal"] s).

Definition dash_receiver_error (listener : option string) (error : string) (s : DashboardState)
    : DashboardState :=
  let source := default "receiver" listener in
  let s := observe_alerts [ObsReceiverError source error] (push_event "error" error s) in
  match ds_listening_label s with None => set_status (StatusError error) s | Some _ => s end.

Definition dash_extension_error (error : string) (s : DashboardState) : DashboardState :=
  observe_alerts [ObsExtensionError error] (push_event "extension" error s).

Definition observe_message (s : DashboardState) (message : IngressMessage) : DashboardState :=
  match message with
  | MsgListening addrs => observe_listening addrs s
  | MsgSignal listener signal => observe_signal_message listener signal s
  | MsgError listener error => dash_receiver_error listener error s
  | MsgExtensionError error => dash_extension_error error s
  end.

(** [drain_ingress]: the messages [try_next] gives until it gives none. *)
Definition drain_ingress (messages : list IngressMessage) (s : DashboardState) : DashboardState :=
  foldl observe_message s messages.

Definition set_ingress (ingress_control : IngressControl) (s : DashboardState) : DashboardState :=
  set_ingress_control (Some ingress_control) s.

Definition register_agent (endpoint node service : string) (s : DashboardState)
    : result string string * DashboardState :=
  let endpoint := trim endpoint in
  if is_empty endpoint then (Err "ingress is required", s)
  else
    let node := trim node in
    let node := if is_empty node then endpoint else node in
    let service := trim service in
    let service := if is_empty service then "skid-monitor-agent" else service in
    let key := edge_key endpoint node in
    if bool_decide (is_Some (ds_nodes s !! key)) then (Err (node +:+ " is already registered"), s)
    else
      let summary :=
        {| ns_node := node; ns_endpoint := endpoint; ns_source := "manual"; ns_service := service;
           ns_metric_points := 0; ns_spans := 0; ns_log_records := 0; ns_last_metric := "registered";
           ns_last_value := "pending"; ns_last_seen := rd_instant (reading s) |} in
      (Ok key, push_event "agent" ("registered observation agent " +:+ node +:+ " via " +:+ endpoint)
                 (store_node key summary "manual" s)).

Definition remove_agent (key : string) (s : DashboardState) : result string () * DashboardState :=
  match ds_nodes s !! key with
  | None => (Err "agent not found", s)
  | Some node =>
    let s := set_nodes (delete key (ds_nodes s)) s in
    let s := set_edges (edge_remove (ds_edges s) key).2 s in
    (Ok (), push_event "agent"
              ("removed observation agent " +:+ ns_node node +:+ " via " +:+ ns_endpoint node)
              (forget_edge key s))
  end.

(** The common part of [add_listener] and [remove_listener]: the checks, the
    request to the receiver loop, the event. *)
Definition request_listener (addr : string) (refuse : option string) (what : string)
    (command : ReceiverControl) (message : string) (s : DashboardState)
    : result string () * DashboardState :=
  match (if is_empty addr then Some "listen address is required" else refuse) with
  | Some e => (Err e, s)
  | None =>
    match ds_ingress_control s with
    | None => (Err "ingress control is unavailable", s)
    | Some control =>
      match control_send what command control with
      | Err e => (Err e, s)
      | Ok control => (Ok (), push_event "receiver" message (set_ingress_control (Some control) s))
      end
    end
  end.

Definition add_listener (addr : string) (s : DashboardState) : result string () * DashboardState :=
  let addr := trim addr in
  request_listener addr
    (if bool_decide (addr ∈ ds_listeners s)
     then Some ("listener " +:+ addr +:+ " is already active") else None)
    "bind" (AddListener addr) ("requested ingress activation for " +:+ addr) s.

Definition remove_listener (addr : string) (s : DashboardState) : result string () * DashboardState :=
  let addr := trim addr in
  request_listener addr
    (if bool_decide (addr ∈ ds_listeners s)
     then None else Some ("listener " +:+ addr +:+ " is not active"))
    "removal" (RemoveListener addr) ("requested ingress removal for " +:+ addr) s.

(** ** accessors.rs *)

Definition wrapping_succ (z : Z) : Z := as_u64 (z + 1).

Definition commit_avatar_profile (profile : AvatarReactionProfile) (s : DashboardState) : DashboardState :=
  let old := ds_avatar_profile s in
  let same := profile_eqb old profile in
  let reload_model := negb (bool_decide (model_path old = model_path profile))
                      || negb (bool_decide (animation_paths old = animation_paths profile)) || same in
  let s := push_event "settings"
             (if same then "character reaction profile saved"
              else "character reaction profile changed to " +:+ model_name profile) s in
  let s := set_avatar_profile_revision (wrapping_succ (ds_avatar_profile_revision s))
             (set_avatar_profile profile s) in
  if reload_model
  then set_avatar_model_revision (wrapping_succ (ds_avatar_model_revision s)) s else s.

Definition dash_set_avatar_profile (profile : AvatarReactionProfile) (s : DashboardState)
    : result string () * DashboardState :=
  match normalized profile with
  | Err e => (Err e, s)
  | Ok profile =>
    match ds_storage s with
    | None => (Err "state storage is unavailable; character profile was not applied", s)
    | Some st =>
      match ds_pending_avatar_profile s with
      | Some _ => (Err "a character profile save is already in progress", s)
      | None =>
        match queue_avatar_profile_save profile st with
        | Err e => (Err e, s)
        | Ok st => (Ok (), set_pending_avatar_profile (Some profile) (set_storage (Some st) s))
        end
      end
    end
  end.

(** [received] is what [try_recv] finds in the channel of the pending save. *)
Definition poll_avatar_profile_save (received : TryRecv (result string ())) (s : DashboardState)
    : option (result string ()) * DashboardState :=
  match ds_pending_avatar_profile s with
  | None => (None, s)
  | Some profile =>
    let finish (r : result string ()) :=
      let s := set_pending_avatar_profile None s in
      match r with
      | Ok _ => (Some (Ok ()), commit_avatar_profile profile s)
      | Err e => (Some (Err e), push_event "settings" ("character profile save failed: " +:+ e) s)
      end in
    match received with
    | Received r => finish r
    | RecvEmpty => (None, s)
    | RecvDisconnected => finish (Err "character profile save result channel disconnected")
    end
  end.

Definition push_settings_error (message : string) : DashboardState → DashboardState :=
  push_event "settings" message.

Definition toggle_alerts (enabled : bool) (s : DashboardState) : DashboardState :=
  if bool_decide (ds_alerts_enabled s = enabled) then s
  else
    let s := set_alerts_enabled enabled s in
    if enabled then push_event "settings" "alerts enabled" s
    else
      let s := set_alerts (alert_clear (ds_alerts s)) s in
      let '(cleared, edges) := clear_severities (λ i, rd_system_ms (clock (ds_ticks s + i)%nat)) (ds_edges s) in
      let s := tick (length cleared) (set_edges edges s) in
      push_event "settings" "alerts disabled" (foldl (λ s edge, persist_edge edge s) s cleared).

Definition alert_summary (s : DashboardState) : AlertSummary :=
  let summary := alert_store_summary (ds_alerts s) in
  {| as_enabled := ds_alerts_enabled s;
     as_active_count := if ds_alerts_enabled s then as_active_count summary else 0;
     as_highest_severity := if ds_alerts_enabled s then as_highest_severity summary else None |}.

Definition node_signal_count (node : NodeSummary) : Z :=
  as_u64 (ns_metric_points node + ns_spans node + ns_log_records node).

Definition count_node (s : DashboardState) (sum : OperationalSummary) (node : NodeSummary)
    : OperationalSummary :=
  let bump (online pending warning critical : Z) :=
    {| os_agents := os_agents sum; os_listeners := os_listeners sum;
       os_online := os_online sum + online; os_pending := os_pending sum + pending;
       os_warning := os_warning sum + warning; os_critical := os_critical sum + critical;
       os_storage_enabled := os_storage_enabled sum |} in
  match edge_get (ds_edges s) (ns_endpoint node) (ns_node node) ≫= ed_severity with
  | Some Critical => bump 0 0 0 1
  | Some Warning => bump 0 0 1 0
  | None => if node_signal_count node =? 0 then bump 0 1 0 0 else bump 1 0 0 0
  end.

Definition operational_summary (s : DashboardState) : OperationalSummary :=
  foldl (count_node s)
    {| os_agents := zlen (map_to_list (ds_nodes s)); os_listeners := Z.of_nat (size (ds_listeners s));
       os_online := 0; os_pending := 0; os_warning := 0; os_critical := 0;
       os_storage_enabled := bool_decide (is_Some (ds_storage s)) |}
    (btree_iter (ds_nodes s)).*2.

(** ** Starting: storage/mod.rs, [DashboardState::new] *)

Record NativeStorageRestore := {
  nr_restored_edges : list PersistedEdgeState;
  nr_avatar_profile : option AvatarReactionProfile;
  nr_avatar_profile_warning : option string;
}.
Record StorageInit := {
  si_storage : option StateStorage;
  si_restored_edges : list PersistedEdgeState;
  si_avatar_profile : option AvatarReactionProfile;
  si_message : option string;
}.

(** What arrives on the channel of the worker's start-up within the timeout:
    its answer, or the text of the receive error. *)
Definition start_at (path : string) (answer : result string (result string NativeStorageRestore))
    : StorageInit :=
  let disabled message :=
    {| si_storage := None; si_restored_edges := []; si_avatar_profile := None;
       si_message := Some message |} in
  match answer with
  | Ok (Ok restored) =>
    {| si_storage := Some {| ss_sent := []; ss_saves := []; ss_gone := false |};
       si_restored_edges := nr_restored_edges restored;
       si_avatar_profile := nr_avatar_profile restored;
       si_message := Some (match nr_avatar_profile_warning restored with
                           | Some warning => "state db ready at " +:+ path +:+ "; " +:+ warning
                           | None => "state db ready at " +:+ path
                           end) |}
  | Ok (Err error) => disabled ("state db disabled: " +:+ error)
  | Err error => disabled ("state db startup timed out: " +:+ error)
  end.

(** [run_storage] up to its loop: what it answers when the runtime, the pool,
    the schema and the edges are there or fail with an error. *)
Definition run_storage_init `{StorageApi} (runtime : result string ()) (open : result string Pool)
    (schema edges : result string ()) : result string NativeStorageRestore :=
  _ ← map_err (λ e, "failed to start sqlite runtime: " +:+ e) runtime;
  pool ← open;
  _ ← schema;
  _ ← edges;
  let restored_edges := load_edge_states pool in
  Ok match load_avatar_profile pool with
     | Ok profile =>
       {| nr_restored_edges := restored_edges; nr_avatar_profile := profile;
          nr_avatar_profile_warning := None |}
     | Err error =>
       {| nr_restored_edges := restored_edges; nr_avatar_profile := None;
          nr_avatar_profile_warning := Some ("avatar reaction profile ignored: " +:+ error) |}
     end.

Definition node_entries (nodes : list NodeSummary) : gmap string NodeSummary :=
  foldl (λ m node, <[edge_key (ns_endpoint node) (ns_node node) := node]> m) ∅ nodes.

Definition dashboard_new (rc : nat → RestoreClock) (init : StorageInit) : DashboardState :=
  let avatar_profile :=
    default default_profile (si_avatar_profile init ≫= λ profile, result_ok (normalized profile)) in
  let '(restored_nodes, edge_decorations) := restore rc no_edges (si_restored_edges init) in
  let s :=
    {| ds_status := Starting; ds_listening_label := None; ds_counters := no_signals; ds_events := [];
       ds_metrics := []; ds_metric_history := ∅; ds_nodes := node_entries restored_nodes;
       ds_edges := edge_decorations; ds_alerts := no_alerts; ds_alerts_enabled := true;
       ds_avatar_profile := avatar_profile; ds_avatar_profile_revision := 0;
       ds_avatar_model_revision := 0; ds_pending_avatar_profile := None;
       ds_storage := si_storage init; ds_listeners := ∅; ds_ingress_control := None; ds_ticks := 0 |} in
  match si_message init with Some message => push_event "storage" message s | None => s end.

(** ** Runs of operations *)

Inductive DashboardOp :=
| OpDrain (messages : list IngressMessage)
| OpRegisterAgent (endpoint node service : string)
| OpRemoveAgent (key : string)
| OpAddListener (addr : string)
| OpRemoveListener (addr : string)
| OpSetIngress (control : IngressControl)
| OpSetAvatarProfile (profile : AvatarReactionProfile)
| OpPollAvatarProfile (received : TryRecv (result string ()))
| OpSettingsError (message : string)
| OpToggleAlerts (enabled : bool)
| OpStorageGone.   (* the worker's thread ends: its channels close *)

Definition storage_gone (st : StateStorage) : StateStorage :=
  {| ss_sent := ss_sent st; ss_saves := ss_saves st; ss_gone := true |}.

Definition apply_op (s : DashboardState) (op : DashboardOp) : DashboardState :=
  match op with
  | OpDrain messages => drain_ingress messages s
  | OpRegisterAgent endpoint node service => (register_agent endpoint node service s).2
  | OpRemoveAgent key => (remove_agent key s).2
  | OpAddListener addr => (add_listener addr s).2
  | OpRemoveListener addr => (remove_listener addr s).2
  | OpSetIngress control => set_ingress control s
  | OpSetAvatarProfile profile => (dash_set_avatar_profile profile s).2
  | OpPollAvatarProfile received => (poll_avatar_profile_save received s).2
  | OpSettingsError message => push_settings_error message s
  | OpToggleAlerts enabled => toggle_alerts enabled s
  | OpStorageGone => set_storage (storage_gone <$> ds_storage s) s
  end.
Definition run_ops : DashboardState → list DashboardOp → DashboardState := foldl apply_op.
End dashboard.
