(* ===== verification/FeDashInv.v ===== *)
(** * Invariants of the dashboard

    [dashboard_inv] holds of every state the dashboard reaches: the buffers
    stay within their capacities, the nodes and the edge decorations have the
    same keys, a switched-off alert store is silent, and the commands sent to
    the storage make its edge table the persisted form of the decorations. *)

From S2P Require Import Prelude RustStr Otlp RustFloat FeFormat FeSignal FeAlert FeEdge FeProfile FeStorage FeDashboard.

(** The row a decoration is persisted as. *)
Definition persisted_row (d : EdgeSignalDecoration) : EdgeRow := edge_row (to_persisted d).

(** The edge table after the commands. *)
Definition edge_table (p : Pool) (commands : list StorageCommand) : gmap string EdgeRow :=
  edge_state (pool_db (handle_all p commands)).

Definition node_keyed (k : string) (n : NodeSummary) : Prop := edge_key (ns_endpoint n) (ns_node n) = k.

(** No alert and no severity is left. *)
Definition quiet (s : DashboardState) : Prop :=
  active (ds_alerts s) = ∅ ∧ map_Forall (λ _ d, ed_severity d = None) (rows (ds_edges s)).

(** Started on the pool [p0], whose statements succeed. *)
Definition mirrored (p0 : Pool) (s : DashboardState) : Prop :=
  match ds_storage s with
  | Some st => ss_gone st = false → edge_table p0 (ss_sent st) = persisted_row <$> rows (ds_edges s)
  | None => True
  end.

Definition buffers_ok (s : DashboardState) : Prop :=
  zlen (ds_events s) ≤ MAX_EVENTS ∧ zlen (ds_metrics s) ≤ MAX_METRICS ∧
  map_Forall (λ _ h, 0 < zlen h ≤ MAX_HISTORY_POINTS) (ds_metric_history s).

(** What a node and its decoration have in common. *)
Definition node_facts (n : NodeSummary) :=
  (ns_endpoint n, ns_node n, ns_source n, ns_service n, ns_metric_points n, ns_spans n, ns_log_records n, ns_last_metric n, ns_last_value n).
Definition edge_facts (d : EdgeSignalDecoration) :=
  (ed_endpoint d, ed_node d, ed_source d, ed_service d, ed_metric_points d, ed_spans d, ed_log_records d, ed_last_metric d, ed_last_value d).

Definition edges_ok (s : DashboardState) : Prop :=
  edges_wf (ds_edges s) ∧ map_Forall node_keyed (ds_nodes s) ∧ node_facts <$> ds_nodes s = edge_facts <$> rows (ds_edges s).

Record dashboard_inv (p0 : Pool) (s : DashboardState) : Prop := {
  di_buffers : buffers_ok s;
  di_edges : edges_ok s;
  di_alerts : alerts_wf (ds_alerts s);
  di_quiet : ds_alerts_enabled s = false → quiet s;
  di_mirrored : mirrored p0 s;
}.

(** ** The edge table *)

Section table.
Context (p0 : Pool) (Hp0 : pool_outcomes p0 = []).

Lemma edge_table_upsert cs e : edge_table p0 (cs ++ [UpsertEdge e]) = <[pe_key e := edge_row e]> (edge_table p0 cs).
Proof.
  unfold edge_table. rewrite handle_all_snoc. simpl. unfold upsert_edge_state.
  by rewrite execute_ok by (by apply handle_all_ok).
Qed.
Lemma edge_table_delete cs k : edge_table p0 (cs ++ [DeleteEdge k]) = delete k (edge_table p0 cs).
Proof.
  unfold edge_table. rewrite handle_all_snoc. simpl. unfold delete_edge_state.
  by rewrite execute_ok by (by apply handle_all_ok).
Qed.
Lemma edge_table_alert cs a : edge_table p0 (cs ++ [RecordAlert a]) = edge_table p0 cs.
Proof.
  unfold edge_table. rewrite handle_all_snoc. simpl. unfold record_alert.
  rewrite execute_ok by (by apply handle_all_ok). simpl.
  by destruct (ar_status a).
Qed.

(** ** Parts of the state an operation leaves alone *)

(** [s'] differs from [s] in nothing the invariant speaks of. *)
Definition same_view (s s' : DashboardState) : Prop :=
  ds_events s' = ds_events s ∧ ds_metrics s' = ds_metrics s ∧
  ds_metric_history s' = ds_metric_history s ∧ ds_nodes s' = ds_nodes s ∧ ds_edges s' = ds_edges s ∧
  ds_alerts s' = ds_alerts s ∧ ds_alerts_enabled s' = ds_alerts_enabled s ∧
  (ss_sent <$> ds_storage s') = (ss_sent <$> ds_storage s) ∧
  (∀ st, ds_storage s' = Some st → ss_gone st = false → ss_gone <$> ds_storage s = Some false).

Lemma same_view_inv s s' : same_view s s' → dashboard_inv p0 s → dashboard_inv p0 s'.
Proof.
  intros (H1 & H2 & H3 & H4 & H5 & H6 & H7 & H8 & H9) [Hb He Ha Hq Hm].
  split; unfold buffers_ok, edges_ok, quiet in *; rewrite ?H1, ?H2, ?H3, ?H4, ?H5, ?H6, ?H7; try done.
  unfold mirrored in *. rewrite H5. destruct (ds_storage s') as [st|] eqn:E; [|done].
  destruct (ds_storage s) as [st0|] eqn:E0; simpl in *; [|done]. intros Hg.
  injection H8 as ->. apply Hm. specialize (H9 _ eq_refl Hg). by injection H9.
Qed.

Context (clock : nat → Reading) (local : Z → option string).

Lemma push_event_inv kind m s : dashboard_inv p0 s → dashboard_inv p0 (push_event clock local kind m s).
Proof.
  intros [(Hb1 & Hb2 & Hb3) He Ha Hq Hm]. split; try done. split_and!; simpl; try done.
  apply push_capped_length; [done|done].
Qed.

(** Sending a command. *)
Lemma send_mirrored c s (f : gmap string EdgeRow → gmap string EdgeRow) e' :
  mirrored p0 s → (∀ cs, edge_table p0 (cs ++ [c]) = f (edge_table p0 cs)) →
  f (persisted_row <$> rows (ds_edges s)) = persisted_row <$> rows e' →
  ∀ s', ds_edges s' = e' → ds_storage s' = ds_storage s → mirrored p0 (send_storage c s').
Proof.
  intros Hm Hc Hf s' He Hst. unfold mirrored, send_storage in *. simpl. rewrite Hst, He.
  destruct (ds_storage s) as [st|]; simpl; [|done]. unfold storage_send.
  destruct (ss_gone st) eqn:Hg; simpl; [congruence|]. intros _. by rewrite Hc, Hm, Hf.
Qed.

Lemma persist_alert_inv change s : dashboard_inv p0 s → dashboard_inv p0 (persist_alert clock change s).
Proof.
  intros [Hb He Ha Hq Hm]. unfold persist_alert. destruct (ds_storage s) as [st|] eqn:E; [|done].
  split; try done. eapply (send_mirrored _ s id); [done|intros; apply edge_table_alert|done|done|done].
Qed.

Lemma push_alert_change_inv change s :
  dashboard_inv p0 s → dashboard_inv p0 (push_alert_change clock local change s).
Proof. intros H. destruct change; [|done]. by apply push_event_inv, persist_alert_inv. Qed.

(** What an alert observation changes. *)
Lemma push_alert_change_fields change s :
  let s' := push_alert_change clock local change s in
  ds_alerts s' = ds_alerts s ∧ ds_alerts_enabled s' = ds_alerts_enabled s ∧ ds_edges s' = ds_edges s ∧
  ds_nodes s' = ds_nodes s ∧ ds_metrics s' = ds_metrics s ∧ ds_metric_history s' = ds_metric_history s ∧
  ds_counters s' = ds_counters s ∧ ds_listening_label s' = ds_listening_label s.
Proof.
  destruct change as [c|]; [|done]. simpl. unfold persist_alert. by destruct (ds_storage s).
Qed.

Lemma observe_alert_fields o s :
  let s' := observe_alert clock local o s in
  ds_alerts s' = (observe (ds_alerts s) o).2 ∧ ds_alerts_enabled s' = ds_alerts_enabled s ∧
  ds_edges s' = ds_edges s ∧ ds_nodes s' = ds_nodes s ∧ ds_metrics s' = ds_metrics s ∧
  ds_metric_history s' = ds_metric_history s ∧ ds_counters s' = ds_counters s ∧
  ds_listening_label s' = ds_listening_label s.
Proof.
  unfold observe_alert. destruct (observe (ds_alerts s) o) as [c a].
  apply (push_alert_change_fields c (set_alerts a s)).
Qed.

Lemma observe_alert_inv o s : ds_alerts_enabled s = true → dashboard_inv p0 s →
  dashboard_inv p0 (observe_alert clock local o s).
Proof.
  intros Hen [Hb He Ha Hq Hm]. unfold observe_alert. destruct (observe (ds_alerts s) o) as [c a] eqn:E.
  apply push_alert_change_inv. split; try done; simpl; [|congruence].
  pose proof (observe_step (ds_alerts s) o Ha) as [H _]. by rewrite E in H.
Qed.

Lemma observe_alerts_inv os s : dashboard_inv p0 s → dashboard_inv p0 (observe_alerts clock local os s).
Proof.
  unfold observe_alerts. destruct (ds_alerts_enabled s) eqn:Hen; [|done].
  revert s Hen. induction os as [|o os IH]; intros s Hen Hi; simpl; [done|].
  apply IH; [by rewrite (proj1 (proj2 (observe_alert_fields o s)))|by apply observe_alert_inv].
Qed.

(** ** Nodes and decorations *)

Lemma persisted_insert k d e : persisted_row <$> <[k := d]> (rows e) = <[k := persisted_row d]> (persisted_row <$> rows e).
Proof. apply fmap_insert. Qed.

Lemma store_node_inv key entry kind s : dashboard_inv p0 s → node_keyed key entry →
  dashboard_inv p0 (store_node clock key entry kind s).
Proof.
  intros [Hb (Hew & Hnk & Hdom) Ha Hq Hm] Hk. unfold node_keyed in Hk. unfold store_node.
  pose proof (observe_node_wf (rd_system_ms (clock (S (ds_ticks s)))) (ds_edges s) entry kind Hew) as Hw.
  unfold observe_node in *. rewrite Hk in *. cbv beta iota zeta in *.
  set (d := Build_EdgeSignalDecoration _ _ _ _ _ _ _ _ _ _ _ _ _ _) in *. cbn [snd] in Hw.
  assert (ed_key d = key) as Hdk by (apply (Hw key d), lookup_insert_eq).
  assert (pe_key (to_persisted d) = key) as Hpk by exact Hdk.
  split; try done.
  - split_and!; [done| |]; simpl.
    + by apply map_Forall_insert_2.
    + by rewrite !fmap_insert, Hdom.
  - intros Hen. destruct (Hq Hen) as [Hqa Hqs]. split; simpl; [done|].
    apply map_Forall_insert_2; [|done]. simpl. destruct (rows (ds_edges s) !! key) as [d0|] eqn:E; [|done].
    by apply (Hqs key d0).
  - eapply (send_mirrored _ s (<[pe_key (to_persisted d) := edge_row (to_persisted d)]>)
      (mkEdges (<[key := d]> (rows (ds_edges s)))));
      [done|intros; apply edge_table_upsert| |reflexivity|reflexivity].
    cbn [rows]. rewrite fmap_insert. by rewrite Hpk.
Qed.

Lemma update_severity_inv sample s : ds_alerts_enabled s = true → dashboard_inv p0 s →
  dashboard_inv p0 (update_edge_alert_severity clock sample s).
Proof.
  intros Hen [Hb (Hew & Hnk & Hdom) Ha Hq Hm]. unfold update_edge_alert_severity.
  set (now := rd_system_ms _). set (sev := highest_for_node _ _ _).
  pose proof (set_node_severity_wf now (ds_edges s) (ms_endpoint sample) (ms_node sample) sev Hew) as Hw.
  unfold set_node_severity in *. set (key := edge_key _ _) in *.
  destruct (rows (ds_edges s) !! key) as [d|] eqn:E; cbn [snd] in Hw.
  - assert (pe_key (to_persisted (with_severity now sev d)) = key) as Hpk by apply (Hew key d E).
    split; try done; simpl.
    + split_and!; [done..|simpl]. rewrite fmap_insert, insert_id; [done|]. by rewrite lookup_fmap, E.
    + congruence.
    + eapply (send_mirrored _ s (<[pe_key (to_persisted (with_severity now sev d)) :=
          edge_row (to_persisted (with_severity now sev d))]>)
        (mkEdges (<[key := with_severity now sev d]> (rows (ds_edges s)))));
        [done|intros; apply edge_table_upsert| |reflexivity|reflexivity].
      cbn [rows]. rewrite fmap_insert. by rewrite Hpk.
  - by split.
Qed.

Lemma push_history_inv sample s : dashboard_inv p0 s → dashboard_inv p0 (push_history sample s).
Proof.
  intros [(Hb1 & Hb2 & Hb3) He Ha Hq Hm]. unfold push_history.
  destruct (ms_numeric sample) as [v|]; [|done]. split; try done. split_and!; simpl; try done.
  apply map_Forall_insert_2; [|done]. split.
  - unfold push_capped. rewrite zlen_app, zlen_cons. pose proof (zlen_nonneg (@nil f64)).
    pose proof (zlen_nonneg (if MAX_HISTORY_POINTS <=? zlen (default [] (ds_metric_history s !! ms_trend_key sample))
      then tail (default [] (ds_metric_history s !! ms_trend_key sample))
      else default [] (ds_metric_history s !! ms_trend_key sample))). lia.
  - apply push_capped_length; [done|]. destruct (ds_metric_history s !! ms_trend_key sample) as [h|] eqn:E; simpl.
    + apply (Hb3 _ h E).
    + done.
Qed.

Lemma push_history_fields sample s :
  let s' := push_history sample s in
  ds_alerts s' = ds_alerts s ∧ ds_alerts_enabled s' = ds_alerts_enabled s ∧ ds_edges s' = ds_edges s ∧
  ds_nodes s' = ds_nodes s ∧ ds_metrics s' = ds_metrics s ∧ ds_counters s' = ds_counters s.
Proof. unfold push_history. by destruct (ms_numeric sample). Qed.

Lemma store_node_fields key entry kind s :
  let s' := store_node clock key entry kind s in
  ds_alerts s' = ds_alerts s ∧ ds_alerts_enabled s' = ds_alerts_enabled s ∧
  ds_nodes s' = <[key := entry]> (ds_nodes s) ∧ ds_metrics s' = ds_metrics s ∧
  ds_metric_history s' = ds_metric_history s ∧ ds_counters s' = ds_counters s ∧
  ds_listening_label s' = ds_listening_label s.
Proof. done. Qed.

Lemma ingest_sample_inv s sample : dashboard_inv p0 s → dashboard_inv p0 (ingest_sample clock local s sample).
Proof.
  intros Hi. unfold ingest_sample. set (s1 := push_history _ _).
  assert (dashboard_inv p0 s1) as H1 by (by apply push_history_inv, store_node_inv).
  clearbody s1. set (s2 := if ds_alerts_enabled s1 then _ else _).
  assert (dashboard_inv p0 s2) as H2.
  { subst s2. destruct (ds_alerts_enabled s1) eqn:Hen; [|done].
    apply update_severity_inv; [|by apply observe_alert_inv].
    by rewrite (proj1 (proj2 (observe_alert_fields _ _))). }
  clearbody s2. destruct H2 as [(Hb1 & Hb2 & Hb3) He Ha Hq Hm]. split; try done.
  split_and!; simpl; try done. by apply push_capped_length.
Qed.

Lemma items_entry_keyed now l kind count s : dashboard_inv p0 s →
  node_keyed (edge_key l l) (items_entry now l kind count (ds_nodes s !! edge_key l l)).
Proof.
  intros Hi. unfold node_keyed. simpl. destruct (ds_nodes s !! edge_key l l) as [n|] eqn:E; simpl; [|done].
  apply (proj1 (proj2 (di_edges _ _ Hi)) _ _ E).
Qed.

Lemma set_counters_inv c s : dashboard_inv p0 s → dashboard_inv p0 (set_counters c s).
Proof. apply same_view_inv. split_and!; try done. simpl. by intros st -> <-. Qed.
Lemma set_status_inv c s : dashboard_inv p0 s → dashboard_inv p0 (set_status c s).
Proof. apply same_view_inv. split_and!; try done. simpl. by intros st -> <-. Qed.

Lemma ingest_signal_inv l signal s : dashboard_inv p0 s → dashboard_inv p0 (ingest_signal clock local l signal s).
Proof.
  intros Hi. unfold ingest_signal. destruct signal as [r|r|r]; apply push_event_inv.
  - assert (∀ samples s, dashboard_inv p0 s → dashboard_inv p0 (foldl (ingest_sample clock local) s samples)) as Hf.
    { intros samples. induction samples; intros s0 H0; simpl; [done|]. by apply IHsamples, ingest_sample_inv. }
    by apply Hf, set_counters_inv.
  - by apply store_node_inv, items_entry_keyed; apply set_counters_inv.
  - by apply store_node_inv, items_entry_keyed; apply set_counters_inv.
Qed.

Lemma observe_message_inv s m : dashboard_inv p0 s → dashboard_inv p0 (observe_message clock local s m).
Proof.
  intros Hi. destruct m as [addrs|l sig|l e|e]; simpl.
  - apply observe_alerts_inv, push_event_inv. revert Hi. apply same_view_inv.
    split_and!; try done. simpl. by intros st -> <-.
  - apply ingest_signal_inv, observe_alerts_inv. destruct (ds_listening_label s); [by apply set_status_inv|done].
  - unfold dash_receiver_error. set (s1 := observe_alerts _ _ _ _).
    assert (dashboard_inv p0 s1) by (by apply observe_alerts_inv, push_event_inv).
    destruct (ds_listening_label s1); [done|by apply set_status_inv].
  - by apply observe_alerts_inv, push_event_inv.
Qed.

Lemma drain_ingress_inv ms s : dashboard_inv p0 s → dashboard_inv p0 (drain_ingress clock local ms s).
Proof.
  unfold drain_ingress. revert s. induction ms as [|m ms IH]; intros s Hi; simpl; [done|].
  by apply IH, observe_message_inv.
Qed.
End table.
