(* ===== verification/FeDashRun.v ===== *)
(** * Runs of the dashboard

    The remaining operations keep [dashboard_inv]; a start establishes it; and
    a restart on the state a run has persisted restores the same edges. *)

From stdpp Require Import sorting.
From S2P Require Import Prelude RustStr Otlp RustFloat FeFormat FeSignal FeAlert FeEdge FeProfile FeStorage FeDashboard FeDashInv.

(** ** Clearing the severities *)

Definition upsert_all (m : gmap string EdgeRow) (l : list PersistedEdgeState) : gmap string EdgeRow :=
  foldl (λ m e, <[pe_key e := edge_row e]> m) m l.

(** The entries are rows of [e], each under its own key. *)
Definition entries_of (e : EdgeSignalDecorations) (entries : list (string * EdgeSignalDecoration)) : Prop :=
  NoDup entries.*1 ∧ ∀ k d, (k, d) ∈ entries → rows e !! k = Some d.

Lemma entries_of_insert e k d d' entries :
  entries_of e ((k, d) :: entries) → entries_of (mkEdges (<[k := d']> (rows e))) entries.
Proof.
  intros [Hn He]. simpl in Hn. apply NoDup_cons in Hn as [Hk Hn]. split; [done|].
  intros k1 d1 H1. simpl. rewrite lookup_insert_ne; [apply He; by right|].
  intros <-. apply Hk, list_elem_of_fmap. by exists (k, d1).
Qed.

Lemma clear_rows_spec now i e entries : edges_wf e → entries_of e entries →
  let r := clear_rows now i e entries in
  edges_wf r.2 ∧ dom (rows r.2) = dom (rows e) ∧ edge_facts <$> rows r.2 = edge_facts <$> rows e ∧
  upsert_all (persisted_row <$> rows e) r.1 = persisted_row <$> rows r.2 ∧
  (∀ k, k ∈ entries.*1 → ed_severity <$> rows r.2 !! k = Some None) ∧
  (∀ k, k ∉ entries.*1 → rows r.2 !! k = rows e !! k).
Proof.
  revert i e. induction entries as [|[k d] entries IH]; intros i e Hw Hent; simpl.
  { split_and!; try done. intros k Hk. by apply elem_of_nil in Hk. }
  assert (rows e !! k = Some d) as Hd by (apply Hent; by left).
  assert (k ∉ entries.*1) as Hk by (destruct Hent as [[? ?]%NoDup_cons _]; done).
  destruct (ed_severity d) as [sev|] eqn:Es.
  - set (d' := with_severity (now i) None d). set (e1 := mkEdges (<[k := d']> (rows e))).
    assert (edges_wf e1) as Hw1 by (apply map_Forall_insert_2; [apply (Hw k d Hd)|done]).
    destruct (IH (S i) e1 Hw1 (entries_of_insert e k d d' entries Hent)) as (Hwr & Hdr & Hfr & Hur & Hsr & Hor).
    destruct (clear_rows now (S i) e1 entries) as [cl e2]. simpl in *. split_and!.
    + done.
    + rewrite Hdr, dom_insert_L. apply elem_of_dom_2 in Hd. set_solver.
    + rewrite Hfr, fmap_insert, insert_id; [done|]. by rewrite lookup_fmap, Hd.
    + rewrite <-Hur, fmap_insert. change (pe_key (to_persisted d')) with (ed_key d).
      by rewrite (proj1 (Hw k d Hd)).
    + intros k1 [->|H1]%elem_of_cons; [|by apply Hsr]. rewrite Hor by done.
      by rewrite lookup_insert_eq.
    + intros k1 [Hne Hni]%not_elem_of_cons. rewrite Hor by done. by rewrite lookup_insert_ne.
  - assert (entries_of e entries) as He1.
    { destruct Hent as [Hn He]. simpl in Hn. apply NoDup_cons in Hn as [_ Hn].
      split; [done|]. intros k1 d1 H1. apply He. by right. }
    destruct (IH i e Hw He1) as (Hwr & Hdr & Hfr & Hur & Hsr & Hor). split_and!; try done.
    + intros k1 [->|H1]%elem_of_cons; [|by apply Hsr]. rewrite Hor by done. by rewrite Hd; simpl; rewrite Es.
    + intros k1 [Hne Hni]%not_elem_of_cons. by apply Hor.
Qed.

Lemma btree_iter_entries e : entries_of e (btree_iter (rows e)).
Proof.
  split; [|intros k d; apply elem_of_btree_iter].
  unfold btree_iter. rewrite merge_sort_Permutation. apply NoDup_fst_map_to_list.
Qed.

Lemma clear_severities_spec now e : edges_wf e →
  let r := clear_severities now e in
  edges_wf r.2 ∧ edge_facts <$> rows r.2 = edge_facts <$> rows e ∧
  upsert_all (persisted_row <$> rows e) r.1 = persisted_row <$> rows r.2 ∧
  map_Forall (λ _ d, ed_severity d = None) (rows r.2).
Proof.
  intros Hw. destruct (clear_rows_spec now 0 e _ Hw (btree_iter_entries e)) as (H1 & H2 & Hf & H3 & H4 & H5).
  split_and!; [done..|]. intros k d Hk. fold (clear_severities now e) in *.
  destruct (decide (k ∈ (btree_iter (rows e)).*1)) as [Hi|Hi].
  - specialize (H4 k Hi). rewrite Hk in H4. by injection H4.
  - destruct Hi. apply elem_of_dom_2 in Hk. rewrite H2 in Hk. apply elem_of_dom in Hk as [d0 Hd0].
    apply list_elem_of_fmap. exists (k, d0). split; [done|]. by apply elem_of_btree_iter.
Qed.

Section run.
Context (p0 : Pool) (Hp0 : pool_outcomes p0 = []).
Context (clock : nat → Reading) (local : Z → option string).

Lemma edge_table_upserts cs l : edge_table p0 (cs ++ (UpsertEdge <$> l)) = upsert_all (edge_table p0 cs) l.
Proof.
  revert cs. induction l as [|e l IH]; intros cs; simpl; [by rewrite app_nil_r|].
  rewrite cons_middle, app_assoc, IH. by rewrite edge_table_upsert.
Qed.

Lemma persist_edges_storage l s : ds_storage (foldl (λ s edge, persist_edge edge s) s l) =
  (λ st, if ss_gone st then st else
     {| ss_sent := ss_sent st ++ (UpsertEdge <$> l); ss_saves := ss_saves st; ss_gone := false |})
  <$> ds_storage s.
Proof.
  revert s. induction l as [|e l IH]; intros s; simpl.
  - destruct (ds_storage s) as [[sent saves []]|]; simpl; [done| |done]. by rewrite app_nil_r.
  - rewrite IH. simpl. destruct (ds_storage s) as [[sent saves []]|]; simpl; [done| |done].
    by rewrite <-app_assoc.
Qed.

Lemma persist_edges_fields l s : let s' := foldl (λ s edge, persist_edge edge s) s l in
  ds_events s' = ds_events s ∧ ds_metrics s' = ds_metrics s ∧
  ds_metric_history s' = ds_metric_history s ∧ ds_nodes s' = ds_nodes s ∧ ds_edges s' = ds_edges s ∧
  ds_alerts s' = ds_alerts s ∧ ds_alerts_enabled s' = ds_alerts_enabled s.
Proof. revert s. induction l as [|e l IH]; intros s; [done|]. apply (IH (persist_edge e s)). Qed.

Lemma toggle_alerts_inv enabled s : dashboard_inv p0 s → dashboard_inv p0 (toggle_alerts clock local enabled s).
Proof.
  intros Hi. unfold toggle_alerts. case_bool_decide as Hen; [done|].
  destruct enabled.
  { apply push_event_inv. destruct Hi as [Hb He Ha Hq Hm]. by split. }
  set (now := λ i, _). cbn [ds_edges set_alerts set_alerts_enabled].
  destruct Hi as [Hb (Hew & Hnk & Hdom) Ha Hq Hm].
  destruct (clear_severities_spec now (ds_edges s) Hew) as (Hw & Hd & Hu & Hs).
  destruct (clear_severities now (ds_edges s)) as [cl e']. simpl in Hw, Hd, Hu, Hs.
  apply push_event_inv. set (s1 := tick _ _).
  pose proof (persist_edges_fields cl s1) as (F1 & F2 & F3 & F4 & F5 & F6 & F7).
  split; unfold buffers_ok, edges_ok, quiet, mirrored; rewrite ?persist_edges_storage, ?F1, ?F2, ?F3, ?F4, ?F5, ?F6, ?F7; subst s1; simpl.
  - done.
  - split_and!; [done..|]. by rewrite Hd.
  - apply map_Forall_empty.
  - done.
  - unfold mirrored in Hm. destruct (ds_storage s) as [[sent saves gone]|]; simpl in *; [|done].
    destruct gone; simpl; [done|]. intros _. by rewrite edge_table_upserts, Hm, Hu.
Qed.

Lemma remove_agent_inv key s : dashboard_inv p0 s → dashboard_inv p0 (remove_agent clock local key s).2.
Proof.
  intros [Hb (Hew & Hnk & Hdom) Ha Hq Hm]. unfold remove_agent.
  destruct (ds_nodes s !! key) as [n|] eqn:E; [|by split]. cbn [snd]. apply push_event_inv.
  split; try done.
  - split_and!; simpl; [by apply edge_remove_wf|by apply map_Forall_delete|].
    by rewrite !fmap_delete, Hdom.
  - intros Hen. destruct (Hq Hen) as [? ?]. split; simpl; [done|by apply map_Forall_delete].
  - eapply (send_mirrored p0 _ s (delete key) (mkEdges (delete key (rows (ds_edges s)))));
      [done|intros; by apply edge_table_delete| |reflexivity|reflexivity].
    cbn [rows]. by rewrite fmap_delete.
Qed.

Lemma register_agent_inv ep n sv s : dashboard_inv p0 s →
  dashboard_inv p0 (register_agent clock local ep n sv s).2.
Proof.
  intros Hi. unfold register_agent. destruct (is_empty (trim ep)); [done|].
  case_bool_decide; [done|]. cbn [snd]. by apply push_event_inv, store_node_inv.
Qed.

Lemma request_listener_inv addr refuse what c m s : dashboard_inv p0 s →
  dashboard_inv p0 (request_listener clock local addr refuse what c m s).2.
Proof.
  intros Hi. unfold request_listener. destruct (if is_empty addr then _ else _); [done|].
  destruct (ds_ingress_control s); [|done]. destruct (control_send _ _ _); [|done].
  cbn [snd]. apply push_event_inv. revert Hi. apply same_view_inv.
  split_and!; try done. simpl. by intros st -> <-.
Qed.

(** Operations on the profile. *)
Lemma profile_ops_inv s p r : dashboard_inv p0 s →
  dashboard_inv p0 (dash_set_avatar_profile p s).2 ∧
  dashboard_inv p0 (poll_avatar_profile_save clock local r s).2.
Proof.
  intros Hi. split.
  - unfold dash_set_avatar_profile. destruct (normalized p); [|done].
    destruct (ds_storage s) as [st|] eqn:E; [|done]. destruct (ds_pending_avatar_profile s); [done|].
    unfold queue_avatar_profile_save. destruct (ss_gone st) eqn:Eg; [done|]. cbn [snd].
    revert Hi. apply same_view_inv. split_and!; try done; simpl; rewrite E; simpl; [done|].
    intros st' [= <-] _. by rewrite Eg.
  - assert (∀ s', same_view s s' → ∀ k m, dashboard_inv p0 (push_event clock local k m s')) as Hs.
    { intros s' Hv k m. apply push_event_inv. by eapply same_view_inv. }
    assert (∀ q, same_view s (set_pending_avatar_profile q s)) as Hp.
    { intros q. split_and!; try done. simpl. by intros st -> <-. }
    assert (∀ q q', dashboard_inv p0 (commit_avatar_profile clock local q (set_pending_avatar_profile q' s))) as Hc.
    { intros q q'. unfold commit_avatar_profile. set (s1 := push_event _ _ _ _ _).
      assert (dashboard_inv p0 s1) as H1 by (by apply Hs).
      destruct (negb _ || _ || _); revert H1; apply same_view_inv; split_and!; try done; simpl;
        by intros st -> <-. }
    unfold poll_avatar_profile_save. destruct (ds_pending_avatar_profile s); [|done].
    destruct r as [[]| |]; simpl; auto.
Qed.

Lemma dash_op_inv s op : dashboard_inv p0 s → dashboard_inv p0 (apply_op clock local s op).
Proof.
  intros Hi. destruct op as [ms|ep n sv|k|a|a|c|p|r|m|b|]; simpl.
  - by apply drain_ingress_inv.
  - by apply register_agent_inv.
  - by apply remove_agent_inv.
  - by apply request_listener_inv.
  - by apply request_listener_inv.
  - revert Hi. apply same_view_inv. split_and!; try done. simpl. by intros st -> <-.
  - by apply (profile_ops_inv s p RecvEmpty).
  - by apply (profile_ops_inv s default_profile r).
  - by apply push_event_inv.
  - by apply toggle_alerts_inv.
  - revert Hi. apply same_view_inv. split_and!; try done; simpl; destruct (ds_storage s); try done.
    by intros st [= <-].
Qed.

Lemma run_ops_inv ops s : dashboard_inv p0 s → dashboard_inv p0 (run_ops clock local s ops).
Proof.
  unfold run_ops. revert s. induction ops as [|op ops IH]; intros s Hi; simpl; [done|].
  by apply IH, dash_op_inv.
Qed.
End run.

(** ** Restoring *)

(** Inserting entries with distinct keys one by one. *)
Lemma foldl_insert_lookup {A B} (f : A → string) (g : A → B) (l : list A) (m : gmap string B) :
  NoDup (f <$> l) →
  (∀ x, x ∈ l → foldl (λ m x, <[f x := g x]> m) m l !! f x = Some (g x)) ∧
  (∀ k, k ∉ f <$> l → foldl (λ m x, <[f x := g x]> m) m l !! k = m !! k).
Proof.
  revert m. induction l as [|y l IH]; intros m Hn; simpl.
  { split; [intros x Hx; by apply elem_of_nil in Hx|done]. }
  apply NoDup_cons in Hn as [Hy Hn]. destruct (IH (<[f y := g y]> m) Hn) as [H1 H2]. split.
  - intros x [->|Hx]%elem_of_cons; [|by apply H1]. rewrite H2 by done. apply lookup_insert_eq.
  - intros k [Hk1 Hk2]%not_elem_of_cons. rewrite H2 by done. by rewrite lookup_insert_ne.
Qed.

Lemma row_edge_row e : row_edge (edge_row e) = e.
Proof. destruct e as [k ep n so sv mp sp lr ls lm lv lu [[]|]]; reflexivity. Qed.

(** A state that a decoration was persisted as. *)
Definition state_ok (st : PersistedEdgeState) : Prop :=
  edge_key (pe_endpoint st) (pe_node st) = pe_key st ∧ ∀ c, to_persisted (from_persisted c st) = st.

Lemma restore_spec c i e states : edges_wf e → Forall state_ok states →
  let r := restore_from c i e states in
  edges_wf r.2 ∧
  to_persisted <$> rows r.2 = foldl (λ m st, <[pe_key st := st]> m) (to_persisted <$> rows e) states ∧
  (∀ m, node_facts <$> m = edge_facts <$> rows e →
    node_facts <$> foldl (λ m n, <[edge_key (ns_endpoint n) (ns_node n) := n]> m) m r.1 = edge_facts <$> rows r.2) ∧
  (∀ k d, rows r.2 !! k = Some d → rows e !! k = Some d ∨ ∃ j st, st ∈ states ∧ d = from_persisted (c j) st).
Proof.
  revert i e. induction states as [|st states IH]; intros i e Hw Hs; [split_and!; try done; by left|].
  apply Forall_cons in Hs as [[Hk Hp] Hs]. simpl. set (e1 := mkEdges _).
  assert (edges_wf e1) as Hw1 by (by apply map_Forall_insert_2).
  destruct (IH (S i) e1 Hw1 Hs) as (H1 & H2 & H3 & H4).
  destruct (restore_from c (S i) e1 states) as [ns e2]. simpl in *. split_and!; [done| | |].
  - rewrite H2, fmap_insert. by rewrite Hp.
  - intros m Hm. apply H3. rewrite Hk, !fmap_insert. by rewrite Hm.
  - intros k d Hd. destruct (H4 k d Hd) as [He|(j & st' & Hin & ->)]; [|right; exists j, st'; split; [by right|done]].
    destruct (decide (k = pe_key st)) as [->|Hne].
    + rewrite lookup_insert_eq in He. injection He as <-. right. exists i, st. split; [by left|done].
    + rewrite lookup_insert_ne in He by done. by left.
Qed.

Lemma node_entries_keyed nodes : map_Forall node_keyed (node_entries nodes).
Proof.
  unfold node_entries. induction nodes as [|n nodes IH] using rev_ind; [apply map_Forall_empty|].
  rewrite foldl_app. by apply map_Forall_insert_2.
Qed.

(** The table of a database: each row is what some decoration was persisted
    as, under its key. *)
Definition table_wf (t : gmap string EdgeRow) : Prop :=
  map_Forall (λ k r, ∃ d, edge_wf k d ∧ edge_counts d ∧ r = persisted_row d) t.

(** What the code relies on of SQLite's ORDER BY. *)
Class OrderLaws `{StorageApi} := {
  order_permutation : ∀ t, order_last_seen_desc t ≡ₚ (map_to_list t).*2;
  order_sorted : ∀ t,
    StronglySorted (λ a b, er_last_seen_unix_ms b ≤ er_last_seen_unix_ms a) (order_last_seen_desc t);
}.

Section restart.
Context `{OrderLaws}.

(** The storage starts on the pool [p]. *)
Definition started (path : string) (p : Pool) : StorageInit :=
  start_at path (Ok (run_storage_init (Ok ()) (Ok p) (Ok ()) (Ok ()))).

Definition small (t : gmap string EdgeRow) : Prop := (size t ≤ 512)%nat.

Lemma loaded_states p : table_wf (edge_state (pool_db p)) → small (edge_state (pool_db p)) →
  let states := load_edge_states p in
  Forall state_ok states ∧ NoDup (pe_key <$> states) ∧
  (∀ st, st ∈ states → edge_state (pool_db p) !! pe_key st = Some (edge_row st)) ∧
  (∀ k r, edge_state (pool_db p) !! k = Some r →
     row_edge r ∈ states ∧ pe_key (row_edge r) = k ∧ edge_row (row_edge r) = r).
Proof.
  set (t := edge_state (pool_db p)). intros Hw Hs. unfold load_edge_states. fold t. cbv zeta.
  rewrite take_ge by (rewrite order_permutation, length_fmap, length_map_to_list; exact Hs).
  assert (∀ r, r ∈ order_last_seen_desc t ↔ ∃ k, t !! k = Some r) as Hin.
  { intros r. rewrite order_permutation, list_elem_of_fmap. split.
    - intros ([k r'] & -> & Hr%elem_of_map_to_list). by exists k.
    - intros [k Hk]. exists (k, r). split; [done|]. by apply elem_of_map_to_list. }
  assert (∀ k r, t !! k = Some r → pe_key (row_edge r) = k ∧ edge_row (row_edge r) = r ∧ state_ok (row_edge r)) as Hrow.
  { intros k r Hr. destruct (Hw k r Hr) as (d & [Hd1 Hd2] & Hc & ->). unfold persisted_row.
    rewrite row_edge_row. split_and!; [done|done|]. split; simpl; [by rewrite Hd1|].
    intros c. by apply to_from_persisted. }
  split_and!.
  - apply Forall_forall. intros st [r [-> [k Hk]%Hin]]%list_elem_of_fmap. by apply (Hrow k r).
  - rewrite <-list_fmap_compose.
    rewrite order_permutation, <-list_fmap_compose.
    replace (_ <$> map_to_list t) with ((map_to_list t).*1); [apply NoDup_fst_map_to_list|].
    apply list_fmap_ext. intros i [k r] Hi. simpl.
    apply list_elem_of_lookup_2, elem_of_map_to_list in Hi. by destruct (Hrow k r Hi).
  - intros st (r & -> & [k Hk]%Hin)%list_elem_of_fmap. destruct (Hrow k r Hk) as (H1 & H2 & _). congruence.
  - intros k r Hr. destruct (Hrow k r Hr) as (H1 & H2 & _). split_and!; [|done..].
    apply list_elem_of_fmap. exists r. split; [done|]. apply Hin. by exists k.
Qed.

(** The decorations a start restores are those the table was made of. *)
Lemma restored_rows rc p : table_wf (edge_state (pool_db p)) → small (edge_state (pool_db p)) →
  let r := restore rc no_edges (load_edge_states p) in
  edges_wf r.2 ∧ persisted_row <$> rows r.2 = edge_state (pool_db p) ∧
  node_facts <$> node_entries r.1 = edge_facts <$> rows r.2 ∧
  map_Forall (λ _ d, edge_counts d) (rows r.2).
Proof.
  intros Hw Hs. destruct (loaded_states p Hw Hs) as (Hok & Hn & Hst & Hrow). unfold restore. cbv zeta.
  destruct (restore_spec rc 0 no_edges (load_edge_states p)) as (H1 & H2 & H3 & H4); [apply map_Forall_empty|done|].
  destruct (restore_from rc 0 no_edges (load_edge_states p)) as [ns e]. cbn [fst snd] in *.
  cbn [rows no_edges] in H2. rewrite fmap_empty in H2.
  destruct (foldl_insert_lookup pe_key id (load_edge_states p) ∅ Hn) as [L1 L2]. unfold id in L1, L2.
  split_and!; [done| |by apply H3; rewrite !fmap_empty|].
  - apply map_eq. intros k.
    assert ((persisted_row <$> rows e) !! k = edge_row <$> ((to_persisted <$> rows e) !! k)) as ->.
    { rewrite !lookup_fmap. by destruct (rows e !! k). }
    rewrite H2. destruct (edge_state (pool_db p) !! k) as [r|] eqn:E.
    + destruct (Hrow k r E) as (Hin & <- & Hr). rewrite L1 by done. simpl. by rewrite Hr.
    + rewrite L2; [by rewrite lookup_empty|]. intros (st & -> & Hin)%list_elem_of_fmap.
      specialize (Hst st Hin). congruence.
  - intros k d Hd. destruct (H4 k d Hd) as [He|(j & st & Hin & ->)]; [by cbn in He; rewrite lookup_empty in He|].
    destruct (Hw _ _ (Hst _ Hin)) as (d0 & _ & (C1 & C2 & C3) & E). unfold persisted_row, edge_row, to_persisted in E. injection E as _ _ _ _ _ E1 E2 E3 _ _ _ _ _.
    rewrite !as_i64_small in E1, E2, E3 by done. unfold edge_counts, in_count in *. simpl. rewrite E1, E2, E3. lia.
Qed.

Context (clock : nat → Reading) (local : Z → option string).

(** The dashboard after a start on [p]. *)
Definition dashboard_on (rc : nat → RestoreClock) (path : string) (p : Pool) : DashboardState :=
  dashboard_new clock local rc (started path p).

Lemma dashboard_on_edges rc path p :
  ds_edges (dashboard_on rc path p) = (restore rc no_edges (load_edge_states p)).2 ∧
  ds_nodes (dashboard_on rc path p) = node_entries (restore rc no_edges (load_edge_states p)).1.
Proof.
  unfold dashboard_on, dashboard_new, started, run_storage_init. simpl.
  destruct (load_avatar_profile p); simpl; by destruct (restore rc no_edges (load_edge_states p)).
Qed.

Lemma dashboard_on_inv rc path p : pool_outcomes p = [] →
  table_wf (edge_state (pool_db p)) → small (edge_state (pool_db p)) →
  dashboard_inv p (dashboard_on rc path p).
Proof.
  intros Ho Hw Hs. destruct (restored_rows rc p Hw Hs) as (H1 & H2 & H3 & _).
  pose proof (node_entries_keyed (restore rc no_edges (load_edge_states p)).1) as H4.
  unfold dashboard_on, dashboard_new, started, run_storage_init. simpl.
  destruct (load_avatar_profile p); simpl; (destruct (restore rc no_edges (load_edge_states p)) as [ns eds];
    cbn [fst snd] in *; apply push_event_inv; split;
    [by split_and!|done|apply map_Forall_empty|done|by intros _]).
Qed.

(** ** Theorems *)

(** Whatever the operator and the ingress do after a start, the dashboard
    keeps its invariant: at most 256 events, 512 metrics and 180 points a
    trend; the same keys for the nodes and their decorations, each
    [endpoint|node]; every active alert firing under its own key; no alert and
    no severity while alerts are off; and, while the storage worker lives, the
    commands sent so far make the edge table exactly the persisted form of
    the decorations. *)
Theorem dashboard_keeps_invariant rc path p ops : pool_outcomes p = [] →
  table_wf (edge_state (pool_db p)) → small (edge_state (pool_db p)) →
  dashboard_inv p (run_ops clock local (dashboard_on rc path p) ops).
Proof. intros Ho Hw Hs. apply run_ops_inv; [done|]. by apply dashboard_on_inv. Qed.

(** The same decoration and the same node, but for the monotonic clock, which
    a new process does not share. *)
Record same_decoration (d d' : EdgeSignalDecoration) : Prop := {
  sd_key : ed_key d' = ed_key d;
  sd_endpoint : ed_endpoint d' = ed_endpoint d;
  sd_node : ed_node d' = ed_node d;
  sd_source : ed_source d' = ed_source d;
  sd_service : ed_service d' = ed_service d;
  sd_points : ed_metric_points d' = ed_metric_points d;
  sd_spans : ed_spans d' = ed_spans d;
  sd_records : ed_log_records d' = ed_log_records d;
  sd_signal : ed_last_signal d' = ed_last_signal d;
  sd_metric : ed_last_metric d' = ed_last_metric d;
  sd_value : ed_last_value d' = ed_last_value d;
  sd_seen : ed_last_seen_unix_ms d' = ed_last_seen_unix_ms d;
  sd_severity : ed_severity d' = ed_severity d;
}.
Record same_node (n n' : NodeSummary) : Prop := {
  sn_endpoint : ns_endpoint n' = ns_endpoint n;
  sn_node : ns_node n' = ns_node n;
  sn_source : ns_source n' = ns_source n;
  sn_service : ns_service n' = ns_service n;
  sn_points : ns_metric_points n' = ns_metric_points n;
  sn_spans : ns_spans n' = ns_spans n;
  sn_records : ns_log_records n' = ns_log_records n;
  sn_metric : ns_last_metric n' = ns_last_metric n;
  sn_value : ns_last_value n' = ns_last_value n;
}.

Lemma persisted_same d d' : edge_counts d → edge_counts d' → to_persisted d' = to_persisted d → same_decoration d d'.
Proof.
  intros (C1 & C2 & C3) (D1 & D2 & D3). unfold to_persisted. rewrite !as_i64_small by done. intros E. injection E. intros. by split.
Qed.
Lemma facts_same n n' : node_facts n' = node_facts n → same_node n n'.
Proof. unfold node_facts. intros E. injection E. intros. by split. Qed.

(** C37: a restart loses no node: after any run, with at most 512 nodes and
    counts below 2^63, whose commands the worker has carried out, a dashboard
    started on the resulting database has the same nodes, and for each of them
    the same decoration: names, counts, last signal, metric and value, the
    time it was last seen and the severity; and the same entry in the list of
    nodes.  Only the monotonic time of the last signal is computed anew. *)
Theorem restart_restores_edges rc rc' path p ops st : pool_outcomes p = [] →
  table_wf (edge_state (pool_db p)) → small (edge_state (pool_db p)) →
  let s := run_ops clock local (dashboard_on rc path p) ops in
  ds_storage s = Some st → ss_gone st = false →
  map_Forall (λ _ d, edge_counts d) (rows (ds_edges s)) → (size (rows (ds_edges s)) ≤ 512)%nat →
  let s' := dashboard_on rc' path (handle_all p (ss_sent st)) in
  ∀ k, option_Forall2 same_decoration (rows (ds_edges s) !! k) (rows (ds_edges s') !! k) ∧
       option_Forall2 same_node (ds_nodes s !! k) (ds_nodes s' !! k).
Proof.
  intros Ho Hw Hs s Hst Hg Hc Hsz.
  assert (dashboard_inv p s) as [_ (Hew & _ & Hfacts) _ _ Hm]
    by (apply run_ops_inv; [done|by apply dashboard_on_inv]).
  unfold mirrored in Hm. rewrite Hst in Hm. specialize (Hm Hg). unfold edge_table in Hm.
  set (p' := handle_all p (ss_sent st)) in *. cbv zeta.
  destruct (restored_rows rc' p') as (H1 & H2 & H3 & H4).
  - rewrite Hm. intros k r Hk. rewrite lookup_fmap in Hk.
    destruct (rows (ds_edges s) !! k) as [d|] eqn:E; simpl in Hk; [|done]. injection Hk as <-.
    exists d. split_and!; [by apply Hew|by eapply Hc|done].
  - unfold small. rewrite Hm, map_size_fmap. done.
  - destruct (dashboard_on_edges rc' path p') as [-> ->]. rewrite Hm in H2. intros k.
    apply (f_equal (lookup k)) in H2, H3, Hfacts. rewrite !lookup_fmap in H2. rewrite !lookup_fmap in H3. rewrite !lookup_fmap in Hfacts.
    set (rows' := rows (restore rc' no_edges (load_edge_states p')).2) in *. set (nodes' := node_entries _) in *. clearbody rows' nodes'.
    destruct (rows (ds_edges s) !! k) as [d|] eqn:E, (rows' !! k) as [d'|] eqn:E'; try done.
    + assert (same_decoration d d') as Hd.
      { apply persisted_same; [by eapply Hc|by eapply H4|]. rewrite <- (row_edge_row (to_persisted d')), <- (row_edge_row (to_persisted d)).
        f_equal. by apply (inj Some) in H2. }
      split; [by constructor|]. destruct (ds_nodes s !! k) as [n|]; [|done]. destruct (nodes' !! k) as [n'|]; [|done]. constructor.
      apply facts_same. apply (inj Some) in H3, Hfacts. rewrite H3, Hfacts.
      destruct Hd. unfold edge_facts. congruence.
    + split; [constructor|]. destruct (ds_nodes s !! k); [done|]. destruct (nodes' !! k); [done|]. constructor.
Qed.
End restart.

(** ** A small run *)

#[local] Instance demo_laws : @OrderLaws demo_storage.
Proof.
  split; intros t; simpl.
  - apply merge_sort_Permutation.
  - apply StronglySorted_merge_sort.
    + intros a b c. unfold newer. lia.
    + intros a b. unfold newer. lia.
Defined.

Definition demo_clock (n : nat) : Reading := {| rd_system_ms := 1700000000000 + Z.of_nat n; rd_instant := Z.of_nat n |}.
Definition demo_restore (n : nat) : RestoreClock :=
  {| rc_now := 1700000000000; rc_instant := 5000; rc_checked_sub := λ a b, Some (a - b) |}.
Definition demo_ops : list DashboardOp := [OpRegisterAgent " 127.0.0.1:9300" "agent-a" ""; OpToggleAlerts false].
Abbreviation demo_run :=
  (run_ops demo_clock (λ _, None)
    (@dashboard_on demo_storage demo_clock (λ _, None) demo_restore "state.db" empty_pool) demo_ops).

Lemma dashboard_keeps_invariant_witness : dashboard_inv empty_pool demo_run.
Proof.
  apply (@dashboard_keeps_invariant demo_storage demo_laws demo_clock (λ _, None) demo_restore "state.db" empty_pool demo_ops).
  - reflexivity.
  - apply map_Forall_empty.
  - unfold small. change (edge_state (pool_db empty_pool)) with (∅ : gmap string EdgeRow).
    rewrite map_size_empty. lia.
Defined.

#[local] Transparent gmap_empty.
#[local] Instance edge_counts_dec d : Decision (edge_counts d).
Proof. unfold edge_counts, in_count. apply _. Defined.

Definition demo_store : StateStorage :=
  match ds_storage demo_run with
  | Some st => st
  | None => {| ss_sent := []; ss_saves := []; ss_gone := true |}
  end.

Definition restarted : DashboardState :=
  @dashboard_on demo_storage demo_clock (λ _, None) demo_restore "state.db" (handle_all empty_pool (ss_sent demo_store)).
(** The agent that was added is there after the restart. *)
Lemma restart_restores_edges_witness :
  is_Some (ds_nodes demo_run !! "127.0.0.1:9300|agent-a") ∧
  option_Forall2 same_node (ds_nodes demo_run !! "127.0.0.1:9300|agent-a") (ds_nodes restarted !! "127.0.0.1:9300|agent-a").
Proof.
  split; [apply (bool_decide_eq_true_1 (is_Some (ds_nodes demo_run !! "127.0.0.1:9300|agent-a"))); vm_refl|].
  apply (@restart_restores_edges demo_storage demo_laws demo_clock (λ _, None) demo_restore demo_restore "state.db"
    empty_pool demo_ops demo_store).
  - reflexivity.
  - apply map_Forall_empty.
  - unfold small. change (edge_state (pool_db empty_pool)) with (∅ : gmap string EdgeRow).
    rewrite map_size_empty. lia.
  - unfold demo_store.
    assert (is_Some (ds_storage demo_run)) as [st E]
      by (apply (bool_decide_eq_true_1 (is_Some (ds_storage demo_run))); vm_refl).
    by rewrite E.
  - vm_refl.
  - apply (bool_decide_eq_true_1 (map_Forall (λ _ d, edge_counts d) (rows (ds_edges demo_run)))). vm_refl.
  - apply (bool_decide_eq_true_1 (size (rows (ds_edges demo_run)) ≤ 512)%nat). vm_refl.
Defined.
