(* ===== verification/FeDashView.v ===== *)
(** * What the dashboard shows

    After a start the dashboard's metrics, trends, counters, node counts and
    alerts are functions of the messages it has drained: the newest samples,
    the totals, and the conditions of FeAlert. *)

From S2P Require Import Prelude RustStr Otlp RustFloat FeFormat FeSignal FeAlert FeEdge FeProfile FeStorage FeDashboard FeDashInv.

(** ** The specification *)

(** The samples of a message ([sampled] of FeSignal). *)
Definition arrived (m : IngressMessage) (samples : list MetricSample) : Prop :=
  match m with MsgSignal listener (Metrics request) => sampled listener request samples | _ => samples = [] end.

Definition observed (m : IngressMessage) (samples : list MetricSample) : list Observation :=
  match m with
  | MsgListening addrs => (λ addr, ObsReceiverRecovered addr "receiver is listening") <$> addrs
  | MsgSignal listener _ =>
    ObsReceiverRecovered listener "receiver received a signal" :: (ObsMetric <$> samples)
  | MsgError listener error => [ObsReceiverError (default "receiver" listener) error]
  | MsgExtensionError error => [ObsExtensionError error]
  end.

(** The numbers of the samples that share a trend key. *)
Definition trend_values (k : string) (samples : list MetricSample) : list f64 :=
  omap (λ sample, if bool_decide (ms_trend_key sample = k) then ms_numeric sample else None) samples.

(** The newest points of a trend, if it has any. *)
Definition trend (k : string) (samples : list MetricSample) : option (list f64) :=
  match trend_values k samples with
  | [] => None
  | values => Some (newest MAX_HISTORY_POINTS values)
  end.

Definition samples_at (k : string) (samples : list MetricSample) : list MetricSample :=
  filter (λ sample, edge_key (ms_endpoint sample) (ms_node sample) = k) samples.

(** The spans and the log records of a request. *)
Definition all_spans (request : ExportTraceServiceRequest) :=
  resource_spans_of request ≫= λ resource, rs_scope_spans resource ≫= ss_spans.
Definition all_records (request : ExportLogsServiceRequest) :=
  resource_logs_of request ≫= λ resource, rl_scope_logs resource ≫= sl_log_records.

(** What a message adds to each of the six counters: metrics, their points,
    traces, spans, logs and log records. *)
Definition counted (m : IngressMessage) (samples : list MetricSample) : SignalCounters :=
  match m with
  | MsgSignal _ (Metrics _) => Build_SignalCounters 1 (zlen samples) 0 0 0 0
  | MsgSignal _ (Traces request) => Build_SignalCounters 0 0 1 (zlen (all_spans request)) 0 0
  | MsgSignal _ (Logs request) => Build_SignalCounters 0 0 0 0 1 (zlen (all_records request))
  | _ => Build_SignalCounters 0 0 0 0 0 0
  end.
Definition total (f : SignalCounters → Z) (ms : list IngressMessage) (groups : list (list MetricSample)) : Z :=
  as_u64 (sumZ (zip_with (λ m samples, f (counted m samples)) ms groups)).

(** What a message adds to the spans and to the log records of a node. *)
Definition spans_for (k : string) (m : IngressMessage) : Z :=
  match m with
  | MsgSignal listener (Traces request) => if bool_decide (edge_key listener listener = k) then zlen (all_spans request) else 0
  | _ => 0
  end.
Definition records_for (k : string) (m : IngressMessage) : Z :=
  match m with
  | MsgSignal listener (Logs request) => if bool_decide (edge_key listener listener = k) then zlen (all_records request) else 0
  | _ => 0
  end.

(** A count of a node, zero when there is no such node. *)
Definition count_at (f : NodeSummary → Z) (s : DashboardState) (k : string) : Z := default 0 (f <$> ds_nodes s !! k).
Definition points_at (s : DashboardState) (k : string) : Z := default 0 (ns_metric_points <$> ds_nodes s !! k).

(** ** Lemmas *)

(** What the code finds in a message. *)
Definition samples_of (m : IngressMessage) : list MetricSample :=
  match m with MsgSignal listener (Metrics request) => metric_samples request listener | _ => [] end.
Definition observations_of (m : IngressMessage) : list Observation := observed m (samples_of m).
Lemma samples_of_arrived m : arrived m (samples_of m).
Proof. destruct m as [|? []| |]; try done. apply metric_samples_sampled. Qed.
Lemma groups_joined {B} (f : IngressMessage → list MetricSample → list B) ms :
  mjoin (zip_with f ms (samples_of <$> ms)) = ms ≫= λ m, f m (samples_of m).
Proof. induction ms as [|m ms IH]; [done|]. rewrite fmap_cons, bind_cons, <- IH. done. Qed.

Lemma zlen_bind {A B} (f : A → list B) l : zlen (l ≫= f) = sumZ ((λ x, zlen (f x)) <$> l).
Proof. induction l as [|x l IH]; [done|]. rewrite bind_cons, fmap_cons, sumZ_cons, <- IH. apply zlen_app. Qed.
Lemma bind_twice {A B C} (f : A → list B) (g : B → list C) l : (l ≫= f) ≫= g = l ≫= λ x, f x ≫= g.
Proof. induction l as [|x l IH]; [done|]. by rewrite !bind_cons, bind_app, IH. Qed.
Lemma span_count_all request : span_count request = zlen (all_spans request).
Proof. unfold span_count, all_spans. rewrite <- zlen_bind. f_equal. apply bind_twice. Qed.
Lemma log_count_all request : log_count request = zlen (all_records request).
Proof. unfold log_count, all_records. rewrite <- zlen_bind. f_equal. apply bind_twice. Qed.

Lemma as_u64_add_l a b : as_u64 (as_u64 a + b) = as_u64 (a + b).
Proof. apply Z.add_mod_idemp_l. lia. Qed.
Lemma as_u64_add_r a b : as_u64 (a + as_u64 b) = as_u64 (a + b).
Proof. apply Z.add_mod_idemp_r. lia. Qed.

Lemma as_u64_idem a : as_u64 (as_u64 a) = as_u64 a.
Proof. apply Z.mod_mod. lia. Qed.

Lemma trend_values_snoc k samples sample :
  trend_values k (samples ++ [sample]) = trend_values k samples ++
    match (if bool_decide (ms_trend_key sample = k) then ms_numeric sample else None) with
    | Some v => [v] | None => [] end.
Proof. unfold trend_values. rewrite omap_app. simpl. by destruct (if bool_decide _ then _ else _). Qed.

Lemma trend_push k samples v :
  trend_values k samples = [] ∨ trend k samples = Some (newest MAX_HISTORY_POINTS (trend_values k samples)) →
  push_capped (default [] (trend k samples)) v MAX_HISTORY_POINTS
  = newest MAX_HISTORY_POINTS (trend_values k samples ++ [v]).
Proof.
  intros H. assert (default [] (trend k samples) = newest MAX_HISTORY_POINTS (trend_values k samples)) as ->.
  { unfold trend. by destruct (trend_values k samples). }
  by apply push_capped_newest.
Qed.

Section view.
Context (clock : nat → Reading) (local : Z → option string).

(** The parts of the state that the drained samples and observations
    determine; [points] is where the node counts started. *)
Record shows (points : string → Z) (samples : list MetricSample) (os : list Observation)
    (s : DashboardState) : Prop := {
  sh_enabled : ds_alerts_enabled s = true;
  sh_metrics : ds_metrics s = newest MAX_METRICS samples;
  sh_history : ∀ k, ds_metric_history s !! k = trend k samples;
  sh_points : ∀ k, as_u64 (points_at s k) = as_u64 (points k + zlen (samples_at k samples));
  sh_alerts : ds_alerts s = (observe_all no_alerts os).2;
}.

Lemma observe_all_snoc s os o :
  (observe_all s (os ++ [o])).2 = (observe (observe_all s os).2 o).2.
Proof.
  revert s. induction os as [|o0 os IH]; intros s; simpl.
  - by destruct (observe s o).
  - destruct (observe s o0) as [c s1]. specialize (IH s1).
    destruct (observe_all s1 (os ++ [o])). destruct (observe_all s1 os). done.
Qed.

(** Fields that make no difference to the view. *)
Definition same_shown (s s' : DashboardState) : Prop :=
  ds_alerts_enabled s' = ds_alerts_enabled s ∧ ds_metrics s' = ds_metrics s ∧
  ds_metric_history s' = ds_metric_history s ∧
  (ns_metric_points <$> ds_nodes s') = (ns_metric_points <$> ds_nodes s) ∧ ds_alerts s' = ds_alerts s.

Lemma points_at_eq s s' k : (ns_metric_points <$> ds_nodes s') = (ns_metric_points <$> ds_nodes s) →
  points_at s' k = points_at s k.
Proof. unfold points_at. intros H. by rewrite <-!lookup_fmap, H. Qed.

Lemma same_shown_shows points samples os s s' :
  same_shown s s' → shows points samples os s → shows points samples os s'.
Proof.
  intros (H1 & H2 & H3 & H4 & H5) [Ha Hm Hh Hp Ho]. split; rewrite ?H1, ?H2, ?H3, ?H5; try done.
  intros k. by rewrite (points_at_eq _ _ k H4).
Qed.

Lemma push_event_shows points samples os kind m s :
  shows points samples os s → shows points samples os (push_event clock local kind m s).
Proof. by apply same_shown_shows. Qed.
Lemma set_counters_shows points samples os c s :
  shows points samples os s → shows points samples os (set_counters c s).
Proof. by apply same_shown_shows. Qed.

Lemma observe_alert_shows points samples os o s : shows points samples os s →
  shows points samples (os ++ [o]) (observe_alert clock local o s).
Proof.
  intros [Ha Hm Hh Hp Ho].
  destruct (observe_alert_fields clock local o s) as (F1 & F2 & F3 & F4 & F5 & F6 & _).
  split; rewrite ?F2, ?F5, ?F6; try done.
  - intros k. unfold points_at. rewrite F4. apply Hp.
  - by rewrite F1, Ho, observe_all_snoc.
Qed.

Lemma observe_alerts_shows points samples os os' s : shows points samples os s →
  shows points samples (os ++ os') (observe_alerts clock local os' s).
Proof.
  intros Hs. unfold observe_alerts. rewrite (sh_enabled _ _ _ _ Hs). revert os s Hs.
  induction os' as [|o os' IH]; intros os s Hs; simpl; [by rewrite app_nil_r|].
  rewrite cons_middle, app_assoc. by apply IH, observe_alert_shows.
Qed.

Lemma history_shows sample samples s : (∀ k, ds_metric_history s !! k = trend k samples) →
  ∀ k, ds_metric_history (push_history sample s) !! k = trend k (samples ++ [sample]).
Proof.
  intros Hh k. unfold trend. rewrite trend_values_snoc. unfold push_history.
  destruct (ms_numeric sample) as [v|].
  - cbn [ds_metric_history set_metric_history].
    destruct (decide (ms_trend_key sample = k)) as [<-|Hk].
    + rewrite lookup_insert_eq, bool_decide_true by done. rewrite Hh.
      rewrite trend_push by (unfold trend; destruct (trend_values _ _); auto).
      by destruct (trend_values (ms_trend_key sample) samples).
    + rewrite lookup_insert_ne, bool_decide_false by done. rewrite app_nil_r. apply Hh.
  - assert ((if bool_decide (ms_trend_key sample = k) then None else None) = @None f64) as ->
      by (by destruct (bool_decide _)). rewrite app_nil_r. apply Hh.
Qed.

Lemma points_shows key entry kind s k :
  points_at (store_node clock key entry kind s) k =
  if bool_decide (k = key) then ns_metric_points entry else points_at s k.
Proof.
  unfold points_at. cbn [ds_nodes]. change (ds_nodes (store_node clock key entry kind s)) with (<[key := entry]> (ds_nodes s)).
  case_bool_decide; subst; [by rewrite lookup_insert_eq|by rewrite lookup_insert_ne].
Qed.

Lemma update_severity_fields sample s :
  let s' := update_edge_alert_severity clock sample s in
  same_shown s s' ∧ ds_counters s' = ds_counters s ∧ ds_listening_label s' = ds_listening_label s.
Proof. unfold update_edge_alert_severity, set_node_severity. by destruct (rows (ds_edges s) !! _). Qed.

Lemma samples_at_snoc k samples sample : zlen (samples_at k (samples ++ [sample])) =
  zlen (samples_at k samples) + (if bool_decide (k = edge_key (ms_endpoint sample) (ms_node sample)) then 1 else 0).
Proof.
  unfold samples_at. rewrite filter_app, zlen_app, filter_cons. f_equal.
  case_decide; case_bool_decide; subst; done.
Qed.

Lemma ingest_sample_shows points samples os sample s : shows points samples os s →
  shows points (samples ++ [sample]) (os ++ [ObsMetric sample]) (ingest_sample clock local s sample).
Proof.
  intros [Ha Hm Hh Hp Ho]. unfold ingest_sample.
  set (s0 := observe_metric_sample clock sample s). set (s1 := push_history sample s0).
  destruct (push_history_fields sample s0) as (G1 & G2 & _ & G4 & G5 & _). fold s1 in G1, G2, G4, G5.
  assert (ds_alerts_enabled s1 = true) as Ha1 by (by rewrite G2).
  assert (∀ k, as_u64 (points_at s1 k) = as_u64 (points k + zlen (samples_at k (samples ++ [sample])))) as Hp1.
  { intros k. rewrite (points_at_eq s0 s1) by (by rewrite G4). subst s0. unfold observe_metric_sample.
    rewrite points_shows, samples_at_snoc. case_bool_decide as Hk; [|rewrite Z.add_0_r; apply Hp].
    cbn [ns_metric_points sample_entry]. unfold add_usize. rewrite <-Hk, as_u64_idem.
    fold (points_at s k). by rewrite Z.add_assoc, <-(as_u64_add_l (points k + _)), <-Hp, as_u64_add_l. }
  rewrite Ha1. set (s2 := observe_alert clock local (ObsMetric sample) s1).
  destruct (observe_alert_fields clock local (ObsMetric sample) s1) as (F1 & F2 & F3 & F4 & F5 & F6 & _).
  fold s2 in F1, F2, F3, F4, F5, F6.
  destruct (update_severity_fields sample s2) as ((U1 & U2 & U3 & U4 & U5) & _).
  set (s3 := update_edge_alert_severity clock sample s2) in *. clearbody s3.
  split; cbn [ds_alerts_enabled ds_metrics ds_metric_history ds_alerts set_metrics].
  - congruence.
  - rewrite U2, F5, G5. change (ds_metrics s0) with (ds_metrics s). rewrite Hm.
    by apply push_capped_newest.
  - intros k. rewrite U3, F6. by apply history_shows.
  - intros k. rewrite <-Hp1. f_equal. apply points_at_eq. cbn [ds_nodes set_metrics]. by rewrite U4, F4.
  - rewrite U5, F1, G1. change (ds_alerts s0) with (ds_alerts s). by rewrite Ho, observe_all_snoc.
Qed.

Lemma ingest_samples_shows points samples os new s : shows points samples os s →
  shows points (samples ++ new) (os ++ (ObsMetric <$> new)) (foldl (ingest_sample clock local) s new).
Proof.
  revert samples os s. induction new as [|x new IH]; intros samples os s Hs; simpl; [by rewrite !app_nil_r|].
  rewrite (cons_middle x), (cons_middle (ObsMetric x)), !app_assoc. by apply IH, ingest_sample_shows.
Qed.

Lemma items_shows points samples os listener kind count s : shows points samples os s →
  shows points samples os (observe_signal_items clock listener kind count s).
Proof.
  intros [Ha Hm Hh Hp Ho]. split; try done. intros k. unfold observe_signal_items.
  rewrite points_shows. case_bool_decide as Hk; [|done]. subst k. apply Hp.
Qed.

Lemma observe_message_shows points samples os m s : shows points samples os s →
  shows points (samples ++ samples_of m) (os ++ observations_of m) (observe_message clock local s m).
Proof.
  intros Hs. destruct m as [addrs|l sig|l e|e]; cbn [observe_message observations_of observed samples_of].
  - rewrite app_nil_r. apply observe_alerts_shows. revert Hs. by apply same_shown_shows.
  - unfold observe_signal_message. set (s1 := match ds_listening_label s with Some label => _ | None => _ end).
    assert (shows points samples os s1) as H1
      by (subst s1; destruct (ds_listening_label s); [revert Hs; by apply same_shown_shows|done]).
    clearbody s1. rewrite cons_middle, app_assoc.
    pose proof (observe_alerts_shows _ _ _ [ObsReceiverRecovered l "receiver received a signal"] _ H1) as H2.
    set (s2 := observe_alerts clock local _ s1) in *. clearbody s2. unfold ingest_signal.
    destruct sig as [r|r|r].
    + by apply push_event_shows, ingest_samples_shows, set_counters_shows.
    + rewrite !app_nil_r. by apply push_event_shows, items_shows, set_counters_shows.
    + rewrite !app_nil_r. by apply push_event_shows, items_shows, set_counters_shows.
  - rewrite app_nil_r. unfold dash_receiver_error.
    pose proof (observe_alerts_shows points samples os [ObsReceiverError (default "receiver" l) e]
      (push_event clock local "error" e s)) as H1.
    set (s1 := observe_alerts _ _ _ _) in *.
    assert (shows points samples (os ++ [ObsReceiverError (default "receiver" l) e]) s1) as H2
      by (apply H1; revert Hs; by apply same_shown_shows).
    destruct (ds_listening_label s1); [done|]. revert H2. by apply same_shown_shows.
  - rewrite app_nil_r. apply observe_alerts_shows. revert Hs. by apply same_shown_shows.
Qed.

Lemma drain_shows points samples os ms s : shows points samples os s →
  shows points (samples ++ (ms ≫= samples_of)) (os ++ (ms ≫= observations_of)) (drain_ingress clock local ms s).
Proof.
  unfold drain_ingress. revert samples os s. induction ms as [|m ms IH]; intros samples os s Hs; simpl.
  - by rewrite !app_nil_r.
  - rewrite !app_assoc. by apply IH, observe_message_shows.
Qed.

(** ** Counters *)

Lemma observe_alerts_counters os s : ds_counters (observe_alerts clock local os s) = ds_counters s.
Proof.
  unfold observe_alerts. destruct (ds_alerts_enabled s); [|done]. revert s.
  induction os as [|o os IH]; intros s; simpl; [done|]. rewrite IH. apply observe_alert_fields.
Qed.

Lemma ingest_samples_counters samples s :
  ds_counters (foldl (ingest_sample clock local) s samples) = ds_counters s.
Proof.
  revert s. induction samples as [|x samples IH]; intros s; simpl; [done|]. rewrite IH. unfold ingest_sample.
  set (s1 := push_history _ _).
  assert (ds_counters s1 = ds_counters s) as H1
    by (subst s1; by rewrite (proj2 (proj2 (proj2 (proj2 (proj2 (push_history_fields _ _))))))).
  clearbody s1. cbn [ds_counters set_metrics]. destruct (ds_alerts_enabled s1); [|done].
  destruct (update_severity_fields x (observe_alert clock local (ObsMetric x) s1)) as (_ & -> & _).
  rewrite <-H1. apply observe_alert_fields.
Qed.

Lemma message_counters s m :
  ds_counters (observe_message clock local s m) =
  match m with
  | MsgSignal l (Metrics r) => count_metrics (zlen (metric_samples r l)) (ds_counters s)
  | MsgSignal _ (Traces r) => count_traces (span_count r) (ds_counters s)
  | MsgSignal _ (Logs r) => count_logs (log_count r) (ds_counters s)
  | _ => ds_counters s
  end.
Proof.
  destruct m as [addrs|l sig|l e|e]; cbn [observe_message].
  - unfold observe_listening. by rewrite observe_alerts_counters.
  - unfold observe_signal_message. set (s1 := match ds_listening_label s with Some label => _ | None => _ end).
    assert (ds_counters s1 = ds_counters s) as H1 by (subst s1; by destruct (ds_listening_label s)).
    rewrite <-H1. clearbody s1.
    pose proof (observe_alerts_counters [ObsReceiverRecovered l "receiver received a signal"] s1) as <-.
    set (s2 := observe_alerts _ _ _ _). clearbody s2. unfold ingest_signal. destruct sig as [r|r|r]; [|done|done].
    cbn [push_event tick ds_counters set_events set_ticks]. by rewrite ingest_samples_counters.
  - unfold dash_receiver_error. set (s1 := observe_alerts _ _ _ _).
    assert (ds_counters s1 = ds_counters s) as H1 by (subst s1; by rewrite observe_alerts_counters).
    by destruct (ds_listening_label s1).
  - unfold dash_extension_error. by rewrite observe_alerts_counters.
Qed.

(** The six counters. *)
Definition counter_fields : list (SignalCounters → Z) :=
  [sc_metrics; sc_metric_points; sc_traces; sc_spans; sc_logs; sc_log_records].

Lemma message_counted f s m : f ∈ counter_fields → as_u64 (f (ds_counters s)) = f (ds_counters s) →
  f (ds_counters (observe_message clock local s m)) = as_u64 (f (ds_counters s) + f (counted m (samples_of m))).
Proof.
  intros Hf Hr. rewrite message_counters. unfold counter_fields in Hf. rewrite !elem_of_cons in Hf.
  destruct Hf as [->|[->|[->|[->|[->|[->|[]%elem_of_nil]]]]]]; destruct m as [|? []| |];
    cbn [counted count_metrics count_traces count_logs samples_of sc_metrics sc_metric_points sc_traces sc_spans
         sc_logs sc_log_records]; unfold add_usize; rewrite ?span_count_all, ?log_count_all, ?Z.add_0_r; done.
Qed.

Lemma drain_counters f ms s : f ∈ counter_fields → as_u64 (f (ds_counters s)) = f (ds_counters s) →
  f (ds_counters (drain_ingress clock local ms s)) =
  as_u64 (f (ds_counters s) + sumZ ((λ m, f (counted m (samples_of m))) <$> ms)).
Proof.
  intros Hf. unfold drain_ingress. revert s. induction ms as [|m ms IH]; intros s Hr; cbn [foldl].
  - cbn [fmap list_fmap]. by rewrite sumZ_nil, Z.add_0_r, Hr.
  - rewrite fmap_cons, sumZ_cons. rewrite IH; rewrite (message_counted f s m Hf Hr).
    + by rewrite as_u64_add_l, Z.add_assoc.
    + apply as_u64_idem.
Qed.

(** ** Spans and log records of the nodes *)

Lemma count_store f key entry kind s k : count_at f (store_node clock key entry kind s) k = if bool_decide (k = key) then f entry else count_at f s k.
Proof.
  unfold count_at. change (ds_nodes (store_node clock key entry kind s)) with (<[key := entry]> (ds_nodes s)).
  case_bool_decide; subst; [by rewrite lookup_insert_eq|by rewrite lookup_insert_ne].
Qed.
Lemma observe_alerts_nodes os s : ds_nodes (observe_alerts clock local os s) = ds_nodes s.
Proof.
  unfold observe_alerts. destruct (ds_alerts_enabled s); [|done]. revert s. induction os as [|o os IH]; intros s; simpl; [done|].
  rewrite IH. by destruct (observe_alert_fields clock local o s) as (_ & _ & _ & -> & _).
Qed.
(** Samples leave spans and log records alone. *)
Lemma ingest_samples_count f samples s k : f ∈ [ns_spans; ns_log_records] →
  count_at f (foldl (ingest_sample clock local) s samples) k = count_at f s k.
Proof.
  intros Hf. revert s. induction samples as [|x samples IH]; intros s; simpl; [done|]. rewrite IH. unfold ingest_sample.
  set (s0 := observe_metric_sample clock x s). assert (count_at f s0 k = count_at f s k) as <-.
  { unfold s0, observe_metric_sample. rewrite count_store. case_bool_decide as Hk; [subst k|done]. rewrite !elem_of_cons in Hf.
    by destruct Hf as [->|[->|[]%elem_of_nil]]. }
  set (s1 := push_history x s0). assert (ds_nodes s1 = ds_nodes s0) as H1 by (by destruct (push_history_fields x s0) as (_ & _ & _ & ? & _)).
  assert (∀ s' : DashboardState, ds_nodes s' = ds_nodes s0 → count_at f s' k = count_at f s0 k) as Hn by (intros s' E; unfold count_at; by rewrite E).
  clearbody s0 s1. apply Hn. cbn [ds_nodes set_metrics]. destruct (ds_alerts_enabled s1); [|done].
  rewrite <- H1. destruct (observe_alert_fields clock local (ObsMetric x) s1) as (_ & _ & _ & E & _).
  rewrite <- E. generalize (observe_alert clock local (ObsMetric x) s1). intros s2. unfold update_edge_alert_severity, set_node_severity.
  by destruct (rows (ds_edges s2) !! _).
Qed.
Lemma message_count f added s m k : (f = ns_spans ∧ added = spans_for k m) ∨ (f = ns_log_records ∧ added = records_for k m) →
  as_u64 (count_at f (observe_message clock local s m) k) = as_u64 (count_at f s k + added).
Proof.
  intros Hf. assert (f ∈ [ns_spans; ns_log_records]) as Hin by (rewrite !elem_of_cons; tauto).
  assert (∀ s' : DashboardState, ds_nodes s' = ds_nodes s → count_at f s' k = count_at f s k) as Hn by (intros s' E; unfold count_at; by rewrite E).
  destruct m as [addrs|l sig|l e|e]; cbn [observe_message].
  1, 3, 4: (assert (added = 0) as -> by naive_solver; rewrite Z.add_0_r; f_equal; apply Hn).
  - unfold observe_listening. by rewrite observe_alerts_nodes.
  - unfold dash_receiver_error. set (s1 := observe_alerts _ _ _ _).
    assert (ds_nodes s1 = ds_nodes s) as <- by (subst s1; by rewrite observe_alerts_nodes). by destruct (ds_listening_label s1).
  - unfold dash_extension_error. by rewrite observe_alerts_nodes.
  - unfold observe_signal_message. set (s1 := match ds_listening_label s with Some label => _ | None => _ end).
    assert (ds_nodes s1 = ds_nodes s) as H1 by (subst s1; by destruct (ds_listening_label s)). clearbody s1.
    pose proof (observe_alerts_nodes [ObsReceiverRecovered l "receiver received a signal"] s1) as H2. rewrite H1 in H2.
    set (s2 := observe_alerts clock local _ s1) in *. clearbody s2. rewrite <- (Hn s2 H2). unfold ingest_signal.
    destruct sig as [r|r|r].
    + assert (added = 0) as -> by naive_solver. rewrite Z.add_0_r. f_equal. change (count_at f (push_event _ _ _ _ ?x) k) with (count_at f x k). by rewrite ingest_samples_count.
    + change (count_at f (push_event _ _ _ _ ?x) k) with (count_at f x k). unfold observe_signal_items. rewrite count_store.
      cbn [spans_for records_for] in Hf. rewrite span_count_all. destruct (decide (edge_key l l = k)) as [<-|Hk].
      * rewrite bool_decide_eq_true_2 in * by done. destruct Hf as [[-> ->]|[-> ->]]; cbn; [apply as_u64_idem|by rewrite Z.add_0_r].
      * rewrite bool_decide_eq_false_2 in Hf by done. rewrite bool_decide_eq_false_2 by congruence. assert (added = 0) as -> by naive_solver. by rewrite Z.add_0_r.
    + change (count_at f (push_event _ _ _ _ ?x) k) with (count_at f x k). unfold observe_signal_items. rewrite count_store.
      cbn [spans_for records_for] in Hf. rewrite log_count_all. destruct (decide (edge_key l l = k)) as [<-|Hk].
      * rewrite bool_decide_eq_true_2 in * by done. destruct Hf as [[-> ->]|[-> ->]]; cbn; [by rewrite Z.add_0_r|apply as_u64_idem].
      * rewrite bool_decide_eq_false_2 in Hf by done. rewrite bool_decide_eq_false_2 by congruence. assert (added = 0) as -> by naive_solver. by rewrite Z.add_0_r.
Qed.
Lemma drain_count f added k ms s : (f = ns_spans ∧ added = spans_for k) ∨ (f = ns_log_records ∧ added = records_for k) →
  as_u64 (count_at f (drain_ingress clock local ms s) k) = as_u64 (count_at f s k + sumZ (added <$> ms)).
Proof.
  intros Hf. unfold drain_ingress. revert s. induction ms as [|m ms IH]; intros s; cbn [foldl].
  - cbn [fmap list_fmap]. by rewrite sumZ_nil, Z.add_0_r.
  - rewrite fmap_cons, sumZ_cons, IH, <- as_u64_add_l, (message_count f (added m)) by naive_solver. by rewrite as_u64_add_l, Z.add_assoc.
Qed.

(** ** Theorems *)

(** C36: after a start, the dashboard shows a function of the messages it has
    drained.  Every data point with a value in a metrics request, of all five
    kinds and in order, is one sample, with the name, value, node, trend and
    labels that its attributes, its resource and its scope give it
    ([sampled]).  Shown are the newest 512 samples, for each trend its newest
    180 numbers, the totals of the six counters, and the alerts of the whole
    run of observations; and each node's restored counts have grown by its
    samples, and by the spans and the log records its listener received, all
    modulo 2^64. *)
Theorem dashboard_view_exact rc init messages :
  let s0 := dashboard_new clock local rc init in
  let s := drain_ingress clock local messages s0 in
  ∃ groups, Forall2 arrived messages groups ∧
  let samples := mjoin groups in
  ds_metrics s = newest MAX_METRICS samples ∧
  (∀ k, ds_metric_history s !! k = trend k samples) ∧
  (∀ f, f ∈ [sc_metrics; sc_metric_points; sc_traces; sc_spans; sc_logs; sc_log_records] → f (ds_counters s) = total f messages groups) ∧
  (∀ k, as_u64 (count_at ns_metric_points s k) = as_u64 (count_at ns_metric_points s0 k + zlen (samples_at k samples)) ∧
        as_u64 (count_at ns_spans s k) = as_u64 (count_at ns_spans s0 k + sumZ (spans_for k <$> messages)) ∧
        as_u64 (count_at ns_log_records s k) = as_u64 (count_at ns_log_records s0 k + sumZ (records_for k <$> messages))) ∧
  ds_alerts s = (observe_all no_alerts (mjoin (zip_with observed messages groups))).2.
Proof.
  cbv zeta. set (s0 := dashboard_new clock local rc init).
  assert (shows (points_at s0) [] [] s0 ∧ ds_counters s0 = no_signals) as [Hs Hc].
  { subst s0. unfold dashboard_new. destruct (restore rc no_edges (si_restored_edges init)) as [ns e].
    set (s1 := Build_DashboardState _ _ _ _ _ _ _ _ _ _ _ _ _ _ _ _ _ _).
    assert (∀ s, same_shown s1 s → ds_counters s = no_signals →
              shows (points_at s) [] [] s ∧ ds_counters s = no_signals) as H.
    { intros s (E1 & E2 & E3 & E4 & E5) Ec. split; [|done].
      split; rewrite ?E1, ?E2, ?E3, ?E5; try done. intros k. by rewrite Z.add_0_r. }
    destruct (si_message init); by apply H. }
  destruct (drain_shows _ _ _ messages _ Hs) as [_ H1 H2 H3 H4]. simpl in *.
  exists (samples_of <$> messages). split; [apply Forall2_fmap_r, Forall_Forall2_diag, Forall_true, samples_of_arrived|].
  assert (mjoin (samples_of <$> messages) = messages ≫= samples_of) as -> by (clear; induction messages as [|m ms IH]; [done|]; by rewrite fmap_cons, bind_cons, <- IH).
  split; [done|]. split; [done|]. split; [|split; [|by rewrite groups_joined]].
  2:{ intros k. split; [apply H3|]. split; (apply drain_count; [auto]). }
  intros f Hf. unfold total. assert (zip_with (λ m samples, f (counted m samples)) messages (samples_of <$> messages) = (λ m, f (counted m (samples_of m))) <$> messages) as ->
    by (clear; induction messages as [|m ms IH]; [done|]; rewrite !fmap_cons; cbn [zip_with]; by rewrite IH).
  assert (f no_signals = 0) as Hz.
  { unfold counter_fields in Hf. rewrite !elem_of_cons in Hf.
    by destruct Hf as [->|[->|[->|[->|[->|[->|[]%elem_of_nil]]]]]]. }
  rewrite drain_counters by (rewrite ?Hc, ?Hz; done). by rewrite Hc, Hz.
Qed.
End view.
