(* ===== verification/WebCloud.v ===== *)
(** * The browser's view of the cloud API (skid-monitor-fe, platform/ingress/cloud.rs)

    Endpoints, storage keys, stream tickets and the decoding of the stream's
    messages.  The [url] and [uuid] crates and serde_json are interfaces. *)

From S2P Require Import Prelude RustStr Otlp Frame Core RustText Receiver AgentConfig Auth.

(** ** Third-party interfaces *)

(** [url::Url] with the setters the code uses; [cu_host] is [Url::host], an
    address or a domain. *)
Class CloudUrl := {
  CUrl : Type;
  cu_parse : string → option CUrl;
  cu_scheme : CUrl → string;
  cu_username : CUrl → string;
  cu_password : CUrl → option string;
  cu_host : CUrl → option (IpAddr + string);
  cu_path : CUrl → string;
  cu_query : CUrl → option string;
  cu_fragment : CUrl → option string;
  cu_origin : CUrl → string;
  cu_set_path : string → CUrl → CUrl;
  cu_clear_query : CUrl → CUrl;
  cu_clear_fragment : CUrl → CUrl;
  cu_set_scheme : string → CUrl → option CUrl;
  cu_append_pair : string → string → CUrl → CUrl;
  cu_to_string : CUrl → string;
}.

(** [serde_json::from_str] at the types the browser reads. *)
Class CloudJson := {
  json_record : string → option SignalRecord;
  json_signal : string → result string Signal;
  json_ticket : string → option string;
}.

Inductive BrowserEndpoint := RawWebSocket (endpoint : string) | CloudApi (endpoint : string).

Definition endpoint_key (e : BrowserEndpoint) : string :=
  match e with RawWebSocket endpoint | CloudApi endpoint => endpoint end.

Record DecodedJsonSignal := mkDecoded {
  dj_signal : Signal;
  dj_cursor : option Z;
  dj_tenant : option TenantId;
}.

Inductive BrowserStorageScope :=
| Legacy
| CloudPending
| CloudScope (endpoint : string) (tenant_id : TenantId).

(** ** Endpoints *)

Section urls.
Context `{CloudUrl}.

Definition NOT_A_URL : string := "browser ingress must be an http(s) client API or ws(s) bridge URL".

Definition is_numeric_loopback (url : CUrl) : bool :=
  match cu_host url with Some (inl address) => is_loopback address | _ => false end.

Definition normalize_endpoint (value : string) : result string BrowserEndpoint :=
  url ← ok_or (cu_parse (trim value)) NOT_A_URL;
  _ ← ensure (is_empty (cu_username url) && bool_decide (cu_password url = None))
        "browser ingress URLs must not contain credentials";
  if bool_decide (cu_scheme url ∈ ["ws"; "wss"]) then Ok (RawWebSocket (cu_to_string url))
  else if bool_decide (cu_scheme url ∈ ["http"; "https"]) then
    _ ← ensure (bool_decide (cu_query url = None) && bool_decide (cu_fragment url = None))
          "cloud client API URLs must not contain a query or fragment";
    _ ← ensure (negb (bool_decide (cu_scheme url = "http")) || is_numeric_loopback url)
          "cloud client API must use https; http is allowed only on a numeric loopback address";
    let normalized_path := trim_end_matches "/"%byte (cu_path url) in
    let url := cu_set_path (if is_empty normalized_path then "/" else normalized_path) url in
    Ok (CloudApi (cu_to_string url))
  else Err NOT_A_URL.

Definition cloud_url (cloud_api suffix : string) (websocket : bool) (ticket : option string) (after : Z)
    : result string string :=
  url ← ok_or (cu_parse cloud_api) "invalid cloud client API URL";
  let root := trim_end_matches "/"%byte (cu_path url) in
  let path := if is_empty root then "/" +:+ suffix else root +:+ "/" +:+ suffix in
  let url := cu_clear_fragment (cu_clear_query (cu_set_path path url)) in
  if websocket then
    scheme ← (if bool_decide (cu_scheme url = "http") then Ok "ws"
              else if bool_decide (cu_scheme url = "https") then Ok "wss"
              else Err "cloud client API URL must use http or https");
    url ← ok_or (cu_set_scheme scheme url) "failed to build cloud stream URL";
    ticket ← ok_or ticket "cloud stream ticket is missing";
    Ok (cu_to_string (cu_append_pair "after" (u64_to_string after) (cu_append_pair "ticket" ticket url)))
  else Ok (cu_to_string url).

Definition ticket_endpoint (cloud_api : string) : result string string :=
  cloud_url cloud_api "v1/stream-tickets" false None 0.
Definition stream_endpoint (cloud_api ticket : string) (after : Z) : result string string :=
  cloud_url cloud_api "v1/stream" true (Some ticket) after.

Definition require_same_origin (page_origin : result string string) (endpoint : string) : result string () :=
  page_origin ← page_origin;
  url ← ok_or (cu_parse endpoint) "invalid cloud client API URL";
  ensure (bool_decide (cu_origin url = page_origin))
    "cloud client API must share the frontend origin; use a same-origin reverse proxy".
End urls.

(** ** Keys and tickets *)

Definition CURSOR_STORAGE_PREFIX : string := "skid-monitor.cloud.cursor.v1:".

Section uuids.
Context `{UuidApi}.

Definition tenant_text (t : TenantId) : string := uuid_text (tenant_uuid t).

Definition cursor_storage_key (cloud_api : string) (tenant_id : TenantId) : string :=
  CURSOR_STORAGE_PREFIX +:+ cloud_api +:+ ":tenant:" +:+ tenant_text tenant_id.
Definition browser_storage_key (base cloud_api : string) (tenant_id : TenantId) : string :=
  base +:+ ":cloud:" +:+ cloud_api +:+ ":tenant:" +:+ tenant_text tenant_id.

(** [BrowserStorageScope::storage_key] and [label] *)
Definition scope_storage_key (scope : BrowserStorageScope) (base : string) : option string :=
  match scope with
  | Legacy => Some base
  | CloudPending => None
  | CloudScope endpoint tenant_id => Some (browser_storage_key base endpoint tenant_id)
  end.
Definition scope_label (scope : BrowserStorageScope) : string :=
  match scope with
  | Legacy => "legacy browser ingress"
  | CloudPending => "cloud authentication pending"
  | CloudScope endpoint tenant_id => "cloud tenant " +:+ tenant_text tenant_id +:+ " via " +:+ endpoint
  end.

Definition INVALID_TICKET : string := "stream-ticket response contains an invalid ticket".

Definition tenant_from_stream_ticket (value : string) : result string TenantId :=
  parts ← ok_or (split_once "."%byte value) INVALID_TICKET;
  let '(tenant, ticket) := parts in
  _ ← ensure (negb (contains ticket ".")) INVALID_TICKET;
  tenant_id ← map_err (λ _, "stream-ticket response contains an invalid tenant") (tenant_from_str tenant);
  ticket_id ← map_err (λ _, INVALID_TICKET) (uuid_parse ticket);
  _ ← ensure (bool_decide (tenant_text tenant_id = tenant) && bool_decide (uuid_text ticket_id = ticket))
        "stream-ticket response must use canonical UUIDs";
  Ok tenant_id.
End uuids.

(** ** Messages *)

Section decode.
Context `{CloudJson}.

Definition decode_json_signal (value : string) : result string DecodedJsonSignal :=
  match json_record value with
  | Some record =>
    _ ← ensure (negb (rec_cursor record =? 0)) "cloud signal record has an invalid zero cursor";
    Ok (mkDecoded (payload (rec_envelope record)) (Some (rec_cursor record))
          (scope_tenant_id (scope (rec_envelope record))))
  | None =>
    map_err (λ error, "invalid WebSocket signal JSON: " +:+ error)
      ((λ signal, mkDecoded signal None None) <$> json_signal value)
  end.

(** The data of a [MessageEvent]. *)
Inductive JsData := JsText (s : string) | JsBuffer (bytes : list byte) | JsOther.

Definition decode_raw_message `{SignalCodec} (data : JsData) : result string Signal :=
  match data with
  | JsText text => dj_signal <$> decode_json_signal text
  | JsBuffer bytes =>
    map_err (λ error, "invalid WebSocket signal payload: " +:+ io_message error) (decode_signal_payload bytes)
  | JsOther => Err "unsupported WebSocket message type; expected JSON text or ArrayBuffer"
  end.

Definition decode_cloud_message (data : JsData) : result string DecodedJsonSignal :=
  match data with
  | JsText text => decode_json_signal text
  | _ => Err "cloud stream payload must be a JSON SignalRecord text message"
  end.
End decode.

(** ** Lemmas *)

(** A cloud endpoint is https, or http to a numeric loopback address; no
    endpoint carries credentials. *)
Lemma normalize_endpoint_safe `{CloudUrl} value e : normalize_endpoint value = Ok e →
  ∃ url, cu_parse (trim value) = Some url ∧ cu_username url = "" ∧ cu_password url = None ∧
    match e with
    | RawWebSocket endpoint => cu_scheme url ∈ ["ws"; "wss"] ∧ endpoint = cu_to_string url
    | CloudApi _ => cu_query url = None ∧ cu_fragment url = None ∧
        (cu_scheme url = "https" ∨
         cu_scheme url = "http" ∧ ∃ ip, cu_host url = Some (inl ip) ∧ is_loopback ip = true)
    end.
Proof.
  unfold normalize_endpoint, is_numeric_loopback. destruct (cu_parse _) as [url|]; [|done].
  cbn [ok_or mbind result_bind]. intros He. exists url. revert He.
  destruct (is_empty (cu_username url)) eqn:Eu; [|done].
  destruct (bool_decide (cu_password url = None)) eqn:Ep; [|done]. cbn [andb ensure mbind result_bind].
  apply bool_decide_eq_true in Eu, Ep.
  destruct (bool_decide (cu_scheme url ∈ ["ws"; "wss"])) eqn:Ew.
  { intros [= <-]. apply bool_decide_eq_true in Ew. done. }
  destruct (bool_decide (cu_scheme url ∈ ["http"; "https"])) eqn:Eh; [|done].
  apply bool_decide_eq_true in Eh.
  destruct (bool_decide (cu_query url = None)) eqn:Eq; [|done].
  destruct (bool_decide (cu_fragment url = None)) eqn:Ef; [|done]. cbn [andb ensure mbind result_bind].
  apply bool_decide_eq_true in Eq, Ef.
  destruct (bool_decide (cu_scheme url = "http")) eqn:Es; cbn [negb orb].
  - destruct (cu_host url) as [[ip|]|]; try done. destruct (is_loopback ip) eqn:El; [|done].
    intros [= <-]. apply bool_decide_eq_true in Es. split_and!; eauto 6.
  - intros [= <-]. apply bool_decide_eq_false in Es. split_and!; try done. left. set_solver.
Qed.
