(* ===== verification/WebIngress.v ===== *)
(** * The browser's ingress (skid-monitor-fe, platform/ingress/web.rs)

    One page: its connections, the sockets it opened, the asynchronous work
    that is pending and the local storage.  The page is single threaded, so a
    handler, a finished request or a timer is one step.  What the browser
    decides (the outcome of [WebSocket::new], of a request, of a storage call,
    the events of a socket) is an argument of the step.

    Four fields are not the program's: [ws_after] and [ws_received], the
    cursor a socket was opened with and the records it has brought, and
    [w_delivered], the cursors and signals handed to the dashboard; [w_faults]
    notes that a call to the local storage has failed. *)

From stdpp Require Import sorting.
From S2P Require Import Prelude RustStr Otlp Frame Core RustText Receiver AgentConfig Auth WebCloud.

Definition MAX_RECONNECT_ATTEMPTS : Z := 8.
Definition MAX_RECONNECT_DELAY_MS : Z := 30000.
Definition MAX_TICKET_BYTES : Z := 4096.
Definition MAX_TICKET_RESPONSE_BYTES : Z := 8192.
Definition MAX_ACCESS_TOKEN_BYTES_WEB : Z := 16 * 1024.
Definition OIDC_ACCESS_TOKEN_SESSION_KEY : string := "skid-monitor.oidc.access_token".
Definition LEGACY_KEYCLOAK_ACCESS_TOKEN_SESSION_KEY : string := "skid-monitor.keycloak.access_token".

(** ** State *)

Inductive WebMessage :=
| WmListening (endpoints : list string)
| WmSignal (listener : string) (signal : Signal)
| WmError (listener : option string) (error : string)
| WmStorageScope (scope : BrowserStorageScope).

Record CloudConnection := {
  generation : Z;
  cc_tenant : option TenantId;
  cc_socket : option nat;
  reconnect_attempt : Z;
  persisted_cursor : Z;
  connecting : bool;
}.

Inductive BrowserConnection := RawConnection (socket : nat) | CloudConn (c : CloudConnection).

(** The closures of a socket, with what they capture. *)
Inductive Handlers :=
| RawHandlers (endpoint : string)
| CloudHandlers (endpoint : string) (generation : Z) (tenant_id : TenantId).

Inductive ReadyState := RsConnecting | RsOpen | RsClosing | RsClosed.

#[global] Instance ReadyState_eq_dec : EqDecision ReadyState.
Proof. solve_decision. Defined.

Record Socket := {
  ws_url : string;
  ws_handlers : option Handlers;
  ws_ready : ReadyState;
  ws_after : Z;
  ws_received : list SignalRecord;
}.

(** Pending [spawn_local] work. *)
Inductive Task :=
| FetchTicket (endpoint : string) (generation : Z)
| RetryTimer (endpoint : string) (generation : Z) (delay_ms : Z).

Record WebState := mkWeb {
  w_messages : list WebMessage;
  w_connections : gmap string BrowserConnection;
  w_active : gmap string ();
  w_next_generation : Z;
  w_local : gmap string string;
  w_sockets : list Socket;
  w_tasks : list Task;
  w_delivered : list (string * TenantId * (Z * Signal));
  w_faults : bool;
}.

Definition with_messages f s := mkWeb (f (w_messages s)) (w_connections s) (w_active s) (w_next_generation s)
  (w_local s) (w_sockets s) (w_tasks s) (w_delivered s) (w_faults s).
Definition with_connections f s := mkWeb (w_messages s) (f (w_connections s)) (w_active s) (w_next_generation s)
  (w_local s) (w_sockets s) (w_tasks s) (w_delivered s) (w_faults s).
Definition with_active f s := mkWeb (w_messages s) (w_connections s) (f (w_active s)) (w_next_generation s)
  (w_local s) (w_sockets s) (w_tasks s) (w_delivered s) (w_faults s).
Definition with_generation g s := mkWeb (w_messages s) (w_connections s) (w_active s) g
  (w_local s) (w_sockets s) (w_tasks s) (w_delivered s) (w_faults s).
Definition with_local f s := mkWeb (w_messages s) (w_connections s) (w_active s) (w_next_generation s)
  (f (w_local s)) (w_sockets s) (w_tasks s) (w_delivered s) (w_faults s).
Definition with_sockets f s := mkWeb (w_messages s) (w_connections s) (w_active s) (w_next_generation s)
  (w_local s) (f (w_sockets s)) (w_tasks s) (w_delivered s) (w_faults s).
Definition with_tasks f s := mkWeb (w_messages s) (w_connections s) (w_active s) (w_next_generation s)
  (w_local s) (w_sockets s) (f (w_tasks s)) (w_delivered s) (w_faults s).
Definition with_delivered f s := mkWeb (w_messages s) (w_connections s) (w_active s) (w_next_generation s)
  (w_local s) (w_sockets s) (w_tasks s) (f (w_delivered s)) (w_faults s).
Definition with_fault s := mkWeb (w_messages s) (w_connections s) (w_active s) (w_next_generation s)
  (w_local s) (w_sockets s) (w_tasks s) (w_delivered s) true.

(** [push_message], [report_error] and the two publishers *)
Definition push_message (m : WebMessage) : WebState → WebState := with_messages (λ ms, ms ++ [m]).
Definition report_error (listener : option string) (error : string) : WebState → WebState :=
  push_message (WmError listener error).
Definition publish_active_snapshot (s : WebState) : WebState :=
  push_message (WmListening (btree_iter (w_active s)).*1) s.
Definition publish_storage_scope (scope : BrowserStorageScope) : WebState → WebState :=
  push_message (WmStorageScope scope).

(** ** Sockets *)

Definition set_handlers (h : option Handlers) (w : Socket) : Socket :=
  {| ws_url := ws_url w; ws_handlers := h; ws_ready := ws_ready w; ws_after := ws_after w;
     ws_received := ws_received w |}.
Definition set_ready (r : ReadyState) (w : Socket) : Socket :=
  {| ws_url := ws_url w; ws_handlers := ws_handlers w; ws_ready := r; ws_after := ws_after w;
     ws_received := ws_received w |}.
Definition note_received (r : SignalRecord) (w : Socket) : Socket :=
  {| ws_url := ws_url w; ws_handlers := ws_handlers w; ws_ready := ws_ready w; ws_after := ws_after w;
     ws_received := ws_received w ++ [r] |}.

(** [WebSocketConnection::detach_handlers] and [close] *)
Definition detach_handlers (k : nat) : WebState → WebState := with_sockets (alter (set_handlers None) k).
Definition close_socket (k : nat) : WebState → WebState :=
  with_sockets (alter (λ w, match ws_ready w with RsClosed => w | _ => set_ready RsClosing w end) k).
Definition new_socket (url : string) (h : Handlers) (after : Z) : Socket :=
  {| ws_url := url; ws_handlers := Some h; ws_ready := RsConnecting; ws_after := after; ws_received := [] |}.

Definition is_raw_closed (s : WebState) (c : BrowserConnection) : bool :=
  match c with
  | RawConnection k => match w_sockets s !! k with Some w => bool_decide (ws_ready w = RsClosed) | None => true end
  | CloudConn _ => false
  end.
Definition is_cloud (c : BrowserConnection) : bool := match c with CloudConn _ => true | _ => false end.

(** ** Connections *)

Definition put_cloud (endpoint : string) (c : CloudConnection) : WebState → WebState :=
  with_connections (insert endpoint (CloudConn c)).
(** The cloud connection of an endpoint, while it is of this generation. *)
Definition get_cloud (endpoint : string) (g : Z) (s : WebState) : option CloudConnection :=
  match w_connections s !! endpoint with
  | Some (CloudConn c) => if generation c =? g then Some c else None
  | _ => None
  end.

Definition set_connecting (b : bool) (c : CloudConnection) : CloudConnection :=
  {| generation := generation c; cc_tenant := cc_tenant c; cc_socket := cc_socket c;
     reconnect_attempt := reconnect_attempt c; persisted_cursor := persisted_cursor c; connecting := b |}.
Definition set_attempt (n : Z) (c : CloudConnection) : CloudConnection :=
  {| generation := generation c; cc_tenant := cc_tenant c; cc_socket := cc_socket c;
     reconnect_attempt := n; persisted_cursor := persisted_cursor c; connecting := connecting c |}.
Definition set_tenant (t : TenantId) (cursor : Z) (c : CloudConnection) : CloudConnection :=
  {| generation := generation c; cc_tenant := Some t; cc_socket := cc_socket c;
     reconnect_attempt := reconnect_attempt c; persisted_cursor := cursor; connecting := connecting c |}.
Definition set_socket (k : nat) (c : CloudConnection) : CloudConnection :=
  {| generation := generation c; cc_tenant := cc_tenant c; cc_socket := Some k;
     reconnect_attempt := reconnect_attempt c; persisted_cursor := persisted_cursor c; connecting := connecting c |}.

Definition begin_cloud_connect (endpoint : string) (g : Z) (s : WebState) : WebState :=
  match get_cloud endpoint g s with
  | Some c =>
    if connecting c then s
    else with_tasks (λ ts, ts ++ [FetchTicket endpoint g]) (put_cloud endpoint (set_connecting true c) s)
  | None => s
  end.

Definition set_cloud_connecting (endpoint : string) (g : Z) (b : bool) (s : WebState) : WebState :=
  match get_cloud endpoint g s with
  | Some c => put_cloud endpoint (set_connecting b c) s
  | None => s
  end.

(** Milliseconds before a retry; [attempt] counts from one. *)
Definition retry_delay_ms (attempt : Z) : Z := Z.min (1000 * 2 ^ (attempt - 1)) MAX_RECONNECT_DELAY_MS.

Definition schedule_cloud_retry (endpoint : string) (g : Z) (reason : string) (s : WebState) : WebState :=
  match get_cloud endpoint g s with
  | Some c =>
    if connecting c then s
    else if MAX_RECONNECT_ATTEMPTS <=? reconnect_attempt c then
      report_error (Some endpoint) "cloud reconnect limit reached; disconnect and connect again to retry" s
    else
      let attempt := reconnect_attempt c + 1 in
      let s := put_cloud endpoint (set_attempt attempt c) s in
      let delay_ms := retry_delay_ms attempt in
      let s := report_error (Some endpoint)
        (reason +:+ " (retry " +:+ u64_to_string attempt +:+ "/" +:+ u64_to_string MAX_RECONNECT_ATTEMPTS +:+
         " in " +:+ u64_to_string (delay_ms `div` 1000) +:+ "s)") s in
      with_tasks (λ ts, ts ++ [RetryTimer endpoint g delay_ms]) s
  | None => s
  end.

Definition retry_timer (endpoint : string) (g : Z) (s : WebState) : WebState :=
  match get_cloud endpoint g s with Some _ => begin_cloud_connect endpoint g s | None => s end.

Section page.
Context `{CloudUrl, UuidApi, CloudJson, SignalCodec}.

(** ** Stream tickets *)

Record Request := { rq_method : string; rq_url : string; rq_headers : list (string * string) }.
Record Response := { rs_ok : bool; rs_status : Z; rs_body : result string string }.
(** The session storage and the network. *)
Record TicketEnv := {
  te_session : string → result string (option string);
  te_fetch : Request → result string Response;
}.
Record AcquiredStreamTicket := { st_value : string; st_tenant : TenantId }.

Definition access_token (env : TicketEnv) : result string string :=
  oidc_token ← te_session env OIDC_ACCESS_TOKEN_SESSION_KEY;
  found ← (match oidc_token with
           | Some token => Ok (token, OIDC_ACCESS_TOKEN_SESSION_KEY)
           | None =>
             legacy ← te_session env LEGACY_KEYCLOAK_ACCESS_TOKEN_SESSION_KEY;
             match legacy with
             | Some token => Ok (token, LEGACY_KEYCLOAK_ACCESS_TOKEN_SESSION_KEY)
             | None => Err ("OIDC access token is missing from sessionStorage key " +:+ OIDC_ACCESS_TOKEN_SESSION_KEY
                            +:+ " (legacy " +:+ LEGACY_KEYCLOAK_ACCESS_TOKEN_SESSION_KEY +:+ " is also accepted)")
             end
           end);
  let '(token, key) := found in
  let token := trim token in
  if is_empty token then Err ("OIDC access token is missing from sessionStorage key " +:+ key)
  else if (MAX_ACCESS_TOKEN_BYTES_WEB <? str_len token) || has_control token
  then Err "OIDC access token in sessionStorage is invalid"
  else Ok token.

Definition request_stream_ticket (env : TicketEnv) (cloud_api : string) : result string AcquiredStreamTicket :=
  token ← access_token env;
  endpoint ← ticket_endpoint cloud_api;
  response ← te_fetch env
    {| rq_method := "POST"; rq_url := endpoint;
       rq_headers := [("Authorization", "Bearer " +:+ token); ("Accept", "application/json");
                      ("Cache-Control", "no-store"); ("Pragma", "no-cache")] |};
  if negb (rs_ok response)
  then Err ("stream-ticket request was rejected with HTTP " +:+ u64_to_string (rs_status response))
  else
    body ← rs_body response;
    if MAX_TICKET_RESPONSE_BYTES <? str_len body then Err "stream-ticket response is too large"
    else
      ticket ← ok_or (json_ticket body) "stream-ticket response is invalid JSON";
      let ticket := trim ticket in
      if is_empty ticket || (MAX_TICKET_BYTES <? str_len ticket) || has_control ticket
      then Err INVALID_TICKET
      else
        tenant_id ← tenant_from_stream_ticket ticket;
        Ok {| st_value := ticket; st_tenant := tenant_id |}.

(** ** The stored cursor; [fault] is the error of the storage, if it fails *)

Definition load_cursor (fault : option string) (endpoint : string) (t : TenantId) (s : WebState) : result string Z :=
  match fault with
  | Some error => Err error
  | None =>
    match w_local s !! cursor_storage_key endpoint t with
    | None => Ok 0
    | Some value =>
      ok_or (parse_u64 value) "stored cloud stream cursor is invalid; starting from cursor zero"
    end
  end.

Definition persist_cursor (fault : option string) (endpoint : string) (t : TenantId) (cursor : Z) (s : WebState)
    : result string () * WebState :=
  match fault with
  | Some error => (Err error, with_fault s)
  | None => (Ok (), with_local (insert (cursor_storage_key endpoint t) (u64_to_string cursor)) s)
  end.

Definition prepare_cloud_tenant (fault : option string) (endpoint : string) (g : Z) (t : TenantId) (s : WebState)
    : option Z * WebState :=
  match get_cloud endpoint g s with
  | None => (None, s)
  | Some c =>
    if bool_decide (cc_tenant c = Some t) then (Some (persisted_cursor c), s)
    else
      let '(cursor, s) :=
        match load_cursor fault endpoint t s with
        | Ok cursor => (cursor, s)
        | Err error => (0, report_error (Some endpoint) error (with_fault s))
        end in
      let s := put_cloud endpoint (set_tenant t cursor c) s in
      (Some cursor, publish_storage_scope (CloudScope endpoint t) s)
  end.

Definition queue_cloud_record (fault : option string) (endpoint : string) (g : Z) (t : TenantId)
    (record : DecodedJsonSignal) (s : WebState) : WebState :=
  match dj_cursor record with
  | None => report_error (Some endpoint) "cloud stream payload is not a full SignalRecord" s
  | Some cursor =>
    if negb (bool_decide (dj_tenant record = Some t))
    then report_error (Some endpoint)
           "cloud stream SignalRecord tenant does not match the authenticated stream" s
    else
      match get_cloud endpoint g s with
      | None => s
      | Some c =>
        if negb (bool_decide (cc_tenant c = Some t) && (persisted_cursor c <? cursor)) then s
        else
          let s := push_message (WmSignal endpoint (dj_signal record))
                     (with_delivered (λ l, l ++ [(endpoint, t, (cursor, dj_signal record))]) s) in
          match persist_cursor fault endpoint t cursor s with
          | (Ok _, s) =>
            match get_cloud endpoint g s with
            | Some c =>
              if bool_decide (cc_tenant c = Some t)
              then put_cloud endpoint (set_tenant t (Z.max (persisted_cursor c) cursor) c) s else s
            | None => s
            end
          | (Err error, s) => report_error (Some endpoint) error s
          end
      end
  end.

(** ** Opening sockets; [opened]: [WebSocket::new] succeeds *)

Definition open_cloud_socket (fault : option string) (opened : bool) (endpoint : string) (g : Z)
    (ticket : AcquiredStreamTicket) (s : WebState) : result string () * WebState :=
  match prepare_cloud_tenant fault endpoint g (st_tenant ticket) s with
  | (None, s) => (Ok (), s)
  | (Some after, s) =>
    match stream_endpoint endpoint (st_value ticket) after with
    | Err error => (Err error, s)
    | Ok stream_url =>
      if negb opened then (Err "failed to open the authenticated cloud stream", s)
      else
        let k := length (w_sockets s) in
        let s := with_sockets (λ ws, ws ++ [new_socket stream_url (CloudHandlers endpoint g (st_tenant ticket)) after]) s in
        match get_cloud endpoint g s with
        | None => (Ok (), close_socket k (detach_handlers k s))
        | Some cloud =>
          let s := match cc_socket cloud with
                   | Some previous => close_socket previous (detach_handlers previous s)
                   | None => s
                   end in
          (Ok (), put_cloud endpoint (set_socket k cloud) s)
        end
    end
  end.

(** The rest of [begin_cloud_connect], once the ticket request has ended. *)
Definition finish_fetch (fault : option string) (opened : bool) (endpoint : string) (g : Z)
    (ticket : result string AcquiredStreamTicket) (s : WebState) : WebState :=
  let retry error s := schedule_cloud_retry endpoint g error (set_cloud_connecting endpoint g false s) in
  match ticket with
  | Ok ticket =>
    match open_cloud_socket fault opened endpoint g ticket s with
    | (Err error, s) => retry error s
    | (Ok _, s) => s
    end
  | Err error => retry error s
  end.

Definition add_raw (opened : bool) (endpoint : string) (s : WebState) : result string () * WebState :=
  if negb opened then (Err ("failed to open WebSocket " +:+ endpoint), s)
  else
    let k := length (w_sockets s) in
    let s := with_sockets (λ ws, ws ++ [new_socket endpoint (RawHandlers endpoint) 0]) s in
    let s := with_connections (insert endpoint (RawConnection k)) s in
    (Ok (), publish_storage_scope Legacy s).

Definition new_cloud (g : Z) : CloudConnection :=
  {| generation := g; cc_tenant := None; cc_socket := None; reconnect_attempt := 0; persisted_cursor := 0;
     connecting := false |}.

Definition add_cloud (page_origin : result string string) (endpoint : string) (s : WebState)
    : result string () * WebState :=
  match require_same_origin page_origin endpoint with
  | Err error => (Err error, s)
  | Ok _ =>
    let g := w_next_generation s in
    let s := with_generation (Z.max ((g + 1) `mod` 2 ^ 64) 1) s in
    let s := put_cloud endpoint (new_cloud g) s in
    let s := publish_storage_scope CloudPending s in
    let s := publish_active_snapshot (with_active (insert endpoint ()) s) in
    (Ok (), begin_cloud_connect endpoint g s)
  end.

(** [IngressControl::add] *)
Definition ingress_add (page_origin : result string string) (opened : bool) (value : string) (s : WebState)
    : result string () * WebState :=
  match normalize_endpoint value with
  | Err error => (Err error, s)
  | Ok endpoint =>
    let key := endpoint_key endpoint in
    let s := with_connections (filter (λ kc, is_raw_closed s kc.2 = false)) s in
    if bool_decide (is_Some (w_connections s !! key))
    then (Err ("ingress " +:+ key +:+ " is already connected or connecting"), s)
    else
      let conns := (map_to_list (w_connections s)).*2 in
      let has_cloud := existsb is_cloud conns in
      let has_raw := existsb (λ c, negb (is_cloud c)) conns in
      match endpoint with
      | CloudApi endpoint =>
        if has_cloud || has_raw
        then (Err "cloud client API mode must be the browser's only ingress connection", s)
        else add_cloud page_origin endpoint s
      | RawWebSocket endpoint =>
        if has_cloud then (Err "raw WebSocket ingress cannot be mixed with cloud client API mode", s)
        else add_raw opened endpoint s
      end
  end.

(** [IngressControl::remove]; [closed]: [WebSocket::close] succeeds *)
Definition ingress_remove (closed : bool) (value : string) (s : WebState) : result string () * WebState :=
  match normalize_endpoint value with
  | Err error => (Err error, s)
  | Ok endpoint =>
    let key := endpoint_key endpoint in
    match w_connections s !! key with
    | None => (Err ("ingress " +:+ key +:+ " is not connected"), s)
    | Some connection =>
      let s := with_connections (delete key) s in
      let socket := match connection with RawConnection k => Some k | CloudConn c => cc_socket c end in
      let s := match socket with Some k => detach_handlers k s | None => s end in
      let s := publish_active_snapshot (with_active (delete key) s) in
      let s := if is_cloud connection then publish_storage_scope CloudPending s else s in
      match socket with
      | Some k => if closed then (Ok (), close_socket k s)
                  else (Err "failed to close browser ingress WebSocket", s)
      | None => (Ok (), s)
      end
    end
  end.

(** ** The handlers of a socket *)

Definition raw_on_open (endpoint : string) (s : WebState) : WebState :=
  publish_active_snapshot (with_active (insert endpoint ()) s).
Definition raw_on_message (endpoint : string) (data : JsData) : WebState → WebState :=
  push_message (match decode_raw_message data with
                | Ok signal => WmSignal endpoint signal
                | Err error => WmError (Some endpoint) error
                end).
Definition raw_on_error (endpoint : string) : WebState → WebState :=
  report_error (Some endpoint) ("WebSocket error on " +:+ endpoint).
Definition raw_on_close (endpoint : string) (clean : bool) (code : Z) (reason : string) (s : WebState) : WebState :=
  let s := publish_active_snapshot (with_active (delete endpoint) s) in
  if clean then s
  else report_error (Some endpoint)
         ("WebSocket " +:+ endpoint +:+ " closed with code " +:+ u64_to_string code +:+ ": " +:+ reason) s.

Definition on_open (h : Handlers) (s : WebState) : WebState :=
  match h with
  | RawHandlers endpoint => raw_on_open endpoint s
  | CloudHandlers endpoint g _ =>
    match get_cloud endpoint g s with
    | Some c => put_cloud endpoint (set_attempt 0 (set_connecting false c)) s
    | None => s
    end
  end.

Definition on_message (fault : option string) (h : Handlers) (data : JsData) (s : WebState) : WebState :=
  match h with
  | RawHandlers endpoint => raw_on_message endpoint data s
  | CloudHandlers endpoint g tenant_id =>
    match decode_cloud_message data with
    | Ok record => queue_cloud_record fault endpoint g tenant_id record s
    | Err error => report_error (Some endpoint) error s
    end
  end.

Definition on_error (h : Handlers) (s : WebState) : WebState :=
  match h with
  | RawHandlers endpoint => raw_on_error endpoint s
  | CloudHandlers endpoint _ _ => report_error (Some endpoint) "cloud signal stream WebSocket error" s
  end.

Definition on_close (h : Handlers) (clean : bool) (code : Z) (reason : string) (s : WebState) : WebState :=
  match h with
  | RawHandlers endpoint => raw_on_close endpoint clean code reason s
  | CloudHandlers endpoint g _ =>
    let s := set_cloud_connecting endpoint g false s in
    let detail := if clean then "cloud signal stream closed; reconnecting"
                  else "cloud signal stream closed with code " +:+ u64_to_string code +:+ "; reconnecting" in
    schedule_cloud_retry endpoint g detail s
  end.

(** ** Start *)

(** [configured_endpoints], from the query parameters [client_api] and
    [ingress]: a [BTreeSet] of what is not blank. *)
Definition configured_endpoints (client_api ingress : option string) : list string :=
  let values := filter (λ v, v ≠ "") (trim <$> omap id [client_api; ingress]) in
  (btree_iter (list_to_map ((λ v, (v, ())) <$> values) : gmap string ())).*1.

Definition web_init (local : gmap string string) : WebState :=
  mkWeb [WmListening []] ∅ ∅ 1 local [] [] [] false.

Definition ingress_start (local : gmap string string) (page_origin : result string string) (opened : string → bool)
    (endpoints : list string) : WebState :=
  foldl (λ s endpoint,
    match ingress_add page_origin (opened endpoint) endpoint s with
    | (Ok _, s) => s
    | (Err error, s) => report_error (Some endpoint) error s
    end) (web_init local) endpoints.
End page.
