(* ===== verification/WebExact.v ===== *)
(** * The browser receives the stream exactly once

    The steps of a page, with the records a cloud socket brings taken from the
    tenant's log after the cursor the socket was opened with, which is what
    the server's stream delivers (ApiStream.stream_exact).  Whatever the order
    of requests, timers, socket events, disconnects and changes of tenant, the
    page hands each record over and never loses one; while the local storage
    works it hands each over once. *)

From stdpp Require Import sorting.
From S2P Require Import Prelude RustStr Otlp Frame Core RustText Receiver AgentConfig Auth WebCloud WebIngress.

(** Documented behaviour of the uuid crate: a UUID has 128 bits and a
    hyphenated text of 36 bytes, different for different UUIDs. *)
Definition uuid128 (z : Z) : Prop := 0 ≤ z < 2 ^ 128.
Class UuidLaws `{UuidApi} : Prop := {
  uuid_parse_range s z : uuid_parse s = Ok z → uuid128 z;
  uuid_text_length z : uuid128 z → length (as_bytes (uuid_text z)) = 36%nat;
  uuid_text_inj z w : uuid128 z → uuid128 w → uuid_text z = uuid_text w → z = w;
}.

Section steps.
Context `{CloudUrl, UuidApi, CloudJson, SignalCodec}.
(** The records the store has accepted for each tenant, oldest first. *)
Context (log : TenantId → list SignalRecord).

Definition log_after (t : TenantId) (cursor : Z) : list SignalRecord :=
  filter (λ r, cursor < rec_cursor r) (log t).

Definition with_handlers (w : Socket) (f : Handlers → WebState → WebState) (s : WebState) : WebState :=
  match ws_handlers w with Some h => f h s | None => s end.

Inductive web_step (s : WebState) : WebState → Prop :=
| WsAdd origin opened value :
    w_next_generation s < u64_max →
    web_step s (ingress_add origin opened value s).2
| WsRemove closed value :
    web_step s (ingress_remove closed value s).2
| WsFetched i e g env fault opened :
    w_tasks s !! i = Some (FetchTicket e g) →
    web_step s (finish_fetch fault opened e g (request_stream_ticket env e) (with_tasks (delete i) s))
| WsTimer i e g delay :
    w_tasks s !! i = Some (RetryTimer e g delay) →
    web_step s (retry_timer e g (with_tasks (delete i) s))
| WsOpen k w :
    w_sockets s !! k = Some w → ws_ready w = RsConnecting →
    web_step s (with_handlers w on_open (with_sockets (alter (set_ready RsOpen) k) s))
| WsRecord k w e g t text r fault :
    w_sockets s !! k = Some w → ws_ready w = RsOpen → ws_handlers w = Some (CloudHandlers e g t) →
    json_record text = Some r → log_after t (ws_after w) !! length (ws_received w) = Some r →
    web_step s (on_message fault (CloudHandlers e g t) (JsText text)
                  (with_sockets (alter (note_received r) k) s))
| WsMessage k w data :
    w_sockets s !! k = Some w → ws_ready w = RsOpen →
    (∀ e g t, ws_handlers w ≠ Some (CloudHandlers e g t)) →
    web_step s (with_handlers w (λ h, on_message None h data) s)
| WsError k w :
    w_sockets s !! k = Some w → ws_ready w ≠ RsClosed →
    web_step s (with_handlers w on_error s)
| WsClose k w clean code reason :
    w_sockets s !! k = Some w → ws_ready w ≠ RsClosed →
    web_step s (with_handlers w (λ h, on_close h clean code reason) (with_sockets (alter (set_ready RsClosed) k) s))
| WsLocal key value :
    starts_with key CURSOR_STORAGE_PREFIX = false →
    web_step s (with_local (insert key value) s).

(** The log of the store: cursors strictly increase from one, and a tenant's
    log holds its own records. *)
Definition log_ok : Prop := ∀ t,
  StronglySorted (λ a b, rec_cursor a < rec_cursor b) (log t) ∧
  Forall (λ r, 0 < rec_cursor r ≤ u64_max ∧ scope (rec_envelope r) = Tenant t) (log t).

(** ** What a page has received *)

Definition record_item (r : SignalRecord) : Z * Signal := (rec_cursor r, payload (rec_envelope r)).
Definition valid_tenant (t : TenantId) : Prop := uuid128 (tenant_uuid t).

(** The cursor the local storage holds for an endpoint and a tenant. *)
Definition stored_cursor (local : gmap string string) (e : string) (t : TenantId) : Z :=
  default 0 (local !! cursor_storage_key e t ≫= parse_u64).
Definition delivered_for (e : string) (t : TenantId) (s : WebState) : list (Z * Signal) :=
  (filter (λ d, d.1 = (e, t)) (w_delivered s)).*2.

(** The records between two cursors. *)
Definition log_between (t : TenantId) (a b : Z) : list SignalRecord :=
  filter (λ r, a < rec_cursor r ≤ b) (log t).

(** ** The invariant *)

Definition task_of (e : string) (g : Z) (task : Task) : Prop :=
  match task with FetchTicket e' g' | RetryTimer e' g' _ => e' = e ∧ g' = g end.
#[global] Instance task_of_dec e g task : Decision (task_of e g task).
Proof. destruct task; simpl; apply _. Defined.
Definition task_generation (task : Task) : Z :=
  match task with FetchTicket _ g | RetryTimer _ g _ => g end.
Definition task_delay (task : Task) : Z := match task with FetchTicket _ _ => 0 | RetryTimer _ _ d => d end.
Definition tasks_of (e : string) (g : Z) (s : WebState) : list Task := filter (task_of e g) (w_tasks s).

(** The socket can still call the handlers of a cloud connection. *)
Definition live (e : string) (g : Z) (t : TenantId) (w : Socket) : Prop :=
  ws_handlers w = Some (CloudHandlers e g t) ∧ ws_ready w ≠ RsClosed.

Context (local0 : gmap string string).
Definition handed (s : WebState) (e : string) (t : TenantId) (r : SignalRecord) : Prop :=
  (e, t, record_item r) ∈ w_delivered s.

Record live_ok (s : WebState) (k : nat) (w : Socket) (e : string) (g : Z) (t : TenantId) (c : CloudConnection)
    : Prop := {
  lo_socket : cc_socket c = Some k;
  lo_tenant : cc_tenant c = Some t;
  lo_tasks : tasks_of e g s = [];
  lo_after : ws_after w ≤ persisted_cursor c;
  lo_received : ws_received w `prefix_of` log_after t (ws_after w);
  lo_handed r : r ∈ ws_received w → stored_cursor local0 e t < rec_cursor r → handed s e t r;
  lo_exact r : w_faults s = false → r ∈ ws_received w → rec_cursor r ≤ persisted_cursor c;
}.

Record web_inv (s : WebState) : Prop := {
  wi_next : 1 ≤ w_next_generation s;
  wi_generation e c : w_connections s !! e = Some (CloudConn c) →
    generation c < w_next_generation s ∧ 0 ≤ reconnect_attempt c ≤ MAX_RECONNECT_ATTEMPTS;
  wi_task task : task ∈ w_tasks s →
    task_generation task < w_next_generation s ∧ task_delay task ≤ MAX_RECONNECT_DELAY_MS;
  wi_mode e c e' : w_connections s !! e = Some (CloudConn c) → is_Some (w_connections s !! e') → e' = e;
  wi_one e g : (length (tasks_of e g s) ≤ 1)%nat;
  wi_live k w e g t : w_sockets s !! k = Some w → live e g t w →
    ∃ c, get_cloud e g s = Some c ∧ live_ok s k w e g t c;
  wi_mem e c t : w_connections s !! e = Some (CloudConn c) → cc_tenant c = Some t →
    valid_tenant t ∧
    (∀ r, r ∈ log t → stored_cursor local0 e t < rec_cursor r ≤ persisted_cursor c → handed s e t r) ∧
    (w_faults s = false → persisted_cursor c = stored_cursor (w_local s) e t);
  wi_cover e t r : valid_tenant t → r ∈ log t →
    stored_cursor local0 e t < rec_cursor r ≤ stored_cursor (w_local s) e t → handed s e t r;
  wi_exact e t : w_faults s = false → valid_tenant t →
    stored_cursor local0 e t ≤ stored_cursor (w_local s) e t ∧
    delivered_for e t s = record_item <$> log_between t (stored_cursor local0 e t) (stored_cursor (w_local s) e t);
  wi_messages : ((λ d, WmSignal d.1.1 d.2.2) <$> w_delivered s) `sublist_of` w_messages s;
}.

(** ** Lemmas: steps that leave the connection's facts alone *)

Lemma get_cloud_Some e g s c :
  get_cloud e g s = Some c ↔ w_connections s !! e = Some (CloudConn c) ∧ generation c = g.
Proof.
  unfold get_cloud. destruct (w_connections s !! e) as [[k|c']|]; [naive_solver| |naive_solver].
  destruct (generation c' =? g) eqn:E; to_prop; naive_solver.
Qed.

(** Only the messages and the list of active endpoints may change. *)
Definition same_core (s s' : WebState) : Prop :=
  w_connections s' = w_connections s ∧ w_next_generation s' = w_next_generation s ∧ w_local s' = w_local s ∧
  w_sockets s' = w_sockets s ∧ w_tasks s' = w_tasks s ∧ w_delivered s' = w_delivered s ∧
  w_faults s' = w_faults s ∧ w_messages s `sublist_of` w_messages s'.

Lemma same_core_inv s s' : same_core s s' → web_inv s → web_inv s'.
Proof.
  destruct s as [ms cs ac g lo so ta de fa], s' as [ms' cs' ac' g' lo' so' ta' de' fa'].
  unfold same_core. simpl. intros (-> & -> & -> & -> & -> & -> & -> & Hm) [I1 I2 I3 I4 I5 I6 I7 I8 I9 I10].
  split; try done.
  - intros k w e g0 t Hw Hl. destruct (I6 k w e g0 t Hw Hl) as (c & Hc & [O1 O2 O3 O4 O5 O6 O7]).
    exists c. split; [done|by split].
  - simpl in *. by etransitivity.
Qed.

Lemma push_core m s : same_core s (push_message m s).
Proof. unfold same_core. simpl. split_and!; try done. by apply sublist_inserts_r. Qed.
Lemma push_inv m s : web_inv s → web_inv (push_message m s).
Proof. apply same_core_inv, push_core. Qed.
Lemma report_inv l e s : web_inv s → web_inv (report_error l e s).
Proof. apply push_inv. Qed.
Lemma active_inv f s : web_inv s → web_inv (with_active f s).
Proof. apply same_core_inv. by repeat split. Qed.
Lemma snapshot_inv s : web_inv s → web_inv (publish_active_snapshot s).
Proof. apply push_inv. Qed.

(** Sockets may lose their handlers or change state, but not open again. *)
Definition only_quieter (f : Socket → Socket) : Prop := ∀ w,
  (ws_handlers (f w) = ws_handlers w ∨ ws_handlers (f w) = None) ∧
  (ws_ready w = RsClosed → ws_ready (f w) = RsClosed) ∧
  ws_after (f w) = ws_after w ∧ ws_received (f w) = ws_received w.

Lemma quieter_live f e g t w : only_quieter f → live e g t (f w) → live e g t w.
Proof. intros Hf [Hh Hr]. destruct (Hf w) as ([E|E] & Hc & _); [|congruence]. split; [congruence|naive_solver]. Qed.

Lemma lookup_alter_socket f k j (ws : list Socket) w : alter f k ws !! j = Some w →
  ∃ w0, ws !! j = Some w0 ∧ (j = k ∧ w = f w0 ∨ j ≠ k ∧ w = w0).
Proof.
  rewrite list_lookup_alter. destruct (decide (k = j)) as [->|Hne]; [|eauto].
  intros (w0 & -> & ?)%fmap_Some. eauto.
Qed.

Lemma alter_socket_inv f k s : only_quieter f → web_inv s → web_inv (with_sockets (alter f k) s).
Proof.
  intros Hf [I1 I2 I3 I4 I5 I6 I7 I8 I9 I10]. split; try done.
  intros j w e g t Hw Hl. simpl in Hw. apply lookup_alter_socket in Hw as (w0 & Hw & [[-> ->]| [Hne ->]]).
  - destruct (I6 k w0 e g t Hw (quieter_live _ _ _ _ _ Hf Hl)) as (c & Hc & [O1 O2 O3 O4 O5 O6 O7]).
    destruct (Hf w0) as (_ & _ & Ha & Hr). exists c. split; [done|]. split; try done; by rewrite ?Ha, ?Hr.
  - destruct (I6 j w0 e g t Hw Hl) as (c & Hc & [O1 O2 O3 O4 O5 O6 O7]). exists c. split; [done|by split].
Qed.

Lemma detach_quieter : only_quieter (set_handlers None).
Proof. intros w. naive_solver. Qed.
Lemma close_quieter : only_quieter (λ w, match ws_ready w with RsClosed => w | _ => set_ready RsClosing w end).
Proof. intros w. destruct (ws_ready w) eqn:E; simpl; naive_solver. Qed.
Lemma closed_quieter : only_quieter (set_ready RsClosed).
Proof. intros w. naive_solver. Qed.

Definition no_live (e : string) (g : Z) (s : WebState) : Prop :=
  ∀ k w t, w_sockets s !! k = Some w → ¬ live e g t w.

Lemma no_live_alter e g f k s : only_quieter f → no_live e g s → no_live e g (with_sockets (alter f k) s).
Proof.
  intros Hf Hn j w t Hw Hl. simpl in Hw. apply lookup_alter_socket in Hw as (w0 & Hw & [[-> ->]| [_ ->]]).
  - by eapply Hn, quieter_live.
  - by eapply Hn.
Qed.

(** A connection may change its phase and its count of attempts. *)
Definition same_facts (c c' : CloudConnection) : Prop :=
  generation c' = generation c ∧ cc_tenant c' = cc_tenant c ∧ cc_socket c' = cc_socket c ∧
  persisted_cursor c' = persisted_cursor c.

Lemma lookup_put e e' c s : w_connections (put_cloud e c s) !! e' =
  if decide (e = e') then Some (CloudConn c) else w_connections s !! e'.
Proof. simpl. destruct (decide (e = e')) as [->|]; [by rewrite lookup_insert_eq|by rewrite lookup_insert_ne]. Qed.

Lemma put_same_inv e g c c' s : get_cloud e g s = Some c → same_facts c c' →
  0 ≤ reconnect_attempt c' ≤ MAX_RECONNECT_ATTEMPTS → web_inv s → web_inv (put_cloud e c' s).
Proof.
  intros [Hc Hg]%get_cloud_Some (F1 & F2 & F3 & F4) Ha [I1 I2 I3 I4 I5 I6 I7 I8 I9 I10]. split; try done.
  - intros e1 c1. rewrite lookup_put. destruct (decide (e = e1)) as [<-|]; [|apply I2].
    intros [= <-]. destruct (I2 e c Hc). split; [simpl; lia|done].
  - intros e1 c1 e2. rewrite !lookup_put.
    destruct (decide (e = e1)) as [<-|]; destruct (decide (e = e2)) as [<-|]; try done.
    + intros _. by apply (I4 e c).
    + intros Hx1 _. by apply (I4 e1 c1 e Hx1).
    + apply I4.
  - intros k w e1 g1 t Hw Hl. destruct (I6 k w e1 g1 t Hw Hl) as (c1 & Hc1 & [O1 O2 O3 O4 O5 O6 O7]).
    apply get_cloud_Some in Hc1 as [Hc1 Hg1].
    exists (if decide (e = e1) then c' else c1). rewrite get_cloud_Some, lookup_put.
    destruct (decide (e = e1)) as [<-|]; [|split; [done|by split]].
    rewrite Hc in Hc1. injection Hc1 as <-. split; [split; [done|congruence]|].
    split; simpl in *; rewrite ?F2, ?F3, ?F4; done.
  - intros e1 c1 t. rewrite lookup_put. destruct (decide (e = e1)) as [<-|]; [|apply I7].
    intros [= <-]. rewrite F2, F4. by apply I7.
Qed.

(** ** Lemmas: tasks *)

Lemma filter_sublist_mono {A} (P : A → Prop) `{∀ x, Decision (P x)} (l k : list A) :
  l `sublist_of` k → filter P l `sublist_of` filter P k.
Proof.
  induction 1 as [|x l k _ IH|x l k _ IH]; [done| |]; rewrite ?filter_cons; destruct (decide (P x));
    try done; by constructor.
Qed.

Lemma delete_task_inv i s : web_inv s → web_inv (with_tasks (delete i) s).
Proof.
  intros [I1 I2 I3 I4 I5 I6 I7 I8 I9 I10].
  assert (∀ e g, length (filter (task_of e g) (delete i (w_tasks s))) ≤ length (tasks_of e g s))%nat as Hle.
  { intros e g. apply sublist_length, filter_sublist_mono, sublist_delete. }
  split; try done.
  - intros task Ht. apply I3. simpl in Ht. eapply elem_of_sublist; [exact Ht|apply sublist_delete].
  - intros e g. specialize (I5 e g). specialize (Hle e g). unfold tasks_of in *. simpl. lia.
  - intros k w e g t Hw Hl. destruct (I6 k w e g t Hw Hl) as (c & Hc & [O1 O2 O3 O4 O5 O6 O7]).
    exists c. split; [done|]. split; try done. apply nil_length_inv. specialize (Hle e g).
    rewrite O3 in Hle. unfold tasks_of. simpl in *. lia.
Qed.

Lemma deleted_task e g i task s : w_tasks s !! i = Some task → task_of e g task → web_inv s →
  tasks_of e g (with_tasks (delete i) s) = [] ∧ no_live e g (with_tasks (delete i) s).
Proof.
  intros Hi Ht Hs. split.
  - apply nil_length_inv. pose proof (wi_one s Hs e g) as Hx1. revert Hx1. unfold tasks_of. simpl.
    rewrite (delete_take_drop (w_tasks s)). rewrite <-(take_drop_middle _ _ _ Hi) at 1.
    rewrite !filter_app, filter_cons_True, !length_app by done. simpl. lia.
  - intros k w t Hw Hl. destruct (wi_live s Hs k w e g t Hw Hl) as (c & _ & O).
    pose proof (lo_tasks _ _ _ _ _ _ _ O) as Hx0. unfold tasks_of in Hx0.
    assert (task ∈ filter (task_of e g) (w_tasks s)) as Hin.
    { apply list_elem_of_filter. split; [done|]. by eapply list_elem_of_lookup_2. }
    rewrite Hx0 in Hin. by apply elem_of_nil in Hin.
Qed.

Lemma add_task_inv e g task s : task_of e g task → task_delay task ≤ MAX_RECONNECT_DELAY_MS →
  is_Some (get_cloud e g s) → tasks_of e g s = [] → no_live e g s → web_inv s →
  web_inv (with_tasks (λ ts, ts ++ [task]) s).
Proof.
  intros Ht Hd [c [Hc Hg]%get_cloud_Some] Hn Hl [I1 I2 I3 I4 I5 I6 I7 I8 I9 I10]. split; try done.
  - intros t' [Ht'| ->%list_elem_of_singleton]%elem_of_app; [by apply I3|].
    split; [|done]. destruct (I2 e c Hc) as [Hlt _]. destruct task; simpl in *; lia.
  - intros e1 g1. unfold tasks_of. simpl. rewrite filter_app.
    destruct (decide (task_of e1 g1 task)) as [Ht1|Ht1].
    + assert (e1 = e ∧ g1 = g) as [-> ->] by (destruct task; simpl in *; naive_solver).
      unfold tasks_of in Hn. rewrite Hn, filter_cons_True by done. simpl. lia.
    + rewrite filter_cons_False, filter_nil, app_nil_r by done. apply I5.
  - intros k w e1 g1 t Hw Hl1. destruct (I6 k w e1 g1 t Hw Hl1) as (c1 & Hc1 & [O1 O2 O3 O4 O5 O6 O7]).
    exists c1. split; [done|]. split; try done. unfold tasks_of. simpl. rewrite filter_app.
    unfold tasks_of in O3. rewrite O3. rewrite filter_cons_False; [done|].
    intros Ht1. assert (e1 = e ∧ g1 = g) as [-> ->] by (destruct task; simpl in *; naive_solver).
    by eapply Hl.
Qed.

(** ** Lemmas: connecting and retrying *)

(** No work is pending for a connection and none of its sockets is live. *)
Definition idle (e : string) (g : Z) (s : WebState) : Prop := tasks_of e g s = [] ∧ no_live e g s.

Lemma retry_delay_bound attempt : retry_delay_ms attempt ≤ MAX_RECONNECT_DELAY_MS.
Proof. apply Z.le_min_r. Qed.

Lemma connecting_inv e g b s : web_inv s → web_inv (set_cloud_connecting e g b s).
Proof.
  intros Hs. unfold set_cloud_connecting. destruct (get_cloud e g s) as [c|] eqn:E; [|done].
  eapply put_same_inv; [done|by repeat split| |done].
  apply get_cloud_Some in E as [E _]. exact (proj2 (wi_generation s Hs e c E)).
Qed.

Lemma connecting_idle e g b s : idle e g s → idle e g (set_cloud_connecting e g b s).
Proof. unfold set_cloud_connecting. by destruct (get_cloud e g s). Qed.

Lemma begin_inv e g s : idle e g s → web_inv s → web_inv (begin_cloud_connect e g s).
Proof.
  intros [Ht Hl] Hs. unfold begin_cloud_connect. destruct (get_cloud e g s) as [c|] eqn:E; [|done].
  destruct (connecting c); [done|]. pose proof E as [Hc Hg]%get_cloud_Some.
  apply (add_task_inv e g); try done.
  - exists (set_connecting true c). rewrite get_cloud_Some, lookup_put, decide_True by done. done.
  - eapply put_same_inv; [done|by repeat split| |done]. exact (proj2 (wi_generation s Hs e c Hc)).
Qed.

Lemma schedule_inv e g reason s : idle e g s → web_inv s → web_inv (schedule_cloud_retry e g reason s).
Proof.
  intros [Ht Hl] Hs. unfold schedule_cloud_retry. destruct (get_cloud e g s) as [c|] eqn:E; [|done].
  destruct (connecting c); [done|]. destruct (MAX_RECONNECT_ATTEMPTS <=? _) eqn:Ea; to_prop; [by apply report_inv|].
  pose proof E as [Hc Hg]%get_cloud_Some. pose proof (proj2 (wi_generation s Hs e c Hc)).
  apply (add_task_inv e g); try done.
  - apply retry_delay_bound.
  - eexists (set_attempt _ c). rewrite get_cloud_Some. cbn [report_error push_message with_messages w_connections].
    rewrite lookup_put, decide_True by done. done.
  - apply report_inv. eapply put_same_inv; [done|by repeat split| |done]. cbn [reconnect_attempt set_attempt]. lia.
Qed.

Lemma retry_timer_inv e g s : idle e g s → web_inv s → web_inv (retry_timer e g s).
Proof. intros Hi Hs. unfold retry_timer. destruct (get_cloud e g s); [by apply begin_inv|done]. Qed.

(** ** Lemmas: the stored cursor *)

Context `{!UuidLaws}.

Lemma cursor_key_inj e e' t t' : valid_tenant t → valid_tenant t' →
  cursor_storage_key e t = cursor_storage_key e' t' → e = e' ∧ t = t'.
Proof.
  intros Hv Hv' E. apply (f_equal as_bytes) in E. unfold cursor_storage_key in E.
  rewrite !as_bytes_app in E. apply app_inv_head in E. rewrite !app_assoc in E.
  apply app_inj_2 in E as [E1 E2].
  2:{ unfold tenant_text. by rewrite !uuid_text_length. }
  apply app_inj_2 in E1 as [E1 _]; [|done]. split; [by apply as_bytes_inj|].
  apply as_bytes_inj, uuid_text_inj in E2; [|done..]. destruct t, t'; simpl in *. congruence.
Qed.

Lemma stored_insert e t cursor local e' t' : valid_tenant t → valid_tenant t' → in_u64 cursor →
  stored_cursor (<[cursor_storage_key e t := u64_to_string cursor]> local) e' t' =
    if decide ((e', t') = (e, t)) then cursor else stored_cursor local e' t'.
Proof.
  intros Hv Hv' Hc. unfold stored_cursor. destruct (decide ((e', t') = (e, t))) as [[= -> ->]|Hne].
  - rewrite lookup_insert_eq. simpl. by rewrite parse_u64_to_string.
  - rewrite lookup_insert_ne; [done|]. intros E. apply Hne. by destruct (cursor_key_inj _ _ _ _ Hv Hv' E) as [-> ->].
Qed.

Lemma stored_other key value local e t : starts_with key CURSOR_STORAGE_PREFIX = false →
  stored_cursor (<[key := value]> local) e t = stored_cursor local e t.
Proof.
  intros Hk. unfold stored_cursor. rewrite lookup_insert_ne; [done|]. intros ->.
  unfold starts_with, cursor_storage_key in Hk. rewrite as_bytes_app, list_prefix_app in Hk. done.
Qed.

Lemma fault_inv s : web_inv s → web_inv (with_fault s).
Proof.
  intros [I1 I2 I3 I4 I5 I6 I7 I8 I9 I10]. split; try done.
  - intros k w e g t Hw Hl. destruct (I6 k w e g t Hw Hl) as (c & Hc & [O1 O2 O3 O4 O5 O6 O7]).
    exists c. split; [done|]. by split.
  - intros e c t Hc Ht. destruct (I7 e c t Hc Ht) as (V & C & _). by split_and!.
Qed.

(** A connection without a live socket may take a tenant and its cursor. *)
Lemma put_tenant_inv e g c t cursor s : get_cloud e g s = Some c → idle e g s → valid_tenant t → web_inv s →
  (∀ r, r ∈ log t → stored_cursor local0 e t < rec_cursor r ≤ cursor → handed s e t r) →
  (w_faults s = false → cursor = stored_cursor (w_local s) e t) →
  web_inv (put_cloud e (set_tenant t cursor c) s).
Proof.
  intros [Hc Hg]%get_cloud_Some [_ Hn] Hv [I1 I2 I3 I4 I5 I6 I7 I8 I9 I10] Hcov Hf. split; try done.
  - intros e1 c1. rewrite lookup_put. destruct (decide (e = e1)) as [<-|]; [|apply I2].
    intros [= <-]. by destruct (I2 e c Hc).
  - intros e1 c1 e2. rewrite !lookup_put.
    destruct (decide (e = e1)) as [<-|]; destruct (decide (e = e2)) as [<-|]; try done.
    + intros _. by apply (I4 e c).
    + intros Hx1 _. by apply (I4 e1 c1 e Hx1).
    + apply I4.
  - intros k w e1 g1 t1 Hw Hl. destruct (I6 k w e1 g1 t1 Hw Hl) as (c1 & Hc1 & [O1 O2 O3 O4 O5 O6 O7]).
    apply get_cloud_Some in Hc1 as [Hc1 Hg1]. exists c1. rewrite get_cloud_Some, lookup_put.
    destruct (decide (e = e1)) as [<-|]; [|split; [done|by split]].
    rewrite Hc in Hc1. injection Hc1 as <-. assert (g1 = g) as -> by congruence. by destruct (Hn k w t1 Hw).
  - intros e1 c1 t1. rewrite lookup_put. destruct (decide (e = e1)) as [<-|]; [|apply I7].
    intros [= <-] [= <-]. by split_and!.
Qed.

Lemma prepare_inv fault e g t s : idle e g s → valid_tenant t → web_inv s →
  let '(after, s') := prepare_cloud_tenant fault e g t s in
  web_inv s' ∧ idle e g s' ∧
  ∀ a, after = Some a → ∃ c, get_cloud e g s' = Some c ∧ cc_tenant c = Some t ∧ persisted_cursor c = a.
Proof.
  intros Hi Hv Hs. unfold prepare_cloud_tenant. destruct (get_cloud e g s) as [c|] eqn:E; [|done].
  destruct (bool_decide (cc_tenant c = Some t)) eqn:Et.
  { apply bool_decide_eq_true in Et. split_and!; [done|apply Hi..|]. intros a [= <-]. eauto. }
  assert (∀ s1 cursor, same_core s s1 ∨ same_core (with_fault s) s1 →
    (w_faults s1 = false → cursor = stored_cursor (w_local s) e t) → cursor ≤ stored_cursor (w_local s) e t →
    let s2 := publish_storage_scope (CloudScope e t) (put_cloud e (set_tenant t cursor c) s1) in
    web_inv s2 ∧ idle e g s2 ∧ ∃ c, get_cloud e g s2 = Some c ∧ cc_tenant c = Some t ∧ persisted_cursor c = cursor) as Hput.
  { intros s1 cursor Hcore Hf Hle s2.
    assert (web_inv s1) as Hs1.
    { destruct Hcore as [Hcore|Hcore]; eapply same_core_inv; [done|done|done|by apply fault_inv]. }
    assert (w_connections s1 = w_connections s ∧ w_tasks s1 = w_tasks s ∧ w_sockets s1 = w_sockets s ∧
            w_local s1 = w_local s ∧ w_delivered s1 = w_delivered s) as (Ec & Et1 & Es & El & Ed).
    { unfold same_core in Hcore. simpl in Hcore. destruct Hcore; by destruct_and!. }
    assert (get_cloud e g s1 = Some c) as Hc1 by (unfold get_cloud in *; by rewrite Ec).
    assert (idle e g s1) as Hi1.
    { destruct Hi as [Hi1 Hi2]. unfold idle, tasks_of, no_live in *. by rewrite Et1, Es. }
    split_and!.
    - apply push_inv, (put_tenant_inv e g); try done; [|by rewrite El].
      intros r Hr Hb. unfold handed. rewrite Ed. apply (wi_cover s Hs); [done..|lia].
    - apply Hi1.
    - exists (set_tenant t cursor c). split; [|done]. apply get_cloud_Some in Hc1 as [_ Hg1]. rewrite get_cloud_Some.
      cbn [publish_storage_scope push_message with_messages w_connections s2]. rewrite lookup_put, decide_True by done.
      done. }
  assert (0 ≤ stored_cursor (w_local s) e t) as Hge.
  { unfold stored_cursor. destruct (w_local s !! _) as [v|]; simpl; [|done].
    destruct (parse_u64 v) eqn:Ep; simpl; [|done]. apply parse_u64_range in Ep. apply Ep. }
  destruct (load_cursor fault e t s) as [cursor|error] eqn:El.
  - assert (cursor = stored_cursor (w_local s) e t) as ->.
    { revert El. unfold load_cursor, stored_cursor. destruct fault; [done|].
      destruct (w_local s !! _) as [v|]; simpl; [|by intros [= <-]].
      by destruct (parse_u64 v) eqn:Ep; simpl; [intros [= <-]|]. }
    destruct (Hput s (stored_cursor (w_local s) e t)) as (? & ? & ?); [left; by repeat split|done|done|].
    split_and!; [done..|]. by intros a [= <-].
  - destruct (Hput (report_error (Some e) error (with_fault s)) 0) as (? & ? & ?); [right; apply push_core|done|done|].
    split_and!; [done..|]. by intros a [= <-].
Qed.

(** ** Lemmas: opening a stream *)

Lemma attach_inv e g t c url s : get_cloud e g s = Some c → cc_tenant c = Some t → idle e g s → web_inv s →
  web_inv (put_cloud e (set_socket (length (w_sockets s)) c)
    (with_sockets (λ ws, ws ++ [new_socket url (CloudHandlers e g t) (persisted_cursor c)]) s)).
Proof.
  intros [Hc Hg]%get_cloud_Some Ht [Hi Hn] [I1 I2 I3 I4 I5 I6 I7 I8 I9 I10]. split; try done.
  - intros e1 c1. rewrite lookup_put. destruct (decide (e = e1)) as [<-|]; [|apply I2].
    intros [= <-]. by destruct (I2 e c Hc).
  - intros e1 c1 e2. rewrite !lookup_put.
    destruct (decide (e = e1)) as [<-|]; destruct (decide (e = e2)) as [<-|]; try done.
    + intros _. by apply (I4 e c).
    + intros Hx1 _. by apply (I4 e1 c1 e Hx1).
    + apply I4.
  - intros k w e1 g1 t1 Hw Hl. cbn [put_cloud with_connections with_sockets w_sockets] in Hw.
    apply lookup_app_Some in Hw as [Hw|[Hk Hw]].
    + destruct (I6 k w e1 g1 t1 Hw Hl) as (c1 & Hc1 & [O1 O2 O3 O4 O5 O6 O7]).
      apply get_cloud_Some in Hc1 as [Hc1 Hg1]. exists c1. rewrite get_cloud_Some, lookup_put.
      destruct (decide (e = e1)) as [<-|]; [|split; [done|by split]].
      rewrite Hc in Hc1. injection Hc1 as <-. assert (g1 = g) as -> by congruence. by destruct (Hn k w t1 Hw).
    + apply list_lookup_singleton_Some in Hw as [Hk0 <-]. destruct Hl as [[= <- <- <-] _].
      exists (set_socket (length (w_sockets s)) c). rewrite get_cloud_Some, lookup_put, decide_True by done.
      split; [done|]. split; simpl; try done.
      * f_equal. lia.
      * apply prefix_nil.
      * set_solver.
      * set_solver.
  - intros e1 c1 t1. rewrite lookup_put. destruct (decide (e = e1)) as [<-|]; [|apply I7].
    intros [= <-] Ht1. exact (I7 e c t1 Hc Ht1).
Qed.

Lemma open_inv fault opened e g ticket s : idle e g s → valid_tenant (st_tenant ticket) → web_inv s →
  let '(res, s') := open_cloud_socket fault opened e g ticket s in
  web_inv s' ∧ match res with Ok _ => True | Err _ => idle e g s' end.
Proof.
  intros Hi Hv Hs. unfold open_cloud_socket. pose proof (prepare_inv fault e g _ s Hi Hv Hs) as Hp.
  destruct (prepare_cloud_tenant fault e g (st_tenant ticket) s) as [[after|] s1]; [|by destruct Hp].
  destruct Hp as (Hs1 & Hi1 & Hc). destruct (Hc after eq_refl) as (c & Hc1 & Ht & Hp).
  destruct (stream_endpoint e (st_value ticket) after) as [url|error]; [|done].
  destruct opened; [|done]. cbn [negb].
  change (get_cloud e g (with_sockets ?f ?s)) with (get_cloud e g s). rewrite Hc1, <-Hp. split; [|done].
  pose proof (attach_inv e g _ c url s1 Hc1 Ht Hi1 Hs1) as Ha.
  destruct (cc_socket c) as [previous|]; [|exact Ha].
  exact (alter_socket_inv _ previous _ close_quieter (alter_socket_inv _ previous _ detach_quieter Ha)).
Qed.

Lemma ticket_tenant env e ticket : request_stream_ticket env e = Ok ticket → valid_tenant (st_tenant ticket).
Proof.
  unfold request_stream_ticket. intros (token & _ & E)%bind_Ok.
  apply bind_Ok in E as (url & _ & E). apply bind_Ok in E as (response & _ & E).
  destruct (negb (rs_ok response)); [done|]. apply bind_Ok in E as (body & _ & E). destruct (_ <? _); [done|].
  apply bind_Ok in E as (value & _ & E). destruct (_ || _); [done|].
  apply bind_Ok in E as (t & Et & E). injection E as <-. revert Et. unfold tenant_from_stream_ticket.
  intros ([a b] & _ & E)%bind_Ok. apply bind_Ok in E as (_ & _ & E). apply bind_Ok in E as (t' & Et & E).
  apply bind_Ok in E as (z & _ & E). apply bind_Ok in E as (_ & _ & E). injection E as ->. simpl.
  unfold tenant_from_str in Et. destruct (uuid_parse a) as [z'|] eqn:Ez; [|done]. injection Et as <-.
  by apply uuid_parse_range in Ez.
Qed.

Lemma finish_fetch_inv fault opened e g env s : idle e g s → web_inv s →
  web_inv (finish_fetch fault opened e g (request_stream_ticket env e) s).
Proof.
  intros Hi Hs. unfold finish_fetch. destruct (request_stream_ticket env e) as [ticket|error] eqn:Et.
  - pose proof (open_inv fault opened e g ticket s Hi (ticket_tenant _ _ _ Et) Hs) as Ho.
    destruct (open_cloud_socket fault opened e g ticket s) as [[[]|error] s']; destruct Ho as [Hs' Hi']; [done|].
    by apply schedule_inv; [apply connecting_idle|apply connecting_inv].
  - by apply schedule_inv; [apply connecting_idle|apply connecting_inv].
Qed.

(** ** Lemmas: one more record *)

Context (Hlog : log_ok).

Lemma sorted_prefix_next (l k : list SignalRecord) (r r' : SignalRecord) :
  StronglySorted (λ a b, rec_cursor a < rec_cursor b) l → k `prefix_of` l → l !! length k = Some r →
  r' ∈ l → rec_cursor r' ≤ rec_cursor r → r' ∈ k ∨ r' = r.
Proof.
  intros Hs [rest ->] Hr Hin Hle. rewrite lookup_app_r, Nat.sub_diag in Hr by lia.
  destruct rest as [|x rest]; [done|]. injection Hr as ->.
  apply elem_of_app in Hin as [Hin|Hin]; [by left|]. apply elem_of_cons in Hin as [->|Hin]; [by right|].
  apply StronglySorted_app in Hs as (_ & _ & Hs). apply StronglySorted_inv in Hs as [_ Hs].
  eapply Forall_forall in Hs; [|done]. lia.
Qed.

Lemma next_in_log t after received r r' : received `prefix_of` log_after t after →
  log_after t after !! length received = Some r →
  r' ∈ log t → after < rec_cursor r' ≤ rec_cursor r → r' ∈ received ∨ r' = r.
Proof.
  intros Hp Hr Hin [Ha Hle]. destruct (Hlog t) as [Hs _].
  eapply sorted_prefix_next; [|done|done| |done].
  - unfold log_after. by apply StronglySorted_filter.
  - apply list_elem_of_filter. done.
Qed.

Lemma log_between_next t a b r : r ∈ log t → a ≤ b < rec_cursor r →
  (∀ r', r' ∈ log t → rec_cursor r' < rec_cursor r → rec_cursor r' ≤ b) →
  log_between t a (rec_cursor r) = log_between t a b ++ [r].
Proof.
  intros Hin Hab Hb. destruct (Hlog t) as [Hs _]. unfold log_between.
  apply list_elem_of_split in Hin as (l1 & l2 & E). rewrite E in Hs, Hb |- *.
  apply StronglySorted_app in Hs as (Hs1 & _ & Hs2). apply StronglySorted_inv in Hs2 as [_ Hs2].
  rewrite Forall_forall in Hs2. rewrite !filter_app, filter_cons_True, (filter_cons_False _ r) by lia.
  assert (∀ c, c ≤ rec_cursor r → filter (λ r0, a < rec_cursor r0 ≤ c) l2 = []) as Hl2.
  { intros c Hc. apply filter_none. intros x Hx%Hs2. lia. }
  rewrite !Hl2, app_nil_r by lia. f_equal. apply filter_ext_in. intros x Hx.
  assert (rec_cursor x < rec_cursor r) by (apply Hs1; [done|left]).
  pose proof (Hb x). split; [|lia]. intros [? _]. split; [done|]. apply Hb; [|done]. apply elem_of_app. by left.
Qed.

(** The next record of a live socket, noted and not handed over: it is one the
    page already has. *)
Lemma note_inv s k w e g t c r : web_inv s → w_sockets s !! k = Some w → live e g t w →
  get_cloud e g s = Some c → live_ok s k w e g t c →
  log_after t (ws_after w) !! length (ws_received w) = Some r →
  (stored_cursor local0 e t < rec_cursor r → handed s e t r) → (w_faults s = false → rec_cursor r ≤ persisted_cursor c) →
  web_inv (with_sockets (alter (note_received r) k) s).
Proof.
  intros [I1 I2 I3 I4 I5 I6 I7 I8 I9 I10] Hw Hl Hc [O1 O2 O3 O4 O5 O6 O7] Hr Hh Hf. split; try done.
  intros j w1 e1 g1 t1 Hw1 Hl1. simpl in Hw1. apply lookup_alter_socket in Hw1 as (w0 & Hw0 & [[-> ->]| [Hne ->]]).
  - rewrite Hw in Hw0. injection Hw0 as <-.
    assert (e1 = e ∧ g1 = g ∧ t1 = t) as (-> & -> & ->).
    { destruct Hl as [Hh1 _], Hl1 as [Hh2 _]. simpl in Hh2. rewrite Hh1 in Hh2. by injection Hh2 as <- <- <-. }
    exists c. split; [done|]. split; try done.
    + simpl. destruct O5 as [rest E]. rewrite E in Hr |- *. rewrite lookup_app_r, Nat.sub_diag in Hr by lia.
      destruct rest as [|x rest]; [done|]. injection Hr as ->. exists rest. by rewrite <-app_assoc.
    + intros r' Hr'. simpl in Hr'. apply elem_of_app in Hr' as [Hr'| ->%list_elem_of_singleton]; [by apply O6|done].
    + intros r' Hf' Hr'. simpl in Hr'. apply elem_of_app in Hr' as [Hr'| ->%list_elem_of_singleton]; [by apply O7|auto].
  - destruct (I6 j w0 e1 g1 t1 Hw0 Hl1) as (c1 & Hc1 & [P1 P2 P3 P4 P5 P6 P7]). exists c1. split; [done|by split].
Qed.

Definition hand_over (e : string) (t : TenantId) (r : SignalRecord) (s : WebState) : WebState :=
  push_message (WmSignal e (payload (rec_envelope r)))
    (with_delivered (λ l, l ++ [(e, t, record_item r)]) s).

Lemma handed_mono e t r s e' t' r' : handed s e' t' r' → handed (hand_over e t r s) e' t' r'.
Proof. intros Hh. unfold handed. simpl. apply elem_of_app. by left. Qed.
Lemma handed_now e t r s : handed (hand_over e t r s) e t r.
Proof. unfold handed. simpl. apply elem_of_app. right. by left. Qed.

Lemma hand_over_messages e t r s : web_inv s →
  ((λ d, WmSignal d.1.1 d.2.2) <$> w_delivered (hand_over e t r s)) `sublist_of` w_messages (hand_over e t r s).
Proof. intros Hs. simpl. rewrite fmap_app. apply sublist_app; [apply (wi_messages s Hs)|done]. Qed.

(** Handing over a record keeps what is known of every connection. *)
Lemma hand_over_live s k w e g t c e0 t0 r : live_ok s k w e g t c → live_ok (hand_over e0 t0 r s) k w e g t c.
Proof. intros [P1 P2 P3 P4 P5 P6 P7]. split; try done. intros r' Hr' Hlt. by apply handed_mono, P6. Qed.

Lemma hand_over_fault_inv s e t r : web_inv s → web_inv (with_fault (hand_over e t r s)).
Proof.
  intros Hs. pose proof (hand_over_messages e t r s Hs) as Hm. apply fault_inv in Hs.
  destruct Hs as [I1 I2 I3 I4 I5 I6 I7 I8 I9 I10]. split; try done.
  - intros k w e1 g1 t1 Hw Hl. destruct (I6 k w e1 g1 t1 Hw Hl) as (c1 & Hc1 & Hok). exists c1. split; [done|].
    exact (hand_over_live _ _ _ _ _ _ _ e t r Hok).
  - intros e1 c1 t1 Hc1 Ht1. destruct (I7 e1 c1 t1 Hc1 Ht1) as (V & C & _). split_and!; [done| |done].
    intros r' Hr' Hb. apply (handed_mono e t r (with_fault s)). by apply C.
  - intros e1 t1 r' V Hr' Hb. apply (handed_mono e t r (with_fault s)). by apply I8.
Qed.

(** The same with the cursor stored. *)
Lemma hand_over_stored_inv s k w e g t c r : web_inv s → w_sockets s !! k = Some w → live e g t w →
  get_cloud e g s = Some c → live_ok s k w e g t c → r ∈ log t → persisted_cursor c < rec_cursor r →
  (∀ r', r' ∈ log t → ws_after w < rec_cursor r' ≤ rec_cursor r → r' ∈ ws_received w ∨ r' = r) →
  web_inv (put_cloud e (set_tenant t (rec_cursor r) c)
    (with_local (insert (cursor_storage_key e t) (u64_to_string (rec_cursor r))) (hand_over e t r s))).
Proof.
  intros Hs Hw Hl Hc [O1 O2 O3 O4 O5 O6 O7] Hr Hlt Hnext.
  pose proof (hand_over_messages e t r s Hs) as Hm. destruct Hs as [I1 I2 I3 I4 I5 I6 I7 I8 I9 I10].
  apply get_cloud_Some in Hc as [Hc Hg]. destruct (I7 e c t Hc O2) as (V & Cov & Hmem).
  assert (in_u64 (rec_cursor r)) as Hu.
  { destruct (Hlog t) as [_ Hf]. eapply Forall_forall in Hf; [|done]. unfold in_u64. lia. }
  assert (∀ r', r' ∈ log t → stored_cursor local0 e t < rec_cursor r' ≤ rec_cursor r →
    handed (hand_over e t r s) e t r') as Hcov.
  { intros r' Hr' [Ha Hb]. destruct (decide (rec_cursor r' ≤ persisted_cursor c)) as [Hle|Hgt].
    - apply handed_mono, Cov; [done|lia].
    - destruct (Hnext r' Hr') as [Hin|Hin]; [lia|by apply handed_mono, O6|rewrite Hin; apply handed_now]. }
  split; try done.
  - intros e1 c1. rewrite lookup_put. destruct (decide (e = e1)) as [<-|]; [|apply I2].
    intros [= <-]. by destruct (I2 e c Hc).
  - intros e1 c1 e2. rewrite !lookup_put.
    destruct (decide (e = e1)) as [<-|]; destruct (decide (e = e2)) as [<-|]; try done.
    + intros _. by apply (I4 e c).
    + intros Hx1 _. by apply (I4 e1 c1 e Hx1).
    + apply I4.
  - intros j w1 e1 g1 t1 Hw1 Hl1. destruct (I6 j w1 e1 g1 t1 Hw1 Hl1) as (c1 & Hc1 & Hok).
    apply get_cloud_Some in Hc1 as [Hc1 Hg1]. destruct (decide (e = e1)) as [<-|Hne].
    + rewrite Hc in Hc1. injection Hc1 as <-. assert (g1 = g) as -> by congruence.
      destruct Hok as [P1 P2 P3 P4 P5 P6 P7]. assert (t1 = t) as -> by congruence.
      exists (set_tenant t (rec_cursor r) c). rewrite get_cloud_Some, lookup_put, decide_True by done. split; [done|].
      split; try done; simpl.
      * lia.
      * intros r' Hr' Hx. by apply handed_mono, P6.
      * intros r' Hf Hr'. specialize (P7 r' Hf Hr'). lia.
    + exists c1. rewrite get_cloud_Some, lookup_put, decide_False by done. split; [done|].
      destruct (hand_over_live _ _ _ _ _ _ _ e t r Hok) as [Q1 Q2 Q3 Q4 Q5 Q6 Q7]. by split.
  - intros e1 c1 t1. rewrite lookup_put. destruct (decide (e = e1)) as [<-|Hne].
    + intros [= <-] [= <-]. split_and!; [done|exact Hcov|]. intros _. simpl.
      by rewrite stored_insert, decide_True.
    + intros Hc1 Ht1. destruct (I7 e1 c1 t1 Hc1 Ht1) as (V1 & C1 & M1). split_and!; [done| |].
      * intros r' Hr' Hb. by apply handed_mono, C1.
      * intros Hf. simpl. rewrite stored_insert, decide_False by (done || congruence). by apply M1.
  - intros e1 t1 r' V1 Hr'. simpl. rewrite stored_insert by done.
    destruct (decide ((e1, t1) = (e, t))) as [[= -> ->]|Hne]; [by apply Hcov|].
    intros Hb. by apply handed_mono, I8.
  - intros e1 t1 Hf V1. simpl in Hf. destruct (I9 e1 t1 Hf V1) as [Hge He]. simpl. rewrite stored_insert by done.
    unfold delivered_for in He |- *. simpl. rewrite filter_app, fmap_app, He.
    destruct (decide ((e1, t1) = (e, t))) as [[= -> ->]|Hne].
    + rewrite filter_cons_True by done. specialize (Hmem Hf). split; [lia|].
      rewrite (log_between_next t _ (stored_cursor (w_local s) e t)); [by rewrite fmap_app|done|lia|].
      intros r' Hr' Hx. destruct (decide (ws_after w < rec_cursor r')) as [Ha|Ha]; [|lia].
      destruct (Hnext r' Hr') as [Hin| ->]; [lia| |lia]. specialize (O7 r' Hf Hin). lia.
    + rewrite filter_cons_False by done. by rewrite app_nil_r.
Qed.

Lemma record_inv s k w e g t text r fault : web_inv s → w_sockets s !! k = Some w → ws_ready w = RsOpen →
  ws_handlers w = Some (CloudHandlers e g t) → json_record text = Some r →
  log_after t (ws_after w) !! length (ws_received w) = Some r →
  web_inv (on_message fault (CloudHandlers e g t) (JsText text) (with_sockets (alter (note_received r) k) s)).
Proof.
  intros Hs Hw Ho Hh Hj Hr.
  assert (live e g t w) as Hl by (split; [done|congruence]).
  destruct (wi_live s Hs k w e g t Hw Hl) as (c & Hc & Hok). pose proof Hok as [O1 O2 O3 O4 O5 O6 O7].
  assert (r ∈ log t ∧ ws_after w < rec_cursor r) as [Hin Hafter].
  { apply list_elem_of_lookup_2 in Hr. apply list_elem_of_filter in Hr. tauto. }
  destruct (Hlog t) as [_ Hf]. pose proof Hf as Hf'. eapply Forall_forall in Hf' as [Hpos Hscope]; [|done].
  simpl. unfold decode_json_signal. rewrite Hj. rewrite (proj2 (Z.eqb_neq _ _)) by lia.
  cbn [negb ensure mbind result_bind]. rewrite Hscope. unfold queue_cloud_record.
  cbn [dj_cursor dj_tenant dj_signal scope_tenant_id]. rewrite bool_decide_true by done. cbn [negb].
  change (get_cloud e g (with_sockets (alter (note_received r) k) s)) with (get_cloud e g s). rewrite Hc.
  rewrite (bool_decide_true (cc_tenant c = Some t)) by done. cbn [andb].
  destruct (persisted_cursor c <? rec_cursor r) eqn:Ep; to_prop; cbn [negb].
  2:{ eapply note_inv; try done. intros Hlt. apply get_cloud_Some in Hc as [Hc _].
      apply (wi_mem s Hs e c t Hc O2); [done|lia]. }
  assert (∀ r', r' ∈ log t → ws_after w < rec_cursor r' ≤ rec_cursor r → r' ∈ ws_received w ∨ r' = r) as Hnext.
  { intros r' Hr'. by apply (next_in_log t). }
  destruct fault as [error|]; cbn [persist_cursor].
  - apply report_inv.
    pose proof (hand_over_fault_inv s e t r Hs) as Hi.
    exact (note_inv _ k w e g t c r Hi Hw Hl Hc
      (hand_over_live (with_fault s) _ _ _ _ _ _ e t r (Build_live_ok (with_fault s) _ _ _ _ _ _ O1 O2 O3 O4 O5 O6
         (λ r' (Hx : true = false), match Bool.diff_true_false Hx with end)))
      Hr (λ _, handed_now e t r _) (λ Hx : true = false, match Bool.diff_true_false Hx with end)).
  - pose proof (hand_over_stored_inv s k w e g t c r Hs Hw Hl Hc Hok Hin Ep Hnext) as Hi.
    change (get_cloud e g (with_local ?f (push_message ?m (with_delivered ?h (with_sockets ?n s)))))
      with (get_cloud e g s). rewrite Hc. rewrite (bool_decide_true (cc_tenant c = Some t)) by done.
    rewrite Z.max_r by lia.
    set (s' := put_cloud e _ _) in Hi.
    assert (get_cloud e g s' = Some (set_tenant t (rec_cursor r) c)) as Hc'.
    { apply get_cloud_Some. unfold s'. rewrite lookup_put, decide_True by done. split; [done|].
      by apply get_cloud_Some in Hc as [_ Hg]. }
    destruct (wi_live s' Hi k w e g t Hw Hl) as (c2 & Hc2 & Hok2). rewrite Hc' in Hc2. injection Hc2 as <-.
    exact (note_inv s' k w e g t _ r Hi Hw Hl Hc' Hok2 Hr (λ _, handed_now e t r s) (λ _, Z.le_refl _)).
Qed.

(** ** Lemmas: adding and removing connections *)

(** Connections may go, once none of their sockets is live. *)
Lemma fewer_connections_inv f s :
  (∀ e c, f (w_connections s) !! e = Some c → w_connections s !! e = Some c) →
  (∀ e c, w_connections s !! e = Some (CloudConn c) → f (w_connections s) !! e = None → ∀ g, no_live e g s) →
  web_inv s → web_inv (with_connections f s).
Proof.
  intros Hf Hd [I1 I2 I3 I4 I5 I6 I7 I8 I9 I10]. split; try done; simpl.
  - intros e c Hc%Hf. exact (I2 e c Hc).
  - intros e c e' Hc%Hf [c' Hc'%Hf]. apply (I4 e c e' Hc). by exists c'.
  - intros k w e g t Hw Hl. destruct (I6 k w e g t Hw Hl) as (c & Hc & [O1 O2 O3 O4 O5 O6 O7]).
    exists c. split; [|by split]. rewrite get_cloud_Some in Hc |- *. destruct Hc as [Hc Hg]. split; [|done].
    simpl. destruct (f (w_connections s) !! e) as [c'|] eqn:E.
    + pose proof (Hf _ _ E) as E'. congruence.
    + by destruct (Hd e c Hc E g k w t Hw).
  - intros e c t Hc%Hf Ht. exact (I7 e c t Hc Ht).
Qed.

Lemma remove_inv closed value s : web_inv s → web_inv (ingress_remove closed value s).2.
Proof.
  intros Hs. unfold ingress_remove. destruct (normalize_endpoint value) as [endpoint|]; [|done].
  set (key := endpoint_key endpoint). destruct (w_connections s !! key) as [connection|] eqn:Ek; [|done].
  set (socket := match connection with RawConnection k => Some k | CloudConn c => cc_socket c end).
  set (detached := match socket with Some k => detach_handlers k | None => id end).
  assert (web_inv (detached s)) as Hds.
  { unfold detached. destruct socket; [|done]. apply alter_socket_inv; [apply detach_quieter|done]. }
  assert (web_inv (with_connections (delete key) (detached s))) as Hi.
  { apply fewer_connections_inv; [| |done].
    - intros e c Hc. by apply lookup_delete_Some in Hc as [_ Hc].
    - intros e c Hc Hn g k w t Hw Hl. assert (w_connections (detached s) = w_connections s) as Ec
        by (unfold detached; by destruct socket).
      rewrite Ec in Hc, Hn. apply lookup_delete_None in Hn as [<-|Hn]; [|congruence].
      rewrite Ek in Hc. injection Hc as ->. unfold detached, socket in Hds, Hw.
      destruct (wi_live _ Hds k w key g t Hw Hl) as (c1 & Hc1 & Hok).
      apply get_cloud_Some in Hc1 as [Hc1 _]. pose proof (lo_socket _ _ _ _ _ _ _ Hok) as Hk.
      destruct (cc_socket c) as [k0|] eqn:E0; simpl in Hc1; rewrite Ek in Hc1; injection Hc1 as <-; [|congruence].
      rewrite E0 in Hk. injection Hk as ->. simpl in Hw.
      apply lookup_alter_socket in Hw as (w0 & _ & [[_ ->]| [Hne _]]); [|done]. by destruct Hl. }
  assert (∀ (b : bool) s1, web_inv s1 → web_inv (if b then publish_storage_scope CloudPending s1 else s1)) as Hb.
  { intros [] s1 Hs1; [by apply push_inv|done]. }
  assert (web_inv (if is_cloud connection
    then publish_storage_scope CloudPending (publish_active_snapshot (with_active (delete key) (with_connections (delete key) (detached s))))
    else publish_active_snapshot (with_active (delete key) (with_connections (delete key) (detached s))))) as Hp.
  { by apply Hb, snapshot_inv, active_inv. }
  unfold detached in Hp. destruct socket as [k|]; [|exact Hp].
  destruct closed; [|exact Hp]. apply (alter_socket_inv _ k _ close_quieter). exact Hp.
Qed.

Lemma no_cloud_no_live s : web_inv s → (∀ e c, w_connections s !! e ≠ Some (CloudConn c)) →
  ∀ k w e g t, w_sockets s !! k = Some w → ¬ live e g t w.
Proof.
  intros Hs Hn k w e g t Hw Hl. destruct (wi_live s Hs k w e g t Hw Hl) as (c & [Hc _]%get_cloud_Some & _).
  by eapply Hn.
Qed.

Lemma add_raw_inv opened e s : web_inv s → (∀ e c, w_connections s !! e ≠ Some (CloudConn c)) →
  web_inv (add_raw opened e s).2 ∧ w_next_generation (add_raw opened e s).2 = w_next_generation s.
Proof.
  intros Hs Hn. unfold add_raw. destruct opened; [|done]. split; [|done]. apply push_inv.
  pose proof (no_cloud_no_live s Hs Hn) as Hl0. destruct Hs as [I1 I2 I3 I4 I5 I6 I7 I8 I9 I10].
  assert (∀ e1 c, <[e := RawConnection (length (w_sockets s))]> (w_connections s) !! e1 ≠ Some (CloudConn c)) as Hn1.
  { intros e1 c. destruct (decide (e = e1)) as [<-|]; [by rewrite lookup_insert_eq|by rewrite lookup_insert_ne]. }
  split; try done; simpl.
  - intros e1 c Hc. by apply Hn1 in Hc.
  - intros e1 c e2 Hc. by apply Hn1 in Hc.
  - intros k w e1 g t Hw Hl. apply lookup_app_Some in Hw as [Hw|[_ Hw]]; [by destruct (Hl0 k w e1 g t)|].
    apply list_lookup_singleton_Some in Hw as [_ <-]. by destruct Hl.
  - intros e1 c t Hc. by apply Hn1 in Hc.
Qed.

Lemma add_cloud_inv origin e s : web_inv s → w_connections s = ∅ → w_next_generation s < u64_max →
  web_inv (add_cloud origin e s).2 ∧ w_next_generation (add_cloud origin e s).2 ≤ w_next_generation s + 1.
Proof.
  intros Hs Hn Hlt. unfold add_cloud. destruct (require_same_origin origin e); [|split; [done|simpl; lia]].
  assert (∀ e c, w_connections s !! e ≠ Some (CloudConn c)) as Hnc by (intros; by rewrite Hn, lookup_empty).
  pose proof (no_cloud_no_live s Hs Hnc) as Hl0. set (g := w_next_generation s).
  pose proof (wi_next s Hs). pose proof (wi_task s Hs) as Htasks.
  rewrite (Z.mod_small (g + 1)) by (unfold u64_max, g in *; lia). rewrite Z.max_l by (unfold g; lia).
  set (s1 := put_cloud e (new_cloud g) (with_generation (g + 1) s)).
  assert (web_inv s1) as Hs1.
  { destruct Hs as [I1 I2 I3 I4 I5 I6 I7 I8 I9 I10].
    assert (∀ e1 c, w_connections s1 !! e1 = Some c → e1 = e ∧ c = CloudConn (new_cloud g)) as Hone.
    { intros e1 c. unfold s1. rewrite lookup_put. destruct (decide (e = e1)) as [<-|]; [naive_solver|].
      simpl. rewrite Hn. by rewrite lookup_empty. }
    split; try done; simpl; fold g.
    - lia.
    - intros e1 c [-> [= ->]]%Hone. simpl. split; [lia|done].
    - intros task Ht. destruct (I3 task Ht) as [Hx1 Hx2]. fold g in Hx1. split; [lia|done].
    - intros e1 c e2 [-> _]%Hone [c2 [-> _]%Hone]. done.
    - intros k w e1 g1 t Hw Hl. by destruct (Hl0 k w e1 g1 t).
    - intros e1 c t [-> [= ->]]%Hone. done. }
  assert (idle e g s1) as Hi.
  { split.
    - apply filter_none. intros task Ht Htask. destruct (Htasks task Ht) as [Hg _]. fold g in Hg.
      destruct task; simpl in *; lia.
    - intros k w t Hw. exact (Hl0 k w e g t Hw). }
  split.
  - apply begin_inv; [exact Hi|]. by apply snapshot_inv, active_inv, push_inv.
  - unfold begin_cloud_connect. destruct (get_cloud e g _) as [c|]; simpl; [destruct (connecting c); simpl|]; lia.
Qed.

Lemma existsb_false {A} (p : A → bool) l x : existsb p l = false → x ∈ l → p x = false.
Proof.
  intros Hl Hx. destruct (p x) eqn:E; [|done]. rewrite <-Hl. symmetry. apply existsb_exists.
  exists x. split; [by apply list_elem_of_In|done].
Qed.

Lemma elem_of_values {A} (m : gmap string A) k c : m !! k = Some c → c ∈ (map_to_list m).*2.
Proof. intros Hk. apply list_elem_of_fmap. exists (k, c). split; [done|]. by apply elem_of_map_to_list. Qed.

Lemma add_inv origin opened value s : web_inv s → w_next_generation s < u64_max →
  web_inv (ingress_add origin opened value s).2 ∧
  w_next_generation (ingress_add origin opened value s).2 ≤ w_next_generation s + 1.
Proof.
  intros Hs Hlt. unfold ingress_add. destruct (normalize_endpoint value) as [endpoint|]; [|split; [done|simpl; lia]].
  set (s1 := with_connections _ s).
  assert (web_inv s1) as Hs1.
  { apply fewer_connections_inv; [| |done].
    - intros e c Hc. by apply map_lookup_filter_Some in Hc as [Hc _].
    - intros e c Hc Hn. apply map_lookup_filter_None in Hn as [Hn|Hn]; [congruence|]. by destruct (Hn (CloudConn c) Hc). }
  assert (w_next_generation s1 = w_next_generation s) as Hg by done.
  destruct (bool_decide _); [split; [done|simpl; lia]|].
  destruct endpoint as [e|e].
  - destruct (existsb is_cloud _) eqn:Ec; [split; [done|simpl; lia]|].
    destruct (add_raw_inv opened e s1 Hs1) as [Hi Hg1]; [|split; [done|simpl; lia]].
    intros e1 c Hc%elem_of_values. by apply (existsb_false _ _ _ Ec) in Hc.
  - destruct (_ || _) eqn:Ec; [split; [done|simpl; lia]|]. apply orb_false_iff in Ec as [Ec Er].
    rewrite <-Hg. apply add_cloud_inv; [done| |by rewrite Hg].
    apply map_empty. intros e1. destruct (w_connections s1 !! e1) as [c|] eqn:E; [|done].
    apply elem_of_values in E. pose proof (existsb_false _ _ _ Ec E) as Hx1. pose proof (existsb_false _ _ _ Er E) as Hx2.
    by destruct c.
Qed.

(** ** Every step keeps the invariant *)

Lemma live_close e g t k w s : web_inv s → w_sockets s !! k = Some w → live e g t w →
  idle e g (with_sockets (alter (set_ready RsClosed) k) s).
Proof.
  intros Hs Hw Hl. destruct (wi_live s Hs k w e g t Hw Hl) as (c & Hc & Hok). split; [exact (lo_tasks _ _ _ _ _ _ _ Hok)|].
  intros j w1 t1 Hw1 Hl1. simpl in Hw1. apply lookup_alter_socket in Hw1 as (w0 & Hw0 & [[-> ->]| [Hne ->]]).
  - by destruct Hl1.
  - destruct (wi_live s Hs j w0 e g t1 Hw0 Hl1) as (c1 & Hc1 & Hok1). rewrite Hc in Hc1. injection Hc1 as <-.
    pose proof (lo_socket _ _ _ _ _ _ _ Hok). pose proof (lo_socket _ _ _ _ _ _ _ Hok1). congruence.
Qed.

Lemma open_step_inv k w s : web_inv s → w_sockets s !! k = Some w → ws_ready w = RsConnecting →
  web_inv (with_sockets (alter (set_ready RsOpen) k) s).
Proof.
  intros [I1 I2 I3 I4 I5 I6 I7 I8 I9 I10] Hw Hr. split; try done.
  intros j w1 e g t Hw1 Hl. simpl in Hw1. apply lookup_alter_socket in Hw1 as (w0 & Hw0 & [[-> ->]| [Hne ->]]).
  - rewrite Hw in Hw0. injection Hw0 as <-.
    destruct (I6 k w e g t Hw) as (c & Hc & [O1 O2 O3 O4 O5 O6 O7]); [split; [apply Hl|congruence]|].
    exists c. split; [done|by split].
  - destruct (I6 j w0 e g t Hw0 Hl) as (c & Hc & [O1 O2 O3 O4 O5 O6 O7]). exists c. split; [done|by split].
Qed.

Lemma web_step_inv s s' : web_inv s → web_step s s' → web_inv s'.
Proof.
  intros Hs Hstep. destruct Hstep as [origin opened value Hg|closed value|i e g env fault opened Hi|i e g delay Hi
    |k w Hw Hr|k w e g t text r fault Hw Hr Hh Hj Hn|k w data Hw Hr Hh|k w Hw Hr|k w clean code reason Hw Hr|key value Hk].
  - by apply add_inv.
  - by apply remove_inv.
  - destruct (deleted_task e g i _ s Hi) as [Ht Hl]; [done..|]. apply finish_fetch_inv; [done|by apply delete_task_inv].
  - destruct (deleted_task e g i _ s Hi) as [Ht Hl]; [done..|]. apply retry_timer_inv; [done|by apply delete_task_inv].
  - pose proof (open_step_inv k w s Hs Hw Hr) as Ho. unfold with_handlers. destruct (ws_handlers w) as [[e|e g t]|]; [| |done].
    + by apply snapshot_inv, active_inv.
    + simpl. destruct (get_cloud e g _) as [c|] eqn:E; [|done]. eapply put_same_inv; [done|by repeat split|done|done].
  - by eapply record_inv.
  - unfold with_handlers. destruct (ws_handlers w) as [[e|e g t]|] eqn:E; [by apply push_inv|by destruct (Hh e g t)|done].
  - unfold with_handlers. by destruct (ws_handlers w) as [[e|e g t]|]; [apply report_inv|apply report_inv|].
  - pose proof (alter_socket_inv _ k s closed_quieter Hs) as Ho. unfold with_handlers.
    destruct (ws_handlers w) as [[e|e g t]|] eqn:E; [| |done].
    + cbn [on_close]. unfold raw_on_close. destruct clean; [|apply report_inv]; by apply snapshot_inv, active_inv.
    + apply schedule_inv; [apply connecting_idle|by apply connecting_inv]. eapply live_close; [done..|]. by split.
  - destruct Hs as [I1 I2 I3 I4 I5 I6 I7 I8 I9 I10]. split; try done.
    + intros k w e g t Hw Hl. destruct (I6 k w e g t Hw Hl) as (c & Hc & [O1 O2 O3 O4 O5 O6 O7]). exists c. split; [done|by split].
    + intros e c t. simpl. rewrite stored_other by done. apply I7.
    + intros e t r. simpl. rewrite stored_other by done. apply I8.
    + intros e t. simpl. rewrite stored_other by done. apply I9.
Qed.

Lemma init_inv : web_inv (web_init local0).
Proof.
  split; simpl; try done.
  - intros task Ht. by apply elem_of_nil in Ht.
  - intros e g. unfold tasks_of. simpl. lia.
  - intros e t r _ _ Hb. simpl in Hb. lia.
  - intros e t _ _. simpl. split; [done|]. unfold delivered_for, log_between. simpl.
    rewrite (filter_none _ (log t)); [done|]. intros r _. lia.
  - apply sublist_nil_l.
Qed.

Lemma start_inv origin opened endpoints s : web_inv s → w_next_generation s + zlen endpoints < u64_max →
  web_inv (foldl (λ s endpoint,
    match ingress_add origin (opened endpoint) endpoint s with
    | (Ok _, s) => s
    | (Err error, s) => report_error (Some endpoint) error s
    end) s endpoints).
Proof.
  revert s. induction endpoints as [|e es IH]; intros s Hs Hg; [done|]. rewrite zlen_cons in Hg. cbn [foldl].
  pose proof (zlen_nonneg es).
  destruct (add_inv origin (opened e) e s Hs) as [Hi Hn]; [lia|].
  destruct (ingress_add origin (opened e) e s) as [[[]|error] s1]; simpl in Hi, Hn; apply IH.
  - done.
  - lia.
  - by apply report_inv.
  - simpl. lia.
Qed.

Lemma configured_length client_api ingress : (length (configured_endpoints client_api ingress) ≤ 2)%nat.
Proof.
  unfold configured_endpoints. set (values := filter _ _).
  assert (length values ≤ 2)%nat as Hv.
  { unfold values. etransitivity; [apply length_filter|]. rewrite length_fmap. by destruct client_api, ingress; simpl; lia. }
  set (m := list_to_map _ : gmap string ()).
  assert ((btree_iter m).*1 ⊆+ values) as Hs; [|apply submseteq_length in Hs; lia].
  apply NoDup_submseteq.
  - unfold btree_iter. rewrite merge_sort_Permutation. apply NoDup_fst_map_to_list.
  - intros k Hk. apply list_elem_of_fmap in Hk as ([k' []] & -> & Hk). apply elem_of_btree_iter in Hk.
    apply elem_of_list_to_map_2 in Hk. by apply list_elem_of_fmap in Hk as (v & [= ->] & Hk).
Qed.

(** C26: in every run of a page, whatever the order of requests, timers, socket
    events, disconnects, changes of tenant and storage failures: each record a
    live stream has brought was handed to the dashboard, and so was every
    record of the tenant's log up to the stored cursor; while the local storage
    works, the records handed over for an endpoint and tenant are exactly
    those between the cursor stored at the start and the one stored now, in
    order, each once.  A cloud connection is the only connection, it retries
    at most eight times in a row, and no retry waits longer than thirty
    seconds. *)
Theorem browser_stream_exact client_api ingress origin opened s :
  rtc web_step (ingress_start local0 origin opened (configured_endpoints client_api ingress)) s →
  (∀ k w e g t r, w_sockets s !! k = Some w → live e g t w → r ∈ ws_received w →
     stored_cursor local0 e t < rec_cursor r → handed s e t r) ∧
  (∀ e t r, valid_tenant t → r ∈ log t →
     stored_cursor local0 e t < rec_cursor r ≤ stored_cursor (w_local s) e t → handed s e t r) ∧
  (w_faults s = false → ∀ e t, valid_tenant t → delivered_for e t s =
     record_item <$> log_between t (stored_cursor local0 e t) (stored_cursor (w_local s) e t)) ∧
  ((λ d, WmSignal d.1.1 d.2.2) <$> w_delivered s) `sublist_of` w_messages s ∧
  (∀ e c, w_connections s !! e = Some (CloudConn c) →
     w_connections s = {[ e := CloudConn c ]} ∧ 0 ≤ reconnect_attempt c ≤ MAX_RECONNECT_ATTEMPTS) ∧
  Forall (λ task, task_delay task ≤ MAX_RECONNECT_DELAY_MS) (w_tasks s).
Proof.
  intros Hr. assert (web_inv s) as Hs.
  { assert (web_inv (ingress_start local0 origin opened (configured_endpoints client_api ingress))) as Hx0.
    { apply start_inv; [apply init_inv|]. pose proof (configured_length client_api ingress). unfold zlen, u64_max.
      simpl w_next_generation. lia. }
    revert Hx0. induction Hr as [|x y z Hxy _ IH]; [done|]. intros Hx. apply IH. by eapply web_step_inv. }
  split_and!.
  - intros k w e g t r Hw Hl Hin Hlt. destruct (wi_live s Hs k w e g t Hw Hl) as (c & _ & Hok).
    exact (lo_handed _ _ _ _ _ _ _ Hok r Hin Hlt).
  - apply (wi_cover s Hs).
  - intros Hf e t Hv. exact (proj2 (wi_exact s Hs e t Hf Hv)).
  - apply (wi_messages s Hs).
  - intros e c Hc. split; [|exact (proj2 (wi_generation s Hs e c Hc))].
    apply map_eq. intros e'. destruct (decide (e' = e)) as [->|Hne]; [by rewrite lookup_singleton_eq|].
    rewrite lookup_singleton_ne by done. destruct (w_connections s !! e') eqn:E; [|done].
    destruct Hne. apply (wi_mode s Hs e c e' Hc). by rewrite E.
  - apply Forall_forall. intros task Ht. exact (proj2 (wi_task s Hs task Ht)).
Qed.
End steps.

(** ** A page at work *)

#[local] Existing Instance DemoCodec.demo_codec.

Module WebDemo.

(** The hyphenated text of a UUID. *)
Definition hex_byte (z : Z) : byte := u8 (if z <? 10 then 0x30 + z else 0x57 + z).
Fixpoint hex_digits (n : nat) (z : Z) : list byte :=
  match n with O => [] | S n => hex_digits n (z `div` 16) ++ [hex_byte (z `mod` 16)] end.
Definition hyphenate (h : list byte) : list byte :=
  take 8 h ++ ["-"%byte] ++ take 4 (drop 8 h) ++ ["-"%byte] ++ take 4 (drop 12 h) ++ ["-"%byte] ++
  take 4 (drop 16 h) ++ ["-"%byte] ++ drop 20 h.
Definition hyphenated (z : Z) : string := of_bytes (hyphenate (hex_digits 32 z)).

Lemma hex_byte_inj a b : 0 ≤ a < 16 → 0 ≤ b < 16 → hex_byte a = hex_byte b → a = b.
Proof.
  unfold hex_byte. intros Ha Hb E%(f_equal b2z). revert E.
  destruct (a <? 10) eqn:Ea, (b <? 10) eqn:Eb; to_prop; rewrite !b2z_u8_small by lia; lia.
Qed.
Lemma length_hex_digits n z : length (hex_digits n z) = n.
Proof. revert z. induction n as [|n IH]; intros z; simpl; [done|]. rewrite length_app, IH. simpl. lia. Qed.
Lemma hex_digits_inj n z w : 0 ≤ z < 16 ^ Z.of_nat n → 0 ≤ w < 16 ^ Z.of_nat n →
  hex_digits n z = hex_digits n w → z = w.
Proof.
  revert z w. induction n as [|n IH]; intros z w Hz Hw; [simpl in *; lia|].
  rewrite Nat2Z.inj_succ, Z.pow_succ_r in Hz, Hw by lia. cbn [hex_digits]. intros E.
  apply app_inj_2 in E as [E1 [= E2]]; [|done].
  apply IH in E1; [|split; [apply Z.div_pos; lia|apply Z.div_lt_upper_bound; lia]..].
  apply hex_byte_inj in E2; [|apply Z.mod_pos_bound; lia..].
  rewrite (Z.div_mod z 16), (Z.div_mod w 16) by lia. lia.
Qed.
Lemma hyphenate_inj h h' : length h = 32%nat → length h' = 32%nat → hyphenate h = hyphenate h' → h = h'.
Proof.
  intros Hh Hh' E. rewrite <-(take_drop 8 h), <-(take_drop 8 h').
  unfold hyphenate in E. apply app_inj_1 in E as [-> E]; [|rewrite !length_take; lia]. injection E as E. f_equal.
  rewrite <-(take_drop 4 (drop 8 h)), <-(take_drop 4 (drop 8 h')).
  apply app_inj_1 in E as [-> E]; [|rewrite !length_take, !length_drop; lia]. injection E as E. f_equal.
  rewrite !drop_drop. rewrite <-(take_drop 4 (drop (8 + 4) h)), <-(take_drop 4 (drop (8 + 4) h')).
  apply app_inj_1 in E as [E0 E]; [|rewrite !length_take, !length_drop; lia]. injection E as E.
  change (8 + 4)%nat with 12%nat. rewrite E0. f_equal. rewrite !drop_drop.
  rewrite <-(take_drop 4 (drop (12 + 4) h)), <-(take_drop 4 (drop (12 + 4) h')).
  apply app_inj_1 in E as [E1 E]; [|rewrite !length_take, !length_drop; lia]. injection E as E.
  change (12 + 4)%nat with 16%nat. rewrite E1. f_equal. rewrite !drop_drop. exact E.
Qed.

#[export] Instance demo_uuid : UuidApi := {|
  uuid_parse s := if bool_decide (s = hyphenated 7) then Ok 7
                  else if bool_decide (s = hyphenated 9) then Ok 9 else Err "invalid UUID";
  uuid_text := hyphenated;
|}.
Lemma length_hyphenated z : length (as_bytes (hyphenated z)) = 36%nat.
Proof.
  unfold hyphenated. rewrite as_of_bytes. unfold hyphenate.
  rewrite !length_app, !length_take, !length_drop, length_hex_digits. reflexivity.
Qed.
Lemma demo_uuid_laws : UuidLaws.
Proof.
  split.
  - intros s z. unfold uuid_parse, demo_uuid. destruct (bool_decide (s = _)); [intros [= <-]; done|].
    destruct (bool_decide (s = _)); [intros [= <-]; done|done].
  - intros z _. apply length_hyphenated.
  - intros z w Hz Hw E%(f_equal as_bytes). unfold uuid_text, demo_uuid, hyphenated in E. rewrite !as_of_bytes in E.
    apply hyphenate_inj in E; [|apply length_hex_digits..]. by apply hex_digits_inj in E.
Qed.

Definition endpoint : string := "https://monitor.example/".
#[export] Instance demo_url : CloudUrl := {|
  CUrl := string; cu_parse := Some; cu_scheme _ := "https"; cu_username _ := ""; cu_password _ := None;
  cu_host _ := None; cu_path _ := "/"; cu_query _ := None; cu_fragment _ := None; cu_origin u := u;
  cu_set_path _ u := u; cu_clear_query u := u; cu_clear_fragment u := u; cu_set_scheme _ u := Some u;
  cu_append_pair _ _ u := u; cu_to_string u := u;
|}.

Definition tenant : TenantId := mkTenantId 7.
Definition record (cursor : Z) : SignalRecord :=
  mkSignalRecord cursor (mkEnvelope (mkEventId cursor) (Tenant tenant) (mkAgentId "edge") cursor 0 DemoCodec.empty_logs).
Definition demo_log (t : TenantId) : list SignalRecord := if bool_decide (t = tenant) then [record 5; record 8] else [].
#[export] Instance demo_json : CloudJson := {|
  json_record text := if bool_decide (text = "five") then Some (record 5) else None;
  json_signal _ := Err "not a signal";
  json_ticket body := Some body;
|}.
Definition demo_env : TicketEnv := {|
  te_session key := Ok (Some "token");
  te_fetch request := Ok {| rs_ok := true; rs_status := 201; rs_body := Ok (hyphenated 7 +:+ "." +:+ hyphenated 9) |};
|}.

Lemma demo_log_ok : log_ok demo_log.
Proof.
  intros t. unfold demo_log. destruct (bool_decide (t = tenant)) eqn:E; [|by repeat constructor].
  apply bool_decide_eq_true in E as ->. by repeat constructor.
Qed.

(** The page starts, is given a ticket, the stream opens and brings a record. *)
Abbreviation s0 := (ingress_start (H := demo_url) ∅ (Ok endpoint) (λ _, true) (configured_endpoints (Some endpoint) None)).
Abbreviation s1 := (finish_fetch (H := demo_url) None true endpoint 1 (request_stream_ticket demo_env endpoint)
  (with_tasks (delete 0%nat) s0)).
Abbreviation w1 := (new_socket endpoint (CloudHandlers endpoint 1 tenant) 0).
Abbreviation s2 := (with_handlers w1 on_open (with_sockets (alter (set_ready RsOpen) 0%nat) s1)).
Abbreviation s3 := (on_message None (CloudHandlers endpoint 1 tenant) (JsText "five")
  (with_sockets (alter (note_received (record 5)) 0%nat) s2)).

#[local] Transparent gmap_empty.
Lemma demo_run : rtc (web_step demo_log) s0 s3.
Proof.
  eapply rtc_l; [|eapply rtc_l; [|apply rtc_once]].
  - apply (WsFetched demo_log s0 0 endpoint 1 demo_env None true). vm_refl.
  - apply (WsOpen demo_log s1 0 w1); vm_refl.
  - apply (WsRecord demo_log s2 0 (set_ready RsOpen w1) endpoint 1 tenant "five" (record 5) None); vm_refl.
Qed.
End WebDemo.
#[local] Existing Instances WebDemo.demo_url WebDemo.demo_uuid WebDemo.demo_json.

Lemma browser_stream_exact_witness :
  delivered_for WebDemo.endpoint WebDemo.tenant WebDemo.s3 =
  record_item <$> log_between WebDemo.demo_log WebDemo.tenant 0
    (stored_cursor (w_local WebDemo.s3) WebDemo.endpoint WebDemo.tenant).
Proof.
  destruct (browser_stream_exact (H := WebDemo.demo_url) WebDemo.demo_log ∅ (H3 := WebDemo.demo_uuid_laws)
    WebDemo.demo_log_ok (Some WebDemo.endpoint) None (Ok WebDemo.endpoint) (λ _, true) WebDemo.s3 WebDemo.demo_run)
    as (_ & _ & He & _).
  apply He; [vm_refl|done].
Defined.

(** The record was handed over. *)
Example demo_delivered :
  delivered_for WebDemo.endpoint WebDemo.tenant WebDemo.s3 = [(5, DemoCodec.empty_logs)].
Proof. vm_refl. Qed.
