(* ===== verification/WebStorage.v ===== *)
(** * The browser's storage of the control room (skid-monitor-fe, storage/web.rs)

    In the wasm build the dashboard's state is kept in the page's
    localStorage, under keys that name the scope: the raw ingress, or one
    tenant of one cloud endpoint; before the tenant is known nothing is
    stored.  This file models the storage, with accesses that can fail, the
    wasm half of storage/mod.rs, and the change of scope of
    state/lifecycle.rs.  [browser_scope_isolated] shows that a change of scope
    leaves nothing of the old scope on the page and that no scope reads or
    writes the entries of another. *)

From stdpp Require Import sorting.
From S2P Require Import Prelude RustStr Otlp Core Auth FeFormat FeAlert FeEdge FeProfile FeStorage FeDashboard WebCloud WebIngress WebExact.

#[global] Instance BrowserStorageScope_eq_dec : EqDecision BrowserStorageScope.
Proof. solve_decision. Defined.

(** ** localStorage *)

(** The items, the outcomes of the next accesses ([Some e] fails with [e], when
    the list ends accesses succeed) and what was written to the console. *)
Record LocalStorage := {
  ls_items : gmap string string;
  ls_outcomes : list (option string);
  ls_console : list string;
}.

(** Code that uses the storage and may fail. *)
Definition io (A : Type) : Type := LocalStorage → result string A * LocalStorage.
Definition io_ret {A} (r : result string A) : io A := λ st, (r, st).
Definition io_bind {A B} (c : io A) (k : A → io B) : io B := λ st,
  match c st with (Ok a, st) => k a st | (Err e, st) => (Err e, st) end.
Notation "x ←! c ; k" := (io_bind c (λ x, k)) (at level 100, c at next level, k at level 200, right associativity).

(** One access: its outcome, and the storage after it. *)
Definition access {A} (f : gmap string string → A * gmap string string) : io A := λ st,
  match ls_outcomes st with
  | Some e :: outcomes =>
    (Err e, {| ls_items := ls_items st; ls_outcomes := outcomes; ls_console := ls_console st |})
  | outcomes =>
    let '(a, items) := f (ls_items st) in
    (Ok a, {| ls_items := items; ls_outcomes := tail outcomes; ls_console := ls_console st |})
  end.
Definition get_item (key : string) : io (option string) := access (λ items, (items !! key, items)).
Definition set_item (key value : string) : io () := access (λ items, ((), <[key := value]> items)).

(** serde_json for one type. *)
Class Serde (A : Type) := {
  to_string : A → result string string;
  from_str : string → result string A;
}.

Definition read_json {A} `{Serde A} (key : string) : io (option A) :=
  value ←! get_item key;
  match value with
  | None => io_ret (Ok None)
  | Some value =>
    io_ret match from_str value with
           | Ok a => Ok (Some a)
           | Err error => Err ("failed to decode " +:+ key +:+ ": " +:+ error)
           end
  end.
Definition write_json {A} `{Serde A} (key : string) (value : A) : io () :=
  value ←! io_ret (map_err (λ error, "failed to encode " +:+ key +:+ ": " +:+ error) (to_string value));
  set_item key value.

Definition report_error (c : io ()) : io () := λ st,
  match c st with
  | (Ok _, st) => (Ok (), st)
  | (Err error, st) =>
    (Ok (), {| ls_items := ls_items st; ls_outcomes := ls_outcomes st;
               ls_console := ls_console st ++ ["skid-monitor-fe storage error: " +:+ error] |})
  end.

(** ** BrowserStorage *)

Definition EDGES_KEY : string := "skid-monitor.edge-state.v1".
Definition ALERT_STATE_KEY : string := "skid-monitor.alert-state.v1".
Definition ALERT_EVENTS_KEY : string := "skid-monitor.alert-events.v1".
Definition WEB_AVATAR_PROFILE_KEY : string := "skid-monitor.avatar-reaction-profile.v1".
Definition MAX_EDGE_STATES : nat := 512.
Definition MAX_ALERT_EVENTS : nat := 512.

Record BrowserAlertRecord := {
  ba_at_unix_ms : Z;
  ba_transition : string;
  ba_key : string;
  ba_rule_id : string;
  ba_severity : string;
  ba_status : string;
  ba_endpoint : string;
  ba_node : string;
  ba_source : string;
  ba_summary : string;
  ba_detail : string;
}.

(** [BrowserAlertRecord::from] *)
Definition browser_alert (alert : AlertRecord) : BrowserAlertRecord :=
  {| ba_at_unix_ms := ar_at_unix_ms alert;
     ba_transition := match ar_transition alert with Fired => "fired" | Resolved => "resolved" end;
     ba_key := ar_key alert;
     ba_rule_id := ar_rule_id alert;
     ba_severity := match ar_severity alert with Warning => "warning" | Critical => "critical" end;
     ba_status := match ar_status alert with Firing => "firing" | StatusResolved => "resolved" end;
     ba_endpoint := ar_endpoint alert;
     ba_node := ar_node alert;
     ba_source := ar_source alert;
     ba_summary := ar_summary alert;
     ba_detail := ar_detail alert |}.

(** [BrowserStorage::initial_scope]: [client_api] is the value of that
    parameter of the page's address, if there is one. *)
Definition initial_scope (client_api : option string) : BrowserStorageScope :=
  match client_api with
  | Some value => if is_empty (trim value) then Legacy else CloudPending
  | None => Legacy
  end.

(** [find(|existing| existing.key == edge.key)] and the replacement or push *)
Fixpoint put_edge (edge : PersistedEdgeState) (edges : list PersistedEdgeState) : list PersistedEdgeState :=
  match edges with
  | [] => [edge]
  | existing :: edges =>
    if bool_decide (pe_key existing = pe_key edge) then edge :: edges else existing :: put_edge edge edges
  end.

(** [sort_by_key(|edge| Reverse(edge.last_seen_unix_ms))], which is stable: an
    edge goes before the ones seen at the same time that follow it. *)
Fixpoint insert_edge (edge : PersistedEdgeState) (edges : list PersistedEdgeState) : list PersistedEdgeState :=
  match edges with
  | [] => [edge]
  | e :: rest =>
    if pe_last_seen_unix_ms e <=? pe_last_seen_unix_ms edge then edge :: e :: rest else e :: insert_edge edge rest
  end.
Definition sort_edges (edges : list PersistedEdgeState) : list PersistedEdgeState := foldr insert_edge [] edges.

Record BrowserScopeRestore := {
  br_restored_edges : list PersistedEdgeState;
  br_avatar_profile : option AvatarReactionProfile;
  br_warning : option string;
}.

Definition join_warnings (warnings : list string) : option string :=
  match warnings with
  | [] => None
  | warning :: rest => Some (foldl (λ text w, text +:+ "; " +:+ w) warning rest)
  end.

Section browser.
Context `{UuidApi, !Serde (list PersistedEdgeState), !Serde (list BrowserAlertRecord)}.
Context `{!Serde (gmap string BrowserAlertRecord), !Serde AvatarReactionProfile}.

Definition web_persist_edge (scope : BrowserStorageScope) (edge : PersistedEdgeState) : io () :=
  match scope_storage_key scope EDGES_KEY with
  | None => io_ret (Ok ())
  | Some key =>
    report_error (
      edges ←! read_json key;
      let edges := put_edge edge (default [] edges) in
      write_json key (take MAX_EDGE_STATES (sort_edges edges)))
  end.

Definition web_delete_edge (scope : BrowserStorageScope) (edge_key : string) : io () :=
  match scope_storage_key scope EDGES_KEY with
  | None => io_ret (Ok ())
  | Some key =>
    report_error (
      edges ←! read_json key;
      write_json key (filter (λ edge, pe_key edge ≠ edge_key) (default [] edges)))
  end.

(** [events.drain(..events.len() - MAX_ALERT_EVENTS)] keeps the last ones. *)
Definition push_alert_event (alert : BrowserAlertRecord) (events : list BrowserAlertRecord) : list BrowserAlertRecord :=
  let events := events ++ [alert] in
  if (MAX_ALERT_EVENTS <? length events)%nat then drop (length events - MAX_ALERT_EVENTS) events else events.

Definition web_persist_alert (scope : BrowserStorageScope) (alert : AlertRecord) : io () :=
  match scope_storage_key scope ALERT_EVENTS_KEY, scope_storage_key scope ALERT_STATE_KEY with
  | Some events_key, Some state_key =>
    let alert := browser_alert alert in
    report_error (
      events ←! read_json events_key;
      _ ←! write_json events_key (push_alert_event alert (default [] events));
      active ←! read_json state_key;
      let active : gmap string BrowserAlertRecord := default ∅ active in
      write_json state_key
        (if bool_decide (ba_status alert = "firing") then <[ba_key alert := alert]> active
         else if bool_decide (ba_status alert = "resolved") then delete (ba_key alert) active
         else active))
  | _, _ => io_ret (Ok ())
  end.

Definition web_persist_avatar_profile (scope : BrowserStorageScope) (profile : AvatarReactionProfile) : io () :=
  match scope_storage_key scope WEB_AVATAR_PROFILE_KEY with
  | None => io_ret (Err "character profile storage is unavailable until cloud authentication completes")
  | Some key => write_json key profile
  end.

(** The two halves of [restore_scope], each with its warnings.  They do not
    fail. *)
Definition restore_edges (scope : BrowserStorageScope) (st : LocalStorage)
    : list PersistedEdgeState * list string * LocalStorage :=
  match scope_storage_key scope EDGES_KEY with
  | None => ([], [], st)
  | Some key =>
    match read_json key st with
    | (Ok edges, st) => (default [] edges, [], st)
    | (Err error, st) => ([], ["edge state ignored: " +:+ error], st)
    end
  end.
Definition restore_profile (scope : BrowserStorageScope) (st : LocalStorage)
    : option AvatarReactionProfile * list string * LocalStorage :=
  match scope_storage_key scope WEB_AVATAR_PROFILE_KEY with
  | None => (None, [], st)
  | Some key =>
    match read_json key st with
    | (Ok (Some profile), st) =>
      match normalized profile with
      | Ok profile => (Some profile, [], st)
      | Err error => (None, ["avatar reaction profile ignored: " +:+ error], st)
      end
    | (Ok None, st) => (None, [], st)
    | (Err error, st) => (None, ["avatar reaction profile ignored: " +:+ error], st)
    end
  end.
Definition restore_scope (scope : BrowserStorageScope) (st : LocalStorage) : BrowserScopeRestore * LocalStorage :=
  let '(edges, warnings, st) := restore_edges scope st in
  let '(profile, warnings', st) := restore_profile scope st in
  ({| br_restored_edges := edges; br_avatar_profile := profile; br_warning := join_warnings (warnings ++ warnings') |},
   st).

(** ** storage/mod.rs in the wasm build *)

(** The calls the dashboard makes. *)
Definition perform (scope : BrowserStorageScope) (command : StorageCommand) : io () :=
  match command with
  | UpsertEdge edge => web_persist_edge scope edge
  | DeleteEdge key => web_delete_edge scope key
  | RecordAlert alert => web_persist_alert scope alert
  end.

(** The dashboard on the page.  Its fields are those of the native build,
    except that there is never a pending save of the profile; its storage
    collects the calls of an operation, which are carried out at its end: the
    operations do not read what they store.  [wd_store_scope] is the cell
    shared with the storage, [wd_scope] the dashboard's own copy. *)
Record WebDashboard := {
  wd_state : DashboardState;
  wd_scope : BrowserStorageScope;
  wd_store_scope : BrowserStorageScope;
  wd_local : LocalStorage;
}.

Definition no_calls : StateStorage := {| ss_sent := []; ss_saves := []; ss_gone := false |}.

Fixpoint perform_all (scope : BrowserStorageScope) (commands : list StorageCommand) (st : LocalStorage) : LocalStorage :=
  match commands with
  | [] => st
  | command :: commands => perform_all scope commands (perform scope command st).2
  end.

(** An operation of the dashboard, with its calls of the storage. *)
Definition web_apply (f : DashboardState → DashboardState) (w : WebDashboard) : WebDashboard :=
  let s := f (wd_state w) in
  match ds_storage s with
  | None =>
    {| wd_state := s; wd_scope := wd_scope w; wd_store_scope := wd_store_scope w; wd_local := wd_local w |}
  | Some calls =>
    {| wd_state := set_storage (Some no_calls) s; wd_scope := wd_scope w; wd_store_scope := wd_store_scope w;
       wd_local := perform_all (wd_store_scope w) (ss_sent calls) (wd_local w) |}
  end.

(** [StateStorage::start]: [unavailable] is why there is no localStorage, if
    there is none. *)
Definition web_start (client_api : option string) (unavailable : option string) (st : LocalStorage)
    : StorageInit * BrowserStorageScope * LocalStorage :=
  let scope := initial_scope client_api in
  match unavailable with
  | Some error =>
    ({| si_storage := None; si_restored_edges := []; si_avatar_profile := None;
        si_message := Some ("browser state storage disabled: " +:+ error) |}, scope, st)
  | None =>
    let '(restored, st) := restore_scope scope st in
    ({| si_storage := Some no_calls; si_restored_edges := br_restored_edges restored;
        si_avatar_profile := br_avatar_profile restored;
        si_message := Some match br_warning restored with
                           | Some warning => "browser state storage ready; " +:+ warning
                           | None => "browser state storage ready"
                           end |}, scope, st)
  end.

Section page.
(** The clock and the local time, as in the native build, and the clocks a
    restore reads, which depend on when it runs. *)
Context (clock : nat → Reading) (local : Z → option string) (rc : nat → nat → RestoreClock).

Definition web_dashboard_new (client_api unavailable : option string) (st : LocalStorage) : WebDashboard :=
  let '(init, scope, st) := web_start client_api unavailable st in
  {| wd_state := dashboard_new clock local (rc 0) init; wd_scope := scope; wd_store_scope := scope; wd_local := st |}.

(** [observe_browser_storage_scope]: the signal-derived view is emptied ... *)
Definition reset_view (s : DashboardState) : DashboardState :=
  let s := set_avatar_profile_revision (wrapping_succ (ds_avatar_profile_revision s)) s in
  let s := set_avatar_model_revision (wrapping_succ (ds_avatar_model_revision s)) s in
  let s := set_counters no_signals s in
  let s := set_events [] s in
  let s := set_metrics [] s in
  let s := set_metric_history ∅ s in
  let s := set_nodes ∅ s in
  let s := set_edges no_edges s in
  let s := set_alerts no_alerts s in
  set_status (match ds_listening_label s with Some label => Listening label | None => Starting end) s.

(** ... and filled with what the new scope has stored. *)
Definition restore_view (label : string) (restored : result string BrowserScopeRestore) (s : DashboardState)
    : DashboardState :=
  match restored with
  | Ok restored =>
    let s := set_avatar_profile (default default_profile (br_avatar_profile restored)) s in
    let '(nodes, edges) := restore (rc (ds_ticks s)) (ds_edges s) (br_restored_edges restored) in
    let s := set_nodes (node_entries nodes) (set_edges edges s) in
    let s := push_event clock local "storage" ("browser state scope changed to " +:+ label) s in
    match br_warning restored with Some warning => push_event clock local "storage" warning s | None => s end
  | Err error =>
    push_event clock local "error"
      ("browser state scope changed to " +:+ label +:+ ", but restore failed: " +:+ error)
      (set_avatar_profile default_profile s)
  end.

Definition observe_browser_storage_scope (scope : BrowserStorageScope) (w : WebDashboard) : WebDashboard :=
  if bool_decide (wd_scope w = scope) then w
  else
    match ds_storage (wd_state w) with
    | Some _ =>
      let '(restored, st) := restore_scope scope (wd_local w) in
      {| wd_state := restore_view (scope_label scope) (Ok restored) (reset_view (wd_state w));
         wd_scope := scope; wd_store_scope := scope; wd_local := st |}
    | None =>
      {| wd_state := restore_view (scope_label scope) (Err "browser state storage is unavailable")
                       (reset_view (wd_state w));
         wd_scope := scope; wd_store_scope := wd_store_scope w; wd_local := wd_local w |}
    end.

(** The arms of [drain_ingress] in the wasm build. *)
Definition observe_web_message (w : WebDashboard) (message : WebMessage) : WebDashboard :=
  match message with
  | WmListening endpoints => web_apply (observe_listening clock local endpoints) w
  | WmSignal listener signal => web_apply (observe_signal_message clock local listener signal) w
  | WmError listener error => web_apply (dash_receiver_error clock local listener error) w
  | WmStorageScope scope => observe_browser_storage_scope scope w
  end.
Definition web_drain_ingress (messages : list WebMessage) (w : WebDashboard) : WebDashboard :=
  foldl observe_web_message w messages.

(** [set_avatar_profile]: the profile is stored at once. *)
Definition web_set_avatar_profile (profile : AvatarReactionProfile) (w : WebDashboard)
    : result string () * WebDashboard :=
  match normalized profile with
  | Err e => (Err e, w)
  | Ok profile =>
    match ds_storage (wd_state w) with
    | None => (Err "state storage is unavailable; character profile was not applied", w)
    | Some _ =>
      let '(r, st) := web_persist_avatar_profile (wd_store_scope w) profile (wd_local w) in
      let after s :=
        {| wd_state := s; wd_scope := wd_scope w; wd_store_scope := wd_store_scope w; wd_local := st |} in
      match r with
      | Err e => (Err e, after (wd_state w))
      | Ok _ => (Ok (), after (commit_avatar_profile clock local profile (wd_state w)))
      end
    end
  end.

(** [add_listener] and [remove_listener]: [answer] is what the page's
    [IngressControl] (WebIngress) returns. *)
Definition web_request_listener (addr : string) (refuse : option string) (answer : result string ())
    (message : string) (s : DashboardState) : result string () * DashboardState :=
  match (if is_empty addr then Some "listen address is required" else refuse) with
  | Some e => (Err e, s)
  | None =>
    match ds_ingress_control s with
    | None => (Err "ingress control is unavailable", s)
    | Some _ =>
      match answer with
      | Err e => (Err e, s)
      | Ok _ => (Ok (), push_event clock local "receiver" message s)
      end
    end
  end.
Definition web_add_listener (addr : string) (answer : result string ()) (s : DashboardState)
    : result string () * DashboardState :=
  let addr := trim addr in
  web_request_listener addr
    (if bool_decide (addr ∈ ds_listeners s) then Some ("listener " +:+ addr +:+ " is already active") else None)
    answer ("requested ingress activation for " +:+ addr) s.
Definition web_remove_listener (addr : string) (answer : result string ()) (s : DashboardState)
    : result string () * DashboardState :=
  let addr := trim addr in
  web_request_listener addr
    (if bool_decide (addr ∈ ds_listeners s) then None else Some ("listener " +:+ addr +:+ " is not active"))
    answer ("requested ingress removal for " +:+ addr) s.

(** What the page does with the dashboard. *)
Inductive WebOp :=
| WopMessage (message : WebMessage)
| WopRegisterAgent (endpoint node service : string)
| WopRemoveAgent (key : string)
| WopAddListener (addr : string) (answer : result string ())
| WopRemoveListener (addr : string) (answer : result string ())
| WopSetIngress (control : IngressControl)
| WopSetAvatarProfile (profile : AvatarReactionProfile)
| WopSettingsError (message : string)
| WopToggleAlerts (enabled : bool).

Definition web_op (w : WebDashboard) (op : WebOp) : WebDashboard :=
  match op with
  | WopMessage message => observe_web_message w message
  | WopRegisterAgent endpoint node service => web_apply (λ s, (register_agent clock local endpoint node service s).2) w
  | WopRemoveAgent key => web_apply (λ s, (remove_agent clock local key s).2) w
  | WopAddListener addr answer => web_apply (λ s, (web_add_listener addr answer s).2) w
  | WopRemoveListener addr answer => web_apply (λ s, (web_remove_listener addr answer s).2) w
  | WopSetIngress control => web_apply (set_ingress control) w
  | WopSetAvatarProfile profile => (web_set_avatar_profile profile w).2
  | WopSettingsError message => web_apply (push_settings_error clock local message) w
  | WopToggleAlerts enabled => web_apply (toggle_alerts clock local enabled) w
  end.
Definition web_run : WebDashboard → list WebOp → WebDashboard := foldl web_op.
End page.
End browser.

(** ** Keys of different scopes *)

Definition state_keys : list string := [EDGES_KEY; ALERT_STATE_KEY; ALERT_EVENTS_KEY; WEB_AVATAR_PROFILE_KEY].

Lemma split_at_byte (c : byte) a b x y : c ∉ a → c ∉ b → a ++ c :: x = b ++ c :: y → a = b ∧ x = y.
Proof.
  revert b. induction a as [|d a IH]; intros [|d' b] Ha Hb E; simplify_eq/=; [done|set_solver..|].
  edestruct (IH b) as [-> ->]; [set_solver|set_solver|done|done].
Qed.

Lemma state_keys_no_colon base : base ∈ state_keys → ":"%byte ∉ as_bytes base.
Proof.
  intros Hb. assert (Forall (λ b, ":"%byte ∉ as_bytes b) state_keys) as F.
  { repeat constructor; apply (bool_decide_eq_true_1 _); vm_refl. }
  by apply (proj1 (Forall_forall _ _) F).
Qed.

Section keys.
Context `{UuidApi}.

Definition scope_keys (scope : BrowserStorageScope) : list string := omap (scope_storage_key scope) state_keys.
Definition valid_scope (scope : BrowserStorageScope) : Prop :=
  match scope with CloudScope _ t => valid_tenant t | _ => True end.

Lemma browser_key_bytes base e t :
  as_bytes (browser_storage_key base e t) =
    as_bytes base ++ ":"%byte :: as_bytes "cloud:" ++ as_bytes e ++ as_bytes ":tenant:" ++ as_bytes (tenant_text t).
Proof. unfold browser_storage_key. by rewrite !as_bytes_app. Qed.

(** In one scope, different data have different keys. *)
Lemma scope_key_base scope base base' key : base ∈ state_keys → base' ∈ state_keys →
  scope_storage_key scope base = Some key → scope_storage_key scope base' = Some key → base = base'.
Proof.
  intros Hb Hb' E E'. destruct scope as [| |e t]; simpl in E, E'; [congruence|done|].
  injection E as E. injection E' as E'. rewrite <- E' in E. apply (f_equal as_bytes) in E. rewrite !browser_key_bytes in E.
  apply split_at_byte in E as [E _]; [|by apply state_keys_no_colon..]. by apply as_bytes_inj.
Qed.

Context `{!UuidLaws}.

Lemma browser_key_inj base base' e e' t t' : base ∈ state_keys → base' ∈ state_keys → valid_tenant t → valid_tenant t' →
  browser_storage_key base e t = browser_storage_key base' e' t' → e = e' ∧ t = t'.
Proof.
  intros Hb Hb' Hv Hv' E. apply (f_equal as_bytes) in E. rewrite !browser_key_bytes in E.
  apply split_at_byte in E as [_ E]; [|by apply state_keys_no_colon..].
  apply app_inv_head in E. rewrite !app_assoc in E. apply app_inj_2 in E as [E1 E2].
  2:{ unfold tenant_text. by rewrite !uuid_text_length. }
  apply app_inj_2 in E1 as [E1 _]; [|done]. split; [by apply as_bytes_inj|].
  apply as_bytes_inj, uuid_text_inj in E2; [|done..]. destruct t, t'; simpl in *. congruence.
Qed.

Lemma elem_of_scope_keys scope k : k ∈ scope_keys scope ↔ ∃ base, base ∈ state_keys ∧ scope_storage_key scope base = Some k.
Proof. unfold scope_keys. by rewrite list_elem_of_omap. Qed.

Lemma base_not_browser_key base base' e t : base ∈ state_keys → base' ∈ state_keys → base ≠ browser_storage_key base' e t.
Proof.
  intros Hb Hb' ->. apply state_keys_no_colon in Hb. rewrite browser_key_bytes in Hb. set_solver.
Qed.

(** No key belongs to two scopes. *)
Lemma scope_keys_disjoint scope scope' k : valid_scope scope → valid_scope scope' →
  k ∈ scope_keys scope → k ∈ scope_keys scope' → scope = scope'.
Proof.
  rewrite !elem_of_scope_keys. intros Hv Hv' (base & Hb & E) (base' & Hb' & E').
  destruct scope as [| |e t], scope' as [| |e' t']; simpl in E, E'; try done;
    injection E as E; injection E' as E'; rewrite <- E' in E.
  - by destruct (base_not_browser_key base base' e' t').
  - by destruct (base_not_browser_key base' base e t).
  - destruct (browser_key_inj base base' e e' t t') as [-> ->]; done.
Qed.

(** The cursors of the ingress are kept apart from them. *)
Lemma cursor_key_no_scope scope e t : cursor_storage_key e t ∉ scope_keys scope.
Proof.
  rewrite elem_of_scope_keys. intros (base & Hb & E).
  assert (as_bytes (cursor_storage_key e t) = as_bytes "skid-monitor.cloud.cursor.v1" ++ ":"%byte ::
            as_bytes e ++ as_bytes ":tenant:" ++ as_bytes (tenant_text t)) as Ek.
  { unfold cursor_storage_key. by rewrite !as_bytes_app. }
  pose proof (state_keys_no_colon _ Hb) as Hc.
  destruct scope as [| |e' t']; simpl in E; [|done|]; injection E as E.
  { rewrite E, Ek in Hc. set_solver. }
  rewrite <- E, browser_key_bytes in Ek. clear E. apply split_at_byte in Ek as [E _]; [|done|].
  - apply as_bytes_inj in E as ->. revert Hb. apply (bool_decide_eq_false_1 _). vm_refl.
  - apply (bool_decide_eq_true_1 _). vm_refl.
Qed.
End keys.

(** ** Confinement *)

(** Two storages with the same items under [K] and the same outcomes ahead. *)
Definition agree (K : list string) (st1 st2 : LocalStorage) : Prop :=
  (∀ k, k ∈ K → ls_items st1 !! k = ls_items st2 !! k) ∧ ls_outcomes st1 = ls_outcomes st2.

(** [c] depends on the items under [K] only and changes no others; a storage
    that works keeps working. *)
Definition confined (K : list string) {A} (c : io A) : Prop :=
  ∀ st1 st2, agree K st1 st2 →
    (c st1).1 = (c st2).1 ∧ agree K (c st1).2 (c st2).2 ∧
    (∀ k, k ∉ K → ls_items (c st1).2 !! k = ls_items st1 !! k) ∧
    (ls_outcomes st1 = [] → ls_outcomes (c st1).2 = []).

Create HintDb confine.

Lemma confined_ret K {A} (r : result string A) : confined K (io_ret r).
Proof. done. Qed.
#[export] Hint Resolve confined_ret : confine.

Lemma confined_bind K {A B} (c : io A) (k : A → io B) : confined K c → (∀ a, confined K (k a)) → confined K (io_bind c k).
Proof.
  intros Hc Hk st1 st2 Hag. destruct (Hc _ _ Hag) as (E1 & E2 & E3 & E4). unfold io_bind.
  destruct (c st1) as [[a|e] s1], (c st2) as [r2 s2]; simpl in E1; subst r2; [|done].
  destruct (Hk a _ _ E2) as (F1 & F2 & F3 & F4). split_and!; [done..| |auto]. intros k' Hk'. by rewrite F3, <- E3.
Qed.
#[export] Hint Resolve confined_bind : confine.

Lemma confined_access K {A} (f : gmap string string → A * gmap string string) :
  (∀ m1 m2, (∀ k, k ∈ K → m1 !! k = m2 !! k) →
     (f m1).1 = (f m2).1 ∧ (∀ k, k ∈ K → (f m1).2 !! k = (f m2).2 !! k) ∧ ∀ k, k ∉ K → (f m1).2 !! k = m1 !! k) →
  confined K (access f).
Proof.
  intros Hf st1 st2 [Hi Ho]. destruct (Hf _ _ Hi) as (E1 & E2 & E3). unfold access. rewrite <- Ho.
  destruct (f (ls_items st1)) as [a1 m1], (f (ls_items st2)) as [a2 m2]. simpl in *. subst a2.
  by destruct (ls_outcomes st1) as [|[e|] l].
Qed.

Lemma confined_get K key : key ∈ K → confined K (get_item key).
Proof. intros Hk. apply confined_access. intros m1 m2 Hm. simpl. auto. Qed.
#[export] Hint Resolve confined_get : confine.

Lemma confined_set K key value : key ∈ K → confined K (set_item key value).
Proof.
  intros Hk. apply confined_access. intros m1 m2 Hm. simpl. split_and!; [done| |].
  - intros k Hk'. destruct (decide (key = k)) as [->|]; [by rewrite !lookup_insert_eq|rewrite !lookup_insert_ne by done; auto].
  - intros k Hk'. rewrite lookup_insert_ne; [done|by intros ->].
Qed.
#[export] Hint Resolve confined_set : confine.

Lemma confined_report K c : confined K c → confined K (report_error c).
Proof.
  intros Hc st1 st2 Hag. destruct (Hc _ _ Hag) as (E1 & [E2 E2'] & E3 & E4). unfold report_error.
  destruct (c st1) as [[[]|e] s1], (c st2) as [r2 s2]; simpl in E1; subst r2; by split_and!.
Qed.
#[export] Hint Resolve confined_report : confine.

Lemma confined_read_json K {A} `{Serde A} key : key ∈ K → confined K (read_json (A:=A) key).
Proof. intros Hk. apply confined_bind; [auto with confine|]. intros [value|]; auto with confine. Qed.
#[export] Hint Resolve confined_read_json : confine.

Lemma confined_write_json K {A} `{Serde A} key (value : A) : key ∈ K → confined K (write_json key value).
Proof. intros Hk. apply confined_bind; [|intros v]; auto with confine. Qed.
#[export] Hint Resolve confined_write_json : confine.

Definition alert_keys : list string := [ALERT_EVENTS_KEY; ALERT_STATE_KEY].

Lemma persist_alert_confined `{UuidApi, !Serde (list BrowserAlertRecord), !Serde (gmap string BrowserAlertRecord)} K scope alert :
  (∀ base key, base ∈ alert_keys → scope_storage_key scope base = Some key → key ∈ K) →
  confined K (web_persist_alert scope alert).
Proof.
  intros HK. unfold web_persist_alert.
  destruct (scope_storage_key scope ALERT_EVENTS_KEY) as [k1|] eqn:E1; auto with confine.
  destruct (scope_storage_key scope ALERT_STATE_KEY) as [k2|] eqn:E2; auto with confine.
  apply HK in E1; [|unfold alert_keys; set_solver]. apply HK in E2; [|unfold alert_keys; set_solver].
  auto 12 with confine.
Qed.

Section isolation.
Context `{UuidLaws, !Serde (list PersistedEdgeState), !Serde (list BrowserAlertRecord)}.
Context `{!Serde (gmap string BrowserAlertRecord), !Serde AvatarReactionProfile}.
Context (clock : nat → Reading) (local : Z → option string) (rc : nat → nat → RestoreClock).

Lemma scope_key_elem scope base key : base ∈ state_keys → scope_storage_key scope base = Some key → key ∈ scope_keys scope.
Proof. intros Hb E. apply elem_of_scope_keys. by exists base. Qed.

Ltac scope_key E := apply scope_key_elem in E; [|unfold state_keys; set_solver].

Lemma perform_confined scope command : confined (scope_keys scope) (perform scope command).
Proof.
  destruct command as [edge|key|alert]; simpl.
  - unfold web_persist_edge. destruct (scope_storage_key scope EDGES_KEY) as [key|] eqn:E; auto with confine. scope_key E.
    auto 8 with confine.
  - unfold web_delete_edge. destruct (scope_storage_key scope EDGES_KEY) as [key'|] eqn:E; auto with confine. scope_key E.
    auto 8 with confine.
  - apply persist_alert_confined. intros base key Hb E. apply (scope_key_elem scope base key); [|done].
    unfold alert_keys, state_keys in *. set_solver.
Qed.

Lemma persist_profile_confined scope profile : confined (scope_keys scope) (web_persist_avatar_profile scope profile).
Proof.
  unfold web_persist_avatar_profile. destruct (scope_storage_key scope WEB_AVATAR_PROFILE_KEY) as [k|] eqn:E; auto with confine.
  scope_key E. auto with confine.
Qed.

(** A change of storage that is confined to [K], from two storages that agree. *)
Definition moved (K : list string) (st1 st2 st1' st2' : LocalStorage) : Prop :=
  agree K st1' st2' ∧ (∀ k, k ∉ K → ls_items st1' !! k = ls_items st1 !! k).

Lemma perform_all_moved scope commands st1 st2 : agree (scope_keys scope) st1 st2 →
  moved (scope_keys scope) st1 st2 (perform_all scope commands st1) (perform_all scope commands st2).
Proof.
  revert st1 st2. induction commands as [|c cs IH]; intros st1 st2 Hag; [done|]. simpl.
  destruct (perform_confined scope c _ _ Hag) as (_ & E2 & E3 & _). destruct (IH _ _ E2) as [F1 F2].
  split; [done|]. intros k Hk. by rewrite F2, E3.
Qed.

Lemma restore_scope_moved scope st1 st2 : agree (scope_keys scope) st1 st2 →
  (restore_scope scope st1).1 = (restore_scope scope st2).1 ∧
  moved (scope_keys scope) st1 st2 (restore_scope scope st1).2 (restore_scope scope st2).2.
Proof.
  intros Hag. unfold restore_scope.
  assert ((restore_edges scope st1).1 = (restore_edges scope st2).1 ∧
    moved (scope_keys scope) st1 st2 (restore_edges scope st1).2 (restore_edges scope st2).2) as (E1 & E2 & E3).
  { unfold restore_edges. destruct (scope_storage_key scope EDGES_KEY) as [k|] eqn:E; [|done]. scope_key E.
    destruct (confined_read_json (A:=list PersistedEdgeState) _ k E _ _ Hag) as (F1 & F2 & F3 & _).
    destruct (read_json k st1) as [[es|e] s1], (read_json k st2) as [r2 s2]; simpl in F1; by subst r2. }
  destruct (restore_edges scope st1) as [[edges warnings] s1], (restore_edges scope st2) as [ew2 s2].
  simpl in E1, E2, E3. subst ew2.
  assert ((restore_profile scope s1).1 = (restore_profile scope s2).1 ∧
    moved (scope_keys scope) s1 s2 (restore_profile scope s1).2 (restore_profile scope s2).2) as (G1 & G2 & G3).
  { unfold restore_profile. destruct (scope_storage_key scope WEB_AVATAR_PROFILE_KEY) as [k|] eqn:E; [|done]. scope_key E.
    destruct (confined_read_json (A:=AvatarReactionProfile) _ k E _ _ E2) as (F1 & F2 & F3 & _).
    destruct (read_json k s1) as [[[p|]|e] s1'], (read_json k s2) as [r2 s2']; simpl in F1; subst r2; try done.
    by destruct (normalized p). }
  destruct (restore_profile scope s1) as [[p ws] s1'], (restore_profile scope s2) as [pw s2']. simpl in *. subst pw.
  split; [done|]. split; [done|]. intros k Hk. simpl. by rewrite G3, E3.
Qed.

(** What a change of scope keeps of a dashboard: its receiver, its settings
    and its revision counters. *)
Record same_shell (s1 s2 : DashboardState) : Prop := {
  sh_label : ds_listening_label s1 = ds_listening_label s2;
  sh_enabled : ds_alerts_enabled s1 = ds_alerts_enabled s2;
  sh_profile_revision : ds_avatar_profile_revision s1 = ds_avatar_profile_revision s2;
  sh_model_revision : ds_avatar_model_revision s1 = ds_avatar_model_revision s2;
  sh_pending : ds_pending_avatar_profile s1 = ds_pending_avatar_profile s2;
  sh_storage : ds_storage s1 = ds_storage s2;
  sh_listeners : ds_listeners s1 = ds_listeners s2;
  sh_control : ds_ingress_control s1 = ds_ingress_control s2;
  sh_ticks : ds_ticks s1 = ds_ticks s2;
}.

(** The new view does not depend on the old one. *)
Lemma restore_view_fresh label restored s1 s2 : same_shell s1 s2 →
  restore_view clock local rc label restored (reset_view s1) = restore_view clock local rc label restored (reset_view s2).
Proof.
  intros [A B C D E F G I J]. destruct s1, s2. simpl in *. subst. unfold reset_view. simpl.
  destruct restored as [r|e]; reflexivity.
Qed.

(** Two pages that show the same and have stored the same under [scope]. *)
Record twins (scope : BrowserStorageScope) (w1 w2 : WebDashboard) : Prop := {
  tw_state : wd_state w1 = wd_state w2;
  tw_scope : wd_scope w1 = scope ∧ wd_scope w2 = scope;
  tw_store : wd_store_scope w1 = scope ∧ wd_store_scope w2 = scope;
  tw_local : agree (scope_keys scope) (wd_local w1) (wd_local w2);
}.

(** [w'] has the other scopes' items of [w]. *)
Definition keeps_others (scope : BrowserStorageScope) (w w' : WebDashboard) : Prop :=
  ∀ k, k ∉ scope_keys scope → ls_items (wd_local w') !! k = ls_items (wd_local w) !! k.

Lemma web_apply_twins f scope w1 w2 : twins scope w1 w2 →
  twins scope (web_apply f w1) (web_apply f w2) ∧ keeps_others scope w1 (web_apply f w1).
Proof.
  intros [E [S1 S2] [T1 T2] L]. unfold web_apply, keeps_others. rewrite <- E, S1, S2, T1, T2.
  destruct (ds_storage (f (wd_state w1))) as [calls|]; [|by split].
  destruct (perform_all_moved scope (ss_sent calls) _ _ L) as [M1 M2]. by split.
Qed.

Lemma set_profile_twins profile scope w1 w2 : twins scope w1 w2 →
  twins scope (web_set_avatar_profile clock local profile w1).2 (web_set_avatar_profile clock local profile w2).2 ∧
  keeps_others scope w1 (web_set_avatar_profile clock local profile w1).2.
Proof.
  intros Htw. pose proof Htw as [E [S1 S2] [T1 T2] L]. unfold web_set_avatar_profile, keeps_others.
  destruct (normalized profile) as [p|e]; [|by split]. rewrite <- E, T1, T2, S1, S2.
  destruct (ds_storage (wd_state w1)); [|by split].
  destruct (persist_profile_confined scope p _ _ L) as (F1 & F2 & F3 & _).
  destruct (web_persist_avatar_profile scope p (wd_local w1)) as [[[]|e] s1],
    (web_persist_avatar_profile scope p (wd_local w2)) as [r2 s2]; simpl in F1; subst r2; by split.
Qed.

(** An operation that does not leave the scope. *)
Definition stays (scope : BrowserStorageScope) (op : WebOp) : Prop :=
  match op with WopMessage (WmStorageScope scope') => scope' = scope | _ => True end.

Lemma web_op_twins scope w1 w2 op : stays scope op → twins scope w1 w2 →
  twins scope (web_op clock local rc w1 op) (web_op clock local rc w2 op) ∧
  keeps_others scope w1 (web_op clock local rc w1 op).
Proof.
  intros Hop Htw. destruct op as [[| | |scope']| | | | | | | |]; try apply web_apply_twins; try apply set_profile_twins; try done.
  simpl in Hop. subst scope'. destruct (tw_scope _ _ _ Htw) as [S1 S2].
  simpl. unfold observe_browser_storage_scope. by rewrite !bool_decide_eq_true_2.
Qed.

Lemma web_run_twins scope ops w1 w2 : Forall (stays scope) ops → twins scope w1 w2 →
  twins scope (web_run clock local rc w1 ops) (web_run clock local rc w2 ops) ∧
  keeps_others scope w1 (web_run clock local rc w1 ops).
Proof.
  intros F. revert w1 w2. induction F as [|op ops Hop F IH]; intros w1 w2 Htw; [by split|].
  destruct (web_op_twins _ _ _ _ Hop Htw) as [T1 K1]. destruct (IH _ _ T1) as [T2 K2].
  split; [done|]. intros k Hk. unfold keeps_others in *. simpl. by rewrite K2, K1.
Qed.

Lemma observe_scope_twins scope w1 w2 : same_shell (wd_state w1) (wd_state w2) →
  ds_storage (wd_state w1) ≠ None → wd_scope w1 ≠ scope → wd_scope w2 ≠ scope →
  agree (scope_keys scope) (wd_local w1) (wd_local w2) →
  twins scope (observe_browser_storage_scope clock local rc scope w1) (observe_browser_storage_scope clock local rc scope w2) ∧
  keeps_others scope w1 (observe_browser_storage_scope clock local rc scope w1).
Proof.
  intros Hsh Hst N1 N2 L. unfold observe_browser_storage_scope. rewrite !bool_decide_eq_false_2 by done.
  rewrite <- (sh_storage _ _ Hsh). destruct (ds_storage (wd_state w1)) as [calls|]; [|done].
  destruct (restore_scope_moved scope _ _ L) as (E1 & E2 & E3).
  destruct (restore_scope scope (wd_local w1)) as [r1 s1], (restore_scope scope (wd_local w2)) as [r2 s2].
  cbn [fst snd] in *. subst r2. split; [|done]. split; [|done..]. exact (restore_view_fresh _ _ _ _ Hsh).
Qed.

(** C27: When the page changes to another tenant, or to a state before
    authentication, whatever it showed before is gone: two pages with
    different histories that have the same receiver and settings, and whose
    local storages agree under the keys of the new scope, show the same from
    then on and store the same under those keys, through every operation until
    the scope changes again.  In the meantime the stored items of the other
    scopes and the cursors of the streams are neither read nor changed; before
    authentication ([CloudPending]) nothing at all is stored. *)
Theorem browser_scope_isolated w1 w2 scope ops : valid_scope scope →
  same_shell (wd_state w1) (wd_state w2) → ds_storage (wd_state w1) ≠ None →
  wd_scope w1 ≠ scope → wd_scope w2 ≠ scope →
  agree (scope_keys scope) (wd_local w1) (wd_local w2) → Forall (stays scope) ops →
  let change w := web_run clock local rc (observe_browser_storage_scope clock local rc scope w) ops in
  wd_state (change w1) = wd_state (change w2) ∧
  agree (scope_keys scope) (wd_local (change w1)) (wd_local (change w2)) ∧
  (∀ scope' k, valid_scope scope' → scope' ≠ scope → k ∈ scope_keys scope' →
     ls_items (wd_local (change w1)) !! k = ls_items (wd_local w1) !! k) ∧
  (∀ e t, ls_items (wd_local (change w1)) !! cursor_storage_key e t = ls_items (wd_local w1) !! cursor_storage_key e t) ∧
  (scope = CloudPending → ls_items (wd_local (change w1)) = ls_items (wd_local w1)).
Proof.
  intros Hv Hsh Hst N1 N2 L F change.
  destruct (observe_scope_twins scope w1 w2 Hsh Hst N1 N2 L) as [T1 K1].
  destruct (web_run_twins scope ops _ _ F T1) as [T2 K2].
  assert (keeps_others scope w1 (change w1)) as K.
  { intros k Hk. unfold keeps_others in *. unfold change. by rewrite K2, K1. }
  split_and!; [apply (tw_state _ _ _ T2)|apply (tw_local _ _ _ T2)| | |].
  - intros scope' k Hv' Hne Hk. apply K. intros Hk'. by apply Hne, (scope_keys_disjoint scope' scope k).
  - intros e t. apply K, cursor_key_no_scope.
  - intros ->. apply map_eq. intros k. apply K. apply not_elem_of_nil.
Qed.
End isolation.

(** ** Edges that are stored come back *)

(** serde_json reads what it wrote. *)
Class SerdeRoundTrip (A : Type) `{Serde A} : Prop :=
  serde_round_trip : ∀ x : A, ∃ s, to_string x = Ok s ∧ from_str s = Ok x.

Definition edge_map (l : list PersistedEdgeState) : gmap string PersistedEdgeState :=
  list_to_map ((λ e, (pe_key e, e)) <$> l).
Definition later_first : relation PersistedEdgeState := λ a b, pe_last_seen_unix_ms b ≤ pe_last_seen_unix_ms a.

Lemma edge_map_cons e l : edge_map (e :: l) = <[pe_key e := e]> (edge_map l).
Proof. done. Qed.

Lemma insert_edge_perm e l : insert_edge e l ≡ₚ e :: l.
Proof.
  induction l as [|x l IH]; simpl; [done|]. destruct (_ <=? _); [done|]. rewrite IH. apply Permutation_swap.
Qed.
Lemma sort_edges_perm l : sort_edges l ≡ₚ l.
Proof. induction l as [|e l IH]; simpl; [done|]. by rewrite insert_edge_perm, IH. Qed.

Lemma insert_edge_sorted e l : StronglySorted later_first l → StronglySorted later_first (insert_edge e l).
Proof.
  induction 1 as [|x l Hs IH Hx]; simpl; [repeat constructor|].
  destruct (pe_last_seen_unix_ms x <=? pe_last_seen_unix_ms e) eqn:E; to_prop.
  - constructor; [by constructor|]. constructor; [done|]. eapply Forall_impl; [done|]. unfold later_first. lia.
  - constructor; [done|]. rewrite insert_edge_perm. constructor; [unfold later_first; lia|done].
Qed.
Lemma sort_edges_sorted l : StronglySorted later_first (sort_edges l).
Proof. induction l; simpl; [constructor|by apply insert_edge_sorted]. Qed.

Definition distinct_keys (l : list PersistedEdgeState) : Prop := NoDup (pe_key <$> l).

Lemma edge_map_perm l l' : distinct_keys l → l ≡ₚ l' → edge_map l = edge_map l'.
Proof.
  intros Hd Hp. apply list_to_map_proper; [|by apply fmap_Permutation].
  by rewrite <- list_fmap_compose.
Qed.

Lemma put_edge_keys e l k : k ∈ pe_key <$> put_edge e l ↔ k = pe_key e ∨ k ∈ pe_key <$> l.
Proof.
  induction l as [|x l IH]; simpl; [set_solver|].
  destruct (bool_decide (pe_key x = pe_key e)) eqn:E; to_prop; [rewrite !fmap_cons, E; set_solver|].
  rewrite !fmap_cons, !elem_of_cons, IH. set_solver.
Qed.
Lemma put_edge_spec e l : distinct_keys l → distinct_keys (put_edge e l) ∧ edge_map (put_edge e l) = <[pe_key e := e]> (edge_map l).
Proof.
  unfold distinct_keys. induction l as [|x l IH]; intros Hd; [split; [apply NoDup_singleton|done]|].
  rewrite fmap_cons in Hd. apply NoDup_cons in Hd as [Hx Hd]. destruct (IH Hd) as [I1 I2]. simpl.
  destruct (bool_decide (pe_key x = pe_key e)) eqn:E; to_prop.
  - split; [rewrite fmap_cons, <- E; by constructor|]. by rewrite !edge_map_cons, E, insert_insert_eq.
  - split; [rewrite fmap_cons; constructor; [|done]|]. { rewrite put_edge_keys. naive_solver. }
    rewrite !edge_map_cons, I2. by apply insert_insert_ne.
Qed.

Lemma filter_edges_spec k l : distinct_keys l →
  distinct_keys (filter (λ e, pe_key e ≠ k) l) ∧ edge_map (filter (λ e, pe_key e ≠ k) l) = delete k (edge_map l).
Proof.
  unfold distinct_keys. induction l as [|x l IH]; intros Hd; [split; [constructor|symmetry; apply delete_empty]|].
  rewrite fmap_cons in Hd. apply NoDup_cons in Hd as [Hx Hd]. destruct (IH Hd) as [I1 I2]. rewrite filter_cons.
  rewrite edge_map_cons. destruct (decide (pe_key x ≠ k)) as [Hne|Heq].
  - rewrite edge_map_cons, I2. split; [|symmetry; by apply delete_insert_ne].
    rewrite fmap_cons. constructor; [|done]. intros (y & Ey & Hy%list_elem_of_filter)%list_elem_of_fmap.
    apply Hx. apply list_elem_of_fmap. naive_solver.
  - apply dec_stable in Heq. subst k. split; [done|]. by rewrite delete_insert_eq, I2.
Qed.

Lemma length_edge_map l : distinct_keys l → length l = size (edge_map l).
Proof.
  intros Hd. unfold edge_map. rewrite <- length_map_to_list, map_to_list_to_map; [by rewrite length_fmap|].
  by rewrite <- list_fmap_compose.
Qed.

Section round_trip.
Context `{UuidApi, !Serde (list PersistedEdgeState), !SerdeRoundTrip (list PersistedEdgeState)}.
Context `{!Serde (list BrowserAlertRecord), !Serde (gmap string BrowserAlertRecord), !Serde AvatarReactionProfile}.

(** The storage works, and has the edges of [m] under [key]. *)
Definition holds_edges (key : string) (m : gmap string PersistedEdgeState) (st : LocalStorage) : Prop :=
  ls_outcomes st = [] ∧
  ∃ edges, read_json key st = (Ok edges, st) ∧
    distinct_keys (default [] edges) ∧ edge_map (default [] edges) = m ∧ StronglySorted later_first (default [] edges).

Lemma write_holds key l st : ls_outcomes st = [] → distinct_keys l → StronglySorted later_first l →
  ∃ st', write_json key l st = (Ok (), st') ∧ holds_edges key (edge_map l) st'.
Proof.
  intros Ho Hd Hs. destruct (serde_round_trip l) as (s & E1 & E2).
  exists {| ls_items := <[key := s]> (ls_items st); ls_outcomes := []; ls_console := ls_console st |}.
  unfold write_json, io_bind, io_ret, set_item, access. rewrite E1, Ho. simpl. split; [done|]. split; [done|].
  exists (Some l). split_and!; try done. unfold read_json, io_bind, get_item, access. simpl. by rewrite lookup_insert_eq, E2.
Qed.

Lemma holds_confined {A} key K (c : io A) m st : key ∉ K → confined K c → holds_edges key m st → holds_edges key m (c st).2.
Proof.
  intros Hk Hc (Ho & edges & E & Hrest). destruct (Hc st st) as (_ & _ & E3 & E4); [done|]. split; [auto|].
  exists edges. split; [|done]. revert E. unfold read_json, io_bind, get_item, access. rewrite E4, Ho, E3 by done.
  simpl. destruct (c st) as [r st2]. simpl in *. specialize (E4 Ho). destruct st2 as [items outcomes console]. simpl in *. subst outcomes.
  destruct (ls_items st !! key) as [v|]; simpl; [|by intros [= <-]].
  destruct (from_str v); intros [= <-]; done.
Qed.

(** The map the commands describe. *)
Definition edge_command (m : gmap string PersistedEdgeState) (command : StorageCommand) : gmap string PersistedEdgeState :=
  match command with
  | UpsertEdge edge => <[pe_key edge := edge]> m
  | DeleteEdge key => delete key m
  | RecordAlert _ => m
  end.

Lemma reported (c : io ()) st st' : c st = (Ok (), st') → (report_error c st).2 = st'.
Proof. unfold report_error. by intros ->. Qed.

Lemma perform_holds scope key command m st : scope_storage_key scope EDGES_KEY = Some key → holds_edges key m st →
  (size (edge_command m command) ≤ MAX_EDGE_STATES)%nat → holds_edges key (edge_command m command) (perform scope command st).2.
Proof.
  intros Hkey Hh Hsize. pose proof Hh as (Ho & edges & E & Hd & <- & Hs). destruct command as [edge|k|alert]; simpl in *.
  - unfold web_persist_edge. rewrite Hkey. destruct (put_edge_spec edge _ Hd) as [P1 P2].
    pose proof (sort_edges_perm (put_edge edge (default [] edges))) as Hp.
    assert (distinct_keys (sort_edges (put_edge edge (default [] edges)))) as Hd'.
    { unfold distinct_keys. by rewrite Hp. }
    rewrite <- P2 in Hsize |- *. rewrite <- length_edge_map, <- Hp in Hsize by done. rewrite (edge_map_perm _ _ P1 (symmetry Hp)).
    destruct (write_holds key _ st Ho Hd' (sort_edges_sorted _)) as (st' & W1 & W2).
    rewrite (reported _ st st'); [done|]. unfold io_bind at 1. rewrite E. by rewrite take_ge.
  - unfold web_delete_edge. rewrite Hkey. destruct (filter_edges_spec k _ Hd) as [P1 P2]. rewrite <- P2.
    destruct (write_holds key _ st Ho P1 (StronglySorted_filter _ _ _ Hs)) as (st' & W1 & W2).
    rewrite (reported _ st st'); [done|]. unfold io_bind at 1. by rewrite E.
  - apply (holds_confined key (omap (scope_storage_key scope) alert_keys)); [| |done].
    + intros (base & Hb & Eb)%list_elem_of_omap. assert (EDGES_KEY = base) as <-.
      { apply (scope_key_base scope _ _ key); try done; unfold alert_keys, state_keys in *; set_solver. }
      revert Hb. apply (bool_decide_eq_false_1 _). vm_refl.
    + apply persist_alert_confined. intros base k Hb Eb. apply list_elem_of_omap. eauto.
Qed.

(** As long as a scope has at most [MAX_EDGE_STATES] edges, what the dashboard
    stored and deleted, with alerts in between, is what a restore gives back,
    newest first. *)
Theorem browser_edges_restored scope key commands m st : scope_storage_key scope EDGES_KEY = Some key →
  holds_edges key m st →
  (∀ n, (size (foldl edge_command m (take n commands)) ≤ MAX_EDGE_STATES)%nat) →
  let restored := br_restored_edges (restore_scope scope (perform_all scope commands st)).1 in
  edge_map restored = foldl edge_command m commands ∧ distinct_keys restored ∧ StronglySorted later_first restored.
Proof.
  intros Hkey. revert m st. induction commands as [|c cs IH]; intros m st Hh Hsize; cbn [perform_all foldl].
  - destruct Hh as (Ho & edges & E & Hd & Hm & Hs). unfold restore_scope, restore_edges. rewrite Hkey, E.
    by destruct (restore_profile scope st) as [[p ws] st'].
  - apply IH.
    + apply perform_holds; [done..|]. exact (Hsize 1%nat).
    + intros n. exact (Hsize (S n)).
Qed.
End round_trip.

(** ** Examples *)

(** A codec with one text. *)
Module WebStorageDemo.
Definition demo_serde (A : Type) (x : A) : Serde A := {| to_string := λ _, Ok "v"; from_str := λ _, Ok x |}.
#[export] Instance demo_edges : Serde (list PersistedEdgeState) := demo_serde _ [].
#[export] Instance demo_events : Serde (list BrowserAlertRecord) := demo_serde _ [].
#[export] Instance demo_active : Serde (gmap string BrowserAlertRecord) := demo_serde _ ∅.
#[export] Instance demo_profiles : Serde AvatarReactionProfile := demo_serde _ default_profile.
#[export] Existing Instance WebDemo.demo_uuid.

Definition demo_reading (n : nat) : Reading := {| rd_system_ms := 1700000000000 + Z.of_nat n; rd_instant := Z.of_nat n |}.
Definition demo_local (_ : Z) : option string := None.
Definition demo_restore_clock (_ _ : nat) : RestoreClock := {| rc_now := 0; rc_instant := 0; rc_checked_sub := λ _ _, None |}.
(** Pages that have counted [n] metrics of one tenant and stored its edges. *)
Definition demo_tenant (z : Z) : BrowserStorageScope := CloudScope "https://monitor.example" (mkTenantId z).
Definition demo_page (n : Z) : WebDashboard :=
  let state :=
    {| ds_status := Listening "receiver ready (1 listener)"; ds_listening_label := Some "receiver ready (1 listener)";
       ds_counters := {| sc_metrics := n; sc_metric_points := n; sc_traces := 0; sc_spans := 0; sc_logs := 0;
                         sc_log_records := 0 |};
       ds_events := []; ds_metrics := []; ds_metric_history := ∅; ds_nodes := ∅; ds_edges := no_edges;
       ds_alerts := no_alerts; ds_alerts_enabled := true; ds_avatar_profile := default_profile;
       ds_avatar_profile_revision := 0; ds_avatar_model_revision := 0; ds_pending_avatar_profile := None;
       ds_storage := Some no_calls; ds_listeners := ∅; ds_ingress_control := None; ds_ticks := 0 |} in
  {| wd_state := state; wd_scope := demo_tenant n; wd_store_scope := demo_tenant n;
     wd_local := {| ls_items := ∅; ls_outcomes := []; ls_console := [] |} |}.
End WebStorageDemo.

#[local] Existing Instances WebDemo.demo_uuid WebStorageDemo.demo_edges WebStorageDemo.demo_events WebStorageDemo.demo_active
  WebStorageDemo.demo_profiles.
Import WebStorageDemo.

Lemma browser_scope_isolated_witness :
  let ops := [WopRegisterAgent "edge" "c" ""; WopToggleAlerts false] in
  let change w :=
    web_run demo_reading demo_local demo_restore_clock
      (observe_browser_storage_scope demo_reading demo_local demo_restore_clock (demo_tenant 3) w) ops in
  wd_state (change (demo_page 1)) = wd_state (change (demo_page 2)).
Proof.
  intros ops change.
  refine (proj1 (browser_scope_isolated (H0 := WebDemo.demo_uuid_laws) demo_reading demo_local demo_restore_clock
            (demo_page 1) (demo_page 2) (demo_tenant 3) ops _ _ _ _ _ _ _)).
  - by split.
  - by split.
  - done.
  - done.
  - done.
  - done.
  - by repeat constructor.
Defined.
