(* ===== verification/Nodes.v ===== *)
(** * The stand-alone nodes (skid-edge-agent, skid-file-node, skid-compute-advisor)

    Three small programs that sample a few metrics and post them, one frame
    per connection, to the agent's device socket.  The environment, the
    arguments, the directory listings, the number of processors and the
    outcome of the connection are arguments.  [node_reaches_agent] composes a
    node's cycle with the agent's reader of DeviceSocket. *)

From S2P Require Import Prelude RustStr Otlp Frame EdgeWire Core RustFloat RustText Sequence AgentConfig Exporter Pipeline DeviceSocket.

Abbreviation NodeEnv := (gmap string string).

(** A literal of the source. *)
Definition f64_lit (s : string) : f64 := default S754_nan (parse_f64 s).

(** ** Configuration *)

Definition DEFAULT_DEVICE_ADDR : string := "127.0.0.1:9101".
Definition EDGE_DEFAULT_INTERVAL_SECS : Z := 15.
Definition FILE_DEFAULT_INTERVAL_SECS : Z := 30.
Definition COMPUTE_DEFAULT_INTERVAL_SECS : Z := 30.

(** [env_or_legacy] *)
Definition node_env (env : NodeEnv) (primary legacy : string) : option string := env !! primary ∪ env !! legacy.

Definition node_device_addr (env : NodeEnv) : string :=
  default DEFAULT_DEVICE_ADDR
    (node_env env "SKID_MONITOR_DEVICE_ADDR" "MONITOR_CAT_DEVICE_ADDR"
     ∪ node_env env "SKID_MONITOR_DEVICE_LISTEN_ADDR" "MONITOR_CAT_DEVICE_LISTEN_ADDR").

(** Seconds; a value that does not parse or is zero gives the default. *)
Definition node_interval (env : NodeEnv) (primary legacy : string) (default_secs : Z) : Z :=
  match node_env env primary legacy ≫= parse_u64 with
  | Some seconds => if 0 <? seconds then seconds else default_secs
  | None => default_secs
  end.

Record EdgeConfig := {
  ec_device_addr : string;
  ec_device_id : string;
  ec_node_name : string;
  ec_interval : Z;
}.
Definition edge_from_env (env : NodeEnv) : EdgeConfig :=
  {| ec_device_addr := node_device_addr env;
     ec_device_id := default "edge-dev-001" (node_env env "SKID_MONITOR_EDGE_DEVICE_ID" "MONITOR_CAT_EDGE_DEVICE_ID");
     ec_node_name := default "edge-node" (node_env env "SKID_MONITOR_EDGE_NODE" "MONITOR_CAT_EDGE_NODE");
     ec_interval := node_interval env "SKID_MONITOR_EDGE_INTERVAL_SECS" "MONITOR_CAT_EDGE_INTERVAL_SECS"
                      EDGE_DEFAULT_INTERVAL_SECS |}.

Record FileRoot := { fr_label : string; fr_path : string }.

Definition parse_root (value : string) : option FileRoot :=
  '(label, path) ← split_once "="%byte value;
  if is_empty label || is_empty path then None else Some {| fr_label := label; fr_path := path |}.

(** The [while let] over the arguments: the roots and whether [--once] is
    there.  [--root] takes the next argument, whatever it is. *)
Fixpoint parse_args (args : list string) (roots : list FileRoot) (once : bool) : list FileRoot * bool :=
  match args with
  | [] => (roots, once)
  | arg :: args =>
    if bool_decide (arg = "--once") then parse_args args roots true
    else if bool_decide (arg = "--root") then
      match args with
      | [] => (roots, once)
      | value :: args => parse_args args (roots ++ option_list (parse_root value)) once
      end
    else if starts_with arg "--root="
    then parse_args args (roots ++ option_list (parse_root (trim_start_matches arg "--root="))) once
    else parse_args args roots once
  end.

Record FileNodeConfig := {
  fc_device_addr : string;
  fc_node_name : string;
  fc_roots : list FileRoot;
  fc_interval : Z;
  fc_once : bool;
}.
Definition file_from_env_and_args (env : NodeEnv) (args : list string) : FileNodeConfig :=
  let '(roots, once) := parse_args args [] false in
  let roots := match roots with [] => [{| fr_label := "cwd"; fr_path := "." |}] | _ => roots end in
  {| fc_device_addr := node_device_addr env;
     fc_node_name := default "file-node" (node_env env "SKID_FILE_NODE_NAME" "MONITOR_CAT_FILE_NODE_NAME");
     fc_roots := roots;
     fc_interval := node_interval env "SKID_FILE_NODE_INTERVAL_SECS" "MONITOR_CAT_FILE_NODE_INTERVAL_SECS"
                      FILE_DEFAULT_INTERVAL_SECS;
     fc_once := once |}.

Record ComputeAdvisorConfig := {
  cac_device_addr : string;
  cac_node_name : string;
  cac_interval : Z;
  cac_once : bool;
}.
Definition hostname_fallback (env : NodeEnv) : string := default "compute-advisor" (env !! "HOSTNAME").
Definition compute_from_env_and_args (env : NodeEnv) (args : list string) : ComputeAdvisorConfig :=
  {| cac_device_addr := node_device_addr env;
     cac_node_name := default (hostname_fallback env)
                        (node_env env "SKID_COMPUTE_ADVISOR_NODE" "MONITOR_CAT_COMPUTE_ADVISOR_NODE");
     cac_interval := node_interval env "SKID_COMPUTE_ADVISOR_INTERVAL_SECS" "MONITOR_CAT_COMPUTE_ADVISOR_INTERVAL_SECS"
                       COMPUTE_DEFAULT_INTERVAL_SECS;
     cac_once := bool_decide ("--once" ∈ args) |}.

(** ** Samples *)

Definition make_metric (name : string) (value : f64) (unit : option string) (kind : SampleKind) (sensor : string)
    (config : EdgeConfig) : Metric :=
  {| name := name; metric_value := value; source := EdgeDevice; unit_of := unit; metric_kind := kind;
     attributes := [("device_id", ec_device_id config); ("node_name", ec_node_name config); ("sensor", sensor)] |}.

Definition sample_edge_metrics (config : EdgeConfig) : list Metric :=
  [make_metric "edge.temperature" (f64_lit "38.5") (Some "C") KGauge "enclosure" config;
   make_metric "edge.voltage.input" (f64_lit "12.1") (Some "V") KGauge "power" config;
   make_metric "edge.network.rssi" (f64_lit "-62.0") (Some "dBm") KGauge "wifi" config;
   make_metric "edge.boot.count" (f64_lit "1.0") None KSum "runtime" config;
   make_metric "edge.watchdog.resets" (f64_lit "0.0") None KSum "runtime" config].

Record RootSnapshot := { sn_available : bool; sn_file_count : Z; sn_total_bytes : Z }.

(** An entry of a directory: unreadable, without metadata, or with it. *)
Inductive DirEntry := EntryUnreadable | EntryNoMetadata | EntryMetadata (is_file : bool) (len : Z).

Definition count_entry (s : RootSnapshot) (e : DirEntry) : RootSnapshot :=
  match e with
  | EntryMetadata true len =>
    {| sn_available := sn_available s; sn_file_count := sn_file_count s + 1;
       sn_total_bytes := sat_add (sn_total_bytes s) len |}
  | _ => s
  end.
(** [RootSnapshot::read]; [entries] is what [read_dir] yields, if it works. *)
Definition snapshot_read (entries : option (list DirEntry)) : RootSnapshot :=
  match entries with
  | None => {| sn_available := false; sn_file_count := 0; sn_total_bytes := 0 |}
  | Some entries => foldl count_entry {| sn_available := true; sn_file_count := 0; sn_total_bytes := 0 |} entries
  end.

Definition file_metric (name : string) (value : f64) (unit : option string) (attrs : list (string * string)) : Metric :=
  {| name := name; metric_value := value; source := FileNode; unit_of := unit; metric_kind := KGauge;
     attributes := attrs |}.

Definition root_metrics (config : FileNodeConfig) (root : FileRoot) (snapshot : RootSnapshot) : list Metric :=
  let attrs := [("node_name", fc_node_name config); ("root_label", fr_label root); ("root_path", fr_path root)] in
  [file_metric "file_node.root.available" (f64_of_Z (if sn_available snapshot then 1 else 0)) None attrs;
   file_metric "file_node.root.files" (f64_of_Z (sn_file_count snapshot)) None attrs;
   file_metric "file_node.root.bytes" (f64_of_Z (sn_total_bytes snapshot)) (Some "By") attrs].

Definition sample_file_offer_metrics (read_dir : string → option (list DirEntry)) (config : FileNodeConfig)
    : list Metric :=
  file_metric "file_node.roots.configured" (f64_of_Z (zlen (fc_roots config))) None
    [("node_name", fc_node_name config)] ::
  mjoin ((λ root, root_metrics config root (snapshot_read (read_dir (fr_path root)))) <$> fc_roots config).

Definition sample_compute_metrics (available_parallelism : option Z) (config : ComputeAdvisorConfig) : list Metric :=
  let logical_cpus := f64_of_Z (default 1 available_parallelism) in
  let attrs := [("node_name", cac_node_name config); ("executor_enabled", "false")] in
  let metric name value :=
    {| name := name; metric_value := value; source := ComputeAdvisor; unit_of := None; metric_kind := KGauge;
       attributes := attrs |} in
  [metric "compute_advisor.parallelism.logical_cpus" logical_cpus;
   metric "compute_advisor.gpu.detected" (S754_zero false);
   metric "compute_advisor.route.score.placeholder" logical_cpus].

(** ** A cycle *)

Inductive NodeLog :=
| SerializationFailed (e : IoError)
| SentBytes (n : Z)
| NodeSendFailed (e : IoError).

Section send.
Context `{SignalCodec}.

Definition send_tcp {W} `{Writer W} (connected : result IoError W) (payload : list byte)
    : result IoError () * option W :=
  match connected with
  | Err e => (Err e, None)
  | Ok stream => let '(r, stream) := write_signal_payload stream payload in (r, Some stream)
  end.

(** [send]: what it logs, and the stream it wrote to. *)
Definition node_send {W} `{Writer W} (signal : Signal) (connected : result IoError W) : NodeLog * option W :=
  match encode_signal_payload signal with
  | Err e => (SerializationFailed e, None)
  | Ok payload =>
    match send_tcp connected payload with
    | (Ok _, stream) => (SentBytes (zlen payload), stream)
    | (Err e, stream) => (NodeSendFailed e, stream)
    end
  end.

(** The body of the loops of the three [main]s. *)
Definition edge_signal (now : Z) (config : EdgeConfig) : Signal :=
  Metrics (export_metrics now (sample_edge_metrics config) "skid-edge-agent" "skid-monitor-edge").
Definition file_signal (now : Z) (read_dir : string → option (list DirEntry)) (config : FileNodeConfig) : Signal :=
  Metrics (export_metrics now (sample_file_offer_metrics read_dir config) "skid-file-node" "skid-monitor-file").
Definition compute_signal (now : Z) (cpus : option Z) (config : ComputeAdvisorConfig) : Signal :=
  Metrics (export_metrics now (sample_compute_metrics cpus config) "skid-compute-advisor" "skid-monitor-compute").

(** [main]: a cycle per signal; with [--once] only the first. *)
Fixpoint node_main {W} `{Writer W} (once : bool) (cycles : list (Signal * result IoError W)) : list (NodeLog * option W) :=
  match cycles with
  | [] => []
  | (signal, connected) :: cycles =>
    node_send signal connected :: if once then [] else node_main once cycles
  end.
End send.

(** ** Lemmas *)

(** The interval is never zero. *)
Lemma node_interval_positive env primary legacy d : 0 < d → 0 < node_interval env primary legacy d.
Proof.
  intros Hd. unfold node_interval. destruct (_ ≫= _) as [z|]; [|done]. destruct (0 <? z) eqn:E; to_prop; lia.
Qed.

(** A file node always has a root. *)
Lemma file_roots_not_empty env args : fc_roots (file_from_env_and_args env args) ≠ [].
Proof. unfold file_from_env_and_args. destruct (parse_args args [] false) as [[|r rs] once]; done. Qed.

(** A snapshot counts the files and adds up their sizes, up to [u64::MAX]. *)
Definition file_sizes (entries : list DirEntry) : list Z :=
  omap (λ e, match e with EntryMetadata true len => Some len | _ => None end) entries.

Lemma snapshot_read_spec entries : Forall (λ z, 0 ≤ z) (file_sizes entries) →
  snapshot_read (Some entries) =
    {| sn_available := true; sn_file_count := zlen (file_sizes entries);
       sn_total_bytes := Z.min (sumZ (file_sizes entries)) u64_max |}.
Proof.
  unfold snapshot_read.
  assert (∀ es n b, 0 ≤ b ≤ u64_max → Forall (λ z, 0 ≤ z) (file_sizes es) →
    foldl count_entry {| sn_available := true; sn_file_count := n; sn_total_bytes := b |} es =
    {| sn_available := true; sn_file_count := n + zlen (file_sizes es);
       sn_total_bytes := Z.min (b + sumZ (file_sizes es)) u64_max |}) as Hgen.
  { induction es as [|e es IH]; intros n b Hb Hz.
    - cbn [foldl]. change (file_sizes []) with (@nil Z). rewrite zlen_nil, sumZ_nil. f_equal; lia.
    - destruct e as [| |[|] len]; try (by apply IH).
      change (file_sizes (EntryMetadata true len :: es)) with (len :: file_sizes es) in Hz |- *.
      apply Forall_cons in Hz as [Hlen Hz]. pose proof (sumZ_nonneg _ Hz). cbn [foldl count_entry sn_available sn_file_count sn_total_bytes].
      rewrite IH; [|unfold sat_add, u64_max in *; lia|done]. rewrite zlen_cons, sumZ_cons. f_equal; [lia|].
      unfold sat_add. lia. }
  intros Hz. rewrite Hgen by done. done.
Qed.

Section delivery.
Context `{SignalCodec}.

(** What a node writes in a cycle, arriving in any segments, the agent's device
    socket reads as the node's signal.  The hypotheses are serde_json's: the
    text of a signal reads back as it, and does not look like an edge frame. *)
Theorem node_reaches_agent signal payload now evs fuel :
  to_vec signal = Ok payload → from_slice payload = Ok signal → is_edge_wire_frame payload = false →
  zlen payload ≤ LEGACY_MAX_FRAME_BYTES →
  ∃ bytes, node_send signal (Ok []) = (SentBytes (zlen payload), Some bytes) ∧
    (arrives evs bytes → (length evs < fuel)%nat →
     ∃ evs', read_device_signal fuel now evs = Some (Some (Ok signal), evs') ∧ arrives evs' []).
Proof.
  intros Hto Hfrom Hw Hlen. exists (frame_bytes_of payload).
  pose proof (write_signal_vec [] signal payload Hto Hlen) as Hws. unfold write_signal in Hws.
  unfold node_send, send_tcp.
  assert (encode_signal_payload signal = Ok payload) as Henc.
  { unfold encode_signal_payload, validate_payload_len. rewrite Hto. cbn [map_err mbind result_bind].
    by rewrite (proj2 (Z.ltb_ge _ _)) by lia. }
  rewrite Henc in Hws |- *. destruct (write_signal_payload [] payload) as [[[]|e] w]; [|done].
  injection Hws as ->. split; [done|]. intros Ha Hf. unfold frame_bytes_of in Ha.
  rewrite <-(app_nil_r payload) in Ha at 2.
  destruct (read_device_payload now evs payload [] fuel) as (evs' & Hr & Ha'); [done|done|done|].
  exists evs'. split; [|done]. rewrite Hr. unfold decode_device_payload, decode_signal_payload.
  by rewrite Hw, Hfrom.
Qed.
End delivery.
