(* ===== verification/VrmJson.v ===== *)
(** * Fields of a character model's JSON (skid-monitor-fe, vrm/loader.rs)

    A VRM model is a glTF file whose JSON root carries extensions.  This file
    has the accessors of [serde_json::Value] the loader uses, single precision
    numbers, and the helpers that read one field with its type, its default
    and its range.  Everything the loader accepts through them is finite and
    in range; the lemmas at the end say so. *)

From S2P Require Import Prelude RustStr Otlp RustFloat FeProfile Json.

(** ** f32 *)

Definition is_finite (f : f32) : bool := match f with S754_zero _ | S754_finite _ _ _ => true | _ => false end.

(** [value as f32] of an [f64]: round to nearest, ties to even. *)
Definition f64_as_f32 (f : f64) : f32 :=
  match f with
  | S754_finite s m e => binary_normalize 24 128 (cond_Zopp s (Zpos m)) e s
  | f => f
  end.

(** The literal [a / b]: the quotient is rounded once. *)
Definition f32_lit (a b : Z) : f32 := SFdiv 24 128 (f32_of_Z a) (f32_of_Z b).
Definition f32_0 : f32 := S754_zero false.
Definition f32_1 : f32 := f32_of_Z 1.
(** [f32::EPSILON] *)
Definition F32_EPSILON : f32 := S754_finite false 8388608 (-46).
Definition f32_add : f32 → f32 → f32 := SFadd 24 128.
Definition f32_sub : f32 → f32 → f32 := SFsub 24 128.
Definition f32_mul : f32 → f32 → f32 := SFmul 24 128.
Definition f32_div : f32 → f32 → f32 := SFdiv 24 128.

(** [f32::clamp] and [f32::max], of numbers. *)
Definition f32_clamp (f lo hi : f32) : f32 := if SFltb f lo then lo else if SFltb hi f then hi else f.
Definition f32_max (f g : f32) : f32 := match f with S754_nan => g | _ => if SFltb f g then g else f end.
Definition f32_min (f g : f32) : f32 := match f with S754_nan => g | _ => if SFltb g f then g else f end.
(** [(lo..=hi).contains(&f)] *)
Definition f32_in (lo hi f : f32) : bool := SFleb lo f && SFleb f hi.

Record Vec3 := { vx : f32; vy : f32; vz : f32 }.
Definition vec3_splat (f : f32) : Vec3 := {| vx := f; vy := f; vz := f |}.
Definition vec3_all (p : f32 → bool) (v : Vec3) : bool := p (vx v) && p (vy v) && p (vz v).
Definition f32_neg_1 : f32 := f32_of_Z (-1).

(** ** Values *)

Abbreviation Map := (list (string * Value)).

Definition as_array (v : Value) : option (list Value) := match v with Array l => Some l | _ => None end.
Definition as_bool (v : Value) : option bool := match v with Bool b => Some b | _ => None end.
Definition is_string (v : Value) : bool := match v with VString _ => true | _ => false end.
Definition as_i64 (v : Value) : option Z :=
  match v with
  | VNumber (PosInt n) => if n <=? i64_max then Some n else None
  | VNumber (NegInt n) => Some n
  | _ => None
  end.

(** The number serde_json parsed for a literal with a fraction or an exponent
    (or outside the integers): always finite. *)
Class JsonFloat := float_value : string → f64.
Class JsonFloatLaws `{JsonFloat} : Prop :=
  float_value_finite : ∀ text, is_finite (float_value text) = true.

(** [usize] of the native build has 64 bits. *)
Definition USIZE_MAX : Z := u64_max.
Definition usize_try_from (z : Z) : option nat := if (0 <=? z) && (z <=? USIZE_MAX) then Some (Z.to_nat z) else None.
Definition usize_text (n : nat) : string := u64_to_string (Z.of_nat n).

Section fields.
Context `{JsonFloat}.

Definition as_f64 (v : Value) : option f64 :=
  match v with
  | VNumber (PosInt n) | VNumber (NegInt n) => Some (f64_of_Z n)
  | VNumber (Float text) => Some (float_value text)
  | _ => None
  end.

(** [as_f64().map(|value| value as f32).filter(|value| value.is_finite())] *)
Definition as_finite_f32 (v : Value) : option f32 :=
  f ← as_f64 v;
  let f := f64_as_f32 f in
  if is_finite f then Some f else None.

Definition array_len (v : Value) (key : string) : nat :=
  match get key v ≫= as_array with Some l => length l | None => 0 end.

(** ** Fields of an object *)

Definition json_usize_field (object : Map) (key context : string) : result string nat :=
  ok_or ((map_get key object ≫= as_u64) ≫= usize_try_from) (context +:+ "." +:+ key +:+ " must be an unsigned integer").

Definition json_index_field (object : Map) (key : string) (count : nat) (context : string) : result string nat :=
  index ← json_usize_field object key context;
  if (count <=? index)%nat then Err (context +:+ " references missing index " +:+ usize_text index) else Ok index.

(** The bounds are whole numbers at every call, and printed as such. *)
Definition object_f32_range (object : Map) (key : string) (default_value : f32) (minimum maximum : Z) (context : string)
    : result string f32 :=
  value ← match map_get key object with
          | None => Ok default_value
          | Some value => ok_or (as_finite_f32 value) (context +:+ "." +:+ key +:+ " must be a finite number")
          end;
  if f32_in (f32_of_Z minimum) (f32_of_Z maximum) value then Ok value
  else Err (context +:+ "." +:+ key +:+ " must be between " +:+ i64_to_string minimum +:+ " and " +:+ i64_to_string maximum).

Definition three_f32 (values : list Value) (error : string) : result string Vec3 :=
  match values with
  | x :: y :: z :: _ =>
    x ← ok_or (as_finite_f32 x) error;
    y ← ok_or (as_finite_f32 y) error;
    z ← ok_or (as_finite_f32 z) error;
    Ok {| vx := x; vy := y; vz := z |}
  | _ => Err error
  end.

Definition optional_vec3 (value : option Value) (default_value : Vec3) (context : string) : result string Vec3 :=
  match value with
  | None => Ok default_value
  | Some value =>
    match as_array value with
    | Some values =>
      if (length values =? 3)%nat then three_f32 values (context +:+ " must contain finite numbers")
      else Err (context +:+ " must be a three-number array")
    | None => Err (context +:+ " must be a three-number array")
    end
  end.

Definition required_non_empty_string (object : Map) (field context : string) : result string () :=
  match map_get field object ≫= as_str with
  | Some value =>
    if is_empty (trim value) then Err (context +:+ "." +:+ field +:+ " must be a non-empty string") else Ok ()
  | None => Err (context +:+ "." +:+ field +:+ " must be a non-empty string")
  end.

Definition json_node_index (value : Value) (node_count : nat) (context : string) : result string nat :=
  node ← ok_or (as_u64 value) ("VRM " +:+ context +:+ " node index must be an unsigned integer");
  node ← ok_or (usize_try_from node) ("VRM " +:+ context +:+ " node index is too large");
  if (node_count <=? node)%nat then Err ("VRM " +:+ context +:+ " references missing node " +:+ usize_text node) else Ok node.

(** [for extension in required { .. }] *)
Fixpoint check_extensions (supported : list string) (label : string) (required : list Value) : result string () :=
  match required with
  | [] => Ok ()
  | extension :: required =>
    extension ← ok_or (as_str extension) (label +:+ " required extension name must be a string");
    if bool_decide (extension ∈ supported) then check_extensions supported label required
    else Err (label +:+ " requires unsupported glTF extension " +:+ extension)
  end.
Definition validate_required_extension_names (root : Value) (supported : list string) (label : string) : result string () :=
  match get "extensionsRequired" root with
  | None => Ok ()
  | Some required =>
    required ← ok_or (as_array required) (label +:+ " extensionsRequired must be an array");
    check_extensions supported label required
  end.

(** ** Fields of MToon materials *)

Definition json_string (object : Map) (key default_value : string) : result string string :=
  match map_get key object with
  | None => Ok default_value
  | Some value => ok_or (as_str value) ("MToon " +:+ key +:+ " must be a string")
  end.
Definition json_bool (object : Map) (key : string) (default_value : bool) : result string bool :=
  match map_get key object with
  | None => Ok default_value
  | Some value => ok_or (as_bool value) ("MToon " +:+ key +:+ " must be a boolean")
  end.
Definition i32_try_from (z : Z) : option Z := if (- 2 ^ 31 <=? z) && (z <? 2 ^ 31) then Some z else None.
Definition json_i32 (object : Map) (key : string) (default_value : Z) : result string Z :=
  match map_get key object with
  | None => Ok default_value
  | Some value => ok_or (as_i64 value ≫= i32_try_from) ("MToon " +:+ key +:+ " must be a 32-bit integer")
  end.
Definition json_f32 (object : Map) (key : string) (default_value : f32) : result string f32 :=
  match map_get key object with
  | None => Ok default_value
  | Some value => ok_or (as_finite_f32 value) ("MToon " +:+ key +:+ " must be a finite number")
  end.
Definition json_f32_range (object : Map) (key : string) (default_value : f32) (min max : Z) : result string f32 :=
  value ← json_f32 object key default_value;
  if f32_in (f32_of_Z min) (f32_of_Z max) value then Ok value
  else Err ("MToon " +:+ key +:+ " must be between " +:+ i64_to_string min +:+ " and " +:+ i64_to_string max).
(** The array has three values when the conversion runs, so the last error of
    the source ([try_into]) does not occur. *)
Definition json_vec3 (object : Map) (key : string) (default_value : Vec3) : result string Vec3 :=
  match map_get key object with
  | None => Ok default_value
  | Some value =>
    match as_array value with
    | Some values =>
      if (length values =? 3)%nat then three_f32 values ("MToon " +:+ key +:+ " must contain finite numbers")
      else Err ("MToon " +:+ key +:+ " must be a three-number array")
    | None => Err ("MToon " +:+ key +:+ " must be a three-number array")
    end
  end.
Definition finite_vec3 (value : Vec3) (label : string) : result string Vec3 :=
  if vec3_all is_finite value then Ok value else Err ("MToon " +:+ label +:+ " contains NaN or infinity").

Definition json_texture_index (root : Value) (object : Map) (key : string) : result string (option nat) :=
  match map_get key object with
  | None => Ok None
  | Some texture =>
    texture ← ok_or (as_object texture) ("MToon " +:+ key +:+ " must be a texture info object");
    index ← json_index_field texture "index" (array_len root "textures") ("MToon " +:+ key);
    Ok (Some index)
  end.

Definition legacy_get (object : option Map) (key : string) : option Value := object ≫= map_get key.
Definition legacy_float (object : option Map) (key : string) (default_value : f32) : result string f32 :=
  match legacy_get object key with
  | None => Ok default_value
  | Some value => ok_or (as_finite_f32 value) ("legacy MToon " +:+ key +:+ " must be a finite number")
  end.
Definition legacy_vec3 (object : option Map) (key : string) (default_value : Vec3) : result string Vec3 :=
  match legacy_get object key with
  | None => Ok default_value
  | Some values =>
    match as_array values with
    | Some values =>
      if (3 <=? length values)%nat then three_f32 values ("legacy MToon " +:+ key +:+ " must contain finite numbers")
      else Err ("legacy MToon " +:+ key +:+ " must contain at least three numbers")
    | None => Err ("legacy MToon " +:+ key +:+ " must contain at least three numbers")
    end
  end.
Definition legacy_texture_index (root : Value) (object : option Map) (key : string) : result string (option nat) :=
  match legacy_get object key with
  | None => Ok None
  | Some value =>
    match as_i64 value ≫= usize_try_from with
    | Some index =>
      if (index <? array_len root "textures")%nat then Ok (Some index)
      else Err ("legacy MToon " +:+ key +:+ " texture index is invalid")
    | None => Err ("legacy MToon " +:+ key +:+ " texture index is invalid")
    end
  end.
End fields.

(** ** Single precision comparisons *)

Lemma SFcompare_swap x y : SFcompare y x = CompOpp <$> SFcompare x y.
Proof.
  destruct x as [[|]|[|]| |[|] m e], y as [[|]|[|]| |[|] m' e']; try done; simpl;
    rewrite (Z.compare_antisym e e'); pose proof (Pos.compare_cont_antisym m m' Eq) as Hm;
    destruct (e ?= e'); try done; simpl in *; by rewrite <- Hm.
Qed.
Lemma SFcompare_refl x : is_finite x = true → SFcompare x x = Some Eq.
Proof. destruct x as [[|]|[|]| |[|] m e]; try done; intros _; simpl; by rewrite Z.compare_refl, Pos.compare_cont_refl. Qed.
Lemma SFcompare_numbers x y : is_finite x = true → is_finite y = true → SFcompare x y ≠ None.
Proof. by destruct x as [[|]|[|]| |[|] m e], y as [[|]|[|]| |[|] m' e']; simpl; repeat case_match. Qed.

Lemma SFleb_not_lt x y : is_finite x = true → is_finite y = true → SFltb x y = false → SFleb y x = true.
Proof.
  intros Hx Hy. unfold SFltb, SFleb. rewrite (SFcompare_swap x y). pose proof (SFcompare_numbers x y Hx Hy).
  by destruct (SFcompare x y) as [[]|].
Qed.
Lemma SFleb_lt x y : SFltb x y = true → SFleb x y = true.
Proof. unfold SFltb, SFleb. by destruct (SFcompare x y) as [[]|]. Qed.
Lemma SFleb_refl x : is_finite x = true → SFleb x x = true.
Proof. intros Hx. unfold SFleb. by rewrite SFcompare_refl. Qed.

Lemma f32_in_finite lo hi f : is_finite lo = true → is_finite hi = true → f32_in lo hi f = true → is_finite f = true.
Proof.
  unfold f32_in, SFleb. intros Hlo Hhi [H1 H2]%andb_true_iff.
  destruct f as [|[|]| |]; try done; [by destruct lo as [[|]|[|]| |[|] ? ?]|by destruct hi as [[|]|[|]| |[|] ? ?]].
Qed.
Lemma f32_clamp_in f lo hi : is_finite f = true → is_finite lo = true → is_finite hi = true → SFleb lo hi = true →
  f32_in lo hi (f32_clamp f lo hi) = true.
Proof.
  intros Hf Hlo Hhi Hle. unfold f32_in, f32_clamp.
  destruct (SFltb f lo) eqn:E1; [by rewrite SFleb_refl|]. apply SFleb_not_lt in E1; [|done..].
  destruct (SFltb hi f) eqn:E2; [by rewrite Hle, SFleb_refl|]. apply SFleb_not_lt in E2; [|done..]. by rewrite E1, E2.
Qed.
Lemma f32_max_ge f g : is_finite f = true → is_finite g = true →
  is_finite (f32_max f g) = true ∧ SFleb g (f32_max f g) = true.
Proof.
  intros Hf Hg. assert (f32_max f g = if SFltb f g then g else f) as -> by (by destruct f).
  destruct (SFltb f g) eqn:E; [by rewrite SFleb_refl|]. by rewrite (SFleb_not_lt f g).
Qed.

(** ** What the field helpers accept *)

Definition finite3 (v : Vec3) : Prop := vec3_all is_finite v = true.

Lemma as_finite_f32_finite `{JsonFloat} v f : as_finite_f32 v = Some f → is_finite f = true.
Proof. unfold as_finite_f32. destruct (as_f64 v) as [d|]; simpl; [|done]. destruct (is_finite _) eqn:E; naive_solver. Qed.

Lemma usize_field_ok object key context : ensures (json_usize_field object key context)
  (λ n, ∃ z, map_get key object = Some (VNumber (PosInt z)) ∧ n = Z.to_nat z).
Proof.
  unfold json_usize_field. intros n E. apply ok_or_Ok in E. apply bind_Some in E as (z & E & Hn).
  apply bind_Some in E as (v & Hv & Hz). unfold usize_try_from in Hn.
  destruct (_ && _); simplify_eq. exists z. by destruct v as [|?|[?|?|?]|?|?|?]; simplify_eq/=.
Qed.

Lemma index_field_ok object key count context : ensures (json_index_field object key count context) (λ n, (n < count)%nat).
Proof.
  unfold json_index_field. eapply ensures_bind; [apply ensures_any|]. intros n _.
  destruct (count <=? n)%nat eqn:E; [apply ensures_err|]. apply ensures_ok. apply Nat.leb_gt in E. lia.
Qed.
#[export] Hint Resolve index_field_ok : ensures.

Lemma node_index_ok value count context : ensures (json_node_index value count context) (λ n, (n < count)%nat).
Proof.
  unfold json_node_index. do 2 step_ensures. destruct (count <=? _)%nat eqn:E; [apply ensures_err|].
  apply ensures_ok. apply Nat.leb_gt in E. lia.
Qed.
#[export] Hint Resolve node_index_ok : ensures.

Lemma f32_range_ok `{JsonFloat} object key d lo hi context :
  ensures (object_f32_range object key d lo hi context) (λ f, f32_in (f32_of_Z lo) (f32_of_Z hi) f = true).
Proof.
  unfold object_f32_range. eapply ensures_bind; [apply ensures_any|]. intros f _.
  destruct (f32_in _ _ f) eqn:E; [by apply ensures_ok|apply ensures_err].
Qed.
#[export] Hint Resolve f32_range_ok : ensures.

Lemma three_f32_ok `{JsonFloat} values error : ensures (three_f32 values error) finite3.
Proof.
  destruct values as [|x [|y [|z values]]]; try apply ensures_err. simpl. do 3 step_ensures. apply ensures_ok.
  unfold finite3, vec3_all. simpl.
  by repeat match goal with Hf : as_finite_f32 _ = Some _ |- _ => apply as_finite_f32_finite in Hf; rewrite Hf end.
Qed.
#[export] Hint Resolve three_f32_ok : ensures.

Lemma optional_vec3_ok `{JsonFloat} value d context : finite3 d → ensures (optional_vec3 value d context) finite3.
Proof.
  intros Hd. unfold optional_vec3. destruct value as [v|]; [|by apply ensures_ok].
  repeat case_match; auto with ensures.
Qed.
#[export] Hint Resolve optional_vec3_ok : ensures.

Lemma json_f32_ok `{JsonFloat} object key d : is_finite d = true → ensures (json_f32 object key d) (λ f, is_finite f = true).
Proof.
  intros Hd. unfold json_f32. destruct (map_get key object); [|by apply ensures_ok].
  intros f E%ok_or_Ok. by eapply as_finite_f32_finite.
Qed.
#[export] Hint Resolve json_f32_ok : ensures.

Lemma json_f32_range_ok `{JsonFloat} object key d lo hi :
  ensures (json_f32_range object key d lo hi) (λ f, f32_in (f32_of_Z lo) (f32_of_Z hi) f = true).
Proof.
  unfold json_f32_range. eapply ensures_bind; [apply ensures_any|]. intros f _.
  destruct (f32_in _ _ f) eqn:E; [by apply ensures_ok|apply ensures_err].
Qed.
#[export] Hint Resolve json_f32_range_ok : ensures.

Lemma json_vec3_ok `{JsonFloat} object key d : finite3 d → ensures (json_vec3 object key d) finite3.
Proof.
  intros Hd. unfold json_vec3. destruct (map_get key object); [|by apply ensures_ok].
  repeat case_match; auto with ensures.
Qed.
#[export] Hint Resolve json_vec3_ok : ensures.

Lemma finite_vec3_ok value label : ensures (finite_vec3 value label) finite3.
Proof. unfold finite_vec3. destruct (vec3_all _ value) eqn:E; [by apply ensures_ok|apply ensures_err]. Qed.
#[export] Hint Resolve finite_vec3_ok : ensures.

Definition texture_ok (root : Value) (t : option nat) : Prop :=
  match t with Some i => (i < array_len root "textures")%nat | None => True end.

Lemma json_texture_ok root object key : ensures (json_texture_index root object key) (texture_ok root).
Proof.
  unfold json_texture_index. destruct (map_get key object); [|by apply ensures_ok]. do 2 step_ensures. by apply ensures_ok.
Qed.
#[export] Hint Resolve json_texture_ok : ensures.

Lemma legacy_float_ok `{JsonFloat} object key d : is_finite d = true → ensures (legacy_float object key d) (λ f, is_finite f = true).
Proof.
  intros Hd. unfold legacy_float. destruct (legacy_get object key); [|by apply ensures_ok].
  intros f E%ok_or_Ok. by eapply as_finite_f32_finite.
Qed.
#[export] Hint Resolve legacy_float_ok : ensures.

Lemma legacy_vec3_ok `{JsonFloat} object key d : finite3 d → ensures (legacy_vec3 object key d) finite3.
Proof.
  intros Hd. unfold legacy_vec3. destruct (legacy_get object key); [|by apply ensures_ok].
  repeat case_match; auto with ensures.
Qed.
#[export] Hint Resolve legacy_vec3_ok : ensures.

Lemma legacy_texture_ok root object key : ensures (legacy_texture_index root object key) (texture_ok root).
Proof.
  unfold legacy_texture_index. destruct (legacy_get object key); [|by apply ensures_ok].
  repeat case_match; try apply ensures_err. apply ensures_ok. simpl. by apply Nat.ltb_lt.
Qed.
#[export] Hint Resolve legacy_texture_ok : ensures.

(** ** Fallible code that may panic

    [Some r] is a result; [None] stands for a panic, or for fuel that ran out. *)

Definition and_then {A B} (m : option (result string A)) (k : A → option (result string B)) : option (result string B) :=
  match m with None => None | Some (Err e) => Some (Err e) | Some (Ok a) => k a end.
Arguments and_then {A B} m k : simpl never.
Notation "x ⇐ m ; k" := (and_then m (λ x, k)) (at level 20, m at level 100, k at level 200, right associativity).

(** It ends without a panic, and what it returns has [P]. *)
Definition ends {A} (m : option (result string A)) (P : A → Prop) : Prop := ∃ r, m = Some r ∧ ensures r P.

Lemma ends_some {A} (r : result string A) P : ensures r P → ends (Some r) P.
Proof. intros Hr. by exists r. Qed.
Lemma ends_err {A} (e : string) (P : A → Prop) : ends (Some (Err e)) P.
Proof. apply ends_some, ensures_err. Qed.
Lemma ends_then {A B} (m : option (result string A)) (k : A → option (result string B)) P Q :
  ends m P → (∀ a, P a → ends (k a) Q) → ends (x ⇐ m; k x) Q.
Proof. intros ([a|e] & -> & Hr) Hk; unfold and_then; [apply Hk, Hr; done|apply ends_err]. Qed.
Lemma ends_any {A B} (r : result string A) (k : A → option (result string B)) Q :
  (∀ a, r = Ok a → ends (k a) Q) → ends (x ⇐ Some r; k x) Q.
Proof. intros Hk. apply (ends_then _ _ (λ a, r = Ok a)); [apply ends_some; by intros a|done]. Qed.
