(* ===== verification/VrmMtoon.v ===== *)
(** * Materials of a character model (skid-monitor-fe, vrm/loader.rs)

    The MToon parameters of a material, from the VRM 1.0 extension or from the
    properties of the legacy one.  [mtoon_accepted_ok] shows that whatever the
    loader accepts is finite and in the range the shader expects, and that
    every texture it names exists. *)

From S2P Require Import Prelude RustStr Otlp RustFloat FeProfile Json VrmJson.

Record CpuMtoonMaterial := {
  mt_enabled : bool;
  shade_color : Vec3;
  shading_shift : f32;
  shading_toony : f32;
  gi_equalization : f32;
  parametric_rim_color : Vec3;
  rim_fresnel_power : f32;
  rim_lift : f32;
  emissive_color : Vec3;
  outline_width : f32;
  outline_color : Vec3;
  outline_lighting_mix : f32;
  transparent_with_z_write : bool;
  render_queue_offset : Z;
  uv_scroll : f32 * f32;
  uv_rotation : f32;
  shade_texture : option nat;
  normal_texture : option nat;
  matcap_texture : option nat;
  rim_texture : option nat;
  outline_width_texture : option nat;
  outline_width_texture_uses_red : bool;
  normal_scale : f32;
  matcap_color : Vec3;
  rim_lighting_mix : f32;
}.

Definition f32_0_9 : f32 := f32_lit 9 10.
Definition black : Vec3 := vec3_splat f32_0.
Definition white : Vec3 := vec3_splat f32_1.

(** [CpuMtoonMaterial::default] *)
Definition default_mtoon : CpuMtoonMaterial :=
  {| mt_enabled := false; shade_color := black; shading_shift := f32_0; shading_toony := f32_0_9;
     gi_equalization := f32_0_9; parametric_rim_color := black; rim_fresnel_power := f32_of_Z 5; rim_lift := f32_0;
     emissive_color := black; outline_width := f32_0; outline_color := black; outline_lighting_mix := f32_1;
     transparent_with_z_write := false; render_queue_offset := 0; uv_scroll := (f32_0, f32_0); uv_rotation := f32_0;
     shade_texture := None; normal_texture := None; matcap_texture := None; rim_texture := None;
     outline_width_texture := None; outline_width_texture_uses_red := false; normal_scale := f32_1;
     matcap_color := white; rim_lighting_mix := f32_1 |}.

Definition has_uv_animation (m : CpuMtoonMaterial) : bool :=
  mt_enabled m
  && (SFltb F32_EPSILON (SFabs (uv_scroll m).1) || SFltb F32_EPSILON (SFabs (uv_scroll m).2)
      || SFltb F32_EPSILON (SFabs (uv_rotation m))).

Section mtoon.
Context `{JsonFloat}.

Definition material_error (index : nat) (text : string) : string := "VRM material " +:+ usize_text index +:+ text.

(** The material's own JSON object. *)
Definition material_at (root : Value) (index : nat) : option Value :=
  materials ← get "materials" root ≫= as_array;
  materials !! index.

Definition alpha_mode_of (root : Value) (index : nat) : string :=
  default "OPAQUE" ((material_at root index ≫= get "alphaMode") ≫= as_str).

(** The checks of the render queue of a VRM 1.0 material. *)
Definition check_render_queue (index : nat) (alpha_mode : string) (z_write : bool) (offset : Z) : result string () :=
  let allowed := if z_write then (0 <=? offset) && (offset <=? 9) else (-9 <=? offset) && (offset <=? 0) in
  if bool_decide (alpha_mode = "BLEND") && negb allowed
  then Err (material_error index " MToon renderQueueOffsetNumber is out of range")
  else if negb (bool_decide (alpha_mode = "BLEND")) && negb (offset =? 0)
  then Err (material_error index " may offset the MToon render queue only in BLEND mode")
  else Ok ().

(** The VRM 1.0 branch, once the extension is there. *)
Definition decode_mtoon_one (root : Value) (index : nat) (emissive_factor : Vec3) (extension : Value)
    : result string CpuMtoonMaterial :=
  extension ← ok_or (as_object extension) (material_error index " VRMC_materials_mtoon must be an object");
  if negb (bool_decide (map_get "specVersion" extension ≫= as_str = Some "1.0"))
  then Err (material_error index " supports only VRMC_materials_mtoon 1.0")
  else
  outline_mode ← json_string extension "outlineWidthMode" "none";
  if negb (bool_decide (outline_mode ∈ ["none"; "worldCoordinates"; "screenCoordinates"]))
  then Err (material_error index " has invalid MToon outlineWidthMode")
  else
  z_write ← json_bool extension "transparentWithZWrite" false;
  queue ← json_i32 extension "renderQueueOffsetNumber" 0;
  _ ← check_render_queue index (alpha_mode_of root index) z_write queue;
  shade ← json_vec3 extension "shadeColorFactor" black;
  shift ← json_f32_range extension "shadingShiftFactor" f32_0 (-1) 1;
  toony ← json_f32_range extension "shadingToonyFactor" f32_0_9 0 1;
  gi ← json_f32_range extension "giEqualizationFactor" f32_0_9 0 1;
  rim ← json_vec3 extension "parametricRimColorFactor" black;
  fresnel ← json_f32_range extension "parametricRimFresnelPowerFactor" (f32_of_Z 5) 0 100;
  lift ← json_f32_range extension "parametricRimLiftFactor" f32_0 (-1) 1;
  emissive ← finite_vec3 emissive_factor "emissiveFactor";
  width ← if bool_decide (outline_mode = "none") then Ok f32_0
          else json_f32_range extension "outlineWidthFactor" f32_0 0 1;
  outline ← json_vec3 extension "outlineColorFactor" black;
  mix ← json_f32_range extension "outlineLightingMixFactor" f32_1 0 1;
  scroll_x ← json_f32 extension "uvAnimationScrollXSpeedFactor" f32_0;
  scroll_y ← json_f32 extension "uvAnimationScrollYSpeedFactor" f32_0;
  rotation ← json_f32 extension "uvAnimationRotationSpeedFactor" f32_0;
  shade_tex ← json_texture_index root extension "shadeMultiplyTexture";
  matcap_tex ← json_texture_index root extension "matcapTexture";
  rim_tex ← json_texture_index root extension "rimMultiplyTexture";
  outline_tex ← json_texture_index root extension "outlineWidthMultiplyTexture";
  matcap ← json_vec3 extension "matcapFactor" white;
  rim_mix ← json_f32_range extension "rimLightingMixFactor" f32_1 0 1;
  Ok {| mt_enabled := true; shade_color := shade; shading_shift := shift; shading_toony := toony; gi_equalization := gi;
        parametric_rim_color := rim; rim_fresnel_power := fresnel; rim_lift := lift; emissive_color := emissive;
        outline_width := width; outline_color := outline; outline_lighting_mix := mix; transparent_with_z_write := z_write;
        render_queue_offset := queue; uv_scroll := (scroll_x, scroll_y); uv_rotation := rotation;
        shade_texture := shade_tex; normal_texture := None; matcap_texture := matcap_tex; rim_texture := rim_tex;
        outline_width_texture := outline_tex; outline_width_texture_uses_red := false; normal_scale := f32_1;
        matcap_color := matcap; rim_lighting_mix := rim_mix |}.

(** [(render_queue - 3000).clamp(-9, 9)]: the subtraction of [i64] wraps around
    in a release build (and panics in a debug build). *)
Definition legacy_queue_offset (render_queue : Z) : Z := Z.min 9 (Z.max (-9) (Prelude.as_i64 (render_queue - 3000))).

Definition clamped (lo hi : Z) (r : result string f32) : result string f32 :=
  f ← r; Ok (f32_clamp f (f32_of_Z lo) (f32_of_Z hi)).

(** The legacy branch, once the property is there. *)
Definition decode_mtoon_zero (root : Value) (index : nat) (emissive_factor : Vec3) (property : Value)
    : result string CpuMtoonMaterial :=
  property ← ok_or (as_object property)
               ("legacy VRM material property " +:+ usize_text index +:+ " must be an object");
  if negb match map_get "shader" property ≫= as_str with Some shader => contains shader "MToon" | None => false end
  then Ok default_mtoon
  else
  let floats := map_get "floatProperties" property ≫= as_object in
  let vectors := map_get "vectorProperties" property ≫= as_object in
  let textures := map_get "textureProperties" property ≫= as_object in
  outline_mode ← legacy_float floats "_OutlineWidthMode" f32_0;
  let queue := legacy_queue_offset (default 3000 (map_get "renderQueue" property ≫= VrmJson.as_i64)) in
  shade ← legacy_vec3 vectors "_ShadeColor" black;
  shift ← clamped (-1) 1 (legacy_float floats "_ShadeShift" f32_0);
  toony ← clamped 0 1 (legacy_float floats "_ShadeToony" f32_0_9);
  gi ← clamped 0 1 (legacy_float floats "_IndirectLightIntensity" f32_0_9);
  rim ← legacy_vec3 vectors "_RimColor" black;
  fresnel ← legacy_float floats "_RimFresnelPower" (f32_of_Z 5);
  lift ← clamped (-1) 1 (legacy_float floats "_RimLift" f32_0);
  emissive ← legacy_vec3 vectors "_EmissionColor" emissive_factor;
  width ← if SFleb outline_mode f32_0 then Ok f32_0 else clamped 0 1 (legacy_float floats "_OutlineWidth" f32_0);
  outline ← legacy_vec3 vectors "_OutlineColor" black;
  mix ← clamped 0 1 (legacy_float floats "_OutlineLightingMix" f32_1);
  z_write ← legacy_float floats "_ZWrite" f32_0;
  scroll_x ← legacy_float floats "_UvAnimScrollX" f32_0;
  scroll_y ← legacy_float floats "_UvAnimScrollY" f32_0;
  rotation ← legacy_float floats "_UvAnimRotation" f32_0;
  shade_tex ← legacy_texture_index root textures "_ShadeTexture";
  normal_tex ← legacy_texture_index root textures "_BumpMap";
  matcap_tex ← legacy_texture_index root textures "_SphereAdd";
  rim_tex ← legacy_texture_index root textures "_RimTexture";
  outline_tex ← legacy_texture_index root textures "_OutlineWidthTexture";
  scale ← legacy_float floats "_BumpScale" f32_1;
  matcap ← legacy_vec3 vectors "_SphereAdd" white;
  rim_mix ← clamped 0 1 (legacy_float floats "_RimLightingMix" f32_1);
  Ok {| mt_enabled := true; shade_color := shade; shading_shift := shift; shading_toony := toony; gi_equalization := gi;
        parametric_rim_color := rim; rim_fresnel_power := f32_max fresnel f32_0; rim_lift := lift;
        emissive_color := emissive; outline_width := width; outline_color := outline; outline_lighting_mix := mix;
        transparent_with_z_write := SFltb (f32_lit 1 2) z_write; render_queue_offset := queue;
        uv_scroll := (scroll_x, scroll_y); uv_rotation := rotation; shade_texture := shade_tex;
        normal_texture := normal_tex; matcap_texture := matcap_tex; rim_texture := rim_tex;
        outline_width_texture := outline_tex; outline_width_texture_uses_red := true;
        normal_scale := f32_max scale f32_0; matcap_color := matcap; rim_lighting_mix := rim_mix |}.

Definition decode_legacy_mtoon (root : Value) (index : nat) (emissive_factor : Vec3) : result string CpuMtoonMaterial :=
  match (vrm ← get "extensions" root ≫= get "VRM";
         properties ← get "materialProperties" vrm ≫= as_array;
         properties !! index) with
  | None => Ok default_mtoon
  | Some property => decode_mtoon_zero root index emissive_factor property
  end.

Definition decode_mtoon_material (root : Value) (material_index : option nat) (emissive_factor : Vec3)
    (version_label : string) : result string CpuMtoonMaterial :=
  match material_index with
  | None => Ok default_mtoon
  | Some index =>
    if bool_decide (version_label = "VRM 1.0") then
      match (material ← material_at root index; get "extensions" material ≫= get "VRMC_materials_mtoon") with
      | None => Ok default_mtoon
      | Some extension => decode_mtoon_one root index emissive_factor extension
      end
    else decode_legacy_mtoon root index emissive_factor
  end.

Definition validate_mtoon_materials (root : Value) (version_label : string) : result string () :=
  _ ← try_map (λ index, decode_mtoon_material root (Some index) black version_label) (seq 0 (array_len root "materials"));
  Ok ().
End mtoon.

(** ** What the loader accepts *)

Definition unit_f32 (f : f32) : Prop := f32_in f32_0 f32_1 f = true.
Definition signed_unit_f32 (f : f32) : Prop := f32_in f32_neg_1 f32_1 f = true.
Definition nonneg_f32 (f : f32) : Prop := is_finite f = true ∧ SFleb f32_0 f = true.

Record mtoon_ok (root : Value) (m : CpuMtoonMaterial) : Prop := {
  mo_shift : signed_unit_f32 (shading_shift m);
  mo_toony : unit_f32 (shading_toony m);
  mo_gi : unit_f32 (gi_equalization m);
  mo_fresnel : nonneg_f32 (rim_fresnel_power m);
  mo_lift : signed_unit_f32 (rim_lift m);
  mo_width : unit_f32 (outline_width m);
  mo_mix : unit_f32 (outline_lighting_mix m);
  mo_rim_mix : unit_f32 (rim_lighting_mix m);
  mo_scale : nonneg_f32 (normal_scale m);
  mo_colors : Forall finite3 [shade_color m; parametric_rim_color m; emissive_color m; outline_color m; matcap_color m];
  mo_uv : Forall (λ f, is_finite f = true) [(uv_scroll m).1; (uv_scroll m).2; uv_rotation m];
  mo_queue : -9 ≤ render_queue_offset m ≤ 9;
  mo_textures : Forall (texture_ok root) [shade_texture m; normal_texture m; matcap_texture m; rim_texture m; outline_width_texture m];
}.

Lemma default_mtoon_ok root : mtoon_ok root default_mtoon.
Proof. by split; repeat constructor. Qed.

Lemma clamped_ok lo hi r : ensures r (λ f, is_finite f = true) → is_finite (f32_of_Z lo) = true → is_finite (f32_of_Z hi) = true →
  SFleb (f32_of_Z lo) (f32_of_Z hi) = true → ensures (clamped lo hi r) (λ f, f32_in (f32_of_Z lo) (f32_of_Z hi) f = true).
Proof.
  intros Hr Hlo Hhi Hle. unfold clamped. eapply ensures_bind; [done|]. intros f Hf. apply ensures_ok. by apply f32_clamp_in.
Qed.

(** The clamps at the bounds of the loader. *)
Lemma clamped_unit r : ensures r (λ f, is_finite f = true) → ensures (clamped 0 1 r) unit_f32.
Proof. intros Hr. by apply clamped_ok. Qed.
Lemma clamped_signed r : ensures r (λ f, is_finite f = true) → ensures (clamped (-1) 1 r) signed_unit_f32.
Proof. intros Hr. by apply clamped_ok. Qed.
#[export] Hint Resolve clamped_unit clamped_signed : ensures.

Lemma queue_ok index alpha z_write offset : ensures (check_render_queue index alpha z_write offset) (λ _, -9 ≤ offset ≤ 9).
Proof.
  unfold check_render_queue. destruct (bool_decide (alpha = "BLEND")); simpl.
  - destruct z_write; destruct (_ && _) eqn:E; simpl; try apply ensures_err; to_prop; apply ensures_ok; lia.
  - destruct (offset =? 0) eqn:E; simpl; [|apply ensures_err]. to_prop. apply ensures_ok. lia.
Qed.
#[export] Hint Resolve queue_ok : ensures.
#[export] Hint Extern 1 (finite3 _) => exact eq_refl : ensures.
#[export] Hint Extern 1 (is_finite _ = true) => reflexivity : ensures.

Lemma if_ok {E A} (c : bool) (r r' : result E A) P : ensures r P → ensures r' P → ensures (if c then r else r') P.
Proof. by destruct c. Qed.

Section ok.
Context `{JsonFloat}.

Lemma outline_width_one_ok (c : bool) extension :
  ensures (if c then Ok f32_0 else json_f32_range extension "outlineWidthFactor" f32_0 0 1) unit_f32.
Proof. apply if_ok; [by apply ensures_ok|apply (json_f32_range_ok extension _ _ 0 1)]. Qed.
Lemma outline_width_zero_ok (c : bool) floats :
  ensures (if c then Ok f32_0 else clamped 0 1 (legacy_float floats "_OutlineWidth" f32_0)) unit_f32.
Proof. apply if_ok; [by apply ensures_ok|]. auto with ensures. Qed.
#[local] Hint Resolve outline_width_one_ok outline_width_zero_ok : ensures.

Lemma fresnel_ok f : f32_in f32_0 (f32_of_Z 100) f = true → nonneg_f32 f.
Proof. intros Hf. split; [by apply (f32_in_finite f32_0 (f32_of_Z 100))|]. by apply andb_true_iff in Hf as [? _]. Qed.

Lemma decode_mtoon_one_ok root index emissive extension : ensures (decode_mtoon_one root index emissive extension) (mtoon_ok root).
Proof.
  unfold decode_mtoon_one. step_ensures. case_match; [apply ensures_err|]. step_ensures. case_match; [apply ensures_err|].
  do 3 step_ensures. repeat step_ensures. apply ensures_ok.
  split; simpl; try done; [by apply fresnel_ok|repeat constructor; done..].
Qed.

Lemma decode_mtoon_zero_ok root index emissive property : finite3 emissive →
  ensures (decode_mtoon_zero root index emissive property) (mtoon_ok root).
Proof.
  intros He. unfold decode_mtoon_zero. step_ensures. case_match; [apply ensures_ok, default_mtoon_ok|].
  repeat step_ensures. apply ensures_ok.
  split; simpl; try done; try (by apply f32_max_ge); try (by repeat constructor). unfold legacy_queue_offset. lia.
Qed.

(** The emissive factor does not decide whether a material is accepted. *)
Ltac bind_beta := match goal with |- context [mbind ?k (Ok ?a)] => change (mbind k (Ok a)) with (k a); cbv beta end.
Ltac same_step E :=
  apply bind_Ok in E as (? & ? & E);
  match goal with Eq : ?r = Ok _ |- context [mbind _ ?r] => rewrite Eq; bind_beta end.

Lemma decode_one_any root index extension e e' m : finite3 e' → decode_mtoon_one root index e extension = Ok m →
  ∃ m', decode_mtoon_one root index e' extension = Ok m'.
Proof.
  intros He E. unfold decode_mtoon_one in *. same_step E. case_match; [done|]. same_step E. case_match; [done|].
  do 10 same_step E. apply bind_Ok in E as (? & _ & E). unfold finite_vec3 at 1. rewrite He. bind_beta.
  repeat same_step E. by eexists.
Qed.

Lemma legacy_vec3_any vectors key d d' v : legacy_vec3 vectors key d = Ok v → ∃ v', legacy_vec3 vectors key d' = Ok v'.
Proof. unfold legacy_vec3. destruct (legacy_get vectors key); eauto. Qed.

Lemma decode_zero_any root index property e e' m : decode_mtoon_zero root index e property = Ok m →
  ∃ m', decode_mtoon_zero root index e' property = Ok m'.
Proof.
  intros E. unfold decode_mtoon_zero in *. same_step E. case_match; [eauto|].
  do 8 same_step E. apply bind_Ok in E as (? & Ev & E). destruct (legacy_vec3_any _ _ _ e' _ Ev) as [v' Ev'].
  rewrite Ev'. bind_beta. repeat same_step E. by eexists.
Qed.

(** Every MToon material the loader accepts is what the shader expects: its
    shift, lift and mixing factors are in their ranges, its colours and UV
    speeds are finite, its render queue offset is within nine of the default
    and each texture it names is in the model's table.  (A legacy material
    takes over the emissive factor of the glTF material, which is assumed
    finite for it.)  Materials that pass the validation before the scene is
    built are accepted again, whatever finite emissive factor they have. *)
Theorem mtoon_accepted_ok root version_label :
  (∀ index emissive m, decode_mtoon_material root index emissive version_label = Ok m →
     version_label = "VRM 1.0" ∨ finite3 emissive → mtoon_ok root m) ∧
  (validate_mtoon_materials root version_label = Ok () →
   ∀ index emissive, (index < array_len root "materials")%nat → finite3 emissive →
     ∃ m, decode_mtoon_material root (Some index) emissive version_label = Ok m).
Proof.
  split.
  - intros index emissive m E He. revert m E. change (ensures (decode_mtoon_material root index emissive version_label) (mtoon_ok root)).
    unfold decode_mtoon_material, decode_legacy_mtoon.
    destruct index as [index|]; [|apply ensures_ok, default_mtoon_ok].
    destruct (bool_decide (version_label = "VRM 1.0")) eqn:El; to_prop; case_match;
      try apply ensures_ok, default_mtoon_ok; [apply decode_mtoon_one_ok|].
    apply decode_mtoon_zero_ok. naive_solver.
  - unfold validate_mtoon_materials. intros (k & Hk & _)%bind_Ok index emissive Hi He.
    destruct (try_map_inputs _ _ _ index Hk) as [m Hm]; [apply elem_of_seq; lia|]. revert Hm.
    unfold decode_mtoon_material, decode_legacy_mtoon. repeat case_match; eauto using decode_one_any, decode_zero_any.
Qed.
End ok.

(** A queue number far below the range of [i64] minus 3000 wraps around: the
    material is drawn last instead of first. *)
Example legacy_queue_wraps : legacy_queue_offset i64_min = 9 ∧ legacy_queue_offset (-100) = -9.
Proof. by split. Qed.
