(* ===== verification/VrmGlb.v ===== *)
(** * The container of a character model (skid-monitor-fe, vrm/loader.rs)

    A GLB file is a header, a JSON chunk and the rest.  The loader reads the
    JSON root, checks the extensions the file requires, and hands the gltf
    crate a copy of the file without the list of required extensions.
    [glb_sanitized] shows that this copy is a well-formed GLB with the same
    data and the same root but for that list. *)

From S2P Require Import Prelude RustStr Otlp Json VrmJson.

Definition MAX_VRM_FILE_BYTES : Z := 128 * 1024 * 1024.
Definition MAX_VRMA_FILE_BYTES : Z := 64 * 1024 * 1024.

Definition SUPPORTED_REQUIRED_EXTENSIONS : list string :=
  ["VRMC_vrm"; "VRM"; "VRMC_materials_mtoon"; "VRMC_springBone"; "VRMC_node_constraint"; "KHR_materials_unlit"].
Definition SUPPORTED_VRMA_REQUIRED_EXTENSIONS : list string := ["VRMC_vrm_animation"].

(** [u32::from_le_bytes] and [to_le_bytes] *)
Definition from_le (l : list byte) : Z := from_be (reverse l).
Definition to_le (n : nat) (z : Z) : list byte := reverse (to_be n z).

(** [&bytes[start..end]] *)
Definition slice {A} (bytes : list A) (start stop : nat) : list A := take (stop - start) (drop start bytes).

Definition GLTF_MAGIC : list byte := as_bytes "glTF".
Definition JSON_CHUNK : Z := 0x4E4F534A.

(** serde_json on bytes: the text of an error is its [Display]. *)
Class JsonBytes := {
  json_from_slice : list byte → result string Value;
  json_to_vec : Value → result string (list byte);
}.
(** White space after a JSON text is ignored. *)
Class JsonBytesLaws `{JsonBytes} : Prop :=
  json_trailing_blank : ∀ bytes n, json_from_slice (bytes ++ repeat " "%byte n) = json_from_slice bytes.

(** Reading a file under a limit: the outcome of [metadata] (its length), of
    [open] and of [read_to_end], whose bytes are cut one past the limit. *)
Definition read_limited (what : string) (limit : Z) (path : string) (metadata : result string Z)
    (opened : result string ()) (contents : result string (list byte)) : result string (list byte) :=
  let too_large := what +:+ " exceeds the " +:+ u64_to_string (limit / 1024 / 1024) +:+ " MiB file limit" in
  len ← map_err (λ e, "failed to inspect " +:+ what +:+ " " +:+ path +:+ ": " +:+ e) metadata;
  if limit <? len then Err too_large
  else
  _ ← map_err (λ e, "failed to open " +:+ what +:+ " " +:+ path +:+ ": " +:+ e) opened;
  bytes ← map_err (λ e, "failed to read " +:+ what +:+ " " +:+ path +:+ ": " +:+ e) contents;
  let bytes := take (Z.to_nat (limit + 1)) bytes in
  if limit <? zlen bytes then Err too_large else Ok bytes.

Definition read_u32 (bytes : list byte) (offset : nat) : result string Z :=
  if (offset + 4 <=? length bytes)%nat then Ok (from_le (slice bytes offset (offset + 4)))
  else Err "VRM GLB header is truncated".

(** [20usize.checked_add(json_length).filter(|end| *end <= bytes.len())] *)
Definition json_chunk_end (bytes : list byte) (json_length : Z) : result string nat :=
  if 20 + json_length <=? zlen bytes then Ok (Z.to_nat (20 + json_length)) else Err "VRM JSON chunk is truncated".

Definition remove_key (key : string) (v : Value) : Value :=
  match v with Object m => Object (filter (λ kv, kv.1 ≠ key) m) | v => v end.

(** [while json.len() & 3 != 0 { json.push(b' ') }] *)
Definition pad4 (json : list byte) : list byte := json ++ repeat " "%byte (Z.to_nat ((- zlen json) `mod` 4)).

Section glb.
Context `{JsonBytes}.

Definition parse_glb_root (bytes : list byte) : result string Value :=
  if (length bytes <? 20)%nat || negb (bool_decide (slice bytes 0 4 = GLTF_MAGIC))
  then Err "VRM must be a binary glTF 2.0 file"
  else
  version ← read_u32 bytes 4;
  if negb (version =? 2) then Err ("VRM GLB version " +:+ u64_to_string version +:+ " is not supported")
  else
  declared_length ← read_u32 bytes 8;
  if negb (declared_length =? zlen bytes) then Err "VRM GLB declared length does not match the file"
  else
  json_length ← read_u32 bytes 12;
  chunk ← read_u32 bytes 16;
  if negb (chunk =? JSON_CHUNK) then Err "VRM GLB first chunk must be JSON"
  else
  json_end ← json_chunk_end bytes json_length;
  map_err (λ error, "invalid VRM JSON chunk: " +:+ error) (json_from_slice (slice bytes 20 json_end)).

Definition glb_header (total json_length : Z) : list byte :=
  GLTF_MAGIC ++ to_le 4 2 ++ to_le 4 total ++ to_le 4 json_length ++ to_le 4 JSON_CHUNK.

Definition glb_without_validated_required_extensions (bytes : list byte) (root : Value) : result string (list byte) :=
  original_json_length ← read_u32 bytes 12;
  tail_start ← json_chunk_end bytes original_json_length;
  json ← map_err (λ error, "failed to validate VRM JSON: " +:+ error) (json_to_vec (remove_key "extensionsRequired" root));
  let json := pad4 json in
  let tail := drop tail_start bytes in
  let total_length := 12 + 8 + zlen json + zlen tail in
  if u64_max <? total_length then Err "sanitized VRM GLB length overflowed"
  else if u32_max <? total_length then Err "sanitized VRM GLB is too large"
  else if u32_max <? zlen json then Err "sanitized VRM JSON is too large"
  else Ok (glb_header total_length (zlen json) ++ json ++ tail).

Definition validate_required_extensions (root : Value) : result string () :=
  validate_required_extension_names root SUPPORTED_REQUIRED_EXTENSIONS "VRM".
End glb.

(** ** Lemmas *)

Lemma length_to_le n z : length (to_le n z) = n.
Proof. unfold to_le. by rewrite length_reverse, length_to_be. Qed.
Lemma from_le_to_le z : 0 ≤ z < 2 ^ 32 → from_le (to_le 4 z) = z.
Proof. intros Hz. unfold from_le, to_le. rewrite reverse_involutive. by apply from_be_to_be_small. Qed.

Lemma slice_app {A start stop} (a b c : list A) : start = length a → stop = (start + length b)%nat → slice (a ++ b ++ c) start stop = b.
Proof.
  intros -> ->. unfold slice. rewrite drop_app_length, Nat.add_comm, Nat.add_sub. apply take_app_length.
Qed.

Lemma read_u32_at a z c offset : offset = length a → 0 ≤ z < 2 ^ 32 → read_u32 (a ++ to_le 4 z ++ c) offset = Ok z.
Proof.
  intros -> Hz. unfold read_u32. rewrite (slice_app a (to_le 4 z) c) by (rewrite ?length_to_le; done).
  rewrite from_le_to_le by done. rewrite !length_app, length_to_le.
  destruct (_ <=? _)%nat eqn:E; [done|]. apply Nat.leb_gt in E. lia.
Qed.

Lemma pad4_aligned json : (4 | zlen (pad4 json)).
Proof.
  unfold pad4. rewrite zlen_app. unfold zlen at 2. rewrite repeat_length. apply Z.mod_divide; [lia|].
  rewrite Z2Nat.id by (apply Z.mod_pos_bound; lia). rewrite Zplus_mod_idemp_r, Z.add_opp_diag_r. done.
Qed.

(** The chunks after the JSON chunk. *)
Definition glb_tail (bytes : list byte) : list byte :=
  match read_u32 bytes 12 with Ok n => drop (Z.to_nat (20 + n)) bytes | Err _ => [] end.

(** ** The parts of a file *)

Lemma to_le_from_le n bytes : length bytes = n → to_le n (from_le bytes) = bytes.
Proof. intros <-. unfold to_le, from_le. rewrite <- (length_reverse bytes), to_be_from_be. apply reverse_involutive. Qed.
Lemma length_slice {A} (bytes : list A) i j : (i ≤ j ≤ length bytes)%nat → length (slice bytes i j) = (j - i)%nat.
Proof. intros H. unfold slice. rewrite length_take, length_drop. lia. Qed.
Lemma slice_next {A} (bytes : list A) i j : (i ≤ j)%nat → drop i bytes = slice bytes i j ++ drop j bytes.
Proof. intros H. unfold slice. rewrite <- (take_drop (j - i) (drop i bytes)) at 1. f_equal. rewrite drop_drop. f_equal. lia. Qed.
Lemma read_u32_next bytes i v : read_u32 bytes i = Ok v → drop i bytes = to_le 4 v ++ drop (i + 4) bytes.
Proof.
  unfold read_u32. destruct (_ <=? _)%nat eqn:E; [|done]. apply Nat.leb_le in E. intros [= <-].
  rewrite to_le_from_le by (rewrite length_slice by lia; lia). apply slice_next. lia.
Qed.

(** A file whose root is read is a GLB header, the JSON text of the root, and
    the chunks after it. *)
Lemma glb_parts `{JsonBytes} bytes root : parse_glb_root bytes = Ok root →
  ∃ json, bytes = glb_header (zlen bytes) (zlen json) ++ json ++ glb_tail bytes ∧ json_from_slice json = Ok root.
Proof.
  unfold parse_glb_root. destruct (_ || _) eqn:E0; [done|]. apply orb_false_iff in E0 as [E0%Nat.ltb_ge Em].
  apply negb_false_iff, bool_decide_eq_true in Em. intros (version & Hv & Hp)%bind_Ok. destruct (negb _) eqn:E1 in Hp; [done|].
  apply negb_false_iff, Z.eqb_eq in E1. subst version. apply bind_Ok in Hp as (total & Ht & Hp). destruct (negb _) eqn:E2 in Hp; [done|].
  apply negb_false_iff, Z.eqb_eq in E2. subst total. apply bind_Ok in Hp as (n & Hn & Hp). apply bind_Ok in Hp as (chunk & Hc & Hp).
  destruct (negb _) eqn:E3 in Hp; [done|]. apply negb_false_iff, Z.eqb_eq in E3. subst chunk.
  apply bind_Ok in Hp as (stop & Hs & Hp%map_err_Ok). exists (slice bytes 20 stop). split; [|done].
  assert (0 ≤ n) as Hn0. { unfold read_u32 in Hn. destruct (_ <=? _)%nat; [|done]. injection Hn as <-. apply from_be_bound. }
  unfold json_chunk_end in Hs. destruct (_ <=? _) eqn:E4; [|done]. apply Z.leb_le in E4. injection Hs as <-.
  assert (zlen (slice bytes 20 (Z.to_nat (20 + n))) = n) as -> by (unfold zlen in *; rewrite length_slice by lia; lia).
  assert (glb_tail bytes = drop (Z.to_nat (20 + n)) bytes) as -> by (unfold glb_tail; by rewrite Hn).
  apply read_u32_next in Hv, Ht, Hn, Hc. unfold glb_header. rewrite <- !app_assoc, <- slice_next by lia.
  cbn [Nat.add] in *. rewrite <- Hc, <- Hn, <- Ht, <- Hv, <- Em, <- slice_next by lia. by rewrite drop_0.
Qed.
Lemma sanitized_parts `{JsonBytes} bytes root out : parse_glb_root bytes = Ok root → glb_without_validated_required_extensions bytes root = Ok out →
  ∃ json, json_to_vec (remove_key "extensionsRequired" root) = Ok json ∧
    out = glb_header (20 + zlen (pad4 json) + zlen (glb_tail bytes)) (zlen (pad4 json)) ++ pad4 json ++ glb_tail bytes.
Proof.
  intros _. unfold glb_without_validated_required_extensions. intros (n & Hn & Hp)%bind_Ok. apply bind_Ok in Hp as (stop & Hs & Hp).
  apply bind_Ok in Hp as (json & Hj%map_err_Ok & Hp). exists json. split; [done|]. assert (drop stop bytes = glb_tail bytes) as Et.
  { unfold glb_tail. rewrite Hn. unfold json_chunk_end in Hs. destruct (_ <=? _); [|done]. by injection Hs as <-. }
  rewrite Et in Hp. destruct (u64_max <? _); [done|]. destruct (u32_max <? _); [done|]. destruct (u32_max <? _); [done|]. by injection Hp as <-.
Qed.
Lemma read_limited_whole what limit path metadata opened contents bytes : 0 ≤ limit → read_limited what limit path metadata opened contents = Ok bytes →
  contents = Ok bytes ∧ zlen bytes ≤ limit.
Proof.
  intros Hl. unfold read_limited. intros (len & _ & Hp)%bind_Ok. destruct (limit <? len); [done|]. apply bind_Ok in Hp as ([] & _ & Hp).
  apply bind_Ok in Hp as (all & Ha%map_err_Ok & Hp). destruct (limit <? _) eqn:E; [done|]. apply Z.ltb_ge in E. injection Hp as <-.
  split; [|done]. rewrite Ha. f_equal. rewrite take_ge; [done|]. unfold zlen in E. rewrite length_take in E. lia.
Qed.

Section sanitized.
Context `{JsonBytes, !JsonBytesLaws}.

Lemma u32_le z : z ≤ u32_max → 0 ≤ z → 0 ≤ z < 2 ^ 32.
Proof. unfold u32_max. lia. Qed.

(** What the parser makes of a file put together from its parts. *)
Lemma parse_assembled total json tail : total = 20 + zlen json + zlen tail → total ≤ u32_max →
  let out := glb_header total (zlen json) ++ json ++ tail in
  parse_glb_root out = map_err (λ error, "invalid VRM JSON chunk: " +:+ error) (json_from_slice json) ∧ glb_tail out = tail.
Proof.
  intros Htotal Hmax out. pose proof (zlen_nonneg json). pose proof (zlen_nonneg tail).
  assert (zlen out = total) as Hlen.
  { unfold out, glb_header. unfold zlen in *. rewrite !length_app, !length_to_le. change (length GLTF_MAGIC) with 4%nat. lia. }
  assert (out = (GLTF_MAGIC ++ to_le 4 2 ++ to_le 4 total ++ to_le 4 (zlen json) ++ to_le 4 JSON_CHUNK) ++ json ++ tail) as Eout by done.
  rewrite <- !app_assoc in Eout.
  assert (read_u32 out 4 = Ok 2) as R4.
  { rewrite Eout. by apply (read_u32_at GLTF_MAGIC). }
  assert (read_u32 out 8 = Ok total) as R8.
  { rewrite Eout, app_assoc. apply read_u32_at; [by rewrite length_app, length_to_le|]. apply u32_le; lia. }
  assert (read_u32 out 12 = Ok (zlen json)) as R12.
  { rewrite Eout, (app_assoc (to_le 4 2)), app_assoc. apply read_u32_at; [by rewrite !length_app, !length_to_le|]. apply u32_le; lia. }
  assert (read_u32 out 16 = Ok JSON_CHUNK) as R16.
  { rewrite Eout, (app_assoc (to_le 4 total)), (app_assoc (to_le 4 2)), app_assoc.
    apply read_u32_at; [by rewrite !length_app, !length_to_le|done]. }
  assert (slice out 20 (Z.to_nat (20 + zlen json)) = json) as Hjson.
  { unfold out. apply slice_app; [unfold glb_header; by rewrite !length_app, !length_to_le|unfold zlen; lia]. }
  assert (slice out 0 4 = GLTF_MAGIC) as Hmagic.
  { rewrite Eout. by apply (slice_app [] GLTF_MAGIC). }
  split.
  - unfold parse_glb_root. rewrite R4, R8, R12, R16, Hmagic. rewrite bool_decide_eq_true_2 by done.
    destruct (length out <? 20)%nat eqn:E; [apply Nat.ltb_lt in E; unfold zlen in *; lia|]. simpl.
    rewrite Hlen, Z.eqb_refl. simpl. unfold json_chunk_end. rewrite Hlen.
    rewrite (proj2 (Z.leb_le _ _)) by lia. simpl. by rewrite Hjson.
  - unfold glb_tail. rewrite R12. unfold out. rewrite app_assoc. replace (Z.to_nat (20 + zlen json)) with (length (glb_header total (zlen json) ++ json)).
    + apply drop_app_length.
    + unfold glb_header, zlen. rewrite !length_app, !length_to_le. change (length GLTF_MAGIC) with 4%nat. lia.
Qed.

(** For a file whose root was read, the copy for the gltf crate, when there
    is one, is a well-formed GLB: its lengths are right, its JSON chunk is
    aligned, the chunks after it are those of the file, and its root is what
    serde_json reads from the text of the file's root without
    [extensionsRequired].  There is a copy unless serde_json fails or the
    result exceeds 4 GiB. *)
Theorem glb_sanitized bytes root : parse_glb_root bytes = Ok root →
  match json_to_vec (remove_key "extensionsRequired" root) with
  | Err error => glb_without_validated_required_extensions bytes root = Err ("failed to validate VRM JSON: " +:+ error)
  | Ok json =>
    if 20 + zlen (pad4 json) + zlen (glb_tail bytes) <=? u32_max then
      ∃ out, glb_without_validated_required_extensions bytes root = Ok out ∧
        parse_glb_root out = map_err (λ error, "invalid VRM JSON chunk: " +:+ error) (json_from_slice json) ∧
        glb_tail out = glb_tail bytes ∧
        read_u32 out 12 = Ok (zlen (pad4 json)) ∧ (4 | zlen (pad4 json))
    else ∃ error, glb_without_validated_required_extensions bytes root = Err error
  end.
Proof.
  intros Hp. unfold parse_glb_root in Hp.
  assert (∃ n e, read_u32 bytes 12 = Ok n ∧ json_chunk_end bytes n = Ok e ∧ glb_tail bytes = drop e bytes) as (n & e & Hn & He & Ht).
  { repeat case_match; try done. destruct (read_u32 bytes 4) as [v|]; simpl in Hp; [|done]. case_match; [done|].
    destruct (read_u32 bytes 8) as [d|]; simpl in Hp; [|done]. case_match; [done|].
    destruct (read_u32 bytes 12) as [n|] eqn:En; simpl in Hp; [|done].
    destruct (read_u32 bytes 16) as [c|]; simpl in Hp; [|done]. case_match; [done|].
    destruct (json_chunk_end bytes n) as [e|] eqn:Ee; simpl in Hp; [|done]. exists n, e. split_and!; [done..|].
    unfold glb_tail. rewrite En. unfold json_chunk_end in Ee. case_match; [|done]. by injection Ee as <-. }
  clear Hp. unfold glb_without_validated_required_extensions. rewrite Hn. simpl. rewrite He. simpl. rewrite <- Ht.
  destruct (json_to_vec _) as [json|error]; simpl; [|done].
  set (padded := pad4 json). set (tail := glb_tail bytes). change (12 + 8) with 20.
  pose proof (zlen_nonneg padded). pose proof (zlen_nonneg tail).
  destruct (20 + zlen padded + zlen tail <=? u32_max) eqn:E; to_prop.
  - rewrite !(proj2 (Z.ltb_ge _ _)) by (unfold u64_max, u32_max in *; lia).
    exists (glb_header (20 + zlen padded + zlen tail) (zlen padded) ++ padded ++ tail). split; [done|].
    destruct (parse_assembled (20 + zlen padded + zlen tail) padded tail) as [P1 P2]; [done..|].
    split_and!; [| done | | apply pad4_aligned].
    + rewrite P1. unfold padded, pad4. by rewrite json_trailing_blank.
    + unfold glb_header. rewrite <- !app_assoc, (app_assoc (to_le 4 2)), app_assoc.
      apply read_u32_at; [by rewrite !length_app, !length_to_le|]. apply u32_le; lia.
  - repeat case_match; eauto. to_prop. lia.
Qed.
End sanitized.
