(* ===== verification/VrmOrder.v ===== *)
(** * Ordering by dependencies

    The depth-first search with three marks that [order_constraints]
    (skid-monitor-fe, vrm/loader.rs) runs on the node constraints of a model,
    on indices below [n] with given dependencies.  [topo_exact]: it always
    returns; it returns an order in which everything comes after what it
    depends on, or reports a cycle exactly when there is one. *)

From S2P Require Import Prelude RustStr.

(** The [u8] marks 0, 1 and 2. *)
Inductive Mark := Unseen | Open | Done.
#[global] Instance Mark_eq_dec : EqDecision Mark.
Proof. solve_decision. Defined.

Definition CIRCULAR : string := "VRM node constraints contain a circular dependency".

Section topo.
Context (n : nat) (deps : nat → list nat).

Definition marks_state : Type := list Mark * list nat.

(** [visit]: the marks and what has been pushed to [ordered]; [None] when the
    fuel ends. *)
Fixpoint visit (fuel : nat) (index : nat) (st : marks_state) : option (result string marks_state) :=
  match fuel with
  | O => None
  | S fuel =>
    match st.1 !! index with
    | Some Done => Some (Ok st)
    | Some Open => Some (Err CIRCULAR)
    | _ =>
      let visit_dependencies :=
        fix go (dependencies : list nat) (st : marks_state) : option (result string marks_state) :=
          match dependencies with
          | [] => Some (Ok st)
          | dependency :: dependencies =>
            match visit fuel dependency st with
            | Some (Ok st) => go dependencies st
            | r => r
            end
          end in
      match visit_dependencies (deps index) (<[index := Open]> st.1, st.2) with
      | Some (Ok (marks, ordered)) => Some (Ok (<[index := Done]> marks, ordered ++ [index]))
      | r => r
      end
    end
  end.

(** The loop over the dependencies of an index, for the statements. *)
Fixpoint visit_list (fuel : nat) (l : list nat) (st : marks_state) : option (result string marks_state) :=
  match l with
  | [] => Some (Ok st)
  | d :: l => match visit fuel d st with Some (Ok st) => visit_list fuel l st | r => r end
  end.

(** [for index in 0..constraints.len()]: an index takes one unit of fuel on the
    stack, and no index is on the stack twice. *)
Definition topo_sort : option (result string (list nat)) :=
  match visit_list (S n) (seq 0 n) (repeat Unseen n, []) with
  | Some (Ok st) => Some (Ok st.2)
  | Some (Err e) => Some (Err e)
  | None => None
  end.

Lemma visit_unfold fuel index st :
  visit (S fuel) index st =
    match st.1 !! index with
    | Some Done => Some (Ok st)
    | Some Open => Some (Err CIRCULAR)
    | _ =>
      match visit_list fuel (deps index) (<[index := Open]> st.1, st.2) with
      | Some (Ok (marks, ordered)) => Some (Ok (<[index := Done]> marks, ordered ++ [index]))
      | r => r
      end
    end.
Proof.
  simpl. assert (∀ l s, (fix go (dependencies : list nat) (st : marks_state) : option (result string marks_state) :=
          match dependencies with
          | [] => Some (Ok st)
          | dependency :: dependencies =>
            match visit fuel dependency st with
            | Some (Ok st) => go dependencies st
            | r => r
            end
          end) l s = visit_list fuel l s) as E.
  { induction l as [|d l IH]; intros s; [done|]. simpl. destruct (visit fuel d s) as [[s'|]|]; [apply IH|done..]. }
  by rewrite E.
Qed.

(** ** The invariant *)

Definition edge (i d : nat) : Prop := d ∈ deps i.

(** Everything in the list comes after what it depends on. *)
Definition topological (l : list nat) : Prop :=
  ∀ l1 i l2, l = l1 ++ i :: l2 → ∀ d, edge i d → d ∈ l1.

(** The open indices are those being visited, each a dependency of the one
    below it. *)
Fixpoint chain (path : list nat) : Prop :=
  match path with
  | i :: ((j :: _) as rest) => edge j i ∧ chain rest
  | _ => True
  end.

Record visit_inv (path : list nat) (st : marks_state) : Prop := {
  vi_len : length st.1 = n;
  vi_open i : st.1 !! i = Some Open ↔ i ∈ path;
  vi_done i : st.1 !! i = Some Done ↔ i ∈ st.2;
  vi_nodup : NoDup st.2;
  vi_topo : topological st.2;
  vi_chain : chain path;
}.

Definition unseen (marks : list Mark) : nat := length (filter (λ m, m = Unseen) marks).

Context (Hdeps : ∀ i d, (i < n)%nat → d ∈ deps i → (d < n)%nat).

Lemma unseen_insert marks i m : marks !! i = Some Unseen → m ≠ Unseen → unseen marks = S (unseen (<[i := m]> marks)).
Proof.
  unfold unseen. revert i. induction marks as [|x marks IH]; [done|]. intros [|i] Hi Hm; [injection Hi as ->|].
  - change (<[0%nat := m]> (Unseen :: marks)) with (m :: marks). by rewrite filter_cons_True, filter_cons_False.
  - change (<[S i := m]> (x :: marks)) with (x :: <[i := m]> marks). rewrite !filter_cons.
    case_decide; cbn [length]; by rewrite (IH i).
Qed.
Lemma unseen_close marks i : marks !! i = Some Open → unseen (<[i := Done]> marks) = unseen marks.
Proof.
  unfold unseen. revert i. induction marks as [|x marks IH]; [done|]. intros [|i] Hi; [injection Hi as ->|].
  - change (<[0%nat := Done]> (Open :: marks)) with (Done :: marks). by rewrite !filter_cons_False.
  - change (<[S i := Done]> (x :: marks)) with (x :: <[i := Done]> marks). rewrite !filter_cons.
    case_decide; cbn [length]; by rewrite (IH i).
Qed.

Lemma chain_path path i j : chain (i :: path) → j ∈ i :: path → j = i ∨ tc edge j i.
Proof.
  revert i. induction path as [|k path IH]; intros i Hc Hj; [left; set_solver|].
  destruct Hc as [Hk Hc]. apply elem_of_cons in Hj as [->|Hj]; [by left|]. right.
  destruct (IH k Hc Hj) as [->|Htc]; [by constructor|]. eapply tc_r; done.
Qed.

(** Meeting an open index closes a cycle. *)
Lemma open_cycle path index : chain path → index ∈ path → (∀ j, head path = Some j → edge j index) → tc edge index index.
Proof.
  intros Hc Hi He. destruct path as [|j path]; [by apply elem_of_nil in Hi|]. specialize (He j eq_refl).
  destruct (chain_path path j index Hc Hi) as [->|Htc]; [by constructor|]. by eapply tc_r.
Qed.

Lemma topological_snoc l i : topological l → (∀ d, edge i d → d ∈ l) → topological (l ++ [i]).
Proof.
  intros Ht Hi l1 j l2 E d Hd. destruct l2 as [|x l2 _] using rev_ind.
  - apply app_inj_tail in E as [-> ->]. auto.
  - rewrite app_comm_cons, app_assoc in E. apply app_inj_tail in E as [-> _]. by eapply Ht.
Qed.

(** What a visit gives: success marks its index and keeps what was done;
    failure has found a cycle. *)
Definition visit_post (path : list nat) (st : marks_state) (goals : list nat) (r : result string marks_state) : Prop :=
  match r with
  | Ok st' => visit_inv path st' ∧ (∀ i, i ∈ goals → i ∈ st'.2) ∧ (∀ i, i ∈ st.2 → i ∈ st'.2) ∧ (unseen st'.1 ≤ unseen st.1)%nat
  | Err e => e = CIRCULAR ∧ ∃ i, tc edge i i
  end.

Definition visit_ok (fuel : nat) : Prop := ∀ path index st, visit_inv path st → (index < n)%nat →
  (∀ j, head path = Some j → edge j index) → (unseen st.1 < fuel)%nat →
  ∃ r, visit fuel index st = Some r ∧ visit_post path st [index] r.

Lemma visit_list_ok fuel : visit_ok fuel → ∀ l path st, visit_inv path st → Forall (λ i, i < n)%nat l →
  (∀ j i, head path = Some j → i ∈ l → edge j i) → (unseen st.1 < fuel)%nat →
  ∃ r, visit_list fuel l st = Some r ∧ visit_post path st l r.
Proof.
  intros Hv l. induction l as [|i l IH]; intros path st Hinv Hl He Hf.
  - exists (Ok st). split; [done|]. split; [done|]. set_solver.
  - apply Forall_cons in Hl as [Hi Hl]. destruct (Hv path i st Hinv Hi) as (r & Hr & Hp); [set_solver|done|].
    simpl. rewrite Hr. destruct r as [st1|e]; [|by exists (Err e)]. destruct Hp as (I1 & G1 & K1 & U1).
    destruct (IH path st1 I1 Hl) as (r & Hr' & Hp'); [set_solver|lia|]. exists r. split; [done|].
    destruct r as [st2|e]; [|done]. destruct Hp' as (I2 & G2 & K2 & U2). split; [done|]. split_and!; [|auto|lia].
    intros k [->|Hk]%elem_of_cons; [apply K2, G1; set_solver|auto].
Qed.

Lemma mark_open_inv path index st : visit_inv path st → (index < n)%nat → st.1 !! index = Some Unseen →
  (∀ j, head path = Some j → edge j index) → visit_inv (index :: path) (<[index := Open]> st.1, st.2).
Proof.
  intros [I1 I2 I3 I4 I5 I6] Hn Hu He. split; simpl; [by rewrite length_insert| | |done|done|].
  - intros i. destruct (decide (i = index)) as [->|].
    + rewrite list_lookup_insert_eq by lia. set_solver.
    + rewrite list_lookup_insert_ne by done. rewrite I2. set_solver.
  - intros i. rewrite <- I3. destruct (decide (i = index)) as [->|]; [rewrite list_lookup_insert_eq by lia; by rewrite Hu|].
    by rewrite list_lookup_insert_ne.
  - destruct path as [|j path]; [done|]. split; [by apply He|done].
Qed.

Lemma close_inv path index st : visit_inv (index :: path) st → index ∉ path → (index < n)%nat → (∀ d, edge index d → d ∈ st.2) →
  visit_inv path (<[index := Done]> st.1, st.2 ++ [index]).
Proof.
  intros [I1 I2 I3 I4 I5 I6] Hp Hn Hd.
  assert (st.1 !! index = Some Open) as Ho by (apply I2; by left).
  split; simpl; [by rewrite length_insert| | | |by apply topological_snoc|].
  - intros i. destruct (decide (i = index)) as [->|]; [rewrite list_lookup_insert_eq by lia; naive_solver|].
    rewrite list_lookup_insert_ne by done. rewrite I2. set_solver.
  - intros i. destruct (decide (i = index)) as [->|]; [rewrite list_lookup_insert_eq by lia; set_solver|].
    rewrite list_lookup_insert_ne by done. rewrite I3. set_solver.
  - apply NoDup_app. split_and!; [done| |apply NoDup_singleton].
    intros i Hi ->%list_elem_of_singleton. apply I3 in Hi. congruence.
  - destruct path; [done|]. apply I6.
Qed.

Lemma visit_correct fuel : visit_ok fuel.
Proof.
  induction fuel as [|fuel IH]; intros path index st Hinv Hn He Hf; [lia|]. rewrite visit_unfold.
  pose proof Hinv as [I1 I2 I3 _ _ I6].
  destruct (st.1 !! index) as [[| |]|] eqn:Em.
  - pose proof (mark_open_inv path index st Hinv Hn Em He) as Hopen.
    pose proof (unseen_insert st.1 index Open Em ltac:(done)) as Hu.
    destruct (visit_list_ok fuel IH (deps index) _ _ Hopen) as (r & Hr & Hp).
    + apply Forall_forall. intros d Hd. by apply (Hdeps index).
    + by intros j i [= <-] Hi.
    + simpl. lia.
    + rewrite Hr. destruct r as [[marks ordered]|e]; [|by exists (Err e)].
      destruct Hp as (J & G & K & U). simpl in U.
      assert (index ∉ path) as Hnp by (rewrite <- I2; congruence).
      eexists. split; [done|]. split; [by apply (close_inv path index (marks, ordered))|]. simpl. split_and!; [set_solver|set_solver|].
      assert (marks !! index = Some Open) as Ho by (apply (vi_open _ _ J); by left).
      rewrite (unseen_close _ _ Ho). lia.
  - exists (Err CIRCULAR). split; [done|]. split; [done|]. exists index.
    apply (open_cycle path); [done|by apply I2|done].
  - exists (Ok st). split; [done|]. split; [done|]. split_and!; [|done|done].
    intros i ->%list_elem_of_singleton. by apply I3.
  - apply lookup_ge_None in Em. lia.
Qed.

Lemma unseen_start : (unseen (repeat Unseen n) ≤ n)%nat.
Proof. unfold unseen. etrans; [apply length_filter|]. by rewrite repeat_length. Qed.

Lemma marks_start_inv : visit_inv [] (repeat Unseen n, []).
Proof.
  assert (∀ i m, m ≠ Unseen → repeat Unseen n !! i ≠ Some m) as Hr.
  { intros i m Hm E. apply list_elem_of_lookup_2, list_elem_of_In, repeat_spec in E. done. }
  split; simpl; [apply repeat_length| | |apply NoDup_nil_2| |done].
  - intros i. split; [by intros ?%Hr|by intros ?%elem_of_nil].
  - intros i. split; [by intros ?%Hr|by intros ?%elem_of_nil].
  - intros [|? l1] i l2 E; done.
Qed.

(** In a topological list nothing depends on itself. *)
Lemma topological_acyclic l i : topological l → NoDup l → i ∈ l → ¬ tc edge i i.
Proof.
  intros Ht Hn Hi Hc.
  assert (∀ a b, tc edge a b → ∀ l1 l2, l = l1 ++ a :: l2 → b ∈ l1) as Hbefore.
  { intros a b. induction 1 as [a b Hab|a c b Hac _ IH]; intros l1 l2 E; [by eapply Ht|].
    pose proof (Ht _ _ _ E c Hac) as Hc1. apply list_elem_of_split in Hc1 as (k1 & k2 & ->).
    assert (b ∈ k1); [|set_solver]. apply (IH k1 (k2 ++ a :: l2)). rewrite E. by rewrite <- app_assoc. }
  apply list_elem_of_split in Hi as (l1 & l2 & E). pose proof (Hbefore i i Hc l1 l2 E) as Hi1.
  rewrite E in Hn. apply NoDup_app in Hn as (_ & Hd & _). apply (Hd i Hi1). by left.
Qed.

(** The search returns a topological order of all indices, or there is a cycle. *)
Lemma topo_exact :
  (∃ l, topo_sort = Some (Ok l) ∧ l ≡ₚ seq 0 n ∧ topological l ∧ ∀ i, (i < n)%nat → ¬ tc edge i i) ∨
  (topo_sort = Some (Err CIRCULAR) ∧ ∃ i, tc edge i i).
Proof.
  pose proof unseen_start. destruct (visit_list_ok (S n) (visit_correct _) (seq 0 n) [] _ marks_start_inv) as (r & Hr & Hp).
  - apply Forall_forall. intros i Hi. apply elem_of_seq in Hi. lia.
  - by intros ? ? [=].
  - simpl. lia.
  - unfold topo_sort. rewrite Hr. destruct r as [st|e]; [left|right].
    + destruct Hp as (I & G & _ & _). exists st.2. split; [done|].
      assert (st.2 ≡ₚ seq 0 n) as Hperm.
      { apply NoDup_Permutation; [apply (vi_nodup _ _ I)|apply NoDup_seq|]. intros i. split; [|apply G].
        intros Hi%(vi_done _ _ I). apply elem_of_seq. apply lookup_lt_Some in Hi. rewrite (vi_len _ _ I) in Hi. lia. }
      split_and!; [done|apply (vi_topo _ _ I)|]. intros i Hi.
      apply (topological_acyclic st.2); [apply (vi_topo _ _ I)|apply (vi_nodup _ _ I)|].
      rewrite Hperm. apply elem_of_seq. lia.
    + destruct Hp as [-> Hc]. done.
Qed.
End topo.
