(* ===== verification/VrmGraph.v ===== *)
(** * The node graph of a character model (skid-monitor-fe, vrm/loader.rs)

    The nodes of a model with their parents, [is_descendant], and the walk over
    the active scene that gives every node its world transform
    ([collect_scene_graph], [walk_node]).  [is_descendant_iff] shows that the
    bounded climb decides the ancestor relation; [scene_graph_exact] shows
    that the traversal visits exactly the nodes of the scene, parents first,
    each once, with the transform of its parent times its own. *)

From S2P Require Import Prelude RustStr Otlp Json VrmJson.

Definition MAX_NODES : nat := 4096.
Definition MAX_NODE_DEPTH : nat := 128.

(** ** CpuNode *)

Record CpuNode (Rest : Type) := {
  rest : Rest;
  parent : option nat;
  active : bool;
}.
Arguments rest {Rest} c.
Arguments parent {Rest} c.
Arguments active {Rest} c.

Section climb.
Context {Rest : Type}.

Definition parent_at (nodes : list (CpuNode Rest)) (i : nat) : option nat := nodes !! i ≫= parent.
Definition active_at (nodes : list (CpuNode Rest)) (i : nat) : bool :=
  match nodes !! i with Some node => active node | None => false end.

(** The [for _ in 0..nodes.len()] of [is_descendant]. *)
Fixpoint climb_to (nodes : list (CpuNode Rest)) (steps : nat) (ancestor : nat) (current : option nat) : bool :=
  match steps with
  | O => false
  | S steps =>
    match current with
    | None => false
    | Some node => if (node =? ancestor)%nat then true else climb_to nodes steps ancestor (parent_at nodes node)
    end
  end.
Definition is_descendant (nodes : list (CpuNode Rest)) (ancestor descendant : nat) : bool :=
  climb_to nodes (length nodes) ancestor (Some descendant).
Definition is_strict_ancestor (nodes : list (CpuNode Rest)) (ancestor descendant : nat) : bool :=
  negb (ancestor =? descendant)%nat && is_descendant nodes ancestor descendant.
End climb.

(** ** The active scene *)

(** What the gltf crate gives of a document: the children of every node, the
    nodes of every scene, and the default scene. *)
Record GltfScenes := {
  gs_children : list (list nat);
  gs_scenes : list (list nat);
  gs_default : option nat;
}.
Definition children_at (g : GltfScenes) (i : nat) : list nat := default [] (gs_children g !! i).
Definition scene_roots (g : GltfScenes) : option (list nat) :=
  match gs_default g ≫= (gs_scenes g !!.) with Some roots => Some roots | None => head (gs_scenes g) end.

(** glam's matrices: the local transform of a node, the product, the identity
    and whether all entries are finite. *)
Class Transforms (Rest Mat : Type) := {
  rest_matrix : Rest → Mat;
  mat_mul : Mat → Mat → Mat;
  mat_identity : Mat;
  mat_finite : Mat → bool;
}.

Section scene.
Context {Rest Mat : Type} `{Transforms Rest Mat}.

Record CpuSceneGraph := {
  sg_nodes : list (CpuNode Rest);
  sg_traversal : list nat;
  sg_worlds : list (option Mat);
}.

Definition set_parent (i : nat) (node : CpuNode Rest) : CpuNode Rest :=
  {| rest := rest node; parent := Some i; active := active node |}.
Definition set_active (node : CpuNode Rest) : CpuNode Rest :=
  {| rest := rest node; parent := parent node; active := true |}.

(** [if nodes[child].parent.replace(node).is_some() { return Err }] over the
    pairs of a node and its child, in order. *)
Fixpoint link_parents (links : list (nat * nat)) (nodes : list (CpuNode Rest)) : result string (list (CpuNode Rest)) :=
  match links with
  | [] => Ok nodes
  | (node, child) :: links =>
    match parent_at nodes child with
    | Some _ => Err ("VRM node " +:+ usize_text child +:+ " has more than one parent")
    | None => link_parents links (alter (set_parent node) child nodes)
    end
  end.
Definition links_of (g : GltfScenes) : list (nat * nat) :=
  mjoin (imap (λ node children, (λ child, (node, child)) <$> children) (gs_children g)).

(** [walk_node]: [fuel] is [MAX_NODE_DEPTH + 1 - depth]. *)
Fixpoint walk_node (g : GltfScenes) (fuel : nat) (node : nat) (parent_world : Mat) (s : CpuSceneGraph)
    : result string CpuSceneGraph :=
  match fuel with
  | O => Err ("VRM node hierarchy exceeds depth " +:+ usize_text MAX_NODE_DEPTH)
  | S fuel =>
    match sg_worlds s !! node, sg_nodes s !! node with
    | Some None, Some this =>
      let world := mat_mul parent_world (rest_matrix (rest this)) in
      if negb (mat_finite world) then Err ("VRM node " +:+ usize_text node +:+ " has a non-finite transform")
      else
        let walk_children :=
          fix go (children : list nat) (s : CpuSceneGraph) : result string CpuSceneGraph :=
            match children with
            | [] => Ok s
            | child :: children => s ← walk_node g fuel child world s; go children s
            end in
        walk_children (children_at g node)
          {| sg_nodes := alter set_active node (sg_nodes s); sg_traversal := sg_traversal s ++ [node];
             sg_worlds := <[node := Some world]> (sg_worlds s) |}
    | _, _ => Err ("VRM node " +:+ usize_text node +:+ " is referenced more than once in the active scene")
    end
  end.
Fixpoint walk_list (g : GltfScenes) (fuel : nat) (world : Mat) (nodes : list nat) (s : CpuSceneGraph)
    : result string CpuSceneGraph :=
  match nodes with
  | [] => Ok s
  | node :: nodes => s ← walk_node g fuel node world s; walk_list g fuel world nodes s
  end.

(** [rests] is what [NodeTransform::from_node] gives for every node. *)
Definition collect_scene_graph (g : GltfScenes) (rests : list (result string Rest)) : result string CpuSceneGraph :=
  rests ← try_map id rests;
  nodes ← link_parents (links_of g) ((λ r, {| rest := r; parent := None; active := false |}) <$> rests);
  roots ← ok_or (scene_roots g) "VRM scene is missing";
  walk_list g (S MAX_NODE_DEPTH) mat_identity roots
    {| sg_nodes := nodes; sg_traversal := []; sg_worlds := repeat None (length nodes) |}.
End scene.
Arguments CpuSceneGraph Rest Mat : clear implicits.

(** ** Climbing to an ancestor *)

Section climb_facts.
Context {Rest : Type} (nodes : list (CpuNode Rest)).

(** One step up. *)
Definition up (child above : nat) : Prop := parent_at nodes child = Some above.

Definition parents_in_range : Prop := ∀ c p, up c p → (p < length nodes)%nat.

Lemma climb_to_iff steps a d : climb_to nodes steps a (Some d) = true ↔ ∃ k, (k < steps)%nat ∧ nsteps up k d a.
Proof.
  revert d. induction steps as [|steps IH]; intros d; simpl.
  - split; [done|]. intros (k & ? & _). lia.
  - destruct (d =? a)%nat eqn:E; [apply Nat.eqb_eq in E as ->|apply Nat.eqb_neq in E].
    + split; [|done]. intros _. exists 0%nat. split; [lia|constructor].
    + destruct (parent_at nodes d) as [p|] eqn:Ep.
      * rewrite IH. split.
        -- intros (k & Hk & Hs). exists (S k). split; [lia|]. by eapply nsteps_l.
        -- intros (k & Hk & Hs). destruct Hs as [|k d p' a Hp Hs]; [done|]. unfold up in Hp. simplify_eq.
           exists k. split; [lia|done].
      * split; [by destruct steps|]. intros (k & Hk & Hs). destruct Hs as [|k d p' a Hp Hs]; [done|]. unfold up in Hp. congruence.
Qed.

(** A path without repetition: at most one step fewer than there are nodes. *)
Fixpoint up_path (l : list nat) : Prop :=
  match l with
  | x :: ((y :: _) as l') => up x y ∧ up_path l'
  | _ => True
  end.

Lemma up_path_suffix l1 l2 : up_path (l1 ++ l2) → up_path l2.
Proof. induction l1 as [|x [|y l1] IH]; [done|destruct l2; simpl; naive_solver|]. intros [_ Hp]. by apply IH. Qed.

Lemma rtc_path d a : rtc up d a → ∃ l, head l = Some d ∧ last l = Some a ∧ up_path l ∧ NoDup l.
Proof.
  induction 1 as [d|d p a Hp _ (l & Hh & Hl & Hup & Hn)].
  - exists [d]. split_and!; try done. apply NoDup_singleton.
  - destruct (decide (d ∈ l)) as [Hd|Hd].
    + apply list_elem_of_split in Hd as (l1 & l2 & ->). exists (d :: l2).
      apply up_path_suffix in Hup. apply NoDup_app in Hn as (_ & _ & Hn). rewrite last_app_cons in Hl. done.
    + exists (d :: l). destruct l as [|p' l]; [done|]. simplify_eq/=. split_and!; try done. by constructor.
Qed.

Lemma path_nsteps l d a : head l = Some d → last l = Some a → up_path l → nsteps up (pred (length l)) d a.
Proof.
  revert d. induction l as [|x l IH]; intros d Hd Ha Hp; [done|]. simplify_eq/=. destruct l as [|y l]; simplify_eq/=; [constructor|].
  destruct Hp as [Hxy Hp]. apply (nsteps_l _ _ _ y); [done|]. by apply IH.
Qed.

Lemma up_path_range l d : parents_in_range → (d < length nodes)%nat → head l = Some d → up_path l →
  Forall (λ i, i < length nodes)%nat l.
Proof.
  intros Hr. revert d. induction l as [|x l IH]; intros d Hd Hh Hp; [done|]. simplify_eq/=. constructor; [done|].
  destruct l as [|y l]; [done|]. destruct Hp as [Hxy Hp]. apply (IH y); [|done..]. by apply (Hr d).
Qed.

Lemma NoDup_below (l : list nat) n : NoDup l → Forall (λ i, i < n)%nat l → (length l ≤ n)%nat.
Proof.
  intros Hn Hl. rewrite <- (length_seq n 0). apply NoDup_incl_length; [by apply NoDup_ListNoDup|].
  intros i Hi%list_elem_of_In. apply list_elem_of_In, elem_of_seq. rewrite Forall_forall in Hl. specialize (Hl i Hi). lia.
Qed.

(** [nodes.len()] steps are enough to meet any ancestor. *)
Lemma is_descendant_iff a d : parents_in_range → (d < length nodes)%nat → is_descendant nodes a d = true ↔ rtc up d a.
Proof.
  intros Hr Hd. unfold is_descendant. rewrite climb_to_iff. split.
  - intros (k & _ & Hs). apply rtc_nsteps. by exists k.
  - intros (l & Hh & Hl & Hp & Hn)%rtc_path. exists (pred (length l)).
    split; [|by apply path_nsteps]. pose proof (NoDup_below l _ Hn (up_path_range l d Hr Hd Hh Hp)).
    destruct l; simpl in *; [done|lia].
Qed.
End climb_facts.

(** ** The walk over the scene *)

Section scene_facts.
Context {Rest Mat : Type} `{Transforms Rest Mat}.
Context (g : GltfScenes) (roots : list nat) (nodes0 : list (CpuNode Rest)).

Lemma walk_node_unfold fuel node parent_world s :
  walk_node g (S fuel) node parent_world s =
    match sg_worlds s !! node, sg_nodes s !! node with
    | Some None, Some this =>
      let world := mat_mul parent_world (rest_matrix (rest this)) in
      if negb (mat_finite world) then Err ("VRM node " +:+ usize_text node +:+ " has a non-finite transform")
      else
        walk_list g fuel world (children_at g node)
          {| sg_nodes := alter set_active node (sg_nodes s); sg_traversal := sg_traversal s ++ [node];
             sg_worlds := <[node := Some world]> (sg_worlds s) |}
    | _, _ => Err ("VRM node " +:+ usize_text node +:+ " is referenced more than once in the active scene")
    end.
Proof.
  simpl. destruct (sg_worlds s !! node) as [[w|]|]; try done. destruct (sg_nodes s !! node) as [this|]; [|done].
  destruct (negb _); [done|]. generalize (children_at g node).
  intros l. match goal with |- _ l ?s0 = _ => generalize s0 end.
  induction l as [|c l IH]; intros s0; [done|]. simpl. destruct (walk_node g fuel c _ s0) as [s1|]; [apply IH|done].
Qed.

(** A node's transform is that of its parent in the scene times its own. *)
Definition world_of (worlds : list (option Mat)) (above : Mat) (i : nat) (this : CpuNode Rest) : Prop :=
  worlds !! i = Some (Some (mat_mul above (rest_matrix (rest this)))) ∧
  mat_finite (mat_mul above (rest_matrix (rest this))) = true.

(** [i] was visited after [l1]: as a root, or below a node of [l1]. *)
Definition visited_after (worlds : list (option Mat)) (l1 : list nat) (i : nat) : Prop :=
  ∃ this, nodes0 !! i = Some this ∧
    ((i ∈ roots ∧ world_of worlds mat_identity i this) ∨
     (∃ p wp, p ∈ l1 ∧ i ∈ children_at g p ∧ worlds !! p = Some (Some wp) ∧ world_of worlds wp i this)).

Record scene_inv (s : (CpuSceneGraph Rest Mat)) : Prop := {
  si_nodes i : sg_nodes s !! i = (if bool_decide (i ∈ sg_traversal s) then set_active <$> nodes0 !! i else nodes0 !! i);
  si_len : length (sg_worlds s) = length nodes0;
  si_worlds i : (∃ w, sg_worlds s !! i = Some (Some w)) ↔ i ∈ sg_traversal s;
  si_nodup : NoDup (sg_traversal s);
  si_order l1 i l2 : sg_traversal s = l1 ++ i :: l2 → visited_after (sg_worlds s) l1 i;
}.

(** A call of [walk_node] is for a root, or for a child of a visited node. *)
Definition called (s : (CpuSceneGraph Rest Mat)) (world : Mat) (node : nat) : Prop :=
  (node ∈ roots ∧ world = mat_identity) ∨
  (∃ p, p ∈ sg_traversal s ∧ node ∈ children_at g p ∧ sg_worlds s !! p = Some (Some world)).

Lemma visit_node_inv s node this world : scene_inv s → called s world node →
  sg_worlds s !! node = Some None → sg_nodes s !! node = Some this →
  mat_finite (mat_mul world (rest_matrix (rest this))) = true →
  scene_inv {| sg_nodes := alter set_active node (sg_nodes s); sg_traversal := sg_traversal s ++ [node];
               sg_worlds := <[node := Some (mat_mul world (rest_matrix (rest this)))]> (sg_worlds s) |}.
Proof.
  intros [I1 I2 I3 I4 I5] Hc Hw Hn Hf.
  assert (node ∉ sg_traversal s) as Hfresh by (intros (w & E)%I3; congruence).
  assert (nodes0 !! node = Some this) as Hthis by (rewrite I1, bool_decide_eq_false_2 in Hn by done; done).
  pose proof (lookup_lt_Some _ _ _ Hw) as Hlt.
  assert (∀ i, i ∈ sg_traversal s → <[node := Some (mat_mul world (rest_matrix (rest this)))]> (sg_worlds s) !! i = sg_worlds s !! i) as Hkeep.
  { intros i Hi. apply list_lookup_insert_ne. by intros ->. }
  split; simpl.
  - intros i. destruct (decide (i = node)) as [->|Hne].
    + rewrite list_lookup_alter, decide_True by done. rewrite bool_decide_eq_true_2 by set_solver. by rewrite Hn, Hthis.
    + rewrite list_lookup_alter, decide_False by done. rewrite I1. by rewrite (bool_decide_ext (i ∈ sg_traversal s) (i ∈ sg_traversal s ++ [node])) by set_solver.
  - by rewrite length_insert.
  - intros i. destruct (decide (i = node)) as [->|Hne].
    + rewrite list_lookup_insert_eq by done. split; [set_solver|eauto].
    + rewrite list_lookup_insert_ne by done. rewrite I3. set_solver.
  - apply NoDup_app. split_and!; [done| |apply NoDup_singleton]. set_solver.
  - intros l1 i l2 E. destruct l2 as [|x l2 _] using rev_ind.
    + apply app_inj_tail in E as [<- <-]. exists this. split; [done|].
      destruct Hc as [[Hr ->]|(p & Hp & Hch & Hwp)]; [left|right].
      * split; [done|]. split; [by rewrite list_lookup_insert_eq|done].
      * exists p, world. split_and!; [done..|by rewrite Hkeep|]. split; [by rewrite list_lookup_insert_eq|done].
    + rewrite app_comm_cons, app_assoc in E. apply app_inj_tail in E as [E _].
      assert (i ∈ sg_traversal s) as Hi by (rewrite E; set_solver).
      destruct (I5 l1 i l2 E) as (this' & Hthis' & [[Hr [W1 W2]]|(p & wp & Hp & Hch & Hwp & W1 & W2)]);
        exists this'; (split; [done|]); [left|right].
      * split; [done|]. split; [by rewrite Hkeep|done].
      * exists p, wp. assert (p ∈ sg_traversal s) by (rewrite E; set_solver).
        split_and!; [done..|by rewrite Hkeep|]. split; [by rewrite Hkeep|done].
Qed.

(** The children of a node come after it. *)
Definition leads (l : list nat) : Prop :=
  ∀ a i c, l !! a = Some i → c ∈ children_at g i → ∃ b, (a < b)%nat ∧ l !! b = Some c.

Lemma leads_app l1 l2 : leads l1 → leads l2 → leads (l1 ++ l2).
Proof.
  intros H1 H2 a i c [Ha|[Hl Ha]]%lookup_app_Some Hc.
  - destruct (H1 a i c Ha Hc) as (b & Hab & Hb). exists b. split; [done|]. by apply lookup_app_l_Some.
  - destruct (H2 _ i c Ha Hc) as (b & Hab & Hb). exists (length l1 + b)%nat. split; [lia|]. by rewrite lookup_app_r, Nat.add_comm, Nat.add_sub by lia.
Qed.

(** What a successful call adds: its nodes, with everything below them. *)
Definition grew (s s' : (CpuSceneGraph Rest Mat)) (wanted : list nat) : Prop :=
  scene_inv s' ∧ (∃ l, sg_traversal s' = sg_traversal s ++ l ∧ (∀ i, i ∈ wanted → i ∈ l) ∧
    leads l) ∧
  (∀ i, i ∈ sg_traversal s → sg_worlds s' !! i = sg_worlds s !! i).

Definition walk_ok (fuel : nat) : Prop := ∀ node world s s', scene_inv s → called s world node →
  walk_node g fuel node world s = Ok s' → grew s s' [node].

Lemma grew_called s s' wanted world node : grew s s' wanted → called s world node → called s' world node.
Proof.
  intros (_ & (l & E & _) & Hk) [Hr|(p & Hp & Hch & Hw)]; [by left|right]. exists p. rewrite E. split_and!; [set_solver|done|].
  by rewrite Hk.
Qed.

Lemma walk_list_ok fuel : walk_ok fuel → ∀ nodes world s s', scene_inv s → (∀ node, node ∈ nodes → called s world node) →
  walk_list g fuel world nodes s = Ok s' → grew s s' nodes.
Proof.
  intros Hw nodes world. induction nodes as [|node nodes IH]; intros s s' Hinv Hc E.
  - injection E as <-. split; [done|]. split; [|done]. exists []. rewrite app_nil_r. split_and!; [done|set_solver|]. intros a i c Ha. done.
  - simpl in E. apply bind_Ok in E as (s1 & E1 & E).
    pose proof (Hw _ _ _ _ Hinv (Hc node ltac:(by left)) E1) as G1. pose proof G1 as (I1 & (l1 & T1 & W1 & C1) & K1).
    destruct (IH s1 s' I1) as (I2 & (l2 & T2 & W2 & C2) & K2); [|done|].
    + intros n Hn. eapply grew_called; [done|]. apply Hc. by right.
    + split; [done|]. split.
      * exists (l1 ++ l2). rewrite T2, T1, <- app_assoc. split_and!; [done|set_solver|by apply leads_app].
      * intros i Hi. rewrite K2, K1; [done..|]. rewrite T1. set_solver.
Qed.

Lemma walk_node_ok fuel : walk_ok fuel.
Proof.
  induction fuel as [|fuel IH]; intros node world s s' Hinv Hc E; [done|]. rewrite walk_node_unfold in E.
  destruct (sg_worlds s !! node) as [[w|]|] eqn:Ew; try done. destruct (sg_nodes s !! node) as [this|] eqn:En; [|done].
  cbv zeta in E. destruct (mat_finite _) eqn:Ef; [|done]. simpl in E.
  pose proof (visit_node_inv s node this world Hinv Hc Ew En Ef) as I1.
  assert (node ∉ sg_traversal s) as Hfresh by (intros (w & Ew')%(si_worlds _ Hinv); congruence).
  apply (walk_list_ok fuel IH) in E as (I2 & (l & T & W & C) & K); [|done|].
  - split; [done|]. simpl in T. split.
    + exists (node :: l). rewrite T, <- app_assoc. split; [done|]. split; [set_solver|].
      intros [|a] i c Ha Hch; simpl in Ha.
      * injection Ha as <-. apply W, list_elem_of_lookup in Hch as [b Hb]. exists (S b). split; [lia|done].
      * destruct (C a i c Ha Hch) as (b & Hab & Hb). exists (S b). split; [lia|done].
    + intros i Hi. rewrite K by (simpl; set_solver). simpl. apply list_lookup_insert_ne. by intros ->.
  - intros c Hch. right. exists node. simpl. split_and!; [set_solver|done|].
    apply list_lookup_insert_eq. by eapply lookup_lt_Some.
Qed.
End scene_facts.

(** ** The whole graph *)

Section graph.
Context {Rest Mat : Type} `{Transforms Rest Mat}.

Lemma alter_parent (nodes : list (CpuNode Rest)) node child c : (child < length nodes)%nat → parent_at nodes child = None →
  parent_at (alter (set_parent node) child nodes) c = if decide (c = child) then Some node else parent_at nodes c.
Proof.
  intros Hc Hp. unfold parent_at. rewrite list_lookup_alter. destruct (decide (c = child)) as [->|Hne].
  - rewrite decide_True by done. destruct (lookup_lt_is_Some_2 nodes child Hc) as [x ->]. done.
  - by rewrite decide_False.
Qed.

Lemma link_parents_spec links (nodes nodes' : list (CpuNode Rest)) :
  Forall (λ l, l.2 < length nodes)%nat links → link_parents links nodes = Ok nodes' →
  length nodes' = length nodes ∧ (∀ c p, parent_at nodes' c = Some p ↔ parent_at nodes c = Some p ∨ (p, c) ∈ links) ∧
  (∀ i, active_at nodes' i = active_at nodes i).
Proof.
  revert nodes. induction links as [|[node child] links IH]; intros nodes Hl E.
  - injection E as <-. split_and!; try done. set_solver.
  - simpl in E. apply Forall_cons in Hl as [Hc Hl]. simpl in Hc. destruct (parent_at nodes child) as [q|] eqn:Ep; [done|].
    apply IH in E as (E1 & E2 & E3); [|by rewrite length_alter]. rewrite length_alter in E1. split_and!; [done| |].
    + intros c p. rewrite E2, alter_parent by done. rewrite elem_of_cons. destruct (decide (c = child)) as [->|]; naive_solver.
    + intros i. rewrite E3. unfold active_at. rewrite list_lookup_alter. destruct (decide (child = i)) as [->|]; [|done].
      by destruct (nodes !! i).
Qed.

Lemma elem_of_links g p c : (p, c) ∈ links_of g ↔ c ∈ children_at g p.
Proof.
  unfold links_of, children_at. rewrite list_elem_of_join. split.
  - intros (l & Hpc & (i & children & -> & Hi)%elem_of_lookup_imap). apply list_elem_of_fmap in Hpc as (c' & [= -> ->] & Hc).
    by rewrite Hi.
  - intros Hc. destruct (gs_children g !! p) as [children|] eqn:E; [|by apply elem_of_nil in Hc].
    exists ((λ child, (p, child)) <$> children). split; [by apply list_elem_of_fmap; eauto|].
    apply elem_of_lookup_imap. eauto.
Qed.

(** Documented behaviour of the gltf crate: the indices of a document it has
    validated are in range. *)
Definition gltf_valid (g : GltfScenes) (n : nat) : Prop := ∀ p c, c ∈ children_at g p → (c < n)%nat.

Lemma walk_start_inv g roots (nodes0 : list (CpuNode Rest)) : scene_inv g roots nodes0
  {| sg_nodes := nodes0; sg_traversal := []; sg_worlds := repeat None (length nodes0) |}.
Proof.
  split; simpl; [done|apply repeat_length| |apply NoDup_nil_2|].
  - intros i. split; [|by intros ?%elem_of_nil]. intros (w & E). by apply list_elem_of_lookup_2, list_elem_of_In, repeat_spec in E.
  - intros [|? l1] i l2 E; done.
Qed.

Definition child_of (g : GltfScenes) (p c : nat) : Prop := c ∈ children_at g p.

Lemma visited_reachable g roots (nodes0 : list (CpuNode Rest)) (s : CpuSceneGraph Rest Mat) i : scene_inv g roots nodes0 s →
  i ∈ sg_traversal s → ∃ r, r ∈ roots ∧ rtc (child_of g) r i.
Proof.
  intros I Hi. apply list_elem_of_split in Hi as (l1 & l2 & E).
  remember (length l1) as n eqn:Hn. revert i l1 l2 E Hn. induction n as [n IH] using (well_founded_induction lt_wf).
  intros i l1 l2 E Hn. destruct (si_order _ _ _ _ I l1 i l2 E) as (_ & _ & [[Hr _]|(p & _ & Hp & Hch & _)]); [by exists i|].
  apply list_elem_of_split in Hp as (k1 & k2 & ->).
  destruct (IH (length k1)) with (i := p) (l1 := k1) (l2 := k2 ++ i :: l2) as (r & Hr & Hrp); [rewrite Hn, length_app; simpl; lia|by rewrite E, <- app_assoc|done|].
  exists r. split; [done|]. by eapply rtc_r.
Qed.

Lemma inv_active g roots (nodes0 : list (CpuNode Rest)) (s : CpuSceneGraph Rest Mat) i : scene_inv g roots nodes0 s →
  (∀ j, active_at nodes0 j = false) → active_at (sg_nodes s) i = true ↔ i ∈ sg_traversal s.
Proof.
  intros I Hina. unfold active_at. rewrite (si_nodes _ _ _ _ I). destruct (bool_decide (i ∈ sg_traversal s)) eqn:E; to_prop.
  - split; [done|]. intros _. apply list_elem_of_split in E as (l1 & l2 & E).
    destruct (si_order _ _ _ _ I l1 i l2 E) as (this & -> & _). done.
  - split; [|done]. intros Ha. specialize (Hina i). unfold active_at in Hina. congruence.
Qed.

Lemma inv_parent g roots (nodes0 : list (CpuNode Rest)) (s : CpuSceneGraph Rest Mat) i : scene_inv g roots nodes0 s →
  parent_at (sg_nodes s) i = parent_at nodes0 i.
Proof. intros I. unfold parent_at. rewrite (si_nodes _ _ _ _ I). case_match; [|done]. by destruct (nodes0 !! i). Qed.

(** The graph of a model the loader accepts. *)
Record graph_ok (g : GltfScenes) (roots : list nat) (s : CpuSceneGraph Rest Mat) : Prop := {
  go_nodup : NoDup (sg_traversal s);
  go_reachable i : i ∈ sg_traversal s ↔ ∃ r, r ∈ roots ∧ rtc (child_of g) r i;
  go_active i : active_at (sg_nodes s) i = true ↔ i ∈ sg_traversal s;
  go_worlds i : (∃ w, sg_worlds s !! i = Some (Some w)) ↔ i ∈ sg_traversal s;
  go_parent c p : parent_at (sg_nodes s) c = Some p ↔ child_of g p c;
  go_order l1 i l2 : sg_traversal s = l1 ++ i :: l2 →
    ∃ this, sg_nodes s !! i = Some this ∧
      ((i ∈ roots ∧ world_of (sg_worlds s) mat_identity i this) ∨
       (∃ p wp, p ∈ l1 ∧ parent this = Some p ∧ sg_worlds s !! p = Some (Some wp) ∧ world_of (sg_worlds s) wp i this));
  go_leads : leads g (sg_traversal s);
}.

Lemma same_length {A B} (l : list A) (k : list B) : (∀ i, is_Some (l !! i) ↔ is_Some (k !! i)) → length l = length k.
Proof.
  intros Hi. pose proof (Hi (length l)) as H1. pose proof (Hi (length k)) as H2. rewrite !lookup_lt_is_Some in H1, H2. lia.
Qed.

(** When the loader accepts the scene of a model, the traversal lists
    exactly the nodes below the roots of the active scene, each once and after
    its parent; those are the active nodes and the ones with a transform,
    which is finite and the parent's times the node's own; and the parent of
    a node is the one node that has it as a child. *)
Theorem scene_graph_exact g rests s : gltf_valid g (length rests) → collect_scene_graph g rests = Ok s →
  ∃ roots, scene_roots g = Some roots ∧ graph_ok g roots s ∧ length (sg_nodes s) = length rests.
Proof.
  intros Hv E. unfold collect_scene_graph in E. apply bind_Ok in E as (rs & Ers & E). apply bind_Ok in E as (nodes0 & El & E).
  apply bind_Ok in E as (roots & Er & E). apply ok_or_Ok in Er. exists roots. split; [done|].
  pose proof (try_map_length _ _ _ Ers) as Hlen.
  apply link_parents_spec in El as (L1 & L2 & L3).
  2:{ apply Forall_forall. intros [p c] Hpc%elem_of_links. rewrite length_fmap, Hlen. simpl. by eapply Hv. }
  assert (∀ c p, parent_at nodes0 c = Some p ↔ child_of g p c) as Hpar.
  { intros c p. rewrite L2, elem_of_links. unfold child_of, parent_at at 1. rewrite list_lookup_fmap.
    split; [intros [Hn|]; [|done]|by right]. by destruct (rs !! c). }
  assert (∀ j, active_at nodes0 j = false) as Hina.
  { intros j. rewrite L3. unfold active_at. rewrite list_lookup_fmap. by destruct (rs !! j). }
  apply (walk_list_ok g roots nodes0 _ (walk_node_ok g roots nodes0 _)) in E as (I & (l & T & W & C) & _);
    [|apply walk_start_inv|by left].
  simpl in T. subst l. split; [split|].
  - apply (si_nodup _ _ _ _ I).
  - intros i. split; [by eapply visited_reachable|]. intros (r & Hr & Hri). apply W in Hr. clear W.
    induction Hri as [|r c i Hrc _ IH]; [done|]. apply list_elem_of_lookup in Hr as [a Ha]. destruct (C a r c Ha Hrc) as (b & _ & Hb).
    apply IH. by eapply list_elem_of_lookup_2.
  - intros i. by eapply inv_active.
  - apply (si_worlds _ _ _ _ I).
  - intros c p. by rewrite (inv_parent _ _ _ _ _ I).
  - intros l1 i l2 E. destruct (si_order _ _ _ _ I l1 i l2 E) as (this & Hthis & Hw).
    exists (set_active this). rewrite (si_nodes _ _ _ _ I), bool_decide_eq_true_2 by (rewrite E; set_solver). rewrite Hthis.
    split; [done|]. destruct Hw as [Hw|(p & wp & Hp & Hch & Hw)]; [by left|right]. exists p, wp. split_and!; try apply Hw; [done|].
    apply Hpar in Hch. unfold parent_at in Hch. rewrite Hthis in Hch. done.
  - done.
  - transitivity (length nodes0); [|by rewrite L1, length_fmap]. apply (same_length (sg_nodes s) nodes0). intros i. rewrite (si_nodes _ _ _ _ I).
    case_match; [|done]. by rewrite fmap_is_Some.
Qed.

(** There is a transform or none for every node. *)
Lemma walk_worlds g fuel node world (s : CpuSceneGraph Rest Mat) : ensures (walk_node g fuel node world s) (λ s', length (sg_worlds s') = length (sg_worlds s)).
Proof.
  revert node world s. induction fuel as [|fuel IH]; intros node world s; simpl; [apply ensures_err|].
  destruct (sg_worlds s !! node) as [[?|]|]; [apply ensures_err| |apply ensures_err]. destruct (sg_nodes s !! node) as [this|]; [|apply ensures_err].
  destruct (negb _); [apply ensures_err|]. set (s1 := {| sg_nodes := _ |}). replace (length (sg_worlds s)) with (length (sg_worlds s1)) by apply length_insert.
  generalize s1. induction (children_at g node) as [|child children IHc]; intros s2; [by apply ensures_ok|].
  eapply ensures_bind; [apply IH|]. intros s3 <-. apply IHc.
Qed.
Lemma link_parents_length links (nodes : list (CpuNode Rest)) : ensures (link_parents links nodes) (λ nodes', length nodes' = length nodes).
Proof.
  revert nodes. induction links as [|[node child] links IH]; intros nodes; simpl; [by apply ensures_ok|].
  destruct (parent_at nodes child); [apply ensures_err|]. eapply ensures_impl; [apply IH|]. intros nodes' ->. apply length_alter.
Qed.
Lemma walk_list_worlds g fuel world nodes (s : CpuSceneGraph Rest Mat) :
  ensures (walk_list g fuel world nodes s) (λ s', length (sg_worlds s') = length (sg_worlds s)).
Proof.
  revert s. induction nodes as [|node nodes IH]; intros s; cbn [walk_list]; [by apply ensures_ok|].
  eapply ensures_bind; [apply walk_worlds|]. intros s' <-. apply IH.
Qed.
Lemma collect_worlds_length g rests : ensures (collect_scene_graph g rests) (λ s : CpuSceneGraph Rest Mat, length (sg_worlds s) = length rests).
Proof.
  intros s E. unfold collect_scene_graph in E. apply bind_Ok in E as (rs & Ers%try_map_length & E). apply bind_Ok in E as (nodes0 & El%link_parents_length & E).
  apply bind_Ok in E as (roots & _ & ->%walk_list_worlds). simpl. rewrite length_fmap in El. by rewrite repeat_length, El, Ers.
Qed.
End graph.
