(* ===== verification/VrmBuffers.v ===== *)
(** * Binary data of a character model (skid-monitor-fe, vrm/loader.rs)

    The checks that keep every read of an accessor inside the embedded binary
    chunk ([validate_buffer_view], [validate_view_data_range],
    [validate_accessor_iteration]), the skins ([collect_skins]), the textures
    with their cache and limits ([load_gltf_texture], [decode_texture]) and
    the order of blended triangles ([sort_blended_triangles]).  What the gltf
    crate reports of a document is data; the image decoder is an interface. *)

From stdpp Require Import sorting.
From S2P Require Import Prelude RustStr Otlp RustFloat FeProfile Json VrmJson VrmGlb VrmOrder VrmGraph.

Definition MAX_SKIN_JOINTS : nat := 256.
Definition MAX_TEXTURES : nat := 64.
Definition MAX_TEXTURE_DIMENSION : Z := 4096.
Definition MAX_TEXTURE_DECODE_BYTES : Z := 128 * 1024 * 1024.

(** [usize::checked_mul], at the width of [checked_add]. *)
Definition checked_mul (a b : Z) : option Z := if a * b <=? u64_max then Some (a * b) else None.

(** ** Buffer views and accessors, as the gltf crate reports them *)

Record View := {
  v_index : nat;
  v_offset : Z;
  v_length : Z;
  v_stride : option Z;
  v_buffer_length : Z;
}.

Record Sparse := {
  sp_count : Z;
  sp_indices_view : View;
  sp_indices_offset : Z;
  sp_index_size : Z;
  sp_values_view : View;
  sp_values_offset : Z;
}.

Inductive DataType := I8 | U8 | I16 | U16 | U32 | F32.
Inductive Dimensions := Scalar | DVec2 | DVec3 | DVec4 | Mat2 | Mat3 | Mat4.
#[global] Instance DataType_eq_dec : EqDecision DataType.
Proof. solve_decision. Defined.
#[global] Instance Dimensions_eq_dec : EqDecision Dimensions.
Proof. solve_decision. Defined.

Record Accessor := {
  ac_count : Z;
  ac_offset : Z;
  ac_size : Z;
  ac_view : option View;
  ac_sparse : option Sparse;
  ac_data_type : DataType;
  ac_dimensions : Dimensions;
  ac_normalized : bool;
}.

Definition validate_buffer_view (view : View) (blob_len : Z) : result string () :=
  match checked_add (v_offset view) (v_length view) with
  | Some fin => if (fin <=? blob_len) && (fin <=? v_buffer_length view) then Ok ()
                else Err ("VRM buffer view " +:+ usize_text (v_index view) +:+ " is outside embedded data")
  | None => Err ("VRM buffer view " +:+ usize_text (v_index view) +:+ " is outside embedded data")
  end.

(** [count] is at least one where it is called, so [count - 1] does not wrap. *)
Definition validate_view_data_range (view : View) (offset stride count element_size : Z) (label : string)
    : result string () :=
  if stride <? element_size
  then Err ("VRM " +:+ label +:+ " accessor stride " +:+ u64_to_string stride +:+ " is smaller than element size " +:+
            u64_to_string element_size)
  else
    match (checked_mul stride (count - 1) ≫= (λ length, checked_add offset length)) ≫= (λ last, checked_add last element_size) with
    | Some fin => if fin <=? v_length view then Ok () else Err ("VRM " +:+ label +:+ " accessor is outside its buffer view")
    | None => Err ("VRM " +:+ label +:+ " accessor is outside its buffer view")
    end.

Definition stride_or (view : View) (size : Z) : Z := default size (v_stride view).

Definition validate_sparse (accessor : Accessor) (sparse : Sparse) (label : string) : result string () :=
  if (sp_count sparse =? 0) || (ac_count accessor <? sp_count sparse)
  then Err ("VRM " +:+ label +:+ " sparse accessor count must be between 1 and its accessor count")
  else
  _ ← validate_view_data_range (sp_indices_view sparse) (sp_indices_offset sparse)
        (stride_or (sp_indices_view sparse) (sp_index_size sparse)) (sp_count sparse) (sp_index_size sparse)
        (label +:+ " sparse indices");
  validate_view_data_range (sp_values_view sparse) (sp_values_offset sparse)
    (stride_or (sp_values_view sparse) (ac_size accessor)) (sp_count sparse) (ac_size accessor)
    (label +:+ " sparse values").

Definition validate_accessor_iteration (accessor : Accessor) (label : string) : result string () :=
  if ac_count accessor =? 0 then Err ("VRM " +:+ label +:+ " accessor must not be empty")
  else
  _ ← match ac_sparse accessor with Some sparse => validate_sparse accessor sparse label | None => Ok () end;
  match ac_view accessor, ac_sparse accessor with
  | Some view, _ =>
    validate_view_data_range view (ac_offset accessor) (stride_or view (ac_size accessor)) (ac_count accessor)
      (ac_size accessor) label
  | None, Some _ => Ok ()
  | None, None => Err ("VRM " +:+ label +:+ " accessor has neither base data nor sparse data")
  end.

(** ** Skins *)

Section skins.
Context {Rest Mat : Type} `{Transforms Rest Mat}.

Record CpuSkin := { sk_joints : list nat; inverse_bind : list Mat }.

(** A skin of the document: its joint nodes, the accessor of its inverse bind
    matrices, and what the crate's reader gives for that accessor. *)
Record GltfSkin := {
  gk_joints : list nat;
  gk_accessor : option Accessor;
  gk_matrices : option (list Mat);
}.

Definition check_inverse_accessor (joints : nat) (accessor : Accessor) : result string () :=
  _ ← validate_accessor_iteration accessor "inverse bind matrix";
  if negb (ac_count accessor =? Z.of_nat joints) then Err "VRM inverse bind matrix count does not match skin joints"
  else if negb (bool_decide (ac_data_type accessor = F32)) || negb (bool_decide (ac_dimensions accessor = Mat4)) ||
          ac_normalized accessor
  then Err "VRM inverse bind accessor must be non-normalized F32 MAT4"
  else Ok ().

Fixpoint check_joints (worlds : list (option Mat)) (joints : list (nat * Mat)) : result string () :=
  match joints with
  | [] => Ok ()
  | (joint, inverse) :: joints =>
    world ← ok_or (mjoin (worlds !! joint)) ("VRM skin joint node " +:+ usize_text joint +:+ " is outside the active scene");
    if negb (mat_finite (mat_mul world inverse)) then Err "VRM skin matrix contains NaN or infinity"
    else check_joints worlds joints
  end.

Definition collect_skin (worlds : list (option Mat)) (skin : GltfSkin) : result string CpuSkin :=
  let joints := gk_joints skin in
  if (length joints =? 0)%nat || (MAX_SKIN_JOINTS <? length joints)%nat
  then Err ("VRM skin joint count must be between 1 and " +:+ usize_text MAX_SKIN_JOINTS)
  else
  _ ← match gk_accessor skin with Some accessor => check_inverse_accessor (length joints) accessor | None => Ok () end;
  inverse_bind ← match gk_accessor skin with
                 | Some _ => ok_or (gk_matrices skin) "VRM inverse bind matrix data could not be decoded"
                 | None => Ok (repeat mat_identity (length joints))
                 end;
  if negb (length inverse_bind =? length joints)%nat then Err "VRM inverse bind matrix count does not match skin joints"
  else
  _ ← check_joints worlds (zip joints inverse_bind);
  Ok {| sk_joints := joints; inverse_bind := inverse_bind |}.

Definition collect_skins (skins : list GltfSkin) (worlds : list (option Mat)) : result string (list CpuSkin) :=
  try_map (collect_skin worlds) skins.
End skins.
Arguments CpuSkin Mat : clear implicits.
Arguments GltfSkin Mat : clear implicits.

(** ** Textures *)

(** The image crate's decoder with the loader's limits set: width, height and
    the RGBA bytes. *)
Class ImageDecoder := image_decode : bool → list byte → result string (Z * Z * list byte).
(** It keeps the limits it is given, and an RGBA image has four bytes a pixel. *)
Class ImageDecoderLaws `{ImageDecoder} : Prop :=
  image_limits png bytes w h rgba : image_decode png bytes = Ok (w, h, rgba) →
    0 ≤ w ≤ MAX_TEXTURE_DIMENSION ∧ 0 ≤ h ≤ MAX_TEXTURE_DIMENSION ∧ zlen rgba = w * h * 4.

Inductive ImageSource := ImageView (view : View) (mime_type : string) | ImageUri.
(** The index of the image of every texture, and the images, which the crate
    has checked to exist. *)
Record GltfTextures := { gt_textures : list nat; gt_image : nat → ImageSource }.

Record CpuTexture := { tx_width : Z; tx_height : Z; rgba : list byte }.

(** The arguments [load_gltf_texture] changes. *)
Record TextureState := {
  total_decode_bytes : Z;
  texture_cache : gmap nat nat;
  textures : list CpuTexture;
}.
Definition no_textures : TextureState := {| total_decode_bytes := 0; texture_cache := ∅; textures := [] |}.

Section textures.
Context `{ImageDecoder}.

(** The bytes of an image and whether they are PNG. *)
Definition texture_bytes (image : ImageSource) (blob : list byte) : result string (bool * list byte) :=
  match image with
  | ImageUri => Err "VRM external image URIs are not allowed"
  | ImageView view mime_type =>
    if negb (bool_decide (mime_type = "image/png")) && negb (bool_decide (mime_type = "image/jpeg"))
    then Err ("VRM embedded texture type " +:+ mime_type +:+ " is not supported")
    else
      match checked_add (v_offset view) (v_length view) with
      | Some fin =>
        if fin <=? zlen blob
        then Ok (bool_decide (mime_type = "image/png"), VrmGlb.slice blob (Z.to_nat (v_offset view)) (Z.to_nat fin))
        else Err "VRM embedded texture buffer view is truncated"
      | None => Err "VRM embedded texture buffer view is truncated"
      end
  end.

Definition decode_texture (image : ImageSource) (blob : list byte) (total : Z) : result string (CpuTexture * Z) :=
  encoded ← texture_bytes image blob;
  decoded ← map_err (λ error, "failed to decode VRM embedded texture: " +:+ error) (image_decode encoded.1 encoded.2);
  let '(width, height, pixels) := decoded in
  if (width =? 0) || (height =? 0) then Err "VRM embedded texture must not be empty"
  else
  decoded_bytes ← ok_or (checked_mul width height ≫= (λ n, checked_mul n 4)) "VRM embedded texture size overflowed";
  total ← ok_or (checked_add total decoded_bytes) "VRM texture allocation total overflowed";
  if MAX_TEXTURE_DECODE_BYTES <? total
  then Err ("VRM decoded textures exceed the " +:+ u64_to_string ((MAX_TEXTURE_DECODE_BYTES `div` 1024) `div` 1024) +:+
            " MiB total limit")
  else Ok ({| tx_width := width; tx_height := height; rgba := pixels |}, total).

Definition load_gltf_texture (g : GltfTextures) (texture_index : nat) (blob : list byte) (st : TextureState)
    : result string (nat * TextureState) :=
  image_index ← ok_or (gt_textures g !! texture_index) ("VRM references missing texture " +:+ usize_text texture_index);
  match texture_cache st !! image_index with
  | Some index => Ok (index, st)
  | None =>
    if (MAX_TEXTURES <=? length (textures st))%nat then Err ("VRM has more than " +:+ usize_text MAX_TEXTURES +:+ " textures")
    else
    decoded ← decode_texture (gt_image g image_index) blob (total_decode_bytes st);
    let index := length (textures st) in
    Ok (index, {| total_decode_bytes := decoded.2; texture_cache := <[image_index := index]> (texture_cache st);
                  textures := textures st ++ [decoded.1] |})
  end.

(** The loads of a scene, one after the other. *)
Fixpoint load_textures (g : GltfTextures) (blob : list byte) (indices : list nat) (st : TextureState)
    : result string (list nat * TextureState) :=
  match indices with
  | [] => Ok ([], st)
  | i :: indices =>
    loaded ← load_gltf_texture g i blob st;
    rest ← load_textures g blob indices loaded.2;
    Ok (loaded.1 :: rest.1, rest.2)
  end.
End textures.

(** ** Blended triangles *)

(** [f32::total_cmp] as the order of the bit patterns: [key] is the pattern as
    a signed integer with the magnitude of a negative number inverted. *)
Definition total_key (f : f32) : Z :=
  match f with
  | S754_zero s => if s then -1 else 0
  | S754_infinity s => if s then -1 - 255 * 2 ^ 23 else 255 * 2 ^ 23
  | S754_nan => 255 * 2 ^ 23 + 2 ^ 22
  | S754_finite s m e => let bits := (e + 149) * 2 ^ 23 + Zpos m in if s then -1 - bits else bits
  end.
Definition total_le (f g : f32) : bool := total_key f <=? total_key g.

(** A stable sort: an element goes before the equal ones that follow it. *)
Fixpoint insert_by (key : nat → Z) (x : nat) (l : list nat) : list nat :=
  match l with
  | [] => [x]
  | y :: l' => if key x <=? key y then x :: l else y :: insert_by key x l'
  end.
Definition sort_by (key : nat → Z) (l : list nat) : list nat := foldr (insert_by key) [] l.

Definition depth_order (depths : list f32) : list nat :=
  sort_by (λ i, total_key (default S754_nan (depths !! i))) (seq 0 (length depths)).

(** [values[t*3..t*3+3].copy_from_slice(&original[s*3..s*3+3])] over the order. *)
Fixpoint copy_triangles {A} (original : list A) (target : nat) (order : list nat) (values : list A) : list A :=
  match order with
  | [] => values
  | source :: order =>
    copy_triangles original (S target) order
      (take (target * 3) values ++ VrmGlb.slice original (source * 3) (source * 3 + 3) ++ drop (target * 3 + 3) values)
  end.

(** The deltas of every morph target move with the vertices. *)
Definition sort_blended_triangles {V D} (vertices : list V) (depths : list f32) (morph_targets : list (list D))
    : list V * list (list D) :=
  let order := depth_order depths in
  (copy_triangles vertices 0 order vertices, (λ deltas, copy_triangles deltas 0 order deltas) <$> morph_targets).

(** ** Reads stay inside the binary chunk *)

(** The numbers of a document are [usize] values. *)
Record view_wf (view : View) : Prop := {
  vw_offset : in_u64 (v_offset view);
  vw_length : in_u64 (v_length view);
  vw_stride s : v_stride view = Some s → in_u64 s;
}.
Record accessor_wf (a : Accessor) : Prop := {
  aw_count : in_u64 (ac_count a);
  aw_offset : in_u64 (ac_offset a);
  aw_size : in_u64 (ac_size a);
  aw_view view : ac_view a = Some view → view_wf view;
  aw_sparse s : ac_sparse a = Some s →
    in_u64 (sp_count s) ∧ in_u64 (sp_indices_offset s) ∧ in_u64 (sp_index_size s) ∧ in_u64 (sp_values_offset s) ∧
    view_wf (sp_indices_view s) ∧ view_wf (sp_values_view s);
}.

(** The reads of an iteration over an accessor: a view, a position in it and
    the number of bytes. *)
Inductive read_of (a : Accessor) : View → Z → Z → Prop :=
| read_base view i : ac_view a = Some view → 0 ≤ i < ac_count a →
    read_of a view (ac_offset a + i * stride_or view (ac_size a)) (ac_size a)
| read_index s i : ac_sparse a = Some s → 0 ≤ i < sp_count s →
    read_of a (sp_indices_view s) (sp_indices_offset s + i * stride_or (sp_indices_view s) (sp_index_size s)) (sp_index_size s)
| read_value s i : ac_sparse a = Some s → 0 ≤ i < sp_count s →
    read_of a (sp_values_view s) (sp_values_offset s + i * stride_or (sp_values_view s) (ac_size a)) (ac_size a).

(** There is an element, there is data, replaced elements are among the
    elements, and elements do not overlap. *)
Record accessor_shape (a : Accessor) : Prop := {
  as_count : 1 ≤ ac_count a;
  as_data : ac_view a ≠ None ∨ ac_sparse a ≠ None;
  as_stride view : ac_view a = Some view → ac_size a ≤ stride_or view (ac_size a);
  as_sparse s : ac_sparse a = Some s → 1 ≤ sp_count s ≤ ac_count a ∧
    sp_index_size s ≤ stride_or (sp_indices_view s) (sp_index_size s) ∧ ac_size a ≤ stride_or (sp_values_view s) (ac_size a);
}.

Lemma checked_chain offset stride count size :
  0 ≤ offset → 0 ≤ stride → 1 ≤ count → 0 ≤ size →
  (checked_mul stride (count - 1) ≫= (λ length, checked_add offset length)) ≫= (λ last, checked_add last size) =
  (if offset + stride * (count - 1) + size <=? u64_max then Some (offset + stride * (count - 1) + size) else None).
Proof.
  intros ????. unfold checked_mul, checked_add. assert (0 ≤ stride * (count - 1)) by nia.
  repeat (case_test; simpl); first [done|lia|f_equal; lia].
Qed.

Lemma view_range_iff view offset stride count size label :
  0 ≤ offset → 0 ≤ stride → 1 ≤ count → 0 ≤ size → v_length view ≤ u64_max →
  validate_view_data_range view offset stride count size label = Ok () ↔
  size ≤ stride ∧ ∀ i, 0 ≤ i < count → 0 ≤ offset + i * stride ∧ offset + i * stride + size ≤ v_length view.
Proof.
  intros ?????. unfold validate_view_data_range. case_test; [split; [done|lia]|]. rewrite checked_chain by done.
  assert ((∀ i, 0 ≤ i < count → 0 ≤ offset + i * stride ∧ offset + i * stride + size ≤ v_length view) ↔
          offset + stride * (count - 1) + size ≤ v_length view) as ->.
  { split; [intros Hi; specialize (Hi (count - 1)); lia|]. intros ? i ?. split; nia. }
  case_test; [case_test; split; [lia|done|done|lia]|split; [done|lia]].
Qed.

Lemma stride_nonneg view size : view_wf view → 0 ≤ size → 0 ≤ stride_or view size.
Proof. intros [_ _ Hs] ?. unfold stride_or. destruct (v_stride view) as [s|]; simpl; [apply Hs; done|done]. Qed.

Lemma sparse_iff a s label : accessor_wf a → ac_sparse a = Some s →
  validate_sparse a s label = Ok () ↔ 1 ≤ sp_count s ≤ ac_count a ∧
  (sp_index_size s ≤ stride_or (sp_indices_view s) (sp_index_size s) ∧
   ∀ i, 0 ≤ i < sp_count s → 0 ≤ sp_indices_offset s + i * stride_or (sp_indices_view s) (sp_index_size s) ∧
     sp_indices_offset s + i * stride_or (sp_indices_view s) (sp_index_size s) + sp_index_size s ≤ v_length (sp_indices_view s)) ∧
  (ac_size a ≤ stride_or (sp_values_view s) (ac_size a) ∧
   ∀ i, 0 ≤ i < sp_count s → 0 ≤ sp_values_offset s + i * stride_or (sp_values_view s) (ac_size a) ∧
     sp_values_offset s + i * stride_or (sp_values_view s) (ac_size a) + ac_size a ≤ v_length (sp_values_view s)).
Proof.
  intros Hw Es. destruct (aw_sparse a Hw s Es) as (Hc & Ho & Hi & Hv & Wi & Wv). pose proof (aw_size a Hw) as Hsz.
  unfold in_u64 in *. pose proof (vw_length _ Wi) as L1. pose proof (vw_length _ Wv) as L2. unfold in_u64 in *.
  pose proof (stride_nonneg _ (sp_index_size s) Wi ltac:(lia)). pose proof (stride_nonneg _ (ac_size a) Wv ltac:(lia)).
  unfold validate_sparse. destruct ((_ =? 0) || _) eqn:E; to_prop; [split; [done|lia]|].
  rewrite bind_Ok. rewrite <- (view_range_iff _ _ _ _ _ (label +:+ " sparse indices")) by lia.
  rewrite <- (view_range_iff _ _ _ _ _ (label +:+ " sparse values")) by lia.
  split; [intros ([] & I1 & I2); split_and!; [lia..|done|done]|]. intros (_ & I1 & I2). by exists ().
Qed.

Lemma accessor_iff a label : accessor_wf a →
  validate_accessor_iteration a label = Ok () ↔
  accessor_shape a ∧ ∀ view position size, read_of a view position size → 0 ≤ position ∧ position + size ≤ v_length view.
Proof.
  intros Hw. unfold validate_accessor_iteration. pose proof (aw_count a Hw). pose proof (aw_size a Hw). pose proof (aw_offset a Hw).
  unfold in_u64 in *. case_test; [split; [done|intros [[? _ _ _] _]; lia]|].
  assert (∀ view, ac_view a = Some view →
    validate_view_data_range view (ac_offset a) (stride_or view (ac_size a)) (ac_count a) (ac_size a) label = Ok () ↔
    ac_size a ≤ stride_or view (ac_size a) ∧ ∀ i, 0 ≤ i < ac_count a → 0 ≤ ac_offset a + i * stride_or view (ac_size a) ∧
      ac_offset a + i * stride_or view (ac_size a) + ac_size a ≤ v_length view) as Hbase.
  { intros view Ev. pose proof (aw_view a Hw view Ev) as Wv. pose proof (vw_length _ Wv). unfold in_u64 in *.
    apply view_range_iff; [lia|by apply stride_nonneg; [|lia]|lia..]. }
  assert (∀ s, ac_sparse a = Some s → validate_sparse a s label = Ok () ↔ _) as Hsp by (intros s Es; exact (sparse_iff a s label Hw Es)).
  rewrite bind_Ok. split.
  - intros ([] & I1 & I2). split; [split|].
    + lia.
    + destruct (ac_view a); [by left|]. destruct (ac_sparse a); [by right|done].
    + intros view Ev. rewrite Ev in I2. apply Hbase in I2; [|done]. tauto.
    + intros s Es. rewrite Es in I1. apply Hsp in I1; [|done]. tauto.
    + intros view position size [view' i Ev Hi|s i Es Hi|s i Es Hi].
      * rewrite Ev in I2. apply Hbase in I2; [|done]. by apply I2.
      * rewrite Es in I1. apply Hsp in I1; [|done]. by apply I1.
      * rewrite Es in I1. apply Hsp in I1; [|done]. by apply I1.
  - intros [[S1 S2 S3 S4] Hr]. exists (). split.
    + destruct (ac_sparse a) as [s|] eqn:Es; [|done]. apply (Hsp s eq_refl). destruct (S4 s eq_refl) as (? & ? & ?).
      split_and!; [lia..| |done|]; intros i Hi; apply Hr; by constructor.
    + destruct (ac_view a) as [view|] eqn:Ev.
      * apply (Hbase view eq_refl). split; [by apply S3|]. intros i Hi. apply Hr. by constructor.
      * destruct (ac_sparse a); [done|]. by destruct S2.
Qed.

(** C33: An accessor the loader iterates over is read inside the embedded
    binary chunk, whatever offsets, strides and counts the file declares: the
    check passes exactly when every element, sparse index and sparse value
    lies inside its buffer view, with no overflow of the 64-bit arithmetic,
    and what lies inside an accepted view lies inside the chunk. *)
Theorem accessor_reads_inside a label blob_len : accessor_wf a →
  (validate_accessor_iteration a label = Ok () ↔
   accessor_shape a ∧ ∀ view position size, read_of a view position size → 0 ≤ position ∧ position + size ≤ v_length view) ∧
  (validate_accessor_iteration a label = Ok () → ∀ view position size, read_of a view position size →
   validate_buffer_view view blob_len = Ok () → view_wf view →
   0 ≤ v_offset view + position ∧ v_offset view + position + size ≤ blob_len).
Proof.
  intros Hw. split; [by apply accessor_iff|]. intros Hok view position size Hr Hv [Ho Hl _]%id.
  apply accessor_iff in Hok as [_ Hin]; [|done]. specialize (Hin _ _ _ Hr). unfold validate_buffer_view, checked_add, in_u64 in *.
  case_test; [|done]. destruct ((_ <=? blob_len) && _) eqn:E; [|done]. to_prop. lia.
Qed.

(** ** Textures are shared and bounded *)

Section textures_ok.
Context `{ImageDecoder, !ImageDecoderLaws} (g : GltfTextures) (blob : list byte).

Definition decodes (image : ImageSource) (t : CpuTexture) : Prop :=
  ∃ png bytes, texture_bytes image blob = Ok (png, bytes) ∧ image_decode png bytes = Ok (tx_width t, tx_height t, rgba t).

Record texture_ok (t : CpuTexture) : Prop := {
  xo_width : 1 ≤ tx_width t ≤ MAX_TEXTURE_DIMENSION;
  xo_height : 1 ≤ tx_height t ≤ MAX_TEXTURE_DIMENSION;
  xo_bytes : zlen (rgba t) = tx_width t * tx_height t * 4;
}.

(** The cache maps the images seen one to one to the textures, each decoded
    from its image; the total counts their bytes. *)
Record textures_ok (st : TextureState) : Prop := {
  to_count : (length (textures st) ≤ MAX_TEXTURES)%nat;
  to_total : total_decode_bytes st = sumZ ((λ t, zlen (rgba t)) <$> textures st);
  to_limit : total_decode_bytes st ≤ MAX_TEXTURE_DECODE_BYTES;
  to_each : Forall texture_ok (textures st);
  to_cache image index : texture_cache st !! image = Some index →
    ∃ t, textures st !! index = Some t ∧ decodes (gt_image g image) t;
  to_inj image image' index : texture_cache st !! image = Some index → texture_cache st !! image' = Some index → image = image';
}.

Lemma no_textures_ok : textures_ok no_textures.
Proof. split; simpl; [unfold MAX_TEXTURES; lia|done|done|done|done|done]. Qed.

Lemma decode_texture_ok image total : ensures (decode_texture image blob total)
  (λ r, texture_ok r.1 ∧ decodes image r.1 ∧ r.2 = total + zlen (rgba r.1) ∧ r.2 ≤ MAX_TEXTURE_DECODE_BYTES).
Proof.
  intros [t total'] E. unfold decode_texture in E. apply bind_Ok in E as ([png bytes] & Eb & E).
  apply bind_Ok in E as ([[w h] pixels] & Ed & E). apply map_err_Ok in Ed. simpl in Ed. pose proof (image_limits _ _ _ _ _ Ed) as (Hw & Hh & Hp).
  destruct (_ || _) eqn:Ez; [done|]. to_prop. apply bind_Ok in E as (n & En%ok_or_Ok & E). apply bind_Ok in E as (total1 & Et%ok_or_Ok & E).
  case_test; [done|]. injection E as <- <-. simpl.
  unfold checked_mul in En. case_test; [|done]. simpl in En. case_test; [|done]. injection En as <-.
  unfold checked_add in Et. case_test; [|done]. injection Et as <-.
  split_and!; [split; simpl; lia|by exists png, bytes|lia|lia].
Qed.

Lemma load_texture_ok i st : textures_ok st → ensures (load_gltf_texture g i blob st)
  (λ r, textures_ok r.2 ∧ (∃ image, gt_textures g !! i = Some image ∧ texture_cache r.2 !! image = Some r.1) ∧
        texture_cache st ⊆ texture_cache r.2).
Proof.
  intros [C1 C2 C3 C4 C5 C6] [index st'] E. unfold load_gltf_texture in E. apply bind_Ok in E as (image & Ei%ok_or_Ok & E).
  destruct (texture_cache st !! image) as [found|] eqn:Ec.
  { injection E as <- <-. split_and!; [done|by exists image|done]. }
  destruct (MAX_TEXTURES <=? _)%nat eqn:El; [done|]. apply Nat.leb_gt in El.
  apply bind_Ok in E as ([t total] & Ed & E). injection E as <- <-. simpl.
  destruct (decode_texture_ok _ _ _ Ed) as (Hok & Hdec & Htot & Hlim). simpl in *.
  assert (∀ j index', texture_cache st !! j = Some index' → (index' < length (textures st))%nat) as Hlt.
  { intros j index' (t' & Ht & _)%C5. by eapply lookup_lt_Some. }
  split_and!; [|exists image; by rewrite lookup_insert_eq|by apply insert_subseteq].
  split; simpl.
  - rewrite length_app. simpl. lia.
  - rewrite fmap_app, sumZ_app, <- C2. simpl. unfold sumZ. simpl. lia.
  - done.
  - by apply Forall_app; split; [|apply Forall_singleton].
  - intros j index' [[<- <-]|[Hne Hj]]%lookup_insert_Some.
    + exists t. by rewrite lookup_app_r, Nat.sub_diag by lia.
    + destruct (C5 j index' Hj) as (t' & Ht & Hd'). exists t'. split; [by apply lookup_app_l_Some|done].
  - intros j j' index' [[<- <-]|[Hne Hj]]%lookup_insert_Some [[<- E]|[Hne' Hj']]%lookup_insert_Some;
      [done|apply Hlt in Hj'; lia|subst; apply Hlt in Hj; lia|by eapply C6].
Qed.

(** Whatever textures a scene asks for, in whatever order and however often:
    when the loads succeed there are at most [MAX_TEXTURES] textures of at
    most [MAX_TEXTURE_DECODE_BYTES] bytes together, each within the dimension
    limits; a load returns the decoding of the image its texture names, two
    loads return the same index exactly when they name the same image. *)
Theorem textures_exact indices : ensures (load_textures g blob indices no_textures)
  (λ r, textures_ok r.2 ∧
        Forall2 (λ i index, ∃ image t, gt_textures g !! i = Some image ∧ texture_cache r.2 !! image = Some index ∧
                   textures r.2 !! index = Some t ∧ decodes (gt_image g image) t) indices r.1).
Proof.
  assert (∀ st, textures_ok st → ensures (load_textures g blob indices st) (λ r, textures_ok r.2 ∧
    texture_cache st ⊆ texture_cache r.2 ∧
    Forall2 (λ i index, ∃ image, gt_textures g !! i = Some image ∧ texture_cache r.2 !! image = Some index) indices r.1)) as Hall.
  { induction indices as [|i indices IH]; intros st Hst; simpl.
    - intros r [= <-]. split_and!; [done|done|constructor].
    - eapply ensures_bind; [by apply load_texture_ok|]. intros [index st1] (H1 & (image & Hi & Hc) & Hsub).
      eapply ensures_bind; [by apply IH|]. intros [out st2] (H2 & Hsub2 & Hout). apply ensures_ok. simpl in *.
      split_and!; [done|by etrans|]. constructor; [|done]. exists image. split; [done|]. by eapply lookup_weaken. }
  eapply ensures_impl; [apply Hall, no_textures_ok|]. intros [out st] (Hok & _ & Hout). split; [done|].
  eapply Forall2_impl; [done|]. simpl. intros i index (image & Hi & Hc). destruct (to_cache _ Hok _ _ Hc) as (t & Ht & Hd).
  by exists image, t.
Qed.
End textures_ok.

(** ** Blended triangles come out by depth *)

(** [total_cmp] agrees with [<] on the numbers an [f32] can hold. *)
Lemma canonical_f32 s m e : valid_binary 24 128 (S754_finite s m e) = true →
  -149 ≤ e ∧ Zpos m < 2 ^ 24 ∧ (e = -149 ∨ 2 ^ 23 ≤ Zpos m).
Proof.
  unfold valid_binary, bounded, canonical_mantissa, fexp, emin. intros [E _]%andb_true_iff. apply Z.eqb_eq in E.
  pose proof (digits2_bounds m) as [L U]. assert (Zpos (digits2_pos m) ≤ 24) by lia.
  assert (2 ^ Zpos (digits2_pos m) ≤ 2 ^ 24) by (apply Z.pow_le_mono_r; lia).
  split_and!; [lia..|]. destruct (decide (e = -149)); [by left|right]. assert (Zpos (digits2_pos m) = 24) as Hd by lia.
  rewrite Hd in L. exact L.
Qed.

Lemma total_key_lt f g : valid_binary 24 128 f = true → valid_binary 24 128 g = true → is_finite f = true → is_finite g = true →
  SFltb f g = true → total_key f < total_key g.
Proof.
  intros Vf Vg Ff Fg. unfold SFltb. destruct f as [s| | |s m e], g as [t| | |t n k]; try done; simpl.
  - destruct (canonical_f32 _ _ _ Vg) as (? & ? & ?). destruct t; [done|]. destruct s; lia.
  - destruct (canonical_f32 _ _ _ Vf) as (? & ? & ?). destruct s; [|done]. destruct t; lia.
  - destruct (canonical_f32 _ _ _ Vf) as (? & ? & ?), (canonical_f32 _ _ _ Vg) as (? & ? & ?).
    destruct s, t; try done; try lia.
    + destruct (Z.compare_spec e k); simpl; [|done|]; subst; try (intros _; nia).
      change (Pos.compare_cont Eq m n) with (m ?= n)%positive. destruct (Pos.compare_spec m n); simpl; [done|done|lia].
    + destruct (Z.compare_spec e k); simpl; [|intros _; nia|done]. subst.
      change (Pos.compare_cont Eq m n) with (m ?= n)%positive. destruct (Pos.compare_spec m n); simpl; [done|lia|done].
Qed.

(** By key, and in the old order where keys are equal. *)
Definition key_before (key : nat → Z) (i j : nat) : Prop := key i < key j ∨ (key i = key j ∧ (i < j)%nat).

Lemma insert_by_perm key x l : insert_by key x l ≡ₚ x :: l.
Proof. induction l as [|y l IH]; simpl; [done|]. case_match; [done|]. rewrite IH. constructor. Qed.
Lemma sort_by_perm key l : sort_by key l ≡ₚ l.
Proof. induction l as [|x l IH]; simpl; [done|]. rewrite insert_by_perm. unfold sort_by in IH. by rewrite IH. Qed.

Lemma insert_by_sorted key x l : StronglySorted (key_before key) l → Forall (λ y, x < y)%nat l →
  StronglySorted (key_before key) (insert_by key x l).
Proof.
  induction l as [|y l IH]; simpl; intros Hs Hx; [by repeat constructor|]. apply StronglySorted_inv in Hs as [Hs Hy].
  inversion_clear Hx as [|? ? Hxy Hxl]. case_test.
  - constructor; [by constructor|]. constructor; [unfold key_before; lia|]. rewrite Forall_forall in Hy, Hxl |- *.
    intros z Hz. specialize (Hy z Hz). specialize (Hxl z Hz). unfold key_before in *. lia.
  - constructor; [by apply IH|]. rewrite insert_by_perm. constructor; [left; lia|done].
Qed.
Lemma sort_seq_sorted key start n : StronglySorted (key_before key) (sort_by key (seq start n)).
Proof.
  revert start. induction n as [|n IH]; intros start; simpl; [constructor|]. apply insert_by_sorted; [apply IH|].
  change (foldr _ _ _) with (sort_by key (seq (S start) n)). rewrite sort_by_perm. apply Forall_forall. intros y Hy%elem_of_seq. lia.
Qed.

Abbreviation triangle l t := (VrmGlb.slice l (t * 3) (t * 3 + 3)).

Lemma length_triangle {A} (l : list A) t n : (length l = 3 * n)%nat → (t < n)%nat → length (triangle l t) = 3%nat.
Proof. intros ??. unfold VrmGlb.slice. rewrite length_take, length_drop. lia. Qed.

Lemma copy_triangles_eq {A} (original : list A) n order : (length original = 3 * n)%nat → Forall (λ s, s < n)%nat order →
  ∀ target values, ((target + length order) * 3 ≤ length values)%nat →
  copy_triangles original target order values =
  take (target * 3) values ++ List.concat ((λ s, triangle original s) <$> order) ++ drop ((target + length order) * 3) values.
Proof.
  intros Hn. induction 1 as [|s order Hs Ho IH]; intros target values Hl; simpl.
  { rewrite Nat.add_0_r, take_drop. done. }
  pose proof (length_triangle original s n Hn Hs) as Ht. simpl in Hl.
  assert (length (take (target * 3) values) = target * 3)%nat as Htk by (rewrite length_take; lia).
  rewrite IH by (rewrite !length_app, length_drop, Ht, Htk; lia).
  rewrite take_app, Htk, take_take, Nat.min_r by lia. replace (S target * 3 - target * 3)%nat with 3%nat by lia.
  rewrite take_app, Ht, (take_ge (triangle original s)) by lia. rewrite Nat.sub_diag, take_0, app_nil_r, <- !app_assoc. do 3 f_equal.
  rewrite drop_app, Htk, (drop_ge (take _ _)) by lia. simpl. rewrite drop_app, Ht, (drop_ge (triangle _ _)) by lia. simpl.
  rewrite drop_drop. f_equal. lia.
Qed.

Lemma triangle_concat {A} (ls : list (list A)) t l : Forall (λ l, length l = 3%nat) ls → ls !! t = Some l → triangle (List.concat ls) t = l.
Proof.
  intros Hl. revert t. induction Hl as [|l' ls Hl' _ IH]; intros t Ht; [done|]. destruct t as [|t]; simpl in Ht.
  - injection Ht as ->. unfold VrmGlb.slice. simpl. rewrite <- Hl'. apply take_app_length.
  - rewrite <- (IH t Ht). unfold VrmGlb.slice. cbn [List.concat]. rewrite drop_app, (drop_ge l') by lia. simpl.
    repeat (f_equal; try lia).
Qed.
Lemma concat_triangles {A} (l : list A) n : (length l = 3 * n)%nat → List.concat ((λ s, triangle l s) <$> seq 0 n) = l.
Proof.
  intros Hl. assert (∀ k, (k ≤ n)%nat → List.concat ((λ s, triangle l s) <$> seq 0 k) = take (k * 3) l) as Hk.
  { induction k as [|k IH]; intros Hkn; [done|]. rewrite seq_S, fmap_app, List.concat_app, IH by lia. simpl. rewrite app_nil_r.
    unfold VrmGlb.slice. rewrite take_take_drop. f_equal. lia. }
  rewrite Hk by lia. apply take_ge. lia.
Qed.

Lemma copied_triangles {A} (l : list A) n order : (length l = 3 * n)%nat → order ≡ₚ seq 0 n →
  copy_triangles l 0 order l ≡ₚ l ∧ ∀ t s, order !! t = Some s → triangle (copy_triangles l 0 order l) t = triangle l s.
Proof.
  intros Hl Hp. assert (Forall (λ s, s < n)%nat order) as Ho by (rewrite Hp; apply Forall_forall; intros i Hi%elem_of_seq; lia).
  assert (length order = n) as Hn by (rewrite Hp; apply length_seq).
  rewrite (copy_triangles_eq l n) by (try done; rewrite Hn; lia). simpl. rewrite Hn, (drop_ge l), app_nil_r by lia. split.
  - transitivity (List.concat ((λ s, triangle l s) <$> seq 0 n)); [by rewrite Hp|by rewrite concat_triangles].
  - intros t s Hs. apply triangle_concat; [|by rewrite list_lookup_fmap, Hs].
    apply Forall_fmap. eapply Forall_impl; [done|]. intros i Hi. by apply (length_triangle l i n).
Qed.

(** Sorting the triangles of a blended draw moves whole triangles: they come
    out by depth, in their old order where depths are equal, and every morph
    target moves with them. *)
Theorem blended_by_depth {V D} (vertices : list V) (depths : list f32) (morph_targets : list (list D)) :
  (length vertices = 3 * length depths)%nat → Forall (λ m, length m = 3 * length depths)%nat morph_targets →
  let r := sort_blended_triangles vertices depths morph_targets in
  r.1 ≡ₚ vertices ∧ Forall2 (≡ₚ) r.2 morph_targets ∧
  ∃ order, order ≡ₚ seq 0 (length depths) ∧
    StronglySorted (key_before (λ i, total_key (default S754_nan (depths !! i)))) order ∧
    ∀ t s, order !! t = Some s → triangle r.1 t = triangle vertices s ∧
      Forall2 (λ m m', triangle m t = triangle m' s) r.2 morph_targets.
Proof.
  intros Hv Hm r. assert (depth_order depths ≡ₚ seq 0 (length depths)) as Hp by apply sort_by_perm.
  destruct (copied_triangles vertices _ _ Hv Hp) as [Pv Tv].
  split; [exact Pv|]. split.
  { apply Forall2_fmap_l, Forall_Forall2_diag. eapply Forall_impl; [done|]. intros m Hlm. by apply (copied_triangles m _ _ Hlm Hp). }
  exists (depth_order depths). split_and!; [done|apply sort_seq_sorted|]. intros t s Hs. split; [by apply Tv|].
  apply Forall2_fmap_l, Forall_Forall2_diag. eapply Forall_impl; [done|]. intros m Hlm. by apply (copied_triangles m _ _ Hlm Hp).
Qed.

(** ** Skins *)

Section skins_ok.
Context {Rest Mat : Type} `{Transforms Rest Mat}.

(** A skin has joints of the active scene, one matrix each, and every joint
    matrix is finite. *)
Record skin_ok (worlds : list (option Mat)) (skin : CpuSkin Mat) : Prop := {
  ko_joints : (1 ≤ length (sk_joints skin) ≤ MAX_SKIN_JOINTS)%nat;
  ko_length : length (inverse_bind skin) = length (sk_joints skin);
  ko_finite k joint inverse : sk_joints skin !! k = Some joint → inverse_bind skin !! k = Some inverse →
    ∃ world, worlds !! joint = Some (Some world) ∧ mat_finite (mat_mul world inverse) = true;
}.

Lemma check_joints_ok worlds l : ensures (check_joints worlds l)
  (λ _, Forall (λ ji, ∃ world, worlds !! ji.1 = Some (Some world) ∧ mat_finite (mat_mul world ji.2) = true) l).
Proof.
  induction l as [|[joint inverse] l IH]; simpl; [by apply ensures_ok|]. eapply ensures_bind; [apply ensures_ok_or|].
  intros world Hw. destruct (negb _) eqn:E; [apply ensures_err|]. apply negb_false_iff in E.
  eapply ensures_impl; [done|]. intros [] Hl. constructor; [|done]. exists world. simpl. split; [|done].
  by destruct (worlds !! joint) as [[]|]; simplify_eq/=.
Qed.

Lemma skins_accepted skins worlds : ensures (collect_skins skins worlds)
  (λ l, Forall (skin_ok worlds) l ∧ sk_joints <$> l = gk_joints <$> skins).
Proof.
  intros l E. revert l E. unfold collect_skins. induction skins as [|skin skins IH]; intros l; simpl; [by intros [= <-]|].
  intros (s & Es & (rest & Er & [= <-])%bind_Ok)%bind_Ok. destruct (IH _ Er) as [Hr Hj].
  unfold collect_skin in Es. destruct (_ || _) eqn:El; [done|]. apply orb_false_iff in El as [L1%Nat.eqb_neq L2%Nat.ltb_ge].
  apply bind_Ok in Es as ([] & _ & Es). apply bind_Ok in Es as (inverse & _ & Es). destruct (negb _) eqn:En; [done|].
  apply negb_false_iff, Nat.eqb_eq in En. apply bind_Ok in Es as ([] & Hc & [= <-]). apply check_joints_ok in Hc.
  split; [constructor; [|done]|by rewrite !fmap_cons, Hj]. split; simpl; [lia|done|]. intros k joint inv Hj' Hi.
  rewrite Forall_forall in Hc. apply (Hc (joint, inv)). apply list_elem_of_lookup. exists k. by apply lookup_zip_with_Some; eauto.
Qed.
End skins_ok.

(** ** An accessor *)

Module AccessorDemo.
(** Four positions with a stride of sixteen bytes, one of them replaced. *)
Definition view : View := {| v_index := 0; v_offset := 8; v_length := 60; v_stride := Some 16; v_buffer_length := 96 |}.
Definition packed (index : nat) (offset length : Z) : View :=
  {| v_index := index; v_offset := offset; v_length := length; v_stride := None; v_buffer_length := 96 |}.
Definition sparse : Sparse :=
  {| sp_count := 1; sp_indices_view := packed 1 68 2; sp_indices_offset := 0; sp_index_size := 2; sp_values_view := packed 2 72 12;
     sp_values_offset := 0 |}.
Definition accessor : Accessor :=
  {| ac_count := 4; ac_offset := 0; ac_size := 12; ac_view := Some view; ac_sparse := Some sparse; ac_data_type := F32;
     ac_dimensions := DVec3; ac_normalized := false |}.
End AccessorDemo.

Lemma accessor_reads_inside_witness :
  validate_accessor_iteration AccessorDemo.accessor "POSITION" = Ok () ∧
  0 ≤ v_offset AccessorDemo.view + 48 ∧ v_offset AccessorDemo.view + 48 + 12 ≤ 96.
Proof.
  destruct (accessor_reads_inside AccessorDemo.accessor "POSITION" 96) as [_ Hin].
  - split; try (intros ? [= <-]); try (unfold in_u64, u64_max; simpl; lia).
    + split; try (intros ? [= <-]); unfold in_u64, u64_max; simpl; lia.
    + split_and!; try (unfold in_u64, u64_max; simpl; lia); split; try (intros ? [=]); unfold in_u64, u64_max; simpl; lia.
  - assert (validate_accessor_iteration AccessorDemo.accessor "POSITION" = Ok ()) as Hv by reflexivity. split; [exact Hv|].
    refine (Hin Hv AccessorDemo.view 48 12 _ _ _).
    + refine (read_base AccessorDemo.accessor AccessorDemo.view 3 _ _); [reflexivity|simpl; lia].
    + reflexivity.
    + split; try (intros ? [= <-]); unfold in_u64, u64_max; simpl; lia.
Defined.
