(* ===== verification/VrmAnimation.v ===== *)
(** * Animation clips (skid-monitor-fe, vrm/animation.rs)

    Node transforms, the decoding and validation of the animation clips of a
    model or of a VRMA file with their retargeting, sampling between
    keyframes, and the mixer that plays several clips with a cross-fade.  What
    the gltf crate reads of a channel is data, glam's vectors, quaternions and
    matrices are the interface [GlamPose]; single precision arithmetic is
    IEEE 754.  An index out of range or an underflow, where Rust panics, is
    [None]. *)

From S2P Require Import Prelude RustStr Otlp RustFloat FeProfile Json VrmJson VrmGlb VrmOrder VrmGraph VrmBuffers.

Definition MAX_ANIMATION_CHANNELS : nat := 1024.
Definition MAX_ANIMATION_KEYFRAMES : Z := 1000000.
Definition MAX_ANIMATION_CLIPS : nat := 64.
Definition MAX_TOTAL_ANIMATION_KEYFRAMES : Z := 2000000.
Definition MAX_ANIMATION_DURATION_SECONDS : f32 := f32_of_Z (24 * 60 * 60).

(** ** glam *)

(** [Vec4] and [Quat], which convert into each other component by component. *)
Record Vec4 := { x4 : f32; y4 : f32; z4 : f32; w4 : f32 }.
Definition vec4_finite (v : Vec4) : bool := is_finite (x4 v) && is_finite (y4 v) && is_finite (z4 v) && is_finite (w4 v).

Class GlamPose := {
  v3_add : Vec3 → Vec3 → Vec3;
  v3_sub : Vec3 → Vec3 → Vec3;
  v3_scale : Vec3 → f32 → Vec3;
  v3_lerp : Vec3 → Vec3 → f32 → Vec3;
  abs_min_element : Vec3 → f32;
  v4_add : Vec4 → Vec4 → Vec4;
  v4_scale : Vec4 → f32 → Vec4;
  v4_length_squared : Vec4 → f32;
  v4_normalize : Vec4 → Vec4;
  quat_mul : Vec4 → Vec4 → Vec4;
  quat_inverse : Vec4 → Vec4;
  quat_normalize : Vec4 → Vec4;
  quat_slerp : Vec4 → Vec4 → f32 → Vec4;
}.

(** ** NodeTransform *)

Record NodeTransform := { translation : Vec3; rotation : Vec4; scale : Vec3 }.
Definition set_translation (v : Vec3) (t : NodeTransform) := {| translation := v; rotation := rotation t; scale := scale t |}.
Definition set_rotation (v : Vec4) (t : NodeTransform) := {| translation := translation t; rotation := v; scale := scale t |}.
Definition set_scale (v : Vec3) (t : NodeTransform) := {| translation := translation t; rotation := rotation t; scale := v |}.

Record RetargetTarget := {
  rt_node : nat;
  source_rest : NodeTransform;
  target_rest : NodeTransform;
  translation_scale : f32;
  hips : bool;
}.

(** ** Clips *)

Inductive Interpolation := Linear | Step | CubicSpline.
Inductive Property := Translation | Rotation | Scale | MorphTargetWeights.
#[global] Instance Interpolation_eq_dec : EqDecision Interpolation.
Proof. solve_decision. Defined.
#[global] Instance Property_eq_dec : EqDecision Property.
Proof. solve_decision. Defined.

Inductive AnimationValues := VTranslation (l : list Vec3) | VRotation (l : list Vec4) | VScale (l : list Vec3).
Record AnimationChannel := {
  ch_target : nat;
  ch_interpolation : Interpolation;
  ch_times : list f32;
  ch_values : AnimationValues;
}.
Record CpuAnimationClip := { channels : list AnimationChannel; duration : f32; source_label : string }.

(** A channel of the document: its target, its sampler with both accessors,
    and what the crate's reader gives for them. *)
Inductive ReadOutputs :=
| Translations (l : list Vec3) | Rotations (l : list Vec4) | Scales (l : list Vec3) | MorphWeights (l : list f32).
Record GltfChannel := {
  gc_node : nat;
  gc_property : Property;
  gc_interpolation : Interpolation;
  gc_input : Accessor;
  gc_output : Accessor;
  gc_inputs : option (list f32);
  gc_outputs : option ReadOutputs;
}.

Section decode.
Context `{GlamPose}.

Definition from_node (index : nat) (t : Vec3) (r : Vec4) (s : Vec3) : result string NodeTransform :=
  if negb (vec3_all is_finite t) || negb (vec4_finite r) || SFleb (v4_length_squared r) F32_EPSILON ||
     negb (vec3_all is_finite s) || SFleb (abs_min_element s) F32_EPSILON
  then Err ("VRM node " +:+ usize_text index +:+ " has an invalid decomposed transform")
  else Ok {| translation := t; rotation := quat_normalize r; scale := s |}.

Definition is_cubic (i : Interpolation) : bool := bool_decide (i = CubicSpline).
(** [!cubic || index % 3 == 1]: the value is a key and not a tangent. *)
Definition is_key (i : Interpolation) (index : nat) : bool := negb (is_cubic i) || (index mod 3 =? 1)%nat.

Fixpoint increasing (times : list f32) : bool :=
  match times with
  | a :: ((b :: _) as times) => negb (negb (is_finite b) || SFleb b a) && increasing times
  | _ => true
  end.
Definition validate_times (times : list f32) : result string () :=
  match times with
  | [] => Err "animation input accessor must not be empty"
  | first :: _ =>
    if SFltb first f32_0 || negb (is_finite first) then Err "animation keyframe times must be finite and non-negative"
    else if negb (increasing times) then Err "animation keyframe times must be strictly increasing"
    else Ok ()
  end.

Definition validate_vec3_values (values : list Vec3) (label : string) : result string () :=
  if forallb (vec3_all is_finite) values then Ok () else Err ("animation " +:+ label +:+ " contains NaN or infinity").

Fixpoint any_from {A} (p : nat → A → bool) (index : nat) (l : list A) : bool :=
  match l with [] => false | a :: l => p index a || any_from p (S index) l end.
Definition validate_scales (values : list Vec3) (interpolation : Interpolation) : result string () :=
  _ ← validate_vec3_values values "scale";
  if any_from (λ index value, is_key interpolation index && SFleb (abs_min_element value) F32_EPSILON) 0 values
  then Err "animation scale contains a zero component"
  else Ok ().

(** A loop over [values.iter_mut().enumerate()]. *)
Fixpoint try_map_from {A} (f : nat → A → result string A) (index : nat) (l : list A) : result string (list A) :=
  match l with
  | [] => Ok []
  | a :: l => b ← f index a; rest ← try_map_from f (S index) l; Ok (b :: rest)
  end.
Definition validate_rotation (interpolation : Interpolation) (index : nat) (value : Vec4) : result string Vec4 :=
  if negb (vec4_finite value) then Err "animation rotation contains NaN or infinity"
  else if is_key interpolation index then
    if SFleb (v4_length_squared value) F32_EPSILON then Err "animation rotation key is a zero quaternion"
    else Ok (v4_normalize value)
  else Ok value.
Definition validate_rotations (values : list Vec4) (interpolation : Interpolation) : result string (list Vec4) :=
  try_map_from (validate_rotation interpolation) 0 values.

Definition retarget_translation (interpolation : Interpolation) (target : RetargetTarget) (index : nat) (value : Vec3) : Vec3 :=
  if is_cubic interpolation && negb (index mod 3 =? 1)%nat then v3_scale value (translation_scale target)
  else v3_add (translation (target_rest target))
         (v3_scale (v3_sub value (translation (source_rest target))) (translation_scale target)).
Definition retarget_translations (values : list Vec3) (interpolation : Interpolation) (target : RetargetTarget) : list Vec3 :=
  imap (retarget_translation interpolation target) values.

Definition retarget_rotation (interpolation : Interpolation) (target : RetargetTarget) (index : nat) (value : Vec4)
    : result string Vec4 :=
  let offset := quat_mul (rotation (target_rest target)) (quat_inverse (rotation (source_rest target))) in
  let value := quat_mul offset value in
  if is_key interpolation index then
    if SFleb (v4_length_squared value) F32_EPSILON || negb (vec4_finite value)
    then Err "retargeted animation rotation is invalid"
    else Ok (v4_normalize value)
  else Ok value.
Definition retarget_rotations (values : list Vec4) (interpolation : Interpolation) (target : RetargetTarget)
    : result string (list Vec4) :=
  try_map_from (retarget_rotation interpolation target) 0 values.

(** Where a channel goes: [None] when it is skipped. *)
Definition channel_target (active_nodes : option (list bool)) (retarget : option (gmap nat RetargetTarget)) (c : GltfChannel)
    : result string (option (nat * option RetargetTarget)) :=
  match retarget with
  | Some retarget =>
    match retarget !! gc_node c with
    | None => Ok None
    | Some target =>
      if bool_decide (gc_property c = Scale) then Err "VRMA humanoid animation must not contain scale channels"
      else if bool_decide (gc_property c = Translation) && negb (hips target)
      then Err "VRMA humanoid animation may translate only the hips bone"
      else Ok (Some (rt_node target, Some target))
    end
  | None =>
    if bool_decide (active_nodes ≫= (.!! gc_node c) = Some true) then Ok (Some (gc_node c, None)) else Ok None
  end.

Definition property_key (p : Property) : nat :=
  match p with Translation => 0 | Rotation => 1 | Scale => 2 | MorphTargetWeights => 3 end.

Definition check_input (c : GltfChannel) : result string () :=
  _ ← validate_accessor_iteration (gc_input c) "animation input";
  if negb (bool_decide (ac_data_type (gc_input c) = F32)) || negb (bool_decide (ac_dimensions (gc_input c) = Scalar)) ||
     ac_normalized (gc_input c)
  then Err "animation input accessor must be non-normalized F32 SCALAR"
  else Ok ().

Definition check_output (c : GltfChannel) (times : list f32) : result string () :=
  _ ← validate_accessor_iteration (gc_output c) "animation output";
  let multiplier := if is_cubic (gc_interpolation c) then 3 else 1 in
  expected ← ok_or (checked_mul (zlen times) multiplier) "animation output count overflowed";
  if negb (ac_count (gc_output c) =? expected)
  then Err ("animation output count " +:+ u64_to_string (ac_count (gc_output c)) +:+ " does not match " +:+
            u64_to_string expected +:+ " values required by its input")
  else Ok ().

Definition channel_values (c : GltfChannel) (target : option RetargetTarget) (outputs : ReadOutputs)
    : result string AnimationValues :=
  match gc_property c, outputs with
  | Translation, Translations values =>
    _ ← validate_vec3_values values "translation";
    Ok (VTranslation (match target with Some t => retarget_translations values (gc_interpolation c) t | None => values end))
  | Rotation, Rotations values =>
    values ← validate_rotations values (gc_interpolation c);
    values ← match target with Some t => retarget_rotations values (gc_interpolation c) t | None => Ok values end;
    Ok (VRotation values)
  | Scale, Scales values => _ ← validate_scales values (gc_interpolation c); Ok (VScale values)
  | _, _ => Err "animation output accessor does not match its target property"
  end.

(** [retarget.is_some()] *)
Definition is_vrma (retarget : option (gmap nat RetargetTarget)) : bool := match retarget with Some _ => true | None => false end.

(** The locals of [decode_clip]. *)
Record ClipState := {
  cs_channels : list AnimationChannel;
  cs_keyframes : Z;
  cs_duration : f32;
  cs_targets : gset (nat * nat);
}.
Definition clip_start : ClipState := {| cs_channels := []; cs_keyframes := 0; cs_duration := f32_0; cs_targets := ∅ |}.

(** One turn of the loop over the channels. *)
Definition decode_channel (active_nodes : option (list bool)) (retarget : option (gmap nat RetargetTarget))
    (st : ClipState) (c : GltfChannel) : result string ClipState :=
  if (MAX_ANIMATION_CHANNELS <=? length (cs_channels st))%nat
  then Err ("animation has more than " +:+ usize_text MAX_ANIMATION_CHANNELS +:+ " supported channels")
  else if bool_decide (gc_property c = MorphTargetWeights) then Ok st
  else
  target ← channel_target active_nodes retarget c;
  match target with
  | None => Ok st
  | Some (target_node, retarget_target) =>
    let key := (target_node, property_key (gc_property c)) in
    if bool_decide (key ∈ cs_targets st)
    then Err ("animation targets node " +:+ usize_text target_node +:+ " property " +:+ usize_text key.2 +:+ " more than once")
    else
    _ ← check_input c;
    keyframes ← ok_or (checked_add (cs_keyframes st) (ac_count (gc_input c))) "animation keyframe count overflowed";
    if MAX_ANIMATION_KEYFRAMES <? keyframes
    then Err ("animation has more than " +:+ u64_to_string MAX_ANIMATION_KEYFRAMES +:+ " keyframes")
    else
    times ← ok_or (gc_inputs c) "animation input data could not be decoded";
    _ ← validate_times times;
    let duration := f32_max (cs_duration st) (List.last times f32_0) in
    _ ← check_output c times;
    outputs ← ok_or (gc_outputs c) "animation output data could not be decoded";
    values ← channel_values c retarget_target outputs;
    Ok {| cs_channels := cs_channels st ++ [{| ch_target := target_node; ch_interpolation := gc_interpolation c;
                                              ch_times := times; ch_values := values |}];
          cs_keyframes := keyframes; cs_duration := duration; cs_targets := {[key]} ∪ cs_targets st |}
  end.
Fixpoint decode_channels (active_nodes : option (list bool)) (retarget : option (gmap nat RetargetTarget))
    (cs : list GltfChannel) (st : ClipState) : result string ClipState :=
  match cs with
  | [] => Ok st
  | c :: cs => st ← decode_channel active_nodes retarget st c; decode_channels active_nodes retarget cs st
  end.

Definition decode_clip (animation : list GltfChannel) (active_nodes : option (list bool))
    (retarget : option (gmap nat RetargetTarget)) : result string (option CpuAnimationClip) :=
  st ← decode_channels active_nodes retarget animation clip_start;
  if (length (cs_channels st) =? 0)%nat then Ok None
  else if negb (is_finite (cs_duration st)) || SFltb MAX_ANIMATION_DURATION_SECONDS (cs_duration st)
  then Err "animation duration must not exceed 86400 seconds"
  else Ok (Some {| channels := cs_channels st; duration := cs_duration st;
                   source_label := if is_vrma retarget then "VRMA" else "embedded glTF" |}).

Fixpoint count_keyframes (total : Z) (cs : list AnimationChannel) : option Z :=
  match cs with
  | [] => Some total
  | c :: cs => checked_add total (zlen (ch_times c)) ≫= (λ total, count_keyframes total cs)
  end.
Definition validate_clip_collection (clips : list CpuAnimationClip) : result string () :=
  if (MAX_ANIMATION_CLIPS <? length clips)%nat
  then Err ("animation input has more than " +:+ usize_text MAX_ANIMATION_CLIPS +:+ " clips")
  else
  total ← ok_or (count_keyframes 0 (List.concat (channels <$> clips))) "animation keyframe count overflowed";
  if MAX_TOTAL_ANIMATION_KEYFRAMES <? total
  then Err ("animation input has more than " +:+ u64_to_string MAX_TOTAL_ANIMATION_KEYFRAMES +:+ " total keyframes")
  else Ok ().

Definition decode_clips (animations : list (list GltfChannel)) (active_nodes : option (list bool))
    (retarget : option (gmap nat RetargetTarget)) : result string (list CpuAnimationClip) :=
  decoded ← try_map (λ a, decode_clip a active_nodes retarget) animations;
  let clips := omap id decoded in
  _ ← validate_clip_collection clips;
  if (length clips =? 0)%nat && is_vrma retarget
  then Err "VRMA contains no humanoid skeletal animation clips"
  else Ok clips.
End decode.

(** ** Sampling *)

(** [f32 % f32], which is exact, and [f32::rem_euclid]. *)
Definition f32_rem (x y : f32) : f32 :=
  match x, y with
  | S754_nan, _ | _, S754_nan | S754_infinity _, _ | _, S754_zero _ => S754_nan
  | S754_zero _, _ | _, S754_infinity _ => x
  | S754_finite s m e, S754_finite _ n k =>
    let low := Z.min e k in
    let r := (Zpos m * 2 ^ (e - low)) `mod` (Zpos n * 2 ^ (k - low)) in
    binary_normalize 24 128 (cond_Zopp s r) low s
  end.
Definition rem_euclid (x y : f32) : f32 := let r := f32_rem x y in if SFltb r f32_0 then f32_add r (SFabs y) else r.

(** [times.partition_point(|key| *key <= time)] of increasing times. *)
Fixpoint partition_point (time : f32) (times : list f32) : nat :=
  match times with
  | key :: times => if SFleb key time then S (partition_point time times) else 0
  | [] => 0
  end.

Definition sample_interval (times : list f32) (time : f32) : option (nat * nat * f32 * f32) :=
  first ← times !! 0%nat;
  if (length times =? 1)%nat || SFleb time first then Some (0%nat, 0%nat, f32_0, f32_0)
  else
  let upper := partition_point time times in
  if (length times <=? upper)%nat then let last := (length times - 1)%nat in Some (last, last, f32_0, f32_0)
  else
  match upper with
  | O => None
  | S lo =>
    high ← times !! upper;
    low ← times !! lo;
    let span := f32_sub high low in
    Some (lo, upper, f32_div (f32_sub time low) span, span)
  end.

Section sample.
Context `{GlamPose}.

(** The coefficients of the cubic: of both points and both tangents. *)
Definition hermite (t : f32) : f32 * f32 * f32 * f32 :=
  let n := f32_of_Z in
  let t2 := f32_mul t t in
  let t3 := f32_mul t2 t in
  (f32_add (f32_sub (f32_mul (n 2) t3) (f32_mul (n 3) t2)) (n 1),
   f32_add (f32_sub t3 (f32_mul (n 2) t2)) t,
   f32_add (f32_mul (n (-2)) t3) (f32_mul (n 3) t2),
   f32_sub t3 t2).
Definition hermite_vec3 (p0 m0 p1 m1 : Vec3) (t : f32) : Vec3 :=
  let '(a, b, c, d) := hermite t in v3_add (v3_add (v3_add (v3_scale p0 a) (v3_scale m0 b)) (v3_scale p1 c)) (v3_scale m1 d).
Definition cubic_vec3 (values : list Vec3) (lo hi : nat) (t span : f32) : option Vec3 :=
  p0 ← values !! (lo * 3 + 1)%nat;
  m0 ← values !! (lo * 3 + 2)%nat;
  p1 ← values !! (hi * 3 + 1)%nat;
  m1 ← values !! (hi * 3)%nat;
  Some (hermite_vec3 p0 (v3_scale m0 span) p1 (v3_scale m1 span) t).
Definition cubic_vec4 (values : list Vec4) (lo hi : nat) (t span : f32) : option Vec4 :=
  p0 ← values !! (lo * 3 + 1)%nat;
  m0 ← values !! (lo * 3 + 2)%nat;
  p1 ← values !! (hi * 3 + 1)%nat;
  m1 ← values !! (hi * 3)%nat;
  let '(a, b, c, d) := hermite t in
  Some (v4_add (v4_add (v4_add (v4_scale p0 a) (v4_scale (v4_scale m0 span) b)) (v4_scale p1 c)) (v4_scale (v4_scale m1 span) d)).

Definition sample_vec3 (times : list f32) (values : list Vec3) (interpolation : Interpolation) (time : f32) : option Vec3 :=
  interval ← sample_interval times time;
  let '(lo, hi, factor, span) := interval in
  match interpolation with
  | Step => values !! lo
  | Linear => a ← values !! lo; b ← values !! hi; Some (v3_lerp a b factor)
  | CubicSpline => cubic_vec3 values lo hi factor span
  end.
Definition sample_rotation (times : list f32) (values : list Vec4) (interpolation : Interpolation) (time : f32) : option Vec4 :=
  interval ← sample_interval times time;
  let '(lo, hi, factor, span) := interval in
  match interpolation with
  | Step => a ← values !! lo; Some (quat_normalize a)
  | Linear => a ← values !! lo; b ← values !! hi; Some (quat_normalize (quat_slerp a b factor))
  | CubicSpline => v ← cubic_vec4 values lo hi factor span; Some (v4_normalize v)
  end.

(** ** CpuAnimationClip::apply *)

Definition apply_channel (time : f32) (c : AnimationChannel) (transforms : list NodeTransform) : option (list NodeTransform) :=
  match transforms !! ch_target c with
  | None => Some transforms
  | Some t =>
    t ← match ch_values c with
        | VTranslation values =>
          v ← sample_vec3 (ch_times c) values (ch_interpolation c) time; Some (set_translation v t)
        | VRotation values =>
          v ← sample_rotation (ch_times c) values (ch_interpolation c) time; Some (set_rotation v t)
        | VScale values => v ← sample_vec3 (ch_times c) values (ch_interpolation c) time; Some (set_scale v t)
        end;
    Some (<[ch_target c := t]> transforms)
  end.
Fixpoint apply_channels (time : f32) (cs : list AnimationChannel) (transforms : list NodeTransform) : option (list NodeTransform) :=
  match cs with
  | [] => Some transforms
  | c :: cs => transforms ← apply_channel time c transforms; apply_channels time cs transforms
  end.
Definition sample_time_of (clip : CpuAnimationClip) (time : f32) : f32 :=
  if SFltb F32_EPSILON (duration clip) then rem_euclid time (duration clip) else f32_0.
Definition apply_clip (clip : CpuAnimationClip) (time : f32) (transforms : list NodeTransform) : option (list NodeTransform) :=
  apply_channels (sample_time_of clip time) (channels clip) transforms.

(** ** The mixer *)

Definition at_mod {A} (l : list A) (i : nat) : option A := l !! (i mod length l)%nat.

(** The fade out of every clip into the next one, and the time each clip has
    to itself. *)
Definition outgoing_fades (crossfade_seconds : f32) (durations : list f32) : list f32 :=
  imap (λ index d, f32_min (f32_min (f32_max crossfade_seconds f32_0) (f32_mul d (f32_lit 1 2)))
                     (f32_mul (default d (at_mod durations (S index))) (f32_lit 1 2))) durations.
Definition incoming_fade (fades : list f32) (index : nat) : f32 :=
  default f32_0 (at_mod fades (index + length fades - 1)).
Definition segment_durations (durations fades : list f32) : list f32 :=
  imap (λ index d, f32_sub d (incoming_fade fades index)) durations.

(** The loop that finds the clip that plays: its index and the time in its
    segment; the last clip when rounding leaves a rest. *)
Fixpoint find_segment (index : nat) (cursor : f32) (segments : list f32) : nat * f32 :=
  match segments with
  | [] => ((index - 1)%nat, cursor)
  | d :: segments => if SFltb cursor d then (index, cursor) else find_segment (S index) (f32_sub cursor d) segments
  end.

Definition mix_transform (factor : f32) (from to : NodeTransform) : NodeTransform :=
  {| translation := v3_lerp (translation from) (translation to) factor;
     rotation := quat_normalize (quat_slerp (rotation from) (rotation to) factor);
     scale := v3_lerp (scale from) (scale to) factor |}.

Definition apply_mixed (clips : list CpuAnimationClip) (time crossfade_seconds : f32) (transforms : list NodeTransform)
    : option (list NodeTransform) :=
  match clips with
  | [] => Some transforms
  | [first] => apply_clip first time transforms
  | _ =>
    let durations := (λ clip, f32_max (duration clip) (f32_lit 1 60)) <$> clips in
    let fades := outgoing_fades crossfade_seconds durations in
    let segments := segment_durations durations fades in
    let total_duration := foldl f32_add (S754_zero true) segments in
    let '(active_index, cursor) := find_segment 0 (rem_euclid time total_duration) segments in
    active ← clips !! active_index;
    next ← at_mod clips (S active_index);
    fade ← fades !! active_index;
    length_of ← durations !! active_index;
    let sample_time := f32_add (incoming_fade fades active_index) cursor in
    let fade_start := f32_sub length_of fade in
    if SFleb fade F32_EPSILON || SFltb sample_time fade_start then apply_clip active sample_time transforms
    else
    active_pose ← apply_clip active sample_time transforms;
    let factor := f32_clamp (f32_div (f32_sub sample_time fade_start) fade) f32_0 f32_1 in
    next_pose ← apply_clip next (f32_mul factor fade) transforms;
    Some (zip_with (mix_transform factor) active_pose next_pose)
  end.
End sample.
