(* ===== verification/VrmFloat.v ===== *)
(** * Rounding in single precision

    The operations of an [f32] round to the nearest representable number.
    What playback needs of that: the value of a number, that the order of
    floats is the order of values, that sums and differences that stay small
    stay finite, and that a positive result is not rounded to zero.  Values
    are in units of [2 ^ -149], the smallest number there is. *)

From S2P Require Import Prelude RustStr Otlp RustFloat FeProfile Json VrmJson VrmBuffers VrmAnimation.

(** ** Rounding gives a number *)

Lemma iter_pos_ind {A} (P : A → Prop) (f : A → A) n x : (∀ y, P y → P (f y)) → P x → P (iter_pos f n x).
Proof. intros Hf. revert x. induction n as [n IH|n IH|]; intros x Hx; simpl; auto. Qed.

Lemma shr_nonneg m e l n : 0 ≤ m → 0 ≤ shr_m (shr (shr_record_of_loc m l) e n).1.
Proof.
  intros Hm. assert (0 ≤ shr_m (shr_record_of_loc m l)) by (by destruct l as [|[]]).
  destruct n as [|n|n]; simpl; [done| |done]. apply (iter_pos_ind (λ r, 0 ≤ shr_m r)); [|done].
  intros [[|[p|p|]|[p|p|]] r s] ?; simpl in *; lia.
Qed.

Lemma round_aux_number prec emax s m e l : 0 ≤ m → binary_round_aux prec emax s m e l ≠ S754_nan.
Proof.
  intros Hm. unfold binary_round_aux. destruct (shr_fexp prec emax m e l) as [r' e'] eqn:E1.
  assert (0 ≤ shr_m r') by (pose proof (shr_nonneg m e l (fexp prec emax (Zdigits2 m + e) - e) Hm) as Hr; unfold shr_fexp in E1; by rewrite E1 in Hr).
  set (m2 := round_nearest_even (shr_m r') (loc_of_shr_record r')). assert (0 ≤ m2).
  { unfold m2, round_nearest_even. destruct (loc_of_shr_record r') as [|[]]; [lia| |lia|lia]. destruct (Z.even _); lia. }
  destruct (shr_fexp prec emax m2 e' loc_Exact) as [r'' e''] eqn:E2.
  assert (0 ≤ shr_m r'') by (pose proof (shr_nonneg m2 e' loc_Exact (fexp prec emax (Zdigits2 m2 + e') - e') ltac:(done)) as Hr; unfold shr_fexp in E2; by rewrite E2 in Hr).
  destruct (shr_m r'') as [|p|p]; [done| |lia]. by case_match.
Qed.
Lemma normalize_number prec emax m e s : binary_normalize prec emax m e s ≠ S754_nan.
Proof.
  destruct m as [|m|m]; simpl; [done|..]; unfold binary_round; destruct (shl_align _ _ _); by apply round_aux_number.
Qed.

Lemma rem_number x y : is_finite x = true → y ≠ S754_nan → (∀ s, y ≠ S754_zero s) → f32_rem x y ≠ S754_nan.
Proof.
  intros Hx Hy Hz. destruct x as [| | |s m e], y as [s'|s'| |s' n k]; try done; try (by destruct (Hz s')). apply normalize_number.
Qed.
Lemma add_number x y : x ≠ S754_nan → is_finite y = true → f32_add x y ≠ S754_nan.
Proof.
  intros Hx Hy. destruct x as [s|s| |s m e], y as [s'|s'| |s' n k]; try done; try (by destruct s, s'). apply normalize_number.
Qed.
Lemma rem_euclid_number x y : is_finite x = true → is_finite y = true → (∀ s, y ≠ S754_zero s) → rem_euclid x y ≠ S754_nan.
Proof.
  intros Hx Hy Hz. unfold rem_euclid. assert (f32_rem x y ≠ S754_nan) by (apply rem_number; [done|by destruct y|done]).
  destruct (SFltb _ _); [|done]. apply add_number; [done|by destruct y].
Qed.

(** ** The order of numbers *)

Definition number (f : f32) : Prop := f ≠ S754_nan.

Lemma SFleb_total x y : number x → number y → SFleb x y = false → SFltb y x = true.
Proof.
  intros Hx Hy. unfold SFleb, SFltb. rewrite (SFcompare_swap x y). destruct (SFcompare x y) as [[]|] eqn:E; try done.
  by destruct x as [[|]|[|]| |[|] ? ?], y as [[|]|[|]| |[|] ? ?].
Qed.
Lemma SFltb_leb_trans x y z : SFltb x y = true → SFleb y z = true → SFleb x z = true.
Proof.
  unfold SFltb, SFleb. destruct x as [sx|sx| |sx mx ex], y as [sy|sy| |sy my ey], z as [sz|sz| |sz mz ez]; simpl; try done;
    try (by destruct sx); try (by destruct sy); try (by destruct sz); try (by destruct sx, sy); try (by destruct sx, sz); try (by destruct sy, sz);
    try (by destruct sx, sy, sz).
  all: try (destruct sx, sy; try done; destruct sz; try done;
    repeat match goal with |- context [Z.compare ?a ?b] => destruct (Z.compare_spec a b); subst; try done; try lia end;
    repeat match goal with |- context [Pos.compare_cont Eq ?a ?b] => change (Pos.compare_cont Eq a b) with (a ?= b)%positive;
      destruct (Pos.compare_spec a b); subst; simpl; try done; try lia end).
Qed.

Abbreviation valid f := (valid_binary 24 128 f = true).

(** ** Shifting a mantissa *)

Lemma iter_pos_nat {A} (f : A → A) p x : iter_pos f p x = Nat.iter (Pos.to_nat p) f x.
Proof.
  revert x. induction p as [p IH|p IH|]; intros x; cbn [iter_pos]; [| |done].
  - rewrite !IH, Pos2Nat.inj_xI, <- Nat.iter_succ_r, <- Nat.iter_add. f_equal. lia.
  - rewrite !IH, Pos2Nat.inj_xO, <- Nat.iter_add. f_equal. lia.
Qed.

(** What [n] steps leave: the quotient, and no rest only if it was exact. *)
Definition shifted (m : Z) (n : Z) (r : shr_record) : Prop :=
  shr_m r = m / 2 ^ n ∧ (loc_of_shr_record r = loc_Exact ↔ (m / 2 ^ n) * 2 ^ n = m).

Lemma shr_1_shifted m n r : 0 ≤ m → 0 ≤ n → shifted m n r → shifted m (n + 1) (shr_1 r).
Proof.
  intros Hm Hn [E1 E2]. destruct r as [q r s]. simpl in E1. assert (0 < 2 ^ n) by (apply Z.pow_pos_nonneg; lia).
  assert (0 ≤ m / 2 ^ n) by (by apply Z.div_pos). assert (m / 2 ^ (n + 1) = q / 2) as Eq.
  { rewrite E1, Z.div_div by lia. by rewrite Z.pow_add_r by lia. }
  assert (2 ^ (n + 1) = 2 * 2 ^ n) as Ep by (rewrite Z.pow_add_r by lia; lia).
  pose proof (Z.mul_div_le m (2 ^ n) ltac:(lia)) as Hle.
  unfold shifted. rewrite Eq, Ep. rewrite E1 in *. clear E1.
  assert (∀ a b, loc_of_shr_record {| shr_m := a; shr_r := false; shr_s := b |} = loc_Exact ↔ b = false) as Hs by (by intros a []).
  assert (∀ a b, loc_of_shr_record {| shr_m := a; shr_r := true; shr_s := b |} = loc_Exact ↔ False) as Hr by (by intros a []).
  assert (loc_of_shr_record {| shr_m := m / 2 ^ n; shr_r := r; shr_s := s |} = loc_Exact ↔ r || s = false) as Hrs by (by destruct r, s).
  rewrite Hrs in E2. destruct (m / 2 ^ n) as [|[p|p|]|p] eqn:Ed; simpl shr_1; [| | | |lia]; cbn [shr_m].
  - split; [done|]. rewrite Hs, E2. replace (0 / 2) with 0 by done. lia.
  - replace (Zpos p~1 / 2) with (Zpos p) by (apply (Z.div_unique _ 2 _ 1); lia). split; [done|]. rewrite Hr. split; [done|]. lia.
  - replace (Zpos p~0 / 2) with (Zpos p) by (apply (Z.div_unique _ 2 _ 0); lia). split; [done|]. rewrite Hs, E2. lia.
  - split; [done|]. rewrite Hr. replace (1 / 2) with 0 by done. split; [done|]. lia.
Qed.
Lemma shr_shifted m e n : 0 ≤ m → shifted m (Z.max n 0) (shr (shr_record_of_loc m loc_Exact) e n).1 ∧
  (shr (shr_record_of_loc m loc_Exact) e n).2 = e + Z.max n 0.
Proof.
  intros Hm. assert (shifted m 0 {| shr_m := m; shr_r := false; shr_s := false |}) as H0.
  { split; simpl; [by rewrite Z.div_1_r|]. rewrite Z.div_1_r. split; [lia|done]. }
  destruct n as [|p|p]; simpl; [split; [done|lia]| |split; [done|lia]]. split; [|lia].
  rewrite iter_pos_nat. replace (Zpos p) with (Z.of_nat (Pos.to_nat p)) by lia. generalize (Pos.to_nat p) as n. clear p.
  induction n as [|n IH]; [done|]. replace (Z.of_nat (S n)) with (Z.of_nat n + 1) by lia. simpl Nat.iter. rewrite Z.max_l in IH |- * by lia. by apply shr_1_shifted; [|lia|].
Qed.

(** ** Digits *)

Lemma Zdigits2_spec m : 0 < m → 1 ≤ Zdigits2 m ∧ 2 ^ (Zdigits2 m - 1) ≤ m < 2 ^ Zdigits2 m.
Proof. intros Hm. destruct m as [|p|p]; [lia| |lia]. simpl. split; [lia|apply digits2_bounds]. Qed.
Lemma digits_le m k : 0 < m → m < 2 ^ k → Zdigits2 m ≤ k.
Proof.
  intros Hm Hk. destruct (Zdigits2_spec m Hm) as (_ & L & _). apply Z.le_trans with (Z.succ (Zdigits2 m - 1)); [lia|].
  apply Z.le_succ_l, (Z.pow_lt_mono_r_iff 2); [lia| |lia]. destruct (Z.le_gt_cases 0 k); [done|]. rewrite Z.pow_neg_r in Hk by lia. lia.
Qed.
Lemma digits_ge m k : 0 < m → 0 ≤ k → 2 ^ k ≤ m → k < Zdigits2 m.
Proof.
  intros Hm H0 Hk. destruct (Zdigits2_spec m Hm) as (L1 & _ & L). apply (Z.pow_lt_mono_r_iff 2); lia.
Qed.
Lemma fexp_max x : fexp 24 128 x = Z.max (x - 24) (-149).
Proof. done. Qed.

(** ** Rounding *)

(** The mantissa cut to 24 digits, and the next one when it was not exact. *)
Definition cut (m : Z) : Z := Z.max (Zdigits2 m - 24) 0.
Lemma cut_mantissa m : 0 < m → 0 < m / 2 ^ cut m < 2 ^ 24 ∧ (0 < cut m → 2 ^ 23 ≤ m / 2 ^ cut m) ∧ (cut m = 0 → m / 2 ^ cut m = m).
Proof.
  intros Hm. destruct (Zdigits2_spec m Hm) as (L1 & L2 & L3). unfold cut. destruct (Z.max_spec (Zdigits2 m - 24) 0) as [[? ->]|[? ->]].
  - rewrite Z.pow_0_r, Z.div_1_r. split; [|done]. split; [done|]. eapply Z.lt_le_trans; [done|]. apply Z.pow_le_mono_r; lia.
  - assert (0 < 2 ^ (Zdigits2 m - 24)) by (apply Z.pow_pos_nonneg; lia).
    assert (2 ^ 23 ≤ m / 2 ^ (Zdigits2 m - 24)) as Hl.
    { apply Z.div_le_lower_bound; [done|]. rewrite <- Z.pow_add_r by lia. by replace (Zdigits2 m - 24 + 23) with (Zdigits2 m - 1) by lia. }
    split; [|split; [done|]].
    + split; [lia|]. apply Z.div_lt_upper_bound; [done|]. rewrite <- Z.pow_add_r by lia. by replace (Zdigits2 m - 24 + 24) with (Zdigits2 m) by lia.
    + intros ->. by rewrite Z.pow_0_r, Z.div_1_r.
Qed.

Record rounded (m e : Z) (m' e' : Z) : Prop := {
  rd_mantissa : 0 < m' < 2 ^ 24;
  rd_exponent : e ≤ e';
  rd_below k : e ≤ k → m ≤ 2 ^ (k - e) → e' ≤ k ∧ m' ≤ 2 ^ (k - e');
  rd_canonical : e ≤ fexp 24 128 (Zdigits2 m + e) → fexp 24 128 (Zdigits2 m' + e') = e';
  rd_exact : m < 2 ^ 24 → m' = m ∧ e' = e;
}.

Lemma round_half_up m l : round_nearest_even m l = m ∨ (round_nearest_even m l = m + 1 ∧ l ≠ loc_Exact).
Proof. destruct l as [|[]]; simpl; [by left| |by left|by right]. destruct (Z.even m); [by left|by right]. Qed.

Lemma cut_round_below m m2 e k : 0 < m → (m2 = m / 2 ^ cut m ∨ m2 = m / 2 ^ cut m + 1 ∧ m / 2 ^ cut m * 2 ^ cut m ≠ m) →
  e ≤ k → m ≤ 2 ^ (k - e) → e + cut m ≤ k ∧ m2 ≤ 2 ^ (k - (e + cut m)).
Proof.
  intros Hm H2 He Hk. assert (e + cut m ≤ k) as Hc.
  { unfold cut. destruct (Zdigits2_spec m Hm) as (L1 & L2 & _). assert (Zdigits2 m - 1 ≤ k - e); [|lia]. apply (Z.pow_le_mono_r_iff 2); lia. }
  split; [done|]. assert (0 ≤ cut m) by (unfold cut; lia). set (n := cut m) in *. assert (0 < 2 ^ n) by (apply Z.pow_pos_nonneg; lia).
  replace (k - e) with (k - (e + n) + n) in Hk by lia. rewrite Z.pow_add_r in Hk by lia. set (B := 2 ^ (k - (e + n))) in *.
  pose proof (Z.mul_div_le m (2 ^ n) ltac:(lia)). destruct H2 as [->|[-> Hn]]; nia.
Qed.

Lemma round_aux_spec s m e : 0 < m → -149 ≤ e → ∃ m' e', rounded m e (Zpos m') e' ∧
  binary_round_aux 24 128 s m e loc_Exact = if e' <=? 104 then S754_finite s m' e' else S754_infinity s.
Proof.
  intros Hm He. unfold binary_round_aux, shr_fexp. rewrite fexp_max.
  replace (Z.max (Zdigits2 m + e - 24) (-149) - e) with (Z.max (Zdigits2 m - 24) (-149 - e)) by lia.
  destruct (shr_shifted m e (Z.max (Zdigits2 m - 24) (-149 - e))) as [S1 E1]; [lia|]. destruct (shr _ _ _) as [r1 e1]. simpl in S1, E1.
  replace (Z.max (Z.max (Zdigits2 m - 24) (-149 - e)) 0) with (cut m) in S1, E1 by (unfold cut; lia). destruct S1 as [Q1 X1].
  destruct (cut_mantissa m Hm) as (B1 & B2 & B3). rewrite Q1. set (m2 := round_nearest_even _ _).
  assert (m2 = m / 2 ^ cut m ∨ m2 = m / 2 ^ cut m + 1 ∧ m / 2 ^ cut m * 2 ^ cut m ≠ m) as Hm2.
  { unfold m2. destruct (round_half_up (m / 2 ^ cut m) (loc_of_shr_record r1)) as [->|[-> Hl]]; [by left|right; split; [done|]]. by rewrite <- X1. }
  clearbody m2. assert (0 < m2 ≤ 2 ^ 24) as Bm2 by lia. subst e1. rewrite fexp_max.
  replace (Z.max (Zdigits2 m2 + (e + cut m) - 24) (-149) - (e + cut m)) with (Z.max (Zdigits2 m2 - 24) (-149 - (e + cut m))) by lia.
  destruct (shr_shifted m2 (e + cut m) (Z.max (Zdigits2 m2 - 24) (-149 - (e + cut m)))) as [S2 E2]; [lia|]. destruct (shr _ _ _) as [r2 e2].
  assert (0 ≤ cut m) by (unfold cut; lia).
  simpl in S2, E2. replace (Z.max (Z.max (Zdigits2 m2 - 24) (-149 - (e + cut m))) 0) with (cut m2) in S2, E2 by (change (cut m2) with (Z.max (Zdigits2 m2 - 24) 0); lia).
  destruct S2 as [Q2 _]. rewrite Q2. subst e2.
  assert ((m2 < 2 ^ 24 ∧ cut m2 = 0) ∨ (m2 = 2 ^ 24 ∧ cut m2 = 1)) as Hd.
  { destruct (decide (m2 = 2 ^ 24)) as [->|]; [by right|left]. split; [lia|]. unfold cut. pose proof (digits_le m2 24). lia. }
  assert (∀ k, e ≤ k → m ≤ 2 ^ (k - e) → e + cut m ≤ k ∧ m2 ≤ 2 ^ (k - (e + cut m))) as Hb by (intros k; by apply cut_round_below).
  destruct Hd as [[Hlt Hc]|[Hm2' Hc]]; rewrite Hc.
  - rewrite Z.pow_0_r, Z.div_1_r, Z.add_0_r. destruct m2 as [|q|q]; [lia| |lia]. exists q, (e + cut m). split; [|done].
    assert (cut m = 0 → Zpos q = m) as Hex.
    { intros Hz. rewrite (B3 Hz), Hz in Hm2. destruct Hm2 as [?|[? []]]; [done|]. rewrite Z.pow_0_r. lia. }
    split; [lia|lia|done| |intros Hs; assert (cut m = 0) by (unfold cut; pose proof (digits_le m 24); lia); split; [by apply Hex|lia]].
    intros Hcan. rewrite !fexp_max in *. destruct (Z.eq_dec (cut m) 0) as [Hz|Hz].
    + assert (Zdigits2 m ≤ 24) by (unfold cut in Hz; lia). rewrite (Hex Hz). lia.
    + assert (23 < Zdigits2 (Zpos q)) by (apply digits_ge; lia). pose proof (digits_le (Zpos q) 24). lia.
  - replace (m2 / 2 ^ 1) with 8388608 by (by rewrite Hm2'). exists 8388608%positive, (e + cut m + 1). split; [|done]. split; [lia|lia| | |].
    + intros k H1 H2. destruct (Hb k H1 H2) as [G1 G2]. rewrite Hm2' in G2. assert (24 ≤ k - (e + cut m)) by (by apply (Z.pow_le_mono_r_iff 2); [lia..|]).
      split; [lia|]. change 8388608 with (2 ^ 23). apply Z.pow_le_mono_r; lia.
    + intros _. rewrite fexp_max. simpl Zdigits2. lia.
    + intros Hs. assert (cut m = 0) as Hz by (unfold cut; pose proof (digits_le m 24); lia). rewrite (B3 Hz), Hz in Hm2. lia.
Qed.

(** ** Values *)

(** At most [2 ^ k]. *)
Definition small (k : Z) (f : f32) : Prop :=
  match f with
  | S754_zero _ => True
  | S754_finite _ m e => -149 ≤ e ≤ k ∧ Zpos m ≤ 2 ^ (k - e)
  | _ => False
  end.
Definition value (f : f32) : Z := match f with S754_finite s m e => cond_Zopp s (Zpos m * 2 ^ (e + 149)) | _ => 0 end.

Lemma small_finite k f : small k f → is_finite f = true.
Proof. by destruct f. Qed.
Lemma small_mono k l f : k ≤ l → small k f → small l f.
Proof.
  intros Hkl. destruct f as [| | |s m e]; simpl; try done. intros [He Hm]. split; [lia|]. etransitivity; [done|]. apply Z.pow_le_mono_r; lia.
Qed.
Lemma iter_xO m d : Zpos (Pos.iter xO m d) = Zpos m * 2 ^ Zpos d ∧ Zpos (digits2_pos (Pos.iter xO m d)) = Zpos (digits2_pos m) + Zpos d.
Proof.
  induction d as [|d [IH1 IH2]] using Pos.peano_ind; [simpl; lia|]. rewrite Pos.iter_succ. rewrite Pos2Z.inj_xO, IH1. split.
  - rewrite Pos2Z.inj_succ, Z.pow_succ_r by lia. lia.
  - simpl. rewrite Pos2Z.inj_succ, IH2. lia.
Qed.
(** A mantissa moved to a smaller exponent. *)
Lemma shl_align_spec m e e' : let r := shl_align m e e' in
  r.2 = Z.min e e' ∧ Zpos r.1 = Zpos m * 2 ^ (e - Z.min e e') ∧ Zpos (digits2_pos r.1) + r.2 = Zpos (digits2_pos m) + e.
Proof.
  unfold shl_align. destruct (e' - e) as [|d|d] eqn:E; simpl.
  - replace (Z.min e e') with e by lia. rewrite Z.sub_diag, Z.pow_0_r. lia.
  - replace (Z.min e e') with e by lia. rewrite Z.sub_diag, Z.pow_0_r. lia.
  - replace (Z.min e e') with e' by lia. destruct (iter_xO m d) as [-> ->]. replace (e - e') with (Zpos d) by lia. split_and!; [done..|lia].
Qed.

Lemma round_small s m e k : -149 ≤ e ≤ k → k ≤ 104 → Zpos m ≤ 2 ^ (k - e) →
  ∃ m' e', binary_round 24 128 s m e = S754_finite s m' e' ∧ small k (S754_finite s m' e') ∧ valid (S754_finite s m' e') ∧
    (Zpos m < 2 ^ 24 → Zpos m' * 2 ^ (e' + 149) = Zpos m * 2 ^ (e + 149)).
Proof.
  intros He Hk Hm. unfold binary_round. destruct (shl_align_spec m e (fexp 24 128 (Zpos (digits2_pos m) + e))) as (E1 & E2 & E3).
  destruct (shl_align _ _ _) as [mz ez]. simpl in E1, E2, E3. rewrite fexp_max in E1, E2.
  assert (-149 ≤ ez ≤ e) by lia. destruct (round_aux_spec s (Zpos mz) ez) as (m' & e' & R & ->); [done|lia|].
  destruct (rd_below _ _ _ _ R k) as [K1 K2]; [lia| |].
  { rewrite E2, <- E1. replace (k - ez) with (k - e + (e - ez)) by lia. rewrite Z.pow_add_r by lia. apply Z.mul_le_mono_nonneg_r; [|done].
    apply Z.pow_nonneg. lia. }
  assert ((e' <=? 104) = true) as -> by (apply Z.leb_le; lia). exists m', e'. pose proof (rd_exponent _ _ _ _ R).
  split; [done|]. split; [simpl; split; [lia|done]|]. split.
  2:{ intros Hs. destruct (rd_exact _ _ _ _ R) as [-> ->].
      - destruct (Zdigits2_spec (Zpos mz)) as (_ & _ & U); [done|]. simpl in U. eapply Z.lt_le_trans; [exact U|]. apply Z.pow_le_mono_r; [lia|].
        pose proof (digits_le (Zpos m) 24 ltac:(done) Hs) as Hd. simpl in Hd. lia.
      - rewrite E2, <- E1, <- Z.mul_assoc, <- Z.pow_add_r by lia. do 2 f_equal. lia. }
  unfold valid_binary, bounded, canonical_mantissa. apply andb_true_iff. split.
  - apply Z.eqb_eq. apply (rd_canonical _ _ _ _ R). rewrite fexp_max. simpl Zdigits2. rewrite E3. lia.
  - apply Z.leb_le. change (128 - 24) with 104. lia.
Qed.
Lemma normalize_small m e s k : -149 ≤ e ≤ k → k ≤ 104 → Z.abs m ≤ 2 ^ (k - e) →
  small k (binary_normalize 24 128 m e s) ∧ valid (binary_normalize 24 128 m e s) ∧ Z.sgn (value (binary_normalize 24 128 m e s)) = Z.sgn m ∧
  (Z.abs m < 2 ^ 24 → value (binary_normalize 24 128 m e s) = m * 2 ^ (e + 149)).
Proof.
  intros He Hk Hm. destruct m as [|m|m]; [done|..]; simpl binary_normalize.
  - destruct (round_small false m e k) as (m' & e' & -> & Hs & Hv & Hx); [done..|]. split; [done|]. split; [done|]. simpl in Hs |- *.
    split; [|done]. apply Z.sgn_pos. apply Z.mul_pos_pos; [lia|]. apply Z.pow_pos_nonneg; lia.
  - destruct (round_small true m e k) as (m' & e' & -> & Hs & Hv & Hx); [done..|]. split; [done|]. split; [done|]. simpl in Hs |- *.
    split; [|intros Ha; rewrite Hx by done; lia]. apply Z.sgn_neg. apply Z.opp_neg_pos, Z.mul_pos_pos; [lia|]. apply Z.pow_pos_nonneg; lia.
Qed.

Lemma normalize_signed m e s k : -149 ≤ e ≤ k → k ≤ 104 → Z.abs m ≤ 2 ^ (k - e) →
  small k (binary_normalize 24 128 m e s) ∧ valid (binary_normalize 24 128 m e s) ∧ Z.sgn (value (binary_normalize 24 128 m e s)) = Z.sgn m.
Proof. intros He Hk Hm. destruct (normalize_small m e s k He Hk Hm) as (? & ? & ? & _). done. Qed.

(** ** Sums and differences *)

Lemma cond_Zopp_mul s a b : cond_Zopp s (a * b) = cond_Zopp s a * b.
Proof. destruct s; simpl; lia. Qed.
Lemma cond_Zopp_abs s a : Z.abs (cond_Zopp s a) = Z.abs a.
Proof. destruct s; simpl; lia. Qed.

(** Both mantissas at the smaller exponent. *)
Lemma aligned s m e ez k : -149 ≤ ez → ez ≤ e ≤ k → Zpos m ≤ 2 ^ (k - e) →
  let a := cond_Zopp s (Zpos (shl_align m e ez).1) in
  Z.abs a ≤ 2 ^ (k - ez) ∧ value (S754_finite s m e) = a * 2 ^ (ez + 149).
Proof.
  intros Hz He Hm. simpl. destruct (shl_align_spec m e ez) as (_ & -> & _). replace (Z.min e ez) with ez by lia. split.
  - rewrite cond_Zopp_abs. assert (0 < 2 ^ (e - ez)) by (apply Z.pow_pos_nonneg; lia).
    replace (k - ez) with (k - e + (e - ez)) by lia. rewrite Z.pow_add_r by lia. rewrite Z.abs_eq by lia. nia.
  - rewrite <- cond_Zopp_mul, <- Z.mul_assoc, <- Z.pow_add_r by lia. do 3 f_equal. lia.
Qed.
Lemma sgn_scaled a n : 0 ≤ n → Z.sgn (a * 2 ^ n) = Z.sgn a.
Proof. intros Hn. rewrite Z.sgn_mul, (Z.sgn_pos (2 ^ n)) by (apply Z.pow_pos_nonneg; lia). lia. Qed.

Lemma add_small k x y : small k x → small k y → valid x → valid y → k ≤ 103 →
  small (k + 1) (f32_add x y) ∧ valid (f32_add x y) ∧ Z.sgn (value (f32_add x y)) = Z.sgn (value x + value y).
Proof.
  intros Hx Hy Vx Vy Hk. destruct x as [sx| | |sx mx ex], y as [sy| | |sy my ey]; try done.
  - by destruct sx, sy.
  - split; [by eapply small_mono; [|exact Hy]; lia|done].
  - split; [by eapply small_mono; [|exact Hx]; lia|]. split; [done|]. f_equal. simpl. lia.
  - destruct Hx as [Ex Mx], Hy as [Ey My]. unfold f32_add, SFadd. set (ez := Z.min ex ey). assert (-149 ≤ ez ∧ ez ≤ ex ≤ k ∧ ez ≤ ey ≤ k) by lia.
    destruct (aligned sx mx ex ez k) as [Ax ->]; [lia..|done|]. destruct (aligned sy my ey ez k) as [Ay ->]; [lia..|done|].
    rewrite <- Z.mul_add_distr_r, sgn_scaled by lia. apply normalize_signed; [lia..|].
    replace (k + 1 - ez) with (Z.succ (k - ez)) by lia. rewrite Z.pow_succ_r by lia. lia.
Qed.

Lemma sub_small k x y : small k x → small k y → valid x → valid y → 0 ≤ value x → 0 ≤ value y → k ≤ 104 →
  small k (f32_sub x y) ∧ valid (f32_sub x y) ∧ Z.sgn (value (f32_sub x y)) = Z.sgn (value x - value y).
Proof.
  intros Hx Hy Vx Vy Px Py Hk. destruct x as [sx| | |sx mx ex], y as [sy| | |sy my ey]; try done.
  - by destruct sx, sy.
  - split; [done|]. split; [by destruct sy|]. simpl. by destruct sy; simpl; rewrite ?Z.opp_involutive.
  - split; [done|]. split; [done|]. f_equal. simpl. lia.
  - destruct Hx as [Ex Mx], Hy as [Ey My]. unfold f32_sub, SFsub. set (ez := Z.min ex ey). assert (-149 ≤ ez ∧ ez ≤ ex ≤ k ∧ ez ≤ ey ≤ k) by lia.
    assert (0 < 2 ^ (ez + 149)) by (apply Z.pow_pos_nonneg; lia).
    destruct (aligned sx mx ex ez k) as [Ax Vx']; [lia..|done|]. destruct (aligned sy my ey ez k) as [Ay Vy']; [lia..|done|].
    rewrite Vx', Vy' in *. rewrite <- Z.mul_sub_distr_r, sgn_scaled by lia. apply normalize_signed; [lia..|]. nia.
Qed.

(** ** The order *)

Lemma valid_value s m e : valid (S754_finite s m e) → value (S754_finite s m e) ≠ 0.
Proof. intros (He & _)%canonical_f32. simpl. assert (0 < 2 ^ (e + 149)) by (apply Z.pow_pos_nonneg; lia). destruct s; simpl; lia. Qed.
(** A larger exponent is a larger number. *)
Lemma exponent_lt s t m n e k : valid (S754_finite s m e) → valid (S754_finite t n k) → e < k → Zpos m * 2 ^ (e + 149) < Zpos n * 2 ^ (k + 149).
Proof.
  intros (He & Hm & _)%canonical_f32 (Hk & _ & Hn)%canonical_f32 Hlt. destruct Hn as [->|Hn]; [lia|].
  assert (0 < 2 ^ (e + 149)) by (apply Z.pow_pos_nonneg; lia). assert (2 * 2 ^ (e + 149) ≤ 2 ^ (k + 149)).
  { rewrite <- Z.pow_succ_r by lia. apply Z.pow_le_mono_r; lia. } nia.
Qed.
Lemma SFltb_value x y : valid x → valid y → is_finite x = true → is_finite y = true → SFltb x y = true ↔ value x < value y.
Proof.
  intros Vx Vy Fx Fy. unfold SFltb. destruct x as [sx| | |sx mx ex], y as [sy| | |sy my ey]; try done; simpl SFcompare.
  - apply canonical_f32 in Vy as (? & _). simpl. assert (0 < 2 ^ (ey + 149)) by (apply Z.pow_pos_nonneg; lia). destruct sy; simpl; split; try done; lia.
  - apply canonical_f32 in Vx as (? & _). simpl. assert (0 < 2 ^ (ex + 149)) by (apply Z.pow_pos_nonneg; lia). destruct sx; simpl; split; try done; lia.
  - pose proof (canonical_f32 _ _ _ Vx) as (? & _). pose proof (canonical_f32 _ _ _ Vy) as (? & _). simpl.
    assert (0 < 2 ^ (ex + 149)) by (apply Z.pow_pos_nonneg; lia). assert (0 < 2 ^ (ey + 149)) by (apply Z.pow_pos_nonneg; lia).
    change (Pos.compare_cont Eq mx my) with (mx ?= my)%positive. pose proof (exponent_lt _ _ _ _ _ _ Vx Vy) as L1. pose proof (exponent_lt _ _ _ _ _ _ Vy Vx) as L2.
    destruct sx, sy; simpl; [|split; [nia|done]|split; [done|nia]|];
      (destruct (Z.compare_spec ex ey) as [->|Hlt|Hlt]; [destruct (Pos.compare_spec mx my) as [->|Hm|Hm]|..]; simpl; split; try done; try nia).
    all: intros; first [specialize (L1 Hlt)|specialize (L2 Hlt)]; lia.
Qed.

(** ** The remainder *)

Lemma valid_small x : valid x → is_finite x = true → small 128 x.
Proof.
  intros V F. destruct x as [| | |s m e]; try done. pose proof (canonical_f32 _ _ _ V) as (He & Hm & _).
  unfold valid_binary, bounded in V. apply andb_true_iff in V as [_ V%Z.leb_le]. change (128 - 24) with 104 in V. simpl. split; [lia|].
  etransitivity; [apply Z.lt_le_incl, Hm|]. apply Z.pow_le_mono_r; lia.
Qed.

(** It is exact: its mantissa has no more digits than one of the two. *)
Lemma rem_small k x y : valid x → valid y → is_finite x = true → small k y → 0 < value y → k ≤ 104 →
  small k (f32_rem x y) ∧ valid (f32_rem x y) ∧ Z.abs (value (f32_rem x y)) < value y.
Proof.
  intros Vx Vy Fx Hy Py Hk. destruct y as [| | |t n q]; [done..|]. destruct x as [s| | |s m e]; try done. destruct Hy as [Eq Nq].
  pose proof (canonical_f32 _ _ _ Vx) as (Ee & Mm & _). pose proof (canonical_f32 _ _ _ Vy) as (_ & Nn & _). destruct t; [simpl in Py; lia|].
  unfold f32_rem. assert (low_spec : -149 ≤ Z.min e q ≤ e ∧ Z.min e q ≤ q ∧ (Z.min e q = e ∨ Z.min e q = q)) by lia.
  generalize dependent (Z.min e q). intros low low_spec. set (r := _ `mod` _).
  assert (0 < 2 ^ (e - low)) by (apply Z.pow_pos_nonneg; lia). assert (0 < 2 ^ (q - low)) by (apply Z.pow_pos_nonneg; lia).
  assert (0 < 2 ^ (low + 149)) by (apply Z.pow_pos_nonneg; lia).
  assert (0 ≤ r < Zpos n * 2 ^ (q - low)) as Hr by (apply Z.mod_pos_bound; lia).
  assert (r ≤ Zpos m * 2 ^ (e - low)) by (apply Z.mod_le; lia).
  assert (r < 2 ^ 24) as Hs.
  { assert (2 ^ (e - e) = 1 ∧ 2 ^ (q - q) = 1) as [P1 P2] by (by rewrite !Z.sub_diag).
    assert (low = e ∨ low = q) as [->| ->] by lia; [rewrite P1 in *|rewrite P2 in *]; lia. }
  assert (Zpos n * 2 ^ (q - low) ≤ 2 ^ (k - low)).
  { replace (k - low) with (k - q + (q - low)) by lia. rewrite Z.pow_add_r by lia. nia. }
  destruct (normalize_small (cond_Zopp s r) low s k) as (N1 & N2 & _ & N3); [lia|lia|rewrite cond_Zopp_abs; lia|].
  split; [done|]. split; [done|]. rewrite N3 by (rewrite cond_Zopp_abs; lia). rewrite Z.abs_mul, cond_Zopp_abs.
  rewrite (Z.abs_eq r), (Z.abs_eq (2 ^ _)) by lia. simpl value. replace (q + 149) with (q - low + (low + 149)) by lia. rewrite (Z.pow_add_r 2 (q - low)) by lia. nia.
Qed.
Lemma rem_euclid_small k x y : valid x → valid y → is_finite x = true → small k y → 0 < value y → k ≤ 103 →
  small (k + 1) (rem_euclid x y) ∧ valid (rem_euclid x y) ∧ 0 ≤ value (rem_euclid x y).
Proof.
  intros Vx Vy Fx Hy Py Hk. destruct (rem_small k x y) as (R1 & R2 & R3); [done..|lia|]. unfold rem_euclid.
  assert (SFabs y = y) as ->.
  { destruct y as [| | |[] n q]; try done. simpl in Py. pose proof (Z.pow_nonneg 2 (q + 149) ltac:(lia)). nia. }
  destruct (SFltb _ _) eqn:E.
  - apply SFltb_value in E; [|done..|by eapply small_finite|done]. simpl in E. destruct (add_small k (f32_rem x y) y) as (A1 & A2 & A3); [done..|].
    split; [done|]. split; [done|]. apply Z.sgn_nonneg. rewrite A3. apply Z.sgn_nonneg. lia.
  - split; [eapply small_mono; [|done]; lia|]. split; [done|]. assert (¬ value (f32_rem x y) < value f32_0) as Hn.
    { intros L%SFltb_value; [congruence|done..|by eapply small_finite|done]. } simpl in Hn. lia.
Qed.

(** ** Half of a number *)

Lemma half_small k x : valid x → small k x → k ≤ 104 → 2 ^ 143 ≤ value x →
  let h := f32_mul x (f32_lit 1 2) in small k h ∧ valid h ∧ 0 < value h < value x.
Proof.
  intros V Hs Hk Hv. assert (f32_lit 1 2 = S754_finite false 8388608 (-24)) as -> by vm_refl.
  destruct x as [| | |s m e]; [done..|]. destruct Hs as [Ee Me]. pose proof (canonical_f32 _ _ _ V) as (_ & Mm & Hn). simpl in Hv.
  assert (0 < 2 ^ (e + 149)) by (apply Z.pow_pos_nonneg; lia). destruct s; simpl in Hv; [lia|].
  assert (119 < e + 149) as He.
  { apply (Z.pow_lt_mono_r_iff 2); [lia..|]. assert (2 ^ 143 = 2 ^ 24 * 2 ^ 119) as Hp by done. nia. }
  destruct Hn as [->|Hn]; [lia|]. unfold f32_mul, SFmul. simpl xorb.
  destruct (round_aux_spec false (Zpos (m * 8388608)) (e + -24)) as (m' & e' & R & ->); [done|lia|].
  assert (Zpos (m * 8388608) = Zpos m * 2 ^ 23) as Em by lia. rewrite Em in R.
  assert (∀ j, 23 ≤ j → Zpos m ≤ 2 ^ j → e' ≤ j + e - 1 ∧ Zpos m' ≤ 2 ^ (j + e - 1 - e')) as Hb.
  { intros j Hj Hm. apply (rd_below _ _ _ _ R); [lia|]. replace (j + e - 1 - (e + -24)) with (j + 23) by lia. rewrite Z.pow_add_r by lia. lia. }
  pose proof (rd_exponent _ _ _ _ R) as Re.
  destruct (Hb 24) as [B1 B2]; [lia..|]. assert (24 ≤ k - e + 1) as Hke.
  { assert (23 ≤ k - e); [|lia]. apply (Z.pow_le_mono_r_iff 2); [lia..|]. etransitivity; [exact Hn|done]. }
  assert ((e' <=? 104) = true) as -> by (apply Z.leb_le; lia).
  assert (0 < 2 ^ (e' + 149)) by (apply Z.pow_pos_nonneg; lia). split_and!.
  - simpl. split; [lia|]. etransitivity; [exact B2|]. apply Z.pow_le_mono_r; lia.
  - unfold valid_binary, bounded, canonical_mantissa. apply andb_true_iff. split; [|apply Z.leb_le; change (128 - 24) with 104; lia].
    apply Z.eqb_eq, (rd_canonical _ _ _ _ R). rewrite fexp_max. assert (46 < Zdigits2 (Zpos m * 2 ^ 23)); [|lia]. apply digits_ge; lia.
  - simpl. lia.
  - simpl. assert (∀ j, e' ≤ j + e - 1 → 23 ≤ j → 2 ^ (j + e - 1 - e') * 2 ^ (e' + 149) = 2 ^ (j - 1) * 2 ^ (e + 149)) as Hp.
    { intros j H1 H2. rewrite <- !Z.pow_add_r by lia. f_equal. lia. }
    destruct (decide (Zpos m = 2 ^ 23)) as [Hm|Hm].
    + destruct (Hb 23) as [C1 C2]; [lia..|]. specialize (Hp 23 C1 ltac:(lia)). change (23 - 1) with 22 in Hp. assert (2 ^ 22 < 2 ^ 23) by done. nia.
    + specialize (Hp 24 B1 ltac:(lia)). change (24 - 1) with 23 in Hp. nia.
Qed.

(** ** Products and quotients *)

Lemma shr_fexp_24 m e : 0 ≤ m → let r := shr_fexp 24 128 m e loc_Exact in
  0 ≤ shr_m r.1 < 2 ^ 24 ∧ r.2 = Z.max e (fexp 24 128 (Zdigits2 m + e)).
Proof.
  intros Hm. unfold shr_fexp. destruct (shr_shifted m e (fexp 24 128 (Zdigits2 m + e) - e) Hm) as [[Q _] E].
  cbv zeta. rewrite Q, E. split; [|lia]. set (n := Z.max _ 0). assert (0 < 2 ^ n) by (apply Z.pow_pos_nonneg; lia). split; [by apply Z.div_pos|].
  apply Z.div_lt_upper_bound; [done|]. rewrite <- Z.pow_add_r by lia. destruct (decide (m = 0)) as [->|]; [apply Z.pow_pos_nonneg; lia|].
  destruct (Zdigits2_spec m) as (_ & _ & U); [lia|]. eapply Z.lt_le_trans; [exact U|]. apply Z.pow_le_mono_r; [lia|].
  unfold n. rewrite fexp_max. lia.
Qed.
Lemma round_even_nonneg m l : 0 ≤ m → 0 ≤ round_nearest_even m l ≤ m + 1.
Proof. intros Hm. destruct (round_half_up m l) as [->|[-> _]]; lia. Qed.

(** A rounded mantissa has at most 24 digits. *)
Lemma round_aux_shape s m e l s' m' e' : 0 ≤ m → binary_round_aux 24 128 s m e l = S754_finite s' m' e' → Zpos m' < 2 ^ 24 ∧ -149 ≤ e'.
Proof.
  intros Hm. unfold binary_round_aux. destruct (shr_fexp 24 128 m e l) as [r1 e1] eqn:E1.
  assert (0 ≤ shr_m r1) by (pose proof (shr_nonneg m e l (fexp 24 128 (Zdigits2 m + e) - e) Hm) as Hr; unfold shr_fexp in E1; by rewrite E1 in Hr).
  set (m2 := round_nearest_even _ _). destruct (shr_fexp_24 m2 e1) as [B E]; [by apply round_even_nonneg|].
  destruct (shr_fexp 24 128 m2 e1 loc_Exact) as [r2 e2]. simpl in B, E. rewrite fexp_max in E. destruct (shr_m r2) as [|p|p]; [done| |done].
  case_match; [|done]. intros [= _ <- <-]. lia.
Qed.
Lemma div_core_nonneg m e n k q e' l : SFdiv_core_binary 24 128 (Zpos m) e (Zpos n) k = (q, e', l) → 0 ≤ q.
Proof.
  unfold SFdiv_core_binary. set (m1 := match _ with Z0 => Zpos m | Zpos _ => _ | Zneg _ => 0 end).
  assert (0 ≤ m1) by (unfold m1; destruct (e - k - _); [lia|apply Z.shiftl_nonneg; lia|lia]). destruct (Z.div_eucl m1 (Zpos n)) as [q' r] eqn:Eq.
  intros [= <- _ _]. pose proof (Z_div_pos m1 (Zpos n) ltac:(lia) ltac:(done)) as Hq. unfold Z.div in Hq. by rewrite Eq in Hq.
Qed.
Lemma div_number x y : is_finite x = true → is_finite y = true → (∀ s, y ≠ S754_zero s) → number (f32_div x y).
Proof.
  intros Fx Fy Hy. destruct x as [s| | |s m e], y as [t| | |t n k]; try done; try (by destruct (Hy t)).
  unfold f32_div, SFdiv. destruct (SFdiv_core_binary _ _ _ _ _ _) as [[q e'] l] eqn:E. by eapply round_aux_number, div_core_nonneg.
Qed.

(** ** Fractions of a hundred *)

(** The mantissa does not depend on the location that is rounded. *)
Lemma shr_m_loc m e l n : 0 ≤ m → shr_m (shr (shr_record_of_loc m l) e n).1 = m / 2 ^ Z.max n 0.
Proof.
  intros Hm. destruct (shr_shifted m e n Hm) as [[<- _] _]. destruct n as [|p|p]; simpl; [by destruct l as [|[]]| |by destruct l as [|[]]].
  assert (shr_m (shr_record_of_loc m l) = shr_m {| shr_m := m; shr_r := false; shr_s := false |}) as E0 by (by destruct l as [|[]]).
  revert E0. rewrite !iter_pos_nat. generalize (shr_record_of_loc m l), {| shr_m := m; shr_r := false; shr_s := false |}.
  induction (Pos.to_nat p) as [|k IH]; intros r1 r2 E; [done|]. rewrite !Nat.iter_succ_r. apply IH.
  destruct r1 as [m1 ? ?], r2 as [m2 ? ?]. simpl in E. subst m2. by destruct m1 as [|[]|[]].
Qed.
Lemma round_bound s m e l B : 0 ≤ m → e ≤ B → Zdigits2 m + e ≤ B → -149 ≤ B ≤ 100 →
  match binary_round_aux 24 128 s m e l with S754_zero _ => True | S754_finite _ _ e' => e' ≤ B + 1 | _ => False end.
Proof.
  intros Hm He Hd HB. unfold binary_round_aux. unfold shr_fexp at 1. set (n := fexp 24 128 (Zdigits2 m + e) - e).
  pose proof (shr_m_loc m e l n Hm) as Q. assert ((shr (shr_record_of_loc m l) e n).2 = e + Z.max n 0) as E1 by (destruct n; simpl; lia).
  destruct (shr_shifted m e n Hm) as [[Q0 _] _]. destruct (shr_fexp_24 m e Hm) as [B1 _]. unfold shr_fexp in B1. fold n in B1. cbv zeta in B1. rewrite Q0 in B1.
  destruct (shr (shr_record_of_loc m l) e n) as [r1 e1]. simpl in Q, E1. rewrite <- Q in B1.
  set (m2 := round_nearest_even _ _). pose proof (round_even_nonneg (shr_m r1) (loc_of_shr_record r1) ltac:(lia)) as Hm2.
  fold m2 in Hm2. destruct (shr_fexp_24 m2 e1) as [B2 E2]; [lia|]. destruct (shr_fexp 24 128 m2 e1 loc_Exact) as [r2 e2]. simpl in B2, E2.
  rewrite fexp_max in E2. assert (e1 ≤ B) by (unfold n in E1; rewrite fexp_max in E1; lia). assert (Zdigits2 m2 ≤ 25).
  { destruct (decide (m2 = 0)) as [->|]; [done|]. apply digits_le; [lia|]. assert (2 ^ 25 = 2 * 2 ^ 24) by done. lia. }
  destruct (shr_m r2) as [|p|p]; [done| |lia]. change (128 - 24) with 104. assert ((e2 <=? 104) = true) as -> by (apply Z.leb_le; lia). lia.
Qed.
Lemma round_any_finite s m e l : 0 ≤ m → e ≤ 100 → Zdigits2 m + e ≤ 100 → is_finite (binary_round_aux 24 128 s m e l) = true.
Proof. intros Hm He Hd. pose proof (round_bound s m e l 100 Hm He Hd ltac:(lia)) as Hr. by destruct (binary_round_aux _ _ _ _ _ _). Qed.

(** At most 24 digits, as every rounded number has. *)
Definition short (f : f32) : Prop := match f with S754_finite _ m e => Zpos m < 2 ^ 24 ∧ -149 ≤ e | _ => True end.
Lemma valid_short f : valid f → short f.
Proof. destruct f; try done. by intros (? & ? & _)%canonical_f32. Qed.
Lemma round_short s m e l : 0 ≤ m → short (binary_round_aux 24 128 s m e l).
Proof. intros Hm. destruct (binary_round_aux _ _ _ _ _ _) eqn:E; try done. by apply round_aux_shape in E. Qed.
Lemma normalize_short m e s : short (binary_normalize 24 128 m e s).
Proof.
  assert (∀ s m, short (binary_round 24 128 s m e)) as Hr.
  { intros t p. unfold binary_round. destruct (shl_align _ _ _) as [mz ez]. by apply round_short. }
  destruct m; simpl; [done|apply Hr..].
Qed.
Lemma f64_as_f32_short f : short (f64_as_f32 f).
Proof. destruct f; [done..|apply normalize_short]. Qed.
Lemma f32_range_short `{JsonFloat} object key d lo hi context : short d →
  ensures (object_f32_range object key d lo hi context) (λ f, short f ∧ f32_in (f32_of_Z lo) (f32_of_Z hi) f = true).
Proof.
  intros Hd. unfold object_f32_range. eapply (ensures_bind _ _ short).
  - destruct (map_get key object) as [v|]; [|by apply ensures_ok]. intros f Hf%ok_or_Ok. unfold as_finite_f32 in Hf.
    destruct (as_f64 v) as [g|]; [|done]. simpl in Hf. destruct (is_finite _); [|done]. injection Hf as <-. apply f64_as_f32_short.
  - intros f Hf. destruct (f32_in _ _ f) eqn:E; [by apply ensures_ok|apply ensures_err].
Qed.

(** A weight that can be added up: finite and not negative. *)
Definition weight_ok (w : f32) : Prop := is_finite w = true ∧ SFltb w f32_0 = false.

Lemma range_finite hi w : is_finite hi = true → f32_in f32_0 hi w = true → weight_ok w.
Proof.
  intros Hh [L1 L2]%andb_true_iff. destruct w as [s|s| |s m e]; [done| |done|by destruct s]. destruct s; [done|]. by destruct hi as [|[]| |].
Qed.
Lemma round_sign s m e l : match binary_round_aux 24 128 s m e l with S754_nan => True | S754_zero t | S754_infinity t | S754_finite t _ _ => t = s end.
Proof.
  unfold binary_round_aux. destruct (shr_fexp _ _ _ _ _) as [r1 e1], (shr_fexp _ _ _ _ _) as [r2 e2]. destruct (shr_m r2); [done| |done]. by destruct (e2 <=? _).
Qed.

(** A quotient of numbers of about the same size. *)
Lemma div_bound s m e t n k B : Zpos m < 2 ^ 24 → e - k ≤ B → 0 ≤ B ≤ 70 →
  let q := f32_div (S754_finite s m e) (S754_finite t n k) in
  is_finite q = true ∧ match q with S754_zero u | S754_infinity u | S754_finite u _ _ => u = xorb s t | S754_nan => True end ∧
  match q with S754_finite _ m' e' => Zpos m' < 2 ^ 24 ∧ e' ≤ B + 25 | _ => True end.
Proof.
  intros Hs He HB. unfold f32_div, SFdiv. destruct (SFdiv_core_binary _ _ _ _ _ _) as [[q e'] l] eqn:E.
  pose proof (div_core_nonneg _ _ _ _ _ _ _ E) as Hq.
  assert (e' ≤ B ∧ Zdigits2 q + e' ≤ B + 24) as [H1 H2].
  { unfold SFdiv_core_binary in E. set (e1 := Z.min _ _) in E. assert (e1 ≤ e - k) by lia. set (m1 := match _ with Z0 => Zpos m | Zpos _ => _ | Zneg _ => 0 end) in E.
    assert (m1 = Zpos m * 2 ^ (e - k - e1)) as Em.
    { unfold m1. destruct (e - k - e1) as [|p|p] eqn:Ep; [lia|by rewrite Z.shiftl_mul_pow2 by lia|lia]. }
    assert (Z.div_eucl m1 (Zpos n) = (m1 / Zpos n, m1 mod Zpos n)) as Ed by (unfold Z.div, Z.modulo; by destruct (Z.div_eucl m1 (Zpos n))).
    rewrite Ed in E. injection E as <- <- _. split; [lia|]. destruct (decide (m1 / Zpos n = 0)) as [->|Hn]; [simpl; lia|].
    assert (Zdigits2 (m1 / Zpos n) ≤ e - k - e1 + 24); [|lia]. apply digits_le; [lia|]. apply Z.div_lt_upper_bound; [lia|].
    assert (0 < 2 ^ (e - k - e1)) by (apply Z.pow_pos_nonneg; lia). rewrite Em, Z.pow_add_r by lia. nia. }
  split; [apply round_any_finite; lia|]. split; [apply round_sign|].
  pose proof (round_bound (xorb s t) q e' l (B + 24) Hq) as Hb. pose proof (round_short (xorb s t) q e' l Hq) as Hsh.
  destruct (binary_round_aux _ _ _ _ _ _); try done. split; [apply Hsh|]. replace (B + 25) with (B + 24 + 1) by lia. apply Hb; lia.
Qed.
(** [weight / 100.0] *)
Lemma hundredth_ok w : short w → f32_in f32_0 (f32_of_Z 100) w = true → weight_ok (f32_div w (f32_of_Z 100)).
Proof.
  intros Hs Hr. pose proof (range_finite (f32_of_Z 100) w ltac:(vm_refl) Hr) as [Hf _]. apply andb_true_iff in Hr as [L1 L2].
  assert (f32_of_Z 100 = S754_finite false 13107200 (-17)) as E100 by vm_refl. rewrite E100 in *.
  destruct w as [s| | |s m e]; [by destruct s|done..|]. destruct Hs as [Hs _]. assert (s = false) as -> by (by destruct s).
  assert (e ≤ -17) as He. { unfold SFleb, SFcompare in L2. destruct (Z.compare_spec e (-17)); [lia|lia|done]. }
  destruct (div_bound false m e false 13107200 (-17) 0) as (F & N & _); [done|lia|lia|]. split; [done|]. destruct (f32_div _ _); try done. simpl in N. by subst.
Qed.
