(* ===== verification/VrmHumanoid.v ===== *)
(** * The humanoid of a character model (skid-monitor-fe, vrm/loader.rs)

    The VRM extensions of a model or an animation name the nodes of the bones.
    The loader checks versions and metadata, that the required bones are
    distinct nodes of the active scene, and that each has the right bone as
    its nearest humanoid parent.  [hierarchy_exact] shows what a model that
    passes has. *)

From S2P Require Import Prelude RustStr Otlp Json VrmJson VrmGlb VrmGraph.

Definition REQUIRED_VRM_ONE_HUMANOID_BONES : list string :=
  ["hips"; "spine"; "head"; "leftUpperLeg"; "leftLowerLeg"; "leftFoot"; "rightUpperLeg"; "rightLowerLeg"; "rightFoot";
   "leftUpperArm"; "leftLowerArm"; "leftHand"; "rightUpperArm"; "rightLowerArm"; "rightHand"].
Definition REQUIRED_VRM_ZERO_HUMANOID_BONES : list string :=
  ["hips"; "spine"; "chest"; "neck"; "head"; "leftUpperLeg"; "leftLowerLeg"; "leftFoot"; "rightUpperLeg"; "rightLowerLeg";
   "rightFoot"; "leftUpperArm"; "leftLowerArm"; "leftHand"; "rightUpperArm"; "rightLowerArm"; "rightHand"].
Definition REQUIRED_VRM_ONE_HIERARCHY : list (string * string) :=
  [("hips", "spine"); ("spine", "head"); ("hips", "leftUpperLeg"); ("leftUpperLeg", "leftLowerLeg");
   ("leftLowerLeg", "leftFoot"); ("hips", "rightUpperLeg"); ("rightUpperLeg", "rightLowerLeg");
   ("rightLowerLeg", "rightFoot"); ("spine", "leftUpperArm"); ("leftUpperArm", "leftLowerArm");
   ("leftLowerArm", "leftHand"); ("spine", "rightUpperArm"); ("rightUpperArm", "rightLowerArm");
   ("rightLowerArm", "rightHand")].
Definition REQUIRED_VRM_ZERO_HIERARCHY : list (string * string) :=
  [("hips", "spine"); ("spine", "chest"); ("chest", "neck"); ("neck", "head"); ("hips", "leftUpperLeg");
   ("leftUpperLeg", "leftLowerLeg"); ("leftLowerLeg", "leftFoot"); ("hips", "rightUpperLeg");
   ("rightUpperLeg", "rightLowerLeg"); ("rightLowerLeg", "rightFoot"); ("chest", "leftUpperArm");
   ("leftUpperArm", "leftLowerArm"); ("leftLowerArm", "leftHand"); ("chest", "rightUpperArm");
   ("rightUpperArm", "rightLowerArm"); ("rightLowerArm", "rightHand")].

(** The [HashMap] of bones: its iteration order decides only which bone an
    error names. *)
Abbreviation Bindings := (gmap string nat).

(** ** The scene's tree *)

Record Hierarchy := {
  hi_stack : list (nat * nat);          (* the top first *)
  hi_active : list bool;
  hi_parents : list (option nat);
}.

(** The children of a node, in order. *)
Fixpoint push_children (count node depth : nat) (children : list Value) (h : Hierarchy) : result string Hierarchy :=
  match children with
  | [] => Ok h
  | child :: children =>
    child ← json_node_index child count "child";
    match hi_parents h !! child with
    | Some None =>
      push_children count node depth children
        {| hi_stack := (child, S depth) :: hi_stack h; hi_active := hi_active h;
           hi_parents := <[child := Some node]> (hi_parents h) |}
    | _ => Err ("VRM node " +:+ usize_text child +:+ " has more than one parent")
    end
  end.

(** One turn of the [while let] with [(node, depth)] popped from [h]. *)
Definition hierarchy_turn (nodes : list Value) (node depth : nat) (h : Hierarchy) : result string Hierarchy :=
  if (MAX_NODE_DEPTH <? depth)%nat then Err ("VRM node hierarchy exceeds depth " +:+ usize_text MAX_NODE_DEPTH)
  else if default false (hi_active h !! node)
  then Err ("VRM active scene node " +:+ usize_text node +:+ " is referenced more than once")
  else
    let h := {| hi_stack := hi_stack h; hi_active := <[node := true]> (hi_active h); hi_parents := hi_parents h |} in
    match nodes !! node ≫= get "children" with
    | None => Ok h
    | Some children =>
      children ← ok_or (as_array children) ("VRM node " +:+ usize_text node +:+ " children must be an array");
      push_children (length nodes) node depth children h
    end.

(** The loop; [None] when the fuel ends. *)
Fixpoint hierarchy_loop (fuel : nat) (nodes : list Value) (h : Hierarchy) : option (result string Hierarchy) :=
  match hi_stack h with
  | [] => Some (Ok h)
  | (node, depth) :: stack =>
    match fuel with
    | O => None
    | S fuel =>
      match hierarchy_turn nodes node depth {| hi_stack := stack; hi_active := hi_active h; hi_parents := hi_parents h |} with
      | Ok h => hierarchy_loop fuel nodes h
      | Err e => Some (Err e)
      end
    end
  end.

(** The [for _ in 0..parents.len()] up to the nearest bone. *)
Fixpoint nearest_humanoid_parent (steps : nat) (parents : list (option nat)) (bones : gmap nat string) (current : option nat)
    : option string :=
  match steps, current with
  | S steps, Some node =>
    match bones !! node with
    | Some bone => Some bone
    | None => nearest_humanoid_parent steps parents bones (mjoin (parents !! node))
    end
  | _, _ => None
  end.

Definition bones_by_node (bindings : Bindings) : gmap nat string :=
  list_to_map ((λ bn, (bn.2, bn.1)) <$> reverse (map_to_list bindings)).

Fixpoint check_active (active : list bool) (bindings : list (string * nat)) : result string () :=
  match bindings with
  | [] => Ok ()
  | (bone, node) :: bindings =>
    if default false (active !! node) then check_active active bindings
    else Err ("VRM humanoid bone " +:+ bone +:+ " is outside the active scene")
  end.

Fixpoint check_hierarchy (parents : list (option nat)) (bindings : Bindings) (required : list (string * string)) : result string () :=
  match required with
  | [] => Ok ()
  | (ancestor_bone, descendant_bone) :: required =>
    descendant ← ok_or (bindings !! descendant_bone) ("VRM humanoid bone " +:+ descendant_bone +:+ " is missing");
    if bool_decide (nearest_humanoid_parent (length parents) parents (bones_by_node bindings) (mjoin (parents !! descendant))
                    = Some ancestor_bone)
    then check_hierarchy parents bindings required
    else Err ("VRM humanoid bone " +:+ descendant_bone +:+ " must have " +:+ ancestor_bone
              +:+ " as its nearest required humanoid parent")
  end.

(** The nodes and the roots of the active scene. *)
Definition scene_of (root : Value) : result string (list Value * list Value) :=
  nodes ← ok_or (get "nodes" root ≫= as_array) "VRM node array is missing";
  scenes ← ok_or (get "scenes" root ≫= as_array) "VRM scene array is missing";
  let scene_index := default 0 (get "scene" root ≫= as_u64) in
  scene_index ← ok_or (usize_try_from scene_index) "VRM default scene index is too large";
  scene_roots ← ok_or ((scenes !! scene_index ≫= get "nodes") ≫= as_array) "VRM active scene root nodes are missing";
  match scene_roots with
  | [] => Err "VRM active scene must contain at least one root node"
  | _ => Ok (nodes, scene_roots)
  end.

(** Each turn makes another node active, so the loop ends after as many turns
    as there are nodes. *)
Definition validate_humanoid_hierarchy (root : Value) (bindings : Bindings) (required_hierarchy : list (string * string))
    : option (result string ()) :=
  match scene_of root with
  | Err e => Some (Err e)
  | Ok (nodes, scene_roots) =>
    match try_map (λ root_node, json_node_index root_node (length nodes) "scene root") scene_roots with
    | Err e => Some (Err e)
    | Ok roots =>
      match hierarchy_loop (S (length nodes)) nodes
              {| hi_stack := reverse ((λ node, (node, 0%nat)) <$> roots); hi_active := repeat false (length nodes);
                 hi_parents := repeat None (length nodes) |} with
      | None => None
      | Some (Err e) => Some (Err e)
      | Some (Ok h) =>
        Some (_ ← check_active (hi_active h) (map_to_list bindings);
              check_hierarchy (hi_parents h) bindings required_hierarchy)
      end
    end
  end.

(** ** The extensions *)

Definition validate_bone_node (bone : string) (node : Z) (node_count : nat) (assigned : gset nat)
    : result string (nat * gset nat) :=
  node ← ok_or (usize_try_from node) ("VRM bone " +:+ bone +:+ " node is too large");
  if (node_count <=? node)%nat then Err ("VRM bone " +:+ bone +:+ " references missing node " +:+ usize_text node)
  else if bool_decide (node ∈ assigned) then Err ("VRM bone " +:+ bone +:+ " reuses humanoid node " +:+ usize_text node)
  else Ok (node, {[node]} ∪ assigned).

(** The loop over the required bones; [node_of] is where the extension has the
    node of a bone. *)
Fixpoint bind_required (node_of : string → option Z) (missing : string) (node_count : nat) (bones : list string)
    (assigned : gset nat) (bindings : Bindings) : result string Bindings :=
  match bones with
  | [] => Ok bindings
  | bone :: bones =>
    node ← ok_or (node_of bone) (missing +:+ " required humanoid bone " +:+ bone +:+ " is missing");
    '(node, assigned) ← validate_bone_node bone node node_count assigned;
    bind_required node_of missing node_count bones assigned (<[bone := node]> bindings)
  end.

Definition non_empty_string (v : Value) : bool :=
  match as_str v with Some s => negb (is_empty (trim s)) | None => false end.

(** The checks of [validate_vrm_one] before the bones. *)
Definition check_meta_one (vrm : Map) : result string () :=
  if negb (bool_decide (map_get "specVersion" vrm ≫= as_str = Some "1.0"))
  then Err "only VRM 1.0 is supported for VRMC_vrm models"
  else
  meta ← ok_or (map_get "meta" vrm ≫= as_object) "VRM 1.0 meta object is required";
  _ ← required_non_empty_string meta "name" "VRM 1.0 meta";
  _ ← required_non_empty_string meta "licenseUrl" "VRM 1.0 meta";
  match map_get "authors" meta ≫= as_array with
  | Some ((_ :: _) as authors) =>
    if forallb non_empty_string authors then Ok () else Err "VRM 1.0 meta.authors must contain non-empty strings"
  | _ => Err "VRM 1.0 meta.authors must be a non-empty array"
  end.

Definition validated (bindings : result string Bindings) (root : Value) (hierarchy : list (string * string))
    : option (result string ()) :=
  match bindings with
  | Err e => Some (Err e)
  | Ok bindings => validate_humanoid_hierarchy root bindings hierarchy
  end.

Definition validate_vrm_one (vrm root : Value) (node_count : nat) : option (result string ()) :=
  let bindings :=
    vrm ← ok_or (as_object vrm) "VRMC_vrm must be an object";
    _ ← check_meta_one vrm;
    bones ← ok_or ((map_get "humanoid" vrm ≫= get "humanBones") ≫= as_object)
              "VRM 1.0 humanoid.humanBones object is required";
    bind_required (λ bone, (map_get bone bones ≫= get "node") ≫= as_u64) "VRM 1.0" node_count
      REQUIRED_VRM_ONE_HUMANOID_BONES ∅ ∅ in
  validated bindings root REQUIRED_VRM_ONE_HIERARCHY.

(** The checks of [validate_vrm_zero] before the bones. *)
Definition check_meta_zero (vrm : Map) : result string () :=
  version ← ok_or (map_get "specVersion" vrm ≫= as_str) "legacy VRM specVersion is required";
  if negb (bool_decide (version = "0.0")) then Err ("legacy VRM version " +:+ version +:+ " is not supported")
  else
  meta ← ok_or (map_get "meta" vrm ≫= as_object) "legacy VRM meta object is required";
  _ ← try_map (λ field, match map_get field meta with
                        | Some value => if is_string value then Ok () else Err ("legacy VRM meta." +:+ field +:+ " must be a string")
                        | None => Ok ()
                        end) ["title"; "author"; "licenseName"];
  Ok ().

(** [collect] into a [HashMap]: of two entries for a bone the last stays. *)
Definition legacy_bones (bones : list Value) : gmap string Z :=
  list_to_map (reverse (omap (λ bone, name ← get "bone" bone ≫= as_str; node ← get "node" bone ≫= as_u64; Some (name, node)) bones)).

Definition validate_vrm_zero (vrm root : Value) (node_count : nat) : option (result string ()) :=
  let bindings :=
    vrm ← ok_or (as_object vrm) "legacy VRM extension must be an object";
    _ ← check_meta_zero vrm;
    bones ← ok_or ((map_get "humanoid" vrm ≫= get "humanBones") ≫= as_array)
              "legacy VRM humanoid.humanBones array is required";
    let by_name := legacy_bones bones in
    bind_required (λ bone, by_name !! bone) "legacy VRM" node_count REQUIRED_VRM_ZERO_HUMANOID_BONES ∅ ∅ in
  validated bindings root REQUIRED_VRM_ZERO_HIERARCHY.

Definition validate_vrm_extension (root : Value) (node_count : nat) : option (result string string) :=
  match get "extensions" root ≫= as_object with
  | None => Some (Err "VRM extension object is missing")
  | Some extensions =>
    match map_get "VRMC_vrm" extensions, map_get "VRM" extensions with
    | Some vrm, _ => (λ r, _ ← r; Ok "VRM 1.0") <$> validate_vrm_one vrm root node_count
    | None, Some vrm => (λ r, _ ← r; Ok "VRM 0.x") <$> validate_vrm_zero vrm root node_count
    | None, None => Some (Err "GLB does not contain a VRMC_vrm or legacy VRM extension")
    end
  end.

(** The loop over all bones of an animation. *)
Fixpoint bind_all (node_count : nat) (bones : Map) (assigned : gset nat) (bindings : Bindings) : result string Bindings :=
  match bones with
  | [] => Ok bindings
  | (bone, binding) :: bones =>
    node ← ok_or (get "node" binding) ("VRMA humanoid bone " +:+ bone +:+ " node is missing");
    node ← json_node_index node node_count ("humanoid bone " +:+ bone);
    if bool_decide (node ∈ assigned) then Err ("VRMA humanoid bone " +:+ bone +:+ " reuses node " +:+ usize_text node)
    else bind_all node_count bones ({[node]} ∪ assigned) (<[bone := node]> bindings)
  end.

Definition vrma_bindings (root : Value) (node_count : nat) : result string Bindings :=
  animation ← ok_or ((get "extensions" root ≫= get "VRMC_vrm_animation") ≫= as_object)
                "VRMA VRMC_vrm_animation extension object is missing";
  if negb (bool_decide (map_get "specVersion" animation ≫= as_str = Some "1.0"))
  then Err "only VRMC_vrm_animation 1.0 is supported"
  else
  bones ← ok_or ((map_get "humanoid" animation ≫= get "humanBones") ≫= as_object) "VRMA humanoid.humanBones object is required";
  bindings ← bind_all node_count bones ∅ ∅;
  _ ← try_map (λ bone, ok_or (bindings !! bone) ("VRMA required humanoid bone " +:+ bone +:+ " is missing"))
        REQUIRED_VRM_ONE_HUMANOID_BONES;
  Ok bindings.

Definition validate_vrma_extension (root : Value) (node_count : nat) : option (result string Bindings) :=
  match vrma_bindings root node_count with
  | Err e => Some (Err e)
  | Ok bindings =>
    (λ r, _ ← r; Ok bindings) <$> validate_humanoid_hierarchy root bindings REQUIRED_VRM_ONE_HIERARCHY
  end.

Definition humanoid_bindings (root : Value) (version_label : string) (node_count : nat) : result string Bindings :=
  extensions ← ok_or (get "extensions" root ≫= as_object) "VRM extension object is missing";
  let index bone node := node ← json_node_index node node_count ("humanoid bone " +:+ bone); Ok (bone, node) in
  if bool_decide (version_label = "VRM 1.0") then
    bones ← ok_or (((map_get "VRMC_vrm" extensions ≫= get "humanoid") ≫= get "humanBones") ≫= as_object)
              "VRM 1.0 humanoid.humanBones object is required";
    entries ← try_map (λ bn, index bn.1 bn.2) (omap (λ bv : string * Value, node ← get "node" bv.2; Some (bv.1, node)) bones);
    Ok (list_to_map (reverse entries))
  else
    bones ← ok_or (((map_get "VRM" extensions ≫= get "humanoid") ≫= get "humanBones") ≫= as_array)
              "legacy VRM humanoid.humanBones array is required";
    entries ← try_map (λ bn, index bn.1 bn.2)
                (omap (λ binding, name ← get "bone" binding ≫= as_str; node ← get "node" binding; Some (name, node)) bones);
    Ok (list_to_map (reverse entries)).

(** ** What a validated hierarchy has *)

(** [c] is listed as a child of [p] in the JSON nodes. *)
Definition json_child (nodes : list Value) (p c : nat) : Prop :=
  ∃ l v, (nodes !! p ≫= get "children") = Some (Array l) ∧ v ∈ l ∧ as_u64 v = Some (Z.of_nat c).

Lemma json_node_index_Ok v n ctx i : json_node_index v n ctx = Ok i → as_u64 v = Some (Z.of_nat i) ∧ (i < n)%nat.
Proof.
  intros E. pose proof (node_index_ok v n ctx i E) as Hlt. unfold json_node_index in E. apply bind_Ok in E as (z & Ez & E).
  apply bind_Ok in E as (k & Ek & E). apply ok_or_Ok in Ez, Ek. case_match; [done|]. injection E as <-. split; [|done].
  unfold usize_try_from in Ek. destruct (_ && _) eqn:Hz; [|done]. injection Ek as <-. to_prop. by rewrite Z2Nat.id.
Qed.

Lemma push_children_spec n node depth children h h' : push_children n node depth children h = Ok h' →
  length (hi_parents h) = n →
  ∃ cs, Forall2 (λ v c, as_u64 v = Some (Z.of_nat c)) children cs ∧ Forall (λ c, c < n)%nat cs ∧
    hi_active h' = hi_active h ∧ (∀ c d, (c, d) ∈ hi_stack h' ↔ (c ∈ cs ∧ d = S depth) ∨ (c, d) ∈ hi_stack h) ∧
    length (hi_parents h') = n ∧ (∀ c, c ∈ cs → hi_parents h !! c = Some None) ∧
    (∀ c, hi_parents h' !! c = if decide (c ∈ cs) then Some (Some node) else hi_parents h !! c).
Proof.
  revert h. induction children as [|v children IH]; intros h E Hlen; simpl in E.
  - injection E as <-. exists []. split_and!; try done; try set_solver.
  - apply bind_Ok in E as (c & Ec & E). apply json_node_index_Ok in Ec as [Ev Hc].
    destruct (hi_parents h !! c) as [[q|]|] eqn:Ep; try done.
    apply IH in E as (cs & F & R & A & S & L & N & P); [|simpl; by rewrite length_insert]. simpl in *.
    assert (c ∉ cs) as Hnc. { intros Hin. specialize (N c Hin). by rewrite list_lookup_insert_eq in N by lia. }
    exists (c :: cs). split_and!; [by constructor|by constructor|done| |done| |].
    + intros c' d'. rewrite S, !elem_of_cons. split; intros Hx; naive_solver.
    + intros c' [->|Hin]%elem_of_cons; [done|]. specialize (N c' Hin). rewrite list_lookup_insert_ne in N; [done|]. by intros ->.
    + intros c'. rewrite P. destruct (decide (c' = c)) as [->|Hne].
      * rewrite decide_False, decide_True by set_solver. by rewrite list_lookup_insert_eq by lia.
      * rewrite list_lookup_insert_ne by done. destruct (decide (c' ∈ cs)), (decide (c' ∈ c :: cs)); set_solver.
Qed.

Lemma turn_spec nodes node depth h h' : hierarchy_turn nodes node depth h = Ok h' →
  length (hi_parents h) = length nodes → (node < length nodes)%nat →
  (depth ≤ MAX_NODE_DEPTH)%nat ∧ default false (hi_active h !! node) = false ∧
  hi_active h' = <[node := true]> (hi_active h) ∧ length (hi_parents h') = length nodes ∧
  (∀ c, json_child nodes node c → (c < length nodes)%nat ∧ hi_parents h !! c = Some None) ∧
  (∀ c d, (c, d) ∈ hi_stack h' ↔ (json_child nodes node c ∧ d = S depth) ∨ (c, d) ∈ hi_stack h) ∧
  (∀ c, json_child nodes node c → hi_parents h' !! c = Some (Some node)) ∧
  (∀ c, ¬ json_child nodes node c → hi_parents h' !! c = hi_parents h !! c).
Proof.
  unfold hierarchy_turn. intros E Hlen Hn. case_match eqn:Ed; [done|]. apply Nat.ltb_ge in Ed. case_match eqn:Ea; [done|].
  destruct (nodes !! node ≫= get "children") as [children|] eqn:Ec.
  - apply bind_Ok in E as (l & El & E). apply ok_or_Ok in El. destruct children as [| | | |l'|]; simplify_eq/=.
    apply push_children_spec in E as (cs & F & R & A & S & L & N & P); [|done]. simpl in *.
    assert (∀ c, json_child nodes node c ↔ c ∈ cs) as Hcs.
    { intros c. split.
      - intros (l' & v & El & Hv & Ev). rewrite Ec in El. simplify_eq. apply list_elem_of_lookup in Hv as [i Hi].
        destruct (Forall2_lookup_l _ _ _ _ _ F Hi) as (c' & Hc' & Ev'). rewrite Ev in Ev'. injection Ev' as Ev'.
        apply Nat2Z.inj in Ev' as ->. by eapply list_elem_of_lookup_2.
      - intros Hc. apply list_elem_of_lookup in Hc as [i Hi]. destruct (Forall2_lookup_r _ _ _ _ _ F Hi) as (v & Hv & Ev).
        exists l, v. split_and!; [done|by eapply list_elem_of_lookup_2|done]. }
    split_and!; try done.
    + intros c Hc%Hcs. split; [|by apply N]. by apply (proj1 (Forall_forall _ _) R).
    + intros c d. rewrite S, Hcs. done.
    + intros c Hc%Hcs. rewrite P. by rewrite decide_True.
    + intros c Hc. rewrite P. rewrite decide_False; [done|]. by rewrite <- Hcs.
  - injection E as <-. assert (∀ c, ¬ json_child nodes node c) as Hno by (intros c (l & v & El & _); congruence).
    split_and!; try done; try (intros c Hc; by destruct (Hno c)). intros c d. naive_solver.
Qed.

Section hierarchy.
Context (nodes : list Value) (roots : list nat).

Definition reachable (i : nat) : Prop := ∃ r, r ∈ roots ∧ rtc (json_child nodes) r i.

(** [p] was made active before [c]. *)
Definition before (ord : list nat) (p c : nat) : Prop := ∃ i j, ord !! i = Some p ∧ ord !! j = Some c ∧ (i < j)%nat.

(** [ord]: the active nodes in the order they became active. *)
Record hier_inv (ord : list nat) (h : Hierarchy) : Prop := {
  hv_active_len : length (hi_active h) = length nodes;
  hv_parents_len : length (hi_parents h) = length nodes;
  hv_active i : hi_active h !! i = Some true ↔ i ∈ ord;
  hv_nodup : NoDup ord;
  hv_range i d : (i, d) ∈ hi_stack h → (i < length nodes)%nat;
  hv_reach i : i ∈ ord ∨ i ∈ (hi_stack h).*1 → reachable i;
  hv_parents p c : hi_parents h !! c = Some (Some p) ↔ p ∈ ord ∧ json_child nodes p c;
  hv_next c p : hi_parents h !! c = Some (Some p) → c ∈ (hi_stack h).*1 ∨ before ord p c;
  hv_roots r : r ∈ roots → r ∈ (hi_stack h).*1 ∨ r ∈ ord;
}.

Lemma before_snoc ord p c x : before ord p c → before (ord ++ [x]) p c.
Proof. intros (i & j & Hi & Hj & Hij). exists i, j. by rewrite !lookup_app, Hi, Hj. Qed.
Lemma before_last ord p x : p ∈ ord → before (ord ++ [x]) p x.
Proof.
  intros [i Hi]%list_elem_of_lookup. exists i, (length ord). rewrite !lookup_app, Hi, lookup_ge_None_2, Nat.sub_diag by lia.
  split_and!; [done..|]. by eapply lookup_lt_Some.
Qed.

Lemma fst_stack c (stack : list (nat * nat)) : c ∈ stack.*1 ↔ ∃ d, (c, d) ∈ stack.
Proof. rewrite list_elem_of_fmap. split; [intros ([c' d] & -> & Hc); eauto|intros (d & Hc); by exists (c, d)]. Qed.

Lemma json_child_dec p c : json_child nodes p c ∨ ¬ json_child nodes p c.
Proof.
  unfold json_child. destruct (nodes !! p ≫= get "children") as [[| | | |l|]|]; try (right; by intros (? & ? & ? & _)).
  destruct (decide (Exists (λ v, as_u64 v = Some (Z.of_nat c)) l)) as [(v & Hv & Ev)%Exists_exists|Hn].
  - left. by exists l, v.
  - right. intros (l' & v & [= <-] & Hv & Ev). apply Hn, Exists_exists. eauto.
Qed.

Lemma turn_inv ord h node depth stack h' : hier_inv ord h → hi_stack h = (node, depth) :: stack →
  hierarchy_turn nodes node depth {| hi_stack := stack; hi_active := hi_active h; hi_parents := hi_parents h |} = Ok h' →
  hier_inv (ord ++ [node]) h' ∧ node ∉ ord.
Proof.
  intros [I1 I2 I3 I4 I5 I6 I7 I8 I9] Es E. rewrite Es in *.
  assert (node < length nodes)%nat as Hn by (eapply I5; left).
  apply turn_spec in E as (_ & Ea & A & L & C1 & S & C2 & C3); [|done|done]. simpl in *.
  assert (node ∉ ord) as Hfresh.
  { rewrite <- I3. intros Ht. by rewrite Ht in Ea. }
  assert (∀ c, c ∈ (hi_stack h').*1 ↔ json_child nodes node c ∨ c ∈ stack.*1) as Hst.
  { intros c. rewrite !fst_stack. split; [intros (d & [[]|]%S); eauto|]. intros [Hc|(d & Hd)]; [exists (Datatypes.S depth)|exists d]; apply S; auto. }
  split; [|done]. split.
  - by rewrite A, length_insert.
  - done.
  - intros i. rewrite A. destruct (decide (i = node)) as [->|]; [rewrite list_lookup_insert_eq by lia; set_solver|].
    rewrite list_lookup_insert_ne by done. rewrite I3. set_solver.
  - apply NoDup_app. split_and!; [done| |apply NoDup_singleton]. set_solver.
  - intros i d [[Hc _]|Hi]%S; [by apply C1|]. apply (I5 i d). by right.
  - intros i Hi. assert (reachable node) as Hnode by (apply I6; right; by left).
    destruct Hi as [Hi|[Hc|Hi]%Hst].
    + apply elem_of_app in Hi as [Hi|Hi]; [apply I6; by left|]. by apply list_elem_of_singleton in Hi as ->.
    + destruct Hnode as (r & Hr & Hrn). exists r. split; [done|]. by eapply rtc_r.
    + apply I6. right. by right.
  - intros p c. rewrite elem_of_app, list_elem_of_singleton. destruct (json_child_dec node c) as [Hc|Hc].
    + rewrite (C2 c Hc). split; [intros [= <-]; naive_solver|]. intros [[Hp| ->] Hpc]; [|done].
      assert (hi_parents h !! c = Some (Some p)) by (by apply I7). destruct (C1 c Hc). congruence.
    + rewrite (C3 c Hc), I7. naive_solver.
  - intros c p. destruct (json_child_dec node c) as [Hc|Hc]; [intros _; left; apply Hst; by left|].
    rewrite (C3 c Hc). intros Hp. pose proof (proj1 (proj1 (I7 p c) Hp)) as Hpo.
    destruct (I8 c p Hp) as [Hin|Hb]; [|right; by apply before_snoc].
    apply elem_of_cons in Hin as [->|Hin]; [right; by apply before_last|left; apply Hst; by right].
  - intros r Hr. destruct (I9 r Hr) as [Hin|Hin]; [|right; set_solver].
    apply elem_of_cons in Hin as [->|Hin]; [right; set_solver|left; apply Hst; by right].
Qed.

Definition inactive (active : list bool) : nat := length (filter (λ b, b = false) active).

(** The loop ends with fewer turns than its fuel, and its result has the
    invariant with nothing left to visit. *)
Lemma loop_inv fuel ord h : hier_inv ord h → (length nodes < fuel + length ord)%nat →
  ∃ r, hierarchy_loop fuel nodes h = Some r ∧
    match r with Ok h' => ∃ ord', hier_inv ord' h' ∧ hi_stack h' = [] | Err _ => True end.
Proof.
  revert ord h. induction fuel as [|fuel IH]; intros ord h Hinv Hf.
  - exfalso. assert (Forall (λ i, i < length nodes)%nat ord) as F.
    { apply Forall_forall. intros i Hi. apply (hv_active _ _ Hinv) in Hi. apply lookup_lt_Some in Hi.
      by rewrite (hv_active_len _ _ Hinv) in Hi. }
    pose proof (NoDup_below ord _ (hv_nodup _ _ Hinv) F). lia.
  - simpl. destruct (hi_stack h) as [|[node depth] stack] eqn:Es; [exists (Ok h); split; [done|by exists ord]|].
    destruct (hierarchy_turn _ _ _ _) as [h1|e] eqn:Et; [|by exists (Err e)].
    destruct (turn_inv _ _ _ _ _ _ Hinv Es Et) as [Hinv1 Hn]. apply (IH (ord ++ [node]) h1 Hinv1).
    rewrite length_app. simpl. lia.
Qed.

Lemma hier_start : Forall (λ r, r < length nodes)%nat roots → hier_inv []
  {| hi_stack := reverse ((λ node, (node, 0%nat)) <$> roots); hi_active := repeat false (length nodes);
     hi_parents := repeat None (length nodes) |}.
Proof.
  intros Hr. assert (∀ i d, (i, d) ∈ reverse ((λ node, (node, 0%nat)) <$> roots) → i ∈ roots) as Hst.
  { intros i d. rewrite elem_of_reverse, list_elem_of_fmap. by intros (x & [= -> ->] & Hx). }
  split; simpl; rewrite ?repeat_length; try done.
  - intros i. split; [|by intros ?%elem_of_nil]. intros E%list_elem_of_lookup_2%list_elem_of_In%repeat_spec. done.
  - apply NoDup_nil_2.
  - intros i d Hi%Hst. by apply (proj1 (Forall_forall _ _) Hr).
  - intros i [Hi|(d & Hi)%fst_stack]; [by apply elem_of_nil in Hi|]. exists i. split; [by eapply Hst|done].
  - intros p c. split; [|by intros [?%elem_of_nil _]]. intros E%list_elem_of_lookup_2%list_elem_of_In%repeat_spec. done.
  - intros c p E%list_elem_of_lookup_2%list_elem_of_In%repeat_spec. done.
  - intros r Hin. left. apply fst_stack. exists 0%nat. rewrite elem_of_reverse. apply list_elem_of_fmap. eauto.
Qed.

(** ** The result *)

Context (ord : list nat) (h : Hierarchy) (Hinv : hier_inv ord h) (Hdone : hi_stack h = []).

Lemma parent_before c p : hi_parents h !! c = Some (Some p) → before ord p c.
Proof. intros Hp. destruct (hv_next _ _ Hinv c p Hp) as [Hin|]; [|done]. rewrite Hdone in Hin. by apply elem_of_nil in Hin. Qed.

Lemma active_reachable i : hi_active h !! i = Some true ↔ reachable i.
Proof.
  rewrite (hv_active _ _ Hinv). split; [intros Hi; apply (hv_reach _ _ Hinv); by left|].
  intros (r & Hr & Hri). assert (r ∈ ord) as Hro.
  { destruct (hv_roots _ _ Hinv r Hr) as [Hin|]; [|done]. rewrite Hdone in Hin. by apply elem_of_nil in Hin. }
  clear Hr. induction Hri as [|r c i Hrc _ IH]; [done|]. apply IH.
  destruct (parent_before c r) as (_ & j & _ & Hj & _); [by apply (hv_parents _ _ Hinv)|]. by eapply list_elem_of_lookup_2.
Qed.

(** Among the nodes of the scene, a child has one parent. *)
Lemma parent_unique p q c : reachable p → reachable q → json_child nodes p c → json_child nodes q c → p = q.
Proof.
  rewrite <- !active_reachable, !(hv_active _ _ Hinv). intros Hp Hq Hpc Hqc.
  assert (hi_parents h !! c = Some (Some p)) by (by apply (hv_parents _ _ Hinv)).
  assert (hi_parents h !! c = Some (Some q)) by (by apply (hv_parents _ _ Hinv)). congruence.
Qed.

(** [bone] is the nearest bone above [c]: the first one on the way up. *)
Inductive nearest_bone (bones : gmap nat string) : nat → string → Prop :=
| nearest_here p c bone : reachable p → json_child nodes p c → bones !! p = Some bone → nearest_bone bones c bone
| nearest_above p c bone : reachable p → json_child nodes p c → bones !! p = None → nearest_bone bones p bone →
    nearest_bone bones c bone.

Lemma parents_child p c : mjoin (hi_parents h !! c) = Some p ↔ reachable p ∧ json_child nodes p c.
Proof.
  rewrite <- active_reachable, (hv_active _ _ Hinv), <- (hv_parents _ _ Hinv).
  destruct (hi_parents h !! c) as [[q|]|]; simpl; naive_solver.
Qed.

Lemma nearest_sound steps bones c bone :
  nearest_humanoid_parent steps (hi_parents h) bones (mjoin (hi_parents h !! c)) = Some bone → nearest_bone bones c bone.
Proof.
  revert c. induction steps as [|steps IH]; intros c E; [done|]. simpl in E.
  destruct (mjoin (hi_parents h !! c)) as [p|] eqn:Ep; [|done]. apply parents_child in Ep as [Hr Hc].
  destruct (bones !! p) as [b|] eqn:Eb; [injection E as ->; by eapply nearest_here|]. eapply nearest_above; eauto.
Qed.

Lemma nearest_steps bones c bone i steps : nearest_bone bones c bone → ord !! i = Some c → (i ≤ steps)%nat →
  nearest_humanoid_parent steps (hi_parents h) bones (mjoin (hi_parents h !! c)) = Some bone.
Proof.
  intros Hb. revert i steps. induction Hb as [p c bone Hr Hc Eb|p c bone Hr Hc Eb Hb IH]; intros i steps Hi Hs;
    pose proof (proj2 (parents_child p c) (conj Hr Hc)) as Ep; rewrite Ep;
    destruct (parent_before c p) as (j & k & Hj & Hk & Hjk); try (by destruct (hi_parents h !! c); simplify_eq/=);
    assert (k = i) as -> by (by apply (NoDup_lookup ord k i c (hv_nodup _ _ Hinv)));
    destruct steps as [|steps]; [lia| |lia|]; simpl; rewrite Eb; [done|].
  apply (IH j); [done|lia].
Qed.

(** The climb of as many steps as there are nodes decides the nearest bone. *)
Lemma nearest_iff bones c bone : reachable c →
  nearest_humanoid_parent (length nodes) (hi_parents h) bones (mjoin (hi_parents h !! c)) = Some bone ↔ nearest_bone bones c bone.
Proof.
  intros Hc. split; [apply nearest_sound|]. intros Hb. apply active_reachable, (hv_active _ _ Hinv), list_elem_of_lookup in Hc as [i Hi].
  apply (nearest_steps bones c bone i); [done..|]. pose proof (lookup_lt_Some _ _ _ Hi).
  assert (Forall (λ i, i < length nodes)%nat ord) as F.
  { apply Forall_forall. intros x Hx. apply (hv_active _ _ Hinv) in Hx. apply lookup_lt_Some in Hx.
    by rewrite (hv_active_len _ _ Hinv) in Hx. }
  pose proof (NoDup_below ord _ (hv_nodup _ _ Hinv) F). lia.
Qed.
End hierarchy.

(** The nodes and the roots of a scene that the loop accepts. *)
Definition accepted_scene (root : Value) : option (list Value * list nat) :=
  match scene_of root with
  | Err _ => None
  | Ok (nodes, scene_roots) =>
    match try_map (λ root_node, json_node_index root_node (length nodes) "scene root") scene_roots with
    | Err _ => None
    | Ok roots =>
      match hierarchy_loop (S (length nodes)) nodes
              {| hi_stack := reverse ((λ node, (node, 0%nat)) <$> roots); hi_active := repeat false (length nodes);
                 hi_parents := repeat None (length nodes) |} with
      | Some (Ok _) => Some (nodes, roots)
      | _ => None
      end
    end
  end.

(** What the bones of a model must satisfy in its scene. *)
Definition bones_in_scene (nodes : list Value) (roots : list nat) (bindings : Bindings) (required : list (string * string)) : Prop :=
  (∀ bone node, bindings !! bone = Some node → reachable nodes roots node) ∧
  (∀ above bone, (above, bone) ∈ required →
     ∃ node, bindings !! bone = Some node ∧ nearest_bone nodes roots (bones_by_node bindings) node above).

Lemma check_active_iff active l : check_active active l = Ok () ↔ Forall (λ bn, active !! bn.2 = Some true) l.
Proof.
  induction l as [|[bone node] l IH]; simpl; [by split|]. rewrite Forall_cons. simpl.
  destruct (active !! node) as [[|]|]; simpl; [rewrite IH|..]; naive_solver.
Qed.

Lemma check_hierarchy_iff parents bindings required : check_hierarchy parents bindings required = Ok () ↔
  Forall (λ ad, ∃ node, bindings !! ad.2 = Some node ∧
    nearest_humanoid_parent (length parents) parents (bones_by_node bindings) (mjoin (parents !! node)) = Some ad.1) required.
Proof.
  induction required as [|[a d] required IH]; simpl; [by split|]. rewrite Forall_cons, <- IH. simpl.
  destruct (bindings !! d) as [node|]; simpl; [|naive_solver].
  destruct (bool_decide _) eqn:E; to_prop; naive_solver.
Qed.

(** The validation always ends.  It accepts exactly when the scene is accepted,
    every bone is a node of the scene, and the required bones have the right
    nearest bone above them. *)
Lemma hierarchy_exact root bindings required : ∃ r, validate_humanoid_hierarchy root bindings required = Some r ∧
  (r = Ok () ↔ ∃ nodes roots, accepted_scene root = Some (nodes, roots) ∧ bones_in_scene nodes roots bindings required).
Proof.
  unfold validate_humanoid_hierarchy, accepted_scene.
  destruct (scene_of root) as [[nodes scene_roots]|e]; [|exists (Err e); naive_solver].
  destruct (try_map _ scene_roots) as [roots|e] eqn:Er; [|exists (Err e); naive_solver].
  assert (Forall (λ r, r < length nodes)%nat roots) as Hr.
  { eapply try_map_Forall; [|done]. intros v i E. exact (node_index_ok _ _ _ _ E). }
  destruct (loop_inv nodes roots (S (length nodes)) [] _ (hier_start nodes roots Hr)) as (r & El & Hp); [simpl; lia|].
  rewrite El. destruct r as [h|e]; [|exists (Err e); naive_solver]. destruct Hp as (ord & Hinv & Hdone).
  eexists. split; [done|]. rewrite bind_Ok.
  assert (∀ bone node, bindings !! bone = Some node ↔ (bone, node) ∈ map_to_list bindings) as Hb.
  { intros. by rewrite elem_of_map_to_list. }
  split.
  - intros ([] & Ha & Hh). apply check_active_iff in Ha. apply check_hierarchy_iff in Hh. rewrite Forall_forall in Ha. rewrite Forall_forall in Hh.
    exists nodes, roots. split; [done|].
    assert (∀ bone node, bindings !! bone = Some node → reachable nodes roots node) as Hreach.
    { intros bone node Hin%Hb. apply (active_reachable nodes roots ord h Hinv Hdone). by apply (Ha (bone, node)). }
    split; [done|]. intros a d (node & Hn & E)%Hh. exists node. split; [done|]. simpl in *.
    rewrite (hv_parents_len _ _ _ _ Hinv) in E. exact (proj1 (nearest_iff nodes roots ord h Hinv Hdone _ _ _ (Hreach _ _ Hn)) E).
  - intros (nodes' & roots' & E & Hreach & Hreq). simplify_eq. exists (). split.
    + apply check_active_iff, Forall_forall. intros [bone node] Hin%Hb. apply (active_reachable nodes' roots' ord h Hinv Hdone). eauto.
    + apply check_hierarchy_iff, Forall_forall. intros [a d] (node & Hn & Hnb)%Hreq. exists node. split; [done|].
      rewrite (hv_parents_len _ _ _ _ Hinv). exact (proj2 (nearest_iff nodes' roots' ord h Hinv Hdone _ _ _ (Hreach _ _ Hn)) Hnb).
Qed.

(** In an accepted scene a node has one parent. *)
Lemma accepted_unique root nodes roots p q c : accepted_scene root = Some (nodes, roots) →
  reachable nodes roots p → reachable nodes roots q → json_child nodes p c → json_child nodes q c → p = q.
Proof.
  unfold accepted_scene. destruct (scene_of root) as [[ns scene_roots]|e]; [|done].
  destruct (try_map _ scene_roots) as [rs|e] eqn:Er; [|done].
  assert (Forall (λ r, r < length ns)%nat rs) as Hr. { eapply try_map_Forall; [|done]. intros v i E. exact (node_index_ok _ _ _ _ E). }
  destruct (loop_inv ns rs (S (length ns)) [] _ (hier_start ns rs Hr)) as (r & El & Hp); [simpl; lia|].
  rewrite El. destruct r as [h|e]; [|done]. destruct Hp as (ord & Hinv & Hdone). intros [= <- <-].
  apply (parent_unique ns rs ord h Hinv Hdone).
Qed.

(** ** The bindings *)

Definition injective_bindings (m : Bindings) : Prop := ∀ b b' i, m !! b = Some i → m !! b' = Some i → b = b'.

Lemma bones_by_node_iff m i b : injective_bindings m → bones_by_node m !! i = Some b ↔ m !! b = Some i.
Proof.
  intros Hinj. unfold bones_by_node. rewrite <- elem_of_list_to_map.
  - rewrite list_elem_of_fmap. split.
    + intros ([b' i'] & [= -> ->] & Hin). by rewrite elem_of_reverse, elem_of_map_to_list in Hin.
    + intros E. exists (b, i). split; [done|]. by rewrite elem_of_reverse, elem_of_map_to_list.
  - rewrite <- list_fmap_compose. apply NoDup_fmap_2_strong; [|rewrite reverse_Permutation; apply NoDup_map_to_list].
    intros [b1 i1] [b2 i2] H1 H2 E. simpl in E. rewrite elem_of_reverse, elem_of_map_to_list in H1, H2. simplify_eq.
    f_equal. by eapply Hinj.
Qed.

(** The required bones are bound to distinct nodes of the table, the ones the
    extension names. *)
Lemma bind_required_spec node_of missing n bones assigned m m' :
  bind_required node_of missing n bones assigned m = Ok m' →
  injective_bindings m → (∀ b i, m !! b = Some i → i ∈ assigned ∧ node_of b = Some (Z.of_nat i) ∧ (i < n)%nat) → NoDup bones →
  (∀ b, b ∈ bones → m !! b = None) →
  injective_bindings m' ∧ (∀ b i, m' !! b = Some i → node_of b = Some (Z.of_nat i) ∧ (i < n)%nat) ∧
  (∀ b, is_Some (m' !! b) ↔ is_Some (m !! b) ∨ b ∈ bones).
Proof.
  revert assigned m. induction bones as [|bone bones IH]; intros assigned m E Hinj Hm Hnd Hnew; simpl in E.
  - injection E as <-. split_and!; [done| |]; [intros b i Hb; by destruct (Hm b i Hb) as (_ & ?)|]. intros b. rewrite elem_of_nil. tauto.
  - apply bind_Ok in E as (z & Ez & E). apply ok_or_Ok in Ez. apply bind_Ok in E as ([node asg] & Eb & E).
    unfold validate_bone_node in Eb. apply bind_Ok in Eb as (k & Ek & Eb). apply ok_or_Ok in Ek.
    destruct (n <=? k)%nat eqn:El; [done|]. apply Nat.leb_gt in El. destruct (bool_decide (k ∈ assigned)) eqn:Ea; [done|]. to_prop.
    injection Eb as <- <-. apply NoDup_cons in Hnd as [Hnb Hnd].
    assert (node_of bone = Some (Z.of_nat k)) as Hk.
    { rewrite Ez. f_equal. unfold usize_try_from in Ek. destruct (_ && _) eqn:Hz; [|done]. injection Ek as <-. to_prop. by rewrite Z2Nat.id. }
    apply IH in E as (I1 & I2 & I3); [split_and!; [done|done|]|..].
    + intros b. rewrite I3. rewrite elem_of_cons. destruct (decide (b = bone)) as [->|Hne].
      * rewrite lookup_insert_eq. split; [by right; left|left; eauto].
      * rewrite lookup_insert_ne by done. naive_solver.
    + intros b b' i [[<- <-]|[Hne Hb]]%lookup_insert_Some [[<- E']|[Hne' Hb']]%lookup_insert_Some; [done|..|by eapply Hinj].
      * by destruct (Hm _ _ Hb').
      * subst i. by destruct (Hm _ _ Hb).
    + intros b i Hb. destruct (decide (b = bone)) as [->|Hne].
      * rewrite lookup_insert_eq in Hb. simplify_eq. split_and!; [set_solver|done|done].
      * rewrite lookup_insert_ne in Hb by done. destruct (Hm b i Hb) as (? & ? & ?). split_and!; [set_solver|done|done].
    + done.
    + intros b Hb. rewrite lookup_insert_ne by (intros ->; done). apply Hnew. by right.
Qed.

(** Where a model has the nodes of its bones. *)
Definition vrm_one_node (root : Value) (bone : string) : option Z :=
  (((((get "extensions" root ≫= get "VRMC_vrm") ≫= get "humanoid") ≫= get "humanBones") ≫= get bone) ≫= get "node") ≫= as_u64.
Definition vrm_zero_node (root : Value) (bone : string) : option Z :=
  bones ← (((get "extensions" root ≫= get "VRM") ≫= get "humanoid") ≫= get "humanBones") ≫= as_array;
  legacy_bones bones !! bone.

(** [bindings] has the bones [bones], at distinct nodes of the table. *)
Definition bound (bindings : Bindings) (n : nat) (node_of : string → option Z) (bones : list string) : Prop :=
  injective_bindings bindings ∧ (∀ bone, is_Some (bindings !! bone) ↔ bone ∈ bones) ∧
  (∀ bone node, bindings !! bone = Some node → node_of bone = Some (Z.of_nat node) ∧ (node < n)%nat).

Lemma bind_required_bound node_of node_of' missing n bones bindings : NoDup bones → (∀ b, node_of b = node_of' b) →
  bind_required node_of missing n bones ∅ ∅ = Ok bindings → bound bindings n node_of' bones.
Proof.
  intros Hn Hnode E. apply bind_required_spec in E as (E1 & E2 & E3); [|done..].
  split; [done|]. split; [|intros bone node; rewrite <- Hnode; apply E2]. intros bone. rewrite E3. split; [|by right].
  by intros [[? ?]|].
Qed.

(** A validated extension: its bones are in the scene. *)
Definition humanoid_ok (root : Value) (n : nat) (node_of : string → option Z) (bones : list string)
    (hierarchy : list (string * string)) : Prop :=
  ∃ nodes roots bindings, accepted_scene root = Some (nodes, roots) ∧ bound bindings n node_of bones ∧
    bones_in_scene nodes roots bindings hierarchy.

Lemma validated_ok r root n node_of bones hierarchy : ensures r (λ bindings, bound bindings n node_of bones) →
  ∃ a, validated r root hierarchy = Some a ∧ (a = Ok () → humanoid_ok root n node_of bones hierarchy).
Proof.
  intros Hr. destruct r as [bindings|e]; simpl; [|by exists (Err e)].
  destruct (hierarchy_exact root bindings hierarchy) as (a & Ha & Hiff). exists a. split; [done|].
  intros (nodes & roots & Hs & Hb)%Hiff. exists nodes, roots, bindings. split_and!; [done|by apply Hr|done].
Qed.

Lemma get_object v m key : as_object v = Some m → get key v = map_get key m.
Proof. unfold get. by intros ->. Qed.

Lemma validate_one_ok vrm root n : get "extensions" root ≫= get "VRMC_vrm" = Some vrm →
  ∃ a, validate_vrm_one vrm root n = Some a ∧
    (a = Ok () → humanoid_ok root n (vrm_one_node root) REQUIRED_VRM_ONE_HUMANOID_BONES REQUIRED_VRM_ONE_HIERARCHY).
Proof.
  intros Hv. apply validated_ok. eapply ensures_bind; [apply ensures_ok_or|]. intros m Hm.
  eapply ensures_bind; [apply ensures_any|]. intros _ _. eapply ensures_bind; [apply ensures_ok_or|]. intros bones Hb bindings E.
  eapply bind_required_bound; [| |done]; [apply (bool_decide_eq_true_1 _); vm_refl|].
  intros bone. unfold vrm_one_node. rewrite Hv. simpl. rewrite (get_object vrm m) by done.
  destruct (map_get "humanoid" m) as [hu|]; [|done]. simpl in *. destruct (get "humanBones" hu) as [hb|]; [|done]. simpl in *.
  by rewrite (get_object hb bones).
Qed.

Lemma validate_zero_ok vrm root n : get "extensions" root ≫= get "VRM" = Some vrm →
  ∃ a, validate_vrm_zero vrm root n = Some a ∧
    (a = Ok () → humanoid_ok root n (vrm_zero_node root) REQUIRED_VRM_ZERO_HUMANOID_BONES REQUIRED_VRM_ZERO_HIERARCHY).
Proof.
  intros Hv. apply validated_ok. eapply ensures_bind; [apply ensures_ok_or|]. intros m Hm.
  eapply ensures_bind; [apply ensures_any|]. intros _ _. eapply ensures_bind; [apply ensures_ok_or|]. intros bones Hb bindings E.
  eapply bind_required_bound; [| |done]; [apply (bool_decide_eq_true_1 _); vm_refl|].
  intros bone. unfold vrm_zero_node. rewrite Hv. simpl. rewrite (get_object vrm m) by done.
  destruct (map_get "humanoid" m) as [hu|]; [|done]. simpl in *. destruct (get "humanBones" hu) as [hb|]; [|done]. simpl in *.
  by rewrite Hb.
Qed.

(** The validation of a model's humanoid always ends.  A model it accepts
    has a scene in which every node has one parent, its required bones (those
    of VRM 1.0, or of the legacy version) are bound to distinct nodes of the
    scene, the ones its extension names, and each has the required bone as
    the first bone on its way up to the root, however far apart they are. *)
Theorem humanoid_accepted root n : ∃ r, validate_vrm_extension root n = Some r ∧
  (∀ label, r = Ok label →
     (label = "VRM 1.0" ∧ humanoid_ok root n (vrm_one_node root) REQUIRED_VRM_ONE_HUMANOID_BONES REQUIRED_VRM_ONE_HIERARCHY) ∨
     (label = "VRM 0.x" ∧ humanoid_ok root n (vrm_zero_node root) REQUIRED_VRM_ZERO_HUMANOID_BONES REQUIRED_VRM_ZERO_HIERARCHY)) ∧
  (∀ nodes roots p q c, accepted_scene root = Some (nodes, roots) → reachable nodes roots p → reachable nodes roots q →
     json_child nodes p c → json_child nodes q c → p = q).
Proof.
  unfold validate_vrm_extension. destruct (get "extensions" root) as [extensions|] eqn:Ee; simpl.
  2:{ eexists. split; [done|]. split; [done|]. intros nodes roots p q c. apply accepted_unique. }
  destruct (as_object extensions) as [m|] eqn:Em.
  2:{ eexists. split; [done|]. split; [done|]. intros nodes roots p q c. apply accepted_unique. }
  destruct (map_get "VRMC_vrm" m) as [vrm|] eqn:E1.
  - destruct (validate_one_ok vrm root n) as (a & Ha & Hok). { rewrite Ee. simpl. unfold get. by rewrite Em. }
    rewrite Ha. simpl. eexists. split; [done|]. split; [|intros nodes roots p q c; apply accepted_unique].
    intros label. destruct a as [[]|]; [|done]. intros [= <-]. left. auto.
  - destruct (map_get "VRM" m) as [vrm|] eqn:E2.
    + destruct (validate_zero_ok vrm root n) as (a & Ha & Hok). { rewrite Ee. simpl. unfold get. by rewrite Em. }
      rewrite Ha. simpl. eexists. split; [done|]. split; [|intros nodes roots p q c; apply accepted_unique].
      intros label. destruct a as [[]|]; [|done]. intros [= <-]. right. auto.
    + eexists. split; [done|]. split; [done|]. intros nodes roots p q c. apply accepted_unique.
Qed.

(** ** Examples *)

Module SkeletonDemo.
Definition num (n : nat) : Value := VNumber (PosInt (Z.of_nat n)).
Definition node (children : list nat) : Value :=
  match children with [] => Object [] | _ => Object [("children", Array (num <$> children))] end.
(** Hips, spine, neck, head, then the legs and the arms. *)
Definition nodes : list Value :=
  [node [1; 4; 7]%nat; node [2; 10; 13]%nat; node [3]%nat; node []; node [5]%nat; node [6]%nat; node []; node [8]%nat;
   node [9]%nat; node []; node [11]%nat; node [12]%nat; node []; node [14]%nat; node [15]%nat; node []].
Definition bones : Map :=
  (λ bn : string * nat, (bn.1, Object [("node", num bn.2)])) <$>
  [("hips", 0); ("spine", 1); ("neck", 2); ("head", 3); ("leftUpperLeg", 4); ("leftLowerLeg", 5); ("leftFoot", 6);
   ("rightUpperLeg", 7); ("rightLowerLeg", 8); ("rightFoot", 9); ("leftUpperArm", 10); ("leftLowerArm", 11);
   ("leftHand", 12); ("rightUpperArm", 13); ("rightLowerArm", 14); ("rightHand", 15)]%nat.
Definition humanoid (bones : Map) : Value := Object [("humanBones", Object bones)].
Definition file (extension : string * Value) : Value :=
  Object [("nodes", Array nodes); ("scenes", Array [Object [("nodes", Array [num 0])]]); ("extensions", Object [extension])].
Definition animation (bones : Map) : Value :=
  file ("VRMC_vrm_animation", Object [("specVersion", VString "1.0"); ("humanoid", humanoid bones)]).
Definition model : Value :=
  file ("VRMC_vrm", Object [("specVersion", VString "1.0");
    ("meta", Object [("name", VString "demo"); ("licenseUrl", VString "https://example.org"); ("authors", Array [VString "a"])]);
    ("humanoid", humanoid bones)]).
Definition without_neck : Map := filter (λ b, b.1 ≠ "neck") bones.
End SkeletonDemo.

#[local] Transparent gmap_empty.

(** A skeleton with the optional neck bone is accepted as a model, and its
    animation is accepted without the neck.  With the neck, which VRMA files
    normally have, the animation is rejected: [validate_vrma_extension] counts
    every bone on the way up, not only the required ones. *)
Example optional_bone_rejects_animation :
  validate_vrm_extension SkeletonDemo.model 16 = Some (Ok "VRM 1.0") ∧
  (match validate_vrma_extension (SkeletonDemo.animation SkeletonDemo.without_neck) 16 with
   | Some (Ok m) => size m | _ => 0 end)%nat = 15%nat ∧
  validate_vrma_extension (SkeletonDemo.animation SkeletonDemo.bones) 16 =
    Some (Err "VRM humanoid bone head must have spine as its nearest required humanoid parent").
Proof. split_and!; vm_refl. Qed.
