(* ===== verification/VrmRig.v ===== *)
(** * The rig of a character model (skid-monitor-fe, vrm/loader.rs, vrm/runtime.rs)

    Expressions, look-at, node constraints and spring bones, decoded from the
    extensions of a model against its node graph.  The types are those of
    vrm/runtime.rs.  What the gltf crate says of meshes, and glam's vector
    operations, are arguments. *)

From S2P Require Import Prelude RustStr Otlp RustFloat FeProfile Json VrmJson VrmOrder VrmGraph VrmFloat VrmHumanoid.

(** ** runtime.rs: the data *)

Inductive ExpressionOverride := OverrideNone | OverrideBlock | OverrideBlend.

Record MorphBind := { mb_node : nat; mb_target : nat; mb_weight : f32 }.
Record CpuExpression := {
  is_binary : bool;
  morph_binds : list MorphBind;
  override_blink : ExpressionOverride;
  override_look_at : ExpressionOverride;
  override_mouth : ExpressionOverride;
}.
Abbreviation CpuExpressionSet := (gmap string CpuExpression).

Record RangeMap := { input_max_degrees : f32; output_scale : f32 }.
Definition default_range_map : RangeMap := {| input_max_degrees := f32_of_Z 90; output_scale := f32_of_Z 10 |}.
Inductive LookAtKind := LookAtBone | LookAtExpression.
Record CpuLookAt := {
  la_kind : LookAtKind;
  left_eye : option nat;
  right_eye : option nat;
  horizontal_inner : RangeMap;
  horizontal_outer : RangeMap;
  vertical_down : RangeMap;
  vertical_up : RangeMap;
}.

Inductive ConstraintKind := Rotation | Roll (axis : Vec3) | Aim (axis : Vec3).
Record CpuNodeConstraint := { destination : nat; cn_source : nat; cn_weight : f32; cn_kind : ConstraintKind }.

Inductive ColliderShape :=
| Sphere (offset : Vec3) (radius : f32)
| Capsule (offset tail : Vec3) (radius : f32).
Record CpuCollider := { col_node : nat; shape : ColliderShape }.
Record CpuSpringJoint := {
  sj_node : nat;
  hit_radius : f32;
  stiffness : f32;
  gravity_power : f32;
  gravity_direction : Vec3;
  drag_force : f32;
}.
Record CpuSpring := { sp_joints : list CpuSpringJoint; collider_indices : list nat; center : option nat }.

(** What the gltf crate says of the meshes: the mesh of every node, and the
    number of morph targets of every primitive of a mesh. *)
Record GltfMeshes := { node_mesh : list (option nat); mesh_targets : list (list nat) }.

(** glam's [Vec3]. *)
Class Glam := {
  length_squared : Vec3 → f32;
  normalize : Vec3 → Vec3;
  normalize_or_zero : Vec3 → Vec3;
}.

Definition vec3_zero : Vec3 := vec3_splat f32_0.
Definition vec3_down : Vec3 := {| vx := f32_0; vy := f32_neg_1; vz := f32_0 |}.
Definition axis_x (f : f32) : Vec3 := {| vx := f; vy := f32_0; vz := f32_0 |}.
Definition axis_y (f : f32) : Vec3 := {| vx := f32_0; vy := f; vz := f32_0 |}.
Definition axis_z (f : f32) : Vec3 := {| vx := f32_0; vy := f32_0; vz := f |}.

(** The arms of a [match] on a string. *)
Fixpoint assoc (key : string) (arms : list (string * string)) : option string :=
  match arms with
  | [] => None
  | (k, v) :: arms => if bool_decide (k = key) then Some v else assoc key arms
  end.

(** [sort_unstable] and [dedup] *)
Fixpoint insert_nat (n : nat) (l : list nat) : list nat :=
  match l with
  | [] => [n]
  | m :: rest => if (n <=? m)%nat then n :: l else m :: insert_nat n rest
  end.
Definition sort_nats (l : list nat) : list nat := foldr insert_nat [] l.
Fixpoint dedup (l : list nat) : list nat :=
  match l with
  | n :: ((m :: _) as rest) => if (n =? m)%nat then dedup rest else n :: dedup rest
  | l => l
  end.

Section rig.
Context `{JsonFloat, Glam}.

(** ** Expressions *)

Definition validate_morph_binding (meshes : GltfMeshes) (node target : nat) (expression : string) : result string () :=
  let error text := "VRM expression " +:+ expression +:+ text in
  mesh ← ok_or (node_mesh meshes !! node) (error (" references missing node " +:+ usize_text node));
  mesh ← ok_or mesh (error (" node " +:+ usize_text node +:+ " does not contain a mesh"));
  if existsb (λ targets, (targets <=? target)%nat) (default [] (mesh_targets meshes !! mesh))
  then Err (error (" references missing morph target " +:+ usize_text target))
  else Ok ().

Definition decode_expression_override (expression : Map) (key name : string) : result string ExpressionOverride :=
  let value := default "none" (map_get key expression ≫= as_str) in
  if bool_decide (value = "none") then Ok OverrideNone
  else if bool_decide (value = "block") then Ok OverrideBlock
  else if bool_decide (value = "blend") then Ok OverrideBlend
  else Err ("VRM expression " +:+ name +:+ "." +:+ key +:+ " has invalid value " +:+ value).

Definition decode_morph_bind (meshes : GltfMeshes) (name : string) (binding : Value) : result string MorphBind :=
  binding ← ok_or (as_object binding) ("VRM expression " +:+ name +:+ " morph target binding must be an object");
  node ← json_index_field binding "node" (length (node_mesh meshes)) "expression node";
  target ← json_usize_field binding "index" "expression morph target";
  _ ← validate_morph_binding meshes node target name;
  weight ← object_f32_range binding "weight" f32_1 0 1 "expression";
  Ok {| mb_node := node; mb_target := target; mb_weight := weight |}.

Definition decode_expression (name : string) (value : Value) (meshes : GltfMeshes) : result string CpuExpression :=
  expression ← ok_or (as_object value) ("VRM expression " +:+ name +:+ " must be an object");
  binary ← match map_get "isBinary" expression with
           | None => Ok false
           | Some value => ok_or (as_bool value) ("VRM expression " +:+ name +:+ ".isBinary must be a boolean")
           end;
  binds ← match map_get "morphTargetBinds" expression with
          | None => Ok []
          | Some bindings =>
            bindings ← ok_or (as_array bindings) ("VRM expression " +:+ name +:+ ".morphTargetBinds must be an array");
            try_map (decode_morph_bind meshes name) bindings
          end;
  blink ← decode_expression_override expression "overrideBlink" name;
  look_at ← decode_expression_override expression "overrideLookAt" name;
  mouth ← decode_expression_override expression "overrideMouth" name;
  Ok {| is_binary := binary; morph_binds := binds; override_blink := blink; override_look_at := look_at;
        override_mouth := mouth |}.

Fixpoint decode_entries (entries : Map) (meshes : GltfMeshes) (result : CpuExpressionSet) : Prelude.result string CpuExpressionSet :=
  match entries with
  | [] => Ok result
  | (name, value) :: entries =>
    if bool_decide (is_Some (result !! name)) then Err ("VRM expression " +:+ name +:+ " is defined more than once")
    else
      expression ← decode_expression name value meshes;
      decode_entries entries meshes (<[name := expression]> result)
  end.

Definition canonical_legacy_expression_name (name : string) : string :=
  default name (assoc (to_ascii_lowercase name)
    [("a", "aa"); ("i", "ih"); ("u", "ou"); ("e", "ee"); ("o", "oh"); ("blink_l", "blinkLeft"); ("blink_r", "blinkRight");
     ("lookup", "lookUp"); ("lookdown", "lookDown"); ("lookleft", "lookLeft"); ("lookright", "lookRight"); ("joy", "happy");
     ("sorrow", "sad"); ("fun", "relaxed"); ("neutral", "neutral"); ("blink", "blink"); ("angry", "angry")]).

(** The nodes that show a mesh, in order. *)
Definition nodes_of_mesh (meshes : GltfMeshes) (mesh : nat) : list nat :=
  filter (λ node, node_mesh meshes !! node = Some (Some mesh)) (seq 0 (length (node_mesh meshes))).

Definition decode_legacy_bind (meshes : GltfMeshes) (name : string) (binding : Value) : result string (list MorphBind) :=
  binding ← ok_or (as_object binding) ("legacy expression " +:+ name +:+ " binding must be an object");
  mesh ← json_usize_field binding "mesh" "legacy expression mesh";
  target ← json_usize_field binding "index" "legacy expression morph target";
  weight ← object_f32_range binding "weight" (f32_of_Z 100) 0 100 "legacy expression";
  let weight := f32_div weight (f32_of_Z 100) in
  try_map (λ node,
    _ ← validate_morph_binding meshes node target name;
    Ok {| mb_node := node; mb_target := target; mb_weight := weight |}) (nodes_of_mesh meshes mesh).

Definition decode_legacy_group (meshes : GltfMeshes) (index : nat) (group : Value) : result string (string * CpuExpression) :=
  group ← ok_or (as_object group) ("legacy blendShapeGroups[" +:+ usize_text index +:+ "] must be an object");
  let preset := match map_get "presetName" group ≫= as_str with
                | Some name => if bool_decide (name = "unknown") then None else Some name
                | None => None
                end in
  let raw_name := match preset with Some name => name | None => default "custom" (map_get "name" group ≫= as_str) end in
  let name := canonical_legacy_expression_name raw_name in
  binds ← match map_get "binds" group ≫= as_array with
          | None => Ok []
          | Some bindings => lists ← try_map (decode_legacy_bind meshes name) bindings; Ok (List.concat lists)
          end;
  Ok (name, {| is_binary := default false (map_get "isBinary" group ≫= as_bool); morph_binds := binds;
               override_blink := OverrideNone; override_look_at := OverrideNone; override_mouth := OverrideNone |}).

Fixpoint decode_groups (meshes : GltfMeshes) (index : nat) (groups : list Value) (result : CpuExpressionSet)
    : Prelude.result string CpuExpressionSet :=
  match groups with
  | [] => Ok result
  | group :: groups =>
    '(name, expression) ← decode_legacy_group meshes index group;
    decode_groups meshes (S index) groups (<[name := expression]> result)
  end.
Definition decode_legacy_expressions (root : Value) (meshes : GltfMeshes) : result string CpuExpressionSet :=
  match ((get "extensions" root ≫= get "VRM") ≫= get "blendShapeMaster") ≫= get "blendShapeGroups" with
  | Some (Array groups) => decode_groups meshes 0 groups ∅
  | _ => Ok ∅
  end.

Definition decode_expressions (root : Value) (meshes : GltfMeshes) (version_label : string) : result string CpuExpressionSet :=
  if bool_decide (version_label = "VRM 0.x") then decode_legacy_expressions root meshes
  else
    match ((get "extensions" root ≫= get "VRMC_vrm") ≫= get "expressions") ≫= as_object with
    | None => Ok ∅
    | Some expressions =>
      let entries collection := default [] (map_get collection expressions ≫= as_object) in
      result ← decode_entries (entries "preset") meshes ∅;
      decode_entries (entries "custom") meshes result
    end.

(** ** Look-at *)

Definition decode_range_map (value : option Value) (legacy : bool) : result string RangeMap :=
  match value ≫= as_object with
  | None => Ok default_range_map
  | Some object =>
    let input_key := if legacy then "xRange" else "inputMaxValue" in
    let output_key := if legacy then "yRange" else "outputScale" in
    input ← object_f32_range object input_key (f32_of_Z 90) 0 180 "lookAt range map";
    output ← object_f32_range object output_key (f32_of_Z 10) 0 180 "lookAt range map";
    Ok {| input_max_degrees := input; output_scale := output |}
  end.

Definition look_at_kind (object : Map) (legacy : bool) : result string LookAtKind :=
  if legacy then
    let name := default "Bone" (map_get "lookAtTypeName" object ≫= as_str) in
    if bool_decide (name = "Bone") then Ok LookAtBone
    else if bool_decide (name = "BlendShape") then Ok LookAtExpression
    else Err ("legacy VRM lookAtTypeName " +:+ name +:+ " is invalid")
  else
    let name := default "bone" (map_get "type" object ≫= as_str) in
    if bool_decide (name = "bone") then Ok LookAtBone
    else if bool_decide (name = "expression") then Ok LookAtExpression
    else Err ("VRM lookAt type " +:+ name +:+ " is invalid").

Definition decode_look_at (root : Value) (humanoid : Bindings) (version_label : string) : result string (option CpuLookAt) :=
  let modern := bool_decide (version_label = "VRM 1.0") in
  let value := if modern then (get "extensions" root ≫= get "VRMC_vrm") ≫= get "lookAt"
               else (get "extensions" root ≫= get "VRM") ≫= get "firstPerson" in
  match value with
  | None => Ok None
  | Some value =>
    object ← ok_or (as_object value) "VRM lookAt must be an object";
    kind ← look_at_kind object (negb modern);
    let range name legacy_name := decode_range_map (map_get (if modern then name else legacy_name) object) (negb modern) in
    inner ← range "rangeMapHorizontalInner" "lookAtHorizontalInner";
    outer ← range "rangeMapHorizontalOuter" "lookAtHorizontalOuter";
    down ← range "rangeMapVerticalDown" "lookAtVerticalDown";
    up ← range "rangeMapVerticalUp" "lookAtVerticalUp";
    Ok (Some {| la_kind := kind; left_eye := humanoid !! "leftEye"; right_eye := humanoid !! "rightEye";
                horizontal_inner := inner; horizontal_outer := outer; vertical_down := down; vertical_up := up |})
  end.

(** ** Node constraints *)

Definition parse_roll_axis (value : option string) : result string Vec3 :=
  match value with
  | Some value =>
    if bool_decide (value = "X") then Ok (axis_x f32_1)
    else if bool_decide (value = "Y") then Ok (axis_y f32_1)
    else if bool_decide (value = "Z") then Ok (axis_z f32_1)
    else Err "VRM roll constraint axis must be X, Y, or Z"
  | None => Err "VRM roll constraint axis must be X, Y, or Z"
  end.
Definition parse_aim_axis (value : option string) : result string Vec3 :=
  match value with
  | Some value =>
    if bool_decide (value = "PositiveX") then Ok (axis_x f32_1)
    else if bool_decide (value = "NegativeX") then Ok (axis_x f32_neg_1)
    else if bool_decide (value = "PositiveY") then Ok (axis_y f32_1)
    else if bool_decide (value = "NegativeY") then Ok (axis_y f32_neg_1)
    else if bool_decide (value = "PositiveZ") then Ok (axis_z f32_1)
    else if bool_decide (value = "NegativeZ") then Ok (axis_z f32_neg_1)
    else Err "VRM aim constraint axis is invalid"
  | None => Err "VRM aim constraint axis is invalid"
  end.

Context {Rest : Type}.

(** One node's constraint, if it has one. *)
Definition decode_node_constraint (nodes : list (CpuNode Rest)) (dest : nat) (node : Value)
    : result string (option CpuNodeConstraint) :=
  let error text := "VRM node " +:+ usize_text dest +:+ text in
  match (get "extensions" node ≫= get "VRMC_node_constraint") ≫= as_object with
  | None => Ok None
  | Some extension =>
    if negb (bool_decide (map_get "specVersion" extension ≫= as_str = Some "1.0"))
    then Err (error " supports only VRMC_node_constraint 1.0")
    else
    constraint ← ok_or (map_get "constraint" extension ≫= as_object) (error " constraint object is missing");
    match filter (λ kind, is_Some (map_get kind constraint)) ["roll"; "aim"; "rotation"] with
    | [kind_name] =>
      value ← ok_or (map_get kind_name constraint ≫= as_object) (error (" " +:+ kind_name +:+ " constraint is invalid"));
      source ← json_index_field value "source" (length nodes) "constraint source";
      if (source =? dest)%nat || negb (active_at nodes source) || negb (active_at nodes dest)
      then Err (error " constraint source/destination must be distinct active nodes")
      else
      weight ← object_f32_range value "weight" f32_1 0 1 "node constraint";
      kind ← if bool_decide (kind_name = "rotation") then Ok Rotation
             else if bool_decide (kind_name = "roll")
             then axis ← parse_roll_axis (map_get "rollAxis" value ≫= as_str); Ok (Roll axis)
             else axis ← parse_aim_axis (map_get "aimAxis" value ≫= as_str); Ok (Aim axis);
      Ok (Some {| destination := dest; cn_source := source; cn_weight := weight; cn_kind := kind |})
    | _ => Err (error " constraint must contain exactly one kind")
    end
  end.

(** The dependencies [visit] computes for one constraint. *)
Definition constraint_dependencies (constraints : list CpuNodeConstraint) (nodes : list (CpuNode Rest)) (index : nat) : list nat :=
  match constraints !! index with
  | None => []
  | Some constraint =>
    let by_destination : gmap nat nat := list_to_map (reverse (imap (λ i c, (destination c, i)) constraints)) in
    dedup (sort_nats
      match cn_kind constraint with
      | Rotation | Roll _ => option_list (by_destination !! cn_source constraint)
      | Aim _ =>
        filter (λ dependency, dependency ≠ index ∧
          match constraints !! dependency with
          | Some candidate =>
            is_strict_ancestor nodes (destination candidate) (cn_source constraint)
            || is_strict_ancestor nodes (destination candidate) (destination constraint)
          | None => false
          end = true) (seq 0 (length constraints))
      end)
  end.

Definition order_constraints (constraints : list CpuNodeConstraint) (nodes : list (CpuNode Rest))
    : option (result string (list CpuNodeConstraint)) :=
  match topo_sort (length constraints) (constraint_dependencies constraints nodes) with
  | Some (Ok order) => Some (Ok (omap (constraints !!.) order))
  | Some (Err e) => Some (Err e)
  | None => None
  end.

(** The constraints of all nodes, in the order of the nodes. *)
Fixpoint decode_constraints_from (nodes : list (CpuNode Rest)) (dest : nat) (json_nodes : list Value)
    : result string (list CpuNodeConstraint) :=
  match json_nodes with
  | [] => Ok []
  | node :: json_nodes =>
    constraint ← decode_node_constraint nodes dest node;
    constraints ← decode_constraints_from nodes (S dest) json_nodes;
    Ok (option_list constraint ++ constraints)
  end.

Definition decode_node_constraints (root : Value) (nodes : list (CpuNode Rest))
    : option (result string (list CpuNodeConstraint)) :=
  match (json_nodes ← ok_or (get "nodes" root ≫= as_array) "VRM node array is missing";
         decode_constraints_from nodes 0 json_nodes) with
  | Err e => Some (Err e)
  | Ok constraints => order_constraints constraints nodes
  end.
End rig.

(** ** The order of the constraints *)

Lemma elem_of_insert_nat n m l : m ∈ insert_nat n l ↔ m = n ∨ m ∈ l.
Proof. induction l as [|x l IH]; simpl; [set_solver|]. destruct (n <=? x)%nat; set_solver. Qed.
Lemma elem_of_sort_nats m l : m ∈ sort_nats l ↔ m ∈ l.
Proof. induction l as [|x l IH]; simpl; [done|]. rewrite elem_of_insert_nat. set_solver. Qed.
Lemma elem_of_dedup m l : m ∈ dedup l ↔ m ∈ l.
Proof.
  induction l as [|x [|y l] IH]; [done..|]. cbn [dedup]. destruct (x =? y)%nat eqn:E; [|rewrite !elem_of_cons in *; tauto].
  apply Nat.eqb_eq in E as ->. rewrite IH, !elem_of_cons. tauto.
Qed.

Section order.
Context {Rest : Type} (nodes : list (CpuNode Rest)) (constraints : list CpuNodeConstraint).

(** [ancestor] is above [node] in the graph. *)
Definition above (ancestor node : nat) : Prop := ancestor ≠ node ∧ rtc (up nodes) node ancestor.

(** What a constraint must be evaluated after: a rotation or a roll after the
    constraint that drives its source; an aim after those that drive a node
    above its source or its destination. *)
Definition depends (i d : nat) : Prop :=
  ∃ c e, constraints !! i = Some c ∧ constraints !! d = Some e ∧
    match cn_kind c with
    | Rotation | Roll _ => destination e = cn_source c
    | Aim _ => d ≠ i ∧ (above (destination e) (cn_source c) ∨ above (destination e) (destination c))
    end.

Context (Hrange : parents_in_range nodes).
Context (Hdest : NoDup (destination <$> constraints)).
Context (Hnodes : Forall (λ c, cn_source c < length nodes ∧ destination c < length nodes)%nat constraints).

Lemma strict_ancestor_iff a d : (d < length nodes)%nat → is_strict_ancestor nodes a d = true ↔ above a d.
Proof.
  intros Hd. unfold is_strict_ancestor, above. rewrite andb_true_iff, negb_true_iff, Nat.eqb_neq. by rewrite is_descendant_iff.
Qed.

Lemma by_destination_iff n i :
  (list_to_map (reverse (imap (λ i c, (destination c, i)) constraints)) : gmap nat nat) !! n = Some i ↔
  ∃ e, constraints !! i = Some e ∧ destination e = n.
Proof.
  rewrite <- elem_of_list_to_map.
  - rewrite elem_of_reverse, elem_of_lookup_imap. split; [intros (j & e & E & He); simplify_eq; by exists e|intros (e & He & <-); by exists i, e].
  - rewrite fmap_reverse, reverse_Permutation.
    assert ((imap (λ i c, (destination c, i)) constraints).*1 = destination <$> constraints) as ->; [|done].
    apply list_eq. intros j. rewrite !list_lookup_fmap, list_lookup_imap. by destruct (constraints !! j).
Qed.

Lemma dependencies_iff i d : d ∈ constraint_dependencies constraints nodes i ↔ depends i d.
Proof.
  unfold constraint_dependencies, depends. destruct (constraints !! i) as [c|] eqn:Ec; [|set_solver].
  rewrite elem_of_dedup, elem_of_sort_nats.
  destruct (proj1 (Forall_lookup _ _) Hnodes i c Ec) as [Hs Ht].
  assert (∀ o : option nat, d ∈ option_list o ↔ o = Some d) as Ho by (intros [x|]; simpl; rewrite ?list_elem_of_singleton, ?elem_of_nil; naive_solver).
  destruct (cn_kind c) eqn:Ek; rewrite ?Ho, ?by_destination_iff.
  1,2: split; [intros (e & He & Hd); exists c, e; by rewrite Ek|intros (c' & e & [= <-] & He & Hd); rewrite Ek in Hd; by exists e].
  rewrite list_elem_of_filter, elem_of_seq. split.
  - intros [[Hne E] Hd]. destruct (constraints !! d) as [e|] eqn:Ee; [|done]. exists c, e. rewrite Ek. split_and!; try done.
    rewrite orb_true_iff, !strict_ancestor_iff in E by done. done.
  - intros (c' & e & [= <-] & Ee & Hd). rewrite Ek in Hd. destruct Hd as [Hne Hd]. rewrite Ee.
    split; [split; [done|]|]; [by rewrite orb_true_iff, !strict_ancestor_iff|]. apply lookup_lt_Some in Ee. lia.
Qed.

Lemma tc_iff {A} (R S : A → A → Prop) x y : (∀ a b, R a b ↔ S a b) → tc R x y → tc S x y.
Proof. intros HRS. induction 1; [constructor; by apply HRS|econstructor; [by apply HRS|done]]. Qed.

Lemma omap_lookup_seq {A} (pre l : list A) : omap ((pre ++ l) !!.) (seq (length pre) (length l)) = l.
Proof.
  revert pre. induction l as [|x l IH]; intros pre; [done|]. cbn [length seq omap list_omap]. rewrite list_lookup_middle by done.
  f_equal. specialize (IH (pre ++ [x])). rewrite <- app_assoc, length_app, Nat.add_comm in IH. done.
Qed.
Lemma omap_lookup_perm {A} (l : list A) order : order ≡ₚ seq 0 (length l) → omap (l !!.) order ≡ₚ l.
Proof. intros ->. pose proof (omap_lookup_seq [] l) as E. simpl in E. by rewrite E. Qed.

Lemma order_constraints_exact : ∃ r, order_constraints constraints nodes = Some r ∧
  match r with
  | Ok out => ∃ order, order ≡ₚ seq 0 (length constraints) ∧ out = omap (constraints !!.) order ∧ out ≡ₚ constraints ∧
      (∀ l1 i l2, order = l1 ++ i :: l2 → ∀ d, depends i d → d ∈ l1) ∧ ∀ i, ¬ tc depends i i
  | Err e => e = CIRCULAR ∧ ∃ i, tc depends i i
  end.
Proof.
  unfold order_constraints.
  destruct (topo_exact (length constraints) (constraint_dependencies constraints nodes)) as [(order & E & Hp & Ht & Hc)|[E (i & Hi)]].
  - intros i d _ (c & e & _ & Ee & _)%dependencies_iff. by eapply lookup_lt_Some.
  - rewrite E. eexists. split; [done|]. exists order. split_and!; [done..|by apply omap_lookup_perm| |].
    + intros l1 i l2 Eo d Hd. apply (Ht l1 i l2 Eo). by apply dependencies_iff.
    + intros i Hi. assert (i < length constraints)%nat as Hlt.
      { inversion Hi as [? ? (c & e & Ec & _)|? ? ? (c & e & Ec & _)]; subst; by eapply lookup_lt_Some. }
      apply (Hc i Hlt). eapply tc_iff; [|done]. intros a b. unfold edge. by rewrite dependencies_iff.
  - rewrite E. eexists. split; [done|]. split; [done|]. exists i. eapply tc_iff; [|done]. intros a b. unfold edge. by rewrite dependencies_iff.
Qed.
End order.

(** ** The constraints a model has *)

Section decoded.
Context `{JsonFloat} {Rest : Type} (nodes : list (CpuNode Rest)).

(** Source and destination are distinct active nodes; the weight is in range. *)
Record constraint_ok (c : CpuNodeConstraint) : Prop := {
  ck_distinct : cn_source c ≠ destination c;
  ck_source : active_at nodes (cn_source c) = true;
  ck_destination : active_at nodes (destination c) = true;
  ck_weight : f32_in f32_0 f32_1 (cn_weight c) = true;
}.

Lemma node_constraint_ok dest node : ensures (decode_node_constraint nodes dest node)
  (λ o, match o with Some c => constraint_ok c ∧ destination c = dest | None => True end).
Proof.
  unfold decode_node_constraint. destruct (_ ≫= as_object) as [extension|]; [|by apply ensures_ok].
  case_match; [apply ensures_err|]. step_ensures. case_match; [apply ensures_err|]. case_match; [|apply ensures_err].
  do 2 step_ensures. destruct ((_ =? dest)%nat || _ || _) eqn:E; [apply ensures_err|].
  do 2 step_ensures. apply ensures_ok. split; [|done].
  apply orb_false_iff in E as [[E1 E2]%orb_false_iff E3]. apply Nat.eqb_neq in E1. apply negb_false_iff in E2, E3. by split.
Qed.

Lemma active_lt i : active_at nodes i = true → (i < length nodes)%nat.
Proof. unfold active_at. destruct (nodes !! i) eqn:E; [|done]. intros _. by eapply lookup_lt_Some. Qed.

Lemma constraints_from_ok dest json_nodes : ensures (decode_constraints_from nodes dest json_nodes)
  (λ cs, Forall constraint_ok cs ∧ Forall (λ c, dest ≤ destination c)%nat cs ∧ NoDup (destination <$> cs)).
Proof.
  revert dest. induction json_nodes as [|node json_nodes IH]; intros dest; simpl.
  { apply ensures_ok. split_and!; constructor. }
  eapply ensures_bind; [apply node_constraint_ok|]. intros o Ho. eapply ensures_bind; [apply IH|]. intros cs (F1 & F2 & F3).
  apply ensures_ok. assert (Forall (λ c, dest ≤ destination c)%nat cs) by (eapply Forall_impl; [done|simpl; lia]).
  destruct o as [c|]; [|done]. destruct Ho as [Hok Hd]. simpl. split_and!; [by constructor|constructor; [lia|done]|].
  constructor; [|done]. intros (c' & E & Hc')%list_elem_of_fmap. rewrite Forall_forall in F2. specialize (F2 c' Hc'). lia.
Qed.

Lemma constraint_ok_range c : constraint_ok c → (cn_source c < length nodes ∧ destination c < length nodes)%nat.
Proof. intros [? ? ? ?]. split; by apply active_lt. Qed.

(** The constraints of a model come out so that each is evaluated after
    everything it depends on, whatever their order in the file: the ordering
    always ends, gives every decoded constraint once, and fails exactly when
    the dependencies, which follow the node graph to any depth, are circular.
    Each constraint has distinct active nodes and a weight between 0 and 1. *)
Theorem constraints_exact root : parents_in_range nodes →
  match (json_nodes ← ok_or (get "nodes" root ≫= as_array) "VRM node array is missing"; decode_constraints_from nodes 0 json_nodes) with
  | Err e => decode_node_constraints root nodes = Some (Err e)
  | Ok constraints =>
    Forall constraint_ok constraints ∧
    ((∃ i, tc (depends nodes constraints) i i) ↔ decode_node_constraints root nodes = Some (Err CIRCULAR)) ∧
    ((¬ ∃ i, tc (depends nodes constraints) i i) →
     ∃ order, decode_node_constraints root nodes = Some (Ok (omap (constraints !!.) order)) ∧
       order ≡ₚ seq 0 (length constraints) ∧ omap (constraints !!.) order ≡ₚ constraints ∧
       ∀ l1 i l2, order = l1 ++ i :: l2 → ∀ d, depends nodes constraints i d → d ∈ l1)
  end.
Proof.
  intros Hr. unfold decode_node_constraints. destruct (_ ≫= _) as [constraints|e] eqn:E; [|done].
  apply bind_Ok in E as (json_nodes & _ & E). destruct (constraints_from_ok 0 json_nodes _ E) as (F1 & _ & F3).
  split; [done|]. destruct (order_constraints_exact nodes constraints Hr F3) as (r & -> & Hspec).
  { eapply Forall_impl; [done|]. apply constraint_ok_range. }
  destruct r as [out|e].
  - destruct Hspec as (order & H1 & -> & H3 & H4 & H5). split; [|intros _; by exists order]. split; [intros (i & Hi); by destruct (H5 i)|done].
  - destruct Hspec as [-> Hc]. split; [by split|]. intros Hn. by destruct Hn.
Qed.
End decoded.

(** ** Where a model looks *)

Record range_ok (r : RangeMap) : Prop := {
  ra_input : short (input_max_degrees r) ∧ f32_in f32_0 (f32_of_Z 180) (input_max_degrees r) = true;
  ra_output : short (output_scale r) ∧ f32_in f32_0 (f32_of_Z 180) (output_scale r) = true;
}.

Lemma range_map_ok `{JsonFloat} value legacy : ensures (decode_range_map value legacy) range_ok.
Proof.
  unfold decode_range_map. destruct (value ≫= as_object) as [object|]; [|apply ensures_ok; split; (split; [by apply valid_short|vm_refl])]. cbv zeta.
  eapply ensures_bind; [apply f32_range_short; by apply valid_short|]. intros input Hi.
  eapply ensures_bind; [apply f32_range_short; by apply valid_short|]. intros output Ho. apply ensures_ok. by split.
Qed.

(** The eyes are bones of the model. *)
Record look_at_ok (humanoid : Bindings) (l : CpuLookAt) : Prop := {
  lo_left : left_eye l = humanoid !! "leftEye";
  lo_right : right_eye l = humanoid !! "rightEye";
  lo_inner : range_ok (horizontal_inner l);
  lo_outer : range_ok (horizontal_outer l);
  lo_down : range_ok (vertical_down l);
  lo_up : range_ok (vertical_up l);
}.
Lemma look_at_accepted `{JsonFloat} root humanoid version_label : ensures (decode_look_at root humanoid version_label)
  (λ look_at, ∀ l, look_at = Some l → look_at_ok humanoid l).
Proof.
  unfold decode_look_at. cbv zeta. set (value := if bool_decide _ then _ else _). destruct value as [v|]; [|by apply ensures_ok].
  do 2 (eapply ensures_bind; [apply ensures_any|]; intros ? _). do 4 (eapply ensures_bind; [apply range_map_ok|]; intros ? ?).
  apply ensures_ok. intros l [= <-]. by split.
Qed.

(** ** The expressions a model has *)

(** The node of a binding shows a mesh, every primitive of the mesh has the
    morph target, and the weight is finite and not negative. *)
Definition morph_ok (meshes : GltfMeshes) (b : MorphBind) : Prop :=
  ∃ mesh, node_mesh meshes !! mb_node b = Some (Some mesh) ∧
    Forall (λ targets, mb_target b < targets)%nat (default [] (mesh_targets meshes !! mesh)) ∧
    weight_ok (mb_weight b).
Definition expressions_ok (meshes : GltfMeshes) (expressions : CpuExpressionSet) : Prop :=
  map_Forall (λ _ e, Forall (morph_ok meshes) (morph_binds e)) expressions.

Section expressions.
Context `{JsonFloat} (meshes : GltfMeshes).

Lemma morph_binding_ok node target weight name : weight_ok weight → ensures (validate_morph_binding meshes node target name)
  (λ _, morph_ok meshes {| mb_node := node; mb_target := target; mb_weight := weight |}).
Proof.
  intros Hw. unfold validate_morph_binding. eapply ensures_bind; [apply ensures_ok_or|]. intros mesh Hm.
  eapply ensures_bind; [apply ensures_ok_or|]. intros mesh' ->. destruct (existsb _ _) eqn:E; [apply ensures_err|]. apply ensures_ok.
  exists mesh'. split; [done|]. split; [|done]. apply Forall_forall. intros targets Ht. simpl. destruct (targets <=? target)%nat eqn:El; [|apply Nat.leb_gt in El; lia].
  assert (existsb (λ targets, (targets <=? target)%nat) (default [] (mesh_targets meshes !! mesh')) = true); [|congruence].
  apply existsb_exists. exists targets. split; [by apply list_elem_of_In|done].
Qed.

Lemma morph_bind_ok name binding : ensures (decode_morph_bind meshes name binding) (morph_ok meshes).
Proof.
  unfold decode_morph_bind. do 3 (eapply ensures_bind; [apply ensures_any|]; intros ? _). intros b E.
  apply bind_Ok in E as ([] & Hv & E). apply bind_Ok in E as (weight & Hw%f32_range_ok & [= <-]).
  eapply morph_binding_ok; [|done]. by eapply (range_finite (f32_of_Z 1)).
Qed.
Lemma expression_ok name value : ensures (decode_expression name value meshes) (λ e, Forall (morph_ok meshes) (morph_binds e)).
Proof.
  unfold decode_expression. do 2 (eapply ensures_bind; [apply ensures_any|]; intros ? _).
  eapply (ensures_bind _ _ (Forall (morph_ok meshes))).
  { destruct (map_get "morphTargetBinds" _); [|by apply ensures_ok]. eapply ensures_bind; [apply ensures_any|]. intros bindings _ l E.
    eapply try_map_Forall; [|done]. intros b k. apply morph_bind_ok. }
  intros binds Hb. do 3 (eapply ensures_bind; [apply ensures_any|]; intros ? _). by apply ensures_ok.
Qed.
Lemma entries_ok entries result : expressions_ok meshes result → ensures (decode_entries entries meshes result) (expressions_ok meshes).
Proof.
  revert result. induction entries as [|[name value] entries IH]; intros result Hr; simpl; [by apply ensures_ok|].
  case_match; [apply ensures_err|]. eapply ensures_bind; [apply expression_ok|]. intros e He. by apply IH, map_Forall_insert_2.
Qed.

Lemma legacy_bind_ok name binding : ensures (decode_legacy_bind meshes name binding) (Forall (morph_ok meshes)).
Proof.
  unfold decode_legacy_bind. do 3 (eapply ensures_bind; [apply ensures_any|]; intros ? _).
  eapply ensures_bind; [apply f32_range_short, normalize_short|]. intros weight [Hs Hr]. intros l E.
  eapply try_map_Forall; [|done]. intros node b Hb. apply bind_Ok in Hb as ([] & Hv & [= <-]).
  eapply morph_binding_ok; [by apply hundredth_ok|done].
Qed.
Lemma legacy_group_ok index group : ensures (decode_legacy_group meshes index group) (λ ne, Forall (morph_ok meshes) (morph_binds ne.2)).
Proof.
  unfold decode_legacy_group. eapply ensures_bind; [apply ensures_any|]. intros object _.
  eapply (ensures_bind _ _ (Forall (morph_ok meshes))); [|intros binds Hb; by apply ensures_ok].
  destruct (_ ≫= as_array); [|by apply ensures_ok]. intros k E. apply bind_Ok in E as (lists & El & [= <-]).
  apply Forall_concat. eapply try_map_Forall; [|done]. intros b k0. apply legacy_bind_ok.
Qed.
Lemma groups_ok index groups result : expressions_ok meshes result → ensures (decode_groups meshes index groups result) (expressions_ok meshes).
Proof.
  revert index result. induction groups as [|group groups IH]; intros index result Hr; simpl; [by apply ensures_ok|].
  eapply ensures_bind; [apply legacy_group_ok|]. intros [name e] He. by apply IH, map_Forall_insert_2.
Qed.

Lemma expressions_accepted root label : ensures (decode_expressions root meshes label) (expressions_ok meshes).
Proof.
  assert (expressions_ok meshes ∅) by apply map_Forall_empty.
  unfold decode_expressions, decode_legacy_expressions. case_match.
  - do 2 (case_match; try by apply ensures_ok). by apply groups_ok.
  - case_match; [|by apply ensures_ok]. eapply ensures_bind; [by apply entries_ok|]. intros result Hr. by apply entries_ok.
Qed.
End expressions.
