(* ===== verification/VrmSpring.v ===== *)
(** * Spring bones of a character model (skid-monitor-fe, vrm/loader.rs)

    Colliders and spring chains, from the VRM 1.0 extension or the legacy
    secondary animation.  [springs_exact] shows what the runtime can rely on:
    every index is in range and active, a chain runs down the node graph, and
    no joint is in two VRM 1.0 chains; the search for the chain of a legacy
    root always ends. *)

From S2P Require Import Prelude RustStr Otlp RustFloat FeProfile Json VrmJson VrmOrder VrmGraph VrmHumanoid VrmRig.

Section springs.
Context `{JsonFloat, Glam} {Rest : Type}.

(** ** Colliders *)

Definition decode_shape (index : nat) (value : Map) : result string ColliderShape :=
  shape ← ok_or (map_get "shape" value ≫= as_object) ("SpringBone collider " +:+ usize_text index +:+ " shape is missing");
  match map_get "sphere" shape ≫= as_object, map_get "capsule" shape ≫= as_object with
  | Some sphere, None =>
    offset ← optional_vec3 (map_get "offset" sphere) vec3_zero "sphere offset";
    radius ← object_f32_range sphere "radius" f32_0 0 1000 "sphere collider";
    Ok (Sphere offset radius)
  | None, Some capsule =>
    offset ← optional_vec3 (map_get "offset" capsule) vec3_zero "capsule offset";
    tail ← optional_vec3 (map_get "tail" capsule) vec3_zero "capsule tail";
    radius ← object_f32_range capsule "radius" f32_0 0 1000 "capsule collider";
    Ok (Capsule offset tail radius)
  | _, _ => Err ("SpringBone collider " +:+ usize_text index +:+ " must contain exactly one sphere or capsule")
  end.

Definition decode_collider (nodes : list (CpuNode Rest)) (index : nat) (value : Value) : result string CpuCollider :=
  value ← ok_or (as_object value) ("SpringBone collider " +:+ usize_text index +:+ " must be an object");
  node ← json_index_field value "node" (length nodes) "SpringBone collider node";
  if negb (active_at nodes node)
  then Err ("SpringBone collider " +:+ usize_text index +:+ " references an inactive node")
  else
  shape ← decode_shape index value;
  Ok {| col_node := node; shape := shape |}.

(** [as_u64], [usize::try_from] and the filter of an index below [count] *)
Definition index_below (count : nat) (value : Value) : option nat :=
  index ← as_u64 value ≫= usize_try_from;
  if (index <? count)%nat then Some index else None.

Definition decode_collider_group (count index : nat) (group : Value) : result string (list nat) :=
  values ← ok_or (get "colliders" group ≫= as_array)
             ("SpringBone collider group " +:+ usize_text index +:+ " colliders are missing");
  try_map (λ value, ok_or (index_below count value)
             ("SpringBone collider group " +:+ usize_text index +:+ " references a missing collider")) values.

(** [for (index, value) in values.iter().enumerate()] with errors *)
Fixpoint try_imap {A B} (f : nat → A → result string B) (index : nat) (l : list A) : result string (list B) :=
  match l with
  | [] => Ok []
  | x :: l => y ← f index x; ys ← try_imap f (S index) l; Ok (y :: ys)
  end.

(** ** Springs of VRM 1.0 *)

Definition decode_spring_joint (value : Value) (node_count : nat) : result string CpuSpringJoint :=
  value ← ok_or (as_object value) "SpringBone joint must be an object";
  direction ← optional_vec3 (map_get "gravityDir" value) vec3_down "SpringBone gravityDir";
  node ← json_index_field value "node" node_count "SpringBone joint node";
  radius ← object_f32_range value "hitRadius" f32_0 0 1000 "SpringBone";
  stiff ← object_f32_range value "stiffness" f32_1 0 1000 "SpringBone";
  power ← object_f32_range value "gravityPower" f32_0 0 1000 "SpringBone";
  drag ← object_f32_range value "dragForce" (f32_lit 1 2) 0 1 "SpringBone";
  Ok {| sj_node := node; hit_radius := radius; stiffness := stiff; gravity_power := power;
        gravity_direction := if SFleb (length_squared direction) F32_EPSILON then vec3_down else normalize direction;
        drag_force := drag |}.

(** [!chain_joints.insert(node) || !claimed_joints.insert(node)] *)
Fixpoint claim_joints (joints : list nat) (chain claimed : gset nat) : option (gset nat) :=
  match joints with
  | [] => Some claimed
  | node :: joints =>
    if bool_decide (node ∈ chain) || bool_decide (node ∈ claimed) then None
    else claim_joints joints ({[node]} ∪ chain) ({[node]} ∪ claimed)
  end.

(** [joints.windows(2)] all descend *)
Fixpoint descending (nodes : list (CpuNode Rest)) (joints : list nat) : bool :=
  match joints with
  | upper :: ((lower :: _) as rest) => is_descendant nodes upper lower && descending nodes rest
  | _ => true
  end.

Definition decode_center (nodes : list (CpuNode Rest)) (error : string) (value : Map) (first : nat) : result string (option nat) :=
  match map_get "center" value with
  | None => Ok None
  | Some _ =>
    center ← json_index_field value "center" (length nodes) "SpringBone center";
    if active_at nodes center && is_descendant nodes center first then Ok (Some center) else Err error
  end.

Definition decode_spring (nodes : list (CpuNode Rest)) (groups : list (list nat)) (index : nat) (claimed : gset nat) (value : Value)
    : result string (CpuSpring * gset nat) :=
  let error text := "SpringBone spring " +:+ usize_text index +:+ text in
  value ← ok_or (as_object value) (error " must be an object");
  joints ← ok_or (map_get "joints" value ≫= as_array) (error " joints are missing");
  joints ← try_map (λ joint, decode_spring_joint joint (length nodes)) joints;
  match joints with
  | first :: _ :: _ =>
    if negb (forallb (λ joint, active_at nodes (sj_node joint)) joints) then Err (error " references an inactive node")
    else
    claimed ← ok_or (claim_joints (sj_node <$> joints) ∅ claimed) (error " duplicates a joint used by a spring chain");
    if negb (descending nodes (sj_node <$> joints)) then Err (error " joints must form an ancestor chain")
    else
    center ← decode_center nodes (error " center must be its first joint or an active ancestor") value (sj_node first);
    lists ← match map_get "colliderGroups" value ≫= as_array with
            | None => Ok []
            | Some indices =>
              try_map (λ group, index ← ok_or (index_below (length groups) group) (error " collider group is invalid");
                                Ok (default [] (groups !! index))) indices
            end;
    Ok ({| sp_joints := joints; collider_indices := dedup (sort_nats (List.concat lists)); center := center |}, claimed)
  | _ => Err (error " needs at least two joints")
  end.

Fixpoint decode_springs (nodes : list (CpuNode Rest)) (groups : list (list nat)) (index : nat) (claimed : gset nat)
    (values : list Value) : result string (list CpuSpring) :=
  match values with
  | [] => Ok []
  | value :: values =>
    '(spring, claimed) ← decode_spring nodes groups index claimed value;
    springs ← decode_springs nodes groups (S index) claimed values;
    Ok (spring :: springs)
  end.

Definition array_field (object : Map) (key : string) : list Value := default [] (map_get key object ≫= as_array).

Definition decode_spring_one (nodes : list (CpuNode Rest)) (extension : Map) : result string (list CpuSpring * list CpuCollider) :=
  if negb (bool_decide (map_get "specVersion" extension ≫= as_str = Some "1.0"))
  then Err "only VRMC_springBone 1.0 is supported"
  else
  colliders ← try_imap (decode_collider nodes) 0 (array_field extension "colliders");
  groups ← try_imap (decode_collider_group (length colliders)) 0 (array_field extension "colliderGroups");
  springs ← decode_springs nodes groups 0 ∅ (array_field extension "springs");
  Ok (springs, colliders).

(** ** The legacy secondary animation *)

Definition decode_legacy_joint_template (value : Map) : result string CpuSpringJoint :=
  direction ← optional_vec3 (map_get "gravityDir" value) vec3_down "legacy SpringBone gravityDir";
  radius ← object_f32_range value "hitRadius" f32_0 0 1000 "legacy SpringBone";
  stiff ← object_f32_range value "stiffiness" f32_1 0 1000 "legacy SpringBone";
  power ← object_f32_range value "gravityPower" f32_0 0 1000 "legacy SpringBone";
  drag ← object_f32_range value "dragForce" (f32_lit 1 2) 0 1 "legacy SpringBone";
  Ok {| sj_node := 0; hit_radius := radius; stiffness := stiff; gravity_power := power;
        gravity_direction := normalize_or_zero direction; drag_force := drag |}.

Definition decode_legacy_collider (node : nat) (collider : Value) : result string CpuCollider :=
  collider ← ok_or (as_object collider) "legacy SpringBone collider must be an object";
  offset ← optional_vec3 (map_get "offset" collider) vec3_zero "legacy collider offset";
  radius ← object_f32_range collider "radius" f32_0 0 1000 "legacy collider";
  Ok {| col_node := node; shape := Sphere offset radius |}.

(** The colliders so far, and the indices of each group. *)
Fixpoint decode_legacy_groups (nodes : list (CpuNode Rest)) (values : list Value) (colliders : list CpuCollider)
    (groups : list (list nat)) : result string (list CpuCollider * list (list nat)) :=
  match values with
  | [] => Ok (colliders, groups)
  | group :: values =>
    group ← ok_or (as_object group) "legacy SpringBone collider group must be an object";
    node ← json_index_field group "node" (length nodes) "legacy collider node";
    if negb (active_at nodes node) then Err "legacy SpringBone collider references an inactive node"
    else
    new ← try_map (decode_legacy_collider node) (array_field group "colliders");
    decode_legacy_groups nodes values (colliders ++ new) (groups ++ [seq (length colliders) (length new)])
  end.

(** [nodes.iter().enumerate().find_map(..)]: the first child *)
Definition first_child (nodes : list (CpuNode Rest)) (node : nat) : option nat :=
  find (λ i, bool_decide (parent_at nodes i = Some node)) (seq 0 (length nodes)).

(** The [while let] from the last node of the chain; [None] when the fuel ends. *)
Fixpoint legacy_chain (fuel : nat) (nodes : list (CpuNode Rest)) (chain : list nat) (tip : nat) : option (list nat) :=
  match first_child nodes tip with
  | None => Some chain
  | Some child =>
    if bool_decide (child ∈ chain) then Some chain
    else match fuel with
         | O => None
         | S fuel => legacy_chain fuel nodes (chain ++ [child]) child
         end
  end.

Definition legacy_center (nodes : list (CpuNode Rest)) (group : Map) : result string (option nat) :=
  match map_get "center" group ≫= as_i64 with
  | None => Ok None
  | Some index =>
    if index =? -1 then Ok None
    else match usize_try_from index with
         | Some index =>
           if (index <? length nodes)%nat && active_at nodes index then Ok (Some index)
           else Err "legacy SpringBone center is invalid"
         | None => Err "legacy SpringBone center is invalid"
         end
  end.

(** The spring of one root, if its chain has two nodes; the fuel of the chain is
    the number of nodes. *)
Definition decode_legacy_root (nodes : list (CpuNode Rest)) (template : CpuSpringJoint) (indices : list nat) (center : option nat)
    (root : Value) : option (result string (list CpuSpring)) :=
  match index_below (length nodes) root with
  | None => Some (Err "legacy SpringBone root is invalid")
  | Some root =>
    if negb (active_at nodes root) || match center with Some center => negb (is_descendant nodes center root) | None => false end
    then Some (Err "legacy SpringBone root must be active and descend from its center")
    else
    match legacy_chain (length nodes) nodes [root] root with
    | None => None
    | Some chain =>
      Some (Ok (if (2 <=? length chain)%nat then
        [{| sp_joints := (λ node, {| sj_node := node; hit_radius := hit_radius template; stiffness := stiffness template;
                                     gravity_power := gravity_power template; gravity_direction := gravity_direction template;
                                     drag_force := drag_force template |}) <$> chain;
            collider_indices := indices; center := center |}] else []))
    end
  end.

(** A loop of fallible bodies that may run out of fuel. *)
Fixpoint collect_springs {A} (f : A → option (result string (list CpuSpring))) (l : list A) : option (result string (list CpuSpring)) :=
  match l with
  | [] => Some (Ok [])
  | x :: l =>
    match f x with
    | Some (Ok springs) =>
      match collect_springs f l with Some (Ok rest) => Some (Ok (springs ++ rest)) | r => r end
    | r => r
    end
  end.

Definition decode_bone_group (nodes : list (CpuNode Rest)) (groups : list (list nat)) (value : Value)
    : option (result string (list CpuSpring)) :=
  match (group ← ok_or (as_object value) "legacy SpringBone bone group must be an object";
         roots ← ok_or (map_get "bones" group ≫= as_array) "legacy SpringBone bones are missing";
         template ← decode_legacy_joint_template group;
         center ← legacy_center nodes group;
         lists ← try_map (λ value, index ← ok_or (index_below (length groups) value) "legacy SpringBone references an invalid collider group";
                                   Ok (default [] (groups !! index))) (array_field group "colliderGroups");
         Ok (roots, template, center, List.concat lists)) with
  | Err e => Some (Err e)
  | Ok (roots, template, center, indices) => collect_springs (decode_legacy_root nodes template indices center) roots
  end.

Definition decode_legacy_spring_bones (root : Value) (nodes : list (CpuNode Rest))
    : option (result string (list CpuSpring * list CpuCollider)) :=
  match ((get "extensions" root ≫= get "VRM") ≫= get "secondaryAnimation") ≫= as_object with
  | None => Some (Ok ([], []))
  | Some secondary =>
    match decode_legacy_groups nodes (array_field secondary "colliderGroups") [] [] with
    | Err e => Some (Err e)
    | Ok (colliders, groups) =>
      match collect_springs (decode_bone_group nodes groups) (array_field secondary "boneGroups") with
      | Some (Ok springs) => Some (Ok (springs, colliders))
      | Some (Err e) => Some (Err e)
      | None => None
      end
    end
  end.

Definition decode_spring_bones (root : Value) (nodes : list (CpuNode Rest)) (version_label : string)
    : option (result string (list CpuSpring * list CpuCollider)) :=
  if bool_decide (version_label = "VRM 0.x") then decode_legacy_spring_bones root nodes
  else
    match (get "extensions" root ≫= get "VRMC_springBone") ≫= as_object with
    | None => Some (Ok ([], []))
    | Some extension => Some (decode_spring_one nodes extension)
    end.
End springs.

(** ** What the runtime can rely on *)

Definition thousand (f : f32) : Prop := f32_in f32_0 (f32_of_Z 1000) f = true.

Record joint_ok (j : CpuSpringJoint) : Prop := {
  jo_radius : thousand (hit_radius j);
  jo_stiffness : thousand (stiffness j);
  jo_power : thousand (gravity_power j);
  jo_drag : f32_in f32_0 f32_1 (drag_force j) = true;
}.

Definition shape_ok (s : ColliderShape) : Prop :=
  match s with
  | Sphere offset radius => finite3 offset ∧ thousand radius
  | Capsule offset tail radius => finite3 offset ∧ finite3 tail ∧ thousand radius
  end.

(** Consecutive joints: each is below the one before it. *)
Fixpoint runs_down {Rest} (nodes : list (CpuNode Rest)) (joints : list nat) : Prop :=
  match joints with
  | upper :: ((lower :: _) as rest) => rtc (up nodes) lower upper ∧ runs_down nodes rest
  | _ => True
  end.

Record collider_ok {Rest} (nodes : list (CpuNode Rest)) (c : CpuCollider) : Prop := {
  co_active : active_at nodes (col_node c) = true;
  co_shape : shape_ok (shape c);
}.

Record spring_ok {Rest} (nodes : list (CpuNode Rest)) (colliders : nat) (s : CpuSpring) : Prop := {
  so_two : (2 ≤ length (sp_joints s))%nat;
  so_active : Forall (λ j, active_at nodes (sj_node j) = true) (sp_joints s);
  so_down : runs_down nodes (sj_node <$> sp_joints s);
  so_joints : Forall joint_ok (sp_joints s);
  so_colliders : Forall (λ i, i < colliders)%nat (collider_indices s);
  so_center c : center s = Some c → active_at nodes c = true ∧
    ∃ first, head (sj_node <$> sp_joints s) = Some first ∧ rtc (up nodes) first c;
}.

(** Below an active node everything is active, as in the graph of a scene. *)
Definition active_closed {Rest} (nodes : list (CpuNode Rest)) : Prop :=
  ∀ c p, up nodes c p → active_at nodes p = true → active_at nodes c = true.

#[export] Hint Extern 1 (finite3 _) => exact eq_refl : ensures.

Lemma shape_accepted `{JsonFloat} index value : ensures (decode_shape index value) shape_ok.
Proof.
  unfold decode_shape. step_ensures. repeat case_match; try apply ensures_err; repeat step_ensures; by apply ensures_ok.
Qed.
#[export] Hint Resolve shape_accepted : ensures.

Lemma collider_accepted `{JsonFloat} {Rest} (nodes : list (CpuNode Rest)) index value :
  ensures (decode_collider nodes index value) (collider_ok nodes).
Proof.
  unfold decode_collider. do 2 step_ensures. case_match eqn:Ea; [apply ensures_err|]. apply negb_false_iff in Ea.
  step_ensures. by apply ensures_ok.
Qed.

Lemma index_below_lt count value i : index_below count value = Some i → (i < count)%nat.
Proof.
  unfold index_below. destruct (as_u64 value ≫= usize_try_from) as [j|]; simpl; [|done].
  destruct (j <? count)%nat eqn:E; [|done]. apply Nat.ltb_lt in E. naive_solver.
Qed.

Lemma try_imap_ok {A B} (f : nat → A → result string B) P index l : (∀ i x, ensures (f i x) P) → ensures (try_imap f index l) (Forall P).
Proof.
  intros Hf. revert index. induction l as [|x l IH]; intros index; simpl; [by apply ensures_ok|].
  eapply ensures_bind; [apply Hf|]. intros y Hy. eapply ensures_bind; [apply IH|]. intros ys Hys. apply ensures_ok. by constructor.
Qed.

Lemma try_map_ok {A B} (f : A → result string B) P l : (∀ x, ensures (f x) P) → ensures (try_map f l) (Forall P).
Proof. intros Hf k. apply try_map_Forall. intros x y. apply Hf. Qed.

Lemma group_accepted count index group : ensures (decode_collider_group count index group) (Forall (λ i, i < count)%nat).
Proof.
  unfold decode_collider_group. step_ensures. apply try_map_ok. intros v i E%ok_or_Ok. by eapply index_below_lt.
Qed.

Lemma joint_accepted `{JsonFloat, Glam} value n : ensures (decode_spring_joint value n) joint_ok.
Proof. unfold decode_spring_joint. repeat step_ensures. by apply ensures_ok. Qed.

Lemma template_accepted `{JsonFloat, Glam} value : ensures (decode_legacy_joint_template value) joint_ok.
Proof. unfold decode_legacy_joint_template. repeat step_ensures. by apply ensures_ok. Qed.

Lemma claim_spec joints chain claimed claimed' : claim_joints joints chain claimed = Some claimed' → chain ⊆ claimed →
  NoDup joints ∧ (∀ j, j ∈ joints → j ∉ claimed) ∧ claimed' = list_to_set joints ∪ claimed.
Proof.
  revert chain claimed. induction joints as [|j joints IH]; intros chain claimed E Hsub; simpl in E.
  - injection E as <-. split_and!; [apply NoDup_nil_2|set_solver|set_solver].
  - destruct (_ || _) eqn:Ej; [done|]. apply orb_false_iff in Ej as [E1 E2]. to_prop.
    apply IH in E as (N & D & ->); [|set_solver]. split_and!; [constructor; [|done]; intros Hj; by apply (D j Hj), elem_of_union_l, elem_of_singleton| |set_solver].
    intros k [->|Hk]%elem_of_cons; [done|]. specialize (D k Hk). set_solver.
Qed.

Section accepted.
Context `{JsonFloat, Glam} {Rest : Type} (nodes : list (CpuNode Rest)).
Context (Hrange : parents_in_range nodes).

Lemma descending_down joints : Forall (λ i, active_at nodes i = true) joints → descending nodes joints = true → runs_down nodes joints.
Proof.
  induction joints as [|x [|y joints] IH]; [done..|]. intros [Hx Hf]%Forall_cons [E1 E2]%andb_true_iff. split; [|by apply IH].
  apply is_descendant_iff in E1; [done..|]. apply Forall_cons in Hf as [Hy _]. by apply active_lt.
Qed.

Lemma concat_below count (lists : list (list nat)) : Forall (Forall (λ i, i < count)%nat) lists → Forall (λ i, i < count)%nat (List.concat lists).
Proof. induction 1; simpl; [constructor|]. by apply Forall_app. Qed.

Lemma groups_picked count groups (error : string) indices : Forall (Forall (λ i, i < count)%nat) groups →
  ensures (try_map (λ group, index ← ok_or (index_below (length groups) group) error; Ok (default [] (groups !! index))) indices)
    (Forall (Forall (λ i, i < count)%nat)).
Proof.
  intros Hg. apply try_map_ok. intros v. step_ensures. apply ensures_ok. destruct (groups !! a) as [l|] eqn:El; simpl; [|constructor].
  by apply (proj1 (Forall_lookup _ _) Hg a).
Qed.

Lemma center_accepted error value first : (first < length nodes)%nat → ensures (decode_center nodes error value first)
  (λ o, ∀ c, o = Some c → active_at nodes c = true ∧ rtc (up nodes) first c).
Proof.
  intros Hf. unfold decode_center. destruct (map_get "center" value); [|by apply ensures_ok]. step_ensures.
  destruct (_ && _) eqn:E; [|apply ensures_err]. apply andb_true_iff in E as [E1 E2]. apply ensures_ok.
  intros c [= <-]. split; [done|]. by apply is_descendant_iff in E2.
Qed.

Lemma spring_accepted count groups index claimed value : Forall (Forall (λ i, i < count)%nat) groups →
  ensures (decode_spring nodes groups index claimed value)
    (λ sc, spring_ok nodes count sc.1 ∧ NoDup (sj_node <$> sp_joints sc.1) ∧
       (∀ j, j ∈ sj_node <$> sp_joints sc.1 → j ∉ claimed) ∧ sc.2 = list_to_set (sj_node <$> sp_joints sc.1) ∪ claimed).
Proof.
  intros Hg. unfold decode_spring. do 2 step_ensures. eapply ensures_bind.
  { apply (try_map_ok _ joint_ok). intros x. apply joint_accepted. }
  intros joints Hj. destruct joints as [|first [|second joints]]; try apply ensures_err.
  case_match eqn:Ea; [apply ensures_err|]. apply negb_false_iff in Ea. pose proof (proj1 (forallb_forall _ _) Ea) as Ha. clear Ea.
  eapply ensures_bind; [apply ensures_ok_or|]. intros claimed' Hc. apply claim_spec in Hc as (Hn & Hd & ->); [|set_solver].
  assert (Forall (λ j, active_at nodes (sj_node j) = true) (first :: second :: joints)) as Hact.
  { apply Forall_forall. intros j Hin. apply Ha. by apply list_elem_of_In. }
  case_match eqn:Ed; [apply ensures_err|]. apply negb_false_iff in Ed. apply descending_down in Ed; [|by apply Forall_fmap].
  eapply ensures_bind; [apply center_accepted|]. { apply active_lt. by apply Forall_cons in Hact as [? _]. }
  intros o Ho. eapply ensures_bind.
  { instantiate (1 := Forall (Forall (λ i, i < count)%nat)). case_match; [by apply groups_picked|by apply ensures_ok]. }
  intros lists Hl. apply ensures_ok. cbn [fst snd sp_joints]. split; [|done]. split; try done; cbn [sp_joints collider_indices center].
  - simpl. lia.
  - apply Forall_forall. intros i. rewrite elem_of_dedup, elem_of_sort_nats. revert i. apply Forall_forall. by apply concat_below.
  - intros c Hc. destruct (Ho c Hc). split; [done|]. by exists (sj_node first).
Qed.

Definition joints_of (springs : list CpuSpring) : list nat := List.concat ((λ s, sj_node <$> sp_joints s) <$> springs).

Lemma springs_accepted count groups index claimed values : Forall (Forall (λ i, i < count)%nat) groups →
  ensures (decode_springs nodes groups index claimed values)
    (λ springs, Forall (spring_ok nodes count) springs ∧ NoDup (joints_of springs) ∧ ∀ j, j ∈ joints_of springs → j ∉ claimed).
Proof.
  intros Hg. revert index claimed. induction values as [|value values IH]; intros index claimed; simpl.
  { apply ensures_ok. split_and!; [done|apply NoDup_nil_2|set_solver]. }
  eapply ensures_bind; [by apply (spring_accepted count)|]. intros [spring claimed'] (S1 & S2 & S3 & S4). simpl in *.
  eapply ensures_bind; [apply IH|]. intros springs (F1 & F2 & F3). apply ensures_ok. unfold joints_of in *. cbn [fmap list_fmap List.concat].
  subst claimed'. split_and!; [by constructor| |].
  - apply NoDup_app. split_and!; [done| |done]. intros j Hj Hj'. apply (F3 j Hj'). apply elem_of_union_l. by apply elem_of_list_to_set.
  - intros j [Hj|Hj]%elem_of_app; [by apply S3|]. specialize (F3 j Hj). set_solver.
Qed.
End accepted.

Section legacy.
Context `{JsonFloat, Glam} {Rest : Type} (nodes : list (CpuNode Rest)).
Context (Hrange : parents_in_range nodes) (Hclosed : active_closed nodes).

Lemma runs_down_snoc l y x : runs_down nodes l → last l = Some y → rtc (up nodes) x y → runs_down nodes (l ++ [x]).
Proof.
  induction l as [|a [|b l] IH]; [done|intros _ [= ->] Hx; by split|]. intros [Hab Hl] Hy Hx. split; [done|]. by apply IH.
Qed.

(** The chain found so far: it starts at the root, runs down to the tip, and has
    no node twice. *)
Record chain_inv (root : nat) (chain : list nat) (tip : nat) : Prop := {
  ch_head : head chain = Some root;
  ch_last : last chain = Some tip;
  ch_down : runs_down nodes chain;
  ch_active : Forall (λ i, active_at nodes i = true) chain;
  ch_nodup : NoDup chain;
}.

Lemma legacy_chain_ok fuel root chain tip : chain_inv root chain tip → (length nodes < fuel + length chain)%nat →
  ∃ chain' tip', legacy_chain fuel nodes chain tip = Some chain' ∧ chain_inv root chain' tip'.
Proof.
  revert chain tip. induction fuel as [|fuel IH]; intros chain tip Hinv Hf.
  - assert (length chain ≤ length nodes)%nat; [|lia]. apply NoDup_below; [apply (ch_nodup _ _ _ Hinv)|].
    eapply Forall_impl; [apply (ch_active _ _ _ Hinv)|]. apply active_lt.
  - simpl. destruct (first_child nodes tip) as [child|] eqn:Ec; [|eauto].
    destruct (bool_decide (child ∈ chain)) eqn:Em; to_prop; [eauto|].
    apply (IH (chain ++ [child]) child); [|rewrite length_app; simpl; lia].
    unfold first_child in Ec. apply find_some in Ec as [_ Ec]. to_prop. destruct Hinv as [I1 I2 I3 I4 I5]. split.
    + by destruct chain.
    + apply last_snoc.
    + apply (runs_down_snoc chain tip); [done..|]. by apply rtc_once.
    + apply Forall_app. split; [done|]. apply Forall_singleton. apply (Hclosed child tip); [done|].
      apply (proj1 (Forall_forall _ _) I4). by apply last_Some_elem_of.
    + apply NoDup_app. split_and!; [done| |apply NoDup_singleton]. set_solver.
Qed.

Lemma legacy_root_ok count template indices o value : joint_ok template → Forall (λ i, i < count)%nat indices →
  (∀ c, o = Some c → active_at nodes c = true) →
  ∃ r, decode_legacy_root nodes template indices o value = Some r ∧ ensures r (Forall (spring_ok nodes count)).
Proof.
  intros Ht Hi Ho. unfold decode_legacy_root. destruct (index_below (length nodes) value) as [root|] eqn:Er; [|eexists; split; [done|apply ensures_err]].
  apply index_below_lt in Er. destruct (_ || _) eqn:E; [eexists; split; [done|apply ensures_err]|].
  apply orb_false_iff in E as [Ea Ec]. apply negb_false_iff in Ea.
  destruct (legacy_chain_ok (length nodes) root [root] root) as (chain & tip & -> & Hinv); [|simpl; lia|].
  { split; try done; [by constructor|apply NoDup_singleton]. }
  eexists. split; [done|]. apply ensures_ok. destruct (2 <=? length chain)%nat eqn:E2; [|constructor]. apply Nat.leb_le in E2.
  apply Forall_singleton. destruct Hinv as [I1 I2 I3 I4 I5].
  split; cbn [sp_joints collider_indices center]; rewrite <- ?list_fmap_compose; [by rewrite length_fmap| | | |done|].
  - apply Forall_fmap. done.
  - rewrite list_fmap_id. done.
  - apply Forall_fmap, Forall_forall. intros i _. destruct Ht as [? ? ? ?]. by split.
  - intros c ->. split; [by apply Ho|]. exists root. rewrite list_fmap_id. split; [done|].
    apply negb_false_iff in Ec. by apply is_descendant_iff in Ec.
Qed.

Lemma collect_springs_ok {A} (f : A → option (result string (list CpuSpring))) (P : CpuSpring → Prop) l :
  (∀ x, ∃ r, f x = Some r ∧ ensures r (Forall P)) → ∃ r, collect_springs f l = Some r ∧ ensures r (Forall P).
Proof.
  intros Hf. induction l as [|x l (r & Hr & Hp)]; simpl; [eexists; split; [done|by apply ensures_ok]|].
  destruct (Hf x) as (r1 & -> & H1). destruct r1 as [springs|e]; [|eexists; split; [done|apply ensures_err]]. rewrite Hr.
  destruct r as [rest|e]; [|eexists; split; [done|apply ensures_err]]. eexists. split; [done|]. apply ensures_ok.
  apply Forall_app. split; [by apply H1|by apply Hp].
Qed.

Lemma legacy_center_ok group : ensures (legacy_center nodes group) (λ o, ∀ c, o = Some c → active_at nodes c = true).
Proof.
  unfold legacy_center. repeat case_match; try apply ensures_err; try by apply ensures_ok.
  apply ensures_ok. intros c [= <-]. match goal with E : (_ && _) = true |- _ => by apply andb_true_iff in E as [_ ?] end.
Qed.

Lemma bone_group_ok count groups value : Forall (Forall (λ i, i < count)%nat) groups →
  ∃ r, decode_bone_group nodes groups value = Some r ∧ ensures r (Forall (spring_ok nodes count)).
Proof.
  intros Hg. unfold decode_bone_group.
  match goal with |- context [match ?r with Ok _ => _ | Err _ => _ end] =>
    assert (ensures r (λ '(roots, template, center, indices), joint_ok template ∧ Forall (λ i, i < count)%nat indices ∧
      ∀ c, center = Some c → active_at nodes c = true)) as Hr end.
  { do 2 step_ensures. eapply ensures_bind; [apply template_accepted|]. intros template Ht.
    eapply ensures_bind; [apply legacy_center_ok|]. intros o Ho. eapply ensures_bind; [by apply (groups_picked count)|].
    intros lists Hl. apply ensures_ok. split_and!; [done|by apply concat_below|done]. }
  destruct (_ ≫= _) as [[[[roots template] center] indices]|e]; [|eexists; split; [done|apply ensures_err]].
  destruct (Hr _ eq_refl) as (Ht & Hi & Hc). apply collect_springs_ok. intros root. by apply legacy_root_ok.
Qed.

Lemma legacy_collider_ok node value : active_at nodes node = true → ensures (decode_legacy_collider node value) (collider_ok nodes).
Proof. intros Ha. unfold decode_legacy_collider. repeat step_ensures. apply ensures_ok. by split. Qed.

Lemma legacy_groups_ok values colliders groups : Forall (collider_ok nodes) colliders →
  Forall (Forall (λ i, i < length colliders)%nat) groups →
  ensures (decode_legacy_groups nodes values colliders groups)
    (λ '(colliders, groups), Forall (collider_ok nodes) colliders ∧ Forall (Forall (λ i, i < length colliders)%nat) groups).
Proof.
  revert colliders groups. induction values as [|value values IH]; intros colliders groups Hc Hg; simpl; [by apply ensures_ok|].
  do 2 step_ensures. case_match eqn:Ea; [apply ensures_err|]. apply negb_false_iff in Ea.
  eapply ensures_bind; [apply try_map_ok; intros x; by apply legacy_collider_ok|]. intros new Hnew. apply IH; [by apply Forall_app|].
  rewrite length_app. apply Forall_app. split.
  - eapply Forall_impl; [done|]. intros l Hl. eapply Forall_impl; [done|]. simpl. lia.
  - apply Forall_singleton, Forall_forall. intros i Hi%elem_of_seq. lia.
Qed.

(** Decoding the spring bones of a model always ends, also the search for
    the chains below the legacy roots.  Of what it accepts, colliders are
    finite shapes on active nodes; a spring has at least two joints, all on
    active nodes, each below the one before it, with parameters in range; its
    colliders exist and its center is an active node above its first joint;
    and no node is a joint of two VRM 1.0 springs, or twice of one. *)
Theorem springs_exact root version_label :
  ∃ r, decode_spring_bones root nodes version_label = Some r ∧
    ∀ springs colliders, r = Ok (springs, colliders) →
      Forall (collider_ok nodes) colliders ∧ Forall (spring_ok nodes (length colliders)) springs ∧
      (version_label ≠ "VRM 0.x" → NoDup (joints_of springs)).
Proof.
  unfold decode_spring_bones, decode_legacy_spring_bones. destruct (bool_decide (version_label = "VRM 0.x")) eqn:El; to_prop.
  - destruct (_ ≫= as_object) as [secondary|]; [|eexists; split; [done|]; by intros ? ? [= <- <-]].
    pose proof (legacy_groups_ok (array_field secondary "colliderGroups") [] []) as Hg.
    destruct (decode_legacy_groups _ _ _ _) as [[cols groups]|e]; [|eexists; split; [done|]; by intros ? ? [=]].
    destruct (Hg ltac:(done) ltac:(done) _ eq_refl) as [Hc Hgr].
    destruct (collect_springs_ok (decode_bone_group nodes groups) (spring_ok nodes (length cols)) (array_field secondary "boneGroups"))
      as (r & -> & Hr); [intros v; by apply bone_group_ok|].
    destruct r as [springs|e]; (eexists; split; [done|]); [|by intros ? ? [=]]. intros ? ? [= <- <-]. split_and!; [done|by apply Hr|done].
  - destruct (_ ≫= as_object) as [extension|]; (eexists; split; [done|]).
    2:{ intros ? ? [= <- <-]. split_and!; [done..|]. intros _. apply NoDup_nil_2. }
    intros springs colliders. unfold decode_spring_one. case_match; [done|]. intros E.
    apply bind_Ok in E as (cols & Ec & E). apply bind_Ok in E as (groups & Eg & E). apply bind_Ok in E as (ss & Es & [= <- <-]).
    pose proof (try_imap_ok _ _ _ _ (collider_accepted nodes) _ Ec) as Hc.
    pose proof (try_imap_ok _ _ _ _ (group_accepted (length cols)) _ Eg) as Hg.
    destruct (springs_accepted nodes Hrange (length cols) groups 0 ∅ _ Hg _ Es) as (F1 & F2 & _). done.
Qed.
End legacy.
