(* ===== verification/VrmPlayback.v ===== *)
(** * What the animation code guarantees (skid-monitor-fe, vrm/animation.rs)

    [clips_accepted]: the clips the decoder accepts are well formed, within
    the limits, and move only the nodes they may.  [playback_total]: playing
    an accepted clip at any finite time samples only keyframes that exist and
    never hits one of the panics of indexing and subtraction. *)

From stdpp Require Import sorting.
From S2P Require Import Prelude RustStr Otlp RustFloat FeProfile Json VrmJson VrmGlb VrmOrder VrmGraph VrmBuffers VrmAnimation VrmFloat.

(** ** Keyframe times *)

(** Not empty, finite, from zero on, each later than the one before. *)
Record times_ok (times : list f32) : Prop := {
  ti_first : ∃ first, head times = Some first ∧ SFltb first f32_0 = false;
  ti_finite : Forall (λ t, is_finite t = true) times;
  ti_sorted : StronglySorted (λ a b, SFltb a b = true) times;
}.

Lemma SFltb_trans x y z : SFltb x y = true → SFltb y z = true → is_finite x = true → is_finite z = true → SFltb x z = true.
Proof.
  intros H1 H2 Fx Fz. destruct (SFltb x z) eqn:E; [done|]. apply SFleb_not_lt in E; [|done..].
  assert (SFleb y x = true) as H3. { eapply SFltb_leb_trans; [exact H2|exact E]. }
  unfold SFltb in H1. unfold SFleb in H3. rewrite (SFcompare_swap x y) in H3. by destruct (SFcompare x y) as [[]|].
Qed.

Lemma increasing_sorted times : Forall (λ t, is_finite t = true) (take 1 times) → increasing times = true →
  Forall (λ t, is_finite t = true) times ∧ StronglySorted (λ a b, SFltb a b = true) times.
Proof.
  induction times as [|a times IH]; intros Hf Hi; [split; constructor|].
  assert (is_finite a = true) by (by inversion Hf).
  destruct times as [|b times]; [split; repeat constructor; done|]. cbn [increasing] in Hi.
  apply andb_true_iff in Hi as [Hb Hi]. apply negb_true_iff, orb_false_iff in Hb as [Hb1%negb_false_iff Hb2].
  destruct IH as [F S]; [by apply Forall_singleton|done|]. split; [by constructor|]. constructor; [done|].
  assert (SFltb a b = true) as Hab by (apply SFleb_total; [by destruct b|by destruct a|done]).
  inversion S as [|? ? S' Hall]; subst. constructor; [done|].
  inversion F as [|? ? _ F']; subst. rewrite Forall_forall in Hall, F' |- *. intros x Hx. eapply SFltb_trans; eauto.
Qed.
Lemma times_accepted times : ensures (validate_times times) (λ _, times_ok times).
Proof.
  destruct times as [|first times]; [apply ensures_err|]. unfold validate_times. destruct (_ || _) eqn:E; [apply ensures_err|].
  apply orb_false_iff in E as [E1 E2%negb_false_iff]. destruct (negb _) eqn:Ei; [apply ensures_err|]. apply negb_false_iff in Ei.
  apply ensures_ok. destruct (increasing_sorted (first :: times)) as [F S]; [by apply Forall_singleton|done|]. split; [by exists first|done..].
Qed.

(** The keys up to a time are a prefix, so that the binary search of
    [partition_point] and the scan agree. *)
Lemma partition_point_spec times time i key : times_ok times → times !! i = Some key →
  SFleb key time = true ↔ (i < partition_point time times)%nat.
Proof.
  intros [_ F S]. revert i key. induction S as [|k times S IH Hall]; intros i key Hi; [done|]. simpl.
  inversion F as [|? ? Fk F']; subst. destruct i as [|i]; simpl in Hi.
  - injection Hi as ->. destruct (SFleb key time); [split; [lia|done]|]. split; [done|lia].
  - destruct (SFleb k time) eqn:E; [rewrite IH by done; lia|]. split; [|lia]. intros Hle.
    assert (SFltb k key = true) as Hk by (rewrite Forall_forall in Hall; by eapply Hall, list_elem_of_lookup_2).
    pose proof (SFltb_leb_trans _ _ _ Hk Hle). congruence.
Qed.
Lemma partition_point_le time times : (partition_point time times ≤ length times)%nat.
Proof. induction times as [|k times IH]; simpl; [lia|]. case_match; lia. Qed.

(** The keyframes sampled exist, and are the last one up to the time and the
    first one after it. *)
Lemma sample_interval_ok times time : times_ok times → number time → ∃ lo hi factor span,
  sample_interval times time = Some (lo, hi, factor, span) ∧ (lo ≤ hi < length times)%nat ∧
  (lo ≠ hi → hi = S lo ∧ ∃ low high, times !! lo = Some low ∧ times !! hi = Some high ∧
     SFleb low time = true ∧ SFltb time high = true).
Proof.
  intros Ht Hn. destruct (ti_first _ Ht) as (first & Hf & _). destruct times as [|f times]; [done|]. injection Hf as ->.
  unfold sample_interval. simpl ((_ :: _) !! 0%nat). cbn [mbind option_bind].
  destruct ((length (first :: times) =? 1)%nat || SFleb time first) eqn:E; [exists 0%nat, 0%nat, f32_0, f32_0; split; [done|simpl; lia]|]. apply orb_false_iff in E as [E1 E2].
  set (l := first :: times) in *. assert (l !! 0%nat = Some first) as H0 by done.
  assert (is_finite first = true) by (pose proof (ti_finite _ Ht) as F; by inversion F).
  assert (0 < partition_point time l)%nat as Hpos.
  { apply (partition_point_spec l time 0 first Ht H0). apply SFleb_lt, SFleb_total; [done|by destruct first|done]. }
  destruct (length l <=? partition_point time l)%nat eqn:E3.
  { exists (length l - 1)%nat, (length l - 1)%nat, f32_0, f32_0. split; [done|]. split; [subst l; simpl; lia|done]. }
  apply Nat.leb_gt in E3. destruct (partition_point time l) as [|lo] eqn:Ep; [lia|].
  destruct (lookup_lt_is_Some_2 l (S lo)) as [high Hh]; [lia|]. destruct (lookup_lt_is_Some_2 l lo) as [low Hl]; [lia|].
  rewrite Hh, Hl. simpl. eexists lo, (S lo), _, _. split; [done|]. split; [split; [lia|exact E3]|]. intros _. split; [done|]. exists low, high. split_and!; try done.
  - apply (partition_point_spec l time lo low Ht Hl). lia.
  - pose proof (partition_point_spec l time (S lo) high Ht Hh) as Hs. rewrite Ep in Hs.
    apply SFleb_total; [|done|destruct (SFleb high time); [|done]; assert (S lo < S lo)%nat by (by apply Hs); lia].
    pose proof (ti_finite _ Ht) as F. rewrite Forall_lookup in F. specialize (F _ _ Hh). by destruct high.
Qed.

(** ** Channels and clips *)

Definition values_length (v : AnimationValues) : nat :=
  match v with VTranslation l | VScale l => length l | VRotation l => length l end.
Definition values_property (v : AnimationValues) : Property :=
  match v with VTranslation _ => Translation | VRotation _ => Rotation | VScale _ => Scale end.

(** As many values as keyframes, three times as many for a cubic. *)
Record channel_ok (c : AnimationChannel) : Prop := {
  ho_times : times_ok (ch_times c);
  ho_values : values_length (ch_values c) = (length (ch_times c) * if is_cubic (ch_interpolation c) then 3 else 1)%nat;
}.

Section playback.
Context `{GlamPose}.

Lemma sampled_values {A} (values : list A) (interpolation : Interpolation) (n lo hi : nat) :
  length values = (n * if is_cubic interpolation then 3 else 1)%nat → (lo ≤ hi < n)%nat →
  if is_cubic interpolation
  then ∃ p0 m0 p1 m1, values !! (lo * 3 + 1)%nat = Some p0 ∧ values !! (lo * 3 + 2)%nat = Some m0 ∧
         values !! (hi * 3 + 1)%nat = Some p1 ∧ values !! (hi * 3)%nat = Some m1
  else ∃ a b, values !! lo = Some a ∧ values !! hi = Some b.
Proof.
  intros Hlen Hb. assert (∀ k, (k < length values)%nat → ∃ v, values !! k = Some v) as Hk by (intros k Hk; by apply lookup_lt_is_Some_2).
  destruct (is_cubic interpolation).
  - destruct (Hk (lo * 3 + 1)%nat) as [p0 ?]; [lia|]. destruct (Hk (lo * 3 + 2)%nat) as [m0 ?]; [lia|].
    destruct (Hk (hi * 3 + 1)%nat) as [p1 ?]; [lia|]. destruct (Hk (hi * 3)%nat) as [m1 ?]; [lia|]. by exists p0, m0, p1, m1.
  - destruct (Hk lo) as [a ?]; [lia|]. destruct (Hk hi) as [b ?]; [lia|]. by exists a, b.
Qed.

Lemma sample_vec3_ok c values time : values_length (ch_values c) = length values → channel_ok c → number time →
  is_Some (sample_vec3 (ch_times c) values (ch_interpolation c) time).
Proof.
  intros Hlen [Ht Hv] Hn. destruct (sample_interval_ok _ _ Ht Hn) as (lo & hi & factor & span & E & Hb & _).
  rewrite Hlen in Hv. apply (sampled_values values _ _ lo hi) in Hv; [|done]. unfold sample_vec3. rewrite E. simpl.
  destruct (ch_interpolation c); simpl in Hv; [by destruct Hv as (a & b & -> & ->)|by destruct Hv as (a & b & -> & _)|].
  unfold cubic_vec3. by destruct Hv as (? & ? & ? & ? & -> & -> & -> & ->).
Qed.
Lemma sample_rotation_ok c values time : values_length (ch_values c) = length values → channel_ok c → number time →
  is_Some (sample_rotation (ch_times c) values (ch_interpolation c) time).
Proof.
  intros Hlen [Ht Hv] Hn. destruct (sample_interval_ok _ _ Ht Hn) as (lo & hi & factor & span & E & Hb & _).
  rewrite Hlen in Hv. apply (sampled_values values _ _ lo hi) in Hv; [|done]. unfold sample_rotation. rewrite E. simpl.
  destruct (ch_interpolation c); simpl in Hv; [by destruct Hv as (a & b & -> & ->)|by destruct Hv as (a & b & -> & _)|].
  unfold cubic_vec4. by destruct Hv as (? & ? & ? & ? & -> & -> & -> & ->).
Qed.

(** What a channel sets in the transform of its node. *)
Definition shows (time : f32) (c : AnimationChannel) (t : NodeTransform) : Prop :=
  match ch_values c with
  | VTranslation values => sample_vec3 (ch_times c) values (ch_interpolation c) time = Some (translation t)
  | VRotation values => sample_rotation (ch_times c) values (ch_interpolation c) time = Some (rotation t)
  | VScale values => sample_vec3 (ch_times c) values (ch_interpolation c) time = Some (scale t)
  end.
Definition channel_key (c : AnimationChannel) : nat * Property := (ch_target c, values_property (ch_values c)).

Lemma apply_channel_ok time c pose : channel_ok c → number time → ∃ pose', apply_channel time c pose = Some pose' ∧
  length pose' = length pose ∧ (∀ i, i ≠ ch_target c → pose' !! i = pose !! i) ∧
  (∀ t, pose' !! ch_target c = Some t → shows time c t) ∧
  (∀ c' t, channel_key c' ≠ channel_key c → pose !! ch_target c' = Some t → shows time c' t →
     ∃ t', pose' !! ch_target c' = Some t' ∧ shows time c' t').
Proof.
  intros Hc Hn. unfold apply_channel. destruct (pose !! ch_target c) as [t|] eqn:E.
  2:{ exists pose. split_and!; [done..|congruence|]. intros c' t' _ ? ?. by exists t'. }
  assert (∃ t', match ch_values c with
    | VTranslation values => v ← sample_vec3 (ch_times c) values (ch_interpolation c) time; Some (set_translation v t)
    | VRotation values => v ← sample_rotation (ch_times c) values (ch_interpolation c) time; Some (set_rotation v t)
    | VScale values => v ← sample_vec3 (ch_times c) values (ch_interpolation c) time; Some (set_scale v t) end = Some t' ∧
    shows time c t' ∧ ∀ c', channel_key c' ≠ channel_key c → ch_target c' = ch_target c → shows time c' t → shows time c' t')
    as (t' & -> & Hs & Hk).
  { unfold shows, channel_key. destruct (ch_values c) as [values|values|values] eqn:Ev.
    - destruct (sample_vec3_ok c values time) as [v Hv]; [by rewrite Ev|done..|]. rewrite Hv. eexists. split_and!; [done|done|].
      intros c' Hne Heq. destruct (ch_values c'); simpl in *; [congruence|done|done].
    - destruct (sample_rotation_ok c values time) as [v Hv]; [by rewrite Ev|done..|]. rewrite Hv. eexists. split_and!; [done|done|].
      intros c' Hne Heq. destruct (ch_values c'); simpl in *; [done|congruence|done].
    - destruct (sample_vec3_ok c values time) as [v Hv]; [by rewrite Ev|done..|]. rewrite Hv. eexists. split_and!; [done|done|].
      intros c' Hne Heq. destruct (ch_values c'); simpl in *; [done|done|congruence]. }
  simpl. exists (<[ch_target c := t']> pose). assert (ch_target c < length pose)%nat as Hlt by (by eapply lookup_lt_Some).
  split_and!; [done|by rewrite length_insert|by intros; rewrite list_lookup_insert_ne|by intros ? [= <-]%(eq_trans (eq_sym (list_lookup_insert_eq _ _ _ Hlt)))|].
  intros c' t0 Hne E' Hsh. destruct (decide (ch_target c' = ch_target c)) as [Heq|Hd].
  - exists t'. rewrite Heq, list_lookup_insert_eq by done. split; [done|]. apply Hk; [done..|]. rewrite Heq, E in E'. by injection E' as ->.
  - exists t0. by rewrite list_lookup_insert_ne.
Qed.

Lemma apply_channels_ok time cs pose : Forall channel_ok cs → NoDup (channel_key <$> cs) → number time →
  ∃ pose', apply_channels time cs pose = Some pose' ∧ length pose' = length pose ∧
  (∀ i, i ∉ ch_target <$> cs → pose' !! i = pose !! i) ∧
  (∀ c, c ∈ cs → ∀ t, pose' !! ch_target c = Some t → shows time c t) ∧
  (∀ c' t, channel_key c' ∉ channel_key <$> cs → pose !! ch_target c' = Some t → shows time c' t →
     ∃ t', pose' !! ch_target c' = Some t' ∧ shows time c' t').
Proof.
  intros Hall. revert pose. induction Hall as [|c cs Hc Hall IH]; intros pose Hnd Hn; simpl.
  { exists pose. split_and!; [done..|by intros ? ?%not_elem_of_nil|]. intros c' t _ ? ?. by exists t. }
  apply NoDup_cons in Hnd as [Hc' Hnd]. destruct (apply_channel_ok time c pose Hc Hn) as (p1 & -> & L1 & O1 & S1 & K1). simpl.
  destruct (IH p1 Hnd Hn) as (p2 & -> & L2 & O2 & S2 & K2). exists p2. split_and!; [done|congruence|..].
  - intros i [Hne Hi]%not_elem_of_cons. by rewrite O2, O1.
  - intros c0 [->|Hin]%elem_of_cons t Ht; [|by eapply S2].
    assert (ch_target c < length p1)%nat as Hlt by (rewrite <- L2; by eapply lookup_lt_Some).
    destruct (lookup_lt_is_Some_2 p1 _ Hlt) as [t1 Ht1].
    destruct (K2 c t1 Hc' Ht1 (S1 _ Ht1)) as (t' & Ht' & Hs). by rewrite Ht in Ht'; injection Ht' as ->.
  - intros c' t [Hne Hnot]%not_elem_of_cons Ht Hs. destruct (K1 c' t Hne Ht Hs) as (t1 & Ht1 & Hs1). by apply (K2 c' t1).
Qed.

(** ** What the decoder accepts *)

(** A channel may move the node: it is active, or a bone of the target model
    that the animation is retargeted to, whose scale stays and which only the
    hips translate. *)
Definition may_move (active_nodes : option (list bool)) (retarget : option (gmap nat RetargetTarget)) (key : nat * Property) : Prop :=
  match retarget with
  | None => active_nodes ≫= (.!! key.1) = Some true
  | Some targets => ∃ source target, targets !! source = Some target ∧ rt_node target = key.1 ∧ key.2 ≠ Scale ∧
      (key.2 = Translation → hips target = true)
  end.

(** What the channels decoded so far are. *)
Record channels_ok (active_nodes : option (list bool)) (retarget : option (gmap nat RetargetTarget))
    (cs : list AnimationChannel) (keyframes : Z) (longest : f32) : Prop := {
  no_count : (length cs ≤ MAX_ANIMATION_CHANNELS)%nat;
  no_each : Forall channel_ok cs;
  no_unique : NoDup (channel_key <$> cs);
  no_moves : Forall (λ c, may_move active_nodes retarget (channel_key c)) cs;
  no_keyframes : keyframes = sumZ ((λ c, zlen (ch_times c)) <$> cs);
  no_limit : keyframes ≤ MAX_ANIMATION_KEYFRAMES;
  no_finite : is_finite longest = true ∧ valid longest;
  no_longest : Forall (λ c, SFleb (List.last (ch_times c) f32_0) longest = true) cs;
}.

(** The crate's reader gives one value for every element of an accessor, and
    times that are numbers of single precision. *)
Definition outputs_length (o : ReadOutputs) : Z :=
  match o with Translations l | Scales l => zlen l | Rotations l => zlen l | MorphWeights l => zlen l end.
Record readable (c : GltfChannel) : Prop := {
  re_valid l : gc_inputs c = Some l → Forall (λ f, valid f) l;
  re_inputs l : gc_inputs c = Some l → zlen l = ac_count (gc_input c);
  re_outputs o : gc_outputs c = Some o → outputs_length o = ac_count (gc_output c);
}.

Lemma try_map_from_length {A} (f : nat → A → result string A) i l : ensures (try_map_from f i l) (λ k, length k = length l).
Proof.
  revert i. induction l as [|a l IH]; intros i; simpl; [by apply ensures_ok|]. eapply ensures_bind; [apply ensures_any|]. intros b _.
  eapply ensures_bind; [apply IH|]. intros k Hk. apply ensures_ok. simpl. by rewrite Hk.
Qed.

Lemma channel_values_ok c target outputs : ensures (channel_values c target outputs)
  (λ v, Z.of_nat (values_length v) = outputs_length outputs ∧ values_property v = gc_property c).
Proof.
  unfold channel_values. destruct (gc_property c), outputs; try apply ensures_err.
  - eapply ensures_bind; [apply ensures_any|]. intros _ _. apply ensures_ok. destruct target; [|done].
    simpl. unfold retarget_translations. by rewrite length_imap.
  - eapply ensures_bind; [apply try_map_from_length|]. intros l' Hl.
    eapply (ensures_bind _ _ (λ k, length k = length l')); [destruct target; [apply try_map_from_length|by apply ensures_ok]|].
    intros k Hk. apply ensures_ok. simpl. unfold zlen. by rewrite Hk, Hl.
  - eapply ensures_bind; [apply ensures_any|]. intros _ _. by apply ensures_ok.
Qed.

Lemma channel_target_ok active retarget c : ensures (channel_target active retarget c)
  (λ o, ∀ node t, o = Some (node, t) → may_move active retarget (node, gc_property c)).
Proof.
  unfold channel_target, may_move. destruct retarget as [targets|].
  - destruct (targets !! gc_node c) as [target|] eqn:E; [|by apply ensures_ok].
    destruct (bool_decide (gc_property c = Scale)) eqn:Es; [apply ensures_err|].
    destruct (bool_decide _ && _) eqn:Et; [apply ensures_err|]. apply ensures_ok. intros node t [= <- <-]. exists (gc_node c), target.
    to_prop. split_and!; [done|done|done|]. simpl. intros Hp. rewrite Hp in Et. simpl in Et. by apply negb_false_iff in Et.
  - destruct (bool_decide _) eqn:E; apply ensures_ok; [|done]. to_prop. by intros node t [= <- <-].
Qed.

Lemma check_output_ok c times : ensures (check_output c times)
  (λ _, ac_count (gc_output c) = zlen times * if is_cubic (gc_interpolation c) then 3 else 1).
Proof.
  unfold check_output. eapply ensures_bind; [apply ensures_any|]. intros _ _. eapply ensures_bind; [apply ensures_ok_or|].
  intros expected E. destruct (negb _) eqn:En; [apply ensures_err|]. apply ensures_ok. apply negb_false_iff, Z.eqb_eq in En.
  unfold checked_mul in E. destruct (_ <=? u64_max); [|done]. by injection E as <-.
Qed.

Lemma last_finite times : times_ok times → is_finite (List.last times f32_0) = true.
Proof.
  intros [(f & Hf & _) F _]. destruct times as [|t times]; [done|]. clear Hf. revert t F.
  induction times as [|u times IH]; intros t F; [by inversion F|]. apply (IH u). by inversion F.
Qed.
Lemma last_valid times : Forall (λ f, valid f) times → valid (List.last times f32_0).
Proof. intros F. induction F as [|f times Hf F IH]; [done|]. by destruct times. Qed.
Lemma max_valid f g : valid f → valid g → valid (f32_max f g).
Proof. intros Hf Hg. unfold f32_max. destruct f; [|by destruct (SFltb _ _)|done|]; by destruct (SFltb _ _). Qed.
Lemma max_finite f g : is_finite f = true → is_finite g = true →
  is_finite (f32_max f g) = true ∧ SFleb f (f32_max f g) = true ∧ SFleb g (f32_max f g) = true.
Proof.
  intros Hf Hg. destruct (f32_max_ge f g Hf Hg) as [H1 H2]. split_and!; [done| |done].
  assert (f32_max f g = if SFltb f g then g else f) as -> by (by destruct f).
  destruct (SFltb f g) eqn:E; [by apply SFleb_lt|by apply SFleb_refl].
Qed.
Lemma SFleb_trans x y z : SFleb x y = true → SFleb y z = true → SFleb x z = true.
Proof.
  intros H1 H2. destruct (SFltb x y) eqn:E; [by eapply SFltb_leb_trans|].
  unfold SFltb, SFleb in *. destruct (SFcompare x y) as [[]|] eqn:Exy; try done. clear E H1.
  revert Exy H2. destruct x as [sx|sx| |sx mx ex], y as [sy|sy| |sy my ey]; simpl; try done; destruct z as [sz|sz| |sz mz ez]; simpl; try done;
    try (by destruct sx); try (by destruct sy); try (by destruct sx, sy); try (by destruct sx, sy, sz).
  destruct sx, sy; try done; destruct (Z.compare_spec ex ey); try done; subst;
    change (Pos.compare_cont Eq mx my) with (mx ?= my)%positive; destruct (Pos.compare_spec mx my); simpl; try done; by subst.
Qed.

Lemma channels_start active retarget : channels_ok active retarget [] 0 f32_0.
Proof. split; [simpl; unfold MAX_ANIMATION_CHANNELS; lia|constructor|constructor|constructor|done|done|done|constructor]. Qed.

Definition targets_of (cs : list AnimationChannel) : gset (nat * nat) :=
  list_to_set ((λ c, (ch_target c, property_key (values_property (ch_values c)))) <$> cs).

Lemma decode_channel_ok active retarget st c : readable c →
  channels_ok active retarget (cs_channels st) (cs_keyframes st) (cs_duration st) → cs_targets st = targets_of (cs_channels st) →
  ensures (decode_channel active retarget st c)
    (λ st', channels_ok active retarget (cs_channels st') (cs_keyframes st') (cs_duration st') ∧ cs_targets st' = targets_of (cs_channels st')).
Proof.
  intros [Hval Hin Hout] [C1 C2 C3 C4 C5 C6 [C7 V7] C8] Ht. unfold decode_channel.
  destruct (MAX_ANIMATION_CHANNELS <=? _)%nat eqn:E1; [apply ensures_err|]. apply Nat.leb_gt in E1.
  destruct (bool_decide (gc_property c = MorphTargetWeights)) eqn:E2; [apply ensures_ok; split; [by split|done]|].
  eapply ensures_bind; [apply channel_target_ok|]. intros [[node target]|] Hm; [|apply ensures_ok; split; [by split|done]].
  specialize (Hm _ _ eq_refl). clear E2. destruct (bool_decide _) eqn:E3; [apply ensures_err|]. apply bool_decide_eq_false_1 in E3.
  eapply ensures_bind; [apply ensures_any|]. intros _ _. eapply ensures_bind; [apply ensures_ok_or|]. intros keyframes Ek.
  destruct (MAX_ANIMATION_KEYFRAMES <? keyframes) eqn:E4; [apply ensures_err|].
  eapply ensures_bind; [apply ensures_ok_or|]. intros times Et. eapply ensures_bind; [apply times_accepted|]. intros [] Htimes.
  eapply ensures_bind; [apply check_output_ok|]. intros [] Hcount. eapply ensures_bind; [apply ensures_ok_or|]. intros outputs Eo.
  eapply ensures_bind; [apply channel_values_ok|]. intros values [Hv Hp]. apply ensures_ok. simpl.
  destruct (max_finite _ _ C7 (last_finite _ Htimes)) as (M1 & M2 & M3).
  split; [split|]; simpl.
  - rewrite length_app. simpl. lia.
  - apply Forall_app. split; [done|]. apply Forall_singleton. split; [done|]. simpl. rewrite (Hout _ Eo) in Hv. unfold zlen in *. case_match; lia.
  - rewrite fmap_app. apply NoDup_app. split_and!; [done| |apply NoDup_singleton]. intros k (c' & -> & Hc')%list_elem_of_fmap Hk.
    apply list_elem_of_singleton in Hk. apply E3. rewrite Ht. unfold targets_of. apply elem_of_list_to_set, list_elem_of_fmap.
    exists c'. split; [|done]. unfold channel_key in Hk. simpl in Hk. injection Hk as -> ->. simpl. by rewrite Hp.
  - apply Forall_app. split; [done|]. apply Forall_singleton. unfold channel_key. simpl. by rewrite Hp.
  - rewrite fmap_app, sumZ_app, <- C5. unfold checked_add in Ek. destruct (_ <=? u64_max); [|done]. injection Ek as <-.
    rewrite <- (Hin _ Et). simpl. unfold sumZ. simpl. lia.
  - lia.
  - split; [done|]. by apply max_valid, last_valid, (Hval _ Et).
  - apply Forall_app. split; [|by apply Forall_singleton]. eapply Forall_impl; [done|]. simpl. intros c' Hc'. by eapply SFleb_trans.
  - rewrite Ht. unfold targets_of. rewrite fmap_app, list_to_set_app_L. simpl. rewrite Hp. set_solver.
Qed.

Lemma decode_channels_ok active retarget cs st : Forall readable cs →
  channels_ok active retarget (cs_channels st) (cs_keyframes st) (cs_duration st) → cs_targets st = targets_of (cs_channels st) →
  ensures (decode_channels active retarget cs st)
    (λ st', channels_ok active retarget (cs_channels st') (cs_keyframes st') (cs_duration st')).
Proof.
  intros Hr. revert st. induction Hr as [|c cs Hc _ IH]; intros st Hs Ht; simpl; [by apply ensures_ok|].
  eapply ensures_bind; [by apply decode_channel_ok|]. intros st' [Hs' Ht']. by apply IH.
Qed.

(** A clip that can be played. *)
Record clip_ok (active_nodes : option (list bool)) (retarget : option (gmap nat RetargetTarget)) (clip : CpuAnimationClip) : Prop := {
  po_some : channels clip ≠ [];
  po_channels : ∃ keyframes, channels_ok active_nodes retarget (channels clip) keyframes (duration clip);
  po_duration : SFleb (duration clip) MAX_ANIMATION_DURATION_SECONDS = true;
}.

Lemma decode_clip_ok active retarget animation : Forall readable animation →
  ensures (decode_clip animation active retarget) (λ o, ∀ clip, o = Some clip → clip_ok active retarget clip).
Proof.
  intros Hr. unfold decode_clip. eapply ensures_bind; [apply decode_channels_ok; [done|apply channels_start|done]|].
  intros st Hst. destruct (_ =? 0)%nat eqn:E; [by apply ensures_ok|]. destruct (_ || _) eqn:Ed; [apply ensures_err|]. apply ensures_ok.
  apply orb_false_iff in Ed as [E1%negb_false_iff E2]. intros clip [= <-]. split; simpl.
  - intros H0. by rewrite H0 in E.
  - by exists (cs_keyframes st).
  - by apply SFleb_not_lt.
Qed.

Lemma count_keyframes_spec total cs n : count_keyframes total cs = Some n → n = total + sumZ ((λ c, zlen (ch_times c)) <$> cs).
Proof.
  revert total. induction cs as [|c cs IH]; intros total; [intros [= <-]; cbn; lia|]. rewrite fmap_cons, sumZ_cons. simpl.
  unfold checked_add. destruct (_ <=? u64_max); [|done]. simpl. intros ->%IH. lia.
Qed.

(** The clips of a model or an animation file, together. *)
Record clips_ok (active_nodes : option (list bool)) (retarget : option (gmap nat RetargetTarget)) (clips : list CpuAnimationClip) : Prop := {
  qo_each : Forall (clip_ok active_nodes retarget) clips;
  qo_count : (length clips ≤ MAX_ANIMATION_CLIPS)%nat;
  qo_keyframes : sumZ ((λ c, zlen (ch_times c)) <$> List.concat (channels <$> clips)) ≤ MAX_TOTAL_ANIMATION_KEYFRAMES;
  qo_some : is_vrma retarget = true → clips ≠ [];
}.

Lemma clips_accepted animations active retarget : Forall (Forall readable) animations →
  ensures (decode_clips animations active retarget) (clips_ok active retarget).
Proof.
  intros Hr clips E. unfold decode_clips in E. apply bind_Ok in E as (decoded & Ed & E). apply bind_Ok in E as ([] & Ev & E).
  destruct (_ && _) eqn:Ee; [done|]. injection E as <-. unfold validate_clip_collection in Ev.
  destruct (MAX_ANIMATION_CLIPS <? _)%nat eqn:E1; [done|]. apply Nat.ltb_ge in E1. apply bind_Ok in Ev as (total & Et%ok_or_Ok & Ev).
  destruct (MAX_TOTAL_ANIMATION_KEYFRAMES <? total) eqn:E2; [done|]. apply count_keyframes_spec in Et.
  split; [|done|lia|].
  - apply Forall_forall. intros clip ([c|] & Hin & Hc)%list_elem_of_omap; simplify_eq/=.
    destruct (try_map_source _ _ _ _ Ed Hin) as (animation & Ha & Ec). rewrite Forall_forall in Hr. by eapply decode_clip_ok; [apply Hr|..].
  - intros Hv Hn. by rewrite Hn, Hv in Ee.
Qed.

Lemma sample_time_number clip active retarget time : clip_ok active retarget clip → is_finite time = true →
  number (sample_time_of clip time).
Proof.
  intros [_ (keyframes & C) _] Hf. unfold sample_time_of. destruct (SFltb F32_EPSILON (duration clip)) eqn:E; [|done].
  apply rem_euclid_number; [done|apply (no_finite _ _ _ _ _ C)|]. intros s Hs. rewrite Hs in E. by destruct s.
Qed.

(** A clip plays at any finite time. *)
Lemma clip_plays active retarget clip time pose : clip_ok active retarget clip → is_finite time = true →
  ∃ pose', apply_clip clip time pose = Some pose' ∧ length pose' = length pose ∧
    (∀ i, i ∉ ch_target <$> channels clip → pose' !! i = pose !! i) ∧
    (∀ c, c ∈ channels clip → ∀ t, pose' !! ch_target c = Some t → shows (sample_time_of clip time) c t).
Proof.
  intros Hc Hf. destruct (po_channels _ _ _ Hc) as (keyframes & C). unfold apply_clip.
  destruct (apply_channels_ok (sample_time_of clip time) (channels clip) pose) as (pose' & E & L & O & S & _);
    [apply C|apply C|by eapply sample_time_number|]. by exists pose'.
Qed.

(** ** What is sampled

    The keyframes a value is taken from, the fraction of the way from the one
    to the other, and the time between them: before the first key and after
    the last one they are one key. *)
Inductive playing (times : list f32) (time : f32) : nat → nat → f32 → f32 → Prop :=
| playing_start first : times !! 0%nat = Some first → SFleb time first = true → playing times time 0 0 f32_0 f32_0
| playing_end i last : times !! i = Some last → S i = length times → SFleb last time = true → playing times time i i f32_0 f32_0
| playing_between i low high : times !! i = Some low → times !! S i = Some high → SFleb low time = true → SFltb time high = true →
    playing times time i (S i) (f32_div (f32_sub time low) (f32_sub high low)) (f32_sub high low).

(** The cubic through both points, with the outgoing tangent of the first key
    and the incoming one of the second; a key has its incoming tangent, its
    point and its outgoing tangent. *)
Section cubic.
Context {V : Type} (add : V → V → V) (scaled : V → f32 → V).
Definition on_cubic (values : list V) (lo hi : nat) (t span : f32) (v : V) : Prop := ∃ p0 out p1 in',
  values !! (3 * lo + 1)%nat = Some p0 ∧ values !! (3 * lo + 2)%nat = Some out ∧
  values !! (3 * hi + 1)%nat = Some p1 ∧ values !! (3 * hi)%nat = Some in' ∧
  let two := f32_of_Z 2 in let three := f32_of_Z 3 in
  let t2 := f32_mul t t in let t3 := f32_mul t2 t in
  v = add (add (add (scaled p0 (f32_add (f32_sub (f32_mul two t3) (f32_mul three t2)) f32_1))
                    (scaled (scaled out span) (f32_add (f32_sub t3 (f32_mul two t2)) t)))
               (scaled p1 (f32_add (f32_mul (SFopp two) t3) (f32_mul three t2))))
          (scaled (scaled in' span) (f32_sub t3 t2)).
End cubic.

Definition vector_at (times : list f32) (values : list Vec3) (interpolation : Interpolation) (time : f32) (v : Vec3) : Prop :=
  ∃ lo hi factor span, playing times time lo hi factor span ∧
  match interpolation with
  | Step => values !! lo = Some v
  | Linear => ∃ a b, values !! lo = Some a ∧ values !! hi = Some b ∧ v = v3_lerp a b factor
  | CubicSpline => on_cubic v3_add v3_scale values lo hi factor span v
  end.
Definition rotation_at (times : list f32) (values : list Vec4) (interpolation : Interpolation) (time : f32) (v : Vec4) : Prop :=
  ∃ lo hi factor span, playing times time lo hi factor span ∧
  match interpolation with
  | Step => ∃ a, values !! lo = Some a ∧ v = quat_normalize a
  | Linear => ∃ a b, values !! lo = Some a ∧ values !! hi = Some b ∧ v = quat_normalize (quat_slerp a b factor)
  | CubicSpline => ∃ a, on_cubic v4_add v4_scale values lo hi factor span a ∧ v = v4_normalize a
  end.
(** The value of a channel at a time, in the transform of its node. *)
Definition moved_by (time : f32) (c : AnimationChannel) (t : NodeTransform) : Prop :=
  match ch_values c with
  | VTranslation values => vector_at (ch_times c) values (ch_interpolation c) time (translation t)
  | VRotation values => rotation_at (ch_times c) values (ch_interpolation c) time (rotation t)
  | VScale values => vector_at (ch_times c) values (ch_interpolation c) time (scale t)
  end.
(** A clip repeats, unless it has no length. *)
Definition clip_time (clip : CpuAnimationClip) (time t : f32) : Prop :=
  (SFltb F32_EPSILON (duration clip) = true ∧ t = rem_euclid time (duration clip)) ∨ (SFltb F32_EPSILON (duration clip) = false ∧ t = f32_0).
Definition kept (p : Property) (t t' : NodeTransform) : Prop :=
  match p with
  | Translation => translation t' = translation t
  | Rotation => rotation t' = rotation t
  | Scale => scale t' = scale t
  | MorphTargetWeights => True
  end.

Lemma sample_interval_playing times time lo hi factor span : times_ok times → number time →
  sample_interval times time = Some (lo, hi, factor, span) → playing times time lo hi factor span.
Proof.
  intros Ht Hn. destruct (ti_first _ Ht) as (first & Hf & _). destruct times as [|f times]; [done|]. injection Hf as ->.
  unfold sample_interval. set (l := first :: times) in *. assert (l !! 0%nat = Some first) as H0 by done. rewrite H0. cbn [mbind option_bind].
  assert (is_finite first = true) by (pose proof (ti_finite _ Ht) as F; by inversion F).
  destruct (SFleb time first) eqn:E2; [rewrite orb_true_r; intros [= <- <- <- <-]; by eapply playing_start|]. rewrite orb_false_r.
  assert (SFleb first time = true) as Hfirst by (apply SFleb_lt, SFleb_total; [done|by destruct first|done]).
  destruct (length l =? 1)%nat eqn:E1; [apply Nat.eqb_eq in E1; intros [= <- <- <- <-]; by eapply playing_end|].
  assert (0 < partition_point time l)%nat as Hpos by by apply (partition_point_spec l time 0 first Ht H0).
  destruct (length l <=? partition_point time l)%nat eqn:E3.
  { apply Nat.leb_le in E3. intros [= <- <- <- <-]. destruct (lookup_lt_is_Some_2 l (length l - 1)%nat) as [last Hl]; [subst l; simpl; lia|].
    eapply playing_end; [done|subst l; simpl; lia|]. apply (partition_point_spec l time _ last Ht Hl). subst l; simpl in *; lia. }
  apply Nat.leb_gt in E3. destruct (partition_point time l) as [|k] eqn:Ep; [lia|].
  destruct (lookup_lt_is_Some_2 l (S k)) as [high Hh]; [lia|]. destruct (lookup_lt_is_Some_2 l k) as [low Hl]; [lia|].
  rewrite Hh, Hl. simpl. intros [= <- <- <- <-]. eapply playing_between; [done|done|..].
  - apply (partition_point_spec l time k low Ht Hl). lia.
  - pose proof (partition_point_spec l time (S k) high Ht Hh) as Hs. rewrite Ep in Hs.
    apply SFleb_total; [|done|destruct (SFleb high time); [|done]; assert (S k < S k)%nat by (by apply Hs); lia].
    pose proof (ti_finite _ Ht) as F. rewrite Forall_lookup in F. specialize (F _ _ Hh). by destruct high.
Qed.
Lemma sampled_vector times values interpolation time v : times_ok times → number time →
  sample_vec3 times values interpolation time = Some v → vector_at times values interpolation time v.
Proof.
  intros Ht Hn. unfold sample_vec3. destruct (sample_interval times time) as [[[[lo hi] factor] span]|] eqn:E; [|done]. simpl.
  apply sample_interval_playing in E; [|done..]. intros Hv. exists lo, hi, factor, span. split; [done|]. destruct interpolation; simpl in Hv.
  - destruct (values !! lo) as [a|] eqn:Ea; [|done]. destruct (values !! hi) as [b|] eqn:Eb; [|done]. injection Hv as <-. by exists a, b.
  - done.
  - unfold cubic_vec3 in Hv. rewrite (Nat.mul_comm lo), (Nat.mul_comm hi) in Hv. unfold on_cubic.
    destruct (values !! (3 * lo + 1)%nat) as [p0|] eqn:E0; [|done]. destruct (values !! (3 * lo + 2)%nat) as [m0|] eqn:E1; [|done].
    destruct (values !! (3 * hi + 1)%nat) as [p1|] eqn:E2; [|done]. destruct (values !! (3 * hi)%nat) as [m1|] eqn:E3; [|done].
    injection Hv as <-. by exists p0, m0, p1, m1.
Qed.
Lemma sampled_rotation times values interpolation time v : times_ok times → number time →
  sample_rotation times values interpolation time = Some v → rotation_at times values interpolation time v.
Proof.
  intros Ht Hn. unfold sample_rotation. destruct (sample_interval times time) as [[[[lo hi] factor] span]|] eqn:E; [|done]. simpl.
  apply sample_interval_playing in E; [|done..]. intros Hv. exists lo, hi, factor, span. split; [done|]. destruct interpolation; simpl in Hv.
  - destruct (values !! lo) as [a|] eqn:Ea; [|done]. destruct (values !! hi) as [b|] eqn:Eb; [|done]. injection Hv as <-. by exists a, b.
  - destruct (values !! lo) as [a|] eqn:Ea; [|done]. injection Hv as <-. by exists a.
  - unfold cubic_vec4 in Hv. rewrite (Nat.mul_comm lo), (Nat.mul_comm hi) in Hv. unfold on_cubic.
    destruct (values !! (3 * lo + 1)%nat) as [p0|] eqn:E0; [|done]. destruct (values !! (3 * lo + 2)%nat) as [m0|] eqn:E1; [|done].
    destruct (values !! (3 * hi + 1)%nat) as [p1|] eqn:E2; [|done]. destruct (values !! (3 * hi)%nat) as [m1|] eqn:E3; [|done].
    injection Hv as <-. eexists. split; [by exists p0, m0, p1, m1|done].
Qed.
Lemma shows_moved time c t : channel_ok c → number time → shows time c t → moved_by time c t.
Proof.
  intros [Ht _] Hn. unfold shows, moved_by. destruct (ch_values c); by (apply sampled_vector || apply sampled_rotation).
Qed.

Lemma apply_channel_keeps time c pose pose' i p t : apply_channel time c pose = Some pose' → (i, p) ≠ channel_key c → pose !! i = Some t →
  ∃ t', pose' !! i = Some t' ∧ kept p t t'.
Proof.
  unfold apply_channel, channel_key. destruct (pose !! ch_target c) as [t0|] eqn:E; [|intros [= <-] _ ?; exists t; split; [done|by destruct p]].
  intros Hp Hne Hi. destruct (match ch_values c with VTranslation _ => _ | VRotation _ => _ | VScale _ => _ end) as [t1|] eqn:E1; [|done].
  injection Hp as <-. destruct (decide (i = ch_target c)) as [->|Hd].
  - exists t1. rewrite list_lookup_insert_eq by (by eapply lookup_lt_Some). split; [done|]. rewrite E in Hi. injection Hi as ->.
    destruct (ch_values c) as [values|values|values]; [destruct (sample_vec3 _ _ _ _)|destruct (sample_rotation _ _ _ _)|destruct (sample_vec3 _ _ _ _)];
      simpl in E1, Hne; try done; injection E1 as <-; by destruct p.
  - exists t. rewrite list_lookup_insert_ne by done. split; [done|by destruct p].
Qed.
Lemma apply_channels_keep time cs pose pose' i p t : apply_channels time cs pose = Some pose' → (i, p) ∉ channel_key <$> cs → pose !! i = Some t →
  ∃ t', pose' !! i = Some t' ∧ kept p t t'.
Proof.
  revert pose t. induction cs as [|c cs IH]; intros pose t; simpl; [intros [= <-] _ ?; exists t; split; [done|by destruct p]|].
  destruct (apply_channel time c pose) as [p1|] eqn:E; [|done]. simpl. intros Hp [Hne Hin]%not_elem_of_cons Hi.
  destruct (apply_channel_keeps _ _ _ _ _ _ _ E Hne Hi) as (t1 & Ht1 & K1). destruct (IH p1 t1 Hp Hin Ht1) as (t2 & Ht2 & K2).
  exists t2. split; [done|]. destruct p; simpl in *; congruence.
Qed.

(** C32: The clips the decoder accepts can be played.  They are within the
    limits, and every channel has finite times that increase, as many values
    as its interpolation needs, and a node it may move, no two the same
    property of one node.  Playing one at any finite time, on any pose, never
    panics.  Every node that a channel moves has, afterwards, the value of the
    channel at the time into the clip, which repeats: that of the first or the
    last key before and after them, and between two keys the earlier one's
    (STEP), the linear or spherical interpolation by the fraction of the way
    (LINEAR), or the cubic through both with their tangents (CUBICSPLINE).
    Every other property of a node is as before, and every other node. *)
Theorem clips_playable animations active retarget clips time pose : Forall (Forall readable) animations →
  decode_clips animations active retarget = Ok clips → is_finite time = true →
  clips_ok active retarget clips ∧
  ∀ clip, clip ∈ clips → ∃ pose', apply_clip clip time pose = Some pose' ∧ length pose' = length pose ∧
    (∀ i, i ∉ ch_target <$> channels clip → pose' !! i = pose !! i) ∧
    (∀ i p t, (i, p) ∉ channel_key <$> channels clip → pose !! i = Some t → ∃ t', pose' !! i = Some t' ∧ kept p t t') ∧
    ∃ at_, clip_time clip time at_ ∧ ∀ c, c ∈ channels clip → ∀ t, pose' !! ch_target c = Some t → moved_by at_ c t.
Proof.
  intros Hr Hd Hf. pose proof (clips_accepted _ _ _ Hr _ Hd) as Hok. split; [done|]. intros clip Hin.
  pose proof (qo_each _ _ _ Hok) as F. rewrite Forall_forall in F. specialize (F _ Hin).
  destruct (clip_plays _ _ _ time pose F Hf) as (pose' & E & L & O & S). exists pose'. split; [done|]. split; [done|]. split; [done|]. split.
  - intros i p t. by apply (apply_channels_keep (sample_time_of clip time)).
  - exists (sample_time_of clip time). split; [unfold clip_time, sample_time_of; destruct (SFltb _ _); auto|]. intros c Hc t Ht.
    destruct (po_channels _ _ _ F) as (keyframes & C). apply shows_moved; [|by eapply sample_time_number|by apply S].
    by apply (proj1 (Forall_forall _ _) (no_each _ _ _ _ _ C)).
Qed.
End playback.

(** ** An animation *)

Module PlaybackDemo.
(** Component by component; spherical interpolation by its linear stand-in. *)
Definition map3 (f : f32 → f32 → f32) (a b : Vec3) : Vec3 := {| vx := f (vx a) (vx b); vy := f (vy a) (vy b); vz := f (vz a) (vz b) |}.
Definition scale3 (a : Vec3) (k : f32) : Vec3 := map3 f32_mul a (vec3_splat k).
Definition map4 (f : f32 → f32 → f32) (a b : Vec4) : Vec4 :=
  {| x4 := f (x4 a) (x4 b); y4 := f (y4 a) (y4 b); z4 := f (z4 a) (z4 b); w4 := f (w4 a) (w4 b) |}.
Definition splat4 (k : f32) : Vec4 := {| x4 := k; y4 := k; z4 := k; w4 := k |}.
#[global] Instance demo_pose : GlamPose := {|
  v3_add := map3 f32_add; v3_sub := map3 f32_sub; v3_scale := scale3;
  v3_lerp a b k := map3 f32_add a (scale3 (map3 f32_sub b a) k);
  abs_min_element a := f32_min (SFabs (vx a)) (f32_min (SFabs (vy a)) (SFabs (vz a)));
  v4_add := map4 f32_add; v4_scale a k := map4 f32_mul a (splat4 k);
  v4_length_squared a := f32_add (f32_add (f32_mul (x4 a) (x4 a)) (f32_mul (y4 a) (y4 a))) (f32_add (f32_mul (z4 a) (z4 a)) (f32_mul (w4 a) (w4 a)));
  v4_normalize a := a; quat_mul a b := map4 f32_mul a b; quat_inverse a := a; quat_normalize a := a;
  quat_slerp a b k := map4 f32_add a (map4 f32_mul (map4 f32_sub b a) (splat4 k)) |}.

Definition view (length : Z) : View := {| v_index := 0; v_offset := 0; v_length := length; v_stride := None; v_buffer_length := 64 |}.
Definition accessor (count size : Z) (dimensions : Dimensions) : Accessor :=
  {| ac_count := count; ac_offset := 0; ac_size := size; ac_view := Some (view (count * size)); ac_sparse := None;
     ac_data_type := F32; ac_dimensions := dimensions; ac_normalized := false |}.
Definition times : list f32 := [f32_0; f32_1].
Definition axis (f : f32) : Vec3 := {| vx := f; vy := f32_0; vz := f32_0 |}.
Definition along_x (from to : Z) : list Vec3 := [axis (f32_of_Z from); axis (f32_of_Z to)].
Definition channel (from to : Z) : GltfChannel :=
  {| gc_node := 0; gc_property := Translation; gc_interpolation := Linear; gc_input := accessor 2 4 Scalar;
     gc_output := accessor 2 12 DVec3; gc_inputs := Some times; gc_outputs := Some (Translations (along_x from to)) |}.
Definition clip (from to : Z) : CpuAnimationClip :=
  {| channels := [{| ch_target := 0; ch_interpolation := Linear; ch_times := times; ch_values := VTranslation (along_x from to) |}];
     duration := f32_1; source_label := "embedded glTF" |}.
Definition rest : NodeTransform :=
  {| translation := vec3_splat f32_0; rotation := {| x4 := f32_0; y4 := f32_0; z4 := f32_0; w4 := f32_1 |}; scale := vec3_splat f32_1 |}.

Lemma channel_readable from to : readable (channel from to).
Proof. split; intros ? [= <-]; [by repeat constructor|done..]. Qed.
End PlaybackDemo.

Lemma clips_playable_witness :
  clips_ok (Some [true]) None [PlaybackDemo.clip 0 1] ∧
  ∃ pose', apply_clip (PlaybackDemo.clip 0 1) (f32_lit 1 2) [PlaybackDemo.rest] = Some pose' ∧ length pose' = 1%nat.
Proof.
  destruct (clips_playable [[PlaybackDemo.channel 0 1]] (Some [true]) None [PlaybackDemo.clip 0 1] (f32_lit 1 2) [PlaybackDemo.rest])
    as [Hok Hplay].
  - apply Forall_singleton, Forall_singleton, PlaybackDemo.channel_readable.
  - vm_refl.
  - vm_refl.
  - split; [exact Hok|]. destruct (Hplay (PlaybackDemo.clip 0 1)) as (pose' & E & L & _); [apply list_elem_of_singleton; reflexivity|].
    exists pose'. split; [exact E|exact L].
Defined.

(** Two clips, 0 to 1 and 10 to 11, with a cross-fade of a quarter second:
    at 0.625 the position is between both, as the test of the module has it. *)
Example mixer_crossfades :
  match apply_mixed [PlaybackDemo.clip 0 1; PlaybackDemo.clip 10 11] (f32_lit 5 8) (f32_lit 1 4) [PlaybackDemo.rest] with
  | Some [t] => SFltb (f32_of_Z 5) (vx (translation t)) && SFltb (vx (translation t)) (f32_of_Z 6)
  | _ => false
  end = true.
Proof. vm_refl. Qed.
