(* ===== verification/VrmMix.v ===== *)
(** * Playing several clips (skid-monitor-fe, vrm/animation.rs)

    [apply_mixed] plays the clips of a model one after the other, with a
    cross-fade.  [mixer_total]: with clips the decoder accepts, it never
    panics, whatever the time and the length of the cross-fade. *)

From S2P Require Import Prelude RustStr Otlp RustFloat FeProfile Json VrmJson VrmGlb VrmOrder VrmGraph VrmBuffers VrmAnimation VrmFloat VrmPlayback.

(** ** Small numbers *)

Lemma SFleb_value x y : valid x → valid y → is_finite x = true → is_finite y = true → SFleb x y = true ↔ value x ≤ value y.
Proof.
  intros Vx Vy Fx Fy. pose proof (SFltb_value y x Vy Vx Fy Fx) as L. destruct (SFleb x y) eqn:E.
  - split; [intros _|done]. assert (¬ value y < value x); [|lia]. intros Hlt%L. unfold SFleb in E. unfold SFltb in Hlt.
    rewrite (SFcompare_swap x y) in Hlt. by destruct (SFcompare x y) as [[]|].
  - apply SFleb_total in E; [|by destruct x|by destruct y]. apply L in E. split; [done|lia].
Qed.

(** Not negative, representable and at most [2 ^ k]. *)
Record upto (k : Z) (x : f32) : Prop := { up_small : small k x; up_valid : valid x; up_value : 0 ≤ value x }.

Lemma upto_finite k x : upto k x → is_finite x = true.
Proof. intros [S _ _]. by eapply small_finite. Qed.
Lemma upto_mono k l x : k ≤ l → upto k x → upto l x.
Proof. intros Hk [S V P]. split; [by eapply small_mono|done..]. Qed.
Lemma upto_value k x : -149 ≤ k → valid x → is_finite x = true → 0 ≤ value x ≤ 2 ^ (k + 149) → upto k x.
Proof.
  intros Hk V F [P B]. split; [|done..]. destruct x as [| | |s m e]; try done. pose proof (canonical_f32 _ _ _ V) as (He & _). simpl in P, B.
  assert (0 < 2 ^ (e + 149)) by (apply Z.pow_pos_nonneg; lia). destruct s; simpl in P, B; [lia|].
  assert (e ≤ k) as Hek. { assert (e + 149 ≤ k + 149); [|lia]. apply (Z.pow_le_mono_r_iff 2); [lia|lia|nia]. }
  simpl. split; [lia|]. replace (k + 149) with (k - e + (e + 149)) in B by lia. rewrite (Z.pow_add_r 2 (k - e)) in B by lia. nia.
Qed.
Lemma upto_add k x y : upto k x → upto k y → k ≤ 103 → upto (k + 1) (f32_add x y) ∧ (0 < value x + value y → 0 < value (f32_add x y)).
Proof.
  intros [Sx Vx Px] [Sy Vy Py] Hk. destruct (add_small k x y) as (S & V & G); [done..|]. split.
  - split; [done..|]. apply Z.sgn_nonneg. rewrite G. apply Z.sgn_nonneg. lia.
  - intros Hp. apply Z.sgn_pos_iff. rewrite G. by apply Z.sgn_pos_iff.
Qed.
Lemma upto_sub k x y : upto k x → upto k y → k ≤ 104 → value y ≤ value x → upto k (f32_sub x y) ∧ (value y < value x → 0 < value (f32_sub x y)).
Proof.
  intros [Sx Vx Px] [Sy Vy Py] Hk Hle. destruct (sub_small k x y) as (S & V & G); [done..|]. split.
  - split; [done..|]. apply Z.sgn_nonneg. rewrite G. apply Z.sgn_nonneg. lia.
  - intros Hp. apply Z.sgn_pos_iff. rewrite G. apply Z.sgn_pos_iff. lia.
Qed.
Lemma upto_lt k l x y : upto k x → upto l y → SFltb x y = true ↔ value x < value y.
Proof. intros X Y. apply SFltb_value; [apply X|apply Y|by eapply upto_finite|by eapply upto_finite]. Qed.
Lemma upto_min k x y : upto k x → upto k y → upto k (f32_min x y) ∧ value (f32_min x y) = Z.min (value x) (value y).
Proof.
  intros X Y. assert (f32_min x y = if SFltb y x then y else x) as -> by (pose proof (upto_finite _ _ X); by destruct x).
  pose proof (upto_lt _ _ _ _ Y X) as L. destruct (SFltb y x); [pose proof (proj1 L eq_refl); split; [done|lia]|]. split; [done|].
  assert (¬ value y < value x) by (intros ?%L; done). lia.
Qed.

(** ** The schedule of the clips *)

(** The length a clip is given: at least a sixtieth of a second. *)
Definition long_enough (d : f32) : Prop := upto 17 d ∧ 2 ^ 143 ≤ value d.

Lemma duration_long d : is_finite d = true → valid d → SFleb d MAX_ANIMATION_DURATION_SECONDS = true → long_enough (f32_max d (f32_lit 1 60)).
Proof.
  intros F V L. assert (f32_max d (f32_lit 1 60) = if SFltb d (f32_lit 1 60) then f32_lit 1 60 else d) as -> by (by destruct d).
  assert (upto 17 (f32_lit 1 60)) as U60. { apply upto_value; [lia|vm_refl|vm_refl|]. vm_compute. split; congruence. }
  assert (2 ^ 143 ≤ value (f32_lit 1 60)) as V60 by (vm_compute; congruence).
  destruct (SFltb _ _) eqn:E; [done|].
  apply SFleb_not_lt in E; [|done..]. apply SFleb_value in E; [|vm_refl|done|vm_refl|done].
  apply SFleb_value in L; [|done|vm_refl|done|vm_refl]. assert (value MAX_ANIMATION_DURATION_SECONDS ≤ 2 ^ (17 + 149)) by (vm_compute; congruence).
  assert (0 < 2 ^ 143) by done. split; [apply upto_value; [lia|done..|lia]|lia].
Qed.
Lemma half_upto d : long_enough d → upto 17 (f32_mul d (f32_lit 1 2)) ∧ 0 < value (f32_mul d (f32_lit 1 2)) < value d.
Proof.
  intros [[S V P] B]. destruct (half_small 17 d V S ltac:(lia) B) as (S' & V' & B'). split; [split; [done..|lia]|done].
Qed.

(** The fade between two clips is at most half of either. *)
Lemma fade_upto crossfade d next : long_enough d → long_enough next → valid crossfade →
  let fade := f32_min (f32_min (f32_max crossfade f32_0) (f32_mul d (f32_lit 1 2))) (f32_mul next (f32_lit 1 2)) in
  upto 17 fade ∧ value fade < value d ∧ value fade < value next.
Proof.
  intros Hd Hn Vc. cbv zeta. destruct (half_upto d Hd) as [Ud Bd], (half_upto next Hn) as [Un Bn].
  set (a := f32_mul d _) in *. set (b := f32_mul next _) in *.
  assert (upto 17 (f32_min (f32_max crossfade f32_0) a) ∧ value (f32_min (f32_max crossfade f32_0) a) ≤ value a) as [U B].
  { assert (is_finite (f32_max crossfade f32_0) = true ∨ f32_max crossfade f32_0 = S754_infinity false) as [F|E].
    { destruct crossfade as [s|[]| |[] m e]; simpl; auto. }
    - assert (upto 128 (f32_max crossfade f32_0)) as Uc.
      { split; [apply valid_small; [|done]|..]. all: destruct crossfade as [[]|[]| |[] m e]; try done. simpl. apply canonical_f32 in Vc as (? & _).
        assert (0 < 2 ^ (e + 149)) by (apply Z.pow_pos_nonneg; lia). lia. }
      destruct (upto_min 128 _ a Uc) as [U' E']; [by eapply upto_mono; [|exact Ud]|]. rewrite E'. split; [|lia].
      apply upto_value; [lia|apply U'|by eapply upto_finite|]. rewrite E'. pose proof (up_value _ _ Uc). pose proof (up_value _ _ Ud).
      destruct Ud as [S V P]. destruct a as [| | |s m e]; try done; [simpl; lia|]. destruct S as [? ?]. destruct s; [simpl in *; lia|]. simpl in *.
      split; [lia|]. etransitivity; [apply Z.le_min_r|]. replace (17 + 149) with (17 - e + (e + 149)) by lia. rewrite (Z.pow_add_r 2 (17 - e)) by lia.
      apply Z.mul_le_mono_nonneg_r; [apply Z.pow_nonneg; lia|done].
    - rewrite E. assert (f32_min (S754_infinity false) a = a) as ->; [|split; [done|lia]]. pose proof (upto_finite _ _ Ud). by destruct a. }
  destruct (upto_min 17 _ b U Un) as [U' E']. rewrite E'. split; [done|lia].
Qed.

Section schedule.
Context (crossfade : f32) (durations : list f32) (Vc : valid crossfade) (Hd : Forall long_enough durations).
Let n := length durations.
Let fades := outgoing_fades crossfade durations.

Lemma fade_spec i d : durations !! i = Some d → ∃ next fade, durations !! (S i mod n)%nat = Some next ∧ fades !! i = Some fade ∧
  upto 17 fade ∧ value fade < value d ∧ value fade < value next.
Proof.
  intros Hi. assert (i < n)%nat by (by eapply lookup_lt_Some). destruct (lookup_lt_is_Some_2 durations (S i mod n)%nat) as [next Hn].
  { apply Nat.mod_upper_bound. lia. }
  exists next. eexists. split; [done|]. rewrite Forall_lookup in Hd. unfold fades, outgoing_fades. rewrite list_lookup_imap, Hi.
  split; [reflexivity|]. unfold at_mod. fold n. rewrite Hn. simpl default. by apply fade_upto; [eapply Hd|eapply Hd|].
Qed.
Lemma fades_length : length fades = n.
Proof. apply length_imap. Qed.

Lemma incoming_spec i d : durations !! i = Some d → upto 17 (incoming_fade fades i) ∧ value (incoming_fade fades i) < value d.
Proof.
  intros Hi. assert (i < n)%nat by (by eapply lookup_lt_Some). unfold incoming_fade, at_mod. rewrite fades_length.
  set (j := ((i + n - 1) mod n)%nat). assert (S j mod n = i)%nat as Hj.
  { unfold j. destruct i as [|i].
    - rewrite (Nat.mod_small (0 + n - 1)) by lia. replace (S (0 + n - 1)) with n by lia. apply Nat.Div0.mod_same.
    - replace (S i + n - 1)%nat with (i + 1 * n)%nat by lia. rewrite Nat.Div0.mod_add, (Nat.mod_small i), Nat.mod_small by lia. done. }
  destruct (lookup_lt_is_Some_2 durations j) as [dj Hdj]; [apply Nat.mod_upper_bound; lia|].
  destruct (fade_spec j dj Hdj) as (next & fade & Hn & -> & U & _ & B). rewrite Hj, Hi in Hn. by injection Hn as <-.
Qed.

Lemma segments_spec : Forall (λ s, upto 17 s ∧ 0 < value s) (segment_durations durations fades).
Proof.
  apply Forall_lookup. intros i s Hs. unfold segment_durations in Hs. rewrite list_lookup_imap in Hs.
  destruct (durations !! i) as [d|] eqn:Hi; [|done]. injection Hs as <-. destruct (incoming_spec i d Hi) as [U B].
  rewrite Forall_lookup in Hd. destruct (Hd _ _ Hi) as [Ud _]. destruct (upto_sub 17 d (incoming_fade fades i) Ud U) as [S P]; [lia|lia|]. split; [done|by apply P].
Qed.
End schedule.

Lemma total_spec segments acc k : Forall (λ s, upto 17 s ∧ 0 < value s) segments → 17 ≤ k → upto k acc → (segments = [] → 0 < value acc) →
  k + zlen segments ≤ 103 → upto (k + zlen segments) (foldl f32_add acc segments) ∧ 0 < value (foldl f32_add acc segments).
Proof.
  intros F. revert acc k. induction F as [|s segments [Us Ps] _ IH]; intros acc k Hk U P L; simpl.
  - rewrite Z.add_0_r. split; [done|]. by apply P.
  - unfold zlen in *. rewrite length_cons in *. destruct (upto_add k acc s U) as [Ua Pa]; [by eapply upto_mono; [|exact Us]|lia|].
    pose proof (up_value _ _ U). destruct (IH (f32_add acc s) (k + 1)) as [R1 R2]; [lia|done|intros _; apply Pa; lia|lia|].
    split; [by eapply upto_mono; [|exact R1]; lia|done].
Qed.

(** The clip that plays, and the time in it. *)
Lemma find_segment_spec segments index cursor k : Forall (λ s, upto 17 s ∧ 0 < value s) segments → segments ≠ [] → 17 ≤ k ≤ 104 → upto k cursor →
  let r := find_segment index cursor segments in (r.1 < index + length segments)%nat ∧ upto k r.2.
Proof.
  intros F. revert index cursor. induction F as [|s segments [Us Ps] _ IH]; intros index cursor Hne Hk U; [done|]. simpl.
  pose proof (upto_lt _ _ _ _ U Us) as L. destruct (SFltb cursor s); [simpl; split; [lia|done]|].
  assert (value s ≤ value cursor) by (assert (¬ value cursor < value s) by (intros ?%L; done); lia).
  destruct (upto_sub k cursor s U) as [Uc _]; [by eapply upto_mono; [|exact Us]; lia|lia|done|].
  destruct segments as [|s' segments]; [simpl; split; [lia|done]|]. destruct (IH (S index) (f32_sub cursor s)) as [R1 R2]; [done..|].
  split; [simpl in R1 |- *; lia|done].
Qed.

(** ** The mixer *)

(** A clamped quotient is finite, and so is a part of a fade. *)
Lemma clamp_finite f : number f → is_finite (f32_clamp f f32_0 f32_1) = true ∧ SFltb f32_1 (f32_clamp f f32_0 f32_1) = false.
Proof.
  intros Hf. unfold f32_clamp. destruct (SFltb f f32_0) eqn:E1; [done|]. destruct (SFltb f32_1 f) eqn:E2; [done|]. split; [|done].
  destruct f as [|[]| |]; done.
Qed.
Lemma quotient_shape x y s m e : is_finite x = true → is_finite y = true → f32_clamp (f32_div x y) f32_0 f32_1 = S754_finite s m e →
  Zpos m < 2 ^ 24 ∧ e ≤ -23.
Proof.
  intros Fx Fy. assert (∀ t k j, f32_div x y = S754_finite t k j → Zpos k < 2 ^ 24) as Hs.
  { intros t k j. destruct x as [a| | |a mx ex], y as [b| | |b my ey]; try done. unfold f32_div, SFdiv.
    destruct (SFdiv_core_binary _ _ _ _ _ _) as [[q e'] l] eqn:E. intros Hr. eapply round_aux_shape in Hr as [? _]; [done|]. by eapply div_core_nonneg. }
  unfold f32_clamp. destruct (SFltb _ f32_0) eqn:E1; [done|]. destruct (SFltb f32_1 _) eqn:E2; [intros [= <- <- <-]; done|].
  intros Hc. split; [by eapply Hs|]. rewrite Hc in E1, E2. assert (s = false) as -> by (by destruct s).
  assert (f32_1 = S754_finite false 8388608 (-23)) as E3 by vm_refl. rewrite E3 in E2. unfold SFltb, SFcompare in E2.
  destruct (Z.compare_spec (-23) e); [lia|done|lia].
Qed.
Lemma faded_finite x y fade : is_finite x = true → is_finite y = true → upto 17 fade → number (f32_div x y) →
  is_finite (f32_mul (f32_clamp (f32_div x y) f32_0 f32_1) fade) = true.
Proof.
  intros Fx Fy U Hn. destruct (clamp_finite _ Hn) as [Fc _]. pose proof (quotient_shape x y) as Q. set (c := f32_clamp _ _ _) in *.
  destruct fade as [t| | |t n k]; [by destruct c|by (pose proof (upto_finite _ _ U))|by (pose proof (upto_finite _ _ U))|]. destruct c as [s| | |s m e]; try done.
  destruct (Q s m e Fx Fy eq_refl) as [Hm He]. destruct (up_small _ _ U) as [Hk _]. pose proof (canonical_f32 _ _ _ (up_valid _ _ U)) as (_ & Hn' & _).
  unfold f32_mul, SFmul. apply round_any_finite; [lia|lia|]. assert (Zdigits2 (Zpos (m * n)) ≤ 48); [|lia].
  apply digits_le; [done|]. rewrite Pos2Z.inj_mul. change (2 ^ 48) with (2 ^ 24 * 2 ^ 24). nia.
Qed.

Section mixer.
Context `{GlamPose}.

Definition playable (clip : CpuAnimationClip) : Prop := ∃ active_nodes retarget, clip_ok active_nodes retarget clip.

Lemma playable_long clip : playable clip → long_enough (f32_max (duration clip) (f32_lit 1 60)).
Proof. intros (a & r & [_ (k & C) L]). destruct (no_finite _ _ _ _ _ C) as [F V]. by apply duration_long. Qed.
Lemma playable_plays clip time pose : playable clip → is_finite time = true →
  ∃ pose', apply_clip clip time pose = Some pose' ∧ length pose' = length pose.
Proof. intros (a & r & Hc) Hf. destruct (clip_plays a r clip time pose Hc Hf) as (pose' & ? & ? & _). by exists pose'. Qed.

(** Clips the decoder accepts can be mixed at any time with any cross-fade. *)
Theorem mixer_total clips time crossfade pose : Forall playable clips → (length clips ≤ MAX_ANIMATION_CLIPS)%nat →
  is_finite time = true → valid time → valid crossfade →
  ∃ pose', apply_mixed clips time crossfade pose = Some pose' ∧ length pose' = length pose.
Proof.
  intros Hc Hl Ft Vt Vc. destruct clips as [|first [|second rest]]; [by exists pose|by inversion Hc; apply playable_plays|].
  unfold apply_mixed. set (clips := first :: second :: rest) in *. set (durations := _ <$> clips).
  assert (Forall long_enough durations) as Hd by (apply Forall_fmap; eapply Forall_impl; [exact Hc|apply playable_long]).
  set (fades := outgoing_fades crossfade durations). set (segments := segment_durations durations fades).
  assert (length durations = length clips) as Ld by apply length_fmap. assert (length segments = length clips) as Ls by (etransitivity; [apply length_imap|done]).
  assert (length clips = S (S (length rest))) as Lc by done.
  pose proof (segments_spec crossfade durations Vc Hd) as Hs. fold fades segments in Hs. clearbody segments. unfold MAX_ANIMATION_CLIPS in Hl.
  destruct (total_spec segments (S754_zero true) 17) as [Ut Pt]; [done|lia|by split|intros E; by rewrite E in Ls|unfold zlen; lia|].
  destruct (rem_euclid_small (17 + zlen segments) time (foldl f32_add (S754_zero true) segments)) as (C1 & C2 & C3);
    [done|apply Ut|done|apply Ut|done|unfold zlen; lia|].
  destruct (find_segment_spec segments 0 (rem_euclid time (foldl f32_add (S754_zero true) segments)) (17 + zlen segments + 1)) as [I U];
    [done|intros E; by rewrite E in Ls|unfold zlen; lia|by split|].
  destruct (find_segment _ _ _) as [i cursor]. simpl in I, U. rewrite Ls in I. clear C1 C2 C3 Ut Pt.
  destruct (lookup_lt_is_Some_2 clips i) as [active Ha]; [done|]. destruct (lookup_lt_is_Some_2 clips (S i mod length clips)%nat) as [next Hn].
  { apply Nat.mod_upper_bound. lia. }
  destruct (lookup_lt_is_Some_2 durations i) as [d Hdi]; [lia|]. destruct (fade_spec crossfade durations Vc Hd i d Hdi) as (_ & fade & _ & Hf & Uf & Bf & _).
  destruct (incoming_spec crossfade durations Vc Hd i d Hdi) as [Ui _]. fold fades in Hf, Ui. unfold at_mod. rewrite Ha, Hn, Hf, Hdi. cbn [mbind option_bind].
  rewrite Forall_lookup in Hc. pose proof (Hc _ _ Ha) as Pa. pose proof (Hc _ _ Hn) as Pn. rewrite Forall_lookup in Hd. destruct (Hd _ _ Hdi) as [Ud _].
  destruct (upto_add (17 + zlen segments + 1) (incoming_fade fades i) cursor) as [Us _]; [eapply upto_mono; [|exact Ui]; unfold zlen; lia|done|unfold zlen; lia|].
  destruct (upto_sub 17 d fade Ud Uf) as [Ufs _]; [lia|lia|]. set (sample := f32_add _ _) in *. set (fade_start := f32_sub d fade) in *.
  assert (is_finite sample = true) as Fs by (by eapply upto_finite).
  destruct (SFleb fade F32_EPSILON || _) eqn:Ee; [by apply playable_plays|]. apply orb_false_iff in Ee as [Ee _].
  destruct (playable_plays active sample pose Pa Fs) as (p1 & -> & L1). cbn [mbind option_bind].
  assert (is_finite (f32_sub sample fade_start) = true) as Fd.
  { destruct (sub_small (17 + zlen segments + 1 + 1) sample fade_start) as (S & _); [apply Us|eapply small_mono; [|apply Ufs]; unfold zlen; lia|apply Us|apply Ufs|apply Us|apply Ufs|unfold zlen; lia|by eapply small_finite]. }
  assert (number (f32_div (f32_sub sample fade_start) fade)) as Hq.
  { apply div_number; [done|by eapply upto_finite|]. intros s ->. by destruct s. }
  destruct (playable_plays next (f32_mul (f32_clamp (f32_div (f32_sub sample fade_start) fade) f32_0 f32_1) fade) pose Pn) as (p2 & -> & L2).
  { apply faded_finite; [done|by eapply upto_finite|done..]. }
  cbn [mbind option_bind]. eexists. split; [done|]. rewrite length_zip_with. lia.
Qed.
End mixer.
