(* ===== verification/VrmScene.v ===== *)
(** * The meshes of a character model (skid-monitor-fe, vrm/loader.rs)

    [build_scene]: the triangle primitives of the active nodes are read,
    validated and expanded into one vertex buffer with a draw, a material and
    its morph targets for each.  What the gltf crate reads of a primitive is
    data.  An index out of range, where Rust panics, is [None]. *)

From S2P Require Import Prelude RustStr Otlp RustFloat FeProfile Json VrmJson VrmMtoon VrmGlb VrmOrder VrmGraph VrmBuffers VrmHumanoid VrmRig VrmSpring VrmAnimation.

Definition MAX_PRIMITIVES : Z := 4096.
Definition MAX_TRIANGLES : Z := 300000.
Definition MAX_SOURCE_VERTICES : Z := 1000000.
Definition MAX_OUTPUT_VERTICES : Z := MAX_TRIANGLES * 3.
Definition MAX_MORPH_DELTAS : Z := 2000000.

(** ** The data of a scene *)

Inductive AlphaMode := Opaque | Mask | Blend.
#[global] Instance AlphaMode_eq_dec : EqDecision AlphaMode.
Proof. solve_decision. Defined.

(** [[u16; 4]] and [[f32; 2]]. *)
Record U16x4 := { j0 : Z; j1 : Z; j2 : Z; j3 : Z }.
Definition joint_list (j : U16x4) : list Z := [j0 j; j1 j; j2 j; j3 j].
Definition weight_list (w : Vec4) : list f32 := [x4 w; y4 w; z4 w; w4 w].
Abbreviation Vec2 := (f32 * f32)%type.

Record VrmVertex := {
  vt_position : Vec3;
  vt_normal : Vec3;
  vt_uv : Vec2;
  vt_tangent : Vec4;
  vt_joints : U16x4;
  vt_weights : Vec4;
}.
Record CpuMorphDelta := { dl_position : Vec4; dl_normal : Vec4; dl_tangent : Vec4 }.
Record CpuMorphTarget := { mt_index : nat; mt_deltas : list CpuMorphDelta }.
Record CpuMaterial := {
  cm_base_color : Vec4;
  cm_texture : option nat;
  cm_alpha_mode : AlphaMode;
  cm_alpha_cutoff : f32;
  cm_mtoon : CpuMtoonMaterial;
}.
Record CpuDraw := {
  dr_start : Z;
  dr_end : Z;
  dr_material : nat;
  dr_center_z : f32;
  dr_node : nat;
  dr_skin : option nat;
  dr_morphs : list CpuMorphTarget;
}.

(** ** A primitive, as the gltf crate reads it *)

Record GltfMaterial := {
  gm_index : option nat;
  gm_base_color : Vec4;
  gm_base_texture : option (nat * nat);       (* texture, set of coordinates *)
  gm_alpha_mode : AlphaMode;
  gm_alpha_cutoff : option f32;
  gm_emissive : Vec3;
  gm_normal : option (nat * f32);             (* texture, scale *)
}.
(** An attribute: its accessor, and what the reader gives for it. *)
Record Attribute (A : Type) := { at_accessor : Accessor; at_values : option (list A) }.
Arguments at_accessor {A} a.
Arguments at_values {A} a.
Record GltfMorph := {
  gm_positions : option (Attribute Vec3);
  gm_normals : option (Attribute Vec3);
  gm_tangents : option (Attribute Vec3);
}.
Record GltfPrimitive := {
  gp_triangles : bool;
  gp_positions : option (Attribute Vec3);
  gp_indices : option (Attribute Z);
  gp_normals : option (Attribute Vec3);
  gp_tangents : option (Attribute Vec4);
  gp_tex_coords : nat → option (Attribute Vec2);
  gp_joints : option (Attribute U16x4);
  gp_weights : option (Attribute Vec4);
  gp_morphs : list GltfMorph;
  gp_material : GltfMaterial;
}.
(** The primitives of every mesh, the skin of every node, the textures. *)
Record GltfMeshDoc := {
  dm_primitives : list (list GltfPrimitive);
  dm_skins : list (option nat);
  dm_textures : GltfTextures;
}.

(** glam on points. *)
Class GlamMesh (Mat : Type) := {
  transform_point3 : Mat → Vec3 → Vec3;
  v3_cross : Vec3 → Vec3 → Vec3;
  v3_dot : Vec3 → Vec3 → f32;
  v3_div : Vec3 → f32 → Vec3;
  v3_min : Vec3 → Vec3 → Vec3;
  v3_max : Vec3 → Vec3 → Vec3;
}.

Section attributes.
Context `{JsonFloat, Glam}.

(** ** Reading the attributes *)

Definition float_attribute (dimensions : Dimensions) (a : Accessor) : bool :=
  bool_decide (ac_data_type a = F32) && bool_decide (ac_dimensions a = dimensions) && negb (ac_normalized a).
(** F32, or a normalized U8 or U16. *)
Definition fraction_type (a : Accessor) : bool :=
  match ac_data_type a with F32 => negb (ac_normalized a) | U8 | U16 => ac_normalized a | _ => false end.

Definition check_index_accessor (a : Accessor) : result string () :=
  _ ← validate_accessor_iteration a "index";
  if negb (bool_decide (ac_dimensions a = Scalar)) ||
     negb (bool_decide (ac_data_type a = U8) || bool_decide (ac_data_type a = U16) || bool_decide (ac_data_type a = U32)) ||
     ac_normalized a
  then Err "VRM index accessor must be non-normalized U8/U16/U32 SCALAR"
  else if MAX_OUTPUT_VERTICES <? ac_count a
  then Err ("VRM primitive index count exceeds " +:+ u64_to_string MAX_OUTPUT_VERTICES)
  else Ok ().

Definition read_normals (count : Z) (p : GltfPrimitive) : result string (option (list Vec3)) :=
  match gp_normals p with
  | None => Ok None
  | Some attribute =>
    _ ← validate_accessor_iteration (at_accessor attribute) "NORMAL";
    if negb (ac_count (at_accessor attribute) =? count) || negb (float_attribute DVec3 (at_accessor attribute))
    then Err "VRM NORMAL accessor must be matching non-normalized F32 VEC3"
    else
    normals ← ok_or (at_values attribute) "VRM NORMAL data could not be decoded";
    if existsb (λ n, negb (vec3_all is_finite n) || SFleb (length_squared n) F32_EPSILON) normals
    then Err "VRM vertex normal is invalid"
    else Ok (Some normals)
  end.

Definition read_tangents (count : Z) (p : GltfPrimitive) : result string (option (list Vec4)) :=
  match gp_tangents p with
  | None => Ok None
  | Some attribute =>
    _ ← validate_accessor_iteration (at_accessor attribute) "TANGENT";
    if negb (ac_count (at_accessor attribute) =? count) || negb (float_attribute DVec4 (at_accessor attribute))
    then Err "VRM TANGENT accessor must be matching non-normalized F32 VEC4"
    else
    tangents ← ok_or (at_values attribute) "VRM TANGENT data could not be decoded";
    if existsb (λ t, negb (vec4_finite t)) tangents then Err "VRM vertex tangent contains NaN or infinity"
    else Ok (Some tangents)
  end.

Definition raw_indices (positions : list Vec3) (p : GltfPrimitive) : result string (list nat) :=
  match gp_indices p with
  | Some attribute => values ← ok_or (at_values attribute) "VRM index data could not be decoded"; Ok (map Z.to_nat values)
  | None => Ok (seq 0 (length positions))
  end.
Definition read_indices (positions : list Vec3) (p : GltfPrimitive) : result string (list nat) :=
  indices ← raw_indices positions p;
  if negb (length indices mod 3 =? 0)%nat then Err "VRM triangle index count must be divisible by three" else Ok indices.

Definition read_tex_coords (count : Z) (p : GltfPrimitive) : result string (option (list Vec2)) :=
  match gp_tex_coords p (match gm_base_texture (gp_material p) with Some (_, set) => set | None => 0%nat end) with
  | None => Ok None
  | Some attribute =>
    _ ← validate_accessor_iteration (at_accessor attribute) "TEXCOORD";
    if negb (ac_count (at_accessor attribute) =? count) then Err "VRM texture coordinate count does not match positions"
    else if negb (bool_decide (ac_dimensions (at_accessor attribute) = DVec2)) || negb (fraction_type (at_accessor attribute))
    then Err "VRM TEXCOORD accessor must be F32 or normalized U8/U16 VEC2"
    else
    values ← ok_or (at_values attribute) "VRM texture coordinates could not be decoded";
    Ok (Some values)
  end.

(** Joints and weights, when the node has a skin. *)
Definition read_influences (skinned : bool) (count : Z) (p : GltfPrimitive) : result string (option (list U16x4 * list Vec4)) :=
  if negb skinned then Ok None
  else
  joints ← ok_or (gp_joints p) "VRM skinned primitive is missing JOINTS_0";
  weights ← ok_or (gp_weights p) "VRM skinned primitive is missing WEIGHTS_0";
  _ ← validate_accessor_iteration (at_accessor joints) "JOINTS_0";
  _ ← validate_accessor_iteration (at_accessor weights) "WEIGHTS_0";
  if negb (ac_count (at_accessor joints) =? count) || negb (ac_count (at_accessor weights) =? count)
  then Err "VRM skinned primitive needs matching JOINTS_0 and WEIGHTS_0 data"
  else if negb (bool_decide (ac_dimensions (at_accessor joints) = DVec4)) ||
          negb (bool_decide (ac_data_type (at_accessor joints) = U8) || bool_decide (ac_data_type (at_accessor joints) = U16)) ||
          ac_normalized (at_accessor joints)
  then Err "VRM JOINTS_0 accessor must be non-normalized U8/U16 VEC4"
  else if negb (bool_decide (ac_dimensions (at_accessor weights) = DVec4)) || negb (fraction_type (at_accessor weights))
  then Err "VRM WEIGHTS_0 accessor must be F32 or normalized U8/U16 VEC4"
  else
  joints ← ok_or (at_values joints) "VRM JOINTS_0 data could not be decoded";
  weights ← ok_or (at_values weights) "VRM WEIGHTS_0 data could not be decoded";
  Ok (Some (joints, weights)).

(** ** Morph targets *)

(** The targets some expression binds at this node. *)
Definition relevant_morph_targets (expressions : CpuExpressionSet) (node : nat) : gset nat :=
  list_to_set (mb_target <$> filter (λ b, mb_node b = node) (List.concat ((λ ne, morph_binds ne.2) <$> map_to_list expressions))).

Record MorphSource := { ms_index : nat; ms_positions : list Vec3; ms_normals : list Vec3; ms_tangents : list Vec3 }.

Definition check_morph_accessor (count : Z) (a : option (Attribute Vec3)) (label : string) : result string () :=
  match a with
  | None => Ok ()
  | Some attribute =>
    _ ← validate_accessor_iteration (at_accessor attribute) label;
    if negb (ac_count (at_accessor attribute) =? count) || negb (float_attribute DVec3 (at_accessor attribute))
    then Err ("VRM " +:+ label +:+ " accessor must be matching non-normalized F32 VEC3")
    else Ok ()
  end.
Definition morph_values (count : nat) (a : option (Attribute Vec3)) : list Vec3 :=
  match a ≫= at_values with Some values => values | None => repeat vec3_zero count end.

Fixpoint read_morphs (relevant : gset nat) (count : nat) (index : nat) (morphs : list GltfMorph) : result string (list MorphSource) :=
  match morphs with
  | [] => Ok []
  | m :: morphs =>
    if negb (bool_decide (index ∈ relevant)) then read_morphs relevant count (S index) morphs
    else
    _ ← check_morph_accessor (Z.of_nat count) (gm_positions m) "morph POSITION";
    _ ← check_morph_accessor (Z.of_nat count) (gm_normals m) "morph NORMAL";
    _ ← check_morph_accessor (Z.of_nat count) (gm_tangents m) "morph TANGENT";
    let source := {| ms_index := index; ms_positions := morph_values count (gm_positions m);
                     ms_normals := morph_values count (gm_normals m); ms_tangents := morph_values count (gm_tangents m) |} in
    if existsb (λ v, negb (vec3_all is_finite v)) (ms_positions source ++ ms_normals source ++ ms_tangents source)
    then Err "VRM morph target contains NaN or infinity"
    else
    rest ← read_morphs relevant count (S index) morphs;
    Ok (source :: rest)
  end.
End attributes.

(** ** Points *)

Section expand.
Context {Mat : Type} `{JsonFloat, Glam, GlamPose, !Transforms NodeTransform Mat, !GlamMesh Mat, ImageDecoder}.

Definition finite_position (position : Vec3) : result string Vec3 :=
  if vec3_all is_finite position then Ok position else Err "VRM transformed vertex contains NaN or infinity".

(** The loop over the four influences: the weighted sum and the sum of the
    weights. *)
Fixpoint blend_influences (skin_matrices : list Mat) (position : Vec3) (influences : list (Z * f32)) (transformed : Vec3)
    (weight_sum : f32) : result string (Vec3 * f32) :=
  match influences with
  | [] => Ok (transformed, weight_sum)
  | (joint, weight) :: influences =>
    if negb (is_finite weight) || SFltb weight f32_0 then Err "VRM skin weight is invalid"
    else if SFleb weight F32_EPSILON then blend_influences skin_matrices position influences transformed weight_sum
    else
    matrix ← ok_or (skin_matrices !! Z.to_nat joint) "VRM vertex references a missing skin joint";
    blend_influences skin_matrices position influences
      (v3_add transformed (v3_scale (transform_point3 matrix position) weight)) (f32_add weight_sum weight)
  end.
Definition transform_position (position : Vec3) (vertex_index : nat) (mesh_world : Mat) (skin_matrices : option (list Mat))
    (influences : option (list U16x4 * list Vec4)) : result string Vec3 :=
  match skin_matrices with
  | None => finite_position (transform_point3 mesh_world position)
  | Some skin_matrices =>
    joints ← ok_or (influences ≫= (λ i, i.1 !! vertex_index)) "VRM joint data is missing";
    weights ← ok_or (influences ≫= (λ i, i.2 !! vertex_index)) "VRM weight data is missing";
    blended ← blend_influences skin_matrices position (zip (joint_list joints) (weight_list weights)) vec3_zero f32_0;
    finite_position (if SFleb blended.2 F32_EPSILON then transform_point3 mesh_world position else v3_div blended.1 blended.2)
  end.

Fixpoint sum_influences (joint_count : nat) (influences : list (Z * f32)) (weight_sum : f32) : result string f32 :=
  match influences with
  | [] => Ok weight_sum
  | (joint, weight) :: influences =>
    if negb (is_finite weight) || SFltb weight f32_0 then Err "VRM skin weight is invalid"
    else if SFltb F32_EPSILON weight && (joint_count <=? Z.to_nat joint)%nat
    then Err "VRM vertex references a missing skin joint"
    else sum_influences joint_count influences (f32_add weight_sum weight)
  end.
Definition normalized_influences (joints : U16x4) (weights : Vec4) (joint_count : nat) : result string (U16x4 * Vec4) :=
  weight_sum ← sum_influences joint_count (zip (joint_list joints) (weight_list weights)) f32_0;
  if SFleb weight_sum F32_EPSILON then Err "VRM skinned vertex must have at least one positive weight"
  else Ok (joints, {| x4 := f32_div (x4 weights) weight_sum; y4 := f32_div (y4 weights) weight_sum;
                      z4 := f32_div (z4 weights) weight_sum; w4 := f32_div (w4 weights) weight_sum |}).

(** ** Triangles *)

Record Corner := {
  co_source : nat;
  co_local : Vec3;
  co_rest : Vec3;
  co_uv : Vec2;
  co_joints : U16x4;
  co_weights : Vec4;
}.

(** What the triangles of a primitive are made from. *)
Record MeshData := {
  ma_positions : list Vec3;
  ma_normals : option (list Vec3);
  ma_tangents : option (list Vec4);
  ma_tex_coords : option (list Vec2);
  ma_influences : option (list U16x4 * list Vec4);
  ma_world : Mat;
  ma_skin : option (list Mat);
  ma_front : f32;
}.

Definition no_joints : U16x4 := {| j0 := 0; j1 := 0; j2 := 0; j3 := 0 |}.
Definition first_joint_only : Vec4 := {| x4 := f32_1; y4 := f32_0; z4 := f32_0; w4 := f32_0 |}.

Definition corner_influences (d : MeshData) (index : nat) : result string (U16x4 * Vec4) :=
  match ma_influences d with
  | None => Ok (no_joints, first_joint_only)
  | Some (joints, weights) =>
    j ← ok_or (joints !! index) "VRM joint data is missing";
    w ← ok_or (weights !! index) "VRM weight data is missing";
    normalized_influences j w (match ma_skin d with Some m => length m | None => 0%nat end)
  end.

(** One corner; the coordinates are indexed without a check. *)
Definition expand_corner (d : MeshData) (index : nat) : option (result string Corner) :=
  position ⇐ Some (ok_or (ma_positions d !! index) ("VRM index " +:+ usize_text index +:+ " is outside POSITION data"));
  rest ⇐ Some (transform_position position index (ma_world d) (ma_skin d) (ma_influences d));
  uv ⇐ match ma_tex_coords d with
       | None => Some (Ok (f32_0, f32_0))
       | Some coords => match coords !! index with Some uv => Some (Ok uv) | None => None end
       end;
  influences ⇐ Some (corner_influences d index);
  Some (Ok {| co_source := index; co_local := position; co_rest := rest; co_uv := uv; co_joints := influences.1;
              co_weights := influences.2 |}).

Definition v3_x : Vec3 := axis_x f32_1.
Definition v3_y : Vec3 := axis_y f32_1.
Definition triangle_tangent (p0 p1 p2 : Vec3) (uv0 uv1 uv2 : Vec2) (normal : Vec3) : Vec4 :=
  let edge_a := v3_sub p1 p0 in
  let edge_b := v3_sub p2 p0 in
  let ax := f32_sub uv1.1 uv0.1 in
  let ay := f32_sub uv1.2 uv0.2 in
  let bx := f32_sub uv2.1 uv0.1 in
  let by_ := f32_sub uv2.2 uv0.2 in
  let determinant := f32_sub (f32_mul ax by_) (f32_mul ay bx) in
  let solvable := SFltb F32_EPSILON (SFabs determinant) in
  let tangent :=
    if solvable then normalize_or_zero (v3_div (v3_sub (v3_scale edge_a by_) (v3_scale edge_b ay)) determinant)
    else normalize_or_zero (v3_cross (if SFltb (SFabs (vy normal)) (f32_lit 99 100) then v3_y else v3_x) normal) in
  let bitangent :=
    if solvable then normalize_or_zero (v3_div (v3_sub (v3_scale edge_b ax) (v3_scale edge_a bx)) determinant)
    else v3_cross normal tangent in
  {| x4 := vx tangent; y4 := vy tangent; z4 := vz tangent;
     w4 := if SFltb (v3_dot (v3_cross normal tangent) bitangent) f32_0 then f32_neg_1 else f32_1 |}.

(** The locals the loop over the triangles changes. *)
Record Expanded := {
  ex_vertices : list VrmVertex;
  ex_sources : list nat;
  ex_depths : list f32;
  ex_min : Vec3;
  ex_max : Vec3;
  ex_min_z : f32;
  ex_max_z : f32;
}.

(** One corner into the buffer. *)
Definition push_corner (d : MeshData) (fallback_normal : Vec3) (fallback_tangent : Vec4) (c : Corner) (e : Expanded) : Expanded :=
  let normal := normalize (default fallback_normal (ma_normals d ≫= (.!! co_source c))) in
  let tangent := default fallback_tangent (ma_tangents d ≫= (.!! co_source c)) in
  {| ex_vertices := ex_vertices e ++ [{| vt_position := co_local c; vt_normal := normal; vt_uv := co_uv c; vt_tangent := tangent;
                                        vt_joints := co_joints c; vt_weights := co_weights c |}];
     ex_sources := ex_sources e ++ [co_source c]; ex_depths := ex_depths e;
     ex_min := v3_min (ex_min e) (co_rest c); ex_max := v3_max (ex_max e) (co_rest c);
     ex_min_z := f32_min (ex_min_z e) (vz (co_rest c)); ex_max_z := f32_max (ex_max_z e) (vz (co_rest c)) |}.

Definition face (p0 p1 p2 : Vec3) : Vec3 := v3_cross (v3_sub p1 p0) (v3_sub p2 p0).
Definition degenerate (f : Vec3) : bool := negb (vec3_all is_finite f) || SFleb (length_squared f) F32_EPSILON.

Definition triangle_depth (front : f32) (a b c : Corner) : f32 :=
  f32_mul (foldl f32_add (S754_zero true) [vz (co_rest a); vz (co_rest b); vz (co_rest c)]) (f32_div front (f32_of_Z 3)).

Definition expand_triangle (d : MeshData) (i0 i1 i2 : nat) (e : Expanded) : option (result string Expanded) :=
  a ⇐ expand_corner d i0;
  b ⇐ expand_corner d i1;
  c ⇐ expand_corner d i2;
  let rest_face := face (co_rest a) (co_rest b) (co_rest c) in
  let local_face := face (co_local a) (co_local b) (co_local c) in
  if degenerate rest_face || degenerate local_face then Some (Ok e)
  else
  let fallback_normal := normalize local_face in
  let fallback_tangent := triangle_tangent (co_local a) (co_local b) (co_local c) (co_uv a) (co_uv b) (co_uv c) fallback_normal in
  let push c e := push_corner d fallback_normal fallback_tangent c e in
  let e := push c (push b (push a e)) in
  let e := {| ex_vertices := ex_vertices e; ex_sources := ex_sources e;
              ex_depths := ex_depths e ++ [triangle_depth (ma_front d) a b c]; ex_min := ex_min e; ex_max := ex_max e;
              ex_min_z := ex_min_z e; ex_max_z := ex_max_z e |} in
  if MAX_OUTPUT_VERTICES <? zlen (ex_vertices e)
  then Some (Err ("VRM expanded vertex count exceeds " +:+ u64_to_string MAX_OUTPUT_VERTICES))
  else Some (Ok e).

(** [indices.chunks_exact(3)] *)
Fixpoint expand_triangles (d : MeshData) (indices : list nat) (e : Expanded) : option (result string Expanded) :=
  match indices with
  | i0 :: i1 :: i2 :: indices => e ⇐ expand_triangle d i0 i1 i2 e; expand_triangles d indices e
  | _ => Some (Ok e)
  end.
End expand.
Arguments MeshData Mat : clear implicits.

(** ** Materials *)

Section build.
Context {Mat : Type} `{JsonFloat, Glam, GlamPose, !Transforms NodeTransform Mat, !GlamMesh Mat, ImageDecoder}.

(** A texture of the material, if it has one, becomes an index into the
    textures loaded so far. *)
Definition load_slot (g : GltfTextures) (blob : list byte) (slot : option nat) (st : TextureState)
    : result string (option nat * TextureState) :=
  match slot with
  | None => Ok (None, st)
  | Some i => loaded ← load_gltf_texture g i blob st; Ok (Some loaded.1, loaded.2)
  end.

Definition with_normal_texture (normal : option (nat * f32)) (m : CpuMtoonMaterial) : CpuMtoonMaterial :=
  match normal with
  | None => m
  | Some (texture, scale) =>
    {| mt_enabled := mt_enabled m; shade_color := shade_color m; shading_shift := shading_shift m; shading_toony := shading_toony m;
       gi_equalization := gi_equalization m; parametric_rim_color := parametric_rim_color m; rim_fresnel_power := rim_fresnel_power m;
       rim_lift := rim_lift m; emissive_color := emissive_color m; outline_width := outline_width m; outline_color := outline_color m;
       outline_lighting_mix := outline_lighting_mix m; transparent_with_z_write := transparent_with_z_write m;
       render_queue_offset := render_queue_offset m; uv_scroll := uv_scroll m; uv_rotation := uv_rotation m;
       shade_texture := shade_texture m; normal_texture := Some texture; matcap_texture := matcap_texture m;
       rim_texture := rim_texture m; outline_width_texture := outline_width_texture m;
       outline_width_texture_uses_red := outline_width_texture_uses_red m; normal_scale := scale; matcap_color := matcap_color m;
       rim_lighting_mix := rim_lighting_mix m |}
  end.
Definition with_textures (shade normal matcap rim outline : option nat) (m : CpuMtoonMaterial) : CpuMtoonMaterial :=
  {| mt_enabled := mt_enabled m; shade_color := shade_color m; shading_shift := shading_shift m; shading_toony := shading_toony m;
     gi_equalization := gi_equalization m; parametric_rim_color := parametric_rim_color m; rim_fresnel_power := rim_fresnel_power m;
     rim_lift := rim_lift m; emissive_color := emissive_color m; outline_width := outline_width m; outline_color := outline_color m;
     outline_lighting_mix := outline_lighting_mix m; transparent_with_z_write := transparent_with_z_write m;
     render_queue_offset := render_queue_offset m; uv_scroll := uv_scroll m; uv_rotation := uv_rotation m;
     shade_texture := shade; normal_texture := normal; matcap_texture := matcap; rim_texture := rim;
     outline_width_texture := outline; outline_width_texture_uses_red := outline_width_texture_uses_red m;
     normal_scale := normal_scale m; matcap_color := matcap_color m; rim_lighting_mix := rim_lighting_mix m |}.

Definition build_material (root : Value) (version_label : string) (g : GltfTextures) (blob : list byte) (material : GltfMaterial)
    (st : TextureState) : result string (CpuMaterial * TextureState) :=
  base ← load_slot g blob (fst <$> gm_base_texture material) st;
  mtoon ← decode_mtoon_material root (gm_index material) (gm_emissive material) version_label;
  let mtoon := with_normal_texture (gm_normal material) mtoon in
  shade ← load_slot g blob (shade_texture mtoon) base.2;
  normal ← load_slot g blob (normal_texture mtoon) shade.2;
  matcap ← load_slot g blob (matcap_texture mtoon) normal.2;
  rim ← load_slot g blob (rim_texture mtoon) matcap.2;
  outline ← load_slot g blob (outline_width_texture mtoon) rim.2;
  Ok ({| cm_base_color := gm_base_color material; cm_texture := base.1; cm_alpha_mode := gm_alpha_mode material;
         cm_alpha_cutoff := default (f32_lit 1 2) (gm_alpha_cutoff material);
         cm_mtoon := with_textures shade.1 normal.1 matcap.1 rim.1 outline.1 mtoon |}, outline.2).

(** ** build_scene *)

(** The locals of [build_scene]. *)
Record BuildState := {
  bs_vertices : list VrmVertex;
  bs_draws : list CpuDraw;
  bs_materials : list CpuMaterial;
  bs_textures : TextureState;
  bs_primitives : Z;
  bs_triangles : Z;
  bs_sources : Z;
  bs_deltas : Z;
  bs_min : Vec3;
  bs_max : Vec3;
}.
Definition build_start : BuildState :=
  {| bs_vertices := []; bs_draws := []; bs_materials := []; bs_textures := no_textures; bs_primitives := 0; bs_triangles := 0;
     bs_sources := 0; bs_deltas := 0; bs_min := vec3_splat (S754_infinity false); bs_max := vec3_splat (S754_infinity true) |}.
Definition count_primitive (st : BuildState) : BuildState :=
  {| bs_vertices := bs_vertices st; bs_draws := bs_draws st; bs_materials := bs_materials st; bs_textures := bs_textures st;
     bs_primitives := bs_primitives st + 1; bs_triangles := bs_triangles st; bs_sources := bs_sources st; bs_deltas := bs_deltas st;
     bs_min := bs_min st; bs_max := bs_max st |}.
Definition set_sources (n : Z) (st : BuildState) : BuildState :=
  {| bs_vertices := bs_vertices st; bs_draws := bs_draws st; bs_materials := bs_materials st; bs_textures := bs_textures st;
     bs_primitives := bs_primitives st; bs_triangles := bs_triangles st; bs_sources := n; bs_deltas := bs_deltas st;
     bs_min := bs_min st; bs_max := bs_max st |}.

(** The rest of a scene that the primitives are built against. *)
Record BuildEnv := {
  be_root : Value;
  be_label : string;
  be_blob : list byte;
  be_doc : GltfMeshDoc;
  be_skins : list (CpuSkin Mat);
  be_worlds : list (option Mat);
  be_expressions : CpuExpressionSet;
}.
Definition front_direction (label : string) : f32 := if bool_decide (label = "VRM 0.x") then f32_neg_1 else f32_1.

(** The positions of a primitive; the number of source vertices so far. *)
Definition read_positions (sources : Z) (p : GltfPrimitive) : result string (Z * list Vec3) :=
  attribute ← ok_or (gp_positions p) "VRM triangle primitive is missing POSITION data";
  _ ← validate_accessor_iteration (at_accessor attribute) "POSITION";
  if negb (float_attribute DVec3 (at_accessor attribute)) then Err "VRM POSITION accessor must be non-normalized F32 VEC3"
  else
  sources ← ok_or (checked_add sources (ac_count (at_accessor attribute))) "VRM source vertex count overflowed";
  if MAX_SOURCE_VERTICES <? sources then Err ("VRM has more than " +:+ u64_to_string MAX_SOURCE_VERTICES +:+ " source vertices")
  else
  _ ← match gp_indices p with Some indices => check_index_accessor (at_accessor indices) | None => Ok () end;
  positions ← ok_or (at_values attribute) "VRM triangle primitive is missing POSITION data";
  if existsb (λ v, negb (vec3_all is_finite v)) positions then Err "VRM vertex position contains NaN or infinity"
  else Ok (sources, positions).

Definition extend (v : Vec3) : Vec4 := {| x4 := vx v; y4 := vy v; z4 := vz v; w4 := f32_0 |}.
(** The deltas of a morph target for the expanded vertices; its lists are
    indexed without a check. *)
Fixpoint expand_deltas (m : MorphSource) (sources : list nat) : option (list CpuMorphDelta) :=
  match sources with
  | [] => Some []
  | source :: sources =>
    p ← ms_positions m !! source;
    n ← ms_normals m !! source;
    t ← ms_tangents m !! source;
    rest ← expand_deltas m sources;
    Some ({| dl_position := extend p; dl_normal := extend n; dl_tangent := extend t |} :: rest)
  end.
Fixpoint expand_morphs (morphs : list MorphSource) (sources : list nat) : option (list CpuMorphTarget) :=
  match morphs with
  | [] => Some []
  | m :: morphs =>
    deltas ← expand_deltas m sources;
    rest ← expand_morphs morphs sources;
    Some ({| mt_index := ms_index m; mt_deltas := deltas |} :: rest)
  end.

(** The draw of a primitive, when a triangle is left of it. *)
Definition push_draw (node : nat) (skin : option nat) (material_index : nat) (alpha_mode : AlphaMode) (morphs : list MorphSource)
    (start : nat) (e : Expanded) (st : BuildState) : option (result string BuildState) :=
  let fin := length (ex_vertices e) in
  let done vertices draws deltas :=
    {| bs_vertices := vertices; bs_draws := draws; bs_materials := bs_materials st; bs_textures := bs_textures st;
       bs_primitives := bs_primitives st; bs_triangles := bs_triangles st; bs_sources := bs_sources st; bs_deltas := deltas;
       bs_min := ex_min e; bs_max := ex_max e |} in
  if negb (start <? fin)%nat then Some (Ok (done (ex_vertices e) (bs_draws st) (bs_deltas st)))
  else
  morph_targets ⇐ match expand_morphs morphs (ex_sources e) with Some m => Some (Ok m) | None => None end;
  deltas ⇐ Some (ok_or (checked_add (bs_deltas st) (sumZ ((λ m, zlen (mt_deltas m)) <$> morph_targets)))
                   "VRM expression morph data size overflowed");
  if MAX_MORPH_DELTAS <? deltas
  then Some (Err ("VRM expression morph data exceeds " +:+ u64_to_string MAX_MORPH_DELTAS +:+ " expanded deltas"))
  else
  let '(vertices, morph_targets) :=
    if bool_decide (alpha_mode = Blend) then
      let sorted := sort_blended_triangles (drop start (ex_vertices e)) (ex_depths e) (mt_deltas <$> morph_targets) in
      (take start (ex_vertices e) ++ sorted.1,
       zip_with (λ m deltas, {| mt_index := mt_index m; mt_deltas := deltas |}) morph_targets sorted.2)
    else (ex_vertices e, morph_targets) in
  Some (Ok (done vertices
    (bs_draws st ++ [{| dr_start := Z.of_nat start; dr_end := Z.of_nat fin; dr_material := material_index;
                        dr_center_z := f32_mul (f32_add (ex_min_z e) (ex_max_z e)) (f32_lit 1 2); dr_node := node; dr_skin := skin;
                        dr_morphs := morph_targets |}]) deltas)).

Definition u32_of (n : nat) : result string () :=
  if Z.of_nat n <=? u32_max then Ok () else Err "VRM vertex buffer is too large".

(** What is left of a triangle primitive once its positions are read. *)
Definition build_mesh (env : BuildEnv) (node : nat) (world : Mat) (skin : option nat) (skin_matrices : option (list Mat))
    (p : GltfPrimitive) (positions : list Vec3) (st : BuildState) : option (result string BuildState) :=
  let count := zlen positions in
  normals ⇐ Some (read_normals count p);
  tangents ⇐ Some (read_tangents count p);
  indices ⇐ Some (read_indices positions p);
  triangles ⇐ Some (ok_or (checked_add (bs_triangles st) (zlen indices `div` 3)) "VRM triangle count overflowed");
  if MAX_TRIANGLES <? triangles then Some (Err ("VRM has more than " +:+ u64_to_string MAX_TRIANGLES +:+ " triangles"))
  else
  tex_coords ⇐ Some (read_tex_coords count p);
  influences ⇐ Some (read_influences (match skin_matrices with Some _ => true | None => false end) count p);
  morphs ⇐ Some (read_morphs (relevant_morph_targets (be_expressions env) node) (length positions) 0 (gp_morphs p));
  material ⇐ Some (build_material (be_root env) (be_label env) (dm_textures (be_doc env)) (be_blob env) (gp_material p) (bs_textures st));
  let start := length (bs_vertices st) in
  _ ⇐ Some (u32_of start);
  let data := {| ma_positions := positions; ma_normals := normals; ma_tangents := tangents; ma_tex_coords := tex_coords;
                 ma_influences := influences; ma_world := world; ma_skin := skin_matrices; ma_front := front_direction (be_label env) |} in
  e ⇐ expand_triangles data indices
        {| ex_vertices := bs_vertices st; ex_sources := []; ex_depths := []; ex_min := bs_min st; ex_max := bs_max st;
           ex_min_z := S754_infinity false; ex_max_z := S754_infinity true |};
  _ ⇐ Some (u32_of (length (ex_vertices e)));
  push_draw node skin (length (bs_materials st)) (gm_alpha_mode (gp_material p)) morphs start e
    {| bs_vertices := bs_vertices st; bs_draws := bs_draws st; bs_materials := bs_materials st ++ [material.1];
       bs_textures := material.2; bs_primitives := bs_primitives st; bs_triangles := triangles; bs_sources := bs_sources st;
       bs_deltas := bs_deltas st; bs_min := bs_min st; bs_max := bs_max st |}.

Definition build_primitive (env : BuildEnv) (node : nat) (world : Mat) (skin : option nat) (skin_matrices : option (list Mat))
    (p : GltfPrimitive) (st : BuildState) : option (result string BuildState) :=
  let st := count_primitive st in
  if MAX_PRIMITIVES <? bs_primitives st
  then Some (Err ("VRM has more than " +:+ u64_to_string MAX_PRIMITIVES +:+ " mesh primitives"))
  else if negb (gp_triangles p) then Some (Ok st)
  else
  read ⇐ Some (read_positions (bs_sources st) p);
  let st := set_sources read.1 st in
  match read.2 with
  | [] => Some (Ok st)
  | _ => build_mesh env node world skin skin_matrices p read.2 st
  end.
Fixpoint build_primitives (env : BuildEnv) (node : nat) (world : Mat) (skin : option nat) (skin_matrices : option (list Mat))
    (ps : list GltfPrimitive) (st : BuildState) : option (result string BuildState) :=
  match ps with
  | [] => Some (Ok st)
  | p :: ps => st ⇐ build_primitive env node world skin skin_matrices p st; build_primitives env node world skin skin_matrices ps st
  end.

(** The matrices of the joints of a skin. *)
Definition skin_matrices (env : BuildEnv) (skin : nat) : result string (list Mat) :=
  skin ← ok_or (be_skins env !! skin) ("VRM node references missing skin " +:+ usize_text skin);
  try_map (λ ji : nat * Mat,
    world ← ok_or (mjoin (be_worlds env !! ji.1)) ("VRM skin joint node " +:+ usize_text ji.1 +:+ " is outside the active scene");
    Ok (mat_mul world ji.2)) (zip (sk_joints skin) (inverse_bind skin)).

(** One turn of the loop over the nodes; [mesh] is the mesh of the node. *)
Definition build_node (env : BuildEnv) (node : nat) (mesh : option nat) (st : BuildState) : option (result string BuildState) :=
  match mesh with
  | None => Some (Ok st)
  | Some mesh =>
    match be_worlds env !! node with
    | None => None
    | Some None => Some (Ok st)
    | Some (Some world) =>
      let skin := mjoin (dm_skins (be_doc env) !! node) in
      matrices ⇐ Some (match skin with None => Ok None | Some k => m ← skin_matrices env k; Ok (Some m) end);
      build_primitives env node world skin matrices (default [] (dm_primitives (be_doc env) !! mesh)) st
    end
  end.
Fixpoint build_nodes (env : BuildEnv) (node : nat) (meshes : list (option nat)) (st : BuildState) : option (result string BuildState) :=
  match meshes with
  | [] => Some (Ok st)
  | mesh :: meshes => st ⇐ build_node env node mesh st; build_nodes env (S node) meshes st
  end.

(** The model as it is drawn; the rig is kept as it was decoded. *)
Record CpuVrmMeshes := {
  sc_vertices : list VrmVertex;
  sc_draws : list CpuDraw;
  sc_materials : list CpuMaterial;
  sc_textures : list CpuTexture;
  sc_center : Vec3;
  sc_extent : Vec3;
  sc_front_direction : f32;
}.

Definition build_scene (env : BuildEnv) (meshes : list (option nat)) : option (result string CpuVrmMeshes) :=
  st ⇐ build_nodes env 0 meshes build_start;
  if (length (bs_vertices st) =? 0)%nat || (length (bs_draws st) =? 0)%nat
  then Some (Err "VRM active scene contains no renderable triangles")
  else
  let extent := v3_sub (bs_max st) (bs_min st) in
  if negb (vec3_all is_finite extent) || SFleb (f32_max (f32_max (vx extent) (vy extent)) (vz extent)) F32_EPSILON
  then Some (Err "VRM model bounds are empty or invalid")
  else Some (Ok {| sc_vertices := bs_vertices st; sc_draws := bs_draws st; sc_materials := bs_materials st;
                   sc_textures := textures (bs_textures st); sc_center := v3_scale (v3_add (bs_min st) (bs_max st)) (f32_lit 1 2);
                   sc_extent := extent; sc_front_direction := front_direction (be_label env) |}).

Definition animation_label (animations : list CpuAnimationClip) : option string :=
  match animations with
  | [] => None
  | [clip] => Some (source_label clip)
  | _ => Some (usize_text (length animations) +:+ " blended clips")
  end.
End build.
Arguments BuildEnv Mat : clear implicits.
