(* ===== verification/VrmDrawable.v ===== *)
(** * What the meshes of a loaded model are (skid-monitor-fe, vrm/loader.rs)

    [scene_drawable]: building the scene never indexes out of range, and what
    it builds can be drawn: the draws tile the vertex buffer in triangles, and
    refer to materials, textures, nodes and skins that exist. *)

From S2P Require Import Prelude RustStr Otlp RustFloat FeProfile Json VrmJson VrmMtoon VrmGlb VrmOrder VrmGraph VrmBuffers VrmHumanoid VrmRig VrmSpring VrmAnimation VrmScene.

(** ** What the crate reads *)

(** One value for every element of the accessor. *)
Definition attribute_ok {A} (a : Attribute A) : Prop := ∀ l, at_values a = Some l → zlen l = ac_count (at_accessor a).
Definition optional_ok {A} (a : option (Attribute A)) : Prop := ∀ x, a = Some x → attribute_ok x.
Record primitive_ok (p : GltfPrimitive) : Prop := {
  pr_positions : optional_ok (gp_positions p);
  pr_tex_coords set : optional_ok (gp_tex_coords p set);
  pr_morphs : Forall (λ m, optional_ok (gm_positions m) ∧ optional_ok (gm_normals m) ∧ optional_ok (gm_tangents m)) (gp_morphs p);
}.

(** ** Vertices *)

(** The weights of a vertex are those of the file over their sum; an influence
    above the threshold is of a joint of the skin. *)
Definition influences_ok (joint_count : nat) (joints : U16x4) (weights : Vec4) : Prop :=
  ∃ original sum, SFleb sum F32_EPSILON = false ∧
    weights = {| x4 := f32_div (x4 original) sum; y4 := f32_div (y4 original) sum; z4 := f32_div (z4 original) sum;
                 w4 := f32_div (w4 original) sum |} ∧
    Forall (λ jw, is_finite jw.2 = true ∧ SFltb jw.2 f32_0 = false ∧ (SFltb F32_EPSILON jw.2 = true → (Z.to_nat jw.1 < joint_count)%nat))
      (zip (joint_list joints) (weight_list original)).
Definition vertex_ok (joint_count : option nat) (v : VrmVertex) : Prop :=
  match joint_count with
  | None => vt_joints v = no_joints ∧ vt_weights v = first_joint_only
  | Some n => influences_ok n (vt_joints v) (vt_weights v)
  end.

Lemma sum_influences_ok n influences start : ensures (sum_influences n influences start)
  (λ _, Forall (λ jw, is_finite jw.2 = true ∧ SFltb jw.2 f32_0 = false ∧ (SFltb F32_EPSILON jw.2 = true → (Z.to_nat jw.1 < n)%nat)) influences).
Proof.
  revert start. induction influences as [|[joint weight] influences IH]; intros start; simpl; [by apply ensures_ok|].
  destruct (_ || _) eqn:E1; [apply ensures_err|]. destruct (_ && _) eqn:E2; [apply ensures_err|].
  eapply ensures_impl; [apply IH|]. intros sum Hs. constructor; [|done]. apply orb_false_iff in E1 as [F1%negb_false_iff F2]. split_and!; [done..|].
  intros Hw. simpl in Hw. rewrite Hw in E2. simpl in E2. apply Nat.leb_gt in E2. done.
Qed.
Lemma normalized_ok joints weights n : ensures (normalized_influences joints weights n) (λ r, influences_ok n r.1 r.2).
Proof.
  unfold normalized_influences. eapply ensures_bind; [apply sum_influences_ok|]. intros sum Hs. destruct (SFleb sum _) eqn:E; [apply ensures_err|].
  apply ensures_ok. by exists weights, sum.
Qed.

Section expand.
Context {Mat : Type} `{JsonFloat, Glam, GlamPose, !Transforms NodeTransform Mat, !GlamMesh Mat}.

(** The attributes have as many values as there are positions. *)
Record mesh_ok (d : MeshData Mat) : Prop := {
  me_tex_coords coords : ma_tex_coords d = Some coords → length coords = length (ma_positions d);
  me_skin : (is_Some (ma_skin d) ↔ is_Some (ma_influences d));
}.
Definition joint_count (d : MeshData Mat) : option nat := length <$> ma_skin d.

Definition corner_ok (d : MeshData Mat) (c : Corner) : Prop :=
  (co_source c < length (ma_positions d))%nat ∧
  match joint_count d with
  | None => co_joints c = no_joints ∧ co_weights c = first_joint_only
  | Some n => influences_ok n (co_joints c) (co_weights c)
  end.

Lemma expand_corner_ok d index : mesh_ok d → ends (expand_corner d index) (corner_ok d).
Proof.
  intros [Ht Hs]. unfold expand_corner. apply ends_any. intros position Hp%ok_or_Ok. apply ends_any. intros rest _.
  assert (index < length (ma_positions d))%nat as Hlt by (by eapply lookup_lt_Some).
  eapply (ends_then _ _ (λ _, True)).
  { destruct (ma_tex_coords d) as [coords|] eqn:E; [|by apply ends_some].
    destruct (lookup_lt_is_Some_2 coords index) as [uv ->]; [by rewrite (Ht coords)|by apply ends_some]. }
  intros uv _. apply ends_any. intros [joints weights] Hi. apply ends_some, ensures_ok. split; [done|]. unfold joint_count, corner_influences in *.
  destruct (ma_skin d) as [m|]; simpl in *.
  - destruct (ma_influences d) as [[js ws]|]; [|by destruct (proj1 Hs); [eexists|]].
    apply bind_Ok in Hi as (j & _ & Hi). apply bind_Ok in Hi as (w & _ & Hi). by apply normalized_ok in Hi.
  - destruct (ma_influences d) as [[js ws]|]; [by destruct (proj2 Hs); [eexists|]|]. by injection Hi as <- <-.
Qed.

(** What the loop over the triangles keeps: whole triangles behind [before]. *)
Record expanded_ok (d : MeshData Mat) (before : list VrmVertex) (e : Expanded) : Prop := {
  xe_vertices : ∃ new, ex_vertices e = before ++ new ∧ length new = length (ex_sources e) ∧ Forall (vertex_ok (joint_count d)) new;
  xe_triangles : (length (ex_sources e) = 3 * length (ex_depths e))%nat;
  xe_sources : Forall (λ i, i < length (ma_positions d))%nat (ex_sources e);
}.

Lemma push_corner_ok d before normal tangent c e : corner_ok d c →
  (∃ new, ex_vertices e = before ++ new ∧ length new = length (ex_sources e) ∧ Forall (vertex_ok (joint_count d)) new) →
  Forall (λ i, i < length (ma_positions d))%nat (ex_sources e) →
  let e' := push_corner d normal tangent c e in
  (∃ new, ex_vertices e' = before ++ new ∧ length new = length (ex_sources e') ∧ Forall (vertex_ok (joint_count d)) new) ∧
  Forall (λ i, i < length (ma_positions d))%nat (ex_sources e') ∧ length (ex_sources e') = S (length (ex_sources e)) ∧ ex_depths e' = ex_depths e.
Proof.
  intros [Hc Hj] (new & Ev & El & Hv) Hs e'. unfold e'. simpl. split_and!; [|by apply Forall_app; split; [|apply Forall_singleton]|rewrite length_app; simpl; lia|done].
  exists (new ++ [{| vt_position := co_local c; vt_normal := normalize (default normal (ma_normals d ≫= (.!! co_source c))); vt_uv := co_uv c;
    vt_tangent := default tangent (ma_tangents d ≫= (.!! co_source c)); vt_joints := co_joints c; vt_weights := co_weights c |}]).
  split_and!; [by rewrite Ev, app_assoc|rewrite !length_app, El; done|]. apply Forall_app. split; [done|]. apply Forall_singleton. exact Hj.
Qed.

Lemma expand_triangle_ok d before i0 i1 i2 e : mesh_ok d → expanded_ok d before e → zlen (ex_vertices e) ≤ MAX_OUTPUT_VERTICES →
  ends (expand_triangle d i0 i1 i2 e) (λ e', expanded_ok d before e' ∧ zlen (ex_vertices e') ≤ MAX_OUTPUT_VERTICES).
Proof.
  intros Hd [E1 E2 E3] Hmax. unfold expand_triangle. do 3 (eapply ends_then; [by apply expand_corner_ok|]; intros ? ?).
  destruct (_ || _); [by apply ends_some, ensures_ok|].
  set (normal := normalize _). set (tangent := triangle_tangent _ _ _ _ _ _ _).
  destruct (push_corner_ok d before normal tangent a e) as (A1 & A2 & A3 & A4); [done..|].
  destruct (push_corner_ok d before normal tangent a0 _ ltac:(done) A1 A2) as (B1 & B2 & B3 & B4).
  destruct (push_corner_ok d before normal tangent a1 _ ltac:(done) B1 B2) as (C1 & C2 & C3 & C4).
  destruct (_ <? _) eqn:Em; [apply ends_err|]. apply ends_some, ensures_ok. split; [|apply Z.ltb_ge in Em; exact Em].
  split; [exact C1| |exact C2]. cbn [ex_sources ex_depths]. rewrite length_app, C4, B4, A4, C3, B3, A3. simpl. lia.
Qed.
Lemma expand_triangles_ok d before indices e : mesh_ok d → expanded_ok d before e → zlen (ex_vertices e) ≤ MAX_OUTPUT_VERTICES →
  ends (expand_triangles d indices e) (λ e', expanded_ok d before e' ∧ zlen (ex_vertices e') ≤ MAX_OUTPUT_VERTICES).
Proof.
  intros Hd. remember (length indices) as n eqn:En. assert (length indices ≤ n)%nat as Hn by lia. clear En. revert indices e Hn.
  induction n as [|n IH]; intros [|i0 [|i1 [|i2 indices]]] e Hn He Hm; simpl in *; try (by apply ends_some, ensures_ok); [lia|].
  eapply ends_then; [by apply expand_triangle_ok|]. intros e' [He' Hm']. apply IH; [lia|done..].
Qed.
End expand.

(** ** Morph targets *)

Definition source_ok (count : nat) (m : MorphSource) : Prop :=
  length (ms_positions m) = count ∧ length (ms_normals m) = count ∧ length (ms_tangents m) = count.

Lemma morph_checked count a label : optional_ok a → ensures (check_morph_accessor (Z.of_nat count) a label)
  (λ _, length (morph_values count a) = count).
Proof.
  intros Ha. unfold check_morph_accessor, morph_values. destruct a as [attribute|]; [|apply ensures_ok, repeat_length].
  eapply ensures_bind; [apply ensures_any|]. intros _ _. destruct (_ || _) eqn:E; [apply ensures_err|]. apply ensures_ok. simpl.
  apply orb_false_iff in E as [E%negb_false_iff%Z.eqb_eq _]. destruct (at_values attribute) as [l|] eqn:El; [|apply repeat_length].
  pose proof (Ha attribute eq_refl l El). unfold zlen in *. lia.
Qed.
Lemma morphs_read relevant count index morphs :
  Forall (λ m, optional_ok (gm_positions m) ∧ optional_ok (gm_normals m) ∧ optional_ok (gm_tangents m)) morphs →
  ensures (read_morphs relevant count index morphs) (Forall (source_ok count)).
Proof.
  intros Hm. revert index. induction Hm as [|m morphs (H1 & H2 & H3) _ IH]; intros index; simpl; [by apply ensures_ok|].
  case_match; [apply IH|]. do 3 (eapply ensures_bind; [by apply morph_checked|]; intros [] ?). case_match; [apply ensures_err|].
  eapply ensures_bind; [apply IH|]. intros rest Hrest. apply ensures_ok. by constructor.
Qed.
Lemma deltas_expanded count m sources : source_ok count m → Forall (λ i, i < count)%nat sources →
  ∃ deltas, expand_deltas m sources = Some deltas ∧ length deltas = length sources.
Proof.
  intros (H1 & H2 & H3). induction 1 as [|i sources Hi _ (deltas & E & El)]; [by exists []|]. simpl.
  destruct (lookup_lt_is_Some_2 (ms_positions m) i) as [p ->]; [lia|]. destruct (lookup_lt_is_Some_2 (ms_normals m) i) as [n ->]; [lia|].
  destruct (lookup_lt_is_Some_2 (ms_tangents m) i) as [t ->]; [lia|]. simpl. rewrite E. simpl. eexists. split; [done|]. simpl. by rewrite El.
Qed.
Lemma morphs_expanded count morphs sources : Forall (source_ok count) morphs → Forall (λ i, i < count)%nat sources →
  ∃ targets, expand_morphs morphs sources = Some targets ∧ Forall (λ m, length (mt_deltas m) = length sources) targets.
Proof.
  intros Hm Hs. induction Hm as [|m morphs Hm _ (targets & E & Ht)]; [by exists []|]. simpl.
  destruct (deltas_expanded count m sources Hm Hs) as (deltas & -> & El). simpl. rewrite E. simpl. eexists. split; [done|]. by constructor.
Qed.

(** ** Textures of a material *)

Section slots.
Context `{JsonFloat, ImageDecoder, !ImageDecoderLaws} (g : GltfTextures) (blob : list byte).

Definition slot_ok (st : TextureState) (slot : option nat) : Prop :=
  ∀ i, slot = Some i → ∃ image, texture_cache st !! image = Some i.
Record material_ok (st : TextureState) (m : CpuMaterial) : Prop := {
  ml_base : slot_ok st (cm_texture m);
  ml_shade : slot_ok st (shade_texture (cm_mtoon m));
  ml_normal : slot_ok st (normal_texture (cm_mtoon m));
  ml_matcap : slot_ok st (matcap_texture (cm_mtoon m));
  ml_rim : slot_ok st (rim_texture (cm_mtoon m));
  ml_outline : slot_ok st (outline_width_texture (cm_mtoon m));
}.

Lemma slot_ok_mono st st' slot : texture_cache st ⊆ texture_cache st' → slot_ok st slot → slot_ok st' slot.
Proof. intros Hsub Hs i Hi. destruct (Hs i Hi) as (image & Hc). exists image. by eapply lookup_weaken. Qed.
Lemma material_ok_mono st st' m : texture_cache st ⊆ texture_cache st' → material_ok st m → material_ok st' m.
Proof. intros Hsub [? ? ? ? ? ?]. split; by eapply slot_ok_mono. Qed.

Lemma load_slot_ok slot st : textures_ok g blob st → ensures (load_slot g blob slot st)
  (λ r, textures_ok g blob r.2 ∧ slot_ok r.2 r.1 ∧ texture_cache st ⊆ texture_cache r.2).
Proof.
  intros Hst. destruct slot as [i|]; [|by apply ensures_ok]. simpl. eapply ensures_bind; [by apply load_texture_ok|].
  intros [index st'] (T1 & (image & _ & Hc) & Hsub). apply ensures_ok. split_and!; [done| |done]. intros j [= <-]. by exists image.
Qed.

Lemma build_material_ok root label material st : textures_ok g blob st → ensures (build_material root label g blob material st)
  (λ r, textures_ok g blob r.2 ∧ material_ok r.2 r.1 ∧ texture_cache st ⊆ texture_cache r.2).
Proof.
  intros Hst. unfold build_material. eapply ensures_bind; [by apply load_slot_ok|]. intros [base st1] (T1 & S1 & M1).
  eapply ensures_bind; [apply ensures_any|]. intros mtoon _.
  eapply ensures_bind; [by apply load_slot_ok|]. intros [shade st2] (T2 & S2 & M2).
  eapply ensures_bind; [by apply load_slot_ok|]. intros [normal st3] (T3 & S3 & M3).
  eapply ensures_bind; [by apply load_slot_ok|]. intros [matcap st4] (T4 & S4 & M4).
  eapply ensures_bind; [by apply load_slot_ok|]. intros [rim st5] (T5 & S5 & M5).
  eapply ensures_bind; [by apply load_slot_ok|]. intros [outline st6] (T6 & S6 & M6). apply ensures_ok. simpl in *.
  assert (texture_cache st5 ⊆ texture_cache st6) as N5 by done. assert (texture_cache st4 ⊆ texture_cache st6) as N4 by (by etrans).
  assert (texture_cache st3 ⊆ texture_cache st6) as N3 by (by etrans). assert (texture_cache st2 ⊆ texture_cache st6) as N2 by (by etrans).
  assert (texture_cache st1 ⊆ texture_cache st6) as N1 by (by etrans).
  split_and!; [done|split; simpl; (eapply slot_ok_mono; [|done]; done)|by etrans].
Qed.
End slots.

(** ** Draws *)

(** The draws follow each other in the buffer, in whole triangles. *)
Fixpoint tiles (start : Z) (draws : list CpuDraw) (fin : Z) : Prop :=
  match draws with
  | [] => start = fin
  | d :: draws => dr_start d = start ∧ start < dr_end d ∧ (3 | dr_end d - start) ∧ tiles (dr_end d) draws fin
  end.
Lemma tiles_snoc start draws middle d : tiles start draws middle → dr_start d = middle → middle < dr_end d → (3 | dr_end d - middle) →
  tiles start (draws ++ [d]) (dr_end d).
Proof. revert start. induction draws as [|d' draws IH]; simpl; intros start; [intros -> ? ? ?; by split_and!|]. intros (? & ? & ? & ?) ? ? ?. auto. Qed.
Lemma tiles_bounds start draws fin : tiles start draws fin → start ≤ fin ∧ Forall (λ d, start ≤ dr_start d < dr_end d ∧ dr_end d ≤ fin) draws.
Proof.
  revert start. induction draws as [|d draws IH]; simpl; intros start; [intros ->; split; [lia|done]|].
  intros (? & ? & ? & (? & F)%IH). split; [lia|]. constructor; [lia|]. eapply Forall_impl; [done|]. simpl. lia.
Qed.

Definition draw_vertices (vertices : list VrmVertex) (d : CpuDraw) : list VrmVertex :=
  VrmGlb.slice vertices (Z.to_nat (dr_start d)) (Z.to_nat (dr_end d)).

Section draws.
Context {Mat : Type} (env : BuildEnv Mat).

Definition joints_of_skin (skin : option nat) (n : option nat) : Prop :=
  match skin with
  | None => n = None
  | Some k => ∃ s, be_skins env !! k = Some s ∧ n = Some (length (sk_joints s))
  end.

(** What a draw names exists: its material, its node in the active scene, its
    skin, with the joints of its vertices; a morph target has one delta for
    every vertex. *)
Record draw_ok (materials : nat) (vertices : list VrmVertex) (d : CpuDraw) : Prop := {
  do_material : (dr_material d < materials)%nat;
  do_node : ∃ world, be_worlds env !! dr_node d = Some (Some world);
  do_skin : ∃ n, joints_of_skin (dr_skin d) n ∧ Forall (vertex_ok n) (draw_vertices vertices d);
  do_morphs : Forall (λ m, zlen (mt_deltas m) = dr_end d - dr_start d) (dr_morphs d);
  do_deltas : zlen (dr_morphs d) * (dr_end d - dr_start d) ≤ MAX_MORPH_DELTAS;
}.

Lemma draw_vertices_app vertices new d : 0 ≤ dr_start d → dr_start d ≤ dr_end d ≤ zlen vertices →
  draw_vertices (vertices ++ new) d = draw_vertices vertices d.
Proof.
  intros ? ?. unfold draw_vertices, VrmGlb.slice, zlen in *. rewrite drop_app_le by lia. apply take_app_le. rewrite length_drop. lia.
Qed.
Lemma draw_ok_mono materials more vertices new d : (materials ≤ more)%nat → 0 ≤ dr_start d → dr_start d ≤ dr_end d ≤ zlen vertices →
  draw_ok materials vertices d → draw_ok more (vertices ++ new) d.
Proof. intros ? ? ? [? ? ? ? ?]. split; [lia|done|by rewrite draw_vertices_app|done..]. Qed.
End draws.

(** ** The scene *)

Section scene.
Context {Mat : Type} `{JsonFloat, Glam, GlamPose, !Transforms NodeTransform Mat, !GlamMesh Mat, ImageDecoder, !ImageDecoderLaws}.
Context (env : BuildEnv Mat).

Record build_inv (st : BuildState) : Prop := {
  bi_tiles : tiles 0 (bs_draws st) (zlen (bs_vertices st));
  bi_draws : Forall (draw_ok env (length (bs_materials st)) (bs_vertices st)) (bs_draws st);
  bi_materials : Forall (material_ok (bs_textures st)) (bs_materials st);
  bi_textures : textures_ok (dm_textures (be_doc env)) (be_blob env) (bs_textures st);
  bi_vertices : zlen (bs_vertices st) ≤ MAX_OUTPUT_VERTICES;
  bi_deltas : 0 ≤ bs_deltas st ≤ MAX_MORPH_DELTAS;
}.

Lemma build_start_inv : build_inv build_start.
Proof. split; simpl; [done|constructor|constructor|apply no_textures_ok|vm_compute; congruence|by vm_compute]. Qed.
Lemma count_inv st : build_inv st → build_inv (count_primitive st).
Proof. by intros [? ? ? ? ? ?]. Qed.
Lemma sources_inv n st : build_inv st → build_inv (set_sources n st).
Proof. by intros [? ? ? ? ? ?]. Qed.

(** Draws made so far stay as they are while the buffers grow. *)
Lemma draws_grow st materials new : build_inv st → (length (bs_materials st) ≤ materials)%nat →
  Forall (draw_ok env materials (bs_vertices st ++ new)) (bs_draws st).
Proof.
  intros [Ht Hd _ _ _ _] Hm. destruct (tiles_bounds _ _ _ Ht) as [_ Hb]. rewrite Forall_forall in Hd. rewrite Forall_forall in Hb.
  apply Forall_forall. intros d Hin. specialize (Hd d Hin). specialize (Hb d Hin). simpl in Hb.
  eapply draw_ok_mono; [done|lia|lia|done].
Qed.

Lemma slice_new {A} (before new : list A) : VrmGlb.slice (before ++ new) (length before) (length (before ++ new)) = new.
Proof. unfold VrmGlb.slice. rewrite drop_app_length, length_app. apply take_ge. lia. Qed.

(** The vertices and morph targets of a draw, sorted if it is blended. *)
Lemma blended_draw (d : MeshData Mat) before (alpha : AlphaMode) targets e :
  expanded_ok d before e → Forall (λ m, length (mt_deltas m) = length (ex_sources e)) targets →
  let r := if bool_decide (alpha = Blend)
           then let sorted := sort_blended_triangles (drop (length before) (ex_vertices e)) (ex_depths e) (mt_deltas <$> targets) in
                (take (length before) (ex_vertices e) ++ sorted.1,
                 zip_with (λ m deltas, {| mt_index := mt_index m; mt_deltas := deltas |}) targets sorted.2)
           else (ex_vertices e, targets) in
  ∃ new, r.1 = before ++ new ∧ length new = length (ex_sources e) ∧ Forall (vertex_ok (joint_count d)) new ∧
    Forall (λ m, length (mt_deltas m) = length (ex_sources e)) r.2 ∧ length r.2 = length targets.
Proof.
  intros [(new & Ev & El & Hv) Htri _] Hm r. unfold r. destruct (bool_decide _); [|by exists new]. rewrite Ev, drop_app_length, take_app_length.
  destruct (blended_by_depth new (ex_depths e) (mt_deltas <$> targets)) as (Pv & Pm & _).
  { by rewrite El. }
  { apply Forall_fmap. eapply Forall_impl; [done|]. intros m Hlen. simpl. by rewrite Hlen. }
  set (sorted := sort_blended_triangles new (ex_depths e) (mt_deltas <$> targets)) in *. simpl. exists sorted.1.
  split_and!; [done|by rewrite Pv|by rewrite Pv| |].
  2:{ rewrite length_zip_with, !length_fmap. lia. }
  apply Forall_lookup. intros i m Hi.
  apply lookup_zip_with_Some in Hi as (t & deltas & -> & Ht & Hd). simpl. assert ((mt_deltas <$> targets) !! i = Some (mt_deltas t)) as Ht' by (by rewrite list_lookup_fmap, Ht).
  pose proof (Forall2_lookup_lr _ _ _ _ _ _ Pm Hd Ht') as P. simpl in P. rewrite P. rewrite Forall_lookup in Hm. by apply (Hm i).
Qed.

Lemma sum_deltas targets n : Forall (λ m, length (mt_deltas m) = n) targets →
  sumZ ((λ m, zlen (mt_deltas m)) <$> targets) = zlen targets * Z.of_nat n.
Proof. induction 1 as [|m targets Hm _ IH]; [done|]. rewrite fmap_cons, sumZ_cons, IH. unfold zlen. simpl. rewrite Hm. lia. Qed.
Lemma push_draw_ok (d : MeshData Mat) node skin material alpha morphs e st before : joints_of_skin env skin (joint_count d) →
  (∃ world, be_worlds env !! node = Some (Some world)) → (material < length (bs_materials st))%nat →
  Forall (source_ok (length (ma_positions d))) morphs → expanded_ok d before e → zlen (ex_vertices e) ≤ MAX_OUTPUT_VERTICES →
  before = bs_vertices st → build_inv st →
  ends (push_draw node skin material alpha morphs (length before) e st) build_inv.
Proof.
  intros Hskin Hnode Hmat Hmorphs He Hmax -> Hinv. pose proof He as [(new & Ev & El & Hv) Htri Hsrc]. unfold push_draw.
  destruct (negb _) eqn:Elt.
  { apply ends_some, ensures_ok. apply negb_true_iff, Nat.ltb_ge in Elt. rewrite Ev, length_app in Elt.
    assert (new = []) as -> by (destruct new; [done|simpl in Elt; lia]). rewrite app_nil_r in Ev. rewrite Ev. by destruct Hinv. }
  destruct (morphs_expanded _ _ _ Hmorphs Hsrc) as (targets & -> & Ht). eapply (ends_then _ _ (eq targets)); [by apply ends_some, ensures_ok|].
  intros ? <-. apply ends_any. intros deltas Hdeltas. destruct (_ <? deltas) eqn:Ed; [apply ends_err|].
  rewrite (sum_deltas _ _ Ht) in Hdeltas. apply ok_or_Ok in Hdeltas. unfold checked_add in Hdeltas. destruct (_ <=? u64_max); [|done]. injection Hdeltas as <-. apply Z.ltb_ge in Ed. pose proof (bi_deltas _ Hinv) as Hd0.
  destruct (blended_draw d _ alpha targets e He Ht) as (sorted & Es & Esl & Hsv & Hst & Hsl). destruct (if bool_decide _ then _ else _) as [vertices out].
  simpl in Es, Hst, Hsl. subst vertices. apply ends_some, ensures_ok. apply negb_false_iff, Nat.ltb_lt in Elt.
  assert (length (ex_vertices e) = length (bs_vertices st ++ sorted)) as Elen by (rewrite Ev, !length_app; lia).
  assert (zlen (bs_vertices st ++ sorted) = Z.of_nat (length (ex_vertices e))) as Ez by (unfold zlen; lia).
  split; simpl; try apply Hinv.
  - rewrite Ez. refine (tiles_snoc 0 (bs_draws st) _ {| dr_start := _; dr_end := _ |} _ _ _ _); simpl; [apply Hinv|done|unfold zlen; lia|].
    rewrite Elen, length_app, Esl, Htri. exists (Z.of_nat (length (ex_depths e))). unfold zlen. lia.
  - apply Forall_app. split; [by apply draws_grow|]. apply Forall_singleton. split; simpl; [done|done| | |].
    + exists (joint_count d). split; [done|]. unfold draw_vertices. simpl. rewrite !Nat2Z.id, Elen, slice_new. done.
    + eapply Forall_impl; [done|]. simpl. intros m Hm. unfold zlen. rewrite Hm, Elen, length_app. lia.
    + unfold zlen in *. rewrite Hsl, Elen, length_app. nia.
  - rewrite Ez. unfold zlen in Hmax. lia.
  - unfold zlen in *. lia.
Qed.

Lemma tex_coords_read count p : primitive_ok p → ensures (read_tex_coords count p) (λ o, ∀ l, o = Some l → zlen l = count).
Proof.
  intros Hp. unfold read_tex_coords. set (coordinates := match gm_base_texture (gp_material p) with Some (_, set) => set | None => 0%nat end).
  destruct (gp_tex_coords p coordinates) as [attribute|] eqn:Ea; [|by apply ensures_ok]. eapply ensures_bind; [apply ensures_any|]. intros _ _.
  destruct (negb (_ =? _)) eqn:Ec; [apply ensures_err|]. apply negb_false_iff, Z.eqb_eq in Ec. case_match; [apply ensures_err|].
  eapply ensures_bind; [apply ensures_ok_or|]. intros values Hv. apply ensures_ok. intros l [= <-]. rewrite <- Ec.
  exact (pr_tex_coords p Hp coordinates attribute Ea values Hv).
Qed.
Lemma influences_read skinned count p : ensures (read_influences skinned count p) (λ o, is_Some o ↔ skinned = true).
Proof.
  unfold read_influences. destruct skinned; simpl; [|apply ensures_ok; split; [by intros [? ?]|done]].
  do 4 (eapply ensures_bind; [apply ensures_any|]; intros ? _). do 3 (case_match; [apply ensures_err|]).
  do 2 (eapply ensures_bind; [apply ensures_any|]; intros ? _). apply ensures_ok. split; [done|by eexists].
Qed.
Lemma material_inv st n t m : build_inv st → textures_ok (dm_textures (be_doc env)) (be_blob env) t → material_ok t m →
  texture_cache (bs_textures st) ⊆ texture_cache t →
  build_inv {| bs_vertices := bs_vertices st; bs_draws := bs_draws st; bs_materials := bs_materials st ++ [m]; bs_textures := t;
               bs_primitives := bs_primitives st; bs_triangles := n; bs_sources := bs_sources st; bs_deltas := bs_deltas st;
               bs_min := bs_min st; bs_max := bs_max st |}.
Proof.
  intros Hinv Ht Hm Hsub. pose proof Hinv as [I1 I2 I3 I4 I5 I6]. split; simpl; try done.
  - pose proof (draws_grow st (length (bs_materials st ++ [m])) [] Hinv) as Hd. rewrite app_nil_r in Hd. apply Hd. rewrite length_app. lia.
  - apply Forall_app. split; [|by apply Forall_singleton]. eapply Forall_impl; [done|]. intros m'. by apply material_ok_mono.
Qed.

Lemma build_mesh_ok node world skin matrices p positions st : primitive_ok p → build_inv st →
  be_worlds env !! node = Some (Some world) → joints_of_skin env skin (length <$> matrices) →
  ends (build_mesh env node world skin matrices p positions st) build_inv.
Proof.
  intros Hp Hinv Hw Hskin. unfold build_mesh. apply ends_any. intros normals _. apply ends_any. intros tangents _. apply ends_any. intros indices _.
  apply ends_any. intros triangles _. case_match; [apply ends_err|].
  eapply ends_then; [by apply ends_some, tex_coords_read|]. intros tex_coords Htex.
  eapply ends_then; [apply ends_some, influences_read|]. intros influences Hinf.
  eapply ends_then; [apply ends_some, morphs_read, Hp|]. intros morphs Hmorphs.
  eapply ends_then; [apply ends_some, build_material_ok, Hinv|]. intros [material t] (Ht & Hm & Hsub). simpl in *.
  apply ends_any. intros [] _. set (data := {| ma_positions := positions |}).
  assert (mesh_ok data) as Hd.
  { split; simpl; [intros coords Hc; specialize (Htex coords Hc); unfold zlen in Htex; lia|]. rewrite Hinf. destruct matrices; split; try done; by intros [? ?]. }
  eapply ends_then; [apply (expand_triangles_ok data (bs_vertices st)); [done| |apply Hinv]|].
  { split; simpl; [|done|constructor]. exists []. rewrite app_nil_r. by split_and!. }
  intros e [He Hmax]. apply ends_any. intros [] _. pose proof (material_inv st triangles t material Hinv Ht Hm Hsub) as Hst.
  by eapply (push_draw_ok data); [|by eexists|simpl; rewrite length_app; simpl; lia|done..].
Qed.

Lemma build_primitives_ok node world skin matrices ps st : Forall primitive_ok ps → build_inv st →
  be_worlds env !! node = Some (Some world) → joints_of_skin env skin (length <$> matrices) →
  ends (build_primitives env node world skin matrices ps st) build_inv.
Proof.
  intros Hps Hinv Hw Hskin. revert st Hinv. induction Hps as [|p ps Hp _ IH]; intros st Hinv; simpl; [by apply ends_some, ensures_ok|].
  eapply (ends_then _ _ build_inv); [|done]. unfold build_primitive. case_match; [apply ends_err|].
  case_match; [by apply ends_some, ensures_ok, count_inv|]. apply ends_any. intros [sources positions] _. simpl.
  assert (build_inv (set_sources sources (count_primitive st))) by (by apply sources_inv, count_inv).
  destruct positions as [|v positions]; [by apply ends_some, ensures_ok|]. by apply build_mesh_ok.
Qed.

(** What the scene is built from: a transform or none for every node, skins
    as [collect_skins] accepts them, primitives as the crate reads them. *)
Record build_ok (meshes : list (option nat)) : Prop := {
  bo_worlds : length (be_worlds env) = length meshes;
  bo_skins : Forall (skin_ok (be_worlds env)) (be_skins env);
  bo_primitives : Forall (Forall primitive_ok) (dm_primitives (be_doc env));
}.

Lemma skin_matrices_ok k : Forall (skin_ok (be_worlds env)) (be_skins env) → ensures (skin_matrices env k)
  (λ m, joints_of_skin env (Some k) (Some (length m))).
Proof.
  intros Hs m E. unfold skin_matrices in E. apply bind_Ok in E as (skin & Hk%ok_or_Ok & E). exists skin. split; [done|]. f_equal.
  apply try_map_length in E. rewrite E, length_zip_with. rewrite Forall_lookup in Hs. rewrite (ko_length _ _ (Hs _ _ Hk)). lia.
Qed.

Lemma build_nodes_ok all done_ meshes st : build_ok all → all = done_ ++ meshes → build_inv st →
  ends (build_nodes env (length done_) meshes st) build_inv.
Proof.
  intros Hok. revert done_ st. induction meshes as [|mesh meshes IH]; intros done_ st Hall Hinv; simpl; [by apply ends_some, ensures_ok|].
  eapply (ends_then _ _ build_inv).
  - unfold build_node. destruct mesh as [mesh|]; [|by apply ends_some, ensures_ok].
    destruct (lookup_lt_is_Some_2 (be_worlds env) (length done_)) as [[world|] Hw].
    { rewrite (bo_worlds _ Hok), Hall, length_app. simpl. lia. }
    + rewrite Hw. eapply (ends_then _ _ (λ matrices, joints_of_skin env (mjoin (dm_skins (be_doc env) !! length done_)) (length <$> matrices))).
      { apply ends_some. destruct (mjoin _) as [k|]; [|by apply ensures_ok]. eapply ensures_bind; [apply skin_matrices_ok, Hok|]. intros m Hm. by apply ensures_ok. }
      intros matrices Hm. apply build_primitives_ok; [|done..]. destruct (dm_primitives (be_doc env) !! mesh) as [ps|] eqn:Eps; [|constructor].
      pose proof (bo_primitives _ Hok) as F. rewrite Forall_lookup in F. by eapply F.
    + rewrite Hw. by apply ends_some, ensures_ok.
  - intros st' Hst'. replace (S (length done_)) with (length (done_ ++ [mesh])) by (rewrite length_app; simpl; lia).
    apply IH; [by rewrite <- app_assoc|done].
Qed.

(** ** What is drawn *)

Definition texture_in (scene : CpuVrmMeshes) (slot : option nat) : Prop := ∀ i, slot = Some i → (i < length (sc_textures scene))%nat.

Record scene_ok (scene : CpuVrmMeshes) : Prop := {
  no_empty : sc_draws scene ≠ [];
  no_tiles : tiles 0 (sc_draws scene) (zlen (sc_vertices scene));
  no_draws : Forall (draw_ok env (length (sc_materials scene)) (sc_vertices scene)) (sc_draws scene);
  no_textures_in : Forall (λ m, Forall (texture_in scene) [cm_texture m; shade_texture (cm_mtoon m); normal_texture (cm_mtoon m);
    matcap_texture (cm_mtoon m); rim_texture (cm_mtoon m); outline_width_texture (cm_mtoon m)]) (sc_materials scene);
  no_texture_sizes : Forall texture_ok (sc_textures scene);
  no_texture_count : (length (sc_textures scene) ≤ MAX_TEXTURES)%nat;
  no_texture_bytes : sumZ ((λ t, zlen (rgba t)) <$> sc_textures scene) ≤ MAX_TEXTURE_DECODE_BYTES;
  no_vertices : zlen (sc_vertices scene) ≤ MAX_OUTPUT_VERTICES;
  no_extent : vec3_all is_finite (sc_extent scene) = true;
}.

Lemma slot_in_range st slot : textures_ok (dm_textures (be_doc env)) (be_blob env) st → slot_ok st slot →
  ∀ i, slot = Some i → (i < length (textures st))%nat.
Proof. intros Ht Hs i Hi. destruct (Hs i Hi) as (image & Hc). destruct (to_cache _ _ _ Ht _ _ Hc) as (t & Hl & _). by eapply lookup_lt_Some. Qed.

Lemma scene_built meshes : build_ok meshes → ends (build_scene env meshes) scene_ok.
Proof.
  intros Hok. unfold build_scene. eapply ends_then; [exact (build_nodes_ok meshes [] meshes build_start Hok eq_refl build_start_inv)|].
  intros st [I1 I2 I3 I4 I5 I6]. destruct (_ || _) eqn:Ee; [apply ends_err|]. apply orb_false_iff in Ee as [_ Ed].
  destruct (_ || _) eqn:Ex; [apply ends_err|]. apply orb_false_iff in Ex as [Ex%negb_false_iff _]. apply ends_some, ensures_ok.
  split; simpl; try done.
  - intros Hn. by rewrite Hn in Ed.
  - eapply Forall_impl; [done|]. intros m [? ? ? ? ? ?]. repeat constructor; unfold texture_in; simpl; by eapply slot_in_range.
  - apply I4.
  - apply I4.
  - rewrite <- (to_total _ _ _ I4). apply I4.
Qed.
End scene.

(** ** Small weights *)

Definition far_joints : U16x4 := {| j0 := 9; j1 := 9; j2 := 9; j3 := 9 |}.
Definition small_weights : Vec4 :=
  let w := f32_lit 1 10000000 in {| x4 := w; y4 := w; z4 := w; w4 := w |}.
(** Four weights that are each below the threshold, but not their sum: the
    joints are not checked, and the vertex is given equal shares of joint 9 of
    a skin that has one. *)
Example small_weights_reach_missing_joints :
  normalized_influences far_joints small_weights 1 =
    Ok (far_joints, let w := f32_lit 1 4 in {| x4 := w; y4 := w; z4 := w; w4 := w |}).
Proof. vm_refl. Qed.
