(* ===== verification/VrmShader.v ===== *)
(** * The custom material shader of a character (skid-monitor-fe, vrm/custom_shader.rs)

    A shader file of the user replaces the marked part of the built-in shader,
    after the checks of [validate_custom_module] and of the composed module.
    The parser and validator of naga and the built-in shader.wgsl are
    parameters.  [composed_shader_safe]: whatever is accepted leaves the rest
    of the built-in shader as it is, declares no entry point, resource or
    loop, and is valid as a whole. *)

From S2P Require Import Prelude RustStr RustFloat RustText Json VrmJson VrmGlb.

Definition MAX_CUSTOM_SHADER_BYTES : Z := 64 * 1024.
Definition CUSTOM_BEGIN : string := "// SKID_CUSTOM_MATERIAL_BEGIN".
Definition CUSTOM_END : string := "// SKID_CUSTOM_MATERIAL_END".
Definition REQUIRED_FUNCTION : string := "skid_custom_material".

(** What is read of a [naga::Module], and the functions of that crate. *)
Record Module_ := { entry_points : nat; global_variables : nat; functions : list (option string) }.
Class Naga := {
  parse_str : string → result string Module_;
  validate : Module_ → result string ();
}.

Record LoadedCustomShader := { ls_source : string; ls_label : string }.

(** What the file system answers for a path. *)
Record FileReply := { fr_metadata : result string Z; fr_open : result string (); fr_contents : result string (list byte) }.

(** [str::find]: the offset of the first occurrence. *)
Definition find (s p : string) : option nat := (λ ba, length ba.1) <$> split_once_list (as_bytes p) (as_bytes s).

Definition is_word_char (z : Z) : bool := between 0x30 0x39 z || between 0x41 0x5A z || between 0x61 0x7A z || (z =? 0x5F).
(** The pieces between characters that are not ASCII alphanumeric or [_]. *)
Definition tokens (source : string) : list string :=
  str_of_chars <$> split_on (λ c, negb (chunk_is is_word_char c)) [] (chars source).
Definition is_loop (token : string) : bool := bool_decide (token = "loop") || bool_decide (token = "while") || bool_decide (token = "for").

Section shader.
Context `{Naga} (base : string).

Definition validate_parsed_module (module : Module_) (label : string) : result string () :=
  map_err (λ e, label +:+ " validation failed: " +:+ e) (validate module).
Definition validate_module (source label : string) : result string () :=
  module ← map_err (λ e, label +:+ " parse failed: " +:+ e) (parse_str source);
  validate_parsed_module module label.

Definition validate_custom_module (source : string) : result string () :=
  if is_empty (trim source) then Err "custom WGSL shader source is empty"
  else if existsb is_loop (tokens source) then Err "custom WGSL shader must not contain loops"
  else
  module ← map_err (λ e, "custom WGSL parse failed: " +:+ e) (parse_str source);
  if negb (entry_points module =? 0)%nat then Err "custom WGSL must not declare shader entry points"
  else if negb (global_variables module =? 0)%nat then Err "custom WGSL must not declare global resources or variables"
  else if negb (length (filter (λ name, name = Some REQUIRED_FUNCTION) (functions module)) =? 1)%nat
  then Err ("custom WGSL must declare exactly one " +:+ REQUIRED_FUNCTION +:+ " function")
  else validate_parsed_module module "custom WGSL".

Definition compose (custom : string) : result string string :=
  _ ← validate_custom_module custom;
  begin ← ok_or (find base CUSTOM_BEGIN) "built-in shader is missing its custom material begin marker";
  found ← ok_or (find base CUSTOM_END) "built-in shader is missing its custom material end marker";
  let fin := (found + length (as_bytes CUSTOM_END))%nat in
  if (fin <=? begin)%nat then Err "built-in custom shader markers are out of order"
  else
  let source := of_bytes (take begin (as_bytes base)) +:+ CUSTOM_BEGIN +:+ newline +:+ trim custom +:+ newline +:+ CUSTOM_END +:+
                of_bytes (drop fin (as_bytes base)) in
  _ ← validate_module source "customized VRM shader";
  Ok source.

Definition read_shader (path : string) (reply : FileReply) : result string (list byte) :=
  let too_large := "custom WGSL shader exceeds the " +:+ u64_to_string (MAX_CUSTOM_SHADER_BYTES / 1024) +:+ " KiB limit" in
  len ← map_err (λ e, "failed to inspect custom WGSL shader " +:+ path +:+ ": " +:+ e) (fr_metadata reply);
  if MAX_CUSTOM_SHADER_BYTES <? len then Err too_large
  else
  _ ← map_err (λ e, "failed to open custom WGSL shader " +:+ path +:+ ": " +:+ e) (fr_open reply);
  bytes ← map_err (λ e, "failed to read custom WGSL shader " +:+ path +:+ ": " +:+ e) (fr_contents reply);
  let bytes := take (Z.to_nat (MAX_CUSTOM_SHADER_BYTES + 1)) bytes in
  if MAX_CUSTOM_SHADER_BYTES <? zlen bytes then Err too_large else Ok bytes.

Definition load (path : string) (reply : FileReply) : result string LoadedCustomShader :=
  if negb (match path_extension path with Some extension => eq_ignore_ascii_case extension "wgsl" | None => false end)
  then Err "custom character shader must use a .wgsl extension"
  else
  bytes ← read_shader path reply;
  custom ← ok_or (from_utf8 bytes) "custom WGSL shader must be valid UTF-8";
  source ← compose custom;
  Ok {| ls_source := source; ls_label := default "custom WGSL" (path_file_name path) |}.

(** ** What is accepted *)

Lemma split_once_list_spec p l a b : split_once_list p l = Some (a, b) → l = a ++ p ++ b.
Proof.
  revert a. induction l as [|x t IH]; intros a E; cbn [split_once_list] in E; destruct (list_prefix p _) eqn:Ep.
  - injection E as <- <-. by destruct p.
  - done.
  - injection E as <- <-. apply list_prefix_spec in Ep as [k Hk]. by rewrite Hk, drop_app_length.
  - destruct (split_once_list p t) as [[a' b']|]; [|done]. injection E as <- <-. simpl. f_equal. by apply IH.
Qed.
(** [find] splits the text at the match. *)
Lemma find_split s p n : find s p = Some n →
  s = of_bytes (take n (as_bytes s)) +:+ p +:+ of_bytes (drop (n + length (as_bytes p)) (as_bytes s)).
Proof.
  unfold find. destruct (split_once_list _ _) as [[a b]|] eqn:E; [|done]. intros [= <-]. apply split_once_list_spec in E. simpl.
  apply as_bytes_inj. rewrite !as_bytes_app, !as_of_bytes, E, take_app_length, app_assoc, <- length_app, drop_app_length.
  by rewrite app_assoc.
Qed.

Record custom_ok (custom : string) (module : Module_) : Prop := {
  cu_parsed : parse_str custom = Ok module;
  cu_valid : validate module = Ok ();
  cu_entries : entry_points module = 0%nat;
  cu_globals : global_variables module = 0%nat;
  cu_function : length (filter (λ name, name = Some REQUIRED_FUNCTION) (functions module)) = 1%nat;
  cu_loops : Forall (λ token, token ∉ ["loop"; "while"; "for"]) (tokens custom);
}.

Lemma no_loop token : is_loop token = false → token ∉ ["loop"; "while"; "for"].
Proof.
  unfold is_loop. intros [[L1%bool_decide_eq_false_1 L2%bool_decide_eq_false_1]%orb_false_iff L3%bool_decide_eq_false_1]%orb_false_iff.
  rewrite !not_elem_of_cons. by repeat split; try done; apply not_elem_of_nil.
Qed.
Lemma custom_accepted custom : ensures (validate_custom_module custom) (λ _, ∃ module, custom_ok custom module).
Proof.
  unfold validate_custom_module. destruct (is_empty _); [apply ensures_err|]. destruct (existsb _ _) eqn:El; [apply ensures_err|].
  eapply ensures_bind; [intros m Hm; exact (proj1 (map_err_Ok _ _ _) Hm)|]. intros module Hp.
  destruct (negb (entry_points _ =? _)%nat) eqn:E1; [apply ensures_err|]. destruct (negb (global_variables _ =? _)%nat) eqn:E2; [apply ensures_err|].
  destruct (negb (_ =? 1)%nat) eqn:E3; [apply ensures_err|]. intros [] Hv%map_err_Ok. exists module.
  apply negb_false_iff, Nat.eqb_eq in E1, E2, E3. split; [done..|]. apply Forall_forall. intros token Hin. apply no_loop.
  destruct (is_loop token) eqn:Et; [|done]. assert (existsb is_loop (tokens custom) = true); [|congruence].
  apply existsb_exists. exists token. split; [by apply list_elem_of_In|done].
Qed.

(** The shader that is used for a custom one: the built-in shader up to the
    first begin marker and from the end marker on, with the text of the user
    in between.  That text declares the one required function, no entry point
    and no global variable, and has no loop; the composed shader is valid. *)
Theorem composed_shader_safe path reply shader : load path reply = Ok shader →
  ∃ custom module before old after upto composed,
    base = before +:+ CUSTOM_BEGIN +:+ old ∧ base = upto +:+ CUSTOM_END +:+ after ∧
    ls_source shader = before +:+ CUSTOM_BEGIN +:+ newline +:+ trim custom +:+ newline +:+ CUSTOM_END +:+ after ∧
    (length (as_bytes custom) ≤ Z.to_nat MAX_CUSTOM_SHADER_BYTES)%nat ∧
    custom_ok custom module ∧ parse_str (ls_source shader) = Ok composed ∧ validate composed = Ok ().
Proof.
  unfold load. destruct (negb _); [done|]. intros (bytes & Hb & E)%bind_Ok. apply bind_Ok in E as (custom & Hc%ok_or_Ok & E).
  apply from_utf8_Some in Hc as [Hc _]. apply bind_Ok in E as (source & Es & [= <-]). cbn [ls_source]. unfold compose in Es.
  apply bind_Ok in Es as ([] & (module & Hm)%custom_accepted & Es). apply bind_Ok in Es as (begin & Hbegin%ok_or_Ok%find_split & Es).
  apply bind_Ok in Es as (found & Hfound%ok_or_Ok%find_split & Es). destruct (_ <=? begin)%nat; [done|].
  apply bind_Ok in Es as ([] & Hv & [= <-]). unfold validate_module in Hv. apply bind_Ok in Hv as (composed & Hp%map_err_Ok & Hv%map_err_Ok).
  exists custom, module. do 5 eexists. split; [exact Hbegin|]. split; [exact Hfound|]. split_and!; [done| |done|exact Hp|exact Hv].
  rewrite Hc. unfold read_shader in Hb. apply bind_Ok in Hb as (len & _ & Hb). destruct (_ <? len); [done|].
  apply bind_Ok in Hb as ([] & _ & Hb). apply bind_Ok in Hb as (contents & _ & Hb). destruct (_ <? zlen _) eqn:El; [done|].
  injection Hb as <-. unfold zlen in El. lia.
Qed.
End shader.
