(* ===== verification/VrmLoad.v ===== *)
(** * Loading a character model (skid-monitor-fe, vrm/loader.rs)

    [decode_input], the part of decode_bytes up to the meshes, and
    [decode_vrma]: the checks of the container, the document of the gltf crate,
    the scene graph, skins, humanoid, expressions, look-at, constraints, spring
    bones and animation clips, in the order of the source.  [input_accepted]
    puts the theorems of the parts together. *)

From S2P Require Import Prelude RustStr Otlp RustFloat FeProfile Json VrmJson VrmMtoon VrmGlb VrmOrder VrmGraph VrmBuffers VrmHumanoid VrmRig VrmSpring VrmAnimation VrmPlayback VrmScene VrmDrawable VrmShader.

(** ** The document of the gltf crate *)

Inductive BufferSource := Bin | Uri.
Record GltfDoc (Mat : Type) := {
  gd_nodes : list (Vec3 * Vec4 * Vec3);        (* decomposed transforms *)
  gd_scenes : GltfScenes;
  gd_buffers : list (BufferSource * Z);        (* source and length *)
  gd_images : list ImageSource;
  gd_blob : option (list byte);
  gd_views : list View;
  gd_meshes : GltfMeshes;
  gd_skins : list (GltfSkin Mat);
  gd_animations : list (list GltfChannel);
  gd_draws : GltfMeshDoc;
}.
Arguments gd_nodes {Mat} g.
Arguments gd_scenes {Mat} g.
Arguments gd_buffers {Mat} g.
Arguments gd_images {Mat} g.
Arguments gd_blob {Mat} g.
Arguments gd_views {Mat} g.
Arguments gd_meshes {Mat} g.
Arguments gd_skins {Mat} g.
Arguments gd_animations {Mat} g.
Arguments gd_draws {Mat} g.

(** [Gltf::from_slice]. *)
Class GltfCrate (Mat : Type) := gltf_from_slice : list byte → result string (GltfDoc Mat).

(** A document the crate has validated: there is a list of children and a mesh
    or none for every node, children exist, and readers give one value for
    every element. *)
Record doc_ok {Mat} (doc : GltfDoc Mat) : Prop := {
  do_children : length (gs_children (gd_scenes doc)) = length (gd_nodes doc);
  do_valid : gltf_valid (gd_scenes doc) (length (gd_nodes doc));
  do_readable : Forall (Forall readable) (gd_animations doc);
  do_meshes : length (node_mesh (gd_meshes doc)) = length (gd_nodes doc);
  do_primitives : Forall (Forall primitive_ok) (dm_primitives (gd_draws doc));
}.
Class GltfCrateLaws (Mat : Type) `{GltfCrate Mat} : Prop :=
  gltf_validates bytes doc : gltf_from_slice bytes = Ok doc → doc_ok doc.

(** glam: the distance between the origins of two world transforms. *)
Class GlamWorld (Mat : Type) := origin_distance : Mat → Mat → f32.

Section load.
Context {Mat : Type} `{JsonFloat, JsonBytes, Glam, GlamPose, !Transforms NodeTransform Mat, !GltfCrate Mat, !GlamWorld Mat}.

(** ** The embedded buffer *)

Definition is_uri (s : BufferSource) : bool := match s with Uri => true | Bin => false end.
Definition image_is_uri (i : ImageSource) : bool := match i with ImageUri => true | ImageView _ _ => false end.

Fixpoint check_views (views : list View) (blob_len : Z) : result string () :=
  match views with
  | [] => Ok ()
  | view :: views => _ ← validate_buffer_view view blob_len; check_views views blob_len
  end.

(** The tests both loaders make of the buffers; only a model checks images. *)
Definition embedded_blob (what : string) (images : list ImageSource) (doc : GltfDoc Mat) : result string (list byte) :=
  if existsb is_uri (gd_buffers doc).*1 then Err (what +:+ " external buffer URIs are not allowed")
  else if existsb image_is_uri images then Err (what +:+ " external image URIs are not allowed")
  else
  blob ← ok_or (gd_blob doc) (what +:+ " must contain an embedded GLB binary chunk");
  match gd_buffers doc with
  | [] => Err (what +:+ " must declare one embedded GLB buffer")
  | [(Bin, length)] =>
    if zlen blob <? length then Err (what +:+ " embedded buffer length exceeds the GLB binary chunk")
    else
    _ ← check_views (gd_views doc) (zlen blob);
    Ok blob
  | _ => Err (what +:+ " must declare exactly one embedded GLB buffer")
  end.

Definition scene_graph (doc : GltfDoc Mat) : result string (CpuSceneGraph NodeTransform Mat) :=
  collect_scene_graph (gd_scenes doc) (imap (λ index n, from_node index n.1.1 n.1.2 n.2) (gd_nodes doc)).

(** ** VRMA *)

Definition humanoid_height (bindings : Bindings) (worlds : list (option Mat)) : option f32 :=
  hips ← (bindings !! "hips") ≫= (λ node, mjoin (worlds !! node));
  head ← (bindings !! "head") ≫= (λ node, mjoin (worlds !! node));
  Some (origin_distance hips head).
Definition humanoid_translation_scale (source : Bindings) (source_worlds : list (option Mat)) (target : Bindings)
    (target_worlds : list (option Mat)) : f32 :=
  match humanoid_height source source_worlds, humanoid_height target target_worlds with
  | Some source, Some target =>
    if SFltb F32_EPSILON source && is_finite target then f32_clamp (f32_div target source) (f32_lit 1 4) (f32_of_Z 4) else f32_1
  | _, _ => f32_1
  end.

Fixpoint bones_active (nodes : list (CpuNode NodeTransform)) (bindings : list (string * nat)) : result string () :=
  match bindings with
  | [] => Ok ()
  | (bone, node) :: bindings =>
    if active_at nodes node then bones_active nodes bindings
    else Err ("VRMA humanoid bone " +:+ bone +:+ " is outside the active scene")
  end.

(** Where a bone of the animation goes in the model: [None] when the model
    does not have it. *)
Definition retarget_bone (source_nodes target_nodes : list (CpuNode NodeTransform)) (target_humanoid : Bindings) (scale : f32)
    (binding : string * nat) : result string (option (nat * RetargetTarget)) :=
  let '(bone, source_node) := binding in
  match target_humanoid !! bone with
  | None => Ok None
  | Some target_node =>
    source ← ok_or (source_nodes !! source_node) ("VRMA bone " +:+ bone +:+ " references a missing source node");
    target ← ok_or (target_nodes !! target_node) ("VRM bone " +:+ bone +:+ " references a missing target node");
    Ok (Some (source_node, {| rt_node := target_node; source_rest := rest source; target_rest := rest target;
                              translation_scale := scale; hips := bool_decide (bone = "hips") |}))
  end.

Definition node_count_of (root : Value) : nat := array_len root "nodes".

Definition decode_vrma (reply : FileReply) (path : string) (target_nodes : list (CpuNode NodeTransform))
    (target_worlds : list (option Mat)) (target_humanoid : Bindings) : option (result string (list CpuAnimationClip)) :=
  bytes ⇐ Some (read_limited "VRMA animation" MAX_VRMA_FILE_BYTES path (fr_metadata reply) (fr_open reply) (fr_contents reply));
  root ⇐ Some (parse_glb_root bytes);
  let node_count := node_count_of root in
  if (node_count =? 0)%nat || (MAX_NODES <? node_count)%nat
  then Some (Err ("VRMA node count must be between 1 and " +:+ usize_text MAX_NODES))
  else
  _ ⇐ Some (validate_required_extension_names root SUPPORTED_VRMA_REQUIRED_EXTENSIONS "VRMA");
  source_humanoid ⇐ validate_vrma_extension root node_count;
  sanitized ⇐ Some (glb_without_validated_required_extensions bytes root);
  doc ⇐ Some (map_err (λ e, "invalid VRMA binary glTF: " +:+ e) (gltf_from_slice sanitized));
  blob ⇐ Some (embedded_blob "VRMA" [] doc);
  source ⇐ Some (scene_graph doc);
  _ ⇐ Some (bones_active (sg_nodes source) (map_to_list source_humanoid));
  let scale := humanoid_translation_scale source_humanoid (sg_worlds source) target_humanoid target_worlds in
  targets ⇐ Some (try_map (retarget_bone (sg_nodes source) target_nodes target_humanoid scale) (map_to_list source_humanoid));
  Some (decode_clips (gd_animations doc) None (Some (list_to_map (omap id targets)))).

(** ** decode_bytes, up to the meshes *)

(** The animation files in order; the clips so far are checked after each. *)
Fixpoint decode_animations (files : string → FileReply) (paths : list string) (nodes : list (CpuNode NodeTransform))
    (worlds : list (option Mat)) (humanoid : Bindings) (clips : list CpuAnimationClip)
    : option (result string (list CpuAnimationClip)) :=
  match paths with
  | [] => Some (Ok clips)
  | path :: paths =>
    let path := trim path in
    more ⇐ decode_vrma (files path) path nodes worlds humanoid;
    let clips := clips ++ more in
    _ ⇐ Some (validate_clip_collection clips);
    decode_animations files paths nodes worlds humanoid clips
  end.

(** What [build_scene] gets. *)
Record SceneBuildInput := {
  in_doc : GltfDoc Mat;
  in_blob : list byte;
  in_root : Value;
  in_graph : CpuSceneGraph NodeTransform Mat;
  in_skins : list (CpuSkin Mat);
  in_humanoid : Bindings;
  in_animations : list CpuAnimationClip;
  in_expressions : CpuExpressionSet;
  in_look_at : option CpuLookAt;
  in_constraints : list CpuNodeConstraint;
  in_springs : list CpuSpring;
  in_colliders : list CpuCollider;
  in_version_label : string;
}.

Definition decode_input (bytes : list byte) (files : string → FileReply) (animation_paths : list string)
    : option (result string SceneBuildInput) :=
  root ⇐ Some (parse_glb_root bytes);
  let node_count := node_count_of root in
  if (node_count =? 0)%nat || (MAX_NODES <? node_count)%nat
  then Some (Err ("VRM node count must be between 1 and " +:+ usize_text MAX_NODES))
  else
  _ ⇐ Some (validate_required_extensions root);
  version_label ⇐ validate_vrm_extension root node_count;
  sanitized ⇐ Some (glb_without_validated_required_extensions bytes root);
  doc ⇐ Some (map_err (λ e, "invalid VRM GLB: " +:+ e) (gltf_from_slice sanitized));
  if negb (length (gd_nodes doc) =? node_count)%nat then Some (Err "VRM node table changed during validation")
  else
  blob ⇐ Some (embedded_blob "VRM" (gd_images doc) doc);
  _ ⇐ Some (validate_mtoon_materials root version_label);
  graph ⇐ Some (scene_graph doc);
  let nodes := sg_nodes graph in
  skins ⇐ Some (collect_skins (gd_skins doc) (sg_worlds graph));
  humanoid ⇐ Some (humanoid_bindings root version_label node_count);
  expressions ⇐ Some (decode_expressions root (gd_meshes doc) version_label);
  look_at ⇐ Some (decode_look_at root humanoid version_label);
  constraints ⇐ decode_node_constraints root nodes;
  springs ⇐ decode_spring_bones root nodes version_label;
  animations ⇐
    match animation_paths with
    | [] => Some (decode_clips (gd_animations doc) (Some (active <$> nodes)) None)
    | _ => decode_animations files animation_paths nodes (sg_worlds graph) humanoid []
    end;
  Some (Ok {| in_doc := doc; in_blob := blob; in_root := root; in_graph := graph; in_skins := skins; in_humanoid := humanoid;
              in_animations := animations; in_expressions := expressions; in_look_at := look_at;
              in_constraints := constraints; in_springs := springs.1; in_colliders := springs.2;
              in_version_label := version_label |}).
End load.
Arguments SceneBuildInput Mat : clear implicits.

Section accepted.
Context {Mat : Type} `{JsonFloat, JsonBytes, Glam, GlamPose, !Transforms NodeTransform Mat, !GltfCrate Mat, !GlamWorld Mat}.
Context `{!GltfCrateLaws Mat}.

(** ** The parts *)

Record embedded_ok (images : list ImageSource) (doc : GltfDoc Mat) (blob : list byte) : Prop := {
  eo_blob : gd_blob doc = Some blob;
  eo_buffer : ∃ length, gd_buffers doc = [(Bin, length)] ∧ length ≤ zlen blob;
  eo_views : Forall (λ view, v_offset view + v_length view ≤ zlen blob) (gd_views doc);
  eo_images : Forall (λ image, image ≠ ImageUri) images;
}.

Lemma views_checked views blob_len : ensures (check_views views blob_len) (λ _, Forall (λ view, v_offset view + v_length view ≤ blob_len) views).
Proof.
  induction views as [|view views IH]; simpl; [by apply ensures_ok|].
  eapply (ensures_bind _ _ (λ _, v_offset view + v_length view ≤ blob_len)).
  - intros [] E. unfold validate_buffer_view, checked_add in E. destruct (_ <=? u64_max); [|done].
    destruct (_ && _) eqn:Eb; [|done]. to_prop. lia.
  - intros _ Hv. eapply ensures_impl; [done|]. intros [] Hvs. by constructor.
Qed.
Lemma blob_accepted what images doc : ensures (embedded_blob what images doc) (embedded_ok images doc).
Proof.
  unfold embedded_blob. destruct (existsb is_uri _); [apply ensures_err|]. destruct (existsb image_is_uri _) eqn:Ei; [apply ensures_err|].
  eapply ensures_bind; [apply ensures_ok_or|]. intros blob Hb. destruct (gd_buffers doc) as [|[[|] length] [|? ?]] eqn:E; try apply ensures_err.
  destruct (_ <? length) eqn:El; [apply ensures_err|]. eapply ensures_bind; [apply views_checked|]. intros [] Hv. apply ensures_ok.
  split; [done|exists length; split; [done|lia]|done|]. apply Forall_forall. intros image Hin ->.
  assert (existsb image_is_uri images = true) by (apply existsb_exists; exists ImageUri; split; [by apply list_elem_of_In|done]). congruence.
Qed.

(** The node graph gives what the rig needs of it. *)
Lemma graph_parents (doc : GltfDoc Mat) roots (s : CpuSceneGraph NodeTransform Mat) : doc_ok doc → graph_ok (gd_scenes doc) roots s →
  length (sg_nodes s) = length (gd_nodes doc) → parents_in_range (sg_nodes s) ∧ active_closed (sg_nodes s).
Proof.
  intros [Hc Hv _ _ _] G Hl. split.
  - intros c p Hup. apply (go_parent _ _ _ G) in Hup. unfold child_of, children_at in Hup.
    destruct (gs_children (gd_scenes doc) !! p) as [l|] eqn:E; [|by apply elem_of_nil in Hup].
    rewrite Hl, <- Hc. by eapply lookup_lt_Some.
  - intros c p Hup Hp. apply (go_active _ _ _ G), (go_reachable _ _ _ G) in Hp as (r & Hr & Hrp).
    apply (go_active _ _ _ G), (go_reachable _ _ _ G). exists r. split; [done|]. eapply rtc_r; [done|]. by apply (go_parent _ _ _ G).
Qed.

Definition graph_rooted (doc : GltfDoc Mat) (s : CpuSceneGraph NodeTransform Mat) : Prop :=
  (∃ roots, scene_roots (gd_scenes doc) = Some roots ∧ graph_ok (gd_scenes doc) roots s) ∧
  length (sg_nodes s) = length (gd_nodes doc) ∧ parents_in_range (sg_nodes s) ∧ active_closed (sg_nodes s) ∧
  length (sg_worlds s) = length (gd_nodes doc).
Lemma graph_accepted doc : doc_ok doc → ensures (scene_graph doc) (graph_rooted doc).
Proof.
  intros Hd s E. unfold scene_graph in E.
  destruct (scene_graph_exact (gd_scenes doc) (imap (λ index n, from_node index n.1.1 n.1.2 n.2) (gd_nodes doc)) s) as (roots & Hr & G & Hl); [|done|].
  { rewrite length_imap. apply Hd. }
  apply collect_worlds_length in E. rewrite length_imap in Hl, E. split; [by exists roots|]. split; [done|].
  destruct (graph_parents doc roots s); done.
Qed.

Definition bones_below (n : nat) (bindings : Bindings) : Prop := ∀ bone node, bindings !! bone = Some node → (node < n)%nat.

Lemma indexed_below n (l : list (string * Value)) :
  ensures (try_map (λ bn, node ← json_node_index bn.2 n ("humanoid bone " +:+ bn.1); Ok (bn.1, node)) l)
    (λ entries, bones_below n (list_to_map (reverse entries))).
Proof.
  intros entries E bone node Hb. apply elem_of_list_to_map_2 in Hb. rewrite elem_of_reverse in Hb.
  destruct (try_map_source _ _ _ _ E Hb) as (bn & _ & (i & Hi & [= _ <-])%bind_Ok). by apply node_index_ok in Hi.
Qed.
Lemma humanoid_below root label n : ensures (humanoid_bindings root label n) (bones_below n).
Proof.
  unfold humanoid_bindings. eapply ensures_bind; [apply ensures_any|]. intros extensions _.
  case_match; (eapply ensures_bind; [apply ensures_any|]; intros bones _; eapply ensures_bind; [apply indexed_below|];
    intros entries Hb; by apply ensures_ok).
Qed.

(** A clip of a model: it can be played, and moves nodes of the model. *)
Definition model_clip (n : nat) (clip : CpuAnimationClip) : Prop :=
  (∃ active_nodes retarget, clip_ok active_nodes retarget clip) ∧ Forall (λ c, ch_target c < n)%nat (channels clip).

Lemma moved_below n active_nodes retarget clip : clip_ok active_nodes retarget clip →
  (∀ key, may_move active_nodes retarget key → (key.1 < n)%nat) → model_clip n clip.
Proof.
  intros Hc Hm. split; [by exists active_nodes, retarget|]. destruct (po_channels _ _ _ Hc) as (keyframes & C).
  eapply Forall_impl; [apply (no_moves _ _ _ _ _ C)|]. intros c Hk. exact (Hm _ Hk).
Qed.

Lemma embedded_clips (doc : GltfDoc Mat) (nodes : list (CpuNode NodeTransform)) : doc_ok doc →
  ensures (decode_clips (gd_animations doc) (Some (active <$> nodes)) None)
    (λ clips, Forall (model_clip (length nodes)) clips ∧ (length clips ≤ MAX_ANIMATION_CLIPS)%nat).
Proof.
  intros Hd. eapply ensures_impl; [apply clips_accepted, Hd|]. intros clips Hc. split; [|apply Hc].
  eapply Forall_impl; [apply (qo_each _ _ _ Hc)|]. intros clip Hclip. eapply moved_below; [done|]. intros [i p] Hm. simpl in *.
  apply lookup_lt_Some in Hm. by rewrite length_fmap in Hm.
Qed.

Lemma retarget_below source_nodes target_nodes humanoid scale l : ensures
  (try_map (retarget_bone source_nodes target_nodes humanoid scale) l)
  (λ targets, ∀ source target, (list_to_map (omap id targets) : gmap nat RetargetTarget) !! source = Some target →
     (rt_node target < length target_nodes)%nat).
Proof.
  intros targets E source target Ht. apply elem_of_list_to_map_2, list_elem_of_omap in Ht as ([[s t]|] & Hin & [= -> ->]).
  destruct (try_map_source _ _ _ _ E Hin) as ([bone node] & _ & Er). unfold retarget_bone in Er.
  destruct (humanoid !! bone) as [target_node|]; [|done]. apply bind_Ok in Er as (a & _ & (b & Hb%ok_or_Ok & [= <- <-])%bind_Ok).
  simpl. by eapply lookup_lt_Some.
Qed.

Lemma vrma_ends root n : ends (validate_vrma_extension root n) (λ _, True).
Proof.
  unfold validate_vrma_extension. destruct (vrma_bindings root n) as [bindings|e]; [|apply ends_err].
  destruct (hierarchy_exact root bindings REQUIRED_VRM_ONE_HIERARCHY) as (r & -> & _). eexists. by split.
Qed.

Lemma vrma_accepted reply path nodes worlds humanoid : ends (decode_vrma reply path nodes worlds humanoid)
  (Forall (model_clip (length nodes))).
Proof.
  unfold decode_vrma. apply ends_any. intros bytes _. apply ends_any. intros root _. destruct (_ || _); [apply ends_err|].
  apply ends_any. intros [] _. eapply ends_then; [apply vrma_ends|]. intros source_humanoid _. apply ends_any. intros sanitized _.
  apply ends_any. intros doc Hdoc%map_err_Ok%gltf_validates. apply ends_any. intros blob _. apply ends_any. intros source _.
  apply ends_any. intros [] _. apply ends_any. intros targets Ht. apply ends_some. eapply ensures_impl; [apply clips_accepted, Hdoc|].
  intros clips Hc. eapply Forall_impl; [apply (qo_each _ _ _ Hc)|]. intros clip Hclip. eapply moved_below; [done|].
  intros [i p] (s & target & Hs & <- & _). by eapply (retarget_below _ _ _ _ _ _ Ht).
Qed.

Lemma collection_checked clips : ensures (validate_clip_collection clips) (λ _, (length clips ≤ MAX_ANIMATION_CLIPS)%nat).
Proof.
  unfold validate_clip_collection. destruct (MAX_ANIMATION_CLIPS <? _)%nat eqn:E; [apply ensures_err|]. apply Nat.ltb_ge in E.
  eapply ensures_impl; [apply ensures_any|]. by intros [] _.
Qed.
Lemma animations_accepted files paths nodes worlds humanoid clips :
  Forall (model_clip (length nodes)) clips → (length clips ≤ MAX_ANIMATION_CLIPS)%nat →
  ends (decode_animations files paths nodes worlds humanoid clips)
    (λ clips, Forall (model_clip (length nodes)) clips ∧ (length clips ≤ MAX_ANIMATION_CLIPS)%nat).
Proof.
  revert clips. induction paths as [|path paths IH]; intros clips Hc Hl; simpl; [by apply ends_some, ensures_ok|].
  eapply ends_then; [apply vrma_accepted|]. intros more Hm. eapply ends_then; [apply ends_some, collection_checked|]. intros [] Hl'.
  apply IH; [by apply Forall_app|done].
Qed.

(** The constraints in the order they are evaluated in. *)
Definition constraints_ordered (nodes : list (CpuNode NodeTransform)) (constraints : list CpuNodeConstraint) : Prop :=
  Forall (constraint_ok nodes) constraints ∧
  ∃ decoded order, constraints = omap (decoded !!.) order ∧ order ≡ₚ seq 0 (length decoded) ∧
    ∀ l1 i l2, order = l1 ++ i :: l2 → ∀ d, depends nodes decoded i d → d ∈ l1.
Lemma constraints_accepted root nodes : parents_in_range nodes →
  ends (decode_node_constraints root nodes) (constraints_ordered nodes).
Proof.
  intros Hr. pose proof (constraints_exact nodes root Hr) as Hc. destruct (_ ≫= _) as [decoded|e]; [|rewrite Hc; apply ends_err].
  destruct Hc as (Hok & Hcirc & Hord). destruct (decode_node_constraints root nodes) as [r|] eqn:E.
  - exists r. split; [done|]. intros cs ->. destruct Hord as (order & [= ->] & Hp & Hperm & Hl).
    { intros Hc. apply Hcirc in Hc. done. }
    split; [|by exists decoded, order]. by rewrite Hperm.
  - destruct Hord as (order & ? & _); [|done]. intros Hc. apply Hcirc in Hc. done.
Qed.
Lemma springs_accepted_model root (nodes : list (CpuNode NodeTransform)) label : parents_in_range nodes → active_closed nodes →
  ends (decode_spring_bones root nodes label)
    (λ sc, Forall (collider_ok nodes) sc.2 ∧ Forall (spring_ok nodes (length sc.2)) sc.1).
Proof.
  intros Hr Hc. destruct (springs_exact nodes Hr Hc root label) as (r & E & Hs). exists r. split; [done|].
  intros [springs colliders] ->. destruct (Hs _ _ eq_refl) as (? & ? & _). done.
Qed.

Definition humanoid_valid (root : Value) (n : nat) (label : string) : Prop :=
  (label = "VRM 1.0" ∧ humanoid_ok root n (vrm_one_node root) REQUIRED_VRM_ONE_HUMANOID_BONES REQUIRED_VRM_ONE_HIERARCHY) ∨
  (label = "VRM 0.x" ∧ humanoid_ok root n (vrm_zero_node root) REQUIRED_VRM_ZERO_HUMANOID_BONES REQUIRED_VRM_ZERO_HIERARCHY).
Lemma extension_accepted root n : ends (validate_vrm_extension root n) (humanoid_valid root n).
Proof. destruct (humanoid_accepted root n) as (r & E & Hr & _). exists r. split; [done|exact Hr]. Qed.

(** ** The whole model *)

Record model_ok (input : SceneBuildInput Mat) : Prop := {
  mo_doc : doc_ok (in_doc input);
  mo_nodes : (1 ≤ length (gd_nodes (in_doc input)) ≤ MAX_NODES)%nat;
  mo_humanoid : humanoid_valid (in_root input) (length (gd_nodes (in_doc input))) (in_version_label input);
  mo_embedded : embedded_ok (gd_images (in_doc input)) (in_doc input) (in_blob input);
  mo_graph : graph_rooted (in_doc input) (in_graph input);
  mo_skins : Forall (skin_ok (sg_worlds (in_graph input))) (in_skins input);
  mo_bones : bones_below (length (gd_nodes (in_doc input))) (in_humanoid input);
  mo_expressions : expressions_ok (gd_meshes (in_doc input)) (in_expressions input);
  mo_look_at l : in_look_at input = Some l → look_at_ok (in_humanoid input) l;
  mo_constraints : constraints_ordered (sg_nodes (in_graph input)) (in_constraints input);
  mo_colliders : Forall (collider_ok (sg_nodes (in_graph input))) (in_colliders input);
  mo_springs : Forall (spring_ok (sg_nodes (in_graph input)) (length (in_colliders input))) (in_springs input);
  mo_clips : Forall (model_clip (length (gd_nodes (in_doc input)))) (in_animations input);
  mo_clip_count : (length (in_animations input) ≤ MAX_ANIMATION_CLIPS)%nat;
}.

(** The root and the document are those of the file: a GLB header, the JSON
    text of the root, and the chunks after it; the crate reads the document
    from the same chunks, after the text of the root without
    [extensionsRequired]. *)
Definition read_from (bytes : list byte) (input : SceneBuildInput Mat) : Prop := ∃ json tail sanitized,
  bytes = glb_header (zlen bytes) (zlen json) ++ json ++ tail ∧ json_from_slice json = Ok (in_root input) ∧
  json_to_vec (remove_key "extensionsRequired" (in_root input)) = Ok sanitized ∧
  gltf_from_slice (glb_header (20 + zlen (pad4 sanitized) + zlen tail) (zlen (pad4 sanitized)) ++ pad4 sanitized ++ tail) = Ok (in_doc input) ∧
  sk_joints <$> in_skins input = gk_joints <$> gd_skins (in_doc input).

Lemma input_accepted bytes files animation_paths : ends (decode_input bytes files animation_paths) (λ input, model_ok input ∧ read_from bytes input).
Proof.
  unfold decode_input. apply ends_any. intros root Hroot.
  destruct (_ || _) eqn:En; [apply ends_err|]. apply orb_false_iff in En as [N1%Nat.eqb_neq N2%Nat.ltb_ge].
  apply ends_any. intros [] _. eapply ends_then; [apply extension_accepted|]. intros label Hlabel. apply ends_any. intros sanitized Hsan.
  apply ends_any. intros doc Hread%map_err_Ok. pose proof (gltf_validates _ _ Hread) as Hdoc. destruct (negb _) eqn:Ed; [apply ends_err|]. apply negb_false_iff, Nat.eqb_eq in Ed.
  rewrite <- Ed in *. eapply ends_then; [apply ends_some, blob_accepted|]. intros blob Hblob. apply ends_any. intros [] _.
  eapply ends_then; [apply ends_some, graph_accepted, Hdoc|]. intros graph Hg. pose proof Hg as (_ & Hlen & Hr & Hc & _).
  eapply ends_then; [apply ends_some, skins_accepted|]. intros skins [Hskins Hjoints].
  eapply ends_then; [apply ends_some, humanoid_below|]. intros humanoid Hhum. 
  eapply ends_then; [apply ends_some, expressions_accepted|]. intros expressions Hexp. eapply ends_then; [apply ends_some, look_at_accepted|]. intros look_at Hlook.
  eapply ends_then; [by apply constraints_accepted|]. intros constraints Hcs.
  eapply ends_then; [by apply springs_accepted_model|]. intros [springs colliders] [Hcol Hspr].
  eapply (ends_then _ _ (λ clips, Forall (model_clip (length (sg_nodes graph))) clips ∧ (length clips ≤ MAX_ANIMATION_CLIPS)%nat)).
  { destruct animation_paths; [by apply ends_some, embedded_clips|]. apply animations_accepted; [done|]. unfold MAX_ANIMATION_CLIPS. simpl. lia. }
  intros clips [Hclips Hcount]. apply ends_some, ensures_ok. rewrite Hlen in Hclips. split; [split; simpl; try done; lia|].
  destruct (glb_parts _ _ Hroot) as (json & Eb & Ej). destruct (sanitized_parts _ _ _ Hroot Hsan) as (json' & Ej' & ->).
  by exists json, (glb_tail bytes), json'.
Qed.
End accepted.
