(* ===== verification/VrmModel.v ===== *)
(** * A character model, loaded (skid-monitor-fe, vrm/loader.rs)

    [decode]: the file is read, decoded, its meshes are built, and the custom
    shader, if one is set, is put in.  [model_accepted] composes the theorems
    of the loader: whatever the files hold, loading ends, and what it accepts
    has everything the runtime and the renderer rely on. *)

From S2P Require Import Prelude RustStr Otlp RustFloat FeProfile Json VrmJson VrmMtoon VrmGlb VrmOrder VrmGraph VrmBuffers VrmHumanoid VrmRig VrmSpring VrmAnimation VrmPlayback VrmScene VrmDrawable VrmShader VrmLoad.

Record CpuVrmScene (Mat : Type) := {
  scene_id : Z;
  meshes : CpuVrmMeshes;
  vs_version_label : string;
  vs_nodes : list (CpuNode NodeTransform);
  vs_traversal : list nat;
  vs_skins : list (CpuSkin Mat);
  vs_animations : list CpuAnimationClip;
  vs_animation_label : option string;
  vs_expressions : CpuExpressionSet;
  vs_look_at : option CpuLookAt;
  vs_constraints : list CpuNodeConstraint;
  vs_springs : list CpuSpring;
  vs_colliders : list CpuCollider;
  custom_shader_source : option string;
  custom_shader_label : option string;
  custom_shader_error : option string;
}.
Arguments scene_id {Mat} c.
Arguments meshes {Mat} c.
Arguments vs_version_label {Mat} c.
Arguments vs_nodes {Mat} c.
Arguments vs_traversal {Mat} c.
Arguments vs_skins {Mat} c.
Arguments vs_animations {Mat} c.
Arguments vs_animation_label {Mat} c.
Arguments vs_expressions {Mat} c.
Arguments vs_look_at {Mat} c.
Arguments vs_constraints {Mat} c.
Arguments vs_springs {Mat} c.
Arguments vs_colliders {Mat} c.
Arguments custom_shader_source {Mat} c.
Arguments custom_shader_label {Mat} c.
Arguments custom_shader_error {Mat} c.

Section model.
Context {Mat : Type} `{JsonFloat, JsonBytes, Glam, GlamPose, !Transforms NodeTransform Mat, !GltfCrate Mat, !GlamWorld Mat}.
Context `{!GlamMesh Mat, ImageDecoder, Naga} (base : string).

(** What the primitives of the model are built against. *)
Definition build_env (input : SceneBuildInput Mat) : BuildEnv Mat :=
  {| be_root := in_root input; be_label := in_version_label input; be_blob := in_blob input; be_doc := gd_draws (in_doc input);
     be_skins := in_skins input; be_worlds := sg_worlds (in_graph input); be_expressions := in_expressions input |}.

Definition assemble (scene_id : Z) (input : SceneBuildInput Mat) (m : CpuVrmMeshes) : CpuVrmScene Mat :=
  {| scene_id := scene_id; meshes := m; vs_version_label := in_version_label input; vs_nodes := sg_nodes (in_graph input);
     vs_traversal := sg_traversal (in_graph input); vs_skins := in_skins input; vs_animations := in_animations input;
     vs_animation_label := animation_label (in_animations input); vs_expressions := in_expressions input;
     vs_look_at := in_look_at input; vs_constraints := in_constraints input; vs_springs := in_springs input;
     vs_colliders := in_colliders input; custom_shader_source := None; custom_shader_label := None; custom_shader_error := None |}.

Definition decode_bytes (bytes : list byte) (files : string → FileReply) (animation_paths : list string) (scene_id : Z)
    : option (result string (CpuVrmScene Mat)) :=
  input ⇐ decode_input bytes files animation_paths;
  m ⇐ build_scene (build_env input) (node_mesh (gd_meshes (in_doc input)));
  Some (Ok (assemble scene_id input m)).

Definition with_shader (source label error : option string) (s : CpuVrmScene Mat) : CpuVrmScene Mat :=
  {| scene_id := scene_id s; meshes := meshes s; vs_version_label := vs_version_label s; vs_nodes := vs_nodes s;
     vs_traversal := vs_traversal s; vs_skins := vs_skins s; vs_animations := vs_animations s;
     vs_animation_label := vs_animation_label s; vs_expressions := vs_expressions s; vs_look_at := vs_look_at s;
     vs_constraints := vs_constraints s; vs_springs := vs_springs s; vs_colliders := vs_colliders s;
     custom_shader_source := source; custom_shader_label := label; custom_shader_error := error |}.

(** A shader that cannot be used is reported, and the model still loaded. *)
Definition decode (path : string) (files : string → FileReply) (animation_paths : list string) (shader_path : string) (scene_id : Z)
    : option (result string (CpuVrmScene Mat)) :=
  bytes ⇐ Some (read_limited "VRM model" MAX_VRM_FILE_BYTES path (fr_metadata (files path)) (fr_open (files path))
                  (fr_contents (files path)));
  scene ⇐ decode_bytes bytes files animation_paths scene_id;
  if is_empty shader_path then Some (Ok scene)
  else match load base shader_path (files shader_path) with
       | Ok shader => Some (Ok (with_shader (Some (ls_source shader)) (Some (ls_label shader)) None scene))
       | Err error => Some (Ok (with_shader None None (Some error) scene))
       end.

Definition needs_continuous_update (s : CpuVrmScene Mat) : bool :=
  negb (length (vs_animations s) =? 0)%nat || negb (bool_decide (vs_expressions s = ∅)) ||
  (match vs_look_at s with Some _ => true | None => false end) || negb (length (vs_springs s) =? 0)%nat ||
  existsb (λ material, has_uv_animation (cm_mtoon material)) (sc_materials (meshes s)).

(** ** What is loaded *)

Context `{!GltfCrateLaws Mat, !ImageDecoderLaws}.

Definition shader_ok (s : CpuVrmScene Mat) : Prop :=
  match custom_shader_source s with
  | None => custom_shader_label s = None
  | Some source => custom_shader_error s = None ∧ ∃ path reply shader, load base path reply = Ok shader ∧ source = ls_source shader
  end.
(** The scene has the parts of an input that is accepted. *)
Definition loaded_ok (s : CpuVrmScene Mat) : Prop := ∃ input,
  model_ok input ∧ scene_ok (build_env input) (meshes s) ∧ shader_ok s ∧
  with_shader None None None s = assemble (scene_id s) input (meshes s).

Lemma input_buildable input : model_ok input → build_ok (build_env input) (node_mesh (gd_meshes (in_doc input))).
Proof.
  intros M. destruct (mo_graph _ M) as (_ & _ & _ & _ & W). split; simpl; [by rewrite (do_meshes _ (mo_doc _ M))|apply M|apply (mo_doc _ M)].
Qed.
Lemma bytes_accepted bytes files animation_paths id : ends (decode_bytes bytes files animation_paths id)
  (λ s, ∃ input, read_from bytes input ∧ model_ok input ∧ scene_ok (build_env input) (meshes s) ∧ s = assemble id input (meshes s)).
Proof.
  eapply ends_then; [apply input_accepted|]. intros input [M R]. eapply ends_then; [by apply scene_built, input_buildable|].
  intros m Hm. apply ends_some, ensures_ok. by exists input.
Qed.

(** The custom shader of a model: none without a path; the one that is loaded
    from the file, or the error. *)
Definition shader_from (shader_path : string) (reply : FileReply) (s : CpuVrmScene Mat) : Prop :=
  if is_empty shader_path then custom_shader_source s = None ∧ custom_shader_label s = None ∧ custom_shader_error s = None
  else (∃ shader, load base shader_path reply = Ok shader ∧ custom_shader_source s = Some (ls_source shader) ∧
          custom_shader_label s = Some (ls_label shader) ∧ custom_shader_error s = None) ∨
       (∃ error, load base shader_path reply = Err error ∧ custom_shader_source s = None ∧ custom_shader_label s = None ∧
          custom_shader_error s = Some error).
(** The scene has the parts of the input that was read from the model file,
    all of it, and the meshes built from them. *)
Definition loaded_from (path : string) (files : string → FileReply) (shader_path : string) (s : CpuVrmScene Mat) : Prop := ∃ bytes input,
  fr_contents (files path) = Ok bytes ∧ zlen bytes ≤ MAX_VRM_FILE_BYTES ∧ read_from bytes input ∧
  model_ok input ∧ scene_ok (build_env input) (meshes s) ∧ shader_from shader_path (files shader_path) s ∧
  with_shader None None None s = assemble (scene_id s) input (meshes s).
Lemma loaded_from_ok path files shader_path s : loaded_from path files shader_path s → loaded_ok s.
Proof.
  intros (bytes & input & _ & _ & _ & M & S & Hs & E). exists input. split; [done|]. split; [done|]. split; [|done]. unfold shader_ok, shader_from in *.
  destruct (is_empty shader_path); [by destruct Hs as (-> & -> & _)|]. destruct Hs as [(shader & El & -> & _ & ->)|(error & _ & -> & -> & _)]; [|done].
  split; [done|]. by exists shader_path, (files shader_path), shader.
Qed.

Lemma decode_from path files animation_paths shader_path id :
  ends (decode path files animation_paths shader_path id) (λ s, loaded_from path files shader_path s ∧ scene_id s = id).
Proof.
  unfold decode. apply ends_any. intros bytes [Hb Hl]%read_limited_whole; [|done]. eapply ends_then; [apply bytes_accepted|]. intros s (input & R & M & S & E).
  assert (scene_id s = id) as Hid by (by rewrite E).
  destruct (is_empty shader_path) eqn:Ep; [|destruct (load base _ _) as [shader|error] eqn:El]; apply ends_some, ensures_ok; (split; [|done]);
    exists bytes, input; unfold shader_from; rewrite Ep; split_and!; try done; try (by rewrite E).
  - left. by exists shader.
  - right. by exists error.
Qed.
Lemma decode_loaded path files animation_paths shader_path id :
  ends (decode path files animation_paths shader_path id) (λ s, loaded_ok s ∧ scene_id s = id).
Proof.
  destruct (decode_from path files animation_paths shader_path id) as (r & E & Hr). exists r. split; [done|]. intros s Es.
  destruct (Hr s Es) as [Hf Hi]. split; [by eapply loaded_from_ok|done].
Qed.

(** C31: Whatever bytes a model file and its animation files have, loading
    ends.  A model it accepts is what the whole model file holds: its root is
    the JSON chunk, and its document what the gltf crate reads from the same
    chunks, which has its data in the one embedded buffer, with every view
    inside it; its required bones are bound to distinct nodes
    of a scene in which every node has one parent, in the required order; the
    scene graph lists each active node once, after its parent, with a finite
    transform; expressions move morph targets that exist; skins, constraints,
    colliders and spring bones refer to active nodes only, constraints in an
    order that respects their dependencies; the animation clips can be played
    and move nodes that exist.  Its draws tile the vertex buffer in whole
    triangles, and name materials, textures, nodes, skins and, for influences
    above the threshold, joints that exist.  A custom shader is used when
    it was accepted; one that was not leaves the model loaded, with the
    error. *)
Theorem model_accepted path files animation_paths shader_path id :
  ∃ r, decode path files animation_paths shader_path id = Some r ∧
    ∀ s, r = Ok s → loaded_from path files shader_path s ∧ scene_id s = id.
Proof.
  destruct (decode_from path files animation_paths shader_path id) as (r & E & Hr). exists r. split; [done|]. intros s ->. by apply Hr.
Qed.
End model.

(** ** A model *)

Module ModelDemo.
#[global] Instance demo_json_float : JsonFloat := λ _, S754_zero false.
(** The text of the one document, and of what is left of it. *)
#[global] Instance demo_json : JsonBytes := {| json_from_slice _ := Ok SkeletonDemo.model; json_to_vec _ := Ok [] |}.
#[global] Instance demo_glam : Glam := {| length_squared _ := f32_1; normalize v := v; normalize_or_zero v := v |}.
#[global] Instance demo_transforms : Transforms NodeTransform () :=
  {| rest_matrix _ := (); mat_mul _ _ := (); mat_identity := (); mat_finite _ := true |}.
#[global] Instance demo_world : GlamWorld () := λ _ _, f32_1.
#[global] Instance demo_mesh : GlamMesh () :=
  {| transform_point3 _ p := p; v3_cross a _ := a; v3_dot _ _ := f32_1; v3_div a _ := a; v3_min := PlaybackDemo.map3 f32_min;
     v3_max := PlaybackDemo.map3 f32_max |}.
#[global] Instance demo_images : ImageDecoder := λ _ _, Err "not an image".
#[global] Instance demo_images_laws : ImageDecoderLaws.
Proof. by intros ? ? ? ? ?. Qed.
#[global] Instance demo_naga : Naga := {| parse_str _ := Err "not a shader"; validate _ := Ok () |}.

Definition still : Vec3 * Vec4 * Vec3 := (translation PlaybackDemo.rest, rotation PlaybackDemo.rest, scale PlaybackDemo.rest).
Definition scenes : GltfScenes :=
  {| gs_children := [[1; 4; 7]; [2; 10; 13]; [3]; []; [5]; [6]; []; [8]; [9]; []; [11]; [12]; []; [14]; [15]; []]%nat;
     gs_scenes := [[0%nat]]; gs_default := None |}.
(** One triangle, at the first node. *)
Definition corners : list Vec3 := [vec3_splat f32_0; axis_x f32_1; axis_y f32_1].
Definition material : GltfMaterial :=
  {| gm_index := None; gm_base_color := PlaybackDemo.splat4 f32_1; gm_base_texture := None; gm_alpha_mode := Opaque; gm_alpha_cutoff := None;
     gm_emissive := vec3_splat f32_0; gm_normal := None |}.
Definition triangle : GltfPrimitive :=
  {| gp_triangles := true; gp_positions := Some {| at_accessor := PlaybackDemo.accessor 3 12 DVec3; at_values := Some corners |};
     gp_indices := None; gp_normals := None; gp_tangents := None; gp_tex_coords _ := None; gp_joints := None; gp_weights := None;
     gp_morphs := []; gp_material := material |}.
Definition draws : GltfMeshDoc :=
  {| dm_primitives := [[triangle]]; dm_skins := []; dm_textures := {| gt_textures := []; gt_image _ := ImageUri |} |}.
Definition document : GltfDoc () :=
  {| gd_nodes := repeat still 16; gd_scenes := scenes; gd_buffers := [(Bin, 0)]; gd_images := []; gd_blob := Some []; gd_views := [];
     gd_meshes := {| node_mesh := Some 0%nat :: repeat None 15; mesh_targets := [[]] |}; gd_skins := []; gd_animations := []; gd_draws := draws |}.
#[global] Instance demo_crate : GltfCrate () := λ _, Ok document.

Lemma children_below p : Forall (λ c, c < 16)%nat (children_at scenes p).
Proof.
  unfold children_at. destruct (gs_children scenes !! p) as [l|] eqn:E; [|constructor].
  assert (Forall (Forall (λ c, c < 16)%nat) (gs_children scenes)) as F by (apply (bool_decide_eq_true_1 _); vm_refl).
  rewrite Forall_lookup in F. exact (F p l E).
Qed.
#[global] Instance demo_crate_laws : GltfCrateLaws ().
Proof.
  intros bytes doc [= <-]. split; [done| |constructor|done|].
  2:{ apply Forall_singleton, Forall_singleton. split; [by intros ? [= <-] ? [= <-]|done|constructor]. }
  intros p c Hc. pose proof (children_below p) as F. rewrite Forall_forall in F. by apply F.
Qed.
Definition bytes : list byte := glb_header 20 0.
Definition files (path : string) : FileReply := {| fr_metadata := Ok 20; fr_open := Ok (); fr_contents := Ok bytes |}.
End ModelDemo.


#[local] Transparent gmap_empty.

Lemma model_accepted_witness : ∃ s : CpuVrmScene (),
  decode "" "model.vrm" ModelDemo.files [] "" 1 = Some (Ok s) ∧ loaded_from "" "model.vrm" ModelDemo.files "" s.
Proof.
  destruct (model_accepted "" "model.vrm" ModelDemo.files [] "" 1) as (r & E & Hok).
  assert (match decode "" "model.vrm" ModelDemo.files [] "" 1 with Some (Ok _) => true | _ => false end = true) as Hr by (lazy; reflexivity).
  rewrite E in Hr. destruct r as [s|e]; [|discriminate Hr]. exists s. split; [exact E|exact (proj1 (Hok s eq_refl))].
Defined.
