(* ===== verification/VrmRuntime.v ===== *)
(** * A frame of a character (skid-monitor-fe, vrm/runtime.rs)

    [evaluate_frame]: the animation clips, the look-at, the node constraints
    and the spring bones set the pose of the nodes, and the expressions set
    the weights of the morph targets.  An index out of range, where Rust
    panics, is [None].  glam's matrices and quaternions, the sine and the
    iteration order of a [HashMap] are interfaces. *)

From S2P Require Import Prelude RustStr Otlp RustFloat FeProfile Json VrmJson VrmMtoon VrmGlb VrmOrder VrmGraph VrmBuffers VrmHumanoid VrmRig VrmSpring VrmAnimation VrmScene.

Definition SPRING_RESET_SECONDS : f32 := f32_lit 1 4.
Definition SPRING_MAX_STEP_SECONDS : f32 := f32_lit 1 30.

(** ** The data *)

Record SpringJointState := { previous_tail : Vec3; current_tail : Vec3 }.
Record VrmRuntimeState := { spring_joints : list (list SpringJointState); last_time : option f32 }.
Definition default_state : VrmRuntimeState := {| spring_joints := []; last_time := None |}.

Record FrameInput := {
  fi_time : f32;
  crossfade_seconds : f32;
  fi_expression : string;
  look_yaw_degrees : f32;
  look_pitch_degrees : f32;
  spring_bone_enabled : bool;
  look_at_enabled : bool;
}.
Abbreviation MorphWeights := (gmap (nat * nat) f32).
Record FramePose (Mat : Type) := { fp_worlds : list Mat; fp_morph_weights : MorphWeights }.
Arguments fp_worlds {Mat} f.
Arguments fp_morph_weights {Mat} f.

Record RuntimeRig := {
  rr_nodes : list (CpuNode NodeTransform);
  rr_traversal : list nat;
  rr_animations : list CpuAnimationClip;
  rr_expressions : CpuExpressionSet;
  rr_look_at : option CpuLookAt;
  rr_constraints : list CpuNodeConstraint;
  rr_springs : list CpuSpring;
  rr_colliders : list CpuCollider;
}.

(** What the frame uses of glam beyond the pose and the meshes. *)
Class GlamFrame (Mat : Type) := {
  mat_inverse : Mat → Mat;
  mat_rotation : Mat → Vec4;             (* to_scale_rotation_translation().1 *)
  axis_lengths : Mat → f32 * f32 * f32;
  quat_rotate : Vec4 → Vec3 → Vec3;
  from_rotation_arc : Vec3 → Vec3 → Vec4;
  from_rotation_x : f32 → Vec4;
  from_rotation_y : f32 → Vec4;
  v3_length : Vec3 → f32;
}.
(** [f32::sin]: of a finite angle it is a number from -1 to 1. *)
Class Sine := f32_sin : f32 → f32.
Class SineLaws `{Sine} : Prop := sin_unit f : is_finite f = true →
  valid_binary 24 128 (f32_sin f) = true ∧ is_finite (f32_sin f) = true ∧ SFleb (SFabs (f32_sin f)) f32_1 = true.
(** The order a [HashMap] is iterated in. *)
Class HashOrder := hash_iter : gmap string f32 → list (string * f32).
Class HashOrderLaws `{HashOrder} : Prop := hash_iter_all m : hash_iter m ≡ₚ map_to_list m.

Definition quat_identity : Vec4 := {| x4 := f32_0; y4 := f32_0; z4 := f32_0; w4 := f32_1 |}.
(** [std::f32::consts::PI], and [f32::to_radians]. *)
Definition F32_PI : f32 := S754_finite false 13176795 (-22).
Definition to_radians (f : f32) : f32 := f32_mul f (f32_div F32_PI (f32_of_Z 180)).

(** [list[i] = x] *)
Definition set_at {A} (i : nat) (x : A) (l : list A) : option (list A) := if (i <? length l)%nat then Some (<[i := x]> l) else None.
(** [list.windows(2)] *)
Definition windows2 {A} (l : list A) : list (A * A) := zip l (tail l).

(** ** RangeMap::map *)

Definition range_map (r : RangeMap) (degrees : f32) : f32 :=
  if SFleb (input_max_degrees r) F32_EPSILON
  then if SFleb (SFabs degrees) F32_EPSILON then f32_0 else output_scale r
  else f32_mul (f32_div (f32_min (SFabs degrees) (input_max_degrees r)) (input_max_degrees r)) (output_scale r).

(** ** Expressions *)

Definition override_factor (mode : ExpressionOverride) (expression_weight : f32) : option f32 :=
  match mode with
  | OverrideNone => None
  | OverrideBlock => Some f32_0
  | OverrideBlend => Some (f32_sub f32_1 (f32_clamp expression_weight f32_0 f32_1))
  end.
Definition override_procedural (values : gmap string f32) (names : list string) (mode : ExpressionOverride) (expression_weight : f32)
    : gmap string f32 :=
  match override_factor mode expression_weight with
  | None => values
  | Some factor => foldl (λ values name, alter (λ value, f32_mul value factor) name values) values names
  end.

Section expressions.
Context `{Sine, HashOrder}.

Definition selected_value (expressions : CpuExpressionSet) (selected : string) : gmap string f32 :=
  if bool_decide (is_Some (expressions !! selected)) && negb (is_empty selected) then {[selected := f32_1]} else ∅.
Definition blink_value (expressions : CpuExpressionSet) (time : f32) (values : gmap string f32) : gmap string f32 :=
  if bool_decide (is_Some (expressions !! "blink")) then
    let phase := rem_euclid time (f32_lit 42 10) in
    if SFltb phase (f32_lit 18 100) then <["blink" := f32_sin (f32_mul (f32_div phase (f32_lit 18 100)) F32_PI)]> values else values
  else values.
Definition look_values (look_at : option CpuLookAt) (yaw pitch : f32) (values : gmap string f32) : gmap string f32 :=
  match look_at with
  | None => values
  | Some look_at =>
    match la_kind look_at with
    | LookAtBone => values
    | LookAtExpression =>
      let values := <[(if SFleb f32_0 yaw then "lookLeft" else "lookRight") :=
                       f32_clamp (range_map (horizontal_outer look_at) yaw) f32_0 f32_1]> values in
      if SFleb f32_0 pitch then <["lookDown" := f32_clamp (range_map (vertical_down look_at) pitch) f32_0 f32_1]> values
      else <["lookUp" := f32_clamp (range_map (vertical_up look_at) pitch) f32_0 f32_1]> values
    end
  end.

Definition procedural_expression_values (expressions : CpuExpressionSet) (selected : string) (time : f32)
    (look_at : option CpuLookAt) (yaw pitch : f32) : gmap string f32 :=
  let values := look_values look_at yaw pitch (blink_value expressions time (selected_value expressions selected)) in
  let selected_weight := default f32_0 (values !! selected) in
  match expressions !! selected with
  | None => values
  | Some expression =>
    let values := override_procedural values ["blink"; "blinkLeft"; "blinkRight"] (override_blink expression) selected_weight in
    let values := override_procedural values ["lookUp"; "lookDown"; "lookLeft"; "lookRight"] (override_look_at expression) selected_weight in
    override_procedural values ["aa"; "ih"; "ou"; "ee"; "oh"] (override_mouth expression) selected_weight
  end.

Definition add_bind (value : f32) (result : MorphWeights) (b : MorphBind) : MorphWeights :=
  <[(mb_node b, mb_target b) := f32_add (default f32_0 (result !! (mb_node b, mb_target b))) (f32_mul value (mb_weight b))]> result.
Definition add_expression (expressions : CpuExpressionSet) (result : MorphWeights) (entry : string * f32) : MorphWeights :=
  match expressions !! entry.1 with
  | None => result
  | Some expression =>
    let value := if is_binary expression then if SFleb (f32_lit 1 2) entry.2 then f32_1 else f32_0 else f32_clamp entry.2 f32_0 f32_1 in
    foldl (add_bind value) result (morph_binds expression)
  end.
Definition accumulate_morph_weights (expressions : CpuExpressionSet) (values : gmap string f32) : MorphWeights :=
  (λ weight, f32_clamp weight f32_0 f32_1) <$> foldl (add_expression expressions) ∅ (hash_iter values).
End expressions.

Section pose.
Context {Mat : Type} `{Glam, GlamPose, !Transforms NodeTransform Mat, !GlamMesh Mat, !GlamFrame Mat}.

(** ** World transforms *)

Definition set_world (nodes : list (CpuNode NodeTransform)) (transforms : list NodeTransform) (worlds : list Mat) (i : nat)
    : option (list Mat) :=
  node ← nodes !! i;
  above ← match parent node with None => Some mat_identity | Some p => worlds !! p end;
  t ← transforms !! i;
  set_at i (mat_mul above (rest_matrix t)) worlds.
Fixpoint set_worlds (nodes : list (CpuNode NodeTransform)) (transforms : list NodeTransform) (traversal : list nat) (worlds : list Mat)
    : option (list Mat) :=
  match traversal with
  | [] => Some worlds
  | i :: traversal => worlds ← set_world nodes transforms worlds i; set_worlds nodes transforms traversal worlds
  end.
Definition compute_worlds (nodes : list (CpuNode NodeTransform)) (traversal : list nat) (transforms : list NodeTransform)
    : option (list Mat) :=
  set_worlds nodes transforms traversal (repeat mat_identity (length nodes)).

Definition world_rotation (matrix : Mat) : Vec4 := quat_normalize (mat_rotation matrix).
Definition rotation_arc (from to : Vec3) : Vec4 :=
  if SFleb (length_squared from) F32_EPSILON || SFleb (length_squared to) F32_EPSILON then quat_identity
  else quat_normalize (from_rotation_arc (normalize from) (normalize to)).
Definition parent_rotation (node : CpuNode NodeTransform) (worlds : list Mat) : option Vec4 :=
  match parent node with None => Some quat_identity | Some p => w ← worlds !! p; Some (world_rotation w) end.
Definition position_of (worlds : list Mat) (i : nat) : option Vec3 := w ← worlds !! i; Some (transform_point3 w vec3_zero).
Definition set_rotation_at (i : nat) (q : Vec4) (transforms : list NodeTransform) : option (list NodeTransform) :=
  t ← transforms !! i; set_at i (set_rotation q t) transforms.

(** ** Constraints *)

Definition constraint_target (nodes : list (CpuNode NodeTransform)) (worlds : list Mat) (c : CpuNodeConstraint)
    (source_rest destination_rest source_rotation : Vec4) : option Vec4 :=
  match cn_kind c with
  | VrmRig.Rotation => Some (quat_mul destination_rest (quat_mul (quat_inverse source_rest) source_rotation))
  | Roll axis =>
    let source_delta := quat_mul (quat_inverse source_rest) source_rotation in
    let delta_in_parent := quat_mul (quat_mul source_rest source_delta) (quat_inverse source_rest) in
    let delta_in_destination := quat_mul (quat_mul (quat_inverse destination_rest) delta_in_parent) destination_rest in
    let swing := rotation_arc axis (quat_rotate delta_in_destination axis) in
    Some (quat_mul (quat_mul destination_rest (quat_inverse swing)) delta_in_destination)
  | Aim axis =>
    destination_position ← position_of worlds (destination c);
    source_position ← position_of worlds (cn_source c);
    let direction := v3_sub source_position destination_position in
    if SFleb (length_squared direction) F32_EPSILON then Some destination_rest
    else
    node ← nodes !! destination c;
    parent_rotation ← parent_rotation node worlds;
    let from := quat_rotate (quat_mul parent_rotation destination_rest) axis in
    let arc := rotation_arc from (normalize direction) in
    Some (quat_mul (quat_mul (quat_mul (quat_inverse parent_rotation) arc) parent_rotation) destination_rest)
  end.

Definition apply_constraint (nodes : list (CpuNode NodeTransform)) (traversal : list nat) (c : CpuNodeConstraint)
    (transforms : list NodeTransform) (worlds : list Mat) : option (list NodeTransform * list Mat) :=
  source ← nodes !! cn_source c;
  dest ← nodes !! destination c;
  source_transform ← transforms !! cn_source c;
  let destination_rest := rotation (rest dest) in
  target ← constraint_target nodes worlds c (rotation (rest source)) destination_rest (rotation source_transform);
  transforms ← set_rotation_at (destination c) (quat_normalize (quat_slerp destination_rest (quat_normalize target) (cn_weight c))) transforms;
  worlds ← compute_worlds nodes traversal transforms;
  Some (transforms, worlds).
Fixpoint apply_constraints (nodes : list (CpuNode NodeTransform)) (traversal : list nat) (constraints : list CpuNodeConstraint)
    (transforms : list NodeTransform) (worlds : list Mat) : option (list NodeTransform * list Mat) :=
  match constraints with
  | [] => Some (transforms, worlds)
  | c :: constraints =>
    tw ← apply_constraint nodes traversal c transforms worlds;
    apply_constraints nodes traversal constraints tw.1 tw.2
  end.

(** ** Look-at *)

Definition look_rotation (look_at : CpuLookAt) (yaw pitch : f32) (is_left : bool) : Vec4 :=
  let yaw_output :=
    if SFleb f32_0 yaw then if is_left then range_map (horizontal_outer look_at) yaw else range_map (horizontal_inner look_at) yaw
    else if is_left then SFopp (range_map (horizontal_inner look_at) yaw) else SFopp (range_map (horizontal_outer look_at) yaw) in
  let pitch_output := if SFleb f32_0 pitch then range_map (vertical_down look_at) pitch else SFopp (range_map (vertical_up look_at) pitch) in
  quat_mul (from_rotation_y (to_radians yaw_output)) (from_rotation_x (to_radians pitch_output)).
Definition turn_eye (nodes : list (CpuNode NodeTransform)) (look_at : CpuLookAt) (yaw pitch : f32) (eye : option nat) (is_left : bool)
    (transforms : list NodeTransform) : option (list NodeTransform) :=
  match eye with
  | None => Some transforms
  | Some eye =>
    node ← nodes !! eye;
    set_rotation_at eye (quat_normalize (quat_mul (rotation (rest node)) (look_rotation look_at yaw pitch is_left))) transforms
  end.
Definition apply_bone_look_at (nodes : list (CpuNode NodeTransform)) (look_at : CpuLookAt) (yaw pitch : f32)
    (transforms : list NodeTransform) : option (list NodeTransform) :=
  match la_kind look_at with
  | LookAtExpression => Some transforms
  | LookAtBone =>
    transforms ← turn_eye nodes look_at yaw pitch (left_eye look_at) true transforms;
    turn_eye nodes look_at yaw pitch (right_eye look_at) false transforms
  end.

(** ** Collisions *)

Definition max_axis_scale (matrix : Mat) : f32 := let '(x, y, z) := axis_lengths matrix in f32_max (f32_max x y) z.
Definition perpendicular_direction (axis : Vec3) : Vec3 :=
  if SFleb (length_squared axis) F32_EPSILON then v3_x
  else
  let axis := normalize axis in
  let basis := if SFltb (SFabs (vx axis)) f32_0_9 then v3_x else v3_y in
  normalize_or_zero (v3_cross axis basis).
Definition constrain_length (origin point : Vec3) (length : f32) (fallback : Vec3) : Vec3 :=
  let delta := v3_sub point origin in
  v3_add origin (if SFltb F32_EPSILON (length_squared delta) then v3_scale (normalize delta) length else v3_scale fallback length).
Definition closest_point_on_segment (point start fin : Vec3) : Vec3 :=
  let segment := v3_sub fin start in
  if SFleb (length_squared segment) F32_EPSILON then start
  else v3_add start (v3_scale segment (f32_clamp (f32_div (v3_dot (v3_sub point start) segment) (length_squared segment)) f32_0 f32_1)).

(** The loop of [collide]: at most eight times. *)
Fixpoint push_out (turns : nat) (start fin : Vec3) (minimum : f32) (joint_position : Vec3) (bone_length : f32) (result : Vec3) : Vec3 :=
  match turns with
  | O => result
  | S turns =>
    let closest := closest_point_on_segment result start fin in
    let delta := v3_sub result closest in
    if SFleb (f32_sub (f32_mul minimum minimum) (f32_lit 1 100000000)) (length_squared delta) then result
    else
    let direction := if SFltb F32_EPSILON (length_squared delta) then normalize delta
                     else perpendicular_direction (v3_sub joint_position closest) in
    push_out turns start fin minimum joint_position bone_length
      (constrain_length joint_position (v3_add closest (v3_scale direction minimum)) bone_length direction)
  end.
Definition collide (tail joint_position : Vec3) (bone_length joint_radius : f32) (collider : CpuCollider) (worlds : list Mat) : option Vec3 :=
  matrix ← worlds !! col_node collider;
  let scale := max_axis_scale matrix in
  let '(start, fin, radius) :=
    match shape collider with
    | Sphere offset radius => let center := transform_point3 matrix offset in (center, center, f32_mul radius scale)
    | Capsule offset capsule_tail radius => (transform_point3 matrix offset, transform_point3 matrix capsule_tail, f32_mul radius scale)
    end in
  Some (push_out 8 start fin (f32_add radius joint_radius) joint_position bone_length tail).
Fixpoint collide_all (colliders : list CpuCollider) (indices : list nat) (joint_position : Vec3) (bone_length joint_radius : f32)
    (worlds : list Mat) (tail : Vec3) : option Vec3 :=
  match indices with
  | [] => Some tail
  | i :: indices =>
    tail ← match colliders !! i with None => Some tail | Some c => collide tail joint_position bone_length joint_radius c worlds end;
    collide_all colliders indices joint_position bone_length joint_radius worlds tail
  end.

(** ** Spring bones *)

Definition needs_reset (springs : list CpuSpring) (enabled : bool) (delta : option f32) (state : VrmRuntimeState) : bool :=
  negb enabled ||
  (match delta with None => true | Some delta => SFleb delta f32_0 || SFltb SPRING_RESET_SECONDS delta end) ||
  negb (length (spring_joints state) =? length springs)%nat ||
  existsb (λ ss : list SpringJointState * CpuSpring, negb (length ss.1 =? length (sp_joints ss.2) - 1)%nat) (zip (spring_joints state) springs).

(** [map_or(Mat4::IDENTITY, |center| worlds[center])] *)
Definition center_matrix (worlds : list Mat) (s : CpuSpring) : option Mat :=
  match center s with None => Some mat_identity | Some c => worlds !! c end.
Definition reset_joint (worlds : list Mat) (center_inverse : Mat) (window : CpuSpringJoint * CpuSpringJoint) : option SpringJointState :=
  p ← position_of worlds (sj_node window.2);
  let tail := transform_point3 center_inverse p in
  Some {| previous_tail := tail; current_tail := tail |}.
Definition reset_spring (worlds : list Mat) (s : CpuSpring) : option (list SpringJointState) :=
  center_inverse ← match center s with None => Some mat_identity | Some c => w ← worlds !! c; Some (mat_inverse w) end;
  mapM (reset_joint worlds center_inverse) (windows2 (sp_joints s)).

(** The pose and the state of the springs, that the loop changes. *)
Record SpringPose := { pe_transforms : list NodeTransform; pe_worlds : list Mat; pe_joints : list (list SpringJointState) }.

(** Where the tail goes, before the colliders. *)
Definition next_tail (joint : CpuSpringJoint) (delta : f32) (center : Mat) (st : SpringJointState) (joint_position bone : Vec3) (length : f32) : Vec3 :=
  let current := transform_point3 center (current_tail st) in
  let previous := transform_point3 center (previous_tail st) in
  let inertia := v3_scale (v3_sub current previous) (f32_sub f32_1 (drag_force joint)) in
  let pull := v3_scale (v3_scale (normalize bone) (stiffness joint)) delta in
  let gravity := v3_scale (v3_scale (gravity_direction joint) (gravity_power joint)) delta in
  constrain_length joint_position (v3_add (v3_add (v3_add current inertia) pull) gravity) length (normalize bone).

Definition update_joint (nodes : list (CpuNode NodeTransform)) (traversal : list nat) (colliders : list CpuCollider) (delta : f32)
    (indices : list nat) (center_matrices : list Mat) (spring_index joint_index : nat) (window : CpuSpringJoint * CpuSpringJoint)
    (pose : SpringPose) : option SpringPose :=
  let '(joint, tail_joint) := window in
  let worlds := pe_worlds pose in
  joint_position ← position_of worlds (sj_node joint);
  animated_tail ← position_of worlds (sj_node tail_joint);
  let bone := v3_sub animated_tail joint_position in
  let length := v3_length bone in
  if SFleb length F32_EPSILON then Some pose
  else
  states ← pe_joints pose !! spring_index;
  st ← states !! joint_index;
  center ← center_matrices !! spring_index;
  joint_world ← worlds !! sj_node joint;
  let radius := f32_mul (hit_radius joint) (max_axis_scale joint_world) in
  tail ← collide_all colliders indices joint_position length radius worlds (next_tail joint delta center st joint_position bone length);
  let st := {| previous_tail := current_tail st; current_tail := transform_point3 (mat_inverse center) tail |} in
  let desired := normalize_or_zero (v3_sub tail joint_position) in
  let world_delta := rotation_arc (normalize bone) desired in
  node ← nodes !! sj_node joint;
  above ← parent_rotation node worlds;
  transforms ← set_rotation_at (sj_node joint)
    (quat_normalize (quat_mul (quat_mul (quat_inverse above) world_delta) (world_rotation joint_world))) (pe_transforms pose);
  worlds ← compute_worlds nodes traversal transforms;
  Some {| pe_transforms := transforms; pe_worlds := worlds;
          pe_joints := <[spring_index := <[joint_index := st]> states]> (pe_joints pose) |}.

Fixpoint update_joints (nodes : list (CpuNode NodeTransform)) (traversal : list nat) (colliders : list CpuCollider) (delta : f32)
    (indices : list nat) (center_matrices : list Mat) (spring_index joint_index : nat) (pairs : list (CpuSpringJoint * CpuSpringJoint))
    (pose : SpringPose) : option SpringPose :=
  match pairs with
  | [] => Some pose
  | p :: pairs =>
    pose ← update_joint nodes traversal colliders delta indices center_matrices spring_index joint_index p pose;
    update_joints nodes traversal colliders delta indices center_matrices spring_index (S joint_index) pairs pose
  end.
Fixpoint update_springs (nodes : list (CpuNode NodeTransform)) (traversal : list nat) (colliders : list CpuCollider) (delta : f32)
    (center_matrices : list Mat) (spring_index : nat) (springs : list CpuSpring) (pose : SpringPose) : option SpringPose :=
  match springs with
  | [] => Some pose
  | s :: springs =>
    pose ← update_joints nodes traversal colliders delta (collider_indices s) center_matrices spring_index 0 (windows2 (sp_joints s)) pose;
    update_springs nodes traversal colliders delta center_matrices (S spring_index) springs pose
  end.

Definition update_spring_bones (nodes : list (CpuNode NodeTransform)) (traversal : list nat) (springs : list CpuSpring)
    (colliders : list CpuCollider) (time : f32) (enabled : bool) (transforms : list NodeTransform) (worlds : list Mat)
    (state : VrmRuntimeState) : option (list NodeTransform * list Mat * VrmRuntimeState) :=
  let delta := (λ last, f32_sub time last) <$> last_time state in
  if needs_reset springs enabled delta state then
    joints ← mapM (reset_spring worlds) springs;
    Some (transforms, worlds, {| spring_joints := joints; last_time := Some time |})
  else
  let delta := f32_min (default f32_0 delta) SPRING_MAX_STEP_SECONDS in
  center_matrices ← mapM (center_matrix worlds) springs;
  pose ← update_springs nodes traversal colliders delta center_matrices 0 springs
           {| pe_transforms := transforms; pe_worlds := worlds; pe_joints := spring_joints state |};
  Some (pe_transforms pose, pe_worlds pose, {| spring_joints := pe_joints pose; last_time := Some time |}).

(** ** evaluate_frame *)

Context `{Sine, HashOrder}.

Definition evaluate_frame (rig : RuntimeRig) (input : FrameInput) (state : VrmRuntimeState)
    : option (FramePose Mat * VrmRuntimeState) :=
  let nodes := rr_nodes rig in
  transforms ← apply_mixed (rr_animations rig) (fi_time input) (crossfade_seconds input) (rest <$> nodes);
  let expression_values := procedural_expression_values (rr_expressions rig) (fi_expression input) (fi_time input)
    (if look_at_enabled input then rr_look_at rig else None) (look_yaw_degrees input) (look_pitch_degrees input) in
  transforms ← match rr_look_at rig with
               | Some look_at =>
                 if look_at_enabled input
                 then apply_bone_look_at nodes look_at (look_yaw_degrees input) (look_pitch_degrees input) transforms
                 else Some transforms
               | None => Some transforms
               end;
  worlds ← compute_worlds nodes (rr_traversal rig) transforms;
  tw ← apply_constraints nodes (rr_traversal rig) (rr_constraints rig) transforms worlds;
  sprung ← update_spring_bones nodes (rr_traversal rig) (rr_springs rig) (rr_colliders rig) (fi_time input) (spring_bone_enabled input)
             tw.1 tw.2 state;
  Some ({| fp_worlds := sprung.1.2; fp_morph_weights := accumulate_morph_weights (rr_expressions rig) expression_values |}, sprung.2).
End pose.
