(* ===== verification/VrmWeights.v ===== *)
(** * The morph weights of a frame (skid-monitor-fe, vrm/runtime.rs)

    [weights_in_range]: the weights the expressions give are numbers in
    [0, 1], for morph targets that an expression binds, in whatever order the
    hash map is iterated. *)

From S2P Require Import Prelude RustStr Otlp RustFloat FeProfile Json VrmJson VrmMtoon VrmGlb VrmOrder VrmGraph VrmBuffers VrmHumanoid VrmRig VrmSpring VrmAnimation VrmFloat VrmPlayback VrmMix VrmScene VrmRuntime.

(** ** Numbers from -1 to 1 *)

Definition within (v : f32) : Prop := small 0 v ∧ short v.

Lemma within_finite v : within v → is_finite v = true.
Proof. intros [S _]. by eapply small_finite. Qed.
Lemma within_mul x y : within x → within y → within (f32_mul x y).
Proof.
  intros [Sx Hx] [Sy Hy]. destruct x as [s| | |s m e], y as [t| | |t n k]; try done. destruct Sx as [Ex Mx], Sy as [Ey My], Hx as [Hm _], Hy as [Hn _].
  unfold f32_mul, SFmul. split; [|by apply round_short]. destruct (Z.le_gt_cases (-149) (e + k)).
  - destruct (round_aux_spec (xorb s t) (Zpos (m * n)) (e + k)) as (m' & e' & R & ->); [done|lia|].
    destruct (rd_below _ _ _ _ R 0) as [B1 B2]; [lia| |].
    { rewrite Pos2Z.inj_mul. replace (0 - (e + k)) with (0 - e + (0 - k)) by lia. rewrite Z.pow_add_r by lia. nia. }
    assert ((e' <=? 104) = true) as -> by (apply Z.leb_le; lia). simpl. pose proof (rd_exponent _ _ _ _ R). split; [lia|done].
  - pose proof (round_bound (xorb s t) (Zpos (m * n)) (e + k) loc_Exact (-101)) as Hb. pose proof (round_short (xorb s t) (Zpos (m * n)) (e + k) loc_Exact) as Hs.
    assert (Zdigits2 (Zpos (m * n)) ≤ 48). { apply digits_le; [done|]. rewrite Pos2Z.inj_mul. change (2 ^ 48) with (2 ^ 24 * 2 ^ 24). nia. }
    destruct (binary_round_aux _ _ _ _ _ _) as [| | |u p j]; [done|destruct Hb; lia..|]. destruct Hs as [Hp Hj]; [done|]. simpl.
    split; [lia|]. etransitivity; [apply Z.lt_le_incl, Hp|]. apply Z.pow_le_mono_r; lia.
Qed.
(** Clamping to [0, 1]. *)
Lemma f32_1_parts : ∃ c, f32_1 = S754_finite false c (-23) ∧ Zpos c = 2 ^ 23.
Proof. by exists 8388608%positive. Qed.
Lemma clamp_within f : number f → short f → within (f32_clamp f f32_0 f32_1) ∧ f32_in f32_0 f32_1 (f32_clamp f f32_0 f32_1) = true.
Proof.
  intros Hn Hs. destruct f32_1_parts as (c & E1 & Ec). unfold f32_clamp. rewrite E1.
  assert (within (S754_finite false c (-23)) ∧ f32_in f32_0 (S754_finite false c (-23)) (S754_finite false c (-23)) = true) as H1.
  { rewrite <- E1. split; [split|]; [|by apply valid_short|done]. vm_compute. repeat split; congruence. }
  destruct (SFltb f f32_0) eqn:L1; [done|]. destruct (SFltb _ f) eqn:L2; [done|].
  destruct f as [s|s| |s m e]; [by destruct s|by destruct s|done|].
  assert (s = false) as -> by (by destruct s). destruct Hs as [Hm He]. unfold SFltb, SFcompare in L2.
  change (Pos.compare_cont Eq c m) with (c ?= m)%positive in L2.
  assert (e < -23 ∨ (e = -23 ∧ Zpos m ≤ 2 ^ 23)) as Hc.
  { destruct (Z.compare_spec (-23) e) as [<-|?|?]; [|done|by left]. rewrite <- Ec. destruct (Pos.compare_spec c m); [right; split; lia|done|right; split; lia]. }
  clear L1 L2. split; [split; [split; [lia|]|exact (conj Hm He)]|].
  - destruct Hc as [Hc|[-> Hc]]; [|done]. etransitivity; [apply Z.lt_le_incl, Hm|]. apply Z.pow_le_mono_r; lia.
  - unfold f32_in, SFleb, f32_0, SFcompare. rewrite andb_true_l. change (Pos.compare_cont Eq m c) with (m ?= c)%positive.
    destruct (Z.compare_spec e (-23)); [|done|lia]. destruct (Pos.compare_spec m c); [done|done|lia].
Qed.
Lemma unit_value c : small 0 c → f32_in f32_0 f32_1 c = true → 0 ≤ value c.
Proof.
  intros S [L _]%andb_true_iff. destruct c as [s| | |[] m e]; try done. destruct S as [? _]. simpl. assert (0 < 2 ^ (e + 149)) by (apply Z.pow_pos_nonneg; lia). lia.
Qed.
Lemma sub_short x y : short x → short y → short (f32_sub x y).
Proof.
  intros Hx Hy. destruct x as [s|s| |s m e], y as [t|t| |t n k]; try done; try (by destruct s, t). apply normalize_short.
Qed.
Lemma rest_within c : within c → f32_in f32_0 f32_1 c = true → within (f32_sub f32_1 c).
Proof.
  intros [S Hs] Hin. pose proof (unit_value c S Hin) as Hv. split; [|apply sub_short; [by apply valid_short|done]].
  assert (small 0 f32_1 ∧ 0 ≤ value f32_1) as [S1 V1] by (vm_compute; repeat split; congruence).
  destruct f32_1_parts as (one & E1 & _). rewrite E1 in *.
  destruct c as [| | |t n k]; [done..|]. destruct S1 as [Ex Mx], S as [Ey My]. unfold f32_sub, SFsub. set (ez := Z.min (-23) k).
  assert (0 < 2 ^ (ez + 149)) by (apply Z.pow_pos_nonneg; lia).
  destruct (aligned false one (-23) ez 0) as [Ax Vx']; [lia..|done|]. destruct (aligned t n k ez 0) as [Ay Vy']; [lia..|done|].
  rewrite Vx' in V1. rewrite Vy' in Hv. apply normalize_signed; [lia..|]. nia.
Qed.

(** ** Look-at ranges *)

Lemma mul_number x y : is_finite x = true → is_finite y = true → number (f32_mul x y) ∧ short (f32_mul x y).
Proof.
  intros Fx Fy. destruct x as [s| | |s m e], y as [t| | |t n k]; try done. split; [by apply round_aux_number|by apply round_short].
Qed.
Lemma SFltb_irrefl f : SFltb f f = false.
Proof.
  unfold SFltb. destruct f as [s|s| |s m e]; simpl; [done|by destruct s|done|]. change (Pos.compare_cont Eq m m) with (m ?= m)%positive.
  rewrite Z.compare_refl, Pos.compare_refl. by destruct s.
Qed.
Lemma abs_min_below degrees r : short degrees → range_ok r → let x := f32_min (SFabs degrees) (input_max_degrees r) in
  short x ∧ weight_ok x ∧ SFltb (input_max_degrees r) x = false.
Proof.
  intros Hd [[Hs Hi] _]. pose proof (range_finite (f32_of_Z 180) _ ltac:(vm_refl) Hi) as Wi. set (i := input_max_degrees r) in *. clearbody i. cbv zeta.
  assert (f32_min (SFabs degrees) i = if SFltb i (SFabs degrees) then i else match degrees with S754_nan => i | _ => SFabs degrees end) as -> by (by destruct degrees, i).
  destruct (SFltb i (SFabs degrees)) eqn:E; [split_and!; [done..|apply SFltb_irrefl]|]. destruct Wi as [Fi _].
  destruct degrees as [|s| |s m e]; [done|by destruct i|split_and!; [done|by apply (range_finite (f32_of_Z 180))|apply SFltb_irrefl]|done].
Qed.
Lemma range_map_number r degrees : range_ok r → short degrees → number (range_map r degrees) ∧ short (range_map r degrees).
Proof.
  intros Hr Hd. pose proof Hr as [[Hs Hi] [Ho Hout]]. destruct (range_finite (f32_of_Z 180) _ ltac:(vm_refl) Hi) as [Fi Ni].
  destruct (range_finite (f32_of_Z 180) _ ltac:(vm_refl) Hout) as [Fo _]. unfold range_map. destruct (SFleb _ F32_EPSILON) eqn:Ee.
  { destruct (SFleb (SFabs degrees) _); [done|]. split; [by destruct (output_scale r)|done]. }
  apply mul_number; [|done]. destruct (abs_min_below degrees r Hd Hr) as (Sx & [Fx Nx] & Lx). set (x := f32_min _ _) in *.
  destruct (input_max_degrees r) as [s| | |s n k]; [done..|]. destruct x as [t| | |t m e]; try done. destruct Sx as [Hm _].
  assert (s = false) as -> by (by destruct s). assert (t = false) as -> by (by destruct t).
  apply (div_bound false m e false n k 0); [done| |lia]. unfold SFltb, SFcompare in Lx. destruct (Z.compare_spec k e); [lia|done|lia].
Qed.

(** ** The procedural values *)

Section weights.
Context `{Sine, !SineLaws, HashOrder, !HashOrderLaws}.

Definition values_ok (values : gmap string f32) : Prop := map_Forall (λ _ v, within v) values.

Lemma within_1 : within f32_1.
Proof. split; [vm_compute; repeat split; congruence|by apply valid_short]. Qed.
Lemma within_0 : within f32_0.
Proof. done. Qed.
Lemma sin_within f : is_finite f = true → within (f32_sin f).
Proof.
  intros Hf. destruct (sin_unit f Hf) as (V & F & L). split; [|by apply valid_short]. assert (valid (SFabs (f32_sin f))) as Va by (by destruct (f32_sin f)).
  apply SFleb_value in L; [|done|vm_refl|by destruct (f32_sin f)|done]. assert (value f32_1 = 2 ^ (0 + 149)) as E1 by vm_refl. rewrite E1 in L.
  destruct (f32_sin f) as [| | |s m e]; try done. destruct (upto_value 0 (S754_finite false m e)) as [S _ _]; [lia|done|done| |exact S].
  apply canonical_f32 in V as (? & _). split; [|exact L]. simpl. assert (0 < 2 ^ (e + 149)) by (apply Z.pow_pos_nonneg; lia). lia.
Qed.

Lemma blink_angle_finite time : is_finite time = true → valid time →
  is_finite (f32_mul (f32_div (rem_euclid time (f32_lit 42 10)) (f32_lit 18 100)) F32_PI) = true.
Proof.
  intros Ft Vt. destruct (rem_euclid_small 3 time (f32_lit 42 10)) as (S & V & _); [done|vm_refl|done|vm_compute; repeat split; congruence|by vm_compute|lia|].
  assert (∃ n, f32_lit 18 100 = S754_finite false n (-26)) as (n & ->) by (exists 12079596%positive; vm_refl).
  assert (∃ p, F32_PI = S754_finite false p (-22) ∧ Zpos p < 2 ^ 24) as (p & -> & Hp) by (exists 13176795%positive; split; [vm_refl|done]).
  set (phase := rem_euclid _ _) in *. clearbody phase. destruct phase as [s| | |s m e]; try done; try (by destruct s).
  apply canonical_f32 in V as (_ & Hm & _). destruct S as [He _]. destruct (div_bound s m e false n (-26) 30) as (F & _ & B); [done|lia|lia|].
  destruct (f32_div _ _) as [t| | |t k j]; try done. destruct B as [Hk Hj]. unfold f32_mul, SFmul. apply round_any_finite; [done|lia|].
  assert (Zdigits2 (Zpos (k * p)) ≤ 48); [|lia]. apply digits_le; [done|]. rewrite Pos2Z.inj_mul. change (2 ^ 48) with (2 ^ 24 * 2 ^ 24). nia.
Qed.

Lemma blink_ok expressions time values : is_finite time = true → valid time → values_ok values → values_ok (blink_value expressions time values).
Proof.
  intros Ft Vt Hv. unfold blink_value. destruct (bool_decide _); [|done]. destruct (SFltb _ _); [|done]. apply map_Forall_insert_2; [|done].
  apply sin_within, blink_angle_finite; done.
Qed.
Lemma look_ok look_at yaw pitch values : (∀ l, look_at = Some l → range_ok (horizontal_outer l) ∧ range_ok (vertical_down l) ∧ range_ok (vertical_up l)) →
  short yaw → short pitch → values_ok values → values_ok (look_values look_at yaw pitch values).
Proof.
  intros Hl Hy Hp Hv. unfold look_values. destruct look_at as [l|]; [|done]. destruct (Hl l eq_refl) as (R1 & R2 & R3). destruct (la_kind l); [done|].
  assert (∀ r d, range_ok r → short d → within (f32_clamp (range_map r d) f32_0 f32_1)) as Hc.
  { intros r d Hr Hd. destruct (range_map_number r d Hr Hd). by apply clamp_within. }
  destruct (SFleb f32_0 pitch); (apply map_Forall_insert_2; [by apply Hc|]; apply map_Forall_insert_2; [by apply Hc|done]).
Qed.
Lemma override_ok values names mode weight : within weight → values_ok values → values_ok (override_procedural values names mode weight).
Proof.
  intros Hw Hv. unfold override_procedural. assert (∀ factor, override_factor mode weight = Some factor → within factor) as Hf.
  { intros factor. destruct mode; [done|intros [= <-]; apply within_0|]. intros [= <-]. destruct (clamp_within weight) as [C1 C2]; [|apply Hw|by apply rest_within].
    pose proof (within_finite _ Hw). by destruct weight. }
  destruct (override_factor mode weight) as [factor|]; [|done]. specialize (Hf factor eq_refl). revert values Hv.
  induction names as [|name names IH]; intros values Hv; simpl; [done|]. apply IH. intros k v Hk. destruct (decide (name = k)) as [->|Hne].
  - rewrite lookup_alter_eq in Hk. destruct (values !! k) as [u|] eqn:Eu; [|done]. injection Hk as <-. apply within_mul; [by eapply Hv|done].
  - rewrite lookup_alter_ne in Hk by done. by eapply Hv.
Qed.

Definition look_ranges (look_at : option CpuLookAt) : Prop :=
  ∀ l, look_at = Some l → range_ok (horizontal_outer l) ∧ range_ok (vertical_down l) ∧ range_ok (vertical_up l).

Lemma procedural_ok expressions selected time look_at yaw pitch : is_finite time = true → valid time → look_ranges look_at → short yaw → short pitch →
  values_ok (procedural_expression_values expressions selected time look_at yaw pitch).
Proof.
  intros Ft Vt Hl Hy Hp. unfold procedural_expression_values. set (values := look_values _ _ _ _). assert (values_ok values) as Hv.
  { apply look_ok; [done..|]. apply blink_ok; [done..|]. unfold selected_value. destruct (_ && _); [apply map_Forall_singleton, within_1|apply map_Forall_empty]. }
  destruct (expressions !! selected) as [e|]; [|done].
  assert (within (default f32_0 (values !! selected))) by (destruct (values !! selected) as [v|] eqn:E; [by eapply Hv|apply within_0]).
  do 3 (apply override_ok; [done|]). done.
Qed.

(** ** Adding up *)

(** A number that is not negative. *)
Definition above (f : f32) : Prop := number f ∧ SFltb f f32_0 = false ∧ short f.

Lemma above_sign f : number f → short f → match f with S754_infinity s | S754_finite s _ _ => s = false | _ => True end → above f.
Proof. intros Hn Hs Hf. split; [done|]. split; [|done]. destruct f; [done|by subst|done|by subst]. Qed.
Lemma sign_above f : above f → match f with S754_infinity s | S754_finite s _ _ => s = false | _ => True end.
Proof. intros (_ & Hl & _). destruct f as [|[]| |[]]; done. Qed.
Lemma above_add x y : above x → above y → above (f32_add x y).
Proof.
  intros Hx Hy. pose proof (sign_above _ Hx) as Sx. pose proof (sign_above _ Hy) as Sy. destruct Hx as (Nx & _ & Hx), Hy as (Ny & _ & Hy).
  destruct x as [s|s| |s m e], y as [t|t| |t n k]; try done; subst; try (apply above_sign; done).
  - apply above_sign; by destruct s, t.
  - unfold f32_add, SFadd. set (ez := Z.min e k). simpl cond_Zopp. apply above_sign; [apply normalize_number|apply normalize_short|].
    set (a := (shl_align m e ez).1). set (b := (shl_align n k ez).1). change (binary_normalize 24 128 (Zpos a + Zpos b) ez false) with (binary_round 24 128 false (a + b) ez).
    clearbody a b. unfold binary_round. destruct (shl_align _ _ _) as [mz ze]. pose proof (round_sign false (Zpos mz) ze loc_Exact). by destruct (binary_round_aux _ _ _ _ _ _).
Qed.
Lemma above_mul v w : is_finite v = true → above v → weight_ok w → above (f32_mul v w).
Proof.
  intros Fv Hv [Fw Lw]. destruct (mul_number v w Fv Fw) as [N S]. apply above_sign; [done..|]. pose proof (sign_above _ Hv) as Sv.
  destruct v as [s| | |s m e], w as [t| | |t n k]; try done. simpl in Sv. subst s. assert (t = false) as -> by (by destruct t).
  unfold f32_mul, SFmul. pose proof (round_sign (xorb false false) (Zpos (m * n)) (e + k) loc_Exact). by destruct (binary_round_aux _ _ _ _ _ _).
Qed.
Lemma unit_above v : within v → f32_in f32_0 f32_1 v = true → above v.
Proof.
  intros Hv [L _]%andb_true_iff. pose proof (within_finite _ Hv). destruct Hv as [_ Hs]. apply above_sign; [by destruct v|done|].
  destruct v as [|[]| |[]]; done.
Qed.

Context (expressions : CpuExpressionSet).
Definition bound (key : nat * nat) : Prop := ∃ name e b, expressions !! name = Some e ∧ b ∈ morph_binds e ∧ key = (mb_node b, mb_target b).
Definition weighed : Prop := map_Forall (λ _ e, Forall (λ b, weight_ok (mb_weight b)) (morph_binds e)) expressions.
Context (Hw : weighed).

Definition sums_ok (m : MorphWeights) : Prop := map_Forall (λ key w, above w ∧ bound key) m.

Lemma add_expression_ok result entry : within entry.2 → sums_ok result → sums_ok (add_expression expressions result entry).
Proof.
  intros He Hr. unfold add_expression. destruct (expressions !! entry.1) as [e|] eqn:Ee; [|done]. cbv zeta. set (value := if is_binary e then _ else _).
  assert (is_finite value = true ∧ above value) as [Fv Av].
  { assert (number entry.2) by (pose proof (within_finite _ He); by destruct entry.2).
    assert (within value ∧ f32_in f32_0 f32_1 value = true) as [W I]; [|split; [by apply within_finite|by apply unit_above]].
    unfold value. destruct (is_binary e); [destruct (SFleb _ _); [split; [apply within_1|vm_refl]|split; [apply within_0|vm_refl]]|].
    by apply clamp_within; [|apply He]. }
  clearbody value. pose proof (Hw _ _ Ee) as Hb. simpl in Hb.
  assert (∀ binds, (∀ b, b ∈ binds → b ∈ morph_binds e) → ∀ result, sums_ok result → sums_ok (foldl (add_bind value) result binds)) as Hgen; [|by apply Hgen].
  clear Hr result. induction binds as [|b binds IH]; intros Hin result Hr; simpl; [done|]. apply IH; [intros b' Hb'; apply Hin; by right|].
  assert (b ∈ morph_binds e) as Hbe by (apply Hin; left). rewrite Forall_forall in Hb. apply map_Forall_insert_2; [|done]. split.
  - apply above_add; [|by apply above_mul; [..|apply Hb]]. destruct (result !! _) as [w|] eqn:Er; [by destruct (Hr _ _ Er)|done].
  - by exists entry.1, e, b.
Qed.

(** Every weight is a number from 0 to 1, for a target some expression binds. *)
Lemma weights_in_range values : values_ok values →
  map_Forall (λ key w, f32_in f32_0 f32_1 w = true ∧ bound key) (accumulate_morph_weights expressions values).
Proof.
  intros Hv. unfold accumulate_morph_weights. assert (Forall (λ entry, within entry.2) (hash_iter values)) as Hi.
  { rewrite hash_iter_all. apply Forall_forall. intros [k v] Hk%elem_of_map_to_list. by eapply Hv. }
  assert (sums_ok (foldl (add_expression expressions) ∅ (hash_iter values))) as Hs.
  { assert (sums_ok ∅) as Hnone by apply map_Forall_empty. revert Hnone. generalize (∅ : MorphWeights). induction Hi as [|entry l He _ IH]; intros m Hm; simpl; [done|].
    apply IH. by apply add_expression_ok. }
  intros key w Hk. rewrite lookup_fmap in Hk. destruct (_ !! key) as [u|] eqn:Eu; [|done]. injection Hk as <-. destruct (Hs _ _ Eu) as [(N & _ & S) Hb].
  split; [|done]. by apply clamp_within.
Qed.
End weights.
