(* ===== verification/VrmFrame.v ===== *)
(** * What a frame of a loaded character is (skid-monitor-fe, vrm/runtime.rs, vrm/loader.rs)

    [frame_drawn]: for a model the loader accepts, evaluating a frame never
    panics, whatever the state, the expression, the angles and the cross-fade;
    every node is placed by its parent's transform times its own, every draw
    gets the matrices of its skin, and every morph weight is in [0, 1] and of
    a target that exists. *)

From S2P Require Import Prelude RustStr Otlp RustFloat FeProfile Json VrmJson VrmMtoon VrmGlb VrmOrder VrmGraph VrmBuffers VrmHumanoid VrmRig VrmSpring VrmAnimation VrmFloat VrmPlayback VrmMix VrmScene VrmDrawable VrmShader VrmLoad VrmModel VrmRuntime VrmWeights.

(** ** Evaluations that do not panic *)

Definition yields {A} (m : option A) (P : A → Prop) : Prop := ∃ a, m = Some a ∧ P a.

Lemma yields_some {A} (a : A) (P : A → Prop) : P a → yields (Some a) P.
Proof. intros Ha. by exists a. Qed.
Lemma yields_bind {A B} (m : option A) (k : A → option B) P Q : yields m P → (∀ a, P a → yields (k a) Q) → yields (m ≫= k) Q.
Proof. intros (a & -> & Ha) Hk. by apply Hk. Qed.
Lemma yields_impl {A} (m : option A) (P Q : A → Prop) : yields m P → (∀ a, P a → Q a) → yields m Q.
Proof. intros (a & -> & Ha) HQ. exists a. auto. Qed.
Lemma yields_lookup {A} (l : list A) i : (i < length l)%nat → yields (l !! i) (λ x, l !! i = Some x).
Proof. intros [x Hx]%lookup_lt_is_Some_2. by exists x. Qed.
Lemma yields_set_at {A} i (x : A) l : (i < length l)%nat → yields (set_at i x l) (λ k, k = <[i := x]> l).
Proof. intros Hi. unfold set_at. apply Nat.ltb_lt in Hi. rewrite Hi. by apply yields_some. Qed.
Lemma yields_mapM {A B} (f : A → option B) P (Q : A → B → Prop) l : Forall P l → (∀ a, P a → yields (f a) (Q a)) →
  yields (mapM f l) (Forall2 Q l).
Proof.
  intros Hl Hf. induction Hl as [|a l Ha _ IH]; [by apply yields_some|]. destruct (Hf a Ha) as (b & Eb & Hb), IH as (k & Ek & Hk).
  exists (b :: k). simpl. rewrite Eb, Ek. split; [done|by constructor].
Qed.

(** ** A frame of a scene *)

Record CpuVrmFrame (Mat : Type) := { pose_matrices_of : list (list Mat); fr_morph_weights : MorphWeights }.
Arguments pose_matrices_of {Mat} c.
Arguments fr_morph_weights {Mat} c.

Section scene_frame.
Context {Mat : Type} `{Glam, GlamPose, !Transforms NodeTransform Mat, !GlamMesh Mat, !GlamFrame Mat, Sine, HashOrder}.

Definition rig_of (s : CpuVrmScene Mat) : RuntimeRig :=
  {| rr_nodes := vs_nodes s; rr_traversal := vs_traversal s; rr_animations := vs_animations s; rr_expressions := vs_expressions s;
     rr_look_at := vs_look_at s; rr_constraints := vs_constraints s; rr_springs := vs_springs s; rr_colliders := vs_colliders s |}.

(** The matrices of a draw: one for every joint of its skin, or its node's. *)
Definition draw_matrices (skins : list (CpuSkin Mat)) (worlds : list Mat) (draw : CpuDraw) : option (list Mat) :=
  match dr_skin draw with
  | Some skin_index =>
    skin ← skins !! skin_index;
    mapM (λ ji, world ← worlds !! ji.1; Some (mat_mul world ji.2)) (zip (sk_joints skin) (inverse_bind skin))
  | None => world ← worlds !! dr_node draw; Some [world]
  end.

Definition scene_frame (s : CpuVrmScene Mat) (input : FrameInput) (state : VrmRuntimeState) : option (CpuVrmFrame Mat * VrmRuntimeState) :=
  frame ← evaluate_frame (rig_of s) input state;
  matrices ← mapM (draw_matrices (vs_skins s) (fp_worlds frame.1)) (sc_draws (meshes s));
  Some ({| pose_matrices_of := matrices; fr_morph_weights := fp_morph_weights frame.1 |}, frame.2).

Definition pose_input (time : f32) : FrameInput :=
  {| fi_time := time; crossfade_seconds := f32_lit 25 100; fi_expression := EmptyString; look_yaw_degrees := f32_0; look_pitch_degrees := f32_0;
     spring_bone_enabled := false; look_at_enabled := false |}.
Definition pose_matrices (s : CpuVrmScene Mat) (time : f32) : option (list (list Mat)) :=
  frame ← scene_frame s (pose_input time) default_state; Some (pose_matrices_of frame.1).
End scene_frame.

Section frame.
Context {Mat : Type} `{Glam, GlamPose, !Transforms NodeTransform Mat, !GlamMesh Mat, !GlamFrame Mat}.
Context (nodes : list (CpuNode NodeTransform)) (traversal : list nat).

(** ** The order of the nodes *)

(** Each node once, after its parent.  The root of a scene may have a parent
    outside of it, whose transform is never set. *)
Record ordered : Prop := {
  or_nodup : NoDup traversal;
  or_range : Forall (λ i, i < length nodes)%nat traversal;
  or_parents : parents_in_range nodes;
  or_order l1 i l2 p : traversal = l1 ++ i :: l2 → parent_at nodes i = Some p → p ∈ l1 ∨ p ∉ traversal;
}.
Context (Ho : ordered).

(** A node is where its parent's transform and its own put it. *)
Definition placed (transforms : list NodeTransform) (worlds : list Mat) (i : nat) : Prop := ∃ node t above,
  nodes !! i = Some node ∧ transforms !! i = Some t ∧ worlds !! i = Some (mat_mul above (rest_matrix t)) ∧
  match parent node with None => above = mat_identity | Some p => worlds !! p = Some above end.

Lemma set_world_placed transforms worlds l1 i l2 : traversal = l1 ++ i :: l2 → length transforms = length nodes →
  length worlds = length nodes → (∀ j, j ∈ l1 → placed transforms worlds j) →
  yields (set_world nodes transforms worlds i) (λ w, length w = length nodes ∧ ∀ j, j ∈ l1 ++ [i] → placed transforms w j).
Proof.
  intros El Lt Lw Hp. pose proof (or_range Ho) as R. rewrite El, Forall_app, Forall_cons in R. destruct R as (R1 & Ri & _).
  pose proof (or_nodup Ho) as N. rewrite El in N. apply NoDup_app in N as (_ & N & _). unfold set_world.
  eapply yields_bind; [by apply yields_lookup|]. intros node Hn.
  eapply (yields_bind _ _ (λ above, match parent node with None => above = mat_identity | Some p => p ≠ i ∧ worlds !! p = Some above end)).
  { destruct (parent node) as [p|] eqn:Ep; [|by apply yields_some]. assert (parent_at nodes i = Some p) as Hup by (unfold parent_at; by rewrite Hn).
    assert (p ≠ i). { intros ->. destruct (or_order Ho _ _ _ _ El Hup) as [Hin|Hout]; [apply (N i Hin); left|]. apply Hout. rewrite El. set_solver. }
    eapply yields_impl; [apply yields_lookup; rewrite Lw; by eapply (or_parents Ho)|].
    intros above Hab. by split. }
  intros above Hab. eapply yields_bind; [apply yields_lookup; lia|]. intros t Ht. eapply yields_impl; [apply yields_set_at; lia|]. intros w ->.
  split; [by rewrite length_insert|]. intros j [Hj|Hj%list_elem_of_singleton]%elem_of_app; [|subst j].
  - assert (i ≠ j) by (intros <-; apply (N i Hj); left). destruct (Hp j Hj) as (n' & t' & a' & N' & T' & W' & A'). exists n', t', a'.
    rewrite list_lookup_insert_ne by done. split_and!; [done..|]. destruct (parent n') as [p|] eqn:Ep; [|done].
    rewrite list_lookup_insert_ne; [done|]. intros <-. apply list_elem_of_split in Hj as (k1 & k2 & ->).
    destruct (or_order Ho k1 j (k2 ++ i :: l2) i) as [Hin|Hout]; [by rewrite El, <- app_assoc|unfold parent_at; by rewrite N'|..].
    + apply (N i); [apply elem_of_app; by left|left].
    + apply Hout. rewrite El. set_solver.
  - exists node, t, above. rewrite list_lookup_insert_eq by lia. split_and!; [done..|]. destruct (parent node) as [p|]; [|done].
    destruct Hab as [Hne Hw]. by rewrite list_lookup_insert_ne.
Qed.

(** The pose of all nodes. *)
Record pose_ok (transforms : list NodeTransform) (worlds : list Mat) : Prop := {
  ps_transforms : length transforms = length nodes;
  ps_worlds : length worlds = length nodes;
  ps_placed i : i ∈ traversal → placed transforms worlds i;
}.

Lemma compute_worlds_ok transforms : length transforms = length nodes → yields (compute_worlds nodes traversal transforms) (pose_ok transforms).
Proof.
  intros Lt. unfold compute_worlds. assert (∀ l2 l1 worlds, traversal = l1 ++ l2 → length worlds = length nodes →
    (∀ j, j ∈ l1 → placed transforms worlds j) → yields (set_worlds nodes transforms l2 worlds) (pose_ok transforms)) as Hgen.
  { induction l2 as [|i l2 IH]; intros l1 worlds El Lw Hp; simpl.
    - apply yields_some. split; [done..|]. intros i Hi. apply Hp. by rewrite El, app_nil_r in Hi.
    - eapply yields_bind; [by eapply set_world_placed|]. intros w [Lw' Hp']. apply (IH (l1 ++ [i])); [by rewrite <- app_assoc|done..]. }
  apply (Hgen traversal []); [done|apply repeat_length|]. intros j Hj. by apply elem_of_nil in Hj.
Qed.

Lemma set_rotation_ok i q transforms : (i < length nodes)%nat → length transforms = length nodes →
  yields (set_rotation_at i q transforms) (λ k, length k = length nodes).
Proof.
  intros Hi Lt. unfold set_rotation_at. eapply yields_bind; [apply yields_lookup; lia|]. intros t _.
  eapply yields_impl; [apply yields_set_at; lia|]. intros k ->. by rewrite length_insert.
Qed.
Lemma position_ok transforms worlds i : pose_ok transforms worlds → (i < length nodes)%nat → yields (position_of worlds i) (λ _, True).
Proof. intros P Hi. eapply yields_bind; [apply yields_lookup; by rewrite (ps_worlds _ _ P)|]. intros w _. by apply yields_some. Qed.
Lemma parent_rotation_ok transforms worlds i node : pose_ok transforms worlds → nodes !! i = Some node → yields (parent_rotation node worlds) (λ _, True).
Proof.
  intros P Hn. unfold parent_rotation. destruct (parent node) as [p|] eqn:Ep; [|by apply yields_some].
  eapply yields_bind; [apply yields_lookup; rewrite (ps_worlds _ _ P); eapply (or_parents Ho i)|intros w _; by apply yields_some].
  unfold up, parent_at. by rewrite Hn.
Qed.

(** ** Constraints and look-at *)

Lemma constraint_target_ok transforms worlds c a b d : pose_ok transforms worlds → (cn_source c < length nodes)%nat → (destination c < length nodes)%nat →
  yields (constraint_target nodes worlds c a b d) (λ _, True).
Proof.
  intros P Hs Hd. unfold constraint_target. destruct (cn_kind c); [by apply yields_some..|].
  eapply yields_bind; [by eapply position_ok|]. intros dp _. eapply yields_bind; [by eapply position_ok|]. intros sp _.
  destruct (SFleb _ _); [by apply yields_some|]. eapply yields_bind; [by apply yields_lookup|]. intros node Hn.
  eapply yields_bind; [eapply parent_rotation_ok; [exact P|exact Hn]|]. intros q _. by apply yields_some.
Qed.
Definition constraint_in (c : CpuNodeConstraint) : Prop := (cn_source c < length nodes ∧ destination c < length nodes)%nat.
Lemma apply_constraint_ok transforms worlds c : pose_ok transforms worlds → constraint_in c →
  yields (apply_constraint nodes traversal c transforms worlds) (λ tw, pose_ok tw.1 tw.2).
Proof.
  intros P [Hs Hd]. unfold apply_constraint. do 2 (eapply yields_bind; [by apply yields_lookup|]; intros ? _).
  eapply yields_bind; [apply yields_lookup; by rewrite (ps_transforms _ _ P)|]. intros t _.
  eapply yields_bind; [by eapply constraint_target_ok|]. intros target _. eapply yields_bind; [apply set_rotation_ok; [done|apply P]|]. intros k Lk.
  eapply yields_bind; [by apply compute_worlds_ok|]. intros w P'. by apply yields_some.
Qed.
Lemma apply_constraints_ok constraints transforms worlds : pose_ok transforms worlds → Forall constraint_in constraints →
  yields (apply_constraints nodes traversal constraints transforms worlds) (λ tw, pose_ok tw.1 tw.2).
Proof.
  intros P F. revert transforms worlds P. induction F as [|c constraints Hc _ IH]; intros transforms worlds P; simpl; [by apply yields_some|].
  eapply yields_bind; [by apply apply_constraint_ok|]. intros tw P'. by apply IH.
Qed.

Definition eyes_in (look_at : CpuLookAt) : Prop := ∀ eye, left_eye look_at = Some eye ∨ right_eye look_at = Some eye → (eye < length nodes)%nat.
Lemma turn_eye_ok look_at yaw pitch eye is_left transforms : (∀ e, eye = Some e → (e < length nodes)%nat) → length transforms = length nodes →
  yields (turn_eye (Mat := Mat) nodes look_at yaw pitch eye is_left transforms) (λ k, length k = length nodes).
Proof.
  intros He Lt. unfold turn_eye. destruct eye as [e|]; [|by apply yields_some]. specialize (He e eq_refl).
  eapply yields_bind; [by apply yields_lookup|]. intros node _. by apply set_rotation_ok.
Qed.
Lemma bone_look_at_ok look_at yaw pitch transforms : eyes_in look_at → length transforms = length nodes →
  yields (apply_bone_look_at (Mat := Mat) nodes look_at yaw pitch transforms) (λ k, length k = length nodes).
Proof.
  intros He Lt. unfold apply_bone_look_at. destruct (la_kind look_at); [|by apply yields_some].
  eapply yields_bind; [apply turn_eye_ok; [intros e E; apply He; by left|done]|]. intros k Lk. apply turn_eye_ok; [intros e E; apply He; by right|done].
Qed.

(** ** Spring bones *)

Lemma collide_all_ok transforms worlds colliders indices position bone radius tail : pose_ok transforms worlds →
  Forall (λ c, col_node c < length nodes)%nat colliders →
  yields (collide_all colliders indices position bone radius worlds tail) (λ _, True).
Proof.
  intros P Hc. revert tail. induction indices as [|i indices IH]; intros tail; simpl; [by apply yields_some|].
  eapply (yields_bind _ _ (λ _, True)); [|intros t _; apply IH]. destruct (colliders !! i) as [c|] eqn:Ei; [|by apply yields_some].
  unfold collide. eapply yields_bind; [apply yields_lookup; rewrite (ps_worlds _ _ P); rewrite Forall_lookup in Hc; by eapply Hc|].
  intros m _. destruct (shape c); by apply yields_some.
Qed.

(** A state for every joint but the last of every spring. *)
Definition joints_fit (joints : list (list SpringJointState)) (springs : list CpuSpring) : Prop :=
  Forall2 (λ states s, length states = length (sp_joints s) - 1)%nat joints springs.
Definition spring_in (s : CpuSpring) : Prop :=
  Forall (λ j, sj_node j < length nodes)%nat (sp_joints s) ∧ (∀ c, center s = Some c → (c < length nodes)%nat).

Definition sprung_ok (springs : list CpuSpring) (pose : SpringPose) : Prop :=
  pose_ok (pe_transforms pose) (pe_worlds pose) ∧ joints_fit (pe_joints pose) springs.

Lemma update_joint_ok springs colliders delta indices centers si ji window pose s :
  Forall (λ c, col_node c < length nodes)%nat colliders → length centers = length springs → springs !! si = Some s →
  (ji < length (sp_joints s) - 1)%nat → (sj_node window.1 < length nodes)%nat → (sj_node window.2 < length nodes)%nat → sprung_ok springs pose →
  yields (update_joint nodes traversal colliders delta indices centers si ji window pose) (sprung_ok springs).
Proof.
  intros Hc Lc Hs Hj H1 H2 [P J]. unfold update_joint. destruct window as [joint tail_joint]. simpl in H1, H2.
  eapply yields_bind; [by eapply position_ok|]. intros jp _. eapply yields_bind; [by eapply position_ok|]. intros at_ _.
  destruct (SFleb _ _); [by apply yields_some|]. pose proof (Forall2_length _ _ _ J) as Lj. assert (si < length springs)%nat by (by eapply lookup_lt_Some).
  eapply yields_bind; [apply yields_lookup; lia|]. intros states Hst. pose proof (Forall2_lookup_lr _ _ _ _ _ _ J Hst Hs) as Ls. simpl in Ls.
  eapply yields_bind; [apply yields_lookup; lia|]. intros st _. eapply yields_bind; [apply yields_lookup; lia|]. intros center _.
  eapply yields_bind; [apply yields_lookup; by rewrite (ps_worlds _ _ P)|]. intros jw _.
  eapply yields_bind; [by eapply collide_all_ok|]. intros tail _. eapply yields_bind; [by apply yields_lookup|]. intros node Hn.
  eapply yields_bind; [eapply parent_rotation_ok; [exact P|exact Hn]|]. intros above _. eapply yields_bind; [apply set_rotation_ok; [done|apply P]|]. intros k Lk.
  eapply yields_bind; [by apply compute_worlds_ok|]. intros w P'. apply yields_some. split; [done|]. simpl. unfold joints_fit.
  rewrite <- (list_insert_id springs si s) by done. apply Forall2_insert; [done|]. by rewrite length_insert.
Qed.

Lemma windows2_lookup {A} (l : list A) k a b : windows2 l !! k = Some (a, b) → l !! k = Some a ∧ l !! S k = Some b ∧ (k < length l - 1)%nat.
Proof.
  unfold windows2. intros (E1 & E2)%lookup_zip_Some. destruct l as [|x l]; [done|]. simpl in E2. split_and!; [done..|].
  apply lookup_lt_Some in E2. simpl. lia.
Qed.
Lemma update_joints_ok springs colliders delta indices centers si windows done_ pose s :
  Forall (λ c, col_node c < length nodes)%nat colliders → length centers = length springs → springs !! si = Some s → spring_in s →
  windows2 (sp_joints s) = done_ ++ windows → sprung_ok springs pose →
  yields (update_joints nodes traversal colliders delta indices centers si (length done_) windows pose) (sprung_ok springs).
Proof.
  intros Hc Lc Hs [Hj _]. revert done_ pose. induction windows as [|[a b] windows IH]; intros done_ pose Ew P; cbn [update_joints]; [by apply yields_some|].
  destruct (windows2_lookup (sp_joints s) (length done_) a b) as (Ha & Hb & Hk); [by rewrite Ew, lookup_app_r, Nat.sub_diag by lia|].
  rewrite Forall_lookup in Hj. eapply yields_bind; [eapply update_joint_ok; [done..|exact (Hj _ _ Ha)|exact (Hj _ _ Hb)|done]|]. intros pose' P'.
  specialize (IH (done_ ++ [(a, b)]) pose'). rewrite length_app, Nat.add_1_r in IH. apply IH; [by rewrite <- app_assoc|done].
Qed.
Lemma update_springs_ok all colliders delta centers rest_ done_ pose :
  Forall (λ c, col_node c < length nodes)%nat colliders → length centers = length all → Forall spring_in all → all = done_ ++ rest_ → sprung_ok all pose →
  yields (update_springs nodes traversal colliders delta centers (length done_) rest_ pose) (sprung_ok all).
Proof.
  intros Hc Lc Hs. revert done_ pose. induction rest_ as [|s rest_ IH]; intros done_ pose Ea P; cbn [update_springs]; [by apply yields_some|].
  assert (all !! length done_ = Some s) as Hi by (by rewrite Ea, lookup_app_r, Nat.sub_diag by lia).
  eapply yields_bind; [eapply (update_joints_ok all _ _ _ _ _ _ []); [done..| |done|done]; rewrite Forall_lookup in Hs; by eapply Hs|]. intros pose' P'.
  specialize (IH (done_ ++ [s]) pose'). rewrite length_app, Nat.add_1_r in IH. apply IH; [by rewrite <- app_assoc|done].
Qed.

Lemma windows2_length {A} (l : list A) : length (windows2 l) = (length l - 1)%nat.
Proof. unfold windows2. rewrite length_zip_with. destruct l; [done|]. cbn [tail length]. lia. Qed.
Lemma reset_spring_ok transforms worlds s : pose_ok transforms worlds → spring_in s →
  yields (reset_spring worlds s) (λ states, length states = length (sp_joints s) - 1)%nat.
Proof.
  intros P [Hj Hc]. unfold reset_spring. eapply (yields_bind _ _ (λ _, True)).
  { destruct (center s) as [c|]; [|by apply yields_some]. eapply yields_bind; [apply yields_lookup; rewrite (ps_worlds _ _ P); by apply Hc|].
    intros w _. by apply yields_some. }
  intros inverse _. eapply yields_impl.
  - apply (yields_mapM _ (λ w, sj_node w.2 < length nodes)%nat (λ _ _, True)).
    + apply Forall_lookup. intros k [a b] (_ & Hb & _)%windows2_lookup. rewrite Forall_lookup in Hj. by eapply Hj.
    + intros [a b] Hw. eapply yields_bind; [by eapply position_ok|]. intros p _. by apply yields_some.
  - intros states L%Forall2_length. by rewrite <- L, windows2_length.
Qed.
Lemma fits_spec joints springs : length joints = length springs →
  existsb (λ ss : list SpringJointState * CpuSpring, negb (length ss.1 =? length (sp_joints ss.2) - 1)%nat) (zip joints springs) = false → joints_fit joints springs.
Proof.
  revert springs. induction joints as [|states joints IH]; intros [|s springs] L; try done; [constructor|]. simpl.
  intros [E1%negb_false_iff%Nat.eqb_eq E2]%orb_false_iff. constructor; [done|]. apply IH; [by injection L|done].
Qed.
Lemma spring_bones_ok springs colliders time enabled transforms worlds state : pose_ok transforms worlds → Forall spring_in springs →
  Forall (λ c, col_node c < length nodes)%nat colliders →
  yields (update_spring_bones nodes traversal springs colliders time enabled transforms worlds state)
    (λ r, pose_ok r.1.1 r.1.2 ∧ joints_fit (spring_joints r.2) springs ∧ last_time r.2 = Some time).
Proof.
  intros P Hs Hc. unfold update_spring_bones. destruct (needs_reset _ _ _ _) eqn:E.
  - eapply yields_bind; [eapply yields_mapM; [done|]; intros s; by eapply reset_spring_ok|]. intros joints J. apply yields_some. split_and!; [done| |done].
    by apply Forall2_flip.
  - unfold needs_reset in E. apply orb_false_iff in E as [[_ E1%negb_false_iff%Nat.eqb_eq]%orb_false_iff E2].
    eapply yields_bind; [eapply (yields_mapM _ spring_in (λ _ _, True)); [done|]|].
    { intros s [_ Hcen]. unfold center_matrix. destruct (center s) as [c|]; [|by apply yields_some].
      eapply yields_impl; [apply yields_lookup; rewrite (ps_worlds _ _ P); by apply Hcen|done]. }
    intros centers Lc%Forall2_length. eapply yields_bind; [apply (update_springs_ok springs _ _ _ _ []); [done..|]|].
    + split; [done|by apply fits_spec].
    + intros pose [P' J]. by apply yields_some.
Qed.
End frame.

(** ** The frames of a model that was loaded *)

Section loaded.
Context {Mat : Type} `{JsonFloat, JsonBytes, Glam, GlamPose, !Transforms NodeTransform Mat, !GltfCrate Mat, !GlamWorld Mat}.
Context `{!GlamMesh Mat, ImageDecoder, Naga} (base : string).
Context `{!GlamFrame Mat, Sine, !SineLaws, HashOrder, !HashOrderLaws}.

Lemma graph_ordered doc graph : graph_rooted doc graph → ordered (sg_nodes graph) (sg_traversal graph).
Proof.
  intros ((roots & _ & [Hn Hr Ha Hw Hp Hord Hlead]) & _ & Hpar & _ & _). split; [done| |done|].
  - apply Forall_forall. intros i Hi%Ha. by apply active_lt.
  - intros l1 i l2 p E Hup. destruct (decide (p ∈ sg_traversal graph)) as [Hin|]; [left|by right].
    apply list_elem_of_lookup in Hin as [a Hpa]. apply Hp in Hup. destruct (Hlead a p i Hpa Hup) as (b & Hab & Hb).
    assert (sg_traversal graph !! length l1 = Some i) as Hi by (by rewrite E, lookup_app_r, Nat.sub_diag by lia).
    assert (b = length l1) as -> by (by eapply NoDup_lookup). rewrite E, lookup_app_l in Hpa by done. by eapply list_elem_of_lookup_2.
Qed.

(** What the evaluation relies on. *)
Record rig_ok (rig : RuntimeRig) : Prop := {
  ri_ordered : ordered (rr_nodes rig) (rr_traversal rig);
  ri_clips : Forall playable (rr_animations rig);
  ri_count : (length (rr_animations rig) ≤ MAX_ANIMATION_CLIPS)%nat;
  ri_weights : weighed (rr_expressions rig);
  ri_eyes l : rr_look_at rig = Some l → eyes_in (rr_nodes rig) l;
  ri_ranges : look_ranges (rr_look_at rig);
  ri_constraints : Forall (constraint_in (rr_nodes rig)) (rr_constraints rig);
  ri_colliders : Forall (λ c, col_node c < length (rr_nodes rig))%nat (rr_colliders rig);
  ri_springs : Forall (spring_in (rr_nodes rig)) (rr_springs rig);
}.
(** The numbers of the input are single-precision numbers, the time finite. *)
Record input_ok (input : FrameInput) : Prop := {
  io_finite : is_finite (fi_time input) = true;
  io_time : valid (fi_time input);
  io_crossfade : valid (crossfade_seconds input);
  io_yaw : short (look_yaw_degrees input);
  io_pitch : short (look_pitch_degrees input);
}.

Definition weights_ok (expressions : CpuExpressionSet) (weights : MorphWeights) : Prop :=
  map_Forall (λ key w, f32_in f32_0 f32_1 w = true ∧ bound expressions key) weights.

Lemma rig_frame_ok rig input state : rig_ok rig → input_ok input →
  yields (evaluate_frame (Mat := Mat) rig input state) (λ r, (∃ transforms, pose_ok (rr_nodes rig) (rr_traversal rig) transforms (fp_worlds r.1)) ∧
    weights_ok (rr_expressions rig) (fp_morph_weights r.1) ∧ joints_fit (spring_joints r.2) (rr_springs rig) ∧ last_time r.2 = Some (fi_time input)).
Proof.
  intros R [I1 I2 I3 I4 I5]. unfold evaluate_frame. cbv zeta.
  eapply (yields_bind _ _ (λ t, length t = length (rr_nodes rig))).
  { destruct (mixer_total (rr_animations rig) (fi_time input) (crossfade_seconds input) (rest <$> rr_nodes rig)) as (t & E & L); try apply R; try done.
    exists t. split; [done|]. by rewrite length_fmap in L. }
  intros t0 L0. eapply (yields_bind _ _ (λ t, length t = length (rr_nodes rig))).
  { destruct (rr_look_at rig) as [l|] eqn:El; [|by apply yields_some]. destruct (look_at_enabled input); [|by apply yields_some].
    apply bone_look_at_ok; [by apply R|done]. }
  intros t1 L1. eapply yields_bind; [by apply compute_worlds_ok; [apply R|]|]. intros worlds P.
  eapply yields_bind; [by apply apply_constraints_ok; [apply R| |apply R]|]. intros tw P'.
  eapply yields_bind; [by apply spring_bones_ok; [apply R| |apply R..]|]. intros [[t2 w2] state'] (P2 & J & T). apply yields_some.
  split; [by exists t2|]. split; [|by split]. apply weights_in_range; [apply R|].
  apply procedural_ok; [done..| |done|done]. destruct (look_at_enabled input); [apply R|done].
Qed.

(** The matrices a draw gets. *)
Definition drawn (skins : list (CpuSkin Mat)) (worlds : list Mat) (draw : CpuDraw) (matrices : list Mat) : Prop :=
  match dr_skin draw with
  | None => ∃ world, worlds !! dr_node draw = Some world ∧ matrices = [world]
  | Some k => ∃ skin, skins !! k = Some skin ∧ length matrices = length (sk_joints skin) ∧
      ∀ j joint inverse, sk_joints skin !! j = Some joint → inverse_bind skin !! j = Some inverse →
        ∃ world, worlds !! joint = Some world ∧ matrices !! j = Some (mat_mul world inverse)
  end.

Definition drawable (skins : list (CpuSkin Mat)) (n : nat) (draw : CpuDraw) : Prop :=
  match dr_skin draw with
  | None => (dr_node draw < n)%nat
  | Some k => ∃ skin, skins !! k = Some skin ∧ length (inverse_bind skin) = length (sk_joints skin) ∧ Forall (λ j, j < n)%nat (sk_joints skin)
  end.

Lemma draw_matrices_ok skins worlds draw : drawable skins (length worlds) draw → yields (draw_matrices skins worlds draw) (drawn skins worlds draw).
Proof.
  unfold drawable, draw_matrices, drawn. destruct (dr_skin draw) as [k|].
  - intros (skin & -> & L & F). simpl. eapply yields_impl.
    + apply (yields_mapM _ (λ ji, ji.1 < length worlds)%nat (λ ji m, ∃ world, worlds !! ji.1 = Some world ∧ m = mat_mul world ji.2)).
      * apply Forall_lookup. intros j [joint inverse] (Hj & _)%lookup_zip_Some. rewrite Forall_lookup in F. by eapply F.
      * intros ji Hji. eapply yields_bind; [by apply yields_lookup|]. intros world Hw. apply yields_some. by exists world.
    + intros ms Hms. exists skin. split; [done|]. split; [rewrite <- (Forall2_length _ _ _ Hms), length_zip_with; lia|].
      intros j joint inverse Hj Hi. destruct (Forall2_lookup_l _ _ _ j (joint, inverse) Hms) as (m & Hm & world & Hw & ->); [by apply lookup_zip_Some|].
      by exists world.
  - intros Hn. eapply yields_bind; [by apply yields_lookup|]. intros world Hw. apply yields_some. by exists world.
Qed.

Lemma model_rig s input : model_ok input → with_shader None None None s = assemble (scene_id s) input (meshes s) → rig_ok (rig_of s).
Proof.
  intros M E. destruct s as [id m label nodes traversal skins animations alabel expressions look constraints springs colliders src sl se].
  injection E as -> -> -> -> -> -> -> -> -> -> ->. pose proof (mo_graph _ M) as G. pose proof G as (_ & Hlen & _). split; simpl.
  - by eapply graph_ordered.
  - eapply Forall_impl; [apply M|]. by intros clip [Hc _].
  - apply M.
  - intros name e He. eapply Forall_impl; [by eapply (mo_expressions _ M)|]. by intros b (mesh & _ & _ & Hw).
  - intros l Hl eye He. destruct (mo_look_at _ M l Hl) as [El Er _ _ _ _]. rewrite El, Er in He. rewrite Hlen. destruct He; by eapply (mo_bones _ M).
  - intros l Hl. by destruct (mo_look_at _ M l Hl).
  - destruct (mo_constraints _ M) as [F _]. eapply Forall_impl; [exact F|]. apply constraint_ok_range.
  - eapply Forall_impl; [apply M|]. intros c [Hc _]. by apply active_lt.
  - eapply Forall_impl; [apply M|]. intros c [_ Ha _ _ _ Hc]. split.
    + eapply Forall_impl; [exact Ha|]. intros j. apply active_lt.
    + intros k Hk. apply active_lt. by destruct (Hc k Hk).
Qed.
Lemma model_drawable s input : model_ok input → scene_ok (build_env input) (meshes s) →
  with_shader None None None s = assemble (scene_id s) input (meshes s) →
  Forall (drawable (vs_skins s) (length (vs_nodes s))) (sc_draws (meshes s)).
Proof.
  intros M S E. assert (vs_skins s = in_skins input) as -> by (by injection E). assert (vs_nodes s = sg_nodes (in_graph input)) as -> by (by injection E).
  destruct (mo_graph _ M) as (_ & -> & _ & _ & Lw). eapply Forall_impl; [apply (no_draws _ _ S)|]. intros d [_ (w & Hw) (n & Hn & _) _].
  simpl in Hw. unfold drawable. destruct (dr_skin d) as [k|].
  - destruct Hn as (skin & Hk & _). simpl in Hk. exists skin. split; [done|]. pose proof (mo_skins _ M) as F. rewrite Forall_lookup in F.
    destruct (F k skin Hk) as [_ L J]. split; [done|]. apply Forall_lookup. intros j joint Hj. destruct (lookup_lt_is_Some_2 (inverse_bind skin) j) as [inverse Hi].
    { rewrite L. by eapply lookup_lt_Some. }
    destruct (J j joint inverse Hj Hi) as (world & Hwj & _). rewrite <- Lw. by eapply lookup_lt_Some.
  - rewrite <- Lw. by eapply lookup_lt_Some.
Qed.

(** A frame of a scene: the nodes are placed by their parents, the draws get
    the matrices of their skins, the weights are in range, and the state is
    the one the next frame needs. *)
Record frame_ok (s : CpuVrmScene Mat) (input : FrameInput) (frame : CpuVrmFrame Mat) (state : VrmRuntimeState) : Prop := {
  fo_drawn : ∃ transforms worlds, pose_ok (vs_nodes s) (vs_traversal s) transforms worlds ∧
    Forall2 (drawn (vs_skins s) worlds) (sc_draws (meshes s)) (pose_matrices_of frame);
  fo_weights : weights_ok (vs_expressions s) (fr_morph_weights frame);
  fo_joints : joints_fit (spring_joints state) (vs_springs s);
  fo_time : last_time state = Some (fi_time input);
}.

Lemma frame_is_drawn s input state : loaded_ok base s → input_ok input →
  ∃ frame state', scene_frame s input state = Some (frame, state') ∧ frame_ok s input frame state'.
Proof.
  intros (parts & M & S & _ & E) I. destruct (rig_frame_ok (rig_of s) input state (model_rig s parts M E) I) as ([pose state'] & Ef & (transforms & P) & W & J & T).
  unfold scene_frame. rewrite Ef. simpl. pose proof (model_drawable s parts M S E) as D. simpl in P. rewrite <- (ps_worlds _ _ _ _ P) in D.
  destruct (yields_mapM _ _ _ _ D (draw_matrices_ok (vs_skins s) (fp_worlds pose))) as (matrices & -> & F). simpl.
  eexists _, _. split; [done|]. split; simpl; [by exists transforms, (fp_worlds pose)|done..].
Qed.

(** A frame of a model that was loaded is always drawn: whatever the
    expression, the angles, the cross-fade and the state kept from earlier
    frames, evaluating it does not panic and gives every node in the scene its
    parent's transform times its own, every draw one matrix for each joint of
    its skin or the matrix of its node, and weights from 0 to 1 to morph
    targets that an expression binds. *)
Theorem frame_drawn s input state : loaded_ok base s → input_ok input →
  ∃ frame state', scene_frame s input state = Some (frame, state') ∧ frame_ok s input frame state'.
Proof. apply frame_is_drawn. Qed.
End loaded.

(** ** A frame *)

Module FrameDemo.
#[global] Instance demo_frame : GlamFrame () :=
  {| mat_inverse m := m; mat_rotation _ := quat_identity; axis_lengths _ := (f32_1, f32_1, f32_1); quat_rotate _ v := v;
     from_rotation_arc _ _ := quat_identity; from_rotation_x _ := quat_identity; from_rotation_y _ := quat_identity; v3_length _ := f32_1 |}.
#[global] Instance demo_sine : Sine := λ _, f32_0.
#[global] Instance demo_sine_laws : SineLaws.
Proof. by intros f _. Qed.
#[global] Instance demo_order : HashOrder := map_to_list.
#[global] Instance demo_order_laws : HashOrderLaws.
Proof. by intros m. Qed.
Definition input : FrameInput :=
  {| fi_time := f32_1; crossfade_seconds := f32_0; fi_expression := "happy"; look_yaw_degrees := f32_of_Z 10; look_pitch_degrees := f32_0;
     spring_bone_enabled := true; look_at_enabled := true |}.
End FrameDemo.

#[local] Transparent gmap_empty.

Lemma frame_drawn_witness : ∃ s : CpuVrmScene (),
  decode_bytes ModelDemo.bytes ModelDemo.files [] 1 = Some (Ok s) ∧
  ∃ frame state', scene_frame s FrameDemo.input default_state = Some (frame, state') ∧ frame_ok s FrameDemo.input frame state'.
Proof.
  destruct (bytes_accepted ModelDemo.bytes ModelDemo.files [] 1) as (r & E & Hok).
  assert (match decode_bytes ModelDemo.bytes ModelDemo.files [] 1 with Some (Ok _) => true | _ => false end = true) as Hr by (lazy; reflexivity).
  rewrite E in Hr. destruct r as [s|e]; [|discriminate Hr]. exists s. split; [exact E|]. destruct (Hok s eq_refl) as (input & _ & M & S & Es).
  apply (frame_drawn "" s FrameDemo.input default_state).
  - exists input. split; [exact M|]. split; [exact S|]. rewrite Es. split; reflexivity.
  - split; [vm_compute; reflexivity..|by apply valid_short|by apply valid_short].
Defined.
