(* ===== verification/VrmCache.v ===== *)
(** * The character that is loaded (skid-monitor-fe, components/avatar/model.rs)

    [AvatarModelCache] asks a loader thread for the model of the current
    profile, one request at a time, and takes the answer if it is still the
    one that is wanted.  A run is a sequence of [Event]s: the interface
    synchronises the cache or invalidates it, the thread takes a request,
    answers it, or stops.  [run_shows]: whatever the order, what is
    shown was decoded for the paths that are requested now; [cache_settles]:
    three turns are enough to show it. *)

From S2P Require Import Prelude RustStr Otlp RustFloat FeAlert FeEdge FeProfile Json VrmJson VrmMtoon VrmGlb VrmOrder VrmGraph VrmBuffers VrmHumanoid VrmRig VrmSpring VrmAnimation VrmPlayback VrmScene VrmDrawable VrmShader VrmLoad VrmModel.

Definition MAX_IMAGE_FILE_BYTES : Z := 32 * 1024 * 1024.
Definition MAX_MODEL_DIMENSION : Z := 4096.
Definition MAX_MODEL_DECODE_BYTES : Z := 64 * 1024 * 1024.

(** ** The image crate and egui *)

Record Limits := { max_image_width : Z; max_image_height : Z; max_alloc : Z }.
(** [image::ImageReader]: decoding, to RGBA, what was read of a file whose
    format its name gives. *)
Class ImageReader := reader_decode : string → Limits → result string (list byte) → result string (Z * Z * list byte).
(** It keeps its limits, and an RGBA image has four bytes a pixel. *)
Class ImageReaderLaws `{ImageReader} : Prop := reader_limits path l contents w h pixels :
  reader_decode path l contents = Ok (w, h, pixels) →
  0 ≤ w ≤ max_image_width l ∧ 0 ≤ h ≤ max_image_height l ∧ zlen pixels = w * h * 4.

Record ColorImage := { ci_width : Z; ci_height : Z; ci_rgba : list byte }.
(** [from_rgba_unmultiplied] asserts that there are four bytes a pixel. *)
Definition from_rgba_unmultiplied (w h : Z) (pixels : list byte) : option ColorImage :=
  if w * h * 4 =? zlen pixels then Some {| ci_width := w; ci_height := h; ci_rgba := pixels |} else None.

(** ** Data *)

Inductive DecodedAvatarModel (Mat : Type) :=
| DecodedImage (image : ColorImage) (size : f32 * f32)
| DecodedVrm (scene : CpuVrmScene Mat).
Arguments DecodedImage {Mat} image size.
Arguments DecodedVrm {Mat} scene.

(** A texture of egui: its name and its image. *)
Record AvatarModelImage := { texture : string * ColorImage; im_size : f32 * f32 }.
Inductive AvatarModelAsset (Mat : Type) := AssetImage (image : AvatarModelImage) | AssetVrm (scene : CpuVrmScene Mat).
Arguments AssetImage {Mat} image.
Arguments AssetVrm {Mat} scene.

Record AvatarModelLoadRequest := {
  rq_generation : Z;
  rq_path : string;
  rq_animation_paths : list string;
  rq_shader_path : string;
}.
Record AvatarModelLoadResult (Mat : Type) := { rs_generation : Z; rs_result : result string (DecodedAvatarModel Mat) }.
Arguments rs_generation {Mat} a.
Arguments rs_result {Mat} a.

(** The two channels, the request the thread works on, and whether it runs. *)
Record AvatarModelLoader (Mat : Type) := {
  ld_requests : list AvatarModelLoadRequest;
  ld_current : option AvatarModelLoadRequest;
  ld_results : list (AvatarModelLoadResult Mat);
  ld_alive : bool;
}.
Arguments ld_requests {Mat} a.
Arguments ld_current {Mat} a.
Arguments ld_results {Mat} a.
Arguments ld_alive {Mat} a.

Record AvatarModelCache (Mat : Type) := {
  requested_path : option string;
  requested_animation_paths : option (list string);
  requested_shader_path : option string;
  asset : option (AvatarModelAsset Mat);
  cache_error : option string;
  generation : Z;
  active_generation : option Z;
  loader : AvatarModelLoader Mat;
}.
Arguments requested_path {Mat} a.
Arguments requested_animation_paths {Mat} a.
Arguments requested_shader_path {Mat} a.
Arguments asset {Mat} a.
Arguments cache_error {Mat} a.
Arguments generation {Mat} a.
Arguments active_generation {Mat} a.
Arguments loader {Mat} a.

(** ** Decoding *)

Definition has_vrm_extension (path : string) : bool :=
  match path_extension path with Some extension => eq_ignore_ascii_case extension "vrm" | None => false end.
Definition has_supported_image_extension (path : string) : bool :=
  match path_extension path with
  | Some extension => bool_decide (to_ascii_lowercase extension ∈ ["png"; "jpg"; "jpeg"])
  | None => false
  end.

Section cache.
Context {Mat : Type} `{JsonFloat, JsonBytes, Glam, GlamPose, !Transforms NodeTransform Mat, !GltfCrate Mat, !GlamWorld Mat}.
Context `{!GlamMesh Mat, ImageDecoder, Naga, ImageReader} (base : string).

Definition model_limits : Limits :=
  {| max_image_width := MAX_MODEL_DIMENSION; max_image_height := MAX_MODEL_DIMENSION; max_alloc := MAX_MODEL_DECODE_BYTES |}.

Definition decode_avatar_image (path : string) (reply : FileReply) : option (result string (DecodedAvatarModel Mat)) :=
  if negb (has_supported_image_extension path)
  then Some (Err "character model must use a .png, .jpg, .jpeg, or .vrm extension")
  else
  file_bytes ⇐ Some (map_err (λ e, "failed to inspect character image " +:+ path +:+ ": " +:+ e) (fr_metadata reply));
  if MAX_IMAGE_FILE_BYTES <? file_bytes
  then Some (Err ("character image exceeds the " +:+ u64_to_string (MAX_IMAGE_FILE_BYTES / 1024 / 1024) +:+ " MiB file limit"))
  else
  _ ⇐ Some (map_err (λ e, "failed to open character image " +:+ path +:+ ": " +:+ e) (fr_open reply));
  decoded ⇐ Some (map_err (λ e, "failed to decode character image " +:+ path +:+ ": " +:+ e)
                    (reader_decode path model_limits (fr_contents reply)));
  let '(width, height, pixels) := decoded in
  if (width =? 0) || (height =? 0) then Some (Err "character image must not be empty")
  else
  image ← from_rgba_unmultiplied width height pixels;
  Some (Ok (DecodedImage image (f32_of_Z width, f32_of_Z height))).

Definition decode_avatar_model (path : string) (animation_paths : list string) (shader_path : string) (generation : Z)
    (files : string → FileReply) : option (result string (DecodedAvatarModel Mat)) :=
  if has_vrm_extension path then
    scene ⇐ decode base path files animation_paths shader_path generation;
    Some (Ok (DecodedVrm scene))
  else if negb (length animation_paths =? 0)%nat || negb (is_empty shader_path)
  then Some (Err "VRMA animation and custom WGSL shaders require a VRM character model")
  else decode_avatar_image path (files path).

(** A turn of the thread: a panic of the decoder is an error. *)
Definition load_request (files : string → FileReply) (request : AvatarModelLoadRequest) : AvatarModelLoadResult Mat :=
  {| rs_generation := rq_generation request;
     rs_result := default (Err "character model decoder rejected malformed input")
       (decode_avatar_model (rq_path request) (rq_animation_paths request) (rq_shader_path request) (rq_generation request) files) |}.

(** ** The thread *)

Definition loader_start : AvatarModelLoader Mat := {| ld_requests := []; ld_current := None; ld_results := []; ld_alive := true |}.

(** [request_rx.recv()], which waits for a request. *)
Definition loader_take (l : AvatarModelLoader Mat) : AvatarModelLoader Mat :=
  match ld_alive l, ld_current l, ld_requests l with
  | true, None, request :: requests =>
    {| ld_requests := requests; ld_current := Some request; ld_results := ld_results l; ld_alive := true |}
  | _, _, _ => l
  end.
(** Decoding the request, and sending the result. *)
Definition loader_finish (files : string → FileReply) (l : AvatarModelLoader Mat) : AvatarModelLoader Mat :=
  match ld_current l with
  | Some request =>
    {| ld_requests := ld_requests l; ld_current := None; ld_results := ld_results l ++ [load_request files request]; ld_alive := ld_alive l |}
  | None => l
  end.
(** The thread is gone: its ends of the channels are closed. *)
Definition loader_stop (l : AvatarModelLoader Mat) : AvatarModelLoader Mat :=
  {| ld_requests := []; ld_current := None; ld_results := ld_results l; ld_alive := false |}.

(** ** The cache *)

Definition cache_default : AvatarModelCache Mat :=
  {| requested_path := None; requested_animation_paths := None; requested_shader_path := None; asset := None; cache_error := None;
     generation := 0; active_generation := None; loader := loader_start |}.

Definition set_loader (l : AvatarModelLoader Mat) (c : AvatarModelCache Mat) : AvatarModelCache Mat :=
  {| requested_path := requested_path c; requested_animation_paths := requested_animation_paths c;
     requested_shader_path := requested_shader_path c; asset := asset c; cache_error := cache_error c; generation := generation c;
     active_generation := active_generation c; loader := l |}.
Definition set_active_generation (active : option Z) (c : AvatarModelCache Mat) : AvatarModelCache Mat :=
  {| requested_path := requested_path c; requested_animation_paths := requested_animation_paths c;
     requested_shader_path := requested_shader_path c; asset := asset c; cache_error := cache_error c; generation := generation c;
     active_generation := active; loader := loader c |}.
Definition set_shown (shown : option (AvatarModelAsset Mat)) (error : option string) (c : AvatarModelCache Mat) : AvatarModelCache Mat :=
  {| requested_path := requested_path c; requested_animation_paths := requested_animation_paths c;
     requested_shader_path := requested_shader_path c; asset := shown; cache_error := error; generation := generation c;
     active_generation := active_generation c; loader := loader c |}.
(** New paths: nothing is shown, and what is on its way is for an older
    generation. *)
Definition set_requested (requested : option (string * list string * string)) (c : AvatarModelCache Mat) : AvatarModelCache Mat :=
  {| requested_path := (λ r, r.1.1) <$> requested; requested_animation_paths := (λ r, r.1.2) <$> requested;
     requested_shader_path := snd <$> requested; asset := None; cache_error := None; generation := Prelude.as_u64 (generation c + 1);
     active_generation := active_generation c; loader := loader c |}.

Definition path_wanted (c : AvatarModelCache Mat) : string := default EmptyString (requested_path c).
Definition is_some {A} (o : option A) : bool := match o with Some _ => true | None => false end.

Definition asset_of (c : AvatarModelCache Mat) (decoded : DecodedAvatarModel Mat) : AvatarModelAsset Mat :=
  match decoded with
  | DecodedImage image size =>
    AssetImage {| texture := ("avatar-model:" +:+ default "built-in" (requested_path c), image); im_size := size |}
  | DecodedVrm scene => AssetVrm scene
  end.

Definition poll_loader (c : AvatarModelCache Mat) : AvatarModelCache Mat :=
  match ld_results (loader c) with
  | [] =>
    if ld_alive (loader c) then c
    else
    let c := set_active_generation None c in
    if is_empty (path_wanted c) then c
    else set_shown (asset c) (Some "character model loader stopped before returning a result") c
  | completed :: results =>
    let c := set_loader {| ld_requests := ld_requests (loader c); ld_current := ld_current (loader c); ld_results := results;
                           ld_alive := ld_alive (loader c) |} c in
    let c := set_active_generation None c in
    if negb (rs_generation completed =? generation c) then c
    else match rs_result completed with
         | Ok decoded => set_shown (Some (asset_of c decoded)) (cache_error c) c
         | Err error => set_shown (asset c) (Some error) c
         end
  end.

Definition start_load_if_needed (c : AvatarModelCache Mat) : AvatarModelCache Mat :=
  if is_empty (path_wanted c) || is_some (asset c) || is_some (cache_error c) || is_some (active_generation c) then c
  else
  let request := {| rq_generation := generation c; rq_path := path_wanted c;
                    rq_animation_paths := default [] (requested_animation_paths c);
                    rq_shader_path := default EmptyString (requested_shader_path c) |} in
  let l := loader c in
  if ld_alive l
  then set_active_generation (Some (generation c))
         (set_loader {| ld_requests := ld_requests l ++ [request]; ld_current := ld_current l; ld_results := ld_results l; ld_alive := true |} c)
  else set_shown (asset c) (Some "failed to queue character model load: sending on a closed channel") c.

Definition wanted_of (profile : AvatarReactionProfile) : string * list string * string :=
  (trim (model_path profile), filter (λ path, is_empty path = false) (trim <$> animation_paths profile), trim (shader_path profile)).
Definition requested (c : AvatarModelCache Mat) : option (string * list string * string) :=
  path ← requested_path c; animations ← requested_animation_paths c; shader ← requested_shader_path c; Some (path, animations, shader).

Definition refresh_requested (wanted : string * list string * string) (c : AvatarModelCache Mat) : AvatarModelCache Mat :=
  if negb (bool_decide (requested_path c = Some wanted.1.1)) || negb (bool_decide (requested_animation_paths c = Some wanted.1.2)) ||
     negb (bool_decide (requested_shader_path c = Some wanted.2))
  then set_requested (Some wanted) c else c.
Definition sync (profile : AvatarReactionProfile) (c : AvatarModelCache Mat) : AvatarModelCache Mat :=
  start_load_if_needed (poll_loader (refresh_requested (wanted_of profile) c)).
Definition invalidate (c : AvatarModelCache Mat) : AvatarModelCache Mat := set_requested None c.

Definition loading (c : AvatarModelCache Mat) : bool := negb (is_empty (path_wanted c)) && negb (is_some (asset c)) && negb (is_some (cache_error c)).
Definition vrm_scene (c : AvatarModelCache Mat) : option (CpuVrmScene Mat) :=
  match asset c with Some (AssetVrm scene) => Some scene | _ => None end.
Definition cache_image (c : AvatarModelCache Mat) : option AvatarModelImage :=
  match asset c with Some (AssetImage image) => Some image | _ => None end.
Definition loaded_label (c : AvatarModelCache Mat) : option string :=
  match asset c with Some (AssetImage _) => Some "2D sprite" | Some (AssetVrm scene) => Some (vs_version_label scene) | None => None end.
Definition model_animation_label (c : AvatarModelCache Mat) : option string := vrm_scene c ≫= vs_animation_label.
Definition model_shader_label (c : AvatarModelCache Mat) : option string := vrm_scene c ≫= custom_shader_label.
Definition model_shader_error (c : AvatarModelCache Mat) : option string := vrm_scene c ≫= custom_shader_error.
End cache.

(** ** Runs *)

Inductive Event := Sync (profile : AvatarReactionProfile) | Invalidate | Take | Finish (files : string → FileReply) | Stop.

Section runs.
Context {Mat : Type} `{JsonFloat, JsonBytes, Glam, GlamPose, !Transforms NodeTransform Mat, !GltfCrate Mat, !GlamWorld Mat}.
Context `{!GlamMesh Mat, ImageDecoder, Naga, ImageReader} (base : string).
Implicit Types (c : AvatarModelCache Mat) (l : AvatarModelLoader Mat).

Definition handle c (e : Event) : AvatarModelCache Mat :=
  match e with
  | Sync profile => sync profile c
  | Invalidate => invalidate c
  | Take => set_loader (loader_take (loader c)) c
  | Finish files => set_loader (loader_finish base files (loader c)) c
  | Stop => set_loader (loader_stop (loader c)) c
  end.
Definition run_cache (events : list Event) : AvatarModelCache Mat := foldl handle cache_default events.

(** What is requested after a run. *)
Definition wanted_now (events : list Event) : option (string * list string * string) :=
  foldl (λ wanted e, match e with Sync profile => Some (wanted_of profile) | Invalidate => None | _ => wanted end) None events.

(** ** The invariant *)

Definition paths_of (r : AvatarModelLoadRequest) : string * list string * string := (rq_path r, rq_animation_paths r, rq_shader_path r).
(** The generations of what is on its way. *)
Definition flight l : list Z :=
  (rq_generation <$> ld_requests l) ++ (rq_generation <$> option_list (ld_current l)) ++ (rs_generation <$> ld_results l).
Definition asked_for (asked : list (option (string * list string * string))) (r : AvatarModelLoadRequest) : Prop :=
  0 ≤ rq_generation r ∧ asked !! Z.to_nat (rq_generation r) = Some (Some (paths_of r)).

(** [asked]: what every generation wants; [read]: the files that were read. *)
Record cache_inv (read : (string → FileReply) → Prop) (asked : list (option (string * list string * string))) c : Prop := {
  cv_generation : generation c = zlen asked - 1;
  cv_bound : zlen asked ≤ 2 ^ 64;
  cv_last : last asked = Some (requested c);
  cv_path : requested_path c = (λ r, r.1.1) <$> requested c;
  cv_animations : requested_animation_paths c = (λ r, r.1.2) <$> requested c;
  cv_shader : requested_shader_path c = snd <$> requested c;
  cv_requests : Forall (asked_for asked) (ld_requests (loader c) ++ option_list (ld_current (loader c)));
  cv_results : Forall (λ result, ∃ r files, asked_for asked r ∧ read files ∧ result = load_request base files r) (ld_results (loader c));
  cv_one : (length (flight (loader c)) ≤ 1)%nat;
  cv_idle : active_generation c = None → flight (loader c) = [];
  cv_busy g : active_generation c = Some g → ld_alive (loader c) = true → flight (loader c) = [g];
  cv_dead : ld_alive (loader c) = false → ld_requests (loader c) = [] ∧ ld_current (loader c) = None;
  cv_asset a : asset c = Some a → active_generation c = None ∧ ∃ r files decoded, read files ∧
    rq_generation r = generation c ∧ requested c = Some (paths_of r) ∧
    rs_result (load_request base files r) = Ok decoded ∧ a = asset_of c decoded;
}.

Lemma asked_for_app asked more r : asked_for asked r → asked_for (asked ++ more) r.
Proof. intros [? ?]. split; [done|]. by apply lookup_app_l_Some. Qed.

Lemma default_inv read : cache_inv read [None] cache_default.
Proof. split; simpl; try done; first [by constructor|simpl; lia]. Qed.

Lemma requested_set wanted c : requested (set_requested wanted c) = wanted.
Proof. by destruct wanted as [[[? ?] ?]|]. Qed.

Lemma set_requested_inv read asked wanted c : zlen asked < 2 ^ 64 → cache_inv read asked c → cache_inv read (asked ++ [wanted]) (set_requested wanted c).
Proof.
  intros Hb [G B L P A S R Rs O I Bu D As]. split; simpl; rewrite ?requested_set; try done.
  - rewrite G. unfold Prelude.as_u64. rewrite Z.mod_small; unfold zlen in *; rewrite ?length_app; simpl; lia.
  - unfold zlen in *. rewrite length_app. simpl. lia.
  - by rewrite last_snoc.
  - eapply Forall_impl; [exact R|]. intros r. apply asked_for_app.
  - eapply Forall_impl; [exact Rs|]. intros res (r & files & Hr & ?). exists r, files. split; [by apply asked_for_app|done].
Qed.

Lemma flight_result l result results : ld_results l = result :: results → (length (flight l) ≤ 1)%nat →
  ld_requests l = [] ∧ ld_current l = None ∧ results = [].
Proof.
  unfold flight. intros ->. rewrite !length_app, !length_fmap. simpl. intros Hl.
  destruct (ld_requests l), (ld_current l), results; simpl in Hl; try lia. done.
Qed.
Lemma shown_inv read asked error c : cache_inv read asked c → cache_inv read asked (set_shown (asset c) error c).
Proof. by intros [G B L P A S R Rs O I Bu D As]; split. Qed.

Lemma poll_inv read asked c : cache_inv read asked c → cache_inv read asked (poll_loader c).
Proof.
  intros Hc. pose proof Hc as [G B L P A S R Rs O I Bu D As]. unfold poll_loader. destruct (ld_results (loader c)) as [|result results] eqn:Er.
  - destruct (ld_alive (loader c)) eqn:Ea; [done|]. assert (cache_inv read asked (set_active_generation None c)) as Hn.
    { split; simpl; try done; [by rewrite Er| |by intros _; apply D|intros a Ha; split; [done|by apply As]].
      intros _. destruct (D eq_refl) as [D1 D2]. unfold flight. by rewrite D1, D2, Er. }
    cbv zeta. destruct (is_empty _); [done|]. exact (shown_inv _ _ _ _ Hn).
  - destruct (flight_result _ _ _ Er O) as (E1 & E2 & ->). cbv zeta. set (c1 := set_active_generation None _).
    assert (cache_inv read asked c1) as Hn.
    { split; simpl; try done; unfold flight; simpl; rewrite ?E1, ?E2; simpl; [lia|done|].
      intros a Ha. by destruct (As a Ha). }
    destruct (negb _) eqn:Eg; [done|]. apply negb_false_iff, Z.eqb_eq in Eg. destruct (rs_result result) as [decoded|error] eqn:Ed; [|exact (shown_inv _ _ _ _ Hn)].
    apply Forall_cons in Rs as [(r & files & [Hr0 Hr] & Hf & ->) _]. simpl in Eg.
    assert (requested c = Some (paths_of r)) as Hreq.
    { assert (Z.to_nat (rq_generation r) = pred (length asked)) as En by (rewrite Eg, G; unfold zlen; lia). rewrite En, <- last_lookup, L in Hr. by injection Hr. }
    destruct Hn as [G' B' L' P' A' S' R' Rs' O' I' Bu' D' As']. split; try done. intros a [= <-]. split; [done|]. by exists r, files, decoded.
Qed.

Lemma start_load_inv read asked c : cache_inv read asked c → cache_inv read asked (start_load_if_needed c).
Proof.
  intros Hc. pose proof Hc as [G B L P A S R Rs O I Bu D As]. unfold start_load_if_needed. destruct (_ || _) eqn:E; [done|].
  apply orb_false_iff in E as [E Ea]. apply orb_false_iff in E as [E Ee]. apply orb_false_iff in E as [E Es].
  destruct (active_generation c) eqn:Eac; [done|]. cbv zeta. destruct (ld_alive (loader c)) eqn:El; [|exact (shown_inv _ _ _ _ Hc)].
  specialize (I eq_refl). unfold flight in I. apply app_nil in I as [I1%fmap_nil_inv I]. apply app_nil in I as [I2 I3%fmap_nil_inv].
  assert (ld_current (loader c) = None) as I2' by (by destruct (ld_current (loader c))).
  assert (is_Some (requested c)) as [[[path animations] shader] Er].
  { destruct (requested c) eqn:Er; [done|]. unfold path_wanted in E. by rewrite P in E. }
  split; simpl; try done; unfold flight; simpl; rewrite ?I1, ?I2', ?I3; simpl; try done.
  - apply Forall_singleton. split; simpl; [rewrite G; unfold zlen; destruct asked; [done|]; simpl; lia|]. unfold path_wanted, paths_of. simpl. rewrite P, A, S, Er. simpl.
    replace (Z.to_nat (generation c)) with (pred (length asked)) by (rewrite G; unfold zlen; lia). by rewrite <- last_lookup, L, Er.
  - by intros g [= <-].
  - intros a Ha. rewrite Ha in Es. done.
Qed.

Lemma take_inv read asked c : cache_inv read asked c → cache_inv read asked (set_loader (loader_take (loader c)) c).
Proof.
  intros Hc. pose proof Hc as [G B L P A S R Rs O I Bu D As]. unfold loader_take. destruct (ld_alive (loader c)) eqn:Ea; [|by destruct c].
  destruct (ld_current (loader c)) as [r|] eqn:Ec; [by destruct c|]. destruct (ld_requests (loader c)) as [|r requests] eqn:Er; [by destruct c|].
  assert (requests = []) as ->. { unfold flight in O. rewrite Er, !length_app in O. simpl in O. rewrite length_fmap in O. destruct requests; [done|]. simpl in O. lia. }
  split; simpl; try done; unfold flight in *; rewrite Er, Ec in *; simpl in *; done.
Qed.
Lemma finish_inv (read : (string → FileReply) → Prop) asked files c : read files → cache_inv read asked c →
  cache_inv read asked (set_loader (loader_finish base files (loader c)) c).
Proof.
  intros Hf Hc. pose proof Hc as [G B L P A S R Rs O I Bu D As]. unfold loader_finish. destruct (ld_current (loader c)) as [r|] eqn:Ec; [|by destruct c].
  assert (ld_requests (loader c) = [] ∧ ld_results (loader c) = []) as [E1 E2].
  { unfold flight in O. rewrite Ec, !length_app, !length_fmap in O. simpl in O. destruct (ld_requests (loader c)), (ld_results (loader c)); simpl in O; try lia. done. }
  split; simpl; try done; unfold flight in *; rewrite ?E1, ?E2, ?Ec in *; simpl in *; try done.
  - apply Forall_singleton. exists r, files. by apply Forall_inv in R.
Qed.
Lemma stop_inv read asked c : cache_inv read asked c → cache_inv read asked (set_loader (loader_stop (loader c)) c).
Proof.
  intros Hc. pose proof Hc as [G B L P A S R Rs O I Bu D As]. split; simpl; try done; unfold flight in *; simpl.
  - rewrite !length_app in O. lia.
  - intros Hn. specialize (I Hn). apply app_nil in I as [_ I]. by apply app_nil in I as [_ ->].
Qed.

(** Nothing but [set_requested] changes what is requested. *)
Lemma poll_requested c : requested (poll_loader c) = requested c.
Proof. unfold poll_loader. repeat case_match; done. Qed.
Lemma start_requested c : requested (start_load_if_needed c) = requested c.
Proof. unfold start_load_if_needed. repeat case_match; done. Qed.

Lemma sync_inv read asked profile c : zlen asked < 2 ^ 64 → cache_inv read asked c →
  ∃ asked', zlen asked' ≤ zlen asked + 1 ∧ cache_inv read asked' (sync profile c) ∧ requested (sync profile c) = Some (wanted_of profile).
Proof.
  intros Hb Hc. unfold sync. generalize (wanted_of profile). intros wanted. set (c1 := refresh_requested _ c).
  assert (∃ asked', zlen asked' ≤ zlen asked + 1 ∧ cache_inv read asked' c1 ∧ requested c1 = Some wanted) as (asked' & Hl & Hi & Hr).
  { unfold c1, refresh_requested. destruct (_ || _) eqn:E.
    - exists (asked ++ [Some wanted]). split; [unfold zlen; rewrite length_app; simpl; lia|]. split; [by apply set_requested_inv|apply requested_set].
    - exists asked. split; [lia|]. split; [done|]. apply orb_false_iff in E as [E E3]. apply orb_false_iff in E as [E1 E2]. to_prop.
      unfold requested. rewrite E1, E2, E3. simpl. by destruct wanted as [[? ?] ?]. }
  exists asked'. split; [done|]. split; [by apply start_load_inv, poll_inv|]. by rewrite start_requested, poll_requested.
Qed.

Lemma handle_inv (read : (string → FileReply) → Prop) asked e c : (∀ files, e = Finish files → read files) → zlen asked < 2 ^ 64 → cache_inv read asked c →
  ∃ asked', zlen asked' ≤ zlen asked + 1 ∧ cache_inv read asked' (handle c e) ∧
    requested (handle c e) = match e with Sync profile => Some (wanted_of profile) | Invalidate => None | _ => requested c end.
Proof.
  intros Hf Hb Hc. destruct e as [profile| | |files|]; [by apply sync_inv|..].
  - exists (asked ++ [None]). split; [unfold zlen; rewrite length_app; simpl; lia|]. split; [by apply set_requested_inv|done].
  - exists asked. split; [lia|]. split; [by apply take_inv|done].
  - exists asked. split; [lia|]. split; [by apply finish_inv; [apply Hf|]|done].
  - exists asked. split; [lia|]. split; [by apply stop_inv|done].
Qed.
Lemma run_cache_inv events : zlen events < 2 ^ 64 →
  ∃ asked, zlen asked ≤ zlen events + 1 ∧ cache_inv (λ files, Finish files ∈ events) asked (run_cache events) ∧ requested (run_cache events) = wanted_now events.
Proof.
  unfold run_cache, wanted_now. induction events as [|e events IH] using rev_ind; intros Hl.
  - exists [None]. split; [done|]. split; [apply default_inv|done].
  - rewrite !foldl_app. simpl. unfold zlen in *. rewrite length_app in Hl. simpl in Hl. destruct IH as (asked & La & Hi & Hr); [lia|].
    assert (cache_inv (λ files, Finish files ∈ events ++ [e]) asked (foldl handle cache_default events)) as Hi'.
    { destruct Hi as [G B L P A S R Rs O I Bu D As]. split; try done.
      - eapply Forall_impl; [exact Rs|]. intros res (r & files & ? & Hin & ?). exists r, files. split_and!; [done|set_solver|done].
      - intros a Ha. destruct (As a Ha) as (? & r & files & decoded & Hin & Hrest). split; [done|]. exists r, files, decoded. split; [set_solver|done]. }
    destruct (handle_inv (λ files, Finish files ∈ events ++ [e]) asked e (foldl handle cache_default events)) as (asked' & La' & Hi'' & Hr');
      [intros files ->; apply elem_of_app; right; left|unfold zlen; lia|done|].
    exists asked'. unfold zlen in La'. rewrite length_app. simpl. split; [lia|]. split; [done|]. rewrite Hr', Hr. by destruct e.
Qed.

(** ** What is shown *)

Context `{!GltfCrateLaws Mat, !ImageDecoderLaws}.

Lemma image_decoded path reply d : decode_avatar_image (Mat := Mat) path reply = Some (Ok d) → ∃ image size, d = DecodedImage image size.
Proof.
  unfold decode_avatar_image, and_then. destruct (negb _); [done|]. destruct (fr_metadata reply) as [n|e]; simpl; [|done]. case_match; [done|].
  destruct (fr_open reply) as [[]|e]; simpl; [|done]. destruct (reader_decode _ _ _) as [[[w h] pixels]|e]; simpl; [|done].
  destruct (_ || _); [done|]. destruct (from_rgba_unmultiplied _ _ _) as [image|]; simpl; [|done]. intros [= <-]. eauto.
Qed.
Lemma load_vrm_ok files r s : rs_result (load_request base files r) = Ok (DecodedVrm s) → loaded_ok base s ∧ scene_id s = rq_generation r.
Proof.
  simpl. unfold decode_avatar_model. destruct (has_vrm_extension _).
  - destruct (decode_loaded base (rq_path r) files (rq_animation_paths r) (rq_shader_path r) (rq_generation r)) as (res & E & Hres). unfold and_then. rewrite E.
    destruct res as [s'|e]; simpl; [|done]. intros [= ->]. by apply Hres.
  - destruct (_ || _); [done|]. destruct (decode_avatar_image _ _) as [[d|e]|] eqn:E; simpl; [|done|done].
    destruct (image_decoded _ _ _ E) as (image & size & ->). done.
Qed.

Lemma run_shows events : zlen events < 2 ^ 64 → let c := run_cache events in
  requested c = wanted_now events ∧ (length (flight (loader c)) ≤ 1)%nat ∧
  ∀ a, asset c = Some a → ∃ r files decoded, Finish files ∈ events ∧ wanted_now events = Some (paths_of r) ∧
    rs_result (load_request base files r) = Ok decoded ∧ a = asset_of c decoded ∧
    ∀ s, a = AssetVrm s → loaded_ok base s ∧ scene_id s = generation c.
Proof.
  intros Hl. destruct (run_cache_inv events Hl) as (asked & _ & I & R). cbv zeta. split; [done|]. split; [apply I|]. intros a Ha.
  destruct (cv_asset _ _ _ I a Ha) as (_ & r & files & decoded & Hf & Hg & Hr & Hd & ->). exists r, files, decoded. split_and!; [done|congruence|done..|].
  intros s Hs. rewrite <- Hg. destruct decoded as [image size|s']; [done|]. injection Hs as ->. by eapply load_vrm_ok.
Qed.

(** ** The load ends *)

Definition answered c (g : Z) : Prop :=
  ld_requests (loader c) = [] ∧ ld_current (loader c) = None ∧ ∃ result, ld_results (loader c) = [result] ∧ rs_generation result = g.
Definition turn files c : AvatarModelCache Mat := handle (handle c Take) (Finish files).

Lemma turn_answers files c g : ld_alive (loader c) = true → flight (loader c) = [g] → answered (turn files c) g.
Proof.
  destruct c as [? ? ? ? ? ? ? [requests current results alive]]. unfold flight, turn, answered. simpl. intros ->. unfold loader_take, loader_finish. simpl.
  destruct current as [r|]; simpl.
  - intros E. destruct requests as [|? [|]]; [destruct results; [|done]|done..]. injection E as <-. split_and!; [done..|]. by eexists.
  - intros E. destruct requests as [|r [|]]; [destruct results as [|res [|]]|destruct results|]; try done;
      (injection E as <-; split_and!; [done..|]; by eexists).
Qed.
Lemma shown_stays c : loading c = false → loading (poll_loader c) = false.
Proof.
  unfold loading, poll_loader, path_wanted. intros E. repeat case_match; simpl in *; try done;
    destruct (is_empty _), (asset c), (cache_error c); simpl in *; done.
Qed.
Lemma start_loading c : ld_alive (loader c) = true → loading (start_load_if_needed c) = loading c ∧
  (loading c = true → active_generation c = None → active_generation (start_load_if_needed c) = Some (generation c)).
Proof.
  intros Ha. unfold start_load_if_needed, loading, path_wanted. rewrite Ha.
  destruct (is_empty (default EmptyString (requested_path c))) eqn:E; [simpl; by rewrite ?E|].
  destruct (asset c) eqn:E1; [simpl; by rewrite ?E, ?E1|]. destruct (cache_error c) eqn:E2; [simpl; by rewrite ?E, ?E1, ?E2|].
  destruct (active_generation c) eqn:E3; simpl; rewrite ?E, ?E1, ?E2; done.
Qed.
Lemma poll_answer c g : answered c g → ld_alive (loader c) = true → ld_alive (loader (poll_loader c)) = true ∧
  generation (poll_loader c) = generation c ∧ active_generation (poll_loader c) = None ∧ (g = generation c → loading (poll_loader c) = false).
Proof.
  intros (_ & _ & result & Er & Eg) Ha. unfold poll_loader. rewrite Er. cbv zeta. destruct (negb _) eqn:E.
  - split_and!; try done. intros ->. apply negb_true_iff, Z.eqb_neq in E. simpl in E. lia.
  - destruct (rs_result result); (split_and!; [done..|]); intros _; unfold loading; simpl; by rewrite ?andb_false_r.
Qed.
Lemma refresh_same wanted read asked c : cache_inv read asked c → requested c = Some wanted → refresh_requested wanted c = c.
Proof.
  intros [_ _ _ P A S _ _ _ _ _ _ _] E. rewrite E in P, A, S. unfold refresh_requested. rewrite P, A, S. simpl. by rewrite !bool_decide_eq_true_2.
Qed.

(** Nor does the interface stop the thread. *)
Lemma poll_alive c : ld_alive (loader (poll_loader c)) = ld_alive (loader c).
Proof. unfold poll_loader. destruct (ld_results (loader c)); cbv zeta; repeat case_match; done. Qed.
Lemma start_alive c : ld_alive (loader (start_load_if_needed c)) = ld_alive (loader c).
Proof. unfold start_load_if_needed. destruct (_ || _); [done|]. cbv zeta. destruct (ld_alive (loader c)) eqn:E; [done|exact E]. Qed.
Lemma refresh_alive wanted c : loader (refresh_requested wanted c) = loader c.
Proof. unfold refresh_requested. by destruct (_ || _). Qed.
Lemma sync_alive profile c : ld_alive (loader (sync profile c)) = ld_alive (loader c).
Proof. unfold sync. by rewrite start_alive, poll_alive, refresh_alive. Qed.

(** The profile is being shown: it is, or its load is under way. *)
Record showing (profile : AvatarReactionProfile) c : Prop := {
  sw_inv : ∃ asked, cache_inv (λ _, True) asked c;
  sw_alive : ld_alive (loader c) = true;
  sw_requested : requested c = Some (wanted_of profile);
  sw_progress : loading c = true → is_Some (active_generation c);
}.

Lemma turn_showing profile files c : showing profile c → let c' := handle (turn files c) (Sync profile) in
  showing profile c' ∧ (loading c' = true → loading c = true ∧ active_generation c ≠ Some (generation c) ∧ active_generation c' = Some (generation c')).
Proof.
  intros [[asked I] Ha Hr Hp]. cbv zeta. set (c1 := turn files c). cbn [handle].
  assert (cache_inv (λ _, True) asked c1) as I1 by (apply finish_inv; [done|by apply take_inv]).
  assert (ld_alive (loader c1) = true ∧ requested c1 = Some (wanted_of profile) ∧ loading c1 = loading c ∧ generation c1 = generation c ∧
    active_generation c1 = active_generation c) as (A1 & R1 & L1 & G1 & V1).
  { unfold c1, turn. simpl. unfold loader_take, loader_finish. rewrite Ha. repeat case_match; done. }
  unfold sync. rewrite (refresh_same _ _ _ _ I1 R1). set (c2 := poll_loader c1).
  pose proof (poll_inv _ _ _ I1) as I2. fold c2 in I2.
  assert (ld_alive (loader c2) = true) as A2 by (unfold c2; by rewrite poll_alive).
  assert (generation (start_load_if_needed c2) = generation c2) as G3 by (unfold start_load_if_needed; repeat case_match; done).
  destruct (start_loading c2 A2) as [L3 V3].
  assert (loading c2 = true → loading c = true ∧ active_generation c ≠ Some (generation c) ∧ active_generation c2 = None) as Hl.
  { intros E. assert (loading c = true) as El by (rewrite <- L1; destruct (loading c1) eqn:E1; [done|]; apply shown_stays in E1; unfold c2 in E; congruence).
    destruct (Hp El) as [g Hg]. destruct (poll_answer c1 g) as (_ & _ & ? & Hno); [apply turn_answers; [done|by eapply cv_busy]|done|].
    split; [done|]. split; [|done]. rewrite Hg. intros [= ->]. unfold c2 in E. rewrite Hno in E; done. }
  split; [split|].
  - exists asked. by apply start_load_inv.
  - by rewrite start_alive.
  - by rewrite start_requested; unfold c2; rewrite poll_requested.
  - rewrite L3. intros E. rewrite V3; [done|done|by apply Hl].
  - rewrite L3. intros E. destruct (Hl E) as (? & ? & ?). split_and!; [done..|]. rewrite V3, G3; done.
Qed.

Lemma alive_run events : Stop ∉ events → ld_alive (loader (run_cache events)) = true.
Proof.
  unfold run_cache. induction events as [|e events IH] using rev_ind; intros Hs; [done|]. rewrite foldl_app. simpl.
  assert (ld_alive (loader (foldl handle cache_default events)) = true) as Ha by (apply IH; set_solver). revert Ha. generalize (foldl handle cache_default events).
  intros c Ha. destruct e as [profile| | |files|]; simpl; [| |unfold loader_take|unfold loader_finish|set_solver].
  - by rewrite sync_alive.
  - done.
  - rewrite Ha. by repeat case_match.
  - by case_match.
Qed.

Lemma first_sync profile events : Stop ∉ events → zlen events + 1 < 2 ^ 64 → showing profile (run_cache (events ++ [Sync profile])).
Proof.
  intros Hs Hl. destruct (run_cache_inv events ltac:(lia)) as (asked & La & I & _). unfold run_cache. rewrite foldl_app. fold (run_cache events). cbn [foldl handle].
  assert (cache_inv (λ _, True) asked (run_cache events)) as I'.
  { destruct I as [G B L P A S R Rs O I Bu D As]. split; try done.
    - eapply Forall_impl; [exact Rs|]. intros res (r & files & ? & _ & ?). by exists r, files.
    - intros a Ha. destruct (As a Ha) as (? & r & files & decoded & _ & ?). split; [done|]. by exists r, files, decoded. }
  destruct (sync_inv (λ _, True) asked profile (run_cache events) ltac:(lia) I') as (asked' & _ & I'' & R).
  pose proof (alive_run events Hs) as Ha. split; [by exists asked'|by rewrite sync_alive|done|].
  unfold sync. set (c2 := poll_loader _). assert (ld_alive (loader c2) = true) as A2 by (unfold c2; by rewrite poll_alive, refresh_alive).
  destruct (start_loading c2 A2) as [-> V]. intros E. destruct (active_generation c2) as [g|] eqn:Eg; [|rewrite V; done].
  unfold start_load_if_needed. rewrite Eg. destruct (_ || _) eqn:Eb; [by rewrite Eg|]. by rewrite !orb_true_r in Eb.
Qed.

Lemma foldl_seven {A B} (h : A → B → A) (start : A) es x1 x2 x3 x4 x5 x6 x7 :
  foldl h start (es ++ [x1; x2; x3; x4; x5; x6; x7]) = h (h (h (h (h (h (foldl h start (es ++ [x1])) x2) x3) x4) x5) x6) x7.
Proof. by rewrite !foldl_app. Qed.

(** While the thread runs, a profile is shown, or an error for it, at the
    third synchronisation at the latest: the first may find the load of an
    older profile under way, the second its answer. *)
Theorem cache_settles events profile files1 files2 : Stop ∉ events → zlen events + 1 < 2 ^ 64 →
  loading (run_cache (events ++ [Sync profile; Take; Finish files1; Sync profile; Take; Finish files2; Sync profile])) = false.
Proof.
  intros Hs Hl. pose proof (first_sync profile events Hs Hl) as Hfirst. destruct (turn_showing profile files1 _ Hfirst) as [Hsecond P2].
  destruct (turn_showing profile files2 _ Hsecond) as [_ P3]. apply not_true_is_false. intros E.
  unfold run_cache in E. rewrite foldl_seven in E. destruct (P3 E) as (E2 & Hne & _). destruct (P2 E2) as (_ & _ & Heq). exact (Hne Heq).
Qed.
End runs.
