(* ===== verification/VrmRender.v ===== *)
(** * The character renderer (skid-monitor-fe, vrm/renderer.rs)

    What the renderer asks of wgpu is a log of calls; a handle is the number
    of the call that made it.  A buffer is created with its contents, whose
    size is that of the [repr(C)] structs; a render pass is a list of
    commands.  What the code panics on is [None].  VrmDraws.v states wgpu's
    validation rules and shows that no call breaks them. *)

From S2P Require Import Prelude RustStr Otlp RustFloat FeProfile Json VrmJson VrmMtoon VrmGlb VrmOrder VrmGraph VrmBuffers VrmHumanoid VrmRig VrmSpring VrmAnimation VrmFloat VrmPlayback VrmMix VrmScene VrmDrawable VrmShader VrmLoad VrmModel VrmRuntime VrmWeights VrmFrame.

(** ** The structs sent to the GPU *)

Record SceneUniform := { center_and_scale : Vec4; projection : Vec4; su_animation : Vec4 }.
Definition vec4_zero : Vec4 := {| x4 := f32_0; y4 := f32_0; z4 := f32_0; w4 := f32_0 |}.
Definition scene_uniform_zeroed : SceneUniform := {| center_and_scale := vec4_zero; projection := vec4_zero; su_animation := vec4_zero |}.
Record MaterialUniform := {
  mu_base_color : Vec4;
  mu_alpha : Vec4;
  mu_shade : Vec4;
  mu_toon : Vec4;
  mu_rim : Vec4;
  mu_emissive_outline : Vec4;
  mu_outline : Vec4;
  mu_uv_animation : Vec4;
  mu_matcap_normal : Vec4;
  mu_texture_flags : Vec4;
  mu_texture_flags_2 : Vec4;
}.
Record DrawUniform := { vertex_start : Z; vertex_count : Z; morph_count : Z }.

(** What a buffer holds. *)
Inductive Contents (Mat : Type) :=
| CVertices (vertices : list VrmVertex)
| CMatrices (matrices : list Mat)
| CDeltas (deltas : list CpuMorphDelta)
| CWeights (weights : list f32)
| CScene (uniform : SceneUniform)
| CMaterial (uniform : MaterialUniform)
| CDraw (uniform : DrawUniform).
Arguments CVertices {Mat} vertices.
Arguments CMatrices {Mat} matrices.
Arguments CDeltas {Mat} deltas.
Arguments CWeights {Mat} weights.
Arguments CScene {Mat} uniform.
Arguments CMaterial {Mat} uniform.
Arguments CDraw {Mat} uniform.

(** [std::mem::size_of], in bytes. *)
Definition SIZE_OF_VERTEX : Z := (3 + 3 + 2 + 4) * 4 + 4 * 2 + 4 * 4.
Definition SIZE_OF_MATRIX : Z := 16 * 4.
Definition SIZE_OF_DELTA : Z := 3 * (4 * 4).
Definition SIZE_OF_SCENE_UNIFORM : Z := 3 * (4 * 4).
Definition SIZE_OF_MATERIAL_UNIFORM : Z := 11 * (4 * 4).
Definition SIZE_OF_DRAW_UNIFORM : Z := 4 * 4.
Definition byte_size {Mat} (c : Contents Mat) : Z :=
  match c with
  | CVertices l => zlen l * SIZE_OF_VERTEX
  | CMatrices l => zlen l * SIZE_OF_MATRIX
  | CDeltas l => zlen l * SIZE_OF_DELTA
  | CWeights l => zlen l * 4
  | CScene _ => SIZE_OF_SCENE_UNIFORM
  | CMaterial _ => SIZE_OF_MATERIAL_UNIFORM
  | CDraw _ => SIZE_OF_DRAW_UNIFORM
  end.

(** ** What is used of wgpu *)

Inductive ShaderStages := VERTEX | FRAGMENT | VERTEX_FRAGMENT.
Inductive BufferUsage := UNIFORM | STORAGE | VERTEX_BUFFER | COPY_DST.
#[global] Instance BufferUsage_eq_dec : EqDecision BufferUsage.
Proof. solve_decision. Defined.
(** Buffers have no dynamic offset and storage is read only; textures are
    two-dimensional and filterable. *)
Inductive BindingType := BindUniform (min_binding_size : Z) | BindStorage (min_binding_size : Z) | BindTexture | BindSampler.
Record LayoutEntry := { le_binding : nat; le_visibility : ShaderStages; le_ty : BindingType }.
(** What a bind group refers to: a whole buffer, a view, a sampler. *)
Inductive Resource := RBuffer (handle : nat) | RView (handle : nat) | RSampler (handle : nat).
Inductive ViewFormat := Rgba8Unorm | Rgba8UnormSrgb.
#[global] Instance ViewFormat_eq_dec : EqDecision ViewFormat.
Proof. solve_decision. Defined.
Inductive VertexFormat := Float32x2 | Float32x3 | Float32x4 | Uint16x4.
Record VertexAttribute := { at_location : nat; at_format : VertexFormat; at_offset : Z }.
Inductive BlendState := ALPHA_BLENDING.
Inductive Face := Front | Back.

Record PipelineConfig := {
  vertex_entry : string;
  fragment_entry : string;
  blend_state : option BlendState;
  depth_write_enabled : bool;
  cull_mode : option Face;
  pc_label : string;
}.

Inductive Call (Mat Format : Type) :=
| CreateBindGroupLayout (label : string) (entries : list LayoutEntry)
| CreatePipelineLayout (label : string) (layouts : list nat)
| CreateBuffer (label : string) (contents : Contents Mat) (usage : list BufferUsage)
| CreateTexture (label : string) (width height : Z) (format : ViewFormat) (view_formats : list ViewFormat)
| WriteTexture (texture : nat) (pixels : list byte) (bytes_per_row rows_per_image width height : Z)
| CreateView (texture : nat) (format : ViewFormat)
| CreateSampler (label : string)
| CreateBindGroup (label : string) (layout : nat) (entries : list (nat * Resource))
| CreateShaderModule (label source : string)
| CreateRenderPipeline (layout shader : nat) (format : Format) (stride : Z) (attributes : list VertexAttribute) (config : PipelineConfig)
| WriteBuffer (buffer : nat) (contents : Contents Mat).
Arguments CreateBindGroupLayout {Mat Format} label entries.
Arguments CreatePipelineLayout {Mat Format} label layouts.
Arguments CreateBuffer {Mat Format} label contents usage.
Arguments CreateTexture {Mat Format} label width height format view_formats.
Arguments WriteTexture {Mat Format} texture pixels bytes_per_row rows_per_image width height.
Arguments CreateView {Mat Format} texture format.
Arguments CreateSampler {Mat Format} label.
Arguments CreateBindGroup {Mat Format} label layout entries.
Arguments CreateShaderModule {Mat Format} label source.
Arguments CreateRenderPipeline {Mat Format} layout shader format stride attributes config.
Arguments WriteBuffer {Mat Format} buffer contents.

(** The commands of a render pass. *)
Inductive PassCommand :=
| SetBindGroup (index : nat) (group : nat)
| SetVertexBuffer (slot : nat) (buffer : nat)
| SetPipeline (pipeline : nat)
| DrawVertices (first last : Z).

(** The format of the surface. *)
Class SurfaceFormat (Format : Type) := is_srgb : Format → bool.

(** ** The log of calls *)

Section gpu.
Context {Mat Format : Type}.

Definition Gpu (A : Type) : Type := list (Call Mat Format) → option (A * list (Call Mat Format)).
#[global] Instance gpu_ret : MRet Gpu := λ A a log, Some (a, log).
#[global] Instance gpu_bind : MBind Gpu := λ A B k m log, '(a, log) ← m log; k a log.

(** A call, which gives its handle. *)
Definition call (c : Call Mat Format) : Gpu nat := λ log, Some (length log, log ++ [c]).
(** A computation that may panic. *)
Definition lift {A} (o : option A) : Gpu A := λ log, a ← o; Some (a, log).
Fixpoint gpu_map {A B} (f : A → Gpu B) (l : list A) : Gpu (list B) :=
  match l with
  | [] => mret []
  | a :: l => b ← f a; k ← gpu_map f l; mret (b :: k)
  end.
End gpu.
Arguments Gpu : clear implicits.

(** ** Data *)

Record VrmPipelines := { pl_opaque : nat; pl_blend : nat; pl_blend_depth_write : nat; pl_outline : nat; pl_outline_reversed : nat }.
Record GpuTexture := { gt_texture : nat; srgb_view : nat; linear_view : nat; gt_sampler : nat }.
Record GpuMaterial := {
  gm_alpha : AlphaMode;
  gm_bind_group : nat;
  gm_uniform_buffer : nat;
  has_outline : bool;
  gm_transparent_with_z_write : bool;
  gm_render_queue_offset : Z;
}.
Record GpuDraw := {
  source_draw_index : nat;
  gd_start : Z;
  gd_end : Z;
  gd_material_index : nat;
  sort_depth : f32;
  pose_bind_group : nat;
  pose_buffer : nat;
  morph_target_indices : list nat;
  morph_weights_buffer : nat;
  morph_delta_buffer : nat;
  draw_uniform_buffer : nat;
}.
Record GpuScene := {
  gs_scene_id : Z;
  vertex_buffer : nat;
  gs_draws : list GpuDraw;
  gs_materials : list GpuMaterial;
  gs_textures : list GpuTexture;
  reversed_front_face : bool;
  gs_runtime : VrmRuntimeState;
  gs_pipelines : VrmPipelines;
}.
Record VrmRenderResources (Format : Type) := {
  pipeline_layout : nat;
  target_format : Format;
  material_bind_group_layout : nat;
  pose_bind_group_layout : nat;
  scene_uniform_buffer : nat;
  scene_bind_group : nat;
  gpu_scene : option GpuScene;
}.
Arguments pipeline_layout {Format} v.
Arguments target_format {Format} v.
Arguments material_bind_group_layout {Format} v.
Arguments pose_bind_group_layout {Format} v.
Arguments scene_uniform_buffer {Format} v.
Arguments scene_bind_group {Format} v.
Arguments gpu_scene {Format} v.

Record VrmCallback (Mat : Type) := {
  cb_scene : CpuVrmScene Mat;
  cb_uniform : SceneUniform;
  cb_input : FrameInput;
}.
Arguments cb_scene {Mat} v.
Arguments cb_uniform {Mat} v.
Arguments cb_input {Mat} v.

(** ** paint: the callback of a frame *)

Definition vec4 (x y z w : f32) : Vec4 := {| x4 := x; y4 := y; z4 := z; w4 := w |}.

(** The callback, unless the rectangle is too small. *)
Definition paint_callback {Mat} (width height : f32) (scene : CpuVrmScene Mat) (input : FrameInput) : option (VrmCallback Mat) :=
  if SFleb width f32_1 || SFleb height f32_1 then None
  else
  let m := meshes scene in
  let aspect := f32_max (f32_div width height) (f32_lit 1 100) in
  let scene_width := f32_max (SFabs (vx (sc_extent m))) (f32_lit 1 1000) in
  let scene_height := f32_max (SFabs (vy (sc_extent m))) (f32_lit 1 1000) in
  let scale := f32_min (f32_div (f32_lit 18 10) scene_height) (f32_div (f32_mul (f32_lit 18 10) aspect) scene_width) in
  let depth_span := f32_max (SFabs (vz (sc_extent m))) (f32_lit 1 1000) in
  let z_max := f32_add (f32_mul (vz (sc_center m)) (sc_front_direction m)) (f32_mul depth_span (f32_lit 1 2)) in
  Some {| cb_scene := scene;
          cb_uniform := {| center_and_scale := vec4 (vx (sc_center m)) (vy (sc_center m)) (vz (sc_center m)) scale;
                           projection := vec4 aspect z_max depth_span (sc_front_direction m);
                           su_animation := vec4 (fi_time input) f32_0 f32_0 f32_0 |};
          cb_input := input |}.

Section renderer.
Context {Mat Format : Type} `{Glam, GlamPose, !Transforms NodeTransform Mat, !GlamMesh Mat, !GlamFrame Mat, Sine, HashOrder, !SurfaceFormat Format}.
(** shader.wgsl *)
Context (base : string).
Implicit Types (scene : CpuVrmScene Mat).

(** ** Layouts *)

Definition scene_entries : list LayoutEntry :=
  [{| le_binding := 0; le_visibility := VERTEX_FRAGMENT; le_ty := BindUniform SIZE_OF_SCENE_UNIFORM |}].
Definition material_entries : list LayoutEntry :=
  [{| le_binding := 0; le_visibility := VERTEX_FRAGMENT; le_ty := BindTexture |};
   {| le_binding := 1; le_visibility := VERTEX_FRAGMENT; le_ty := BindSampler |};
   {| le_binding := 2; le_visibility := VERTEX_FRAGMENT; le_ty := BindUniform SIZE_OF_MATERIAL_UNIFORM |};
   {| le_binding := 3; le_visibility := FRAGMENT; le_ty := BindTexture |};
   {| le_binding := 4; le_visibility := FRAGMENT; le_ty := BindTexture |};
   {| le_binding := 5; le_visibility := FRAGMENT; le_ty := BindTexture |};
   {| le_binding := 6; le_visibility := FRAGMENT; le_ty := BindTexture |};
   {| le_binding := 7; le_visibility := VERTEX; le_ty := BindTexture |}].
Definition pose_entries : list LayoutEntry :=
  [{| le_binding := 0; le_visibility := VERTEX; le_ty := BindStorage 64 |};
   {| le_binding := 1; le_visibility := VERTEX; le_ty := BindStorage SIZE_OF_DELTA |};
   {| le_binding := 2; le_visibility := VERTEX; le_ty := BindStorage 4 |};
   {| le_binding := 3; le_visibility := VERTEX; le_ty := BindUniform SIZE_OF_DRAW_UNIFORM |}].

Definition resources_new (format : Format) : Gpu Mat Format (VrmRenderResources Format) :=
  scene_layout ← call (CreateBindGroupLayout "skid-vrm-scene-layout" scene_entries);
  material_layout ← call (CreateBindGroupLayout "skid-vrm-material-layout" material_entries);
  pose_layout ← call (CreateBindGroupLayout "skid-vrm-pose-layout" pose_entries);
  layout ← call (CreatePipelineLayout "skid-vrm-pipeline-layout" [scene_layout; material_layout; pose_layout]);
  uniform_buffer ← call (CreateBuffer "skid-vrm-scene-uniform" (CScene scene_uniform_zeroed) [UNIFORM; COPY_DST]);
  group ← call (CreateBindGroup "skid-vrm-scene-bind-group" scene_layout [(0%nat, RBuffer uniform_buffer)]);
  mret {| pipeline_layout := layout; target_format := format; material_bind_group_layout := material_layout;
          pose_bind_group_layout := pose_layout; scene_uniform_buffer := uniform_buffer; scene_bind_group := group; gpu_scene := None |}.

(** ** Textures and materials *)

Definition upload_texture (width height : Z) (pixels : list byte) : Gpu Mat Format GpuTexture :=
  texture ← call (CreateTexture "skid-vrm-texture" width height Rgba8Unorm [Rgba8UnormSrgb]);
  bytes_per_row ← lift (if width * 4 <=? u32_max then Some (width * 4) else None);
  _ ← call (WriteTexture texture pixels bytes_per_row height width height);
  linear ← call (CreateView texture Rgba8Unorm);
  srgb ← call (CreateView texture Rgba8UnormSrgb);
  sampler ← call (CreateSampler "skid-vrm-base-color-sampler");
  mret {| gt_texture := texture; srgb_view := srgb; linear_view := linear; gt_sampler := sampler |}.

Definition f32_of_bool (b : bool) : f32 := if b then f32_1 else f32_0.
Definition some_flag {A} (o : option A) : f32 := f32_of_bool (match o with Some _ => true | None => false end).

Definition material_uniform (material : CpuMaterial) : MaterialUniform :=
  let m := cm_mtoon material in
  {| mu_base_color := cm_base_color material;
     mu_alpha := vec4 (cm_alpha_cutoff material) (f32_of_bool (bool_decide (cm_alpha_mode material = Mask))) (f32_of_bool (mt_enabled m)) f32_0;
     mu_shade := vec4 (vx (shade_color m)) (vy (shade_color m)) (vz (shade_color m)) (shading_shift m);
     mu_toon := vec4 (shading_toony m) (gi_equalization m) (rim_fresnel_power m) (rim_lift m);
     mu_rim := vec4 (vx (parametric_rim_color m)) (vy (parametric_rim_color m)) (vz (parametric_rim_color m)) f32_0;
     mu_emissive_outline := vec4 (vx (emissive_color m)) (vy (emissive_color m)) (vz (emissive_color m)) (outline_width m);
     mu_outline := vec4 (vx (outline_color m)) (vy (outline_color m)) (vz (outline_color m)) (outline_lighting_mix m);
     mu_uv_animation := vec4 (uv_scroll m).1 (uv_scroll m).2 (uv_rotation m) f32_0;
     mu_matcap_normal := vec4 (vx (matcap_color m)) (vy (matcap_color m)) (vz (matcap_color m)) (normal_scale m);
     mu_texture_flags := vec4 (some_flag (shade_texture m)) (some_flag (normal_texture m)) (some_flag (matcap_texture m)) (some_flag (rim_texture m));
     mu_texture_flags_2 := vec4 (some_flag (outline_width_texture m)) (rim_lighting_mix m) (f32_of_bool (outline_width_texture_uses_red m)) f32_0 |}.

(** [index.filter(|index| *index < white_texture_index).unwrap_or(fallback)] *)
Definition texture_slot (index : option nat) (white fallback : nat) : nat :=
  match index with Some i => if (i <? white)%nat then i else fallback | None => fallback end.

Definition upload_material (layout : nat) (textures : list GpuTexture) (base_texture_index white neutral_normal : nat)
    (material : CpuMaterial) : Gpu Mat Format GpuMaterial :=
  let m := cm_mtoon material in
  let texture index fallback := lift (textures !! texture_slot index white fallback) in
  base_texture ← lift (textures !! base_texture_index);
  shade ← texture (shade_texture m) white;
  normal ← texture (normal_texture m) neutral_normal;
  matcap ← texture (matcap_texture m) white;
  rim ← texture (rim_texture m) white;
  width ← texture (outline_width_texture m) white;
  uniform_buffer ← call (CreateBuffer "skid-vrm-material-uniform" (CMaterial (material_uniform material)) [UNIFORM]);
  group ← call (CreateBindGroup "skid-vrm-material-bind-group" layout
    [(0%nat, RView (srgb_view base_texture)); (1%nat, RSampler (gt_sampler base_texture)); (2%nat, RBuffer uniform_buffer);
     (3%nat, RView (srgb_view shade)); (4%nat, RView (linear_view normal)); (5%nat, RView (srgb_view matcap));
     (6%nat, RView (srgb_view rim)); (7%nat, RView (linear_view width))]);
  mret {| gm_alpha := cm_alpha_mode material; gm_bind_group := group; gm_uniform_buffer := uniform_buffer;
          has_outline := mt_enabled m && SFltb F32_EPSILON (outline_width m);
          gm_transparent_with_z_write := transparent_with_z_write m; gm_render_queue_offset := render_queue_offset m |}.

(** ** Pipelines *)

Definition ATTRIBUTES : list VertexAttribute :=
  [{| at_location := 0; at_format := Float32x3; at_offset := 0 |};
   {| at_location := 1; at_format := Float32x3; at_offset := 12 |};
   {| at_location := 2; at_format := Float32x2; at_offset := 24 |};
   {| at_location := 3; at_format := Float32x4; at_offset := 32 |};
   {| at_location := 4; at_format := Uint16x4; at_offset := 48 |};
   {| at_location := 5; at_format := Float32x4; at_offset := 56 |}].
Definition create_pipeline (layout shader : nat) (format : Format) (config : PipelineConfig) : Gpu Mat Format nat :=
  call (CreateRenderPipeline layout shader format SIZE_OF_VERTEX ATTRIBUTES config).

Definition pipelines_new (layout : nat) (format : Format) (source : string) (custom : bool) : Gpu Mat Format VrmPipelines :=
  shader ← call (CreateShaderModule (if custom then "skid-vrm-custom-shader" else "skid-vrm-shader") source);
  let fragment := if is_srgb format then "fs_main_linear_framebuffer" else "fs_main_gamma_framebuffer" in
  let outline_fragment := if is_srgb format then "fs_outline_linear_framebuffer" else "fs_outline_gamma_framebuffer" in
  opaque ← create_pipeline layout shader format
    {| vertex_entry := "vs_main"; fragment_entry := fragment; blend_state := None; depth_write_enabled := true; cull_mode := None;
       pc_label := "skid-vrm-opaque-pipeline" |};
  blend ← create_pipeline layout shader format
    {| vertex_entry := "vs_main"; fragment_entry := fragment; blend_state := Some ALPHA_BLENDING; depth_write_enabled := false;
       cull_mode := None; pc_label := "skid-vrm-blend-pipeline" |};
  blend_depth_write ← create_pipeline layout shader format
    {| vertex_entry := "vs_main"; fragment_entry := fragment; blend_state := Some ALPHA_BLENDING; depth_write_enabled := true;
       cull_mode := None; pc_label := "skid-vrm-blend-depth-write-pipeline" |};
  outline ← create_pipeline layout shader format
    {| vertex_entry := "vs_outline"; fragment_entry := outline_fragment; blend_state := Some ALPHA_BLENDING; depth_write_enabled := true;
       cull_mode := Some Front; pc_label := "skid-vrm-outline-pipeline" |};
  outline_reversed ← create_pipeline layout shader format
    {| vertex_entry := "vs_outline"; fragment_entry := outline_fragment; blend_state := Some ALPHA_BLENDING; depth_write_enabled := true;
       cull_mode := Some Back; pc_label := "skid-vrm-outline-reversed-pipeline" |};
  mret {| pl_opaque := opaque; pl_blend := blend; pl_blend_depth_write := blend_depth_write; pl_outline := outline;
          pl_outline_reversed := outline_reversed |}.

(** ** upload_scene *)

Definition delta_zeroed : CpuMorphDelta := {| dl_position := vec4_zero; dl_normal := vec4_zero; dl_tangent := vec4_zero |}.

Definition upload_draw (layout : nat) (front_direction : f32) (source : nat) (draw : CpuDraw) (matrices : list Mat) : Gpu Mat Format GpuDraw :=
  pose ← call (CreateBuffer "skid-vrm-pose-matrices" (CMatrices matrices) [STORAGE; COPY_DST]);
  let targets := mt_index <$> dr_morphs draw in
  let deltas := concat (mt_deltas <$> dr_morphs draw) in
  let deltas := if (length deltas =? 0)%nat then [delta_zeroed] else deltas in
  delta_buffer ← call (CreateBuffer "skid-vrm-morph-deltas" (CDeltas deltas) [STORAGE]);
  weights_buffer ← call (CreateBuffer "skid-vrm-morph-weights" (CWeights (repeat f32_0 (Nat.max (length targets) 1))) [STORAGE; COPY_DST]);
  count ← lift (if dr_start draw <=? dr_end draw then Some (dr_end draw - dr_start draw) else None);
  uniform_buffer ← call (CreateBuffer "skid-vrm-draw-uniform"
    (CDraw {| vertex_start := dr_start draw; vertex_count := count; morph_count := Z.of_nat (length targets) `mod` 2 ^ 32 |}) [UNIFORM]);
  group ← call (CreateBindGroup "skid-vrm-pose-bind-group" layout
    [(0%nat, RBuffer pose); (1%nat, RBuffer delta_buffer); (2%nat, RBuffer weights_buffer); (3%nat, RBuffer uniform_buffer)]);
  mret {| source_draw_index := source; gd_start := dr_start draw; gd_end := dr_end draw; gd_material_index := dr_material draw;
          sort_depth := f32_mul (dr_center_z draw) front_direction; pose_bind_group := group; pose_buffer := pose;
          morph_target_indices := targets; morph_weights_buffer := weights_buffer; morph_delta_buffer := delta_buffer;
          draw_uniform_buffer := uniform_buffer |}.

(** The comparison of [draws.sort_by], a stable sort. *)
Definition queue_of (materials : list GpuMaterial) (d : GpuDraw) : Z :=
  match materials !! gd_material_index d with Some material => gm_render_queue_offset material | None => 0 end.
Definition draw_before (materials : list GpuMaterial) (l r : GpuDraw) : bool :=
  (queue_of materials l <? queue_of materials r) ||
  ((queue_of materials l =? queue_of materials r) && total_le (sort_depth l) (sort_depth r)).
Fixpoint insert_draw (materials : list GpuMaterial) (d : GpuDraw) (l : list GpuDraw) : list GpuDraw :=
  match l with
  | [] => [d]
  | e :: l' => if draw_before materials d e then d :: l else e :: insert_draw materials d l'
  end.
Definition sort_draws (materials : list GpuMaterial) (l : list GpuDraw) : list GpuDraw := foldr (insert_draw materials) [] l.

(** [enumerate().zip(pose_matrices)] *)
Definition numbered_draws (draws : list CpuDraw) (matrices : list (list Mat)) : list (nat * CpuDraw * list Mat) :=
  zip (zip (seq 0 (length draws)) draws) matrices.

Definition upload_scene (r : VrmRenderResources Format) scene : Gpu Mat Format GpuScene :=
  let m := meshes scene in
  vertices ← call (CreateBuffer "skid-vrm-vertices" (CVertices (sc_vertices m)) [VERTEX_BUFFER]);
  scene_textures ← gpu_map (λ t, upload_texture (tx_width t) (tx_height t) (rgba t)) (sc_textures m);
  let white := length scene_textures in
  white_texture ← upload_texture 1 1 [Byte.xff; Byte.xff; Byte.xff; Byte.xff];
  normal_texture ← upload_texture 1 1 [Byte.x80; Byte.x80; Byte.xff; Byte.xff];
  let textures := scene_textures ++ [white_texture; normal_texture] in
  materials ← gpu_map (λ material, upload_material (material_bind_group_layout r) textures (texture_slot (cm_texture material) white white)
                                     white (S white) material) (sc_materials m);
  matrices ← lift (pose_matrices scene f32_0);
  draws ← gpu_map (λ d, upload_draw (pose_bind_group_layout r) (sc_front_direction m) d.1.1 d.1.2 d.2) (numbered_draws (sc_draws m) matrices);
  let source := default base (custom_shader_source scene) in
  pipelines ← pipelines_new (pipeline_layout r) (target_format r) source (match custom_shader_source scene with Some _ => true | None => false end);
  mret {| gs_scene_id := scene_id scene; vertex_buffer := vertices; gs_draws := sort_draws materials draws; gs_materials := materials;
          gs_textures := textures; reversed_front_face := SFltb (sc_front_direction m) f32_0; gs_runtime := default_state;
          gs_pipelines := pipelines |}.

(** ** prepare *)

Definition with_scene (s : option GpuScene) (r : VrmRenderResources Format) : VrmRenderResources Format :=
  {| pipeline_layout := pipeline_layout r; target_format := target_format r; material_bind_group_layout := material_bind_group_layout r;
     pose_bind_group_layout := pose_bind_group_layout r; scene_uniform_buffer := scene_uniform_buffer r; scene_bind_group := scene_bind_group r;
     gpu_scene := s |}.
Definition with_runtime (state : VrmRuntimeState) (s : GpuScene) : GpuScene :=
  {| gs_scene_id := gs_scene_id s; vertex_buffer := vertex_buffer s; gs_draws := gs_draws s; gs_materials := gs_materials s;
     gs_textures := gs_textures s; reversed_front_face := reversed_front_face s; gs_runtime := state; gs_pipelines := gs_pipelines s |}.

Definition frame_weights (frame : CpuVrmFrame Mat) (d : CpuDraw) (targets : list nat) : list f32 :=
  (λ target, default f32_0 (fr_morph_weights frame !! (dr_node d, target))) <$> targets.
Definition write_draw scene (frame : CpuVrmFrame Mat) (draw : GpuDraw) : Gpu Mat Format () :=
  match pose_matrices_of frame !! source_draw_index draw with
  | None => mret ()
  | Some matrices =>
    _ ← call (WriteBuffer (pose_buffer draw) (CMatrices matrices));
    match sc_draws (meshes scene) !! source_draw_index draw with
    | None => mret ()
    | Some cpu_draw =>
      let weights := frame_weights frame cpu_draw (morph_target_indices draw) in
      if (length weights =? 0)%nat then mret ()
      else _ ← call (WriteBuffer (morph_weights_buffer draw) (CWeights weights)); mret ()
    end
  end.

Definition prepare (cb : VrmCallback Mat) (r : VrmRenderResources Format) : Gpu Mat Format (VrmRenderResources Format) :=
  let scene := cb_scene cb in
  s ← match gpu_scene r with
      | Some s => if gs_scene_id s =? scene_id scene then mret s else upload_scene r scene
      | None => upload_scene r scene
      end;
  frame ← lift (scene_frame scene (cb_input cb) (gs_runtime s));
  _ ← gpu_map (write_draw scene frame.1) (gs_draws s);
  _ ← call (WriteBuffer (scene_uniform_buffer r) (CScene (cb_uniform cb)));
  mret (with_scene (Some (with_runtime frame.2 s)) r).

(** [VrmClearCallback] *)
Definition prepare_clear (r : VrmRenderResources Format) : VrmRenderResources Format := with_scene None r.

(** ** paint *)

Definition draw_commands (s : GpuScene) (wanted : GpuMaterial → bool) : list PassCommand :=
  concat ((λ draw,
    match gs_materials s !! gd_material_index draw with
    | Some material =>
      if wanted material
      then [SetBindGroup 1 (gm_bind_group material); SetBindGroup 2 (pose_bind_group draw); DrawVertices (gd_start draw) (gd_end draw)]
      else []
    | None => []
    end) <$> gs_draws s).
Definition is_blend (material : GpuMaterial) : bool := bool_decide (gm_alpha material = Blend).

Definition paint (r : VrmRenderResources Format) : list PassCommand :=
  match gpu_scene r with
  | None => []
  | Some s =>
    [SetBindGroup 0 (scene_bind_group r); SetVertexBuffer 0 (vertex_buffer s);
     SetPipeline (if reversed_front_face s then pl_outline_reversed (gs_pipelines s) else pl_outline (gs_pipelines s))] ++
    draw_commands s has_outline ++
    [SetPipeline (pl_opaque (gs_pipelines s))] ++ draw_commands s (λ material, negb (is_blend material)) ++
    [SetPipeline (pl_blend_depth_write (gs_pipelines s))] ++
    draw_commands s (λ material, is_blend material && gm_transparent_with_z_write material) ++
    [SetPipeline (pl_blend (gs_pipelines s))] ++
    draw_commands s (λ material, is_blend material && negb (gm_transparent_with_z_write material))
  end.
End renderer.
