(* ===== verification/VrmDraws.v ===== *)
(** * What the renderer asks of the GPU (skid-monitor-fe, vrm/renderer.rs)

    [call_valid] and [pass_valid] are wgpu's documented validation rules, with
    its default limits.  [frame_prepared]: from any frame to the next, with
    any loaded model, the renderer breaks none of them and does not panic, and
    what the buffers hold is the frame of the model. *)

From stdpp Require Import sorting.
From S2P Require Import Prelude RustStr Otlp Json RustFloat FeProfile VrmJson VrmMtoon VrmGlb VrmOrder VrmGraph VrmBuffers VrmAnimation VrmFloat VrmHumanoid VrmRig VrmSpring VrmPlayback VrmMix VrmScene VrmDrawable VrmShader VrmLoad VrmModel VrmRuntime VrmWeights VrmFrame VrmRender.

(** ** Validation *)

(** [wgpu::Limits::default()] *)
Definition MAX_BUFFER_SIZE : Z := 256 * 1024 * 1024.
Definition MAX_UNIFORM_BINDING : Z := 64 * 1024.
Definition MAX_STORAGE_BINDING : Z := 128 * 1024 * 1024.
Definition MAX_TEXTURE_2D : Z := 8192.
Definition MAX_BIND_GROUPS : nat := 4.

Section valid.
Context {Mat Format : Type}.
Implicit Types (log : list (Call Mat Format)).

Definition is_buffer log (handle : nat) (contents : Contents Mat) (usage : BufferUsage) : Prop :=
  ∃ label usages, log !! handle = Some (CreateBuffer label contents usages) ∧ usage ∈ usages.

Definition resource_fits log (ty : BindingType) (resource : Resource) : Prop :=
  match ty, resource with
  | BindUniform least, RBuffer h => ∃ contents, is_buffer log h contents UNIFORM ∧ least ≤ byte_size contents ≤ MAX_UNIFORM_BINDING
  | BindStorage least, RBuffer h => ∃ contents, is_buffer log h contents STORAGE ∧ least ≤ byte_size contents ≤ MAX_STORAGE_BINDING ∧ (4 | byte_size contents)
  | BindTexture, RView h => ∃ texture format, log !! h = Some (CreateView texture format)
  | BindSampler, RSampler h => ∃ label, log !! h = Some (CreateSampler label)
  | _, _ => False
  end.

Definition format_size (f : VertexFormat) : Z := match f with Float32x2 => 8 | Float32x3 => 12 | Float32x4 => 16 | Uint16x4 => 8 end.

(** A call after the calls of [log]. *)
Definition call_valid log (c : Call Mat Format) : Prop :=
  match c with
  | CreateBindGroupLayout _ entries => NoDup (le_binding <$> entries)
  | CreatePipelineLayout _ layouts =>
    (length layouts ≤ MAX_BIND_GROUPS)%nat ∧ Forall (λ h, ∃ label entries, log !! h = Some (CreateBindGroupLayout label entries)) layouts
  | CreateBuffer _ contents _ => 0 < byte_size contents ≤ MAX_BUFFER_SIZE ∧ (4 | byte_size contents)
  | CreateTexture _ w h _ _ => 1 ≤ w ≤ MAX_TEXTURE_2D ∧ 1 ≤ h ≤ MAX_TEXTURE_2D
  | WriteTexture texture pixels bytes_per_row rows w h =>
    (∃ label format views, log !! texture = Some (CreateTexture label w h format views)) ∧
    w * 4 ≤ bytes_per_row ∧ h ≤ rows ∧ bytes_per_row * (h - 1) + w * 4 ≤ zlen pixels
  | CreateView texture format =>
    ∃ label w h own views, log !! texture = Some (CreateTexture label w h own views) ∧ (format = own ∨ format ∈ views)
  | CreateSampler _ => True
  | CreateBindGroup _ layout entries =>
    ∃ label wanted, log !! layout = Some (CreateBindGroupLayout label wanted) ∧
      Forall2 (λ want entry, le_binding want = entry.1 ∧ resource_fits log (le_ty want) entry.2) wanted entries
  | CreateShaderModule _ _ => True
  | CreateRenderPipeline layout shader _ stride attributes _ =>
    (∃ label layouts, log !! layout = Some (CreatePipelineLayout label layouts)) ∧
    (∃ label source, log !! shader = Some (CreateShaderModule label source)) ∧
    (4 | stride) ∧ Forall (λ a, at_offset a + format_size (at_format a) ≤ stride) attributes ∧ NoDup (at_location <$> attributes)
  | WriteBuffer buffer contents =>
    ∃ first, is_buffer log buffer first COPY_DST ∧ byte_size contents ≤ byte_size first ∧ (4 | byte_size contents)
  end.
Definition valid_log log : Prop := ∀ i c, log !! i = Some c → call_valid (take i log) c.

(** A pass: what is set when a command is reached. *)
Record PassState := { ps_pipeline : option nat; ps_groups : gmap nat nat; ps_vertices : option nat }.
Definition pass_start : PassState := {| ps_pipeline := None; ps_groups := ∅; ps_vertices := None |}.
Definition after_command (st : PassState) (c : PassCommand) : PassState :=
  match c with
  | SetBindGroup i g => {| ps_pipeline := ps_pipeline st; ps_groups := <[i := g]> (ps_groups st); ps_vertices := ps_vertices st |}
  | SetVertexBuffer _ b => {| ps_pipeline := ps_pipeline st; ps_groups := ps_groups st; ps_vertices := Some b |}
  | SetPipeline p => {| ps_pipeline := Some p; ps_groups := ps_groups st; ps_vertices := ps_vertices st |}
  | DrawVertices _ _ => st
  end.
Definition command_valid log (st : PassState) (c : PassCommand) : Prop :=
  match c with
  | SetBindGroup _ g => ∃ label layout entries, log !! g = Some (CreateBindGroup label layout entries)
  | SetVertexBuffer _ b => ∃ contents, is_buffer log b contents VERTEX_BUFFER
  | SetPipeline p => ∃ layout shader format stride attributes config,
      log !! p = Some (CreateRenderPipeline layout shader format stride attributes config)
  | DrawVertices first last => 0 ≤ first ≤ last ∧
      ∃ p layout shader format stride attributes config label layouts b contents, ps_pipeline st = Some p ∧
        log !! p = Some (CreateRenderPipeline layout shader format stride attributes config) ∧
        log !! layout = Some (CreatePipelineLayout label layouts) ∧
        (∀ i l, layouts !! i = Some l → ∃ g glabel entries, ps_groups st !! i = Some g ∧ log !! g = Some (CreateBindGroup glabel l entries)) ∧
        ps_vertices st = Some b ∧ is_buffer log b contents VERTEX_BUFFER ∧ last * stride ≤ byte_size contents
  end.
Fixpoint pass_valid log (st : PassState) (commands : list PassCommand) : Prop :=
  match commands with
  | [] => True
  | c :: commands => command_valid log st c ∧ pass_valid log (after_command st c) commands
  end.

(** What a buffer holds: what was written last, or what it was made with. *)
Definition holds log (handle : nat) : option (Contents Mat) :=
  foldl (λ now (ic : nat * Call Mat Format), match ic.2 with
    | CreateBuffer _ contents _ => if (ic.1 =? handle)%nat then Some contents else now
    | WriteBuffer b contents => if (b =? handle)%nat then Some contents else now
    | _ => now
    end) None (imap pair log).
End valid.

(** ** Calls that are valid *)

Section calculus.
Context {Mat Format : Type}.
Implicit Types (log : list (Call Mat Format)).

Lemma is_buffer_mono log more h contents usage : is_buffer log h contents usage → is_buffer (log ++ more) h contents usage.
Proof. intros (label & usages & Hl & Hu). exists label, usages. split; [by apply lookup_app_l_Some|done]. Qed.

(** [m] does not panic and adds valid calls only. *)
Definition runs {A} (m : Gpu Mat Format A) log (Q : A → list (Call Mat Format) → Prop) : Prop :=
  ∃ a more, m log = Some (a, log ++ more) ∧ valid_log (log ++ more) ∧ Q a (log ++ more).

Lemma runs_ret {A} (a : A) log (Q : A → list (Call Mat Format) → Prop) : valid_log log → Q a log → runs (mret a) log Q.
Proof. intros Hv HQ. exists a, []. rewrite app_nil_r. done. Qed.
Lemma runs_bind {A B} (m : Gpu Mat Format A) (k : A → Gpu Mat Format B) log P Q :
  runs m log P → (∀ a more, valid_log (log ++ more) → P a (log ++ more) → runs (k a) (log ++ more) Q) → runs (m ≫= k) log Q.
Proof.
  intros (a & more & E & Hv & HP) Hk. destruct (Hk a more Hv HP) as (b & more' & E' & Hv' & HQ). exists b, (more ++ more').
  unfold mbind, gpu_bind. rewrite E. simpl. rewrite E', <- app_assoc in *. done.
Qed.
Lemma runs_impl {A} (m : Gpu Mat Format A) log (P Q : A → list (Call Mat Format) → Prop) :
  runs m log P → (∀ a more, P a (log ++ more) → Q a (log ++ more)) → runs m log Q.
Proof. intros (a & more & E & Hv & HP) HQ. exists a, more. auto. Qed.
Lemma runs_lift {A} (o : option A) a log (Q : A → list (Call Mat Format) → Prop) : o = Some a → valid_log log → Q a log → runs (lift o) log Q.
Proof. intros -> Hv HQ. exists a, []. rewrite app_nil_r. done. Qed.
Lemma runs_call c log (Q : nat → list (Call Mat Format) → Prop) : valid_log log → call_valid log c → Q (length log) (log ++ [c]) → runs (call c) log Q.
Proof.
  intros Hv Hc HQ. exists (length log), [c]. split; [done|]. split; [|done]. intros i d Hi. apply lookup_app_Some in Hi as [Hi|[Hl Hi]].
  - rewrite take_app_le by (apply lookup_lt_Some in Hi; lia). by apply Hv.
  - apply list_lookup_singleton_Some in Hi as [Hi <-]. assert (i = length log) as -> by lia. by rewrite take_app_length.
Qed.
Lemma runs_call_bind {B} c (k : nat → Gpu Mat Format B) log Q : valid_log log → call_valid log c →
  (valid_log (log ++ [c]) → runs (k (length log)) (log ++ [c]) Q) → runs (call c ≫= k) log Q.
Proof.
  intros Hv Hc Hk. eapply (runs_bind _ _ _ (λ h log', h = length log ∧ log' = log ++ [c])); [by apply runs_call|].
  intros h more Hv' [-> E]. rewrite E in *. by apply Hk.
Qed.
Lemma runs_lift_bind {A B} (o : option A) a (k : A → Gpu Mat Format B) log Q : o = Some a → runs (k a) log Q → runs (lift o ≫= k) log Q.
Proof. intros -> Hk. exact Hk. Qed.
Lemma made {c} log : (log ++ [c]) !! length log = Some c.
Proof. by rewrite lookup_app_r, Nat.sub_diag. Qed.
Lemma made_at {c} log k l : l !! k = Some c → (log ++ l) !! (length log + k)%nat = Some c.
Proof. intros Hl. rewrite lookup_app_r by lia. by rewrite Nat.add_comm, Nat.add_sub. Qed.
(** What was called stays in the log. *)
Lemma kept {c h} log more : log !! h = Some c → (log ++ more) !! h = Some c.
Proof. apply lookup_app_l_Some. Qed.

Lemma runs_map {A B} (f : A → Gpu Mat Format B) (I : list (Call Mat Format) → Prop) (P : A → Prop) (Q : A → B → list (Call Mat Format) → Prop) l log :
  (∀ log more, I log → I (log ++ more)) → (∀ a b log more, Q a b log → Q a b (log ++ more)) →
  (∀ a log, P a → valid_log log → I log → runs (f a) log (Q a)) → Forall P l → valid_log log → I log →
  runs (gpu_map f l) log (λ k log, Forall2 (λ a b, Q a b log) l k).
Proof.
  intros HI HQ Hf Hl. revert log. induction Hl as [|a l Ha _ IH]; intros log Hv Hlog; [by apply runs_ret|].
  eapply runs_bind; [by apply Hf|]. intros b more Hv1 Hb. eapply runs_bind; [by apply IH; [|apply HI]|]. intros k more' Hv2 Hk.
  apply runs_ret; [done|]. constructor; [by apply HQ|done].
Qed.

(** What each turn makes has handles of its own: [width] of them from [h]. *)
Lemma runs_map_fresh {A B} (h : B → nat) (width : nat) (f : A → Gpu Mat Format B) (I : list (Call Mat Format) → Prop) (P : A → Prop)
    (Q : A → B → list (Call Mat Format) → Prop) l log :
  (∀ log more, I log → I (log ++ more)) → (∀ a b log more, Q a b log → Q a b (log ++ more)) →
  (∀ a log, P a → valid_log log → I log → runs (f a) log (λ b log', Q a b log' ∧ length log ≤ h b ∧ h b + width ≤ length log')%nat) →
  Forall P l → valid_log log → I log →
  runs (gpu_map f l) log (λ k log', Forall2 (λ a b, Q a b log') l k ∧ Forall (λ b, length log ≤ h b)%nat k ∧
    StronglySorted (λ b b', h b + width ≤ h b')%nat k).
Proof.
  intros HI HQ Hf Hl. revert log. induction Hl as [|a l Ha _ IH]; intros log Hv Hlog; [apply runs_ret; [done|]; split_and!; constructor|].
  eapply runs_bind; [by apply Hf|]. intros b more Hv1 (Hb & Hlo & Hhi). eapply runs_bind; [by apply IH; [|apply HI]|]. intros k more' Hv2 (Hk & Hfrom & Hs).
  apply runs_ret; [done|]. split_and!.
  - constructor; [by apply HQ|done].
  - constructor; [done|]. eapply Forall_impl; [exact Hfrom|]. simpl. intros b'. rewrite length_app. lia.
  - constructor; [done|]. eapply Forall_impl; [exact Hfrom|]. simpl. lia.
Qed.
End calculus.

(** ** The renderer's resources *)

Section resources.
Context {Mat Format : Type} `{Glam, GlamPose, !Transforms NodeTransform Mat, !GlamMesh Mat, !GlamFrame Mat, Sine, HashOrder, !SurfaceFormat Format}.
Context (base : string).
Implicit Types (log : list (Call Mat Format)) (r : VrmRenderResources Format).

(** The layouts and the buffer that stay the same. *)
Record res_ok r log : Prop := {
  rk_layout : ∃ label slabel mlabel plabel scene_layout,
    log !! pipeline_layout r = Some (CreatePipelineLayout label [scene_layout; material_bind_group_layout r; pose_bind_group_layout r]) ∧
    log !! scene_layout = Some (CreateBindGroupLayout slabel scene_entries) ∧
    log !! material_bind_group_layout r = Some (CreateBindGroupLayout mlabel material_entries) ∧
    log !! pose_bind_group_layout r = Some (CreateBindGroupLayout plabel pose_entries) ∧
    ∃ glabel entries, log !! scene_bind_group r = Some (CreateBindGroup glabel scene_layout entries);
  rk_uniform : ∃ u, is_buffer log (scene_uniform_buffer r) (CScene u) COPY_DST;
}.

Lemma res_ok_mono r log more : res_ok r log → res_ok r (log ++ more).
Proof.
  intros [(label & sl & ml & pl & sh & E1 & E2 & E3 & E4 & gl & entries & E5) (u & Hu)]. split.
  - exists label, sl, ml, pl, sh. split_and!; try by apply kept. exists gl, entries. by apply kept.
  - exists u. by apply is_buffer_mono.
Qed.

Lemma resources_ok format : runs (resources_new format) [] (λ r log, res_ok r log ∧ gpu_scene r = None ∧ target_format r = format).
Proof.
  eexists _, _. split; [reflexivity|]. split; [|split; [split|]].
  - intros i c Hi. destruct i as [|[|[|[|[|[|i]]]]]]; [injection Hi as <-..|done].
    + apply (bool_decide_unpack _). vm_compute. exact I.
    + apply (bool_decide_unpack _). vm_compute. exact I.
    + apply (bool_decide_unpack _). vm_compute. exact I.
    + split; [unfold MAX_BIND_GROUPS; simpl; lia|]. repeat constructor; by eexists _, _.
    + split; [done|]. by exists 12.
    + eexists _, _. split; [done|]. constructor; [|constructor]. split; [done|]. eexists. split; [eexists _, _; split; [done|left]|done].
  - simpl. eexists _, _, _, _, _. split_and!; [done..|]. by eexists _, _.
  - eexists. eexists _, _. split; [done|]. right. left.
  - done.
Qed.

(** ** Textures *)

Definition texture_on (t : GpuTexture) log : Prop :=
  (∃ texture format, log !! srgb_view t = Some (CreateView texture format)) ∧
  (∃ texture format, log !! linear_view t = Some (CreateView texture format)) ∧
  (∃ label, log !! gt_sampler t = Some (CreateSampler label)).
Lemma texture_on_mono t log more : texture_on t log → texture_on t (log ++ more).
Proof.
  intros ((? & ? & E1) & (? & ? & E2) & (? & E3)). split_and!; [eexists _, _; by apply kept|eexists _, _; by apply kept|eexists; by apply kept].
Qed.

Lemma upload_texture_ok w h pixels log : valid_log log → 1 ≤ w ≤ MAX_TEXTURE_2D → 1 ≤ h ≤ MAX_TEXTURE_2D → zlen pixels = w * h * 4 →
  runs (upload_texture w h pixels) log texture_on.
Proof.
  intros Hv Hw Hh Hp. unfold upload_texture. eapply runs_bind; [apply (runs_call _ _ (λ x log, log !! x = Some (CreateTexture "skid-vrm-texture" w h Rgba8Unorm [Rgba8UnormSrgb]))); [done|by split|apply made]|].
  intros texture more Hv1 Ht. eapply (runs_bind _ _ _ (λ b _, b = w * 4)).
  { eapply runs_lift; [|done|reflexivity]. assert ((w * 4 <=? u32_max) = true) as -> by (apply Z.leb_le; unfold MAX_TEXTURE_2D, u32_max in *; lia). done. }
  intros bytes more1 Hv2 ->. eapply runs_bind; [apply (runs_call _ _ (λ _ _, True)); [done| |done]|].
  { simpl. split; [eexists _, _, _; apply kept; exact Ht|]. split_and!; [lia|lia|nia]. }
  intros x1 more2 Hv3 _. eapply runs_bind; [apply (runs_call _ _ (λ x log, log !! x = Some (CreateView texture Rgba8Unorm))); [done| |apply made]|].
  { simpl. eexists _, _, _, _, _. split; [do 2 apply kept; exact Ht|by left]. }
  intros linear more3 Hv4 Hl. eapply runs_bind; [apply (runs_call _ _ (λ x log, log !! x = Some (CreateView texture Rgba8UnormSrgb))); [done| |apply made]|].
  { simpl. eexists _, _, _, _, _. split; [do 3 apply kept; exact Ht|right; left]. }
  intros srgb more4 Hv5 Hs. eapply runs_bind; [apply (runs_call _ _ (λ x log, log !! x = Some (CreateSampler "skid-vrm-base-color-sampler"))); [done|done|apply made]|].
  intros sampler more5 Hv6 Hm. apply runs_ret; [done|]. split_and!; simpl; [eexists _, _; apply kept; exact Hs|eexists _, _; do 2 apply kept; exact Hl|eexists; exact Hm].
Qed.

(** ** Materials *)

Record material_on r (m : CpuMaterial) (g : GpuMaterial) log : Prop := {
  ma_group : ∃ label entries, log !! gm_bind_group g = Some (CreateBindGroup label (material_bind_group_layout r) entries);
  ma_uniform : is_buffer log (gm_uniform_buffer g) (CMaterial (material_uniform m)) UNIFORM;
  ma_alpha : gm_alpha g = cm_alpha_mode m;
  ma_queue : gm_render_queue_offset g = render_queue_offset (cm_mtoon m);
  ma_outline : has_outline g = mt_enabled (cm_mtoon m) && SFltb F32_EPSILON (outline_width (cm_mtoon m));
  ma_z_write : gm_transparent_with_z_write g = transparent_with_z_write (cm_mtoon m);
}.
Lemma material_on_mono r m g log more : material_on r m g log → material_on r m g (log ++ more).
Proof. intros [(label & entries & E) U ? ? ? ?]. split; [|by apply is_buffer_mono|done..]. exists label, entries. by apply kept. Qed.

Lemma runs_slot (textures : list GpuTexture) i log : valid_log log → (i < length textures)%nat → runs (lift (textures !! i)) log (λ t _, t ∈ textures).
Proof. intros Hv [t Ht]%lookup_lt_is_Some_2. eapply runs_lift; [done..|]. by eapply list_elem_of_lookup_2. Qed.
Lemma slot_below index white fallback n : (white ≤ n)%nat → (fallback < n)%nat → (texture_slot index white fallback < n)%nat.
Proof. intros Hw Hf. unfold texture_slot. destruct index as [i|]; [|done]. destruct (i <? white)%nat eqn:E; [apply Nat.ltb_lt in E; lia|done]. Qed.

Lemma upload_material_ok r m textures base_index white log : valid_log log → res_ok r log → Forall (λ t, texture_on t log) textures →
  length textures = S (S white) → (base_index < S (S white))%nat →
  runs (upload_material (material_bind_group_layout r) textures base_index white (S white) m) log (material_on r m).
Proof.
  intros Hv Hr Ht Hl Hb. assert (∀ more t, t ∈ textures → texture_on t (log ++ more)) as Hin.
  { intros more t Hin. rewrite Forall_forall in Ht. by apply texture_on_mono, Ht. }
  unfold upload_material. cbv zeta. eapply runs_bind; [by apply runs_slot; [|rewrite Hl]|]. intros bt m1 V1 T1.
  do 5 (eapply runs_bind; [apply runs_slot; [done|apply slot_below; lia]|]; intros ? ? ? ?).
  rewrite <- !app_assoc. set (m2 := m1 ++ _). set (log2 := log ++ m2) in *. assert (valid_log log2) as V2 by (unfold log2, m2; rewrite !app_assoc in *; done).
  eapply runs_bind; [apply (runs_call _ _ (λ x log, log !! x = Some (CreateBuffer "skid-vrm-material-uniform" (CMaterial (material_uniform m)) [UNIFORM])));
    [done|split; [done|by exists 44]|apply made]|].
  intros ub m3 V3 Hub. destruct (rk_layout _ _ Hr) as (_ & _ & ml & _ & _ & _ & _ & Hml & _ & _).
  eapply runs_bind; [eapply (runs_call _ _ (λ x log, ∃ entries, log !! x = Some (CreateBindGroup "skid-vrm-material-bind-group" (material_bind_group_layout r) entries)));
    [done| |eexists; apply made]|].
  { simpl. exists ml, material_entries. split; [unfold log2; rewrite <- app_assoc; apply kept, Hml|].
    assert (∀ t, t ∈ textures → texture_on t (log2 ++ m3)) as Hon by (intros t Hin'; unfold log2; rewrite <- app_assoc; by apply Hin).
    repeat constructor; simpl; try (apply Hon; done). eexists. split; [eexists _, _; split; [exact Hub|left]|]. done. }
  intros g m4 V4 (entries & Hg). apply runs_ret; [done|]. split; simpl; [eexists _, _; exact Hg| |done..].
  eexists _, _. split; [apply kept; exact Hub|left].
Qed.

(** ** Draws *)

Record draw_on r (front : f32) (i : nat) (d : CpuDraw) (matrices : list Mat) (g : GpuDraw) log : Prop := {
  dw_source : source_draw_index g = i;
  dw_start : gd_start g = dr_start d;
  dw_end : gd_end g = dr_end d;
  dw_material : gd_material_index g = dr_material d;
  dw_depth : sort_depth g = f32_mul (dr_center_z d) front;
  dw_group : ∃ label entries, log !! pose_bind_group g = Some (CreateBindGroup label (pose_bind_group_layout r) entries);
  dw_pose : is_buffer log (pose_buffer g) (CMatrices matrices) COPY_DST;
  dw_targets : morph_target_indices g = mt_index <$> dr_morphs d;
  dw_weights : is_buffer log (morph_weights_buffer g) (CWeights (repeat f32_0 (Nat.max (length (dr_morphs d)) 1))) COPY_DST;
  dw_handles : morph_weights_buffer g = (pose_buffer g + 2)%nat;
  dw_uniform : is_buffer log (draw_uniform_buffer g)
    (CDraw {| vertex_start := dr_start d; vertex_count := dr_end d - dr_start d; morph_count := zlen (dr_morphs d) |}) UNIFORM;
}.
Lemma draw_on_mono r front i d matrices g log more : draw_on r front i d matrices g log → draw_on r front i d matrices g (log ++ more).
Proof.
  intros [? ? ? ? ? (label & entries & E) P ? W ? U]. split; try done; try by apply is_buffer_mono. exists label, entries. by apply kept.
Qed.

(** What the loader guarantees of a draw. *)
Record uploadable (d : CpuDraw) (matrices : list Mat) : Prop := {
  ud_range : 0 ≤ dr_start d < dr_end d;
  ud_third : 3 ≤ dr_end d - dr_start d;
  ud_deltas : Forall (λ m, zlen (mt_deltas m) = dr_end d - dr_start d) (dr_morphs d);
  ud_total : zlen (dr_morphs d) * (dr_end d - dr_start d) ≤ MAX_MORPH_DELTAS;
  ud_matrices : (1 ≤ length matrices ≤ MAX_SKIN_JOINTS)%nat;
}.

Lemma concat_deltas targets n : Forall (λ m, zlen (mt_deltas m) = n) targets → zlen (concat (mt_deltas <$> targets)) = zlen targets * n.
Proof. induction 1 as [|m targets Hm _ IH]; [done|]. rewrite fmap_cons. unfold zlen in *. simpl. rewrite length_app. lia. Qed.

Lemma upload_draw_ok r front i d matrices log : valid_log log → res_ok r log → uploadable d matrices →
  runs (upload_draw (pose_bind_group_layout r) front i d matrices) log
    (λ g log', draw_on r front i d matrices g log' ∧ length log ≤ pose_buffer g ∧ pose_buffer g + 5 ≤ length log')%nat.
Proof.
  intros Hv Hr [Rg Th Dl Tot Mx]. destruct (rk_layout _ _ Hr) as (_ & _ & _ & pl & _ & _ & _ & _ & Hpl & _). unfold upload_draw. cbv zeta.
  assert (zlen matrices ≤ 256 ∧ 1 ≤ zlen matrices) as [M1 M2] by (unfold zlen, MAX_SKIN_JOINTS in *; lia).
  pose proof (concat_deltas _ _ Dl) as Hcat. unfold MAX_MORPH_DELTAS in Tot.
  set (deltas := if (_ =? 0)%nat then _ else _). assert (1 ≤ zlen deltas ≤ 2000000) as Hd.
  { unfold deltas. destruct (length _ =? 0)%nat eqn:E; [done|]. apply Nat.eqb_neq in E. unfold zlen in *. lia. }
  assert (zlen (dr_morphs d) ≤ 2000000) as Hm by (unfold zlen in *; nia).
  set (weights := repeat f32_0 _). assert (1 ≤ zlen weights ≤ 2000000) as Hw by (unfold weights, zlen in *; rewrite repeat_length, length_fmap; lia).
  apply runs_call_bind; [done|split; [simpl; unfold SIZE_OF_MATRIX, MAX_BUFFER_SIZE; lia|exists (zlen matrices * 16); simpl; unfold SIZE_OF_MATRIX; lia]|]. intros V1.
  apply runs_call_bind; [done|split; [simpl; unfold SIZE_OF_DELTA, MAX_BUFFER_SIZE; lia|exists (zlen deltas * 12); simpl; unfold SIZE_OF_DELTA; lia]|]. intros V2.
  apply runs_call_bind; [done|split; [simpl; unfold MAX_BUFFER_SIZE; lia|exists (zlen weights); simpl; lia]|]. intros V3.
  eapply runs_lift_bind. { assert ((dr_start d <=? dr_end d) = true) as -> by (apply Z.leb_le; lia). reflexivity. }
  apply runs_call_bind; [done|split; [done|by exists 4]|]. intros V4.
  rewrite !length_app in *. cbn [length] in *. rewrite <- !app_assoc in *.
  assert (Z.of_nat (length (mt_index <$> dr_morphs d)) `mod` 2 ^ 32 = zlen (dr_morphs d)) as Hcount.
  { rewrite length_fmap, Z.mod_small; [done|]. unfold zlen in *. lia. }
  rewrite Hcount in *. cbn [app] in V4 |- *. set (new := _ :: _) in V4 |- *. set (h := length log).
  replace (h + 1 + 1 + 1)%nat with (h + 3)%nat by lia. replace (h + 1 + 1)%nat with (h + 2)%nat by lia.
  assert (∀ k c, new !! k = Some c → (log ++ new) !! (h + k)%nat = Some c) as Hat by (intros; by apply made_at).
  pose proof (Hat 0%nat _ eq_refl) as A0. rewrite Nat.add_0_r in A0. pose proof (Hat 1%nat _ eq_refl) as A1.
  pose proof (Hat 2%nat _ eq_refl) as A2. pose proof (Hat 3%nat _ eq_refl) as A3.
  apply runs_call_bind; [done| |].
  { simpl. exists pl, pose_entries. split; [by apply kept|].
    apply Forall2_cons_2; [split; [done|]|apply Forall2_cons_2; [split; [done|]|apply Forall2_cons_2; [split; [done|]|apply Forall2_cons_2; [split; [done|]|done]]]];
      simpl; eexists; (split; [eexists _, _; split; [eassumption|left]|]).
    - simpl. unfold SIZE_OF_MATRIX, MAX_STORAGE_BINDING. split; [lia|exists (zlen matrices * 16); lia].
    - simpl. unfold SIZE_OF_DELTA, MAX_STORAGE_BINDING. split; [lia|exists (zlen deltas * 12); lia].
    - simpl. unfold MAX_STORAGE_BINDING. split; [lia|exists (zlen weights); lia].
    - done. }
  intros V5. apply runs_ret; [done|]. split; [|simpl; rewrite !length_app; simpl; lia]. split; simpl; try done.
  - eexists _, _. apply made.
  - eexists _, _. split; [by apply kept|]. right. left.
  - eexists _, _. split; [apply kept; unfold weights in A2; rewrite length_fmap in A2; exact A2|]. right. left.
  - eexists _, _. split; [apply kept; exact A3|left].
Qed.

(** ** Pipelines *)

Definition is_pipeline r (h : nat) log : Prop := ∃ shader config,
  log !! h = Some (CreateRenderPipeline (pipeline_layout r) shader (target_format r) SIZE_OF_VERTEX ATTRIBUTES config).
Record pipelines_on r (p : VrmPipelines) log : Prop := {
  pp_opaque : is_pipeline r (pl_opaque p) log;
  pp_blend : is_pipeline r (pl_blend p) log;
  pp_blend_depth_write : is_pipeline r (pl_blend_depth_write p) log;
  pp_outline : is_pipeline r (pl_outline p) log;
  pp_outline_reversed : is_pipeline r (pl_outline_reversed p) log;
}.
Lemma is_pipeline_mono r h log more : is_pipeline r h log → is_pipeline r h (log ++ more).
Proof. intros (shader & config & E). exists shader, config. by apply kept. Qed.
Lemma pipelines_on_mono r p log more : pipelines_on r p log → pipelines_on r p (log ++ more).
Proof. intros [? ? ? ? ?]. split; by apply is_pipeline_mono. Qed.

Lemma pipeline_bind {B} r config shader (k : nat → Gpu Mat Format B) log Q : valid_log log → res_ok r log →
  (∃ label source, log !! shader = Some (CreateShaderModule label source)) →
  (∀ h more, valid_log (log ++ more) → is_pipeline r h (log ++ more) → runs (k h) (log ++ more) Q) →
  runs (create_pipeline (pipeline_layout r) shader (target_format r) config ≫= k) log Q.
Proof.
  intros Hv Hr Hs Hk. destruct (rk_layout _ _ Hr) as (label & _ & _ & _ & sl & E & _). apply runs_call_bind; [done| |].
  - split; [by eexists _, _|]. split; [done|]. split; [by exists 18|]. split; [|by apply (bool_decide_unpack _)].
    repeat constructor; vm_compute; congruence.
  - intros V. apply Hk; [done|]. exists shader, config. apply made.
Qed.
Lemma pipelines_ok r source custom log : valid_log log → res_ok r log →
  runs (pipelines_new (pipeline_layout r) (target_format r) source custom) log (pipelines_on r).
Proof.
  intros Hv Hr. unfold pipelines_new. apply runs_call_bind; [done|done|]. intros V. cbv zeta.
  set (shader := length log). pose proof (made (c := CreateShaderModule (if custom then "skid-vrm-custom-shader" else "skid-vrm-shader") source) log) as Hs.
  fold shader in Hs.
  apply pipeline_bind; [done|by apply res_ok_mono|by eexists _, _|]. intros h1 m1 V1 P1.
  apply pipeline_bind; [done|by do 2 apply res_ok_mono|eexists _, _; by apply kept|]. intros h2 m2 V2 P2.
  apply pipeline_bind; [done|by do 3 apply res_ok_mono|eexists _, _; by do 2 apply kept|]. intros h3 m3 V3 P3.
  apply pipeline_bind; [done|by do 4 apply res_ok_mono|eexists _, _; by do 3 apply kept|]. intros h4 m4 V4 P4.
  apply pipeline_bind; [done|by do 5 apply res_ok_mono|eexists _, _; by do 4 apply kept|]. intros h5 m5 V5 P5.
  apply runs_ret; [done|]. split; simpl; [by do 4 apply is_pipeline_mono|by do 3 apply is_pipeline_mono|by do 2 apply is_pipeline_mono|by apply is_pipeline_mono|done].
Qed.
End resources.

(** ** The order of the draws *)

Lemma draw_before_total materials a b : draw_before materials a b = false → draw_before materials b a = true.
Proof.
  unfold draw_before, total_le. intros [E1%Z.ltb_ge E2]%orb_false_iff. destruct (queue_of materials b <? queue_of materials a) eqn:E; [done|].
  apply Z.ltb_ge in E. assert (queue_of materials a = queue_of materials b) as Eq by lia. rewrite Eq, Z.eqb_refl in *. simpl in *.
  apply Z.leb_gt in E2. apply Z.leb_le. lia.
Qed.
Lemma draw_before_trans materials a b c : draw_before materials a b = true → draw_before materials b c = true → draw_before materials a c = true.
Proof.
  unfold draw_before, total_le. rewrite !orb_true_iff, !andb_true_iff, !Z.ltb_lt, !Z.eqb_eq, !Z.leb_le. lia.
Qed.
Lemma insert_draw_perm materials d l : insert_draw materials d l ≡ₚ d :: l.
Proof. induction l as [|e l IH]; simpl; [done|]. destruct (draw_before _ _ _); [done|]. rewrite IH. apply Permutation_swap. Qed.
Lemma sort_draws_perm materials l : sort_draws materials l ≡ₚ l.
Proof. induction l as [|d l IH]; simpl; [done|]. by rewrite insert_draw_perm, IH. Qed.
Lemma sort_draws_sorted materials l : StronglySorted (λ a b, draw_before materials a b = true) (sort_draws materials l).
Proof.
  induction l as [|d l IH]; simpl; [constructor|]. induction IH as [|e l' Hl IHl Hf]; simpl; [by repeat constructor|].
  destruct (draw_before materials d e) eqn:E; constructor; try done.
  - by constructor.
  - constructor; [done|]. eapply Forall_impl; [exact Hf|]. intros x. by apply draw_before_trans.
  - rewrite insert_draw_perm. constructor; [by apply draw_before_total|done].
Qed.

(** ** What a loaded scene gives the renderer *)

Section scene.
Context {Mat Format : Type} `{JsonFloat, JsonBytes, Glam, GlamPose, !Transforms NodeTransform Mat, !GltfCrate Mat, !GlamWorld Mat}.
Context `{!GlamMesh Mat, ImageDecoder, Naga} (base : string).
Context `{!GlamFrame Mat, Sine, !SineLaws, HashOrder, !HashOrderLaws, !SurfaceFormat Format}.
Implicit Types (log : list (Call Mat Format)) (r : VrmRenderResources Format) (scene : CpuVrmScene Mat).

(** The matrices a draw needs. *)
Definition matrix_count scene (d : CpuDraw) : nat :=
  match dr_skin d with
  | None => 1
  | Some k => match vs_skins scene !! k with Some skin => length (sk_joints skin) | None => 0 end
  end.
Lemma drawn_count scene worlds d matrices : drawn (vs_skins scene) worlds d matrices → length matrices = matrix_count scene d.
Proof.
  unfold drawn, matrix_count. destruct (dr_skin d) as [k|]; [by intros (skin & -> & ? & _)|]. by intros (world & _ & ->).
Qed.

Record draw_ready scene (d : CpuDraw) : Prop := {
  dd_range : 0 ≤ dr_start d ∧ dr_start d + 3 ≤ dr_end d ≤ zlen (sc_vertices (meshes scene));
  dd_material : (dr_material d < length (sc_materials (meshes scene)))%nat;
  dd_deltas : Forall (λ m, zlen (mt_deltas m) = dr_end d - dr_start d) (dr_morphs d);
  dd_total : zlen (dr_morphs d) * (dr_end d - dr_start d) ≤ MAX_MORPH_DELTAS;
  dd_matrices : (1 ≤ matrix_count scene d ≤ MAX_SKIN_JOINTS)%nat;
}.
Record scene_ready scene : Prop := {
  dy_vertices : 1 ≤ zlen (sc_vertices (meshes scene)) ≤ MAX_OUTPUT_VERTICES;
  dy_textures : Forall texture_ok (sc_textures (meshes scene));
  dy_draws : Forall (draw_ready scene) (sc_draws (meshes scene));
}.

Lemma tiles_thirds start draws fin : tiles start draws fin → Forall (λ d, dr_start d + 3 ≤ dr_end d) draws.
Proof.
  revert start. induction draws as [|d draws IH]; simpl; intros start; [constructor|]. intros (Es0 & Hlt & (k & Hk) & Ht). constructor; [lia|by eapply IH].
Qed.

Lemma loaded_ready scene : loaded_ok base scene → scene_ready scene.
Proof.
  intros (input & M & S & _ & E). assert (vs_skins scene = in_skins input) as Es by (by injection E).
  destruct (tiles_bounds _ _ _ (no_tiles _ _ S)) as [_ Hb]. pose proof (tiles_thirds _ _ _ (no_tiles _ _ S)) as Ht.
  assert (Forall (draw_ready scene) (sc_draws (meshes scene))) as Hd.
  { rewrite Forall_forall in Hb. rewrite Forall_forall in Ht. apply Forall_forall. intros d Hd. specialize (Hb d Hd). specialize (Ht d Hd). simpl in Hb, Ht.
    pose proof (no_draws _ _ S) as F. rewrite Forall_forall in F. destruct (F d Hd) as [Dm _ (n & Hn & _) Dl Dt]. split; [lia|done..|].
    unfold matrix_count. rewrite Es. destruct (dr_skin d) as [k|]; [|unfold MAX_SKIN_JOINTS; lia].
    destruct Hn as (skin & Hk & _). simpl in Hk. rewrite Hk. pose proof (mo_skins _ M) as K. rewrite Forall_lookup in K. apply (K k skin Hk). }
  split; [|apply S|done]. split; [|apply S]. pose proof (no_empty _ _ S) as Hne. destruct (sc_draws (meshes scene)) as [|d draws]; [done|].
  apply Forall_cons in Hd as [[] _]. lia.
Qed.

(** The pose the scene is uploaded with. *)
Lemma rest_pose scene : loaded_ok base scene → ∃ matrices, pose_matrices scene f32_0 = Some matrices ∧
  Forall2 (λ d ms, length ms = matrix_count scene d) (sc_draws (meshes scene)) matrices.
Proof.
  intros Hl. destruct (frame_is_drawn base scene (pose_input f32_0) default_state Hl) as (frame & state & E & F); [split; by apply (bool_decide_unpack _)|].
  unfold pose_matrices. rewrite E. eexists. split; [reflexivity|]. destruct (fo_drawn _ _ _ _ F) as (_ & worlds & _ & D).
  eapply Forall2_impl; [exact D|]. intros d ms. apply drawn_count.
Qed.

(** ** The scene on the GPU *)

Record scene_on r scene (s : GpuScene) log : Prop := {
  so_id : gs_scene_id s = scene_id scene;
  so_vertices : is_buffer log (vertex_buffer s) (CVertices (sc_vertices (meshes scene))) VERTEX_BUFFER;
  so_materials : Forall2 (λ m g, material_on r m g log) (sc_materials (meshes scene)) (gs_materials s);
  so_draws : ∃ l matrices, gs_draws s = sort_draws (gs_materials s) l ∧
    Forall2 (λ d ms, length ms = matrix_count scene d) (sc_draws (meshes scene)) matrices ∧
    Forall2 (λ d g, draw_on r (sc_front_direction (meshes scene)) d.1.1 d.1.2 d.2 g log) (numbered_draws (sc_draws (meshes scene)) matrices) l ∧
    StronglySorted (λ g g', pose_buffer g + 5 ≤ pose_buffer g')%nat l;
  so_front : reversed_front_face s = SFltb (sc_front_direction (meshes scene)) f32_0;
  so_pipelines : pipelines_on r (gs_pipelines s) log;
}.
Lemma scene_on_mono r scene s log more : scene_on r scene s log → scene_on r scene s (log ++ more).
Proof.
  intros [I V M (l & ms & E & C & D & S) F P]. split; [done|by apply is_buffer_mono| | |done|by apply pipelines_on_mono].
  - eapply Forall2_impl; [exact M|]. intros m g. apply material_on_mono.
  - exists l, ms. split_and!; [done|done| |done]. eapply Forall2_impl; [exact D|]. intros d g. apply draw_on_mono.
Qed.

Lemma numbered_forall scene matrices : scene_ready scene → Forall2 (λ d ms, length ms = matrix_count scene d) (sc_draws (meshes scene)) matrices →
  Forall (λ d : nat * CpuDraw * list Mat, uploadable d.1.2 d.2) (numbered_draws (sc_draws (meshes scene)) matrices).
Proof.
  intros R C. apply Forall_lookup. intros i [[n d] ms] (E1 & E2)%lookup_zip_Some. apply lookup_zip_Some in E1 as [_ E1]. simpl in *.
  pose proof (Forall2_lookup_lr _ _ _ _ _ _ C E1 E2) as L. simpl in L. pose proof (dy_draws _ R) as F. rewrite Forall_lookup in F.
  destruct (F i d E1) as [? ? ? ? ?]. split; [lia|lia|done|done|by rewrite L].
Qed.

Lemma upload_scene_ok r scene log : valid_log log → res_ok r log → loaded_ok base scene →
  runs (upload_scene base r scene) log (λ s log', scene_on r scene s log' ∧ gs_runtime s = default_state).
Proof.
  intros Hv Hr Hl. pose proof (loaded_ready scene Hl) as R. destruct (rest_pose scene Hl) as (matrices & Em & C).
  unfold upload_scene. cbv zeta. pose proof (dy_vertices _ R) as Hvs.
  apply runs_call_bind; [done| |].
  { split; [simpl|exists (zlen (sc_vertices (meshes scene)) * 18); simpl]; unfold SIZE_OF_VERTEX, MAX_BUFFER_SIZE, MAX_OUTPUT_VERTICES, MAX_TRIANGLES in *; lia. }
  intros V1. set (vb := length log). set (log1 := log ++ _) in *.
  assert (is_buffer log1 vb (CVertices (sc_vertices (meshes scene))) VERTEX_BUFFER) as Hvb by (eexists _, _; split; [apply made|left]).
  assert (res_ok r log1) as R1 by (by apply res_ok_mono).
  eapply runs_bind; [apply (runs_map _ (λ _, True) texture_ok (λ _ t log, texture_on t log)); [done|intros _ t ? ?; apply texture_on_mono| |apply R|done|done]|].
  { intros t l [Tw Th Tb] Hvl _. apply upload_texture_ok; unfold MAX_TEXTURE_DIMENSION, MAX_TEXTURE_2D in *; lia || done. }
  intros textures m1 V2 T1. eapply runs_bind; [by apply upload_texture_ok|]. intros white m2 V3 T2.
  eapply runs_bind; [by apply upload_texture_ok|]. intros neutral m3 V4 T3. set (log2 := ((log1 ++ m1) ++ m2) ++ m3) in *.
  assert (Forall (λ t, texture_on t log2) (textures ++ [white; neutral])) as Ht.
  { apply Forall_app. split; [|constructor; [by apply texture_on_mono|constructor; [done|constructor]]].
    apply Forall_lookup. intros i t Hi. destruct (Forall2_lookup_r _ _ _ _ _ T1 Hi) as (ct & _ & Hon). simpl in Hon. by do 2 apply texture_on_mono. }
  eapply runs_bind.
  { apply (runs_map _ (λ log, res_ok r log ∧ Forall (λ t, texture_on t log) (textures ++ [white; neutral])) (λ _, True) (λ m g log, material_on r m g log)).
    - intros l more [? F]. split; [by apply res_ok_mono|]. eapply Forall_impl; [exact F|]. intros t. apply texture_on_mono.
    - intros m g l more. apply material_on_mono.
    - intros m l _ Hvl [Hrl Htl]. apply upload_material_ok; [done..|rewrite length_app; simpl; lia|]. apply slot_below; lia.
    - by apply Forall_true.
    - done.
    - split; [unfold log2; by do 3 apply res_ok_mono|done]. }
  intros materials m4 V5 M1. eapply runs_lift_bind; [exact Em|]. set (log3 := log2 ++ m4) in *.
  assert (res_ok r log3) as R3 by (unfold log3, log2; by do 4 apply res_ok_mono).
  eapply runs_bind.
  { apply (runs_map_fresh pose_buffer 5 _ (res_ok r) (λ d : nat * CpuDraw * list Mat, uploadable d.1.2 d.2)
      (λ (d : nat * CpuDraw * list Mat) g log, draw_on r (sc_front_direction (meshes scene)) d.1.1 d.1.2 d.2 g log)).
    - intros l more. apply res_ok_mono.
    - intros d g l more. apply draw_on_mono.
    - intros d l Hd Hvl Hrl. by apply upload_draw_ok.
    - by apply numbered_forall.
    - done.
    - done. }
  intros draws m5 V6 (D1 & _ & D3). eapply runs_bind; [apply pipelines_ok; [done|by apply res_ok_mono]|]. intros p m6 V7 P1.
  apply runs_ret; [done|]. split; [|done]. split; simpl; [done| | | |done|exact P1].
  - unfold log3, log2. by do 6 apply is_buffer_mono.
  - eapply Forall2_impl; [exact M1|]. intros m g Hm. by do 2 apply material_on_mono.
  - exists draws, matrices. split_and!; [done|done| |done]. eapply Forall2_impl; [exact D1|]. intros d g. apply draw_on_mono.
Qed.

(** ** The pass *)

Lemma pass_valid_app log st c1 c2 : pass_valid log st (c1 ++ c2) ↔ pass_valid log st c1 ∧ pass_valid log (foldl after_command st c1) c2.
Proof. revert st. induction c1 as [|c c1 IH]; intros st; simpl; [tauto|]. rewrite IH. tauto. Qed.

Record pass_ready r (s : GpuScene) log (st : PassState) : Prop := {
  py_pipeline : ∃ p, ps_pipeline st = Some p ∧ is_pipeline r p log;
  py_group : ps_groups st !! 0%nat = Some (scene_bind_group r);
  py_vertices : ps_vertices st = Some (vertex_buffer s);
}.

(** A draw of the scene, with its material. *)
Lemma draw_of r scene s log g : scene_ready scene → scene_on r scene s log → g ∈ gs_draws s →
  ∃ i d ms m, sc_draws (meshes scene) !! i = Some d ∧ draw_on r (sc_front_direction (meshes scene)) i d ms g log ∧
    length ms = matrix_count scene d ∧ draw_ready scene d ∧
    ∃ cm, gs_materials s !! gd_material_index g = Some m ∧ material_on r cm m log.
Proof.
  intros R [_ _ M (l & matrices & E & C & D & _) _ _] Hg. rewrite E, sort_draws_perm in Hg. apply list_elem_of_lookup in Hg as [k Hk].
  destruct (Forall2_lookup_r _ _ _ _ _ D Hk) as ([[i d] ms] & (E1 & E2)%lookup_zip_Some & Hd). apply lookup_zip_Some in E1 as [Hi E1].
  apply lookup_seq in Hi as [-> _]. simpl in *. pose proof (dy_draws _ R) as F. rewrite Forall_lookup in F. specialize (F k d E1).
  destruct (lookup_lt_is_Some_2 _ _ (dd_material _ _ F)) as [cm Hcm]. destruct (Forall2_lookup_l _ _ _ _ _ M Hcm) as (m & Hm & Hon).
  exists k, d, ms, m. split_and!; [done|done|exact (Forall2_lookup_lr _ _ _ _ _ _ C E1 E2)|done|]. exists cm. rewrite (dw_material _ _ _ _ _ _ _ Hd). done.
Qed.

Lemma one_draw_valid r scene s log st g m cm i d ms : res_ok r log → scene_on r scene s log → pass_ready r s log st →
  draw_on r (sc_front_direction (meshes scene)) i d ms g log → draw_ready scene d → material_on r cm m log →
  pass_valid log st [SetBindGroup 1 (gm_bind_group m); SetBindGroup 2 (pose_bind_group g); DrawVertices (gd_start g) (gd_end g)].
Proof.
  intros Hr Hs [(p & Ep & shader & config & Hp) Eg Ev] Hd [Rg _ _ _ _] Hm. destruct (ma_group _ _ _ _ Hm) as (mlabel & mentries & Hmg).
  destruct (dw_group _ _ _ _ _ _ _ Hd) as (plabel & pentries & Hpg).
  destruct (rk_layout _ _ Hr) as (label & _ & _ & _ & sl & El & _ & _ & _ & glabel & gentries & Hsg).
  simpl. split; [by eexists _, _, _|]. split; [by eexists _, _, _|]. split; [|done]. rewrite (dw_start _ _ _ _ _ _ _ Hd), (dw_end _ _ _ _ _ _ _ Hd).
  split; [lia|]. exists p, (pipeline_layout r), shader, (target_format r), SIZE_OF_VERTEX, ATTRIBUTES, config, label,
    [sl; material_bind_group_layout r; pose_bind_group_layout r], (vertex_buffer s), (CVertices (sc_vertices (meshes scene))).
  split_and!; [done|done|done| |done|apply Hs|simpl; unfold SIZE_OF_VERTEX; lia].
  intros [|[|[|k]]] layout Hl; simplify_eq/=; [exists (scene_bind_group r)|exists (gm_bind_group m)|exists (pose_bind_group g)].
  - exists glabel, gentries. split; [|done]. by rewrite !lookup_insert_ne.
  - exists mlabel, mentries. split; [|done]. by rewrite lookup_insert_ne, lookup_insert_eq.
  - exists plabel, pentries. split; [|done]. by rewrite lookup_insert_eq.
Qed.

Lemma draws_valid r scene s log wanted : res_ok r log → scene_ready scene → scene_on r scene s log → ∀ st, pass_ready r s log st →
  pass_valid log st (draw_commands s wanted) ∧ pass_ready r s log (foldl after_command st (draw_commands s wanted)).
Proof.
  intros Hr R Hs. unfold draw_commands. assert (∀ g, g ∈ gs_draws s → g ∈ gs_draws s) as Hin by done. revert Hin. generalize (gs_draws s) at 1 3 4.
  intros draws. induction draws as [|g draws IH]; intros Hin st Hst; [done|]. cbn [fmap list_fmap concat].
  destruct (draw_of r scene s log g R Hs (Hin g ltac:(left))) as (i & d & ms & m & _ & Hd & _ & Hdr & cm & Em & Hm). rewrite Em.
  destruct (wanted m); [|apply IH; [intros; apply Hin; by right|done]]. rewrite pass_valid_app, foldl_app.
  assert (pass_ready r s log (foldl after_command st [SetBindGroup 1 (gm_bind_group m); SetBindGroup 2 (pose_bind_group g); DrawVertices (gd_start g) (gd_end g)])) as Hst'.
  { destruct Hst as [P G V]. split; simpl; [done| |done]. by rewrite !lookup_insert_ne. }
  destruct (IH (λ g' Hg, Hin g' (list_elem_of_further _ _ _ Hg)) _ Hst') as [IH1 IH2]. split; [|exact IH2]. split; [|exact IH1]. by eapply one_draw_valid.
Qed.

Lemma set_pipeline r s log st p : is_pipeline r p log → pass_ready r s log st →
  command_valid log st (SetPipeline p) ∧ pass_ready r s log (after_command st (SetPipeline p)).
Proof.
  intros Hp [_ G V]. split; [|split; [by exists p|done..]]. destruct Hp as (shader & config & Hp). by eexists _, _, _, _, _, _.
Qed.

Lemma paint_valid r scene s log : res_ok r log → scene_ready scene → gpu_scene r = Some s → scene_on r scene s log → pass_valid log pass_start (paint r).
Proof.
  intros Hr R Es Hs. unfold paint. rewrite Es. pose proof (so_pipelines _ _ _ _ Hs) as [P1 P2 P3 P4 P5].
  destruct (rk_layout _ _ Hr) as (_ & _ & _ & _ & sl & _ & _ & _ & _ & glabel & entries & Hsg).
  set (p0 := if reversed_front_face s then _ else _). assert (is_pipeline r p0 log) as P0 by (unfold p0; by destruct (reversed_front_face s)).
  cbn [app]. split; [by eexists _, _, _|]. split; [eexists; apply Hs|]. split; [destruct P0 as (shader & config & Hp); by eexists _, _, _, _, _, _|].
  match goal with |- pass_valid log ?st _ => set (st0 := st) end.
  assert (pass_ready r s log st0) as Hready1 by (split; [by exists p0|done|done]).
  rewrite pass_valid_app. destruct (draws_valid r scene s log has_outline Hr R Hs _ Hready1) as [V1 Hready1']. split; [exact V1|]. clear V1.
  destruct (set_pipeline r s log _ _ P1 Hready1') as [C2 Hready2]. split; [exact C2|].
  rewrite pass_valid_app. destruct (draws_valid r scene s log (λ material, negb (is_blend material)) Hr R Hs _ Hready2) as [V2 Hready2']. split; [exact V2|]. clear V2.
  destruct (set_pipeline r s log _ _ P3 Hready2') as [C3 Hready3]. split; [exact C3|].
  rewrite pass_valid_app. destruct (draws_valid r scene s log (λ material, is_blend material && gm_transparent_with_z_write material) Hr R Hs _ Hready3) as [V3 Hready3'].
  split; [exact V3|]. clear V3. destruct (set_pipeline r s log _ _ P2 Hready3') as [C4 Hready4]. split; [exact C4|]. by eapply draws_valid.
Qed.
End scene.

(** * A frame on the GPU (skid-monitor-fe, vrm/renderer.rs)

    [frame_prepared]: for any loaded model, whatever was on the GPU before,
    preparing a frame breaks no rule of wgpu and does not panic; afterwards
    every buffer holds the matrices and weights of that frame, and the pass
    draws every triangle of the model once. *)

(** ** What a buffer holds *)

Section holds.
Context {Mat Format : Type}.
Implicit Types (log : list (Call Mat Format)).

Lemma holds_snoc log c h : holds (log ++ [c]) h = match c with
  | CreateBuffer _ contents _ => if (length log =? h)%nat then Some contents else holds log h
  | WriteBuffer b contents => if (b =? h)%nat then Some contents else holds log h
  | _ => holds log h
  end.
Proof. unfold holds. rewrite imap_app, foldl_app. simpl. rewrite Nat.add_0_r. by destruct c. Qed.

(** Writes that wgpu accepts after [log]. *)
Definition write_ok log (w : nat * Contents Mat) : Prop :=
  ∃ first, is_buffer log w.1 first COPY_DST ∧ byte_size w.2 ≤ byte_size first ∧ (4 | byte_size w.2).
Definition writes (l : list (nat * Contents Mat)) : list (Call Mat Format) := (λ w, WriteBuffer w.1 w.2) <$> l.

Lemma writes_valid log l : valid_log log → Forall (write_ok log) l → valid_log (log ++ writes l).
Proof.
  intros Hv Hl i c Hi. apply lookup_app_Some in Hi as [Hi|[Hle Hi]].
  - rewrite take_app_le by (apply lookup_lt_Some in Hi; lia). by apply Hv.
  - unfold writes in Hi. rewrite list_lookup_fmap in Hi. destruct (l !! _) as [[b contents]|] eqn:E; [|done]. injection Hi as <-.
    rewrite Forall_lookup in Hl. destruct (Hl _ _ E) as (first & Hb & Hs & H4). exists first. split; [|done].
    rewrite take_app_ge by done. by apply is_buffer_mono.
Qed.
Lemma holds_other log l h : h ∉ l.*1 → holds (log ++ writes l) h = holds log h.
Proof.
  induction l as [|[b contents] l IH] using rev_ind; intros Hh; [by rewrite app_nil_r|]. rewrite fmap_app in Hh. unfold writes. rewrite fmap_app, app_assoc. simpl.
  rewrite holds_snoc. assert ((b =? h)%nat = false) as -> by (apply Nat.eqb_neq; intros ->; apply Hh, elem_of_app; right; left). apply IH. intros Hin. apply Hh, elem_of_app. by left.
Qed.
Lemma holds_written log l h contents : NoDup l.*1 → (h, contents) ∈ l → holds (log ++ writes l) h = Some contents.
Proof.
  intros Hn (l1 & l2 & ->)%list_elem_of_split. rewrite fmap_app in Hn. simpl in Hn. apply NoDup_app in Hn as (_ & _ & [Hh _]%NoDup_cons).
  unfold writes. rewrite fmap_app. simpl. rewrite (app_assoc log), cons_middle, app_assoc.
  change (holds (((log ++ writes l1) ++ [WriteBuffer h contents]) ++ writes l2) h = Some contents).
  rewrite holds_other by done. by rewrite holds_snoc, Nat.eqb_refl.
Qed.
End holds.

Section prepared.
Context {Mat Format : Type} `{JsonFloat, JsonBytes, Glam, GlamPose, !Transforms NodeTransform Mat, !GltfCrate Mat, !GlamWorld Mat}.
Context `{!GlamMesh Mat, ImageDecoder, Naga} (base : string).
Context `{!GlamFrame Mat, Sine, !SineLaws, HashOrder, !HashOrderLaws, !SurfaceFormat Format}.
Implicit Types (log : list (Call Mat Format)) (r : VrmRenderResources Format) (scene : CpuVrmScene Mat).

(** ** The writes of a frame *)

Definition draw_writes scene (frame : CpuVrmFrame Mat) (g : GpuDraw) : list (nat * Contents Mat) :=
  match pose_matrices_of frame !! source_draw_index g with
  | None => []
  | Some matrices =>
    (pose_buffer g, CMatrices matrices) ::
    match sc_draws (meshes scene) !! source_draw_index g with
    | None => []
    | Some d => let weights := frame_weights frame d (morph_target_indices g) in
                if (length weights =? 0)%nat then [] else [(morph_weights_buffer g, CWeights weights)]
    end
  end.

Lemma write_draw_log scene frame g log : write_draw scene frame g log = Some ((), log ++ writes (draw_writes scene frame g)).
Proof.
  unfold write_draw, draw_writes. destruct (_ !! source_draw_index g); [|by rewrite app_nil_r]. destruct (sc_draws (meshes scene) !! _) as [d|]; [|done].
  cbv zeta. destruct (length (frame_weights _ _ _) =? 0)%nat; [done|].
  unfold mbind, gpu_bind, call, mret, gpu_ret. simpl. by rewrite <- app_assoc.
Qed.
Lemma write_draws_log scene frame gs log : ∃ units, gpu_map (write_draw scene frame) gs log =
  Some (units, log ++ writes (concat (draw_writes scene frame <$> gs))).
Proof.
  revert log. induction gs as [|g gs IH]; intros log; [exists []; by rewrite app_nil_r|]. destruct (IH (log ++ writes (draw_writes scene frame g))) as (units & E).
  exists (() :: units). cbn [gpu_map]. unfold mbind, gpu_bind. rewrite write_draw_log. simpl. rewrite E. simpl.
  unfold mret, gpu_ret, writes. by rewrite <- app_assoc, fmap_app.
Qed.

(** The draws have buffers of their own. *)
Lemma draw_handles scene frame g : morph_weights_buffer g = (pose_buffer g + 2)%nat →
  NoDup (draw_writes scene frame g).*1 ∧ ∀ h, h ∈ (draw_writes scene frame g).*1 → (pose_buffer g ≤ h < pose_buffer g + 5)%nat.
Proof.
  intros E. unfold draw_writes. destruct (_ !! source_draw_index g); [|split; [constructor|intros h Hh; by apply elem_of_nil in Hh]].
  assert (NoDup [pose_buffer g] ∧ ∀ h, h ∈ [pose_buffer g] → (pose_buffer g ≤ h < pose_buffer g + 5)%nat) as Hone.
  { split; [apply NoDup_singleton|]. intros h ->%list_elem_of_singleton. lia. }
  destruct (sc_draws (meshes scene) !! _); [|exact Hone]. cbv zeta. destruct (_ =? 0)%nat; [exact Hone|]. simpl. rewrite E. split.
  - constructor; [|apply NoDup_singleton]. intros Hh%list_elem_of_singleton. lia.
  - intros h [->|Hh]%elem_of_cons; [lia|]. apply list_elem_of_singleton in Hh. lia.
Qed.
Lemma handles_apart scene frame l : Forall (λ g, morph_weights_buffer g = (pose_buffer g + 2)%nat) l →
  StronglySorted (λ g g', pose_buffer g + 5 ≤ pose_buffer g')%nat l → NoDup (concat (draw_writes scene frame <$> l)).*1.
Proof.
  intros Hw Hs. assert (∀ k, Forall (λ g, morph_weights_buffer g = (pose_buffer g + 2)%nat) k → ∀ h, h ∈ (concat (draw_writes scene frame <$> k)).*1 →
    ∃ g, g ∈ k ∧ (pose_buffer g ≤ h)%nat) as Hin.
  { induction 1 as [|g k Hg _ IH]; intros h Hh; [by apply elem_of_nil in Hh|]. rewrite fmap_cons in Hh. cbn [concat] in Hh. rewrite fmap_app in Hh.
    apply elem_of_app in Hh as [Hh|Hh]; [exists g; split; [left|by apply (draw_handles scene frame g Hg)]|]. destruct (IH h Hh) as (g' & ? & ?). exists g'. split; [by right|done]. }
  induction Hs as [|g l Hs IH Hf]; [constructor|]. apply Forall_cons in Hw as [Hg Hw]. rewrite fmap_cons. cbn [concat]. rewrite fmap_app. apply NoDup_app.
  destruct (draw_handles scene frame g Hg) as [N B]. split_and!; [done| |by apply IH]. intros h Hh Hlater. destruct (Hin l Hw h Hlater) as (g' & Hg' & Hle).
  rewrite Forall_forall in Hf. specialize (Hf g' Hg'). specialize (B h Hh). lia.
Qed.
Lemma scene_handles r scene s log frame : scene_on r scene s log → NoDup (concat (draw_writes scene frame <$> gs_draws s)).*1.
Proof.
  intros [_ _ _ (l & matrices & E & _ & D & Hs) _ _]. rewrite E, sort_draws_perm. apply handles_apart; [|done].
  apply Forall_lookup. intros k g Hk. destruct (Forall2_lookup_r _ _ _ _ _ D Hk) as (d & _ & Hd). by apply (dw_handles _ _ _ _ _ _ _ Hd).
Qed.

Definition right_sizes scene (frame : CpuVrmFrame Mat) : Prop :=
  Forall2 (λ d ms, length ms = matrix_count scene d) (sc_draws (meshes scene)) (pose_matrices_of frame).

Lemma draw_writes_ok r scene s log frame g : scene_ready scene → scene_on r scene s log → right_sizes scene frame → g ∈ gs_draws s →
  Forall (write_ok log) (draw_writes scene frame g).
Proof.
  intros R Hs C Hg. destruct (draw_of r scene s log g R Hs Hg) as (i & d & ms & _ & Hi & Hd & L & Hr & _). unfold draw_writes.
  rewrite (dw_source _ _ _ _ _ _ _ Hd), Hi. destruct (pose_matrices_of frame !! i) as [ms'|] eqn:E; [|constructor].
  pose proof (Forall2_lookup_lr _ _ _ _ _ _ C Hi E) as L'. simpl in L'. constructor.
  { exists (CMatrices ms). split; [apply Hd|]. simpl. unfold zlen. rewrite L, L'. split; [done|]. exists (Z.of_nat (matrix_count scene d) * 16). unfold SIZE_OF_MATRIX. lia. }
  cbv zeta. destruct (_ =? 0)%nat eqn:E0; [constructor|]. apply Nat.eqb_neq in E0. constructor; [|constructor]. eexists. split; [apply Hd|]. simpl.
  unfold frame_weights, zlen in *. rewrite length_fmap, (dw_targets _ _ _ _ _ _ _ Hd), length_fmap in *. rewrite repeat_length. split; [lia|]. eexists. reflexivity.
Qed.

(** ** What a frame leaves on the GPU *)

Record frame_on r scene (frame : CpuVrmFrame Mat) (s : GpuScene) log : Prop := {
  fn_poses g d matrices : g ∈ gs_draws s → sc_draws (meshes scene) !! source_draw_index g = Some d →
    pose_matrices_of frame !! source_draw_index g = Some matrices → holds log (pose_buffer g) = Some (CMatrices matrices);
  fn_weights g d : g ∈ gs_draws s → sc_draws (meshes scene) !! source_draw_index g = Some d → dr_morphs d ≠ [] →
    holds log (morph_weights_buffer g) = Some (CWeights (frame_weights frame d (mt_index <$> dr_morphs d)));
}.

Lemma frame_written r scene s log frame uniform : scene_ready scene → res_ok r log → scene_on r scene s log → right_sizes scene frame → valid_log log →
  let l := concat (draw_writes scene frame <$> gs_draws s) ++ [(scene_uniform_buffer r, CScene uniform)] in
  valid_log (log ++ writes l) ∧ frame_on r scene frame s (log ++ writes l) ∧ holds (log ++ writes l) (scene_uniform_buffer r) = Some (CScene uniform).
Proof.
  intros R Hr Hs C Hv l. destruct (rk_uniform _ _ Hr) as (u & label & usages & Hu & Hcopy).
  assert (∀ g h, g ∈ gs_draws s → h ∈ (draw_writes scene frame g).*1 → ∃ i d ms, draw_on r (sc_front_direction (meshes scene)) i d ms g log ∧ (h = pose_buffer g ∨ h = morph_weights_buffer g)) as Hwho.
  { intros g h Hg Hh. destruct (draw_of r scene s log g R Hs Hg) as (i & d & ms & _ & _ & Hd & _). exists i, d, ms. split; [done|]. unfold draw_writes in Hh.
    destruct (_ !! source_draw_index g); [|by apply elem_of_nil in Hh]. destruct (sc_draws (meshes scene) !! _); [|apply list_elem_of_singleton in Hh; by left].
    cbv zeta in Hh. destruct (_ =? 0)%nat; [apply list_elem_of_singleton in Hh; by left|].
    apply elem_of_cons in Hh as [->|Hh]; [by left|]. apply list_elem_of_singleton in Hh. by right. }
  assert (NoDup l.*1) as Hn.
  { unfold l. rewrite fmap_app. apply NoDup_app. split_and!; [by eapply scene_handles| |apply NoDup_singleton]. intros h Hh ->%list_elem_of_singleton.
    apply list_elem_of_fmap in Hh as (w & Ew & Hw%list_elem_of_In%in_concat). destruct Hw as (ws & Hws & Hw). apply list_elem_of_In in Hws, Hw.
    apply list_elem_of_fmap in Hws as (g & -> & Hg). destruct (Hwho g (scene_uniform_buffer r) Hg) as (i & d & ms & Hd & [E|E]); [simpl in Ew; rewrite Ew; by apply list_elem_of_fmap_2| |].
    - destruct (dw_pose _ _ _ _ _ _ _ Hd) as (? & ? & Hp & _). rewrite <- E in Hp. congruence.
    - destruct (dw_weights _ _ _ _ _ _ _ Hd) as (? & ? & Hp & _). rewrite <- E in Hp. congruence. }
  assert (∀ g w, g ∈ gs_draws s → w ∈ draw_writes scene frame g → w ∈ l) as Hin.
  { intros g w Hg Hw. unfold l. apply elem_of_app. left. apply list_elem_of_In, in_concat. exists (draw_writes scene frame g).
    split; apply list_elem_of_In; [by apply list_elem_of_fmap_2|done]. }
  split_and!.
  - apply writes_valid; [done|]. unfold l. apply Forall_app. split.
    + apply Forall_concat, Forall_fmap, Forall_forall. intros g Hg. by eapply draw_writes_ok.
    + constructor; [|constructor]. exists (CScene u). split; [by exists label, usages|]. split; [done|]. by exists 12.
  - split.
    + intros g d matrices Hg Hd Hm. apply holds_written; [done|]. apply (Hin g); [done|]. unfold draw_writes. rewrite Hm. left.
    + intros g d Hg Hd Hne. apply holds_written; [done|]. apply (Hin g); [done|]. unfold draw_writes.
      destruct (draw_of r scene s log g R Hs Hg) as (i & d' & ms & _ & Hi & Hon & _). rewrite (dw_source _ _ _ _ _ _ _ Hon) in *.
      assert (d' = d) as -> by congruence. destruct (Forall2_lookup_l _ _ _ _ _ C Hi) as (m & -> & _). rewrite Hd, (dw_targets _ _ _ _ _ _ _ Hon). cbv zeta.
      destruct (_ =? 0)%nat eqn:E0; [|right; left]. apply Nat.eqb_eq in E0. unfold frame_weights in E0. rewrite !length_fmap in E0. by destruct (dr_morphs d).
  - apply holds_written; [done|]. unfold l. apply elem_of_app. right. left.
Qed.

(** ** What the pass draws *)

Definition range_of (c : PassCommand) : option (Z * Z) := match c with DrawVertices first last => Some (first, last) | _ => None end.
Definition ranges (commands : list PassCommand) : list (Z * Z) := omap range_of commands.
Definition outlined scene (d : CpuDraw) : bool :=
  match sc_materials (meshes scene) !! dr_material d with
  | Some m => mt_enabled (cm_mtoon m) && SFltb F32_EPSILON (outline_width (cm_mtoon m))
  | None => false
  end.
Definition draw_range (d : CpuDraw) : Z * Z := (dr_start d, dr_end d).

(** What a draw adds to a part of the pass. *)
Definition part_ranges (materials : list GpuMaterial) (wanted : GpuMaterial → bool) (g : GpuDraw) : list (Z * Z) :=
  match materials !! gd_material_index g with Some m => if wanted m then [(gd_start g, gd_end g)] else [] | None => [] end.
Lemma commands_ranges s wanted : ranges (draw_commands s wanted) = gs_draws s ≫= part_ranges (gs_materials s) wanted.
Proof.
  unfold ranges, draw_commands. induction (gs_draws s) as [|g draws IH]; [done|]. cbn [fmap list_fmap concat mbind list_bind]. rewrite omap_app, IH.
  f_equal. unfold part_ranges. destruct (_ !! gd_material_index g) as [m|]; [|done]. by destruct (wanted m).
Qed.

Lemma paint_ranges r scene s log : scene_ready scene → gpu_scene r = Some s → scene_on r scene s log →
  ranges (paint r) ≡ₚ (draw_range <$> sc_draws (meshes scene)) ++ (draw_range <$> filter (λ d, outlined scene d = true) (sc_draws (meshes scene))).
Proof.
  intros R Es [_ _ M (l & matrices & E & C & D & _) _ _]. unfold paint. rewrite Es. unfold ranges. rewrite !omap_app. fold (ranges (draw_commands s has_outline)).
  fold (ranges (draw_commands s (λ material, negb (is_blend material)))). fold (ranges (draw_commands s (λ material, is_blend material && gm_transparent_with_z_write material))).
  fold (ranges (draw_commands s (λ material, is_blend material && negb (gm_transparent_with_z_write material)))). cbn [omap list_omap app range_of].
  rewrite !commands_ranges, E, !sort_draws_perm.
  assert (Forall2 (λ d g, (gd_start g, gd_end g) = draw_range d ∧ ∃ m, gs_materials s !! gd_material_index g = Some m ∧ has_outline m = outlined scene d)
    (sc_draws (meshes scene)) l) as F.
  { apply Forall2_same_length_lookup. split; [apply Forall2_length in C, D; unfold numbered_draws in D; rewrite !length_zip_with, length_seq in D; lia|].
    intros i d g Hd Hg. destruct (Forall2_lookup_r _ _ _ _ _ D Hg) as ([[j d'] ms] & (E1 & _)%lookup_zip_Some & On). apply lookup_zip_Some in E1 as [_ E1]. simpl in *.
    assert (d' = d) as -> by congruence. destruct On as [_ S1 S2 Sm _ _ _ _ _ _ _]. unfold draw_range. rewrite S1, S2, Sm. split; [done|].
    pose proof (dy_draws _ R) as Dr. rewrite Forall_lookup in Dr. destruct (lookup_lt_is_Some_2 _ _ (dd_material _ _ (Dr i d Hd))) as [cm Hcm].
    destruct (Forall2_lookup_l _ _ _ _ _ M Hcm) as (m & Hm & On). exists m. split; [done|]. unfold outlined. rewrite Hcm. apply On. }
  clear E C D. induction F as [|d g draws l [Er (m & Em & Eo)] _ IH]; [done|]. cbn [mbind list_bind fmap list_fmap].
  unfold part_ranges at 1 3 5 7. rewrite Em, Er, Eo. rewrite filter_cons. 
  assert ((if decide (outlined scene d = true) then d :: filter (λ d, outlined scene d = true) draws else filter (λ d, outlined scene d = true) draws) =
    (if outlined scene d then [d] else []) ++ filter (λ d, outlined scene d = true) draws) as -> by (destruct (outlined scene d); [by rewrite decide_True|by rewrite decide_False]).
  rewrite fmap_app. assert (draw_range <$> (if outlined scene d then [d] else []) = if outlined scene d then [draw_range d] else []) as -> by (by destruct (outlined scene d)).
  revert IH. set (o := if outlined scene d then _ else _). set (oo := l ≫= _). set (oa := l ≫= _). set (ob := l ≫= _). set (oc := l ≫= _).
  set (x := draw_range <$> draws). set (y := draw_range <$> filter _ draws). intros IH.
  transitivity (draw_range d :: o ++ (oo ++ oa ++ ob ++ oc)); [|rewrite IH; rewrite !(app_assoc o), (Permutation_app_comm o x), <- !app_assoc; done].
  destruct (is_blend m), (gm_transparent_with_z_write m); cbn [negb andb app]; solve_Permutation.
Qed.

(** ** prepare *)

(** The resources before a frame: nothing is on the GPU, or a loaded scene;
    scenes are told apart by their ids. *)
Definition before_frame r scene log : Prop :=
  gpu_scene r = None ∨ ∃ s old, gpu_scene r = Some s ∧ scene_on r old s log ∧ (gs_scene_id s = scene_id scene → old = scene).

(** What is on the GPU after it. *)
Record prepared r (cb : VrmCallback Mat) (s : GpuScene) log : Prop := {
  pd_resources : res_ok r log;
  pd_gpu : gpu_scene r = Some s;
  pd_scene : scene_on r (cb_scene cb) s log;
  pd_frame : ∃ frame state, scene_frame (cb_scene cb) (cb_input cb) state = Some (frame, gs_runtime s) ∧
    frame_ok (cb_scene cb) (cb_input cb) frame (gs_runtime s) ∧ frame_on r (cb_scene cb) frame s log;
  pd_uniform : holds log (scene_uniform_buffer r) = Some (CScene (cb_uniform cb));
}.

(** They are about the layouts, which stay. *)
Lemma material_on_scene r x m g log : material_on r m g log → material_on (with_scene x r) m g log.
Proof. by intros [? ? ? ? ? ?]; split. Qed.
Lemma draw_on_scene r x front i d matrices g log : draw_on r front i d matrices g log → draw_on (with_scene x r) front i d matrices g log.
Proof. by intros [? ? ? ? ? ? ? ? ? ? ?]; split. Qed.
Lemma scene_on_runtime r x state scene s log : scene_on r scene s log → scene_on (with_scene x r) scene (with_runtime state s) log.
Proof.
  intros [Hi Hv M (l & matrices & E & C & D & Hs) F [? ? ? ? ?]]. split; [done|done| | |done|by split].
  - eapply Forall2_impl; [exact M|]. intros m g. apply material_on_scene.
  - exists l, matrices. split_and!; [done|done| |done]. eapply Forall2_impl; [exact D|]. intros d g. apply draw_on_scene.
Qed.
Lemma res_ok_scene r x log : res_ok r log → res_ok (with_scene x r) log.
Proof. by intros [? ?]; split. Qed.

Lemma frame_is_prepared cb r log : valid_log log → res_ok r log → before_frame r (cb_scene cb) log → loaded_ok base (cb_scene cb) → input_ok (cb_input cb) →
  runs (prepare base cb r) log (λ r' log', ∃ s, prepared r' cb s log').
Proof.
  intros Hv Hr Hb Hl Hi. pose proof (loaded_ready base _ Hl) as R. unfold prepare. cbv zeta.
  eapply (runs_bind _ _ _ (λ s log', scene_on r (cb_scene cb) s log')).
  { assert (runs (upload_scene base r (cb_scene cb)) log (λ s log', scene_on r (cb_scene cb) s log')) as Hup.
    { eapply runs_impl; [by apply upload_scene_ok|]. by intros s more [? _]. }
    destruct Hb as [->|(s & old & -> & Hs & Hid)]; [exact Hup|]. destruct (gs_scene_id s =? _) eqn:E; [|exact Hup]. apply Z.eqb_eq in E. rewrite (Hid E) in Hs.
    by apply runs_ret. }
  intros s m1 V1 Hs. set (log1 := log ++ m1) in *. destruct (frame_is_drawn base (cb_scene cb) (cb_input cb) (gs_runtime s) Hl Hi) as (frame & state & E & F).
  eapply runs_lift_bind; [exact E|]. cbn [fst snd]. destruct (write_draws_log (cb_scene cb) frame (gs_draws s) log1) as (units & Ew).
  assert (right_sizes (cb_scene cb) frame) as C.
  { destruct (fo_drawn _ _ _ _ F) as (_ & worlds & _ & D). eapply Forall2_impl; [exact D|]. intros d ms. apply drawn_count. }
  assert (res_ok r log1) as R1 by (by apply res_ok_mono).
  destruct (frame_written r (cb_scene cb) s log1 frame (cb_uniform cb) R R1 Hs C V1) as (V2 & Fo & U).
  set (l := concat _ ++ _) in *. exists (with_scene (Some (with_runtime state s)) r), (writes l). split.
  { unfold mbind, gpu_bind. rewrite Ew. simpl. unfold mret, gpu_ret, l, writes. by rewrite fmap_app, <- app_assoc. }
  split; [done|]. exists (with_runtime state s). split; [by apply res_ok_scene, res_ok_mono|done|by apply scene_on_runtime, scene_on_mono| |exact U].
  exists frame, (gs_runtime s). split; [done|]. split; [done|]. destruct Fo as [P W]. by split.
Qed.

(** Preparing a frame of a loaded model, with nothing, the same model or
    another one on the GPU, never panics, and every call is valid under wgpu's
    rules and default limits: buffers and textures are within the limits,
    bind groups match their layouts, writes fit their buffers.  The scene on
    the GPU is then the model; each draw's buffers hold the frame's matrices
    and weights; the render pass is valid, and it draws every range of the
    model once, and once more where the material has an outline. *)
Theorem frame_prepared cb r log : valid_log log → res_ok r log → before_frame r (cb_scene cb) log → loaded_ok base (cb_scene cb) → input_ok (cb_input cb) →
  ∃ r' more s, prepare base cb r log = Some (r', log ++ more) ∧ valid_log (log ++ more) ∧ prepared r' cb s (log ++ more) ∧
    pass_valid (log ++ more) pass_start (paint r') ∧
    ranges (paint r') ≡ₚ (draw_range <$> sc_draws (meshes (cb_scene cb))) ++
      (draw_range <$> filter (λ d, outlined (cb_scene cb) d = true) (sc_draws (meshes (cb_scene cb)))).
Proof.
  intros Hv Hr Hb Hl Hi. destruct (frame_is_prepared cb r log Hv Hr Hb Hl Hi) as (r' & more & E & V & s & P). pose proof (loaded_ready base _ Hl) as R.
  exists r', more, s. pose proof P as [P1 P2 P3 _ _]. split_and!; [done|done|done|by eapply paint_valid|by eapply paint_ranges].
Qed.
End prepared.
