(* ===== verification/VrmStage.v ===== *)
(** * The character on screen (skid-monitor-fe, components/avatar.rs)

    [show]: what the presenter shows for a node, and the frame that is painted
    for it.  A stage is the model cache with its loader thread, and the GPU.
    [stage_shows_current]: in every run of both, what is on the GPU after a
    frame is the model that the current profile asks for. *)

From S2P Require Import Prelude RustStr Otlp RustFloat FeAlert FeEdge FeProfile Json VrmJson VrmMtoon VrmGlb VrmOrder VrmGraph VrmBuffers VrmHumanoid VrmRig VrmSpring VrmAnimation VrmFloat VrmPlayback VrmMix VrmScene VrmDrawable VrmShader VrmLoad VrmModel VrmRuntime VrmWeights VrmFrame VrmCache VrmRender VrmDraws.

(** ** What the presenter shows *)

Inductive AvatarAlertState := Idle | Concerned | Urgent.
Definition from_severity (severity : option AlertSeverity) : AvatarAlertState :=
  match severity with Some Critical => Urgent | Some Warning => Concerned | None => Idle end.
Definition state_label (s : AvatarAlertState) : string := match s with Idle => "Healthy" | Concerned => "Warning" | Urgent => "Critical" end.

Record AvatarPresenterInput := {
  ap_state : AvatarAlertState;
  ap_model_name : string;
  ap_message : string;
  ap_motion : AvatarMotion;
  ap_expression : string;
  ap_crossfade_seconds : f32;
  ap_spring_bone_enabled : bool;
  ap_look_at_enabled : bool;
  active_alert_count : Z;
}.
Definition for_node (nodes : list NodeSummary) (alerts : AlertStore) (profile : AvatarReactionProfile) : AvatarPresenterInput :=
  let node := head nodes in
  let severity := node ≫= λ node, highest_for_presenter alerts (ns_endpoint node) (ns_node node) in
  let action := action_for profile severity in
  {| ap_state := from_severity severity; ap_model_name := model_name profile; ap_message := act_message action;
     ap_motion := motion action; ap_expression := expression action; ap_crossfade_seconds := animation_crossfade_seconds profile;
     ap_spring_bone_enabled := FeProfile.spring_bone_enabled profile; ap_look_at_enabled := FeProfile.look_at_enabled profile;
     active_alert_count := match node with Some node => active_count_for_presenter alerts (ns_endpoint node) (ns_node node) | None => 0 end |}.

(** Where the character looks: at the pointer, if it is over the panel. *)
Definition look_angles (pointer : option (f32 * f32)) (center : f32 * f32) (width height : f32) : f32 * f32 :=
  match pointer with
  | None => (f32_0, f32_0)
  | Some (x, y) =>
    let horizontal := f32_clamp (f32_div (f32_sub x center.1) (f32_mul width (f32_lit 1 2))) (SFopp f32_1) f32_1 in
    let vertical := f32_clamp (f32_div (f32_sub y center.2) (f32_mul height (f32_lit 1 2))) (SFopp f32_1) f32_1 in
    (f32_mul (SFopp horizontal) (f32_of_Z 45), f32_mul vertical (f32_of_Z 30))
  end.

(** egui's rectangles; the size is that of a [Vec2]. *)
Record Rect := { rect_min : f32 * f32; rect_max : f32 * f32 }.
Class Egui := {
  rect_center : Rect → f32 * f32;
  rect_size : Rect → f32 * f32;
  from_center_size : f32 * f32 → f32 * f32 → Rect;
  rect_translate : Rect → f32 * f32 → Rect;
  rect_shrink : Rect → f32 → Rect;
  rect_contains : Rect → f32 * f32 → bool;
}.
(** What egui tells a panel: the time as an [f32], where the pointer is, and
    the rectangle that is allocated for the character. *)
Record Panel := {
  pn_time : f32;
  pn_pointer : option (f32 * f32);
  pn_rect : Rect;
}.

Definition PULSE_SCALE : f32 := f32_lit 4 100.
Definition BOUNCE_DISTANCE : f32 := f32_of_Z 12.
Definition SHAKE_DISTANCE : f32 := f32_of_Z 6.
(** [std::f32::consts::TAU] *)
Definition F32_TAU : f32 := S754_finite false 13176795 (-21).

Section panel.
Context `{Egui, Sine}.
Definition motion_rect (rect : Rect) (motion : AvatarMotion) (seconds : f32) : Rect :=
  match motion with
  | Still => rect
  | Pulse =>
    let scale := f32_add f32_1 (f32_mul PULSE_SCALE (f32_sin (f32_mul seconds F32_TAU))) in
    from_center_size (rect_center rect) (f32_mul (rect_size rect).1 scale, f32_mul (rect_size rect).2 scale)
  | Bounce =>
    let offset := f32_mul (SFopp BOUNCE_DISTANCE) (SFabs (f32_sin (f32_mul (f32_mul seconds F32_TAU) (f32_lit 15 10)))) in
    rect_translate rect (f32_0, offset)
  | Shake =>
    let offset := f32_mul SHAKE_DISTANCE (f32_sin (f32_mul (f32_mul seconds F32_TAU) (f32_of_Z 8))) in
    rect_translate rect (offset, f32_0)
  end.
(** The size of the rectangle the character is painted in. *)
Definition character_size (input : AvatarPresenterInput) (panel : Panel) : f32 * f32 :=
  rect_size (rect_shrink (motion_rect (pn_rect panel) (ap_motion input) (pn_time panel)) (f32_of_Z 12)).
Definition pointer_over (panel : Panel) : option (f32 * f32) :=
  pn_pointer panel ≫= λ pointer, if rect_contains (pn_rect panel) pointer then Some pointer else None.
Definition frame_input (input : AvatarPresenterInput) (panel : Panel) : FrameInput :=
  let look := look_angles (pointer_over panel) (rect_center (pn_rect panel)) (rect_size (pn_rect panel)).1 (rect_size (pn_rect panel)).2 in
  {| fi_time := pn_time panel; crossfade_seconds := ap_crossfade_seconds input; fi_expression := ap_expression input;
     look_yaw_degrees := look.1; look_pitch_degrees := look.2; VrmRuntime.spring_bone_enabled := ap_spring_bone_enabled input;
     VrmRuntime.look_at_enabled := ap_look_at_enabled input |}.
End panel.

Section stage.
Context {Mat Format : Type} `{JsonFloat, JsonBytes, Glam, GlamPose, !Transforms NodeTransform Mat, !GltfCrate Mat, !GlamWorld Mat}.
Context `{!GlamMesh Mat, ImageDecoder, Naga, ImageReader} (base : string).
Context `{!GlamFrame Mat, Sine, HashOrder, !SurfaceFormat Format, Egui}.

Record Stage := {
  sg_cache : AvatarModelCache Mat;
  sg_resources : VrmRenderResources Format;
  sg_log : list (Call Mat Format);
}.
(** The part of [show] that is the character's: a model is painted, anything
    else clears it; egui then prepares the callback that was added. *)
Definition show (input : AvatarPresenterInput) (panel : Panel) (st : Stage) : option Stage :=
  match vrm_scene (sg_cache st) with
  | None => Some {| sg_cache := sg_cache st; sg_resources := prepare_clear (sg_resources st); sg_log := sg_log st |}
  | Some scene =>
    match paint_callback (character_size input panel).1 (character_size input panel).2 scene (frame_input input panel) with
    | None => Some st
    | Some callback =>
      '(resources, log) ← prepare base callback (sg_resources st) (sg_log st);
      Some {| sg_cache := sg_cache st; sg_resources := resources; sg_log := log |}
    end
  end.

Inductive StageEvent := CacheDoes (e : Event) | Shows (input : AvatarPresenterInput) (panel : Panel).
Definition stage_step (st : Stage) (e : StageEvent) : option Stage :=
  match e with
  | CacheDoes e => Some {| sg_cache := handle base (sg_cache st) e; sg_resources := sg_resources st; sg_log := sg_log st |}
  | Shows input panel => show input panel st
  end.
Fixpoint run_from (events : list StageEvent) (st : Stage) : option Stage :=
  match events with [] => Some st | e :: events => st ← stage_step st e; run_from events st end.
Definition run_stage (format : Format) (events : list StageEvent) : option Stage :=
  '(resources, log) ← resources_new format [];
  run_from events {| sg_cache := cache_default; sg_resources := resources; sg_log := log |}.
End stage.
Arguments Stage : clear implicits.

(** ** Runs of the cache and of the GPU *)

Section cache_steps.
Context {Mat : Type} `{JsonFloat, JsonBytes, Glam, GlamPose, !Transforms NodeTransform Mat, !GltfCrate Mat, !GlamWorld Mat}.
Context `{!GlamMesh Mat, ImageDecoder, Naga, ImageReader} (base : string).
Implicit Types (c : AvatarModelCache Mat).

Lemma poll_generation c : generation (poll_loader c) = generation c.
Proof. unfold poll_loader. destruct (ld_results (loader c)); cbv zeta; repeat case_match; done. Qed.
Lemma start_generation c : generation (start_load_if_needed c) = generation c.
Proof. unfold start_load_if_needed. destruct (_ || _); [done|]. cbv zeta. by destruct (ld_alive (loader c)). Qed.
Lemma start_asset c : asset (start_load_if_needed c) = asset c.
Proof. unfold start_load_if_needed. destruct (_ || _); [done|]. cbv zeta. by destruct (ld_alive (loader c)). Qed.
Lemma poll_asset read asked c a : cache_inv base read asked c → asset c = Some a → asset (poll_loader c) = Some a.
Proof.
  intros I Ha. destruct (cv_asset _ _ _ _ I a Ha) as [Hn _]. pose proof (cv_idle _ _ _ _ I Hn) as Hf. unfold flight in Hf.
  apply app_nil in Hf as [_ Hf]. apply app_nil in Hf as [_ Hf%fmap_nil_inv]. unfold poll_loader. rewrite Hf. destruct (ld_alive (loader c)); [done|].
  cbv zeta. by destruct (is_empty _).
Qed.

(** What is shown stays until something else is requested. *)
Lemma asset_stays read asked c e : cache_inv base read asked c → zlen asked < 2 ^ 64 →
  generation c < generation (handle base c e) ∨
  (generation (handle base c e) = generation c ∧ ∀ a, asset c = Some a → asset (handle base c e) = Some a).
Proof.
  intros I Hb. pose proof (cv_generation _ _ _ _ I) as G. assert (∀ wanted, generation (set_requested wanted c) = generation c + 1) as Hset.
  { intros wanted. simpl. unfold Prelude.as_u64. unfold zlen in *. rewrite Z.mod_small; [done|]. destruct asked; [by pose proof (cv_last _ _ _ _ I)|]. simpl in *. lia. }
  destruct e as [profile| | | |]; cbn [handle].
  - unfold sync, refresh_requested. destruct (_ || _); rewrite start_generation, poll_generation; [left; rewrite Hset; lia|right].
    split; [done|]. intros a Ha. rewrite start_asset. by eapply poll_asset.
  - left. unfold invalidate. rewrite Hset. lia.
  - by right.
  - by right.
  - by right.
Qed.
End cache_steps.

Section stage_runs.
Context {Mat Format : Type} `{JsonFloat, JsonBytes, Glam, GlamPose, !Transforms NodeTransform Mat, !GltfCrate Mat, !GlamWorld Mat}.
Context `{!GlamMesh Mat, ImageDecoder, Naga, ImageReader} (base : string).
Context `{!GlamFrame Mat, Sine, HashOrder, !SurfaceFormat Format, Egui}.
Context `{!GltfCrateLaws Mat, !ImageDecoderLaws, !SineLaws, !HashOrderLaws}.
Implicit Types (st : Stage Mat Format).

Definition cache_events (events : list StageEvent) : list Event := omap (λ e, match e with CacheDoes e => Some e | _ => None end) events.

(** The clock and the profile give single-precision numbers; time is finite. *)
Definition event_ok (e : StageEvent) : Prop :=
  match e with
  | CacheDoes _ => True
  | Shows input panel => is_finite (pn_time panel) = true ∧ valid (pn_time panel) ∧ valid (ap_crossfade_seconds input)
  end.

Lemma mul_short x y : short (f32_mul x y).
Proof. destruct x as [s|s| |s m e], y as [t|t| |t n k]; try done. by apply round_short. Qed.
Lemma frame_input_ok input panel : event_ok (Shows input panel) → input_ok (frame_input input panel).
Proof.
  intros (F & T & C). split; simpl; [done|done|done|..]; unfold look_angles; (destruct (pointer_over panel) as [[x y]|]; [apply mul_short|done]).
Qed.

Record stage_inv (done_ : list StageEvent) st : Prop := {
  sv_cache : sg_cache st = run_cache base (cache_events done_);
  sv_log : valid_log (sg_log st);
  sv_resources : res_ok (sg_resources st) (sg_log st);
  sv_gpu : gpu_scene (sg_resources st) = None ∨ ∃ s old, gpu_scene (sg_resources st) = Some s ∧ scene_on (sg_resources st) old s (sg_log st) ∧
    gs_scene_id s ≤ generation (sg_cache st) ∧ (gs_scene_id s = generation (sg_cache st) → asset (sg_cache st) = Some (AssetVrm old));
}.

(** The GPU shows the model of the cache, or nothing. *)
Definition shows_now (input : AvatarPresenterInput) (panel : Panel) st : Prop :=
  match vrm_scene (sg_cache st) with
  | None => gpu_scene (sg_resources st) = None
  | Some scene => ∀ callback, paint_callback (character_size input panel).1 (character_size input panel).2 scene (frame_input input panel) = Some callback →
      ∃ s, prepared (sg_resources st) callback s (sg_log st) ∧ pass_valid (sg_log st) pass_start (paint (sg_resources st)) ∧
        ranges (paint (sg_resources st)) ≡ₚ (draw_range <$> sc_draws (meshes scene)) ++
          (draw_range <$> filter (λ d, outlined scene d = true) (sc_draws (meshes scene)))
  end.

Lemma stage_cache done_ e st : zlen (cache_events done_) + 1 < 2 ^ 64 → stage_inv done_ st →
  stage_inv (done_ ++ [CacheDoes e]) {| sg_cache := handle base (sg_cache st) e; sg_resources := sg_resources st; sg_log := sg_log st |}.
Proof.
  intros Hl [C V R G]. destruct (run_cache_inv base (cache_events done_) ltac:(lia)) as (asked & La & I & _). rewrite <- C in I.
  split; simpl; [|done|done|].
  - unfold cache_events. rewrite omap_app. simpl. unfold run_cache. rewrite foldl_app. by rewrite C.
  - destruct G as [G|(s & old & Es & Hs & Hle & Ha)]; [by left|right]. exists s, old. split; [done|]. split; [done|].
    destruct (asset_stays base _ _ _ e I ltac:(lia)) as [Hlt|[Heq Hstay]]; [split; [lia|intros; lia]|]. rewrite Heq. split; [done|]. intros E. by apply Hstay, Ha.
Qed.

Lemma current_scene done_ st scene : zlen (cache_events done_) < 2 ^ 64 → stage_inv done_ st → vrm_scene (sg_cache st) = Some scene →
  asset (sg_cache st) = Some (AssetVrm scene) ∧ loaded_ok base scene ∧ scene_id scene = generation (sg_cache st).
Proof.
  intros Hl [C _ _ _] Hs. unfold vrm_scene in Hs. destruct (asset (sg_cache st)) as [[image|s]|] eqn:Ea; try done. injection Hs as ->. split; [done|].
  destruct (run_shows base _ Hl) as (_ & _ & Hshow). rewrite <- C in Hshow. destruct (Hshow _ Ea) as (_ & _ & _ & _ & _ & _ & _ & Hok). by apply Hok.
Qed.
Lemma callback_of width height scene input (cb : VrmCallback Mat) : paint_callback width height scene input = Some cb → cb_scene cb = scene ∧ cb_input cb = input.
Proof. unfold paint_callback. destruct (_ || _); [done|]. by intros [= <-]. Qed.

Lemma stage_show done_ input panel st : zlen (cache_events done_) < 2 ^ 64 → event_ok (Shows input panel) → stage_inv done_ st →
  ∃ st', show base input panel st = Some st' ∧ stage_inv (done_ ++ [Shows input panel]) st' ∧ shows_now input panel st'.
Proof.
  intros Hl He Hi. pose proof Hi as [C V R G]. unfold show. assert (cache_events (done_ ++ [Shows input panel]) = cache_events done_) as Ec.
  { unfold cache_events. rewrite omap_app. simpl. by rewrite app_nil_r. }
  destruct (vrm_scene (sg_cache st)) as [scene|] eqn:Es.
  2:{ eexists. split; [done|]. split; [split; simpl; [by rewrite Ec|done|by apply res_ok_scene|by left]|]. unfold shows_now. simpl. by rewrite Es. }
  destruct (current_scene _ _ _ Hl Hi Es) as (Ea & Hok & Hid). destruct (paint_callback _ _ scene _) as [cb|] eqn:Ecb.
  2:{ exists st. split; [done|]. split; [by split; rewrite ?Ec|]. unfold shows_now. rewrite Es, Ecb. by intros cb'. }
  destruct (callback_of _ _ _ _ _ Ecb) as [Ecs Eci].
  destruct (frame_is_prepared base cb (sg_resources st) (sg_log st)) as (r' & more & E & V' & s & P); [done|done| |by rewrite Ecs|rewrite Eci; by apply frame_input_ok|].
  { destruct G as [G|(s & old & Egs & Hs & _ & Hold)]; [by left|right]. exists s, old. split; [done|]. split; [done|]. rewrite Ecs, Hid. intros Heq. specialize (Hold Heq). congruence. }
  rewrite E. simpl. eexists. split; [done|]. pose proof P as [P1 P2 P3 _ _]. rewrite Ecs in P3. split.
  - split; simpl; [by rewrite Ec|done|done|]. right. exists s, scene. split; [done|]. split; [done|]. rewrite (so_id _ _ _ _ P3), Hid. done.
  - unfold shows_now. simpl. rewrite Es. intros cb' Ecb'. rewrite Ecb in Ecb'. injection Ecb' as <-. exists s.
    pose proof (loaded_ready base _ Hok) as Rd. split_and!; [done|by eapply paint_valid|by eapply paint_ranges].
Qed.

Lemma stage_start format : ∃ r log, resources_new format [] = Some (r, log) ∧ stage_inv [] {| sg_cache := cache_default; sg_resources := r; sg_log := log |}.
Proof.
  destruct (resources_ok (Mat := Mat) format) as (r & log & E & V & R & G & _). exists r, ([] ++ log). split; [exact E|]. split; [done|done|done|by left].
Qed.
Lemma stage_runs events done_ st : zlen (cache_events (done_ ++ events)) < 2 ^ 64 → Forall event_ok events → stage_inv done_ st →
  ∃ st', run_from base events st = Some st' ∧ stage_inv (done_ ++ events) st' ∧
    ∀ before input panel, events = before ++ [Shows input panel] → shows_now input panel st'.
Proof.
  revert done_ st. induction events as [|e events IH]; intros done_ st Hl He Hi.
  - exists st. rewrite app_nil_r. split; [done|]. split; [done|]. by intros [|] ? ? ?.
  - apply Forall_cons in He as [He1 He]. assert (zlen (cache_events (done_ ++ [e])) ≤ zlen (cache_events (done_ ++ e :: events))) as Hle.
    { unfold cache_events. rewrite !omap_app. simpl. unfold zlen. rewrite !length_app. destruct e; simpl; lia. }
    assert (∃ st1, stage_step base st e = Some st1 ∧ stage_inv (done_ ++ [e]) st1 ∧ (∀ input panel, e = Shows input panel → shows_now input panel st1)) as (st1 & E1 & I1 & S1).
    { destruct e as [ce|input panel].
      - eexists. split; [done|]. split; [|done]. apply stage_cache; [|done]. unfold cache_events in Hl, Hle. rewrite omap_app in Hle. unfold zlen in *. rewrite length_app in Hle. simpl in *.
        unfold cache_events. lia.
      - destruct (stage_show done_ input panel st) as (st1 & E1 & I1 & S1); [|done|done|].
        + assert (cache_events (done_ ++ [Shows input panel]) = cache_events done_) as Ec by (unfold cache_events; rewrite omap_app; simpl; by rewrite app_nil_r).
          rewrite Ec in Hle. lia.
        + exists st1. split; [done|]. split; [done|]. by intros ? ? [= <- <-]. }
    destruct (IH (done_ ++ [e]) st1) as (st' & E' & I' & S'); [by rewrite <- app_assoc|done|done|]. exists st'. cbn [run_from]. rewrite E1. simpl.
    rewrite <- app_assoc in I'. split; [done|]. split; [done|]. intros before input panel Eq. destruct before as [|b before]; [|injection Eq as -> Eq; by eapply S'].
    injection Eq as -> ->. simpl in E'. injection E' as <-. by apply S1.
Qed.

(** In every run of the character's cache, its loader thread and the
    renderer, with fewer than 2^64 cache events, nothing panics and no call to
    the GPU is invalid.  A model that is shown was decoded, from files the
    thread read, for the paths the current profile asks for, however the loads
    and changes of profile interleaved.  After a frame the scene on the GPU is
    that model, its buffers hold the frame's matrices and weights, and the
    pass is valid and draws each of its ranges once, and once more where there
    is an outline; with no model to show, nothing is on the GPU. *)
Theorem stage_shows_current format events : zlen (cache_events events) < 2 ^ 64 → Forall event_ok events →
  ∃ st, run_stage base format events = Some st ∧ valid_log (sg_log st) ∧
    (∀ scene, vrm_scene (sg_cache st) = Some scene → loaded_ok base scene ∧ ∃ r files, Finish files ∈ cache_events events ∧
      wanted_now (cache_events events) = Some (paths_of r) ∧ rs_result (load_request base files r) = Ok (DecodedVrm scene)) ∧
    ∀ before input panel, events = before ++ [Shows input panel] → shows_now input panel st.
Proof.
  intros Hl He. destruct (stage_start format) as (r & log & E & I0). destruct (stage_runs events [] _ Hl He I0) as (st & Er & I & S).
  exists st. unfold run_stage. rewrite E. simpl. split; [exact Er|]. split; [apply I|]. split; [|exact S]. intros scene Hs.
  destruct (current_scene _ _ _ Hl I Hs) as (Ea & Hok & _). split; [done|]. destruct (run_shows base _ Hl) as (_ & _ & Hshow). pose proof (sv_cache _ _ I) as C. simpl in C.
  rewrite <- C in Hshow. destruct (Hshow _ Ea) as (q & files & decoded & Hf & Hw & Hr & Hd & _). exists q, files. split; [done|]. split; [done|].
  destruct decoded as [image size|scene']; [done|]. by injection Hd as ->.
Qed.
End stage_runs.

(** ** A model that is asked for, loaded and shown *)

#[local] Transparent gmap_empty.
Module StageDemo.
#[global] Instance demo_reader : ImageReader := λ _ _ _, Err "not an image".
#[global] Instance demo_format : SurfaceFormat () := λ _, true.
#[global] Instance demo_egui : Egui := {|
  rect_center r := (f32_mul (f32_add (rect_min r).1 (rect_max r).1) (f32_lit 1 2), f32_mul (f32_add (rect_min r).2 (rect_max r).2) (f32_lit 1 2));
  rect_size r := (f32_sub (rect_max r).1 (rect_min r).1, f32_sub (rect_max r).2 (rect_min r).2);
  from_center_size c size := let x := f32_mul size.1 (f32_lit 1 2) in let y := f32_mul size.2 (f32_lit 1 2) in
    {| rect_min := (f32_sub c.1 x, f32_sub c.2 y); rect_max := (f32_add c.1 x, f32_add c.2 y) |};
  rect_translate r d := {| rect_min := (f32_add (rect_min r).1 d.1, f32_add (rect_min r).2 d.2);
                           rect_max := (f32_add (rect_max r).1 d.1, f32_add (rect_max r).2 d.2) |};
  rect_shrink r d := {| rect_min := (f32_add (rect_min r).1 d, f32_add (rect_min r).2 d);
                        rect_max := (f32_sub (rect_max r).1 d, f32_sub (rect_max r).2 d) |};
  rect_contains r p := SFleb (rect_min r).1 p.1 && SFleb p.1 (rect_max r).1 && SFleb (rect_min r).2 p.2 && SFleb p.2 (rect_max r).2 |}.
Definition profile : AvatarReactionProfile :=
  let p := default_profile in
  {| schema_version := schema_version p; model_name := model_name p; model_path := "model.vrm"; animation_path := EmptyString;
     FeProfile.animation_paths := []; shader_path := EmptyString; animation_crossfade_seconds := f32_0;
     FeProfile.spring_bone_enabled := true; FeProfile.look_at_enabled := true;
     act_idle := act_idle p; act_warning := act_warning p; act_critical := act_critical p |}.
Definition panel : Panel :=
  {| pn_time := f32_1; pn_pointer := None; pn_rect := {| rect_min := (f32_0, f32_0); rect_max := (f32_of_Z 124, f32_of_Z 124) |} |}.
Definition input : AvatarPresenterInput := for_node [] no_alerts profile.
Definition loads : list StageEvent := [CacheDoes (Sync profile); CacheDoes Take; CacheDoes (Finish ModelDemo.files); CacheDoes (Sync profile)].
Definition events : list StageEvent := loads ++ [Shows input panel].
End StageDemo.

(** The model that the profile names is loaded, and the frame shows it. *)
Lemma stage_shows_current_witness : ∃ (st : Stage () ()) (scene : CpuVrmScene ()),
  run_stage "" () StageDemo.events = Some st ∧ valid_log (sg_log st) ∧ vrm_scene (sg_cache st) = Some scene ∧ loaded_ok "" scene ∧
  shows_now StageDemo.input StageDemo.panel st.
Proof.
  destruct (stage_shows_current (Mat := ()) "" () StageDemo.events) as (st & E & V & C & S).
  - reflexivity.
  - repeat (apply Forall_cons; split; [try exact I|]); [|constructor]. split; [reflexivity|split; exact eq_refl].
  - assert (match run_stage (Mat := ()) "" () StageDemo.events with Some st => is_some (vrm_scene (sg_cache st)) | None => false end = true) as Hs by (lazy; reflexivity).
    rewrite E in Hs. destruct (vrm_scene (sg_cache st)) as [scene|] eqn:Ev; [|discriminate Hs]. exists st, scene.
    split; [exact E|]. split; [exact V|]. split; [exact Ev|]. split; [exact (proj1 (C scene eq_refl))|].
    exact (S StageDemo.loads StageDemo.input StageDemo.panel eq_refl).
Defined.
