(* ===== verification/FloatRound.v ===== *)
(** * Monotone rounding in single precision

    An operation on [f32] rounds its exact result, a fraction of units of
    [2 ^ -149], to a number that is on the same side of every representable
    number ([rounds]).  That is all the layout of the control room needs: a
    bound that is representable survives rounding, and a result that is
    representable is exact. *)

From S2P Require Import Prelude RustStr Otlp RustFloat FeProfile Json VrmJson VrmBuffers VrmAnimation VrmFloat.

(** ** Representable numbers *)

Definition rep (t : Z) : Prop := ∃ n j, 0 ≤ n ≤ 2 ^ 24 ∧ 0 ≤ j ∧ t = n * 2 ^ j.

(** [r] is the exact result [a / b], rounded. *)
Record rounds (a b : Z) (r : f32) : Prop := {
  ro_valid : valid r;
  ro_finite : is_finite r = true;
  ro_above t : rep t → t * b ≤ a → t ≤ value r;
  ro_below t : rep t → a ≤ t * b → value r ≤ t;
}.

Lemma rep_scaled n j : 0 ≤ n ≤ 2 ^ 24 → 0 ≤ j → rep (n * 2 ^ j).
Proof. intros. by exists n, j. Qed.
Lemma rep_0 : rep 0.
Proof. by apply (rep_scaled 0 0). Qed.
Lemma rep_power k : 0 ≤ k → rep (2 ^ k).
Proof. intros. replace (2 ^ k) with (1 * 2 ^ k) by lia. by apply rep_scaled. Qed.
Lemma rep_value x : valid x → is_finite x = true → 0 ≤ value x → rep (value x).
Proof.
  intros V F P. destruct x as [| | |s m e]; [apply rep_0|done..|]. apply canonical_f32 in V as (He & Hm & _).
  assert (0 < 2 ^ (e + 149)) by (apply Z.pow_pos_nonneg; lia). destruct s; simpl in *; [lia|]. apply rep_scaled; lia.
Qed.

(** ** Rounding a fraction *)

Lemma loc_shifted m e l n : 0 ≤ m → l = loc_Exact → m / 2 ^ Z.max n 0 * 2 ^ Z.max n 0 = m →
  loc_of_shr_record (shr (shr_record_of_loc m l) e n).1 = loc_Exact.
Proof. intros Hm -> Hd. destruct (shr_shifted m e n Hm) as [[_ X] _]. by apply X. Qed.

(** The first shift: the mantissa that is kept is the quotient, or the next
    one if something was dropped. *)
Definition second_shift (p e : Z) : f32 :=
  let '(r, e') := shr_fexp 24 128 p e loc_Exact in
  match shr_m r with Z0 => S754_zero false | Zpos m => if e' <=? 128 - 24 then S754_finite false m e' else S754_infinity false | Zneg _ => S754_nan end.

Lemma first_shift m e l : 0 ≤ m → let c := Z.max (fexp 24 128 (Zdigits2 m + e) - e) 0 in
  ∃ p, (p = m / 2 ^ c ∨ p = m / 2 ^ c + 1 ∧ ¬ (l = loc_Exact ∧ m / 2 ^ c * 2 ^ c = m)) ∧ 0 ≤ p ≤ 2 ^ 24 ∧ -149 ≤ e + c ∧
  binary_round_aux 24 128 false m e l = second_shift p (e + c).
Proof.
  intros Hm. cbv zeta. set (n := fexp 24 128 (Zdigits2 m + e) - e). set (c := Z.max n 0). unfold binary_round_aux, second_shift. unfold shr_fexp at 1. fold n.
  pose proof (shr_m_loc m e l n Hm) as Q. fold c in Q. assert ((shr (shr_record_of_loc m l) e n).2 = e + c) as E1 by (unfold c; destruct n; simpl; lia).
  destruct (shr_shifted m e n Hm) as [[Q0 _] _]. destruct (shr_fexp_24 m e Hm) as [B1 _]. unfold shr_fexp in B1. fold n in B1. cbv zeta in B1. rewrite Q0 in B1. fold c in B1.
  pose proof (loc_shifted m e l n Hm) as L. fold c in L. destruct (shr (shr_record_of_loc m l) e n) as [r1 e1]. simpl in Q, E1, L. subst e1. rewrite Q.
  exists (round_nearest_even (m / 2 ^ c) (loc_of_shr_record r1)). pose proof (round_even_nonneg (m / 2 ^ c) (loc_of_shr_record r1) ltac:(lia)).
  split; [|split; [lia|split; [unfold c, n; rewrite fexp_max; lia|done]]].
  destruct (round_half_up (m / 2 ^ c) (loc_of_shr_record r1)) as [->|[-> Hl]]; [by left|right]. split; [done|]. intros [? ?]. by apply Hl, L.
Qed.

(** The second shift changes nothing, or halves a mantissa of 25 digits. *)
Lemma second_shift_value p e : 0 < p ≤ 2 ^ 24 → -149 ≤ e ≤ 103 → (e = -149 ∨ 2 ^ 23 ≤ p) → ∃ m' e', second_shift p e = S754_finite false m' e' ∧
  valid (S754_finite false m' e') ∧ Zpos m' * 2 ^ (e' + 149) = p * 2 ^ (e + 149).
Proof.
  intros Bp He Hn. unfold second_shift, shr_fexp.
  destruct (shr_shifted p e (fexp 24 128 (Zdigits2 p + e) - e)) as [[S2 _] E2]; [lia|]. destruct (shr _ _ _) as [r2 e2]. simpl in S2, E2. rewrite fexp_max in S2, E2.
  assert ((p < 2 ^ 24 ∧ Z.max (Z.max (Zdigits2 p + e - 24) (-149) - e) 0 = 0) ∨ (p = 2 ^ 24 ∧ Z.max (Z.max (Zdigits2 p + e - 24) (-149) - e) 0 = 1)) as Hd.
  { destruct (decide (p = 2 ^ 24)) as [->|]; [right; split; [done|]; simpl Zdigits2; lia|left]. split; [lia|]. pose proof (digits_le p 24). lia. }
  assert ((e2 <=? 104) = true) as Hle by (apply Z.leb_le; lia). change (128 - 24) with 104.
  assert (∀ q, fexp 24 128 (Zdigits2 (Zpos q) + e2) = e2 → valid (S754_finite false q e2)) as Hv.
  { intros q Hq. unfold valid_binary, bounded, canonical_mantissa. apply andb_true_iff. split; [by apply Z.eqb_eq|done]. }
  destruct Hd as [[Hlt Hz]|[Hm2 Hz]]; rewrite Hz in S2, E2.
  - rewrite Z.pow_0_r, Z.div_1_r in S2. rewrite S2. destruct p as [|q|q]; [lia| |lia]. rewrite Hle. exists q, e2. split; [done|]. split; [|do 2 f_equal; lia].
    apply Hv. rewrite fexp_max. assert (Zdigits2 (Zpos q) ≤ 24) by (apply digits_le; lia). destruct Hn as [->|Hn]; [lia|].
    assert (23 < Zdigits2 (Zpos q)) by (apply digits_ge; lia). lia.
  - replace (p / 2 ^ 1) with 8388608 in S2 by (by rewrite Hm2). rewrite S2, Hle. exists 8388608%positive, e2. split; [done|]. split.
    + apply Hv. rewrite fexp_max. simpl Zdigits2. lia.
    + rewrite E2, Hm2. replace (e + 1 + 149) with (1 + (e + 149)) by lia. rewrite (Z.pow_add_r 2 1) by lia. lia.
Qed.

(** The exact result is between [m] and [m + 1] at the exponent [e], and is
    [m] if the location says so. *)
Definition located (m e : Z) (l : location) (a b : Z) : Prop :=
  let u := Z.max 0 (- (e + 149)) in let w := Z.max 0 (e + 149) in
  m * 2 ^ w * b ≤ a * 2 ^ u < (m + 1) * 2 ^ w * b ∧ (m * 2 ^ w * b = a * 2 ^ u → l = loc_Exact).

Lemma located_quotient m e l a b c : 0 ≤ m → 0 < b → 0 ≤ c → 0 ≤ e + c + 149 → located m e l a b →
  m / 2 ^ c * 2 ^ (e + c + 149) * b ≤ a < (m / 2 ^ c + 1) * 2 ^ (e + c + 149) * b ∧
  (m / 2 ^ c * 2 ^ (e + c + 149) * b = a → l = loc_Exact ∧ m / 2 ^ c * 2 ^ c = m).
Proof.
  intros Hm Hb Hc HG [[L1 L2] L3]. set (q := m / 2 ^ c). set (G := e + c + 149) in *. set (u := Z.max 0 (- (e + 149))) in *. set (w := Z.max 0 (e + 149)) in *.
  assert (0 < 2 ^ c) by (apply Z.pow_pos_nonneg; lia). assert (0 < 2 ^ u) by (apply Z.pow_pos_nonneg; lia).
  assert (0 < 2 ^ w) by (apply Z.pow_pos_nonneg; lia). assert (0 < 2 ^ G) by (apply Z.pow_pos_nonneg; lia).
  assert (2 ^ c * 2 ^ w = 2 ^ G * 2 ^ u) as Eg by (rewrite <- !Z.pow_add_r by lia; f_equal; lia).
  pose proof (Z.mul_div_le m (2 ^ c) ltac:(lia)) as Q1. pose proof (Z.mul_succ_div_gt m (2 ^ c) ltac:(lia)) as Q2. fold q in Q1, Q2.
  assert (q * 2 ^ G * b * 2 ^ u = q * 2 ^ c * (2 ^ w * b)) as E1 by (transitivity (q * b * (2 ^ G * 2 ^ u)); [ring|rewrite <- Eg; ring]).
  assert ((q + 1) * 2 ^ G * b * 2 ^ u = (q + 1) * 2 ^ c * (2 ^ w * b)) as E2 by (transitivity ((q + 1) * b * (2 ^ G * 2 ^ u)); [ring|rewrite <- Eg; ring]).
  rewrite <- Z.mul_assoc in L1, L2, L3. assert (0 < 2 ^ w * b) as HK by nia. generalize dependent (2 ^ w * b). intros K L1 L2 L3 E1 E2 HK. split; [split|].
  - apply (Z.mul_le_mono_pos_r _ _ (2 ^ u)); [done|]. rewrite E1. nia.
  - apply (Z.mul_lt_mono_pos_r (2 ^ u)); [done|]. rewrite E2. nia.
  - intros E. rewrite <- E, E1 in L1, L3. assert (q * 2 ^ c = m) as Em by nia. split; [|done]. apply L3. by rewrite Em.
Qed.

(** A representable number below the last kept digit is below the smallest
    mantissa of 24 digits. *)
Lemma rep_grid t G : rep t → 0 ≤ G → (∃ k, 0 ≤ k ∧ t = k * 2 ^ G) ∨ (0 < G ∧ t ≤ 2 ^ 23 * 2 ^ G).
Proof.
  intros (n & j & Hn & Hj & ->) HG. destruct (decide (G ≤ j)); [left|right].
  - exists (n * 2 ^ (j - G)). pose proof (Z.pow_nonneg 2 (j - G) ltac:(lia)). split; [nia|]. rewrite <- Z.mul_assoc, <- Z.pow_add_r by lia. do 2 f_equal. lia.
  - split; [lia|]. replace G with (j + 1 + (G - j - 1)) by lia. rewrite !Z.pow_add_r by lia. assert (0 < 2 ^ j) by (apply Z.pow_pos_nonneg; lia).
    assert (1 ≤ 2 ^ (G - j - 1)) by (apply (Z.pow_le_mono_r 2 0); lia). assert (2 ^ 24 = 2 ^ 23 * 2) by done. nia.
Qed.

Lemma round_rounds m e l a b : 0 ≤ m → 0 < b → 0 ≤ a → e ≤ fexp 24 128 (Zdigits2 m + e) → located m e l a b → a ≤ b * 2 ^ 249 →
  rounds a b (binary_round_aux 24 128 false m e l).
Proof.
  intros Hm Hb Ha He Hl Hmax. destruct (first_shift m e l Hm) as (p & Hp & Bp & Hc & ->). set (c := Z.max _ 0) in *.
  assert (0 ≤ c) as Hc0 by lia. destruct (located_quotient m e l a b c) as ([L1 L2] & L3); [done|done|done|lia|done|]. set (q := m / 2 ^ c) in *. set (G := e + c + 149) in *.
  assert (0 < 2 ^ G) by (apply Z.pow_pos_nonneg; lia).
  assert (0 < G → 2 ^ 23 ≤ q) as Hq.
  { intros HG. rewrite fexp_max in He. assert (c = Zdigits2 m - 24) as Ec by (unfold G, c in *; rewrite fexp_max in *; lia).
    destruct (decide (m = 0)) as [->|]; [simpl in Ec; lia|]. destruct (Zdigits2_spec m) as (_ & L & _); [lia|].
    apply Z.div_le_lower_bound; [apply Z.pow_pos_nonneg; lia|]. rewrite <- Z.pow_add_r by lia. by replace (c + 23) with (Zdigits2 m - 1) by lia. }
  assert (0 ≤ q) by (apply Z.div_pos; [lia|apply Z.pow_pos_nonneg; lia]).
  assert (q ≤ p ∧ (∀ t, rep t → a ≤ t * b → p * 2 ^ G ≤ t)) as [Hqp Hup].
  { split; [lia|]. intros t Ht Hat. destruct (rep_grid t G Ht ltac:(lia)) as [(k & Hk & ->)|[HG Hle]].
    - apply Z.mul_le_mono_pos_r; [done|]. assert (q ≤ k) as Hqk by nia. destruct Hp as [->|[-> Hx]]; [done|]. destruct (decide (q = k)) as [->|]; [|lia].
      exfalso. apply Hx, L3. lia.
    - specialize (Hq HG). assert (q * 2 ^ G * b = a) as Ea by nia. destruct Hp as [->|[-> Hx]]; [nia|]. by destruct Hx; apply L3. }
  assert (∀ t, rep t → t * b ≤ a → t ≤ p * 2 ^ G) as Hdown.
  { intros t Ht Hta. destruct (rep_grid t G Ht ltac:(lia)) as [(k & Hk & ->)|[HG Hle]]; [|specialize (Hq HG); nia].
    apply Z.mul_le_mono_pos_r; [done|]. assert (k < q + 1); [|lia]. apply (Z.mul_lt_mono_pos_r (2 ^ G * b)); nia. }
  destruct (decide (p = 0)) as [->|Hp0].
  - unfold second_shift. assert (shr_fexp 24 128 0 (e + c) loc_Exact = (shr_record_of_loc 0 loc_Exact, e + c) ∨ shr_m (shr_fexp 24 128 0 (e + c) loc_Exact).1 = 0) as Hz.
    { right. unfold shr_fexp. rewrite shr_m_loc by done. apply Z.div_0_l. apply Z.pow_nonzero; lia. }
    destruct (shr_fexp 24 128 0 (e + c) loc_Exact) as [r2 e2]. assert (shr_m r2 = 0) as -> by (destruct Hz as [[= -> _]|Hz]; [done|exact Hz]).
    split; [done|done|exact Hdown|exact Hup].
  - assert (e + c ≤ 103) as H103.
    { assert (p * 2 ^ G ≤ 2 ^ 249) as Hle by (apply Hup; [by apply rep_power|lia]). assert (G ≤ 249); [|lia].
      apply (Z.pow_le_mono_r_iff 2); [lia..|]. nia. }
    destruct (second_shift_value p (e + c)) as (m' & e' & -> & V & E); [lia|lia| |].
    { destruct (decide (e + c = -149)); [by left|right]. etransitivity; [apply Hq; lia|lia]. }
    fold G in E. split; [done|done|simpl; by rewrite E|simpl; by rewrite E].
Qed.

(** ** The operations *)

(** A finite number that is not negative. *)
Record nonneg (x : f32) : Prop := { nn_valid : valid x; nn_finite : is_finite x = true; nn_value : 0 ≤ value x }.

Lemma rounds_zero s b : 0 < b → rounds 0 b (S754_zero s).
Proof. intros Hb. split; [done|done|..]; intros t (n & j & Hn & Hj & ->); pose proof (Z.pow_nonneg 2 j ltac:(lia)); simpl; nia. Qed.
Lemma rounds_self a x : nonneg x → a = value x → rounds a 1 x.
Proof. intros [V F P] ->. split; [done|done|intros; lia|intros; lia]. Qed.
Lemma rounds_nonneg a b r : 0 < b → 0 ≤ a → rounds a b r → nonneg r.
Proof. intros Hb Ha [V F U _]. split; [done|done|]. apply U; [apply rep_0|lia]. Qed.
Lemma rounds_exact a r : rep a → rounds a 1 r → value r = a.
Proof. intros Hr [_ _ U D]. pose proof (U a Hr ltac:(lia)). pose proof (D a Hr ltac:(lia)). lia. Qed.

(** The exact value of an integer mantissa. *)
Lemma located_exact m e : -149 ≤ e → located m e loc_Exact (m * 2 ^ (e + 149)) 1.
Proof.
  intros He. unfold located. replace (Z.max 0 (- (e + 149))) with 0 by lia. replace (Z.max 0 (e + 149)) with (e + 149) by lia.
  assert (0 < 2 ^ (e + 149)) by (apply Z.pow_pos_nonneg; lia). rewrite Z.pow_0_r, !Z.mul_1_r. split; [lia|done].
Qed.
Lemma normalize_rounds m e s : 0 ≤ m → -149 ≤ e → m * 2 ^ (e + 149) ≤ 2 ^ 249 → rounds (m * 2 ^ (e + 149)) 1 (binary_normalize 24 128 m e s).
Proof.
  intros Hm He Hmax. destruct m as [|m|m]; [by apply rounds_zero| |lia]. simpl binary_normalize. unfold binary_round.
  destruct (shl_align_spec m e (fexp 24 128 (Zpos (digits2_pos m) + e))) as (E1 & E2 & E3). destruct (shl_align _ _ _) as [mz ez]. simpl in E1, E2, E3.
  rewrite fexp_max in E1, E2. assert (-149 ≤ ez ≤ e) as Hz by lia. assert (Zpos m * 2 ^ (e + 149) = Zpos mz * 2 ^ (ez + 149)) as Ev.
  { rewrite E2, <- E1, <- Z.mul_assoc, <- Z.pow_add_r by lia. do 2 f_equal. lia. }
  rewrite Ev in *. apply round_rounds; [done|done|apply Z.mul_nonneg_nonneg; [done|apply Z.pow_nonneg; lia]| |apply located_exact; lia|lia].
  rewrite fexp_max. change (Zdigits2 (Zpos mz)) with (Zpos (digits2_pos mz)). rewrite E3. lia.
Qed.

Lemma nonneg_cases x : nonneg x → (∃ s, x = S754_zero s) ∨ ∃ m e, x = S754_finite false m e ∧ -149 ≤ e ≤ 104 ∧ Zpos m < 2 ^ 24 ∧ value x = Zpos m * 2 ^ (e + 149) ∧
  fexp 24 128 (Zdigits2 (Zpos m) + e) = e.
Proof.
  intros [V F P]. destruct x as [s| | |s m e]; [left; by exists s|done..|right]. pose proof (canonical_f32 _ _ _ V) as (He & Hm & _).
  assert (0 < 2 ^ (e + 149)) by (apply Z.pow_pos_nonneg; lia). destruct s; simpl in P; [lia|]. exists m, e.
  unfold valid_binary, bounded, canonical_mantissa in V. apply andb_true_iff in V as [V1%Z.eqb_eq V%Z.leb_le]. change (128 - 24) with 104 in V. split_and!; try done; lia.
Qed.

Lemma add_rounds x y : nonneg x → nonneg y → value x + value y ≤ 2 ^ 249 → rounds (value x + value y) 1 (f32_add x y).
Proof.
  intros Hx Hy Hmax. destruct (nonneg_cases x Hx) as [[s ->]|(m & e & -> & He & Hm & Ev & _)], (nonneg_cases y Hy) as [[t ->]|(n & k & -> & Hk & Hn & Ew & _)].
  - simpl. by destruct s, t; apply rounds_zero.
  - apply (rounds_self _ (S754_finite false n k)); [done|]. change (value (S754_zero s)) with 0. lia.
  - apply (rounds_self _ (S754_finite false m e)); [done|]. change (value (S754_zero t)) with 0. lia.
  - unfold f32_add, SFadd. set (ez := Z.min e k). assert (-149 ≤ ez ∧ ez ≤ e ∧ ez ≤ k) as (H1 & H2 & H3) by lia. clearbody ez.
    destruct (shl_align_spec m e ez) as (_ & Em & _). destruct (shl_align_spec n k ez) as (_ & En & _). replace (Z.min e ez) with ez in Em by lia. replace (Z.min k ez) with ez in En by lia.
    assert (value (S754_finite false m e) + value (S754_finite false n k) = (Zpos (shl_align m e ez).1 + Zpos (shl_align n k ez).1) * 2 ^ (ez + 149)) as Es.
    { rewrite Ev, Ew, Em, En, Z.mul_add_distr_r, <- !Z.mul_assoc, <- !Z.pow_add_r by lia. do 3 f_equal; lia. }
    rewrite Es in *. apply normalize_rounds; [done|done|exact Hmax].
Qed.
Lemma sub_rounds x y : nonneg x → nonneg y → value y ≤ value x ≤ 2 ^ 249 → rounds (value x - value y) 1 (f32_sub x y).
Proof.
  intros Hx Hy Hmax. destruct (nonneg_cases x Hx) as [[s ->]|(m & e & -> & He & Hm & Ev & _)], (nonneg_cases y Hy) as [[t ->]|(n & k & -> & Hk & Hn & Ew & _)].
  - simpl. by destruct s, t; apply rounds_zero.
  - assert (0 < 2 ^ (k + 149)) by (apply Z.pow_pos_nonneg; lia). change (value (S754_zero s)) with 0 in Hmax. lia.
  - apply (rounds_self _ (S754_finite false m e)); [done|]. change (value (S754_zero t)) with 0. lia.
  - unfold f32_sub, SFsub. set (ez := Z.min e k). assert (-149 ≤ ez ∧ ez ≤ e ∧ ez ≤ k) as (H1 & H2 & H3) by lia. clearbody ez.
    destruct (shl_align_spec m e ez) as (_ & Em & _). destruct (shl_align_spec n k ez) as (_ & En & _). replace (Z.min e ez) with ez in Em by lia. replace (Z.min k ez) with ez in En by lia.
    assert (value (S754_finite false m e) - value (S754_finite false n k) = (Zpos (shl_align m e ez).1 - Zpos (shl_align n k ez).1) * 2 ^ (ez + 149)) as Es.
    { rewrite Ev, Ew, Em, En, Z.mul_sub_distr_r, <- !Z.mul_assoc, <- !Z.pow_add_r by lia. do 3 f_equal; lia. }
    assert (0 < 2 ^ (ez + 149)) by (apply Z.pow_pos_nonneg; lia). rewrite Es in *. simpl cond_Zopp. apply normalize_rounds; [nia|done|].
    rewrite <- Es. assert (0 ≤ value (S754_finite false n k)) by apply Hy. lia.
Qed.
Lemma mul_rounds x y : nonneg x → nonneg y → value x * value y ≤ 2 ^ 149 * 2 ^ 249 → rounds (value x * value y) (2 ^ 149) (f32_mul x y).
Proof.
  intros Hx Hy Hmax. assert (0 < 2 ^ 149) by done.
  destruct (nonneg_cases x Hx) as [[s ->]|(m & e & -> & He & Hm & Ev & Ce)], (nonneg_cases y Hy) as [[t ->]|(n & k & -> & Hk & Hn & Ew & Ck)].
  - by apply rounds_zero.
  - by apply rounds_zero.
  - rewrite Z.mul_0_r. by apply rounds_zero.
  - unfold f32_mul, SFmul. simpl xorb. rewrite Ev, Ew in *. assert (0 < 2 ^ (e + 149)) by (apply Z.pow_pos_nonneg; lia). assert (0 < 2 ^ (k + 149)) by (apply Z.pow_pos_nonneg; lia).
    assert (Zdigits2 (Zpos m) + Zdigits2 (Zpos n) - 1 ≤ Zdigits2 (Zpos (m * n))) as Hd.
    { destruct (Zdigits2_spec (Zpos m)) as (D1 & D2 & _); [done|]. destruct (Zdigits2_spec (Zpos n)) as (D3 & D4 & _); [done|].
      assert (Zdigits2 (Zpos m) - 1 + (Zdigits2 (Zpos n) - 1) < Zdigits2 (Zpos (m * n))); [|lia]. apply digits_ge; [done|lia|]. rewrite Z.pow_add_r by lia. nia. }
    destruct (Zdigits2_spec (Zpos m)) as (P1 & _); [done|]. destruct (Zdigits2_spec (Zpos n)) as (P2 & _); [done|].
    pose proof (digits_le (Zpos m) 24 ltac:(done) Hm). pose proof (digits_le (Zpos n) 24 ltac:(done) Hn).
    apply round_rounds; [done|done|nia|rewrite fexp_max in Ce, Ck |- *; lia| |exact Hmax]. unfold located.
    assert (0 < 2 ^ Z.max 0 (e + k + 149)) by (apply Z.pow_pos_nonneg; lia).
    assert (Zpos m * 2 ^ (e + 149) * (Zpos n * 2 ^ (k + 149)) * 2 ^ Z.max 0 (- (e + k + 149)) = Zpos (m * n) * 2 ^ Z.max 0 (e + k + 149) * 2 ^ 149) as ->; [|split; [nia|done]].
    transitivity (Zpos m * Zpos n * (2 ^ (e + 149) * 2 ^ (k + 149) * 2 ^ Z.max 0 (- (e + k + 149)))); [ring|].
    transitivity (Zpos m * Zpos n * (2 ^ Z.max 0 (e + k + 149) * 2 ^ 149)); [|lia]. f_equal. rewrite <- !Z.pow_add_r by lia. f_equal. lia.
Qed.

Lemma new_location_exact n r : new_location (Zpos n) r = loc_Exact ↔ r = 0.
Proof.
  unfold new_location, new_location_even, new_location_odd. destruct (Z.even (Zpos n)), (Z.eqb_spec r 0) as [->|Hr]; by split.
Qed.
Lemma quotient_digits a b : 0 < a → 0 < b → Zdigits2 a - Zdigits2 b ≤ Zdigits2 (a / b).
Proof.
  intros Ha Hb. destruct (Zdigits2_spec a Ha) as (A1 & A2 & _). destruct (Zdigits2_spec b Hb) as (B1 & _ & B2).
  assert (0 ≤ Zdigits2 (a / b)) by (by destruct (a / b)). destruct (decide (Zdigits2 a ≤ Zdigits2 b)); [lia|].
  assert (2 ^ (Zdigits2 a - Zdigits2 b - 1) ≤ a / b) as Hq.
  { apply Z.div_le_lower_bound; [done|]. assert (0 < 2 ^ (Zdigits2 a - Zdigits2 b - 1)) by (apply Z.pow_pos_nonneg; lia).
    etransitivity; [|exact A2]. replace (Zdigits2 a - 1) with (Zdigits2 b + (Zdigits2 a - Zdigits2 b - 1)) by lia. rewrite Z.pow_add_r by lia. nia. }
  assert (Zdigits2 a - Zdigits2 b - 1 < Zdigits2 (a / b)); [|lia]. apply digits_ge; [|lia|done]. eapply Z.lt_le_trans; [|exact Hq]. apply Z.pow_pos_nonneg; lia.
Qed.
Lemma shifted_digits m j : 0 < m → 0 ≤ j → Zdigits2 (m * 2 ^ j) = Zdigits2 m + j.
Proof.
  intros Hm Hj. destruct (Zdigits2_spec m Hm) as (D1 & D2 & D3). assert (0 < 2 ^ j) by (apply Z.pow_pos_nonneg; lia). apply Z.le_antisymm.
  - apply digits_le; [nia|]. rewrite Z.pow_add_r by lia. nia.
  - assert (Zdigits2 m - 1 + j < Zdigits2 (m * 2 ^ j)); [|lia]. apply digits_ge; [nia|lia|]. rewrite Z.pow_add_r by lia. nia.
Qed.
Lemma div_rounds x y : nonneg x → nonneg y → 0 < value y → value x * 2 ^ 149 ≤ value y * 2 ^ 249 → rounds (value x * 2 ^ 149) (value y) (f32_div x y).
Proof.
  intros Hx Hy Py Hmax. destruct (nonneg_cases y Hy) as [[t ->]|(n & k & -> & Hk & Hn & Ew & Ck)]; [done|].
  destruct (nonneg_cases x Hx) as [[s ->]|(m & e & -> & He & Hm & Ev & Ce)]; [by apply rounds_zero|].
  unfold f32_div, SFdiv. simpl xorb. unfold SFdiv_core_binary. set (e1 := Z.min _ _). set (m1 := match _ with Z0 => Zpos m | Zpos _ => _ | Zneg _ => 0 end).
  assert (e1 ≤ e - k ∧ e1 ≤ fexp 24 128 (Zdigits2 (Zpos m) + e - (Zdigits2 (Zpos n) + k))) as [He1 He2] by lia.
  assert (m1 = Zpos m * 2 ^ (e - k - e1)) as Em by (unfold m1; destruct (e - k - e1) as [|p|p] eqn:Ep; [lia|by rewrite Z.shiftl_mul_pow2 by lia|lia]).
  assert (Z.div_eucl m1 (Zpos n) = (m1 / Zpos n, m1 mod Zpos n)) as -> by (unfold Z.div, Z.modulo; by destruct (Z.div_eucl m1 (Zpos n))).
  clearbody e1 m1. assert (0 < 2 ^ (e - k - e1)) by (apply Z.pow_pos_nonneg; lia). pose proof (Z.div_mod m1 (Zpos n) ltac:(done)) as D. pose proof (Z.mod_pos_bound m1 (Zpos n) ltac:(done)) as B.
  assert (0 < m1) by nia. assert (0 ≤ m1 / Zpos n) by (apply Z.div_pos; lia).
  apply round_rounds; [done|done| | | |exact Hmax].
  - apply Z.mul_nonneg_nonneg; [|done]. apply Hx.
  - etransitivity; [exact He2|]. rewrite !fexp_max. pose proof (quotient_digits m1 (Zpos n) ltac:(done) ltac:(done)) as Hq.
    rewrite Em, shifted_digits in Hq by lia. rewrite <- Em in Hq. lia.
  - unfold located. rewrite Ev, Ew. set (u := Z.max 0 (- (e1 + 149))). set (w := Z.max 0 (e1 + 149)).
    assert (Zpos m * 2 ^ (e + 149) * 2 ^ 149 * 2 ^ u = m1 * (2 ^ w * 2 ^ (k + 149))) as ->.
    { rewrite Em, <- !Z.mul_assoc, <- !Z.pow_add_r by lia. do 2 f_equal. lia. }
    assert (0 < 2 ^ w * 2 ^ (k + 149)) as HK by (apply Z.mul_pos_pos; apply Z.pow_pos_nonneg; lia).
    assert (∀ q, q * 2 ^ w * (Zpos n * 2 ^ (k + 149)) = q * Zpos n * (2 ^ w * 2 ^ (k + 149))) as Eq by (intros; ring). rewrite !Eq.
    generalize dependent (2 ^ w * 2 ^ (k + 149)). intros K HK _. split; [nia|]. intros E. apply new_location_exact. nia.
Qed.

(** ** Order *)

Lemma nonneg_ltb x y : nonneg x → nonneg y → SFltb x y = bool_decide (value x < value y).
Proof.
  intros [Vx Fx _] [Vy Fy _]. pose proof (SFltb_value x y Vx Vy Fx Fy) as E. case_bool_decide as D; [by apply E|].
  apply not_true_is_false. by rewrite E.
Qed.
Lemma nonneg_leb x y : nonneg x → nonneg y → SFleb x y = bool_decide (value x ≤ value y).
Proof.
  intros Hx Hy. pose proof (nonneg_ltb y x Hy Hx) as E. assert (number x ∧ number y) as [Nx Ny] by (split; intros ->; [by destruct Hx|by destruct Hy]).
  destruct (SFleb x y) eqn:L.
  - rewrite bool_decide_eq_true_2; [done|]. assert (SFltb y x = false) as El.
    { unfold SFleb, SFltb in *. rewrite (SFcompare_swap x y) in *. by destruct (SFcompare x y) as [[]|]. }
    rewrite E in El. apply bool_decide_eq_false in El. lia.
  - rewrite (SFleb_total _ _ Nx Ny L) in E. symmetry in E. apply bool_decide_eq_true in E. rewrite bool_decide_eq_false_2; [done|lia].
Qed.
Lemma max_value x y : nonneg x → nonneg y → nonneg (f32_max x y) ∧ value (f32_max x y) = Z.max (value x) (value y).
Proof.
  intros Hx Hy. assert (f32_max x y = if SFltb x y then y else x) as -> by (destruct x; [done|done|by destruct Hx|done]).
  rewrite nonneg_ltb by done. case_bool_decide; (split; [done|lia]).
Qed.
Lemma min_value x y : nonneg x → nonneg y → nonneg (f32_min x y) ∧ value (f32_min x y) = Z.min (value x) (value y).
Proof.
  intros Hx Hy. assert (f32_min x y = if SFltb y x then y else x) as -> by (destruct x; [done|done|by destruct Hx|done]).
  rewrite nonneg_ltb by done. case_bool_decide; (split; [done|lia]).
Qed.

(** A finite number that may be negative. *)
Lemma finite_ltb x y : valid x → is_finite x = true → nonneg y → SFltb x y = bool_decide (value x < value y).
Proof.
  intros Vx Fx [Vy Fy _]. pose proof (SFltb_value x y Vx Vy Fx Fy) as E. case_bool_decide as D; [by apply E|]. apply not_true_is_false. by rewrite E.
Qed.
Lemma ltb_finite x y : nonneg x → valid y → is_finite y = true → SFltb x y = bool_decide (value x < value y).
Proof.
  intros [Vx Fx _] Vy Fy. pose proof (SFltb_value x y Vx Vy Fx Fy) as E. case_bool_decide as D; [by apply E|]. apply not_true_is_false. by rewrite E.
Qed.
Lemma clamp_value x lo hi : valid x → is_finite x = true → nonneg lo → nonneg hi → value lo ≤ value hi →
  nonneg (f32_clamp x lo hi) ∧ value (f32_clamp x lo hi) = Z.min (value hi) (Z.max (value lo) (value x)).
Proof.
  intros V F Hlo Hhi Hle. unfold f32_clamp. rewrite finite_ltb by done. case_bool_decide; [split; [done|lia]|]. rewrite ltb_finite by done.
  assert (0 ≤ value lo) by apply Hlo. case_bool_decide; (split; [|lia]); [done|]. split; [done|done|lia].
Qed.

(** ** The error *)

(** A fraction that is not tiny has a representable number just below it. *)
Lemma rep_below a b : 0 < b → 2 ^ 23 * b ≤ a → ∃ t, rep t ∧ t * b ≤ a ∧ a * 2 ^ 23 ≤ t * b * (2 ^ 23 + 1).
Proof.
  intros Hb Ha. set (v := a / b). assert (2 ^ 23 ≤ v) by (apply Z.div_le_lower_bound; lia). destruct (Zdigits2_spec v) as (_ & L & U); [lia|].
  set (j := Zdigits2 v - 24). assert (0 ≤ j) as Hj.
  { assert (23 < Zdigits2 v); [|lia]. by apply digits_ge; [lia|lia|]. }
  assert (0 < 2 ^ j) by (apply Z.pow_pos_nonneg; lia). set (n := v / 2 ^ j).
  assert (2 ^ 23 ≤ n) as Hn. { apply Z.div_le_lower_bound; [done|]. rewrite <- Z.pow_add_r by lia. by replace (j + 23) with (Zdigits2 v - 1) by lia. }
  assert (n < 2 ^ 24) as Hn2. { apply Z.div_lt_upper_bound; [done|]. rewrite <- Z.pow_add_r by lia. by replace (j + 24) with (Zdigits2 v) by lia. }
  exists (n * 2 ^ j). pose proof (Z.mul_div_le v (2 ^ j) ltac:(done)) as Q1. pose proof (Z.mul_succ_div_gt v (2 ^ j) ltac:(done)) as Q2. fold n in Q1, Q2.
  pose proof (Z.mul_div_le a b ltac:(done)) as Q3. pose proof (Z.mul_succ_div_gt a b ltac:(done)) as Q4. fold v in Q3, Q4. split; [apply rep_scaled; lia|]. split; [nia|].
  assert (a ≤ (n + 1) * 2 ^ j * b) as Ha2 by nia. assert ((n + 1) * 2 ^ 23 ≤ n * (2 ^ 23 + 1)) by lia. assert (0 < 2 ^ j * b) by nia.
  transitivity ((n + 1) * 2 ^ 23 * (2 ^ j * b)); [lia|]. transitivity (n * (2 ^ 23 + 1) * (2 ^ j * b)); [nia|lia].
Qed.
Lemma rounds_error a b r : 0 < b → 2 ^ 23 * b ≤ a → rounds a b r → a * 2 ^ 23 ≤ value r * b * (2 ^ 23 + 1).
Proof.
  intros Hb Ha [_ _ U _]. destruct (rep_below a b Hb Ha) as (t & Ht & H1 & H2). specialize (U t Ht H1). etransitivity; [exact H2|]. nia.
Qed.
(** And one just above it. *)
Lemma rep_above a b : 0 < b → 2 ^ 23 * b ≤ a → ∃ t, rep t ∧ a ≤ t * b ∧ t * b * 2 ^ 23 ≤ a * (2 ^ 23 + 1).
Proof.
  intros Hb Ha. set (v := a / b). assert (2 ^ 23 ≤ v) by (apply Z.div_le_lower_bound; lia). destruct (Zdigits2_spec v) as (_ & L & U); [lia|].
  set (j := Zdigits2 v - 24). assert (0 ≤ j) as Hj.
  { assert (23 < Zdigits2 v); [|lia]. by apply digits_ge; [lia|lia|]. }
  assert (0 < 2 ^ j) by (apply Z.pow_pos_nonneg; lia). set (n := v / 2 ^ j).
  assert (2 ^ 23 ≤ n) as Hn. { apply Z.div_le_lower_bound; [done|]. rewrite <- Z.pow_add_r by lia. by replace (j + 23) with (Zdigits2 v - 1) by lia. }
  assert (n < 2 ^ 24) as Hn2. { apply Z.div_lt_upper_bound; [done|]. rewrite <- Z.pow_add_r by lia. by replace (j + 24) with (Zdigits2 v) by lia. }
  exists ((n + 1) * 2 ^ j). pose proof (Z.mul_div_le v (2 ^ j) ltac:(done)) as Q1. pose proof (Z.mul_succ_div_gt v (2 ^ j) ltac:(done)) as Q2. fold n in Q1, Q2.
  pose proof (Z.mul_div_le a b ltac:(done)) as Q3. pose proof (Z.mul_succ_div_gt a b ltac:(done)) as Q4. fold v in Q3, Q4. split; [apply rep_scaled; lia|]. split; [nia|].
  assert (n * 2 ^ j * b ≤ a) as Ha2 by nia. assert ((n + 1) * 2 ^ 23 ≤ n * (2 ^ 23 + 1)) by lia. assert (0 < 2 ^ j * b) by nia.
  transitivity (n * (2 ^ 23 + 1) * (2 ^ j * b)); [|nia]. transitivity ((n + 1) * 2 ^ 23 * (2 ^ j * b)); [lia|nia].
Qed.
Lemma rounds_error_above a b r : 0 < b → 2 ^ 23 * b ≤ a → rounds a b r → value r * b * 2 ^ 23 ≤ a * (2 ^ 23 + 1).
Proof.
  intros Hb Ha [_ _ _ D]. destruct (rep_above a b Hb Ha) as (t & Ht & H1 & H2). specialize (D t Ht H1). etransitivity; [|exact H2]. nia.
Qed.
