(* ===== verification/FeLayout.v ===== *)
(** * The layout of the control room (skid-monitor-fe, components/layout.rs,
      components/main_panels.rs, pages/detail.rs, pages/overview.rs)

    Panels share the height of a page and two columns its width; the shares
    are kept between frames and moved by dragging a handle.  Sizes are [f32]s
    in points.  [f32::clamp] panics if its bounds are not ordered, so every
    operation that clamps gives an option; [layout_fits] shows that none
    does, and that no panel is smaller than its minimum. *)

From S2P Require Import Prelude RustStr Otlp Json RustFloat FeProfile VrmJson VrmBuffers VrmAnimation VrmFloat FloatRound.

(** ** config.rs *)

Definition GLOBAL_ITEM_SPACING : f32 * f32 := (f32_of_Z 10, f32_of_Z 8).
Definition CONTENT_SIDE_MARGIN_MIN : f32 := f32_of_Z 12.
Definition CONTENT_SIDE_MARGIN_MAX : f32 := f32_of_Z 32.
Definition CONTENT_SIDE_MARGIN_RATIO : f32 := f32_lit 2 100.
Definition CONTENT_BOTTOM_MARGIN_MIN : f32 := f32_of_Z 18.
Definition CONTENT_BOTTOM_MARGIN_MAX : f32 := f32_of_Z 56.
Definition CONTENT_BOTTOM_MARGIN_RATIO : f32 := f32_lit 4 100.
Definition SECTION_GAP : f32 := f32_of_Z 12.
Definition PANEL_HEADER_HEIGHT : f32 := f32_of_Z 42.
Definition MAIN_AREA_HEIGHT : f32 := f32_of_Z 560.
Definition GRAPH_PANEL_MIN_WIDTH : f32 := f32_of_Z 310.
Definition GRAPH_PANEL_MAX_WIDTH : f32 := f32_of_Z 420.
Definition GRAPH_PANEL_WIDTH_RATIO : f32 := f32_lit 34 100.
Definition COMPACT_BREAKPOINT : f32 := f32_of_Z 720.
Definition SPLIT_BREAKPOINT : f32 := f32_of_Z 980.
Definition SOURCES_HEIGHT_MIN : f32 := f32_of_Z 88.
Definition SOURCES_HEIGHT_MAX : f32 := f32_of_Z 180.
Definition SOURCES_HEIGHT_RATIO : f32 := f32_lit 15 100.
Definition DATABASE_METRICS_HEIGHT_MIN : f32 := f32_of_Z 108.
Definition DATABASE_METRICS_HEIGHT_MAX : f32 := f32_of_Z 170.
Definition DATABASE_METRICS_HEIGHT_RATIO : f32 := f32_lit 22 100.
Definition TRENDS_PANEL_HEIGHT_MIN : f32 := f32_of_Z 108.
Definition SPARKLINE_HEIGHT_MIN : f32 := f32_of_Z 36.
Definition SPARKLINE_HEIGHT_MAX : f32 := f32_of_Z 62.
Definition SPARKLINE_HEIGHT_RATIO : f32 := f32_lit 11 100.
Definition METRICS_TABLE_HEIGHT_MIN : f32 := f32_of_Z 220.
Definition METRICS_TABLE_HEIGHT_MAX : f32 := f32_of_Z 390.
Definition METRICS_TABLE_HEIGHT_RATIO : f32 := f32_lit 38 100.
Definition METRICS_TABLE_MIN_WIDTH : f32 := f32_of_Z 460.
Definition EVENT_LOG_HEIGHT_MIN : f32 := f32_of_Z 120.
Definition AGENTS_PANEL_HEIGHT_MIN : f32 := f32_of_Z 180.

(** ** layout.rs *)

(** [f32::clamp], which asserts that its bounds are ordered. *)
Definition clamp (f lo hi : f32) : option f32 := if SFleb lo hi then Some (f32_clamp f lo hi) else None.
(** [Iterator::sum] *)
Definition f32_sum (l : list f32) : f32 := foldl f32_add f32_0 l.

Inductive LayoutMode := Compact | Stacked | Split.
Definition for_width (width : f32) : LayoutMode :=
  if SFltb width COMPACT_BREAKPOINT then Compact else if SFltb width SPLIT_BREAKPOINT then Stacked else Split.

Record PanelLimits := {
  main_height : f32;
  sources_height : f32;
  database_height : f32;
  trends_height : f32;
  metrics_height : f32;
  event_log_height : f32;
}.
Definition clamped_extent (total ratio lo hi : f32) : option f32 := clamp (f32_mul total ratio) lo hi.
Definition positive_part (f : f32) : f32 := f32_max f f32_0.

Definition for_remaining_height (height : f32) (layout : LayoutMode) (section_gap : f32) : option PanelLimits :=
  let available_height := positive_part height in
  let main := f32_min MAIN_AREA_HEIGHT (positive_part (f32_sub (f32_sub available_height EVENT_LOG_HEIGHT_MIN) section_gap)) in
  let event_log := positive_part (f32_sub (f32_sub available_height main) section_gap) in
  match layout with
  | Split =>
    sources ← clamped_extent main SOURCES_HEIGHT_RATIO SOURCES_HEIGHT_MIN SOURCES_HEIGHT_MAX;
    let sources := f32_min sources main in
    database ← clamped_extent main DATABASE_METRICS_HEIGHT_RATIO DATABASE_METRICS_HEIGHT_MIN DATABASE_METRICS_HEIGHT_MAX;
    let database := f32_min database (positive_part (f32_sub (f32_sub main sources) section_gap)) in
    let trends := positive_part (f32_sub (f32_sub (f32_sub main sources) database) (f32_mul section_gap (f32_of_Z 2))) in
    Some {| main_height := main; sources_height := sources; database_height := database; trends_height := trends;
            metrics_height := main; event_log_height := event_log |}
  | Stacked | Compact =>
    let panel_budget := positive_part (f32_sub main (f32_mul section_gap (f32_of_Z 3))) in
    sources ← clamped_extent panel_budget SOURCES_HEIGHT_RATIO SOURCES_HEIGHT_MIN SOURCES_HEIGHT_MAX;
    let sources := f32_min sources panel_budget in
    database ← clamped_extent panel_budget DATABASE_METRICS_HEIGHT_RATIO DATABASE_METRICS_HEIGHT_MIN DATABASE_METRICS_HEIGHT_MAX;
    let database := f32_min database (positive_part (f32_sub panel_budget sources)) in
    metrics ← clamped_extent panel_budget METRICS_TABLE_HEIGHT_RATIO METRICS_TABLE_HEIGHT_MIN METRICS_TABLE_HEIGHT_MAX;
    let metrics := f32_min metrics (positive_part (f32_sub (f32_sub panel_budget sources) database)) in
    let trends := positive_part (f32_sub (f32_sub (f32_sub panel_budget sources) database) metrics) in
    Some {| main_height := main; sources_height := sources; database_height := database; trends_height := trends;
            metrics_height := metrics; event_log_height := event_log |}
  end.

Record ContentLayout := { cl_width : f32; cl_height : f32; side_margin : f32; bottom_margin : f32 }.
Definition for_viewport (size : f32 * f32) : option ContentLayout :=
  readable_margin ← clamped_extent size.1 CONTENT_SIDE_MARGIN_RATIO CONTENT_SIDE_MARGIN_MIN CONTENT_SIDE_MARGIN_MAX;
  let width := f32_min (f32_max (f32_sub size.1 (f32_mul readable_margin (f32_of_Z 2))) f32_1) (f32_max size.1 f32_1) in
  bottom ← clamped_extent size.2 CONTENT_BOTTOM_MARGIN_RATIO CONTENT_BOTTOM_MARGIN_MIN CONTENT_BOTTOM_MARGIN_MAX;
  Some {| cl_width := width; cl_height := f32_max size.2 f32_1;
          side_margin := positive_part (f32_mul (f32_sub size.1 width) (f32_lit 1 2)); bottom_margin := bottom |}.

(** [consumed]: the cursor of egui minus the top of what was drawn. *)
Definition remaining_height (consumed : f32) (content : ContentLayout) : f32 :=
  positive_part (f32_sub (f32_sub (cl_height content) (positive_part consumed)) (bottom_margin content)).
Definition section_gap (spacing_y : f32) : f32 := f32_add SECTION_GAP spacing_y.
Definition panel_body_height (panel_height : f32) : f32 := f32_max (f32_sub panel_height PANEL_HEADER_HEIGHT) f32_1.
Definition graph_panel_width (content_width : f32) : option f32 :=
  clamp (f32_mul content_width GRAPH_PANEL_WIDTH_RATIO) GRAPH_PANEL_MIN_WIDTH GRAPH_PANEL_MAX_WIDTH.
Definition sparkline_height (width : f32) : option f32 := clamp (f32_mul width SPARKLINE_HEIGHT_RATIO) SPARKLINE_HEIGHT_MIN SPARKLINE_HEIGHT_MAX.

(** ** main_panels.rs *)

Inductive MainPanel := NodesPanel | DatabasePanel | TrendsPanel | MetricsPanel.
Definition panel_height (panel : MainPanel) (limits : PanelLimits) : f32 :=
  match panel with
  | NodesPanel => sources_height limits
  | DatabasePanel => database_height limits
  | TrendsPanel => trends_height limits
  | MetricsPanel => metrics_height limits
  end.
Definition panel_minimum (panel : MainPanel) : f32 :=
  match panel with
  | NodesPanel => SOURCES_HEIGHT_MIN
  | DatabasePanel => DATABASE_METRICS_HEIGHT_MIN
  | TrendsPanel => TRENDS_PANEL_HEIGHT_MIN
  | MetricsPanel => METRICS_TABLE_HEIGHT_MIN
  end.
Definition STACKED_PANELS : list MainPanel := [NodesPanel; DatabasePanel; TrendsPanel; MetricsPanel].
Definition STACKED_PANELS_WITHOUT_DATABASE : list MainPanel := [NodesPanel; TrendsPanel; MetricsPanel].
Definition GRAPH_PANELS : list MainPanel := [NodesPanel; DatabasePanel; TrendsPanel].
Definition GRAPH_PANELS_WITHOUT_DATABASE : list MainPanel := [NodesPanel; TrendsPanel].

(** [gap * (panels.len() - 1) as f32] *)
Definition gaps (gap : f32) (panels : nat) : f32 := f32_mul gap (f32_of_Z (Z.of_nat (panels - 1))).
Definition minimum_height (layout : LayoutMode) (gap : f32) (has_database_metrics : bool) : f32 :=
  let panels := match layout, has_database_metrics with
    | Split, true => GRAPH_PANELS
    | Split, false => GRAPH_PANELS_WITHOUT_DATABASE
    | _, true => STACKED_PANELS
    | _, false => STACKED_PANELS_WITHOUT_DATABASE
    end in
  let stacked_height := f32_add (f32_sum (panel_minimum <$> panels)) (gaps gap (length panels)) in
  match layout with Split => f32_max stacked_height (panel_minimum MetricsPanel) | _ => stacked_height end.

Definition normalize_flex (flex : list f32) : list f32 := if SFleb (f32_sum flex) F32_EPSILON then (λ _, f32_1) <$> flex else flex.
Definition flex_extents (flex : list f32) (available : f32) : list f32 :=
  let total := f32_max (f32_sum flex) F32_EPSILON in
  (λ share, f32_div (f32_mul available share) total) <$> flex.

(** A panel whose extent is not fixed yet has a weight and a minimum. *)
Inductive Extent := Fixed (extent : f32) | Flexible (weight minimum : f32).
Definition flexible_weights (l : list Extent) : list f32 := omap (λ e, match e with Flexible weight _ => Some weight | Fixed _ => None end) l.
Definition share (remaining weight_total weight : f32) : f32 := f32_div (f32_mul remaining weight) weight_total.
Definition undersized (remaining weight_total : f32) (e : Extent) : bool :=
  match e with Flexible weight minimum => SFltb (share remaining weight_total weight) minimum | Fixed _ => false end.
Definition final_extent (remaining weight_total : f32) (e : Extent) : f32 :=
  match e with Flexible weight _ => share remaining weight_total weight | Fixed extent => extent end.

(** The loop fixes the first panel that is too small, until there is none. *)
Fixpoint flex_loop (fuel : nat) (l : list Extent) (remaining : f32) : option (list f32) :=
  match fuel with
  | O => None
  | S fuel =>
    let weight_total := f32_sum (flexible_weights l) in
    match list_find (λ e, undersized remaining weight_total e = true) l with
    | Some (index, Flexible _ minimum) => flex_loop fuel (<[index := Fixed minimum]> l) (positive_part (f32_sub remaining minimum))
    | _ => Some (final_extent remaining weight_total <$> l)
    end
  end.
Definition flex_extents_with_minimums (flex : list f32) (available : f32) (minimums : list f32) : option (list f32) :=
  let minimum_total := f32_sum minimums in
  let minimums := if SFltb available minimum_total && SFltb F32_EPSILON minimum_total
                  then (λ minimum, f32_mul minimum (f32_div available minimum_total)) <$> minimums else minimums in
  flex_loop (S (length flex)) (zip_with Flexible ((λ share, f32_max share F32_EPSILON) <$> flex) minimums) available.

(** Moves the border of two neighbours, which keep their sum. *)
Definition clamp_pair (extents : list f32) (first : nat) (delta first_min second_min : f32) : option (list f32) :=
  x ← extents !! first; y ← extents !! S first;
  let pair_total := f32_add x y in
  let min_total := f32_add first_min second_min in
  let '(first_min, second_min) :=
    if SFltb pair_total min_total && SFltb F32_EPSILON min_total
    then (f32_mul first_min (f32_div pair_total min_total), f32_mul second_min (f32_div pair_total min_total))
    else (first_min, second_min) in
  let first_max := f32_sub pair_total second_min in
  first_extent ← clamp (f32_add x delta) first_min first_max;
  Some (<[S first := f32_sub pair_total first_extent]> (<[first := first_extent]> extents)).

Definition moved (delta : f32) : bool := negb (SFeqb delta f32_0).

(** The panels of a stack from [index] on: each is drawn after the handle
    above it was dragged.  The heights drawn, and the shares that are kept. *)
Fixpoint stack_from (index : nat) (panels : list MainPanel) (deltas : nat → f32) (minimums : list f32) (panel_budget : f32)
    (heights flex : list f32) : option (list f32 * list f32) :=
  match panels with
  | [] => Some ([], flex)
  | panel :: panels =>
    '(heights, flex) ←
      (if (0 <? index)%nat && moved (deltas (index - 1)%nat)
       then lo ← minimums !! (index - 1)%nat; hi ← minimums !! index;
            heights ← clamp_pair heights (index - 1) (deltas (index - 1)%nat) (f32_min lo panel_budget) (f32_min hi panel_budget);
            Some (heights, heights)
       else Some (heights, flex));
    drawn ← heights !! index;
    '(drawn_below, flex) ← stack_from (S index) panels deltas minimums panel_budget heights flex;
    Some (drawn :: drawn_below, flex)
  end.
Definition stack (spacing_y total_height : f32) (panels : list MainPanel) (deltas : nat → f32) (flex : list f32)
  : option (list f32 * list f32) :=
  let gap := f32_add SECTION_GAP spacing_y in
  let panel_budget := f32_max (f32_sub total_height (gaps gap (length panels))) f32_1 in
  let flex := normalize_flex flex in
  let minimums := panel_minimum <$> panels in
  heights ← flex_extents_with_minimums flex panel_budget minimums;
  stack_from 0 panels deltas minimums panel_budget heights flex.

Record PanelFlex := {
  split_flex : option (list f32);
  graph_stack : option (list f32);
  graph_stack_without_database : option (list f32);
  full_stack : option (list f32);
  full_stack_without_database : option (list f32);
}.
Definition no_flex : PanelFlex :=
  {| split_flex := None; graph_stack := None; graph_stack_without_database := None; full_stack := None; full_stack_without_database := None |}.
Definition panel_heights (limits : PanelLimits) (panels : list MainPanel) : list f32 := (λ panel, panel_height panel limits) <$> panels.

(** What is drawn: the panels and their heights, and two columns' widths. *)
Record Drawn := { dn_panels : list (MainPanel * f32); dn_columns : option (list f32) }.

(** The graphs' column, or all panels. *)
Definition graphs (spacing_y : f32) (limits : PanelLimits) (has_database_metrics : bool) (deltas : nat → f32) (flex : PanelFlex)
  : option (list (MainPanel * f32) * PanelFlex) :=
  if has_database_metrics then
    '(heights, kept) ← stack spacing_y (main_height limits) GRAPH_PANELS deltas (default (panel_heights limits GRAPH_PANELS) (graph_stack flex));
    Some (zip GRAPH_PANELS heights, {| split_flex := split_flex flex; graph_stack := Some kept;
      graph_stack_without_database := graph_stack_without_database flex; full_stack := full_stack flex;
      full_stack_without_database := full_stack_without_database flex |})
  else
    '(heights, kept) ← stack spacing_y (main_height limits) GRAPH_PANELS_WITHOUT_DATABASE deltas
      (default (panel_heights limits GRAPH_PANELS_WITHOUT_DATABASE) (graph_stack_without_database flex));
    Some (zip GRAPH_PANELS_WITHOUT_DATABASE heights, {| split_flex := split_flex flex; graph_stack := graph_stack flex;
      graph_stack_without_database := Some kept; full_stack := full_stack flex;
      full_stack_without_database := full_stack_without_database flex |}).
Definition full (spacing_y : f32) (limits : PanelLimits) (has_database_metrics : bool) (deltas : nat → f32) (flex : PanelFlex)
  : option (list (MainPanel * f32) * PanelFlex) :=
  if has_database_metrics then
    '(heights, kept) ← stack spacing_y (main_height limits) STACKED_PANELS deltas (default (panel_heights limits STACKED_PANELS) (full_stack flex));
    Some (zip STACKED_PANELS heights, {| split_flex := split_flex flex; graph_stack := graph_stack flex;
      graph_stack_without_database := graph_stack_without_database flex; full_stack := Some kept;
      full_stack_without_database := full_stack_without_database flex |})
  else
    '(heights, kept) ← stack spacing_y (main_height limits) STACKED_PANELS_WITHOUT_DATABASE deltas
      (default (panel_heights limits STACKED_PANELS_WITHOUT_DATABASE) (full_stack_without_database flex));
    Some (zip STACKED_PANELS_WITHOUT_DATABASE heights, {| split_flex := split_flex flex; graph_stack := graph_stack flex;
      graph_stack_without_database := graph_stack_without_database flex; full_stack := full_stack flex;
      full_stack_without_database := Some kept |}).

Definition set_split (columns : list f32) (flex : PanelFlex) : PanelFlex :=
  {| split_flex := Some columns; graph_stack := graph_stack flex; graph_stack_without_database := graph_stack_without_database flex;
     full_stack := full_stack flex; full_stack_without_database := full_stack_without_database flex |}.
Definition split (spacing : f32 * f32) (content_width : f32) (limits : PanelLimits) (has_database_metrics : bool) (deltas : nat → f32)
    (column_delta : f32) (flex : PanelFlex) : option (Drawn * PanelFlex) :=
  let handle_width := spacing.1 in
  let column_budget := f32_max (f32_sub content_width handle_width) f32_1 in
  graph_width ← graph_panel_width content_width;
  let initial_graph_width := f32_min graph_width column_budget in
  let columns := normalize_flex (default [initial_graph_width; f32_sub column_budget initial_graph_width] (split_flex flex)) in
  let graph_min := f32_min GRAPH_PANEL_MIN_WIDTH column_budget in
  let metrics_min := f32_min METRICS_TABLE_MIN_WIDTH column_budget in
  widths ← clamp_pair (flex_extents columns column_budget) 0 f32_0 graph_min metrics_min;
  '(panels, flex) ← graphs spacing.2 limits has_database_metrics deltas (set_split columns flex);
  columns ← (if moved column_delta then clamp_pair widths 0 column_delta graph_min metrics_min else Some columns);
  Some ({| dn_panels := panels ++ [(MetricsPanel, metrics_height limits)]; dn_columns := Some widths |}, set_split columns flex).

Definition show_panels (spacing : f32 * f32) (panel_width : f32) (layout : LayoutMode) (limits : PanelLimits) (has_database_metrics : bool)
    (deltas : nat → f32) (column_delta : f32) (flex : PanelFlex) : option (Drawn * PanelFlex) :=
  match layout with
  | Split => split spacing panel_width limits has_database_metrics deltas column_delta flex
  | Stacked | Compact =>
    '(panels, flex) ← full spacing.2 limits has_database_metrics deltas flex;
    Some ({| dn_panels := panels; dn_columns := None |}, flex)
  end.

(** ** The pages *)

(** The main part of a page and the event log below it, as in
    [overview::show] and [detail::show_resizable_content]: their heights, and
    the shares that are kept after the handle between them was dragged. *)
Definition page_heights (main_min : f32) (limits : PanelLimits) (flex : option (f32 * f32)) : option ((f32 * f32) * (f32 * f32) * f32) :=
  let event_min := EVENT_LOG_HEIGHT_MIN in
  let available := f32_max (f32_add (main_height limits) (event_log_height limits)) (f32_add main_min event_min) in
  let flex := default (f32_max (main_height limits) main_min, f32_max (event_log_height limits) event_min) flex in
  let total := f32_add flex.1 flex.2 in
  main ← clamp (f32_div (f32_mul available flex.1) (f32_max total F32_EPSILON)) main_min (f32_sub available event_min);
  Some ((main, f32_sub available main), flex, available).
Definition page_drag (main_min available delta : f32) (heights flex : f32 * f32) : option ((f32 * f32) * (f32 * f32)) :=
  if moved delta then
    main ← clamp (f32_add heights.1 delta) main_min (f32_sub available EVENT_LOG_HEIGHT_MIN);
    Some ((main, f32_sub available main), (main, f32_sub available main))
  else Some (heights, flex).

Definition with_main_height (height : f32) (limits : PanelLimits) : PanelLimits :=
  {| main_height := height; sources_height := sources_height limits; database_height := database_height limits;
     trends_height := trends_height limits; metrics_height := height; event_log_height := event_log_height limits |}.

(** What egui tells a frame: the viewport, the height that the header took,
    the width of the content, and how far each handle was dragged. *)
Record LayoutInput := {
  li_viewport : f32 * f32;
  li_consumed : f32;
  li_width : f32;
  li_has_database : bool;
  li_page_delta : f32;
  li_panel_deltas : nat → f32;
  li_column_delta : f32;
}.
(** What egui keeps between frames. *)
Record LayoutState := { ls_overview : option (f32 * f32); ls_detail : option (f32 * f32); ls_panels : PanelFlex }.
Definition layout_start : LayoutState := {| ls_overview := None; ls_detail := None; ls_panels := no_flex |}.

Definition frame_limits (spacing : f32 * f32) (input : LayoutInput) : option PanelLimits :=
  content ← for_viewport (li_viewport input);
  for_remaining_height (remaining_height (li_consumed input) content) (for_width (li_width input)) (section_gap spacing.2).

(** The overview: the table of agents above the event log, which is drawn
    with its height before the drag. *)
Definition overview_layout (spacing : f32 * f32) (input : LayoutInput) (s : LayoutState) : option ((f32 * f32) * LayoutState) :=
  limits ← frame_limits spacing input;
  '(heights, flex, available) ← page_heights AGENTS_PANEL_HEIGHT_MIN limits (ls_overview s);
  '(_, flex) ← page_drag AGENTS_PANEL_HEIGHT_MIN available (li_page_delta input) heights flex;
  Some (heights, {| ls_overview := Some flex; ls_detail := ls_detail s; ls_panels := ls_panels s |}).

(** The page of a node; inside it the vertical spacing of items is 0. *)
Definition detail_layout (spacing : f32 * f32) (input : LayoutInput) (s : LayoutState) : option ((f32 * f32) * Drawn * LayoutState) :=
  limits ← frame_limits spacing input;
  let layout := for_width (li_width input) in
  let main_min := minimum_height layout (section_gap spacing.2) (li_has_database input) in
  '(heights, flex, available) ← page_heights main_min limits (ls_detail s);
  '(drawn, panels) ← show_panels (spacing.1, f32_0) (li_width input) layout (with_main_height heights.1 limits) (li_has_database input)
                        (li_panel_deltas input) (li_column_delta input) (ls_panels s);
  '(_, flex) ← page_drag main_min available (li_page_delta input) heights flex;
  Some (heights, drawn, {| ls_overview := ls_overview s; ls_detail := Some flex; ls_panels := panels |}).

(** Frames of either page, and what they draw. *)
Inductive PageFrame := OverviewFrame (input : LayoutInput) | DetailFrame (input : LayoutInput).
Inductive PageDrawn := OverviewDrawn (heights : f32 * f32) | DetailDrawn (input : LayoutInput) (heights : f32 * f32) (drawn : Drawn).
Definition page_frame (frame : PageFrame) (s : LayoutState) : option (PageDrawn * LayoutState) :=
  match frame with
  | OverviewFrame input => '(heights, s) ← overview_layout GLOBAL_ITEM_SPACING input s; Some (OverviewDrawn heights, s)
  | DetailFrame input => '(heights, drawn, s) ← detail_layout GLOBAL_ITEM_SPACING input s; Some (DetailDrawn input heights drawn, s)
  end.
Fixpoint page_frames (frames : list PageFrame) (s : LayoutState) : option (list PageDrawn * LayoutState) :=
  match frames with
  | [] => Some ([], s)
  | frame :: frames => '(drawn, s) ← page_frame frame s; '(rest, s) ← page_frames frames s; Some (drawn :: rest, s)
  end.

(** * The layout fits (skid-monitor-fe, components/layout.rs and main_panels.rs)

    Whatever the sizes of the window and however the handles are dragged, no
    bounds of a [clamp] are out of order, the loop that shares the height
    ends, and every panel has at least its minimum ([layout_fits]).  Rounding
    is monotone, and the minimums are small integers: a bound that holds for
    the exact sizes holds for the rounded ones, and a size minus a minimum is
    exact. *)

(** ** Sizes *)

(** [k] points, in units of [2 ^ -149]. *)
Definition px (k : Z) : Z := k * 2 ^ 149.
#[local] Arguments px : simpl never.
(** At most [2 ^ k] points. *)
Definition upto (k : Z) (x : f32) : Prop := nonneg x ∧ value x ≤ px (2 ^ k).
(** A whole number of points. *)
Definition whole (x : f32) : Prop := nonneg x ∧ ∃ k, 0 ≤ k ≤ 2 ^ 22 ∧ value x = px k.

Lemma px_lt k l : 0 ≤ k < l → px (2 ^ k) < px (2 ^ l).
Proof. intros Hk. unfold px. apply Z.mul_lt_mono_pos_r; [done|]. apply Z.pow_lt_mono_r; lia. Qed.
Lemma below_mono k l x : 0 ≤ k ≤ l → upto k x → upto l x.
Proof. intros Hk [H1 H2]. split; [done|]. unfold px in *. pose proof (Z.pow_le_mono_r 2 k l). nia. Qed.
Lemma upto_nonneg k x : upto k x → nonneg x.
Proof. by intros []. Qed.
Lemma whole_nonneg x : whole x → nonneg x.
Proof. by intros []. Qed.
#[export] Hint Resolve upto_nonneg whole_nonneg : core.
Lemma value_nonneg x : nonneg x → 0 ≤ value x.
Proof. by intros []. Qed.
Lemma rep_px n : 0 ≤ n ≤ 2 ^ 24 → rep (px n).
Proof. intros. by apply rep_scaled. Qed.
Lemma rep_px_power k : 0 ≤ k → rep (px (2 ^ k)).
Proof. intros. unfold px. rewrite <- Z.pow_add_r by lia. apply rep_power. lia. Qed.
Lemma px_power k : 0 ≤ k → px (2 ^ k) = 2 ^ (k + 149).
Proof. intros. unfold px. by rewrite Z.pow_add_r by lia. Qed.
Lemma rep_whole x : whole x → rep (value x).
Proof. intros [[V F P] _]. by apply rep_value. Qed.

(** An integer of points. *)
Lemma of_Z_value n : 0 ≤ n ≤ 2 ^ 24 → nonneg (f32_of_Z n) ∧ value (f32_of_Z n) = px n.
Proof.
  intros Hn. unfold f32_of_Z. pose proof (normalize_rounds n 0 false ltac:(lia) ltac:(lia)) as R. change (0 + 149) with 149 in R.
  specialize (R ltac:(unfold px in *; nia)). split; [apply (rounds_nonneg (n * 2 ^ 149) 1); [done|lia|exact R]|]. apply rounds_exact; [by apply rep_px|done].
Qed.
(** A constant of [n] points. *)
Definition points (x : f32) (n : Z) : bool := valid_binary 24 128 x && is_finite x && (value x =? px n) && (0 <=? n).
Lemma points_value x n : points x n = true → nonneg x ∧ value x = px n.
Proof.
  intros H. unfold points in H. rewrite !andb_true_iff in H. destruct H as [[[V F] E%Z.eqb_eq] N%Z.leb_le]. split; [|done]. split; [done|done|]. rewrite E. unfold px. lia.
Qed.
Lemma whole_of_Z n : 0 ≤ n ≤ 2 ^ 22 → whole (f32_of_Z n).
Proof. intros Hn. destruct (of_Z_value n) as [H1 H2]; [lia|]. split; [done|]. by exists n. Qed.
Lemma points_whole x n : points x n = true → n ≤ 2 ^ 22 → whole x ∧ value x = px n.
Proof. intros [N E]%points_value Hn. split; [|done]. split; [done|]. exists n. split; [|done]. pose proof (value_nonneg x N). unfold px in *. lia. Qed.

Lemma rounds_size a r : 0 ≤ a → rounds a 1 r → nonneg r.
Proof. by apply rounds_nonneg. Qed.
Lemma add_upto k x y : upto k x → upto k y → 0 ≤ k ≤ 60 → upto (k + 1) (f32_add x y) ∧ rounds (value x + value y) 1 (f32_add x y).
Proof.
  intros [Hx Bx] [Hy By] Hk. rewrite px_power in * by lia. pose proof (value_nonneg _ Hx). pose proof (value_nonneg _ Hy).
  assert (2 ^ (k + 1 + 149) = 2 * 2 ^ (k + 149)) as E by (rewrite <- Z.pow_succ_r by lia; f_equal; lia).
  pose proof (Z.pow_le_mono_r 2 (k + 1 + 149) 249 ltac:(lia) ltac:(lia)). pose proof (add_rounds x y Hx Hy ltac:(lia)) as R. split; [|done]. split.
  - eapply rounds_size; [|done]. lia.
  - rewrite px_power by lia. apply R; [apply rep_power; lia|lia].
Qed.
Lemma sub_upto k x y : upto k x → nonneg y → value y ≤ value x → 0 ≤ k ≤ 60 → upto k (f32_sub x y) ∧ rounds (value x - value y) 1 (f32_sub x y).
Proof.
  intros [Hx Bx] Hy Hle Hk. rewrite px_power in * by lia. pose proof (value_nonneg _ Hy). pose proof (Z.pow_le_mono_r 2 (k + 149) 249 ltac:(lia) ltac:(lia)).
  pose proof (sub_rounds x y Hx Hy ltac:(lia)) as R. split; [|done]. split; [eapply rounds_size; [|done]; lia|]. rewrite px_power by lia. apply R; [apply rep_power; lia|lia].
Qed.

(** ** A size minus a minimum *)

Lemma sub_whole x m : upto 24 x → value x < px (2 ^ 24) → whole m → value m ≤ value x → value (f32_sub x m) = value x - value m.
Proof.
  intros Hx Hlt Hm Hle. destruct (sub_upto 24 x m Hx ltac:(auto) Hle ltac:(lia)) as [_ R]. apply rounds_exact; [|done]. clear R.
  destruct Hm as [Nm (k & Hk & Em)]. destruct Hx as [Nx _]. pose proof (value_nonneg _ Nm). destruct (nonneg_cases x Nx) as [[s ->]|(a & e & -> & He & Ha & Ev & Ce)].
  { change (value (S754_zero s)) with 0 in *. replace (0 - value m) with 0 by lia. apply rep_0. }
  rewrite Ev in *. rewrite Em in *. unfold px in *. rewrite fexp_max in Ce.
  assert (e ≤ 0) as He2.
  { destruct (decide (e = -149)); [lia|]. destruct (Zdigits2_spec (Zpos a)) as (_ & L & _); [done|]. replace (Zdigits2 (Zpos a) - 1) with 23 in L by lia.
    assert (23 + (e + 149) < 24 + 149); [|lia]. apply (Z.pow_lt_mono_r_iff 2); [lia..|]. rewrite !Z.pow_add_r in * by lia. nia. }
  set (j := 149 - (e + 149)). assert (k * 2 ^ 149 = k * 2 ^ j * 2 ^ (e + 149)) as E.
  { rewrite <- (Z.mul_assoc k (2 ^ j)), <- Z.pow_add_r by lia. by replace (j + (e + 149)) with 149 by lia. }
  assert (0 < 2 ^ (e + 149)) by (apply Z.pow_pos_nonneg; lia). pose proof (Z.pow_nonneg 2 j ltac:(lia)). rewrite E in *. rewrite <- Z.mul_sub_distr_r. apply rep_scaled; nia.
Qed.

(** What is left of [x] after a part that leaves room for [m] is at least [m]. *)
Lemma sub_leaves x y m : upto 24 x → value x < px (2 ^ 24) → whole m → value m ≤ value x → nonneg y → value y ≤ value (f32_sub x m) →
  upto 24 (f32_sub x y) ∧ value m ≤ value (f32_sub x y).
Proof.
  intros Hx Hlt Hm Hle Hy Hyle. rewrite (sub_whole x m Hx Hlt Hm Hle) in Hyle. pose proof (value_nonneg m ltac:(auto)).
  destruct (sub_upto 24 x y Hx Hy ltac:(lia) ltac:(lia)) as [U R]. split; [done|]. apply R; [by apply rep_whole|lia].
Qed.

(** ** Signed differences *)

Lemma sub_signed k x y : small k x → small k y → valid x → valid y → -149 ≤ k ≤ 103 → small (k + 1) (f32_sub x y) ∧ valid (f32_sub x y).
Proof.
  intros Hx Hy Vx Vy Hk. destruct x as [sx| | |sx mx ex], y as [sy| | |sy my ey]; try done.
  - by destruct sx, sy.
  - split; [|by destruct sy]. eapply small_mono; [|exact Hy]. lia.
  - split; [|done]. eapply small_mono; [|exact Hx]. lia.
  - destruct Hx as [Ex Mx], Hy as [Ey My]. unfold f32_sub, SFsub. set (ez := Z.min ex ey). assert (-149 ≤ ez ∧ ez ≤ ex ≤ k ∧ ez ≤ ey ≤ k) by lia.
    destruct (aligned sx mx ex ez k) as [Ax _]; [lia..|done|]. destruct (aligned sy my ey ez k) as [Ay _]; [lia..|done|].
    destruct (normalize_small (cond_Zopp sx (Zpos (shl_align mx ex ez).1) - cond_Zopp sy (Zpos (shl_align my ey ez).1)) ez false (k + 1)) as (N1 & N2 & _); [lia|lia| |done].
    replace (k + 1 - ez) with (Z.succ (k - ez)) by lia. rewrite Z.pow_succ_r by lia. lia.
Qed.
Lemma small_value k x : small k x → -149 ≤ k → Z.abs (value x) ≤ 2 ^ (k + 149).
Proof.
  intros Hs Hk. destruct x as [| | |s m e]; [simpl; apply Z.pow_nonneg; lia|done..|]. destruct Hs as [He Hm]. simpl. rewrite cond_Zopp_abs.
  replace (k + 149) with (k - e + (e + 149)) by lia. rewrite (Z.pow_add_r 2 (k - e)) by lia. pose proof (Z.pow_nonneg 2 (e + 149) ltac:(lia)). rewrite Z.abs_eq; nia.
Qed.
Lemma upto_small k x : upto k x → 0 ≤ k ≤ 103 → small k x.
Proof.
  intros [Hx Bx] Hk. rewrite px_power in Bx by lia. destruct (nonneg_cases x Hx) as [[s ->]|(m & e & -> & He & Hm & Ev & _)]; [done|]. rewrite Ev in Bx. simpl.
  assert (0 < 2 ^ (e + 149)) by (apply Z.pow_pos_nonneg; lia). destruct (decide (e ≤ k)) as [Hek|Hek].
  - split; [lia|]. replace (k + 149) with (k - e + (e + 149)) in Bx by lia. rewrite (Z.pow_add_r 2 (k - e)) in Bx by lia. nia.
  - assert (2 ^ (k + 149) < 2 ^ (e + 149)) by (apply Z.pow_lt_mono_r; lia). nia.
Qed.
Lemma small_upto k x : valid x → small k x → 0 ≤ value x → 0 ≤ k → upto k x.
Proof.
  intros V S P Hk. split; [by split; [|eapply small_finite|]|]. rewrite px_power by lia. pose proof (small_value k x S ltac:(lia)). lia.
Qed.
Lemma positive_part_upto k x : valid x → small k x → 0 ≤ k → upto k (positive_part x).
Proof.
  intros V S Hk. unfold positive_part. assert (f32_max x f32_0 = if SFltb x f32_0 then f32_0 else x) as -> by by destruct x.
  assert (nonneg f32_0) as H0 by done. rewrite finite_ltb; [|done|by eapply small_finite|done]. case_bool_decide as E.
  - split; [done|]. change (value f32_0) with 0. unfold px. pose proof (Z.pow_nonneg 2 k ltac:(lia)). nia.
  - change (value f32_0) with 0 in E. apply small_upto; [done|done|lia|done].
Qed.

(** ** Moving a border *)

(** How far a handle was dragged. *)
Definition drag_ok (delta : f32) : Prop := valid delta ∧ small 60 delta.

Lemma clamp_ok x lo hi : valid x → is_finite x = true → nonneg lo → nonneg hi → value lo ≤ value hi →
  ∃ y, clamp x lo hi = Some y ∧ nonneg y ∧ value lo ≤ value y ≤ value hi.
Proof.
  intros V F Hlo Hhi Hle. unfold clamp. rewrite nonneg_leb, bool_decide_eq_true_2 by done. eexists. split; [done|].
  destruct (clamp_value x lo hi) as [H1 H2]; [done..|]. split; [done|lia].
Qed.
Lemma add_drag k x delta : upto k x → 0 ≤ k ≤ 60 → drag_ok delta → valid (f32_add x delta) ∧ is_finite (f32_add x delta) = true.
Proof.
  intros Hx Hk [V S]. destruct (add_small 60 x delta) as (H1 & H2 & _); [apply (small_mono k 60); [lia|by apply upto_small; [|lia]]|done|apply Hx|done|lia|].
  split; [done|by eapply small_finite].
Qed.
Lemma whole_upto m : whole m → upto 22 m.
Proof. intros [H (k & Hk & E)]. split; [done|]. rewrite E. unfold px. lia. Qed.
Lemma whole_sum a b : whole a → whole b → value (f32_add a b) = value a + value b ∧ nonneg (f32_add a b) ∧ rep (value a + value b).
Proof.
  intros Ha Hb. destruct (add_upto 22 a b) as [U R]; [by apply whole_upto..|lia|]. assert (rep (value a + value b)) as Hr.
  { destruct Ha as [_ (i & Hi & ->)], Hb as [_ (j & Hj & ->)]. replace (px i + px j) with (px (i + j)) by (unfold px; lia). apply rep_px. lia. }
  split; [by apply rounds_exact|]. split; [by eapply upto_nonneg|done].
Qed.

Lemma clamp_pair_ok k l i delta m0 m1 x y : l !! i = Some x → l !! S i = Some y → upto k x → upto k y → 0 ≤ k ≤ 22 → whole m0 → whole m1 →
  value m0 + value m1 ≤ value (f32_add x y) → drag_ok delta →
  ∃ x' y', clamp_pair l i delta m0 m1 = Some (<[S i := y']> (<[i := x']> l)) ∧ upto (k + 1) x' ∧ upto (k + 1) y' ∧ value m0 ≤ value x' ∧ value m1 ≤ value y'.
Proof.
  intros Ex Ey Hx Hy Hk W0 W1 Hsum Hd. unfold clamp_pair. rewrite Ex, Ey. simpl. destruct (add_upto k x y Hx Hy ltac:(lia)) as [Hp _].
  set (pair := f32_add x y) in *. destruct (whole_sum m0 m1 W0 W1) as (Em & Nm & _).
  rewrite (nonneg_ltb pair (f32_add m0 m1)) by eauto. rewrite bool_decide_eq_false_2 by lia. simpl. pose proof (value_nonneg m0 ltac:(auto)). pose proof (value_nonneg m1 ltac:(auto)).
  assert (upto 24 pair) as Hp24 by (eapply below_mono; [|exact Hp]; lia). assert (value pair < px (2 ^ 24)) as Hlt.
  { destruct Hp as [_ Bp]. eapply Z.le_lt_trans; [exact Bp|]. by apply px_lt; lia. }
  pose proof (sub_whole pair m1 Hp24 Hlt W1 ltac:(lia)) as Es. destruct (sub_upto (k + 1) pair m1 Hp ltac:(auto) ltac:(lia) ltac:(lia)) as [Um _].
  destruct (add_drag k x delta Hx ltac:(lia) Hd) as [V F]. destruct (clamp_ok (f32_add x delta) m0 (f32_sub pair m1)) as (x' & -> & Nx & Bx); [done|done|auto|eauto|lia|].
  destruct (sub_leaves pair x' m1) as [_ Ly]; [done|done|done|lia|done|lia|]. destruct (sub_upto (k + 1) pair x' Hp Nx ltac:(lia) ltac:(lia)) as [Uy _].
  exists x', (f32_sub pair x'). simpl. split; [done|]. split; [|split; [done|lia]]. split; [done|]. destruct Um as [_ Bm]. lia.
Qed.

(** ** Sharing the height *)

Lemma foldl_sum k l acc : upto k acc → Forall (upto k) l → 0 ≤ k → k + Z.of_nat (length l) ≤ 60 →
  upto (k + Z.of_nat (length l)) (foldl f32_add acc l) ∧ value acc ≤ value (foldl f32_add acc l) ∧ Forall (λ x, value x ≤ value (foldl f32_add acc l)) l.
Proof.
  revert k acc. induction l as [|x l IH]; intros k acc Ha Hl Hk Hn; simpl in *; [rewrite Z.add_0_r; split_and!; [done|lia|constructor]|].
  apply Forall_cons in Hl as [Hx Hl]. destruct (add_upto k acc x Ha Hx ltac:(lia)) as [Ha' [V F U D]].
  destruct (IH (k + 1) (f32_add acc x)) as (B1 & B2 & B3); [done|eapply Forall_impl; [done|intros; eapply below_mono; [|done]; lia]|lia|lia|].
  assert (rep (value acc) ∧ rep (value x)) as [Ra Rx] by (split; apply rep_value; first [apply Ha|apply Hx]).
  pose proof (value_nonneg acc ltac:(eauto)). pose proof (value_nonneg x ltac:(eauto)). pose proof (U _ Ra ltac:(lia)). pose proof (U _ Rx ltac:(lia)).
  split; [by replace (k + Z.of_nat (S (length l))) with (k + 1 + Z.of_nat (length l)) by lia|]. split; [lia|]. constructor; [lia|done].
Qed.
Lemma sum_upto k l : Forall (upto k) l → 0 ≤ k → k + Z.of_nat (length l) ≤ 60 →
  upto (k + Z.of_nat (length l)) (f32_sum l) ∧ Forall (λ x, value x ≤ value (f32_sum l)) l.
Proof.
  intros Hl Hk Hn. destruct (foldl_sum k l f32_0) as (H1 & _ & H2); [|done..]. split; [done|]. change (value f32_0) with 0. unfold px. pose proof (Z.pow_nonneg 2 k). nia.
Qed.

Lemma positive_sub k x y : upto k x → upto 60 y → 0 ≤ k ≤ 60 → upto k (positive_part (f32_sub x y)).
Proof.
  intros Hx Hy Hk. destruct (decide (value y ≤ value x)).
  - destruct (sub_upto k x y) as [U _]; [done|eauto|done|done|]. unfold positive_part. destruct (max_value (f32_sub x y) f32_0) as [N E]; [eauto|done|].
    split; [done|]. rewrite E. change (value f32_0) with 0. destruct U as [? ?]. pose proof (value_nonneg (f32_sub x y) ltac:(done)). lia.
  - destruct (sub_small 60 x y) as (S & V & G); [apply (small_mono k 60); [lia|by apply upto_small; [|lia]]|by apply upto_small; [|lia]|apply Hx|apply Hy|by apply value_nonneg; eauto..|lia|].
    unfold positive_part. assert (f32_max (f32_sub x y) f32_0 = if SFltb (f32_sub x y) f32_0 then f32_0 else f32_sub x y) as -> by by destruct (f32_sub x y).
    rewrite finite_ltb; [|done|by eapply small_finite|done]. change (value f32_0) with 0. rewrite bool_decide_eq_true_2 by (rewrite (Z.sgn_neg (value x - value y)) in G by lia; lia).
    split; [done|]. change (value f32_0) with 0. unfold px. pose proof (Z.pow_nonneg 2 k). nia.
Qed.

(** A share of the height is not more than the height. *)
Lemma share_upto remaining total weight : upto 20 remaining → nonneg weight → nonneg total → 0 < value weight ≤ value total → value weight ≤ 2 ^ 200 →
  upto 20 (share remaining total weight).
Proof.
  intros Hr Hw Ht Hle Hb. unfold share. assert (value remaining ≤ 2 ^ 20 * 2 ^ 149) as Br by apply Hr. pose proof (value_nonneg remaining ltac:(eauto)).
  pose proof (mul_rounds remaining weight ltac:(eauto) Hw ltac:(nia)) as Rp. assert (nonneg (f32_mul remaining weight)) as Np by (eapply rounds_nonneg; [| |exact Rp]; [done|nia]).
  assert (value (f32_mul remaining weight) ≤ value weight * 2 ^ 20) as Bp.
  { apply Rp; [|nia]. destruct (rep_value weight) as (n & j & Hn & Hj & E); [apply Hw|apply Hw|lia|]. rewrite E, <- Z.mul_assoc, <- Z.pow_add_r by lia. apply rep_scaled; lia. }
  pose proof (div_rounds (f32_mul remaining weight) total Np Ht ltac:(lia) ltac:(nia)) as Rd. split.
  - eapply rounds_nonneg; [| |exact Rd]; [lia|]. pose proof (value_nonneg _ Np). lia.
  - apply Rd; [by apply rep_px_power|]. unfold px. nia.
Qed.

Definition extent_ok (minimum : f32) (e : Extent) : Prop :=
  match e with
  | Fixed extent => extent = minimum
  | Flexible weight m => m = minimum ∧ upto 24 weight ∧ 0 < value weight
  end.
Definition fits (minimum extent : f32) : Prop := upto 20 extent ∧ value minimum ≤ value extent.

Lemma flexible_insert l i w m x : l !! i = Some (Flexible w m) → length (flexible_weights l) = S (length (flexible_weights (<[i := Fixed x]> l))).
Proof.
  revert i. induction l as [|e l IH]; intros [|i] Hi; simplify_eq/=; [done|]. destruct e; simpl; by rewrite (IH i Hi).
Qed.

Lemma flex_loop_fits fuel l minimums remaining : (length (flexible_weights l) < fuel)%nat → (length l ≤ 4)%nat → Forall2 extent_ok minimums l →
  Forall (λ m, whole m ∧ upto 20 m) minimums → upto 20 remaining → ∃ heights, flex_loop fuel l remaining = Some heights ∧ Forall2 fits minimums heights.
Proof.
  revert l remaining. induction fuel as [|fuel IH]; intros l remaining Hf Hlen Hl Hm Hr; [lia|]. simpl. set (total := f32_sum _).
  destruct (list_find _ l) as [[i e]|] eqn:E.
  - apply list_find_Some in E as (Ei & Hu & _). destruct e as [x|w m]; [done|]. destruct (Forall2_lookup_r _ _ _ _ _ Hl Ei) as (m' & Em & Heq & _). subst m'.
    apply IH.
    + rewrite (flexible_insert _ _ _ _ m Ei) in Hf. lia.
    + by rewrite length_insert.
    + rewrite <- (list_insert_id minimums i m Em). by apply Forall2_insert.
    + done.
    + rewrite Forall_lookup in Hm. destruct (Hm i m Em) as [_ Um]. apply positive_sub; [done|by apply (below_mono 20)|lia].
  - apply list_find_None in E. eexists. split; [done|]. assert (Forall (upto 24) (flexible_weights l) ∧ (length (flexible_weights l) ≤ length l)%nat) as [Hw Hwl].
    { clear -Hl. induction Hl as [|m e minimums l He Hl IH]; [by split|]. destruct IH as [IH1 IH2]. destruct e as [x|w m']; simpl; [split; [done|lia]|]. split; [constructor; [apply He|done]|lia]. }
    destruct (sum_upto 24 (flexible_weights l) Hw ltac:(lia) ltac:(lia)) as [Ht Hle]. fold total in Ht, Hle.
    apply Forall2_same_length_lookup. split; [rewrite length_fmap; by eapply Forall2_length|]. intros i m h Hmi Hh.
    rewrite list_lookup_fmap in Hh. destruct (l !! i) as [e|] eqn:Ei; [|done]. injection Hh as <-. pose proof (Forall2_lookup_lr _ _ _ _ _ _ Hl Hmi Ei) as He.
    rewrite Forall_lookup in Hm. destruct (Hm i m Hmi) as [Wm Um].
    destruct e as [x|w m']; simpl in He; [subst x; by split; [|simpl; lia]|]. destruct He as (-> & Uw & Pw). simpl.
    assert (value w ≤ value total) as Hwt.
    { apply (proj1 (Forall_forall _ _) Hle). apply list_elem_of_omap. exists (Flexible w m). split; [by eapply list_elem_of_lookup_2|done]. }
    assert (value w ≤ 2 ^ 200) by (destruct Uw as [_ B]; unfold px in B; lia).
    assert (upto 20 (share remaining total w)) as Us by (apply share_upto; [done|eauto|eauto|lia|lia]).
    split; [done|]. pose proof (proj1 (Forall_forall _ _) E (Flexible w m) ltac:(by eapply list_elem_of_lookup_2)) as Eu. clear E. rename Eu into E. apply not_true_is_false in E. simpl in E.
    rewrite nonneg_ltb in E by eauto. apply bool_decide_eq_false in E. lia.
Qed.

(** ** A stack of panels *)

(** The shares that are kept between frames. *)
Definition shares_ok (n : nat) (flex : list f32) : Prop := length flex = n ∧ Forall (upto 23) flex.

Lemma one_upto : upto 0 f32_1.
Proof. destruct (of_Z_value 1) as [H1 H2]; [lia|]. split; [done|]. unfold f32_1. rewrite H2. done. Qed.
Lemma normalize_shares n flex : shares_ok n flex → shares_ok n (normalize_flex flex).
Proof.
  intros [E F]. unfold normalize_flex. case_match; [|done]. split; [by rewrite length_fmap|]. apply Forall_fmap, Forall_true. intros ?. apply (below_mono 0); [lia|apply one_upto].
Qed.
Lemma share_weight_ok share : upto 23 share → upto 24 (f32_max share F32_EPSILON) ∧ 0 < value (f32_max share F32_EPSILON).
Proof.
  intros [N B]. assert (nonneg F32_EPSILON) as Ne by done. destruct (max_value share F32_EPSILON N Ne) as [Nm ->].
  assert (value F32_EPSILON = 2 ^ 126) as E by vm_refl. assert (0 < 2 ^ 126) by done. split; [split; [done|]|lia].
  destruct (max_value share F32_EPSILON N Ne) as [_ ->]. rewrite E. unfold px in *. lia.
Qed.

Lemma flex_fits flex available minimums : shares_ok (length minimums) flex → (length minimums ≤ 4)%nat → Forall (λ m, whole m ∧ upto 20 m) minimums → upto 20 available →
  nonneg (f32_sum minimums) → value (f32_sum minimums) ≤ value available →
  ∃ heights, flex_extents_with_minimums flex available minimums = Some heights ∧ Forall2 fits minimums heights.
Proof.
  intros [E F] Hlen Hm Ha Ns Hs. unfold flex_extents_with_minimums. rewrite nonneg_ltb by eauto. rewrite bool_decide_eq_false_2 by lia. simpl andb. cbv iota.
  assert (Forall2 extent_ok minimums (zip_with Flexible ((λ share, f32_max share F32_EPSILON) <$> flex) minimums)) as Hx.
  { clear -E F. revert minimums E. induction F as [|share flex Hsh F IH]; intros [|m minimums] E; simplify_eq/=; constructor; [|by apply IH].
    split; [done|]. by apply share_weight_ok. }
  assert (∀ l, length (flexible_weights l) ≤ length l)%nat as Hw by (intros l; induction l as [|[] l IH]; simpl; lia).
  apply flex_loop_fits; [|by rewrite <- (Forall2_length _ _ _ Hx)|done..]. specialize (Hw (zip_with Flexible ((λ share, f32_max share F32_EPSILON) <$> flex) minimums)).
  rewrite <- (Forall2_length _ _ _ Hx) in Hw. lia.
Qed.

(** A height that is still moved by [k - 20] handles. *)
Definition fits_by (k : Z) (minimum extent : f32) : Prop := upto k extent ∧ value minimum ≤ value extent.

Lemma stack_from_fits deltas minimums budget n panels index heights flex k : (∀ i, drag_ok (deltas i)) → length minimums = n →
  Forall whole minimums → Forall (λ m, value m ≤ value budget) minimums → nonneg budget →
  panel_minimum <$> panels = drop index minimums → Forall2 (fits_by k) minimums heights → shares_ok n flex →
  20 ≤ k → k + Z.of_nat (length panels) ≤ (if decide (index = 0%nat) then 24 else 23) →
  ∃ drawn flex', stack_from index panels deltas minimums budget heights flex = Some (drawn, flex') ∧
    Forall2 (λ panel h, value (panel_minimum panel) ≤ value h) panels drawn ∧ shares_ok n flex'.
Proof.
  intros Hd Hn Wm Bm Nb. revert index heights flex k. induction panels as [|panel panels IH]; intros index heights flex k Hp Hh Hf Hk Hkn; [by exists [], flex|].
  assert (minimums !! index = Some (panel_minimum panel)) as Emin.
  { replace index with (index + 0)%nat by lia. rewrite <- lookup_drop, <- Hp. done. }
  assert (panel_minimum <$> panels = drop (S index) minimums) as Hp'.
  { simpl in Hp. erewrite drop_S in Hp by done. by injection Hp. }
  simpl stack_from. set (step := if _ && _ then _ else _).
  assert (∃ heights' flex' k', step = Some (heights', flex') ∧ Forall2 (fits_by k') minimums heights' ∧ shares_ok n flex' ∧ 20 ≤ k' ∧ k' + Z.of_nat (length panels) ≤ 23)
    as (heights' & flex' & k' & -> & Hh' & Hf' & Hk' & Hkn').
  { unfold step. simpl length in Hkn. destruct (decide (index = 0%nat)) as [->|Hi].
    { simpl. exists heights, flex, k. split_and!; [done..|lia]. }
    assert ((0 <? index)%nat = true) as -> by (apply Nat.ltb_lt; lia). simpl andb. destruct (moved _); [|exists heights, flex, k; split_and!; [done..|lia]].
    destruct (lookup_lt_is_Some_2 minimums (index - 1)) as [lo Elo]; [apply lookup_lt_Some in Emin; lia|]. rewrite Elo, Emin. simpl.
    destruct (Forall2_lookup_l _ _ _ _ _ Hh Elo) as (x & Ex & Ux & Bx). destruct (Forall2_lookup_l _ _ _ _ _ Hh Emin) as (y & Ey & Uy & By).
    rewrite Forall_lookup in Wm, Bm. pose proof (Wm _ _ Elo) as Wlo. pose proof (Wm _ _ Emin) as Whi. pose proof (Bm _ _ Elo) as Blo. pose proof (Bm _ _ Emin) as Bhi.
    assert (∀ m, whole m → value m ≤ value budget → f32_min m budget = m) as Hmin.
    { intros m Hw Hb. assert (f32_min m budget = if SFltb budget m then budget else m) as -> by (destruct m; [done|done|by destruct Hw as [[]]|done]).
      rewrite nonneg_ltb by eauto. by rewrite bool_decide_eq_false_2 by lia. }
    rewrite !Hmin by done. replace index with (S (index - 1)) in Ey, Emin by lia.
    destruct (clamp_pair_ok k heights (index - 1) (deltas (index - 1)%nat) lo (panel_minimum panel) x y) as (x' & y' & -> & Ux' & Uy' & Bx' & By'); [done|done|done|done|lia|done|done| |done|].
    { destruct (add_upto k x y Ux Uy ltac:(lia)) as [_ R]. apply R; [by apply whole_sum|lia]. }
    simpl. set (new := <[S (index - 1) := y']> _). assert (Forall2 (fits_by (k + 1)) minimums new) as Hnew.
    { unfold new. rewrite <- (list_insert_id minimums (S (index - 1)) _ Emin). apply Forall2_insert; [|by split].
      rewrite <- (list_insert_id minimums (index - 1) _ Elo). apply Forall2_insert; [|by split]. eapply Forall2_impl; [exact Hh|]. intros m h [? ?]. split; [by eapply below_mono; [|done]; lia|done]. }
    exists new, new, (k + 1). split_and!; [done|done| |lia|lia]. split; [rewrite <- (Forall2_length _ _ _ Hnew); done|].
    clear -Hnew Hk Hkn. induction Hnew as [|m h ms hs [? ?] _ IH]; constructor; [|done]. eapply below_mono; [|done]. lia. }
  simpl. destruct (Forall2_lookup_l _ _ _ _ _ Hh' Emin) as (h & Eh & Uh & Bh). rewrite Eh. simpl.
  destruct (IH (S index) heights' flex' k') as (drawn & flex'' & -> & Hdr & Hf''); [done|done|done|done|by rewrite decide_False by lia|].
  simpl. exists (h :: drawn), flex''. split; [done|]. split; [by constructor|done].
Qed.

Lemma minimum_whole panel : whole (panel_minimum panel) ∧ upto 20 (panel_minimum panel) ∧ value (panel_minimum panel) ≤ px 220.
Proof.
  assert (∃ n, panel_minimum panel = f32_of_Z n ∧ 0 ≤ n ≤ 220) as (n & -> & Hn).
  { destruct panel; [by exists 88|by exists 108|by exists 108|by exists 220]. }
  destruct (of_Z_value n) as [N E]; [lia|]. split; [apply whole_of_Z; lia|]. unfold upto. rewrite E. unfold px. split; [split; [done|lia]|lia].
Qed.

Definition stacks : list (list MainPanel) := [GRAPH_PANELS; GRAPH_PANELS_WITHOUT_DATABASE; STACKED_PANELS; STACKED_PANELS_WITHOUT_DATABASE].
(** The minimums and the gaps between them, in points. *)
Definition need (panels : list MainPanel) : Z := value (f32_sum (panel_minimum <$> panels)) `div` 2 ^ 149.
Definition inner_gaps (panels : list MainPanel) : Z := 12 * Z.of_nat (length panels - 1).

Definition stack_check (panels : list MainPanel) : bool :=
  points (f32_sum (panel_minimum <$> panels)) (need panels) && points (gaps (f32_add SECTION_GAP f32_0) (length panels)) (inner_gaps panels) &&
  (need panels + inner_gaps panels <=? 600) && (100 <=? need panels) && (0 <=? inner_gaps panels) && (length panels <=? 4)%nat &&
  forallb (λ panel, value (panel_minimum panel) <=? px (need panels)) panels.
Lemma stack_constants panels : panels ∈ stacks → nonneg (f32_sum (panel_minimum <$> panels)) ∧ value (f32_sum (panel_minimum <$> panels)) = px (need panels) ∧
  nonneg (gaps (f32_add SECTION_GAP f32_0) (length panels)) ∧ value (gaps (f32_add SECTION_GAP f32_0) (length panels)) = px (inner_gaps panels) ∧
  need panels + inner_gaps panels ≤ 600 ∧ 0 ≤ inner_gaps panels ∧ 100 ≤ need panels ∧ (length panels ≤ 4)%nat ∧ Forall (λ panel, value (panel_minimum panel) ≤ px (need panels)) panels.
Proof.
  intros Hp. assert (forallb stack_check stacks = true) as Hc by vm_refl. rewrite forallb_forall in Hc. specialize (Hc panels ltac:(by apply list_elem_of_In)).
  unfold stack_check in Hc. rewrite !andb_true_iff in Hc. destruct Hc as [[[[[[P1%points_value P2%points_value] P3%Z.leb_le] P4%Z.leb_le] P5%Z.leb_le] P6%Nat.leb_le] P7].
  destruct P1 as [N1 V1], P2 as [N2 V2]. split_and!; try done. apply Forall_forall. intros panel Hin. rewrite forallb_forall in P7. by apply Z.leb_le, P7, list_elem_of_In.
Qed.

Lemma stack_fits panels total deltas flex : panels ∈ stacks → upto 20 total → px (need panels + inner_gaps panels) ≤ value total → (∀ i, drag_ok (deltas i)) →
  shares_ok (length panels) flex → ∃ heights flex', stack f32_0 total panels deltas flex = Some (heights, flex') ∧
    Forall2 (λ panel h, value (panel_minimum panel) ≤ value h) panels heights ∧ shares_ok (length panels) flex'.
Proof.
  intros Hp Ht Hn Hd Hf. destruct (stack_constants panels Hp) as (N1 & E1 & N2 & E2 & B1 & B2 & B3 & B4 & B5). unfold stack.
  set (budget := f32_max _ f32_1). destruct (sub_upto 20 total (gaps (f32_add SECTION_GAP f32_0) (length panels)) Ht N2) as [Us [_ _ R _]]; [rewrite E2; unfold px in *; lia|lia|].
  specialize (R (px (need panels)) ltac:(apply rep_px; lia) ltac:(rewrite E2; unfold px in *; lia)). destruct one_upto as [No Bo].
  destruct (max_value _ f32_1 (upto_nonneg _ _ Us) No) as [Nb Eb]. fold budget in Nb, Eb. assert (upto 20 budget) as Ub by (split; [done|rewrite Eb; destruct Us; unfold px in *; lia]).
  assert (px (need panels) ≤ value budget) as Hb by lia.
  assert (Forall (λ m, whole m ∧ upto 20 m) (panel_minimum <$> panels)) as Hm by (apply Forall_fmap, Forall_true; intros panel; split; apply minimum_whole).
  destruct (flex_fits (normalize_flex flex) budget (panel_minimum <$> panels)) as (heights & -> & Hh); [rewrite length_fmap; by apply normalize_shares|by rewrite length_fmap|done|done|done|lia|].
  simpl. apply (stack_from_fits deltas (panel_minimum <$> panels) budget (length panels) panels 0 heights (normalize_flex flex) 20);
    [done|by rewrite length_fmap|apply Forall_fmap, Forall_true; intros; apply minimum_whole| |done|done|done|by apply normalize_shares|lia|simpl; lia].
  apply Forall_fmap. eapply Forall_impl; [exact B5|]. simpl. intros. lia.
Qed.

(** ** Limits *)

Lemma const_upto x n k : points x n = true → 0 ≤ k → n ≤ 2 ^ k → upto k x.
Proof. intros [N E]%points_value Hk Hn. split; [done|]. rewrite E. unfold px. lia. Qed.
Ltac const n := apply (const_upto _ n); [vm_refl|lia|lia].

Lemma extent_clamped_ok total ratio lo hi n m : upto 30 total → points lo n = true → points hi m = true → n ≤ m → nonneg ratio → value ratio ≤ px 1 →
  ∃ y, clamped_extent total ratio lo hi = Some y ∧ nonneg y ∧ px n ≤ value y ≤ px m.
Proof.
  intros Ht [Nl El]%points_value [Nh Eh]%points_value Hnm Nr Br. unfold clamped_extent. destruct Ht as [Nt Bt]. pose proof (value_nonneg _ Nt). pose proof (value_nonneg _ Nr).
  assert (value total * value ratio ≤ 2 ^ 149 * 2 ^ 249) as Hm by (unfold px in *; nia). pose proof (mul_rounds total ratio Nt Nr Hm) as R.
  rewrite <- El, <- Eh. apply clamp_ok; [apply R|apply R|done|done|]. rewrite El, Eh. unfold px. lia.
Qed.

Record limits_ok (limits : PanelLimits) : Prop := {
  lo_main : upto 18 (main_height limits);
  lo_event : upto 18 (event_log_height limits);
  lo_panels panel : upto 23 (panel_height panel limits);
}.

Lemma signed_sub k x y : small k x ∧ valid x → upto k y → 0 ≤ k ≤ 60 → small (k + 1) (f32_sub x y) ∧ valid (f32_sub x y).
Proof. intros [S V] Hy Hk. apply sub_signed; [done|by apply upto_small; [|lia]|done|apply Hy|lia]. Qed.
Lemma upto_signed k x : upto k x → 0 ≤ k ≤ 60 → small k x ∧ valid x.
Proof. intros Hx Hk. split; [by apply upto_small; [|lia]|apply Hx]. Qed.
Lemma part_of_signed k x : small k x ∧ valid x → 0 ≤ k → upto k (positive_part x).
Proof. intros [S V] Hk. by apply positive_part_upto. Qed.
Lemma min_upto k x y : upto k x → nonneg y → upto k (f32_min x y).
Proof. intros [Nx Bx] Ny. destruct (min_value x y Nx Ny) as [N E]. split; [done|]. rewrite E. lia. Qed.
Lemma between_upto k x n m : nonneg x → px n ≤ value x ≤ px m → m ≤ 2 ^ k → upto k x.
Proof. intros N [_ B] Hm. split; [done|]. unfold px in *. nia. Qed.

Lemma mul_few gap n : upto 5 gap → 0 ≤ n ≤ 3 → upto 7 (f32_mul gap (f32_of_Z n)).
Proof.
  intros [Ng Bg] Hn. destruct (of_Z_value n) as [Nn En]; [lia|]. pose proof (value_nonneg _ Ng).
  pose proof (mul_rounds gap (f32_of_Z n) Ng Nn ltac:(rewrite En; unfold px in *; nia)) as R. split; [eapply rounds_nonneg; [| |exact R]; [done|rewrite En; unfold px; nia]|].
  apply R; [by apply rep_px_power|]. rewrite En. unfold px in *. nia.
Qed.

(** Differences, one bit at a time. *)
Ltac sized :=
  match goal with
  | H : upto ?k ?x |- upto ?k ?x => exact H
  | |- upto ?k (positive_part _) => apply part_of_signed; [sized|lia]
  | |- small ?k (f32_sub _ _) ∧ _ => let j := eval vm_compute in (k - 1) in apply (signed_sub j); [sized|sized|lia]
  | H : upto ?k ?x |- upto _ ?x => apply (below_mono k); [lia|exact H]
  | H : upto ?k ?x |- small _ ?x ∧ _ => apply upto_signed; [apply (below_mono k); [lia|exact H]|lia]
  end.

Lemma limits_fit height layout gap : upto 16 height → upto 5 gap → ∃ limits, for_remaining_height height layout gap = Some limits ∧ limits_ok limits.
Proof.
  intros Hh Hg. unfold for_remaining_height. cbv zeta. assert (upto 7 EVENT_LOG_HEIGHT_MIN) as He by const 120.
  assert (upto 16 (positive_part height)) as Ha by sized. set (available := positive_part height) in *. clearbody available.
  assert (upto 18 (positive_part (f32_sub (f32_sub available EVENT_LOG_HEIGHT_MIN) gap))) as Hr by sized.
  assert (upto 10 (f32_min MAIN_AREA_HEIGHT (positive_part (f32_sub (f32_sub available EVENT_LOG_HEIGHT_MIN) gap)))) as Hm by (apply min_upto; [const 560|eauto]).
  set (main := f32_min MAIN_AREA_HEIGHT _) in *. clearbody main. clear Hr. assert (upto 18 (positive_part (f32_sub (f32_sub available main) gap))) as Hl by sized.
  set (event_log := positive_part _) in *. clearbody event_log. pose proof (mul_few gap 2 Hg ltac:(lia)) as G2. pose proof (mul_few gap 3 Hg ltac:(lia)) as G3.
  set (gap2 := f32_mul gap (f32_of_Z 2)) in *. set (gap3 := f32_mul gap (f32_of_Z 3)) in *. clearbody gap2 gap3.
  assert (∀ panel_budget, upto 18 panel_budget →
    (∃ y, clamped_extent panel_budget SOURCES_HEIGHT_RATIO SOURCES_HEIGHT_MIN SOURCES_HEIGHT_MAX = Some y ∧ upto 9 y) ∧
    (∃ y, clamped_extent panel_budget DATABASE_METRICS_HEIGHT_RATIO DATABASE_METRICS_HEIGHT_MIN DATABASE_METRICS_HEIGHT_MAX = Some y ∧ upto 9 y) ∧
    (∃ y, clamped_extent panel_budget METRICS_TABLE_HEIGHT_RATIO METRICS_TABLE_HEIGHT_MIN METRICS_TABLE_HEIGHT_MAX = Some y ∧ upto 9 y)) as Hc.
  { intros b Hb. assert (upto 30 b) as Hb30 by sized. split_and!.
    - destruct (extent_clamped_ok b SOURCES_HEIGHT_RATIO SOURCES_HEIGHT_MIN SOURCES_HEIGHT_MAX 88 180) as (y & -> & N & B); [done|vm_refl|vm_refl|lia|by vm_compute|by vm_compute|].
      exists y. split; [done|]. by apply (between_upto 9 y 88 180); [| |lia].
    - destruct (extent_clamped_ok b DATABASE_METRICS_HEIGHT_RATIO DATABASE_METRICS_HEIGHT_MIN DATABASE_METRICS_HEIGHT_MAX 108 170) as (y & -> & N & B); [done|vm_refl|vm_refl|lia|by vm_compute|by vm_compute|].
      exists y. split; [done|]. by apply (between_upto 9 y 108 170); [| |lia].
    - destruct (extent_clamped_ok b METRICS_TABLE_HEIGHT_RATIO METRICS_TABLE_HEIGHT_MIN METRICS_TABLE_HEIGHT_MAX 220 390) as (y & -> & N & B); [done|vm_refl|vm_refl|lia|by vm_compute|by vm_compute|].
      exists y. split; [done|]. by apply (between_upto 9 y 220 390); [| |lia]. }
  destruct layout.
  1, 2: (assert (upto 18 (positive_part (f32_sub main gap3))) as Hb by sized; set (budget := positive_part _) in *; clearbody budget;
    destruct (Hc budget Hb) as ((sources & -> & Hs) & (database & -> & Hd) & (metrics & -> & Hmt)); simpl;
    assert (upto 9 (f32_min sources budget)) as Hs' by (by apply min_upto; [|eauto]); set (sources' := f32_min sources budget) in *; clearbody sources';
    assert (upto 19 (positive_part (f32_sub budget sources'))) as R1 by sized;
    assert (upto 9 (f32_min database (positive_part (f32_sub budget sources')))) as Hd' by (by apply min_upto; [|eauto]); set (database' := f32_min database _) in *; clearbody database';
    assert (upto 20 (positive_part (f32_sub (f32_sub budget sources') database'))) as R2 by sized;
    assert (upto 9 (f32_min metrics (positive_part (f32_sub (f32_sub budget sources') database')))) as Hm' by (by apply min_upto; [|eauto]); set (metrics' := f32_min metrics _) in *; clearbody metrics';
    eexists; split; [done|]; split; simpl; [sized|sized|]; intros []; simpl; sized).
  assert (upto 18 main) as Hm18 by sized. destruct (Hc main Hm18) as ((sources & -> & Hs) & (database & -> & Hd) & _). simpl.
  assert (upto 9 (f32_min sources main)) as Hs' by (by apply min_upto; [|eauto]). set (sources' := f32_min sources main) in *. clearbody sources'.
  assert (upto 20 (positive_part (f32_sub (f32_sub main sources') gap))) as R1 by sized.
  assert (upto 9 (f32_min database (positive_part (f32_sub (f32_sub main sources') gap)))) as Hd' by (by apply min_upto; [|eauto]). set (database' := f32_min database _) in *. clearbody database'.
  eexists. split; [done|]. split; simpl; [sized|sized|]. intros []; simpl; sized.
Qed.

Lemma content_fit size : upto 14 size.1 → upto 14 size.2 → ∃ content, for_viewport size = Some content ∧ upto 14 (cl_height content) ∧ upto 14 (bottom_margin content).
Proof.
  intros Hx Hy. unfold for_viewport. cbv zeta.
  destruct (extent_clamped_ok size.1 CONTENT_SIDE_MARGIN_RATIO CONTENT_SIDE_MARGIN_MIN CONTENT_SIDE_MARGIN_MAX 12 32) as (a & -> & _);
    [apply (below_mono 14); [lia|done]|vm_refl|vm_refl|lia|by vm_compute|by vm_compute|].
  destruct (extent_clamped_ok size.2 CONTENT_BOTTOM_MARGIN_RATIO CONTENT_BOTTOM_MARGIN_MIN CONTENT_BOTTOM_MARGIN_MAX 18 56) as (b & -> & N & B);
    [apply (below_mono 14); [lia|done]|vm_refl|vm_refl|lia|by vm_compute|by vm_compute|].
  simpl. eexists. split; [done|]. simpl. split; [|by apply (between_upto 14 b 18 56); [| |lia]].
  destruct Hy as [Ny By]. destruct one_upto as [No Bo]. destruct (max_value size.2 f32_1 Ny No) as [N1 E1]. split; [done|]. rewrite E1. unfold px in *. lia.
Qed.
Lemma remaining_fit consumed content : small 14 consumed ∧ valid consumed → upto 14 (cl_height content) → upto 14 (bottom_margin content) →
  upto 16 (remaining_height consumed content).
Proof. intros Hc Hh Hb. unfold remaining_height. assert (upto 14 (positive_part consumed)) as Hp by (by apply part_of_signed). sized. Qed.

(** ** A page *)

Definition pair_upto (k : Z) (p : f32 * f32) : Prop := upto k p.1 ∧ upto k p.2.
Definition page_ok (main_min : f32) (heights : f32 * f32) : Prop := value main_min ≤ value heights.1 ∧ px 120 ≤ value heights.2.
(** A minimum of the main part. *)
Definition main_ok (main_min : f32) (n : Z) : Prop := points main_min n = true ∧ n ≤ 2 ^ 12.

Lemma main_whole main_min n : main_ok main_min n → whole main_min ∧ upto 12 main_min.
Proof. intros [Hp Hn]. destruct (points_whole _ _ Hp ltac:(lia)) as [W E]. split; [done|]. split; [auto|]. rewrite E. unfold px. lia. Qed.
Lemma event_whole : whole EVENT_LOG_HEIGHT_MIN ∧ value EVENT_LOG_HEIGHT_MIN = px 120.
Proof. split; [apply (whole_of_Z 120); lia|vm_refl]. Qed.

(** The height that is divided leaves room for both parts. *)
Definition available_ok (main_min available : f32) : Prop := upto 19 available ∧ value main_min + px 120 ≤ value available.

Lemma divide_page main_min n available x : main_ok main_min n → available_ok main_min available → valid x → is_finite x = true →
  ∃ main, clamp x main_min (f32_sub available EVENT_LOG_HEIGHT_MIN) = Some main ∧ pair_upto 19 (main, f32_sub available main) ∧ page_ok main_min (main, f32_sub available main).
Proof.
  intros Hm [Ha Hb] V F. destruct (main_whole _ _ Hm) as [Wm _]. destruct event_whole as [We Ee]. pose proof (value_nonneg main_min ltac:(auto)).
  assert (upto 24 available) as Ha24 by (apply (below_mono 19); [lia|done]). assert (value available < px (2 ^ 24)) as Hlt.
  { destruct Ha as [_ B]. eapply Z.le_lt_trans; [exact B|]. apply px_lt. lia. }
  pose proof (sub_whole available _ Ha24 Hlt We ltac:(lia)) as Es. destruct (sub_upto 19 available EVENT_LOG_HEIGHT_MIN Ha ltac:(auto) ltac:(lia) ltac:(lia)) as [Us _].
  destruct (clamp_ok x main_min (f32_sub available EVENT_LOG_HEIGHT_MIN)) as (main & -> & Nm & B); [done|done|auto|eauto|lia|].
  destruct (sub_leaves available main _ Ha24 Hlt We ltac:(lia) Nm ltac:(lia)) as [_ L]. destruct (sub_upto 19 available main Ha Nm ltac:(unfold px in *; lia) ltac:(lia)) as [Ur _].
  exists main. split; [done|]. split; [split; [|done]|split; cbn [fst snd]; lia]. split; [done|]. destruct Us as [_ Bs]. cbn [fst]. lia.
Qed.

Lemma page_fit main_min n limits flex : main_ok main_min n → limits_ok limits → (∀ p, flex = Some p → pair_upto 19 p) →
  ∃ heights kept available, page_heights main_min limits flex = Some (heights, kept, available) ∧ available_ok main_min available ∧ pair_upto 19 heights ∧
    pair_upto 19 kept ∧ page_ok main_min heights.
Proof.
  intros Hm [Lm Le _] Hf. destruct (main_whole _ _ Hm) as [Wm Um]. destruct event_whole as [We Ee]. unfold page_heights. cbv zeta.
  destruct (add_upto 18 _ _ Lm Le ltac:(lia)) as [Us _]. destruct (whole_sum main_min EVENT_LOG_HEIGHT_MIN Wm We) as (Ew & Nw & _).
  set (available := f32_max _ _). destruct (max_value _ _ (upto_nonneg _ _ Us) Nw) as [Na Ea]. fold available in Na, Ea. rewrite Ew, Ee in Ea.
  assert (available_ok main_min available) as Hav.
  { split; [|lia]. split; [done|]. rewrite Ea. destruct Us as [_ B], Um as [_ B']. unfold px in *. lia. }
  set (kept := default _ flex). assert (pair_upto 19 kept) as Hk.
  { unfold kept. destruct flex as [p|]; [by apply Hf|]. split; simpl.
    - destruct (max_value (main_height limits) main_min) as [N E]; [eauto|auto|]. split; [done|]. rewrite E. destruct Lm as [_ B], Um as [_ B']. unfold px in *. lia.
    - destruct (max_value (event_log_height limits) EVENT_LOG_HEIGHT_MIN) as [N E]; [eauto|auto|]. split; [done|]. rewrite E, Ee. destruct Le as [_ B]. unfold px in *. lia. }
  destruct Hk as [K1 K2]. destruct (add_upto 19 _ _ K1 K2 ltac:(lia)) as [Ut _]. assert (nonneg F32_EPSILON) as Ne by done.
  destruct (max_value _ F32_EPSILON (upto_nonneg _ _ Ut) Ne) as [Nt Et]. assert (value F32_EPSILON = 2 ^ 126) as EE by vm_refl. rewrite EE in Et.
  destruct Hav as [Hav1 Hav2]. assert (value available ≤ 2 ^ 19 * 2 ^ 149 ∧ value kept.1 ≤ 2 ^ 19 * 2 ^ 149) as [B1 B2] by (split; [apply Hav1|apply K1]).
  pose proof (value_nonneg available Na). pose proof (value_nonneg kept.1 ltac:(eauto)).
  pose proof (mul_rounds available kept.1 Na ltac:(eauto) ltac:(nia)) as Rm. assert (nonneg (f32_mul available kept.1)) as Nm by (eapply rounds_nonneg; [| |exact Rm]; [done|nia]).
  assert (value (f32_mul available kept.1) ≤ 2 ^ 190) as Bm by (apply Rm; [by apply rep_power|nia]).
  pose proof (div_rounds _ _ Nm Nt ltac:(lia) ltac:(lia)) as Rd.
  destruct (divide_page main_min n available _ Hm (conj Hav1 Hav2) (ro_valid _ _ _ Rd) (ro_finite _ _ _ Rd)) as (main & -> & P1 & P2).
  simpl. eexists _, _, _. split; [done|]. split; [done|]. split; [done|]. by split.
Qed.
Lemma page_drag_fit main_min n available delta heights kept : main_ok main_min n → available_ok main_min available → drag_ok delta → pair_upto 19 heights → pair_upto 19 kept →
  ∃ heights' kept', page_drag main_min available delta heights kept = Some (heights', kept') ∧ pair_upto 19 kept'.
Proof.
  intros Hm Ha Hd [H1 H2] Hk. unfold page_drag. destruct (moved delta); [|by eexists _, _].
  destruct (add_drag 19 heights.1 delta H1 ltac:(lia) Hd) as [V F]. destruct (divide_page main_min n available _ Hm Ha V F) as (main & -> & P & _). by eexists _, _.
Qed.

(** ** Two columns *)

(** Two columns of at least 310 points. *)
Definition columns_ok (columns : list f32) : Prop := ∃ x y, columns = [x; y] ∧ upto 18 x ∧ upto 18 y ∧ px 310 ≤ value x ∧ px 310 ≤ value y.

(** The share of a column: its error is that of two operations. *)
Lemma column_share budget x total : upto 14 budget → px 970 ≤ value budget → upto 18 x → px 310 ≤ value x → nonneg total → value x ≤ value total ≤ px (2 ^ 20) →
  let w := f32_div (f32_mul budget x) total in upto 15 w ∧ value budget * value x * 2 ^ 46 ≤ value w * value total * (2 ^ 23 + 1) ^ 2.
Proof.
  intros [Nb Bb] Lb [Nx Bx] Lx Nt Bt. cbv zeta. unfold px in *. set (b := value budget) in *. set (c := value x) in *. set (t := value total) in *.
  pose proof (mul_rounds budget x Nb Nx ltac:(nia)) as Rm. fold b c in Rm. assert (nonneg (f32_mul budget x)) as Nm by (eapply rounds_nonneg; [| |exact Rm]; [done|nia]).
  pose proof (rounds_error (b * c) (2 ^ 149) _ ltac:(done) ltac:(nia) Rm) as Em. assert (2 ^ 160 ≤ value (f32_mul budget x)) as Lm by (apply Rm; [by apply rep_power|nia]).
  assert (value (f32_mul budget x) ≤ c * 2 ^ 14) as Bm.
  { apply Rm; [|nia]. destruct (rep_value x) as (n & j & Hn & Hj & E); [apply Nx|apply Nx|lia|]. unfold c. rewrite E, <- Z.mul_assoc, <- Z.pow_add_r by lia. apply rep_scaled; lia. }
  set (m := value (f32_mul budget x)) in *. pose proof (div_rounds _ _ Nm Nt ltac:(fold t; lia) ltac:(fold t m; nia)) as Rd. fold m t in Rd.
  pose proof (rounds_error (m * 2 ^ 149) t _ ltac:(lia) ltac:(nia) Rd) as Ed. set (w := value (f32_div _ _)) in *. split; [split|].
  - eapply rounds_nonneg; [| |exact Rd]; nia.
  - fold w. assert (w ≤ 2 ^ 163) as Bw by (apply Rd; [by apply rep_power|nia]). unfold px. lia.
  - change ((2 ^ 23 + 1) ^ 2) with ((2 ^ 23 + 1) * (2 ^ 23 + 1)). nia.
Qed.
Lemma sum_of_two x y : upto 18 x → upto 18 y → upto 19 (f32_sum [x; y]) ∧ rounds (value x + value y) 1 (f32_sum [x; y]).
Proof.
  intros Hx Hy. unfold f32_sum. simpl foldl. assert (upto 18 f32_0) as H0 by (split; [done|by vm_compute]).
  destruct (add_upto 18 f32_0 x H0 Hx ltac:(lia)) as [_ R]. change (value f32_0) with 0 in R. pose proof (rounds_exact _ _ ltac:(apply rep_value; apply Hx) R) as E.
  assert (upto 18 (f32_add f32_0 x)) as Hx' by (split; [eapply rounds_size; [|exact R]; pose proof (value_nonneg x ltac:(eauto)); lia|destruct Hx; lia]).
  replace (value x + value y) with (value (f32_add f32_0 x) + value y) by lia. by apply (add_upto 18).
Qed.
Lemma columns_shared budget columns : columns_ok columns → upto 14 budget → px 970 ≤ value budget →
  normalize_flex columns = columns ∧ ∃ w0 w1, flex_extents columns budget = [w0; w1] ∧ upto 15 w0 ∧ upto 15 w1 ∧ px 770 ≤ value w0 + value w1.
Proof.
  intros (x & y & -> & Hx & Hy & Lx & Ly) Hb Lb. destruct (sum_of_two x y Hx Hy) as [Us Rs]. assert (nonneg F32_EPSILON) as Ne by done.
  assert (value F32_EPSILON = 2 ^ 126) as EE by vm_refl. pose proof (rounds_error_above (value x + value y) 1 _ ltac:(done) ltac:(unfold px in *; lia) Rs) as Es.
  assert (value x ≤ value (f32_sum [x; y]) ∧ value y ≤ value (f32_sum [x; y])) as [Sx Sy].
  { pose proof (value_nonneg x ltac:(eauto)). pose proof (value_nonneg y ltac:(eauto)). split; apply Rs; [apply rep_value; apply Hx|lia|apply rep_value; apply Hy|lia]. }
  split. { unfold normalize_flex. rewrite nonneg_leb by eauto. rewrite EE. rewrite bool_decide_eq_false_2; [done|]. unfold px in *. lia. }
  unfold flex_extents. set (total := f32_max _ _). destruct (max_value (f32_sum [x; y]) F32_EPSILON (upto_nonneg _ _ Us) Ne) as [Nt Et]. fold total in Nt, Et.
  rewrite EE, Z.max_l in Et by (unfold px in *; lia). assert (value total ≤ px (2 ^ 20)) as Bt by (rewrite Et; destruct Us as [_ B]; unfold px in *; lia).
  destruct (column_share budget x total) as [U0 E0]; [done|done|done|done|done|lia|]. destruct (column_share budget y total) as [U1 E1]; [done|done|done|done|done|lia|].
  simpl. eexists _, _. split; [done|]. split; [done|]. split; [done|]. set (w0 := value (f32_div (f32_mul budget x) total)) in *. set (w1 := value (f32_div (f32_mul budget y) total)) in *.
  rewrite Z.mul_1_r in Es. rewrite <- Et in Es. set (t := value total) in *. set (b := value budget) in *. set (c := value x + value y) in *.
  assert (b * c * 2 ^ 46 ≤ (w0 + w1) * t * (2 ^ 23 + 1) ^ 2) as E2 by (unfold c; lia). assert (0 ≤ w0 + w1) by (pose proof (value_nonneg _ (upto_nonneg _ _ U0)); pose proof (value_nonneg _ (upto_nonneg _ _ U1)); lia).
  assert (b * c * 2 ^ 69 ≤ (w0 + w1) * c * (2 ^ 23 + 1) ^ 3) as E3.
  { replace (b * c * 2 ^ 69) with (b * c * 2 ^ 46 * 2 ^ 23) by lia. etransitivity; [apply Z.mul_le_mono_nonneg_r; [done|exact E2]|].
    replace ((w0 + w1) * t * (2 ^ 23 + 1) ^ 2 * 2 ^ 23) with ((w0 + w1) * (2 ^ 23 + 1) ^ 2 * (t * 2 ^ 23)) by ring.
    replace ((w0 + w1) * c * (2 ^ 23 + 1) ^ 3) with ((w0 + w1) * (2 ^ 23 + 1) ^ 2 * (c * (2 ^ 23 + 1))) by ring. apply Z.mul_le_mono_nonneg_l; [nia|done]. }
  assert (0 < c) by (unfold c, px in *; lia). assert (b * 2 ^ 69 ≤ (w0 + w1) * (2 ^ 23 + 1) ^ 3) as E4 by nia. unfold px in *. lia.
Qed.

Lemma initial_columns width budget : upto 14 width → upto 14 budget → px 970 ≤ value budget →
  ∃ graph_width, graph_panel_width width = Some graph_width ∧ columns_ok [f32_min graph_width budget; f32_sub budget (f32_min graph_width budget)].
Proof.
  intros Hw Hb Lb. unfold graph_panel_width.
  destruct (extent_clamped_ok width GRAPH_PANEL_WIDTH_RATIO GRAPH_PANEL_MIN_WIDTH GRAPH_PANEL_MAX_WIDTH 310 420) as (g & Eg & Ng & Bg);
    [apply (below_mono 14); [lia|done]|vm_refl|vm_refl|lia|by vm_compute|by vm_compute|].
  unfold clamped_extent in Eg. rewrite Eg. exists g. split; [done|]. assert (value g ≤ value budget) as Hle by (unfold px in *; lia).
  assert (f32_min g budget = g) as ->.
  { assert (f32_min g budget = if SFltb budget g then budget else g) as -> by (destruct g; [done|done|by destruct Ng|done]). rewrite nonneg_ltb by eauto. by rewrite bool_decide_eq_false_2 by lia. }
  destruct (sub_upto 14 budget g Hb Ng Hle ltac:(lia)) as [Us R]. exists g, (f32_sub budget g). split; [done|].
  split; [apply (between_upto 18 g 310 420); [done|done|lia]|]. split; [by apply (below_mono 14); [lia|]|]. split; [lia|]. apply R; [apply rep_px; lia|]. unfold px in *. lia.
Qed.

(** ** Frames *)

Record flex_ok (flex : PanelFlex) : Prop := {
  fo_split columns : split_flex flex = Some columns → columns_ok columns;
  fo_graph kept : graph_stack flex = Some kept → shares_ok 3 kept;
  fo_graph_without kept : graph_stack_without_database flex = Some kept → shares_ok 2 kept;
  fo_full kept : full_stack flex = Some kept → shares_ok 4 kept;
  fo_full_without kept : full_stack_without_database flex = Some kept → shares_ok 3 kept;
}.
Record state_fits (s : LayoutState) : Prop := {
  sf_overview p : ls_overview s = Some p → pair_upto 19 p;
  sf_detail p : ls_detail s = Some p → pair_upto 19 p;
  sf_panels : flex_ok (ls_panels s);
}.
(** Sizes up to 16384 points, and drags that are finite. *)
Record layout_input_ok (input : LayoutInput) : Prop := {
  lk_viewport : upto 14 (li_viewport input).1 ∧ upto 14 (li_viewport input).2;
  lk_consumed : small 14 (li_consumed input) ∧ valid (li_consumed input);
  lk_width : upto 14 (li_width input);
  lk_page : drag_ok (li_page_delta input);
  lk_panels i : drag_ok (li_panel_deltas input i);
  lk_column : drag_ok (li_column_delta input);
}.

Definition panels_fit (l : list (MainPanel * f32)) : Prop := Forall (λ ph, value (panel_minimum ph.1) ≤ value ph.2) l.
Definition columns_fit (layout : LayoutMode) (columns : option (list f32)) : Prop :=
  match layout with
  | Split => ∃ graphs metrics, columns = Some [graphs; metrics] ∧ px 310 ≤ value graphs ∧ px 460 ≤ value metrics
  | _ => columns = None
  end.

Lemma zip_fits panels heights : Forall2 (λ panel h, value (panel_minimum panel) ≤ value h) panels heights → panels_fit (zip panels heights).
Proof. induction 1; simpl; constructor; done. Qed.
Lemma heights_shares limits panels : limits_ok limits → shares_ok (length panels) (panel_heights limits panels).
Proof. intros [_ _ H]. unfold panel_heights. split; [by rewrite length_fmap|]. apply Forall_fmap, Forall_true. intros panel. apply H. Qed.
Lemma main_height_limits height limits : limits_ok limits → upto 19 height → ∀ panel, upto 23 (panel_height panel (with_main_height height limits)).
Proof. intros [_ _ H] Hh []; simpl; [apply (H NodesPanel)|apply (H DatabasePanel)|apply (H TrendsPanel)|by apply (below_mono 19); [lia|]]. Qed.

Lemma graphs_fit limits (has_database : bool) deltas flex : (∀ panel, upto 23 (panel_height panel limits)) → upto 20 (main_height limits) →
  px (if has_database then 328 else 208) ≤ value (main_height limits) → (∀ i, drag_ok (deltas i)) → flex_ok flex →
  ∃ panels flex', graphs f32_0 limits has_database deltas flex = Some (panels, flex') ∧ panels_fit panels ∧ flex_ok flex'.
Proof.
  intros Hl Ht Hn Hd [F1 F2 F3 F4 F5]. unfold graphs. destruct has_database.
  - destruct (stack_fits GRAPH_PANELS (main_height limits) deltas (default (panel_heights limits GRAPH_PANELS) (graph_stack flex))) as (heights & kept & -> & Hf & Hk);
      [apply list_elem_of_In; by left|done|replace (need GRAPH_PANELS + inner_gaps GRAPH_PANELS) with 328 by vm_refl; done|done| |].
    { destruct (graph_stack flex); [by apply F2|]. split; [done|]. by apply Forall_fmap, Forall_true. }
    simpl. eexists _, _. split; [done|]. split; [exact (zip_fits _ _ Hf)|]. split; simpl; [done| |done..]. by intros ? [= <-].
  - destruct (stack_fits GRAPH_PANELS_WITHOUT_DATABASE (main_height limits) deltas (default (panel_heights limits GRAPH_PANELS_WITHOUT_DATABASE) (graph_stack_without_database flex)))
      as (heights & kept & -> & Hf & Hk);
      [apply list_elem_of_In; right; by left|done|replace (need GRAPH_PANELS_WITHOUT_DATABASE + inner_gaps GRAPH_PANELS_WITHOUT_DATABASE) with 208 by vm_refl; done|done| |].
    { destruct (graph_stack_without_database flex); [by apply F3|]. split; [done|]. by apply Forall_fmap, Forall_true. }
    simpl. eexists _, _. split; [done|]. split; [exact (zip_fits _ _ Hf)|]. split; simpl; [done|done| |done..]. by intros ? [= <-].
Qed.
Lemma full_fit limits (has_database : bool) deltas flex : (∀ panel, upto 23 (panel_height panel limits)) → upto 20 (main_height limits) →
  px (if has_database then 560 else 440) ≤ value (main_height limits) → (∀ i, drag_ok (deltas i)) → flex_ok flex →
  ∃ panels flex', full f32_0 limits has_database deltas flex = Some (panels, flex') ∧ panels_fit panels ∧ flex_ok flex'.
Proof.
  intros Hl Ht Hn Hd [F1 F2 F3 F4 F5]. unfold full. destruct has_database.
  - destruct (stack_fits STACKED_PANELS (main_height limits) deltas (default (panel_heights limits STACKED_PANELS) (full_stack flex))) as (heights & kept & -> & Hf & Hk);
      [apply list_elem_of_In; right; right; by left|done|replace (need STACKED_PANELS + inner_gaps STACKED_PANELS) with 560 by vm_refl; done|done| |].
    { destruct (full_stack flex); [by apply F4|]. split; [done|]. by apply Forall_fmap, Forall_true. }
    simpl. eexists _, _. split; [done|]. split; [exact (zip_fits _ _ Hf)|]. split; simpl; [done..| |done]. by intros ? [= <-].
  - destruct (stack_fits STACKED_PANELS_WITHOUT_DATABASE (main_height limits) deltas (default (panel_heights limits STACKED_PANELS_WITHOUT_DATABASE) (full_stack_without_database flex)))
      as (heights & kept & -> & Hf & Hk);
      [apply list_elem_of_In; right; right; right; by left|done|replace (need STACKED_PANELS_WITHOUT_DATABASE + inner_gaps STACKED_PANELS_WITHOUT_DATABASE) with 440 by vm_refl; done|done| |].
    { destruct (full_stack_without_database flex); [by apply F5|]. split; [done|]. by apply Forall_fmap, Forall_true. }
    simpl. eexists _, _. split; [done|]. split; [exact (zip_fits _ _ Hf)|]. split; simpl; [done..|]. by intros ? [= <-].
Qed.

Lemma constants_min x budget : whole x → upto 14 budget → value x ≤ value budget → f32_min x budget = x.
Proof.
  intros Hw Hb Hle. assert (f32_min x budget = if SFltb budget x then budget else x) as -> by (destruct x; [done|done|by destruct Hw as [[]]|done]).
  rewrite nonneg_ltb by eauto. by rewrite bool_decide_eq_false_2 by lia.
Qed.
Lemma columns_moved widths delta k w0 w1 : widths = [w0; w1] → upto k w0 → upto k w1 → 0 ≤ k ≤ 22 → px 770 ≤ value w0 + value w1 → drag_ok delta →
  ∃ g m, clamp_pair widths 0 delta GRAPH_PANEL_MIN_WIDTH METRICS_TABLE_MIN_WIDTH = Some [g; m] ∧ upto (k + 1) g ∧ upto (k + 1) m ∧ px 310 ≤ value g ∧ px 460 ≤ value m.
Proof.
  intros -> U0 U1 Hk Hs Hd. destruct (points_whole GRAPH_PANEL_MIN_WIDTH 310 ltac:(vm_refl) ltac:(lia)) as [Wg Eg].
  destruct (points_whole METRICS_TABLE_MIN_WIDTH 460 ltac:(vm_refl) ltac:(lia)) as [Wm Em].
  destruct (clamp_pair_ok k [w0; w1] 0 delta GRAPH_PANEL_MIN_WIDTH METRICS_TABLE_MIN_WIDTH w0 w1) as (g & m & -> & Ug & Um & Bg & Bm); [done|done|done|done|done|done|done| |done|].
  { destruct (add_upto k w0 w1 U0 U1 ltac:(lia)) as [_ R]. rewrite Eg, Em. apply R; [|unfold px in *; lia]. replace (px 310 + px 460) with (px 770) by (unfold px; lia). by apply rep_px. }
  exists g, m. split; [done|]. split; [done|]. split; [done|]. lia.
Qed.

Lemma split_fit width limits (has_database : bool) deltas delta flex : upto 14 width → px 980 ≤ value width → (∀ panel, upto 23 (panel_height panel limits)) →
  upto 20 (main_height limits) → metrics_height limits = main_height limits → px (if has_database then 328 else 220) ≤ value (main_height limits) →
  (∀ i, drag_ok (deltas i)) → drag_ok delta → flex_ok flex →
  ∃ drawn flex', split (f32_of_Z 10, f32_0) width limits has_database deltas delta flex = Some (drawn, flex') ∧ panels_fit (dn_panels drawn) ∧
    columns_fit Split (dn_columns drawn) ∧ flex_ok flex'.
Proof.
  intros Hw Lw Hl Ht Em Hn Hd Hdc Hf. unfold split. cbv zeta. cbn [fst snd]. destruct (points_value (f32_of_Z 10) 10 ltac:(vm_refl)) as [N10 E10].
  destruct (sub_upto 14 width (f32_of_Z 10) Hw N10) as [Us Rs]; [rewrite E10; unfold px in *; lia|lia|]. destruct one_upto as [No Bo].
  destruct (max_value (f32_sub width (f32_of_Z 10)) f32_1 (upto_nonneg _ _ Us) No) as [Nb Eb]. set (budget := f32_max _ f32_1) in *.
  assert (px 970 ≤ value budget) as Lb by (rewrite Eb; etransitivity; [apply Rs; [by apply rep_px|rewrite E10; unfold px in *; lia]|lia]).
  assert (upto 14 budget) as Ub by (split; [done|rewrite Eb; destruct Us; unfold px in *; lia]). clearbody budget.
  destruct (initial_columns width budget Hw Ub Lb) as (g & -> & Hi). cbn [mbind option_bind]. set (columns := default _ (split_flex flex)). assert (columns_ok columns) as Hc.
  { unfold columns. destruct (split_flex flex) eqn:E; [by apply (fo_split _ Hf)|done]. } clearbody columns.
  destruct (columns_shared budget columns Hc Ub Lb) as (-> & w0 & w1 & Ew & U0 & U1 & Hsum).
  destruct (points_whole GRAPH_PANEL_MIN_WIDTH 310 ltac:(vm_refl) ltac:(lia)) as [Wg Eg]. destruct (points_whole METRICS_TABLE_MIN_WIDTH 460 ltac:(vm_refl) ltac:(lia)) as [Wm Emw].
  rewrite (constants_min GRAPH_PANEL_MIN_WIDTH budget Wg Ub), (constants_min METRICS_TABLE_MIN_WIDTH budget Wm Ub) by (rewrite ?Eg, ?Emw; unfold px in *; lia).
  assert (drag_ok f32_0) as H0 by done. destruct (columns_moved _ f32_0 15 w0 w1 Ew U0 U1 ltac:(lia) Hsum H0) as (x & y & -> & Ux & Uy & Bx & By). cbn [mbind option_bind].
  assert (∀ c, columns_ok c → flex_ok (set_split c flex)) as Hset by (intros c Hcc; destruct Hf; split; simpl; [by intros ? [= <-]|done..]).
  destruct (graphs_fit limits has_database deltas (set_split columns flex) Hl Ht) as (panels & flex' & -> & Hp & Hf'); [destruct has_database; unfold px in *; lia|done|by apply Hset|]. cbn [mbind option_bind].
  assert (∃ c, (if moved delta then clamp_pair [x; y] 0 delta GRAPH_PANEL_MIN_WIDTH METRICS_TABLE_MIN_WIDTH else Some columns) = Some c ∧ columns_ok c) as (c & -> & Hc').
  { destruct (moved delta); [|by exists columns]. destruct (columns_moved [x; y] delta 16 x y) as (x' & y' & -> & Ux' & Uy' & Bx' & By'); [done|done|done|lia|unfold px in *; lia|done|].
    eexists. split; [done|]. exists x', y'. split; [done|]. split; [by apply (below_mono 17); [lia|]|]. split; [by apply (below_mono 17); [lia|]|]. unfold px in *. lia. }
  simpl. eexists _, _. split; [done|]. simpl. split; [|split; [by exists x, y|]].
  - apply Forall_app. split; [done|]. constructor; [|constructor]. change (value METRICS_TABLE_HEIGHT_MIN ≤ value (metrics_height limits)). rewrite Em. destruct (points_value METRICS_TABLE_HEIGHT_MIN 220 ltac:(vm_refl)) as [_ ->]. destruct has_database; unfold px in *; lia.
  - destruct Hf'. split; simpl; [by intros ? [= <-]|done..].
Qed.

(** The least height of the panels of a page, in points. *)
Definition minimum_points (layout : LayoutMode) (has_database : bool) : Z :=
  match layout, has_database with Split, true => 344 | Split, false => 220 | _, true => 584 | _, false => 456 end.
Lemma minimum_ok layout has_database : main_ok (minimum_height layout (section_gap (f32_of_Z 8)) has_database) (minimum_points layout has_database).
Proof. by split; [destruct layout, has_database; vm_refl|destruct layout, has_database; simpl; lia]. Qed.

Lemma frame_limits_fit input : layout_input_ok input → ∃ limits, frame_limits GLOBAL_ITEM_SPACING input = Some limits ∧ limits_ok limits.
Proof.
  intros [[Vx Vy] Hc _ _ _ _]. unfold frame_limits. destruct (content_fit _ Vx Vy) as (content & -> & Hh & Hb). cbn [mbind option_bind].
  apply limits_fit; [by apply remaining_fit|]. apply (const_upto _ 20); [vm_refl|lia|lia].
Qed.
Lemma wide_enough width : upto 14 width → for_width width = Split → px 980 ≤ value width.
Proof.
  intros Hw. unfold for_width. destruct (points_value SPLIT_BREAKPOINT 980 ltac:(vm_refl)) as [N E]. rewrite (nonneg_ltb width SPLIT_BREAKPOINT) by eauto.
  destruct (SFltb _ _); [done|]. case_bool_decide; [done|]. lia.
Qed.

(** What a frame draws has the room it needs. *)
Definition page_fits (drawn : PageDrawn) : Prop :=
  match drawn with
  | OverviewDrawn heights => px 180 ≤ value heights.1 ∧ px 120 ≤ value heights.2
  | DetailDrawn input heights drawn =>
    px (minimum_points (for_width (li_width input)) (li_has_database input)) ≤ value heights.1 ∧ px 120 ≤ value heights.2 ∧
    panels_fit (dn_panels drawn) ∧ columns_fit (for_width (li_width input)) (dn_columns drawn)
  end.
Definition input_of (frame : PageFrame) : LayoutInput := match frame with OverviewFrame input | DetailFrame input => input end.

Lemma overview_fits input s : layout_input_ok input → state_fits s →
  ∃ heights s', overview_layout GLOBAL_ITEM_SPACING input s = Some (heights, s') ∧ state_fits s' ∧ page_fits (OverviewDrawn heights).
Proof.
  intros Hi [So Sd Sp]. unfold overview_layout. destruct (frame_limits_fit input Hi) as (limits & -> & Hl). cbn [mbind option_bind].
  assert (main_ok AGENTS_PANEL_HEIGHT_MIN 180) as Hm by (split; [vm_refl|lia]).
  destruct (page_fit _ _ limits (ls_overview s) Hm Hl So) as (heights & kept & available & -> & Ha & Hh & Hk & P1 & P2). cbn [mbind option_bind].
  destruct (page_drag_fit _ _ available (li_page_delta input) heights kept Hm Ha (lk_page _ Hi) Hh Hk) as (? & kept' & -> & Hk'). cbn [mbind option_bind].
  eexists _, _. split; [done|]. destruct Hm as [[_ E]%points_value _]. split; [split; simpl; [by intros ? [= <-]|done|done]|]. split; [lia|done].
Qed.
Lemma detail_fits input s : layout_input_ok input → state_fits s →
  ∃ heights drawn s', detail_layout GLOBAL_ITEM_SPACING input s = Some (heights, drawn, s') ∧ state_fits s' ∧ page_fits (DetailDrawn input heights drawn).
Proof.
  intros Hi [So Sd Sp]. unfold detail_layout. destruct (frame_limits_fit input Hi) as (limits & -> & Hl). cbn [mbind option_bind]. cbv zeta.
  set (layout := for_width (li_width input)). pose proof (minimum_ok layout (li_has_database input)) as Hm. change (section_gap GLOBAL_ITEM_SPACING.2) with (section_gap (f32_of_Z 8)).
  set (main_min := minimum_height _ _ _) in *. destruct (page_fit _ _ limits (ls_detail s) Hm Hl Sd) as (heights & kept & available & -> & Ha & Hh & Hk & P1 & P2). cbn [mbind option_bind].
  assert (px (minimum_points layout (li_has_database input)) ≤ value heights.1) as Lh by (destruct Hm as [[_ E]%points_value _]; lia).
  assert (∃ drawn flex', show_panels (GLOBAL_ITEM_SPACING.1, f32_0) (li_width input) layout (with_main_height heights.1 limits) (li_has_database input)
            (li_panel_deltas input) (li_column_delta input) (ls_panels s) = Some (drawn, flex') ∧ panels_fit (dn_panels drawn) ∧ columns_fit layout (dn_columns drawn) ∧ flex_ok flex')
    as (drawn & flex' & -> & D1 & D2 & D3).
  { pose proof (main_height_limits heights.1 limits Hl (proj1 Hh)) as Hp. assert (upto 20 (main_height (with_main_height heights.1 limits))) as Ht by (apply (below_mono 19); [lia|apply Hh]).
    unfold show_panels. cbn [snd]. destruct layout eqn:El.
    1, 2: (destruct (full_fit (with_main_height heights.1 limits) (li_has_database input) (li_panel_deltas input) (ls_panels s) Hp Ht) as (panels & flex' & -> & F1 & F2);
      [simpl in Lh |- *; destruct (li_has_database input); unfold px in *; lia|by apply lk_panels|done|]; cbn [mbind option_bind]; by eexists _, _).
    apply split_fit; [by apply lk_width|apply wide_enough; [by apply lk_width|done]|done|done|done|simpl in Lh |- *; destruct (li_has_database input); unfold px in *; lia|by apply lk_panels|by apply lk_column|done]. }
  cbn [mbind option_bind]. destruct (page_drag_fit _ _ available (li_page_delta input) heights kept Hm Ha (lk_page _ Hi) Hh Hk) as (? & kept' & -> & Hk'). cbn [mbind option_bind].
  eexists _, _, _. split; [done|]. split; [split; simpl; [done|by intros ? [= <-]|done]|]. by split_and!.
Qed.

Lemma frames_fit frames s : Forall (λ frame, layout_input_ok (input_of frame)) frames → state_fits s →
  ∃ drawn s', page_frames frames s = Some (drawn, s') ∧ length drawn = length frames ∧ Forall page_fits drawn.
Proof.
  revert s. induction frames as [|frame frames IH]; intros s Hf Hs; [by eexists [], s|]. apply Forall_cons in Hf as [Hi Hf]. simpl.
  assert (∃ drawn s', page_frame frame s = Some (drawn, s') ∧ state_fits s' ∧ page_fits drawn) as (drawn & s' & -> & Hs' & Hd).
  { destruct frame as [input|input]; simpl.
    - destruct (overview_fits input s Hi Hs) as (heights & s' & -> & Hs' & Hd). by eexists _, _.
    - destruct (detail_fits input s Hi Hs) as (heights & drawn & s' & -> & Hs' & Hd). by eexists _, _. }
  cbn [mbind option_bind]. destruct (IH s' Hf Hs') as (rest & s'' & -> & Hlen & Hr). cbn [mbind option_bind]. eexists _, _. split; [done|]. simpl. split; [by rewrite Hlen|by constructor].
Qed.
Lemma start_fits : state_fits layout_start.
Proof. by split; [..|split]. Qed.

(** C38: However the window is resized, up to 16384 points either way, and the
    handles of the pages are dragged, up to 2^60 points a frame, no frame
    panics: the bounds of every [clamp] are in order, in single precision,
    and the loop that shares the height ends.  Every panel gets at least its minimum height, the event log
    120 points, and the two columns 310 and 460 points. *)
Theorem layout_fits frames : Forall (λ frame, layout_input_ok (input_of frame)) frames →
  ∃ drawn s', page_frames frames layout_start = Some (drawn, s') ∧ length drawn = length frames ∧ Forall page_fits drawn.
Proof. intros Hf. apply frames_fit; [done|apply start_fits]. Qed.
Definition example_input : LayoutInput :=
  {| li_viewport := (f32_of_Z 1180, f32_of_Z 760); li_consumed := f32_of_Z 30; li_width := f32_of_Z 1130; li_has_database := true;
     li_page_delta := f32_of_Z 5; li_panel_deltas := λ i, if (i =? 0)%nat then f32_of_Z (-40) else f32_0; li_column_delta := f32_of_Z 600 |}.
Lemma layout_fits_witness : ∃ drawn s', page_frames [DetailFrame example_input; OverviewFrame example_input; DetailFrame example_input] layout_start = Some (drawn, s') ∧
  length drawn = 3%nat ∧ Forall page_fits drawn.
Proof.
  apply layout_fits. assert (layout_input_ok example_input) as Hi; [|by do 3 (apply Forall_cons; split; [done|])].
  split; simpl; [split| | |split|intros i; destruct (i =? 0)%nat; split|split]; first [done|by apply (const_upto _ 1180)|by apply (const_upto _ 760)|by apply (const_upto _ 1130)|by split; lazy|by lazy].
Defined.
