(* ===== verification/FeAgents.v ===== *)
(** * The agents panel and the overview page (skid-monitor-fe,
      components/agents.rs, pages/overview.rs)

    The interface is drawn anew every frame; egui answers, for every widget
    that is drawn, whether it was clicked and what a text field now holds.
    The answers are arguments of the definitions: [clicked] and [typed] are
    arbitrary functions.  A panel gives the edited drafts, what it lists, and
    the action of the frame: of two buttons clicked in one frame, the later
    one drawn counts.  Colours and sizes are left out. *)

From stdpp Require Import sorting.
From S2P Require Import Prelude RustStr Otlp RustFloat FeFormat FeAlert FeEdge FeDashboard.

(** ** Data *)

Record AddAgentDraft := { dr_endpoint : string; dr_node : string; dr_service : string }.
(** [AddAgentDraft::default()] *)
Definition draft_clear : AddAgentDraft := {| dr_endpoint := EmptyString; dr_node := EmptyString; dr_service := EmptyString |}.

Inductive AgentOverviewAction :=
| Select (key : string)
| StartAdd
| CancelAdd
| SaveAdd (endpoint node service : string)
| RequestRemove (key : string)
| ConfirmRemove (key : string)
| CancelRemove
| SaveListener (addr : string)
| RequestRemoveListener (addr : string)
| ConfirmRemoveListener (addr : string)
| CancelRemoveListener.

Record AddAgentNotice := { nt_message : string; nt_is_error : bool }.

Record OverviewState := {
  add_agent_open : bool;
  add_agent_draft : AddAgentDraft;
  add_agent_notice : option AddAgentNotice;
  listener_draft : string;
  agent_filter : string;
  pending_remove_key : option string;
  pending_remove_listener : option string;
}.
(** [OverviewState::default()] *)
Definition overview_default : OverviewState :=
  {| add_agent_open := false; add_agent_draft := draft_clear; add_agent_notice := None; listener_draft := EmptyString;
     agent_filter := EmptyString; pending_remove_key := None; pending_remove_listener := None |}.

(** The native labels of the platform that end up in a notice. *)
Definition ADD_REQUESTED : string := "listener bind requested".
Definition REMOVE_REQUESTED : string := "listener removal requested".

(** ** The operations of the page's state *)

Definition notice (is_error : bool) (message : string) : option AddAgentNotice := Some {| nt_message := message; nt_is_error := is_error |}.

Definition select_agent (page : OverviewState) : OverviewState :=
  {| add_agent_open := add_agent_open page; add_agent_draft := add_agent_draft page; add_agent_notice := None;
     listener_draft := listener_draft page; agent_filter := agent_filter page; pending_remove_key := None; pending_remove_listener := None |}.
Definition start_add (page : OverviewState) : OverviewState :=
  {| add_agent_open := true; add_agent_draft := add_agent_draft page; add_agent_notice := None;
     listener_draft := listener_draft page; agent_filter := agent_filter page; pending_remove_key := None; pending_remove_listener := None |}.
Definition cancel_add (page : OverviewState) : OverviewState :=
  {| add_agent_open := false; add_agent_draft := draft_clear; add_agent_notice := None;
     listener_draft := listener_draft page; agent_filter := agent_filter page;
     pending_remove_key := pending_remove_key page; pending_remove_listener := pending_remove_listener page |}.
Definition registered_agent (page : OverviewState) : OverviewState :=
  {| add_agent_open := false; add_agent_draft := draft_clear; add_agent_notice := notice false "agent registered";
     listener_draft := listener_draft page; agent_filter := agent_filter page;
     pending_remove_key := pending_remove_key page; pending_remove_listener := pending_remove_listener page |}.
Definition request_remove (key : string) (page : OverviewState) : OverviewState :=
  {| add_agent_open := add_agent_open page; add_agent_draft := add_agent_draft page; add_agent_notice := None;
     listener_draft := listener_draft page; agent_filter := agent_filter page;
     pending_remove_key := Some key; pending_remove_listener := None |}.
Definition cancel_remove (page : OverviewState) : OverviewState :=
  {| add_agent_open := add_agent_open page; add_agent_draft := add_agent_draft page; add_agent_notice := add_agent_notice page;
     listener_draft := listener_draft page; agent_filter := agent_filter page;
     pending_remove_key := None; pending_remove_listener := pending_remove_listener page |}.
Definition removed_agent (page : OverviewState) : OverviewState :=
  {| add_agent_open := add_agent_open page; add_agent_draft := add_agent_draft page; add_agent_notice := notice false "agent removed";
     listener_draft := listener_draft page; agent_filter := agent_filter page;
     pending_remove_key := None; pending_remove_listener := pending_remove_listener page |}.
Definition bound_listener (page : OverviewState) : OverviewState :=
  {| add_agent_open := add_agent_open page; add_agent_draft := add_agent_draft page; add_agent_notice := notice false ADD_REQUESTED;
     listener_draft := EmptyString; agent_filter := agent_filter page;
     pending_remove_key := pending_remove_key page; pending_remove_listener := None |}.
Definition request_remove_listener (addr : string) (page : OverviewState) : OverviewState :=
  {| add_agent_open := add_agent_open page; add_agent_draft := add_agent_draft page; add_agent_notice := None;
     listener_draft := listener_draft page; agent_filter := agent_filter page;
     pending_remove_key := None; pending_remove_listener := Some addr |}.
Definition cancel_remove_listener (page : OverviewState) : OverviewState :=
  {| add_agent_open := add_agent_open page; add_agent_draft := add_agent_draft page; add_agent_notice := add_agent_notice page;
     listener_draft := listener_draft page; agent_filter := agent_filter page;
     pending_remove_key := pending_remove_key page; pending_remove_listener := None |}.
Definition removed_listener (page : OverviewState) : OverviewState :=
  {| add_agent_open := add_agent_open page; add_agent_draft := add_agent_draft page; add_agent_notice := notice false REMOVE_REQUESTED;
     listener_draft := listener_draft page; agent_filter := agent_filter page;
     pending_remove_key := pending_remove_key page; pending_remove_listener := None |}.
Definition rejected_agent (error : string) (page : OverviewState) : OverviewState :=
  {| add_agent_open := true; add_agent_draft := add_agent_draft page; add_agent_notice := notice true error;
     listener_draft := listener_draft page; agent_filter := agent_filter page; pending_remove_key := None; pending_remove_listener := None |}.
Definition rejected_remove (error : string) (page : OverviewState) : OverviewState :=
  {| add_agent_open := add_agent_open page; add_agent_draft := add_agent_draft page; add_agent_notice := notice true error;
     listener_draft := listener_draft page; agent_filter := agent_filter page; pending_remove_key := None; pending_remove_listener := None |}.
Definition rejected_listener (error : string) (page : OverviewState) : OverviewState :=
  {| add_agent_open := add_agent_open page; add_agent_draft := add_agent_draft page; add_agent_notice := notice true error;
     listener_draft := listener_draft page; agent_filter := agent_filter page;
     pending_remove_key := pending_remove_key page; pending_remove_listener := None |}.

(** ** What egui answers *)

Inductive AgentButton :=
| AddAgentButton
| ListenerAdd
| ListenerConfirm (addr : string)
| ListenerCancel (addr : string)
| ListenerRemove (addr : string)
| FilterClear
| FormSave
| FormCancel
| RowConfirm (key : string)
| RowCancel (key : string)
| RowOpen (key : string)
| RowRemove (key : string).
Inductive AgentField := ListenerAddr | AgentFilter | FormEndpoint | FormNode | FormService.

(** [clicked]: of the widgets that are drawn and enabled; [typed]: what a
    field holds after the frame, given what it held; [age]: the seconds since
    an [Instant]. *)
Record AgentsInput := {
  clicked : AgentButton → bool;
  typed : AgentField → string → string;
  age : Z → Z;
}.

(** ** agents.rs *)

(** The order of a [BTreeSet] of strings. *)
Definition btree_set_iter (l : gset string) : list string := merge_sort String.le (elements l).

Section panel.
Context (inp : AgentsInput).
Implicit Types (action : option AgentOverviewAction).

(** [if ui.button(..).clicked() { *action = Some(..) }] *)
Definition on_click (b : AgentButton) (a : AgentOverviewAction) action : option AgentOverviewAction :=
  if clicked inp b then Some a else action.
(** The same with [add_enabled]. *)
Definition on_click_if (enabled : bool) (b : AgentButton) (a : AgentOverviewAction) action : option AgentOverviewAction :=
  if enabled then on_click b a action else action.

Definition listener_chip (pending_remove_listener : option string) action (listener : string) : option AgentOverviewAction :=
  if bool_decide (pending_remove_listener = Some listener)
  then on_click (ListenerCancel listener) CancelRemoveListener (on_click (ListenerConfirm listener) (ConfirmRemoveListener listener) action)
  else on_click (ListenerRemove listener) (RequestRemoveListener listener) action.

Definition listener_bar (listeners : gset string) (draft : string) (pending_remove_listener : option string) action
  : string * option AgentOverviewAction :=
  let draft := typed inp ListenerAddr draft in
  let action := on_click_if (negb (is_empty (trim draft))) ListenerAdd (SaveListener draft) action in
  (draft, foldl (listener_chip pending_remove_listener) action (btree_set_iter listeners)).

Definition filter_bar (filter : string) : string :=
  let filter := typed inp AgentFilter filter in
  if negb (is_empty (trim filter)) && clicked inp FilterClear then EmptyString else filter.

Definition add_agent_form (draft : AddAgentDraft) : AddAgentDraft * option AgentOverviewAction :=
  let draft := {| dr_endpoint := typed inp FormEndpoint (dr_endpoint draft); dr_node := typed inp FormNode (dr_node draft);
                  dr_service := typed inp FormService (dr_service draft) |} in
  let can_save := negb (is_empty (trim (dr_endpoint draft))) in
  (draft, on_click FormCancel CancelAdd
            (on_click_if can_save FormSave (SaveAdd (dr_endpoint draft) (dr_node draft) (dr_service draft)) None)).

Definition row_matches_filter (row : NodeSummary) (filter : string) : bool :=
  let filter := trim filter in
  if is_empty filter then true
  else
    let needle := to_ascii_lowercase filter in
    existsb (λ value, contains (to_ascii_lowercase value) needle)
      [ns_node row; ns_endpoint row; ns_source row; ns_service row; ns_last_metric row; ns_last_value row].

(** [sort_by]'s comparison says [Less] or [Equal]. *)
Definition row_before (left right : string * NodeSummary) : bool :=
  (ns_last_seen right.2 <? ns_last_seen left.2) ||
  ((ns_last_seen left.2 =? ns_last_seen right.2) && String.leb (ns_node left.2) (ns_node right.2)).
(** A stable sort: a row goes before the equal ones that follow it. *)
Fixpoint insert_row (row : string * NodeSummary) (rows : list (string * NodeSummary)) : list (string * NodeSummary) :=
  match rows with
  | [] => [row]
  | first :: rest => if row_before row first then row :: rows else first :: insert_row row rest
  end.
Definition sort_rows (rows : list (string * NodeSummary)) : list (string * NodeSummary) := foldr insert_row [] rows.
Definition recent_rows (nodes : gmap string NodeSummary) (filter_text : string) : list (string * NodeSummary) :=
  sort_rows ((λ row, (edge_key (ns_endpoint row) (ns_node row), row)) <$>
    filter (λ row, row_matches_filter row filter_text = true) (btree_iter nodes).*2).

Definition signal_count (row : NodeSummary) : Z := as_u64 (ns_metric_points row + ns_spans row + ns_log_records row).
Definition agent_state_label (row : NodeSummary) (decoration : option EdgeSignalDecoration) : string :=
  match decoration ≫= ed_severity with
  | Some Critical => "critical"
  | Some Warning => "warning"
  | None => if signal_count row =? 0 then "pending" else "online"
  end.
Definition last_signal (row : NodeSummary) : string :=
  if is_empty (ns_last_metric row) then ns_last_value row
  else if is_empty (ns_last_value row) then ns_last_metric row
  else ns_last_metric row +:+ " " +:+ ns_last_value row.

Definition row_actions (pending_remove_key : option string) action (key : string) : option AgentOverviewAction :=
  if bool_decide (pending_remove_key = Some key)
  then on_click (RowCancel key) CancelRemove (on_click (RowConfirm key) (ConfirmRemove key) action)
  else on_click (RowRemove key) (RequestRemove key) (on_click (RowOpen key) (Select key) action).

(** The texts of a row, and the actions of its buttons. *)
Record AgentRow := {
  rw_key : string;
  rw_agent : string;
  rw_state : string;
  rw_ingress : string;
  rw_source : string;
  rw_service : string;
  rw_signals : string;
  rw_last : string;
  rw_age : string;
}.
Definition agent_row (decorations : EdgeSignalDecorations) (key_row : string * NodeSummary) : AgentRow :=
  let '(key, row) := key_row in
  {| rw_key := key;
     rw_agent := shorten (ns_node row) 36;
     rw_state := agent_state_label row (edge_get decorations (ns_endpoint row) (ns_node row));
     rw_ingress := shorten (ns_endpoint row) 32;
     rw_source := shorten (ns_source row) 24;
     rw_service := shorten (ns_service row) 24;
     rw_signals := u64_to_string (signal_count row);
     rw_last := shorten (last_signal row) 34;
     rw_age := format_duration (age inp (ns_last_seen row)) |}.
Definition agent_table (rows : list (string * NodeSummary)) (decorations : EdgeSignalDecorations) (pending_remove_key : option string) action
  : list AgentRow * option AgentOverviewAction :=
  (agent_row decorations <$> rows, foldl (row_actions pending_remove_key) action rows.*1).

(** What the panel lists. *)
Inductive AgentList := NoAgents | NoMatch | AgentTable (rows : list AgentRow).

Definition agents_show (nodes : gmap string NodeSummary) (listeners : gset string) (decorations : EdgeSignalDecorations)
    (draft : AddAgentDraft) (listener_draft filter : string) (show_form : bool)
    (pending_remove_key pending_remove_listener : option string)
  : (AddAgentDraft * string * string) * AgentList * option AgentOverviewAction :=
  let action := on_click AddAgentButton StartAdd None in
  let '(listener_draft, action) := listener_bar listeners listener_draft pending_remove_listener action in
  let filter := filter_bar filter in
  let '(draft, action) :=
    if show_form then
      let '(draft, next_action) := add_agent_form draft in
      (draft, match next_action with Some next_action => Some next_action | None => action end)
    else (draft, action) in
  let rows := recent_rows nodes filter in
  if bool_decide (nodes = ∅) then ((draft, listener_draft, filter), NoAgents, action)
  else if bool_decide (rows = []) then ((draft, listener_draft, filter), NoMatch, action)
  else
    let '(table, action) := agent_table rows decorations pending_remove_key action in
    ((draft, listener_draft, filter), AgentTable table, action).

(** ** overview.rs *)

(** The page edits its state in place: the drafts and the filter. *)
Definition overview_show (s : DashboardState) (page : OverviewState) : OverviewState * AgentList * option AgentOverviewAction :=
  let '((draft, listener, filter), listed, action) :=
    agents_show (ds_nodes s) (ds_listeners s) (ds_edges s) (add_agent_draft page) (listener_draft page) (agent_filter page)
      (add_agent_open page) (pending_remove_key page) (pending_remove_listener page) in
  ({| add_agent_open := add_agent_open page; add_agent_draft := draft; add_agent_notice := add_agent_notice page;
      listener_draft := listener; agent_filter := filter;
      pending_remove_key := pending_remove_key page; pending_remove_listener := pending_remove_listener page |}, listed, action).
End panel.

(** ** The rows *)

Lemma insert_row_perm row rows : insert_row row rows ≡ₚ row :: rows.
Proof. induction rows as [|first rest IH]; simpl; [done|]. destruct (row_before row first); [done|]. rewrite IH. apply Permutation_swap. Qed.
Lemma sort_rows_perm rows : sort_rows rows ≡ₚ rows.
Proof. induction rows as [|row rows IH]; simpl; [done|]. by rewrite insert_row_perm, IH. Qed.

Definition newer_first (left right : string * NodeSummary) : Prop :=
  ns_last_seen right.2 < ns_last_seen left.2 ∨ (ns_last_seen left.2 = ns_last_seen right.2 ∧ String.le (ns_node left.2) (ns_node right.2)).

Lemma row_before_newer left right : row_before left right = true → newer_first left right.
Proof.
  unfold row_before, newer_first. rewrite orb_true_iff, andb_true_iff, Z.ltb_lt, Z.eqb_eq. intros [?|[? ?]]; [by left|right].
  split; [done|]. by apply Is_true_true.
Qed.
Lemma row_not_before left right : row_before left right = false → newer_first right left.
Proof.
  unfold row_before, newer_first. rewrite orb_false_iff, andb_false_iff, Z.ltb_ge, Z.eqb_neq. intros [? Hn].
  destruct (decide (ns_last_seen left.2 = ns_last_seen right.2)) as [E|]; [|left; lia]. right. split; [done|].
  destruct Hn as [?|Hn]; [done|]. destruct (total String.le (ns_node right.2) (ns_node left.2)) as [?|Hle%Is_true_true]; [done|]. congruence.
Qed.
Lemma newer_first_trans : Transitive newer_first.
Proof.
  intros a b c [Hab|[Hab Lab]] [Hbc|[Hbc Lbc]]; [left; lia..|]. right. split; [lia|]. by transitivity (ns_node b.2).
Qed.
Lemma insert_row_sorted row rows : StronglySorted newer_first rows → StronglySorted newer_first (insert_row row rows).
Proof.
  induction 1 as [|first rest Hs IH Hf]; simpl; [by repeat constructor|]. destruct (row_before row first) eqn:E.
  - apply row_before_newer in E. constructor; [by constructor|]. constructor; [done|].
    eapply Forall_impl; [exact Hf|]. intros x. by apply newer_first_trans.
  - constructor; [done|]. rewrite insert_row_perm. constructor; [by apply row_not_before|done].
Qed.
Lemma sort_rows_sorted rows : StronglySorted newer_first (sort_rows rows).
Proof. induction rows as [|row rows IH]; simpl; [constructor|by apply insert_row_sorted]. Qed.

(** The nodes' keys are their own. *)
Definition nodes_keyed (nodes : gmap string NodeSummary) : Prop :=
  map_Forall (λ k n, edge_key (ns_endpoint n) (ns_node n) = k) nodes.

Lemma filter_entries (P : string * NodeSummary → Prop) `{∀ kv, Decision (P kv)} (m : gmap string NodeSummary) :
  filter P (map_to_list m) ≡ₚ map_to_list (filter P m).
Proof.
  apply NoDup_Permutation; [by apply NoDup_filter, NoDup_map_to_list|apply NoDup_map_to_list|]. intros [k n].
  rewrite list_elem_of_filter, !elem_of_map_to_list, map_lookup_filter_Some. tauto.
Qed.
Lemma recent_rows_perm nodes filter_text : nodes_keyed nodes →
  recent_rows nodes filter_text ≡ₚ map_to_list (filter (λ kv, row_matches_filter kv.2 filter_text = true) nodes).
Proof.
  intros Hk. unfold recent_rows, btree_iter. rewrite sort_rows_perm, merge_sort_Permutation.
  rewrite <- filter_entries. assert (∀ l : list (string * NodeSummary), (∀ kv, kv ∈ l → edge_key (ns_endpoint kv.2) (ns_node kv.2) = kv.1) →
    (λ row, (edge_key (ns_endpoint row) (ns_node row), row)) <$> filter (λ row, row_matches_filter row filter_text = true) l.*2 =
    filter (λ kv, row_matches_filter kv.2 filter_text = true) l) as ->; [|done|].
  - intros l. induction l as [|[k n] l IH]; intros Hl; [done|]. rewrite fmap_cons, !filter_cons. simpl.
    rewrite <- IH by (intros kv ?; apply Hl; by right). case_decide; [|done]. simpl. pose proof (Hl (k, n) ltac:(by left)) as E. simpl in E. by rewrite E.
  - intros [k n] ?%elem_of_map_to_list. by apply (Hk k n).
Qed.
Lemma recent_rows_elem nodes filter_text k n : nodes_keyed nodes →
  (k, n) ∈ recent_rows nodes filter_text ↔ nodes !! k = Some n ∧ row_matches_filter n filter_text = true.
Proof. intros Hk. by rewrite recent_rows_perm, elem_of_map_to_list, map_lookup_filter_Some. Qed.

(** ** Where an action comes from *)

Section actions.
Context (inp : AgentsInput) (Q : AgentOverviewAction → Prop).

Definition allowed (action : option AgentOverviewAction) : Prop := ∀ a, action = Some a → Q a.
Lemma on_click_allowed b a action : (clicked inp b = true → Q a) → allowed action → allowed (on_click inp b a action).
Proof. unfold on_click. intros Hq Ha. destruct (clicked inp b); [|done]. intros a' [= <-]. auto. Qed.
Lemma on_click_if_allowed (enabled : bool) b a action : (enabled = true → clicked inp b = true → Q a) → allowed action →
  allowed (on_click_if inp enabled b a action).
Proof. unfold on_click_if. destruct enabled; [|done]. intros Hq. apply on_click_allowed. auto. Qed.
Lemma foldl_allowed {A} (f : option AgentOverviewAction → A → option AgentOverviewAction) l action :
  (∀ x action, x ∈ l → allowed action → allowed (f action x)) → allowed action → allowed (foldl f action l).
Proof.
  revert action. induction l as [|x l IH]; intros action Hf Ha; simpl; [done|]. apply IH; [intros; apply Hf; [by right|done]|]. apply Hf; [by left|done].
Qed.
End actions.

(** Each action was asked for, with a button that was there to be clicked. *)
Definition asked (inp : AgentsInput) (s : DashboardState) (page : OverviewState) (a : AgentOverviewAction) : Prop :=
  match a with
  | Select k => clicked inp (RowOpen k) = true ∧ is_Some (ds_nodes s !! k)
  | StartAdd => clicked inp AddAgentButton = true
  | CancelAdd => clicked inp FormCancel = true ∧ add_agent_open page = true
  | SaveAdd endpoint node service => clicked inp FormSave = true ∧ add_agent_open page = true ∧ is_empty (trim endpoint) = false
  | RequestRemove k => clicked inp (RowRemove k) = true ∧ pending_remove_key page ≠ Some k ∧ is_Some (ds_nodes s !! k)
  | ConfirmRemove k => clicked inp (RowConfirm k) = true ∧ pending_remove_key page = Some k
  | CancelRemove => ∃ k, clicked inp (RowCancel k) = true ∧ pending_remove_key page = Some k
  | SaveListener addr => clicked inp ListenerAdd = true ∧ is_empty (trim addr) = false
  | RequestRemoveListener addr => clicked inp (ListenerRemove addr) = true ∧ pending_remove_listener page ≠ Some addr ∧ addr ∈ ds_listeners s
  | ConfirmRemoveListener addr => clicked inp (ListenerConfirm addr) = true ∧ pending_remove_listener page = Some addr ∧ addr ∈ ds_listeners s
  | CancelRemoveListener => ∃ addr, clicked inp (ListenerCancel addr) = true ∧ pending_remove_listener page = Some addr
  end.

Lemma elem_of_btree_set l x : x ∈ btree_set_iter l ↔ x ∈ l.
Proof. unfold btree_set_iter. by rewrite merge_sort_Permutation, elem_of_elements. Qed.

Lemma overview_action_asked inp s page : nodes_keyed (ds_nodes s) → allowed (asked inp s page) (overview_show inp s page).2.
Proof.
  intros Hk. unfold overview_show, agents_show, listener_bar, agent_table. set (Q := asked inp s page).
  set (action0 := foldl _ _ (btree_set_iter (ds_listeners s))). assert (allowed Q action0) as H0.
  { apply foldl_allowed.
    - intros addr action Hin%elem_of_btree_set Ha. unfold listener_chip. case_bool_decide.
      + apply on_click_allowed; [simpl; eauto|]. by apply on_click_allowed; [simpl|].
      + by apply on_click_allowed; [simpl|].
    - apply on_click_if_allowed; [intros He Hc; split; [done|by apply negb_true_iff]|]. by apply on_click_allowed; [simpl|]. }
  clearbody action0. set (form := if add_agent_open page then _ else _).
  assert (allowed Q form.2) as Hf.
  { unfold form. destruct (add_agent_open page) eqn:Eo; [|done]. unfold add_agent_form. simpl.
    set (next := on_click inp FormCancel _ _). assert (allowed Q next) as Hn.
    { apply on_click_allowed; [simpl; auto|]. apply on_click_if_allowed; [|done]. intros He Hc. split_and!; [done|done|by apply negb_true_iff]. }
    by destruct next. }
  destruct form as [draft action]. simpl in Hf. case_bool_decide; [done|]. case_bool_decide; [done|]. simpl.
  apply foldl_allowed; [|done]. intros k a Hin Ha. apply list_elem_of_fmap in Hin as ([k' n] & -> & Hin).
  apply recent_rows_elem in Hin as [Hin _]; [|done]. simpl in *. unfold row_actions. case_bool_decide.
  - apply on_click_allowed; [simpl; eauto|]. by apply on_click_allowed.
  - apply on_click_allowed; [simpl; eauto|]. apply on_click_allowed; [simpl; eauto|done].
Qed.

(** The page's own fields that only an action changes. *)
Lemma overview_keeps inp s page : let page' := (overview_show inp s page).1.1 in
  pending_remove_key page' = pending_remove_key page ∧ pending_remove_listener page' = pending_remove_listener page ∧
  add_agent_open page' = add_agent_open page ∧ add_agent_notice page' = add_agent_notice page.
Proof. unfold overview_show. by destruct (agents_show _ _ _ _ _ _ _ _ _) as [[[[? ?] ?] ?] ?]. Qed.
