(* ===== verification/FeSettings.v ===== *)
(** * The interface settings (skid-monitor-fe, ui_settings/)

    The appearance and the background, and the draft of the character profile
    that the operator edits.  As in FeAgents.v, what egui answers for the
    widgets of a frame is an argument; so are the files dropped on the window
    and the decoder of background images.  The draft goes to the dashboard
    only when the operator applies it, and is replaced when the dashboard has
    applied another profile. *)

From S2P Require Import Prelude RustStr Otlp RustFloat FeAlert FeProfile Json VrmJson.

(** ** appearance.rs, background.rs *)

Inductive AppearanceMode := System | Dark | Light.
Definition APPEARANCE_ALL : list AppearanceMode := [System; Dark; Light].
(** [egui::Theme] *)
Inductive Theme := ThemeDark | ThemeLight.
Inductive BackgroundTheme := Obsidian | Graphite | DeepGreen | Paper | Porcelain.
Definition BACKGROUND_THEMES : list BackgroundTheme := [Obsidian; Graphite; DeepGreen; Paper; Porcelain].
#[global] Instance AppearanceMode_eq_dec : EqDecision AppearanceMode.
Proof. solve_decision. Defined.
#[global] Instance BackgroundTheme_eq_dec : EqDecision BackgroundTheme.
Proof. solve_decision. Defined.

Definition appearance_label (mode : AppearanceMode) : string := match mode with System => "System" | Dark => "Dark" | Light => "Light" end.
Definition background_label (theme : BackgroundTheme) : string :=
  match theme with Obsidian => "Obsidian" | Graphite => "Graphite" | DeepGreen => "Deep green" | Paper => "Paper" | Porcelain => "Porcelain" end.
Definition default_background_for_theme (theme : Theme) : BackgroundTheme := match theme with ThemeDark => Obsidian | ThemeLight => Paper end.

(** The texture's name and pixels, and its size. *)
Record BackgroundImage := { bi_texture : string * list byte; bi_size : f32 * f32 }.
(** What [image::open] gives: the size and the RGBA pixels, or an error. *)
Definition ImageOpen : Type := string → result string (Z * Z * list byte).
Definition load_background_texture (open : ImageOpen) (path : string) : result string BackgroundImage :=
  '(width, height, pixels) ← map_err (λ error, "failed to load " +:+ path +:+ ": " +:+ error) (open path);
  Ok {| bi_texture := ("background-image:" +:+ path, pixels); bi_size := (f32_of_Z width, f32_of_Z height) |}.

(** The part of the image that covers the window: the corners of its [uv]
    rectangle. *)
Definition cover_uv (image_size rect_size : f32 * f32) : option ((f32 * f32) * (f32 * f32)) :=
  if SFleb image_size.1 f32_0 || SFleb image_size.2 f32_0 || SFleb rect_size.1 f32_0 || SFleb rect_size.2 f32_0 then None
  else
    let image_aspect := f32_div image_size.1 image_size.2 in
    let rect_aspect := f32_div rect_size.1 rect_size.2 in
    if SFltb rect_aspect image_aspect then
      let visible_width := f32_clamp (f32_div rect_aspect image_aspect) f32_0 f32_1 in
      let inset := f32_mul (f32_sub f32_1 visible_width) (f32_lit 1 2) in
      Some ((inset, f32_0), (f32_sub f32_1 inset, f32_1))
    else
      let visible_height := f32_clamp (f32_div image_aspect rect_aspect) f32_0 f32_1 in
      let inset := f32_mul (f32_sub f32_1 visible_height) (f32_lit 1 2) in
      Some ((f32_0, inset), (f32_1, f32_sub f32_1 inset)).

(** ** mod.rs *)

Record UiSettings := {
  appearance : AppearanceMode;
  background : BackgroundTheme;
  background_follows_appearance : bool;
  background_image_path : string;
  background_image : option BackgroundImage;
  background_image_error : option string;
  avatar_applied : AvatarReactionProfile;
  avatar_applied_revision : Z;
  avatar_draft : AvatarReactionProfile;
  avatar_profile_error : option string;
}.
Record SettingsChanges := {
  ch_alerts_enabled : option bool;
  ch_avatar_profile : option AvatarReactionProfile;
  ch_preview_character : bool;
}.
(** [SettingsChanges::default()] *)
Definition no_changes : SettingsChanges := {| ch_alerts_enabled := None; ch_avatar_profile := None; ch_preview_character := false |}.

Definition settings_new (avatar_profile : AvatarReactionProfile) (avatar_profile_revision : Z) : UiSettings :=
  {| appearance := System; background := Obsidian; background_follows_appearance := true; background_image_path := EmptyString;
     background_image := None; background_image_error := None; avatar_applied := avatar_profile;
     avatar_applied_revision := avatar_profile_revision; avatar_draft := avatar_profile; avatar_profile_error := None |}.

(** Field updates. *)
Definition set_look (a : AppearanceMode) (b : BackgroundTheme) (follows : bool) (u : UiSettings) : UiSettings :=
  {| appearance := a; background := b; background_follows_appearance := follows; background_image_path := background_image_path u;
     background_image := background_image u; background_image_error := background_image_error u; avatar_applied := avatar_applied u;
     avatar_applied_revision := avatar_applied_revision u; avatar_draft := avatar_draft u; avatar_profile_error := avatar_profile_error u |}.
Definition set_image (path : string) (image : option BackgroundImage) (error : option string) (u : UiSettings) : UiSettings :=
  {| appearance := appearance u; background := background u; background_follows_appearance := background_follows_appearance u;
     background_image_path := path; background_image := image; background_image_error := error; avatar_applied := avatar_applied u;
     avatar_applied_revision := avatar_applied_revision u; avatar_draft := avatar_draft u; avatar_profile_error := avatar_profile_error u |}.
Definition set_draft (draft : AvatarReactionProfile) (error : option string) (u : UiSettings) : UiSettings :=
  {| appearance := appearance u; background := background u; background_follows_appearance := background_follows_appearance u;
     background_image_path := background_image_path u; background_image := background_image u;
     background_image_error := background_image_error u; avatar_applied := avatar_applied u;
     avatar_applied_revision := avatar_applied_revision u; avatar_draft := draft; avatar_profile_error := error |}.

Definition sync_avatar_profile (avatar_profile : AvatarReactionProfile) (avatar_profile_revision : Z) (u : UiSettings) : UiSettings :=
  if avatar_applied_revision u =? avatar_profile_revision then u
  else
    {| appearance := appearance u; background := background u; background_follows_appearance := background_follows_appearance u;
       background_image_path := background_image_path u; background_image := background_image u;
       background_image_error := background_image_error u; avatar_applied := avatar_profile;
       avatar_applied_revision := avatar_profile_revision; avatar_draft := avatar_profile; avatar_profile_error := None |}.
Definition reject_avatar_profile (error : string) (u : UiSettings) : UiSettings := set_draft (avatar_draft u) (Some error) u.

(** Field updates of the draft. *)
Definition set_paths (model : string) (animations : list string) (shader : string) (p : AvatarReactionProfile) : AvatarReactionProfile :=
  {| schema_version := schema_version p; model_name := model_name p; model_path := model; animation_path := animation_path p;
     animation_paths := animations; shader_path := shader; animation_crossfade_seconds := animation_crossfade_seconds p;
     spring_bone_enabled := spring_bone_enabled p; look_at_enabled := look_at_enabled p;
     act_idle := act_idle p; act_warning := act_warning p; act_critical := act_critical p |}.
Definition set_animations (animations : list string) (p : AvatarReactionProfile) : AvatarReactionProfile :=
  set_paths (model_path p) animations (shader_path p) p.

(** *** Dropped files: the paths, where the window system gives one *)

Definition dropped_asset_paths (dropped : list (option string)) (expected_extension : string) : list string :=
  filter (λ path, match path_extension path with Some extension => eq_ignore_ascii_case extension expected_extension | None => false end = true)
    (omap id dropped).
Definition dropped_asset_path (dropped : list (option string)) (expected_extension : string) : option string :=
  head (dropped_asset_paths dropped expected_extension).
Definition dropped_image_path (dropped : list (option string)) : option string :=
  head (filter (λ path, match path_extension path with
                        | Some extension => bool_decide (to_ascii_lowercase extension ∈ ["png"; "jpg"; "jpeg"])
                        | None => false end = true) (omap id dropped)).

Definition TOO_MANY_ANIMATIONS : string := "at most " +:+ nat_text MAX_AVATAR_ANIMATION_PATHS +:+ " VRMA files are supported".
(** The loop over the dropped animations, with its [continue] and [break]. *)
Fixpoint add_animations (paths : list string) (u : UiSettings) : UiSettings :=
  match paths with
  | [] => u
  | path :: paths =>
    let animations := animation_paths (avatar_draft u) in
    if bool_decide (path ∈ animations) then add_animations paths u
    else if (MAX_AVATAR_ANIMATION_PATHS <=? length animations)%nat then set_draft (avatar_draft u) (Some TOO_MANY_ANIMATIONS) u
    else add_animations paths (set_draft (set_animations (animations ++ [path]) (avatar_draft u)) None u)
  end.

Definition load_background_image (open : ImageOpen) (u : UiSettings) : UiSettings :=
  let path := trim (background_image_path u) in
  if is_empty path then set_image (background_image_path u) (background_image u) (Some "image path is required") u
  else match load_background_texture open path with
       | Ok image => set_image (background_image_path u) (Some image) None u
       | Err error => set_image (background_image_path u) (background_image u) (Some error) u
       end.

Definition load_dropped_assets (open : ImageOpen) (dropped : list (option string)) (u : UiSettings) : UiSettings :=
  let model := dropped_asset_path dropped "vrm" in
  let u := match model with
           | Some path => set_draft (set_paths path (animation_paths (avatar_draft u)) (shader_path (avatar_draft u)) (avatar_draft u)) None u
           | None => u
           end in
  let dropped_animations := dropped_asset_paths dropped "vrma" in
  let u := add_animations dropped_animations u in
  let shader := dropped_asset_path dropped "wgsl" in
  let u := match shader with
           | Some path => set_draft (set_paths (model_path (avatar_draft u)) (animation_paths (avatar_draft u)) path (avatar_draft u)) None u
           | None => u
           end in
  let loaded_character_asset :=
    bool_decide (is_Some model) || negb (bool_decide (dropped_animations = [])) || bool_decide (is_Some shader) in
  if loaded_character_asset then u
  else match dropped_image_path dropped with
       | Some path => load_background_image open (set_image path (background_image u) (background_image_error u) u)
       | None => u
       end.

(** *** The theme *)

(** [system]: [ctx.system_theme()] *)
Definition effective_theme (system : option Theme) (u : UiSettings) : Theme :=
  match appearance u with System => default ThemeDark system | Dark => ThemeDark | Light => ThemeLight end.
Definition sync_background_for_appearance (system : option Theme) (u : UiSettings) : UiSettings :=
  if background_follows_appearance u
  then set_look (appearance u) (default_background_for_theme (effective_theme system u)) (background_follows_appearance u) u else u.
Definition sync_system_background (system : option Theme) (u : UiSettings) : UiSettings :=
  if background_follows_appearance u && bool_decide (appearance u = System)
  then set_look (appearance u) (default_background_for_theme (effective_theme system u)) (background_follows_appearance u) u else u.

(** ** What egui answers *)

Inductive ActionState := IdleAction | WarningAction | CriticalAction.
Inductive SettingsButton :=
| AppearanceButton (mode : AppearanceMode)
| BackgroundRow (theme : BackgroundTheme)
| ImageLoad
| ImageClear
| AlertsCheckbox
| ModelClear
| AnimationRemove (index : nat)
| AnimationAdd
| SpringCheckbox
| LookCheckbox
| ShaderClear
| MotionChoice (state : ActionState) (m : AvatarMotion)
| ApplyButton
| ResetButton
| WindowClose.   (* the cross of the window *)
Inductive SettingsField :=
| ImagePath
| ModelName
| ModelPath
| AnimationPath (index : nat)
| ShaderPath
| ActionMessage (state : ActionState)
| ActionExpression (state : ActionState).

Record SettingsInput := {
  s_clicked : SettingsButton → bool;
  s_typed : SettingsField → string → string;
  s_slid : f32 → f32;   (* the slider of the crossfade *)
  s_system : option Theme;
  s_dropped : list (option string);
  s_open : ImageOpen;
}.

Section windows.
Context (inp : SettingsInput).

Definition on_button {A} (b : SettingsButton) (f : A → A) (a : A) : A := if s_clicked inp b then f a else a.

(** ** window.rs *)

(** [selectable_value] sets the value of a choice that was clicked. *)
Definition show_appearance (u : UiSettings) : UiSettings :=
  foldl (λ u mode, on_button (AppearanceButton mode)
    (λ u, sync_background_for_appearance (s_system inp) (set_look mode (background u) (background_follows_appearance u) u)) u) u APPEARANCE_ALL.

Definition show_background (u : UiSettings) : UiSettings :=
  let u := foldl (λ u theme, on_button (BackgroundRow theme) (set_look (appearance u) theme false) u) u BACKGROUND_THEMES in
  let u := set_image (s_typed inp ImagePath (background_image_path u)) (background_image u) (background_image_error u) u in
  let u := on_button ImageLoad (load_background_image (s_open inp)) u in
  on_button ImageClear (set_image (background_image_path u) None None) u.

Definition show_alert_settings (alerts_enabled : bool) (changes : SettingsChanges) : SettingsChanges :=
  on_button AlertsCheckbox (λ changes, {| ch_alerts_enabled := Some (negb alerts_enabled); ch_avatar_profile := ch_avatar_profile changes;
                                          ch_preview_character := ch_preview_character changes |}) changes.

(** The settings, whether the window stays open, the changes. *)
Definition show_window (alerts_enabled : bool) (u : UiSettings) : UiSettings * bool * SettingsChanges :=
  (show_background (show_appearance (sync_system_background (s_system inp) u)), negb (s_clicked inp WindowClose),
   show_alert_settings alerts_enabled no_changes).

(** ** character_window.rs *)

Definition MOTION_ALL : list AvatarMotion := [Still; Pulse; Bounce; Shake].
Definition show_action_editor (id : ActionState) (action : AvatarAction) : AvatarAction :=
  {| motion := foldl (λ current m, if s_clicked inp (MotionChoice id m) then m else current) (motion action) MOTION_ALL;
     act_message := s_typed inp (ActionMessage id) (act_message action);
     expression := s_typed inp (ActionExpression id) (expression action) |}.

(** [Vec::remove] of the last [Remove] button clicked, where there is one. *)
Definition remove_animation (paths : list string) : list string :=
  match foldl (λ removed index, if s_clicked inp (AnimationRemove index) then Some index else removed) None (seq 0 (length paths)) with
  | Some index => take index paths ++ drop (S index) paths
  | None => paths
  end.
Definition edit_animations (paths : list string) : list string :=
  let paths := remove_animation (imap (λ index path, s_typed inp (AnimationPath index) path) paths) in
  if (length paths <? MAX_AVATAR_ANIMATION_PATHS)%nat && s_clicked inp AnimationAdd then paths ++ [EmptyString] else paths.

(** The fields of the form. *)
Definition edit_draft (p : AvatarReactionProfile) : AvatarReactionProfile :=
  {| schema_version := schema_version p;
     model_name := s_typed inp ModelName (model_name p);
     model_path := on_button ModelClear (λ _, EmptyString) (s_typed inp ModelPath (model_path p));
     animation_path := animation_path p;
     animation_paths := edit_animations (animation_paths p);
     shader_path := on_button ShaderClear (λ _, EmptyString) (s_typed inp ShaderPath (shader_path p));
     animation_crossfade_seconds := s_slid inp (animation_crossfade_seconds p);
     spring_bone_enabled := on_button SpringCheckbox negb (spring_bone_enabled p);
     look_at_enabled := on_button LookCheckbox negb (look_at_enabled p);
     act_idle := show_action_editor IdleAction (act_idle p);
     act_warning := show_action_editor WarningAction (act_warning p);
     act_critical := show_action_editor CriticalAction (act_critical p) |}.

Definition show_character_settings (u : UiSettings) (changes : SettingsChanges) : UiSettings * SettingsChanges :=
  let u := set_draft (edit_draft (avatar_draft u)) (avatar_profile_error u) u in
  let '(u, changes) :=
    if s_clicked inp ApplyButton then
      match normalized (avatar_draft u) with
      | Ok profile => (set_draft profile None u, {| ch_alerts_enabled := ch_alerts_enabled changes; ch_avatar_profile := Some profile; ch_preview_character := true |})
      | Err error => (set_draft (avatar_draft u) (Some error) u, changes)
      end
    else (u, changes) in
  (on_button ResetButton (set_draft default_profile None) u, changes).

(** While a save is pending the form is disabled: its widgets are drawn, and
    none of them answers. *)
Definition show_character_window (save_pending : bool) (u : UiSettings) : UiSettings * bool * SettingsChanges :=
  let '(u, changes) := if save_pending then (u, no_changes) else show_character_settings u no_changes in
  (u, negb (s_clicked inp WindowClose), changes).
End windows.

(** ** The draft *)

(** A draft the form can show: not more clips than a profile may have. *)
#[local] Opaque MAX_AVATAR_ANIMATION_PATHS.
Definition draft_ok (p : AvatarReactionProfile) : Prop := (length (animation_paths p) ≤ MAX_AVATAR_ANIMATION_PATHS)%nat.

Lemma add_animations_ok paths u : draft_ok (avatar_draft u) → draft_ok (avatar_draft (add_animations paths u)).
Proof.
  unfold draft_ok. revert u. induction paths as [|path paths IH]; intros u Hu; simpl; [done|]. case_bool_decide; [by apply IH|].
  case_match eqn:E; [done|]. apply Nat.leb_gt in E. apply IH. simpl. rewrite length_app. simpl. lia.
Qed.
Lemma load_background_draft open u : avatar_draft (load_background_image open u) = avatar_draft u ∧
  avatar_applied (load_background_image open u) = avatar_applied u ∧ avatar_applied_revision (load_background_image open u) = avatar_applied_revision u ∧
  avatar_profile_error (load_background_image open u) = avatar_profile_error u.
Proof. unfold load_background_image. destruct (is_empty _); [done|]. by destruct (load_background_texture _ _). Qed.
Lemma add_animations_applied paths u : avatar_applied (add_animations paths u) = avatar_applied u ∧
  avatar_applied_revision (add_animations paths u) = avatar_applied_revision u.
Proof.
  revert u. induction paths as [|path paths IH]; intros u; simpl; [done|]. case_bool_decide; [apply IH|]. destruct (_ <=? _)%nat; [done|].
  by destruct (IH (set_draft (set_animations (animation_paths (avatar_draft u) ++ [path]) (avatar_draft u)) None u)) as [-> ->].
Qed.
Lemma load_dropped_ok open dropped u : draft_ok (avatar_draft u) → draft_ok (avatar_draft (load_dropped_assets open dropped u)).
Proof.
  intros Hu. unfold load_dropped_assets. set (u1 := match dropped_asset_path dropped "vrm" with Some _ => _ | None => _ end).
  assert (draft_ok (avatar_draft u1)) as H1 by (unfold u1; by destruct (dropped_asset_path dropped "vrm")). apply (add_animations_ok (dropped_asset_paths dropped "vrma")) in H1.
  set (u2 := add_animations _ u1) in *. clearbody u2. clear u1. set (u3 := match dropped_asset_path dropped "wgsl" with Some _ => _ | None => _ end).
  assert (draft_ok (avatar_draft u3)) as H3 by (unfold u3; by destruct (dropped_asset_path dropped "wgsl")). clearbody u3. destruct (_ || _); [done|].
  destruct (dropped_image_path dropped); [|done]. by rewrite (proj1 (load_background_draft _ _)).
Qed.
Lemma load_dropped_applied open dropped u : avatar_applied (load_dropped_assets open dropped u) = avatar_applied u ∧
  avatar_applied_revision (load_dropped_assets open dropped u) = avatar_applied_revision u.
Proof.
  unfold load_dropped_assets. set (u1 := match dropped_asset_path dropped "vrm" with Some _ => _ | None => _ end).
  assert (avatar_applied u1 = avatar_applied u ∧ avatar_applied_revision u1 = avatar_applied_revision u) as [<- <-] by (unfold u1; by destruct (dropped_asset_path dropped "vrm")).
  destruct (add_animations_applied (dropped_asset_paths dropped "vrma") u1) as [<- <-]. set (u2 := add_animations _ u1).
  set (u3 := match dropped_asset_path dropped "wgsl" with Some _ => _ | None => _ end).
  assert (avatar_applied u3 = avatar_applied u2 ∧ avatar_applied_revision u3 = avatar_applied_revision u2) as [<- <-] by (unfold u3; by destruct (dropped_asset_path dropped "wgsl")).
  destruct (_ || _); [done|]. destruct (dropped_image_path dropped) as [path|]; [|done].
  by destruct (load_background_draft open (set_image path (background_image u3) (background_image_error u3) u3)) as (_ & -> & -> & _).
Qed.

Lemma edit_animations_ok inp paths : (length paths ≤ MAX_AVATAR_ANIMATION_PATHS)%nat → (length (edit_animations inp paths) ≤ MAX_AVATAR_ANIMATION_PATHS)%nat.
Proof.
  intros Hp. unfold edit_animations. set (edited := imap _ paths). assert (length edited = length paths) as He by apply length_imap.
  assert (length (remove_animation inp edited) ≤ length edited)%nat as Hr.
  { unfold remove_animation. destruct (foldl _ _ _) as [index|]; [|done]. rewrite length_app, length_take, length_drop. lia. }
  destruct (Nat.ltb_spec (length (remove_animation inp edited)) MAX_AVATAR_ANIMATION_PATHS); simpl; [|lia]. destruct (s_clicked inp AnimationAdd); [|lia].
  rewrite length_app. simpl. lia.
Qed.

Lemma normalized_draft_ok p q : normalized p = Ok q → draft_ok q.
Proof.
  intros Hn. unfold normalized in Hn. apply bind_Ok in Hn as (? & _ & Hn). apply bind_Ok in Hn as ([] & Hv & [= <-]).
  validate_steps Hv. by apply Nat.ltb_ge in E5.
Qed.

(** The parts of the settings that are about the character. *)
Definition character_part (u : UiSettings) : AvatarReactionProfile * Z * AvatarReactionProfile * option string :=
  (avatar_applied u, avatar_applied_revision u, avatar_draft u, avatar_profile_error u).

Lemma load_background_part open u : character_part (load_background_image open u) = character_part u.
Proof. unfold load_background_image. destruct (is_empty _); [done|]. by destruct (load_background_texture _ _). Qed.
Lemma system_background_part system u : character_part (sync_system_background system u) = character_part u.
Proof. unfold sync_system_background. by destruct (_ && _). Qed.
Lemma show_window_part inp alerts_enabled u : let r := show_window inp alerts_enabled u in
  character_part r.1.1 = character_part u ∧ ch_avatar_profile r.2 = None.
Proof.
  simpl. split; [|unfold show_alert_settings, on_button; by destruct (s_clicked inp AlertsCheckbox)].
  assert (∀ b f u, character_part (f u) = character_part u → character_part (on_button inp b f u) = character_part u) as Hb.
  { intros b f v Hf. unfold on_button. by destruct (s_clicked inp b). }
  assert (∀ {A} (l : list A) f u, (∀ x u, character_part (f u x) = character_part u) → character_part (foldl f u l) = character_part u) as Hf.
  { intros A l. induction l as [|x l IH]; intros f v Hx; simpl; [done|]. by rewrite IH. }
  rewrite <- (system_background_part (s_system inp) u). generalize (sync_system_background (s_system inp) u). intros v.
  unfold show_background. rewrite Hb by done. rewrite Hb by apply load_background_part.
  change (character_part (set_image ?p ?i ?e ?w)) with (character_part w). rewrite Hf by (intros; by rewrite Hb).
  unfold show_appearance. apply Hf. intros mode w. rewrite Hb; [done|]. unfold sync_background_for_appearance. by destruct (background_follows_appearance _).
Qed.

(** What the form gives to the dashboard: the draft on an [Apply]. *)
Lemma character_window_ok inp save_pending u : draft_ok (avatar_draft u) → let r := show_character_window inp save_pending u in
  draft_ok (avatar_draft r.1.1) ∧ avatar_applied r.1.1 = avatar_applied u ∧ avatar_applied_revision r.1.1 = avatar_applied_revision u ∧
  ch_alerts_enabled r.2 = None ∧
  ∀ p, ch_avatar_profile r.2 = Some p → save_pending = false ∧ s_clicked inp ApplyButton = true ∧ normalized (edit_draft inp (avatar_draft u)) = Ok p.
Proof.
  intros Hu. unfold show_character_window. destruct save_pending; [done|]. unfold show_character_settings.
  set (u0 := set_draft _ _ u). assert (draft_ok (avatar_draft u0)) as H0 by (by apply edit_animations_ok).
  assert (∀ v : UiSettings, draft_ok (avatar_draft v) → avatar_applied v = avatar_applied u → avatar_applied_revision v = avatar_applied_revision u →
    let w := on_button inp ResetButton (set_draft default_profile None) v in
    draft_ok (avatar_draft w) ∧ avatar_applied w = avatar_applied u ∧ avatar_applied_revision w = avatar_applied_revision u) as Hr.
  { intros v Hv E1 E2. simpl. unfold on_button. destruct (s_clicked inp ResetButton); [|done]. split; [|done]. unfold draft_ok. simpl. lia. }
  destruct (s_clicked inp ApplyButton); [destruct (normalized (avatar_draft u0)) as [p|e] eqn:En|]; simpl.
  - destruct (Hr (set_draft p None u0)) as (R1 & R2 & R3); [by eapply normalized_draft_ok|done..|]. split_and!; [done..|]. by intros q [= <-].
  - by destruct (Hr (set_draft (avatar_draft u0) (Some e) u0)) as (R1 & R2 & R3).
  - by destruct (Hr u0) as (R1 & R2 & R3).
Qed.
