(* ===== verification/FeView.v ===== *)
(** * The frames of the control room (skid-monitor-fe, view.rs, app.rs,
      pages/detail.rs)

    A frame takes in the ingress messages, then draws: it polls the save of
    the character profile, follows the applied profile, shows the overview or
    the page of the selected node, handles the action of the overview, and
    shows the windows that are open.  The state is the dashboard
    (FeDashboard.v), the interface's own state (FeAgents.v, FeSettings.v), and
    the calls made on the model cache and the character panels, which
    VrmStage.v interprets.  What egui answers is the argument of a frame. *)

From S2P Require Import Prelude RustStr Otlp Json RustFloat ReceiverLoop FeFormat FeSignal FeAlert FeEdge FeProfile FeStorage FeDashboard FeDashInv FeDashRun VrmJson VrmShader VrmCache VrmStage FeAgents FeSettings.

(** ** detail.rs *)

Definition sample_matches_key (key : string) (sample : MetricSample) : bool := bool_decide (edge_key (ms_endpoint sample) (ms_node sample) = key).
Definition event_matches_node (node : NodeSummary) (event : EventRow) : bool :=
  contains (ev_message event) (ns_node node) || contains (ev_message event) (ns_endpoint node).

Record DetailPageData := {
  dp_node : NodeSummary;
  dp_metrics : list MetricSample;
  dp_events : list EventRow;
  dp_character : option AvatarPresenterInput;   (* shown in place of the table *)
}.
Definition selected_key (selected : option string) (s : DashboardState) : option string :=
  selected ≫= λ key, if bool_decide (is_Some (ds_nodes s !! key)) then Some key else None.
Definition detail_page_data (s : DashboardState) (key : string) (show_avatar : bool) : option DetailPageData :=
  node ← ds_nodes s !! key;
  Some {| dp_node := node;
          dp_metrics := filter (λ sample, sample_matches_key key sample = true) (ds_metrics s);
          dp_events := filter (λ event, event_matches_node node event = true) (ds_events s);
          dp_character := if show_avatar then Some (for_node [node] (ds_alerts s) (ds_avatar_profile s)) else None |}.

(** The buttons of the header, of a node's page and of the preview. *)
Inductive ViewButton := HeaderCharacter | HeaderSettings | DetailAgents | DetailMetrics | DetailCharacter | PreviewClose.
Record ViewInput := {
  v_clicked : ViewButton → bool;
  v_agents : AgentsInput;
  v_settings : SettingsInput;    (* the settings window, and the dropped files *)
  v_character : SettingsInput;   (* the character window *)
  v_saved : TryRecv (result string ());   (* the channel of the pending save *)
  v_panel : Panel;
  v_preview : Panel;
}.

(** The page drawn, whether the operator goes back, and [show_avatar]. *)
Definition detail_show (inp : ViewInput) (s : DashboardState) (key : string) (show_avatar : bool) : option DetailPageData * bool * bool :=
  match ds_nodes s !! key with
  | None => (None, false, show_avatar)
  | Some _ =>
    let show_avatar := if v_clicked inp DetailMetrics then false else show_avatar in
    let show_avatar := if v_clicked inp DetailCharacter then true else show_avatar in
    (detail_page_data s key show_avatar, v_clicked inp DetailAgents, show_avatar)
  end.

(** ** view.rs *)

Record ControlRoomUiState := {
  selected_node_key : option string;
  overview : OverviewState;
  settings_open : bool;
  character_settings_open : bool;
  character_preview_open : bool;
  ui_show_avatar : bool;
  settings : UiSettings;
  avatar_model_revision : Z;
  ui_stage : list StageEvent;   (* the calls on [avatar_model] and the panels so far *)
}.
Definition ui_new (avatar_profile : AvatarReactionProfile) (avatar_profile_revision model_revision : Z) : ControlRoomUiState :=
  {| selected_node_key := None; overview := overview_default; settings_open := false; character_settings_open := false;
     character_preview_open := negb (is_empty (trim (model_path avatar_profile))); ui_show_avatar := false;
     settings := settings_new avatar_profile avatar_profile_revision; avatar_model_revision := model_revision;
     ui_stage := [CacheDoes (Sync avatar_profile)] |}.

(** Field updates. *)
Definition set_selected (key : option string) (u : ControlRoomUiState) : ControlRoomUiState :=
  {| selected_node_key := key; overview := overview u; settings_open := settings_open u; character_settings_open := character_settings_open u;
     character_preview_open := character_preview_open u; ui_show_avatar := ui_show_avatar u; settings := settings u;
     avatar_model_revision := avatar_model_revision u; ui_stage := ui_stage u |}.
Definition set_overview (page : OverviewState) (u : ControlRoomUiState) : ControlRoomUiState :=
  {| selected_node_key := selected_node_key u; overview := page; settings_open := settings_open u;
     character_settings_open := character_settings_open u; character_preview_open := character_preview_open u;
     ui_show_avatar := ui_show_avatar u; settings := settings u; avatar_model_revision := avatar_model_revision u; ui_stage := ui_stage u |}.
Definition set_windows (settings_window character_window preview : bool) (u : ControlRoomUiState) : ControlRoomUiState :=
  {| selected_node_key := selected_node_key u; overview := overview u; settings_open := settings_window;
     character_settings_open := character_window; character_preview_open := preview; ui_show_avatar := ui_show_avatar u;
     settings := settings u; avatar_model_revision := avatar_model_revision u; ui_stage := ui_stage u |}.
Definition set_show_avatar (show_avatar : bool) (u : ControlRoomUiState) : ControlRoomUiState :=
  {| selected_node_key := selected_node_key u; overview := overview u; settings_open := settings_open u;
     character_settings_open := character_settings_open u; character_preview_open := character_preview_open u;
     ui_show_avatar := show_avatar; settings := settings u; avatar_model_revision := avatar_model_revision u; ui_stage := ui_stage u |}.
Definition set_settings (v : UiSettings) (u : ControlRoomUiState) : ControlRoomUiState :=
  {| selected_node_key := selected_node_key u; overview := overview u; settings_open := settings_open u;
     character_settings_open := character_settings_open u; character_preview_open := character_preview_open u;
     ui_show_avatar := ui_show_avatar u; settings := v; avatar_model_revision := avatar_model_revision u; ui_stage := ui_stage u |}.
Definition set_model_revision (revision : Z) (u : ControlRoomUiState) : ControlRoomUiState :=
  {| selected_node_key := selected_node_key u; overview := overview u; settings_open := settings_open u;
     character_settings_open := character_settings_open u; character_preview_open := character_preview_open u;
     ui_show_avatar := ui_show_avatar u; settings := settings u; avatar_model_revision := revision; ui_stage := ui_stage u |}.
Definition does (e : StageEvent) (u : ControlRoomUiState) : ControlRoomUiState :=
  {| selected_node_key := selected_node_key u; overview := overview u; settings_open := settings_open u;
     character_settings_open := character_settings_open u; character_preview_open := character_preview_open u;
     ui_show_avatar := ui_show_avatar u; settings := settings u; avatar_model_revision := avatar_model_revision u;
     ui_stage := ui_stage u ++ [e] |}.

Section view.
Context (clock : nat → Reading) (local : Z → option string).
Abbreviation State := (DashboardState * ControlRoomUiState)%type.

Definition handle_overview_action (action : AgentOverviewAction) (st : State) : State :=
  let '(s, u) := st in
  let page := overview u in
  match action with
  | Select key => (s, set_overview (select_agent page) (set_selected (Some key) u))
  | StartAdd => (s, set_overview (start_add page) u)
  | CancelAdd => (s, set_overview (cancel_add page) u)
  | SaveAdd endpoint node service =>
    match register_agent clock local endpoint node service s with
    | (Ok _, s) => (s, set_overview (registered_agent page) u)
    | (Err error, s) => (s, set_overview (rejected_agent error page) u)
    end
  | RequestRemove key => (s, set_overview (request_remove key page) u)
  | ConfirmRemove key =>
    match remove_agent clock local key s with
    | (Ok _, s) => (s, set_overview (removed_agent page) u)
    | (Err error, s) => (s, set_overview (rejected_remove error page) u)
    end
  | CancelRemove => (s, set_overview (cancel_remove page) u)
  | SaveListener addr =>
    match add_listener clock local addr s with
    | (Ok _, s) => (s, set_overview (bound_listener page) u)
    | (Err error, s) => (s, set_overview (rejected_listener error page) u)
    end
  | RequestRemoveListener addr => (s, set_overview (request_remove_listener addr page) u)
  | ConfirmRemoveListener addr =>
    match remove_listener clock local addr s with
    | (Ok _, s) => (s, set_overview (removed_listener page) u)
    | (Err error, s) => (s, set_overview (rejected_listener error page) u)
    end
  | CancelRemoveListener => (s, set_overview (cancel_remove_listener page) u)
  end.

Definition apply_settings_changes (changes : SettingsChanges) (st : State) : State :=
  let '(s, u) := st in
  let s := match ch_alerts_enabled changes with Some enabled => toggle_alerts clock local enabled s | None => s end in
  match ch_avatar_profile changes with
  | None => (s, u)
  | Some profile =>
    match dash_set_avatar_profile profile s with
    | (Err error, s) =>
      (push_settings_error clock local ("character profile rejected: " +:+ error) s,
       set_settings (reject_avatar_profile error (settings u)) u)
    | (Ok _, s) =>
      (s, if ch_preview_character changes then set_windows (settings_open u) (character_settings_open u) true u else u)
    end
  end.

Definition show_settings_window (inp : ViewInput) (st : State) : State :=
  let '(s, u) := st in
  let '(v, still_open, changes) := show_window (v_settings inp) (ds_alerts_enabled s) (settings u) in
  apply_settings_changes changes (s, set_windows still_open (character_settings_open u) (character_preview_open u) (set_settings v u)).
Definition show_character_settings_window (inp : ViewInput) (st : State) : State :=
  let '(s, u) := st in
  let '(v, still_open, changes) := show_character_window (v_character inp) (bool_decide (is_Some (ds_pending_avatar_profile s))) (settings u) in
  apply_settings_changes changes (s, set_windows (settings_open u) still_open (character_preview_open u) (set_settings v u)).
Definition show_character_preview (inp : ViewInput) (st : State) : State :=
  let '(s, u) := st in
  let input := for_node (take 1 (btree_iter (ds_nodes s)).*2) (ds_alerts s) (ds_avatar_profile s) in
  (s, set_windows (settings_open u) (character_settings_open u) (negb (v_clicked inp PreviewClose)) (does (Shows input (v_preview inp)) u)).

(** What a frame draws. *)
Inductive PageShown := OverviewPage (listed : AgentList) (events : list EventRow) | DetailPage (data : option DetailPageData).

(** The first part of [show]: the save is polled, and the settings and the
    model cache follow the applied profile. *)
Definition follow_profile (inp : ViewInput) (st : State) : State :=
  let '(s, u) := st in
  let '(saved, s) := poll_avatar_profile_save clock local (v_saved inp) s in
  let u := match saved with Some (Err error) => set_settings (reject_avatar_profile error (settings u)) u | _ => u end in
  let u := set_settings (sync_avatar_profile (ds_avatar_profile s) (ds_avatar_profile_revision s) (settings u)) u in
  let u := if avatar_model_revision u =? ds_avatar_model_revision s then u
           else set_model_revision (ds_avatar_model_revision s) (does (CacheDoes Invalidate) u) in
  (s, does (CacheDoes (Sync (ds_avatar_profile s))) u).
(** The dropped files and the background. *)
Definition take_dropped (inp : ViewInput) (u : ControlRoomUiState) : ControlRoomUiState :=
  set_settings (sync_system_background (s_system (v_settings inp))
    (load_dropped_assets (s_open (v_settings inp)) (s_dropped (v_settings inp)) (settings u))) u.
(** [header::show]: of two buttons, the later one counts. *)
Definition header_show (inp : ViewInput) (u : ControlRoomUiState) : ControlRoomUiState :=
  if v_clicked inp HeaderSettings then set_windows true (character_settings_open u) (character_preview_open u) u
  else if v_clicked inp HeaderCharacter then set_windows (settings_open u) true (character_preview_open u) u
  else u.
Definition page_show (inp : ViewInput) (st : State) : PageShown * State :=
  let '(s, u) := st in
  let key := selected_key (selected_node_key u) s in
  let u := set_selected key u in
  match key with
  | Some key =>
    let '(data, back, show_avatar) := detail_show inp s key (ui_show_avatar u) in
    let u := set_show_avatar show_avatar u in
    let u := match data ≫= dp_character with Some input => does (Shows input (v_panel inp)) u | None => u end in
    (DetailPage data, (s, if back then set_selected None u else u))
  | None =>
    let '(page, listed, action) := overview_show (v_agents inp) s (overview u) in
    let u := set_overview page u in
    (OverviewPage listed (ds_events s),
     match action with Some action => handle_overview_action action (s, u) | None => (s, u) end)
  end.
(** [if self.ui_state.settings_open { .. }] and the other windows. *)
Definition windows_show (inp : ViewInput) (st : State) : State :=
  let st := if settings_open st.2 then show_settings_window inp st else st in
  let st := if character_settings_open st.2 then show_character_settings_window inp st else st in
  if character_preview_open st.2 then show_character_preview inp st else st.

Definition view_show (inp : ViewInput) (st : State) : PageShown * State :=
  let '(s, u) := follow_profile inp st in
  let u := header_show inp (take_dropped inp u) in
  let '(page, st) := page_show inp (s, u) in
  (page, windows_show inp st).

(** ** app.rs *)

(** [ControlRoomApp::ui]: the messages the ingress has, then the view. *)
Definition app_ui (messages : list IngressMessage) (inp : ViewInput) (st : State) : PageShown * State :=
  let '(s, u) := st in view_show inp (drain_ingress clock local messages s, u).
(** [ControlRoomApp::new], with the dashboard that was restored. *)
Definition app_new (control : IngressControl) (s : DashboardState) : State :=
  let s := set_ingress control s in
  (s, ui_new (ds_avatar_profile s) (ds_avatar_profile_revision s) (ds_avatar_model_revision s)).

(** A frame, or a step of another thread: of the one that loads models, or
    the end of the storage worker or of the receiver loop. *)
Inductive AppEvent :=
| Frame (messages : list IngressMessage) (inp : ViewInput)
| LoaderTakes
| LoaderFinishes (files : string → FileReply)
| LoaderStops
| StorageEnds
| ReceiverEnds.
Definition receiver_gone (c : IngressControl) : IngressControl := {| ic_sent := ic_sent c; ic_gone := true |}.
Definition app_step (st : State) (e : AppEvent) : State :=
  match e with
  | Frame messages inp => (app_ui messages inp st).2
  | LoaderTakes => (st.1, does (CacheDoes Take) st.2)
  | LoaderFinishes files => (st.1, does (CacheDoes (Finish files)) st.2)
  | LoaderStops => (st.1, does (CacheDoes Stop) st.2)
  | StorageEnds => (set_storage (storage_gone <$> ds_storage st.1) st.1, st.2)
  | ReceiverEnds => (set_ingress_control (receiver_gone <$> ds_ingress_control st.1) st.1, st.2)
  end.
Definition run_app (events : list AppEvent) (st : State) : State := foldl app_step st events.
End view.

(** * What the frames of the control room keep

    Whatever is clicked, typed and dropped, a frame changes the dashboard only
    by its operations ([app_keeps_invariant]), and nothing is removed unless
    it was confirmed after it was asked for ([removal_confirmed]).  The
    character that is drawn is the one of the applied profile
    ([app_shows_character]). *)

(** ** The operations of the dashboard *)

Definition profile_part (s : DashboardState) := (ds_avatar_profile s, ds_avatar_profile_revision s, ds_avatar_model_revision s, ds_pending_avatar_profile s).
(** The removals of listeners that were requested. *)
Definition removals (s : DashboardState) : list string :=
  match ds_ingress_control s with
  | Some c => omap (λ command, match command with RemoveListener addr => Some addr | _ => None end) (ic_sent c)
  | None => []
  end.
(** No node is gone, no removal was requested. *)
Definition grown (s s' : DashboardState) : Prop := dom (ds_nodes s) ⊆ dom (ds_nodes s') ∧ removals s' = removals s.
Definition calm (s s' : DashboardState) : Prop := profile_part s' = profile_part s ∧ grown s s'.
#[export] Instance calm_preorder : PreOrder calm.
Proof. split; [done|]. intros a b c [P1 [N1 R1]] [P2 [N2 R2]]. split; [congruence|]. split; [set_solver|congruence]. Qed.
#[export] Instance grown_preorder : PreOrder grown.
Proof. split; [done|]. intros a b c [N1 R1] [N2 R2]. split; [set_solver|congruence]. Qed.

Section ops.
Context (clock : nat → Reading) (local : Z → option string).

Lemma foldl_calm {A} (f : DashboardState → A → DashboardState) l s : (∀ s x, calm s (f s x)) → calm s (foldl f s l).
Proof. intros Hf. revert s. induction l as [|x l IH]; intros s; simpl; [done|]. etransitivity; [apply Hf|apply IH]. Qed.
Lemma push_event_calm kind message s : calm s (push_event clock local kind message s).
Proof. done. Qed.
Lemma push_alert_calm change s : calm s (push_alert_change clock local change s).
Proof. destruct change; [|done]. simpl. unfold persist_alert. by destruct (ds_storage s). Qed.
Lemma observe_alert_calm o s : calm s (observe_alert clock local o s).
Proof. unfold observe_alert. destruct (observe (ds_alerts s) o) as [change alerts]. apply (push_alert_calm change (set_alerts alerts s)). Qed.
Lemma observe_alerts_calm os s : calm s (observe_alerts clock local os s).
Proof. unfold observe_alerts. destruct (ds_alerts_enabled s); [|done]. apply foldl_calm. intros; apply observe_alert_calm. Qed.
Lemma store_node_calm key entry kind s : calm s (store_node clock key entry kind s).
Proof. unfold store_node. destruct (observe_node _ _ _ _) as [edge edges]. split; [done|]. split; [|done]. simpl. set_solver. Qed.
Lemma severity_calm sample s : calm s (update_edge_alert_severity clock sample s).
Proof. unfold update_edge_alert_severity. by destruct (set_node_severity _ _ _ _ _) as [[edge|] edges]. Qed.
Lemma ingest_sample_calm s sample : calm s (ingest_sample clock local s sample).
Proof.
  unfold ingest_sample. set (s1 := push_history _ _). assert (calm s s1) as H1.
  { unfold s1, push_history. etransitivity; [apply (store_node_calm (edge_key (ms_endpoint sample) (ms_node sample)) (sample_entry (rd_instant (reading clock s)) sample (ds_nodes s !! edge_key (ms_endpoint sample) (ms_node sample))) "metrics")|].
    change (store_node _ _ _ _ _) with (observe_metric_sample clock sample s). by destruct (ms_numeric sample). }
  etransitivity; [exact H1|]. destruct (ds_alerts_enabled s1); [|done]. etransitivity; [apply observe_alert_calm|].
  etransitivity; [apply severity_calm|]. done.
Qed.
Lemma ingest_signal_calm listener signal s : calm s (ingest_signal clock local listener signal s).
Proof.
  destruct signal as [request|request|request]; simpl.
  - etransitivity; [|apply push_event_calm]. etransitivity; [|apply foldl_calm, ingest_sample_calm]. done.
  - etransitivity; [|apply push_event_calm]. etransitivity; [|apply store_node_calm]. done.
  - etransitivity; [|apply push_event_calm]. etransitivity; [|apply store_node_calm]. done.
Qed.
Lemma observe_message_calm s m : calm s (observe_message clock local s m).
Proof.
  destruct m as [addrs|listener signal|listener error|error]; simpl.
  - unfold observe_listening. etransitivity; [|apply observe_alerts_calm]. done.
  - unfold observe_signal_message. etransitivity; [|apply ingest_signal_calm]. etransitivity; [|apply observe_alerts_calm]. by destruct (ds_listening_label s).
  - unfold dash_receiver_error. set (s1 := observe_alerts _ _ _ _). assert (calm s s1) as H1 by (etransitivity; [|apply observe_alerts_calm]; done). by destruct (ds_listening_label s1).
  - unfold dash_extension_error. etransitivity; [|apply observe_alerts_calm]. done.
Qed.
Lemma drain_calm messages s : calm s (drain_ingress clock local messages s).
Proof. apply foldl_calm, observe_message_calm. Qed.

Lemma register_calm endpoint node service s : calm s (register_agent clock local endpoint node service s).2.
Proof.
  unfold register_agent. destruct (is_empty (trim endpoint)); [done|]. case_bool_decide; [done|]. simpl. etransitivity; [|apply push_event_calm]. apply store_node_calm.
Qed.
Lemma request_listener_spec addr refuse what command message s : let s' := (request_listener clock local addr refuse what command message s).2 in
  profile_part s' = profile_part s ∧ ds_nodes s' = ds_nodes s ∧
  (removals s' = removals s ∨ removals s' = removals s ++ match command with RemoveListener addr => [addr] | _ => [] end).
Proof.
  unfold request_listener. destruct (if is_empty addr then _ else _); [split_and!; [done..|by left]|].
  destruct (ds_ingress_control s) as [c|] eqn:Ec; [|split_and!; [done..|by left]]. unfold control_send. destruct (ic_gone c); [split_and!; [done..|by left]|].
  split_and!; [done..|right]. unfold removals. simpl. rewrite Ec, omap_app. by destruct command.
Qed.
Lemma add_listener_calm addr s : calm s (add_listener clock local addr s).2.
Proof. unfold add_listener. edestruct request_listener_spec as (P & N & [R|R]); (split; [exact P|]; split; [rewrite N; done|rewrite R; by rewrite ?app_nil_r]). Qed.
Lemma toggle_calm enabled s : calm s (toggle_alerts clock local enabled s).
Proof.
  unfold toggle_alerts. case_bool_decide; [done|]. destruct enabled; [done|]. destruct (clear_severities _ _) as [cleared edges]. etransitivity; [|apply push_event_calm].
  etransitivity; [|apply foldl_calm; done]. done.
Qed.
Lemma remove_agent_spec key s : let s' := (remove_agent clock local key s).2 in
  profile_part s' = profile_part s ∧ removals s' = removals s ∧ dom (ds_nodes s') = dom (ds_nodes s) ∖ {[key]}.
Proof.
  unfold remove_agent. destruct (ds_nodes s !! key) eqn:E; simpl; [split_and!; [done..|apply dom_delete_L]|]. split_and!; [done..|].
  apply not_elem_of_dom in E. symmetry. apply difference_disjoint_L. set_solver.
Qed.

(** The profiles the dashboard has fit the form. *)
Definition profiles_ok (s : DashboardState) : Prop := draft_ok (ds_avatar_profile s) ∧ ∀ p, ds_pending_avatar_profile s = Some p → draft_ok p.
Lemma calm_profiles s s' : calm s s' → profiles_ok s → profiles_ok s'.
Proof. intros [P _]. unfold profiles_ok, profile_part in *. injection P as -> _ _ ->. done. Qed.
(** What the settings do to the dashboard: the applied profile stays. *)
Definition applied_part (s : DashboardState) := (ds_avatar_profile s, ds_avatar_profile_revision s, ds_avatar_model_revision s).
Definition settled (s s' : DashboardState) : Prop := applied_part s' = applied_part s ∧ grown s s' ∧ (profiles_ok s → profiles_ok s').
#[export] Instance settled_preorder : PreOrder settled.
Proof. split; [done|]. intros a b c (P1 & G1 & O1) (P2 & G2 & O2). split; [congruence|]. split; [by etransitivity|auto]. Qed.
Lemma calm_settled s s' : calm s s' → settled s s'.
Proof. intros C. pose proof (calm_profiles _ _ C) as Hp. destruct C as [P G]. split; [|done]. unfold profile_part, applied_part in *. by injection P as -> -> -> _. Qed.
Lemma set_profile_settled p s : settled s (dash_set_avatar_profile p s).2.
Proof.
  unfold dash_set_avatar_profile. destruct (normalized p) as [q|e] eqn:En; [|done]. destruct (ds_storage s) as [st|]; [|done].
  destruct (ds_pending_avatar_profile s); [done|]. unfold queue_avatar_profile_save. destruct (ss_gone st); [done|]. split; [done|]. split; [done|].
  intros [H1 _]. split; [done|]. simpl. intros ? [= <-]. by eapply normalized_draft_ok.
Qed.
Lemma commit_spec profile s : let s' := commit_avatar_profile clock local profile s in
  grown s s' ∧ ds_avatar_profile s' = profile ∧ ds_pending_avatar_profile s' = ds_pending_avatar_profile s.
Proof. unfold commit_avatar_profile. by destruct (negb _ || _ || _). Qed.
Lemma poll_spec r s : let s' := (poll_avatar_profile_save clock local r s).2 in grown s s' ∧ (profiles_ok s → profiles_ok s').
Proof.
  unfold poll_avatar_profile_save. destruct (ds_pending_avatar_profile s) as [p|] eqn:Ep; [|done].
  assert (∀ e, let s' := push_event clock local "settings" e (set_pending_avatar_profile None s) in grown s s' ∧ (profiles_ok s → profiles_ok s')) as He.
  { intros e. split; [done|]. intros [H1 _]. by split. }
  destruct r as [[[]|e]| |]; simpl; [|apply He|done|apply He].
  destruct (commit_spec p (set_pending_avatar_profile None s)) as (G & P & Q). split; [exact G|]. intros [_ H2]. split; [rewrite P; by apply H2|]. by rewrite Q.
Qed.
End ops.

(** ** The parts of a frame *)

Section frames.
Context (clock : nat → Reading) (local : Z → option string).
Abbreviation run := (run_ops clock local).

Definition settings_op (op : DashboardOp) : Prop :=
  match op with OpToggleAlerts _ | OpSetAvatarProfile _ | OpSettingsError _ => True | _ => False end.
Lemma settings_ops_settled ops s : Forall settings_op ops → settled s (run s ops).
Proof.
  revert s. induction ops as [|op ops IH]; intros s Ho; simpl; [done|]. apply Forall_cons in Ho as [H1 H2]. etransitivity; [|by apply IH].
  destruct op; try done; simpl; [apply set_profile_settled|apply calm_settled, toggle_calm].
Qed.

(** The interface's part that the windows leave alone. *)
Definition quiet_ui (u u' : ControlRoomUiState) : Prop :=
  overview u' = overview u ∧ selected_node_key u' = selected_node_key u ∧ avatar_model_revision u' = avatar_model_revision u ∧
  cache_events (ui_stage u') = cache_events (ui_stage u) ∧ avatar_applied (settings u') = avatar_applied (settings u) ∧
  avatar_applied_revision (settings u') = avatar_applied_revision (settings u) ∧
  (draft_ok (avatar_draft (settings u)) → draft_ok (avatar_draft (settings u'))).
Definition window_step (st st' : DashboardState * ControlRoomUiState) : Prop :=
  (∃ ops, st'.1 = run st.1 ops ∧ Forall settings_op ops) ∧ quiet_ui st.2 st'.2.
#[export] Instance quiet_ui_preorder : PreOrder quiet_ui.
Proof.
  split; [done|]. intros a b c (A1 & A2 & A3 & A4 & A5 & A6 & A7) (B1 & B2 & B3 & B4 & B5 & B6 & B7). split_and!; [congruence..|auto].
Qed.
#[export] Instance window_step_preorder : PreOrder window_step.
Proof.
  split; [intros st; split; [by exists []|done]|]. intros a b c [(o1 & E1 & F1) Q1] [(o2 & E2 & F2) Q2]. split; [|by etransitivity].
  exists (o1 ++ o2). split; [|by apply Forall_app]. rewrite E2, E1. unfold run_ops. by rewrite foldl_app.
Qed.

Lemma changes_step changes s u : window_step (s, u) (apply_settings_changes clock local changes (s, u)).
Proof.
  unfold apply_settings_changes. set (s1 := match ch_alerts_enabled changes with Some _ => _ | None => _ end).
  assert (∃ ops, s1 = run s ops ∧ Forall settings_op ops) as (ops & -> & Ho).
  { unfold s1. destruct (ch_alerts_enabled changes) as [enabled|]; [exists [OpToggleAlerts enabled]|exists []]; split; try done. by constructor. }
  destruct (ch_avatar_profile changes) as [p|]; [|split; [by exists ops|done]].
  assert (∀ more, Forall settings_op more → ∃ ops', run (run s ops) more = run s ops' ∧ Forall settings_op ops') as Hm.
  { intros more Hmore. exists (ops ++ more). split; [unfold run_ops; by rewrite foldl_app|by apply Forall_app]. }
  destruct (dash_set_avatar_profile p (run s ops)) as [[[]|e] s2] eqn:Ed; (assert (s2 = run (run s ops) [OpSetAvatarProfile p]) as -> by (simpl; by rewrite Ed)).
  - split; [by apply (Hm [OpSetAvatarProfile p]); repeat constructor|]. by destruct (ch_preview_character changes).
  - split; [|done]. simpl fst. apply (Hm [OpSetAvatarProfile p; OpSettingsError ("character profile rejected: " +:+ e)]). by repeat constructor.
Qed.
Lemma settings_window_step inp s u : window_step (s, u) (show_settings_window clock local inp (s, u)).
Proof.
  unfold show_settings_window. destruct (show_window_part (v_settings inp) (ds_alerts_enabled s) (settings u)) as [Hp _].
  destruct (show_window (v_settings inp) (ds_alerts_enabled s) (settings u)) as [[v still_open] changes]. cbn [fst snd] in Hp.
  etransitivity; [|apply changes_step]. split; [by exists []|]. injection Hp as E1 E2 E3 _. split_and!; try done. simpl. by rewrite E3.
Qed.
Lemma character_window_step inp s u : draft_ok (avatar_draft (settings u)) → window_step (s, u) (show_character_settings_window clock local inp (s, u)).
Proof.
  intros Hd. unfold show_character_settings_window. destruct (character_window_ok (v_character inp) (bool_decide (is_Some (ds_pending_avatar_profile s))) (settings u) Hd) as (D & A & R & _).
  destruct (show_character_window _ _ (settings u)) as [[v still_open] changes]. cbn [fst snd] in D, A, R.
  etransitivity; [|apply changes_step]. split; [by exists []|]. by split_and!.
Qed.
Lemma preview_step inp s u : window_step (s, u) (show_character_preview inp (s, u)).
Proof.
  split; [by exists []|]. split_and!; try done. simpl. unfold cache_events. rewrite omap_app. simpl. by rewrite app_nil_r.
Qed.
Lemma windows_step inp st : draft_ok (avatar_draft (settings st.2)) → window_step st (windows_show clock local inp st).
Proof.
  intros Hd. unfold windows_show. set (st1 := if settings_open st.2 then _ else st).
  assert (window_step st st1) as H1 by (unfold st1; destruct st as [s u]; destruct (settings_open _); [apply settings_window_step|done]).
  assert (draft_ok (avatar_draft (settings st1.2))) as Hd1 by by apply H1. set (st2 := if character_settings_open st1.2 then _ else st1).
  assert (window_step st1 st2) as H2 by (unfold st2; destruct st1 as [s u]; destruct (character_settings_open _); [by apply character_window_step|done]).
  etransitivity; [exact H1|]. etransitivity; [exact H2|]. destruct st2 as [s u]. destruct (character_preview_open _); [apply preview_step|done].
Qed.
End frames.

(** ** A frame *)

Record view_inv (p0 : Pool) (st : DashboardState * ControlRoomUiState) : Prop := {
  vi_dashboard : dashboard_inv p0 st.1;
  vi_profiles : profiles_ok st.1;
  vi_selected k : selected_node_key st.2 = Some k → is_Some (ds_nodes st.1 !! k);
  vi_pending k : pending_remove_key (overview st.2) = Some k → is_Some (ds_nodes st.1 !! k);
  vi_one : pending_remove_key (overview st.2) = None ∨ pending_remove_listener (overview st.2) = None;
  vi_draft : draft_ok (avatar_draft (settings st.2));
  vi_applied : avatar_applied (settings st.2) = ds_avatar_profile st.1 ∧ avatar_applied_revision (settings st.2) = ds_avatar_profile_revision st.1;
  vi_model : avatar_model_revision st.2 = ds_avatar_model_revision st.1 ∧
    wanted_now (cache_events (ui_stage st.2)) = Some (wanted_of (ds_avatar_profile st.1));
}.

Section frame.
Context (p0 : Pool) (Hp0 : pool_outcomes p0 = []).
Context (clock : nat → Reading) (local : Z → option string).
Abbreviation run := (run_ops clock local).

Lemma poll_applied r s : let s' := (poll_avatar_profile_save clock local r s).2 in
  applied_part s' = applied_part s ∨ ds_avatar_profile_revision s' ≠ ds_avatar_profile_revision s.
Proof.
  unfold poll_avatar_profile_save. destruct (ds_pending_avatar_profile s) as [p|]; [|by left]. destruct r as [[[]|e]| |]; simpl; [|by left..].
  right. assert (∀ z, wrapping_succ z ≠ z) as Hw by (intros z E; unfold wrapping_succ, Prelude.as_u64 in E; pose proof (Z.div_mod (z + 1) (2 ^ 64) ltac:(lia)); lia).
  unfold commit_avatar_profile. destruct (negb _ || _ || _); apply Hw.
Qed.

Lemma wanted_sync (l : list StageEvent) profile : wanted_now (cache_events (l ++ [CacheDoes (Sync profile)])) = Some (wanted_of profile).
Proof. unfold cache_events, wanted_now. by rewrite omap_app, foldl_app. Qed.
(** After the first part of a frame the interface has the applied profile. *)
Lemma follow_spec inp s u : profiles_ok s → draft_ok (avatar_draft (settings u)) →
  avatar_applied (settings u) = ds_avatar_profile s ∧ avatar_applied_revision (settings u) = ds_avatar_profile_revision s →
  let st' := follow_profile clock local inp (s, u) in
  st'.1 = run s [OpPollAvatarProfile (v_saved inp)] ∧ overview st'.2 = overview u ∧ selected_node_key st'.2 = selected_node_key u ∧
  draft_ok (avatar_draft (settings st'.2)) ∧
  (avatar_applied (settings st'.2) = ds_avatar_profile st'.1 ∧ avatar_applied_revision (settings st'.2) = ds_avatar_profile_revision st'.1) ∧
  (avatar_model_revision st'.2 = ds_avatar_model_revision st'.1 ∧ wanted_now (cache_events (ui_stage st'.2)) = Some (wanted_of (ds_avatar_profile st'.1))).
Proof.
  intros Hp Hd [Ha Hr]. unfold follow_profile. simpl. pose proof (poll_applied (v_saved inp) s) as Hpa. pose proof (proj2 (poll_spec clock local (v_saved inp) s) Hp) as [Hd1 _].
  destruct (poll_avatar_profile_save clock local (v_saved inp) s) as [saved s1]. cbn [fst snd] in *.
  set (u1 := match saved with Some (Err error) => _ | _ => u end).
  assert (overview u1 = overview u ∧ selected_node_key u1 = selected_node_key u ∧ avatar_draft (settings u1) = avatar_draft (settings u) ∧
    avatar_applied (settings u1) = avatar_applied (settings u) ∧ avatar_applied_revision (settings u1) = avatar_applied_revision (settings u)) as (U1 & U2 & U3 & U4 & U5)
    by (unfold u1; by destruct saved as [[[]|e]|]). clearbody u1.
  set (v := sync_avatar_profile _ _ _). assert (draft_ok (avatar_draft v) ∧ avatar_applied v = ds_avatar_profile s1 ∧ avatar_applied_revision v = ds_avatar_profile_revision s1) as (V1 & V2 & V3).
  { unfold v, sync_avatar_profile. destruct (Z.eqb_spec (avatar_applied_revision (settings u1)) (ds_avatar_profile_revision s1)) as [E|E]; [|done].
    rewrite U3, U4, E. split; [done|]. split; [|done]. destruct Hpa as [Hpa|Hpa]; [injection Hpa as -> _ _; done|congruence]. }
  clearbody v. destruct (_ =? _) eqn:Em; simpl; rewrite wanted_sync; (split_and!; try done; by apply Z.eqb_eq in Em).
Qed.

Lemma dropped_spec inp u : let u' := take_dropped inp u in
  overview u' = overview u ∧ selected_node_key u' = selected_node_key u ∧ avatar_model_revision u' = avatar_model_revision u ∧ ui_stage u' = ui_stage u ∧
  avatar_applied (settings u') = avatar_applied (settings u) ∧ avatar_applied_revision (settings u') = avatar_applied_revision (settings u) ∧
  (draft_ok (avatar_draft (settings u)) → draft_ok (avatar_draft (settings u'))).
Proof.
  unfold take_dropped. simpl. set (w := load_dropped_assets _ _ _). pose proof (system_background_part (s_system (v_settings inp)) w) as E. injection E as -> -> -> _.
  destruct (load_dropped_applied (s_open (v_settings inp)) (s_dropped (v_settings inp)) (settings u)) as [E1 E2]. split_and!; [done..|]. apply load_dropped_ok.
Qed.
Lemma header_quiet inp u : quiet_ui u (header_show inp u).
Proof. unfold header_show. destruct (v_clicked inp HeaderSettings); [done|]. by destruct (v_clicked inp HeaderCharacter). Qed.

(** *** The page *)

Definition action_ops (a : AgentOverviewAction) : list DashboardOp :=
  match a with
  | SaveAdd endpoint node service => [OpRegisterAgent endpoint node service]
  | ConfirmRemove key => [OpRemoveAgent key]
  | SaveListener addr => [OpAddListener addr]
  | ConfirmRemoveListener addr => [OpRemoveListener addr]
  | _ => []
  end.
Lemma handle_action_spec a s u : let st' := handle_overview_action clock local a (s, u) in
  st'.1 = run s (action_ops a) ∧ settings st'.2 = settings u ∧ avatar_model_revision st'.2 = avatar_model_revision u ∧ ui_stage st'.2 = ui_stage u ∧
  selected_node_key st'.2 = match a with Select key => Some key | _ => selected_node_key u end ∧
  (∀ k, pending_remove_key (overview st'.2) = Some k → a = RequestRemove k ∨ (pending_remove_key (overview u) = Some k ∧ ∀ k', a ≠ ConfirmRemove k')) ∧
  (∀ addr, pending_remove_listener (overview st'.2) = Some addr → a = RequestRemoveListener addr ∨ pending_remove_listener (overview u) = Some addr) ∧
  (pending_remove_key (overview u) = None ∨ pending_remove_listener (overview u) = None →
   pending_remove_key (overview st'.2) = None ∨ pending_remove_listener (overview st'.2) = None).
Proof.
  destruct a as [key| | |endpoint node service|key|key| |addr|addr|addr|]; simpl;
    try destruct (register_agent _ _ _ _ _ _) as [[?|?] ?]; try destruct (remove_agent _ _ _ _) as [[?|?] ?];
    try destruct (add_listener _ _ _ _) as [[?|?] ?]; try destruct (remove_listener _ _ _ _) as [[?|?] ?]; simpl; split_and!; try done; try naive_solver.
Qed.

(** What an action does to the nodes and the requested removals. *)
Lemma action_effect a s : let s' := run s (action_ops a) in
  profile_part s' = profile_part s ∧
  (∀ k, is_Some (ds_nodes s !! k) → is_Some (ds_nodes s' !! k) ∨ a = ConfirmRemove k) ∧
  (removals s' = removals s ∨ ∃ addr, a = ConfirmRemoveListener addr ∧ removals s' = removals s ++ [trim addr]).
Proof using clock local.
  clear p0 Hp0.
  assert (∀ s', calm s s' → profile_part s' = profile_part s ∧ (∀ k, is_Some (ds_nodes s !! k) → is_Some (ds_nodes s' !! k) ∨ a = ConfirmRemove k) ∧
    (removals s' = removals s ∨ ∃ addr, a = ConfirmRemoveListener addr ∧ removals s' = removals s ++ [trim addr])) as Hc.
  { intros s' [P [N R]]. split; [done|]. split; [|by left]. intros k Hk. left. apply elem_of_dom, N. by apply elem_of_dom. }
  destruct a; try (apply Hc; done); simpl.
  - apply Hc, register_calm.
  - destruct (remove_agent_spec clock local key s) as (P & R & N). split; [done|]. split; [|by left]. intros k Hk.
    destruct (decide (k = key)) as [->|Hne]; [by right|left]. apply elem_of_dom. rewrite N. apply elem_of_dom in Hk. set_solver.
  - apply Hc, add_listener_calm.
  - unfold remove_listener. edestruct request_listener_spec as (P & N & R). split; [exact P|]. split; [intros k Hk; left; by rewrite N|]. destruct R as [R|R]; [by left|right; eauto].
Qed.

(** The action of a page, if it has one: the only one a frame can have. *)
Record page_acts (inp : ViewInput) (s : DashboardState) (u : ControlRoomUiState) (action : option AgentOverviewAction)
    (st' : DashboardState * ControlRoomUiState) : Prop := {
  pa_asked a : action = Some a → asked (v_agents inp) s (overview u) a;
  pa_run : st'.1 = run s (from_option action_ops [] action);
  pa_settings : settings st'.2 = settings u;
  pa_revision : avatar_model_revision st'.2 = avatar_model_revision u;
  pa_cache : cache_events (ui_stage st'.2) = cache_events (ui_stage u);
  pa_selected k : selected_node_key st'.2 = Some k → is_Some (ds_nodes s !! k) ∧ ∀ k', action ≠ Some (ConfirmRemove k');
  pa_pending k : pending_remove_key (overview st'.2) = Some k →
    action = Some (RequestRemove k) ∨ (pending_remove_key (overview u) = Some k ∧ ∀ k', action ≠ Some (ConfirmRemove k'));
  pa_listener addr : pending_remove_listener (overview st'.2) = Some addr →
    action = Some (RequestRemoveListener addr) ∨ pending_remove_listener (overview u) = Some addr;
  pa_one : pending_remove_key (overview u) = None ∨ pending_remove_listener (overview u) = None →
    pending_remove_key (overview st'.2) = None ∨ pending_remove_listener (overview st'.2) = None;
}.
Lemma page_spec inp s u : nodes_keyed (ds_nodes s) → ∃ action, page_acts inp s u action (page_show clock local inp (s, u)).2.
Proof.
  intros Hk. unfold page_show. destruct (selected_key (selected_node_key u) s) as [key|] eqn:Es.
  - exists None. assert (is_Some (ds_nodes s !! key)) as Hn.
    { unfold selected_key in Es. destruct (selected_node_key u); simpl in Es; [|done]. case_bool_decide; [|done]. by injection Es as ->. }
    destruct (detail_show inp s key _) as [[data back] show_avatar]. set (u1 := match data ≫= dp_character with Some _ => _ | None => _ end).
    assert (overview u1 = overview u ∧ settings u1 = settings u ∧ avatar_model_revision u1 = avatar_model_revision u ∧
      cache_events (ui_stage u1) = cache_events (ui_stage u) ∧ selected_node_key u1 = Some key) as (U1 & U2 & U3 & U4 & U5).
    { unfold u1. destruct (data ≫= dp_character); split_and!; try done. unfold cache_events. simpl. rewrite omap_app. simpl. by rewrite app_nil_r. }
    clearbody u1. destruct back; (split; simpl; rewrite ?U1, ?U5; try done; try (intros ? [= <-]; by split); intros ? ?; by right).
  - pose proof (overview_action_asked (v_agents inp) s (overview u) Hk) as Ha. destruct (overview_keeps (v_agents inp) s (overview u)) as (K1 & K2 & _).
    cbn [overview set_selected]. destruct (overview_show (v_agents inp) s (overview u)) as [[page listed] action]. cbn [fst snd] in *. exists action.
    destruct action as [a|]; cbn [snd].
    + destruct (handle_action_spec a s (set_overview page (set_selected None u))) as (E1 & E2 & E3 & E4 & E5 & E6 & E7 & E8). cbn [overview set_overview] in *. rewrite K1, ?K2 in *.
      split; [intros a' [= <-]; by apply Ha|done|done|done|by rewrite E4|..].
      * intros k. rewrite E5. destruct a; try done. intros [= ->]. split; [by apply (Ha (Select k) eq_refl)|done].
      * intros k Hp. destruct (E6 k Hp) as [->|[? Hno]]; [by left|right]. split; [done|]. intros k' [= Ek]. by apply (Hno k').
      * intros addr Hp. destruct (E7 addr Hp) as [->|?]; [by left|by right].
      * done.
    + split; simpl; rewrite ?K1, ?K2; try done; by right.
Qed.

(** A frame: the messages and the save, an action that was asked for, and
    changes of settings. *)
Record frame_acts (messages : list IngressMessage) (inp : ViewInput) (st : DashboardState * ControlRoomUiState)
    (action : option AgentOverviewAction) (st' : DashboardState * ControlRoomUiState) : Prop := {
  fa_asked a : action = Some a → asked (v_agents inp) (run st.1 [OpDrain messages; OpPollAvatarProfile (v_saved inp)]) (overview st.2) a;
  fa_nodes k : is_Some (ds_nodes st.1 !! k) → is_Some (ds_nodes st'.1 !! k) ∨ action = Some (ConfirmRemove k);
  fa_removals : removals st'.1 = removals st.1 ∨ ∃ addr, action = Some (ConfirmRemoveListener addr) ∧ removals st'.1 = removals st.1 ++ [trim addr];
  fa_pending k : pending_remove_key (overview st'.2) = Some k → action = Some (RequestRemove k) ∨ pending_remove_key (overview st.2) = Some k;
  fa_listener addr : pending_remove_listener (overview st'.2) = Some addr →
    action = Some (RequestRemoveListener addr) ∨ pending_remove_listener (overview st.2) = Some addr;
}.
Lemma frame_spec messages inp st : view_inv p0 st →
  let st' := (app_ui clock local messages inp st).2 in view_inv p0 st' ∧ ∃ action, frame_acts messages inp st action st'.
Proof.
  destruct st as [s u]. intros [Di Pi Si Ki Oi Ri Ai Mi]. cbn [fst snd] in *. unfold app_ui, view_show.
  set (s0 := drain_ingress clock local messages s). pose proof (drain_calm clock local messages s) as C0. change (calm s s0) in C0.
  pose proof (calm_profiles _ _ C0 Pi) as P0. assert (avatar_applied (settings u) = ds_avatar_profile s0 ∧ avatar_applied_revision (settings u) = ds_avatar_profile_revision s0) as A0.
  { destruct C0 as [Cp _]. unfold profile_part in Cp. injection Cp as -> -> _ _. done. }
  destruct (follow_spec inp s0 u P0 Ri A0) as (F1 & F2 & F3 & F4 & F5 & F6). destruct (follow_profile clock local inp (s0, u)) as [s1 u1]. cbn [fst snd] in *.
  assert (s1 = run s [OpDrain messages; OpPollAvatarProfile (v_saved inp)]) as E1 by (rewrite F1; done).
  pose proof (run_ops_inv p0 Hp0 clock local [OpDrain messages; OpPollAvatarProfile (v_saved inp)] s Di) as D1. rewrite <- E1 in D1.
  destruct (poll_spec clock local (v_saved inp) s0) as [G1 P1]. specialize (P1 P0). change (poll_avatar_profile_save clock local (v_saved inp) s0).2 with (run s0 [OpPollAvatarProfile (v_saved inp)]) in G1, P1.
  rewrite <- F1 in G1, P1. assert (grown s s1) as G by (etransitivity; [apply C0|exact G1]). clear F1 G1 A0 P0 C0.
  destruct (dropped_spec inp u1) as (T1 & T2 & T3 & T4 & T5 & T6 & T7). destruct (header_quiet inp (take_dropped inp u1)) as (Q1 & Q2 & Q3 & Q4 & Q5 & Q6 & Q7).
  set (u2 := header_show inp (take_dropped inp u1)) in *. clearbody u2.
  destruct (page_spec inp s1 u2) as (action & [B1 B2 B3 B4 B5 B6 B7 B8 B9]); [apply D1|].
  destruct (page_show clock local inp (s1, u2)) as [page st2]. cbn [fst snd] in *.
  assert (draft_ok (avatar_draft (settings st2.2))) as R2 by (rewrite B3; auto).
  destruct (windows_step clock local inp st2 R2) as [(ops & W1 & Wo) (W2 & W3 & W4 & W5 & W6 & W7 & W8)]. cbv zeta.
  set (st3 := windows_show clock local inp st2) in *. clearbody st3.
  assert (profile_part st2.1 = profile_part s1 ∧ (∀ k, is_Some (ds_nodes s1 !! k) → is_Some (ds_nodes st2.1 !! k) ∨ action = Some (ConfirmRemove k)) ∧
    (removals st2.1 = removals s1 ∨ ∃ addr, action = Some (ConfirmRemoveListener addr) ∧ removals st2.1 = removals s1 ++ [trim addr])) as (X1 & X2 & X3).
  { rewrite B2. destruct action as [a|]; simpl; [|split_and!; [done|by left|by left]]. destruct (action_effect a s1) as (X1 & X2 & X3).
    split; [done|]. split; [intros k Hk; destruct (X2 k Hk) as [?| ->]; [by left|by right]|]. destruct X3 as [?|(addr & -> & ?)]; [by left|right; eauto]. }
  destruct (settings_ops_settled clock local ops st2.1 Wo) as (Y1 & [Y2 Y3] & Y4). rewrite <- W1 in Y1, Y2, Y3, Y4.
  assert (applied_part st3.1 = applied_part s1) as Z1.
  { rewrite Y1. unfold profile_part, applied_part in *. by injection X1 as -> -> -> _. }
  assert (∀ k, is_Some (ds_nodes st2.1 !! k) → is_Some (ds_nodes st3.1 !! k)) as Z2 by (intros k Hk; apply elem_of_dom, Y2; by apply elem_of_dom).
  assert (∀ k, is_Some (ds_nodes s !! k) → is_Some (ds_nodes s1 !! k)) as Z3 by (intros k Hk; apply elem_of_dom, G; by apply elem_of_dom).
  unfold applied_part in Z1. injection Z1 as Z4 Z5 Z6. split.
  - split; rewrite ?W2, ?W3, ?W4, ?W5, ?W6, ?W7, ?B3, ?B4, ?B5, ?Z4, ?Z5, ?Z6.
    + rewrite W1, B2. by apply run_ops_inv, run_ops_inv.
    + apply Y4. unfold profiles_ok, profile_part in *. by injection X1 as -> _ _ ->.
    + intros k Hk. destruct (B6 k Hk) as [Hs Hno]. apply Z2. destruct (X2 k Hs) as [?|Ha]; [done|by destruct (Hno k)].
    + intros k Hk. apply Z2. destruct (B7 k Hk) as [Ha|[Hp Hno]].
      * rewrite B2, Ha. simpl. by apply (B1 _ Ha).
      * rewrite Q1, T1, F2 in Hp. destruct (X2 k (Z3 k (Ki k Hp))) as [?|Ha]; [done|by destruct (Hno k)].
    + apply B9. by rewrite Q1, T1, F2.
    + apply W8. rewrite B3. auto.
    + by rewrite Q5, Q6, T5, T6.
    + by rewrite Q3, Q4, T3, T4.
  - exists action. split; cbn [fst snd].
    + intros a Ha. rewrite <- E1. specialize (B1 a Ha). by rewrite Q1, T1, F2 in B1.
    + intros k Hk. destruct (X2 k (Z3 k Hk)) as [?|?]; [left; by apply Z2|by right].
    + rewrite Y3. destruct G as [_ G]. by rewrite <- G.
    + intros k. rewrite W2. intros Hk. destruct (B7 k Hk) as [?|[Hp _]]; [by left|right]. by rewrite Q1, T1, F2 in Hp.
    + intros addr. rewrite W2. intros Hk. destruct (B8 addr Hk) as [?|Hp]; [by left|right]. by rewrite Q1, T1, F2 in Hp.
Qed.
End frame.
