(* ===== verification/FeApp.v ===== *)
(** * Runs of the control room

    From a start on a database: frames with any input, and the other threads'
    steps between them. *)

From S2P Require Import Prelude RustStr Otlp Json RustFloat ReceiverLoop FeFormat FeSignal FeAlert FeEdge FeProfile FeStorage FeDashboard FeDashInv FeDashRun VrmJson VrmMtoon VrmGlb VrmOrder VrmGraph VrmBuffers VrmAnimation VrmFloat VrmHumanoid VrmRig VrmSpring VrmPlayback VrmMix VrmScene VrmDrawable VrmShader VrmLoad VrmModel VrmRuntime VrmWeights VrmFrame VrmCache VrmRender VrmDraws VrmStage FeAgents FeSettings FeView.

Section runs.
Context (p0 : Pool) (Hp0 : pool_outcomes p0 = []).
Context (clock : nat → Reading) (local : Z → option string).
Abbreviation State := (DashboardState * ControlRoomUiState)%type.
Implicit Types (st : State).

(** A step of another thread changes neither the nodes nor the page. *)
Definition step_acts st (e : AppEvent) st' : Prop :=
  match e with
  | Frame messages inp => ∃ action, frame_acts clock local messages inp st action st'
  | _ => ds_nodes st'.1 = ds_nodes st.1 ∧ removals st'.1 = removals st.1 ∧ overview st'.2 = overview st.2
  end.
Lemma quiet_event e st : (∀ profile, e ≠ CacheDoes (Sync profile)) → e ≠ CacheDoes Invalidate → view_inv p0 st → view_inv p0 (st.1, does e st.2).
Proof.
  intros H1 H2 [Di Pi Si Ki Oi Ri Ai [Mi Wi]]. split; try done. split; [done|]. simpl. unfold cache_events, wanted_now. rewrite omap_app, foldl_app.
  destruct e as [[profile| | | |]|]; try done; by destruct (H1 profile).
Qed.
Lemma step_spec st e : view_inv p0 st → view_inv p0 (app_step clock local st e) ∧ step_acts st e (app_step clock local st e).
Proof.
  intros Hi. destruct e as [messages inp| |files| | |]; simpl.
  1: by apply frame_spec.
  1, 2, 3: (split; [by apply quiet_event|done]).
  - split; [|done]. pose proof (run_ops_inv p0 Hp0 clock local [OpStorageGone] st.1 (vi_dashboard _ _ Hi)) as Hd. destruct Hi. split; done.
  - destruct st as [s u]. cbn [fst snd]. destruct (ds_ingress_control s) as [c|] eqn:Ec; simpl.
    + pose proof (run_ops_inv p0 Hp0 clock local [OpSetIngress (receiver_gone c)] s (vi_dashboard _ _ Hi)) as Hd. destruct Hi. split; [by split|].
      split_and!; try done. unfold removals. by rewrite Ec.
    + assert (set_ingress_control None s = s) as -> by (destruct s; simpl in Ec; by subst). done.
Qed.
Lemma run_app_snoc events e st : run_app clock local (events ++ [e]) st = app_step clock local (run_app clock local events st) e.
Proof. unfold run_app. by rewrite foldl_app. Qed.
Lemma run_app_inv events st : view_inv p0 st → view_inv p0 (run_app clock local events st).
Proof. intros Hi. induction events as [|e events IH] using rev_ind; [done|]. rewrite run_app_snoc. by apply step_spec. Qed.

(** ** Removals *)

(** A frame with a click on [button] made [pending] hold [k], and it has held
    [k] since. *)
Definition pending_since st (button : AgentButton) (pending : OverviewState → option string) (k : string) (events : list AppEvent) : Prop :=
  ∃ before messages inp middle, events = before ++ Frame messages inp :: middle ∧ clicked (v_agents inp) button = true ∧
    ∀ m1 m2, middle = m1 ++ m2 → pending (overview (run_app clock local (before ++ Frame messages inp :: m1) st).2) = Some k.
Lemma pending_origin st button pending k events :
  pending (overview st.2) = None →
  (∀ events e, pending (overview (run_app clock local (events ++ [e]) st).2) = Some k →
    (∃ messages inp, e = Frame messages inp ∧ clicked (v_agents inp) button = true) ∨ pending (overview (run_app clock local events st).2) = Some k) →
  pending (overview (run_app clock local events st).2) = Some k → pending_since st button pending k events.
Proof.
  intros H0 Hs. induction events as [|e events IH] using rev_ind; intros Hp; [simpl in Hp; congruence|].
  destruct (Hs events e Hp) as [(messages & inp & -> & Hc)|Hb].
  - exists events, messages, inp, []. split; [done|]. split; [done|]. intros m1 m2 E. symmetry in E. apply app_nil in E as [-> ->]. done.
  - destruct (IH Hb) as (before & messages & inp & middle & -> & Hc & Hm). exists before, messages, inp, (middle ++ [e]).
    split; [by rewrite <- app_assoc|]. split; [done|]. intros m1 m2 E. destruct m2 as [|x m2 _] using rev_ind.
    + rewrite app_nil_r in E. subst m1. rewrite <- app_assoc in Hp. exact Hp.
    + rewrite app_assoc in E. apply app_inj_tail in E as [E _]. by apply (Hm m1 m2).
Qed.

Lemma agent_pending events e st k : view_inv p0 st → pending_remove_key (overview (run_app clock local (events ++ [e]) st).2) = Some k →
  (∃ messages inp, e = Frame messages inp ∧ clicked (v_agents inp) (RowRemove k) = true) ∨ pending_remove_key (overview (run_app clock local events st).2) = Some k.
Proof.
  intros Hi. rewrite run_app_snoc. destruct (step_spec _ e (run_app_inv events _ Hi)) as [_ Ha]. destruct e as [messages inp| |files| | |]; unfold step_acts in Ha;
    try (destruct Ha as (_ & _ & ->); by right).
  destruct Ha as (action & A). intros Hp. destruct (fa_pending _ _ _ _ _ _ _ A k Hp) as [Ea|?]; [left|by right].
  exists messages, inp. split; [done|]. by destruct (fa_asked _ _ _ _ _ _ _ A _ Ea).
Qed.
Lemma listener_pending events e st addr : view_inv p0 st → pending_remove_listener (overview (run_app clock local (events ++ [e]) st).2) = Some addr →
  (∃ messages inp, e = Frame messages inp ∧ clicked (v_agents inp) (ListenerRemove addr) = true) ∨ pending_remove_listener (overview (run_app clock local events st).2) = Some addr.
Proof.
  intros Hi. rewrite run_app_snoc. destruct (step_spec _ e (run_app_inv events _ Hi)) as [_ Ha]. destruct e as [messages inp| |files| | |]; unfold step_acts in Ha;
    try (destruct Ha as (_ & _ & ->); by right).
  destruct Ha as (action & A). intros Hp. destruct (fa_listener _ _ _ _ _ _ _ A addr Hp) as [Ea|?]; [left|by right].
  exists messages, inp. split; [done|]. by destruct (fa_asked _ _ _ _ _ _ _ A _ Ea).
Qed.
End runs.

(** ** The start *)

Section app.
Context `{OrderLaws} (clock : nat → Reading) (local : Z → option string).

(** The application started on the database [p]. *)
Definition app_on (control : IngressControl) (rc : nat → RestoreClock) (path : string) (p : Pool) : DashboardState * ControlRoomUiState :=
  app_new control (dashboard_on clock local rc path p).

Lemma restored_draft_ok (o : option AvatarReactionProfile) : draft_ok (default default_profile (o ≫= λ profile, result_ok (normalized profile))).
Proof. destruct o as [q|]; simpl; [|apply Nat.le_0_l]. destruct (normalized q) as [q'|] eqn:En; simpl; [by eapply normalized_draft_ok|apply Nat.le_0_l]. Qed.
Lemma app_start control rc path p : pool_outcomes p = [] → table_wf (edge_state (pool_db p)) → FeDashRun.small (edge_state (pool_db p)) →
  view_inv p (app_on control rc path p).
Proof.
  intros Ho Hw Hs. pose proof (dashboard_on_inv clock local rc path p Ho Hw Hs) as Hd. pose proof (run_ops_inv p Ho clock local [OpSetIngress control] _ Hd) as Hd'.
  assert (profiles_ok (dashboard_on clock local rc path p)) as Hp.
  { unfold dashboard_on, dashboard_new. destruct (restore _ _ _) as [nodes edges]. set (s := Build_DashboardState _ _ _ _ _ _ _ _ _ _ _ _ _ _ _ _ _ _).
    assert (profiles_ok s) as H1; [|by destruct (si_message _)]. split; [apply restored_draft_ok|done]. }
  split; simpl; try done; [by left|exact (proj1 Hp)].
Qed.

(** C28: Whatever the ingress and the databases send, and whatever is clicked,
    typed and dropped on the frames of the application, in any order with the
    steps of its other threads, the dashboard keeps its invariant, the
    selected node and the one to be removed exist, not both an agent and a
    listener wait to be removed, the draft of the profile has at most eight
    clips, and after every step the settings, the revision of the model and
    the cache's request are those of the applied profile. *)
Theorem app_keeps_invariant control rc path p events : pool_outcomes p = [] → table_wf (edge_state (pool_db p)) → FeDashRun.small (edge_state (pool_db p)) →
  view_inv p (run_app clock local events (app_on control rc path p)).
Proof. intros Ho Hw Hs. apply run_app_inv; [done|]. by apply app_start. Qed.

(** C29: Nothing is removed by one click.  A node disappears only in a frame
    that confirms it, and a listener's removal is requested only in such a
    frame; its [Remove] was clicked in an earlier frame, and from then on it
    was the one pending. *)
Theorem removal_confirmed control rc path p events e : pool_outcomes p = [] → table_wf (edge_state (pool_db p)) → FeDashRun.small (edge_state (pool_db p)) →
  let start := app_on control rc path p in
  let before := run_app clock local events start in
  let after := app_step clock local before e in
  (∀ k, is_Some (ds_nodes before.1 !! k) → ds_nodes after.1 !! k = None →
    ∃ messages inp, e = Frame messages inp ∧ clicked (v_agents inp) (RowConfirm k) = true ∧
      pending_since clock local start (RowRemove k) pending_remove_key k events) ∧
  (removals after.1 = removals before.1 ∨
   ∃ messages inp addr, e = Frame messages inp ∧ removals after.1 = removals before.1 ++ [trim addr] ∧
     clicked (v_agents inp) (ListenerConfirm addr) = true ∧ pending_since clock local start (ListenerRemove addr) pending_remove_listener addr events).
Proof.
  intros Ho Hw Hs start before after. pose proof (app_start control rc path p Ho Hw Hs) as H1. change (view_inv p start) in H1.
  destruct (step_spec p Ho clock local before e (run_app_inv p Ho clock local events start H1)) as [_ Ha]. change (step_acts clock local before e after) in Ha.
  assert (ds_nodes after.1 = ds_nodes before.1 → ∀ k, is_Some (ds_nodes before.1 !! k) → ds_nodes after.1 !! k ≠ None) as Hsame by (intros -> k [? ->]; done).
  destruct e as [messages inp| |files| | |]; unfold step_acts in Ha;
    try (destruct Ha as (N & R & _); split; [intros k H2 H3; by destruct (Hsame N k H2)|by left]).
  destruct Ha as (action & A). split.
  - intros k Hk Hn. destruct (fa_nodes _ _ _ _ _ _ _ A k Hk) as [[? E]|Ea]; [congruence|]. destruct (fa_asked _ _ _ _ _ _ _ A _ Ea) as [Hc Hp].
    exists messages, inp. split; [done|]. split; [done|]. apply pending_origin; [done| |done]. intros evs e. by apply (agent_pending p Ho).
  - destruct (fa_removals _ _ _ _ _ _ _ A) as [?|(addr & Ea & R)]; [by left|right]. destruct (fa_asked _ _ _ _ _ _ _ A _ Ea) as (Hc & Hp & _).
    exists messages, inp, addr. split; [done|]. split; [done|]. split; [done|]. apply pending_origin; [done| |done]. intros evs e. by apply (listener_pending p Ho).
Qed.
End app.

(** ** A node that is added, and removed *)

#[local] Transparent gmap_empty.
Module AppDemo.
Definition idle : AgentsInput := {| clicked := λ _, false; typed := λ _ text, text; age := λ _, 0 |}.
Definition press (b : AgentButton → bool) : AgentsInput := {| clicked := b; typed := λ _ text, text; age := λ _, 0 |}.
Definition filled : AgentsInput :=
  {| clicked := λ b, match b with FormSave => true | _ => false end;
     typed := λ field text, match field with FormEndpoint => "127.0.0.1:9300" | FormNode => "agent-a" | _ => text end; age := λ _, 0 |}.
Definition no_settings : SettingsInput :=
  {| s_clicked := λ _, false; s_typed := λ _ text, text; s_slid := λ x, x; s_system := None; s_dropped := []; s_open := λ _, Err "no image" |}.
Definition frame (agents : AgentsInput) : AppEvent :=
  Frame [] {| v_clicked := λ _, false; v_agents := agents; v_settings := no_settings; v_character := no_settings; v_saved := RecvEmpty;
              v_panel := StageDemo.panel; v_preview := StageDemo.panel |}.
Definition control : IngressControl := {| ic_sent := []; ic_gone := false |}.
Definition events : list AppEvent :=
  [frame (press (λ b, match b with AddAgentButton => true | _ => false end)); frame filled;
   frame (press (λ b, match b with RowRemove _ => true | _ => false end)); LoaderTakes; frame idle].
Definition confirm : AppEvent := frame (press (λ b, match b with RowConfirm _ => true | _ => false end)).
Definition key : string := "127.0.0.1:9300|agent-a".
End AppDemo.
Abbreviation demo_start := (@app_on demo_storage demo_clock (λ _, None) AppDemo.control demo_restore "state.db" empty_pool).
Abbreviation demo_app events := (run_app demo_clock (λ _, None) events demo_start).

Lemma empty_small : FeDashRun.small (edge_state (pool_db empty_pool)).
Proof. unfold FeDashRun.small. change (edge_state (pool_db empty_pool)) with (∅ : gmap string EdgeRow). rewrite map_size_empty. lia. Qed.
Lemma app_keeps_invariant_witness : view_inv empty_pool (demo_app AppDemo.events).
Proof.
  apply (@app_keeps_invariant demo_storage demo_laws demo_clock (λ _, None) AppDemo.control demo_restore "state.db" empty_pool AppDemo.events).
  - reflexivity.
  - apply map_Forall_empty.
  - exact empty_small.
Defined.
Lemma removal_confirmed_witness : pending_since demo_clock (λ _, None) demo_start (RowRemove AppDemo.key) pending_remove_key AppDemo.key AppDemo.events.
Proof.
  destruct (@removal_confirmed demo_storage demo_laws demo_clock (λ _, None) AppDemo.control demo_restore "state.db" empty_pool AppDemo.events AppDemo.confirm) as [C _].
  - reflexivity.
  - apply map_Forall_empty.
  - exact empty_small.
  - destruct (C AppDemo.key) as (messages & inp & _ & _ & P).
    + apply (bool_decide_eq_true_1 (is_Some _)). vm_refl.
    + vm_refl.
    + exact P.
Defined.

(** * The character in the control room

    The calls that the frames make on the model cache and on the panels,
    interleaved with the thread that loads models, run on the renderer of
    VrmStage.v: the character on the GPU is always the one of the profile that
    the dashboard has applied, never of a draft, and moves as that profile
    says. *)

(** ** Single-precision numbers *)

(** The fields of type [f32] hold single-precision numbers. *)
Definition float_ok (p : AvatarReactionProfile) : Prop := valid (animation_crossfade_seconds p).
Definition floats (s : DashboardState) : Prop := float_ok (ds_avatar_profile s) ∧ ∀ p, ds_pending_avatar_profile s = Some p → float_ok p.
Definition panel_ok (panel : Panel) : Prop := is_finite (pn_time panel) = true ∧ valid (pn_time panel).
(** What egui answers: finite times; a slider gives a number for a number. *)
Definition view_input_ok (inp : ViewInput) : Prop :=
  panel_ok (v_panel inp) ∧ panel_ok (v_preview inp) ∧ ∀ x, valid x → valid (s_slid (v_character inp) x).
Definition app_event_ok (e : AppEvent) : Prop := match e with Frame _ inp => view_input_ok inp | _ => True end.

Lemma normalized_float p q : normalized p = Ok q → float_ok p → float_ok q.
Proof. unfold normalized. intros Hn. apply bind_Ok in Hn as (? & _ & Hn). by apply bind_Ok in Hn as (? & _ & [= <-]). Qed.
Lemma calm_floats s s' : calm s s' → floats s → floats s'.
Proof. intros [P _]. unfold floats, profile_part in *. by injection P as -> _ _ ->. Qed.

Section float_steps.
Context (clock : nat → Reading) (local : Z → option string).

Lemma poll_floats r s : floats s → floats (poll_avatar_profile_save clock local r s).2.
Proof.
  intros Hs. pose proof Hs as [H1 H2]. unfold poll_avatar_profile_save. destruct (ds_pending_avatar_profile s) as [p|] eqn:Ep; [|done].
  destruct r as [[[]|e]| |]; simpl; [|done|done|done].
  destruct (commit_spec clock local p (set_pending_avatar_profile None s)) as (_ & E1 & E2). split; [rewrite E1; by apply H2|by rewrite E2].
Qed.
Lemma set_profile_floats p s : float_ok p → floats s → floats (dash_set_avatar_profile p s).2.
Proof.
  intros Hp Hs. pose proof Hs as [H1 H2]. unfold dash_set_avatar_profile. destruct (normalized p) as [q|e] eqn:En; [|done]. destruct (ds_storage s) as [st|]; [|done].
  destruct (ds_pending_avatar_profile s) eqn:Ep; [done|]. unfold queue_avatar_profile_save. destruct (ss_gone st); [done|].
  split; [done|]. simpl. intros ? [= <-]. by eapply normalized_float.
Qed.
Lemma add_animations_float paths u : float_ok (avatar_draft u) → float_ok (avatar_draft (add_animations paths u)).
Proof.
  revert u. induction paths as [|path paths IH]; intros u Hu; simpl; [done|]. case_bool_decide; [by apply IH|]. case_match; [done|]. by apply IH.
Qed.
Lemma dropped_float inp u : float_ok (avatar_draft (settings u)) → float_ok (avatar_draft (settings (take_dropped inp u))).
Proof.
  intros Hu. unfold take_dropped. simpl. set (w := load_dropped_assets _ _ _). pose proof (system_background_part (s_system (v_settings inp)) w) as E. injection E as _ _ -> _.
  unfold w, load_dropped_assets. clear w. set (u1 := match dropped_asset_path _ "vrm" with Some _ => _ | None => _ end).
  assert (float_ok (avatar_draft u1)) as H1 by (unfold u1; by destruct (dropped_asset_path _ "vrm")). apply (add_animations_float (dropped_asset_paths (s_dropped (v_settings inp)) "vrma")) in H1.
  set (u2 := add_animations _ u1) in *. clearbody u2. set (u3 := match dropped_asset_path _ "wgsl" with Some _ => _ | None => _ end).
  assert (float_ok (avatar_draft u3)) as H3 by (unfold u3; by destruct (dropped_asset_path _ "wgsl")). clearbody u3. destruct (_ || _); [done|].
  destruct (dropped_image_path _) as [path|]; [|done]. by rewrite (proj1 (load_background_draft _ _)).
Qed.
Lemma changes_floats changes s u : (∀ p, ch_avatar_profile changes = Some p → float_ok p) → floats s → floats (apply_settings_changes clock local changes (s, u)).1.
Proof.
  intros Hp Hs. unfold apply_settings_changes. set (s1 := match ch_alerts_enabled changes with Some _ => _ | None => _ end).
  assert (floats s1) as H1 by (unfold s1; destruct (ch_alerts_enabled changes); [by eapply calm_floats, Hs; apply toggle_calm|done]). clearbody s1.
  destruct (ch_avatar_profile changes) as [p|]; [|done]. pose proof (set_profile_floats p s1 (Hp p eq_refl) H1) as H2.
  destruct (dash_set_avatar_profile p s1) as [[[]|e] s2]; [done|]. by eapply calm_floats, H2.
Qed.
Lemma changes_draft changes s u : avatar_draft (settings (apply_settings_changes clock local changes (s, u)).2) = avatar_draft (settings u) ∧
  ui_stage (apply_settings_changes clock local changes (s, u)).2 = ui_stage u.
Proof.
  unfold apply_settings_changes. destruct (ch_avatar_profile changes); [|done]. destruct (dash_set_avatar_profile _ _) as [[[]|e] s2]; [|done].
  by destruct (ch_preview_character changes).
Qed.
Lemma character_window_float inp save_pending u : (∀ x, valid x → valid (s_slid inp x)) → float_ok (avatar_draft u) →
  let r := show_character_window inp save_pending u in float_ok (avatar_draft r.1.1) ∧ ∀ p, ch_avatar_profile r.2 = Some p → float_ok p.
Proof.
  intros Hs Hu. unfold show_character_window. destruct save_pending; [done|]. unfold show_character_settings.
  set (u0 := set_draft _ _ u). assert (float_ok (avatar_draft u0)) as H0 by by apply Hs.
  assert (∀ v, float_ok (avatar_draft v) → float_ok (avatar_draft (on_button inp ResetButton (set_draft default_profile None) v))) as Hr.
  { intros v Hv. unfold on_button. by destruct (s_clicked inp ResetButton). }
  destruct (s_clicked inp ApplyButton); [destruct (normalized (avatar_draft u0)) as [p|e] eqn:En|]; simpl.
  - assert (float_ok p) by by eapply normalized_float. split; [by apply Hr|]. by intros q [= <-].
  - split; [by apply Hr|done].
  - split; [by apply Hr|done].
Qed.
End float_steps.

(** ** The calls on the cache and the panels *)

(** [finished]: what the loader thread has read. *)
Record stage_view (finished : (string → FileReply) → Prop) (st : DashboardState * ControlRoomUiState) : Prop := {
  sw_floats : floats st.1;
  sw_draft : float_ok (avatar_draft (settings st.2));
  sw_events : Forall event_ok (ui_stage st.2);
  sw_finished files : Finish files ∈ cache_events (ui_stage st.2) → finished files;
}.
(** A panel that was shown last shows the applied profile, for a node of the
    dashboard, if there is one, with its alerts: those of the dashboard, which
    a click in the settings may have cleared after the panel. *)
Definition shown_for (s : DashboardState) (nodes : list NodeSummary) (alerts : AlertStore) : Prop :=
  ((nodes = [] ∧ ds_nodes s = ∅) ∨ ∃ key node, ds_nodes s !! key = Some node ∧ nodes = [node]) ∧ (ds_alerts s = alerts ∨ ds_alerts s = no_alerts).
Definition last_shown (s : DashboardState) (log : list StageEvent) : Prop :=
  ∀ before input panel, log = before ++ [Shows input panel] →
    ∃ nodes alerts, shown_for s nodes alerts ∧ input = for_node nodes alerts (ds_avatar_profile s).

(** The last call is not that of a panel. *)
Definition nothing_shown (log : list StageEvent) : Prop := ∀ before input panel, log ≠ before ++ [Shows input panel].
Lemma nothing_last_shown s log : nothing_shown log → last_shown s log.
Proof. intros Hn before input panel E. by destruct (Hn before input panel). Qed.
Lemma nothing_shown_cache u e : nothing_shown (ui_stage (does (CacheDoes e) u)).
Proof. intros before input panel E. simpl in E. by apply app_inj_tail in E as [_ ?]. Qed.

Section later.
Context (clock : nat → Reading) (local : Z → option string).
(** What the windows do after a panel: the nodes stay, and the alerts, or none. *)
Definition later (s s' : DashboardState) : Prop := ds_nodes s' = ds_nodes s ∧ (ds_alerts s' = ds_alerts s ∨ ds_alerts s' = no_alerts).
Lemma persist_edges_later edges s : later s (foldl (λ s edge, persist_edge edge s) s edges).
Proof.
  revert s. induction edges as [|e edges IH]; intros s; simpl; [by split; [|left]|]. destruct (IH (persist_edge e s)) as [Hn Ha].
  assert (ds_nodes (persist_edge e s) = ds_nodes s ∧ ds_alerts (persist_edge e s) = ds_alerts s) as [En Ea] by (unfold persist_edge; by destruct (ds_storage s)).
  unfold later. by rewrite Hn, En, <- Ea.
Qed.
Lemma toggle_later enabled s : later s (toggle_alerts clock local enabled s).
Proof.
  unfold toggle_alerts. case_bool_decide; [by split; [|left]|]. destruct enabled; [by split; [|left]|]. destruct (clear_severities _ _) as [cleared edges].
  set (s1 := tick _ _). destruct (persist_edges_later cleared s1) as [Hn Ha]. split; [exact Hn|right]. by destruct Ha.
Qed.
Lemma changes_later changes s u : later s (apply_settings_changes clock local changes (s, u)).1.
Proof.
  unfold apply_settings_changes. set (s1 := match ch_alerts_enabled changes with Some _ => _ | None => _ end).
  assert (later s s1) as H1 by (unfold s1; destruct (ch_alerts_enabled changes); [apply toggle_later|by split; [|left]]). clearbody s1.
  destruct (ch_avatar_profile changes) as [p|]; [|done]. assert (∀ s2 r, dash_set_avatar_profile p s1 = (r, s2) → later s s2) as H2.
  { intros s2 r. unfold dash_set_avatar_profile. destruct (normalized p) as [q|e]; [|by intros [= _ <-]]. destruct (ds_storage s1) as [st|]; [|by intros [= _ <-]].
    destruct (ds_pending_avatar_profile s1); [by intros [= _ <-]|]. destruct (queue_avatar_profile_save _ _); by intros [= _ <-]. }
  destruct (dash_set_avatar_profile p s1) as [[[]|e] s2]; specialize (H2 _ _ eq_refl); exact H2.
Qed.
End later.
Lemma shown_later s s' nodes alerts : later s s' → shown_for s nodes alerts → shown_for s' nodes alerts.
Proof. intros [Hn Ha] [H1 H2]. split; [by rewrite Hn|]. destruct Ha as [->| ->]; auto. Qed.

Lemma stage_snoc finished s u e : stage_view finished (s, u) → event_ok e → (∀ files, e = CacheDoes (Finish files) → finished files) →
  stage_view finished (s, does e u).
Proof.
  intros [F D E Fi] He Hf. split; [done|done|by apply Forall_app; split; [|constructor]|]. intros files. simpl. unfold cache_events. rewrite omap_app, elem_of_app.
  intros [?|Hi]; [by apply Fi|]. destruct e as [e|]; simpl in Hi; [|by apply elem_of_nil in Hi]. apply list_elem_of_singleton in Hi as <-. by apply Hf.
Qed.
Lemma last_shown_snoc s u e : (∀ input panel, e = Shows input panel → ∃ nodes alerts, shown_for s nodes alerts ∧ input = for_node nodes alerts (ds_avatar_profile s)) →
  last_shown s (ui_stage (does e u)).
Proof. intros He before input panel E. simpl in E. apply app_inj_tail in E as [_ ->]. by eapply He. Qed.
(** Changes that neither call the cache nor touch the draft. *)
Lemma stage_same finished s u s' u' : stage_view finished (s, u) → floats s' → float_ok (avatar_draft (settings u')) → ui_stage u' = ui_stage u → stage_view finished (s', u').
Proof. intros [F D E Fi] Hs Hd Hu. split; simpl in *; by rewrite ?Hu. Qed.
Lemma panel_event nodes alerts profile panel : float_ok profile → panel_ok panel → event_ok (Shows (for_node nodes alerts profile) panel).
Proof. by intros Hf [H1 H2]. Qed.

Section stage_frames.
Context (clock : nat → Reading) (local : Z → option string) (finished : (string → FileReply) → Prop).

Lemma follow_stage inp s u : stage_view finished (s, u) → let st' := follow_profile clock local inp (s, u) in
  stage_view finished st' ∧ nothing_shown (ui_stage st'.2).
Proof.
  intros Hi. pose proof Hi as [F D E Fi]. unfold follow_profile. pose proof (poll_floats clock local (v_saved inp) s F) as F1.
  destruct (poll_avatar_profile_save clock local (v_saved inp) s) as [saved s1]. cbn [fst snd] in *.
  set (u1 := match saved with Some (Err error) => _ | _ => u end). assert (stage_view finished (s1, u1)) as H1.
  { apply (stage_same _ s u); [done|done|..]; unfold u1; by destruct saved as [[[]|e]|]. }
  clearbody u1. set (u2 := set_settings _ u1). assert (stage_view finished (s1, u2)) as H2.
  { apply (stage_same _ s1 u1); [done|done| |done]. simpl. unfold sync_avatar_profile. destruct (_ =? _); [exact (sw_draft _ _ H1)|exact (proj1 F1)]. }
  clearbody u2. destruct (avatar_model_revision u2 =? ds_avatar_model_revision s1).
  - split; [by apply stage_snoc|by apply nothing_shown_cache].
  - split; [|by apply nothing_shown_cache]. apply stage_snoc; [|done|done]. apply (stage_same _ s1 (does (CacheDoes Invalidate) u2)); [by apply stage_snoc|done|exact (sw_draft _ _ H2)|done].
Qed.
Lemma page_stage inp s u : view_input_ok inp → stage_view finished (s, u) → nothing_shown (ui_stage u) → let st' := (page_show clock local inp (s, u)).2 in
  stage_view finished st' ∧ last_shown st'.1 (ui_stage st'.2).
Proof.
  intros (Hp & _) Hi Hl. pose proof Hi as [F D E Fi]. cbn [fst snd] in *. unfold page_show. destruct (selected_key (selected_node_key u) s) as [key|].
  - destruct (detail_show inp s key (ui_show_avatar (set_selected (Some key) u))) as [[data back] show_avatar] eqn:Ed. set (u1 := set_show_avatar show_avatar (set_selected (Some key) u)).
    assert (stage_view finished (s, u1)) as H1 by (apply (stage_same _ s u); [done|exact F|exact D|done]). set (u2 := match data ≫= dp_character with Some _ => _ | None => _ end).
    assert (stage_view finished (s, u2) ∧ last_shown s (ui_stage u2)) as [H2 L2].
    { unfold u2. destruct (data ≫= dp_character) as [input|] eqn:Ei; [|split; [done|by apply nothing_last_shown]]. assert (∃ nodes, shown_for s nodes (ds_alerts s) ∧ input = for_node nodes (ds_alerts s) (ds_avatar_profile s)) as (nodes & Hsf & ->).
      { unfold detail_show, detail_page_data in Ed. destruct (ds_nodes s !! key) as [node|] eqn:Ek; injection Ed as <- _ _; [|done]. simpl in Ei. case_match; [|done]. injection Ei as <-.
        exists [node]. split; [|done]. split; [right; eauto|by left]. }
      split; [apply stage_snoc; [done|apply panel_event; [exact (proj1 F)|done]|done]|]. apply (last_shown_snoc s u1). intros input panel [= <- _]. eauto. }
    destruct back; [|done]. split; [apply (stage_same _ s u2); [done|exact F|exact (sw_draft _ _ H2)|done]|done].
  - destruct (overview_show (v_agents inp) s _) as [[page listed] action]. cbn [fst snd].
    destruct action as [a|]; cbn [snd].
    + destruct (handle_action_spec clock local a s (set_overview page (set_selected None u))) as (E1 & E2 & _ & E4 & _).
      destruct (action_effect clock local a s) as (P & _). rewrite <- E1 in P. destruct (handle_overview_action clock local a _) as [s' u']. cbn [fst snd] in *.
      split.
      * apply (stage_same _ s u); [done| |rewrite E2; exact D|by rewrite E4]. unfold floats. unfold profile_part in P. injection P as -> _ _ ->. exact F.
      * apply nothing_last_shown. by rewrite E4.
    + split; [apply (stage_same _ s u); [done|exact F|exact D|done]|]. by apply nothing_last_shown.
Qed.

(** What holds of the stage between the parts of a frame. *)
Definition stage_ok (st : DashboardState * ControlRoomUiState) : Prop := stage_view finished st ∧ last_shown st.1 (ui_stage st.2).
Lemma changes_stage changes s u : (∀ p, ch_avatar_profile changes = Some p → float_ok p) → stage_ok (s, u) → stage_ok (apply_settings_changes clock local changes (s, u)).
Proof.
  intros Hp [Hi Hl]. pose proof (changes_floats clock local changes s u Hp (sw_floats _ _ Hi)) as Hf. destruct (changes_draft clock local changes s u) as [Ed Es].
  pose proof (changes_later clock local changes s u) as Hlater. destruct (changes_step clock local changes s u) as [(ops & Eo & Ho) _]. destruct (settings_ops_settled clock local ops s Ho) as (Ea & _). cbn [fst] in Eo. rewrite <- Eo in Ea.
  destruct (apply_settings_changes clock local changes (s, u)) as [s' u']. cbn [fst snd] in *. split.
  - apply (stage_same _ s u); [done|done|rewrite Ed; exact (sw_draft _ _ Hi)|done].
  - unfold last_shown in *. cbn [fst snd] in *. rewrite Es. unfold applied_part in Ea. injection Ea as -> _ _.
    intros before input panel El. destruct (Hl before input panel El) as (nodes & alerts & Hsf & ->). exists nodes, alerts. split; [|done]. by eapply shown_later.
Qed.
Lemma stage_settings s u v windows : stage_ok (s, u) → float_ok (avatar_draft v) → stage_ok (s, set_windows windows.1.1 windows.1.2 windows.2 (set_settings v u)).
Proof. intros [Hi Hl] Hv. split; [|done]. apply (stage_same _ s u); [done|exact (sw_floats _ _ Hi)|done|done]. Qed.
Lemma windows_stage inp st : view_input_ok inp → stage_ok st → stage_ok (windows_show clock local inp st).
Proof.
  intros (_ & Hp & Hs) Hi. unfold windows_show. set (st1 := if settings_open st.2 then _ else st). assert (stage_ok st1) as H1.
  { unfold st1. destruct st as [s u]. destruct (settings_open _); [|done]. unfold show_settings_window.
    destruct (show_window_part (v_settings inp) (ds_alerts_enabled s) (settings u)) as [Ep Ec]. destruct (show_window _ _ (settings u)) as [[v still_open] changes]. cbn [fst snd] in *.
    apply changes_stage; [by rewrite Ec|]. apply (stage_settings s u v (still_open, character_settings_open u, character_preview_open u)); [done|].
    injection Ep as _ _ -> _. exact (sw_draft _ _ (proj1 Hi)). }
  clearbody st1. set (st2 := if character_settings_open st1.2 then _ else st1). assert (stage_ok st2) as H2.
  { unfold st2. destruct st1 as [s u]. destruct (character_settings_open _); [|done]. unfold show_character_settings_window.
    destruct (character_window_float (v_character inp) (bool_decide (is_Some (ds_pending_avatar_profile s))) (settings u) Hs (sw_draft _ _ (proj1 H1))) as [Hd Hc].
    destruct (show_character_window _ _ (settings u)) as [[v still_open] changes]. cbn [fst snd] in *. apply changes_stage; [done|].
    by apply (stage_settings s u v (settings_open u, still_open, character_preview_open u)). }
  clearbody st2. destruct st2 as [s u]. destruct (character_preview_open _); [|done]. destruct H2 as [H2 _]. unfold show_character_preview. split.
  - apply (stage_same _ s (does (Shows (for_node (take 1 (btree_iter (ds_nodes s)).*2) (ds_alerts s) (ds_avatar_profile s)) (v_preview inp)) u));
      [|exact (sw_floats _ _ H2)|exact (sw_draft _ _ H2)|done]. apply stage_snoc; [done|apply panel_event; [exact (proj1 (sw_floats _ _ H2))|done]|done].
  - apply (last_shown_snoc s u). intros input panel [= <- _]. exists (take 1 (btree_iter (ds_nodes s)).*2), (ds_alerts s). split; [|done]. split; [|by left].
    destruct (btree_iter (ds_nodes s)) as [|[key node] rest] eqn:Eb; [left; split; [done|]|right].
    { apply map_empty. intros k. destruct (ds_nodes s !! k) as [n|] eqn:Ek; [|done]. apply elem_of_btree_iter in Ek. rewrite Eb in Ek. by apply elem_of_nil in Ek. } exists key, node. split; [|done]. apply elem_of_btree_iter. rewrite Eb. by left.
Qed.
Lemma frame_stage messages inp st : view_input_ok inp → stage_ok st → stage_ok (app_ui clock local messages inp st).2.
Proof.
  intros Hv [Hi _]. destruct st as [s u]. unfold app_ui, view_show. set (s0 := drain_ingress clock local messages s).
  assert (stage_view finished (s0, u)) as H0 by (apply (stage_same _ s u); [done|by eapply calm_floats, (sw_floats _ _ Hi); apply drain_calm|exact (sw_draft _ _ Hi)|done]).
  destruct (follow_stage inp s0 u H0) as [H1 L1]. destruct (follow_profile clock local inp (s0, u)) as [s1 u1]. cbn [fst snd] in *.
  set (u2 := header_show inp (take_dropped inp u1)). assert (settings u2 = settings (take_dropped inp u1) ∧ ui_stage u2 = ui_stage u1) as [Es El]
    by (unfold u2, header_show; destruct (v_clicked inp HeaderSettings); [done|]; by destruct (v_clicked inp HeaderCharacter)).
  assert (stage_view finished (s1, u2)) as H2 by (apply (stage_same _ s1 u1); [done|exact (sw_floats _ _ H1)|rewrite Es; apply dropped_float, (sw_draft _ _ H1)|done]).
  assert (nothing_shown (ui_stage u2)) as L2 by by rewrite El. clearbody u2. destruct (page_stage inp s1 u2 Hv H2 L2) as (H3 & L3).
  destruct (page_show clock local inp (s1, u2)) as [page st2]. cbn [snd] in *. apply windows_stage; [done|by split].
Qed.
Lemma step_stage st e : app_event_ok e → (∀ files, e = LoaderFinishes files → finished files) → stage_ok st → stage_ok (app_step clock local st e).
Proof.
  intros He Hf Hi. destruct e as [messages inp| |files| | |]; simpl; [by apply frame_stage|..].
  1, 2, 3: (destruct st as [s u]; destruct Hi as [Hi _]; split; [apply stage_snoc; [done|done|]|by apply (last_shown_snoc s u)]; intros f [= <-]; by apply Hf).
  - destruct st as [s u]. destruct Hi as [Hi Hl]. split; [|done]. apply (stage_same _ s u); [done|exact (sw_floats _ _ Hi)|exact (sw_draft _ _ Hi)|done].
  - destruct st as [s u]. destruct Hi as [Hi Hl]. split; [|done]. apply (stage_same _ s u); [done|exact (sw_floats _ _ Hi)|exact (sw_draft _ _ Hi)|done].
Qed.
End stage_frames.

(** ** What the character shows *)

(** The alerts of the store that concern a node: its own, and those of the
    receiver it is connected to. *)
Definition concerns (alerts : AlertStore) (node : NodeSummary) (a : AlertSnapshot) : Prop :=
  (∃ key, FeAlert.active alerts !! key = Some a) ∧ al_endpoint a = ns_endpoint node ∧ (al_node a = ns_node node ∨ al_rule_id a = "receiver.error").
Definition worst (alerts : AlertStore) (node : NodeSummary) (severity : option AlertSeverity) : Prop :=
  match severity with
  | None => ∀ a, ¬ concerns alerts node a
  | Some Warning => (∃ a, concerns alerts node a) ∧ ∀ a, concerns alerts node a → al_severity a = Warning
  | Some Critical => ∃ a, concerns alerts node a ∧ al_severity a = Critical
  end.
(** What a profile says for a severity. *)
Definition reaction (profile : AvatarReactionProfile) (severity : option AlertSeverity) (action : AvatarAction) : Prop :=
  match severity with
  | None => action = act_idle profile
  | Some Warning => action = act_warning profile
  | Some Critical => action = act_critical profile
  end.
(** The rectangle of the character for each motion: it stands still, it swells
    about its centre, jumps up, or shakes sideways. *)
Definition moved `{Egui, Sine} (rect : Rect) (m : AvatarMotion) (seconds : f32) (r : Rect) : Prop :=
  let turns := f32_mul seconds F32_TAU in
  match m with
  | Still => r = rect
  | Pulse => ∃ scale, scale = f32_add f32_1 (f32_mul (f32_lit 4 100) (f32_sin turns)) ∧
      r = from_center_size (rect_center rect) (f32_mul (rect_size rect).1 scale, f32_mul (rect_size rect).2 scale)
  | Bounce => r = rect_translate rect (f32_0, f32_mul (f32_of_Z (-12)) (SFabs (f32_sin (f32_mul turns (f32_lit 15 10)))))
  | Shake => r = rect_translate rect (f32_mul (f32_of_Z 6) (f32_sin (f32_mul turns (f32_of_Z 8))), f32_0)
  end.
(** Where the character looks: at the pointer over the panel, at most 45
    degrees to a side and 30 up or down; ahead without one. *)
Definition looks `{Egui} (panel : Panel) (yaw pitch : f32) : Prop :=
  (∃ p, pn_pointer panel = Some p ∧ rect_contains (pn_rect panel) p = true ∧
     let half (side : f32) := f32_mul side (f32_lit 1 2) in
     let off (at_ middle side : f32) := f32_clamp (f32_div (f32_sub at_ middle) (half side)) (f32_of_Z (-1)) f32_1 in
     yaw = f32_mul (SFopp (off p.1 (rect_center (pn_rect panel)).1 (rect_size (pn_rect panel)).1)) (f32_of_Z 45) ∧
     pitch = f32_mul (off p.2 (rect_center (pn_rect panel)).2 (rect_size (pn_rect panel)).2) (f32_of_Z 30)) ∨
  ((∀ p, pn_pointer panel = Some p → rect_contains (pn_rect panel) p = false) ∧ yaw = f32_0 ∧ pitch = f32_0).
(** The keys of the alerts that concern a node. *)
Definition counted_alerts (alerts : AlertStore) (node : NodeSummary) (n : Z) : Prop := ∃ keys : gset string,
  (∀ k, k ∈ keys ↔ ∃ a, FeAlert.active alerts !! k = Some a ∧ al_endpoint a = ns_endpoint node ∧ (al_node a = ns_node node ∨ al_rule_id a = "receiver.error")) ∧
  n = Z.of_nat (size keys).
(** The panel: the action for the worst alert of the node, and what goes into
    the frame and its rectangle. *)
Definition presented `{Egui, Sine} (profile : AvatarReactionProfile) (node : option NodeSummary) (alerts : AlertStore)
    (input : AvatarPresenterInput) (panel : Panel) : Prop :=
  ∃ severity action, match node with Some node => worst alerts node severity | None => severity = None end ∧ reaction profile severity action ∧
    ap_state input = match severity with None => Idle | Some Warning => Concerned | Some Critical => Urgent end ∧
    match node with Some node => counted_alerts alerts node (active_alert_count input) | None => active_alert_count input = 0 end ∧
    looks panel (look_yaw_degrees (frame_input input panel)) (look_pitch_degrees (frame_input input panel)) ∧
    ap_model_name input = model_name profile ∧ ap_message input = act_message action ∧ ap_motion input = motion action ∧
    (∃ r, moved (pn_rect panel) (motion action) (pn_time panel) r ∧ character_size input panel = rect_size (rect_shrink r (f32_of_Z 12))) ∧
    fi_time (frame_input input panel) = pn_time panel ∧
    fi_expression (frame_input input panel) = expression action ∧
    crossfade_seconds (frame_input input panel) = animation_crossfade_seconds profile ∧
    VrmRuntime.spring_bone_enabled (frame_input input panel) = FeProfile.spring_bone_enabled profile ∧
    VrmRuntime.look_at_enabled (frame_input input panel) = FeProfile.look_at_enabled profile.

Lemma max_severity_is l : match max_severity l with
  | None => l = [] | Some Warning => l ≠ [] ∧ ∀ x, x ∈ l → x = Warning | Some Critical => Critical ∈ l end.
Proof.
  induction l as [|x l IH]; [done|]. cbn [max_severity foldr]. fold (max_severity l). destruct (max_severity l) as [[]|]; destruct x; simpl.
  - split; [done|]. intros y [->|Hy]%elem_of_cons; [done|by apply IH].
  - by left.
  - by right.
  - by left.
  - subst l. split; [done|]. by intros y ->%list_elem_of_singleton.
  - by left.
Qed.
Lemma highest_worst alerts node : worst alerts node (highest_for_presenter alerts (ns_endpoint node) (ns_node node)).
Proof.
  unfold highest_for_presenter. set (l := filter _ (active_values alerts)). assert (∀ a, a ∈ l ↔ concerns alerts node a) as Hl.
  { intros a. unfold l, active_values, concerns. rewrite list_elem_of_filter, list_elem_of_fmap. unfold alert_relevant_to_presenter. split.
    - intros [Hr ([k x] & -> & Hx%elem_of_map_to_list)]. apply Is_true_true in Hr. apply andb_true_iff in Hr as [He Hn%orb_true_iff].
      split; [by exists k|]. split; [by apply bool_decide_eq_true in He|]. destruct Hn as [Hn|Hn]; apply bool_decide_eq_true in Hn; auto.
    - intros [[k Hk] [He Hn]]. split; [|exists (k, a); split; [done|by apply elem_of_map_to_list]]. apply Is_true_true, andb_true_iff. split; [by apply bool_decide_eq_true|].
      apply orb_true_iff. destruct Hn as [Hn|Hn]; [left|right]; by apply bool_decide_eq_true. }
  clearbody l. pose proof (max_severity_is (al_severity <$> l)) as Hm. destruct (max_severity _) as [[]|]; simpl.
  - destruct Hm as [Hne Hall]. split.
    + destruct l as [|a l]; [done|]. exists a. apply Hl. by left.
    + intros a Ha%Hl. apply Hall, list_elem_of_fmap. eauto.
  - apply list_elem_of_fmap in Hm as (a & Es & Ha%Hl). eauto.
  - apply fmap_nil_inv in Hm. subst l. intros a Ha%Hl. by apply elem_of_nil in Ha.
Qed.
Lemma relevant_spec a node : alert_relevant_to_presenter a (ns_endpoint node) (ns_node node) = true ↔
  al_endpoint a = ns_endpoint node ∧ (al_node a = ns_node node ∨ al_rule_id a = "receiver.error").
Proof. unfold alert_relevant_to_presenter. by rewrite andb_true_iff, orb_true_iff, !bool_decide_eq_true. Qed.
Lemma filter_values (p : AlertSnapshot → bool) (m : gmap string AlertSnapshot) :
  length (filter (λ a, p a) (map_to_list m).*2) = size (filter (λ ka, Is_true (p ka.2)) m).
Proof.
  induction m as [|k a m Hk IH] using map_ind; [by rewrite map_to_list_empty|].
  rewrite map_to_list_insert by done. cbn [fmap list_fmap snd]. rewrite filter_cons, map_filter_insert. simpl. destruct (decide (Is_true (p a))) as [Hp|Hp].
  - rewrite map_size_insert_None by (apply map_lookup_filter_None; by left). simpl. by rewrite IH.
  - rewrite delete_id by done. done.
Qed.
Lemma active_counted alerts node : counted_alerts alerts node (active_count_for_presenter alerts (ns_endpoint node) (ns_node node)).
Proof.
  exists (dom (filter (λ ka, Is_true (alert_relevant_to_presenter ka.2 (ns_endpoint node) (ns_node node))) (FeAlert.active alerts))). split.
  - intros k. rewrite elem_of_dom. split.
    + intros [a [Ha Hr]%map_lookup_filter_Some]. exists a. split; [done|]. by apply relevant_spec, Is_true_true.
    + intros (a & Ha & Hr). exists a. apply map_lookup_filter_Some. split; [done|]. by apply Is_true_true, relevant_spec.
  - unfold active_count_for_presenter, active_values, zlen. f_equal. rewrite size_dom. apply (filter_values (λ a, alert_relevant_to_presenter a (ns_endpoint node) (ns_node node))).
Qed.
Lemma frame_looks `{Egui, Sine} input panel : looks panel (look_yaw_degrees (frame_input input panel)) (look_pitch_degrees (frame_input input panel)).
Proof.
  unfold frame_input, pointer_over, looks. destruct (pn_pointer panel) as [[x y]|]; [|by right]. simpl.
  destruct (rect_contains (pn_rect panel) (x, y)) eqn:E; [left; by exists (x, y)|right]. split; [by intros ? [= <-]|done].
Qed.
Lemma motion_moved `{Egui, Sine} rect m seconds : moved rect m seconds (motion_rect rect m seconds).
Proof. destruct m; simpl; [done|eexists; split; [reflexivity|done]|done|done]. Qed.
Lemma for_node_presented `{Egui, Sine} nodes alerts profile panel : presented profile (head nodes) alerts (for_node nodes alerts profile) panel.
Proof.
  set (severity := head nodes ≫= λ node, highest_for_presenter alerts (ns_endpoint node) (ns_node node)). exists severity, (action_for profile severity). split.
  { unfold severity. destruct nodes as [|node nodes]; [done|]. apply highest_worst. }
  split; [by destruct severity as [[]|]|].
  split; [change (ap_state _) with (from_severity severity); by destruct severity as [[]|]|].
  split; [destruct nodes as [|node nodes]; [done|]; apply active_counted|]. split; [apply frame_looks|].
  do 3 (split; [done|]). split; [|by split_and!]. eexists. split; [apply motion_moved|done].
Qed.

(** ** The character is the applied one *)

Section character.
Context {Mat Format : Type} `{JsonFloat, JsonBytes, Glam, GlamPose, !Transforms NodeTransform Mat, !GltfCrate Mat, !GlamWorld Mat}.
Context `{!GlamMesh Mat, ImageDecoder, Naga, ImageReader} (base : string).
Context `{!GlamFrame Mat, Sine, HashOrder, !SurfaceFormat Format, Egui}.
Context `{!GltfCrateLaws Mat, !ImageDecoderLaws, !SineLaws, !HashOrderLaws} `{OrderLaws}.
Context (clock : nat → Reading) (local : Z → option string).

(** C30: The character in every run of the application, however frames,
    changes of profile, loads and the steps of the other threads interleave:
    nothing panics and no call to the GPU is invalid.  A model that is shown
    was decoded, from files that the loader has read, for the paths of the
    profile that is applied; a frame that shows the character last draws that
    model, as the applied profile says for the worst alert of its node: with that
    action's expression, message and motion, and the profile's crossfade and
    switches.  The node is one of the dashboard, if it has any, and its alerts
    those of the dashboard unless they were switched off in the same frame. *)
Theorem app_shows_character format control rc path p events :
  pool_outcomes p = [] → table_wf (edge_state (pool_db p)) → FeDashRun.small (edge_state (pool_db p)) →
  float_ok (ds_avatar_profile (dashboard_on clock local rc path p)) → Forall app_event_ok events →
  let app := run_app clock local events (app_on clock local control rc path p) in
  let s := app.1 in let u := app.2 in
  zlen (cache_events (ui_stage u)) < 2 ^ 64 →
  ∃ st : Stage Mat Format, run_stage base format (ui_stage u) = Some st ∧ valid_log (sg_log st) ∧
    (∀ scene, vrm_scene (sg_cache st) = Some scene → loaded_ok base scene ∧
      ∃ r files, LoaderFinishes files ∈ events ∧ paths_of r = wanted_of (ds_avatar_profile s) ∧
        rs_result (load_request base files r) = Ok (DecodedVrm scene)) ∧
    ∀ before input panel, ui_stage u = before ++ [Shows input panel] →
      shows_now input panel st ∧
      ∃ node alerts, presented (ds_avatar_profile s) node alerts input panel ∧
        match node with Some n => ∃ key, ds_nodes s !! key = Some n | None => ds_nodes s = ∅ end ∧ (ds_alerts s = alerts ∨ ds_alerts s = no_alerts).
Proof.
  intros Ho Hw Hs Hf He. pose proof (app_start clock local control rc path p Ho Hw Hs) as Hv. set (start := app_on clock local control rc path p) in *.
  assert (∀ es, (∀ e, e ∈ es → e ∈ events) → stage_ok (λ files, LoaderFinishes files ∈ events) (run_app clock local es start)) as Hst.
  { intros es. induction es as [|e es IH] using rev_ind; intros Hin.
    - split; [|intros before input panel E; by destruct before as [|? [|]]]. split; [split; [exact Hf|]|exact Hf|by repeat constructor|].
      + intros q Hq. simpl in Hq. destruct Hv as [_ [_ Hpend] _ _ _ _ _ _]. simpl in Hpend. exfalso. revert Hq. unfold dashboard_on, dashboard_new.
        destruct (restore _ _ _). by destruct (si_message _).
      + intros files. simpl. intros Hi. apply list_elem_of_singleton in Hi. done.
    - rewrite run_app_snoc. apply step_stage; [by apply (proj1 (Forall_forall _ _) He), Hin, elem_of_app; right; left|intros files ->; apply Hin, elem_of_app; right; left|].
      apply IH. intros e' He'. apply Hin, elem_of_app. by left. }
  specialize (Hst events (λ _ h, h)). pose proof (run_app_inv p Ho clock local events start Hv) as Hrun. destruct (run_app clock local events start) as [s u]. cbn [fst snd] in *. cbv zeta.
  intros Hl. destruct Hst as [[F D E Fi] L]. cbn [fst snd] in *. destruct (stage_start (Mat := Mat) base format) as (r & log & Er & I0).
  destruct (stage_runs base (ui_stage u) [] _ Hl E I0) as (st & Es & I & S). exists st. unfold run_stage. rewrite Er. cbn [mbind option_bind]. split; [exact Es|]. split; [apply I|]. split.
  - intros scene Hsc. destruct (current_scene base _ _ _ Hl I Hsc) as (Ea & Hok & _). split; [done|]. destruct (run_shows base _ Hl) as (_ & _ & Hshow).
    pose proof (sv_cache _ _ _ I) as C. simpl in C. rewrite <- C in Hshow. destruct (Hshow _ Ea) as (q & files & decoded & Hfin & Hwn & Hr & Hd & _). exists q, files. split; [by apply Fi|].
    destruct (vi_model _ _ Hrun) as [_ Hwanted]. cbn [fst snd] in Hwanted. split; [congruence|]. destruct decoded as [image size|scene']; [done|]. by injection Hd as ->.
  - intros before input panel Eq. split; [by eapply S|]. destruct (L _ _ _ Eq) as (nodes & alerts & [Hn Ha] & ->).
    exists (head nodes), alerts. split; [apply for_node_presented|]. split; [|done]. destruct Hn as [[-> Hn]|(key & node & Hk & ->)]; [done|by exists key].
Qed.
End character.

(** ** A character that is chosen, saved, loaded and shown *)

Module CharacterDemo.
Definition settings_frame (header : ViewButton → bool) (character : SettingsInput) (saved : TryRecv (result string ())) : AppEvent :=
  Frame [] {| v_clicked := header; v_agents := AppDemo.idle; v_settings := AppDemo.no_settings; v_character := character; v_saved := saved;
              v_panel := StageDemo.panel; v_preview := StageDemo.panel |}.
Definition chosen : SettingsInput :=
  {| s_clicked := λ b, match b with ApplyButton => true | _ => false end;
     s_typed := λ field text, match field with ModelPath => "model.vrm" | _ => text end;
     s_slid := λ x, x; s_system := None; s_dropped := []; s_open := λ _, Err "no image" |}.
Definition no_button : ViewButton → bool := λ _, false.
Definition events : list AppEvent :=
  [settings_frame (λ b, match b with HeaderCharacter => true | _ => false end) AppDemo.no_settings RecvEmpty;
   settings_frame no_button chosen RecvEmpty; settings_frame no_button AppDemo.no_settings (Received (Ok ()));
   LoaderTakes; LoaderFinishes ModelDemo.files; settings_frame no_button AppDemo.no_settings RecvEmpty].
End CharacterDemo.
Lemma settings_frame_ok header character saved : s_slid character = (λ x, x) → app_event_ok (CharacterDemo.settings_frame header character saved).
Proof. intros E. split; [by split|]. split; [by split|]. simpl. by rewrite E. Qed.
#[local] Existing Instance demo_storage.
#[local] Existing Instance demo_laws.
Lemma app_shows_character_witness : ∃ (st : Stage () ()) (scene : CpuVrmScene ()),
  run_stage "" () (ui_stage (demo_app CharacterDemo.events).2) = Some st ∧ vrm_scene (sg_cache st) = Some scene ∧ loaded_ok "" scene.
Proof.
  destruct (app_shows_character (Mat := ()) "" demo_clock (λ _, None) () AppDemo.control demo_restore "state.db" empty_pool CharacterDemo.events)
    as (st & E & _ & C & _).
  - reflexivity.
  - apply map_Forall_empty.
  - exact empty_small.
  - lazy. reflexivity.
  - repeat (apply Forall_cons; split; [first [exact I|by apply settings_frame_ok]|]). constructor.
  - lazy. reflexivity.
  - assert (match run_stage (Mat := ()) "" () (ui_stage (demo_app CharacterDemo.events).2) with Some st => is_some (vrm_scene (sg_cache st)) | None => false end = true) as Hs by (lazy; reflexivity).
    rewrite E in Hs. destruct (vrm_scene (sg_cache st)) as [scene|] eqn:Ev; [|discriminate Hs]. exists st, scene. split; [exact E|]. split; [exact Ev|]. exact (proj1 (C scene eq_refl)).
Defined.
